(* ===== verification/_CoqProject ===== *)
-Q . S2P
Prelude.v
CrcTables.v
Crc.v
CrcBe.v
Journal.v
Revoke.v
Recovery.v
RecoverySpec.v
RecoveryProperties.v
JournalWrite.v
JournalWriteSpec.v
JournalWriteLog.v
JournalProperties.v
BackedBlock.v
OutputFile.v
SparseFile.v
SparseRead.v
Resparse.v
SparseReadNormal.v
NormalOutput.v
SparseTools.v
SparseProperties.v
Badblocks.v
Region.v
Unicode.v
Hashmap.v
EventList.v
Vector.v
SortedVector.v
Bitops.v
BlockIo.v
Bitmap32.v
Bitmap64.v
GenBitmap.v
BitmapRefine.v
BitArray.v
RbTree.v
RbBitmap.v
RbBitmapSpec.v
RbBitmapLaws.v
BitmapProperties.v
UnixIo.v
UnixIoSpec.v
UnixIoProperties.v
UnixBlockIo.v
Dir.v
DirSpec.v
DirLink.v
DirFind.v
DirNew.v
DirBlock.v
DirProperties.v
Group.v
GroupSpec.v
Alloc.v
AllocSpec.v
AllocInode.v
AllocBlock.v
AllocProperties.v
Icount.v
IcountSpec.v
IcountProperties.v
Bmap.v
BmapSpec.v
BmapGrow.v
BmapWalk.v
Punch.v
PunchSpec.v
PunchCut.v
PunchProperties.v
FileIo.v
FileIoSpec.v
FileIoWrite.v
FileIoSize.v
FileIoProperties.v
FileSystem.v
FileSystemProperties.v
CText.v
Uuid.v
E2p.v
