(* ===== verification/Prelude.v ===== *)
(** * Verification of the image and file system tools

    The repository builds the tools that make and handle ext4 images for
    Android: e2fsprogs (external/e2fsprogs), libsparse with its command line
    tools (system/core/libsparse), and the system libraries they are linked with
    (libutils, libcutils, liblog).  This library models the parts of them that
    carry logic of their own and proves what makes these parts correct.

    ** The parts of the program and the files that model them

    - Sparse images (libsparse).  A sparse file is a block size, a length and an
      ordered list of backed blocks; it is filled from plain or sparse images,
      split, and written as chunks or as a plain image.
      BackedBlock.v is backed_block.cpp (the list, its [last_used] pointer,
      merging, splitting and moving); OutputFile.v and NormalOutput.v are
      output_file.cpp (the sparse and the normal writer over a table of
      operations); SparseFile.v and Resparse.v are sparse.cpp; SparseRead.v and
      SparseReadNormal.v are sparse_read.cpp; SparseTools.v is img2simg.cpp,
      simg2img.cpp, simg2simg.cpp and append2simg.cpp; SparseProperties.v holds
      the theorems.  The writer is proved against the class [SinkLaws], which
      the file and the callback implementation satisfy.
    - Checksums.  Crc.v is sparse_crc32.cpp, lib/ext2fs/crc16.c, the CRC-32C of
      lib/ext2fs/crc32c.c and the generator of its tables; CrcBe.v is
      [ext2fs_crc32_be]; CrcTables.v has the tables.
    - The ext4 journal.  Journal.v is the format of its blocks
      (lib/ext2fs/kernel-jbd.h), the journal structure and the buffers
      (jfs_compat.h, jfs_user.h, e2fsck/journal.c); Revoke.v is
      e2fsck/revoke.c; Recovery.v is e2fsck/recovery.c; JournalWrite.v is the
      writer of debugfs (debugfs/do_journal.c and the checksums of
      debugfs/journal.c).  RecoverySpec.v says what a log is and what it means,
      and proves the three passes against it; RecoveryProperties.v holds the
      theorems on recovery.  JournalWriteSpec.v and JournalWriteLog.v prove that
      what the writer leaves on the device is such a log; JournalProperties.v
      composes both.
    - Bitmaps (lib/ext2fs).  Bitops.v is bitops.c and bitops.h, with loads and
      stores of numbers in blocks; Bitmap32.v is gen_bitmap.c; Bitmap64.v is
      bmap64.h, with the class [BitmapOps] of the operations of a back end and
      the class [BitmapLaws] of what a back end promises; GenBitmap.v is
      gen_bitmap64.c and bitmaps.c, BitmapRefine.v its proofs against
      [BitmapLaws]; BitArray.v is blkmap64_ba.c; RbTree.v is rbtree.c and
      RbBitmap.v, RbBitmapSpec.v, RbBitmapLaws.v are blkmap64_rb.c: both are
      instances of the laws.  BitmapProperties.v holds the theorems.
    - Blocks of a device.  BlockIo.v has the class [BlockIo] of a channel that
      reads and writes blocks and the class [BlockIoLaws] of one that keeps
      them.  UnixIo.v is unix_io.c and io_manager.c, with its cache and the
      system calls; UnixIoSpec.v and UnixIoProperties.v prove it against an
      array of bytes; UnixBlockIo.v makes it an instance of [BlockIoLaws].
    - Directories.  Dir.v is dir_iterate.c, dirblock.c, lookup.c, link.c,
      unlink.c, newdir.c and a part of csum.c; DirSpec.v, DirLink.v, DirFind.v,
      DirNew.v and DirBlock.v prove what happens in one block, DirProperties.v
      in a directory, on any channel with [BlockIoLaws].
    - Block groups and allocation.  Group.v is blknum.c, alloc_stats.c and the
      descriptors of csum.c; Alloc.v is alloc.c.  GroupSpec.v, AllocSpec.v,
      AllocInode.v and AllocBlock.v prove that bitmaps, counts and checksums
      agree, for any back end of bitmaps; AllocProperties.v holds the theorem.
    - Counts of inodes.  Icount.v is icount.c; IcountSpec.v and
      IcountProperties.v prove it against a map from inodes to counts.
    - Files.  Bmap.v is the part of bmap.c for files that are mapped by indirect
      blocks, and i_block.c; Punch.v is that part of punch.c, and ind_block.c;
      FileIo.v is fileio.c and lib/ext2fs/hashmap.c.  They use the class
      [FileStore] of what they need of the library and are proved against
      [FileStoreLaws]: BmapSpec.v (the tree of pointers of a file), BmapGrow.v
      and BmapWalk.v (looking up and allocating), PunchSpec.v, PunchCut.v and
      PunchProperties.v (cutting off), FileIoSpec.v, FileIoWrite.v, FileIoSize.v
      and FileIoProperties.v (an open file with its buffer).  FileSystem.v
      composes the components: a volume with the bitmaps, descriptors and counts
      of Alloc.v on a channel is an instance of [FileStoreLaws];
      FileSystemProperties.v holds the theorems.
    - Small structures of e2fsprogs.  Badblocks.v is the sorted array of
      lib/ext2fs/badblocks.c; Region.v is e2fsck/region.c.
    - Names and text of e2fsprogs.  CText.v is what these libraries use of the C
      library (characters, numbers in text, printing); Uuid.v is lib/uuid without
      gen_uuid.c; E2p.v is the part of lib/e2p that turns numbers into names and
      back (features, mount options, hashes, modes, encodings, flags,
      percentages), with its theorems.
    - Libraries of the system.  Unicode.v is libutils/Unicode.cpp; Vector.v and
      SortedVector.v are libutils/VectorImpl.cpp and SharedBuffer.cpp; Hashmap.v
      is libcutils/hashmap.cpp; EventList.v is liblog/log_event_list.cpp.
    - This file: outcomes, memory, integers of fixed width, little-endian
      numbers, splices of lists, and lemmas on folds and finite ranges.

    ** How the code is modelled

    A function of the program is a Rocq function of the same name; a loop is a
    [Fixpoint], named after its function; a struct is a [Record].  A function
    that may abort or follow a bad pointer returns an [outcome]: [Crash
    AssertFailed], [Crash BadPointer], or [Done] with its result.  Errors the
    program reports are values, with the numbers the code uses.  State that is
    shared is kept in a heap or a device that the functions take and return:
    memory for list nodes (BackedBlock.v), reference-counted buffers (Vector.v),
    block devices (Journal.v, UnixIo.v), a volume (FileSystem.v), files and their
    read and write positions (OutputFile.v, SparseRead.v).  Integers are [Z], cut to their width with
    [u8], [u16], [u32], [u64], [s32], [s64] wherever the code can overflow or
    depends on it.  Bytes are [Z] from 0 to 255.  Code that is not part of the
    repository's own logic is a parameter: the operating system's reads and
    writes, the comparison and hash functions callers pass in, the map from
    blocks of the journal file to blocks of the device, the fast-commit
    callback, the time of day.  Parts of lib/ext2fs that are not modelled are
    parameters of those that call them (extents, data in inodes, the tables of
    inodes, reading bitmaps).

    ** What the theorems show

    - Sparse images: what is written is a well-formed file that expands to the
      image, with its checksum where the code computes it rightly
      ([write_emits_image]), or the image itself ([write_normal_expands]); what
      was written without a checksum is read back ([import_reads_back]), also
      through the tools ([simg_tools_roundtrip]), and so are plain files
      ([import_auto_reads_plain]); splitting a file loses nothing and keeps a
      limit of at least eight blocks ([resparse_partitions]); the block list stays ordered
      and stands for the image under every operation ([add_extends_image],
      [split_preserves_image]).
    - Checksums: each routine equals the bit-serial CRC of its polynomial
      ([sparse_crc32_is_crc], [crc16_is_crc], [crc32c_is_crc],
      [crc32_be_is_crc]).
    - Bitmaps: with either back end a sequence of operations that respects
      [allowed_run] answers like a set of numbers ([bitmap_refines_set]), the trees are search trees with the
      balance of red-black trees ([rb_tree_correct]), ranges are read and written
      as bytes without loss ([bitmap_bytes_roundtrip]), and the searches that go
      by words find what those by bits find ([ba_find_first_correct]).
    - File systems: the cache of the channel cannot be seen
      ([io_cache_transparent]); a directory is a map from names to inodes
      ([dir_refines_map], [link_finds_room]); inodes and blocks are taken and
      given back like elements of sets, and all counts and checksums agree, as far
      as [alloc_safe] allows ([alloc_refines_sets]); counts of inodes are a map
      ([icount_refines_counts]); an open file is a sequence of bytes with a
      position ([file_refines_bytes]), also on a volume, whose bitmaps, counts
      and checksums agree afterwards ([file_on_volume]); a write that runs out of
      blocks has written what it counts ([failed_write_counts]); cutting off a
      file gives back exactly the blocks that are not needed any more
      ([truncate_on_volume]).
    - Journal: recovery of a log brings back exactly the last unrevoked write of
      the committed transactions to each block ([recover_correct]); it can be
      interrupted after any number of writes and run again
      ([recover_after_crash]); whatever the blocks of the journal hold, it reads
      nothing outside of their buffers and of its tables, and returns unless a
      pass over the log goes on without end ([recover_safe]); the revoke table answers like the
      list of revokes, over the wrap of the transaction numbers
      ([revoke_table_correct]); what debugfs writes is brought back, in all
      formats but one ([write_then_recover]); the head of the log is found
      ([find_head_correct]).
    - Structures: the array of bad blocks, the regions, the hash table and the
      vectors are refinements of sets, maps and lists, with sharing, memory
      failure and reference counts ([u32_list_add_correct],
      [region_allocate_correct], [hashmap_put_correct],
      [insertAt_value_semantics], [vectors_share_and_free] and others); sorting
      is stable and a permutation ([sort_stable_permutation]).
    - Names: a text stands for an identifier exactly if it is what is printed for
      it, up to case ([uuid_text_roundtrip]), and identifiers are ordered by their
      bytes ([uuid_compare_bytes]); every feature is read back from its name
      ([feature_names_roundtrip]); a list of names sets and clears only the
      features it may ([edit_feature_safe]).
    - Text and events: UTF-8 and UTF-16 convert into each other without loss
      ([utf16_utf8_roundtrip]); events are read as they were written
      ([event_log_roundtrip]), what happens to a string that does not fit is
      stated for all strings ([truncated_string_overruns]), and the parser of arbitrary messages stays inside
      of them and ends ([event_reader_safe], [event_reader_terminates]).
    - Where the code does not do what it means to, a theorem or an evaluated
      example shows it, for instance [crc_of_holes_rejected],
      [truncated_string_overruns], [head_not_behind_commit],
      [recovery_can_loop], [fill_bits_never_ends], the module [Flaws] of JournalProperties.v,
      [new_range_never_ends] in AllocProperties.v, and [punch_frees_too_much],
      [punch_stops_early], [stale_bytes], [failed_write_miscounts] and
      [shared_block_overwritten] in FileSystemProperties.v, [mntopt_not_read] and
      [mntopt_overrun] in E2p.v.

    ** Fuel and bounds

    Loops that are not structural take fuel and yield [Crash OutOfFuel] without
    it.  Either the fuel is computed from the data and proved to be enough
    (the tags of a descriptor block: one more than the size of the block; the
    records of a revoke block; the searches and parsers), or the theorem is
    stated for every fuel above a bound it names ([log_turns] for a pass over
    the log: the number of descriptor, revoke and commit blocks, and one).
    For any log at all, [recover_safe] says that recovery returns or that one of
    its passes is still going on after all the turns it was given ([goes_on]):
    no other loop runs out.  That a corrupt log can be endless is a theorem of
    its own.  The theorems on
    journals assume blocks of at least 64 bytes (recovery) or 1024 bytes (the
    writer, the smallest block size of ext4), fewer than 2^31 transactions in a
    log, and that the blocks brought back do not lie in the journal itself.
    Ranges of bitmaps that are copied as bytes have fewer than 2^31 numbers,
    since the tree keeps positions in them in an [int]; in sparse images fills
    are whole blocks, and a checksum is only promised without holes and with
    fills of one block, since the code and sparse.h do not agree on the rest.
    Reference counts of shared buffers are not cut to their 32 bits.
    Those on files assume blocks of 1024 bytes to 64 KB (4 KB for cutting off,
    since [ext2fs_punch_ind] counts in 32 bits), one block in a cluster and at
    most 2^32 blocks on a volume; reading and writing take as many turns as there
    are bytes at most, which is their fuel.

    ** What is not modelled

    The gz output of libsparse (zlib code) and the texts of messages; loading
    and checking the super block of a journal, the fast-commit format
    and moving the journal inode (e2fsck/journal.c); the commands of debugfs; of
    lib/ext2fs: extents, inodes on disk, extended attributes, data in inodes,
    indexed directories, opening, creating and closing file systems, reading and
    writing bitmaps; the generation of identifiers, and the parts of lib/e2p
    that print super blocks or call ioctl; lib/blkid, lib/et, lib/ss and
    lib/support; the programs mke2fs, tune2fs, resize2fs and the passes of
    e2fsck; sockets, threads, properties and other glue of the system libraries;
    vendored libraries (boringssl, lz4, lzma, pcre, selinux, zlib, zopfli,
    zucchini, erofs-utils), which the repository only builds.  Lowering the size
    of an open file is modelled, but the theorems are about raising it and about
    [ext2fs_punch] itself, since the code does not clear the buffer of the file
    ([stale_bytes]); and they are about cutting off a file, since ranges that end
    before the end of the file are not given back rightly in general
    ([punch_frees_too_much], [punch_stops_early]). *)

From stdpp Require Export base numbers list list_numbers strings gmap.
From Stdlib Require Export ZArith Lia.

Local Open Scope Z_scope.

(** * Results of C functions

    A C function that returns normally yields [Done]; a failed [assert] yields
    [Crash AssertFailed]; dereferencing a pointer that is not a live object
    yields [Crash BadPointer]; a loop of the model that was given too little
    fuel yields [Crash OutOfFuel]. *)

Inductive crash := AssertFailed | BadPointer | OutOfFuel.

Inductive outcome (A : Type) :=
| Done (a : A)
| Crash (c : crash).
Arguments Done {A} a.
Arguments Crash {A} c.

Definition obind {A B} (m : outcome A) (k : A -> outcome B) : outcome B :=
  match m with Done a => k a | Crash c => Crash c end.

Declare Scope outcome_scope.
Delimit Scope outcome_scope with outcome.
Notation "'let*' x := m 'in' k" := (obind m (fun x => k))
  (at level 10, x pattern, m at level 100, k at level 200) : outcome_scope.
Open Scope outcome_scope.

Lemma obind_Done {A B} (m : outcome A) (k : A -> outcome B) b :
  obind m k = Done b <-> exists a, m = Done a /\ k a = Done b.
Proof.
  destruct m as [a|c]; simpl; split; [eauto|intros (a' & [= ->] & H); exact H|done|].
  intros (a' & [=] & _).
Qed.

(** * Memory allocation

    Objects are named by the address [malloc] returned; an address is handed
    out once, and [oom] says which requests fail. *)

Record allocator := mk_alloc { next_addr : Z; oom : Z -> bool }.

Definition malloc (al : allocator) : option Z * allocator :=
  let al' := mk_alloc (next_addr al + 1) (oom al) in
  if oom al (next_addr al) then (None, al') else (Some (next_addr al), al').

(** * Machine integers

    A w-bit integer is kept as a [Z]; every place where the C code stores a
    value in a narrower type applies the conversion below. *)

Definition u8 (z : Z) : Z := z mod 2 ^ 8.
Definition u16 (z : Z) : Z := z mod 2 ^ 16.
Definition u32 (z : Z) : Z := z mod 2 ^ 32.
Definition u64 (z : Z) : Z := z mod 2 ^ 64.
Definition s32 (z : Z) : Z := (z + 2 ^ 31) mod 2 ^ 32 - 2 ^ 31.
Definition s64 (z : Z) : Z := (z + 2 ^ 63) mod 2 ^ 64 - 2 ^ 63.

Definition is_u8 (z : Z) : Prop := 0 <= z < 2 ^ 8.
Definition is_u16 (z : Z) : Prop := 0 <= z < 2 ^ 16.
Definition is_u32 (z : Z) : Prop := 0 <= z < 2 ^ 32.
Definition is_u64 (z : Z) : Prop := 0 <= z < 2 ^ 64.

Create HintDb ints.

Lemma u8_small z : is_u8 z -> u8 z = z.
Proof. unfold is_u8, u8. intros. now apply Z.mod_small. Qed.
Lemma u16_small z : is_u16 z -> u16 z = z.
Proof. unfold is_u16, u16. intros. now apply Z.mod_small. Qed.
Lemma u32_small z : is_u32 z -> u32 z = z.
Proof. unfold is_u32, u32. intros. now apply Z.mod_small. Qed.
Lemma u64_small z : is_u64 z -> u64 z = z.
Proof. unfold is_u64, u64. intros. now apply Z.mod_small. Qed.
Lemma s32_small z : - 2 ^ 31 <= z < 2 ^ 31 -> s32 z = z.
Proof. unfold s32. intros. rewrite Z.mod_small; lia. Qed.
Lemma s64_small z : - 2 ^ 63 <= z < 2 ^ 63 -> s64 z = z.
Proof. unfold s64. intros. rewrite Z.mod_small; lia. Qed.

Lemma u8_range z : is_u8 (u8 z).
Proof. unfold is_u8, u8. apply Z.mod_pos_bound. lia. Qed.
Lemma u16_range z : is_u16 (u16 z).
Proof. unfold is_u16, u16. apply Z.mod_pos_bound. lia. Qed.
Lemma u32_range z : is_u32 (u32 z).
Proof. unfold is_u32, u32. apply Z.mod_pos_bound. lia. Qed.
Lemma u64_range z : is_u64 (u64 z).
Proof. unfold is_u64, u64. apply Z.mod_pos_bound. lia. Qed.

#[export] Hint Resolve u8_range u16_range u32_range u64_range : ints.

(** Unfolds the range predicates and calls [lia]. *)
Ltac range_lia := unfold is_u8, is_u16, is_u32, is_u64 in *; lia.

(** Linear arithmetic in the presence of [/] and [mod]. *)
Ltac div_lia := Z.div_mod_to_equations; first [lia | nia].

(** * Division helpers: the macros of sparse_defs.h *)

Definition DIV_ROUND_UP (x y : Z) : Z := (x + y - 1) / y.
Definition ALIGN (x y : Z) : Z := y * DIV_ROUND_UP x y.
Definition ALIGN_DOWN (x y : Z) : Z := y * (x / y).

Lemma div_round_up_bounds x y :
  0 < y -> x <= y * DIV_ROUND_UP x y < x + y.
Proof. unfold DIV_ROUND_UP. intros. div_lia. Qed.

Lemma div_round_up_mul k y : 0 < y -> DIV_ROUND_UP (k * y) y = k.
Proof. unfold DIV_ROUND_UP. intros. symmetry. apply (Z.div_unique _ _ _ (y - 1)); lia. Qed.

Lemma div_round_up_nonneg x y : 0 <= x -> 0 < y -> 0 <= DIV_ROUND_UP x y.
Proof. unfold DIV_ROUND_UP. intros. apply Z.div_pos; lia. Qed.

Lemma align_down_le x y : 0 < y -> ALIGN_DOWN x y <= x.
Proof. unfold ALIGN_DOWN. intros. div_lia. Qed.

(** * Bytes and little-endian words

    A byte is a [Z] in [0, 256); memory buffers are lists of bytes. *)

Definition bytes_ok (l : list Z) : Prop := Forall is_u8 l.

Fixpoint le_decode (l : list Z) : Z :=
  match l with
  | [] => 0
  | b :: t => b + 256 * le_decode t
  end.

Fixpoint le_encode (n : nat) (z : Z) : list Z :=
  match n with
  | O => []
  | S n' => z mod 256 :: le_encode n' (z / 256)
  end.

Lemma length_le_encode n z : length (le_encode n z) = n.
Proof. revert z; induction n; simpl; auto. Qed.

Lemma le_encode_bytes n z : bytes_ok (le_encode n z).
Proof.
  revert z; induction n as [|n IH]; intros z; simpl; constructor; [|apply IH].
  unfold is_u8. change (2 ^ 8) with 256. apply Z.mod_pos_bound. lia.
Qed.

Lemma le_decode_encode n z : le_decode (le_encode n z) = z mod 2 ^ (8 * Z.of_nat n).
Proof.
  revert z; induction n as [|n IH]; intros z; simpl le_decode.
  - now rewrite Z.mod_1_r.
  - rewrite IH. replace (8 * Z.of_nat (S n)) with (8 + 8 * Z.of_nat n) by lia.
    rewrite Z.pow_add_r by lia. change (2 ^ 8) with 256.
    rewrite (Z.rem_mul_r z 256) by lia. lia.
Qed.

Lemma le_decode_range l : bytes_ok l -> 0 <= le_decode l < 2 ^ (8 * Z.of_nat (length l)).
Proof.
  induction 1 as [|b l Hb Hl IH]; [simpl; lia|].
  cbn [le_decode length]. replace (8 * Z.of_nat (S (length l)))
    with (8 + 8 * Z.of_nat (length l)) by lia.
  rewrite Z.pow_add_r by lia. unfold is_u8 in Hb. lia.
Qed.

Lemma le_encode_decode l : bytes_ok l -> le_encode (length l) (le_decode l) = l.
Proof.
  induction 1 as [|b l Hb Hl IH]; [done|]. unfold is_u8 in Hb. simpl. f_equal.
  - rewrite Z.mul_comm, Z.mod_add, Z.mod_small; lia.
  - rewrite Z.mul_comm, Z.div_add, Z.div_small by lia. exact IH.
Qed.

Lemma le_decode_app l k :
  le_decode (l ++ k) = le_decode l + 2 ^ (8 * Z.of_nat (length l)) * le_decode k.
Proof.
  induction l as [|b l IH]; [cbn -[Z.mul]; lia|].
  cbn [le_decode app length]. rewrite IH.
  replace (8 * Z.of_nat (S (length l))) with (8 + 8 * Z.of_nat (length l)) by lia.
  rewrite Z.pow_add_r by lia. lia.
Qed.

Lemma bytes_ok_app l k : bytes_ok (l ++ k) <-> bytes_ok l /\ bytes_ok k.
Proof. apply Forall_app. Qed.

Lemma bytes_ok_take n l : bytes_ok l -> bytes_ok (take n l).
Proof. apply Forall_take. Qed.
Lemma bytes_ok_drop n l : bytes_ok l -> bytes_ok (drop n l).
Proof. apply Forall_drop. Qed.

#[export] Hint Resolve le_encode_bytes bytes_ok_take bytes_ok_drop : ints.

(** [x = a + 2^n b] with [a] below [2^n] is the same as setting disjoint bits. *)
Lemma lxor_high_low n a b :
  0 <= n -> 0 <= a < 2 ^ n -> Z.lxor a (Z.shiftl b n) = a + 2 ^ n * b.
Proof.
  intros Hn Ha. rewrite <- Z.add_nocarry_lxor.
  - rewrite Z.shiftl_mul_pow2 by lia. lia.
  - apply Z.bits_inj'. intros i Hi. rewrite Z.land_spec, Z.bits_0.
    destruct (Z.lt_ge_cases i n) as [Hlt|Hge].
    + rewrite Z.shiftl_spec_low by lia. apply andb_false_r.
    + rewrite <- (Z.mod_small a (2 ^ n)) by lia.
      rewrite Z.mod_pow2_bits_high by lia. apply andb_false_l.
Qed.

Lemma testbit_high w a i : 0 <= a < 2 ^ w -> w <= i -> Z.testbit a i = false.
Proof.
  intros Ha Hi. destruct (Z.lt_ge_cases w 0) as [Hw|Hw].
  - rewrite Z.pow_neg_r in Ha; lia.
  - rewrite <- (Z.mod_small a (2 ^ w)) by lia. apply Z.mod_pow2_bits_high. lia.
Qed.

Lemma lxor_range w a b :
  0 <= w -> 0 <= a < 2 ^ w -> 0 <= b < 2 ^ w -> 0 <= Z.lxor a b < 2 ^ w.
Proof.
  intros Hw Ha Hb.
  replace (Z.lxor a b) with (Z.lxor a b mod 2 ^ w); [apply Z.mod_pos_bound; lia|].
  apply Z.bits_inj'. intros i Hi. destruct (Z.lt_ge_cases i w).
  - now rewrite Z.mod_pow2_bits_low.
  - rewrite Z.mod_pow2_bits_high, Z.lxor_spec by lia.
    now rewrite (testbit_high w a i), (testbit_high w b i).
Qed.

(** * Folds *)

(** Two loop bodies that agree wherever the invariant [P] holds compute the
    same result and keep the invariant. *)
(** A fold over another representation [r] of the accumulator. *)
Lemma fold_left_rep {A B} (P : A -> Prop) (Q : B -> Prop) (r : A -> A) (f g : A -> B -> A) l a :
  P a -> Forall Q l ->
  (forall a b, P a -> Q b -> f (r a) b = r (g a b) /\ P (g a b)) ->
  fold_left f l (r a) = r (fold_left g l a) /\ P (fold_left g l a).
Proof.
  intros Ha Hl Hstep. revert a Ha.
  induction Hl as [|b l Hb _ IH]; intros a Ha; simpl; [done|].
  destruct (Hstep a b Ha Hb) as [-> Hg]. auto.
Qed.

Lemma fold_left_sim {A B} (P : A -> Prop) (Q : B -> Prop) (f g : A -> B -> A) l a :
  P a -> Forall Q l ->
  (forall a b, P a -> Q b -> f a b = g a b /\ P (g a b)) ->
  fold_left f l a = fold_left g l a /\ P (fold_left g l a).
Proof.
  intros Ha Hl Hstep. revert a Ha.
  induction Hl as [|b l Hb _ IH]; intros a Ha; simpl; [done|].
  destruct (Hstep a b Ha Hb) as [-> Hg]. auto.
Qed.

(** * Finite ranges *)

(** A decidable fact about the numbers below [n], checked by evaluation. *)
Lemma forall_range (P : Z -> bool) n :
  forallb P (seqZ 0 n) = true -> forall d, 0 <= d < n -> P d = true.
Proof. intros H d Hd. rewrite forallb_forall in H. apply H, list_elem_of_In, elem_of_seqZ. lia. Qed.

(** Masking with a shifted mask. *)
Lemma land_shiftl a k n : 0 <= n -> Z.land a (Z.shiftl k n) = Z.shiftl (Z.land (Z.shiftr a n) k) n.
Proof.
  intros Hn. apply Z.bits_inj'. intros i Hi. rewrite Z.land_spec. destruct (Z.lt_ge_cases i n).
  - rewrite !Z.shiftl_spec_low by lia. apply andb_false_r.
  - rewrite !Z.shiftl_spec_high, Z.land_spec, Z.shiftr_spec by lia. by rewrite Z.sub_add.
Qed.

(** Setting bits below the lowest bit of a multiple of [2 ^ n] is adding. *)
Lemma lor_high_low n a b :
  0 <= n -> 0 <= b < 2 ^ n -> Z.lor (a * 2 ^ n) b = a * 2 ^ n + b.
Proof.
  intros Hn Hb. rewrite <- Z.shiftl_mul_pow2 by lia.
  assert (Hz : Z.land (Z.shiftl a n) b = 0).
  { apply Z.bits_inj'. intros i Hi. rewrite Z.land_spec, Z.bits_0.
    destruct (Z.lt_ge_cases i n); [by rewrite Z.shiftl_spec_low|].
    rewrite (testbit_high n b i) by lia. apply andb_false_r. }
  rewrite <- Z.lxor_lor by done. rewrite Z.add_nocarry_lxor by done. done.
Qed.

(** * Overwriting a part of an array *)

Definition splice {A} (l : list A) (i : nat) (bs : list A) : list A := take i l ++ bs ++ drop (i + length bs) l.

Lemma length_splice {A} (l : list A) i bs : (i + length bs <= length l)%nat -> length (splice l i bs) = length l.
Proof. intros H. unfold splice. rewrite !length_app, length_take, length_drop. lia. Qed.

Lemma splice_app {A} (l : list A) i a b :
  (i + length a + length b <= length l)%nat -> splice (splice l i a) (i + length a) b = splice l i (a ++ b).
Proof.
  intros H. unfold splice. rewrite (app_assoc (take i l)).
  assert (Hl : length (take i l ++ a) = (i + length a)%nat) by (rewrite length_app, length_take; lia).
  rewrite take_app_length' by done. rewrite <- !app_assoc. do 3 f_equal.
  rewrite (app_assoc (take i l)), drop_app_ge by lia. rewrite Hl, drop_drop, length_app. f_equal. lia.
Qed.

Lemma splice_insert {A} (l : list A) i bs k x :
  (i + length bs <= length l)%nat -> (k < length bs)%nat -> <[(i + k)%nat := x]> (splice l i bs) = splice l i (<[k := x]> bs).
Proof.
  intros H Hk. unfold splice. rewrite insert_app_r_alt by (rewrite length_take; lia).
  rewrite length_take, Nat.min_l by lia. replace (i + k - i)%nat with k by lia.
  rewrite insert_app_l by done. by rewrite length_insert.
Qed.

(** What is in front of the part, and what is behind it. *)
Lemma take_splice {A} (l : list A) i n bs :
  (n <= i)%nat -> (i <= length l)%nat -> take n (splice l i bs) = take n l.
Proof.
  intros Hn Hi. unfold splice. rewrite take_app_le by (rewrite length_take; lia). rewrite take_take. f_equal. lia.
Qed.

Lemma take_splice_end {A} (l : list A) i bs :
  (i <= length l)%nat -> take (i + length bs) (splice l i bs) = take i l ++ bs.
Proof.
  intros Hi. unfold splice. rewrite app_assoc. apply take_app_length'. rewrite length_app, length_take. lia.
Qed.

Lemma drop_splice {A} (l : list A) i n bs :
  (i + length bs <= n)%nat -> (i <= length l)%nat -> drop n (splice l i bs) = drop n l.
Proof.
  intros Hn Hi. unfold splice. rewrite app_assoc, drop_app_ge by (rewrite length_app, length_take; lia).
  rewrite length_app, length_take, drop_drop. f_equal. lia.
Qed.
