(* ===== verification/CrcTables.v ===== *)
(** The constant tables of the checksum code: [crc32_tab] of
    libsparse/sparse_crc32.cpp, [crc16_table] of lib/ext2fs/crc16.c, and the
    eight rows each of [crc32ctable_le] and of [crc32table_be] (before [tobe]) of
    lib/ext2fs/crc32c_table.h.  They are transcribed entry by entry; Crc.v and CrcBe.v
    prove what they contain. *)

From stdpp Require Import base list numbers.

Local Open Scope Z_scope.

(** libsparse/sparse_crc32.cpp, [crc32_tab]. *)
Definition crc32_tab : list Z :=
  [0x00000000; 0x77073096; 0xee0e612c; 0x990951ba; 0x076dc419; 0x706af48f; 0xe963a535; 0x9e6495a3;
   0x0edb8832; 0x79dcb8a4; 0xe0d5e91e; 0x97d2d988; 0x09b64c2b; 0x7eb17cbd; 0xe7b82d07; 0x90bf1d91;
   0x1db71064; 0x6ab020f2; 0xf3b97148; 0x84be41de; 0x1adad47d; 0x6ddde4eb; 0xf4d4b551; 0x83d385c7;
   0x136c9856; 0x646ba8c0; 0xfd62f97a; 0x8a65c9ec; 0x14015c4f; 0x63066cd9; 0xfa0f3d63; 0x8d080df5;
   0x3b6e20c8; 0x4c69105e; 0xd56041e4; 0xa2677172; 0x3c03e4d1; 0x4b04d447; 0xd20d85fd; 0xa50ab56b;
   0x35b5a8fa; 0x42b2986c; 0xdbbbc9d6; 0xacbcf940; 0x32d86ce3; 0x45df5c75; 0xdcd60dcf; 0xabd13d59;
   0x26d930ac; 0x51de003a; 0xc8d75180; 0xbfd06116; 0x21b4f4b5; 0x56b3c423; 0xcfba9599; 0xb8bda50f;
   0x2802b89e; 0x5f058808; 0xc60cd9b2; 0xb10be924; 0x2f6f7c87; 0x58684c11; 0xc1611dab; 0xb6662d3d;
   0x76dc4190; 0x01db7106; 0x98d220bc; 0xefd5102a; 0x71b18589; 0x06b6b51f; 0x9fbfe4a5; 0xe8b8d433;
   0x7807c9a2; 0x0f00f934; 0x9609a88e; 0xe10e9818; 0x7f6a0dbb; 0x086d3d2d; 0x91646c97; 0xe6635c01;
   0x6b6b51f4; 0x1c6c6162; 0x856530d8; 0xf262004e; 0x6c0695ed; 0x1b01a57b; 0x8208f4c1; 0xf50fc457;
   0x65b0d9c6; 0x12b7e950; 0x8bbeb8ea; 0xfcb9887c; 0x62dd1ddf; 0x15da2d49; 0x8cd37cf3; 0xfbd44c65;
   0x4db26158; 0x3ab551ce; 0xa3bc0074; 0xd4bb30e2; 0x4adfa541; 0x3dd895d7; 0xa4d1c46d; 0xd3d6f4fb;
   0x4369e96a; 0x346ed9fc; 0xad678846; 0xda60b8d0; 0x44042d73; 0x33031de5; 0xaa0a4c5f; 0xdd0d7cc9;
   0x5005713c; 0x270241aa; 0xbe0b1010; 0xc90c2086; 0x5768b525; 0x206f85b3; 0xb966d409; 0xce61e49f;
   0x5edef90e; 0x29d9c998; 0xb0d09822; 0xc7d7a8b4; 0x59b33d17; 0x2eb40d81; 0xb7bd5c3b; 0xc0ba6cad;
   0xedb88320; 0x9abfb3b6; 0x03b6e20c; 0x74b1d29a; 0xead54739; 0x9dd277af; 0x04db2615; 0x73dc1683;
   0xe3630b12; 0x94643b84; 0x0d6d6a3e; 0x7a6a5aa8; 0xe40ecf0b; 0x9309ff9d; 0x0a00ae27; 0x7d079eb1;
   0xf00f9344; 0x8708a3d2; 0x1e01f268; 0x6906c2fe; 0xf762575d; 0x806567cb; 0x196c3671; 0x6e6b06e7;
   0xfed41b76; 0x89d32be0; 0x10da7a5a; 0x67dd4acc; 0xf9b9df6f; 0x8ebeeff9; 0x17b7be43; 0x60b08ed5;
   0xd6d6a3e8; 0xa1d1937e; 0x38d8c2c4; 0x4fdff252; 0xd1bb67f1; 0xa6bc5767; 0x3fb506dd; 0x48b2364b;
   0xd80d2bda; 0xaf0a1b4c; 0x36034af6; 0x41047a60; 0xdf60efc3; 0xa867df55; 0x316e8eef; 0x4669be79;
   0xcb61b38c; 0xbc66831a; 0x256fd2a0; 0x5268e236; 0xcc0c7795; 0xbb0b4703; 0x220216b9; 0x5505262f;
   0xc5ba3bbe; 0xb2bd0b28; 0x2bb45a92; 0x5cb36a04; 0xc2d7ffa7; 0xb5d0cf31; 0x2cd99e8b; 0x5bdeae1d;
   0x9b64c2b0; 0xec63f226; 0x756aa39c; 0x026d930a; 0x9c0906a9; 0xeb0e363f; 0x72076785; 0x05005713;
   0x95bf4a82; 0xe2b87a14; 0x7bb12bae; 0x0cb61b38; 0x92d28e9b; 0xe5d5be0d; 0x7cdcefb7; 0x0bdbdf21;
   0x86d3d2d4; 0xf1d4e242; 0x68ddb3f8; 0x1fda836e; 0x81be16cd; 0xf6b9265b; 0x6fb077e1; 0x18b74777;
   0x88085ae6; 0xff0f6a70; 0x66063bca; 0x11010b5c; 0x8f659eff; 0xf862ae69; 0x616bffd3; 0x166ccf45;
   0xa00ae278; 0xd70dd2ee; 0x4e048354; 0x3903b3c2; 0xa7672661; 0xd06016f7; 0x4969474d; 0x3e6e77db;
   0xaed16a4a; 0xd9d65adc; 0x40df0b66; 0x37d83bf0; 0xa9bcae53; 0xdebb9ec5; 0x47b2cf7f; 0x30b5ffe9;
   0xbdbdf21c; 0xcabac28a; 0x53b39330; 0x24b4a3a6; 0xbad03605; 0xcdd70693; 0x54de5729; 0x23d967bf;
   0xb3667a2e; 0xc4614ab8; 0x5d681b02; 0x2a6f2b94; 0xb40bbe37; 0xc30c8ea1; 0x5a05df1b; 0x2d02ef8d].

(** lib/ext2fs/crc16.c, [crc16_table]. *)
Definition crc16_table : list Z :=
  [0x0000; 0xc0c1; 0xc181; 0x0140; 0xc301; 0x03c0; 0x0280; 0xc241;
   0xc601; 0x06c0; 0x0780; 0xc741; 0x0500; 0xc5c1; 0xc481; 0x0440;
   0xcc01; 0x0cc0; 0x0d80; 0xcd41; 0x0f00; 0xcfc1; 0xce81; 0x0e40;
   0x0a00; 0xcac1; 0xcb81; 0x0b40; 0xc901; 0x09c0; 0x0880; 0xc841;
   0xd801; 0x18c0; 0x1980; 0xd941; 0x1b00; 0xdbc1; 0xda81; 0x1a40;
   0x1e00; 0xdec1; 0xdf81; 0x1f40; 0xdd01; 0x1dc0; 0x1c80; 0xdc41;
   0x1400; 0xd4c1; 0xd581; 0x1540; 0xd701; 0x17c0; 0x1680; 0xd641;
   0xd201; 0x12c0; 0x1380; 0xd341; 0x1100; 0xd1c1; 0xd081; 0x1040;
   0xf001; 0x30c0; 0x3180; 0xf141; 0x3300; 0xf3c1; 0xf281; 0x3240;
   0x3600; 0xf6c1; 0xf781; 0x3740; 0xf501; 0x35c0; 0x3480; 0xf441;
   0x3c00; 0xfcc1; 0xfd81; 0x3d40; 0xff01; 0x3fc0; 0x3e80; 0xfe41;
   0xfa01; 0x3ac0; 0x3b80; 0xfb41; 0x3900; 0xf9c1; 0xf881; 0x3840;
   0x2800; 0xe8c1; 0xe981; 0x2940; 0xeb01; 0x2bc0; 0x2a80; 0xea41;
   0xee01; 0x2ec0; 0x2f80; 0xef41; 0x2d00; 0xedc1; 0xec81; 0x2c40;
   0xe401; 0x24c0; 0x2580; 0xe541; 0x2700; 0xe7c1; 0xe681; 0x2640;
   0x2200; 0xe2c1; 0xe381; 0x2340; 0xe101; 0x21c0; 0x2080; 0xe041;
   0xa001; 0x60c0; 0x6180; 0xa141; 0x6300; 0xa3c1; 0xa281; 0x6240;
   0x6600; 0xa6c1; 0xa781; 0x6740; 0xa501; 0x65c0; 0x6480; 0xa441;
   0x6c00; 0xacc1; 0xad81; 0x6d40; 0xaf01; 0x6fc0; 0x6e80; 0xae41;
   0xaa01; 0x6ac0; 0x6b80; 0xab41; 0x6900; 0xa9c1; 0xa881; 0x6840;
   0x7800; 0xb8c1; 0xb981; 0x7940; 0xbb01; 0x7bc0; 0x7a80; 0xba41;
   0xbe01; 0x7ec0; 0x7f80; 0xbf41; 0x7d00; 0xbdc1; 0xbc81; 0x7c40;
   0xb401; 0x74c0; 0x7580; 0xb541; 0x7700; 0xb7c1; 0xb681; 0x7640;
   0x7200; 0xb2c1; 0xb381; 0x7340; 0xb101; 0x71c0; 0x7080; 0xb041;
   0x5000; 0x90c1; 0x9181; 0x5140; 0x9301; 0x53c0; 0x5280; 0x9241;
   0x9601; 0x56c0; 0x5780; 0x9741; 0x5500; 0x95c1; 0x9481; 0x5440;
   0x9c01; 0x5cc0; 0x5d80; 0x9d41; 0x5f00; 0x9fc1; 0x9e81; 0x5e40;
   0x5a00; 0x9ac1; 0x9b81; 0x5b40; 0x9901; 0x59c0; 0x5880; 0x9841;
   0x8801; 0x48c0; 0x4980; 0x8941; 0x4b00; 0x8bc1; 0x8a81; 0x4a40;
   0x4e00; 0x8ec1; 0x8f81; 0x4f40; 0x8d01; 0x4dc0; 0x4c80; 0x8c41;
   0x4400; 0x84c1; 0x8581; 0x4540; 0x8701; 0x47c0; 0x4680; 0x8641;
   0x8201; 0x42c0; 0x4380; 0x8341; 0x4100; 0x81c1; 0x8081; 0x4040].

(** lib/ext2fs/crc32c_table.h, row 0 of [crc32ctable_le]. *)
Definition crc32ctable_le_0 : list Z :=
  [0x00000000; 0xf26b8303; 0xe13b70f7; 0x1350f3f4; 0xc79a971f; 0x35f1141c; 0x26a1e7e8; 0xd4ca64eb;
   0x8ad958cf; 0x78b2dbcc; 0x6be22838; 0x9989ab3b; 0x4d43cfd0; 0xbf284cd3; 0xac78bf27; 0x5e133c24;
   0x105ec76f; 0xe235446c; 0xf165b798; 0x030e349b; 0xd7c45070; 0x25afd373; 0x36ff2087; 0xc494a384;
   0x9a879fa0; 0x68ec1ca3; 0x7bbcef57; 0x89d76c54; 0x5d1d08bf; 0xaf768bbc; 0xbc267848; 0x4e4dfb4b;
   0x20bd8ede; 0xd2d60ddd; 0xc186fe29; 0x33ed7d2a; 0xe72719c1; 0x154c9ac2; 0x061c6936; 0xf477ea35;
   0xaa64d611; 0x580f5512; 0x4b5fa6e6; 0xb93425e5; 0x6dfe410e; 0x9f95c20d; 0x8cc531f9; 0x7eaeb2fa;
   0x30e349b1; 0xc288cab2; 0xd1d83946; 0x23b3ba45; 0xf779deae; 0x05125dad; 0x1642ae59; 0xe4292d5a;
   0xba3a117e; 0x4851927d; 0x5b016189; 0xa96ae28a; 0x7da08661; 0x8fcb0562; 0x9c9bf696; 0x6ef07595;
   0x417b1dbc; 0xb3109ebf; 0xa0406d4b; 0x522bee48; 0x86e18aa3; 0x748a09a0; 0x67dafa54; 0x95b17957;
   0xcba24573; 0x39c9c670; 0x2a993584; 0xd8f2b687; 0x0c38d26c; 0xfe53516f; 0xed03a29b; 0x1f682198;
   0x5125dad3; 0xa34e59d0; 0xb01eaa24; 0x42752927; 0x96bf4dcc; 0x64d4cecf; 0x77843d3b; 0x85efbe38;
   0xdbfc821c; 0x2997011f; 0x3ac7f2eb; 0xc8ac71e8; 0x1c661503; 0xee0d9600; 0xfd5d65f4; 0x0f36e6f7;
   0x61c69362; 0x93ad1061; 0x80fde395; 0x72966096; 0xa65c047d; 0x5437877e; 0x4767748a; 0xb50cf789;
   0xeb1fcbad; 0x197448ae; 0x0a24bb5a; 0xf84f3859; 0x2c855cb2; 0xdeeedfb1; 0xcdbe2c45; 0x3fd5af46;
   0x7198540d; 0x83f3d70e; 0x90a324fa; 0x62c8a7f9; 0xb602c312; 0x44694011; 0x5739b3e5; 0xa55230e6;
   0xfb410cc2; 0x092a8fc1; 0x1a7a7c35; 0xe811ff36; 0x3cdb9bdd; 0xceb018de; 0xdde0eb2a; 0x2f8b6829;
   0x82f63b78; 0x709db87b; 0x63cd4b8f; 0x91a6c88c; 0x456cac67; 0xb7072f64; 0xa457dc90; 0x563c5f93;
   0x082f63b7; 0xfa44e0b4; 0xe9141340; 0x1b7f9043; 0xcfb5f4a8; 0x3dde77ab; 0x2e8e845f; 0xdce5075c;
   0x92a8fc17; 0x60c37f14; 0x73938ce0; 0x81f80fe3; 0x55326b08; 0xa759e80b; 0xb4091bff; 0x466298fc;
   0x1871a4d8; 0xea1a27db; 0xf94ad42f; 0x0b21572c; 0xdfeb33c7; 0x2d80b0c4; 0x3ed04330; 0xccbbc033;
   0xa24bb5a6; 0x502036a5; 0x4370c551; 0xb11b4652; 0x65d122b9; 0x97baa1ba; 0x84ea524e; 0x7681d14d;
   0x2892ed69; 0xdaf96e6a; 0xc9a99d9e; 0x3bc21e9d; 0xef087a76; 0x1d63f975; 0x0e330a81; 0xfc588982;
   0xb21572c9; 0x407ef1ca; 0x532e023e; 0xa145813d; 0x758fe5d6; 0x87e466d5; 0x94b49521; 0x66df1622;
   0x38cc2a06; 0xcaa7a905; 0xd9f75af1; 0x2b9cd9f2; 0xff56bd19; 0x0d3d3e1a; 0x1e6dcdee; 0xec064eed;
   0xc38d26c4; 0x31e6a5c7; 0x22b65633; 0xd0ddd530; 0x0417b1db; 0xf67c32d8; 0xe52cc12c; 0x1747422f;
   0x49547e0b; 0xbb3ffd08; 0xa86f0efc; 0x5a048dff; 0x8ecee914; 0x7ca56a17; 0x6ff599e3; 0x9d9e1ae0;
   0xd3d3e1ab; 0x21b862a8; 0x32e8915c; 0xc083125f; 0x144976b4; 0xe622f5b7; 0xf5720643; 0x07198540;
   0x590ab964; 0xab613a67; 0xb831c993; 0x4a5a4a90; 0x9e902e7b; 0x6cfbad78; 0x7fab5e8c; 0x8dc0dd8f;
   0xe330a81a; 0x115b2b19; 0x020bd8ed; 0xf0605bee; 0x24aa3f05; 0xd6c1bc06; 0xc5914ff2; 0x37faccf1;
   0x69e9f0d5; 0x9b8273d6; 0x88d28022; 0x7ab90321; 0xae7367ca; 0x5c18e4c9; 0x4f48173d; 0xbd23943e;
   0xf36e6f75; 0x0105ec76; 0x12551f82; 0xe03e9c81; 0x34f4f86a; 0xc69f7b69; 0xd5cf889d; 0x27a40b9e;
   0x79b737ba; 0x8bdcb4b9; 0x988c474d; 0x6ae7c44e; 0xbe2da0a5; 0x4c4623a6; 0x5f16d052; 0xad7d5351].

(** lib/ext2fs/crc32c_table.h, row 1 of [crc32ctable_le]. *)
Definition crc32ctable_le_1 : list Z :=
  [0x00000000; 0x13a29877; 0x274530ee; 0x34e7a899; 0x4e8a61dc; 0x5d28f9ab; 0x69cf5132; 0x7a6dc945;
   0x9d14c3b8; 0x8eb65bcf; 0xba51f356; 0xa9f36b21; 0xd39ea264; 0xc03c3a13; 0xf4db928a; 0xe7790afd;
   0x3fc5f181; 0x2c6769f6; 0x1880c16f; 0x0b225918; 0x714f905d; 0x62ed082a; 0x560aa0b3; 0x45a838c4;
   0xa2d13239; 0xb173aa4e; 0x859402d7; 0x96369aa0; 0xec5b53e5; 0xfff9cb92; 0xcb1e630b; 0xd8bcfb7c;
   0x7f8be302; 0x6c297b75; 0x58ced3ec; 0x4b6c4b9b; 0x310182de; 0x22a31aa9; 0x1644b230; 0x05e62a47;
   0xe29f20ba; 0xf13db8cd; 0xc5da1054; 0xd6788823; 0xac154166; 0xbfb7d911; 0x8b507188; 0x98f2e9ff;
   0x404e1283; 0x53ec8af4; 0x670b226d; 0x74a9ba1a; 0x0ec4735f; 0x1d66eb28; 0x298143b1; 0x3a23dbc6;
   0xdd5ad13b; 0xcef8494c; 0xfa1fe1d5; 0xe9bd79a2; 0x93d0b0e7; 0x80722890; 0xb4958009; 0xa737187e;
   0xff17c604; 0xecb55e73; 0xd852f6ea; 0xcbf06e9d; 0xb19da7d8; 0xa23f3faf; 0x96d89736; 0x857a0f41;
   0x620305bc; 0x71a19dcb; 0x45463552; 0x56e4ad25; 0x2c896460; 0x3f2bfc17; 0x0bcc548e; 0x186eccf9;
   0xc0d23785; 0xd370aff2; 0xe797076b; 0xf4359f1c; 0x8e585659; 0x9dface2e; 0xa91d66b7; 0xbabffec0;
   0x5dc6f43d; 0x4e646c4a; 0x7a83c4d3; 0x69215ca4; 0x134c95e1; 0x00ee0d96; 0x3409a50f; 0x27ab3d78;
   0x809c2506; 0x933ebd71; 0xa7d915e8; 0xb47b8d9f; 0xce1644da; 0xddb4dcad; 0xe9537434; 0xfaf1ec43;
   0x1d88e6be; 0x0e2a7ec9; 0x3acdd650; 0x296f4e27; 0x53028762; 0x40a01f15; 0x7447b78c; 0x67e52ffb;
   0xbf59d487; 0xacfb4cf0; 0x981ce469; 0x8bbe7c1e; 0xf1d3b55b; 0xe2712d2c; 0xd69685b5; 0xc5341dc2;
   0x224d173f; 0x31ef8f48; 0x050827d1; 0x16aabfa6; 0x6cc776e3; 0x7f65ee94; 0x4b82460d; 0x5820de7a;
   0xfbc3faf9; 0xe861628e; 0xdc86ca17; 0xcf245260; 0xb5499b25; 0xa6eb0352; 0x920cabcb; 0x81ae33bc;
   0x66d73941; 0x7575a136; 0x419209af; 0x523091d8; 0x285d589d; 0x3bffc0ea; 0x0f186873; 0x1cbaf004;
   0xc4060b78; 0xd7a4930f; 0xe3433b96; 0xf0e1a3e1; 0x8a8c6aa4; 0x992ef2d3; 0xadc95a4a; 0xbe6bc23d;
   0x5912c8c0; 0x4ab050b7; 0x7e57f82e; 0x6df56059; 0x1798a91c; 0x043a316b; 0x30dd99f2; 0x237f0185;
   0x844819fb; 0x97ea818c; 0xa30d2915; 0xb0afb162; 0xcac27827; 0xd960e050; 0xed8748c9; 0xfe25d0be;
   0x195cda43; 0x0afe4234; 0x3e19eaad; 0x2dbb72da; 0x57d6bb9f; 0x447423e8; 0x70938b71; 0x63311306;
   0xbb8de87a; 0xa82f700d; 0x9cc8d894; 0x8f6a40e3; 0xf50789a6; 0xe6a511d1; 0xd242b948; 0xc1e0213f;
   0x26992bc2; 0x353bb3b5; 0x01dc1b2c; 0x127e835b; 0x68134a1e; 0x7bb1d269; 0x4f567af0; 0x5cf4e287;
   0x04d43cfd; 0x1776a48a; 0x23910c13; 0x30339464; 0x4a5e5d21; 0x59fcc556; 0x6d1b6dcf; 0x7eb9f5b8;
   0x99c0ff45; 0x8a626732; 0xbe85cfab; 0xad2757dc; 0xd74a9e99; 0xc4e806ee; 0xf00fae77; 0xe3ad3600;
   0x3b11cd7c; 0x28b3550b; 0x1c54fd92; 0x0ff665e5; 0x759baca0; 0x663934d7; 0x52de9c4e; 0x417c0439;
   0xa6050ec4; 0xb5a796b3; 0x81403e2a; 0x92e2a65d; 0xe88f6f18; 0xfb2df76f; 0xcfca5ff6; 0xdc68c781;
   0x7b5fdfff; 0x68fd4788; 0x5c1aef11; 0x4fb87766; 0x35d5be23; 0x26772654; 0x12908ecd; 0x013216ba;
   0xe64b1c47; 0xf5e98430; 0xc10e2ca9; 0xd2acb4de; 0xa8c17d9b; 0xbb63e5ec; 0x8f844d75; 0x9c26d502;
   0x449a2e7e; 0x5738b609; 0x63df1e90; 0x707d86e7; 0x0a104fa2; 0x19b2d7d5; 0x2d557f4c; 0x3ef7e73b;
   0xd98eedc6; 0xca2c75b1; 0xfecbdd28; 0xed69455f; 0x97048c1a; 0x84a6146d; 0xb041bcf4; 0xa3e32483].

(** lib/ext2fs/crc32c_table.h, row 2 of [crc32ctable_le]. *)
Definition crc32ctable_le_2 : list Z :=
  [0x00000000; 0xa541927e; 0x4f6f520d; 0xea2ec073; 0x9edea41a; 0x3b9f3664; 0xd1b1f617; 0x74f06469;
   0x38513ec5; 0x9d10acbb; 0x773e6cc8; 0xd27ffeb6; 0xa68f9adf; 0x03ce08a1; 0xe9e0c8d2; 0x4ca15aac;
   0x70a27d8a; 0xd5e3eff4; 0x3fcd2f87; 0x9a8cbdf9; 0xee7cd990; 0x4b3d4bee; 0xa1138b9d; 0x045219e3;
   0x48f3434f; 0xedb2d131; 0x079c1142; 0xa2dd833c; 0xd62de755; 0x736c752b; 0x9942b558; 0x3c032726;
   0xe144fb14; 0x4405696a; 0xae2ba919; 0x0b6a3b67; 0x7f9a5f0e; 0xdadbcd70; 0x30f50d03; 0x95b49f7d;
   0xd915c5d1; 0x7c5457af; 0x967a97dc; 0x333b05a2; 0x47cb61cb; 0xe28af3b5; 0x08a433c6; 0xade5a1b8;
   0x91e6869e; 0x34a714e0; 0xde89d493; 0x7bc846ed; 0x0f382284; 0xaa79b0fa; 0x40577089; 0xe516e2f7;
   0xa9b7b85b; 0x0cf62a25; 0xe6d8ea56; 0x43997828; 0x37691c41; 0x92288e3f; 0x78064e4c; 0xdd47dc32;
   0xc76580d9; 0x622412a7; 0x880ad2d4; 0x2d4b40aa; 0x59bb24c3; 0xfcfab6bd; 0x16d476ce; 0xb395e4b0;
   0xff34be1c; 0x5a752c62; 0xb05bec11; 0x151a7e6f; 0x61ea1a06; 0xc4ab8878; 0x2e85480b; 0x8bc4da75;
   0xb7c7fd53; 0x12866f2d; 0xf8a8af5e; 0x5de93d20; 0x29195949; 0x8c58cb37; 0x66760b44; 0xc337993a;
   0x8f96c396; 0x2ad751e8; 0xc0f9919b; 0x65b803e5; 0x1148678c; 0xb409f5f2; 0x5e273581; 0xfb66a7ff;
   0x26217bcd; 0x8360e9b3; 0x694e29c0; 0xcc0fbbbe; 0xb8ffdfd7; 0x1dbe4da9; 0xf7908dda; 0x52d11fa4;
   0x1e704508; 0xbb31d776; 0x511f1705; 0xf45e857b; 0x80aee112; 0x25ef736c; 0xcfc1b31f; 0x6a802161;
   0x56830647; 0xf3c29439; 0x19ec544a; 0xbcadc634; 0xc85da25d; 0x6d1c3023; 0x8732f050; 0x2273622e;
   0x6ed23882; 0xcb93aafc; 0x21bd6a8f; 0x84fcf8f1; 0xf00c9c98; 0x554d0ee6; 0xbf63ce95; 0x1a225ceb;
   0x8b277743; 0x2e66e53d; 0xc448254e; 0x6109b730; 0x15f9d359; 0xb0b84127; 0x5a968154; 0xffd7132a;
   0xb3764986; 0x1637dbf8; 0xfc191b8b; 0x595889f5; 0x2da8ed9c; 0x88e97fe2; 0x62c7bf91; 0xc7862def;
   0xfb850ac9; 0x5ec498b7; 0xb4ea58c4; 0x11abcaba; 0x655baed3; 0xc01a3cad; 0x2a34fcde; 0x8f756ea0;
   0xc3d4340c; 0x6695a672; 0x8cbb6601; 0x29faf47f; 0x5d0a9016; 0xf84b0268; 0x1265c21b; 0xb7245065;
   0x6a638c57; 0xcf221e29; 0x250cde5a; 0x804d4c24; 0xf4bd284d; 0x51fcba33; 0xbbd27a40; 0x1e93e83e;
   0x5232b292; 0xf77320ec; 0x1d5de09f; 0xb81c72e1; 0xccec1688; 0x69ad84f6; 0x83834485; 0x26c2d6fb;
   0x1ac1f1dd; 0xbf8063a3; 0x55aea3d0; 0xf0ef31ae; 0x841f55c7; 0x215ec7b9; 0xcb7007ca; 0x6e3195b4;
   0x2290cf18; 0x87d15d66; 0x6dff9d15; 0xc8be0f6b; 0xbc4e6b02; 0x190ff97c; 0xf321390f; 0x5660ab71;
   0x4c42f79a; 0xe90365e4; 0x032da597; 0xa66c37e9; 0xd29c5380; 0x77ddc1fe; 0x9df3018d; 0x38b293f3;
   0x7413c95f; 0xd1525b21; 0x3b7c9b52; 0x9e3d092c; 0xeacd6d45; 0x4f8cff3b; 0xa5a23f48; 0x00e3ad36;
   0x3ce08a10; 0x99a1186e; 0x738fd81d; 0xd6ce4a63; 0xa23e2e0a; 0x077fbc74; 0xed517c07; 0x4810ee79;
   0x04b1b4d5; 0xa1f026ab; 0x4bdee6d8; 0xee9f74a6; 0x9a6f10cf; 0x3f2e82b1; 0xd50042c2; 0x7041d0bc;
   0xad060c8e; 0x08479ef0; 0xe2695e83; 0x4728ccfd; 0x33d8a894; 0x96993aea; 0x7cb7fa99; 0xd9f668e7;
   0x9557324b; 0x3016a035; 0xda386046; 0x7f79f238; 0x0b899651; 0xaec8042f; 0x44e6c45c; 0xe1a75622;
   0xdda47104; 0x78e5e37a; 0x92cb2309; 0x378ab177; 0x437ad51e; 0xe63b4760; 0x0c158713; 0xa954156d;
   0xe5f54fc1; 0x40b4ddbf; 0xaa9a1dcc; 0x0fdb8fb2; 0x7b2bebdb; 0xde6a79a5; 0x3444b9d6; 0x91052ba8].

(** lib/ext2fs/crc32c_table.h, row 3 of [crc32ctable_le]. *)
Definition crc32ctable_le_3 : list Z :=
  [0x00000000; 0xdd45aab8; 0xbf672381; 0x62228939; 0x7b2231f3; 0xa6679b4b; 0xc4451272; 0x1900b8ca;
   0xf64463e6; 0x2b01c95e; 0x49234067; 0x9466eadf; 0x8d665215; 0x5023f8ad; 0x32017194; 0xef44db2c;
   0xe964b13d; 0x34211b85; 0x560392bc; 0x8b463804; 0x924680ce; 0x4f032a76; 0x2d21a34f; 0xf06409f7;
   0x1f20d2db; 0xc2657863; 0xa047f15a; 0x7d025be2; 0x6402e328; 0xb9474990; 0xdb65c0a9; 0x06206a11;
   0xd725148b; 0x0a60be33; 0x6842370a; 0xb5079db2; 0xac072578; 0x71428fc0; 0x136006f9; 0xce25ac41;
   0x2161776d; 0xfc24ddd5; 0x9e0654ec; 0x4343fe54; 0x5a43469e; 0x8706ec26; 0xe524651f; 0x3861cfa7;
   0x3e41a5b6; 0xe3040f0e; 0x81268637; 0x5c632c8f; 0x45639445; 0x98263efd; 0xfa04b7c4; 0x27411d7c;
   0xc805c650; 0x15406ce8; 0x7762e5d1; 0xaa274f69; 0xb327f7a3; 0x6e625d1b; 0x0c40d422; 0xd1057e9a;
   0xaba65fe7; 0x76e3f55f; 0x14c17c66; 0xc984d6de; 0xd0846e14; 0x0dc1c4ac; 0x6fe34d95; 0xb2a6e72d;
   0x5de23c01; 0x80a796b9; 0xe2851f80; 0x3fc0b538; 0x26c00df2; 0xfb85a74a; 0x99a72e73; 0x44e284cb;
   0x42c2eeda; 0x9f874462; 0xfda5cd5b; 0x20e067e3; 0x39e0df29; 0xe4a57591; 0x8687fca8; 0x5bc25610;
   0xb4868d3c; 0x69c32784; 0x0be1aebd; 0xd6a40405; 0xcfa4bccf; 0x12e11677; 0x70c39f4e; 0xad8635f6;
   0x7c834b6c; 0xa1c6e1d4; 0xc3e468ed; 0x1ea1c255; 0x07a17a9f; 0xdae4d027; 0xb8c6591e; 0x6583f3a6;
   0x8ac7288a; 0x57828232; 0x35a00b0b; 0xe8e5a1b3; 0xf1e51979; 0x2ca0b3c1; 0x4e823af8; 0x93c79040;
   0x95e7fa51; 0x48a250e9; 0x2a80d9d0; 0xf7c57368; 0xeec5cba2; 0x3380611a; 0x51a2e823; 0x8ce7429b;
   0x63a399b7; 0xbee6330f; 0xdcc4ba36; 0x0181108e; 0x1881a844; 0xc5c402fc; 0xa7e68bc5; 0x7aa3217d;
   0x52a0c93f; 0x8fe56387; 0xedc7eabe; 0x30824006; 0x2982f8cc; 0xf4c75274; 0x96e5db4d; 0x4ba071f5;
   0xa4e4aad9; 0x79a10061; 0x1b838958; 0xc6c623e0; 0xdfc69b2a; 0x02833192; 0x60a1b8ab; 0xbde41213;
   0xbbc47802; 0x6681d2ba; 0x04a35b83; 0xd9e6f13b; 0xc0e649f1; 0x1da3e349; 0x7f816a70; 0xa2c4c0c8;
   0x4d801be4; 0x90c5b15c; 0xf2e73865; 0x2fa292dd; 0x36a22a17; 0xebe780af; 0x89c50996; 0x5480a32e;
   0x8585ddb4; 0x58c0770c; 0x3ae2fe35; 0xe7a7548d; 0xfea7ec47; 0x23e246ff; 0x41c0cfc6; 0x9c85657e;
   0x73c1be52; 0xae8414ea; 0xcca69dd3; 0x11e3376b; 0x08e38fa1; 0xd5a62519; 0xb784ac20; 0x6ac10698;
   0x6ce16c89; 0xb1a4c631; 0xd3864f08; 0x0ec3e5b0; 0x17c35d7a; 0xca86f7c2; 0xa8a47efb; 0x75e1d443;
   0x9aa50f6f; 0x47e0a5d7; 0x25c22cee; 0xf8878656; 0xe1873e9c; 0x3cc29424; 0x5ee01d1d; 0x83a5b7a5;
   0xf90696d8; 0x24433c60; 0x4661b559; 0x9b241fe1; 0x8224a72b; 0x5f610d93; 0x3d4384aa; 0xe0062e12;
   0x0f42f53e; 0xd2075f86; 0xb025d6bf; 0x6d607c07; 0x7460c4cd; 0xa9256e75; 0xcb07e74c; 0x16424df4;
   0x106227e5; 0xcd278d5d; 0xaf050464; 0x7240aedc; 0x6b401616; 0xb605bcae; 0xd4273597; 0x09629f2f;
   0xe6264403; 0x3b63eebb; 0x59416782; 0x8404cd3a; 0x9d0475f0; 0x4041df48; 0x22635671; 0xff26fcc9;
   0x2e238253; 0xf36628eb; 0x9144a1d2; 0x4c010b6a; 0x5501b3a0; 0x88441918; 0xea669021; 0x37233a99;
   0xd867e1b5; 0x05224b0d; 0x6700c234; 0xba45688c; 0xa345d046; 0x7e007afe; 0x1c22f3c7; 0xc167597f;
   0xc747336e; 0x1a0299d6; 0x782010ef; 0xa565ba57; 0xbc65029d; 0x6120a825; 0x0302211c; 0xde478ba4;
   0x31035088; 0xec46fa30; 0x8e647309; 0x5321d9b1; 0x4a21617b; 0x9764cbc3; 0xf54642fa; 0x2803e842].

(** lib/ext2fs/crc32c_table.h, row 4 of [crc32ctable_le]. *)
Definition crc32ctable_le_4 : list Z :=
  [0x00000000; 0x38116fac; 0x7022df58; 0x4833b0f4; 0xe045beb0; 0xd854d11c; 0x906761e8; 0xa8760e44;
   0xc5670b91; 0xfd76643d; 0xb545d4c9; 0x8d54bb65; 0x2522b521; 0x1d33da8d; 0x55006a79; 0x6d1105d5;
   0x8f2261d3; 0xb7330e7f; 0xff00be8b; 0xc711d127; 0x6f67df63; 0x5776b0cf; 0x1f45003b; 0x27546f97;
   0x4a456a42; 0x725405ee; 0x3a67b51a; 0x0276dab6; 0xaa00d4f2; 0x9211bb5e; 0xda220baa; 0xe2336406;
   0x1ba8b557; 0x23b9dafb; 0x6b8a6a0f; 0x539b05a3; 0xfbed0be7; 0xc3fc644b; 0x8bcfd4bf; 0xb3debb13;
   0xdecfbec6; 0xe6ded16a; 0xaeed619e; 0x96fc0e32; 0x3e8a0076; 0x069b6fda; 0x4ea8df2e; 0x76b9b082;
   0x948ad484; 0xac9bbb28; 0xe4a80bdc; 0xdcb96470; 0x74cf6a34; 0x4cde0598; 0x04edb56c; 0x3cfcdac0;
   0x51eddf15; 0x69fcb0b9; 0x21cf004d; 0x19de6fe1; 0xb1a861a5; 0x89b90e09; 0xc18abefd; 0xf99bd151;
   0x37516aae; 0x0f400502; 0x4773b5f6; 0x7f62da5a; 0xd714d41e; 0xef05bbb2; 0xa7360b46; 0x9f2764ea;
   0xf236613f; 0xca270e93; 0x8214be67; 0xba05d1cb; 0x1273df8f; 0x2a62b023; 0x625100d7; 0x5a406f7b;
   0xb8730b7d; 0x806264d1; 0xc851d425; 0xf040bb89; 0x5836b5cd; 0x6027da61; 0x28146a95; 0x10050539;
   0x7d1400ec; 0x45056f40; 0x0d36dfb4; 0x3527b018; 0x9d51be5c; 0xa540d1f0; 0xed736104; 0xd5620ea8;
   0x2cf9dff9; 0x14e8b055; 0x5cdb00a1; 0x64ca6f0d; 0xccbc6149; 0xf4ad0ee5; 0xbc9ebe11; 0x848fd1bd;
   0xe99ed468; 0xd18fbbc4; 0x99bc0b30; 0xa1ad649c; 0x09db6ad8; 0x31ca0574; 0x79f9b580; 0x41e8da2c;
   0xa3dbbe2a; 0x9bcad186; 0xd3f96172; 0xebe80ede; 0x439e009a; 0x7b8f6f36; 0x33bcdfc2; 0x0badb06e;
   0x66bcb5bb; 0x5eadda17; 0x169e6ae3; 0x2e8f054f; 0x86f90b0b; 0xbee864a7; 0xf6dbd453; 0xcecabbff;
   0x6ea2d55c; 0x56b3baf0; 0x1e800a04; 0x269165a8; 0x8ee76bec; 0xb6f60440; 0xfec5b4b4; 0xc6d4db18;
   0xabc5decd; 0x93d4b161; 0xdbe70195; 0xe3f66e39; 0x4b80607d; 0x73910fd1; 0x3ba2bf25; 0x03b3d089;
   0xe180b48f; 0xd991db23; 0x91a26bd7; 0xa9b3047b; 0x01c50a3f; 0x39d46593; 0x71e7d567; 0x49f6bacb;
   0x24e7bf1e; 0x1cf6d0b2; 0x54c56046; 0x6cd40fea; 0xc4a201ae; 0xfcb36e02; 0xb480def6; 0x8c91b15a;
   0x750a600b; 0x4d1b0fa7; 0x0528bf53; 0x3d39d0ff; 0x954fdebb; 0xad5eb117; 0xe56d01e3; 0xdd7c6e4f;
   0xb06d6b9a; 0x887c0436; 0xc04fb4c2; 0xf85edb6e; 0x5028d52a; 0x6839ba86; 0x200a0a72; 0x181b65de;
   0xfa2801d8; 0xc2396e74; 0x8a0ade80; 0xb21bb12c; 0x1a6dbf68; 0x227cd0c4; 0x6a4f6030; 0x525e0f9c;
   0x3f4f0a49; 0x075e65e5; 0x4f6dd511; 0x777cbabd; 0xdf0ab4f9; 0xe71bdb55; 0xaf286ba1; 0x9739040d;
   0x59f3bff2; 0x61e2d05e; 0x29d160aa; 0x11c00f06; 0xb9b60142; 0x81a76eee; 0xc994de1a; 0xf185b1b6;
   0x9c94b463; 0xa485dbcf; 0xecb66b3b; 0xd4a70497; 0x7cd10ad3; 0x44c0657f; 0x0cf3d58b; 0x34e2ba27;
   0xd6d1de21; 0xeec0b18d; 0xa6f30179; 0x9ee26ed5; 0x36946091; 0x0e850f3d; 0x46b6bfc9; 0x7ea7d065;
   0x13b6d5b0; 0x2ba7ba1c; 0x63940ae8; 0x5b856544; 0xf3f36b00; 0xcbe204ac; 0x83d1b458; 0xbbc0dbf4;
   0x425b0aa5; 0x7a4a6509; 0x3279d5fd; 0x0a68ba51; 0xa21eb415; 0x9a0fdbb9; 0xd23c6b4d; 0xea2d04e1;
   0x873c0134; 0xbf2d6e98; 0xf71ede6c; 0xcf0fb1c0; 0x6779bf84; 0x5f68d028; 0x175b60dc; 0x2f4a0f70;
   0xcd796b76; 0xf56804da; 0xbd5bb42e; 0x854adb82; 0x2d3cd5c6; 0x152dba6a; 0x5d1e0a9e; 0x650f6532;
   0x081e60e7; 0x300f0f4b; 0x783cbfbf; 0x402dd013; 0xe85bde57; 0xd04ab1fb; 0x9879010f; 0xa0686ea3].

(** lib/ext2fs/crc32c_table.h, row 5 of [crc32ctable_le]. *)
Definition crc32ctable_le_5 : list Z :=
  [0x00000000; 0xef306b19; 0xdb8ca0c3; 0x34bccbda; 0xb2f53777; 0x5dc55c6e; 0x697997b4; 0x8649fcad;
   0x6006181f; 0x8f367306; 0xbb8ab8dc; 0x54bad3c5; 0xd2f32f68; 0x3dc34471; 0x097f8fab; 0xe64fe4b2;
   0xc00c303e; 0x2f3c5b27; 0x1b8090fd; 0xf4b0fbe4; 0x72f90749; 0x9dc96c50; 0xa975a78a; 0x4645cc93;
   0xa00a2821; 0x4f3a4338; 0x7b8688e2; 0x94b6e3fb; 0x12ff1f56; 0xfdcf744f; 0xc973bf95; 0x2643d48c;
   0x85f4168d; 0x6ac47d94; 0x5e78b64e; 0xb148dd57; 0x370121fa; 0xd8314ae3; 0xec8d8139; 0x03bdea20;
   0xe5f20e92; 0x0ac2658b; 0x3e7eae51; 0xd14ec548; 0x570739e5; 0xb83752fc; 0x8c8b9926; 0x63bbf23f;
   0x45f826b3; 0xaac84daa; 0x9e748670; 0x7144ed69; 0xf70d11c4; 0x183d7add; 0x2c81b107; 0xc3b1da1e;
   0x25fe3eac; 0xcace55b5; 0xfe729e6f; 0x1142f576; 0x970b09db; 0x783b62c2; 0x4c87a918; 0xa3b7c201;
   0x0e045beb; 0xe13430f2; 0xd588fb28; 0x3ab89031; 0xbcf16c9c; 0x53c10785; 0x677dcc5f; 0x884da746;
   0x6e0243f4; 0x813228ed; 0xb58ee337; 0x5abe882e; 0xdcf77483; 0x33c71f9a; 0x077bd440; 0xe84bbf59;
   0xce086bd5; 0x213800cc; 0x1584cb16; 0xfab4a00f; 0x7cfd5ca2; 0x93cd37bb; 0xa771fc61; 0x48419778;
   0xae0e73ca; 0x413e18d3; 0x7582d309; 0x9ab2b810; 0x1cfb44bd; 0xf3cb2fa4; 0xc777e47e; 0x28478f67;
   0x8bf04d66; 0x64c0267f; 0x507ceda5; 0xbf4c86bc; 0x39057a11; 0xd6351108; 0xe289dad2; 0x0db9b1cb;
   0xebf65579; 0x04c63e60; 0x307af5ba; 0xdf4a9ea3; 0x5903620e; 0xb6330917; 0x828fc2cd; 0x6dbfa9d4;
   0x4bfc7d58; 0xa4cc1641; 0x9070dd9b; 0x7f40b682; 0xf9094a2f; 0x16392136; 0x2285eaec; 0xcdb581f5;
   0x2bfa6547; 0xc4ca0e5e; 0xf076c584; 0x1f46ae9d; 0x990f5230; 0x763f3929; 0x4283f2f3; 0xadb399ea;
   0x1c08b7d6; 0xf338dccf; 0xc7841715; 0x28b47c0c; 0xaefd80a1; 0x41cdebb8; 0x75712062; 0x9a414b7b;
   0x7c0eafc9; 0x933ec4d0; 0xa7820f0a; 0x48b26413; 0xcefb98be; 0x21cbf3a7; 0x1577387d; 0xfa475364;
   0xdc0487e8; 0x3334ecf1; 0x0788272b; 0xe8b84c32; 0x6ef1b09f; 0x81c1db86; 0xb57d105c; 0x5a4d7b45;
   0xbc029ff7; 0x5332f4ee; 0x678e3f34; 0x88be542d; 0x0ef7a880; 0xe1c7c399; 0xd57b0843; 0x3a4b635a;
   0x99fca15b; 0x76ccca42; 0x42700198; 0xad406a81; 0x2b09962c; 0xc439fd35; 0xf08536ef; 0x1fb55df6;
   0xf9fab944; 0x16cad25d; 0x22761987; 0xcd46729e; 0x4b0f8e33; 0xa43fe52a; 0x90832ef0; 0x7fb345e9;
   0x59f09165; 0xb6c0fa7c; 0x827c31a6; 0x6d4c5abf; 0xeb05a612; 0x0435cd0b; 0x308906d1; 0xdfb96dc8;
   0x39f6897a; 0xd6c6e263; 0xe27a29b9; 0x0d4a42a0; 0x8b03be0d; 0x6433d514; 0x508f1ece; 0xbfbf75d7;
   0x120cec3d; 0xfd3c8724; 0xc9804cfe; 0x26b027e7; 0xa0f9db4a; 0x4fc9b053; 0x7b757b89; 0x94451090;
   0x720af422; 0x9d3a9f3b; 0xa98654e1; 0x46b63ff8; 0xc0ffc355; 0x2fcfa84c; 0x1b736396; 0xf443088f;
   0xd200dc03; 0x3d30b71a; 0x098c7cc0; 0xe6bc17d9; 0x60f5eb74; 0x8fc5806d; 0xbb794bb7; 0x544920ae;
   0xb206c41c; 0x5d36af05; 0x698a64df; 0x86ba0fc6; 0x00f3f36b; 0xefc39872; 0xdb7f53a8; 0x344f38b1;
   0x97f8fab0; 0x78c891a9; 0x4c745a73; 0xa344316a; 0x250dcdc7; 0xca3da6de; 0xfe816d04; 0x11b1061d;
   0xf7fee2af; 0x18ce89b6; 0x2c72426c; 0xc3422975; 0x450bd5d8; 0xaa3bbec1; 0x9e87751b; 0x71b71e02;
   0x57f4ca8e; 0xb8c4a197; 0x8c786a4d; 0x63480154; 0xe501fdf9; 0x0a3196e0; 0x3e8d5d3a; 0xd1bd3623;
   0x37f2d291; 0xd8c2b988; 0xec7e7252; 0x034e194b; 0x8507e5e6; 0x6a378eff; 0x5e8b4525; 0xb1bb2e3c].

(** lib/ext2fs/crc32c_table.h, row 6 of [crc32ctable_le]. *)
Definition crc32ctable_le_6 : list Z :=
  [0x00000000; 0x68032cc8; 0xd0065990; 0xb8057558; 0xa5e0c5d1; 0xcde3e919; 0x75e69c41; 0x1de5b089;
   0x4e2dfd53; 0x262ed19b; 0x9e2ba4c3; 0xf628880b; 0xebcd3882; 0x83ce144a; 0x3bcb6112; 0x53c84dda;
   0x9c5bfaa6; 0xf458d66e; 0x4c5da336; 0x245e8ffe; 0x39bb3f77; 0x51b813bf; 0xe9bd66e7; 0x81be4a2f;
   0xd27607f5; 0xba752b3d; 0x02705e65; 0x6a7372ad; 0x7796c224; 0x1f95eeec; 0xa7909bb4; 0xcf93b77c;
   0x3d5b83bd; 0x5558af75; 0xed5dda2d; 0x855ef6e5; 0x98bb466c; 0xf0b86aa4; 0x48bd1ffc; 0x20be3334;
   0x73767eee; 0x1b755226; 0xa370277e; 0xcb730bb6; 0xd696bb3f; 0xbe9597f7; 0x0690e2af; 0x6e93ce67;
   0xa100791b; 0xc90355d3; 0x7106208b; 0x19050c43; 0x04e0bcca; 0x6ce39002; 0xd4e6e55a; 0xbce5c992;
   0xef2d8448; 0x872ea880; 0x3f2bddd8; 0x5728f110; 0x4acd4199; 0x22ce6d51; 0x9acb1809; 0xf2c834c1;
   0x7ab7077a; 0x12b42bb2; 0xaab15eea; 0xc2b27222; 0xdf57c2ab; 0xb754ee63; 0x0f519b3b; 0x6752b7f3;
   0x349afa29; 0x5c99d6e1; 0xe49ca3b9; 0x8c9f8f71; 0x917a3ff8; 0xf9791330; 0x417c6668; 0x297f4aa0;
   0xe6ecfddc; 0x8eefd114; 0x36eaa44c; 0x5ee98884; 0x430c380d; 0x2b0f14c5; 0x930a619d; 0xfb094d55;
   0xa8c1008f; 0xc0c22c47; 0x78c7591f; 0x10c475d7; 0x0d21c55e; 0x6522e996; 0xdd279cce; 0xb524b006;
   0x47ec84c7; 0x2fefa80f; 0x97eadd57; 0xffe9f19f; 0xe20c4116; 0x8a0f6dde; 0x320a1886; 0x5a09344e;
   0x09c17994; 0x61c2555c; 0xd9c72004; 0xb1c40ccc; 0xac21bc45; 0xc422908d; 0x7c27e5d5; 0x1424c91d;
   0xdbb77e61; 0xb3b452a9; 0x0bb127f1; 0x63b20b39; 0x7e57bbb0; 0x16549778; 0xae51e220; 0xc652cee8;
   0x959a8332; 0xfd99affa; 0x459cdaa2; 0x2d9ff66a; 0x307a46e3; 0x58796a2b; 0xe07c1f73; 0x887f33bb;
   0xf56e0ef4; 0x9d6d223c; 0x25685764; 0x4d6b7bac; 0x508ecb25; 0x388de7ed; 0x808892b5; 0xe88bbe7d;
   0xbb43f3a7; 0xd340df6f; 0x6b45aa37; 0x034686ff; 0x1ea33676; 0x76a01abe; 0xcea56fe6; 0xa6a6432e;
   0x6935f452; 0x0136d89a; 0xb933adc2; 0xd130810a; 0xccd53183; 0xa4d61d4b; 0x1cd36813; 0x74d044db;
   0x27180901; 0x4f1b25c9; 0xf71e5091; 0x9f1d7c59; 0x82f8ccd0; 0xeafbe018; 0x52fe9540; 0x3afdb988;
   0xc8358d49; 0xa036a181; 0x1833d4d9; 0x7030f811; 0x6dd54898; 0x05d66450; 0xbdd31108; 0xd5d03dc0;
   0x8618701a; 0xee1b5cd2; 0x561e298a; 0x3e1d0542; 0x23f8b5cb; 0x4bfb9903; 0xf3feec5b; 0x9bfdc093;
   0x546e77ef; 0x3c6d5b27; 0x84682e7f; 0xec6b02b7; 0xf18eb23e; 0x998d9ef6; 0x2188ebae; 0x498bc766;
   0x1a438abc; 0x7240a674; 0xca45d32c; 0xa246ffe4; 0xbfa34f6d; 0xd7a063a5; 0x6fa516fd; 0x07a63a35;
   0x8fd9098e; 0xe7da2546; 0x5fdf501e; 0x37dc7cd6; 0x2a39cc5f; 0x423ae097; 0xfa3f95cf; 0x923cb907;
   0xc1f4f4dd; 0xa9f7d815; 0x11f2ad4d; 0x79f18185; 0x6414310c; 0x0c171dc4; 0xb412689c; 0xdc114454;
   0x1382f328; 0x7b81dfe0; 0xc384aab8; 0xab878670; 0xb66236f9; 0xde611a31; 0x66646f69; 0x0e6743a1;
   0x5daf0e7b; 0x35ac22b3; 0x8da957eb; 0xe5aa7b23; 0xf84fcbaa; 0x904ce762; 0x2849923a; 0x404abef2;
   0xb2828a33; 0xda81a6fb; 0x6284d3a3; 0x0a87ff6b; 0x17624fe2; 0x7f61632a; 0xc7641672; 0xaf673aba;
   0xfcaf7760; 0x94ac5ba8; 0x2ca92ef0; 0x44aa0238; 0x594fb2b1; 0x314c9e79; 0x8949eb21; 0xe14ac7e9;
   0x2ed97095; 0x46da5c5d; 0xfedf2905; 0x96dc05cd; 0x8b39b544; 0xe33a998c; 0x5b3fecd4; 0x333cc01c;
   0x60f48dc6; 0x08f7a10e; 0xb0f2d456; 0xd8f1f89e; 0xc5144817; 0xad1764df; 0x15121187; 0x7d113d4f].

(** lib/ext2fs/crc32c_table.h, row 7 of [crc32ctable_le]. *)
Definition crc32ctable_le_7 : list Z :=
  [0x00000000; 0x493c7d27; 0x9278fa4e; 0xdb448769; 0x211d826d; 0x6821ff4a; 0xb3657823; 0xfa590504;
   0x423b04da; 0x0b0779fd; 0xd043fe94; 0x997f83b3; 0x632686b7; 0x2a1afb90; 0xf15e7cf9; 0xb86201de;
   0x847609b4; 0xcd4a7493; 0x160ef3fa; 0x5f328edd; 0xa56b8bd9; 0xec57f6fe; 0x37137197; 0x7e2f0cb0;
   0xc64d0d6e; 0x8f717049; 0x5435f720; 0x1d098a07; 0xe7508f03; 0xae6cf224; 0x7528754d; 0x3c14086a;
   0x0d006599; 0x443c18be; 0x9f789fd7; 0xd644e2f0; 0x2c1de7f4; 0x65219ad3; 0xbe651dba; 0xf759609d;
   0x4f3b6143; 0x06071c64; 0xdd439b0d; 0x947fe62a; 0x6e26e32e; 0x271a9e09; 0xfc5e1960; 0xb5626447;
   0x89766c2d; 0xc04a110a; 0x1b0e9663; 0x5232eb44; 0xa86bee40; 0xe1579367; 0x3a13140e; 0x732f6929;
   0xcb4d68f7; 0x827115d0; 0x593592b9; 0x1009ef9e; 0xea50ea9a; 0xa36c97bd; 0x782810d4; 0x31146df3;
   0x1a00cb32; 0x533cb615; 0x8878317c; 0xc1444c5b; 0x3b1d495f; 0x72213478; 0xa965b311; 0xe059ce36;
   0x583bcfe8; 0x1107b2cf; 0xca4335a6; 0x837f4881; 0x79264d85; 0x301a30a2; 0xeb5eb7cb; 0xa262caec;
   0x9e76c286; 0xd74abfa1; 0x0c0e38c8; 0x453245ef; 0xbf6b40eb; 0xf6573dcc; 0x2d13baa5; 0x642fc782;
   0xdc4dc65c; 0x9571bb7b; 0x4e353c12; 0x07094135; 0xfd504431; 0xb46c3916; 0x6f28be7f; 0x2614c358;
   0x1700aeab; 0x5e3cd38c; 0x857854e5; 0xcc4429c2; 0x361d2cc6; 0x7f2151e1; 0xa465d688; 0xed59abaf;
   0x553baa71; 0x1c07d756; 0xc743503f; 0x8e7f2d18; 0x7426281c; 0x3d1a553b; 0xe65ed252; 0xaf62af75;
   0x9376a71f; 0xda4ada38; 0x010e5d51; 0x48322076; 0xb26b2572; 0xfb575855; 0x2013df3c; 0x692fa21b;
   0xd14da3c5; 0x9871dee2; 0x4335598b; 0x0a0924ac; 0xf05021a8; 0xb96c5c8f; 0x6228dbe6; 0x2b14a6c1;
   0x34019664; 0x7d3deb43; 0xa6796c2a; 0xef45110d; 0x151c1409; 0x5c20692e; 0x8764ee47; 0xce589360;
   0x763a92be; 0x3f06ef99; 0xe44268f0; 0xad7e15d7; 0x572710d3; 0x1e1b6df4; 0xc55fea9d; 0x8c6397ba;
   0xb0779fd0; 0xf94be2f7; 0x220f659e; 0x6b3318b9; 0x916a1dbd; 0xd856609a; 0x0312e7f3; 0x4a2e9ad4;
   0xf24c9b0a; 0xbb70e62d; 0x60346144; 0x29081c63; 0xd3511967; 0x9a6d6440; 0x4129e329; 0x08159e0e;
   0x3901f3fd; 0x703d8eda; 0xab7909b3; 0xe2457494; 0x181c7190; 0x51200cb7; 0x8a648bde; 0xc358f6f9;
   0x7b3af727; 0x32068a00; 0xe9420d69; 0xa07e704e; 0x5a27754a; 0x131b086d; 0xc85f8f04; 0x8163f223;
   0xbd77fa49; 0xf44b876e; 0x2f0f0007; 0x66337d20; 0x9c6a7824; 0xd5560503; 0x0e12826a; 0x472eff4d;
   0xff4cfe93; 0xb67083b4; 0x6d3404dd; 0x240879fa; 0xde517cfe; 0x976d01d9; 0x4c2986b0; 0x0515fb97;
   0x2e015d56; 0x673d2071; 0xbc79a718; 0xf545da3f; 0x0f1cdf3b; 0x4620a21c; 0x9d642575; 0xd4585852;
   0x6c3a598c; 0x250624ab; 0xfe42a3c2; 0xb77edee5; 0x4d27dbe1; 0x041ba6c6; 0xdf5f21af; 0x96635c88;
   0xaa7754e2; 0xe34b29c5; 0x380faeac; 0x7133d38b; 0x8b6ad68f; 0xc256aba8; 0x19122cc1; 0x502e51e6;
   0xe84c5038; 0xa1702d1f; 0x7a34aa76; 0x3308d751; 0xc951d255; 0x806daf72; 0x5b29281b; 0x1215553c;
   0x230138cf; 0x6a3d45e8; 0xb179c281; 0xf845bfa6; 0x021cbaa2; 0x4b20c785; 0x906440ec; 0xd9583dcb;
   0x613a3c15; 0x28064132; 0xf342c65b; 0xba7ebb7c; 0x4027be78; 0x091bc35f; 0xd25f4436; 0x9b633911;
   0xa777317b; 0xee4b4c5c; 0x350fcb35; 0x7c33b612; 0x866ab316; 0xcf56ce31; 0x14124958; 0x5d2e347f;
   0xe54c35a1; 0xac704886; 0x7734cfef; 0x3e08b2c8; 0xc451b7cc; 0x8d6dcaeb; 0x56294d82; 0x1f1530a5].

(** The whole [crc32ctable_le] array. *)
Definition crc32ctable_le : list (list Z) :=
  [crc32ctable_le_0; crc32ctable_le_1; crc32ctable_le_2; crc32ctable_le_3;
   crc32ctable_le_4; crc32ctable_le_5; crc32ctable_le_6; crc32ctable_le_7].

(** lib/ext2fs/crc32c_table.h, [crc32table_be]. *)
Definition crc32table_be_0 : list Z :=
  [0x00000000; 0x04c11db7; 0x09823b6e; 0x0d4326d9; 0x130476dc; 0x17c56b6b; 0x1a864db2; 0x1e475005;
   0x2608edb8; 0x22c9f00f; 0x2f8ad6d6; 0x2b4bcb61; 0x350c9b64; 0x31cd86d3; 0x3c8ea00a; 0x384fbdbd;
   0x4c11db70; 0x48d0c6c7; 0x4593e01e; 0x4152fda9; 0x5f15adac; 0x5bd4b01b; 0x569796c2; 0x52568b75;
   0x6a1936c8; 0x6ed82b7f; 0x639b0da6; 0x675a1011; 0x791d4014; 0x7ddc5da3; 0x709f7b7a; 0x745e66cd;
   0x9823b6e0; 0x9ce2ab57; 0x91a18d8e; 0x95609039; 0x8b27c03c; 0x8fe6dd8b; 0x82a5fb52; 0x8664e6e5;
   0xbe2b5b58; 0xbaea46ef; 0xb7a96036; 0xb3687d81; 0xad2f2d84; 0xa9ee3033; 0xa4ad16ea; 0xa06c0b5d;
   0xd4326d90; 0xd0f37027; 0xddb056fe; 0xd9714b49; 0xc7361b4c; 0xc3f706fb; 0xceb42022; 0xca753d95;
   0xf23a8028; 0xf6fb9d9f; 0xfbb8bb46; 0xff79a6f1; 0xe13ef6f4; 0xe5ffeb43; 0xe8bccd9a; 0xec7dd02d;
   0x34867077; 0x30476dc0; 0x3d044b19; 0x39c556ae; 0x278206ab; 0x23431b1c; 0x2e003dc5; 0x2ac12072;
   0x128e9dcf; 0x164f8078; 0x1b0ca6a1; 0x1fcdbb16; 0x018aeb13; 0x054bf6a4; 0x0808d07d; 0x0cc9cdca;
   0x7897ab07; 0x7c56b6b0; 0x71159069; 0x75d48dde; 0x6b93dddb; 0x6f52c06c; 0x6211e6b5; 0x66d0fb02;
   0x5e9f46bf; 0x5a5e5b08; 0x571d7dd1; 0x53dc6066; 0x4d9b3063; 0x495a2dd4; 0x44190b0d; 0x40d816ba;
   0xaca5c697; 0xa864db20; 0xa527fdf9; 0xa1e6e04e; 0xbfa1b04b; 0xbb60adfc; 0xb6238b25; 0xb2e29692;
   0x8aad2b2f; 0x8e6c3698; 0x832f1041; 0x87ee0df6; 0x99a95df3; 0x9d684044; 0x902b669d; 0x94ea7b2a;
   0xe0b41de7; 0xe4750050; 0xe9362689; 0xedf73b3e; 0xf3b06b3b; 0xf771768c; 0xfa325055; 0xfef34de2;
   0xc6bcf05f; 0xc27dede8; 0xcf3ecb31; 0xcbffd686; 0xd5b88683; 0xd1799b34; 0xdc3abded; 0xd8fba05a;
   0x690ce0ee; 0x6dcdfd59; 0x608edb80; 0x644fc637; 0x7a089632; 0x7ec98b85; 0x738aad5c; 0x774bb0eb;
   0x4f040d56; 0x4bc510e1; 0x46863638; 0x42472b8f; 0x5c007b8a; 0x58c1663d; 0x558240e4; 0x51435d53;
   0x251d3b9e; 0x21dc2629; 0x2c9f00f0; 0x285e1d47; 0x36194d42; 0x32d850f5; 0x3f9b762c; 0x3b5a6b9b;
   0x0315d626; 0x07d4cb91; 0x0a97ed48; 0x0e56f0ff; 0x1011a0fa; 0x14d0bd4d; 0x19939b94; 0x1d528623;
   0xf12f560e; 0xf5ee4bb9; 0xf8ad6d60; 0xfc6c70d7; 0xe22b20d2; 0xe6ea3d65; 0xeba91bbc; 0xef68060b;
   0xd727bbb6; 0xd3e6a601; 0xdea580d8; 0xda649d6f; 0xc423cd6a; 0xc0e2d0dd; 0xcda1f604; 0xc960ebb3;
   0xbd3e8d7e; 0xb9ff90c9; 0xb4bcb610; 0xb07daba7; 0xae3afba2; 0xaafbe615; 0xa7b8c0cc; 0xa379dd7b;
   0x9b3660c6; 0x9ff77d71; 0x92b45ba8; 0x9675461f; 0x8832161a; 0x8cf30bad; 0x81b02d74; 0x857130c3;
   0x5d8a9099; 0x594b8d2e; 0x5408abf7; 0x50c9b640; 0x4e8ee645; 0x4a4ffbf2; 0x470cdd2b; 0x43cdc09c;
   0x7b827d21; 0x7f436096; 0x7200464f; 0x76c15bf8; 0x68860bfd; 0x6c47164a; 0x61043093; 0x65c52d24;
   0x119b4be9; 0x155a565e; 0x18197087; 0x1cd86d30; 0x029f3d35; 0x065e2082; 0x0b1d065b; 0x0fdc1bec;
   0x3793a651; 0x3352bbe6; 0x3e119d3f; 0x3ad08088; 0x2497d08d; 0x2056cd3a; 0x2d15ebe3; 0x29d4f654;
   0xc5a92679; 0xc1683bce; 0xcc2b1d17; 0xc8ea00a0; 0xd6ad50a5; 0xd26c4d12; 0xdf2f6bcb; 0xdbee767c;
   0xe3a1cbc1; 0xe760d676; 0xea23f0af; 0xeee2ed18; 0xf0a5bd1d; 0xf464a0aa; 0xf9278673; 0xfde69bc4;
   0x89b8fd09; 0x8d79e0be; 0x803ac667; 0x84fbdbd0; 0x9abc8bd5; 0x9e7d9662; 0x933eb0bb; 0x97ffad0c;
   0xafb010b1; 0xab710d06; 0xa6322bdf; 0xa2f33668; 0xbcb4666d; 0xb8757bda; 0xb5365d03; 0xb1f740b4].

Definition crc32table_be_1 : list Z :=
  [0x00000000; 0xd219c1dc; 0xa0f29e0f; 0x72eb5fd3; 0x452421a9; 0x973de075; 0xe5d6bfa6; 0x37cf7e7a;
   0x8a484352; 0x5851828e; 0x2abadd5d; 0xf8a31c81; 0xcf6c62fb; 0x1d75a327; 0x6f9efcf4; 0xbd873d28;
   0x10519b13; 0xc2485acf; 0xb0a3051c; 0x62bac4c0; 0x5575baba; 0x876c7b66; 0xf58724b5; 0x279ee569;
   0x9a19d841; 0x4800199d; 0x3aeb464e; 0xe8f28792; 0xdf3df9e8; 0x0d243834; 0x7fcf67e7; 0xadd6a63b;
   0x20a33626; 0xf2baf7fa; 0x8051a829; 0x524869f5; 0x6587178f; 0xb79ed653; 0xc5758980; 0x176c485c;
   0xaaeb7574; 0x78f2b4a8; 0x0a19eb7b; 0xd8002aa7; 0xefcf54dd; 0x3dd69501; 0x4f3dcad2; 0x9d240b0e;
   0x30f2ad35; 0xe2eb6ce9; 0x9000333a; 0x4219f2e6; 0x75d68c9c; 0xa7cf4d40; 0xd5241293; 0x073dd34f;
   0xbabaee67; 0x68a32fbb; 0x1a487068; 0xc851b1b4; 0xff9ecfce; 0x2d870e12; 0x5f6c51c1; 0x8d75901d;
   0x41466c4c; 0x935fad90; 0xe1b4f243; 0x33ad339f; 0x04624de5; 0xd67b8c39; 0xa490d3ea; 0x76891236;
   0xcb0e2f1e; 0x1917eec2; 0x6bfcb111; 0xb9e570cd; 0x8e2a0eb7; 0x5c33cf6b; 0x2ed890b8; 0xfcc15164;
   0x5117f75f; 0x830e3683; 0xf1e56950; 0x23fca88c; 0x1433d6f6; 0xc62a172a; 0xb4c148f9; 0x66d88925;
   0xdb5fb40d; 0x094675d1; 0x7bad2a02; 0xa9b4ebde; 0x9e7b95a4; 0x4c625478; 0x3e890bab; 0xec90ca77;
   0x61e55a6a; 0xb3fc9bb6; 0xc117c465; 0x130e05b9; 0x24c17bc3; 0xf6d8ba1f; 0x8433e5cc; 0x562a2410;
   0xebad1938; 0x39b4d8e4; 0x4b5f8737; 0x994646eb; 0xae893891; 0x7c90f94d; 0x0e7ba69e; 0xdc626742;
   0x71b4c179; 0xa3ad00a5; 0xd1465f76; 0x035f9eaa; 0x3490e0d0; 0xe689210c; 0x94627edf; 0x467bbf03;
   0xfbfc822b; 0x29e543f7; 0x5b0e1c24; 0x8917ddf8; 0xbed8a382; 0x6cc1625e; 0x1e2a3d8d; 0xcc33fc51;
   0x828cd898; 0x50951944; 0x227e4697; 0xf067874b; 0xc7a8f931; 0x15b138ed; 0x675a673e; 0xb543a6e2;
   0x08c49bca; 0xdadd5a16; 0xa83605c5; 0x7a2fc419; 0x4de0ba63; 0x9ff97bbf; 0xed12246c; 0x3f0be5b0;
   0x92dd438b; 0x40c48257; 0x322fdd84; 0xe0361c58; 0xd7f96222; 0x05e0a3fe; 0x770bfc2d; 0xa5123df1;
   0x189500d9; 0xca8cc105; 0xb8679ed6; 0x6a7e5f0a; 0x5db12170; 0x8fa8e0ac; 0xfd43bf7f; 0x2f5a7ea3;
   0xa22feebe; 0x70362f62; 0x02dd70b1; 0xd0c4b16d; 0xe70bcf17; 0x35120ecb; 0x47f95118; 0x95e090c4;
   0x2867adec; 0xfa7e6c30; 0x889533e3; 0x5a8cf23f; 0x6d438c45; 0xbf5a4d99; 0xcdb1124a; 0x1fa8d396;
   0xb27e75ad; 0x6067b471; 0x128ceba2; 0xc0952a7e; 0xf75a5404; 0x254395d8; 0x57a8ca0b; 0x85b10bd7;
   0x383636ff; 0xea2ff723; 0x98c4a8f0; 0x4add692c; 0x7d121756; 0xaf0bd68a; 0xdde08959; 0x0ff94885;
   0xc3cab4d4; 0x11d37508; 0x63382adb; 0xb121eb07; 0x86ee957d; 0x54f754a1; 0x261c0b72; 0xf405caae;
   0x4982f786; 0x9b9b365a; 0xe9706989; 0x3b69a855; 0x0ca6d62f; 0xdebf17f3; 0xac544820; 0x7e4d89fc;
   0xd39b2fc7; 0x0182ee1b; 0x7369b1c8; 0xa1707014; 0x96bf0e6e; 0x44a6cfb2; 0x364d9061; 0xe45451bd;
   0x59d36c95; 0x8bcaad49; 0xf921f29a; 0x2b383346; 0x1cf74d3c; 0xceee8ce0; 0xbc05d333; 0x6e1c12ef;
   0xe36982f2; 0x3170432e; 0x439b1cfd; 0x9182dd21; 0xa64da35b; 0x74546287; 0x06bf3d54; 0xd4a6fc88;
   0x6921c1a0; 0xbb38007c; 0xc9d35faf; 0x1bca9e73; 0x2c05e009; 0xfe1c21d5; 0x8cf77e06; 0x5eeebfda;
   0xf33819e1; 0x2121d83d; 0x53ca87ee; 0x81d34632; 0xb61c3848; 0x6405f994; 0x16eea647; 0xc4f7679b;
   0x79705ab3; 0xab699b6f; 0xd982c4bc; 0x0b9b0560; 0x3c547b1a; 0xee4dbac6; 0x9ca6e515; 0x4ebf24c9].

Definition crc32table_be_2 : list Z :=
  [0x00000000; 0x01d8ac87; 0x03b1590e; 0x0269f589; 0x0762b21c; 0x06ba1e9b; 0x04d3eb12; 0x050b4795;
   0x0ec56438; 0x0f1dc8bf; 0x0d743d36; 0x0cac91b1; 0x09a7d624; 0x087f7aa3; 0x0a168f2a; 0x0bce23ad;
   0x1d8ac870; 0x1c5264f7; 0x1e3b917e; 0x1fe33df9; 0x1ae87a6c; 0x1b30d6eb; 0x19592362; 0x18818fe5;
   0x134fac48; 0x129700cf; 0x10fef546; 0x112659c1; 0x142d1e54; 0x15f5b2d3; 0x179c475a; 0x1644ebdd;
   0x3b1590e0; 0x3acd3c67; 0x38a4c9ee; 0x397c6569; 0x3c7722fc; 0x3daf8e7b; 0x3fc67bf2; 0x3e1ed775;
   0x35d0f4d8; 0x3408585f; 0x3661add6; 0x37b90151; 0x32b246c4; 0x336aea43; 0x31031fca; 0x30dbb34d;
   0x269f5890; 0x2747f417; 0x252e019e; 0x24f6ad19; 0x21fdea8c; 0x2025460b; 0x224cb382; 0x23941f05;
   0x285a3ca8; 0x2982902f; 0x2beb65a6; 0x2a33c921; 0x2f388eb4; 0x2ee02233; 0x2c89d7ba; 0x2d517b3d;
   0x762b21c0; 0x77f38d47; 0x759a78ce; 0x7442d449; 0x714993dc; 0x70913f5b; 0x72f8cad2; 0x73206655;
   0x78ee45f8; 0x7936e97f; 0x7b5f1cf6; 0x7a87b071; 0x7f8cf7e4; 0x7e545b63; 0x7c3daeea; 0x7de5026d;
   0x6ba1e9b0; 0x6a794537; 0x6810b0be; 0x69c81c39; 0x6cc35bac; 0x6d1bf72b; 0x6f7202a2; 0x6eaaae25;
   0x65648d88; 0x64bc210f; 0x66d5d486; 0x670d7801; 0x62063f94; 0x63de9313; 0x61b7669a; 0x606fca1d;
   0x4d3eb120; 0x4ce61da7; 0x4e8fe82e; 0x4f5744a9; 0x4a5c033c; 0x4b84afbb; 0x49ed5a32; 0x4835f6b5;
   0x43fbd518; 0x4223799f; 0x404a8c16; 0x41922091; 0x44996704; 0x4541cb83; 0x47283e0a; 0x46f0928d;
   0x50b47950; 0x516cd5d7; 0x5305205e; 0x52dd8cd9; 0x57d6cb4c; 0x560e67cb; 0x54679242; 0x55bf3ec5;
   0x5e711d68; 0x5fa9b1ef; 0x5dc04466; 0x5c18e8e1; 0x5913af74; 0x58cb03f3; 0x5aa2f67a; 0x5b7a5afd;
   0xec564380; 0xed8eef07; 0xefe71a8e; 0xee3fb609; 0xeb34f19c; 0xeaec5d1b; 0xe885a892; 0xe95d0415;
   0xe29327b8; 0xe34b8b3f; 0xe1227eb6; 0xe0fad231; 0xe5f195a4; 0xe4293923; 0xe640ccaa; 0xe798602d;
   0xf1dc8bf0; 0xf0042777; 0xf26dd2fe; 0xf3b57e79; 0xf6be39ec; 0xf766956b; 0xf50f60e2; 0xf4d7cc65;
   0xff19efc8; 0xfec1434f; 0xfca8b6c6; 0xfd701a41; 0xf87b5dd4; 0xf9a3f153; 0xfbca04da; 0xfa12a85d;
   0xd743d360; 0xd69b7fe7; 0xd4f28a6e; 0xd52a26e9; 0xd021617c; 0xd1f9cdfb; 0xd3903872; 0xd24894f5;
   0xd986b758; 0xd85e1bdf; 0xda37ee56; 0xdbef42d1; 0xdee40544; 0xdf3ca9c3; 0xdd555c4a; 0xdc8df0cd;
   0xcac91b10; 0xcb11b797; 0xc978421e; 0xc8a0ee99; 0xcdaba90c; 0xcc73058b; 0xce1af002; 0xcfc25c85;
   0xc40c7f28; 0xc5d4d3af; 0xc7bd2626; 0xc6658aa1; 0xc36ecd34; 0xc2b661b3; 0xc0df943a; 0xc10738bd;
   0x9a7d6240; 0x9ba5cec7; 0x99cc3b4e; 0x981497c9; 0x9d1fd05c; 0x9cc77cdb; 0x9eae8952; 0x9f7625d5;
   0x94b80678; 0x9560aaff; 0x97095f76; 0x96d1f3f1; 0x93dab464; 0x920218e3; 0x906bed6a; 0x91b341ed;
   0x87f7aa30; 0x862f06b7; 0x8446f33e; 0x859e5fb9; 0x8095182c; 0x814db4ab; 0x83244122; 0x82fceda5;
   0x8932ce08; 0x88ea628f; 0x8a839706; 0x8b5b3b81; 0x8e507c14; 0x8f88d093; 0x8de1251a; 0x8c39899d;
   0xa168f2a0; 0xa0b05e27; 0xa2d9abae; 0xa3010729; 0xa60a40bc; 0xa7d2ec3b; 0xa5bb19b2; 0xa463b535;
   0xafad9698; 0xae753a1f; 0xac1ccf96; 0xadc46311; 0xa8cf2484; 0xa9178803; 0xab7e7d8a; 0xaaa6d10d;
   0xbce23ad0; 0xbd3a9657; 0xbf5363de; 0xbe8bcf59; 0xbb8088cc; 0xba58244b; 0xb831d1c2; 0xb9e97d45;
   0xb2275ee8; 0xb3fff26f; 0xb19607e6; 0xb04eab61; 0xb545ecf4; 0xb49d4073; 0xb6f4b5fa; 0xb72c197d].

Definition crc32table_be_3 : list Z :=
  [0x00000000; 0xdc6d9ab7; 0xbc1a28d9; 0x6077b26e; 0x7cf54c05; 0xa098d6b2; 0xc0ef64dc; 0x1c82fe6b;
   0xf9ea980a; 0x258702bd; 0x45f0b0d3; 0x999d2a64; 0x851fd40f; 0x59724eb8; 0x3905fcd6; 0xe5686661;
   0xf7142da3; 0x2b79b714; 0x4b0e057a; 0x97639fcd; 0x8be161a6; 0x578cfb11; 0x37fb497f; 0xeb96d3c8;
   0x0efeb5a9; 0xd2932f1e; 0xb2e49d70; 0x6e8907c7; 0x720bf9ac; 0xae66631b; 0xce11d175; 0x127c4bc2;
   0xeae946f1; 0x3684dc46; 0x56f36e28; 0x8a9ef49f; 0x961c0af4; 0x4a719043; 0x2a06222d; 0xf66bb89a;
   0x1303defb; 0xcf6e444c; 0xaf19f622; 0x73746c95; 0x6ff692fe; 0xb39b0849; 0xd3ecba27; 0x0f812090;
   0x1dfd6b52; 0xc190f1e5; 0xa1e7438b; 0x7d8ad93c; 0x61082757; 0xbd65bde0; 0xdd120f8e; 0x017f9539;
   0xe417f358; 0x387a69ef; 0x580ddb81; 0x84604136; 0x98e2bf5d; 0x448f25ea; 0x24f89784; 0xf8950d33;
   0xd1139055; 0x0d7e0ae2; 0x6d09b88c; 0xb164223b; 0xade6dc50; 0x718b46e7; 0x11fcf489; 0xcd916e3e;
   0x28f9085f; 0xf49492e8; 0x94e32086; 0x488eba31; 0x540c445a; 0x8861deed; 0xe8166c83; 0x347bf634;
   0x2607bdf6; 0xfa6a2741; 0x9a1d952f; 0x46700f98; 0x5af2f1f3; 0x869f6b44; 0xe6e8d92a; 0x3a85439d;
   0xdfed25fc; 0x0380bf4b; 0x63f70d25; 0xbf9a9792; 0xa31869f9; 0x7f75f34e; 0x1f024120; 0xc36fdb97;
   0x3bfad6a4; 0xe7974c13; 0x87e0fe7d; 0x5b8d64ca; 0x470f9aa1; 0x9b620016; 0xfb15b278; 0x277828cf;
   0xc2104eae; 0x1e7dd419; 0x7e0a6677; 0xa267fcc0; 0xbee502ab; 0x6288981c; 0x02ff2a72; 0xde92b0c5;
   0xcceefb07; 0x108361b0; 0x70f4d3de; 0xac994969; 0xb01bb702; 0x6c762db5; 0x0c019fdb; 0xd06c056c;
   0x3504630d; 0xe969f9ba; 0x891e4bd4; 0x5573d163; 0x49f12f08; 0x959cb5bf; 0xf5eb07d1; 0x29869d66;
   0xa6e63d1d; 0x7a8ba7aa; 0x1afc15c4; 0xc6918f73; 0xda137118; 0x067eebaf; 0x660959c1; 0xba64c376;
   0x5f0ca517; 0x83613fa0; 0xe3168dce; 0x3f7b1779; 0x23f9e912; 0xff9473a5; 0x9fe3c1cb; 0x438e5b7c;
   0x51f210be; 0x8d9f8a09; 0xede83867; 0x3185a2d0; 0x2d075cbb; 0xf16ac60c; 0x911d7462; 0x4d70eed5;
   0xa81888b4; 0x74751203; 0x1402a06d; 0xc86f3ada; 0xd4edc4b1; 0x08805e06; 0x68f7ec68; 0xb49a76df;
   0x4c0f7bec; 0x9062e15b; 0xf0155335; 0x2c78c982; 0x30fa37e9; 0xec97ad5e; 0x8ce01f30; 0x508d8587;
   0xb5e5e3e6; 0x69887951; 0x09ffcb3f; 0xd5925188; 0xc910afe3; 0x157d3554; 0x750a873a; 0xa9671d8d;
   0xbb1b564f; 0x6776ccf8; 0x07017e96; 0xdb6ce421; 0xc7ee1a4a; 0x1b8380fd; 0x7bf43293; 0xa799a824;
   0x42f1ce45; 0x9e9c54f2; 0xfeebe69c; 0x22867c2b; 0x3e048240; 0xe26918f7; 0x821eaa99; 0x5e73302e;
   0x77f5ad48; 0xab9837ff; 0xcbef8591; 0x17821f26; 0x0b00e14d; 0xd76d7bfa; 0xb71ac994; 0x6b775323;
   0x8e1f3542; 0x5272aff5; 0x32051d9b; 0xee68872c; 0xf2ea7947; 0x2e87e3f0; 0x4ef0519e; 0x929dcb29;
   0x80e180eb; 0x5c8c1a5c; 0x3cfba832; 0xe0963285; 0xfc14ccee; 0x20795659; 0x400ee437; 0x9c637e80;
   0x790b18e1; 0xa5668256; 0xc5113038; 0x197caa8f; 0x05fe54e4; 0xd993ce53; 0xb9e47c3d; 0x6589e68a;
   0x9d1cebb9; 0x4171710e; 0x2106c360; 0xfd6b59d7; 0xe1e9a7bc; 0x3d843d0b; 0x5df38f65; 0x819e15d2;
   0x64f673b3; 0xb89be904; 0xd8ec5b6a; 0x0481c1dd; 0x18033fb6; 0xc46ea501; 0xa419176f; 0x78748dd8;
   0x6a08c61a; 0xb6655cad; 0xd612eec3; 0x0a7f7474; 0x16fd8a1f; 0xca9010a8; 0xaae7a2c6; 0x768a3871;
   0x93e25e10; 0x4f8fc4a7; 0x2ff876c9; 0xf395ec7e; 0xef171215; 0x337a88a2; 0x530d3acc; 0x8f60a07b].

Definition crc32table_be_4 : list Z :=
  [0x00000000; 0x490d678d; 0x921acf1a; 0xdb17a897; 0x20f48383; 0x69f9e40e; 0xb2ee4c99; 0xfbe32b14;
   0x41e90706; 0x08e4608b; 0xd3f3c81c; 0x9afeaf91; 0x611d8485; 0x2810e308; 0xf3074b9f; 0xba0a2c12;
   0x83d20e0c; 0xcadf6981; 0x11c8c116; 0x58c5a69b; 0xa3268d8f; 0xea2bea02; 0x313c4295; 0x78312518;
   0xc23b090a; 0x8b366e87; 0x5021c610; 0x192ca19d; 0xe2cf8a89; 0xabc2ed04; 0x70d54593; 0x39d8221e;
   0x036501af; 0x4a686622; 0x917fceb5; 0xd872a938; 0x2391822c; 0x6a9ce5a1; 0xb18b4d36; 0xf8862abb;
   0x428c06a9; 0x0b816124; 0xd096c9b3; 0x999bae3e; 0x6278852a; 0x2b75e2a7; 0xf0624a30; 0xb96f2dbd;
   0x80b70fa3; 0xc9ba682e; 0x12adc0b9; 0x5ba0a734; 0xa0438c20; 0xe94eebad; 0x3259433a; 0x7b5424b7;
   0xc15e08a5; 0x88536f28; 0x5344c7bf; 0x1a49a032; 0xe1aa8b26; 0xa8a7ecab; 0x73b0443c; 0x3abd23b1;
   0x06ca035e; 0x4fc764d3; 0x94d0cc44; 0xddddabc9; 0x263e80dd; 0x6f33e750; 0xb4244fc7; 0xfd29284a;
   0x47230458; 0x0e2e63d5; 0xd539cb42; 0x9c34accf; 0x67d787db; 0x2edae056; 0xf5cd48c1; 0xbcc02f4c;
   0x85180d52; 0xcc156adf; 0x1702c248; 0x5e0fa5c5; 0xa5ec8ed1; 0xece1e95c; 0x37f641cb; 0x7efb2646;
   0xc4f10a54; 0x8dfc6dd9; 0x56ebc54e; 0x1fe6a2c3; 0xe40589d7; 0xad08ee5a; 0x761f46cd; 0x3f122140;
   0x05af02f1; 0x4ca2657c; 0x97b5cdeb; 0xdeb8aa66; 0x255b8172; 0x6c56e6ff; 0xb7414e68; 0xfe4c29e5;
   0x444605f7; 0x0d4b627a; 0xd65ccaed; 0x9f51ad60; 0x64b28674; 0x2dbfe1f9; 0xf6a8496e; 0xbfa52ee3;
   0x867d0cfd; 0xcf706b70; 0x1467c3e7; 0x5d6aa46a; 0xa6898f7e; 0xef84e8f3; 0x34934064; 0x7d9e27e9;
   0xc7940bfb; 0x8e996c76; 0x558ec4e1; 0x1c83a36c; 0xe7608878; 0xae6deff5; 0x757a4762; 0x3c7720ef;
   0x0d9406bc; 0x44996131; 0x9f8ec9a6; 0xd683ae2b; 0x2d60853f; 0x646de2b2; 0xbf7a4a25; 0xf6772da8;
   0x4c7d01ba; 0x05706637; 0xde67cea0; 0x976aa92d; 0x6c898239; 0x2584e5b4; 0xfe934d23; 0xb79e2aae;
   0x8e4608b0; 0xc74b6f3d; 0x1c5cc7aa; 0x5551a027; 0xaeb28b33; 0xe7bfecbe; 0x3ca84429; 0x75a523a4;
   0xcfaf0fb6; 0x86a2683b; 0x5db5c0ac; 0x14b8a721; 0xef5b8c35; 0xa656ebb8; 0x7d41432f; 0x344c24a2;
   0x0ef10713; 0x47fc609e; 0x9cebc809; 0xd5e6af84; 0x2e058490; 0x6708e31d; 0xbc1f4b8a; 0xf5122c07;
   0x4f180015; 0x06156798; 0xdd02cf0f; 0x940fa882; 0x6fec8396; 0x26e1e41b; 0xfdf64c8c; 0xb4fb2b01;
   0x8d23091f; 0xc42e6e92; 0x1f39c605; 0x5634a188; 0xadd78a9c; 0xe4daed11; 0x3fcd4586; 0x76c0220b;
   0xccca0e19; 0x85c76994; 0x5ed0c103; 0x17dda68e; 0xec3e8d9a; 0xa533ea17; 0x7e244280; 0x3729250d;
   0x0b5e05e2; 0x4253626f; 0x9944caf8; 0xd049ad75; 0x2baa8661; 0x62a7e1ec; 0xb9b0497b; 0xf0bd2ef6;
   0x4ab702e4; 0x03ba6569; 0xd8adcdfe; 0x91a0aa73; 0x6a438167; 0x234ee6ea; 0xf8594e7d; 0xb15429f0;
   0x888c0bee; 0xc1816c63; 0x1a96c4f4; 0x539ba379; 0xa878886d; 0xe175efe0; 0x3a624777; 0x736f20fa;
   0xc9650ce8; 0x80686b65; 0x5b7fc3f2; 0x1272a47f; 0xe9918f6b; 0xa09ce8e6; 0x7b8b4071; 0x328627fc;
   0x083b044d; 0x413663c0; 0x9a21cb57; 0xd32cacda; 0x28cf87ce; 0x61c2e043; 0xbad548d4; 0xf3d82f59;
   0x49d2034b; 0x00df64c6; 0xdbc8cc51; 0x92c5abdc; 0x692680c8; 0x202be745; 0xfb3c4fd2; 0xb231285f;
   0x8be90a41; 0xc2e46dcc; 0x19f3c55b; 0x50fea2d6; 0xab1d89c2; 0xe210ee4f; 0x390746d8; 0x700a2155;
   0xca000d47; 0x830d6aca; 0x581ac25d; 0x1117a5d0; 0xeaf48ec4; 0xa3f9e949; 0x78ee41de; 0x31e32653].

Definition crc32table_be_5 : list Z :=
  [0x00000000; 0x1b280d78; 0x36501af0; 0x2d781788; 0x6ca035e0; 0x77883898; 0x5af02f10; 0x41d82268;
   0xd9406bc0; 0xc26866b8; 0xef107130; 0xf4387c48; 0xb5e05e20; 0xaec85358; 0x83b044d0; 0x989849a8;
   0xb641ca37; 0xad69c74f; 0x8011d0c7; 0x9b39ddbf; 0xdae1ffd7; 0xc1c9f2af; 0xecb1e527; 0xf799e85f;
   0x6f01a1f7; 0x7429ac8f; 0x5951bb07; 0x4279b67f; 0x03a19417; 0x1889996f; 0x35f18ee7; 0x2ed9839f;
   0x684289d9; 0x736a84a1; 0x5e129329; 0x453a9e51; 0x04e2bc39; 0x1fcab141; 0x32b2a6c9; 0x299aabb1;
   0xb102e219; 0xaa2aef61; 0x8752f8e9; 0x9c7af591; 0xdda2d7f9; 0xc68ada81; 0xebf2cd09; 0xf0dac071;
   0xde0343ee; 0xc52b4e96; 0xe853591e; 0xf37b5466; 0xb2a3760e; 0xa98b7b76; 0x84f36cfe; 0x9fdb6186;
   0x0743282e; 0x1c6b2556; 0x311332de; 0x2a3b3fa6; 0x6be31dce; 0x70cb10b6; 0x5db3073e; 0x469b0a46;
   0xd08513b2; 0xcbad1eca; 0xe6d50942; 0xfdfd043a; 0xbc252652; 0xa70d2b2a; 0x8a753ca2; 0x915d31da;
   0x09c57872; 0x12ed750a; 0x3f956282; 0x24bd6ffa; 0x65654d92; 0x7e4d40ea; 0x53355762; 0x481d5a1a;
   0x66c4d985; 0x7decd4fd; 0x5094c375; 0x4bbcce0d; 0x0a64ec65; 0x114ce11d; 0x3c34f695; 0x271cfbed;
   0xbf84b245; 0xa4acbf3d; 0x89d4a8b5; 0x92fca5cd; 0xd32487a5; 0xc80c8add; 0xe5749d55; 0xfe5c902d;
   0xb8c79a6b; 0xa3ef9713; 0x8e97809b; 0x95bf8de3; 0xd467af8b; 0xcf4fa2f3; 0xe237b57b; 0xf91fb803;
   0x6187f1ab; 0x7aaffcd3; 0x57d7eb5b; 0x4cffe623; 0x0d27c44b; 0x160fc933; 0x3b77debb; 0x205fd3c3;
   0x0e86505c; 0x15ae5d24; 0x38d64aac; 0x23fe47d4; 0x622665bc; 0x790e68c4; 0x54767f4c; 0x4f5e7234;
   0xd7c63b9c; 0xccee36e4; 0xe196216c; 0xfabe2c14; 0xbb660e7c; 0xa04e0304; 0x8d36148c; 0x961e19f4;
   0xa5cb3ad3; 0xbee337ab; 0x939b2023; 0x88b32d5b; 0xc96b0f33; 0xd243024b; 0xff3b15c3; 0xe41318bb;
   0x7c8b5113; 0x67a35c6b; 0x4adb4be3; 0x51f3469b; 0x102b64f3; 0x0b03698b; 0x267b7e03; 0x3d53737b;
   0x138af0e4; 0x08a2fd9c; 0x25daea14; 0x3ef2e76c; 0x7f2ac504; 0x6402c87c; 0x497adff4; 0x5252d28c;
   0xcaca9b24; 0xd1e2965c; 0xfc9a81d4; 0xe7b28cac; 0xa66aaec4; 0xbd42a3bc; 0x903ab434; 0x8b12b94c;
   0xcd89b30a; 0xd6a1be72; 0xfbd9a9fa; 0xe0f1a482; 0xa12986ea; 0xba018b92; 0x97799c1a; 0x8c519162;
   0x14c9d8ca; 0x0fe1d5b2; 0x2299c23a; 0x39b1cf42; 0x7869ed2a; 0x6341e052; 0x4e39f7da; 0x5511faa2;
   0x7bc8793d; 0x60e07445; 0x4d9863cd; 0x56b06eb5; 0x17684cdd; 0x0c4041a5; 0x2138562d; 0x3a105b55;
   0xa28812fd; 0xb9a01f85; 0x94d8080d; 0x8ff00575; 0xce28271d; 0xd5002a65; 0xf8783ded; 0xe3503095;
   0x754e2961; 0x6e662419; 0x431e3391; 0x58363ee9; 0x19ee1c81; 0x02c611f9; 0x2fbe0671; 0x34960b09;
   0xac0e42a1; 0xb7264fd9; 0x9a5e5851; 0x81765529; 0xc0ae7741; 0xdb867a39; 0xf6fe6db1; 0xedd660c9;
   0xc30fe356; 0xd827ee2e; 0xf55ff9a6; 0xee77f4de; 0xafafd6b6; 0xb487dbce; 0x99ffcc46; 0x82d7c13e;
   0x1a4f8896; 0x016785ee; 0x2c1f9266; 0x37379f1e; 0x76efbd76; 0x6dc7b00e; 0x40bfa786; 0x5b97aafe;
   0x1d0ca0b8; 0x0624adc0; 0x2b5cba48; 0x3074b730; 0x71ac9558; 0x6a849820; 0x47fc8fa8; 0x5cd482d0;
   0xc44ccb78; 0xdf64c600; 0xf21cd188; 0xe934dcf0; 0xa8ecfe98; 0xb3c4f3e0; 0x9ebce468; 0x8594e910;
   0xab4d6a8f; 0xb06567f7; 0x9d1d707f; 0x86357d07; 0xc7ed5f6f; 0xdcc55217; 0xf1bd459f; 0xea9548e7;
   0x720d014f; 0x69250c37; 0x445d1bbf; 0x5f7516c7; 0x1ead34af; 0x058539d7; 0x28fd2e5f; 0x33d52327].

Definition crc32table_be_6 : list Z :=
  [0x00000000; 0x4f576811; 0x9eaed022; 0xd1f9b833; 0x399cbdf3; 0x76cbd5e2; 0xa7326dd1; 0xe86505c0;
   0x73397be6; 0x3c6e13f7; 0xed97abc4; 0xa2c0c3d5; 0x4aa5c615; 0x05f2ae04; 0xd40b1637; 0x9b5c7e26;
   0xe672f7cc; 0xa9259fdd; 0x78dc27ee; 0x378b4fff; 0xdfee4a3f; 0x90b9222e; 0x41409a1d; 0x0e17f20c;
   0x954b8c2a; 0xda1ce43b; 0x0be55c08; 0x44b23419; 0xacd731d9; 0xe38059c8; 0x3279e1fb; 0x7d2e89ea;
   0xc824f22f; 0x87739a3e; 0x568a220d; 0x19dd4a1c; 0xf1b84fdc; 0xbeef27cd; 0x6f169ffe; 0x2041f7ef;
   0xbb1d89c9; 0xf44ae1d8; 0x25b359eb; 0x6ae431fa; 0x8281343a; 0xcdd65c2b; 0x1c2fe418; 0x53788c09;
   0x2e5605e3; 0x61016df2; 0xb0f8d5c1; 0xffafbdd0; 0x17cab810; 0x589dd001; 0x89646832; 0xc6330023;
   0x5d6f7e05; 0x12381614; 0xc3c1ae27; 0x8c96c636; 0x64f3c3f6; 0x2ba4abe7; 0xfa5d13d4; 0xb50a7bc5;
   0x9488f9e9; 0xdbdf91f8; 0x0a2629cb; 0x457141da; 0xad14441a; 0xe2432c0b; 0x33ba9438; 0x7cedfc29;
   0xe7b1820f; 0xa8e6ea1e; 0x791f522d; 0x36483a3c; 0xde2d3ffc; 0x917a57ed; 0x4083efde; 0x0fd487cf;
   0x72fa0e25; 0x3dad6634; 0xec54de07; 0xa303b616; 0x4b66b3d6; 0x0431dbc7; 0xd5c863f4; 0x9a9f0be5;
   0x01c375c3; 0x4e941dd2; 0x9f6da5e1; 0xd03acdf0; 0x385fc830; 0x7708a021; 0xa6f11812; 0xe9a67003;
   0x5cac0bc6; 0x13fb63d7; 0xc202dbe4; 0x8d55b3f5; 0x6530b635; 0x2a67de24; 0xfb9e6617; 0xb4c90e06;
   0x2f957020; 0x60c21831; 0xb13ba002; 0xfe6cc813; 0x1609cdd3; 0x595ea5c2; 0x88a71df1; 0xc7f075e0;
   0xbadefc0a; 0xf589941b; 0x24702c28; 0x6b274439; 0x834241f9; 0xcc1529e8; 0x1dec91db; 0x52bbf9ca;
   0xc9e787ec; 0x86b0effd; 0x574957ce; 0x181e3fdf; 0xf07b3a1f; 0xbf2c520e; 0x6ed5ea3d; 0x2182822c;
   0x2dd0ee65; 0x62878674; 0xb37e3e47; 0xfc295656; 0x144c5396; 0x5b1b3b87; 0x8ae283b4; 0xc5b5eba5;
   0x5ee99583; 0x11befd92; 0xc04745a1; 0x8f102db0; 0x67752870; 0x28224061; 0xf9dbf852; 0xb68c9043;
   0xcba219a9; 0x84f571b8; 0x550cc98b; 0x1a5ba19a; 0xf23ea45a; 0xbd69cc4b; 0x6c907478; 0x23c71c69;
   0xb89b624f; 0xf7cc0a5e; 0x2635b26d; 0x6962da7c; 0x8107dfbc; 0xce50b7ad; 0x1fa90f9e; 0x50fe678f;
   0xe5f41c4a; 0xaaa3745b; 0x7b5acc68; 0x340da479; 0xdc68a1b9; 0x933fc9a8; 0x42c6719b; 0x0d91198a;
   0x96cd67ac; 0xd99a0fbd; 0x0863b78e; 0x4734df9f; 0xaf51da5f; 0xe006b24e; 0x31ff0a7d; 0x7ea8626c;
   0x0386eb86; 0x4cd18397; 0x9d283ba4; 0xd27f53b5; 0x3a1a5675; 0x754d3e64; 0xa4b48657; 0xebe3ee46;
   0x70bf9060; 0x3fe8f871; 0xee114042; 0xa1462853; 0x49232d93; 0x06744582; 0xd78dfdb1; 0x98da95a0;
   0xb958178c; 0xf60f7f9d; 0x27f6c7ae; 0x68a1afbf; 0x80c4aa7f; 0xcf93c26e; 0x1e6a7a5d; 0x513d124c;
   0xca616c6a; 0x8536047b; 0x54cfbc48; 0x1b98d459; 0xf3fdd199; 0xbcaab988; 0x6d5301bb; 0x220469aa;
   0x5f2ae040; 0x107d8851; 0xc1843062; 0x8ed35873; 0x66b65db3; 0x29e135a2; 0xf8188d91; 0xb74fe580;
   0x2c139ba6; 0x6344f3b7; 0xb2bd4b84; 0xfdea2395; 0x158f2655; 0x5ad84e44; 0x8b21f677; 0xc4769e66;
   0x717ce5a3; 0x3e2b8db2; 0xefd23581; 0xa0855d90; 0x48e05850; 0x07b73041; 0xd64e8872; 0x9919e063;
   0x02459e45; 0x4d12f654; 0x9ceb4e67; 0xd3bc2676; 0x3bd923b6; 0x748e4ba7; 0xa577f394; 0xea209b85;
   0x970e126f; 0xd8597a7e; 0x09a0c24d; 0x46f7aa5c; 0xae92af9c; 0xe1c5c78d; 0x303c7fbe; 0x7f6b17af;
   0xe4376989; 0xab600198; 0x7a99b9ab; 0x35ced1ba; 0xddabd47a; 0x92fcbc6b; 0x43050458; 0x0c526c49].

Definition crc32table_be_7 : list Z :=
  [0x00000000; 0x5ba1dcca; 0xb743b994; 0xece2655e; 0x6a466e9f; 0x31e7b255; 0xdd05d70b; 0x86a40bc1;
   0xd48cdd3e; 0x8f2d01f4; 0x63cf64aa; 0x386eb860; 0xbecab3a1; 0xe56b6f6b; 0x09890a35; 0x5228d6ff;
   0xadd8a7cb; 0xf6797b01; 0x1a9b1e5f; 0x413ac295; 0xc79ec954; 0x9c3f159e; 0x70dd70c0; 0x2b7cac0a;
   0x79547af5; 0x22f5a63f; 0xce17c361; 0x95b61fab; 0x1312146a; 0x48b3c8a0; 0xa451adfe; 0xfff07134;
   0x5f705221; 0x04d18eeb; 0xe833ebb5; 0xb392377f; 0x35363cbe; 0x6e97e074; 0x8275852a; 0xd9d459e0;
   0x8bfc8f1f; 0xd05d53d5; 0x3cbf368b; 0x671eea41; 0xe1bae180; 0xba1b3d4a; 0x56f95814; 0x0d5884de;
   0xf2a8f5ea; 0xa9092920; 0x45eb4c7e; 0x1e4a90b4; 0x98ee9b75; 0xc34f47bf; 0x2fad22e1; 0x740cfe2b;
   0x262428d4; 0x7d85f41e; 0x91679140; 0xcac64d8a; 0x4c62464b; 0x17c39a81; 0xfb21ffdf; 0xa0802315;
   0xbee0a442; 0xe5417888; 0x09a31dd6; 0x5202c11c; 0xd4a6cadd; 0x8f071617; 0x63e57349; 0x3844af83;
   0x6a6c797c; 0x31cda5b6; 0xdd2fc0e8; 0x868e1c22; 0x002a17e3; 0x5b8bcb29; 0xb769ae77; 0xecc872bd;
   0x13380389; 0x4899df43; 0xa47bba1d; 0xffda66d7; 0x797e6d16; 0x22dfb1dc; 0xce3dd482; 0x959c0848;
   0xc7b4deb7; 0x9c15027d; 0x70f76723; 0x2b56bbe9; 0xadf2b028; 0xf6536ce2; 0x1ab109bc; 0x4110d576;
   0xe190f663; 0xba312aa9; 0x56d34ff7; 0x0d72933d; 0x8bd698fc; 0xd0774436; 0x3c952168; 0x6734fda2;
   0x351c2b5d; 0x6ebdf797; 0x825f92c9; 0xd9fe4e03; 0x5f5a45c2; 0x04fb9908; 0xe819fc56; 0xb3b8209c;
   0x4c4851a8; 0x17e98d62; 0xfb0be83c; 0xa0aa34f6; 0x260e3f37; 0x7dafe3fd; 0x914d86a3; 0xcaec5a69;
   0x98c48c96; 0xc365505c; 0x2f873502; 0x7426e9c8; 0xf282e209; 0xa9233ec3; 0x45c15b9d; 0x1e608757;
   0x79005533; 0x22a189f9; 0xce43eca7; 0x95e2306d; 0x13463bac; 0x48e7e766; 0xa4058238; 0xffa45ef2;
   0xad8c880d; 0xf62d54c7; 0x1acf3199; 0x416eed53; 0xc7cae692; 0x9c6b3a58; 0x70895f06; 0x2b2883cc;
   0xd4d8f2f8; 0x8f792e32; 0x639b4b6c; 0x383a97a6; 0xbe9e9c67; 0xe53f40ad; 0x09dd25f3; 0x527cf939;
   0x00542fc6; 0x5bf5f30c; 0xb7179652; 0xecb64a98; 0x6a124159; 0x31b39d93; 0xdd51f8cd; 0x86f02407;
   0x26700712; 0x7dd1dbd8; 0x9133be86; 0xca92624c; 0x4c36698d; 0x1797b547; 0xfb75d019; 0xa0d40cd3;
   0xf2fcda2c; 0xa95d06e6; 0x45bf63b8; 0x1e1ebf72; 0x98bab4b3; 0xc31b6879; 0x2ff90d27; 0x7458d1ed;
   0x8ba8a0d9; 0xd0097c13; 0x3ceb194d; 0x674ac587; 0xe1eece46; 0xba4f128c; 0x56ad77d2; 0x0d0cab18;
   0x5f247de7; 0x0485a12d; 0xe867c473; 0xb3c618b9; 0x35621378; 0x6ec3cfb2; 0x8221aaec; 0xd9807626;
   0xc7e0f171; 0x9c412dbb; 0x70a348e5; 0x2b02942f; 0xada69fee; 0xf6074324; 0x1ae5267a; 0x4144fab0;
   0x136c2c4f; 0x48cdf085; 0xa42f95db; 0xff8e4911; 0x792a42d0; 0x228b9e1a; 0xce69fb44; 0x95c8278e;
   0x6a3856ba; 0x31998a70; 0xdd7bef2e; 0x86da33e4; 0x007e3825; 0x5bdfe4ef; 0xb73d81b1; 0xec9c5d7b;
   0xbeb48b84; 0xe515574e; 0x09f73210; 0x5256eeda; 0xd4f2e51b; 0x8f5339d1; 0x63b15c8f; 0x38108045;
   0x9890a350; 0xc3317f9a; 0x2fd31ac4; 0x7472c60e; 0xf2d6cdcf; 0xa9771105; 0x4595745b; 0x1e34a891;
   0x4c1c7e6e; 0x17bda2a4; 0xfb5fc7fa; 0xa0fe1b30; 0x265a10f1; 0x7dfbcc3b; 0x9119a965; 0xcab875af;
   0x3548049b; 0x6ee9d851; 0x820bbd0f; 0xd9aa61c5; 0x5f0e6a04; 0x04afb6ce; 0xe84dd390; 0xb3ec0f5a;
   0xe1c4d9a5; 0xba65056f; 0x56876031; 0x0d26bcfb; 0x8b82b73a; 0xd0236bf0; 0x3cc10eae; 0x6760d264].

Definition crc32table_be : list (list Z) :=
  [crc32table_be_0; crc32table_be_1; crc32table_be_2; crc32table_be_3; crc32table_be_4; crc32table_be_5; crc32table_be_6; crc32table_be_7].
