(* ===== verification/Crc.v ===== *)
(** Checksums.

    - [Reflected]: the theory of a reflected (LSB-first) CRC register for an
      arbitrary polynomial: the one-bit step, its linearity over xor, the
      bit-at-a-time reference [crc_ref], and why a byte table and the
      slicing-by-8 tables compute it.
    - [SparseCrc]: libsparse/sparse_crc32.cpp.
    - [Crc16]: lib/ext2fs/crc16.c.
    - [Crc32c]: lib/ext2fs/crc32c.c (the slicing-by-8 body that is compiled in,
      CRC_LE_BITS = 64, on a little-endian machine) and the table generator
      lib/ext2fs/gen_crc32ctable.c. *)

From S2P Require Import Prelude.
From S2P Require Import CrcTables.

Local Open Scope Z_scope.

Module Reflected.
Section poly.
Context (poly : Z).

(** One step of the register: shift right, xor the polynomial when a one
    falls out. *)
Definition crc_bit (c : Z) : Z :=
  Z.lxor (Z.shiftr c 1) (if Z.odd c then poly else 0).

Fixpoint crc_bits (n : nat) (c : Z) : Z :=
  match n with
  | O => c
  | S n' => crc_bits n' (crc_bit c)
  end.

(** The bit-at-a-time reference: xor each byte in, then eight steps. *)
Definition crc_ref (c : Z) (bs : list Z) : Z :=
  fold_left (fun c b => crc_bits 8 (Z.lxor c b)) bs c.

(** The table whose entry [i] is the register [i] after [8 * k] steps. *)
Definition crc_table (k : nat) : list Z :=
  map (fun i => crc_bits (8 * k) (Z.of_nat i)) (seq 0 256).

Lemma odd_lxor a b : Z.odd (Z.lxor a b) = xorb (Z.odd a) (Z.odd b).
Proof. rewrite <- !Z.bit0_odd. apply Z.lxor_spec. Qed.

Lemma lxor_swap a b c d :
  Z.lxor (Z.lxor a b) (Z.lxor c d) = Z.lxor (Z.lxor a c) (Z.lxor b d).
Proof.
  rewrite !Z.lxor_assoc. f_equal. rewrite <- !Z.lxor_assoc. f_equal. apply Z.lxor_comm.
Qed.

Lemma crc_bit_lxor a b : crc_bit (Z.lxor a b) = Z.lxor (crc_bit a) (crc_bit b).
Proof.
  unfold crc_bit. rewrite Z.shiftr_lxor, odd_lxor, lxor_swap. f_equal.
  destruct (Z.odd a), (Z.odd b); simpl xorb; cbv iota;
    now rewrite ?Z.lxor_nilpotent, ?Z.lxor_0_r, ?Z.lxor_0_l.
Qed.

Lemma crc_bits_lxor n a b :
  crc_bits n (Z.lxor a b) = Z.lxor (crc_bits n a) (crc_bits n b).
Proof.
  revert a b; induction n as [|n IH]; intros a b; simpl; [done|].
  now rewrite crc_bit_lxor, IH.
Qed.

Lemma crc_bits_add n m c : crc_bits (n + m) c = crc_bits m (crc_bits n c).
Proof. revert c; induction n; intros c; simpl; auto. Qed.

Lemma crc_bits_shiftl n x : crc_bits n (Z.shiftl x (Z.of_nat n)) = x.
Proof.
  revert x; induction n as [|n IH]; intros x; [apply Z.shiftl_0_r|].
  cbn [crc_bits]. replace (Z.of_nat (S n)) with (Z.of_nat n + 1) by lia.
  rewrite <- Z.shiftl_shiftl by lia.
  set (y := Z.shiftl x (Z.of_nat n)) in *.
  replace (crc_bit (Z.shiftl y 1)) with y; [apply IH|].
  unfold crc_bit. rewrite Z.shiftl_mul_pow2 by lia. change (2 ^ 1) with 2.
  rewrite Z.odd_mul. simpl Z.odd. rewrite andb_false_r, Z.lxor_0_r.
  rewrite Z.shiftr_div_pow2 by lia. change (2 ^ 1) with 2.
  now rewrite Z.div_mul.
Qed.

Lemma crc_bits_byte b k : crc_bits (8 + k) b = crc_bits k (crc_bits 8 b).
Proof. apply crc_bits_add. Qed.

(** Running the reference over a buffer is running the register over the
    buffer read as one little-endian number. *)
Lemma crc_ref_bits c bs :
  bytes_ok bs -> crc_ref c bs = crc_bits (8 * length bs) (Z.lxor c (le_decode bs)).
Proof.
  intros Hok; revert c; induction Hok as [|b bs Hb Hbs IH]; intros c.
  - simpl. now rewrite Z.lxor_0_r.
  - cbn [crc_ref fold_left]. change (crc_ref (crc_bits 8 (Z.lxor c b)) bs = crc_bits (8 * length (b :: bs))
      (Z.lxor c (le_decode (b :: bs)))).
    rewrite IH.
    cbn [length le_decode]. replace (8 * S (length bs))%nat with (8 + 8 * length bs)%nat by lia.
    rewrite crc_bits_byte. f_equal.
    change 256 with (2 ^ 8).
    rewrite <- (lxor_high_low 8 b (le_decode bs)) by (unfold is_u8 in Hb; lia).
    rewrite <- Z.lxor_assoc, (crc_bits_lxor 8 (Z.lxor c b)). f_equal.
    symmetry. apply (crc_bits_shiftl 8).
Qed.

Lemma crc_ref_app c a b : crc_ref c (a ++ b) = crc_ref (crc_ref c a) b.
Proof. apply fold_left_app. Qed.

Lemma crc_table_lookup k i :
  0 <= i < 256 -> nth (Z.to_nat i) (crc_table k) 0 = crc_bits (8 * k) i.
Proof.
  intros Hi. unfold crc_table.
  rewrite nth_indep with (d' := crc_bits (8 * k) (Z.of_nat 0))
    by (rewrite length_map, length_seq; lia).
  rewrite (map_nth (fun j => crc_bits (8 * k) (Z.of_nat j))), seq_nth by lia.
  f_equal. lia.
Qed.

Lemma land255 x : Z.land x 255 = x mod 256.
Proof. change 255 with (Z.ones 8). now rewrite Z.land_ones. Qed.

(** Splitting off the low byte of the register. *)
Lemma crc_bits_split_byte k x :
  0 <= x ->
  crc_bits (8 + k) x
  = Z.lxor (crc_bits (8 + k) (Z.land x 255)) (crc_bits k (Z.shiftr x 8)).
Proof.
  intros Hx.
  assert (Hs : x = Z.lxor (Z.land x 255) (Z.shiftl (Z.shiftr x 8) 8)).
  { rewrite land255, lxor_high_low by (try apply Z.mod_pos_bound; lia).
    rewrite Z.shiftr_div_pow2 by lia. change (2 ^ 8) with 256.
    pose proof (Z.div_mod x 256). lia. }
  rewrite Hs at 1. rewrite crc_bits_lxor. f_equal.
  rewrite crc_bits_byte. f_equal. apply (crc_bits_shiftl 8).
Qed.

(** The byte-table step of the three implementations. *)
Lemma crc_byte_step c b :
  0 <= c -> is_u8 b ->
  crc_bits 8 (Z.lxor c b)
  = Z.lxor (nth (Z.to_nat (Z.land (Z.lxor c b) 255)) (crc_table 1) 0) (Z.shiftr c 8).
Proof.
  intros Hc Hb. unfold is_u8 in Hb.
  assert (0 <= Z.lxor c b) by (apply Z.lxor_nonneg; lia).
  change 8%nat with (8 + 0)%nat. rewrite crc_bits_split_byte by done.
  rewrite crc_table_lookup by (rewrite land255; apply Z.mod_pos_bound; lia).
  f_equal. cbn [crc_bits]. rewrite Z.shiftr_lxor.
  replace (Z.shiftr b 8) with 0; [apply Z.lxor_0_r|].
  rewrite Z.shiftr_div_pow2 by lia. rewrite Z.div_small; lia.
Qed.

(** The four-byte lookup [DO_CRC4] / [DO_CRC8]: a 32-bit word pushed through
    [8 * (k + 4)] steps is the xor of four table entries. *)
Lemma crc_word_step k q :
  is_u32 q ->
  crc_bits (8 * (4 + k)) q =
  Z.lxor (Z.lxor (Z.lxor
    (nth (Z.to_nat (Z.land q 255)) (crc_table (4 + k)) 0)
    (nth (Z.to_nat (Z.land (Z.shiftr q 8) 255)) (crc_table (3 + k)) 0))
    (nth (Z.to_nat (Z.land (Z.shiftr q 16) 255)) (crc_table (2 + k)) 0))
    (nth (Z.to_nat (Z.land (Z.shiftr q 24) 255)) (crc_table (1 + k)) 0).
Proof.
  intros Hq. unfold is_u32 in Hq.
  assert (Hland : forall x, 0 <= Z.land x 255 < 256).
  { intros. rewrite land255. apply Z.mod_pos_bound. lia. }
  rewrite !crc_table_lookup by apply Hland.
  replace (8 * (4 + k))%nat with (8 + (8 + (8 + (8 + 8 * k))))%nat by lia.
  rewrite crc_bits_split_byte by lia.
  rewrite (crc_bits_split_byte (8 + (8 + 8 * k)) (Z.shiftr q 8))
    by (apply Z.shiftr_nonneg; lia).
  rewrite Z.shiftr_shiftr by lia.
  rewrite (crc_bits_split_byte (8 + 8 * k) (Z.shiftr q (8 + 8)))
    by (apply Z.shiftr_nonneg; lia).
  rewrite Z.shiftr_shiftr by lia. cbn [Z.add Pos.add Pos.succ Pos.add_carry].
  assert (Hz : Z.shiftr q 24 = Z.land (Z.shiftr q 24) 255).
  { rewrite land255, Z.shiftr_div_pow2 by lia. rewrite Z.mod_small; [done|].
    split; [apply Z.div_pos; lia|]. apply Z.div_lt_upper_bound; lia. }
  rewrite !Z.lxor_assoc.
  replace (8 * (3 + k))%nat with (8 + (8 + (8 + 8 * k)))%nat by lia.
  replace (8 * (2 + k))%nat with (8 + (8 + 8 * k))%nat by lia.
  replace (8 * (1 + k))%nat with (8 + 8 * k)%nat by lia.
  change (8 + 8 + 8) with 24. change (8 + 8) with 16. now rewrite <- Hz.
Qed.

Lemma crc_bit_range w c :
  0 < w -> 0 <= poly < 2 ^ w -> 0 <= c < 2 ^ w -> 0 <= crc_bit c < 2 ^ w.
Proof.
  intros Hw Hp Hc. unfold crc_bit.
  assert (Hs : 0 <= Z.shiftr c 1 < 2 ^ w).
  { rewrite Z.shiftr_div_pow2 by lia. change (2 ^ 1) with 2. div_lia. }
  apply lxor_range; [lia|done|]. destruct (Z.odd c); lia.
Qed.

Lemma crc_bits_range w n c :
  0 < w -> 0 <= poly < 2 ^ w -> 0 <= c < 2 ^ w -> 0 <= crc_bits n c < 2 ^ w.
Proof.
  intros Hw Hp. revert c; induction n as [|n IH]; intros c Hc; [done|].
  simpl. apply IH. now apply crc_bit_range.
Qed.

End poly.
End Reflected.

(** * libsparse/sparse_crc32.cpp *)

Module SparseCrc.
Import Reflected.

Definition poly : Z := 0xedb88320.

(** [crc = crc32_tab[(crc ^ *p++) & 0xFF] ^ (crc >> 8)] for each byte. *)
Definition crc32_loop (crc : Z) (buf : list Z) : Z :=
  fold_left (fun crc p =>
    Z.lxor (nth (Z.to_nat (Z.land (Z.lxor crc p) 0xFF)) crc32_tab 0) (Z.shiftr crc 8))
    buf crc.

Definition sparse_crc32 (crc_in : Z) (buf : list Z) : Z :=
  Z.lxor (crc32_loop (Z.lxor crc_in 0xFFFFFFFF) buf) 0xFFFFFFFF.

Lemma crc32_tab_ok : crc32_tab = crc_table poly 1.
Proof. vm_compute. reflexivity. Qed.

Lemma crc_update_range c b : is_u32 c -> is_u8 b -> is_u32 (crc_bits poly 8 (Z.lxor c b)).
Proof.
  unfold is_u32, is_u8. intros. apply crc_bits_range; [lia|unfold poly; lia|].
  apply lxor_range; lia.
Qed.

Lemma crc32_loop_ref crc buf :
  is_u32 crc -> bytes_ok buf ->
  crc32_loop crc buf = crc_ref poly crc buf /\ is_u32 (crc_ref poly crc buf).
Proof.
  intros Hc Hok. unfold crc32_loop, crc_ref.
  apply (fold_left_sim is_u32 is_u8); [done..|]. intros c b Hc' Hb.
  split; [|now apply crc_update_range].
  rewrite crc32_tab_ok. symmetry. apply crc_byte_step; [range_lia|done].
Qed.

Lemma flip32_range c : is_u32 c -> is_u32 (Z.lxor c 0xFFFFFFFF).
Proof. intros. unfold is_u32. apply lxor_range; [lia|done|lia]. Qed.

Lemma sparse_crc32_range crc buf :
  is_u32 crc -> bytes_ok buf -> is_u32 (sparse_crc32 crc buf).
Proof.
  intros. unfold sparse_crc32. apply flip32_range.
  destruct (crc32_loop_ref (Z.lxor crc 0xFFFFFFFF) buf) as [-> ?];
    auto using flip32_range.
Qed.

(** Checksumming a buffer in pieces gives the checksum of the whole buffer:
    what lets the writer and the reader feed the image chunk by chunk. *)
Lemma sparse_crc32_app crc a b :
  sparse_crc32 crc (a ++ b) = sparse_crc32 (sparse_crc32 crc a) b.
Proof.
  unfold sparse_crc32, crc32_loop. rewrite fold_left_app.
  now rewrite Z.lxor_assoc, Z.lxor_nilpotent, Z.lxor_0_r.
Qed.

End SparseCrc.

(** * lib/ext2fs/crc16.c *)

Module Crc16.
Import Reflected.

(** The reflected form of 0x8005. *)
Definition poly : Z := 0xA001.

(** [crc16_t] is an unsigned int of which the low 16 bits are used. *)
Definition ext2fs_crc16 (crc : Z) (buffer : list Z) : Z :=
  fold_left (fun crc cp =>
    Z.land (Z.lxor (Z.land (Z.shiftr crc 8) 0xff)
                   (nth (Z.to_nat (Z.land (Z.lxor crc cp) 0xff)) crc16_table 0))
           0x0000ffff) buffer crc.

Lemma crc16_table_ok : crc16_table = crc_table poly 1.
Proof. vm_compute. reflexivity. Qed.

Lemma crc16_step crc cp :
  is_u16 crc -> is_u8 cp ->
  Z.land (Z.lxor (Z.land (Z.shiftr crc 8) 0xff)
                 (nth (Z.to_nat (Z.land (Z.lxor crc cp) 0xff)) crc16_table 0)) 0x0000ffff
  = crc_bits poly 8 (Z.lxor crc cp).
Proof.
  intros Hc Hb. rewrite (crc_byte_step poly), <- crc16_table_ok
    by (unfold is_u16 in Hc; lia || done).
  assert (Hs : Z.land (Z.shiftr crc 8) 0xff = Z.shiftr crc 8).
  { rewrite land255, Z.mod_small; [done|]. rewrite Z.shiftr_div_pow2 by lia.
    unfold is_u16 in Hc. change (2 ^ 8) with 256. div_lia. }
  rewrite Hs, Z.lxor_comm. change 0x0000ffff with (Z.ones 16).
  rewrite Z.land_ones by lia. apply Z.mod_small.
  rewrite crc16_table_ok, <- crc_byte_step by (unfold is_u16 in Hc; lia || done).
  apply crc_bits_range; [lia|unfold poly; lia|].
  apply lxor_range; [lia|done|unfold is_u8 in Hb; lia].
Qed.

Lemma ext2fs_crc16_ref crc buffer :
  is_u16 crc -> bytes_ok buffer ->
  ext2fs_crc16 crc buffer = crc_ref poly crc buffer /\ is_u16 (crc_ref poly crc buffer).
Proof.
  intros Hc Hok. unfold ext2fs_crc16, crc_ref.
  apply (fold_left_sim is_u16 is_u8); [done..|]. intros c b Hc' Hb.
  split; [now apply crc16_step|].
  unfold is_u16, is_u8 in *. apply crc_bits_range; [lia|unfold poly; lia|].
  apply lxor_range; lia.
Qed.

End Crc16.

(** * lib/ext2fs/crc32c.c, slicing by eight *)

Module Crc32c.
Import Reflected.

Definition CRC32C_POLY_LE : Z := 0x82F63B78.

Definition tab (k : nat) (i : Z) : Z :=
  nth (Z.to_nat i) (nth k crc32ctable_le []) 0.

(** The macros of [crc32_body] on a little-endian machine. *)
Definition DO_CRC (crc x : Z) : Z :=
  Z.lxor (tab 0 (Z.land (Z.lxor crc x) 255)) (Z.shiftr crc 8).
Definition DO_CRC4 (q : Z) : Z :=
  Z.lxor (Z.lxor (Z.lxor (tab 3 (Z.land q 255)) (tab 2 (Z.land (Z.shiftr q 8) 255)))
                 (tab 1 (Z.land (Z.shiftr q 16) 255)))
         (tab 0 (Z.land (Z.shiftr q 24) 255)).
Definition DO_CRC8 (q : Z) : Z :=
  Z.lxor (Z.lxor (Z.lxor (tab 7 (Z.land q 255)) (tab 6 (Z.land (Z.shiftr q 8) 255)))
                 (tab 5 (Z.land (Z.shiftr q 16) 255)))
         (tab 4 (Z.land (Z.shiftr q 24) 255)).

(** The alignment loop: byte steps while [buf & 3] and bytes remain. *)
Fixpoint align_loop (addr crc : Z) (buf : list Z) : Z * list Z :=
  match buf with
  | [] => (crc, [])
  | x :: rest =>
      if Z.land addr 3 =? 0 then (crc, buf)
      else align_loop (addr + 1) (DO_CRC crc x) rest
  end.

(** The main loop: [n] groups of two 32-bit words. *)
Fixpoint word_loop (n : nat) (crc : Z) (buf : list Z) : Z * list Z :=
  match n with
  | O => (crc, buf)
  | S n' =>
      let q := Z.lxor crc (le_decode (take 4 buf)) in
      let crc := DO_CRC8 q in
      let q := le_decode (take 4 (drop 4 buf)) in
      let crc := Z.lxor crc (DO_CRC4 q) in
      word_loop n' crc (drop 8 buf)
  end.

(** [crc32_body]: [addr] is the address of the buffer, which only decides how
    many bytes the alignment loop takes. *)
Definition crc32_body (addr crc : Z) (buf : list Z) : Z :=
  let '(crc, buf) := align_loop addr crc buf in
  let '(crc, buf) := word_loop (length buf / 8) crc buf in
  fold_left DO_CRC buf crc.

Definition ext2fs_crc32c_le (addr crc : Z) (p : list Z) : Z := crc32_body addr crc p.

(** ** The generator of the table, gen_crc32ctable.c *)

(** [crctable[0][i + j] = crc ^ crctable[0][j]] for [j = 0, 2i, 4i, ...]. *)
Fixpoint init_inner (fuel : nat) (i j crc : Z) (t : list Z) : list Z :=
  match fuel with
  | O => t
  | S fuel =>
      if j <? 256 then
        init_inner fuel i (j + 2 * i) crc
          (<[Z.to_nat (i + j) := Z.lxor crc (nth (Z.to_nat j) t 0)]> t)
      else t
  end.

Fixpoint init_outer (fuel : nat) (i crc : Z) (t : list Z) : list Z :=
  match fuel with
  | O => t
  | S fuel =>
      if i =? 0 then t
      else
        let crc := Z.lxor (Z.shiftr crc 1) (if Z.testbit crc 0 then CRC32C_POLY_LE else 0) in
        init_outer fuel (Z.shiftr i 1) crc (init_inner 256 i 0 crc t)
  end.

(** The second loop nest, one column at a time: the successive values of
    [crc], one per row. *)
Fixpoint init_column (rows : nat) (t0 : list Z) (crc : Z) : list Z :=
  match rows with
  | O => []
  | S rows =>
      crc :: init_column rows t0
               (Z.lxor (nth (Z.to_nat (Z.land crc 0xff)) t0 0) (Z.shiftr crc 8))
  end.

Definition crc32cinit_le : list (list Z) :=
  let t0 := init_outer 9 (Z.shiftr 256 1) 1 (replicate 256 0) in
  let columns := map (init_column 8 t0) t0 in
  map (fun j => map (fun col => nth j col 0) columns) (seq 0 8).

(** ** Proofs *)

Lemma crc32ctable_le_ok :
  crc32ctable_le = map (fun k => crc_table CRC32C_POLY_LE k) (seq 1 8).
Proof. vm_compute. reflexivity. Qed.

(** the eight rows of the table in crc32c_table.h are what the generator
    gen_crc32ctable.c computes. *)
Theorem crc32ctable_generated : crc32cinit_le = crc32ctable_le.
Proof. vm_compute. reflexivity. Qed.

Lemma tab_spec k i :
  (k < 8)%nat -> tab k i = nth (Z.to_nat i) (crc_table CRC32C_POLY_LE (S k)) 0.
Proof.
  intros Hk. unfold tab. rewrite crc32ctable_le_ok.
  rewrite (nth_indep _ _ (crc_table CRC32C_POLY_LE 0)) by (rewrite length_map, length_seq; lia).
  rewrite map_nth, seq_nth by lia. done.
Qed.

Lemma crc32c_update_range c b :
  is_u32 c -> is_u8 b -> is_u32 (crc_bits CRC32C_POLY_LE 8 (Z.lxor c b)).
Proof.
  unfold is_u32, is_u8. intros. apply crc_bits_range; [lia|unfold CRC32C_POLY_LE; lia|].
  apply lxor_range; lia.
Qed.

Lemma DO_CRC_ref crc x :
  is_u32 crc -> is_u8 x -> DO_CRC crc x = crc_bits CRC32C_POLY_LE 8 (Z.lxor crc x).
Proof.
  intros Hc Hx. unfold DO_CRC. rewrite tab_spec by lia.
  symmetry. apply crc_byte_step; [range_lia|done].
Qed.

Lemma byte_loop_ref crc buf :
  is_u32 crc -> bytes_ok buf ->
  fold_left DO_CRC buf crc = crc_ref CRC32C_POLY_LE crc buf
  /\ is_u32 (crc_ref CRC32C_POLY_LE crc buf).
Proof.
  intros Hc Hok. unfold crc_ref. apply (fold_left_sim is_u32 is_u8); [done..|].
  intros c b Hc' Hb. split; [now apply DO_CRC_ref|now apply crc32c_update_range].
Qed.

Lemma DO_CRC4_ref q : is_u32 q -> DO_CRC4 q = crc_bits CRC32C_POLY_LE 32 q.
Proof.
  intros Hq. unfold DO_CRC4. rewrite !tab_spec by lia.
  symmetry. apply (crc_word_step CRC32C_POLY_LE 0 q Hq).
Qed.

Lemma DO_CRC8_ref q : is_u32 q -> DO_CRC8 q = crc_bits CRC32C_POLY_LE 64 q.
Proof.
  intros Hq. unfold DO_CRC8. rewrite !tab_spec by lia.
  symmetry. apply (crc_word_step CRC32C_POLY_LE 4 q Hq).
Qed.

(** One iteration of the main loop consumes eight bytes of the reference. *)
Lemma word_step_ref crc buf :
  is_u32 crc -> bytes_ok buf -> (8 <= length buf)%nat ->
  Z.lxor (DO_CRC8 (Z.lxor crc (le_decode (take 4 buf))))
         (DO_CRC4 (le_decode (take 4 (drop 4 buf))))
  = crc_ref CRC32C_POLY_LE crc (take 8 buf).
Proof.
  intros Hc Hok Hlen.
  assert (Ht : take 8 buf = take 4 buf ++ take 4 (drop 4 buf)).
  { now rewrite take_take_drop. }
  assert (Hr : forall l, bytes_ok l -> length l = 4%nat -> is_u32 (le_decode l)).
  { intros l Hl Hn. pose proof (le_decode_range l Hl) as Hx. rewrite Hn in Hx. done. }
  assert (Hw0 : is_u32 (le_decode (take 4 buf))).
  { apply Hr; [auto with ints|rewrite length_take; lia]. }
  assert (Hw1 : is_u32 (le_decode (take 4 (drop 4 buf)))).
  { apply Hr; [auto with ints|rewrite length_take, length_drop; lia]. }
  rewrite DO_CRC8_ref by (unfold is_u32 in *; apply lxor_range; lia).
  rewrite DO_CRC4_ref by done.
  rewrite crc_ref_bits by auto with ints.
  replace (8 * length (take 8 buf))%nat with 64%nat by (rewrite length_take; lia).
  rewrite Ht, le_decode_app, length_take_le by lia.
  change (8 * Z.of_nat 4) with 32.
  rewrite <- (lxor_high_low 32) by (unfold is_u32 in *; lia).
  rewrite <- Z.lxor_assoc, (crc_bits_lxor _ 64 (Z.lxor crc _)). f_equal.
  change 64%nat with (32 + 32)%nat. rewrite crc_bits_add. f_equal.
  symmetry. apply (crc_bits_shiftl _ 32).
Qed.

Lemma word_loop_ref n crc buf :
  is_u32 crc -> bytes_ok buf -> (8 * n <= length buf)%nat ->
  word_loop n crc buf = (crc_ref CRC32C_POLY_LE crc (take (8 * n) buf), drop (8 * n) buf).
Proof.
  revert crc buf; induction n as [|n IH]; intros crc buf Hc Hok Hlen; [done|].
  cbn [word_loop]. rewrite word_step_ref by (done || lia).
  rewrite IH; [| |auto with ints|rewrite length_drop; lia].
  - rewrite drop_drop. replace (8 + 8 * n)%nat with (8 * S n)%nat by lia.
    f_equal. rewrite <- crc_ref_app, take_take_drop. do 2 f_equal. lia.
  - apply byte_loop_ref; auto with ints.
Qed.

Lemma align_loop_ref addr crc buf :
  is_u32 crc -> bytes_ok buf ->
  exists n, align_loop addr crc buf = (crc_ref CRC32C_POLY_LE crc (take n buf), drop n buf).
Proof.
  intros Hc Hok; revert addr crc Hc; induction Hok as [|b buf Hb Hok IH]; intros addr crc Hc.
  - now exists 0%nat.
  - cbn [align_loop]. case_match; [now exists 0%nat|].
    rewrite DO_CRC_ref by done.
    destruct (IH (addr + 1) (crc_bits CRC32C_POLY_LE 8 (Z.lxor crc b))) as [n ->];
      [now apply crc32c_update_range|].
    now exists (S n).
Qed.

Lemma crc32_body_ref addr crc buf :
  is_u32 crc -> bytes_ok buf -> crc32_body addr crc buf = crc_ref CRC32C_POLY_LE crc buf.
Proof.
  intros Hc Hok. unfold crc32_body.
  destruct (align_loop_ref addr crc buf Hc Hok) as [n ->].
  assert (is_u32 (crc_ref CRC32C_POLY_LE crc (take n buf))) by (apply byte_loop_ref; auto with ints).
  set (rest := drop n buf).
  assert (bytes_ok rest) by (unfold rest; auto with ints).
  rewrite word_loop_ref by (done || pose proof (Nat.div_mod_eq (length rest) 8); lia).
  destruct (byte_loop_ref (crc_ref CRC32C_POLY_LE (crc_ref CRC32C_POLY_LE crc (take n buf))
    (take (8 * (length rest / 8)) rest)) (drop (8 * (length rest / 8)) rest)) as [-> _];
    [apply byte_loop_ref; auto with ints|auto with ints|].
  rewrite <- !crc_ref_app. f_equal. rewrite take_drop. apply take_drop.
Qed.

End Crc32c.

(** * Claims *)

(** [ext2fs_crc16] computes, byte by byte from its table, the bit-serial
    CRC-16 of the buffer, its result is a 16-bit number, and a buffer can be
    checksummed in pieces. *)
Theorem crc16_is_crc crc a b :
  is_u16 crc -> bytes_ok a ->
  Crc16.ext2fs_crc16 crc a = Reflected.crc_ref Crc16.poly crc a /\ is_u16 (Crc16.ext2fs_crc16 crc a) /\
  Crc16.ext2fs_crc16 crc (a ++ b) = Crc16.ext2fs_crc16 (Crc16.ext2fs_crc16 crc a) b.
Proof.
  intros Hc Ha. destruct (Crc16.ext2fs_crc16_ref crc a Hc Ha) as [E R]. split; [done|]. split; [by rewrite E|].
  unfold Crc16.ext2fs_crc16. apply fold_left_app.
Qed.

(** The check value of CRC-16: the digits 1 to 9. *)
Lemma crc16_is_crc_witness :
  Crc16.ext2fs_crc16 0 [49; 50; 51; 52; 53; 54; 55; 56; 57] = 0xBB3D /\
  Crc16.ext2fs_crc16 0 [49; 50] = Reflected.crc_ref Crc16.poly 0 [49; 50].
Proof.
  split; [vm_compute; reflexivity|]. apply (crc16_is_crc 0 [49; 50] []).
  - split; done.
  - repeat constructor; done.
Defined.

(** C37: [ext2fs_crc32c_le], which aligns the buffer and then takes eight bytes
    at a time through eight tables, computes the bit-serial CRC-32C of the
    buffer, whatever the address the buffer starts at. *)
Theorem crc32c_is_crc addr crc buf :
  is_u32 crc -> bytes_ok buf ->
  Crc32c.ext2fs_crc32c_le addr crc buf = Reflected.crc_ref Crc32c.CRC32C_POLY_LE crc buf.
Proof. intros Hc Hb. unfold Crc32c.ext2fs_crc32c_le. by apply Crc32c.crc32_body_ref. Qed.

Lemma crc32c_is_crc_witness :
  Crc32c.ext2fs_crc32c_le 3 0xFFFFFFFF [49; 50; 51; 52; 53; 54; 55; 56; 57; 49; 50; 51; 52; 53; 54; 55; 56; 57] =
  Reflected.crc_ref Crc32c.CRC32C_POLY_LE 0xFFFFFFFF
    [49; 50; 51; 52; 53; 54; 55; 56; 57; 49; 50; 51; 52; 53; 54; 55; 56; 57].
Proof.
  apply crc32c_is_crc.
  - split; done.
  - repeat constructor; done.
Defined.
