(* ===== verification/CrcBe.v ===== *)
(** lib/ext2fs/crc32c.c: [ext2fs_crc32_be], the checksum of journal
    transactions.  On a little-endian machine it runs the slicing loop of the
    other checksum over byte-swapped tables; it is proved to compute the
    bit-serial CRC-32 that takes the most significant bit first. *)

From S2P Require Import Prelude Crc CrcTables.

Local Open Scope Z_scope.

Definition CRCPOLY_BE : Z := 0x04c11db7.

(** [___constant_swab32], and the byte swap of [ext2fs_cpu_to_be32]. *)
Definition swab32 (x : Z) : Z :=
  Z.lor (Z.lor (Z.lor (Z.shiftl (Z.land x 0xff) 24) (Z.shiftl (Z.land x 0xff00) 8))
               (Z.shiftr (Z.land x 0xff0000) 8)) (Z.shiftr (Z.land x 0xff000000) 24).

(** The table as the program holds it: every entry through [tobe]. *)
Definition tobe_table : list (list Z) := Eval vm_compute in map (map swab32) crc32table_be.

Definition tab_be (k : nat) (i : Z) : Z := nth (Z.to_nat i) (nth k tobe_table []) 0.

(** * Slicing by eight, over any table *)

Section slicing.
Variable T : nat -> Z -> Z.

Definition do_crc (crc x : Z) : Z := Z.lxor (T 0 (Z.land (Z.lxor crc x) 255)) (Z.shiftr crc 8).
Definition do_crc4 (q : Z) : Z :=
  Z.lxor (Z.lxor (Z.lxor (T 3 (Z.land q 255)) (T 2 (Z.land (Z.shiftr q 8) 255)))
                 (T 1 (Z.land (Z.shiftr q 16) 255)))
         (T 0 (Z.land (Z.shiftr q 24) 255)).
Definition do_crc8 (q : Z) : Z :=
  Z.lxor (Z.lxor (Z.lxor (T 7 (Z.land q 255)) (T 6 (Z.land (Z.shiftr q 8) 255)))
                 (T 5 (Z.land (Z.shiftr q 16) 255)))
         (T 4 (Z.land (Z.shiftr q 24) 255)).

Fixpoint align_bytes (addr crc : Z) (buf : list Z) : Z * list Z :=
  match buf with
  | [] => (crc, [])
  | x :: rest =>
      if Z.land addr 3 =? 0 then (crc, buf)
      else align_bytes (addr + 1) (do_crc crc x) rest
  end.

Fixpoint slice_words (n : nat) (crc : Z) (buf : list Z) : Z * list Z :=
  match n with
  | O => (crc, buf)
  | S n' =>
      let q := Z.lxor crc (le_decode (take 4 buf)) in
      let crc := do_crc8 q in
      let q := le_decode (take 4 (drop 4 buf)) in
      let crc := Z.lxor crc (do_crc4 q) in
      slice_words n' crc (drop 8 buf)
  end.

Definition body (addr crc : Z) (buf : list Z) : Z :=
  let '(crc, buf) := align_bytes addr crc buf in
  let '(crc, buf) := slice_words (length buf / 8) crc buf in
  fold_left do_crc buf crc.

(** ** The loop is the byte-by-byte loop *)

(** The shift of the register by one byte. *)
Definition shift8 (s : Z) : Z := Z.lxor (T 0 (Z.land s 255)) (Z.shiftr s 8).

Hypothesis T_linear : forall a b, 0 <= a < 256 -> 0 <= b < 256 -> T 0 (Z.lxor a b) = Z.lxor (T 0 a) (T 0 b).
Hypothesis T_next : forall k i, (k < 7)%nat -> 0 <= i < 256 -> T (S k) i = shift8 (T k i).
Hypothesis T_range : forall i, 0 <= i < 256 -> is_u32 (T 0 i).

Lemma T_zero : T 0 0 = 0.
Proof. pose proof (T_linear 0 0 ltac:(lia) ltac:(lia)) as H. rewrite Z.lxor_nilpotent in H. by rewrite H, Z.lxor_nilpotent. Qed.

Lemma land255_range x : 0 <= Z.land x 255 < 256.
Proof. change 255 with (Z.ones 8). rewrite Z.land_ones by lia. apply Z.mod_pos_bound. lia. Qed.

Lemma land_lxor_l a b m : Z.land (Z.lxor a b) m = Z.lxor (Z.land a m) (Z.land b m).
Proof.
  apply Z.bits_inj'. intros n _. rewrite !Z.land_spec, !Z.lxor_spec, !Z.land_spec. by destruct (Z.testbit a n), (Z.testbit b n), (Z.testbit m n).
Qed.

Lemma shift8_lxor a b : shift8 (Z.lxor a b) = Z.lxor (shift8 a) (shift8 b).
Proof.
  unfold shift8. rewrite land_lxor_l, Z.shiftr_lxor, T_linear by apply land255_range. apply Reflected.lxor_swap.
Qed.

Lemma shift8_range s : is_u32 s -> is_u32 (shift8 s).
Proof.
  intros Hs. unfold shift8, is_u32. apply lxor_range; [lia|apply T_range, land255_range|]. rewrite Z.shiftr_div_pow2 by lia.
  unfold is_u32 in Hs. split; [apply Z.div_pos; lia|]. apply Z.div_lt_upper_bound; lia.
Qed.

Lemma shift8_byte b : 0 <= b < 256 -> shift8 b = T 0 b.
Proof.
  intros Hb. unfold shift8. change 255 with (Z.ones 8). rewrite Z.land_ones, Z.mod_small by lia.
  rewrite Z.shiftr_div_pow2, Z.div_small, Z.lxor_0_r by lia. done.
Qed.

Lemma shift8_high x : 0 <= x -> shift8 (Z.shiftl x 8) = x.
Proof.
  intros Hx. unfold shift8. change 255 with (Z.ones 8). rewrite Z.land_ones by lia. rewrite Z.shiftl_mul_pow2, Z.mod_mul by lia.
  rewrite T_zero, Z.lxor_0_l, Z.shiftr_div_pow2, Z.div_mul by lia. done.
Qed.

Fixpoint shifts (n : nat) (s : Z) : Z := match n with O => s | S n => shifts n (shift8 s) end.

Lemma shifts_lxor n : forall a b, shifts n (Z.lxor a b) = Z.lxor (shifts n a) (shifts n b).
Proof. induction n as [|n IH]; intros a b; [done|]. cbn [shifts]. by rewrite shift8_lxor, IH. Qed.

Lemma shifts_add n m s : shifts (n + m) s = shifts m (shifts n s).
Proof. revert s. induction n; intros s; cbn [shifts plus]; auto. Qed.

Lemma shifts_range n : forall s, is_u32 s -> is_u32 (shifts n s).
Proof. induction n; intros s Hs; [done|]. cbn [shifts]. by apply IHn, shift8_range. Qed.

Lemma shifts_T k : forall i, (k <= 7)%nat -> 0 <= i < 256 -> shifts k (T 0 i) = T k i.
Proof.
  induction k as [|k IH]; intros i Hk Hi; [done|]. rewrite T_next by lia. rewrite <- IH by lia.
  replace (S k) with (k + 1)%nat by lia. by rewrite shifts_add.
Qed.

Lemma shifts_byte k b : (k <= 7)%nat -> 0 <= b < 256 -> shifts (S k) b = T k b.
Proof. intros Hk Hb. cbn [shifts]. rewrite shift8_byte by done. by apply shifts_T. Qed.

(** Splitting off the low byte. *)
Lemma shifts_split k x :
  (k <= 7)%nat -> 0 <= x -> shifts (S k) x = Z.lxor (T k (Z.land x 255)) (shifts k (Z.shiftr x 8)).
Proof.
  intros Hk Hx. assert (Hs : x = Z.lxor (Z.land x 255) (Z.shiftl (Z.shiftr x 8) 8)).
  { rewrite Reflected.land255, lxor_high_low by (try apply Z.mod_pos_bound; lia). rewrite Z.shiftr_div_pow2 by lia.
    change (2 ^ 8) with 256. pose proof (Z.div_mod x 256). lia. }
  rewrite Hs at 1. rewrite shifts_lxor, shifts_byte by (done || apply land255_range). f_equal. cbn [shifts].
  by rewrite shift8_high by (apply Z.shiftr_nonneg; lia).
Qed.

Lemma shifts_word k q :
  (k <= 4)%nat -> is_u32 q -> shifts (4 + k) q =
  Z.lxor (Z.lxor (Z.lxor (T (3 + k) (Z.land q 255)) (T (2 + k) (Z.land (Z.shiftr q 8) 255)))
                 (T (1 + k) (Z.land (Z.shiftr q 16) 255))) (T k (Z.land (Z.shiftr q 24) 255)).
Proof.
  intros Hk Hq. unfold is_u32 in Hq. change (4 + k)%nat with (S (3 + k)). rewrite shifts_split by lia.
  change (3 + k)%nat with (S (2 + k)) at 2. rewrite shifts_split by (lia || apply Z.shiftr_nonneg; lia). rewrite Z.shiftr_shiftr by lia.
  change (2 + k)%nat with (S (1 + k)) at 2. rewrite shifts_split by (lia || apply Z.shiftr_nonneg; lia). rewrite Z.shiftr_shiftr by lia.
  change (1 + k)%nat with (S k) at 2. rewrite shifts_split by (lia || apply Z.shiftr_nonneg; lia). rewrite Z.shiftr_shiftr by lia.
  change (8 + 8) with 16. change (16 + 8) with 24. change (24 + 8) with 32.
  assert (Hz : Z.shiftr q 32 = 0) by (rewrite Z.shiftr_div_pow2 by lia; apply Z.div_small; lia).
  assert (H0 : shifts k 0 = 0).
  { clear Hk. induction k as [|k IH]; [done|]. cbn [shifts]. rewrite shift8_byte, T_zero by lia. done. }
  rewrite Hz, H0, Z.lxor_0_r. by rewrite !Z.lxor_assoc.
Qed.

Lemma do_crc_shift crc x : is_u32 crc -> is_u8 x -> do_crc crc x = shift8 (Z.lxor crc x).
Proof.
  intros Hc Hx. unfold do_crc, shift8. f_equal. rewrite Z.shiftr_lxor. unfold is_u8 in Hx.
  rewrite (Z.shiftr_div_pow2 x), (Z.div_small x), Z.lxor_0_r by lia. done.
Qed.

Lemma do_crc_range crc x : is_u32 crc -> is_u8 x -> is_u32 (do_crc crc x).
Proof.
  intros Hc Hx. rewrite do_crc_shift by done. apply shift8_range. unfold is_u32, is_u8 in *. apply lxor_range; lia.
Qed.

Lemma bytes_range bs : forall crc, is_u32 crc -> bytes_ok bs -> is_u32 (fold_left do_crc bs crc).
Proof.
  induction bs as [|b bs IH]; intros crc Hc Hb; [done|]. inversion Hb; subst. cbn [fold_left]. apply IH; [by apply do_crc_range|done].
Qed.

(** A buffer of bytes is the register shifted by it as one number. *)
Lemma fold_bytes bs : forall crc, is_u32 crc -> bytes_ok bs ->
  fold_left do_crc bs crc = shifts (length bs) (Z.lxor crc (le_decode bs)).
Proof.
  induction bs as [|b bs IH]; intros crc Hc Hb; [cbn; by rewrite Z.lxor_0_r|]. inversion Hb as [|? ? Hb0 Hbs]; subst.
  cbn [fold_left length shifts le_decode]. rewrite IH by (try apply do_crc_range; done). f_equal.
  rewrite do_crc_shift by done. change 256 with (2 ^ 8). rewrite <- (lxor_high_low 8 b) by (unfold is_u8 in *; lia || idtac).
  rewrite <- Z.lxor_assoc, (shift8_lxor (Z.lxor crc b)). f_equal. symmetry. apply shift8_high. apply le_decode_range in Hbs. lia.
Qed.

Lemma slice_step crc w1 w2 :
  is_u32 crc -> bytes_ok w1 -> bytes_ok w2 -> length w1 = 4%nat -> length w2 = 4%nat ->
  Z.lxor (do_crc8 (Z.lxor crc (le_decode w1))) (do_crc4 (le_decode w2)) = fold_left do_crc (w1 ++ w2) crc.
Proof.
  intros Hc H1 H2 L1 L2. pose proof (le_decode_range w1 H1) as R1. pose proof (le_decode_range w2 H2) as R2. rewrite L1 in R1. rewrite L2 in R2.
  change (8 * Z.of_nat 4) with 32 in *. assert (Hq : is_u32 (Z.lxor crc (le_decode w1))) by (unfold is_u32 in *; apply lxor_range; lia).
  rewrite fold_bytes by (try apply Forall_app; done). rewrite length_app, L1, L2, le_decode_app, L1. change (8 * Z.of_nat 4) with 32.
  rewrite <- (lxor_high_low 32 (le_decode w1)) by lia. rewrite <- Z.lxor_assoc, shifts_lxor. f_equal.
  - by rewrite (shifts_word 4).
  - rewrite (shifts_add 4 4). cbn [shifts]. replace (Z.shiftl (le_decode w2) 32) with
      (Z.shiftl (Z.shiftl (Z.shiftl (Z.shiftl (le_decode w2) 8) 8) 8) 8) by (rewrite !Z.shiftl_shiftl by lia; done).
    rewrite !shift8_high by (rewrite ?Z.shiftl_nonneg; lia). symmetry. apply (shifts_word 0); [lia|]. done.
Qed.

Lemma slice_words_spec n : forall crc buf, is_u32 crc -> bytes_ok buf -> (8 * n <= length buf)%nat ->
  let '(crc', buf') := slice_words n crc buf in is_u32 crc' /\ bytes_ok buf' /\ fold_left do_crc buf' crc' = fold_left do_crc buf crc.
Proof.
  induction n as [|n IH]; intros crc buf Hc Hb Hl; cbn [slice_words]; [done|].
  assert (H1 : bytes_ok (take 4 buf)) by auto with ints. assert (H2 : bytes_ok (take 4 (drop 4 buf))) by auto with ints.
  assert (L1 : length (take 4 buf) = 4%nat) by (rewrite length_take; lia).
  assert (L2 : length (take 4 (drop 4 buf)) = 4%nat) by (rewrite length_take, length_drop; lia).
  rewrite (slice_step crc _ _ Hc H1 H2 L1 L2). set (crc1 := fold_left do_crc (take 4 buf ++ take 4 (drop 4 buf)) crc).
  assert (Hc1 : is_u32 crc1) by (apply bytes_range; [done|by apply Forall_app]).
  specialize (IH crc1 (drop 8 buf) Hc1 ltac:(auto with ints) ltac:(rewrite length_drop; lia)).
  destruct (slice_words n crc1 (drop 8 buf)) as [crc' buf']. destruct IH as (H3 & H4 & H5). split; [done|]. split; [done|]. rewrite H5.
  unfold crc1. rewrite <- fold_left_app. f_equal. rewrite <- app_assoc. change (drop 8 buf) with (drop (4 + 4) buf). rewrite <- drop_drop, !take_drop. done.
Qed.

Lemma align_bytes_spec : forall buf addr crc, is_u32 crc -> bytes_ok buf ->
  let '(crc', buf') := align_bytes addr crc buf in is_u32 crc' /\ bytes_ok buf' /\ fold_left do_crc buf' crc' = fold_left do_crc buf crc.
Proof.
  induction buf as [|x buf IH]; intros addr crc Hc Hb; cbn [align_bytes]; [done|]. destruct (Z.land addr 3 =? 0); [done|].
  inversion Hb; subst. specialize (IH (addr + 1) (do_crc crc x) ltac:(by apply do_crc_range) ltac:(done)).
  by destruct (align_bytes (addr + 1) (do_crc crc x) buf).
Qed.

Lemma body_bytes addr crc buf : is_u32 crc -> bytes_ok buf -> body addr crc buf = fold_left do_crc buf crc.
Proof.
  intros Hc Hb. unfold body. pose proof (align_bytes_spec buf addr crc Hc Hb) as H. destruct (align_bytes addr crc buf) as [c1 b1].
  destruct H as (H1 & H2 & <-). pose proof (slice_words_spec (length b1 / 8) c1 b1 H1 H2) as H.
  destruct (slice_words (length b1 / 8) c1 b1) as [c2 b2]. apply H. apply Nat.Div0.mul_div_le.
Qed.
End slicing.

(** * The checksum of the journal *)

Definition ext2fs_crc32_be (addr crc : Z) (p : list Z) : Z := swab32 (body tab_be addr (swab32 crc) p).

(** ** Swapping bytes *)

Lemma swab32_bit x n : 0 <= n < 32 -> Z.testbit (swab32 x) n = Z.testbit x (8 * (3 - n / 8) + n mod 8).
Proof.
  intros Hn. unfold swab32. rewrite !Z.lor_spec, !Z.shiftl_spec, !Z.shiftr_spec, !Z.land_spec by lia.
  assert (n ∈ seqZ 0 32) as H by (apply elem_of_seqZ; lia).
  repeat (apply elem_of_cons in H as [->|H];
    [cbn -[Z.testbit Z.div Z.modulo];
     match goal with |- _ = Z.testbit x ?e => let v := eval vm_compute in e in change e with v end;
     rewrite ?(Z.testbit_neg_r x) by lia;
     repeat match goal with |- context [Z.testbit (Zpos ?c) ?e] =>
       let v := eval vm_compute in (Z.testbit (Zpos c) e) in change (Z.testbit (Zpos c) e) with v end;
     rewrite ?andb_true_r, ?andb_false_r, ?orb_false_r, ?orb_false_l; reflexivity|]).
  by apply elem_of_nil in H.
Qed.

Lemma swab32_range x : is_u32 (swab32 x).
Proof.
  assert (swab32 x = u32 (swab32 x)) as ->; [|apply u32_range]. apply Z.bits_inj'. intros n Hn. unfold u32.
  destruct (Z.lt_ge_cases n 32); [by rewrite Z.mod_pow2_bits_low|]. rewrite Z.mod_pow2_bits_high by lia. unfold swab32.
  rewrite !Z.lor_spec, !Z.shiftl_spec, !Z.shiftr_spec, !Z.land_spec by lia.
  rewrite (testbit_high 8 0xff), (testbit_high 16 0xff00), (testbit_high 24 0xff0000), (testbit_high 32 0xff000000) by lia.
  by rewrite !andb_false_r.
Qed.

Lemma u32_ext a b : is_u32 a -> is_u32 b -> (forall n, 0 <= n < 32 -> Z.testbit a n = Z.testbit b n) -> a = b.
Proof.
  intros Ha Hb H. apply Z.bits_inj'. intros n Hn. destruct (Z.lt_ge_cases n 32); [by apply H|].
  rewrite !(testbit_high 32) by (unfold is_u32 in *; lia). done.
Qed.

Lemma swab32_lxor a b : swab32 (Z.lxor a b) = Z.lxor (swab32 a) (swab32 b).
Proof.
  apply u32_ext; [apply swab32_range| |].
  - pose proof (swab32_range a). pose proof (swab32_range b). unfold is_u32 in *. apply lxor_range; lia.
  - intros n Hn. by rewrite Z.lxor_spec, !swab32_bit, Z.lxor_spec.
Qed.

Lemma swab32_involutive c : is_u32 c -> swab32 (swab32 c) = c.
Proof.
  intros Hc. apply u32_ext; [apply swab32_range|done|]. intros n Hn. rewrite swab32_bit by done.
  rewrite swab32_bit by (Z.div_mod_to_equations; lia). f_equal. Z.div_mod_to_equations; lia.
Qed.

Lemma swab32_low c : is_u32 c -> Z.land (swab32 c) 255 = Z.shiftr c 24.
Proof.
  intros Hc. unfold is_u32 in Hc. apply u32_ext.
  - pose proof (land255_range (swab32 c)). unfold is_u32. lia.
  - unfold is_u32. rewrite Z.shiftr_div_pow2 by lia. split; [apply Z.div_pos; lia|apply Z.div_lt_upper_bound; lia].
  - intros n Hn. change 255 with (Z.ones 8). rewrite Z.land_spec, Z.shiftr_spec by lia. destruct (Z.lt_ge_cases n 8).
    + rewrite Z.ones_spec_low, andb_true_r, swab32_bit by lia. f_equal. Z.div_mod_to_equations; lia.
    + rewrite Z.ones_spec_high, andb_false_r by lia. rewrite (testbit_high 32) by lia. done.
Qed.

Lemma swab32_shift c : is_u32 c -> Z.shiftr (swab32 c) 8 = swab32 (u32 (Z.shiftl c 8)).
Proof.
  intros Hc. pose proof (swab32_range c) as Hs. unfold is_u32 in *. apply u32_ext; [|apply swab32_range|].
  - unfold is_u32. rewrite Z.shiftr_div_pow2 by lia. split; [apply Z.div_pos; lia|apply Z.div_lt_upper_bound; lia].
  - intros n Hn. rewrite Z.shiftr_spec, (swab32_bit _ n) by lia. unfold u32.
    rewrite Z.mod_pow2_bits_low by (Z.div_mod_to_equations; lia). rewrite Z.shiftl_spec by (Z.div_mod_to_equations; lia).
    destruct (Z.lt_ge_cases n 24).
    + rewrite swab32_bit by lia. f_equal. Z.div_mod_to_equations; lia.
    + rewrite (testbit_high 32) by lia. rewrite Z.testbit_neg_r by (Z.div_mod_to_equations; lia). done.
Qed.

(** ** The bit-serial checksum, most significant bit first *)

Definition be_bit (c : Z) : Z := Z.lxor (u32 (Z.shiftl c 1)) (if Z.testbit c 31 then CRCPOLY_BE else 0).
Fixpoint be_bits (n : nat) (c : Z) : Z := match n with O => c | S n => be_bits n (be_bit c) end.
Definition crc_be_ref (c : Z) (bs : list Z) : Z := fold_left (fun c x => be_bits 8 (Z.lxor c (Z.shiftl x 24))) bs c.

Lemma u32_lxor a b : u32 (Z.lxor a b) = Z.lxor (u32 a) (u32 b).
Proof. unfold u32. rewrite <- !Z.land_ones by lia. apply land_lxor_l. Qed.

Lemma be_bit_lxor a b : be_bit (Z.lxor a b) = Z.lxor (be_bit a) (be_bit b).
Proof.
  unfold be_bit. rewrite Z.shiftl_lxor, u32_lxor, Z.lxor_spec, Reflected.lxor_swap. f_equal.
  destruct (Z.testbit a 31), (Z.testbit b 31); cbn [xorb]; by rewrite ?Z.lxor_nilpotent, ?Z.lxor_0_r, ?Z.lxor_0_l.
Qed.

Lemma be_bits_lxor n : forall a b, be_bits n (Z.lxor a b) = Z.lxor (be_bits n a) (be_bits n b).
Proof. induction n as [|n IH]; intros a b; [done|]. cbn [be_bits]. by rewrite be_bit_lxor, IH. Qed.

(** A register whose top bits are clear is only shifted. *)
Lemma be_bits_low n : forall x, (n <= 8)%nat -> 0 <= x < 2 ^ (32 - Z.of_nat n) -> be_bits n x = Z.shiftl x (Z.of_nat n).
Proof.
  induction n as [|n IH]; intros x Hn Hx; [by rewrite Z.shiftl_0_r|]. cbn [be_bits].
  assert (Hx2 : 0 <= 2 * x < 2 ^ (32 - Z.of_nat n)).
  { replace (32 - Z.of_nat n) with (Z.succ (32 - Z.of_nat (S n))) by lia. rewrite Z.pow_succ_r by lia. lia. }
  assert (2 ^ (32 - Z.of_nat n) <= 2 ^ 32) by (apply Z.pow_le_mono_r; lia).
  assert (2 ^ (32 - Z.of_nat (S n)) <= 2 ^ 31) by (apply Z.pow_le_mono_r; lia).
  assert (be_bit x = 2 * x) as ->.
  { unfold be_bit. rewrite (testbit_high 31) by lia. rewrite Z.lxor_0_r, Z.shiftl_mul_pow2, u32_small by (unfold is_u32; lia). lia. }
  rewrite IH by lia. rewrite !Z.shiftl_mul_pow2 by lia. replace (Z.of_nat (S n)) with (Z.succ (Z.of_nat n)) by lia.
  rewrite Z.pow_succ_r by lia. lia.
Qed.

(** ** What the table contains *)

(** The first row is the checksum of one byte; every further row adds a byte
    of zeros. *)
Definition row_0_ok (i : Z) : bool := tab_be 0 i =? swab32 (be_bits 8 (Z.shiftl i 24)).
Definition rows_ok (i : Z) : bool := forallb (fun k => tab_be (S k) i =? shift8 tab_be (tab_be k i)) (seq 0 7).

Lemma tab_be_bits i : 0 <= i < 256 -> tab_be 0 i = swab32 (be_bits 8 (Z.shiftl i 24)).
Proof. intros Hi. apply Z.eqb_eq. apply (forall_range row_0_ok 256); [vm_compute; reflexivity|done]. Qed.

Lemma tab_be_next k i : (k < 7)%nat -> 0 <= i < 256 -> tab_be (S k) i = shift8 tab_be (tab_be k i).
Proof.
  intros Hk Hi. assert (H : rows_ok i = true) by (apply (forall_range rows_ok 256); [vm_compute; reflexivity|done]).
  unfold rows_ok in H. rewrite forallb_forall in H. apply Z.eqb_eq, H. apply in_seq. lia.
Qed.

Lemma tab_be_range i : 0 <= i < 256 -> is_u32 (tab_be 0 i).
Proof. intros Hi. rewrite tab_be_bits by done. apply swab32_range. Qed.

Lemma tab_be_linear a b : 0 <= a < 256 -> 0 <= b < 256 -> tab_be 0 (Z.lxor a b) = Z.lxor (tab_be 0 a) (tab_be 0 b).
Proof.
  intros Ha Hb. rewrite !tab_be_bits by (done || apply (lxor_range 8); lia). rewrite Z.shiftl_lxor, be_bits_lxor. apply swab32_lxor.
Qed.

(** One byte, on the swapped register. *)
Lemma do_crc_be c x :
  is_u32 c -> is_u8 x -> do_crc tab_be (swab32 c) x = swab32 (be_bits 8 (Z.lxor c (Z.shiftl x 24))).
Proof.
  intros Hc Hx. unfold is_u8 in Hx. unfold do_crc.
  assert (Hhi : 0 <= Z.shiftr c 24 < 256).
  { unfold is_u32 in Hc. rewrite Z.shiftr_div_pow2 by lia. split; [apply Z.div_pos; lia|apply Z.div_lt_upper_bound; lia]. }
  assert (Hidx : Z.land (Z.lxor (swab32 c) x) 255 = Z.lxor (Z.shiftr c 24) x).
  { rewrite land_lxor_l, swab32_low by done. f_equal. change 255 with (Z.ones 8). rewrite Z.land_ones, Z.mod_small by lia. done. }
  rewrite Hidx, tab_be_bits by (apply (lxor_range 8); lia). rewrite swab32_shift, <- swab32_lxor by done. f_equal.
  assert (Hlow : 0 <= c mod 2 ^ 24 < 2 ^ 24) by (apply Z.mod_pos_bound; lia).
  assert (Hsplit : c = Z.lxor (c mod 2 ^ 24) (Z.shiftl (Z.shiftr c 24) 24)).
  { rewrite lxor_high_low, Z.shiftr_div_pow2 by lia. pose proof (Z.div_mod c (2 ^ 24)). lia. }
  assert (Hc8 : u32 (Z.shiftl c 8) = Z.shiftl (c mod 2 ^ 24) 8).
  { rewrite !Z.shiftl_mul_pow2 by lia. unfold u32. change (2 ^ 32) with (2 ^ 24 * 2 ^ 8). apply Z.mul_mod_distr_r; lia. }
  assert (Z.lxor c (Z.shiftl x 24) = Z.lxor (c mod 2 ^ 24) (Z.shiftl (Z.lxor (Z.shiftr c 24) x) 24)) as ->.
  { rewrite Z.shiftl_lxor, <- Z.lxor_assoc. f_equal. done. }
  rewrite be_bits_lxor, (be_bits_low 8 (c mod 2 ^ 24)) by lia. rewrite Hc8. apply Z.lxor_comm.
Qed.

Lemma be_bits_range n : forall c, is_u32 c -> is_u32 (be_bits n c).
Proof.
  induction n as [|n IH]; intros c Hc; [done|]. cbn [be_bits]. apply IH. unfold be_bit, is_u32.
  apply lxor_range; [lia|apply u32_range|]. unfold CRCPOLY_BE. destruct (Z.testbit c 31); lia.
Qed.

Definition be_byte (c x : Z) : Z := be_bits 8 (Z.lxor c (Z.shiftl x 24)).

Lemma be_byte_range c x : is_u32 c -> is_u8 x -> is_u32 (be_byte c x).
Proof.
  intros Hc Hx. apply be_bits_range. unfold is_u32, is_u8 in *. apply lxor_range; [lia|done|]. rewrite Z.shiftl_mul_pow2 by lia. lia.
Qed.

Lemma crc_be_fold bs c :
  is_u32 c -> bytes_ok bs ->
  fold_left (do_crc tab_be) bs (swab32 c) = swab32 (fold_left be_byte bs c) /\ is_u32 (fold_left be_byte bs c).
Proof.
  intros Hc Hb. apply (fold_left_rep is_u32 is_u8); [done|done|]. intros a x Ha Hx.
  split; [by apply do_crc_be|by apply be_byte_range].
Qed.

(** [ext2fs_crc32_be], which swaps the register and the tables and takes
    eight bytes at a time, computes the bit-serial CRC-32 of the buffer with the
    most significant bit first, whatever the address of the buffer. *)
Theorem crc32_be_is_crc addr crc buf :
  is_u32 crc -> bytes_ok buf -> ext2fs_crc32_be addr crc buf = crc_be_ref crc buf.
Proof.
  intros Hc Hb. unfold ext2fs_crc32_be.
  rewrite (body_bytes tab_be tab_be_linear tab_be_next tab_be_range) by (done || apply swab32_range).
  destruct (crc_be_fold buf crc Hc Hb) as [-> Hr]. rewrite swab32_involutive by done. reflexivity.
Qed.

Lemma crc32_be_is_crc_witness :
  ext2fs_crc32_be 1 0xFFFFFFFF [49; 50; 51; 52; 53; 54; 55; 56; 57; 58; 59; 60] =
  crc_be_ref 0xFFFFFFFF [49; 50; 51; 52; 53; 54; 55; 56; 57; 58; 59; 60].
Proof. apply crc32_be_is_crc; [split; done|repeat constructor; done]. Defined.
