(* ===== verification/Journal.v ===== *)
(** The on-disk format of the journal (lib/ext2fs/kernel-jbd.h), the journal
    structure and the buffers over which e2fsck and debugfs read and write it
    (lib/ext2fs/jfs_compat.h, e2fsck/jfs_user.h, e2fsck/journal.c).

    A block is a list of bytes.  A device is a finite map from block numbers to
    blocks: reading a block that is not in it fails, and writing fails where the
    device says so.  The map from blocks of the journal file to blocks of the
    device ([ext2fs_bmap2]) is a function of the journal.  Memory for buffers
    does not run out ([e2fsck_allocate_memory] ends the program when it does). *)

From S2P Require Import Prelude Crc.

Local Open Scope Z_scope.

(** * Big-endian fields *)

Abbreviation block := (list Z) (only parsing).

Definition be_decode (l : list Z) : Z := le_decode (reverse l).
Definition be_encode (n : nat) (z : Z) : list Z := reverse (le_encode n z).

(** The [n]-byte field at [off]. *)
Definition be_at (n : nat) (off : Z) (b : block) : Z := be_decode (take n (drop (Z.to_nat off) b)).
Definition be_put (n : nat) (off z : Z) (b : block) : block := splice b (Z.to_nat off) (be_encode n z).

Lemma length_be_encode n z : length (be_encode n z) = n.
Proof. unfold be_encode. by rewrite length_reverse, length_le_encode. Qed.

Lemma be_decode_encode n z : be_decode (be_encode n z) = z mod 2 ^ (8 * Z.of_nat n).
Proof. unfold be_decode, be_encode. by rewrite reverse_involutive, le_decode_encode. Qed.

Lemma be_at_put n off z b :
  0 <= off -> off + Z.of_nat n <= Z.of_nat (length b) -> be_at n off (be_put n off z b) = z mod 2 ^ (8 * Z.of_nat n).
Proof.
  intros Ho Hl. unfold be_at, be_put, splice. rewrite drop_app_length' by (rewrite length_take; lia).
  rewrite take_app_length' by (by rewrite length_be_encode). apply be_decode_encode.
Qed.

Lemma length_be_put n off z b :
  0 <= off -> off + Z.of_nat n <= Z.of_nat (length b) -> length (be_put n off z b) = length b.
Proof. intros Ho Hl. apply length_splice. rewrite length_be_encode. lia. Qed.

(** A field is not changed by writing in front of it or behind it. *)
Lemma be_at_put_other n m off off' z b :
  0 <= off -> 0 <= off' -> off' + Z.of_nat m <= Z.of_nat (length b) ->
  (off + Z.of_nat n <= off' \/ off' + Z.of_nat m <= off) ->
  be_at n off (be_put m off' z b) = be_at n off b.
Proof.
  intros H1 H2 H3 [H|H]; unfold be_at, be_put; f_equal.
  - rewrite <- (take_drop (Z.to_nat off') b) at 2. unfold splice.
    rewrite !drop_app_le by (rewrite length_take; lia). rewrite !take_app_le by (rewrite length_drop, length_take; lia). done.
  - rewrite drop_splice by (rewrite ?length_be_encode; lia). done.
Qed.

(** * Constants *)

Definition JBD2_MAGIC_NUMBER : Z := 0xc03b3998.

Definition JBD2_DESCRIPTOR_BLOCK : Z := 1.
Definition JBD2_COMMIT_BLOCK : Z := 2.
Definition JBD2_REVOKE_BLOCK : Z := 5.

Definition JBD2_CRC32_CHKSUM : Z := 1.
Definition JBD2_CRC32_CHKSUM_SIZE : Z := 4.

Definition JBD2_FLAG_ESCAPE : Z := 1.
Definition JBD2_FLAG_SAME_UUID : Z := 2.
Definition JBD2_FLAG_LAST_TAG : Z := 8.

Definition JBD2_FEATURE_COMPAT_CHECKSUM : Z := 0x1.
Definition JBD2_FEATURE_INCOMPAT_REVOKE : Z := 0x1.
Definition JBD2_FEATURE_INCOMPAT_64BIT : Z := 0x2.
Definition JBD2_FEATURE_INCOMPAT_ASYNC_COMMIT : Z := 0x4.
Definition JBD2_FEATURE_INCOMPAT_CSUM_V2 : Z := 0x8.
Definition JBD2_FEATURE_INCOMPAT_CSUM_V3 : Z := 0x10.
Definition JBD2_FEATURE_INCOMPAT_FAST_COMMIT : Z := 0x20.

(** Sizes of the structures: [journal_header_t],
    [jbd2_journal_revoke_header_t] and [struct jbd2_journal_block_tail]. *)
Definition sizeof_journal_header : Z := 12.
Definition sizeof_revoke_header : Z := 16.
Definition sizeof_block_tail : Z := 4.

Definition EIO : Z := 5.
Definition ENOMEM : Z := 12.
Definition EINVAL : Z := 22.
Definition ENOSPC : Z := 28.
Definition EXT2_ET_BASE : Z := 2133571328.
Definition EXT2_ET_SHORT_READ : Z := EXT2_ET_BASE + 36.
Definition EXT2_ET_BAD_BLOCK_NUM : Z := EXT2_ET_BASE + 42.
Definition EXT2_ET_INVALID_ARGUMENT : Z := EXT2_ET_BASE + 71.
Definition EFSCORRUPTED : Z := EXT2_ET_BASE + 174.
Definition EFSBADCRC : Z := EXT2_ET_BASE + 175.

(** Fields of the header of a block of the log, and of a commit block. *)
Definition h_magic (b : block) : Z := be_at 4 0 b.
Definition h_blocktype (b : block) : Z := be_at 4 4 b.
Definition h_sequence (b : block) : Z := be_at 4 8 b.
Definition h_chksum_type (b : block) : Z := be_at 1 12 b.
Definition h_chksum_size (b : block) : Z := be_at 1 13 b.
Definition h_chksum_0 (b : block) : Z := be_at 4 16 b.
Definition h_commit_sec (b : block) : Z := be_at 8 48 b.
Definition r_count (b : block) : Z := be_at 4 12 b.

(** Fields of the tag at [tagp]: [journal_block_tag_t] and, for the checksum,
    [journal_block_tag3_t]. *)
Definition t_blocknr (b : block) (tagp : Z) : Z := be_at 4 tagp b.
Definition t_checksum16 (b : block) (tagp : Z) : Z := be_at 2 (tagp + 4) b.
Definition t_flags (b : block) (tagp : Z) : Z := be_at 2 (tagp + 6) b.
Definition t_blocknr_high (b : block) (tagp : Z) : Z := be_at 4 (tagp + 8) b.
Definition t_checksum32 (b : block) (tagp : Z) : Z := be_at 4 (tagp + 12) b.

(** * Transaction numbers *)

Definition tid_gt (x y : Z) : bool := 0 <? s32 (u32 (x - y)).
Definition tid_geq (x y : Z) : bool := 0 <=? s32 (u32 (x - y)).

(** Numbers that lie within half of the range of a base compare by their
    distance from it, wherever the counter wraps. *)
Lemma tid_cmp base i j :
  0 <= i < 2 ^ 31 -> 0 <= j < 2 ^ 31 ->
  tid_gt (u32 (base + i)) (u32 (base + j)) = (j <? i) /\ tid_geq (u32 (base + i)) (u32 (base + j)) = (j <=? i).
Proof.
  intros Hi Hj. unfold tid_gt, tid_geq.
  assert (s32 (u32 (u32 (base + i) - u32 (base + j))) = i - j) as ->.
  { unfold u32. rewrite <- Zminus_mod. replace (base + i - (base + j)) with (i - j) by lia.
    unfold s32. rewrite <- Zplus_mod_idemp_l, Zmod_mod, Zplus_mod_idemp_l. rewrite Z.mod_small by lia. lia. }
  split; [destruct (Z.ltb_spec 0 (i - j)), (Z.ltb_spec j i)|destruct (Z.leb_spec 0 (i - j)), (Z.leb_spec j i)]; lia || done.
Qed.

(** * Devices and buffers *)

Record device := mk_dev { blocks : gmap Z (list Z); wr_err : Z -> bool; flush_err : bool }.

Inductive kdev := K_DEV_FS | K_DEV_JOURNAL.

(** The two channels; [same]: the journal lies in the file system and
    [journal_io] is the channel of the file system. *)
Record io := mk_io { fs_io : device; journal_io : device; same : bool }.

Definition get_dev (i : io) (k : kdev) : device :=
  match k with K_DEV_FS => fs_io i | K_DEV_JOURNAL => if same i then fs_io i else journal_io i end.

Definition set_dev (i : io) (k : kdev) (d : device) : io :=
  match k with
  | K_DEV_FS => mk_io d (journal_io i) (same i)
  | K_DEV_JOURNAL => if same i then mk_io d (journal_io i) true else mk_io (fs_io i) d false
  end.

Record buffer_head := mk_bh { b_dev : kdev; b_blocknr : Z; b_data : list Z; b_dirty : bool; b_uptodate : bool; b_err : Z }.

Definition getblk (k : kdev) (blocknr blocksize : Z) : buffer_head :=
  mk_bh k blocknr (replicate (Z.to_nat blocksize) 0) false false 0.

Definition mark_buffer_dirty (bh : buffer_head) : buffer_head :=
  mk_bh (b_dev bh) (b_blocknr bh) (b_data bh) true (b_uptodate bh) (b_err bh).
Definition mark_buffer_uptodate (bh : buffer_head) (v : bool) : buffer_head :=
  mk_bh (b_dev bh) (b_blocknr bh) (b_data bh) (b_dirty bh) v (b_err bh).
Definition set_blocknr (bh : buffer_head) (n : Z) : buffer_head :=
  mk_bh (b_dev bh) n (b_data bh) (b_dirty bh) (b_uptodate bh) (b_err bh).
Definition set_data (bh : buffer_head) (d : list Z) : buffer_head :=
  mk_bh (b_dev bh) (b_blocknr bh) d (b_dirty bh) (b_uptodate bh) (b_err bh).
Definition set_b_err (bh : buffer_head) (e : Z) : buffer_head :=
  mk_bh (b_dev bh) (b_blocknr bh) (b_data bh) (b_dirty bh) (b_uptodate bh) e.

(** [ll_rw_block] for one buffer. *)
Definition ll_read_block (i : io) (bh : buffer_head) : buffer_head :=
  if b_uptodate bh then bh
  else
    match blocks (get_dev i (b_dev bh)) !! b_blocknr bh with
    | None => set_b_err bh EXT2_ET_SHORT_READ
    | Some d => mark_buffer_uptodate (set_data bh d) true
    end.

Definition ll_write_block (i : io) (bh : buffer_head) : io * buffer_head :=
  if b_dirty bh then
    let d := get_dev i (b_dev bh) in
    if wr_err d (b_blocknr bh) then (i, set_b_err bh EIO)
    else (set_dev i (b_dev bh) (mk_dev (<[b_blocknr bh := b_data bh]> (blocks d)) (wr_err d) (flush_err d)),
          mk_bh (b_dev bh) (b_blocknr bh) (b_data bh) false true (b_err bh))
  else (i, bh).

Definition wait_on_buffer (i : io) (bh : buffer_head) : buffer_head :=
  if negb (b_uptodate bh) then ll_read_block i bh else bh.

Definition brelse (i : io) (bh : buffer_head) : io :=
  if b_dirty bh then fst (ll_write_block i bh) else i.

Definition sync_blockdev (i : io) (k : kdev) : Z := if flush_err (get_dev i k) then - EIO else 0.

(** * The journal *)

Record journal_superblock_t := mk_jsb {
  s_sequence : Z; s_start : Z; s_feature_compat : Z; s_feature_incompat : Z; s_uuid : list Z }.

(** The fields of [journal_t] that recovery and the writer use and do not
    change; [j_bmap] gives the device block of a block of the journal, or an
    error. *)
Record journal_t := mk_journal {
  j_superblock : journal_superblock_t; j_format_version : Z;
  j_fc_first : Z; j_fc_last : Z; j_first : Z; j_last : Z; j_blocksize : Z; j_total_len : Z;
  j_csum_seed : Z; j_bmap : Z -> Z + Z }.

Definition has_compat (j : journal_t) (mask : Z) : bool :=
  (2 <=? j_format_version j) && negb (Z.land (s_feature_compat (j_superblock j)) mask =? 0).
Definition has_incompat (j : journal_t) (mask : Z) : bool :=
  (2 <=? j_format_version j) && negb (Z.land (s_feature_incompat (j_superblock j)) mask =? 0).

Definition jbd2_has_feature_checksum (j : journal_t) : bool := has_compat j JBD2_FEATURE_COMPAT_CHECKSUM.
Definition jbd2_has_feature_64bit (j : journal_t) : bool := has_incompat j JBD2_FEATURE_INCOMPAT_64BIT.
Definition jbd2_has_feature_async_commit (j : journal_t) : bool := has_incompat j JBD2_FEATURE_INCOMPAT_ASYNC_COMMIT.
Definition jbd2_has_feature_csum2 (j : journal_t) : bool := has_incompat j JBD2_FEATURE_INCOMPAT_CSUM_V2.
Definition jbd2_has_feature_csum3 (j : journal_t) : bool := has_incompat j JBD2_FEATURE_INCOMPAT_CSUM_V3.
Definition jbd2_has_feature_fast_commit (j : journal_t) : bool := has_incompat j JBD2_FEATURE_INCOMPAT_FAST_COMMIT.

Definition journal_tag_bytes (j : journal_t) : Z :=
  if jbd2_has_feature_csum3 j then 16
  else
    let sz := if jbd2_has_feature_csum2 j then 12 + 2 else 12 in
    if jbd2_has_feature_64bit j then sz else sz - 4.

Definition jbd2_journal_has_csum_v2or3 (j : journal_t) : bool :=
  jbd2_has_feature_csum2 j || jbd2_has_feature_csum3 j.

(** The space the checksum at the end of a block takes. *)
Definition csum_size (j : journal_t) : Z := if jbd2_journal_has_csum_v2or3 j then sizeof_block_tail else 0.

(** The fields that only some tags have lie inside the tag. *)
Lemma tag_bytes_64bit j : jbd2_has_feature_64bit j = true -> 12 <= journal_tag_bytes j.
Proof. unfold journal_tag_bytes. intros ->. destruct (jbd2_has_feature_csum3 j), (jbd2_has_feature_csum2 j); lia. Qed.

Lemma tag_bytes_csum3 j : jbd2_has_feature_csum3 j = true -> journal_tag_bytes j = 16.
Proof. unfold journal_tag_bytes. by intros ->. Qed.

Lemma tag_bytes_range j : 8 <= journal_tag_bytes j <= 16.
Proof.
  unfold journal_tag_bytes. destruct (jbd2_has_feature_csum3 j), (jbd2_has_feature_csum2 j), (jbd2_has_feature_64bit j); lia.
Qed.

Lemma csum_size_range j : 0 <= csum_size j <= 4.
Proof. unfold csum_size, sizeof_block_tail. destruct (jbd2_journal_has_csum_v2or3 j); lia. Qed.

(** [jbd2_chksum]; a buffer is aligned. *)
Definition jbd2_chksum (crc : Z) (address : list Z) : Z := Crc32c.ext2fs_crc32c_le 0 crc address.
