(* ===== verification/Revoke.v ===== *)
(** e2fsck/revoke.c: the hash table of revoked blocks that recovery fills and
    asks.  A chain is the list of its records from the head on; the cache the
    records come from is [malloc]. *)

From S2P Require Import Prelude Crc Journal.

Local Open Scope Z_scope.

(** * Definitions *)

Definition GOLDEN_RATIO_64 : Z := 0x61C8864680B583EB.

Definition hash_64 (val bits : Z) : Z := u32 (Z.shiftr (u64 (val * GOLDEN_RATIO_64)) (64 - bits)).

Record jbd2_revoke_record_s := mk_record { blocknr : Z; sequence : Z }.

Record jbd2_revoke_table_s := mk_table {
  hash_size : Z; hash_shift : Z; hash_table : list (list jbd2_revoke_record_s) }.

Definition hash (t : jbd2_revoke_table_s) (b : Z) : Z := hash_64 b (hash_shift t).

(** The chain of a block. *)
Definition hash_list (t : jbd2_revoke_table_s) (b : Z) : outcome (list jbd2_revoke_record_s) :=
  match hash_table t !! Z.to_nat (hash t b) with Some l => Done l | None => Crash BadPointer end.

Definition set_hash_list (t : jbd2_revoke_table_s) (b : Z) (l : list jbd2_revoke_record_s) : jbd2_revoke_table_s :=
  mk_table (hash_size t) (hash_shift t) (<[Z.to_nat (hash t b) := l]> (hash_table t)).

Definition insert_revoke_hash (al : allocator) (t : jbd2_revoke_table_s) (b seq : Z)
  : outcome (Z * allocator * jbd2_revoke_table_s) :=
  match malloc al with
  | (None, al) => Done (- ENOMEM, al, t)
  | (Some _, al) =>
      let* l := hash_list t b in
      Done (0, al, set_hash_list t b (mk_record b seq :: l))
  end.

(** The first record of the block: what is in front of it, the record, and
    what is behind it. *)
Fixpoint find_in_chain (b : Z) (l : list jbd2_revoke_record_s)
  : option (list jbd2_revoke_record_s * jbd2_revoke_record_s * list jbd2_revoke_record_s) :=
  match l with
  | [] => None
  | r :: l' =>
      if blocknr r =? b then Some ([], r, l')
      else match find_in_chain b l' with Some (p, r', q) => Some (r :: p, r', q) | None => None end
  end.

Definition find_revoke_record (t : jbd2_revoke_table_s) (b : Z)
  : outcome (option (list jbd2_revoke_record_s * jbd2_revoke_record_s * list jbd2_revoke_record_s)) :=
  let* l := hash_list t b in Done (find_in_chain b l).

Definition jbd2_journal_set_revoke (al : allocator) (t : jbd2_revoke_table_s) (b seq : Z)
  : outcome (Z * allocator * jbd2_revoke_table_s) :=
  let* record := find_revoke_record t b in
  match record with
  | Some (p, r, q) =>
      if tid_gt seq (sequence r) then Done (0, al, set_hash_list t b (p ++ mk_record b seq :: q))
      else Done (0, al, t)
  | None => insert_revoke_hash al t b seq
  end.

Definition jbd2_journal_test_revoke (t : jbd2_revoke_table_s) (b seq : Z) : outcome bool :=
  let* record := find_revoke_record t b in
  match record with
  | None => Done false
  | Some (_, r, _) => Done (if tid_gt seq (sequence r) then false else true)
  end.

Definition jbd2_journal_clear_revoke (t : jbd2_revoke_table_s) : jbd2_revoke_table_s :=
  mk_table (hash_size t) (hash_shift t) ((fun _ => []) <$> hash_table t).

(** [while((tmp >>= 1UL) != 0UL) shift++]. *)
Fixpoint shift_loop (fuel : nat) (tmp shift : Z) : Z :=
  match fuel with
  | O => shift
  | S fuel =>
      let tmp := Z.shiftr tmp 1 in
      if negb (tmp =? 0) then shift_loop fuel tmp (shift + 1) else shift
  end.

(** [kmalloc_array] of list heads of 16 bytes. *)
Definition kmalloc_array (al : allocator) (n : Z) : option Z * allocator :=
  if negb (n =? 0) && ((2 ^ 32 - 1) / n <? 16) then (None, al) else malloc al.

Definition jbd2_journal_init_revoke_table (al : allocator) (size : Z) : option jbd2_revoke_table_s * allocator :=
  match malloc al with
  | (None, al) => (None, al)
  | (Some _, al) =>
      let shift := shift_loop 31 size 0 in
      match kmalloc_array al size with
      | (None, al) => (None, al)
      | (Some _, al) => (Some (mk_table size shift (replicate (Z.to_nat size) [])), al)
      end
  end.

Definition is_power_of_2 (x : Z) : bool := negb (x =? 0) && (Z.land x (x - 1) =? 0).

(** The two tables of a journal; [j_revoke] is the second. *)
Record revoke_tables := mk_tables { j_revoke_table_0 : option jbd2_revoke_table_s; j_revoke_table_1 : option jbd2_revoke_table_s }.

Definition list_empty {A} (l : list A) : bool := match l with [] => true | _ => false end.

Definition jbd2_journal_destroy_revoke_table (t : jbd2_revoke_table_s) : outcome unit :=
  if forallb list_empty (hash_table t) then Done tt else Crash AssertFailed.

Definition jbd2_journal_init_revoke (al : allocator) (ts : revoke_tables) (size : Z)
  : outcome (Z * allocator * revoke_tables) :=
  match j_revoke_table_0 ts with
  | Some _ => Crash AssertFailed
  | None =>
      if negb (is_power_of_2 size) then Crash AssertFailed
      else
        match jbd2_journal_init_revoke_table al size with
        | (None, al) => Done (- ENOMEM, al, mk_tables None (j_revoke_table_1 ts))
        | (Some t0, al) =>
            match jbd2_journal_init_revoke_table al size with
            | (None, al) =>
                let* _ := jbd2_journal_destroy_revoke_table t0 in
                Done (- ENOMEM, al, mk_tables None None)
            | (Some t1, al) => Done (0, al, mk_tables (Some t0) (Some t1))
            end
        end
  end.

Definition jbd2_journal_destroy_revoke (ts : revoke_tables) : outcome unit :=
  let* _ := match j_revoke_table_0 ts with Some t => jbd2_journal_destroy_revoke_table t | None => Done tt end in
  match j_revoke_table_1 ts with Some t => jbd2_journal_destroy_revoke_table t | None => Done tt end.

(** * The table as a map *)

Record table_wf (t : jbd2_revoke_table_s) : Prop := {
  tw_shift : 1 <= hash_shift t <= 31;
  tw_size : hash_size t = 2 ^ hash_shift t;
  tw_length : Z.of_nat (length (hash_table t)) = hash_size t
}.

(** The transaction recorded for a block. *)
Definition recorded (t : jbd2_revoke_table_s) (b : Z) : option Z :=
  match hash_table t !! Z.to_nat (hash t b) with
  | Some l => match find_in_chain b l with Some (_, r, _) => Some (sequence r) | None => None end
  | None => None
  end.

Lemma hash_range t b : table_wf t -> 0 <= hash t b < hash_size t.
Proof.
  intros [Hs Hz _]. rewrite Hz. unfold hash, hash_64. pose proof (u64_range (b * GOLDEN_RATIO_64)) as [H0 H1].
  rewrite Z.shiftr_div_pow2 by lia.
  assert (Hd : 0 <= u64 (b * GOLDEN_RATIO_64) / 2 ^ (64 - hash_shift t) < 2 ^ hash_shift t).
  { split; [apply Z.div_pos; lia|]. apply Z.div_lt_upper_bound; [lia|]. rewrite <- Z.pow_add_r by lia.
    replace (64 - hash_shift t + hash_shift t) with 64 by lia. done. }
  rewrite u32_small; [done|]. split; [lia|]. assert (2 ^ hash_shift t <= 2 ^ 31) by (apply Z.pow_le_mono_r; lia). lia.
Qed.

Lemma hash_list_ok t b : table_wf t -> exists l, hash_table t !! Z.to_nat (hash t b) = Some l /\ hash_list t b = Done l.
Proof.
  intros W. pose proof (hash_range t b W). pose proof (tw_length t W).
  destruct (lookup_lt_is_Some_2 (hash_table t) (Z.to_nat (hash t b))) as [l Hl]; [lia|]. exists l. unfold hash_list. by rewrite Hl.
Qed.

Lemma set_hash_list_wf t b l : table_wf t -> table_wf (set_hash_list t b l).
Proof. intros [H1 H2 H3]. constructor; [done|done|]. cbn [set_hash_list hash_table hash_size]. by rewrite length_insert. Qed.

Lemma find_in_chain_app b l p r q : find_in_chain b l = Some (p, r, q) -> l = p ++ r :: q /\ blocknr r = b /\ Forall (fun r => blocknr r <> b) p.
Proof.
  revert p. induction l as [|x l IH]; intros p H; cbn [find_in_chain] in H; [done|]. destruct (Z.eqb_spec (blocknr x) b) as [E|E].
  - injection H as <- <- <-. split; [done|]. split; [done|constructor].
  - destruct (find_in_chain b l) as [[[p' r'] q']|]; [|done]. injection H as <- <- <-. destruct (IH p' eq_refl) as (-> & Hb & Hp).
    split; [done|]. split; [done|]. by constructor.
Qed.

Lemma find_in_chain_replaced b c p r q s :
  Forall (fun r => blocknr r <> b) p -> blocknr r = b ->
  match find_in_chain c (p ++ mk_record b s :: q) with Some (_, r, _) => Some (sequence r) | None => None end =
  if decide (c = b) then Some s else match find_in_chain c (p ++ r :: q) with Some (_, r, _) => Some (sequence r) | None => None end.
Proof.
  intros Hp Hr. induction Hp as [|x p Hx Hp IH]; cbn [app find_in_chain blocknr].
  - rewrite Hr. destruct (Z.eqb_spec b c), (decide (c = b)); try congruence; [done|]. by destruct (find_in_chain c q) as [[[? ?] ?]|].
  - destruct (Z.eqb_spec (blocknr x) c) as [E|E]; [rewrite decide_False by congruence; done|].
    destruct (find_in_chain c (p ++ mk_record b s :: q)) as [[[? ?] ?]|], (find_in_chain c (p ++ r :: q)) as [[[? ?] ?]|]; exact IH.
Qed.

(** Replacing the chain of [b] changes what is recorded for the blocks whose
    records differ. *)
Lemma recorded_set_chain t b l c :
  table_wf t ->
  recorded (set_hash_list t b l) c =
    if decide (hash t c = hash t b) then match find_in_chain c l with Some (_, r, _) => Some (sequence r) | None => None end
    else recorded t c.
Proof.
  intros W. unfold recorded. cbn [set_hash_list hash_table]. change (hash (set_hash_list t b l) c) with (hash t c).
  pose proof (hash_range t b W). pose proof (hash_range t c W). pose proof (tw_length t W).
  destruct (decide (hash t c = hash t b)) as [->|Hne].
  - rewrite list_lookup_insert_eq by lia. done.
  - rewrite list_lookup_insert_ne by lia. done.
Qed.

(** The later of two transactions. *)
Definition later_tid (old : option Z) (seq : Z) : Z :=
  match old with Some s => if tid_gt seq s then seq else s | None => seq end.

Lemma set_revoke_spec al t b seq :
  table_wf t -> (forall a, oom al a = false) ->
  exists al' t', jbd2_journal_set_revoke al t b seq = Done (0, al', t') /\ table_wf t' /\ (forall a, oom al' a = false) /\
    hash_size t' = hash_size t /\
    forall c, recorded t' c = if decide (c = b) then Some (later_tid (recorded t b) seq) else recorded t c.
Proof.
  intros W Hal. destruct (hash_list_ok t b W) as (l & Hl & El). unfold jbd2_journal_set_revoke, find_revoke_record. rewrite El. cbn [obind].
  assert (Hrb : recorded t b = match find_in_chain b l with Some (_, r, _) => Some (sequence r) | None => None end) by (unfold recorded; by rewrite Hl).
  destruct (find_in_chain b l) as [[[p r] q]|] eqn:Ef.
  - destruct (find_in_chain_app _ _ _ _ _ Ef) as (-> & Hr & Hp). rewrite Hrb. cbn [later_tid]. destruct (tid_gt seq (sequence r)) eqn:Eg.
    + eexists _, _. split; [reflexivity|]. split; [by apply set_hash_list_wf|]. split; [done|]. split; [done|]. intros c.
      rewrite recorded_set_chain by done. destruct (decide (hash t c = hash t b)) as [Eh|Eh].
      * rewrite (find_in_chain_replaced b c p r q seq Hp Hr). case_decide; [done|]. unfold recorded. by rewrite Eh, Hl.
      * rewrite decide_False by congruence. done.
    + eexists _, _. split; [reflexivity|]. split; [done|]. split; [done|]. split; [done|]. intros c. case_decide as Ec; [|done].
      rewrite Ec. unfold recorded. rewrite Hl, Ef. done.
  - unfold insert_revoke_hash, malloc. rewrite Hal, El. cbn [obind]. eexists _, _. split; [reflexivity|].
    split; [by apply set_hash_list_wf|]. split; [done|]. split; [done|]. intros c. rewrite recorded_set_chain by done. rewrite Hrb.
    destruct (decide (hash t c = hash t b)) as [Eh|Eh]; [|rewrite decide_False by congruence; done].
    cbn [find_in_chain blocknr]. destruct (Z.eqb_spec b c) as [<-|Hne]; [by rewrite decide_True|]. rewrite decide_False by congruence.
    unfold recorded. rewrite Eh, Hl. by destruct (find_in_chain c l) as [[[? ?] ?]|].
Qed.

Lemma test_revoke_spec t b seq :
  table_wf t -> jbd2_journal_test_revoke t b seq =
    Done (match recorded t b with Some s => negb (tid_gt seq s) | None => false end).
Proof.
  intros W. destruct (hash_list_ok t b W) as (l & Hl & El). unfold jbd2_journal_test_revoke, find_revoke_record. rewrite El. cbn [obind].
  unfold recorded. rewrite Hl. destruct (find_in_chain b l) as [[[p r] q]|]; [|done]. by destruct (tid_gt seq (sequence r)).
Qed.

(** ** A history of revokes *)

(** The table after the revokes of [hist] (blocks with the distance of their
    transaction from [base]) were entered. *)
Definition revoked_in (base : Z) (hist : list (Z * Z)) (t : jbd2_revoke_table_s) : Prop :=
  forall b, match recorded t b with
            | Some s => exists i, s = u32 (base + i) /\ (b, i) ∈ hist /\ forall i', (b, i') ∈ hist -> i' <= i
            | None => forall i, (b, i) ∉ hist
            end.

Lemma revoked_in_snoc base hist t t' b i :
  revoked_in base hist t -> (forall b i, (b, i) ∈ hist -> 0 <= i < 2 ^ 31) -> 0 <= i < 2 ^ 31 ->
  (forall c, recorded t' c = if decide (c = b) then Some (later_tid (recorded t b) (u32 (base + i))) else recorded t c) ->
  revoked_in base (hist ++ [(b, i)]) t'.
Proof.
  intros H Hr Hi Ht c. rewrite Ht. destruct (decide (c = b)) as [->|Hne].
  - specialize (H b). destruct (recorded t b) as [s|] eqn:Es; cbn [later_tid].
    + destruct H as (k & -> & Hk & Hmax). destruct (tid_cmp base i k Hi (Hr b k Hk)) as [-> _]. destruct (Z.ltb_spec k i) as [Hlt|Hge].
      * exists i. split; [done|]. split; [apply elem_of_app; (by left) || (right; left)|]. intros i' Hi'. apply elem_of_app in Hi' as [Hi'|Hi'].
        -- specialize (Hmax i' Hi'). lia.
        -- apply list_elem_of_singleton in Hi'. injection Hi' as ->. lia.
      * exists k. split; [done|]. split; [apply elem_of_app; (by left) || (right; left)|]. intros i' Hi'. apply elem_of_app in Hi' as [Hi'|Hi']; [by apply Hmax|].
        apply list_elem_of_singleton in Hi'. injection Hi' as ->. done.
    + exists i. split; [done|]. split; [apply elem_of_app; (by left) || (right; left)|]. intros i' Hi'. apply elem_of_app in Hi' as [Hi'|Hi']; [by apply H in Hi'|].
      apply list_elem_of_singleton in Hi'. injection Hi' as ->. done.
  - specialize (H c). destruct (recorded t c) as [s|].
    + destruct H as (k & Hs & Hk & Hmax). exists k. split; [done|]. split; [apply elem_of_app; (by left) || (right; left)|]. intros i' Hi'. apply elem_of_app in Hi' as [Hi'|Hi'].
      * by apply Hmax.
      * apply list_elem_of_singleton in Hi'. by injection Hi' as -> _.
    + intros k Hk. apply elem_of_app in Hk as [Hk|Hk]; [by apply (H k)|]. apply list_elem_of_singleton in Hk. by injection Hk as -> _.
Qed.

(** Revoked in the transaction [k] or a later one. *)
Definition revoked_since (hist : list (Z * Z)) (b k : Z) : bool := bool_decide (Exists (fun x => x.1 = b /\ k <= x.2) hist).

Lemma revoked_test base hist t b k :
  table_wf t -> revoked_in base hist t -> (forall b i, (b, i) ∈ hist -> 0 <= i < 2 ^ 31) -> 0 <= k < 2 ^ 31 ->
  jbd2_journal_test_revoke t b (u32 (base + k)) = Done (revoked_since hist b k).
Proof.
  intros W H Hr Hk. rewrite test_revoke_spec by done. f_equal. specialize (H b). unfold revoked_since. destruct (recorded t b) as [s|].
  - destruct H as (i & -> & Hi & Hmax). destruct (tid_cmp base k i Hk (Hr b i Hi)) as [-> _].
    destruct (Z.ltb_spec i k) as [Hlt|Hge]; symmetry; cbn [negb].
    + apply bool_decide_eq_false. intros Hex. apply Exists_exists in Hex as ([c i'] & Hin & [Hc Hle]). cbn [fst snd] in *. subst c. specialize (Hmax i' Hin). lia.
    + apply bool_decide_eq_true. apply Exists_exists. by exists (b, i).
  - symmetry. apply bool_decide_eq_false. intros Hex. apply Exists_exists in Hex as ([c i'] & Hin & [Hc _]). cbn [fst] in Hc. subst c. by apply (H i').
Qed.

(** An empty table. *)
Definition table_empty (t : jbd2_revoke_table_s) : Prop := Forall (fun l => l = []) (hash_table t).

Lemma empty_revoked_in base t : table_empty t -> revoked_in base [] t.
Proof.
  intros He b. unfold recorded. destruct (hash_table t !! Z.to_nat (hash t b)) as [l|] eqn:E.
  - rewrite (Forall_lookup_1 _ _ _ _ He E). cbn [find_in_chain]. intros i. apply not_elem_of_nil.
  - intros i. apply not_elem_of_nil.
Qed.

Lemma clear_revoke_spec t : table_wf t -> table_wf (jbd2_journal_clear_revoke t) /\ table_empty (jbd2_journal_clear_revoke t).
Proof.
  intros [H1 H2 H3]. split.
  - constructor; [done|done|]. cbn [jbd2_journal_clear_revoke hash_table hash_size]. by rewrite length_fmap.
  - unfold table_empty. cbn [jbd2_journal_clear_revoke hash_table]. apply Forall_fmap, Forall_forall. done.
Qed.

(** ** Creation *)

Lemma shift_loop_pow n : forall fuel k, 0 <= n -> n < Z.of_nat fuel -> shift_loop fuel (2 ^ n) k = k + n.
Proof.
  intros fuel. revert n. induction fuel as [|fuel IH]; intros n k Hn Hf; [lia|]. cbn [shift_loop]. rewrite Z.shiftr_div_pow2 by lia.
  change (2 ^ 1) with 2. destruct (decide (n = 0)) as [->|Hne].
  - change (2 ^ 0 / 2) with 0. cbn [Z.eqb negb]. lia.
  - replace (2 ^ n) with (2 ^ (n - 1) * 2) by (rewrite Z.mul_comm, <- Z.pow_succ_r by lia; f_equal; lia).
    rewrite Z.div_mul by lia. destruct (Z.eqb_spec (2 ^ (n - 1)) 0) as [E|_]; [pose proof (Z.pow_pos_nonneg 2 (n - 1)); lia|]. cbn [negb].
    rewrite IH by lia. lia.
Qed.

Lemma power_of_2_pow n : 0 <= n -> is_power_of_2 (2 ^ n) = true.
Proof.
  intros Hn. unfold is_power_of_2. pose proof (Z.pow_pos_nonneg 2 n). destruct (Z.eqb_spec (2 ^ n) 0); [lia|].
  replace (2 ^ n - 1) with (Z.ones n) by (rewrite Z.ones_equiv; lia). by rewrite Z.land_ones, Z.mod_same by lia.
Qed.

Lemma init_revoke_spec al n :
  1 <= n <= 27 -> (forall a, oom al a = false) ->
  exists al' t0 t1, jbd2_journal_init_revoke al (mk_tables None None) (2 ^ n) = Done (0, al', mk_tables (Some t0) (Some t1)) /\
    table_wf t1 /\ table_empty t1 /\ (forall a, oom al' a = false).
Proof.
  intros Hn Hal. unfold jbd2_journal_init_revoke. cbn [j_revoke_table_0]. rewrite power_of_2_pow by lia. cbn [negb].
  assert (Ht : forall al, (forall a, oom al a = false) -> exists al', (forall a, oom al' a = false) /\
    jbd2_journal_init_revoke_table al (2 ^ n) = (Some (mk_table (2 ^ n) n (replicate (Z.to_nat (2 ^ n)) [])), al')).
  { clear al Hal. intros al Hal. unfold jbd2_journal_init_revoke_table, kmalloc_array, malloc. rewrite Hal. rewrite shift_loop_pow by lia.
    assert (16 <= (2 ^ 32 - 1) / 2 ^ n).
    { apply Z.div_le_lower_bound; [lia|]. assert (2 ^ n <= 2 ^ 27) by (apply Z.pow_le_mono_r; lia). lia. }
    destruct (Z.ltb_spec ((2 ^ 32 - 1) / 2 ^ n) 16); [lia|]. rewrite andb_false_r. cbn [oom]. rewrite Hal. eexists. split; [|reflexivity]. done. }
  destruct (Ht al Hal) as (al1 & H1 & ->). destruct (Ht al1 H1) as (al2 & H2 & ->). eexists _, _, _. split; [reflexivity|].
  pose proof (Z.pow_pos_nonneg 2 n). split; [|split; [|done]].
  - constructor; cbn [hash_shift hash_size hash_table]; [lia|done|]. rewrite length_replicate. lia.
  - unfold table_empty. cbn [hash_table]. by apply Forall_replicate.
Qed.

(** The revokes of a history entered one after the other. *)
Fixpoint enter_revokes (al : allocator) (t : jbd2_revoke_table_s) (base : Z) (hist : list (Z * Z)) : outcome (allocator * jbd2_revoke_table_s) :=
  match hist with
  | [] => Done (al, t)
  | (b, i) :: hist =>
      let* (_, al, t) := jbd2_journal_set_revoke al t b (u32 (base + i)) in enter_revokes al t base hist
  end.

Lemma enter_revokes_spec base hist : forall al t done,
  table_wf t -> revoked_in base done t -> (forall a, oom al a = false) ->
  (forall b i, (b, i) ∈ done ++ hist -> 0 <= i < 2 ^ 31) ->
  exists al' t', enter_revokes al t base hist = Done (al', t') /\ table_wf t' /\ revoked_in base (done ++ hist) t'.
Proof.
  induction hist as [|[b i] hist IH]; intros al t dn W H Hal Hr; cbn [enter_revokes].
  - exists al, t. split; [done|]. split; [done|]. by rewrite app_nil_r.
  - destruct (set_revoke_spec al t b (u32 (base + i)) W Hal) as (al1 & t1 & -> & W1 & Hal1 & _ & Hrec). cbn [obind].
    replace (dn ++ (b, i) :: hist) with ((dn ++ [(b, i)]) ++ hist) in Hr |- * by (by rewrite <- app_assoc).
    apply IH; [done| |done|done]. apply (revoked_in_snoc base dn t t1 b i H); [|apply (Hr b i); set_solver|done].
    intros c k Hk. apply (Hr c k). set_solver.
Qed.

(** C20: the revoke table answers like the list of all revokes.  After a table
    was created and any revokes were entered, with transaction numbers that lie
    within half of the 32-bit range and may wrap, testing a block for a
    transaction says yes exactly when the block was revoked in that
    transaction or a later one. *)
Theorem revoke_table_correct al n base hist b k :
  1 <= n <= 27 -> (forall a, oom al a = false) -> Forall (fun x => 0 <= snd x < 2 ^ 31) hist -> 0 <= k < 2 ^ 31 ->
  exists al1 t0 t1 al2 t2, jbd2_journal_init_revoke al (mk_tables None None) (2 ^ n) = Done (0, al1, mk_tables (Some t0) (Some t1)) /\
    enter_revokes al1 t1 base hist = Done (al2, t2) /\
    jbd2_journal_test_revoke t2 b (u32 (base + k)) = Done (bool_decide (Exists (fun x => x.1 = b /\ k <= x.2) hist)).
Proof.
  intros Hn Hal Hh Hk. destruct (init_revoke_spec al n Hn Hal) as (al1 & t0 & t1 & E1 & W1 & He & Hal1).
  rewrite Forall_forall in Hh. destruct (enter_revokes_spec base hist al1 t1 [] W1 (empty_revoked_in base t1 He) Hal1) as (al2 & t2 & E2 & W2 & H2).
  { intros c i Hi. apply (Hh (c, i) Hi). }
  exists al1, t0, t1, al2, t2. split; [done|]. split; [done|]. apply (revoked_test base hist t2 b k W2 H2); [|done].
  intros c i Hi. apply (Hh (c, i) Hi).
Qed.

Lemma revoke_table_correct_witness :
  exists al1 t0 t1 al2 t2,
    jbd2_journal_init_revoke (mk_alloc 1 (fun _ => false)) (mk_tables None None) (2 ^ 4) = Done (0, al1, mk_tables (Some t0) (Some t1)) /\
    enter_revokes al1 t1 0xFFFFFFFF [(7, 0); (7, 2); (9, 1)] = Done (al2, t2) /\
    jbd2_journal_test_revoke t2 7 (u32 (0xFFFFFFFF + 1)) = Done true.
Proof.
  apply (revoke_table_correct (mk_alloc 1 (fun _ => false)) 4 0xFFFFFFFF [(7, 0); (7, 2); (9, 1)] 7 1);
    [lia|done|repeat constructor; cbn; lia|lia].
Defined.
