(* ===== verification/Recovery.v ===== *)
(** e2fsck/recovery.c: the three passes over the log that bring the blocks of
    committed transactions back into the file system.

    One turn of the [while (1)] loop of [do_one_pass] is [pass_turn]; its
    result says whether the loop goes on, ends at [done] or at [failed].  The
    fast-commit callback of the journal is a parameter. *)

From S2P Require Import Prelude Crc CrcBe Journal Revoke.

Local Open Scope Z_scope.

Inductive passtype := PASS_SCAN | PASS_REVOKE | PASS_REPLAY.

Definition is_scan (p : passtype) : bool := match p with PASS_SCAN => true | _ => false end.
Definition is_revoke (p : passtype) : bool := match p with PASS_REVOKE => true | _ => false end.
Definition is_replay (p : passtype) : bool := match p with PASS_REPLAY => true | _ => false end.

Record recovery_info := mk_info {
  start_transaction : Z; end_transaction : Z; nr_replays : Z; nr_revokes : Z; nr_revoke_hits : Z }.

(** What a pass may change: the devices, the revoke table and the memory its
    records come from, [j_failed_commit] and the progress of the recovery. *)
Record recovery_state := mk_rs {
  rs_io : io; rs_al : allocator; rs_revoke : jbd2_revoke_table_s; j_failed_commit : Z; rs_info : recovery_info }.

Definition set_io (rs : recovery_state) (i : io) : recovery_state :=
  mk_rs i (rs_al rs) (rs_revoke rs) (j_failed_commit rs) (rs_info rs).
Definition set_revoke (rs : recovery_state) (al : allocator) (t : jbd2_revoke_table_s) : recovery_state :=
  mk_rs (rs_io rs) al t (j_failed_commit rs) (rs_info rs).
Definition set_failed_commit (rs : recovery_state) (tid : Z) : recovery_state :=
  mk_rs (rs_io rs) (rs_al rs) (rs_revoke rs) tid (rs_info rs).
Definition set_info (rs : recovery_state) (info : recovery_info) : recovery_state :=
  mk_rs (rs_io rs) (rs_al rs) (rs_revoke rs) (j_failed_commit rs) info.

Definition set_start (i : recovery_info) (z : Z) : recovery_info :=
  mk_info z (end_transaction i) (nr_replays i) (nr_revokes i) (nr_revoke_hits i).
Definition set_end (i : recovery_info) (z : Z) : recovery_info :=
  mk_info (start_transaction i) z (nr_replays i) (nr_revokes i) (nr_revoke_hits i).
Definition count_replay (i : recovery_info) : recovery_info :=
  mk_info (start_transaction i) (end_transaction i) (nr_replays i + 1) (nr_revokes i) (nr_revoke_hits i).
Definition count_revoke (i : recovery_info) : recovery_info :=
  mk_info (start_transaction i) (end_transaction i) (nr_replays i) (nr_revokes i + 1) (nr_revoke_hits i).
Definition count_hit (i : recovery_info) : recovery_info :=
  mk_info (start_transaction i) (end_transaction i) (nr_replays i) (nr_revokes i) (nr_revoke_hits i + 1).

(** * Reading the log *)

(** The buffer of a block is [j_blocksize] bytes long.  A field is read through
    a pointer into it: a read that leaves the buffer is undefined. *)
Definition be_get (j : journal_t) (n : nat) (off : Z) (b : block) : outcome Z :=
  if (0 <=? off) && (off + Z.of_nat n <=? j_blocksize j) then Done (be_at n off b) else Crash BadPointer.

Definition jread (i : io) (j : journal_t) (offset : Z) : Z + list Z :=
  let offset := u32 offset in
  if j_total_len j <=? offset then inl (- EFSCORRUPTED)
  else
    match j_bmap j offset with
    | inl err => inl err
    | inr blocknr =>
        let bh := wait_on_buffer i (getblk K_DEV_JOURNAL blocknr (j_blocksize j)) in
        if negb (b_uptodate bh) then inl (- EIO) else inr (b_data bh)
    end.

Definition wrap (j : journal_t) (var : Z) : Z :=
  let wrap_last := if jbd2_has_feature_fast_commit j then j_fc_last j else j_last j in
  if wrap_last <=? var then u64 (var - (wrap_last - j_first j)) else var.

Definition jbd2_descriptor_block_csum_verify (j : journal_t) (buf : block) : bool :=
  if negb (jbd2_journal_has_csum_v2or3 j) then true
  else
    let tail := j_blocksize j - sizeof_block_tail in
    let provided := be_at 4 tail buf in
    let calculated := jbd2_chksum (j_csum_seed j) (take (Z.to_nat (j_blocksize j)) (be_put 4 tail 0 buf)) in
    provided =? calculated.

Definition jbd2_commit_block_csum_verify (j : journal_t) (buf : block) : bool :=
  if negb (jbd2_journal_has_csum_v2or3 j) then true
  else
    let provided := h_chksum_0 buf in
    let calculated := jbd2_chksum (j_csum_seed j) (take (Z.to_nat (j_blocksize j)) (be_put 4 16 0 buf)) in
    provided =? calculated.

(** The checksum of a data block, as it is kept in a tag. *)
Definition tag_chksum (j : journal_t) (buf : block) (seq : Z) : Z :=
  let csum32 := jbd2_chksum (j_csum_seed j) (be_encode 4 seq) in
  jbd2_chksum csum32 (take (Z.to_nat (j_blocksize j)) buf).

Definition jbd2_block_tag_csum_verify (j : journal_t) (b : block) (tagp : Z) (buf : block) (seq : Z) : outcome bool :=
  if negb (jbd2_journal_has_csum_v2or3 j) then Done true
  else
    let csum32 := tag_chksum j buf seq in
    if jbd2_has_feature_csum3 j then let* c := be_get j 4 (tagp + 12) b in Done (c =? csum32)
    else let* c := be_get j 2 (tagp + 4) b in Done (c =? u16 csum32).

Definition flag_set (flags f : Z) : bool := negb (Z.land flags f =? 0).

(** [t_flags] of the tag at [tagp]. *)
Definition get_flags (j : journal_t) (b : block) (tagp : Z) : outcome Z := be_get j 2 (tagp + 6) b.

(** Where the next tag is. *)
Definition next_tag (j : journal_t) (tagp flags : Z) : Z :=
  tagp + journal_tag_bytes j + if flag_set flags JBD2_FLAG_SAME_UUID then 0 else 16.

Fixpoint count_tags_loop (fuel : nat) (j : journal_t) (b : block) (tagp nr : Z) : outcome Z :=
  match fuel with
  | O => Crash OutOfFuel
  | S fuel =>
      if tagp + journal_tag_bytes j <=? j_blocksize j - csum_size j then
        let* flags := get_flags j b tagp in
        if flag_set flags JBD2_FLAG_LAST_TAG then Done (nr + 1)
        else count_tags_loop fuel j b (next_tag j tagp flags) (nr + 1)
      else Done nr
  end.

Definition tag_fuel (j : journal_t) : nat := S (Z.to_nat (j_blocksize j)).

Definition count_tags (j : journal_t) (b : block) : outcome Z :=
  count_tags_loop (tag_fuel j) j b sizeof_journal_header 0.

Definition read_tag_block (j : journal_t) (b : block) (tagp : Z) : outcome Z :=
  let* blk := be_get j 4 tagp b in
  if jbd2_has_feature_64bit j then let* high := be_get j 4 (tagp + 8) b in Done (Z.lor blk (Z.shiftl high 32)) else Done blk.

(** The data blocks added to the checksum of a transaction; [true]: a block
    could not be read. *)
Fixpoint chksum_blocks (n : nat) (i : io) (j : journal_t) (next crc : Z) : bool * Z * Z :=
  match n with
  | O => (false, next, crc)
  | S n =>
      match jread i j next with
      | inl _ => (true, wrap j (next + 1), crc)
      | inr obh => chksum_blocks n i j (wrap j (next + 1)) (ext2fs_crc32_be 0 crc (take (Z.to_nat (j_blocksize j)) obh))
      end
  end.

Definition calc_chksums (i : io) (j : journal_t) (b : block) (next crc : Z) : outcome (bool * Z * Z) :=
  let* num_blks := count_tags j b in
  let crc := ext2fs_crc32_be 0 crc (take (Z.to_nat (j_blocksize j)) b) in
  Done (chksum_blocks (Z.to_nat num_blks) i j next crc).

(** * Revoke blocks *)

Fixpoint scan_revoke_loop (fuel : nat) (j : journal_t) (rs : recovery_state) (b : block) (seq offset max record_len : Z) : outcome (Z * recovery_state) :=
  match fuel with
  | O => Crash OutOfFuel
  | S fuel =>
      if offset + record_len <=? max then
        let* blk := if record_len =? 4 then be_get j 4 offset b else be_get j 8 offset b in
        let* (err, al, t) := jbd2_journal_set_revoke (rs_al rs) (rs_revoke rs) blk seq in
        let rs := set_revoke rs al t in
        if negb (err =? 0) then Done (err, rs)
        else scan_revoke_loop fuel j (set_info rs (count_revoke (rs_info rs))) b seq (offset + record_len) max record_len
      else Done (0, rs)
  end.

Definition record_len (j : journal_t) : Z := if jbd2_has_feature_64bit j then 8 else 4.

Definition scan_revoke_records (j : journal_t) (rs : recovery_state) (b : block) (seq : Z) : outcome (Z * recovery_state) :=
  let* rcount := be_get j 4 12 b in
  if j_blocksize j - csum_size j <? rcount then Done (- EINVAL, rs)
  else scan_revoke_loop (S (Z.to_nat rcount)) j rs b seq sizeof_revoke_header rcount (record_len j).

(** * One pass *)

Record pass_state := mk_ps {
  ps_rs : recovery_state; next_commit_ID : Z; next_log_block : Z; crc32_sum : Z;
  need_check_commit_time : bool; last_trans_commit_time : Z; success : Z; block_error : bool }.

Definition with_rs (p : pass_state) (rs : recovery_state) : pass_state :=
  mk_ps rs (next_commit_ID p) (next_log_block p) (crc32_sum p) (need_check_commit_time p) (last_trans_commit_time p) (success p) (block_error p).
Definition with_commit_ID (p : pass_state) (z : Z) : pass_state :=
  mk_ps (ps_rs p) z (next_log_block p) (crc32_sum p) (need_check_commit_time p) (last_trans_commit_time p) (success p) (block_error p).
Definition with_log_block (p : pass_state) (z : Z) : pass_state :=
  mk_ps (ps_rs p) (next_commit_ID p) z (crc32_sum p) (need_check_commit_time p) (last_trans_commit_time p) (success p) (block_error p).
Definition with_crc (p : pass_state) (z : Z) : pass_state :=
  mk_ps (ps_rs p) (next_commit_ID p) (next_log_block p) z (need_check_commit_time p) (last_trans_commit_time p) (success p) (block_error p).
Definition with_check (p : pass_state) : pass_state :=
  mk_ps (ps_rs p) (next_commit_ID p) (next_log_block p) (crc32_sum p) true (last_trans_commit_time p) (success p) (block_error p).
Definition with_commit_time (p : pass_state) (z : Z) : pass_state :=
  mk_ps (ps_rs p) (next_commit_ID p) (next_log_block p) (crc32_sum p) (need_check_commit_time p) z (success p) (block_error p).
Definition with_success (p : pass_state) (z : Z) : pass_state :=
  mk_ps (ps_rs p) (next_commit_ID p) (next_log_block p) (crc32_sum p) (need_check_commit_time p) (last_trans_commit_time p) z (block_error p).
Definition with_block_error (p : pass_state) : pass_state :=
  mk_ps (ps_rs p) (next_commit_ID p) (next_log_block p) (crc32_sum p) (need_check_commit_time p) (last_trans_commit_time p) (success p) true.

(** [Again]: the next turn of the loop; [Finish]: [goto done]; [Failed]: [goto
    failed] with [err]. *)
Inductive flow := Again (p : pass_state) | Finish (p : pass_state) | Failed (p : pass_state) (err : Z).

(** The block of one tag written to the file system, unless it was revoked or
    its checksum is wrong; [obh] is its copy in the log. *)
Definition replay_block (j : journal_t) (p : pass_state) (b : block) (tagp flags : Z) (obh : block) : outcome pass_state :=
  let rs := ps_rs p in
  let* blk := read_tag_block j b tagp in
  let* revoked := jbd2_journal_test_revoke (rs_revoke rs) blk (next_commit_ID p) in
  if revoked : bool then Done (with_rs p (set_info rs (count_hit (rs_info rs))))
  else
  let* sequence := be_get j 4 8 b in
  let* good := jbd2_block_tag_csum_verify j b tagp obh sequence in
  if negb good then Done (with_block_error (with_success p (- EFSBADCRC)))
  else
    let nbh := getblk K_DEV_FS blk (j_blocksize j) in
    let nbh := set_data nbh (take (Z.to_nat (j_blocksize j)) obh) in
    let nbh := if flag_set flags JBD2_FLAG_ESCAPE then set_data nbh (be_put 4 0 JBD2_MAGIC_NUMBER (b_data nbh)) else nbh in
    let nbh := mark_buffer_dirty (mark_buffer_uptodate nbh true) in
    let rs := set_info rs (count_replay (rs_info rs)) in
    Done (with_rs p (set_io rs (brelse (rs_io rs) nbh))).

(** The loop over the tags of a descriptor block in the last pass. *)
Fixpoint replay_tags (fuel : nat) (j : journal_t) (p : pass_state) (b : block) (tagp : Z) : outcome pass_state :=
  match fuel with
  | O => Crash OutOfFuel
  | S fuel =>
      if tagp + journal_tag_bytes j <=? j_blocksize j - csum_size j then
        let* flags := get_flags j b tagp in
        let io_block := next_log_block p in
        let p := with_log_block p (wrap j (io_block + 1)) in
        let* p :=
          match jread (rs_io (ps_rs p)) j io_block with
          | inl err => Done (with_success p err)
          | inr obh => replay_block j p b tagp flags obh
          end in
        if flag_set flags JBD2_FLAG_LAST_TAG then Done p
        else replay_tags fuel j p b (next_tag j tagp flags)
      else Done p
  end.

Definition skip_tags (j : journal_t) (p : pass_state) (b : block) : outcome flow :=
  let* n := count_tags j b in Done (Again (with_log_block p (wrap j (next_log_block p + n)))).

Definition pass_descriptor (j : journal_t) (pass : passtype) (p : pass_state) (b : block) : outcome flow :=
  let bad := jbd2_journal_has_csum_v2or3 j && negb (jbd2_descriptor_block_csum_verify j b) in
  if bad && negb (is_scan pass) then Done (Failed p (- EFSBADCRC))
  else
    let p := if bad then with_check p else p in
    if negb (is_replay pass) then
      if is_scan pass && jbd2_has_feature_checksum j && negb (need_check_commit_time p) && (end_transaction (rs_info (ps_rs p)) =? 0) then
        let* (_, next, crc) := calc_chksums (rs_io (ps_rs p)) j b (next_log_block p) (crc32_sum p) in
        Done (Again (with_crc (with_log_block p next) crc))
      else skip_tags j p b
    else
      let* p := replay_tags (tag_fuel j) j p b sizeof_journal_header in Done (Again p).

(** The checksum of a whole transaction matches the commit block, or is not
    used. *)
Definition v1_chksum_ok (p : pass_state) (b : block) : bool :=
  ((crc32_sum p =? h_chksum_0 b) && (h_chksum_type b =? JBD2_CRC32_CHKSUM) && (h_chksum_size b =? JBD2_CRC32_CHKSUM_SIZE)) ||
  ((h_chksum_type b =? 0) && (h_chksum_size b =? 0) && (h_chksum_0 b =? 0)).

(** A commit block that was found good: the next transaction. *)
Definition next_transaction (pass : passtype) (p : pass_state) (commit_time : Z) : flow :=
  let p := if is_scan pass then with_commit_time p commit_time else p in
  Again (with_commit_ID p (u32 (next_commit_ID p + 1))).

(** [chksum_error]. *)
Definition commit_chksum_error (j : journal_t) (pass : passtype) (p : pass_state) (commit_time : Z) : flow :=
  if commit_time <? last_trans_commit_time p then Finish p
  else
    let rs := ps_rs p in
    let rs := set_info rs (set_end (rs_info rs) (next_commit_ID p)) in
    if negb (jbd2_has_feature_async_commit j) then Again (with_rs p (set_failed_commit rs (next_commit_ID p)))
    else next_transaction pass (with_rs p rs) commit_time.

(** [commit_time] is [h_commit_sec], the last field of the commit block that is
    read. *)
Definition pass_commit (j : journal_t) (pass : passtype) (p : pass_state) (b : block) (commit_time : Z) : flow :=
  if need_check_commit_time p then
    if last_trans_commit_time p <=? commit_time then Failed p (- EFSBADCRC) else Finish p
  else if is_scan pass && jbd2_has_feature_checksum j then
    if negb (end_transaction (rs_info (ps_rs p)) =? 0) then
      Again (with_rs p (set_failed_commit (ps_rs p) (end_transaction (rs_info (ps_rs p)))))
    else if negb (v1_chksum_ok p b) then commit_chksum_error j pass p commit_time
    else
      let p := with_crc p (2 ^ 32 - 1) in
      if negb (jbd2_commit_block_csum_verify j b) then commit_chksum_error j pass p commit_time
      else next_transaction pass p commit_time
  else if is_scan pass && negb (jbd2_commit_block_csum_verify j b) then commit_chksum_error j pass p commit_time
  else next_transaction pass p commit_time.

Definition pass_revoke (j : journal_t) (pass : passtype) (p : pass_state) (b : block) : outcome flow :=
  let p := if is_scan pass && negb (jbd2_descriptor_block_csum_verify j b) then with_check p else p in
  if negb (is_revoke pass) then Done (Again p)
  else
    let* (err, rs) := scan_revoke_records j (ps_rs p) b (next_commit_ID p) in
    let p := with_rs p rs in
    Done (if negb (err =? 0) then Failed p err else Again p).

(** One turn of the loop. *)
Definition pass_turn (j : journal_t) (pass : passtype) (p : pass_state) : outcome flow :=
  if negb (is_scan pass) && tid_geq (next_commit_ID p) (end_transaction (rs_info (ps_rs p))) then Done (Finish p)
  else
    match jread (rs_io (ps_rs p)) j (next_log_block p) with
    | inl err => Done (Failed p err)
    | inr b =>
        let p := with_log_block p (wrap j (next_log_block p + 1)) in
        let* magic := be_get j 4 0 b in
        if negb (magic =? JBD2_MAGIC_NUMBER) then Done (Finish p)
        else
        let* blocktype := be_get j 4 4 b in
        let* sequence := be_get j 4 8 b in
        if negb (sequence =? next_commit_ID p) then Done (Finish p)
        else if blocktype =? JBD2_DESCRIPTOR_BLOCK then pass_descriptor j pass p b
        else if blocktype =? JBD2_COMMIT_BLOCK then
          let* commit_time := be_get j 8 48 b in Done (pass_commit j pass p b commit_time)
        else if blocktype =? JBD2_REVOKE_BLOCK then pass_revoke j pass p b
        else Done (Finish p)
    end.

(** How a pass left the loop. *)
Inductive ending := EndDone (p : pass_state) | EndFailed (p : pass_state) (err : Z).

Fixpoint pass_loop (fuel : nat) (j : journal_t) (pass : passtype) (p : pass_state) : outcome ending :=
  match fuel with
  | O => Crash OutOfFuel
  | S fuel =>
      let* f := pass_turn j pass p in
      match f with
      | Again p => pass_loop fuel j pass p
      | Finish p => Done (EndDone p)
      | Failed p err => Done (EndFailed p err)
      end
  end.

Section recovery.

(** [j_fc_replay_callback]: it is given a block, the pass, the offset of the
    block in the area of fast commits and the transaction expected there, and
    returns a negative error, [JBD2_FC_REPLAY_STOP] or
    [JBD2_FC_REPLAY_CONTINUE]. *)
Variable fc_replay : option (recovery_state -> list Z -> passtype -> Z -> Z -> Z * recovery_state).

Definition JBD2_FC_REPLAY_STOP : Z := 0.

Fixpoint fc_loop (n : nat) (cb : recovery_state -> list Z -> passtype -> Z -> Z -> Z * recovery_state)
    (j : journal_t) (rs : recovery_state) (pass : passtype) (next expected : Z) : Z * recovery_state :=
  match n with
  | O => (0, rs)
  | S n =>
      match jread (rs_io rs) j next with
      | inl err => (err, rs)
      | inr b =>
          let '(err, rs) := cb rs b pass (next - j_fc_first j) expected in
          if (err <? 0) || (err =? JBD2_FC_REPLAY_STOP) then (err, rs)
          else fc_loop n cb j rs pass (next + 1) expected
      end
  end.

Definition fc_do_one_pass (j : journal_t) (rs : recovery_state) (pass : passtype) : Z * recovery_state :=
  match fc_replay with
  | None => (0, rs)
  | Some cb => fc_loop (Z.to_nat (j_fc_last j - j_fc_first j + 1)) cb j rs pass (j_fc_first j) (end_transaction (rs_info rs))
  end.

(** What follows [done]. *)
Definition pass_done (j : journal_t) (pass : passtype) (p : pass_state) : Z * recovery_state :=
  let rs := ps_rs p in
  let e := end_transaction (rs_info rs) in
  let '(rs, success) :=
    if is_scan pass then
      ((if e =? 0 then set_info rs (set_end (rs_info rs) (next_commit_ID p)) else rs), success p)
    else (rs, if negb (e =? next_commit_ID p) then (if success p =? 0 then - EIO else success p) else success p) in
  let '(success, rs) :=
    if jbd2_has_feature_fast_commit j && negb (is_revoke pass) then
      let '(err, rs) := fc_do_one_pass j rs pass in ((if negb (err =? 0) then err else success), rs)
    else (success, rs) in
  ((if block_error p && (success =? 0) then - EIO else success), rs).

(** Where a pass starts: the first block and the first transaction that the
    super block of the journal names. *)
Definition pass_start (j : journal_t) (rs : recovery_state) (pass : passtype) : pass_state :=
  let next_commit_ID := s_sequence (j_superblock j) in
  let next_log_block := s_start (j_superblock j) in
  let rs := if is_scan pass then set_info rs (set_start (rs_info rs) next_commit_ID) else rs in
  mk_ps rs next_commit_ID next_log_block (2 ^ 32 - 1) false 0 0 false.

Definition do_one_pass (fuel : nat) (j : journal_t) (rs : recovery_state) (pass : passtype) : outcome (Z * recovery_state) :=
  let* e := pass_loop fuel j pass (pass_start j rs pass) in
  Done (match e with
        | EndDone p => pass_done j pass p
        | EndFailed p err => (err, ps_rs p)
        end).

(** The result, the state and [j_transaction_sequence]. *)
Definition jbd2_journal_recover (fuel : nat) (j : journal_t) (rs : recovery_state) : outcome (Z * recovery_state * Z) :=
  let rs := set_info rs (mk_info 0 0 0 0 0) in
  if s_start (j_superblock j) =? 0 then Done (0, rs, u32 (s_sequence (j_superblock j) + 1))
  else
    let* (err, rs) := do_one_pass fuel j rs PASS_SCAN in
    let* (err, rs) := if err =? 0 then do_one_pass fuel j rs PASS_REVOKE else Done (err, rs) in
    let* (err, rs) := if err =? 0 then do_one_pass fuel j rs PASS_REPLAY else Done (err, rs) in
    let rs := set_info rs (set_end (rs_info rs) (u32 (end_transaction (rs_info rs) + 1))) in
    let rs := set_revoke rs (rs_al rs) (jbd2_journal_clear_revoke (rs_revoke rs)) in
    let err2 := sync_blockdev (rs_io rs) K_DEV_FS in
    Done ((if err =? 0 then err2 else err), rs, end_transaction (rs_info rs)).

(** The result, the state, [j_transaction_sequence] and [j_tail]. *)
Definition jbd2_journal_skip_recovery (fuel : nat) (j : journal_t) (rs : recovery_state) (j_transaction_sequence : Z)
  : outcome (Z * recovery_state * Z * Z) :=
  let rs := set_info rs (mk_info 0 0 0 0 0) in
  let* (err, rs) := do_one_pass fuel j rs PASS_SCAN in
  Done (err, rs, (if negb (err =? 0) then u32 (j_transaction_sequence + 1) else u32 (end_transaction (rs_info rs) + 1)), 0).

End recovery.
