(* ===== verification/RecoverySpec.v ===== *)
(** What recovery does with a log: the transactions in it, the blocks they
    revoke and the blocks that are to be written back, and the proof that the
    three passes of Recovery.v write exactly those. *)

From S2P Require Import Prelude Crc CrcBe Journal Revoke Recovery.

Local Open Scope Z_scope.

(** Computes with the fields of the states of a pass. *)
Ltac ps_simpl :=
  cbv beta iota delta [with_rs with_commit_ID with_log_block with_crc with_check with_commit_time with_success with_block_error
    set_io set_revoke set_failed_commit set_info set_end set_start count_replay count_revoke count_hit];
  cbn [andb negb is_scan is_revoke is_replay ps_rs next_commit_ID next_log_block crc32_sum need_check_commit_time
    last_trans_commit_time success block_error rs_io rs_al rs_revoke rs_info j_failed_commit end_transaction].

Section log.
Context (j : journal_t).

(** * Reads inside the block *)

Lemma be_get_done n off b : 0 <= off -> off + Z.of_nat n <= j_blocksize j -> be_get j n off b = Done (be_at n off b).
Proof. intros H1 H2. unfold be_get. by rewrite !(proj2 (Z.leb_le _ _)) by lia. Qed.

(** A tag that fits into the block in front of its checksum. *)
Definition tag_fits (tagp : Z) : Prop := 0 <= tagp /\ tagp + journal_tag_bytes j <= j_blocksize j - csum_size j.

Lemma get_flags_done b tagp : tag_fits tagp -> get_flags j b tagp = Done (t_flags b tagp).
Proof. intros [H1 H2]. pose proof (tag_bytes_range j). pose proof (csum_size_range j). apply be_get_done; lia. Qed.

(** The block a tag stands for. *)
Definition tag_block (b : block) (tagp : Z) : Z :=
  let blk := t_blocknr b tagp in
  if jbd2_has_feature_64bit j then Z.lor blk (Z.shiftl (t_blocknr_high b tagp) 32) else blk.

Lemma read_tag_block_done b tagp : tag_fits tagp -> read_tag_block j b tagp = Done (tag_block b tagp).
Proof.
  intros [H1 H2]. pose proof (tag_bytes_range j). pose proof (tag_bytes_64bit j). pose proof (csum_size_range j). unfold read_tag_block, tag_block.
  rewrite be_get_done by lia. cbn [obind]. destruct (jbd2_has_feature_64bit j); [|done]. by rewrite be_get_done by (specialize (H0 eq_refl); lia).
Qed.

(** The checksum in a tag is that of the data block [buf]. *)
Definition tag_csum_ok (b : block) (tagp : Z) (buf : block) (seq : Z) : bool :=
  if negb (jbd2_journal_has_csum_v2or3 j) then true
  else if jbd2_has_feature_csum3 j then t_checksum32 b tagp =? tag_chksum j buf seq
  else t_checksum16 b tagp =? u16 (tag_chksum j buf seq).

Lemma tag_csum_verify_done b tagp buf seq :
  tag_fits tagp -> jbd2_block_tag_csum_verify j b tagp buf seq = Done (tag_csum_ok b tagp buf seq).
Proof.
  intros [H1 H2]. pose proof (tag_bytes_range j). pose proof (tag_bytes_csum3 j). pose proof (csum_size_range j). unfold jbd2_block_tag_csum_verify, tag_csum_ok.
  destruct (negb _); [done|]. destruct (jbd2_has_feature_csum3 j); [specialize (H0 eq_refl)|]; by rewrite be_get_done by lia.
Qed.

(** * The log as a ring *)

Definition log_last : Z := if jbd2_has_feature_fast_commit j then j_fc_last j else j_last j.

Record geometry : Prop := {
  g_first : 0 <= j_first j < log_last;
  g_total : log_last <= j_total_len j < 2 ^ 32;
  g_blocksize : 64 <= j_blocksize j < 2 ^ 30
}.

Definition in_log (p : Z) : Prop := j_first j <= p < log_last.

Fixpoint adv (n : nat) (p : Z) : Z := match n with O => p | S n => adv n (wrap j (p + 1)) end.

Lemma wrap_in_log p n : geometry -> in_log p -> 0 <= n <= log_last - j_first j -> in_log (wrap j (p + n)).
Proof.
  intros [G1 G2 _] [H1 H2] Hn. unfold wrap, in_log. fold log_last. destruct (Z.leb_spec log_last (p + n)); [|lia].
  rewrite u64_small; [lia|]. unfold is_u64. lia.
Qed.

Lemma wrap_wrap p n :
  geometry -> in_log p -> 0 <= n -> n + 1 <= log_last - j_first j -> wrap j (wrap j (p + 1) + n) = wrap j (p + (n + 1)).
Proof.
  intros [G1 G2 _] [H1 H2] Hn Hn1. unfold wrap. fold log_last. destruct (Z.leb_spec log_last (p + 1)).
  - rewrite (u64_small (p + 1 - _)) by (unfold is_u64; lia). destruct (Z.leb_spec log_last (p + 1 - (log_last - j_first j) + n)); [lia|].
    destruct (Z.leb_spec log_last (p + (n + 1))); [|lia]. rewrite u64_small by (unfold is_u64; lia). lia.
  - replace (p + 1 + n) with (p + (n + 1)) by lia. done.
Qed.

Lemma adv_in_log n : forall p, geometry -> in_log p -> in_log (adv n p).
Proof.
  induction n as [|n IH]; intros p G Hp; [done|]. cbn [adv]. apply IH; [done|]. apply wrap_in_log; [done|done|]. destruct G. lia.
Qed.

Lemma adv_wrap n : forall p, geometry -> in_log p -> Z.of_nat n <= log_last - j_first j -> adv n p = wrap j (p + Z.of_nat n).
Proof.
  induction n as [|n IH]; intros p G Hp Hn; cbn [adv].
  - unfold wrap. fold log_last. destruct Hp. destruct (Z.leb_spec log_last (p + Z.of_nat 0)); lia.
  - rewrite IH; [|done|apply wrap_in_log; [done|done|destruct G; lia]|lia]. rewrite wrap_wrap by (done || lia). f_equal. lia.
Qed.

Lemma adv_add n m p : adv (n + m) p = adv m (adv n p).
Proof. revert p. induction n; intros p; cbn [adv plus]; auto. Qed.

(** The blocks that are read from [p] on. *)
Fixpoint log_at (i : io) (p : Z) (bs : list (list Z)) : Prop :=
  match bs with
  | [] => True
  | b :: bs => jread i j p = inr b /\ log_at i (wrap j (p + 1)) bs
  end.

Lemma log_at_app i bs1 bs2 : forall p, log_at i p (bs1 ++ bs2) <-> log_at i p bs1 /\ log_at i (adv (length bs1) p) bs2.
Proof. induction bs1 as [|b bs1 IH]; intros p; cbn [log_at app length adv]; [tauto|]. rewrite IH. tauto. Qed.

(** * Descriptor blocks *)

(** The tags of a descriptor block, as offsets. *)
Fixpoint tags_from (fuel : nat) (b : block) (tagp : Z) : list Z :=
  match fuel with
  | O => []
  | S fuel =>
      if tagp + journal_tag_bytes j <=? j_blocksize j - csum_size j then
        tagp :: (if flag_set (t_flags b tagp) JBD2_FLAG_LAST_TAG then [] else tags_from fuel b (next_tag j tagp (t_flags b tagp)))
      else []
  end.

Definition tags (b : block) : list Z := tags_from (tag_fuel j) b sizeof_journal_header.

Lemma next_tag_ge tagp flags : tagp + 8 <= next_tag j tagp flags.
Proof. unfold next_tag. pose proof (tag_bytes_range j). destruct (flag_set _ _); lia. Qed.

Lemma count_tags_loop_spec fuel : forall b tagp nr,
  0 <= tagp -> (0 < fuel)%nat -> j_blocksize j - tagp < Z.of_nat fuel ->
  count_tags_loop fuel j b tagp nr = Done (nr + Z.of_nat (length (tags_from fuel b tagp))).
Proof.
  induction fuel as [|fuel IH]; intros b tagp nr Ht H0 Hf; [lia|]. cbn [count_tags_loop tags_from].
  pose proof (csum_size_range j). pose proof (tag_bytes_range j). pose proof (next_tag_ge tagp (t_flags b tagp)).
  destruct (Z.leb_spec (tagp + journal_tag_bytes j) (j_blocksize j - csum_size j)); [|f_equal; cbn [length]; lia].
  rewrite get_flags_done by (split; lia). cbn [obind]. destruct (flag_set _ _); [f_equal; cbn [length]; lia|]. rewrite IH by lia. f_equal. cbn [length]. lia.
Qed.

Lemma count_tags_spec b : 0 <= j_blocksize j -> count_tags j b = Done (Z.of_nat (length (tags b))).
Proof.
  intros Hb. unfold count_tags, tags. rewrite count_tags_loop_spec; [f_equal; lia|done|unfold tag_fuel; lia|]. unfold tag_fuel, sizeof_journal_header. lia.
Qed.

(** The block a tag stands for, as it is written back. *)
Definition restored (b : block) (tagp : Z) (d : block) : block :=
  let d := take (Z.to_nat (j_blocksize j)) d in
  if flag_set (t_flags b tagp) JBD2_FLAG_ESCAPE then be_put 4 0 JBD2_MAGIC_NUMBER d else d.

Definition desc_writes (b : block) (data : list (list Z)) : list (Z * list Z) :=
  zip_with (fun tagp d => (tag_block b tagp, restored b tagp d)) (tags b) data.

(** * Revoke blocks *)

Fixpoint revoke_from (fuel : nat) (b : block) (offset max : Z) : list Z :=
  match fuel with
  | O => []
  | S fuel =>
      if offset + record_len j <=? max then
        (if record_len j =? 4 then be_at 4 offset b else be_at 8 offset b) :: revoke_from fuel b (offset + record_len j) max
      else []
  end.

(** The blocks a revoke block revokes. *)
Definition revoke_list (b : block) : list Z := revoke_from (S (Z.to_nat (r_count b))) b sizeof_revoke_header (r_count b).

(** * Transactions *)

Inductive entry := Desc (b : list Z) (data : list (list Z)) | Rev (b : list Z).

Record transaction := mk_tx { tx_entries : list entry; tx_commit : list Z }.

Definition entry_blocks (e : entry) : list (list Z) := match e with Desc b data => b :: data | Rev b => [b] end.
Definition entries_blocks (es : list entry) : list (list Z) := concat (entry_blocks <$> es).
Definition tx_blocks (t : transaction) : list (list Z) := entries_blocks (tx_entries t) ++ [tx_commit t].
Definition txs_blocks (ts : list transaction) : list (list Z) := concat (tx_blocks <$> ts).

Definition header_ok (b : block) (blocktype tid : Z) : Prop :=
  h_magic b = JBD2_MAGIC_NUMBER /\ h_blocktype b = blocktype /\ h_sequence b = tid.

(** A descriptor or revoke block as the writer of the log makes it. *)
Definition entry_ok (tid : Z) (e : entry) : Prop :=
  match e with
  | Desc b data =>
      header_ok b JBD2_DESCRIPTOR_BLOCK tid /\ jbd2_descriptor_block_csum_verify j b = true /\
      Z.of_nat (length (tags b)) <= log_last - j_first j /\
      Forall2 (fun tagp d => tag_csum_ok b tagp d tid = true) (tags b) data
  | Rev b =>
      header_ok b JBD2_REVOKE_BLOCK tid /\ jbd2_descriptor_block_csum_verify j b = true /\
      0 <= r_count b <= j_blocksize j - csum_size j
  end.

(** The checksum of descriptor and data blocks that the first kind of journal
    checksums puts into the commit block. *)
Definition chk_blocks (crc : Z) (bs : list (list Z)) : Z :=
  fold_left (fun c b => ext2fs_crc32_be 0 c (take (Z.to_nat (j_blocksize j)) b)) bs crc.
Definition entry_crc (crc : Z) (e : entry) : Z := match e with Desc b data => chk_blocks crc (b :: data) | Rev _ => crc end.
Definition tx_crc (t : transaction) : Z := fold_left entry_crc (tx_entries t) (2 ^ 32 - 1).

Definition commit_ok (tid : Z) (t : transaction) : Prop :=
  let b := tx_commit t in
  header_ok b JBD2_COMMIT_BLOCK tid /\ jbd2_commit_block_csum_verify j b = true /\
  (jbd2_has_feature_checksum j = true ->
   (h_chksum_0 b = tx_crc t /\ h_chksum_type b = JBD2_CRC32_CHKSUM /\ h_chksum_size b = JBD2_CRC32_CHKSUM_SIZE) \/
   (h_chksum_type b = 0 /\ h_chksum_size b = 0 /\ h_chksum_0 b = 0)).

(** A commit block whose checksum is wrong. *)
Definition commit_bad (tid : Z) (t : transaction) : Prop :=
  let b := tx_commit t in
  header_ok b JBD2_COMMIT_BLOCK tid /\
  (jbd2_commit_block_csum_verify j b = false \/
   jbd2_has_feature_checksum j = true /\
   (h_chksum_0 b <> tx_crc t \/ h_chksum_type b <> JBD2_CRC32_CHKSUM \/ h_chksum_size b <> JBD2_CRC32_CHKSUM_SIZE) /\
   (h_chksum_type b <> 0 \/ h_chksum_size b <> 0 \/ h_chksum_0 b <> 0)).

Definition tx_ok (tid : Z) (t : transaction) : Prop := Forall (entry_ok tid) (tx_entries t) /\ commit_ok tid t.

(** Where the log ends: no block of the log, or one of another transaction. *)
Definition log_end (tid : Z) (b : block) : Prop := h_magic b <> JBD2_MAGIC_NUMBER \/ h_sequence b <> tid.

(** The transactions numbered from [base + k] on. *)
Fixpoint txs_ok (base k : Z) (ts : list transaction) : Prop :=
  match ts with
  | [] => True
  | t :: ts => tx_ok (u32 (base + k)) t /\ txs_ok base (k + 1) ts
  end.

(** ** What is revoked and what is written *)

Definition entry_revokes (k : Z) (e : entry) : list (Z * Z) := match e with Rev b => (fun x => (x, k)) <$> revoke_list b | Desc _ _ => [] end.
Definition entry_writes (e : entry) : list (Z * list Z) := match e with Desc b data => desc_writes b data | Rev _ => [] end.

Fixpoint txs_revokes (k : Z) (ts : list transaction) : list (Z * Z) :=
  match ts with [] => [] | t :: ts => concat (entry_revokes k <$> tx_entries t) ++ txs_revokes (k + 1) ts end.

(** The writes of the transactions from number [k] on, without the blocks that
    [hist] revokes in the same or a later transaction. *)
Definition unrevoked (hist : list (Z * Z)) (k : Z) (w : list (Z * list Z)) : list (Z * list Z) :=
  filter (fun x => revoked_since hist x.1 k = false) w.

Fixpoint txs_writes (hist : list (Z * Z)) (k : Z) (ts : list transaction) : list (Z * list Z) :=
  match ts with
  | [] => []
  | t :: ts => unrevoked hist k (concat (entry_writes <$> tx_entries t)) ++ txs_writes hist (k + 1) ts
  end.

(** Blocks written to a device one after the other. *)
Definition write_block (d : device) (w : Z * list Z) : device :=
  if wr_err d w.1 then d else mk_dev (<[w.1 := w.2]> (blocks d)) (wr_err d) (flush_err d).
Definition write_blocks (d : device) (ws : list (Z * list Z)) : device := foldl write_block d ws.

(** * Turns of the loop *)

Context (G : geometry).

Lemma header_done n off b : 0 <= off -> off + Z.of_nat n <= 64 -> be_get j n off b = Done (be_at n off b).
Proof. intros H1 H2. apply be_get_done; [done|]. destruct G. lia. Qed.

(** A turn that finds a block of the expected transaction. *)
Lemma turn_reads pass p b :
  (is_scan pass = true \/ tid_geq (next_commit_ID p) (end_transaction (rs_info (ps_rs p))) = false) ->
  jread (rs_io (ps_rs p)) j (next_log_block p) = inr b -> h_magic b = JBD2_MAGIC_NUMBER -> h_sequence b = next_commit_ID p ->
  pass_turn j pass p =
    (let p := with_log_block p (wrap j (next_log_block p + 1)) in
     if h_blocktype b =? JBD2_DESCRIPTOR_BLOCK then pass_descriptor j pass p b
     else if h_blocktype b =? JBD2_COMMIT_BLOCK then Done (pass_commit j pass p b (h_commit_sec b))
     else if h_blocktype b =? JBD2_REVOKE_BLOCK then pass_revoke j pass p b
     else Done (Finish p)).
Proof.
  intros Hgo Hr Hm Hs. unfold pass_turn. rewrite Hr, !header_done by lia. cbn [obind]. fold (h_magic b) (h_blocktype b) (h_sequence b) (h_commit_sec b).
  destruct Hgo as [->| ->]; cbn [negb andb]; rewrite ?andb_false_r, Hm, Z.eqb_refl; cbn [negb]; rewrite Hs, Z.eqb_refl; done.
Qed.

(** The pass is over. *)
Lemma turn_stops pass p :
  is_scan pass = false -> tid_geq (next_commit_ID p) (end_transaction (rs_info (ps_rs p))) = true -> pass_turn j pass p = Done (Finish p).
Proof. intros H1 H2. unfold pass_turn. by rewrite H1, H2. Qed.

Lemma turn_log_end p b :
  jread (rs_io (ps_rs p)) j (next_log_block p) = inr b -> log_end (next_commit_ID p) b ->
  pass_turn j PASS_SCAN p = Done (Finish (with_log_block p (wrap j (next_log_block p + 1)))).
Proof.
  intros Hr He. unfold pass_turn. cbn [is_scan negb andb]. rewrite Hr, !header_done by lia. cbn [obind]. fold (h_magic b) (h_sequence b).
  destruct (Z.eqb_spec (h_magic b) JBD2_MAGIC_NUMBER) as [E|E]; [|done]. destruct He as [He|He]; [done|].
  cbn [negb]. cbn [with_log_block next_commit_ID]. destruct (Z.eqb_spec (h_sequence b) (next_commit_ID p)); done.
Qed.

Lemma data_length b data tid :
  Forall2 (fun tagp d => tag_csum_ok b tagp d tid = true) (tags b) data -> length data = length (tags b).
Proof. intros H. by apply Forall2_length in H. Qed.

(** Reading past the data blocks, with or without their checksum. *)
Lemma chksum_blocks_spec i data : forall next crc,
  log_at i next data -> chksum_blocks (length data) i j next crc = (false, adv (length data) next, chk_blocks crc data).
Proof.
  induction data as [|d data IH]; intros next crc H; cbn [chksum_blocks length adv]; [done|]. destruct H as [-> H]. by rewrite IH.
Qed.

Lemma blocktypes_differ :
  (JBD2_COMMIT_BLOCK =? JBD2_DESCRIPTOR_BLOCK) = false /\ (JBD2_REVOKE_BLOCK =? JBD2_DESCRIPTOR_BLOCK) = false /\
  (JBD2_REVOKE_BLOCK =? JBD2_COMMIT_BLOCK) = false.
Proof. done. Qed.

(** [n] turns of the loop lead from [p] to [p']. *)
Definition turns (pass : passtype) (n : nat) (p p' : pass_state) : Prop :=
  forall fuel, pass_loop (n + fuel) j pass p = pass_loop fuel j pass p'.

Lemma turns_one pass p p' : pass_turn j pass p = Done (Again p') -> turns pass 1 p p'.
Proof. intros H fuel. cbn [pass_loop plus]. by rewrite H. Qed.

Lemma turns_trans pass n m p p' p'' : turns pass n p p' -> turns pass m p' p'' -> turns pass (n + m) p p''.
Proof. intros H1 H2 fuel. by rewrite <- Nat.add_assoc, H1, H2. Qed.

Lemma turns_finish pass n p p' q :
  turns pass n p p' -> pass_turn j pass p' = Done (Finish q) ->
  forall fuel, (n < fuel)%nat -> pass_loop fuel j pass p = Done (EndDone q).
Proof.
  intros H1 H2 fuel Hf. replace fuel with (n + S (fuel - n - 1))%nat by lia. rewrite H1. cbn [pass_loop]. by rewrite H2.
Qed.

(** ** The first pass *)

Definition scan_crc (crc : Z) (e : entry) : Z := if jbd2_has_feature_checksum j then entry_crc crc e else crc.

Lemma scan_entry rs tid pos crc lt e :
  end_transaction (rs_info rs) = 0 -> in_log pos -> entry_ok tid e -> log_at (rs_io rs) pos (entry_blocks e) ->
  pass_turn j PASS_SCAN (mk_ps rs tid pos crc false lt 0 false) =
    Done (Again (mk_ps rs tid (adv (length (entry_blocks e)) pos) (scan_crc crc e) false lt 0 false)).
Proof.
  intros He Hp Hok Hlog. assert (Hbs : 0 <= j_blocksize j) by (destruct G; lia).
  destruct e as [b data|b]; destruct Hok as ((Hm & Ht & Hs) & Hcs & Hok); destruct Hlog as [Hr Hlog];
    rewrite (turn_reads _ _ b) by (auto || (by left)); cbn zeta; rewrite Ht; cbn [Z.eqb Pos.eqb JBD2_DESCRIPTOR_BLOCK JBD2_COMMIT_BLOCK JBD2_REVOKE_BLOCK];
    cbn [with_log_block ps_rs next_commit_ID next_log_block crc32_sum need_check_commit_time last_trans_commit_time success block_error].
  - destruct Hok as [Hn Hd]. pose proof (data_length _ _ _ Hd) as Hl. unfold pass_descriptor. rewrite Hcs, !andb_false_r. ps_simpl. rewrite He. cbn [Z.eqb]. unfold scan_crc. cbn [entry_crc length entry_blocks adv].
    destruct (jbd2_has_feature_checksum j); cbn [andb].
    + unfold calc_chksums. rewrite count_tags_spec by done. cbn [obind]. rewrite <- Hl, Nat2Z.id, chksum_blocks_spec by done. done.
    + unfold skip_tags. rewrite count_tags_spec by done. cbn [obind next_log_block]. rewrite <- Hl in *.
      rewrite (adv_wrap (length data)) by (done || apply wrap_in_log; (done || destruct G; lia)). done.
  - unfold pass_revoke. rewrite Hcs. cbn [is_scan is_revoke negb andb]. unfold scan_crc. cbn [entry_crc]. by destruct (jbd2_has_feature_checksum j).
Qed.

Definition no_crc_yet : Z := 2 ^ 32 - 1.

Lemma scan_commit rs tid pos lt t :
  end_transaction (rs_info rs) = 0 -> commit_ok tid t -> jread (rs_io rs) j pos = inr (tx_commit t) ->
  let crc := if jbd2_has_feature_checksum j then tx_crc t else no_crc_yet in
  pass_turn j PASS_SCAN (mk_ps rs tid pos crc false lt 0 false) =
    Done (Again (mk_ps rs (u32 (tid + 1)) (wrap j (pos + 1)) no_crc_yet false (h_commit_sec (tx_commit t)) 0 false)).
Proof.
  intros He ((Hm & Ht & Hs) & Hcs & Hv1) Hr crc. rewrite (turn_reads _ _ (tx_commit t)) by (auto || (by left)). cbn zeta.
  rewrite Ht. cbn [Z.eqb Pos.eqb JBD2_DESCRIPTOR_BLOCK JBD2_COMMIT_BLOCK JBD2_REVOKE_BLOCK]. f_equal. unfold pass_commit.
  cbn [with_log_block need_check_commit_time is_scan andb ps_rs crc32_sum]. rewrite He, Hcs. cbn [Z.eqb negb].
  unfold crc. destruct (jbd2_has_feature_checksum j) eqn:Ef; [|done].
  assert (v1_chksum_ok (mk_ps rs tid (wrap j (pos + 1)) (tx_crc t) false lt 0 false) (tx_commit t) = true) as Hv.
  { unfold v1_chksum_ok. cbn [crc32_sum]. destruct (Hv1 eq_refl) as [(-> & -> & ->)|(-> & -> & ->)].
    - by rewrite !Z.eqb_refl.
    - rewrite !Z.eqb_refl. by rewrite orb_true_r. }
  ps_simpl. rewrite Hv. done.
Qed.

Lemma scan_bad_commit rs tid pos lt t :
  end_transaction (rs_info rs) = 0 -> jbd2_has_feature_async_commit j = false -> commit_bad tid t -> jread (rs_io rs) j pos = inr (tx_commit t) ->
  let crc := if jbd2_has_feature_checksum j then tx_crc t else no_crc_yet in
  exists crc',
    pass_turn j PASS_SCAN (mk_ps rs tid pos crc false lt 0 false) =
      Done (if h_commit_sec (tx_commit t) <? lt then Finish (mk_ps rs tid (wrap j (pos + 1)) crc' false lt 0 false)
            else Again (mk_ps (set_failed_commit (set_info rs (set_end (rs_info rs) tid)) tid) tid (wrap j (pos + 1)) crc' false lt 0 false)).
Proof.
  intros He Ha ((Hm & Ht & Hs) & Hbad) Hr crc. rewrite (turn_reads _ _ (tx_commit t)) by (auto || (by left)). cbn zeta.
  rewrite Ht. cbn [Z.eqb Pos.eqb JBD2_DESCRIPTOR_BLOCK JBD2_COMMIT_BLOCK JBD2_REVOKE_BLOCK]. unfold pass_commit, commit_chksum_error. rewrite Ha. ps_simpl. rewrite He. cbn [Z.eqb negb].
  destruct (jbd2_has_feature_checksum j) eqn:Ef; subst crc.
  - destruct (v1_chksum_ok _ _) eqn:Hv; cbn [negb].
    + assert (jbd2_commit_block_csum_verify j (tx_commit t) = false) as ->.
      { destruct Hbad as [Hb|(_ & H1 & H2)]; [done|]. unfold v1_chksum_ok in Hv. cbn [crc32_sum] in Hv.
        rewrite orb_true_iff, !andb_true_iff, !Z.eqb_eq in Hv. lia. }
      cbn [negb]. eexists. by destruct (h_commit_sec (tx_commit t) <? lt).
    + eexists. by destruct (h_commit_sec (tx_commit t) <? lt).
  - destruct Hbad as [Hb|(Hc & _)]; [rewrite Hb|done]. cbn [negb]. eexists. by destruct (h_commit_sec (tx_commit t) <? lt).
Qed.

Lemma scan_entries rs tid lt es : forall pos crc,
  end_transaction (rs_info rs) = 0 -> in_log pos -> Forall (entry_ok tid) es -> log_at (rs_io rs) pos (entries_blocks es) ->
  turns PASS_SCAN (length es) (mk_ps rs tid pos crc false lt 0 false)
    (mk_ps rs tid (adv (length (entries_blocks es)) pos) (if jbd2_has_feature_checksum j then fold_left entry_crc es crc else crc) false lt 0 false).
Proof.
  induction es as [|e es IH]; intros pos crc He Hp Hok Hlog.
  - cbn [length entries_blocks concat fmap list_fmap adv fold_left]. destruct (jbd2_has_feature_checksum j); by intros fuel.
  - apply Forall_cons in Hok as [Hok Hoks]. unfold entries_blocks in *. rewrite fmap_cons in *. cbn [concat] in *.
    apply log_at_app in Hlog as [Hl1 Hl2]. cbn [length fold_left]. change (S (length es)) with (1 + length es)%nat.
    eapply turns_trans; [apply turns_one, scan_entry; done|]. rewrite length_app, adv_add.
    replace (if jbd2_has_feature_checksum j then fold_left entry_crc es (entry_crc crc e) else crc)
      with (if jbd2_has_feature_checksum j then fold_left entry_crc es (scan_crc crc e) else scan_crc crc e)
      by (unfold scan_crc; by destruct (jbd2_has_feature_checksum j)).
    apply IH; [done|by apply adv_in_log|done|done].
Qed.

Lemma u32_succ base k : u32 (u32 (base + k) + 1) = u32 (base + (k + 1)).
Proof. unfold u32. rewrite Zplus_mod_idemp_l. f_equal. lia. Qed.

Lemma length_tx_blocks t : length (tx_blocks t) = (length (entries_blocks (tx_entries t)) + 1)%nat.
Proof. unfold tx_blocks. rewrite length_app. done. Qed.

(** The turns a transaction takes. *)
Definition tx_turns (t : transaction) : nat := length (tx_entries t) + 1.
Fixpoint txs_turns (ts : list transaction) : nat := match ts with [] => 0 | t :: ts => tx_turns t + txs_turns ts end.

(** The commit time of the last transaction. *)
Definition last_time (lt : Z) (ts : list transaction) : Z := foldl (fun _ t => h_commit_sec (tx_commit t)) lt ts.

Lemma scan_txs rs base ts : forall k pos lt,
  end_transaction (rs_info rs) = 0 -> in_log pos -> txs_ok base k ts -> log_at (rs_io rs) pos (txs_blocks ts) ->
  turns PASS_SCAN (txs_turns ts) (mk_ps rs (u32 (base + k)) pos no_crc_yet false lt 0 false)
    (mk_ps rs (u32 (base + (k + Z.of_nat (length ts)))) (adv (length (txs_blocks ts)) pos) no_crc_yet false (last_time lt ts) 0 false).
Proof.
  induction ts as [|t ts IH]; intros k pos lt He Hp Hok Hlog.
  - cbn [length txs_blocks concat fmap list_fmap adv]. rewrite Z.add_0_r. by intros fuel.
  - destruct Hok as [[Hes Hc] Hok]. unfold txs_blocks in *. rewrite fmap_cons in *. cbn [concat] in *. apply log_at_app in Hlog as [Hl1 Hl2].
    unfold tx_blocks in Hl1. apply log_at_app in Hl1 as [Hl0 [Hl1 _]].
    set (pos1 := adv (length (entries_blocks (tx_entries t))) pos) in *. rewrite length_tx_blocks, adv_add in Hl2. fold pos1 in Hl2. cbn [adv] in Hl2.
    pose proof (IH (k + 1) (wrap j (pos1 + 1)) (h_commit_sec (tx_commit t)) He) as Hrun. specialize (Hrun ltac:(apply wrap_in_log; [done|by apply adv_in_log|destruct G; lia]) Hok Hl2).
    cbn [txs_turns]. eapply turns_trans; [|].
    + unfold tx_turns. eapply turns_trans; [by apply scan_entries|]. apply turns_one. apply (scan_commit rs (u32 (base + k)) pos1 lt t); done.
    + rewrite u32_succ. rewrite length_app, length_tx_blocks, !adv_add. fold pos1. cbn [adv length].
      replace (k + Z.of_nat (S (length ts))) with (k + 1 + Z.of_nat (length ts)) by lia. done.
Qed.

(** ** The second pass *)

(** The state while revokes are collected; [n] transactions are complete. *)
Record collecting (base n : Z) (i : io) (hist : list (Z * Z)) (rs : recovery_state) : Prop := {
  co_wf : table_wf (rs_revoke rs);
  co_hist : revoked_in base hist (rs_revoke rs);
  co_range : forall b k, (b, k) ∈ hist -> 0 <= k < 2 ^ 31;
  co_mem : forall a, oom (rs_al rs) a = false;
  co_io : rs_io rs = i;
  co_end : end_transaction (rs_info rs) = u32 (base + n)
}.

Lemma record_len_range : 4 <= record_len j <= 8.
Proof. unfold record_len. destruct (jbd2_has_feature_64bit j); lia. Qed.

Lemma record_done offset b :
  0 <= offset -> offset + record_len j <= j_blocksize j ->
  (if record_len j =? 4 then be_get j 4 offset b else be_get j 8 offset b) = Done (if record_len j =? 4 then be_at 4 offset b else be_at 8 offset b).
Proof. intros H1 H2. unfold record_len in *. destruct (jbd2_has_feature_64bit j); cbn [Z.eqb Pos.eqb]; by rewrite be_get_done by lia. Qed.

Lemma scan_revoke_loop_spec base n i b k max fuel : forall rs hist offset,
  collecting base n i hist rs -> 0 <= k < 2 ^ 31 -> 0 <= offset -> max <= j_blocksize j -> (0 < fuel)%nat -> max - offset < Z.of_nat fuel ->
  exists rs', scan_revoke_loop fuel j rs b (u32 (base + k)) offset max (record_len j) = Done (0, rs') /\
    collecting base n i (hist ++ ((fun x => (x, k)) <$> revoke_from fuel b offset max)) rs'.
Proof.
  pose proof record_len_range as Hrl. induction fuel as [|fuel IH]; intros rs hist offset C Hk Ho Hmx H0 Hf; [lia|].
  cbn [scan_revoke_loop revoke_from]. destruct (Z.leb_spec (offset + record_len j) max) as [Hle|Hgt].
  - rewrite record_done by lia. cbn [obind]. set (blk := if record_len j =? 4 then be_at 4 offset b else be_at 8 offset b). pose proof C as [W Hh Hr Hm Hio He].
    destruct (set_revoke_spec (rs_al rs) (rs_revoke rs) blk (u32 (base + k)) W Hm) as (al' & t' & -> & W' & Hm' & _ & Hrec). cbn [obind Z.eqb negb].
    destruct (IH (set_info (set_revoke rs al' t') (count_revoke (rs_info (set_revoke rs al' t')))) (hist ++ [(blk, k)]) (offset + record_len j)) as (rs' & E & C'); [|done|lia|done|lia|lia|].
    + constructor; ps_simpl; try done.
      * by apply (revoked_in_snoc base hist (rs_revoke rs) t' blk k).
      * intros c k' Hin. apply elem_of_app in Hin as [Hin|Hin]; [by apply (Hr c)|]. apply list_elem_of_singleton in Hin. by injection Hin as -> ->.
    + exists rs'. split; [exact E|]. rewrite fmap_cons. by rewrite <- app_assoc in C'.
  - exists rs. split; [done|]. cbn [fmap list_fmap]. by rewrite app_nil_r.
Qed.

Lemma not_over base n k : 0 <= k < n -> n < 2 ^ 31 -> tid_geq (u32 (base + k)) (u32 (base + n)) = false.
Proof. intros Hk Hn. destruct (tid_cmp base k n) as [_ ->]; [lia|lia|]. destruct (Z.leb_spec n k); [lia|done]. Qed.

Lemma over base n : 0 <= n < 2 ^ 31 -> tid_geq (u32 (base + n)) (u32 (base + n)) = true.
Proof. intros Hn. destruct (tid_cmp base n n) as [_ ->]; [lia|lia|]. apply Z.leb_refl. Qed.

Lemma revoke_entry base n i hist rs k pos crc lt e :
  collecting base n i hist rs -> 0 <= k < n -> n < 2 ^ 31 -> in_log pos ->
  entry_ok (u32 (base + k)) e -> log_at i pos (entry_blocks e) ->
  exists rs', pass_turn j PASS_REVOKE (mk_ps rs (u32 (base + k)) pos crc false lt 0 false) =
      Done (Again (mk_ps rs' (u32 (base + k)) (adv (length (entry_blocks e)) pos) crc false lt 0 false)) /\
    collecting base n i (hist ++ entry_revokes k e) rs'.
Proof.
  intros C Hk Hn Hp Hok Hlog. assert (Hbs : 0 <= j_blocksize j) by (destruct G; lia). pose proof C as [W Hh Hr Hm Hio He].
  assert (Hgo : is_scan PASS_REVOKE = true \/ tid_geq (u32 (base + k)) (end_transaction (rs_info rs)) = false) by (right; rewrite He; by apply not_over).
  destruct e as [b data|b]; destruct Hok as ((Hma & Ht & Hs) & Hcs & Hok); destruct Hlog as [Hrd Hlog];
    (rewrite (turn_reads _ _ b); [|exact Hgo|ps_simpl; by rewrite Hio|done|done]); cbn zeta; rewrite Ht;
    cbn [Z.eqb Pos.eqb JBD2_DESCRIPTOR_BLOCK JBD2_COMMIT_BLOCK JBD2_REVOKE_BLOCK].
  - destruct Hok as [Hnt Hd]. pose proof (data_length _ _ _ Hd) as Hl. exists rs. cbn [entry_revokes]. rewrite app_nil_r. split; [|done].
    unfold pass_descriptor. rewrite Hcs, !andb_false_r. ps_simpl. unfold skip_tags. rewrite count_tags_spec by done. cbn [obind]. ps_simpl.
    cbn [length entry_blocks adv]. rewrite <- Hl in *. rewrite (adv_wrap (length data)) by (done || apply wrap_in_log; (done || destruct G; lia)). done.
  - unfold pass_revoke. ps_simpl. unfold scan_revoke_records. rewrite header_done by lia. cbn [obind]. fold (r_count b). pose proof (csum_size_range j).
    destruct (Z.ltb_spec (j_blocksize j - csum_size j) (r_count b)); [lia|].
    destruct (scan_revoke_loop_spec base n i b k (r_count b) (S (Z.to_nat (r_count b))) rs hist sizeof_revoke_header C) as (rs' & -> & C');
      [lia|done|lia|lia|unfold sizeof_revoke_header; lia|].
    cbn [obind Z.eqb negb]. exists rs'. split; [done|exact C'].
Qed.

Lemma turn_commit pass rs tid pos crc lt t :
  is_scan pass = false -> tid_geq tid (end_transaction (rs_info rs)) = false -> commit_ok tid t -> jread (rs_io rs) j pos = inr (tx_commit t) ->
  pass_turn j pass (mk_ps rs tid pos crc false lt 0 false) = Done (Again (mk_ps rs (u32 (tid + 1)) (wrap j (pos + 1)) crc false lt 0 false)).
Proof.
  intros Hp Hgo ((Hm & Ht & Hs) & _) Hr. rewrite (turn_reads _ _ (tx_commit t)) by (auto || (by right)). cbn zeta.
  rewrite Ht. cbn [Z.eqb Pos.eqb JBD2_DESCRIPTOR_BLOCK JBD2_COMMIT_BLOCK JBD2_REVOKE_BLOCK]. unfold pass_commit, next_transaction. ps_simpl.
  by rewrite Hp.
Qed.

Lemma revoke_entries base n i k crc lt es : forall hist rs pos,
  collecting base n i hist rs -> 0 <= k < n -> n < 2 ^ 31 -> in_log pos ->
  Forall (entry_ok (u32 (base + k))) es -> log_at i pos (entries_blocks es) ->
  exists rs', turns PASS_REVOKE (length es) (mk_ps rs (u32 (base + k)) pos crc false lt 0 false)
      (mk_ps rs' (u32 (base + k)) (adv (length (entries_blocks es)) pos) crc false lt 0 false) /\
    collecting base n i (hist ++ concat (entry_revokes k <$> es)) rs'.
Proof.
  induction es as [|e es IH]; intros hist rs pos C Hk Hn Hp Hok Hlog.
  - exists rs. cbn [fmap list_fmap concat]. rewrite app_nil_r. split; [|done]. by intros fuel.
  - apply Forall_cons in Hok as [Hok Hoks]. unfold entries_blocks in *. rewrite !fmap_cons in *. cbn [concat] in *.
    apply log_at_app in Hlog as [Hl1 Hl2]. destruct (revoke_entry base n i hist rs k pos crc lt e) as (rs1 & E1 & C1); try done.
    destruct (IH _ rs1 (adv (length (entry_blocks e)) pos) C1) as (rs2 & E2 & C2); try done; [by apply adv_in_log|].
    exists rs2. rewrite app_assoc. split; [|done]. cbn [length]. change (S (length es)) with (1 + length es)%nat.
    eapply turns_trans; [by apply turns_one|]. by rewrite length_app, adv_add.
Qed.

Lemma revoke_txs base n i crc lt ts : forall k hist rs pos,
  collecting base n i hist rs -> 0 <= k -> n = k + Z.of_nat (length ts) -> n < 2 ^ 31 -> in_log pos ->
  txs_ok base k ts -> log_at i pos (txs_blocks ts) ->
  exists rs' pos', turns PASS_REVOKE (txs_turns ts) (mk_ps rs (u32 (base + k)) pos crc false lt 0 false)
      (mk_ps rs' (u32 (base + n)) pos' crc false lt 0 false) /\
    collecting base n i (hist ++ txs_revokes k ts) rs'.
Proof.
  induction ts as [|t ts IH]; intros k hist rs pos C Hk Hn Hn31 Hp Hok Hlog.
  - exists rs, pos. cbn [txs_revokes]. rewrite app_nil_r. split; [|done]. cbn [length] in Hn. replace n with k by lia. by intros fuel.
  - destruct Hok as [[Hes Hc] Hok]. unfold txs_blocks in *. rewrite fmap_cons in *. cbn [concat] in *. apply log_at_app in Hlog as [Hl1 Hl2].
    unfold tx_blocks in Hl1. apply log_at_app in Hl1 as [Hl0 [Hl1 _]]. cbn [length] in Hn.
    set (pos1 := adv (length (entries_blocks (tx_entries t))) pos) in *. rewrite length_tx_blocks, adv_add in Hl2. fold pos1 in Hl2. cbn [adv] in Hl2.
    destruct (revoke_entries base n i k crc lt (tx_entries t) hist rs pos C) as (rs1 & E1 & C1); try done; [lia|].
    destruct (IH (k + 1) _ rs1 (wrap j (pos1 + 1)) C1) as (rs2 & pos2 & E2 & C2); try done; [lia|lia|apply wrap_in_log; [done|by apply adv_in_log|destruct G; lia]|].
    exists rs2, pos2. cbn [txs_revokes]. rewrite app_assoc. split; [|done]. cbn [txs_turns]. eapply turns_trans; [|exact E2]. unfold tx_turns.
    eapply turns_trans; [exact E1|]. rewrite <- u32_succ. apply turns_one, (turn_commit PASS_REVOKE rs1 _ pos1 crc lt t); [done| |done|].
    + rewrite (co_end _ _ _ _ _ C1). apply not_over; lia.
    + by rewrite (co_io _ _ _ _ _ C1).
Qed.

(** ** The third pass *)

(** A block of the file system that is not a block of the journal. *)
Definition outside_journal (i : io) (blk : Z) : Prop :=
  same i = true -> forall o pb, 0 <= o < j_total_len j -> j_bmap j o = inr pb -> pb <> blk.

(** The state while blocks are written back; [d] is the device so far. *)
Record replaying (base n : Z) (i : io) (hist : list (Z * Z)) (d : device) (rs : recovery_state) : Prop := {
  re_wf : table_wf (rs_revoke rs);
  re_hist : revoked_in base hist (rs_revoke rs);
  re_range : forall b k, (b, k) ∈ hist -> 0 <= k < 2 ^ 31;
  re_same : same (rs_io rs) = same i;
  re_reads : forall o, jread (rs_io rs) j o = jread i j o;
  re_fs : fs_io (rs_io rs) = d;
  re_end : end_transaction (rs_info rs) = u32 (base + n)
}.

Lemma jread_write i blk data o :
  outside_journal i blk -> jread (set_dev i K_DEV_FS (mk_dev (<[blk := data]> (blocks (fs_io i))) (wr_err (fs_io i)) (flush_err (fs_io i)))) j o = jread i j o.
Proof.
  intros Hout. unfold jread. pose proof (u32_range o) as Ho. unfold is_u32 in Ho. destruct (Z.leb_spec (j_total_len j) (u32 o)); [done|].
  destruct (j_bmap j (u32 o)) as [e|pb] eqn:Eb; [done|]. unfold wait_on_buffer, getblk. cbn [b_uptodate negb]. unfold ll_read_block. cbn [b_uptodate b_dev b_blocknr].
  unfold set_dev, get_dev. cbn [same fs_io journal_io]. destruct (same i) eqn:Es; [|done]. cbn [blocks].
  rewrite lookup_insert_ne; [done|]. intros E. apply (Hout Es (u32 o) pb); [lia|done|by symmetry].
Qed.

Lemma replay_block_spec base n i hist d rs k pos crc lt b tagp obh :
  replaying base n i hist d rs -> 0 <= k < 2 ^ 31 -> h_sequence b = u32 (base + k) -> tag_fits tagp ->
  tag_csum_ok b tagp obh (u32 (base + k)) = true -> outside_journal i (tag_block b tagp) ->
  exists rs', replay_block j (mk_ps rs (u32 (base + k)) pos crc false lt 0 false) b tagp (t_flags b tagp) obh =
      Done (mk_ps rs' (u32 (base + k)) pos crc false lt 0 false) /\
    replaying base n i hist (write_blocks d (unrevoked hist k [(tag_block b tagp, restored b tagp obh)])) rs'.
Proof.
  intros R Hk Hseq Hfit Hcs Hout. pose proof R as [W Hh Hr Hsm Hrd Hfs He]. set (blk := tag_block b tagp) in *.
  unfold replay_block. ps_simpl. rewrite read_tag_block_done by done. cbn [obind]. fold blk. rewrite (revoked_test base hist _ blk k W Hh Hr Hk). cbn [obind]. unfold unrevoked, write_blocks.
  rewrite filter_cons, filter_nil. cbn [fst]. destruct (revoked_since hist blk k) eqn:Erev.
  - rewrite decide_False by done. cbn [foldl]. eexists. split; [reflexivity|]. by constructor.
  - rewrite decide_True by done. rewrite header_done by lia. cbn [obind]. fold (h_sequence b). rewrite tag_csum_verify_done, Hseq, Hcs by done. cbn [obind negb foldl]. eexists. split; [reflexivity|].
    set (nbh := mark_buffer_dirty _).
    assert (Hnb : b_dev nbh = K_DEV_FS /\ b_blocknr nbh = blk /\ b_data nbh = restored b tagp obh /\ b_dirty nbh = true).
    { unfold nbh, restored. by destruct (flag_set (t_flags b tagp) JBD2_FLAG_ESCAPE). }
    destruct Hnb as (H1 & H2 & H3 & H4).
    assert (Hbr : brelse (rs_io rs) nbh = set_dev (rs_io rs) K_DEV_FS (write_block d (blk, restored b tagp obh)) /\
      forall o, jread (brelse (rs_io rs) nbh) j o = jread i j o).
    { unfold brelse, ll_write_block, write_block. rewrite H4, H1, H2, H3. cbn [get_dev fst snd]. rewrite Hfs. destruct (wr_err d blk) eqn:Ew; cbn [fst].
      - split; [|done]. destruct (rs_io rs) as [fi ji sm]. cbn [fs_io] in Hfs. by rewrite <- Hfs.
      - split; [done|]. intros o. rewrite <- Hfs, jread_write; [apply Hrd|]. unfold outside_journal. rewrite Hsm. exact Hout. }
    destruct Hbr as [Hbr Hrd']. constructor; ps_simpl; try done; rewrite Hbr; done.
Qed.

Lemma write_blocks_app d w1 w2 : write_blocks d (w1 ++ w2) = write_blocks (write_blocks d w1) w2.
Proof. apply foldl_app. Qed.

Lemma flush_err_write_blocks d ws : flush_err (write_blocks d ws) = flush_err d.
Proof.
  unfold write_blocks. revert d. induction ws as [|w ws IH]; intros d; cbn [foldl]; [done|]. rewrite IH. unfold write_block.
  by destruct (wr_err d w.1).
Qed.

Lemma unrevoked_app hist k w1 w2 : unrevoked hist k (w1 ++ w2) = unrevoked hist k w1 ++ unrevoked hist k w2.
Proof. apply filter_app. Qed.

Lemma replay_tags_spec base n i hist k crc lt b fuel : forall d rs pos tagp data,
  replaying base n i hist d rs -> 0 <= k < 2 ^ 31 -> h_sequence b = u32 (base + k) ->
  0 <= tagp -> (0 < fuel)%nat -> j_blocksize j - tagp < Z.of_nat fuel ->
  Forall2 (fun tagp d => tag_csum_ok b tagp d (u32 (base + k)) = true) (tags_from fuel b tagp) data ->
  Forall (fun tagp => outside_journal i (tag_block b tagp)) (tags_from fuel b tagp) -> log_at i pos data ->
  exists rs', replay_tags fuel j (mk_ps rs (u32 (base + k)) pos crc false lt 0 false) b tagp =
      Done (mk_ps rs' (u32 (base + k)) (adv (length data) pos) crc false lt 0 false) /\
    replaying base n i hist
      (write_blocks d (unrevoked hist k (zip_with (fun tagp d => (tag_block b tagp, restored b tagp d)) (tags_from fuel b tagp) data))) rs'.
Proof.
  induction fuel as [|fuel IH]; intros d rs pos tagp data R Hk Hseq Ht H0 Hf Hcs Hout Hlog; [lia|]. cbn [replay_tags tags_from] in *.
  pose proof (csum_size_range j). pose proof (tag_bytes_range j). pose proof (next_tag_ge tagp (t_flags b tagp)).
  destruct (Z.leb_spec (tagp + journal_tag_bytes j) (j_blocksize j - csum_size j)) as [Hle|Hgt].
  - destruct data as [|d0 data]; [by inversion Hcs|]. apply Forall2_cons in Hcs as [Hcs0 Hcs]. apply Forall_cons in Hout as [Hout0 Hout]. destruct Hlog as [Hr Hlog].
    rewrite get_flags_done by (split; lia). cbn [obind]. ps_simpl. rewrite (re_reads _ _ _ _ _ _ R), Hr.
    destruct (replay_block_spec base n i hist d rs k (wrap j (pos + 1)) crc lt b tagp d0 R Hk Hseq ltac:(split; lia) Hcs0 Hout0) as (rs1 & -> & R1). cbn [obind].
    cbn [zip_with length adv]. destruct (flag_set (t_flags b tagp) JBD2_FLAG_LAST_TAG).
    + apply Forall2_nil_inv_l in Hcs as ->. exists rs1. split; [done|exact R1].
    + destruct (IH _ rs1 (wrap j (pos + 1)) (next_tag j tagp (t_flags b tagp)) data R1 Hk Hseq) as (rs2 & -> & R2); try done; [lia|lia|lia|].
      exists rs2. split; [done|]. rewrite <- write_blocks_app, <- unrevoked_app in R2. exact R2.
  - apply Forall2_nil_inv_l in Hcs as ->. exists rs. split; [done|exact R].
Qed.

(** The blocks of the entry lie outside of the journal. *)
Definition entry_outside (i : io) (e : entry) : Prop :=
  match e with Desc b _ => Forall (fun tagp => outside_journal i (tag_block b tagp)) (tags b) | Rev _ => True end.

Lemma replay_entry base n i hist d rs k pos crc lt e :
  replaying base n i hist d rs -> 0 <= k < n -> n < 2 ^ 31 -> in_log pos -> entry_outside i e ->
  entry_ok (u32 (base + k)) e -> log_at i pos (entry_blocks e) ->
  exists rs', pass_turn j PASS_REPLAY (mk_ps rs (u32 (base + k)) pos crc false lt 0 false) =
      Done (Again (mk_ps rs' (u32 (base + k)) (adv (length (entry_blocks e)) pos) crc false lt 0 false)) /\
    replaying base n i hist (write_blocks d (unrevoked hist k (entry_writes e))) rs'.
Proof.
  intros R Hk Hn Hp Hout Hok Hlog. assert (Hbs : 0 <= j_blocksize j) by (destruct G; lia). pose proof R as [W Hh Hr Hsm Hrd Hfs He].
  assert (Hgo : is_scan PASS_REPLAY = true \/ tid_geq (u32 (base + k)) (end_transaction (rs_info rs)) = false) by (right; rewrite He; by apply not_over).
  destruct e as [b data|b]; destruct Hok as ((Hma & Ht & Hs) & Hcs & Hok); destruct Hlog as [Hrd0 Hlog];
    (rewrite (turn_reads _ _ b); [|exact Hgo|ps_simpl; by rewrite Hrd|done|done]); cbn zeta; rewrite Ht;
    cbn [Z.eqb Pos.eqb JBD2_DESCRIPTOR_BLOCK JBD2_COMMIT_BLOCK JBD2_REVOKE_BLOCK].
  - destruct Hok as [Hnt Hd]. unfold pass_descriptor. rewrite Hcs, !andb_false_r. ps_simpl.
    destruct (replay_tags_spec base n i hist k crc lt b (tag_fuel j) d rs (wrap j (pos + 1)) sizeof_journal_header data R) as (rs' & -> & R');
      try done; [lia|unfold tag_fuel; lia|unfold tag_fuel, sizeof_journal_header; lia|].
    cbn [obind]. exists rs'. split; [done|exact R'].
  - unfold pass_revoke. ps_simpl. exists rs. split; [done|exact R].
Qed.

Lemma replay_entries base n i hist k crc lt es : forall d rs pos,
  replaying base n i hist d rs -> 0 <= k < n -> n < 2 ^ 31 -> in_log pos -> Forall (entry_outside i) es ->
  Forall (entry_ok (u32 (base + k))) es -> log_at i pos (entries_blocks es) ->
  exists rs', turns PASS_REPLAY (length es) (mk_ps rs (u32 (base + k)) pos crc false lt 0 false)
      (mk_ps rs' (u32 (base + k)) (adv (length (entries_blocks es)) pos) crc false lt 0 false) /\
    replaying base n i hist (write_blocks d (unrevoked hist k (concat (entry_writes <$> es)))) rs'.
Proof.
  induction es as [|e es IH]; intros d rs pos R Hk Hn Hp Hout Hok Hlog.
  - exists rs. split; [|done]. by intros fuel.
  - apply Forall_cons in Hok as [Hok Hoks]. apply Forall_cons in Hout as [Hout Houts]. unfold entries_blocks in *. rewrite !fmap_cons in *. cbn [concat] in *.
    apply log_at_app in Hlog as [Hl1 Hl2]. destruct (replay_entry base n i hist d rs k pos crc lt e) as (rs1 & E1 & R1); try done.
    destruct (IH _ rs1 (adv (length (entry_blocks e)) pos) R1) as (rs2 & E2 & R2); try done; [by apply adv_in_log|].
    exists rs2. rewrite unrevoked_app, write_blocks_app. split; [|done]. cbn [length]. change (S (length es)) with (1 + length es)%nat.
    eapply turns_trans; [by apply turns_one|]. by rewrite length_app, adv_add.
Qed.

Lemma replay_txs base n i hist crc lt ts : forall k d rs pos,
  replaying base n i hist d rs -> 0 <= k -> n = k + Z.of_nat (length ts) -> n < 2 ^ 31 -> in_log pos ->
  Forall (fun t => Forall (entry_outside i) (tx_entries t)) ts -> txs_ok base k ts -> log_at i pos (txs_blocks ts) ->
  exists rs' pos', turns PASS_REPLAY (txs_turns ts) (mk_ps rs (u32 (base + k)) pos crc false lt 0 false)
      (mk_ps rs' (u32 (base + n)) pos' crc false lt 0 false) /\
    replaying base n i hist (write_blocks d (txs_writes hist k ts)) rs'.
Proof.
  induction ts as [|t ts IH]; intros k d rs pos R Hk Hn Hn31 Hp Hout Hok Hlog.
  - exists rs, pos. split; [|done]. cbn [length] in Hn. replace n with k by lia. by intros fuel.
  - destruct Hok as [[Hes Hc] Hok]. apply Forall_cons in Hout as [Hout Houts]. unfold txs_blocks in *. rewrite fmap_cons in *. cbn [concat] in *.
    apply log_at_app in Hlog as [Hl1 Hl2]. unfold tx_blocks in Hl1. apply log_at_app in Hl1 as [Hl0 [Hl1 _]]. cbn [length] in Hn.
    set (pos1 := adv (length (entries_blocks (tx_entries t))) pos) in *. rewrite length_tx_blocks, adv_add in Hl2. fold pos1 in Hl2. cbn [adv] in Hl2.
    destruct (replay_entries base n i hist k crc lt (tx_entries t) d rs pos R) as (rs1 & E1 & R1); try done; [lia|].
    destruct (IH (k + 1) _ rs1 (wrap j (pos1 + 1)) R1) as (rs2 & pos2 & E2 & R2); try done; [lia|lia|apply wrap_in_log; [done|by apply adv_in_log|destruct G; lia]|].
    exists rs2, pos2. cbn [txs_writes]. rewrite write_blocks_app. split; [|done]. cbn [txs_turns]. eapply turns_trans; [|exact E2]. unfold tx_turns.
    eapply turns_trans; [exact E1|]. rewrite <- u32_succ. apply turns_one, (turn_commit PASS_REPLAY rs1 _ pos1 crc lt t); [done| |done|].
    + rewrite (re_end _ _ _ _ _ _ R1). apply not_over; lia.
    + by rewrite (re_reads _ _ _ _ _ _ R1).
Qed.

(** ** The whole recovery *)

(** A log: complete transactions, the entries of one that was not committed or
    whose commit block has a wrong checksum, and a block at which the log ends. *)
Record log := mk_log { l_txs : list transaction; l_open : list entry; l_bad : option (list Z); l_end : list Z }.

Definition log_blocks (l : log) : list (list Z) := txs_blocks (l_txs l) ++ entries_blocks (l_open l) ++ option_list (l_bad l) ++ [l_end l].

Definition log_base : Z := s_sequence (j_superblock j).
Definition log_count (l : log) : Z := Z.of_nat (length (l_txs l)).
Definition log_tid (l : log) : Z := u32 (log_base + log_count l).

Record log_ok (i : io) (l : log) : Prop := {
  lo_start : s_start (j_superblock j) <> 0;
  lo_in : in_log (s_start (j_superblock j));
  lo_seq : is_u32 log_base;
  lo_count : log_count l < 2 ^ 31;
  lo_txs : txs_ok log_base 0 (l_txs l);
  lo_open : Forall (entry_ok (log_tid l)) (l_open l);
  lo_bad : forall cb, l_bad l = Some cb -> jbd2_has_feature_async_commit j = false /\ commit_bad (log_tid l) (mk_tx (l_open l) cb);
  lo_end : log_end (log_tid l) (l_end l);
  lo_log : log_at i (s_start (j_superblock j)) (log_blocks l);
  lo_outside : Forall (fun t => Forall (entry_outside i) (tx_entries t)) (l_txs l)
}.

Definition log_turns (l : log) : nat := txs_turns (l_txs l) + length (l_open l) + 1.

(** The transaction that is reported as failed. *)
Definition log_failed (l : log) (failed : Z) : Z :=
  match l_bad l with
  | Some cb => if h_commit_sec cb <? last_time 0 (l_txs l) then failed else log_tid l
  | None => failed
  end.

(** The revokes of a log and the blocks it is to bring back. *)
Definition log_revokes (l : log) : list (Z * Z) := txs_revokes 0 (l_txs l).
Definition log_writes (l : log) : list (Z * list Z) := txs_writes (log_revokes l) 0 (l_txs l).

Context (fc_replay : option (recovery_state -> list Z -> passtype -> Z -> Z -> Z * recovery_state)).

Definition no_fast_commit : Prop := jbd2_has_feature_fast_commit j = false \/ fc_replay = None.

Lemma pass_done_plain pass p :
  no_fast_commit ->
  pass_done fc_replay j pass p =
    let rs := ps_rs p in
    let e := end_transaction (rs_info rs) in
    let '(rs, success) :=
      if is_scan pass then
        ((if e =? 0 then set_info rs (set_end (rs_info rs) (next_commit_ID p)) else rs), success p)
      else (rs, if negb (e =? next_commit_ID p) then (if success p =? 0 then - EIO else success p) else success p) in
    ((if block_error p && (success =? 0) then - EIO else success), rs).
Proof.
  intros Hf. unfold pass_done. destruct (is_scan pass); cbn zeta beta iota;
    (destruct Hf as [-> | ->]; [|unfold fc_do_one_pass]; cbn [andb]; [done|]);
    by destruct (jbd2_has_feature_fast_commit j && negb (is_revoke pass)).
Qed.

(** How the loop ends behind the last complete transaction. *)
Lemma scan_tail l rs pos lt crc :
  end_transaction (rs_info rs) = 0 ->
  (forall cb, l_bad l = Some cb -> jbd2_has_feature_async_commit j = false /\ commit_bad (log_tid l) (mk_tx (l_open l) cb)) ->
  log_end (log_tid l) (l_end l) -> log_at (rs_io rs) pos (option_list (l_bad l) ++ [l_end l]) ->
  crc = (if jbd2_has_feature_checksum j then tx_crc (mk_tx (l_open l) []) else no_crc_yet) ->
  exists rs' pos' crc',
    (forall fuel, (1 < fuel)%nat -> pass_loop fuel j PASS_SCAN (mk_ps rs (log_tid l) pos crc false lt 0 false) =
      Done (EndDone (mk_ps rs' (log_tid l) pos' crc' false lt 0 false))) /\
    (rs' = rs \/ rs' = set_failed_commit (set_info rs (set_end (rs_info rs) (log_tid l))) (log_tid l)) /\
    j_failed_commit rs' = match l_bad l with Some cb => if h_commit_sec cb <? lt then j_failed_commit rs else log_tid l | None => j_failed_commit rs end.
Proof.
  intros He Hb Hend Hlog Hcrc. destruct (l_bad l) as [cb|]; cbn [option_list app] in Hlog.
  - destruct Hlog as [Hr1 [Hr2 _]]. destruct (Hb cb eq_refl) as [Ha Hbad].
    destruct (scan_bad_commit rs (log_tid l) pos lt (mk_tx (l_open l) cb) He Ha Hbad Hr1) as (crc' & E). change (tx_crc (mk_tx (l_open l) cb)) with (tx_crc (mk_tx (l_open l) [])) in E.
    cbn [tx_commit] in E. rewrite <- Hcrc in E. destruct (h_commit_sec cb <? lt).
    + eexists _, _, _. split; [|split; [by left|done]]. intros [|fuel] Hf; [lia|]. cbn [pass_loop]. rewrite E. reflexivity.
    + eexists _, _, _. split; [|split; [by right|done]]. intros [|[|fuel]] Hf; [lia|lia|]. cbn [pass_loop]. rewrite E. cbn [obind].
      rewrite (turn_log_end (mk_ps (set_failed_commit (set_info rs (set_end (rs_info rs) (log_tid l))) (log_tid l)) (log_tid l) (wrap j (pos + 1)) crc' false lt 0 false) _ Hr2 Hend). reflexivity.
  - destruct Hlog as [Hr _]. eexists _, _, _. split; [|split; [by left|done]]. intros [|fuel] Hf; [lia|]. cbn [pass_loop].
    rewrite (turn_log_end (mk_ps rs (log_tid l) pos crc false lt 0 false) _ Hr Hend). reflexivity.
Qed.

Lemma scan_pass i l rs fuel :
  no_fast_commit -> log_ok i l -> rs_io rs = i -> end_transaction (rs_info rs) = 0 -> (log_turns l < fuel)%nat ->
  exists rs', do_one_pass fc_replay fuel j rs PASS_SCAN = Done (0, rs') /\ end_transaction (rs_info rs') = log_tid l /\
    rs_io rs' = i /\ rs_al rs' = rs_al rs /\ rs_revoke rs' = rs_revoke rs /\ j_failed_commit rs' = log_failed l (j_failed_commit rs).
Proof.
  intros Hfc [Hst Hin Hsq Hc Hok Hop Hbad He Hlog _] Hio Hend Hf. unfold do_one_pass, pass_start. cbn [is_scan]. fold log_base.
  set (rs0 := set_info rs _). assert (He0 : end_transaction (rs_info rs0) = 0) by done.
  rewrite <- Hio in Hlog. change (rs_io rs) with (rs_io rs0) in Hlog. unfold log_blocks in Hlog. apply log_at_app in Hlog as [Hl1 Hl2]. apply log_at_app in Hl2 as [Hl2 Hl3].
  pose proof (scan_txs rs0 log_base (l_txs l) 0 (s_start (j_superblock j)) 0 He0 Hin Hok Hl1) as T1.
  rewrite Z.add_0_r, u32_small in T1 by done. rewrite Z.add_0_l in T1. fold (log_count l) in T1. fold (log_tid l) in T1.
  pose proof (scan_entries rs0 (log_tid l) (last_time 0 (l_txs l)) (l_open l) _ no_crc_yet He0 (adv_in_log _ _ G Hin) Hop Hl2) as T2.
  edestruct (scan_tail l rs0 _ (last_time 0 (l_txs l)) _ He0 Hbad He Hl3 eq_refl) as (rs1 & pos1 & crc1 & T3 & Hrs1 & Hf1).
  fold no_crc_yet. unfold log_turns in Hf. replace fuel with ((txs_turns (l_txs l) + length (l_open l)) + (fuel - txs_turns (l_txs l) - length (l_open l)))%nat by lia.
  rewrite (turns_trans _ _ _ _ _ _ T1 T2), T3 by lia. cbn [obind]. rewrite pass_done_plain by done. ps_simpl.
  destruct Hrs1 as [-> | ->].
  - rewrite He0. cbn [Z.eqb]. eexists. split; [reflexivity|]. repeat split; try done.
  - cbn [set_failed_commit rs_info set_info set_end end_transaction] in *. eexists. split; [reflexivity|]. destruct (Z.eqb_spec (log_tid l) 0); repeat split; done.
Qed.

Lemma revoke_pass i l rs fuel :
  no_fast_commit -> log_ok i l -> collecting log_base (log_count l) i [] rs -> (log_turns l < fuel)%nat ->
  exists rs', do_one_pass fc_replay fuel j rs PASS_REVOKE = Done (0, rs') /\ collecting log_base (log_count l) i (log_revokes l) rs'.
Proof.
  intros Hfc [Hst Hin Hsq Hc Hok Hop _ He Hlog _] C Hf. unfold do_one_pass, pass_start. cbn [is_scan]. fold log_base.
  unfold log_blocks in Hlog. apply log_at_app in Hlog as [Hl1 _]. unfold log_turns in Hf.
  destruct (revoke_txs log_base (log_count l) i (2 ^ 32 - 1) 0 (l_txs l) 0 [] rs (s_start (j_superblock j)) C) as (rs' & pos & T & C'); try done.
  rewrite Z.add_0_r, u32_small in T by done. cbn [app] in C'. pose proof (co_end _ _ _ _ _ C') as Hend.
  assert (Hover : tid_geq (u32 (log_base + log_count l)) (end_transaction (rs_info rs')) = true) by (rewrite Hend; apply over; unfold log_count in *; lia).
  set (p := mk_ps rs' _ _ _ _ _ _ _) in T. pose proof (turn_stops PASS_REVOKE p eq_refl Hover) as T'.
  rewrite (turns_finish _ _ _ _ _ T T' fuel) by lia. cbn [obind].
  rewrite pass_done_plain by done. subst p. ps_simpl. rewrite Hend, Z.eqb_refl. cbn [negb]. exists rs'. done.
Qed.

Lemma replay_pass i l d rs fuel :
  no_fast_commit -> log_ok i l -> replaying log_base (log_count l) i (log_revokes l) d rs -> (log_turns l < fuel)%nat ->
  exists rs', do_one_pass fc_replay fuel j rs PASS_REPLAY = Done (0, rs') /\
    replaying log_base (log_count l) i (log_revokes l) (write_blocks d (log_writes l)) rs'.
Proof.
  intros Hfc [Hst Hin Hsq Hc Hok Hop _ He Hlog Hout] R Hf. unfold do_one_pass, pass_start. cbn [is_scan]. fold log_base.
  unfold log_blocks in Hlog. apply log_at_app in Hlog as [Hl1 _]. unfold log_turns in Hf.
  destruct (replay_txs log_base (log_count l) i (log_revokes l) (2 ^ 32 - 1) 0 (l_txs l) 0 d rs (s_start (j_superblock j)) R) as (rs' & pos & T & R'); try done.
  rewrite Z.add_0_r, u32_small in T by done. pose proof (re_end _ _ _ _ _ _ R') as Hend.
  assert (Hover : tid_geq (u32 (log_base + log_count l)) (end_transaction (rs_info rs')) = true) by (rewrite Hend; apply over; unfold log_count in *; lia).
  set (p := mk_ps rs' _ _ _ _ _ _ _) in T. pose proof (turn_stops PASS_REPLAY p eq_refl Hover) as T'.
  rewrite (turns_finish _ _ _ _ _ T T' fuel) by lia. cbn [obind].
  rewrite pass_done_plain by done. subst p. ps_simpl. rewrite Hend, Z.eqb_refl. cbn [negb]. exists rs'. done.
Qed.

(** Only the first pass notes a failed commit. *)
Lemma scan_revoke_loop_failed fuel b seq max len : forall rs offset err rs',
  scan_revoke_loop fuel j rs b seq offset max len = Done (err, rs') -> j_failed_commit rs' = j_failed_commit rs.
Proof.
  induction fuel as [|fuel IH]; intros rs offset err rs' H; cbn [scan_revoke_loop] in H; [done|].
  destruct (offset + len <=? max); [|by injection H as <- <-].
  destruct (if len =? 4 then _ else _) as [blk|]; cbn [obind] in H; [|done].
  destruct (jbd2_journal_set_revoke _ _ _ _) as [[[e al] t]|]; cbn [obind] in H; [|done].
  destruct (negb (e =? 0)); [by injection H as <- <-|]. by apply IH in H.
Qed.

Lemma replay_tags_failed fuel b : forall p tagp p',
  replay_tags fuel j p b tagp = Done p' -> j_failed_commit (ps_rs p') = j_failed_commit (ps_rs p).
Proof.
  induction fuel as [|fuel IH]; intros p tagp p' H; cbn [replay_tags] in H; [done|].
  destruct (_ <=? _); [|by injection H as <-]. destruct (get_flags j b tagp) as [flags|]; cbn [obind] in H; [|done].
  destruct (match jread _ _ _ with inl _ => _ | inr _ => _ end) as [q|] eqn:E; cbn [obind] in H; [|done].
  assert (Hq : j_failed_commit (ps_rs q) = j_failed_commit (ps_rs p)).
  { destruct (jread _ _ _) as [err|obh]; [by injection E as <-|]. unfold replay_block in E. destruct (read_tag_block j b tagp) as [blk|]; cbn [obind] in E; [|done].
    destruct (jbd2_journal_test_revoke _ _ _) as [[]|]; cbn [obind] in E; [by injection E as <-| |done].
    destruct (be_get j 4 8 b) as [sq|]; cbn [obind] in E; [|done]. destruct (jbd2_block_tag_csum_verify _ _ _ _ _); cbn [obind] in E; [|done].
    destruct (negb _); by injection E as <-. }
  rewrite <- Hq. destruct (flag_set _ _); [by injection H as <-|]. by apply IH in H.
Qed.

Definition flow_state (f : flow) : pass_state := match f with Again p | Finish p | Failed p _ => p end.

Lemma turn_failed pass p f :
  is_scan pass = false -> pass_turn j pass p = Done f -> j_failed_commit (ps_rs (flow_state f)) = j_failed_commit (ps_rs p).
Proof.
  intros Hs H. unfold pass_turn in H. rewrite Hs in H. cbn [negb andb] in H. destruct (tid_geq _ _); [by injection H as <-|].
  destruct (jread _ _ _) as [err|b]; [by injection H as <-|]. rewrite !header_done in H by lia. cbn [obind] in H.
  fold (h_blocktype b) (h_commit_sec b) in H. destruct (negb _); [by injection H as <-|]. destruct (negb _); [by injection H as <-|].
  destruct (h_blocktype b =? JBD2_DESCRIPTOR_BLOCK); [|destruct (h_blocktype b =? JBD2_COMMIT_BLOCK); [|destruct (h_blocktype b =? JBD2_REVOKE_BLOCK)]].
  - unfold pass_descriptor in H. rewrite Hs in H. cbn [negb andb] in H. rewrite andb_true_r in H.
    destruct (jbd2_journal_has_csum_v2or3 j && _); [by injection H as <-|]. destruct (negb (is_replay pass)).
    + unfold skip_tags in H. destruct (count_tags j b); cbn [obind] in H; [|done]. by injection H as <-.
    + destruct (replay_tags _ _ _ _ _) as [q|] eqn:E; cbn [obind] in H; [|done]. injection H as <-. by apply replay_tags_failed in E.
  - unfold pass_commit, next_transaction in H. rewrite Hs in H. cbn [andb negb] in H. cbn [with_log_block need_check_commit_time] in H.
    destruct (need_check_commit_time p); [destruct (_ <=? _)|]; by injection H as <-.
  - unfold pass_revoke in H. rewrite Hs in H. cbn [andb] in H. destruct (negb _); [by injection H as <-|].
    unfold scan_revoke_records in H. rewrite header_done in H by lia. cbn [obind] in H. destruct (_ <? _); cbn [obind] in H; [by injection H as <-|].
    destruct (scan_revoke_loop _ _ _ _ _ _ _ _) as [[err rs]|] eqn:E; cbn [obind] in H; [|done]. apply scan_revoke_loop_failed in E.
    destruct (negb (err =? 0)); by injection H as <-.
  - by injection H as <-.
Qed.

Lemma loop_failed pass fuel : forall p e,
  is_scan pass = false -> pass_loop fuel j pass p = Done e ->
  j_failed_commit (ps_rs (match e with EndDone p | EndFailed p _ => p end)) = j_failed_commit (ps_rs p).
Proof.
  induction fuel as [|fuel IH]; intros p e Hs H; cbn [pass_loop] in H; [done|].
  destruct (pass_turn j pass p) as [f|] eqn:E; cbn [obind] in H; [|done]. apply turn_failed in E; [|done]. rewrite <- E.
  destruct f as [q|q|q err]; [by apply IH in H|by injection H as <-|by injection H as <-].
Qed.

Lemma pass_failed pass fuel rs err rs' :
  no_fast_commit -> is_scan pass = false -> do_one_pass fc_replay fuel j rs pass = Done (err, rs') -> j_failed_commit rs' = j_failed_commit rs.
Proof.
  intros Hfc Hs H. unfold do_one_pass, pass_start in H. rewrite Hs in H. destruct (pass_loop _ _ _ _) as [e|] eqn:E; cbn [obind] in H; [|done].
  apply loop_failed in E; [|done]. cbn [ps_rs] in E. rewrite <- E. destruct e as [p|p er].
  - injection H as H. rewrite pass_done_plain in H by done. rewrite Hs in H. cbn zeta beta iota in H. by injection H as _ <-.
  - by injection H as _ <-.
Qed.

(** Recovery brings back the log. *)
Lemma recover_log i l rs fuel :
  no_fast_commit -> log_ok i l -> rs_io rs = i -> table_wf (rs_revoke rs) -> table_empty (rs_revoke rs) -> (forall a, oom (rs_al rs) a = false) ->
  (log_turns l < fuel)%nat ->
  exists rs', jbd2_journal_recover fc_replay fuel j rs =
      Done (if flush_err (fs_io i) then - EIO else 0, rs', u32 (log_base + log_count l + 1)) /\
    fs_io (rs_io rs') = write_blocks (fs_io i) (log_writes l) /\ j_failed_commit rs' = log_failed l (j_failed_commit rs) /\
    table_wf (rs_revoke rs') /\ table_empty (rs_revoke rs').
Proof.
  intros Hfc L Hio W Hem Hm Hf. unfold jbd2_journal_recover. pose proof (lo_start _ _ L) as Hst. destruct (Z.eqb_spec (s_start (j_superblock j)) 0); [done|].
  destruct (scan_pass i l (set_info rs (mk_info 0 0 0 0 0)) fuel Hfc L Hio eq_refl Hf) as (rs1 & -> & Hend1 & Hio1 & Hal1 & Hrv1 & Hf1). cbn [obind Z.eqb].
  assert (C : collecting log_base (log_count l) i [] rs1).
  { constructor; try done; rewrite ?Hrv1, ?Hal1; try done; [by apply empty_revoked_in|]. intros b k Hb. by apply not_elem_of_nil in Hb. }
  destruct (revoke_pass i l rs1 fuel Hfc L C Hf) as (rs2 & E2 & [W2 Hh2 Hr2 _ Hi2 He2]). rewrite E2. apply pass_failed in E2; [|done|done]. cbn [obind Z.eqb].
  assert (R : replaying log_base (log_count l) i (log_revokes l) (fs_io i) rs2) by (constructor; try done; by rewrite Hi2).
  destruct (replay_pass i l (fs_io i) rs2 fuel Hfc L R Hf) as (rs3 & E3 & [W3 _ _ _ _ Hfs3 He3]). rewrite E3. apply pass_failed in E3; [|done|done]. cbn [obind Z.eqb].
  assert (Hsync : sync_blockdev (rs_io rs3) K_DEV_FS = if flush_err (fs_io i) then - EIO else 0).
  { unfold sync_blockdev, get_dev. by rewrite Hfs3, flush_err_write_blocks. }
  ps_simpl. rewrite He3, Hsync. replace (u32 (u32 _ + 1)) with (u32 (log_base + log_count l + 1)) by (unfold u32; by rewrite Zplus_mod_idemp_l).
  eexists. split; [reflexivity|]. split; [exact Hfs3|]. split; [|apply (clear_revoke_spec _ W3)]. ps_simpl. by rewrite E3, E2.
Qed.

End log.

(** * What the log brings back *)

(** The last of the writes to a block. *)
Fixpoint last_write (ws : list (Z * list Z)) (blk : Z) : option (list Z) :=
  match ws with
  | [] => None
  | (b, d) :: ws => match last_write ws blk with Some d' => Some d' | None => if b =? blk then Some d else None end
  end.

Lemma write_blocks_errs ws : forall d, wr_err (write_blocks d ws) = wr_err d /\ flush_err (write_blocks d ws) = flush_err d.
Proof.
  induction ws as [|w ws IH]; intros d; [done|]. change (write_blocks d (w :: ws)) with (write_blocks (write_block d w) ws).
  destruct (IH (write_block d w)) as [-> ->]. unfold write_block. by destruct (wr_err d w.1).
Qed.

Lemma write_blocks_lookup ws blk : forall d,
  blocks (write_blocks d ws) !! blk =
    if wr_err d blk then blocks d !! blk
    else match last_write ws blk with Some x => Some x | None => blocks d !! blk end.
Proof.
  induction ws as [|[b x] ws IH]; intros d; [by destruct (wr_err d blk)|].
  change (write_blocks d ((b, x) :: ws)) with (write_blocks (write_block d (b, x)) ws). rewrite IH. cbn [last_write].
  destruct (write_blocks_errs [(b, x)] d) as [Hw _]. change (wr_err (write_block d (b, x)) = wr_err d) in Hw. rewrite Hw.
  assert (Hl : blocks (write_block d (b, x)) !! blk = if negb (wr_err d blk) && (b =? blk) then Some x else blocks d !! blk).
  { unfold write_block. cbn [fst snd]. destruct (Z.eqb_spec b blk) as [->|Hne].
    - rewrite andb_true_r. destruct (wr_err d blk); cbn [negb blocks]; [done|]. by rewrite lookup_insert_eq.
    - rewrite andb_false_r. destruct (wr_err d b); cbn [blocks]; [done|]. by rewrite lookup_insert_ne. }
  rewrite Hl. destruct (wr_err d blk); cbn [negb andb]; [done|]. destruct (last_write ws blk); [done|]. by destruct (b =? blk).
Qed.

Lemma device_eq d1 d2 : wr_err d1 = wr_err d2 -> flush_err d1 = flush_err d2 -> blocks d1 = blocks d2 -> d1 = d2.
Proof. destruct d1, d2. cbn. by intros -> -> ->. Qed.

(** Writing some of the blocks first makes no difference. *)
Lemma write_blocks_again d w1 w2 : write_blocks (write_blocks d w1) (w1 ++ w2) = write_blocks d (w1 ++ w2).
Proof.
  rewrite !write_blocks_app. f_equal. destruct (write_blocks_errs w1 d) as [Hw Hf]. destruct (write_blocks_errs w1 (write_blocks d w1)) as [Hw' Hf'].
  apply device_eq; [congruence|congruence|]. apply map_eq. intros blk. rewrite (write_blocks_lookup w1 blk (write_blocks d w1)), Hw.
  rewrite (write_blocks_lookup w1 blk d). destruct (wr_err d blk); [done|]. by destruct (last_write w1 blk).
Qed.

(** A device on which blocks outside of the journal were written. *)
Definition with_fs (i : io) (d : device) : io := mk_io d (journal_io i) (same i).

Lemma jread_write_blocks j i ws o :
  Forall (fun w => outside_journal j i w.1) ws -> jread (with_fs i (write_blocks (fs_io i) ws)) j o = jread i j o.
Proof.
  revert i. induction ws as [|w ws IH]; intros i Hout; [by destruct i|]. apply Forall_cons in Hout as [Hw Hout].
  change (write_blocks (fs_io i) (w :: ws)) with (write_blocks (write_block (fs_io i) w) ws).
  pose proof (IH (with_fs i (write_block (fs_io i) w))) as IHs. unfold with_fs in *. cbn [fs_io journal_io same] in IHs. rewrite IHs by done.
  unfold write_block. destruct (wr_err (fs_io i) w.1); [by destruct i|]. exact (jread_write j i w.1 w.2 o Hw).
Qed.

Lemma log_at_ext j i i' bs : forall p, (forall o, jread i' j o = jread i j o) -> log_at j i p bs -> log_at j i' p bs.
Proof. induction bs as [|b bs IH]; intros p H Hl; [done|]. destruct Hl as [Hr Hl]. split; [by rewrite H|]. by apply IH. Qed.

Lemma writes_outside j i hist k ts :
  Forall (fun t => Forall (entry_outside j i) (tx_entries t)) ts -> Forall (fun w => outside_journal j i w.1) (txs_writes j hist k ts).
Proof.
  intros H. revert k. induction H as [|t ts Ht Hts IH]; intros k; cbn [txs_writes]; [constructor|]. apply Forall_app. split; [|apply IH].
  apply Forall_forall. intros w Hw. apply list_elem_of_filter in Hw as [_ Hw]. revert w Hw. apply Forall_forall. apply Forall_concat. apply Forall_fmap. eapply Forall_impl; [exact Ht|]. intros e He.
  destruct e as [b data|b]; [|constructor]. cbn [compose entry_writes entry_outside] in *. unfold desc_writes. revert data.
  induction He as [|t0 tl Ht0 _ IHe]; intros data; [constructor|]. destruct data as [|x data]; cbn [zip_with]; [constructor|]. constructor; [exact Ht0|apply IHe].
Qed.

(** The log is still there after any of its blocks were written back. *)
Lemma log_ok_after j i l n : log_ok j i l -> log_ok j (with_fs i (write_blocks (fs_io i) (take n (log_writes j l)))) l.
Proof.
  intros [H1 H2 H3 H4 H5 H6 H7 H8 H9 H10]. constructor; try done. eapply log_at_ext; [|exact H9]. intros o. apply jread_write_blocks.
  apply Forall_take, writes_outside, H10.
Qed.
