(* ===== verification/RecoveryProperties.v ===== *)
(** The theorems about journal recovery: what it brings back, that it can be
    interrupted and run again, that no log makes it leave its tables, and where
    it goes wrong. *)

From S2P Require Import Prelude Crc CrcBe Journal Revoke Recovery RecoverySpec.

Local Open Scope Z_scope.

Abbreviation fc_callback := (recovery_state -> list Z -> passtype -> Z -> Z -> Z * recovery_state) (only parsing).

(** The revoke table a recovery starts with, and its memory. *)
Record ready (rs : recovery_state) : Prop := {
  rd_wf : table_wf (rs_revoke rs);
  rd_empty : table_empty (rs_revoke rs);
  rd_mem : forall a, oom (rs_al rs) a = false
}.

(** * An example *)

Module Demo.

(** Blocks of 1024 bytes; the log runs from block 1 to block 15, starts at
    block 15 and with transaction 2^32 - 1, so that both wrap. *)
Definition jsb : journal_superblock_t := mk_jsb 0xFFFFFFFF 15 0 0 (replicate 16 0).
Definition j : journal_t := mk_journal jsb 2 0 0 1 16 1024 16 0 (fun o => inr (1000 + o)).

Definition put (fields : list (nat * Z * Z)) : list Z :=
  foldl (fun b x => be_put x.1.1 x.1.2 x.2 b) (replicate 1024 0) fields.
Definition header (blocktype seq : Z) : list (nat * Z * Z) :=
  [(4%nat, 0, JBD2_MAGIC_NUMBER); (4%nat, 4, blocktype); (4%nat, 8, seq)].
Definition data (x : Z) : list Z := replicate 1024 x.

(** Block 100 starts with the magic number and is escaped. *)
Definition tx0 : transaction :=
  mk_tx [Desc (put (header JBD2_DESCRIPTOR_BLOCK 0xFFFFFFFF ++ [(4%nat, 12, 100); (2%nat, 18, JBD2_FLAG_ESCAPE); (4%nat, 36, 103); (2%nat, 42, 10)]))
           [put [(4%nat, 4, 77)]; data 3]]
        (put (header JBD2_COMMIT_BLOCK 0xFFFFFFFF)).
(** The second transaction revokes block 103. *)
Definition tx1 : transaction :=
  mk_tx [Desc (put (header JBD2_DESCRIPTOR_BLOCK 0 ++ [(4%nat, 12, 101); (2%nat, 18, JBD2_FLAG_SAME_UUID); (4%nat, 20, 102); (2%nat, 26, 10)]))
           [data 1; data 2];
         Rev (put (header JBD2_REVOKE_BLOCK 0 ++ [(4%nat, 12, 20); (4%nat, 16, 103)]))]
        (put (header JBD2_COMMIT_BLOCK 0)).
Definition open_entry : entry := Desc (put (header JBD2_DESCRIPTOR_BLOCK 1 ++ [(4%nat, 12, 101); (2%nat, 18, 10)])) [data 9].

Definition l : log := mk_log [tx0; tx1] [open_entry] None (data 0).

Fixpoint place (m : gmap Z (list Z)) (p : Z) (bs : list (list Z)) : gmap Z (list Z) :=
  match bs with [] => m | b :: bs => place (<[1000 + p := b]> m) (wrap j (p + 1)) bs end.

Definition dev : device := mk_dev (place ∅ 15 (log_blocks l)) (fun _ => false) false.
Definition i : io := mk_io dev dev true.
Definition rs : recovery_state := mk_rs i (mk_alloc 1 (fun _ => false)) (mk_table 16 4 (replicate 16 [])) 0 (mk_info 0 0 0 0 0).

Lemma geometry_j : geometry j.
Proof. by constructor; vm_compute. Qed.

Lemma outside_j b : b < 1000 -> outside_journal j i b.
Proof. intros Hb _ o pb Ho E. injection E as <-. lia. Qed.

Lemma ready_rs : ready rs.
Proof. constructor; [by constructor; cbn|by repeat constructor|done]. Qed.

Local Ltac desc_ok :=
  split; [by vm_compute|split; [by vm_compute|split; [by vm_compute|]]];
  match goal with |- Forall2 ?P (tags j ?b) ?d => let t := eval vm_compute in (tags j b) in replace (tags j b) with t by (by vm_compute) end;
  repeat constructor.

Lemma log_ok_l : log_ok j i l.
Proof.
  constructor; [done|by vm_compute|by vm_compute|by vm_compute| | |done|left; by vm_compute| |].
  - split; [split|split; [split|done]].
    + constructor; [desc_ok|constructor].
    + split; [by vm_compute|]. split; [by vm_compute|]. by vm_compute.
    + constructor; [desc_ok|constructor; [|constructor]]. split; [by vm_compute|]. split; by vm_compute.
    + split; [by vm_compute|]. split; [by vm_compute|]. by vm_compute.
  - constructor; [desc_ok|constructor].
  - by vm_compute.
  - assert (Ho : forall b, Forall (fun tagp => tag_block j b tagp < 1000) (tags j b) -> forall d, entry_outside j i (Desc b d)).
    { intros b H d. eapply Forall_impl; [exact H|]. intros tagp Ht. by apply outside_j. }
    constructor; [|constructor; [|constructor]].
    + constructor; [|constructor]. apply Ho. vm_compute. repeat constructor.
    + constructor; [|constructor; [exact I|constructor]]. apply Ho. vm_compute. repeat constructor.
Qed.

End Demo.

(** * What recovery brings back *)

(** C2: recovery brings back exactly the committed log.  For a log of complete
    transactions, followed by entries of a transaction that was not committed or
    whose commit block fails its checksum, recovery succeeds (unless the flush
    fails).  Afterwards every block holds what the last complete transaction
    that wrote it, and after which it was not revoked, wrote to it, and is
    unchanged if there is no such transaction (or the device refuses to write
    it); the next transaction gets a number of its own; a failed commit is
    noted; the revoke table is empty again.  The log may wrap around, and so may
    the numbers of the transactions. *)
Theorem recover_correct (j : journal_t) (fc_replay : option fc_callback) (i : io) (l : log) (rs : recovery_state) (fuel : nat) :
  geometry j -> no_fast_commit j fc_replay -> log_ok j i l -> rs_io rs = i -> ready rs -> (log_turns l < fuel)%nat ->
  exists rs', jbd2_journal_recover fc_replay fuel j rs =
      Done (if flush_err (fs_io i) then - EIO else 0, rs', u32 (s_sequence (j_superblock j) + log_count l + 1)) /\
    (forall blk, blocks (fs_io (rs_io rs')) !! blk =
       if wr_err (fs_io i) blk then blocks (fs_io i) !! blk
       else match last_write (log_writes j l) blk with Some d => Some d | None => blocks (fs_io i) !! blk end) /\
    j_failed_commit rs' = log_failed j l (j_failed_commit rs) /\ table_empty (rs_revoke rs').
Proof.
  intros G Hfc L Hio [W Hem Hm] Hf. destruct (recover_log j G fc_replay i l rs fuel Hfc L Hio W Hem Hm Hf) as (rs' & E & Hd & Hfl & _ & He').
  exists rs'. split; [exact E|]. split; [|done]. intros blk. by rewrite Hd, write_blocks_lookup.
Qed.

Lemma recover_correct_witness :
  exists rs', jbd2_journal_recover None 8 Demo.j Demo.rs = Done (0, rs', 2) /\
    (forall blk, blocks (fs_io (rs_io rs')) !! blk =
       match last_write (log_writes Demo.j Demo.l) blk with Some d => Some d | None => blocks Demo.dev !! blk end) /\
    j_failed_commit rs' = 0 /\ table_empty (rs_revoke rs').
Proof.
  apply (recover_correct Demo.j None Demo.i Demo.l Demo.rs 8 Demo.geometry_j); [by right|exact Demo.log_ok_l|done|exact Demo.ready_rs|cbn; lia].
Defined.

(** Block 103 was revoked, block 100 gets its magic number back, and the open
    transaction does not reach block 101. *)
Example demo_writes :
  log_writes Demo.j Demo.l = [(100, Demo.put [(4%nat, 0, JBD2_MAGIC_NUMBER); (4%nat, 4, 77)]); (101, Demo.data 1); (102, Demo.data 2)].
Proof. by vm_compute. Qed.

(** C11: recovery can be interrupted and run again.  After any number of the
    blocks were written back, recovery run from the start leaves the same device
    as recovery that was not interrupted. *)
Theorem recover_after_crash (j : journal_t) (fc_replay : option fc_callback) (i : io) (l : log) (rs rs1 : recovery_state) (n fuel : nat) :
  geometry j -> no_fast_commit j fc_replay -> log_ok j i l -> (log_turns l < fuel)%nat ->
  rs_io rs = i -> ready rs ->
  rs_io rs1 = with_fs i (write_blocks (fs_io i) (take n (log_writes j l))) -> ready rs1 ->
  exists res rs' res1 rs1',
    jbd2_journal_recover fc_replay fuel j rs = Done (res, rs', u32 (s_sequence (j_superblock j) + log_count l + 1)) /\
    jbd2_journal_recover fc_replay fuel j rs1 = Done (res1, rs1', u32 (s_sequence (j_superblock j) + log_count l + 1)) /\
    res1 = res /\ fs_io (rs_io rs1') = fs_io (rs_io rs').
Proof.
  intros G Hfc L Hf Hio [W Hem Hm] Hio1 [W1 Hem1 Hm1].
  destruct (recover_log j G fc_replay i l rs fuel Hfc L Hio W Hem Hm Hf) as (rs' & E & Hd & _).
  destruct (recover_log j G fc_replay _ l rs1 fuel Hfc (log_ok_after j i l n L) Hio1 W1 Hem1 Hm1 Hf) as (rs1' & E1 & Hd1 & _).
  eexists _, rs', _, rs1'. split; [exact E|]. split; [exact E1|]. cbn [with_fs fs_io]. split; [by rewrite flush_err_write_blocks|].
  rewrite Hd, Hd1. cbn [with_fs fs_io]. rewrite <- (take_drop n (log_writes j l)) at 2 3. apply write_blocks_again.
Qed.

Lemma recover_after_crash_witness :
  exists res rs' res1 rs1',
    jbd2_journal_recover None 8 Demo.j Demo.rs = Done (res, rs', 2) /\
    jbd2_journal_recover None 8 Demo.j (set_io Demo.rs (with_fs Demo.i (write_blocks Demo.dev (take 1 (log_writes Demo.j Demo.l))))) = Done (res1, rs1', 2) /\
    res1 = res /\ fs_io (rs_io rs1') = fs_io (rs_io rs').
Proof.
  apply (recover_after_crash Demo.j None Demo.i Demo.l Demo.rs _ 1 8 Demo.geometry_j); [by right|exact Demo.log_ok_l|cbn; lia|done|exact Demo.ready_rs|done|].
  destruct Demo.ready_rs. by constructor.
Defined.

(** * Logs that were not written by a journal *)

(** A computation that returns, with a result of which [P] holds: it reads
    nothing outside of its buffers and tables and does not run out of fuel. *)
Definition safe {A} (P : A -> Prop) (x : outcome A) : Prop := match x with Done a => P a | Crash _ => False end.

Lemma safe_bind {A B} (P : A -> Prop) (Q : B -> Prop) x f : safe P x -> (forall a, P a -> safe Q (f a)) -> safe Q (obind x f).
Proof. intros H1 H2. destruct x; cbn [obind]; [by apply H2|done]. Qed.

Lemma set_revoke_safe al t b seq : table_wf t -> safe (fun x => table_wf x.2) (jbd2_journal_set_revoke al t b seq).
Proof.
  intros W. destruct (hash_list_ok t b W) as (c & _ & E). unfold jbd2_journal_set_revoke, find_revoke_record, insert_revoke_hash. rewrite E. cbn [obind].
  destruct (find_in_chain b c) as [[[p r] q]|]; [destruct (tid_gt _ _)|destruct (malloc al) as [[?|] ?]]; cbn [obind safe snd]; auto using set_hash_list_wf.
Qed.

Section any_log.
Context (j : journal_t) (Hbs : 64 <= j_blocksize j).

Lemma header_get n off b : 0 <= off -> off + Z.of_nat n <= 64 -> be_get j n off b = Done (be_at n off b).
Proof. intros H1 H2. apply be_get_done; lia. Qed.

(** The records of a revoke block are read inside of it whatever its header
    says: this rests on the test of [rcount]. *)
Lemma scan_revoke_loop_safe fuel b seq max : forall rs offset,
  table_wf (rs_revoke rs) -> 0 <= offset -> max <= j_blocksize j -> (0 < fuel)%nat -> max - offset < Z.of_nat fuel ->
  safe (fun x => table_wf (rs_revoke x.2)) (scan_revoke_loop fuel j rs b seq offset max (record_len j)).
Proof.
  pose proof (record_len_range j). induction fuel as [|fuel IH]; intros rs offset W Ho Hm H0 Hf; cbn [scan_revoke_loop]; [lia|].
  destruct (Z.leb_spec (offset + record_len j) max); [|done]. rewrite record_done by lia. cbn [obind].
  eapply safe_bind; [by apply set_revoke_safe|]. intros [[err al] t] Wt. cbn [snd] in Wt. destruct (negb _); [done|]. apply IH; (done || lia).
Qed.

Lemma scan_revoke_records_safe rs b seq :
  table_wf (rs_revoke rs) -> safe (fun x => table_wf (rs_revoke x.2)) (scan_revoke_records j rs b seq).
Proof.
  intros W. unfold scan_revoke_records. rewrite header_get by lia. cbn [obind]. pose proof (csum_size_range j).
  destruct (Z.ltb_spec (j_blocksize j - csum_size j) (be_at 4 12 b)); [done|]. apply scan_revoke_loop_safe; [done|done|lia|lia|unfold sizeof_revoke_header; lia].
Qed.

Abbreviation ps_wf := (fun p => table_wf (rs_revoke (ps_rs p))) (only parsing).

Lemma replay_block_safe p b tagp flags obh : tag_fits j tagp -> ps_wf p -> safe ps_wf (replay_block j p b tagp flags obh).
Proof.
  intros Hfit W. unfold replay_block. rewrite read_tag_block_done by done. cbn [obind]. rewrite test_revoke_spec, header_get by (done || lia). cbn [obind].
  rewrite tag_csum_verify_done by done. cbn [obind].
  destruct (match recorded _ _ with Some _ => _ | None => _ end); [done|]. by destruct (negb _).
Qed.

Lemma replay_tags_safe b fuel : forall p tagp,
  ps_wf p -> 0 <= tagp -> (0 < fuel)%nat -> j_blocksize j - tagp < Z.of_nat fuel -> safe ps_wf (replay_tags fuel j p b tagp).
Proof.
  pose proof (csum_size_range j). induction fuel as [|fuel IH]; intros p tagp W Ht H0 Hf; cbn [replay_tags]; [lia|].
  destruct (Z.leb_spec (tagp + journal_tag_bytes j) (j_blocksize j - csum_size j)); [|done]. pose proof (next_tag_ge j tagp (t_flags b tagp)). pose proof (tag_bytes_range j).
  rewrite get_flags_done by done. cbn [obind]. apply (safe_bind ps_wf).
  - destruct (jread _ _ _) as [err|obh]; [done|]. by apply replay_block_safe.
  - intros q Wq. destruct (flag_set _ _); [done|]. apply IH; (done || lia).
Qed.

Lemma pass_descriptor_safe pass p b : ps_wf p -> safe (fun f => ps_wf (flow_state f)) (pass_descriptor j pass p b).
Proof.
  intros W. unfold pass_descriptor, calc_chksums, skip_tags. rewrite count_tags_spec by lia.
  set (bad := jbd2_journal_has_csum_v2or3 j && negb (jbd2_descriptor_block_csum_verify j b)). destruct (bad && _); [done|]. cbn [obind].
  set (q := if bad then _ else _). assert (Wq : ps_wf q) by (unfold q; by destruct bad). destruct (negb (is_replay pass)).
  - destruct (is_scan pass && _ && _ && _); [|exact Wq]. by destruct (chksum_blocks _ _ _ _ _) as [[? ?] ?].
  - eapply safe_bind; [apply replay_tags_safe; [done|done|unfold tag_fuel; lia|unfold tag_fuel, sizeof_journal_header; lia]|done].
Qed.

Lemma pass_revoke_safe pass p b : ps_wf p -> safe (fun f => ps_wf (flow_state f)) (pass_revoke j pass p b).
Proof.
  intros W. unfold pass_revoke. set (q := if is_scan pass && negb _ then _ else _). assert (Wq : ps_wf q) by (unfold q; by destruct (is_scan pass && _)).
  destruct (negb (is_revoke pass)); [exact Wq|]. eapply safe_bind; [by apply scan_revoke_records_safe|]. intros [err rs] Wr. cbn [safe]. destruct (negb (err =? 0)); exact Wr.
Qed.

(** One turn of the loop always returns. *)
Lemma pass_turn_safe pass p : ps_wf p -> safe (fun f => ps_wf (flow_state f)) (pass_turn j pass p).
Proof.
  intros W. unfold pass_turn. destruct (_ && _); [done|]. destruct (jread _ _ _) as [err|b]; [done|]. rewrite !header_get by lia. cbn [obind].
  destruct (negb _); [done|]. destruct (negb _); [done|]. destruct (_ =? JBD2_DESCRIPTOR_BLOCK); [by apply pass_descriptor_safe|].
  destruct (_ =? JBD2_COMMIT_BLOCK); [|destruct (_ =? JBD2_REVOKE_BLOCK); [by apply pass_revoke_safe|done]].
  unfold pass_commit, commit_chksum_error, next_transaction. cbn [safe]. repeat case_match; done.
Qed.

(** The loop goes on for [n] turns from [p]: it comes neither to [done] nor to
    [failed]. *)
Fixpoint goes_on (n : nat) (pass : passtype) (p : pass_state) : Prop :=
  match n with
  | O => True
  | S n => match pass_turn j pass p with Done (Again p') => goes_on n pass p' | _ => False end
  end.

Lemma pass_loop_safe pass fuel : forall p, ps_wf p ->
  match pass_loop fuel j pass p with
  | Done (EndDone q | EndFailed q _) => ps_wf q
  | Crash e => e = OutOfFuel /\ goes_on fuel pass p
  end.
Proof.
  induction fuel as [|fuel IH]; intros p W; cbn [pass_loop goes_on]; [done|]. pose proof (pass_turn_safe pass p W) as H.
  destruct (pass_turn j pass p) as [[q|q|q err]|e]; cbn [safe flow_state obind] in *; [by apply IH|done|done|done].
Qed.

Context (fc_replay : option fc_callback) (Hfc : no_fast_commit j fc_replay).

Lemma do_one_pass_safe pass fuel rs :
  table_wf (rs_revoke rs) ->
  match do_one_pass fc_replay fuel j rs pass with
  | Done (_, rs') => table_wf (rs_revoke rs')
  | Crash e => e = OutOfFuel /\ goes_on fuel pass (pass_start j rs pass)
  end.
Proof.
  intros W. unfold do_one_pass. assert (Ws : ps_wf (pass_start j rs pass)) by (by destruct pass).
  pose proof (pass_loop_safe pass fuel _ Ws) as H. destruct (pass_loop fuel j pass _) as [[p|p err]|e]; cbn [obind]; [|done|done].
  rewrite pass_done_plain by done. cbn zeta. destruct (is_scan pass), (end_transaction (rs_info (ps_rs p)) =? 0); done.
Qed.

(** The passes of a recovery that begins in [rs], and the state each of them
    begins in: a pass begins when the one before it has returned 0. *)
Inductive pass_begins (fuel : nat) (rs : recovery_state) : passtype -> recovery_state -> Prop :=
| begins_scan : s_start (j_superblock j) <> 0 -> pass_begins fuel rs PASS_SCAN (set_info rs (mk_info 0 0 0 0 0))
| begins_revoke rs1 rs2 :
    pass_begins fuel rs PASS_SCAN rs1 -> do_one_pass fc_replay fuel j rs1 PASS_SCAN = Done (0, rs2) -> pass_begins fuel rs PASS_REVOKE rs2
| begins_replay rs1 rs2 :
    pass_begins fuel rs PASS_REVOKE rs1 -> do_one_pass fc_replay fuel j rs1 PASS_REVOKE = Done (0, rs2) -> pass_begins fuel rs PASS_REPLAY rs2.

(** The result of the passes so far: an error, or the state the next one begins
    in; or the last one that began goes on. *)
Definition passed (fuel : nat) (rs : recovery_state) (next : recovery_state -> Prop) (x : outcome (Z * recovery_state)) : Prop :=
  match x with
  | Done (err, rs') => table_wf (rs_revoke rs') /\ (err = 0 -> next rs')
  | Crash e => e = OutOfFuel /\ exists pass rs0, pass_begins fuel rs pass rs0 /\ goes_on fuel pass (pass_start j rs0 pass)
  end.

Lemma passed_step fuel rs pass rs1 (next : recovery_state -> Prop) :
  pass_begins fuel rs pass rs1 -> table_wf (rs_revoke rs1) ->
  (forall rs2, do_one_pass fc_replay fuel j rs1 pass = Done (0, rs2) -> next rs2) -> passed fuel rs next (do_one_pass fc_replay fuel j rs1 pass).
Proof.
  intros Hb W Hn. pose proof (do_one_pass_safe pass fuel rs1 W) as H. destruct (do_one_pass _ _ _ _ _) as [[err rs2]|e]; cbn [passed].
  - split; [done|]. intros ->. by apply Hn.
  - destruct H as [-> H]. split; [done|]. by exists pass, rs1.
Qed.

Lemma passed_bind fuel rs pass x (next : recovery_state -> Prop) :
  passed fuel rs (pass_begins fuel rs pass) x ->
  (forall rs1 rs2, pass_begins fuel rs pass rs1 -> do_one_pass fc_replay fuel j rs1 pass = Done (0, rs2) -> next rs2) ->
  passed fuel rs next (obind x (fun '(err, rs1) => if err =? 0 then do_one_pass fc_replay fuel j rs1 pass else Done (err, rs1))).
Proof.
  intros H Hn. destruct x as [[err rs1]|e]; cbn [obind passed] in *; [|done]. destruct H as [W H].
  destruct (Z.eqb_spec err 0) as [->|Hne]; [|by split]. apply passed_step; [by apply H|done|]. intros rs2. apply Hn. by apply H.
Qed.

End any_log.

(** C25: recovery is safe on every log.  Let the blocks of the journal hold
    whatever they may, let any of them be unreadable or unwritable, let memory
    for the revoke table run out: with buffers of at least 64 bytes and without
    fast commits, recovery reads no header, no number, flags or checksum of a tag
    and no revoke record outside of the buffer of its block and no list outside of the revoke table,
    and all loops over the tags and records of a block come to their end.  So
    either recovery returns, with the revoke table whole and empty again, or one
    of the passes it got to (the ones before it having returned 0) is still
    going on along the log after as many turns as it was given. *)
Theorem recover_safe (j : journal_t) (fc_replay : option fc_callback) (rs : recovery_state) (fuel : nat) :
  64 <= j_blocksize j -> no_fast_commit j fc_replay -> table_wf (rs_revoke rs) -> table_empty (rs_revoke rs) ->
  (exists err rs' seq, jbd2_journal_recover fc_replay fuel j rs = Done (err, rs', seq) /\ table_wf (rs_revoke rs') /\ table_empty (rs_revoke rs')) \/
  (jbd2_journal_recover fc_replay fuel j rs = Crash OutOfFuel /\
   exists pass rs0, pass_begins j fc_replay fuel rs pass rs0 /\ goes_on j fuel pass (pass_start j rs0 pass)).
Proof.
  intros Hb Hfc W He. unfold jbd2_journal_recover. destruct (Z.eqb_spec (s_start (j_superblock j)) 0) as [E|Hs]; [left; by eexists _, _, _|].
  pose proof (begins_scan j fc_replay fuel rs Hs) as B1.
  pose proof (passed_step j Hb fc_replay Hfc fuel rs PASS_SCAN _ _ B1 W (fun rs2 => begins_revoke j fc_replay fuel rs _ rs2 B1)) as P1.
  pose proof (passed_bind j Hb fc_replay Hfc fuel rs PASS_REVOKE _ _ P1 (begins_replay j fc_replay fuel rs)) as P2.
  pose proof (passed_bind j Hb fc_replay Hfc fuel rs PASS_REPLAY _ (fun _ => True) P2 (fun _ _ _ _ => I)) as P3.
  set (x1 := do_one_pass _ _ _ _ _) in *. set (x2 := obind x1 _) in P2, P3. set (x3 := obind x2 _) in P3.
  assert (Ex : forall (k : Z * recovery_state -> outcome (Z * recovery_state * Z)),
    obind x1 (fun '(err, rs) => obind (if err =? 0 then do_one_pass fc_replay fuel j rs PASS_REVOKE else Done (err, rs))
      (fun '(err, rs) => obind (if err =? 0 then do_one_pass fc_replay fuel j rs PASS_REPLAY else Done (err, rs)) k)) = obind x3 k).
  { intros k. unfold x3, x2. destruct x1 as [[err1 rs1]|]; cbn [obind]; [|done]. by destruct (if err1 =? 0 then _ else _) as [[err2 rs2]|]; cbn [obind]. }
  rewrite Ex. destruct x3 as [[err rs3]|e]; cbn [obind passed] in *.
  - left. destruct P3 as [W3 _]. eexists _, _, _. split; [reflexivity|]. exact (clear_revoke_spec _ W3).
  - right. destruct P3 as [-> P3]. by split.
Qed.

(** The log of the example ends. *)
Lemma recover_safe_witness :
  exists err rs' seq, jbd2_journal_recover None 8 Demo.j Demo.rs = Done (err, rs', seq) /\ table_wf (rs_revoke rs') /\ table_empty (rs_revoke rs').
Proof.
  destruct (recover_safe Demo.j None Demo.rs 8) as [H|[H _]]; [by vm_compute|by right|apply Demo.ready_rs|apply Demo.ready_rs|exact H|].
  exfalso. vm_compute in H. discriminate.
Defined.

(** a log that is nothing but revoke blocks of the transaction expected
    first has no end: the first pass goes around the log for ever. *)
Theorem recovery_can_loop (j : journal_t) (fc_replay : option fc_callback) (rs : recovery_state) :
  geometry j -> in_log j (s_start (j_superblock j)) -> s_start (j_superblock j) <> 0 ->
  (forall p, in_log j p -> exists b, jread (rs_io rs) j p = inr b /\ header_ok b JBD2_REVOKE_BLOCK (s_sequence (j_superblock j))) ->
  forall fuel, jbd2_journal_recover fc_replay fuel j rs = Crash OutOfFuel.
Proof.
  intros G Hin Hst Hlog fuel. unfold jbd2_journal_recover. destruct (Z.eqb_spec (s_start (j_superblock j)) 0); [done|].
  unfold do_one_pass. cbn [is_scan]. set (rs0 := set_info _ _). set (tid := s_sequence _) in *.
  assert (H : forall fuel p, rs_io (ps_rs p) = rs_io rs -> next_commit_ID p = tid -> in_log j (next_log_block p) -> pass_loop fuel j PASS_SCAN p = Crash OutOfFuel).
  { clear rs0 fuel. intros fuel. induction fuel as [|fuel IH]; intros p Hio Ht Hp; [done|]. cbn [pass_loop].
    destruct (Hlog _ Hp) as (b & Hr & Hm & Hty & Hs). rewrite (turn_reads j G PASS_SCAN p b) by (rewrite ?Hio, ?Ht; auto). cbn zeta. rewrite Hty.
    cbn [Z.eqb Pos.eqb JBD2_DESCRIPTOR_BLOCK JBD2_COMMIT_BLOCK JBD2_REVOKE_BLOCK]. unfold pass_revoke. cbn [is_scan is_revoke negb andb obind].
    assert (Hw : in_log j (wrap j (next_log_block p + 1))) by (apply wrap_in_log; [done|done|destruct G; lia]).
    apply IH; destruct (jbd2_descriptor_block_csum_verify j b); done. }
  rewrite H; done.
Qed.

Definition loop_dev : device :=
  mk_dev (<[1001 := Demo.put (Demo.header JBD2_REVOKE_BLOCK 7)]> (<[1002 := Demo.put (Demo.header JBD2_REVOKE_BLOCK 7)]> ∅)) (fun _ => false) false.
Definition loop_journal : journal_t := mk_journal (mk_jsb 7 1 0 0 (replicate 16 0)) 2 0 0 1 3 1024 3 0 (fun o => inr (1000 + o)).

Lemma recovery_can_loop_witness :
  jbd2_journal_recover None 1000 loop_journal (set_io Demo.rs (mk_io loop_dev loop_dev true)) = Crash OutOfFuel.
Proof.
  apply (recovery_can_loop loop_journal None (set_io Demo.rs (mk_io loop_dev loop_dev true))); [by constructor; vm_compute|by vm_compute|done|].
  intros p Hp. assert (p = 1 \/ p = 2) as [-> | ->] by (unfold in_log in Hp; change (log_last loop_journal) with 3 in Hp; cbn [loop_journal j_first] in Hp; lia);
    (eexists; split; [vm_compute; reflexivity|by vm_compute]).
Defined.
