(* ===== verification/JournalWrite.v ===== *)
(** debugfs/do_journal.c: writing a transaction of data and revoke blocks into
    the journal, and debugfs/journal.c: the checksums of its blocks.

    The file the data blocks come from is the list of its bytes; [errno] is what
    the variable holds when the file ends early.  The time of day is a
    parameter.  Numbers are stored with the byte order of a little-endian
    machine. *)

From S2P Require Import Prelude Crc CrcBe Journal Revoke Recovery.

Local Open Scope Z_scope.

(** * Checksums *)

Definition jbd2_commit_block_csum_set (j : journal_t) (b : block) : block :=
  if negb (jbd2_journal_has_csum_v2or3 j) then b
  else
    let b := be_put 1 12 0 b in
    let b := be_put 1 13 0 b in
    let b := be_put 4 16 0 b in
    be_put 4 16 (jbd2_chksum (j_csum_seed j) (take (Z.to_nat (j_blocksize j)) b)) b.

Definition jbd2_descr_block_csum_set (j : journal_t) (b : block) : block :=
  if negb (jbd2_journal_has_csum_v2or3 j) then b
  else
    let tail := j_blocksize j - sizeof_block_tail in
    let b := be_put 4 tail 0 b in
    be_put 4 tail (jbd2_chksum (j_csum_seed j) (take (Z.to_nat (j_blocksize j)) b)) b.

Definition jbd2_revoke_csum_set (j : journal_t) (b : block) : block := jbd2_descr_block_csum_set j b.

Definition jbd2_block_tag_csum_set (j : journal_t) (b : block) (tagp : Z) (data : block) (seq : Z) : block :=
  if negb (jbd2_journal_has_csum_v2or3 j) then b
  else
    let csum32 := jbd2_chksum (j_csum_seed j) (be_encode 4 seq) in
    let csum32 := jbd2_chksum csum32 (take (Z.to_nat (j_blocksize j)) data) in
    if jbd2_has_feature_csum3 j then be_put 4 (tagp + 12) csum32 b
    else be_put 2 (tagp + 4) csum32 b.

(** * The state *)

Definition J_TRANS_MAGIC : Z := 0xD15EA5ED.
Definition J_TRANS_OPEN : Z := 1.
Definition J_TRANS_COMMITTED : Z := 2.

Record journal_transaction_s := mk_trans {
  magic : Z; t_block : Z; t_start : Z; t_end : Z; t_tid : Z; t_open : bool; t_committed : bool }.

(** The fields of the journal that writing changes, the channels, the memory
    for buffers, and what is kept of the super block of the file system. *)
Record session := mk_session {
  s_journal : journal_t; j_head : Z; j_tail : Z; j_tail_sequence : Z; j_transaction_sequence : Z; sb_dirty : bool;
  s_io : io; s_al : allocator; blocks_count : Z; needs_recovery : bool; super_dirty : bool }.

Definition with_io (s : session) (i : io) : session :=
  mk_session (s_journal s) (j_head s) (j_tail s) (j_tail_sequence s) (j_transaction_sequence s) (sb_dirty s)
    i (s_al s) (blocks_count s) (needs_recovery s) (super_dirty s).
Definition with_al (s : session) (al : allocator) : session :=
  mk_session (s_journal s) (j_head s) (j_tail s) (j_tail_sequence s) (j_transaction_sequence s) (sb_dirty s)
    (s_io s) al (blocks_count s) (needs_recovery s) (super_dirty s).
Definition with_journal (s : session) (j : journal_t) (dirty : bool) : session :=
  mk_session j (j_head s) (j_tail s) (j_tail_sequence s) (j_transaction_sequence s) dirty
    (s_io s) (s_al s) (blocks_count s) (needs_recovery s) (super_dirty s).
Definition with_head (s : session) (head seq : Z) : session :=
  mk_session (s_journal s) head (j_tail s) (j_tail_sequence s) seq (sb_dirty s)
    (s_io s) (s_al s) (blocks_count s) (needs_recovery s) (super_dirty s).
Definition with_tail (s : session) (tail seq : Z) : session :=
  mk_session (s_journal s) (j_head s) tail seq (j_transaction_sequence s) (sb_dirty s)
    (s_io s) (s_al s) (blocks_count s) (needs_recovery s) (super_dirty s).
Definition mark_needs_recovery (s : session) : session :=
  mk_session (s_journal s) (j_head s) (j_tail s) (j_tail_sequence s) (j_transaction_sequence s) (sb_dirty s)
    (s_io s) (s_al s) (blocks_count s) true true.

Definition with_superblock (j : journal_t) (sb : journal_superblock_t) : journal_t :=
  mk_journal sb (j_format_version j) (j_fc_first j) (j_fc_last j) (j_first j) (j_last j) (j_blocksize j) (j_total_len j) (j_csum_seed j) (j_bmap j).
Definition with_s_start (j : journal_t) (start : Z) : journal_t :=
  let sb := j_superblock j in
  with_superblock j (mk_jsb (s_sequence sb) start (s_feature_compat sb) (s_feature_incompat sb) (s_uuid sb)).
Definition jbd2_set_feature_revoke (j : journal_t) : journal_t :=
  let sb := j_superblock j in
  with_superblock j (mk_jsb (s_sequence sb) (s_start sb) (s_feature_compat sb) (Z.lor (s_feature_incompat sb) JBD2_FEATURE_INCOMPAT_REVOKE) (s_uuid sb)).

Definition at_block (t : journal_transaction_s) (b : Z) : journal_transaction_s :=
  mk_trans (magic t) b (t_start t) (t_end t) (t_tid t) (t_open t) (t_committed t).

(** [getblk], which may find no memory. *)
Definition getblk_mem (al : allocator) (k : kdev) (blocknr blocksize : Z) : option buffer_head * allocator :=
  match malloc al with
  | (None, al) => (None, al)
  | (Some _, al) => (Some (getblk k blocknr blocksize), al)
  end.

(** A buffer written to block [blk] of the journal. *)
Definition write_at (i : io) (j : journal_t) (bh : buffer_head) (blk : Z) : Z * io * buffer_head :=
  match j_bmap j blk with
  | inl err => (err, i, bh)
  | inr phys =>
      let '(i, bh) := ll_write_block i (mark_buffer_dirty (set_blocknr bh phys)) in
      (b_err bh, i, bh)
  end.

(** The header of a block of the log. *)
Definition put_header (blocktype seq : Z) (b : block) : block :=
  be_put 4 8 seq (be_put 4 4 blocktype (be_put 4 0 JBD2_MAGIC_NUMBER b)).

(** What every operation on a transaction checks first. *)
Definition trans_is_open (t : journal_transaction_s) : bool :=
  (magic t =? J_TRANS_MAGIC) && negb (t_committed t || negb (t_open t)).

(** * Data blocks *)

Record adding := mk_adding {
  a_io : io; curr_blk : Z; jdb_blk : Z; a_bh : buffer_head; data_bh : buffer_head; jdbt : Z; a_fp : list Z }.

Definition or_flags (b : block) (tagp f : Z) : block := be_put 2 (tagp + 6) (Z.lor (t_flags b tagp) f) b.

(** [sizeof(journal_block_tag_t)]: the unit of [jdbt + tag_bytes]. *)
Definition sizeof_tag : Z := 12.

(** A tag filled out, for a data block that is escaped when it looks like a
    block of the log; also the size of the tag. *)
Definition fill_tag (j : journal_t) (b : block) (jdbt blk tid : Z) (data : block) (last : bool) : block * block * Z :=
  let tag_bytes := journal_tag_bytes j in
  let b := be_put 4 jdbt (Z.land blk 0xFFFFFFFF) b in
  let b := be_put 2 (jdbt + 6) 0 b in
  let '(b, tag_bytes) :=
    if negb (jdbt =? sizeof_journal_header) then (or_flags b jdbt JBD2_FLAG_SAME_UUID, tag_bytes)
    else (splice b (Z.to_nat (jdbt + sizeof_tag * tag_bytes)) (s_uuid (j_superblock j)), tag_bytes + 16) in
  let b := if last then or_flags b jdbt JBD2_FLAG_LAST_TAG else b in
  let '(b, data) :=
    if be_at 4 0 data =? JBD2_MAGIC_NUMBER then (or_flags b jdbt JBD2_FLAG_ESCAPE, be_put 4 0 0 data) else (b, data) in
  let b := if jbd2_has_feature_64bit j then be_put 4 (jdbt + 8) (Z.shiftr blk 32) b else b in
  (jbd2_block_tag_csum_set j b jdbt data tid, data, tag_bytes).

(** Loops that are left with [goto error]: [inl] is the error, which may be 0,
    and [inr] is the end of the loop. *)

(** The descriptor block written out when it has no space for another tag. *)
Definition descriptor_full (j : journal_t) (a : adding) : (Z * adding) + adding :=
  if j_blocksize j - csum_size j <? jdbt a + journal_tag_bytes j then
    let bh := set_data (a_bh a) (jbd2_descr_block_csum_set j (b_data (a_bh a))) in
    let '(err, i, bh) := write_at (a_io a) j bh (jdb_blk a) in
    if negb (err =? 0) then inl (err, mk_adding i (curr_blk a) (jdb_blk a) bh (data_bh a) (jdbt a) (a_fp a))
    else inr (mk_adding i (curr_blk a + 1) (curr_blk a) bh (data_bh a) sizeof_journal_header (a_fp a))
  else inr a.

Definition is_nil {A} (l : list A) : bool := match l with [] => true | _ => false end.

(** The tag and the data block of one block of the list. *)
Definition add_one_block (j : journal_t) (count tid blk : Z) (last : bool) (a : adding) : (Z * adding) + adding :=
  if count <=? blk then inl (EXT2_ET_BAD_BLOCK_NUM, a)
  else
    let '(b, data, tag_bytes) := fill_tag j (b_data (a_bh a)) (jdbt a) blk tid (b_data (data_bh a)) last in
    let '(err, i, dbh) := write_at (a_io a) j (set_data (data_bh a) data) (curr_blk a) in
    if negb (err =? 0) then inl (err, mk_adding i (curr_blk a) (jdb_blk a) (set_data (a_bh a) b) dbh (jdbt a) (a_fp a))
    else inr (mk_adding i (curr_blk a + 1) (jdb_blk a) (set_data (a_bh a) b) dbh (jdbt a + tag_bytes) (a_fp a)).

Fixpoint add_blocks_loop (j : journal_t) (count tid errno : Z) (block_list : list Z) (a : adding) : (Z * adding) + adding :=
  match block_list with
  | [] => inr a
  | blk :: rest =>
      let size := Z.to_nat (j_blocksize j) in
      if (length (a_fp a) <? size)%nat then inl (errno, a)
      else
        let a := mk_adding (a_io a) (curr_blk a) (jdb_blk a) (a_bh a) (set_data (data_bh a) (take size (a_fp a))) (jdbt a) (drop size (a_fp a)) in
        match descriptor_full j a with
        | inl e => inl e
        | inr a =>
            match add_one_block j count tid blk (is_nil rest) a with
            | inl e => inl e
            | inr a => add_blocks_loop j count tid errno rest a
            end
        end
  end.

(** The last descriptor block, behind the loop. *)
Definition last_descriptor (j : journal_t) (a : adding) : Z * adding :=
  if negb (jdbt a =? sizeof_journal_header) then
    let bh := set_data (a_bh a) (jbd2_descr_block_csum_set j (b_data (a_bh a))) in
    let '(err, i, bh) := write_at (a_io a) j bh (jdb_blk a) in
    (err, mk_adding i (curr_blk a) (jdb_blk a) bh (data_bh a) (jdbt a) (a_fp a))
  else (0, a).

Definition journal_add_blocks_to_trans (s : session) (t : journal_transaction_s) (block_list fp : list Z) (errno : Z)
  : Z * session * journal_transaction_s :=
  let j := s_journal s in
  if negb (trans_is_open t) then (EXT2_ET_INVALID_ARGUMENT, s, t)
  else if is_nil block_list then (0, s, t)
  else
    match getblk_mem (s_al s) K_DEV_JOURNAL (t_block t) (j_blocksize j) with
    | (None, al) => (ENOMEM, with_al s al, t)
    | (Some data_bh0, al) =>
        match getblk_mem al K_DEV_JOURNAL (t_block t) (j_blocksize j) with
        | (None, al) => (ENOMEM, with_al s al, t)
        | (Some bh, al) =>
            let bh := set_data bh (put_header JBD2_DESCRIPTOR_BLOCK (t_tid t) (b_data bh)) in
            let a := mk_adding (s_io s) (t_block t + 1) (t_block t) bh data_bh0 sizeof_journal_header fp in
            let '(err, a) :=
              match add_blocks_loop j (blocks_count s) (t_tid t) errno block_list a with
              | inl e => e
              | inr a => last_descriptor j a
              end in
            (err, with_io (with_al s al) (brelse (brelse (a_io a) (a_bh a)) (data_bh a)), at_block t (curr_blk a))
        end
    end.

(** * Revoke blocks *)

Record revoking := mk_revoking { r_io : io; r_curr : Z; r_bh : buffer_head; r_offset : Z }.

(** The revoke block written out with the space it uses. *)
Definition write_revoke_block (j : journal_t) (r : revoking) : Z * revoking :=
  let b := be_put 4 12 (r_offset r) (b_data (r_bh r)) in
  let bh := set_data (r_bh r) (jbd2_revoke_csum_set j b) in
  let '(err, i, bh) := write_at (r_io r) j bh (r_curr r) in
  (err, mk_revoking i (r_curr r) bh (r_offset r)).

Definition revoke_full (j : journal_t) (r : revoking) : (Z * revoking) + revoking :=
  if j_blocksize j - csum_size j <? r_offset r + record_len j then
    let '(err, r) := write_revoke_block j r in
    if negb (err =? 0) then inl (err, r) else inr (mk_revoking (r_io r) (r_curr r + 1) (r_bh r) sizeof_revoke_header)
  else inr r.

Fixpoint add_revoke_loop (j : journal_t) (count : Z) (revoke_list : list Z) (r : revoking) : (Z * revoking) + revoking :=
  match revoke_list with
  | [] => inr r
  | blk :: rest =>
      match revoke_full j r with
      | inl e => inl e
      | inr r =>
          if count <=? blk then inl (EXT2_ET_BAD_BLOCK_NUM, r)
          else
            let b := be_put (if jbd2_has_feature_64bit j then 8 else 4) (r_offset r) blk (b_data (r_bh r)) in
            add_revoke_loop j count rest (mk_revoking (r_io r) (r_curr r) (set_data (r_bh r) b) (r_offset r + record_len j))
      end
  end.

Definition journal_add_revoke_to_trans (s : session) (t : journal_transaction_s) (revoke_list : list Z)
  : Z * session * journal_transaction_s :=
  let j := s_journal s in
  if negb (trans_is_open t) then (EXT2_ET_INVALID_ARGUMENT, s, t)
  else if is_nil revoke_list then (0, s, t)
  else
    match getblk_mem (s_al s) K_DEV_JOURNAL (t_block t) (j_blocksize j) with
    | (None, al) => (ENOMEM, with_al s al, t)
    | (Some bh, al) =>
        let bh := set_data bh (put_header JBD2_REVOKE_BLOCK (t_tid t) (b_data bh)) in
        let '(err, r) :=
          match add_revoke_loop j (blocks_count s) revoke_list (mk_revoking (s_io s) (t_block t) bh sizeof_revoke_header) with
          | inl e => e
          | inr r =>
              if 0 <? r_offset r then
                let '(err, r) := write_revoke_block j r in
                if negb (err =? 0) then (err, r) else (err, mk_revoking (r_io r) (r_curr r + 1) (r_bh r) (r_offset r))
              else (0, r)
          end in
        (err, with_io (with_al s al) (brelse (r_io r) (r_bh r)), at_block t (r_curr r))
    end.

(** * Commit *)

(** The checksum of the blocks of the transaction; the blocks are read back. *)
Fixpoint chksum_v1 (n : nat) (i : io) (j : journal_t) (cbh : buffer_head) (cblk csum : Z) : Z + Z :=
  match n with
  | O => inr csum
  | S n =>
      match j_bmap j cblk with
      | inl err => inl err
      | inr phys =>
          let cbh := ll_read_block i (mark_buffer_uptodate (set_blocknr cbh phys) false) in
          if negb (b_err cbh =? 0) then inl (b_err cbh)
          else chksum_v1 n i j cbh (cblk + 1) (ext2fs_crc32_be 0 csum (take (Z.to_nat (j_blocksize j)) (b_data cbh)))
      end
  end.

Definition committed (t : journal_transaction_s) : journal_transaction_s :=
  mk_trans (magic t) (t_block t + 1) (t_start t) (t_end t) (t_tid t) false true.

(** The commit block without its own checksum; [csum]: the checksum of the
    transaction.  The seconds go into the first half of a field of 8 bytes. *)
Definition commit_block (tid csum : Z) (v1 : bool) (tv_sec tv_usec : Z) (b : block) : block :=
  let b := put_header JBD2_COMMIT_BLOCK tid b in
  let b := be_put 1 12 (if v1 then JBD2_CRC32_CHKSUM else 0) b in
  let b := be_put 1 13 (if v1 then JBD2_CRC32_CHKSUM_SIZE else 0) b in
  let b := be_put 4 16 (if v1 then csum else 0) b in
  let b := be_put 4 48 tv_sec b in
  let b := be_put 4 52 0 b in
  be_put 4 56 (tv_usec * 1000) b.

Definition journal_commit_trans (s : session) (t : journal_transaction_s) (tv_sec tv_usec : Z)
  : Z * session * journal_transaction_s :=
  let j := s_journal s in
  if negb (trans_is_open t) then (EXT2_ET_INVALID_ARGUMENT, s, t)
  else
    match getblk_mem (s_al s) K_DEV_JOURNAL 0 (j_blocksize j) with
    | (None, al) => (ENOMEM, with_al s al, t)
    | (Some bh, al) =>
        let v1 := jbd2_has_feature_checksum j in
        let '(csum, al) :=
          if v1 then
            match getblk_mem al K_DEV_JOURNAL 0 (j_blocksize j) with
            | (None, al) => (inl ENOMEM, al)
            | (Some cbh, al) => (chksum_v1 (Z.to_nat (t_block t - t_start t)) (s_io s) j cbh (t_start t) (2 ^ 32 - 1), al)
            end
          else (inr 0, al) in
        let s := with_al s al in
        match csum with
        | inl err => (err, s, t)
        | inr csum =>
            let b := commit_block (t_tid t) csum v1 tv_sec tv_usec (b_data bh) in
            let bh := set_data bh (jbd2_commit_block_csum_set j b) in
            let '(err, i, bh) := write_at (s_io s) j bh (t_block t) in
            let s := with_io s (brelse i bh) in
            if negb (err =? 0) then (err, s, t) else (0, mark_needs_recovery s, committed t)
        end
    end.

(** * Transactions *)

Definition journal_guess_blocks (j : journal_t) (data_blocks revoke_blocks : Z) : Z :=
  let bs := j_blocksize j - csum_size j in
  let ret := 1 + revoke_blocks * record_len j / bs in
  let bs := j_blocksize j - 16 - csum_size j in
  ret + data_blocks * journal_tag_bytes j / bs + data_blocks.

Definition journal_open_trans (s : session) (blocks : Z) : Z * journal_transaction_s :=
  let tid := if j_tail s =? 0 then j_tail_sequence s else j_transaction_sequence s in
  let start := if j_tail s =? 0 then j_first (s_journal s) else j_head s in
  if j_last (s_journal s) <? start + blocks then (ENOSPC, mk_trans 0 start start 0 tid true false)
  else (0, mk_trans J_TRANS_MAGIC start start (start + blocks) tid true false).

Definition journal_close_trans (s : session) (t : journal_transaction_s) : Z * session :=
  if negb (magic t =? J_TRANS_MAGIC) then (EXT2_ET_INVALID_ARGUMENT, s)
  else if negb (t_committed t) then (0, s)
  else
    let s :=
      if j_tail s =? 0 then with_tail (with_journal s (with_s_start (s_journal s) (t_start t)) (sb_dirty s)) (t_start t) (t_tid t)
      else s in
    let s := with_head s (t_end t + 1) (u32 (t_tid t + 1)) in
    (0, if needs_recovery s then s else mark_needs_recovery s).

(** [no_commit]: [JOURNAL_WRITE_NO_COMMIT]. *)
Definition journal_write (s : session) (no_commit : bool) (block_list revoke_list fp : list Z) (errno tv_sec tv_usec : Z) : Z * session :=
  let s := if is_nil revoke_list then s else with_journal s (jbd2_set_feature_revoke (s_journal s)) true in
  let blocks := journal_guess_blocks (s_journal s) (Z.of_nat (length block_list)) (Z.of_nat (length revoke_list)) in
  let '(err, t) := journal_open_trans s blocks in
  if negb (err =? 0) then (err, s)
  else
    let '(err, s, t) := journal_add_blocks_to_trans s t block_list fp errno in
    if negb (err =? 0) then (err, s)
    else
      let '(err, s, t) := journal_add_revoke_to_trans s t revoke_list in
      if negb (err =? 0) then (err, s)
      else
        let '(err, s, t) := if no_commit then (0, s, t) else journal_commit_trans s t tv_sec tv_usec in
        if negb (err =? 0) then (err, s) else journal_close_trans s t.

(** * Opening and closing *)

(** The head of a log that is not empty: the block behind the last commit
    block.  The log ends without an error at a block that does not belong to
    it. *)
Fixpoint find_head_loop (fuel : nat) (i : io) (j : journal_t) (bh : buffer_head) (next_commit_ID next_log_block head_block : Z)
  : outcome (Z + Z * Z) :=
  match fuel with
  | O => Crash OutOfFuel
  | S fuel =>
      match j_bmap j next_log_block with
      | inl err => Done (inl err)
      | inr phys =>
          let bh := ll_read_block i (mark_buffer_uptodate (set_blocknr bh phys) false) in
          if negb (b_err bh =? 0) then Done (inl (b_err bh))
          else
            let wrap_last (v : Z) := if j_last j <=? v then u64 (v - (j_last j - j_first j)) else v in
            let next_log_block := wrap_last (next_log_block + 1) in
            let b := b_data bh in
            if negb (h_magic b =? JBD2_MAGIC_NUMBER) then Done (inr (next_commit_ID, head_block))
            else if negb (h_sequence b =? next_commit_ID) then Done (inr (next_commit_ID, head_block))
            else if h_blocktype b =? JBD2_DESCRIPTOR_BLOCK then
              let* n := count_tags j b in
              find_head_loop fuel i j bh next_commit_ID (wrap_last (next_log_block + n)) head_block
            else if h_blocktype b =? JBD2_COMMIT_BLOCK then
              find_head_loop fuel i j bh (u32 (next_commit_ID + 1)) next_log_block next_log_block
            else if h_blocktype b =? JBD2_REVOKE_BLOCK then
              find_head_loop fuel i j bh next_commit_ID next_log_block head_block
            else Done (inl (- EINVAL))
      end
  end.

Definition journal_find_head (fuel : nat) (s : session) : outcome (Z * session) :=
  let j := s_journal s in
  let start := s_start (j_superblock j) in
  if start =? 0 then Done (0, s)
  else
    match getblk_mem (s_al s) K_DEV_JOURNAL 0 (j_blocksize j) with
    | (None, al) => Done (ENOMEM, with_al s al)
    | (Some bh, al) =>
        let s := with_al s al in
        let* r := find_head_loop fuel (s_io s) j bh (s_sequence (j_superblock j)) start start in
        Done (match r with
              | inl err => (err, s)
              | inr (seq, head) => (0, with_head s head seq)
              end)
    end.

(** What [ext2fs_close_journal] leaves in the super block of the journal of a
    file system that can be written. *)
Definition close_superblock (s : session) : journal_t :=
  let j := s_journal s in
  let sb := j_superblock j in
  with_superblock j (mk_jsb (j_tail_sequence s) (s_start sb) (s_feature_compat sb) (s_feature_incompat sb) (s_uuid sb)).
