(* ===== verification/JournalWriteSpec.v ===== *)
(** What debugfs writes into the journal is a log that recovery understands: the
    fields of the blocks, the blocks of a transaction, and where they are. *)

From S2P Require Import Prelude Crc CrcBe Journal Revoke Recovery RecoverySpec JournalWrite.

Local Open Scope Z_scope.

(** * Blocks of the size of the journal's *)

Section writer.
Context (j : journal_t).

Record writer_ok : Prop := {
  wo_blocksize : 1024 <= j_blocksize j < 2 ^ 30;
  wo_uuid : length (s_uuid (j_superblock j)) = 16%nat;
  wo_uuid_bytes : bytes_ok (s_uuid (j_superblock j));
  wo_seed : is_u32 (j_csum_seed j)
}.

Context (W : writer_ok).

Record blk_ok (b : block) : Prop := { bo_length : Z.of_nat (length b) = j_blocksize j; bo_bytes : bytes_ok b }.

Lemma splice_ok b off bs : 0 <= off -> off + Z.of_nat (length bs) <= j_blocksize j -> bytes_ok bs -> blk_ok b -> blk_ok (splice b (Z.to_nat off) bs).
Proof.
  intros H1 H2 Hb [Hl Hy]. constructor; [rewrite length_splice; lia|]. unfold splice. apply bytes_ok_app. split; [by apply bytes_ok_take|].
  apply bytes_ok_app. split; [done|by apply bytes_ok_drop].
Qed.

Lemma be_encode_bytes n z : bytes_ok (be_encode n z).
Proof. unfold be_encode. apply Forall_reverse, le_encode_bytes. Qed.

Lemma be_put_ok n off z b : 0 <= off -> off + Z.of_nat n <= j_blocksize j -> blk_ok b -> blk_ok (be_put n off z b).
Proof. intros H1 H2 H. apply splice_ok; rewrite ?length_be_encode; [done|done|apply be_encode_bytes|done]. Qed.

Lemma zeros_ok : blk_ok (replicate (Z.to_nat (j_blocksize j)) 0).
Proof. constructor; [rewrite length_replicate; destruct W; lia|]. by apply Forall_replicate. Qed.

(** The blocks agree on their first [n] bytes. *)
Definition prefix (n : Z) (b b' : block) : Prop := take (Z.to_nat n) b = take (Z.to_nat n) b'.

Lemma prefix_trans n b1 b2 b3 : prefix n b1 b2 -> prefix n b2 b3 -> prefix n b1 b3.
Proof. apply eq_trans. Qed.

Lemma prefix_le n m b b' : m <= n -> prefix n b b' -> prefix m b b'.
Proof.
  intros H E. unfold prefix in *. replace (take (Z.to_nat m) b) with (take (Z.to_nat m) (take (Z.to_nat n) b)) by (rewrite take_take; f_equal; lia).
  rewrite E, take_take. f_equal. lia.
Qed.

Lemma prefix_splice n off bs b : 0 <= off -> n <= off -> off <= j_blocksize j -> blk_ok b -> prefix n b (splice b (Z.to_nat off) bs).
Proof. intros H1 H2 H3 [Hl _]. unfold prefix. rewrite take_splice by lia. done. Qed.

Lemma prefix_put n m off z b : 0 <= off -> n <= off -> off <= j_blocksize j -> blk_ok b -> prefix n b (be_put m off z b).
Proof. apply prefix_splice. Qed.

Lemma be_at_prefix m off n b b' : 0 <= off -> off + Z.of_nat m <= n -> prefix n b b' -> be_at m off b' = be_at m off b.
Proof.
  intros H1 H2 E. unfold be_at. f_equal. unfold prefix in E.
  assert (Hx : forall c : block, take m (drop (Z.to_nat off) c) = take m (drop (Z.to_nat off) (take (Z.to_nat n) c))).
  { intros c. rewrite skipn_firstn_comm, take_take. f_equal. lia. }
  by rewrite (Hx b), (Hx b'), E.
Qed.

Lemma be_at_splice_other n off off' bs b :
  0 <= off -> 0 <= off' -> off' + Z.of_nat (length bs) <= j_blocksize j -> blk_ok b ->
  (off + Z.of_nat n <= off' \/ off' + Z.of_nat (length bs) <= off) -> be_at n off (splice b (Z.to_nat off') bs) = be_at n off b.
Proof.
  intros H1 H2 H3 B [H|H].
  - apply (be_at_prefix n off off'); [done|done|]. apply prefix_splice; [done|lia|lia|done].
  - unfold be_at. destruct B as [Hl _]. rewrite drop_splice by lia. done.
Qed.

Lemma be_at_other n m off off' z b :
  0 <= off -> 0 <= off' -> off' + Z.of_nat m <= j_blocksize j -> blk_ok b ->
  (off + Z.of_nat n <= off' \/ off' + Z.of_nat m <= off) -> be_at n off (be_put m off' z b) = be_at n off b.
Proof. intros H1 H2 H3 B H. apply be_at_splice_other; rewrite ?length_be_encode; done. Qed.

Lemma be_at_same n off z b : 0 <= off -> off + Z.of_nat n <= j_blocksize j -> blk_ok b -> be_at n off (be_put n off z b) = z mod 2 ^ (8 * Z.of_nat n).
Proof. intros H1 H2 [Hl _]. apply be_at_put; lia. Qed.

Lemma be_at_range n off b : blk_ok b -> 0 <= off -> off + Z.of_nat n <= j_blocksize j -> 0 <= be_at n off b < 2 ^ (8 * Z.of_nat n).
Proof.
  intros [Hl Hy] H1 H2. unfold be_at, be_decode.
  assert (Hb : bytes_ok (reverse (take n (drop (Z.to_nat off) b)))) by (apply Forall_reverse, bytes_ok_take, bytes_ok_drop, Hy).
  apply le_decode_range in Hb. rewrite length_reverse, length_take, length_drop in Hb. by replace (n `min` (length b - Z.to_nat off))%nat with n in Hb by lia.
Qed.

(** Writing a field twice. *)
Lemma be_put_put n off z z' b : 0 <= off -> off + Z.of_nat n <= j_blocksize j -> blk_ok b -> be_put n off z' (be_put n off z b) = be_put n off z' b.
Proof.
  intros H1 H2 [Hl _]. unfold be_put, splice. rewrite !length_be_encode.
  rewrite take_app_le by (rewrite length_take; lia). rewrite take_take, Nat.min_id. f_equal. f_equal.
  rewrite app_assoc, drop_app_ge by (rewrite length_app, length_take, length_be_encode; lia). rewrite drop_drop. f_equal.
  rewrite length_app, length_take, length_be_encode. lia.
Qed.

(** Writing what is already there. *)
Lemma be_put_at n off b : 0 <= off -> off + Z.of_nat n <= j_blocksize j -> blk_ok b -> be_put n off (be_at n off b) b = b.
Proof.
  intros H1 H2 [Hl Hy]. unfold be_put, splice. rewrite length_be_encode.
  assert (be_encode n (be_at n off b) = take n (drop (Z.to_nat off) b)) as ->.
  { unfold be_encode, be_at, be_decode. rewrite <- (reverse_involutive (take n _)) at 2. f_equal.
    rewrite <- (le_encode_decode (reverse (take n (drop (Z.to_nat off) b)))) at 2 by (apply Forall_reverse, bytes_ok_take, bytes_ok_drop, Hy).
    f_equal. rewrite length_reverse, length_take, length_drop. lia. }
  rewrite <- (take_drop (Z.to_nat off) b) at 4. f_equal. rewrite <- (take_drop n (drop (Z.to_nat off) b)) at 2. f_equal. by rewrite drop_drop.
Qed.

(** Solves the side conditions on blocks, and reads fields. *)
Ltac blk :=
  lazymatch goal with
  | |- blk_ok (be_put _ _ _ _) => apply be_put_ok; blk
  | |- blk_ok (splice _ _ _) => apply splice_ok; blk
  | |- blk_ok _ => done
  | |- bytes_ok _ => done
  | |- _ => lia
  end.
Ltac fields := repeat first [rewrite be_at_same by blk | rewrite be_at_other by blk | rewrite be_at_splice_other by blk].

Lemma jbd2_chksum_range crc b : is_u32 crc -> bytes_ok b -> is_u32 (jbd2_chksum crc b).
Proof.
  intros Hc Hb. unfold jbd2_chksum, Crc32c.ext2fs_crc32c_le. rewrite Crc32c.crc32_body_ref by done. by apply Crc32c.byte_loop_ref.
Qed.

Lemma take_block b : blk_ok b -> take (Z.to_nat (j_blocksize j)) b = b.
Proof. intros [Hl _]. apply take_ge. lia. Qed.

(** ** Checksums at the end of a block *)

Lemma descr_csum_ok b : blk_ok b -> blk_ok (jbd2_descr_block_csum_set j b) /\ prefix (j_blocksize j - csum_size j) b (jbd2_descr_block_csum_set j b) /\
  jbd2_descriptor_block_csum_verify j (jbd2_descr_block_csum_set j b) = true.
Proof.
  intros B. unfold jbd2_descr_block_csum_set, jbd2_descriptor_block_csum_verify, csum_size, sizeof_block_tail. destruct W as [Hbs _ _ Hseed].
  destruct (jbd2_journal_has_csum_v2or3 j); cbn [negb]; [|split; [done|split; [done|done]]].
  set (off := j_blocksize j - 4). set (b0 := be_put 4 off 0 b). assert (B0 : blk_ok b0) by (unfold b0, off; blk).
  rewrite (take_block b0) by done. set (c := jbd2_chksum _ b0). assert (Hc : is_u32 c) by (apply jbd2_chksum_range; [done|apply B0]). split; [unfold off; blk|]. split.
  - unfold b0. rewrite be_put_put by (unfold off; blk). apply prefix_put; unfold off; blk.
  - rewrite be_put_put by (unfold off; blk). replace (be_put 4 off 0 b0) with b0 by (unfold b0; by rewrite be_put_put by (unfold off; blk)).
    rewrite take_block by done. fold c. rewrite be_at_same by (unfold off; blk). apply Z.eqb_eq, Z.mod_small. exact Hc.
Qed.

(** ** Tags *)

Definition tag_flags (first last esc : bool) : Z :=
  Z.lor (Z.lor (if first then 0 else JBD2_FLAG_SAME_UUID) (if last then JBD2_FLAG_LAST_TAG else 0)) (if esc then JBD2_FLAG_ESCAPE else 0).

Definition escaped (data : block) : bool := be_at 4 0 data =? JBD2_MAGIC_NUMBER.
Definition escape (data : block) : block := if escaped data then be_put 4 0 0 data else data.

(** Block numbers a tag of the journal can hold. *)
Definition blk_range (blk : Z) : Prop := 0 <= blk < if jbd2_has_feature_64bit j then 2 ^ 64 else 2 ^ 32.

(** What a reader finds in a tag. *)
Record tag_ok (tid : Z) (b : block) (p blk : Z) (data : block) (last : bool) : Prop := {
  to_block : tag_block j b p = blk;
  to_flags : t_flags b p = tag_flags (p =? sizeof_journal_header) last (escaped data);
  to_csum : tag_csum_ok j b p (escape data) tid = true
}.

Lemma tag_ok_prefix tid b b' p blk data last :
  0 <= p -> prefix (p + journal_tag_bytes j) b b' -> tag_ok tid b p blk data last -> tag_ok tid b' p blk data last.
Proof.
  intros Hp E [H1 H2 H3].
  assert (Hat : forall m off, 0 <= off -> off + Z.of_nat m <= p + journal_tag_bytes j -> be_at m off b' = be_at m off b)
    by (intros m off Ho Hm; exact (be_at_prefix m off _ b b' Ho Hm E)).
  pose proof (tag_bytes_range j) as Htb.
  pose proof (tag_bytes_64bit j) as H64. pose proof (tag_bytes_csum3 j) as H16.
  constructor.
  - rewrite <- H1. unfold tag_block, t_blocknr, t_blocknr_high. rewrite Hat by lia. destruct (jbd2_has_feature_64bit j); [|done].
    specialize (H64 eq_refl). by rewrite Hat by lia.
  - rewrite <- H2. unfold t_flags. by rewrite Hat by lia.
  - rewrite <- H3. unfold tag_csum_ok, t_checksum32, t_checksum16. destruct (negb _); [done|]. destruct (jbd2_has_feature_csum3 j); [specialize (H16 eq_refl)|]; by rewrite Hat by lia.
Qed.

Lemma escape_ok data : blk_ok data -> blk_ok (escape data).
Proof. intros B. unfold escape. destruct W. destruct (escaped data); [blk|done]. Qed.

(** The flags and the uuid of a tag, in front of its other fields. *)
Definition fill_flags (b : block) (p : Z) (last esc : bool) : block :=
  let b := if negb (p =? sizeof_journal_header) then or_flags b p JBD2_FLAG_SAME_UUID
           else splice b (Z.to_nat (p + sizeof_tag * journal_tag_bytes j)) (s_uuid (j_superblock j)) in
  let b := if last then or_flags b p JBD2_FLAG_LAST_TAG else b in
  if esc then or_flags b p JBD2_FLAG_ESCAPE else b.

Lemma fill_flags_spec b p last esc :
  blk_ok b -> sizeof_journal_header <= p -> p + 8 <= j_blocksize j -> t_flags b p = 0 ->
  let b' := fill_flags b p last esc in
  blk_ok b' /\ prefix (p + 6) b b' /\ t_flags b' p = tag_flags (p =? sizeof_journal_header) last esc.
Proof.
  intros B Hp Hs H0. destruct W as [Hbs Hu Hub _]. pose proof (tag_bytes_range j) as Htb. unfold fill_flags, or_flags, t_flags, sizeof_journal_header, sizeof_tag in *. cbn zeta.
  destruct (Z.eqb_spec p 12) as [->|Hne]; cbn [negb].
  - set (b1 := splice b _ _). assert (B1 : blk_ok b1) by (unfold b1; apply splice_ok; [lia|lia|done|done]).
    assert (P1 : prefix 18 b b1) by (unfold b1; apply prefix_splice; [lia|lia|lia|done]).
    assert (F1 : be_at 2 18 b1 = 0) by (rewrite <- H0; apply (be_at_prefix 2 18 (12 + 12 * journal_tag_bytes j)); [lia|lia|]; unfold b1; apply prefix_splice; [lia|lia|lia|done]).
    destruct last, esc; (split; [blk|split]); try (change (12 + 6) with 18; repeat (eapply prefix_trans; [|apply prefix_put; blk]); exact P1);
      change (12 + 6) with 18; fields; rewrite ?F1; done.
  - destruct last, esc; (split; [blk|split]); try (repeat (eapply prefix_trans; [|apply prefix_put; blk]); done); fields; rewrite ?H0; done.
Qed.

Lemma fill_tag_eq b p blk tid data last :
  fill_tag j b p blk tid data last =
    (let b := be_put 2 (p + 6) 0 (be_put 4 p (Z.land blk 0xFFFFFFFF) b) in
     let b := fill_flags b p last (escaped data) in
     let b := if jbd2_has_feature_64bit j then be_put 4 (p + 8) (Z.shiftr blk 32) b else b in
     (jbd2_block_tag_csum_set j b p (escape data) tid, escape data,
      journal_tag_bytes j + if p =? sizeof_journal_header then 16 else 0)).
Proof.
  unfold fill_tag, fill_flags, escape, escaped. destruct (p =? sizeof_journal_header); cbn [negb]; destruct last, (be_at 4 0 data =? JBD2_MAGIC_NUMBER); rewrite ?Z.add_0_r; done.
Qed.

(** The block number in the two halves. *)
Lemma block_halves blk : 0 <= blk < 2 ^ 64 -> Z.lor (Z.land blk 0xFFFFFFFF mod 2 ^ 32) (Z.shiftl (Z.shiftr blk 32 mod 2 ^ 32) 32) = blk.
Proof.
  intros H. rewrite (Z.mod_small (Z.shiftr blk 32)) by (rewrite Z.shiftr_div_pow2 by lia; split; [apply Z.div_pos; lia|apply Z.div_lt_upper_bound; lia]).
  change 0xFFFFFFFF with (Z.ones 32). rewrite Z.land_ones by lia. rewrite Zmod_mod. rewrite Z.lor_comm, Z.shiftl_mul_pow2, lor_high_low by (try apply Z.mod_pos_bound; lia).
  rewrite Z.shiftr_div_pow2 by lia. pose proof (Z.div_mod blk (2 ^ 32)). lia.
Qed.

Lemma fill_tag_spec b p blk tid data last :
  blk_ok b -> sizeof_journal_header <= p -> p + journal_tag_bytes j <= j_blocksize j - csum_size j -> blk_range blk -> blk_ok data ->
  exists b', fill_tag j b p blk tid data last = (b', escape data, journal_tag_bytes j + if p =? sizeof_journal_header then 16 else 0) /\
    blk_ok b' /\ prefix p b b' /\ tag_ok tid b' p blk data last.
Proof.
  intros B Hp Hs Hr D. rewrite fill_tag_eq. cbn zeta. pose proof W as [Hbs _ _ Hseed]. pose proof (tag_bytes_range j) as Htb. pose proof (csum_size_range j) as Hcs.
  assert (Hp0 : 12 <= p) by (unfold sizeof_journal_header in Hp; lia).
  set (b1 := be_put 4 p _ b). assert (B1 : blk_ok b1) by (unfold b1; blk).
  set (b2 := be_put 2 (p + 6) 0 b1). assert (B2 : blk_ok b2) by (unfold b2; blk).
  assert (F2 : t_flags b2 p = 0) by (unfold t_flags, b2; by fields).
  destruct (fill_flags_spec b2 p last (escaped data) B2 Hp ltac:(lia) F2) as (B3 & P3 & F3). set (b3 := fill_flags b2 p last (escaped data)) in *.
  assert (N3 : be_at 4 p b3 = Z.land blk 0xFFFFFFFF mod 2 ^ 32).
  { rewrite (be_at_prefix 4 p (p + 6) _ _ ltac:(lia) ltac:(lia) P3). unfold b2, b1. by fields. }
  set (b4 := if jbd2_has_feature_64bit j then _ else b3).
  pose proof (tag_bytes_64bit j) as H64. pose proof (tag_bytes_csum3 j) as H16.
  assert (B4 : blk_ok b4) by (unfold b4; destruct (jbd2_has_feature_64bit j); [specialize (H64 eq_refl); blk|done]).
  assert (P4 : prefix (p + 8) b3 b4) by (unfold b4; destruct (jbd2_has_feature_64bit j); [apply prefix_put; blk|done]).
  assert (N4 : tag_block j b4 p = blk).
  { unfold tag_block, t_blocknr, t_blocknr_high. rewrite (be_at_prefix 4 p (p + 8) _ _ ltac:(lia) ltac:(lia) P4), N3. unfold b4, blk_range in *.
    destruct (jbd2_has_feature_64bit j).
    - specialize (H64 eq_refl). fields. by apply block_halves.
    - change 0xFFFFFFFF with (Z.ones 32). rewrite Z.land_ones, Zmod_mod, Z.mod_small by lia. done. }
  assert (F4 : t_flags b4 p = tag_flags (p =? sizeof_journal_header) last (escaped data)).
  { rewrite <- F3. unfold t_flags. by rewrite (be_at_prefix 2 (p + 6) (p + 8) _ _ ltac:(lia) ltac:(lia) P4). }
  assert (P : prefix p b b4).
  { eapply prefix_trans; [|eapply prefix_le; [|exact P4]; lia]. eapply prefix_trans; [|eapply prefix_le; [|exact P3]; lia].
    unfold b2, b1. eapply prefix_trans; apply prefix_put; blk. }
  eexists. split; [reflexivity|]. clearbody b4. clear b3 B3 P3 F3 N3 P4 B1 B2 F2 b2 b1 B.
  unfold jbd2_block_tag_csum_set. set (c := jbd2_chksum (jbd2_chksum _ _) _).
  assert (Hc : is_u32 c).
  { apply jbd2_chksum_range; [apply jbd2_chksum_range; [done|apply be_encode_bytes]|]. apply bytes_ok_take, (escape_ok data D). }
  destruct (negb (jbd2_journal_has_csum_v2or3 j)) eqn:En.
  - split; [done|]. split; [done|]. constructor; [done|done|]. unfold tag_csum_ok. by rewrite En.
  - destruct (jbd2_has_feature_csum3 j) eqn:E3; [specialize (H16 eq_refl)|].
    + split; [blk|]. split; [eapply prefix_trans; [exact P|apply prefix_put; blk]|]. constructor.
      * rewrite <- N4. unfold tag_block, t_blocknr, t_blocknr_high. by fields.
      * rewrite <- F4. unfold t_flags. by fields.
      * unfold tag_csum_ok, tag_chksum. rewrite En, E3. fold c. unfold t_checksum32. fields. apply Z.eqb_eq, Z.mod_small. exact Hc.
    + split; [blk|]. split; [eapply prefix_trans; [exact P|apply prefix_put; blk]|]. constructor.
      * rewrite <- N4. unfold tag_block, t_blocknr, t_blocknr_high. by fields.
      * rewrite <- F4. unfold t_flags. by fields.
      * unfold tag_csum_ok, tag_chksum. rewrite En, E3. fold c. unfold t_checksum16. fields. apply Z.eqb_eq. done.
Qed.

(** ** Descriptor blocks *)

Abbreviation tb := (journal_tag_bytes j) (only parsing).
Abbreviation space := (j_blocksize j - csum_size j) (only parsing).

(** Where the tags are: the first one is followed by the uuid. *)
Definition tag_pos (k : nat) : Z := match k with O => 12 | S _ => 28 + Z.of_nat k * tb end.

(** How many of them a block has space for. *)
Definition tag_cap : nat := Z.to_nat ((space - 28) / tb).

Lemma tag_cap_pos : (0 < tag_cap)%nat.
Proof.
  pose proof (tag_bytes_range j). pose proof (csum_size_range j). destruct W as [Hbs _ _ _]. unfold tag_cap.
  assert (1 <= (space - 28) / tb) by (apply Z.div_le_lower_bound; lia). lia.
Qed.

Lemma tag_pos_full k : (k <= tag_cap)%nat -> (space <? tag_pos k + tb) = (k =? tag_cap)%nat.
Proof.
  intros Hk. pose proof (tag_bytes_range j) as Htb. pose proof (csum_size_range j) as Hcs. pose proof tag_cap_pos as Hc. destruct W as [Hbs _ _ _].
  unfold tag_cap in *. set (q := (space - 28) / tb) in *. pose proof (Z.div_mod (space - 28) tb ltac:(lia)) as Hdm. fold q in Hdm.
  pose proof (Z.mod_pos_bound (space - 28) tb ltac:(lia)) as Hm. assert (Hq : 0 <= q) by (apply Z.div_pos; lia).
  destruct (Z.ltb_spec space (tag_pos k + tb)) as [H|H], (Nat.eqb_spec k (Z.to_nat q)) as [E|E]; try done; exfalso; destruct k as [|k]; cbn [tag_pos] in H; try nia.
Qed.

Lemma tag_pos_next k : tag_pos (S k) = tag_pos k + (tb + if tag_pos k =? sizeof_journal_header then 16 else 0).
Proof.
  pose proof (tag_bytes_range j). unfold sizeof_journal_header. destruct k as [|k]; cbn [tag_pos]; [change (12 =? 12) with true; lia|].
  destruct (Z.eqb_spec (28 + Z.of_nat (S k) * tb) 12); lia.
Qed.

Lemma tag_pos_ge k : 12 <= tag_pos k.
Proof. pose proof (tag_bytes_range j). destruct k; cbn [tag_pos]; lia. Qed.

Lemma flags_last first last esc : flag_set (tag_flags first last esc) JBD2_FLAG_LAST_TAG = last.
Proof. by destruct first, last, esc. Qed.
Lemma flags_same first last esc : flag_set (tag_flags first last esc) JBD2_FLAG_SAME_UUID = negb first.
Proof. by destruct first, last, esc. Qed.
Lemma flags_escape first last esc : flag_set (tag_flags first last esc) JBD2_FLAG_ESCAPE = esc.
Proof. by destruct first, last, esc. Qed.

(** A descriptor block that holds tags for blocks and their data; [final]: the
    last of them is the last of the transaction. *)
Record holds (tid : Z) (b : block) (cur : list (Z * list Z)) (final : bool) : Prop := {
  ho_ok : blk_ok b;
  ho_header : header_ok b JBD2_DESCRIPTOR_BLOCK tid;
  ho_tags : forall k x, cur !! k = Some x -> tag_ok tid b (tag_pos k) x.1 x.2 (final && (S k =? length cur)%nat);
  ho_data : Forall (fun x => blk_ok x.2) cur;
  ho_cap : (length cur <= tag_cap)%nat
}.

Lemma tag_pos_fits k : (k < tag_cap)%nat -> tag_pos k + tb <= space.
Proof. intros Hk. pose proof (tag_pos_full k ltac:(lia)) as H. destruct (Nat.eqb_spec k tag_cap); [lia|]. by apply Z.ltb_ge in H. Qed.

Lemma tag_pos_mono k m : (k <= m)%nat -> tag_pos k <= tag_pos m.
Proof. pose proof (tag_bytes_range j). destruct k, m; cbn [tag_pos]; nia. Qed.

(** The tags a reader finds. *)
Lemma tags_from_holds tid b cur final fuel : forall k,
  holds tid b cur final -> (k < length cur \/ k = length cur /\ final = false)%nat -> (final = true \/ length cur = tag_cap) ->
  j_blocksize j - tag_pos k < Z.of_nat fuel -> (0 < fuel)%nat ->
  tags_from j fuel b (tag_pos k) = tag_pos <$> seq k (length cur - k).
Proof.
  pose proof (tag_bytes_range j) as Htb. pose proof (csum_size_range j) as Hcs.
  induction fuel as [|fuel IH]; intros k H Hk Hend Hf H0; [lia|]. cbn [tags_from].
  destruct (decide (k < length cur)%nat) as [Hlt|Hge].
  - pose proof (ho_cap _ _ _ _ H) as Hcap. destruct (lookup_lt_is_Some_2 cur k Hlt) as [x Hx]. destruct (ho_tags _ _ _ _ H k x Hx) as [_ Hfl _].
    pose proof (tag_pos_fits k ltac:(lia)) as Hfit. destruct (Z.leb_spec (tag_pos k + tb) space); [|lia].
    replace (length cur - k)%nat with (S (length cur - S k)) by lia. cbn [seq fmap list_fmap]. f_equal.
    rewrite Hfl, flags_last. destruct (final && (S k =? length cur)%nat) eqn:El.
    + apply andb_true_iff in El as [_ El]. apply Nat.eqb_eq in El. replace (length cur - S k)%nat with 0%nat by lia. done.
    + unfold next_tag. rewrite flags_same. rewrite andb_false_iff, Nat.eqb_neq in El.
      replace (tag_pos k + tb + _) with (tag_pos (S k)) by (rewrite tag_pos_next; destruct (tag_pos k =? sizeof_journal_header); cbn [negb]; lia).
      pose proof (tag_pos_next k) as Hnx. assert (tag_pos k + tb <= tag_pos (S k)) by (rewrite Hnx; destruct (_ =? _); lia).
      apply IH; [done| |done|lia|lia].
      destruct (decide (S k < length cur)%nat); [by left|right]. split; [lia|]. destruct final; [|done]. destruct El as [El|El]; [done|lia].
  - destruct Hk as [Hk|[-> ->]]; [lia|]. destruct Hend as [He|Hcap]; [done|]. pose proof (tag_pos_full (length cur) ltac:(lia)) as Hfull.
    rewrite Hcap, Nat.eqb_refl in Hfull. apply Z.ltb_lt in Hfull. rewrite <- Hcap in Hfull. destruct (Z.leb_spec (tag_pos (length cur) + tb) space); [lia|].
    by rewrite Nat.sub_diag.
Qed.

Lemma tags_holds tid b cur final :
  holds tid b cur final -> (0 < length cur)%nat -> (final = true \/ length cur = tag_cap) -> tags j b = tag_pos <$> seq 0 (length cur).
Proof.
  intros H Hl Hend. unfold tags. change sizeof_journal_header with (tag_pos 0). rewrite (tags_from_holds tid b cur final); [f_equal; f_equal; lia|done|by left|done| |];
    unfold tag_fuel; [|lia]. cbn [tag_pos]. destruct W. lia.
Qed.

Lemma header_prefix b b' ty tid : prefix 12 b b' -> header_ok b ty tid -> header_ok b' ty tid.
Proof.
  intros E (H1 & H2 & H3). unfold header_ok, h_magic, h_blocktype, h_sequence in *.
  rewrite (be_at_prefix 4 0 12 b b'), (be_at_prefix 4 4 12 b b'), (be_at_prefix 4 8 12 b b') by (done || lia). done.
Qed.

Lemma holds_prefix tid b b' cur final :
  blk_ok b' -> prefix (tag_pos (length cur)) b b' \/ prefix space b b' -> holds tid b cur final -> holds tid b' cur final.
Proof.
  intros B' E [B Hh Ht Hd Hc]. pose proof (tag_bytes_range j) as Htb. pose proof (csum_size_range j) as Hcs.
  assert (Hpre : forall n, n <= space -> n <= tag_pos (length cur) -> prefix n b b').
  { intros n H1 H2. destruct E as [E|E]; by eapply prefix_le; [|exact E]. }
  constructor; [done| |  |done|done].
  - apply (header_prefix b); [|done]. apply Hpre; [destruct W; lia|apply tag_pos_ge].
  - intros k x Hx. pose proof (lookup_lt_Some _ _ _ Hx) as Hk. apply (tag_ok_prefix tid b b'); [pose proof (tag_pos_ge k); lia| |by apply Ht].
    pose proof (tag_pos_fits k ltac:(lia)). apply Hpre; [lia|]. pose proof (tag_pos_mono (S k) (length cur) ltac:(lia)) as Hm. pose proof (tag_pos_next k) as Hn.
    destruct (_ =? _); lia.
Qed.

Lemma restored_escape b p blk data last tid : blk_ok data -> tag_ok tid b p blk data last -> restored j b p (escape data) = data.
Proof.
  intros D [_ Hf _]. unfold restored. rewrite Hf, flags_escape, take_block by (by apply escape_ok). unfold escape. destruct (escaped data) eqn:E; [|done].
  destruct W. rewrite be_put_put by blk. unfold escaped in E. apply Z.eqb_eq in E. rewrite <- E. apply be_put_at; blk.
Qed.

(** The descriptor block of a log that the block buffer becomes. *)
Definition desc_entry (b : block) (cur : list (Z * list Z)) : entry := Desc (jbd2_descr_block_csum_set j b) (escape <$> cur.*2).

Lemma desc_writes_at tid b cur final : forall k l,
  l = drop k cur -> holds tid b cur final ->
  zip_with (fun tagp d => (tag_block j b tagp, restored j b tagp d)) (tag_pos <$> seq k (length l)) (escape <$> l.*2) = l.
Proof.
  intros k l. revert k. induction l as [|[blk d] l IH]; intros k El H; [done|]. cbn [length seq fmap list_fmap zip_with].
  assert (Hx : cur !! k = Some (blk, d)) by (rewrite <- (Nat.add_0_r k), <- lookup_drop, <- El; done).
  pose proof (ho_tags _ _ _ _ H k _ Hx) as Ht. pose proof (Forall_lookup_1 _ _ _ _ (ho_data _ _ _ _ H) Hx) as D. cbn [fst snd] in *. f_equal.
  - f_equal; [by apply Ht|]. exact (restored_escape b _ blk d _ tid D Ht).
  - apply IH; [|done]. rewrite <- Nat.add_1_r, <- drop_drop, <- El. done.
Qed.

Lemma csum_at tid b cur final : forall k l,
  l = drop k cur -> holds tid b cur final ->
  Forall2 (fun tagp d => tag_csum_ok j b tagp d tid = true) (tag_pos <$> seq k (length l)) (escape <$> l.*2).
Proof.
  intros k l. revert k. induction l as [|[blk d] l IH]; intros k El H; [constructor|]. cbn [length seq fmap list_fmap].
  assert (Hx : cur !! k = Some (blk, d)) by (rewrite <- (Nat.add_0_r k), <- lookup_drop, <- El; done).
  constructor; [exact (to_csum _ _ _ _ _ _ (ho_tags _ _ _ _ H k _ Hx))|]. apply IH; [|done]. rewrite <- Nat.add_1_r, <- drop_drop, <- El. done.
Qed.

Lemma desc_entry_ok tid b cur final :
  holds tid b cur final -> (0 < length cur)%nat -> (final = true \/ length cur = tag_cap) -> Z.of_nat (length cur) <= log_last j - j_first j ->
  entry_ok j tid (desc_entry b cur) /\ entry_writes j (desc_entry b cur) = cur /\ length (entry_blocks (desc_entry b cur)) = S (length cur).
Proof.
  intros H Hl Hend Hlog. destruct (descr_csum_ok b (ho_ok _ _ _ _ H)) as (B' & P & Hv). set (b' := jbd2_descr_block_csum_set j b) in *.
  assert (H' : holds tid b' cur final) by (apply (holds_prefix tid b b'); [done|by right|done]).
  pose proof (tags_holds tid b' cur final H' Hl Hend) as Ht. unfold desc_entry. fold b'. split; [|split].
  - split; [exact (ho_header _ _ _ _ H')|]. split; [done|]. rewrite Ht. rewrite length_fmap, length_seq. split; [done|]. by apply (csum_at tid b' cur final 0 cur).
  - cbn [entry_writes]. unfold desc_writes. rewrite Ht. by apply (desc_writes_at tid b' cur final 0 cur).
  - cbn [entry_blocks length]. by rewrite !length_fmap.
Qed.

(** A tag more. *)
Lemma holds_snoc tid b cur blk data last :
  holds tid b cur false -> (length cur < tag_cap)%nat -> blk_range blk -> blk_ok data ->
  exists b', fill_tag j b (tag_pos (length cur)) blk tid data last = (b', escape data, tag_pos (S (length cur)) - tag_pos (length cur)) /\
    holds tid b' (cur ++ [(blk, data)]) last.
Proof.
  intros H Hc Hr D. pose proof (tag_pos_ge (length cur)) as Hp. pose proof (tag_pos_fits _ Hc) as Hfit.
  destruct (fill_tag_spec b (tag_pos (length cur)) blk tid data last (ho_ok _ _ _ _ H) Hp Hfit Hr D) as (b' & E & B' & P & T).
  exists b'. split; [rewrite E, tag_pos_next; f_equal; lia|].
  destruct (holds_prefix tid b b' cur false B' (or_introl P) H) as [_ Hh Ht Hd _].
  constructor; [done|done| |apply Forall_app; split; [done|by constructor]|rewrite length_app; cbn [length]; lia].
  intros k x Hx. rewrite length_app. cbn [length]. apply lookup_app_Some in Hx as [Hx|[Hk Hx]].
  - pose proof (lookup_lt_Some _ _ _ Hx). replace (S k =? length cur + 1)%nat with false by (symmetry; apply Nat.eqb_neq; lia). rewrite andb_false_r. by apply Ht.
  - destruct (decide (k = length cur)) as [->|Hne]; [|rewrite lookup_ge_None_2 in Hx; [done|cbn [length]; lia]].
    rewrite Nat.sub_diag in Hx. injection Hx as <-. replace (S (length cur) =? length cur + 1)%nat with true by (symmetry; apply Nat.eqb_eq; lia). by rewrite andb_true_r.
Qed.

End writer.
