(* ===== verification/JournalWriteLog.v ===== *)
(** The blocks debugfs writes, on the device: the loops of
    [journal_add_blocks_to_trans] and [journal_add_revoke_to_trans] and the
    commit leave a transaction in the log. *)

From S2P Require Import Prelude Crc CrcBe Journal Revoke Recovery RecoverySpec JournalWrite JournalWriteSpec.

Local Open Scope Z_scope.

Section log.
Context (j : journal_t) (W : writer_ok j).

(** * The journal on the device *)

Definition in_area (o : Z) : Prop := j_first j <= o < j_last j.

(** Every block of the area lies somewhere, on its own, and can be written. *)
Record area_ok (i : io) : Prop := {
  ar_first : 0 <= j_first j;
  ar_total : j_last j <= j_total_len j < 2 ^ 32;
  ar_map : forall o, in_area o -> exists pb, j_bmap j o = inr pb /\ wr_err (get_dev i K_DEV_JOURNAL) pb = false;
  ar_inj : forall o o' pb, in_area o -> in_area o' -> j_bmap j o = inr pb -> j_bmap j o' = inr pb -> o = o'
}.

(** A block that is not a block of the area. *)
Definition outside_area (i : io) (blk : Z) : Prop := same i = true -> forall o pb, in_area o -> j_bmap j o = inr pb -> pb <> blk.

(** What writing to the blocks from [lo] to [hi] leaves alone. *)
Record same_but (lo hi : Z) (i i' : io) : Prop := {
  sb_same : same i' = same i;
  sb_area : area_ok i';
  sb_reads : forall o, in_area o -> ~ (lo <= o < hi) -> jread i' j o = jread i j o;
  sb_fs : forall blk, outside_area i blk -> blocks (fs_io i') !! blk = blocks (fs_io i) !! blk;
  sb_errs : wr_err (fs_io i') = wr_err (fs_io i) /\ flush_err (fs_io i') = flush_err (fs_io i)
}.

Lemma same_but_refl lo hi i : area_ok i -> same_but lo hi i i.
Proof. intros A. by constructor. Qed.

Lemma same_but_trans lo hi i1 i2 i3 : same_but lo hi i1 i2 -> same_but lo hi i2 i3 -> same_but lo hi i1 i3.
Proof.
  intros [S1 A1 R1 F1 [E1 E1']] [S2 A2 R2 F2 [E2 E2']]. constructor; [congruence|done| | |split; congruence].
  - intros o Ho Hn. by rewrite R2, R1.
  - intros blk Hb. rewrite F2, F1; [done|done|]. unfold outside_area in *. by rewrite S1.
Qed.

Lemma same_but_widen lo hi lo' hi' i i' : lo' <= lo -> hi <= hi' -> same_but lo hi i i' -> same_but lo' hi' i i'.
Proof. intros H1 H2 [S A R F E]. constructor; try done. intros o Ho Hn. apply R; [done|lia]. Qed.

Record clean_bh (bh : buffer_head) : Prop := { cb_dev : b_dev bh = K_DEV_JOURNAL; cb_dirty : b_dirty bh = false; cb_err : b_err bh = 0 }.

Lemma clean_set_data bh d : clean_bh bh -> clean_bh (set_data bh d).
Proof. intros [H1 H2 H3]. by constructor. Qed.

Lemma brelse_clean i bh : clean_bh bh -> brelse i bh = i.
Proof. intros [_ H _]. unfold brelse. by rewrite H. Qed.

Lemma write_at_spec i bh o :
  area_ok i -> in_area o -> clean_bh bh ->
  exists i' bh', write_at i j bh o = (0, i', bh') /\ clean_bh bh' /\ b_data bh' = b_data bh /\
    same_but o (o + 1) i i' /\ jread i' j o = inr (b_data bh).
Proof.
  intros A Ho [Hd Hdi He]. pose proof A as [Hf Ht Hm Hi]. destruct (Hm o Ho) as (pb & Eb & Hw). unfold write_at. rewrite Eb.
  unfold ll_write_block. cbn [mark_buffer_dirty set_blocknr b_dirty b_dev b_blocknr b_data b_err]. rewrite Hd, Hw, He.
  set (d := get_dev i K_DEV_JOURNAL) in *. set (d' := mk_dev _ _ _). eexists _, _. split; [reflexivity|]. cbn [b_data]. split; [by constructor|]. split; [done|].
  assert (Hg : get_dev (set_dev i K_DEV_JOURNAL d') K_DEV_JOURNAL = d') by (unfold set_dev, get_dev; by destruct (same i) eqn:Es; cbn [same fs_io journal_io]; rewrite ?Es).
  assert (Hsm : same (set_dev i K_DEV_JOURNAL d') = same i) by (unfold set_dev; by destruct (same i) eqn:Es).
  assert (Hrd : forall o' pb', in_area o' -> j_bmap j o' = inr pb' ->
    jread (set_dev i K_DEV_JOURNAL d') j o' = match blocks d' !! pb' with Some x => inr x | None => inl (- EIO) end /\
    jread i j o' = match blocks d !! pb' with Some x => inr x | None => inl (- EIO) end).
  { intros o' pb' [H1 H2] E. unfold jread. rewrite (u32_small o') by (unfold is_u32; lia). destruct (Z.leb_spec (j_total_len j) o'); [lia|]. rewrite E.
    unfold wait_on_buffer, getblk, ll_read_block. cbn [b_uptodate negb b_dev b_blocknr]. rewrite Hg. fold d.
    split; [by destruct (blocks d' !! pb')|by destruct (blocks d !! pb')]. }
  split.
  - constructor; [done| | | |].
    + constructor; [done|done| |done]. intros o' Ho'. destruct (Hm o' Ho') as (pb' & E' & Hw'). exists pb'. split; [done|]. by rewrite Hg.
    + intros o' Ho' Hn. destruct (Hm o' Ho') as (pb' & E' & _). destruct (Hrd o' pb' Ho' E') as [-> ->]. unfold d'. cbn [blocks].
      rewrite lookup_insert_ne; [done|]. intros <-. apply Hn. rewrite (Hi o o' pb Ho Ho' Eb E'). lia.
    + intros blk Hb. unfold set_dev. destruct (same i) eqn:Es; [|done]. unfold d', d. cbn [fs_io get_dev blocks]. rewrite Es. rewrite lookup_insert_ne; [done|].
      by apply (Hb Es o).
    + unfold set_dev, d', d, get_dev. destruct (same i); done.
  - destruct (Hrd o pb Ho Eb) as [-> _]. unfold d'. cbn [blocks]. by rewrite lookup_insert_eq.
Qed.

(** The blocks [bs] in the journal from [o] on. *)
Definition stored (i : io) (o : Z) (bs : list (list Z)) : Prop := forall k b, bs !! k = Some b -> jread i j (o + Z.of_nat k) = inr b.

Lemma stored_app i o bs1 bs2 : stored i o bs1 -> stored i (o + Z.of_nat (length bs1)) bs2 -> stored i o (bs1 ++ bs2).
Proof.
  intros H1 H2 k b Hk. apply lookup_app_Some in Hk as [Hk|[Hge Hk]]; [by apply H1|]. apply H2 in Hk. rewrite <- Hk. f_equal. lia.
Qed.

Lemma stored_one i o b : jread i j o = inr b -> stored i o [b].
Proof. intros H [|k] x Hx; [injection Hx as <-; by rewrite Z.add_0_r|done]. Qed.

Lemma stored_nil i o : stored i o [].
Proof. intros k b H. by rewrite lookup_nil in H. Qed.

Lemma stored_same lo hi i i' o bs :
  same_but lo hi i i' -> j_first j <= o -> o + Z.of_nat (length bs) <= j_last j ->
  (o + Z.of_nat (length bs) <= lo \/ hi <= o) -> stored i o bs -> stored i' o bs.
Proof.
  intros S H1 H2 Hd H k b Hk. pose proof (lookup_lt_Some _ _ _ Hk). rewrite (sb_reads _ _ _ _ S); [by apply H|unfold in_area; lia|lia].
Qed.

(** Blocks stored one after the other are a log, which ends before the end of
    the area. *)
Lemma stored_log_at i bs : forall o,
  jbd2_has_feature_fast_commit j = false -> o + Z.of_nat (length bs) <= j_last j -> stored i o bs -> log_at j i o bs.
Proof.
  induction bs as [|b bs IH]; intros o Hfc Hl H; [done|]. cbn [length] in Hl. split.
  - specialize (H 0%nat b eq_refl). by rewrite Z.add_0_r in H.
  - destruct bs as [|b' bs]; [done|]. unfold wrap. rewrite Hfc. cbn [length] in Hl. destruct (Z.leb_spec (j_last j) (o + 1)); [lia|]. apply IH; [done|cbn [length]; lia|].
    intros k x Hk. specialize (H (S k) x Hk). rewrite <- H. f_equal. lia.
Qed.

(** * Data blocks *)

Abbreviation bsize := (Z.to_nat (j_blocksize j)) (only parsing).
Abbreviation cap := (tag_cap j) (only parsing).

(** The blocks of the file. *)
Fixpoint chunks (n : nat) (fp : list Z) : list (list Z) :=
  match n with O => [] | S n => take bsize fp :: chunks n (drop bsize fp) end.

Definition is_desc (e : entry) : Prop := match e with Desc _ _ => True | Rev _ => False end.

(** The state of the loop: [es] are the descriptor blocks that are complete, and
    [cur] are the blocks of the one that is being filled. *)
Record adding_inv (i0 : io) (start tid : Z) (es : list entry) (cur : list (Z * list Z)) (final : bool) (a : adding) : Prop := {
  ai_but : same_but start (curr_blk a) i0 (a_io a);
  ai_stored : stored (a_io a) start (entries_blocks es);
  ai_jdb : jdb_blk a = start + Z.of_nat (length (entries_blocks es));
  ai_data : stored (a_io a) (jdb_blk a + 1) (escape <$> cur.*2);
  ai_curr : curr_blk a = jdb_blk a + 1 + Z.of_nat (length cur);
  ai_holds : holds j tid (b_data (a_bh a)) cur final;
  ai_jdbt : jdbt a = tag_pos j (length cur);
  ai_bh : clean_bh (a_bh a);
  ai_dbh : clean_bh (data_bh a);
  ai_es : Forall (entry_ok j tid) es;
  ai_desc : Forall is_desc es;
  ai_len : length (entries_blocks es) = ((cap + 1) * length es)%nat
}.

Lemma entries_blocks_snoc es e : entries_blocks (es ++ [e]) = entries_blocks es ++ entry_blocks e.
Proof. unfold entries_blocks. rewrite fmap_app, concat_app. cbn [fmap list_fmap concat]. by rewrite app_nil_r. Qed.

(** The descriptor block written in front of its data. *)
Lemma write_descriptor i0 start tid es cur final a :
  adding_inv i0 start tid es cur final a -> jbd2_has_feature_fast_commit j = false -> j_first j <= start -> curr_blk a <= j_last j ->
  (0 < length cur)%nat -> (final = true \/ length cur = cap) ->
  let e := desc_entry j (b_data (a_bh a)) cur in
  exists i' bh', write_at (a_io a) j (set_data (a_bh a) (jbd2_descr_block_csum_set j (b_data (a_bh a)))) (jdb_blk a) = (0, i', bh') /\
    clean_bh bh' /\ b_data bh' = jbd2_descr_block_csum_set j (b_data (a_bh a)) /\ same_but start (curr_blk a) i0 i' /\
    stored i' start (entries_blocks (es ++ [e])) /\ entry_ok j tid e /\ entry_writes j e = cur /\ length (entry_blocks e) = S (length cur).
Proof.
  intros [Sb Ss Hj Sd Hc Hh _ Cb _ _ _ _] Hfc Hst Hcu Hl Hend e.
  destruct (write_at_spec (a_io a) _ (jdb_blk a) (sb_area _ _ _ _ Sb) ltac:(unfold in_area; lia) (clean_set_data _ (jbd2_descr_block_csum_set j (b_data (a_bh a))) Cb)) as (i' & bh' & E & C' & D' & Sw & Hr).
  exists i', bh'. split; [done|]. split; [done|]. split; [done|].
  assert (Sw' : same_but start (curr_blk a) (a_io a) i') by (eapply same_but_widen; [| |exact Sw]; lia). split; [by eapply same_but_trans|].
  destruct (desc_entry_ok j W tid _ cur final Hh Hl Hend) as (Hok & Hw & Hlen); [unfold log_last; rewrite Hfc; lia|].
  split; [|done]. rewrite entries_blocks_snoc. apply stored_app.
  - eapply stored_same; [exact Sw|done|lia|left; lia|done].
  - rewrite <- Hj. cbn [entry_blocks e desc_entry]. change (?x :: ?l) with ([x] ++ l). apply stored_app; [by apply stored_one|].
    cbn [length]. eapply stored_same; [exact Sw|lia|rewrite !length_fmap; lia|right; lia|done].
Qed.

Lemma holds_nothing tid b cur final : holds j tid b cur final -> holds j tid (jbd2_descr_block_csum_set j b) [] false.
Proof.
  intros H. destruct (descr_csum_ok j W b (ho_ok _ _ _ _ _ H)) as (B & P & _). apply (holds_prefix j W tid b); [done|by right|].
  constructor; [apply H|apply H| |constructor|cbn [length]; lia]. intros k x Hx. by rewrite lookup_nil in Hx.
Qed.

Lemma descriptor_full_spec i0 start tid es cur a :
  adding_inv i0 start tid es cur false a -> jbd2_has_feature_fast_commit j = false -> j_first j <= start -> curr_blk a < j_last j ->
  exists es' cur' a', descriptor_full j a = inr a' /\ adding_inv i0 start tid es' cur' false a' /\
    (length cur' < cap)%nat /\ (cap * length es' + length cur' = cap * length es + length cur)%nat /\
    concat (entry_writes j <$> es') ++ cur' = concat (entry_writes j <$> es) ++ cur /\
    a_fp a' = a_fp a /\ data_bh a' = data_bh a.
Proof.
  intros I Hfc Hst Hcu. pose proof I as [Sb Ss Hj Sd Hc Hh Ht Cb Cd He Hds Hlen]. pose proof (ho_cap _ _ _ _ _ Hh) as Hcap. pose proof (tag_cap_pos j W) as Hcp.
  unfold descriptor_full. rewrite Ht, (tag_pos_full j W _ Hcap). destruct (Nat.eqb_spec (length cur) cap) as [Hfull|Hnot].
  - destruct (write_descriptor i0 start tid es cur false a I Hfc Hst ltac:(lia) ltac:(lia) (or_intror Hfull)) as (i' & bh' & -> & C' & D' & Sb' & Ss' & Hok & Hw & Hl).
    cbn [Z.eqb negb]. exists (es ++ [desc_entry j (b_data (a_bh a)) cur]), [], (mk_adding i' (curr_blk a + 1) (curr_blk a) bh' (data_bh a) sizeof_journal_header (a_fp a)).
    split; [done|]. rewrite !length_app. cbn [length]. split; [|split; [done|split; [lia|split]]].
    + constructor; cbn [a_io curr_blk jdb_blk a_bh data_bh jdbt length]; try done.
      * eapply same_but_widen; [| |exact Sb']; lia.
      * rewrite entries_blocks_snoc, length_app, Hl, Hc, Hj. lia.
      * lia.
      * rewrite D'. by apply holds_nothing in Hh.
      * apply Forall_app. split; [done|]. by constructor.
      * apply Forall_app. split; [done|]. by constructor.
      * rewrite entries_blocks_snoc, !length_app, Hl, Hlen. cbn [length]. lia.
    + rewrite fmap_app, concat_app. cbn [fmap list_fmap concat]. by rewrite Hw, !app_nil_r.
    + done.
  - exists es, cur, a. split; [done|]. split; [done|]. split; [lia|]. done.
Qed.

Lemma add_one_block_spec i0 start tid es cur a count blk last :
  adding_inv i0 start tid es cur false a -> (length cur < cap)%nat -> j_first j <= start -> curr_blk a < j_last j ->
  blk < count -> blk_range j blk -> blk_ok j (b_data (data_bh a)) ->
  exists a', add_one_block j count tid blk last a = inr a' /\ adding_inv i0 start tid es (cur ++ [(blk, b_data (data_bh a))]) last a' /\ a_fp a' = a_fp a.
Proof.
  intros I Hl Hst Hcu Hb Hr D. pose proof I as [Sb Ss Hj Sd Hc Hh Ht Cb Cd He Hds Hlen]. unfold add_one_block. destruct (Z.leb_spec count blk); [lia|].
  destruct (holds_snoc j W tid _ cur blk (b_data (data_bh a)) last Hh Hl Hr D) as (b' & E & Hh'). rewrite Ht, E.
  destruct (write_at_spec (a_io a) _ (curr_blk a) (sb_area _ _ _ _ Sb) ltac:(unfold in_area; lia) (clean_set_data _ (escape (b_data (data_bh a))) Cd)) as (i' & bh' & -> & C' & D' & Sw & Hrd).
  cbn [Z.eqb negb]. eexists. split; [reflexivity|]. split; [|done]. constructor; cbn [a_io curr_blk jdb_blk a_bh data_bh jdbt]; try done.
  - eapply same_but_trans; [eapply same_but_widen; [| |exact Sb]; lia|]. eapply same_but_widen; [| |exact Sw]; lia.
  - eapply stored_same; [exact Sw|done|lia|left; lia|done].
  - rewrite !fmap_app. cbn [fmap list_fmap snd]. apply stored_app.
    + eapply stored_same; [exact Sw|lia|rewrite !length_fmap; lia|left; rewrite !length_fmap; lia|done].
    + rewrite !length_fmap, <- Hc. apply stored_one. exact Hrd.
  - rewrite length_app. cbn [length]. lia.
  - rewrite length_app. cbn [length]. replace (length cur + 1)%nat with (S (length cur)) by lia. lia.
  - by apply clean_set_data.
Qed.

(** The blocks [n] data blocks take, with their descriptor blocks. *)
Definition data_used (n : nat) : nat := match n with O => 0 | S m => n + m / cap + 1 end.

Lemma data_used_eq q c : (0 < c)%nat -> (c <= cap)%nat -> data_used (cap * q + c) = ((cap + 1) * q + 1 + c)%nat.
Proof.
  intros H1 H2. pose proof (tag_cap_pos j W) as Hcp. unfold data_used. destruct (cap * q + c)%nat as [|m] eqn:E; [lia|].
  assert (m / cap = q)%nat as -> by (symmetry; apply (Nat.div_unique m cap q (c - 1)); lia). lia.
Qed.

Lemma data_used_le q c n : (cap * q + c < n)%nat -> (c <= cap)%nat -> ((cap + 1) * q + 2 + c <= data_used n)%nat.
Proof.
  intros H1 H2. pose proof (tag_cap_pos j W) as Hcp. unfold data_used. destruct n as [|m]; [lia|].
  assert (q <= m / cap)%nat by (apply Nat.div_le_lower_bound; lia). lia.
Qed.

Lemma data_used_full q n : (cap * q + cap < n)%nat -> ((cap + 1) * q + cap + 3 <= data_used n)%nat.
Proof.
  intros H1. pose proof (tag_cap_pos j W) as Hcp. unfold data_used. destruct n as [|m]; [lia|].
  assert (S q <= m / cap)%nat by (apply Nat.div_le_lower_bound; lia). lia.
Qed.

Lemma chunk_ok fp : bytes_ok fp -> (bsize <= length fp)%nat -> blk_ok j (take bsize fp).
Proof. intros Hb Hl. constructor; [rewrite length_take; destruct W; lia|by apply bytes_ok_take]. Qed.

Lemma add_blocks_loop_spec i0 start tid count errno n : forall block_list es cur a,
  adding_inv i0 start tid es cur false a -> jbd2_has_feature_fast_commit j = false -> j_first j <= start ->
  start + Z.of_nat (data_used n) <= j_last j -> n = (cap * length es + length cur + length block_list)%nat ->
  block_list <> [] -> Forall (fun blk => blk < count /\ blk_range j blk) block_list ->
  bytes_ok (a_fp a) -> (length block_list * bsize <= length (a_fp a))%nat ->
  exists es' cur' a', add_blocks_loop j count tid errno block_list a = inr a' /\ adding_inv i0 start tid es' cur' true a' /\
    (0 < length cur')%nat /\ n = (cap * length es' + length cur')%nat /\
    concat (entry_writes j <$> es') ++ cur' = concat (entry_writes j <$> es) ++ cur ++ zip block_list (chunks (length block_list) (a_fp a)).
Proof.
  induction block_list as [|blk rest IH]; intros es cur a I Hfc Hst Hsp Hn Hne Hbl Hfp Hlen; [done|]. clear Hne. cbn [add_blocks_loop length] in *.
  apply Forall_cons in Hbl as [[Hb Hr] Hbl]. assert (Hsz : (bsize <= length (a_fp a))%nat) by (eapply Nat.le_trans; [apply Nat.le_add_r|exact Hlen]).
  destruct (Nat.ltb_spec (length (a_fp a)) bsize); [lia|].
  set (a0 := mk_adding _ _ _ _ _ _ _). pose proof (chunk_ok (a_fp a) Hfp ltac:(lia)) as D.
  pose proof (ho_cap _ _ _ _ _ (ai_holds _ _ _ _ _ _ _ I)) as Hcap.
  assert (I0 : adding_inv i0 start tid es cur false a0) by (destruct I; constructor; try done; by apply clean_set_data).
  assert (Hcur : curr_blk a = start + Z.of_nat ((cap + 1) * length es + 1 + length cur)) by (rewrite (ai_curr _ _ _ _ _ _ _ I), (ai_jdb _ _ _ _ _ _ _ I), (ai_len _ _ _ _ _ _ _ I); lia).
  pose proof (data_used_le (length es) (length cur) n ltac:(lia) Hcap).
  destruct (descriptor_full_spec i0 start tid es cur a0 I0 Hfc Hst) as (es1 & cur1 & a1 & -> & I1 & Hl1 & Hn1 & Hw1 & Hf1 & Hd1); [change (curr_blk a0) with (curr_blk a); lia|].
  assert (Hcur1 : curr_blk a1 = start + Z.of_nat ((cap + 1) * length es1 + 1 + length cur1)) by (rewrite (ai_curr _ _ _ _ _ _ _ I1), (ai_jdb _ _ _ _ _ _ _ I1), (ai_len _ _ _ _ _ _ _ I1); lia).
  pose proof (data_used_le (length es1) (length cur1) n ltac:(lia) ltac:(lia)).
  destruct (add_one_block_spec i0 start tid es1 cur1 a1 count blk (is_nil rest) I1 Hl1 Hst ltac:(lia) Hb Hr ltac:(rewrite Hd1; exact D)) as (a2 & -> & I2 & Hf2).
  rewrite Hd1 in I2. change (b_data (data_bh a0)) with (take bsize (a_fp a)) in I2. cbn [chunks zip zip_with]. destruct rest as [|blk' rest].
  - cbn [is_nil add_blocks_loop] in *. exists es1, (cur1 ++ [(blk, take bsize (a_fp a))]), a2. rewrite length_app. cbn [length] in *.
    split; [done|]. split; [done|]. split; [lia|]. split; [lia|]. by rewrite !app_assoc, Hw1, <- !app_assoc.
  - cbn [is_nil] in I2. destruct (IH es1 (cur1 ++ [(blk, take bsize (a_fp a))]) a2 I2) as (es' & cur' & a' & E & I' & Hl' & Hn' & Hw'); try done.
    + rewrite length_app. cbn [length] in *. lia.
    + rewrite Hf2, Hf1. by apply bytes_ok_drop.
    + rewrite Hf2, Hf1. change (a_fp a0) with (drop bsize (a_fp a)). rewrite length_drop. cbn [length] in *. lia.
    + exists es', cur', a'. split; [exact E|]. split; [done|]. split; [done|]. split; [done|].
      rewrite Hw', Hf2, Hf1. change (a_fp a0) with (drop bsize (a_fp a)). rewrite !app_assoc, Hw1, <- !app_assoc. done.
Qed.

(** What a step of a transaction left: the blocks of [es] from [start] on. *)
Record step_ok (i i' : io) (al' : allocator) (start tid : Z) (used : nat) (es : list entry) : Prop := {
  so_but : same_but start (start + Z.of_nat used) i i';
  so_mem : forall a, oom al' a = false;
  so_stored : stored i' start (entries_blocks es);
  so_ok : Forall (entry_ok j tid) es;
  so_len : length (entries_blocks es) = used
}.

Lemma put_header_ok ty tid b : blk_ok j b -> is_u32 tid -> is_u32 ty -> blk_ok j (put_header ty tid b) /\ header_ok (put_header ty tid b) ty tid.
Proof.
  intros B Ht Hy. destruct W as [Hbs _ _ _]. unfold put_header, header_ok, h_magic, h_blocktype, h_sequence.
  split; [repeat (apply be_put_ok; [done|lia|]); done|].
  set (b1 := be_put 4 0 _ b). assert (B1 : blk_ok j b1) by (apply be_put_ok; [done|lia|done]).
  set (b2 := be_put 4 4 _ b1). assert (B2 : blk_ok j b2) by (apply be_put_ok; [done|lia|done]).
  rewrite (be_at_other j 4 4 0 8), (be_at_other j 4 4 4 8), (be_at_same j 4 8) by (done || lia). unfold b2.
  rewrite (be_at_other j 4 4 0 4), (be_at_same j 4 4) by (done || lia). unfold b1. rewrite (be_at_same j 4 0) by (done || lia).
  split; [done|]. split; apply Z.mod_small; done.
Qed.

Lemma getblk_mem_ok al k n sz : (forall a, oom al a = false) -> exists al', getblk_mem al k n sz = (Some (getblk k n sz), al') /\ forall a, oom al' a = false.
Proof. intros H. unfold getblk_mem, malloc. rewrite H. eexists. split; [reflexivity|done]. Qed.

Lemma add_blocks_spec s t block_list fp errno :
  s_journal s = j -> trans_is_open t = true -> is_u32 (t_tid t) -> (forall a, oom (s_al s) a = false) -> area_ok (s_io s) ->
  jbd2_has_feature_fast_commit j = false -> j_first j <= t_block t -> t_block t + Z.of_nat (data_used (length block_list)) <= j_last j ->
  Forall (fun blk => blk < blocks_count s /\ blk_range j blk) block_list -> bytes_ok fp -> (length block_list * bsize <= length fp)%nat ->
  exists i' al' es, let used := data_used (length block_list) in
    journal_add_blocks_to_trans s t block_list fp errno = (0, with_io (with_al s al') i', at_block t (t_block t + Z.of_nat used)) /\
    step_ok (s_io s) i' al' (t_block t) (t_tid t) used es /\
    concat (entry_writes j <$> es) = zip block_list (chunks (length block_list) fp) /\ Forall is_desc es.
Proof.
  intros Hj Ho Ht Hal A Hfc Hst Hsp Hbl Hfp Hlen. unfold journal_add_blocks_to_trans. rewrite Ho, Hj. cbn [negb].
  destruct (decide (block_list = [])) as [->|Hne].
  { cbn [is_nil length data_used]. exists (s_io s), (s_al s), []. rewrite Z.add_0_r. destruct s, t. split; [done|]. split; [|done].
    constructor; [by apply same_but_refl|done|apply stored_nil|constructor|done]. }
  assert (is_nil block_list = false) as -> by (by destruct block_list).
  destruct (getblk_mem_ok (s_al s) K_DEV_JOURNAL (t_block t) (j_blocksize j) Hal) as (al1 & -> & Hal1).
  destruct (getblk_mem_ok al1 K_DEV_JOURNAL (t_block t) (j_blocksize j) Hal1) as (al2 & -> & Hal2).
  set (a := mk_adding _ _ _ _ _ _ _). pose proof (zeros_ok j W) as Z0.
  destruct (put_header_ok JBD2_DESCRIPTOR_BLOCK (t_tid t) _ Z0 Ht ltac:(done)) as [B0 H0].
  assert (I : adding_inv (s_io s) (t_block t) (t_tid t) [] [] false a).
  { constructor; cbn [a a_io curr_blk jdb_blk a_bh data_bh jdbt]; try done; [change (length (entries_blocks [])) with 0%nat; lia|cbn [length]; lia|].
    constructor; [done|done| |constructor|cbn [length]; lia]. intros k x Hx. by rewrite lookup_nil in Hx. }
  destruct (add_blocks_loop_spec (s_io s) (t_block t) (t_tid t) (blocks_count s) errno _ block_list [] [] a I Hfc Hst Hsp) as (es & cur & a' & -> & I' & Hl & Hn & Hw); try done.
  { cbn [length]. lia. }
  pose proof (ho_cap _ _ _ _ _ (ai_holds _ _ _ _ _ _ _ I')) as Hcap. pose proof (data_used_eq (length es) (length cur) Hl Hcap) as Hu. rewrite <- Hn in Hu.
  pose proof (ai_curr _ _ _ _ _ _ _ I') as Hcu. rewrite (ai_jdb _ _ _ _ _ _ _ I'), (ai_len _ _ _ _ _ _ _ I') in Hcu.
  unfold last_descriptor. rewrite (ai_jdbt _ _ _ _ _ _ _ I').
  destruct (Z.eqb_spec (tag_pos j (length cur)) sizeof_journal_header) as [E|_]; cbn [negb].
  { exfalso. pose proof (tag_bytes_range j). unfold sizeof_journal_header in E. destruct (length cur); cbn [tag_pos] in E; lia. }
  destruct (write_descriptor (s_io s) (t_block t) (t_tid t) es cur true a' I' Hfc Hst ltac:(lia) Hl (or_introl eq_refl)) as (i' & bh' & -> & C' & _ & Sb & Ss & Hok & Hwe & Hle).
  cbn [a_io a_bh data_bh curr_blk]. rewrite !brelse_clean by (done || apply (ai_dbh _ _ _ _ _ _ _ I')).
  exists i', al2, (es ++ [desc_entry j (b_data (a_bh a')) cur]). cbn zeta. split; [f_equal; f_equal; lia|]. split.
  - constructor; [by replace (t_block t + _) with (curr_blk a') by lia|done|done|apply Forall_app; split; [apply (ai_es _ _ _ _ _ _ _ I')|by constructor]|].
    rewrite entries_blocks_snoc, length_app, Hle, (ai_len _ _ _ _ _ _ _ I'). lia.
  - rewrite !fmap_app, !concat_app. cbn [fmap list_fmap concat]. rewrite Hwe, !app_nil_r, Hw. split; [done|].
    apply Forall_app. split; [apply (ai_desc _ _ _ _ _ _ _ I')|by constructor].
Qed.

(** * Revoke blocks *)

Abbreviation rl := (record_len j) (only parsing).
Abbreviation space := (j_blocksize j - csum_size j) (only parsing).

Definition rec_pos (k : nat) : Z := 16 + Z.of_nat k * rl.
Definition rec_at (b : block) (off : Z) : Z := if rl =? 4 then be_at 4 off b else be_at 8 off b.
Definition rec_cap : nat := Z.to_nat ((space - 16) / rl).

Record rev_holds (tid : Z) (b : block) (cur : list Z) : Prop := {
  rh_ok : blk_ok j b;
  rh_header : header_ok b JBD2_REVOKE_BLOCK tid;
  rh_recs : forall k x, cur !! k = Some x -> rec_at b (rec_pos k) = x;
  rh_cap : (length cur <= rec_cap)%nat
}.

Lemma rec_cap_spec k : (k <= rec_cap)%nat <-> rec_pos k <= space.
Proof.
  pose proof (record_len_range j) as Hr. pose proof (csum_size_range j) as Hc. destruct W as [Hbs _ _ _]. unfold rec_cap, rec_pos.
  pose proof (Z.div_mod (space - 16) rl ltac:(lia)) as Hdm. pose proof (Z.mod_pos_bound (space - 16) rl ltac:(lia)) as Hm.
  assert (Hq : 0 <= (space - 16) / rl) by (apply Z.div_pos; lia). set (q := (space - 16) / rl) in *. nia.
Qed.

Lemma rec_at_prefix off n b b' : 0 <= off -> off + rl <= n -> prefix n b b' -> rec_at b' off = rec_at b off.
Proof.
  intros H1 H2 E. unfold rec_at. destruct (Z.eqb_spec rl 4) as [E4|E4]; rewrite (be_at_prefix _ off n b b'); try done; [lia|].
  unfold record_len in *. destruct (jbd2_has_feature_64bit j); lia.
Qed.

Lemma rev_holds_prefix tid b b' cur : blk_ok j b' -> prefix (rec_pos (length cur)) b b' -> rev_holds tid b cur -> rev_holds tid b' cur.
Proof.
  intros B' E [B Hh Hr Hc]. pose proof (record_len_range j). constructor; [done| | |done].
  - apply (header_prefix b); [|done]. eapply prefix_le; [|exact E]. unfold rec_pos. lia.
  - intros k x Hx. rewrite <- (Hr k x Hx). pose proof (lookup_lt_Some _ _ _ Hx). apply (rec_at_prefix _ (rec_pos (length cur))); [| |done]; unfold rec_pos; nia.
Qed.

(** The records a reader finds. *)
Lemma revoke_from_holds tid b cur fuel : forall k,
  rev_holds tid b cur -> (k <= length cur)%nat -> (length cur - k < fuel)%nat ->
  revoke_from j fuel b (rec_pos k) (rec_pos (length cur)) = drop k cur.
Proof.
  pose proof (record_len_range j) as Hl. induction fuel as [|fuel IH]; intros k H Hk Hf; [lia|]. cbn [revoke_from].
  replace (rec_pos k + rl) with (rec_pos (S k)) by (unfold rec_pos; lia). fold (rec_at b (rec_pos k)).
  destruct (decide (k < length cur)%nat) as [Hlt|Hge].
  - destruct (Z.leb_spec (rec_pos (S k)) (rec_pos (length cur))) as [_|Hx]; [|unfold rec_pos in Hx; nia].
    destruct (lookup_lt_is_Some_2 cur k Hlt) as [x Hx]. rewrite (rh_recs _ _ _ H k x Hx), (drop_S _ _ _ Hx). f_equal. apply IH; [done|lia|lia].
  - destruct (Z.leb_spec (rec_pos (S k)) (rec_pos (length cur))) as [Hx|_]; [unfold rec_pos in Hx; nia|]. by rewrite drop_ge by lia.
Qed.

Definition rev_entry (b : block) (cur : list Z) : entry := Rev (jbd2_revoke_csum_set j (be_put 4 12 (rec_pos (length cur)) b)).

Lemma rev_entry_ok tid b cur n :
  rev_holds tid b cur -> entry_ok j tid (rev_entry b cur) /\ entry_revokes j n (rev_entry b cur) = (fun x => (x, n)) <$> cur.
Proof.
  intros H. pose proof (record_len_range j) as Hr. pose proof (csum_size_range j) as Hc. pose proof W as [Hbs _ _ _].
  pose proof (proj1 (rec_cap_spec (length cur)) (rh_cap _ _ _ H)) as Hfit. pose proof (rh_ok _ _ _ H) as B.
  set (b1 := be_put 4 12 (rec_pos (length cur)) b). assert (B1 : blk_ok j b1) by (apply be_put_ok; [done|lia|done]).
  assert (H1 : rev_holds tid b1 cur).
  { destruct H as [_ Hh Hrec Hcap]. constructor; [done| | |done].
    - apply (header_prefix b); [|done]. by apply (prefix_put j); [| |lia|].
    - intros k x Hx. rewrite <- (Hrec k x Hx). unfold rec_at, b1. pose proof (lookup_lt_Some _ _ _ Hx) as Hk.
      pose proof (proj1 (rec_cap_spec (S k)) ltac:(lia)) as Hs. unfold rec_pos in *. destruct (rl =? 4); rewrite (be_at_other j); try done; lia. }
  destruct (descr_csum_ok j W b1 B1) as (B2 & P2 & V2). set (b2 := jbd2_descr_block_csum_set j b1) in *.
  assert (H2 : rev_holds tid b2 cur) by (apply (rev_holds_prefix tid b1); [done|by eapply prefix_le; [|exact P2]|done]).
  assert (Hcnt : r_count b2 = rec_pos (length cur)).
  { unfold r_count. rewrite (be_at_prefix 4 12 space b1 b2 ltac:(lia) ltac:(lia) P2). unfold b1. rewrite (be_at_same j) by (done || lia).
    apply Z.mod_small. unfold rec_pos in *. lia. }
  unfold rev_entry, jbd2_revoke_csum_set. fold b1 b2. split.
  - split; [exact (rh_header _ _ _ H2)|]. split; [done|]. rewrite Hcnt. unfold rec_pos in *. lia.
  - cbn [entry_revokes]. unfold revoke_list. rewrite Hcnt. change sizeof_revoke_header with (rec_pos 0). f_equal.
    apply (revoke_from_holds tid b2 cur _ 0 H2); [lia|]. unfold rec_pos. nia.
Qed.

Lemma rev_holds_snoc tid b cur blk :
  rev_holds tid b cur -> (length cur < rec_cap)%nat -> blk_range j blk ->
  rev_holds tid (be_put (if jbd2_has_feature_64bit j then 8 else 4) (rec_pos (length cur)) blk b) (cur ++ [blk]).
Proof.
  intros H Hc Hr. pose proof (record_len_range j) as Hl. pose proof (csum_size_range j) as Hcs. pose proof (proj1 (rec_cap_spec (S (length cur))) Hc) as Hfit.
  assert (Hn : Z.of_nat (if jbd2_has_feature_64bit j then 8 else 4) = rl) by (unfold record_len; by destruct (jbd2_has_feature_64bit j)).
  assert (Hfit' : rec_pos (length cur) + rl <= space) by (unfold rec_pos in *; lia). assert (H0 : 0 <= rec_pos (length cur)) by (unfold rec_pos; lia).
  set (b' := be_put _ _ _ _). assert (B' : blk_ok j b') by (apply be_put_ok; [done|lia|apply H]).
  assert (P : prefix (rec_pos (length cur)) b b') by (apply (prefix_put j); [done|lia|lia|apply H]).
  destruct (rev_holds_prefix tid b b' cur B' P H) as [_ Hh Hrec _]. constructor; [done|done| |rewrite length_app; cbn [length]; lia].
  intros k x Hx. apply lookup_app_Some in Hx as [Hx|[Hk Hx]]; [by apply Hrec|].
  destruct (decide (k = length cur)) as [->|Hne]; [|rewrite lookup_ge_None_2 in Hx; [done|cbn [length]; lia]]. rewrite Nat.sub_diag in Hx. injection Hx as <-.
  unfold rec_at, b', blk_range, record_len in *. destruct (jbd2_has_feature_64bit j); cbn [Z.eqb Pos.eqb]; rewrite (be_at_same j) by (apply H || lia); apply Z.mod_small; done.
Qed.

(** The state of the loop over the revoked blocks. *)
Record revoking_inv (i0 : io) (start tid : Z) (es : list entry) (cur : list Z) (r : revoking) : Prop := {
  ri_but : same_but start (r_curr r) i0 (r_io r);
  ri_stored : stored (r_io r) start (entries_blocks es);
  ri_curr : r_curr r = start + Z.of_nat (length es);
  ri_len : length (entries_blocks es) = length es;
  ri_holds : rev_holds tid (b_data (r_bh r)) cur;
  ri_offset : r_offset r = rec_pos (length cur);
  ri_bh : clean_bh (r_bh r);
  ri_es : Forall (entry_ok j tid) es
}.

Lemma write_revoke_spec i0 start tid es cur r :
  revoking_inv i0 start tid es cur r -> j_first j <= start -> r_curr r < j_last j ->
  let e := rev_entry (b_data (r_bh r)) cur in
  exists r', write_revoke_block j r = (0, r') /\ r_curr r' = r_curr r /\ clean_bh (r_bh r') /\
    b_data (r_bh r') = jbd2_revoke_csum_set j (be_put 4 12 (rec_pos (length cur)) (b_data (r_bh r))) /\
    same_but start (r_curr r + 1) i0 (r_io r') /\ stored (r_io r') start (entries_blocks (es ++ [e])) /\
    length (entries_blocks (es ++ [e])) = length (es ++ [e]) /\ Forall (entry_ok j tid) (es ++ [e]).
Proof.
  intros [Sb Ss Hc Hl Hh Ho Cb He] Hst Hcu e. unfold write_revoke_block. rewrite Ho. set (bh := set_data _ _).
  destruct (write_at_spec (r_io r) bh (r_curr r) (sb_area _ _ _ _ Sb) ltac:(unfold in_area; lia) (clean_set_data _ _ Cb)) as (i' & bh' & -> & C' & D' & Sw & Hr).
  eexists. split; [reflexivity|]. cbn [r_curr r_bh r_io]. split; [done|]. split; [done|]. split; [done|]. rewrite entries_blocks_snoc, !length_app.
  destruct (rev_entry_ok tid _ cur 0 Hh) as [Hok _]. split; [|split; [|split]].
  - eapply same_but_trans; [eapply same_but_widen; [| |exact Sb]; lia|]. eapply same_but_widen; [| |exact Sw]; lia.
  - apply stored_app; [eapply stored_same; [exact Sw|done|lia|left; lia|done]|]. rewrite Hl, <- Hc. apply stored_one. exact Hr.
  - cbn [e rev_entry entry_blocks length]. lia.
  - apply Forall_app. split; [done|by constructor].
Qed.

Lemma rec_cap_pos : (0 < rec_cap)%nat.
Proof.
  pose proof (record_len_range j). pose proof (csum_size_range j). destruct W as [Hbs _ _ _]. unfold rec_cap.
  assert (1 <= (space - 16) / rl) by (apply Z.div_le_lower_bound; lia). lia.
Qed.

Definition rev_used (n : nat) : nat := match n with O => 0 | S m => m / rec_cap + 1 end.

Lemma revoke_full_spec i0 start tid es cur r :
  revoking_inv i0 start tid es cur r -> j_first j <= start -> r_curr r < j_last j ->
  exists es' cur' r', revoke_full j r = inr r' /\ revoking_inv i0 start tid es' cur' r' /\ (length cur' < rec_cap)%nat /\
    (rec_cap * length es' + length cur' = rec_cap * length es + length cur)%nat /\
    concat (entry_revokes j 0 <$> es') ++ ((fun x => (x, 0)) <$> cur') = concat (entry_revokes j 0 <$> es) ++ ((fun x => (x, 0)) <$> cur) /\
    concat (entry_writes j <$> es') = concat (entry_writes j <$> es).
Proof.
  intros I Hst Hcu. pose proof I as [Sb Ss Hc Hl Hh Ho Cb He]. pose proof (rh_cap _ _ _ Hh) as Hcap. pose proof rec_cap_pos as Hcp. unfold revoke_full. rewrite Ho.
  replace (rec_pos (length cur) + rl) with (rec_pos (S (length cur))) by (unfold rec_pos; lia). pose proof (rec_cap_spec (S (length cur))) as Hspec.
  destruct (Z.ltb_spec space (rec_pos (S (length cur)))) as [Hfull|Hfit].
  - assert (Hf : length cur = rec_cap) by (destruct (decide (S (length cur) <= rec_cap)%nat) as [Hx|Hx]; [apply Hspec in Hx|]; lia).
    destruct (write_revoke_spec i0 start tid es cur r I Hst Hcu) as (r' & -> & Hc' & C' & D' & Sb' & Ss' & Hl' & He'). cbn [Z.eqb negb].
    destruct (rev_entry_ok tid _ cur 0 Hh) as [_ Hrv]. set (e := rev_entry _ cur) in *.
    exists (es ++ [e]), [], (mk_revoking (r_io r') (r_curr r' + 1) (r_bh r') sizeof_revoke_header). split; [done|]. rewrite length_app. cbn [length].
    split; [|split; [done|split; [lia|]]].
    + constructor; cbn [r_io r_curr r_bh r_offset length]; try done; [by rewrite Hc'|rewrite length_app; cbn [length]; lia|].
      rewrite D'. set (b1 := be_put 4 12 _ _). assert (B1 : blk_ok j b1) by (apply be_put_ok; [done|destruct W; lia|apply Hh]).
      destruct (descr_csum_ok j W b1 B1) as (B2 & P2 & _). apply (rev_holds_prefix tid b1); [done|eapply prefix_le; [|exact P2]; pose proof (csum_size_range j); destruct W; unfold rec_pos; cbn [length]; lia|].
      constructor; [done| |intros k x Hx; by rewrite lookup_nil in Hx|cbn [length]; lia]. apply (header_prefix (b_data (r_bh r))); [|apply Hh].
      apply (prefix_put j); [done|done|destruct W; lia|apply Hh].
    + rewrite !fmap_app, !concat_app. cbn [fmap list_fmap concat]. rewrite Hrv, !app_nil_r. done.
  - exists es, cur, r. split; [done|]. split; [done|]. split; [|done]. by apply Hspec.
Qed.

Lemma rev_used_le q c n : (rec_cap * q + c < n)%nat -> (q + 1 <= rev_used n)%nat.
Proof.
  intros H. pose proof rec_cap_pos as Hcp. unfold rev_used. destruct n as [|m]; [lia|].
  assert (q <= m / rec_cap)%nat by (apply Nat.div_le_lower_bound; lia). lia.
Qed.

Lemma rev_used_eq q c : (0 < c)%nat -> (c <= rec_cap)%nat -> rev_used (rec_cap * q + c) = (q + 1)%nat.
Proof.
  intros H1 H2. pose proof rec_cap_pos as Hcp. unfold rev_used. destruct (rec_cap * q + c)%nat as [|m] eqn:E; [lia|].
  assert (m / rec_cap = q)%nat as -> by (symmetry; apply (Nat.div_unique m rec_cap q (c - 1)); lia). lia.
Qed.

Lemma add_revoke_loop_spec i0 start tid count n : forall revoke_list es cur r,
  revoking_inv i0 start tid es cur r -> j_first j <= start -> start + Z.of_nat (rev_used n) <= j_last j ->
  n = (rec_cap * length es + length cur + length revoke_list)%nat -> (0 < length cur \/ 0 < length revoke_list)%nat ->
  Forall (fun blk => blk < count /\ blk_range j blk) revoke_list ->
  exists es' cur' r', add_revoke_loop j count revoke_list r = inr r' /\ revoking_inv i0 start tid es' cur' r' /\ (0 < length cur')%nat /\
    n = (rec_cap * length es' + length cur')%nat /\
    concat (entry_revokes j 0 <$> es') ++ ((fun x => (x, 0)) <$> cur') =
      concat (entry_revokes j 0 <$> es) ++ ((fun x => (x, 0)) <$> cur ++ revoke_list) /\
    concat (entry_writes j <$> es') = concat (entry_writes j <$> es).
Proof.
  induction revoke_list as [|blk rest IH]; intros es cur r I Hst Hsp Hn Hpos Hbl; cbn [add_revoke_loop length] in *.
  - exists es, cur, r. rewrite app_nil_r. split; [done|]. split; [done|]. split; [lia|]. split; [lia|done].
  - apply Forall_cons in Hbl as [[Hb Hr] Hbl]. pose proof (ri_curr _ _ _ _ _ _ I) as Hcu. pose proof (rev_used_le (length es) (length cur) n ltac:(lia)).
    destruct (revoke_full_spec i0 start tid es cur r I Hst ltac:(lia)) as (es1 & cur1 & r1 & -> & I1 & Hl1 & Hn1 & Hw1 & Hv1).
    destruct (Z.leb_spec count blk); [lia|]. pose proof I1 as [Sb1 Ss1 Hc1 Hle1 Hh1 Ho1 Cb1 He1]. rewrite Ho1.
    destruct (IH es1 (cur1 ++ [blk]) (mk_revoking (r_io r1) (r_curr r1) (set_data (r_bh r1) (be_put (if jbd2_has_feature_64bit j then 8 else 4) (rec_pos (length cur1)) blk (b_data (r_bh r1)))) (rec_pos (length cur1) + rl)))
      as (es' & cur' & r' & E & I' & Hp' & Hn' & Hw' & Hv'); try done.
    + constructor; try done.
      * cbn [r_bh set_data b_data]. by apply rev_holds_snoc.
      * cbn [r_offset]. rewrite length_app. unfold rec_pos. cbn [length]. lia.
      * by apply clean_set_data.
    + rewrite length_app. cbn [length]. lia.
    + left. rewrite length_app. cbn [length]. lia.
    + exists es', cur', r'. split; [exact E|]. split; [done|]. split; [done|]. split; [done|]. split; [|congruence].
      rewrite Hw'. rewrite !fmap_app, !app_assoc, Hw1. cbn [fmap list_fmap]. by rewrite <- !app_assoc.
Qed.

Lemma add_revoke_spec s t revoke_list :
  s_journal s = j -> trans_is_open t = true -> is_u32 (t_tid t) -> (forall a, oom (s_al s) a = false) -> area_ok (s_io s) ->
  j_first j <= t_block t -> t_block t + Z.of_nat (rev_used (length revoke_list)) <= j_last j ->
  Forall (fun blk => blk < blocks_count s /\ blk_range j blk) revoke_list ->
  exists i' al' es, let used := rev_used (length revoke_list) in
    journal_add_revoke_to_trans s t revoke_list = (0, with_io (with_al s al') i', at_block t (t_block t + Z.of_nat used)) /\
    step_ok (s_io s) i' al' (t_block t) (t_tid t) used es /\
    concat (entry_revokes j 0 <$> es) = (fun x => (x, 0)) <$> revoke_list /\ concat (entry_writes j <$> es) = [].
Proof.
  intros Hj Ho Ht Hal A Hst Hsp Hbl. unfold journal_add_revoke_to_trans. rewrite Ho, Hj. cbn [negb].
  destruct (decide (revoke_list = [])) as [->|Hne].
  { cbn [is_nil length rev_used]. exists (s_io s), (s_al s), []. rewrite Z.add_0_r. destruct s, t. split; [done|]. split; [|done].
    constructor; [by apply same_but_refl|done|apply stored_nil|constructor|done]. }
  assert (is_nil revoke_list = false) as -> by (by destruct revoke_list).
  destruct (getblk_mem_ok (s_al s) K_DEV_JOURNAL (t_block t) (j_blocksize j) Hal) as (al1 & -> & Hal1).
  destruct (put_header_ok JBD2_REVOKE_BLOCK (t_tid t) _ (zeros_ok j W) Ht ltac:(done)) as [B0 H0]. set (r := mk_revoking _ _ _ _).
  assert (I : revoking_inv (s_io s) (t_block t) (t_tid t) [] [] r).
  { constructor; cbn [r r_io r_curr r_bh r_offset length]; try done; [lia|]. constructor; [done|done| |cbn [length]; lia]. intros k x Hx. by rewrite lookup_nil in Hx. }
  destruct (add_revoke_loop_spec (s_io s) (t_block t) (t_tid t) (blocks_count s) _ revoke_list [] [] r I Hst Hsp) as (es & cur & r' & -> & I' & Hp & Hn & Hw & Hv); try done.
  { cbn [length]. lia. }
  { right. destruct revoke_list; [done|cbn [length]; lia]. }
  pose proof (rh_cap _ _ _ (ri_holds _ _ _ _ _ _ I')) as Hcap. pose proof (rev_used_eq (length es) (length cur) Hp Hcap) as Hu. rewrite <- Hn in Hu.
  pose proof (ri_curr _ _ _ _ _ _ I') as Hcu. rewrite (ri_offset _ _ _ _ _ _ I'). destruct (Z.ltb_spec 0 (rec_pos (length cur))) as [_|Hx]; [|unfold rec_pos in Hx; pose proof (record_len_range j); lia].
  destruct (write_revoke_spec (s_io s) (t_block t) (t_tid t) es cur r' I' Hst ltac:(lia)) as (r2 & -> & Hc2 & C2 & _ & Sb2 & Ss2 & Hl2 & He2).
  destruct (rev_entry_ok (t_tid t) _ cur 0 (ri_holds _ _ _ _ _ _ I')) as [_ Hrv]. cbn [Z.eqb negb r_io r_bh r_curr]. rewrite brelse_clean by done.
  set (e := rev_entry _ cur) in *. exists (r_io r2), al1, (es ++ [e]). cbn zeta. split; [f_equal; f_equal; lia|]. split.
  - constructor; [by replace (t_block t + _) with (r_curr r' + 1) by lia|done|done|done|]. rewrite Hl2, length_app. cbn [length]. lia.
  - rewrite !fmap_app, !concat_app. cbn [fmap list_fmap concat]. rewrite Hrv, !app_nil_r. cbn [fmap list_fmap concat app] in Hw, Hv. by rewrite Hv.
Qed.

(** * The commit block *)

(** A block read into a buffer again. *)
Lemma read_back i o b :
  is_u32 o -> jread i j o = inr b ->
  exists pb, j_bmap j o = inr pb /\
    forall bh, b_dev bh = K_DEV_JOURNAL -> let bh := mark_buffer_uptodate (set_blocknr bh pb) false in
      ll_read_block i bh = mark_buffer_uptodate (set_data bh b) true.
Proof.
  intros Ho Hr. unfold jread in Hr. rewrite u32_small in Hr by done. destruct (j_total_len j <=? o); [done|]. destruct (j_bmap j o) as [e|pb]; [done|].
  exists pb. split; [done|]. intros bh Hd. unfold wait_on_buffer, getblk, ll_read_block in *. cbn [mark_buffer_uptodate set_blocknr b_uptodate negb b_dev b_blocknr] in *. rewrite Hd.
  destruct (blocks (get_dev i K_DEV_JOURNAL) !! pb) as [x|]; [|done]. cbn [b_uptodate mark_buffer_uptodate negb b_data set_data] in Hr. by injection Hr as ->.
Qed.

Lemma chksum_v1_spec i bs : forall n cbh cblk csum,
  area_ok i -> j_first j <= cblk -> cblk + Z.of_nat (length bs) <= j_last j -> stored i cblk bs ->
  n = length bs -> b_dev cbh = K_DEV_JOURNAL -> b_err cbh = 0 ->
  chksum_v1 n i j cbh cblk csum = inr (chk_blocks j csum bs).
Proof.
  induction bs as [|b bs IH]; intros n cbh cblk csum A Hf Hl Hs -> Hd He; [done|]. cbn [length chksum_v1] in *. pose proof A as [H0 Ht _ _].
  pose proof (Hs 0%nat b eq_refl) as Hr. rewrite Z.add_0_r in Hr. destruct (read_back i cblk b ltac:(unfold is_u32; lia) Hr) as (pb & -> & Hrb).
  rewrite (Hrb cbh Hd). cbn [mark_buffer_uptodate set_data set_blocknr b_err b_data]. rewrite He. cbn [Z.eqb negb]. apply IH; try done; [lia|lia|].
  intros k y Hk. specialize (Hs (S k) y Hk). rewrite <- Hs. f_equal. lia.
Qed.

(** The checksum of the writer covers the blocks recovery's does when there are
    no revoke blocks among them. *)
Lemma chk_blocks_desc es : forall crc, Forall is_desc es -> chk_blocks j crc (entries_blocks es) = fold_left (entry_crc j) es crc.
Proof.
  induction es as [|e es IH]; intros crc H; [done|]. apply Forall_cons in H as [He Hes]. unfold entries_blocks. rewrite fmap_cons. cbn [concat fold_left].
  unfold chk_blocks. rewrite fold_left_app. destruct e as [b data|b]; [|done]. exact (IH _ Hes).
Qed.

Lemma commit_fields tid csum v1 tv_sec tv_usec :
  is_u32 tid -> is_u32 csum ->
  let b := commit_block tid csum v1 tv_sec tv_usec (replicate bsize 0) in
  blk_ok j b /\ header_ok b JBD2_COMMIT_BLOCK tid /\ h_chksum_0 b = (if v1 then csum else 0) /\
  h_chksum_type b = (if v1 then JBD2_CRC32_CHKSUM else 0) /\ h_chksum_size b = (if v1 then JBD2_CRC32_CHKSUM_SIZE else 0).
Proof.
  intros Ht Hc b. unfold b, commit_block. clear b. destruct (put_header_ok JBD2_COMMIT_BLOCK tid _ (zeros_ok j W) Ht ltac:(done)) as [B0 H0].
  set (b0 := put_header _ _ _) in *. clearbody b0. pose proof W as [Hbs _ _ _]. set (ty := if v1 then JBD2_CRC32_CHKSUM else 0). set (sz := if v1 then JBD2_CRC32_CHKSUM_SIZE else 0). set (c := if v1 then csum else 0).
  assert (Hty : ty mod 2 ^ (8 * Z.of_nat 1) = ty) by (by destruct v1). assert (Hsz : sz mod 2 ^ (8 * Z.of_nat 1) = sz) by (by destruct v1).
  assert (Hcc : c mod 2 ^ (8 * Z.of_nat 4) = c) by (apply Z.mod_small; unfold c; destruct v1; [exact Hc|done]). clearbody ty sz c.
  set (b1 := be_put 1 12 ty b0). assert (B1 : blk_ok j b1) by (apply be_put_ok; [done|lia|done]).
  set (b2 := be_put 1 13 sz b1). assert (B2 : blk_ok j b2) by (apply be_put_ok; [done|lia|done]).
  set (b3 := be_put 4 16 c b2). assert (B3 : blk_ok j b3) by (apply be_put_ok; [done|lia|done]).
  set (b4 := be_put 4 48 tv_sec b3). assert (B4 : blk_ok j b4) by (apply be_put_ok; [done|lia|done]).
  set (b5 := be_put 4 52 0 b4). assert (B5 : blk_ok j b5) by (apply be_put_ok; [done|lia|done]).
  set (b6 := be_put 4 56 _ b5). assert (B6 : blk_ok j b6) by (apply be_put_ok; [done|lia|done]).
  assert (P : prefix 20 b3 b6).
  { eapply prefix_trans; [|apply (prefix_put j); [done|done|lia|done]]. eapply prefix_trans; apply (prefix_put j); done || lia. }
  assert (P' : prefix 12 b0 b6).
  { eapply prefix_trans; [|eapply prefix_le; [|exact P]; lia]. eapply prefix_trans; [|apply (prefix_put j); [done|done|lia|done]].
    eapply prefix_trans; apply (prefix_put j); done || lia. }
  split; [done|]. split; [by apply (header_prefix b0)|]. unfold h_chksum_0, h_chksum_type, h_chksum_size.
  rewrite (be_at_prefix 4 16 20 b3 b6), (be_at_prefix 1 12 20 b3 b6), (be_at_prefix 1 13 20 b3 b6) by (done || lia).
  unfold b3. rewrite (be_at_same j 4 16), !(be_at_other j _ 4 _ 16) by (done || lia). unfold b2. rewrite (be_at_same j 1 13), (be_at_other j 1 1 12 13) by (done || lia).
  unfold b1. rewrite (be_at_same j 1 12) by (done || lia). done.
Qed.

Lemma chk_blocks_range bs : forall crc, is_u32 crc -> is_u32 (chk_blocks j crc bs).
Proof. induction bs as [|b bs IH]; intros crc Hc; [done|]. apply (IH (ext2fs_crc32_be 0 crc (take bsize b))), swab32_range. Qed.

(** The checksum of the commit block itself. *)
Lemma commit_csum_ok b : blk_ok j b ->
  let b' := jbd2_commit_block_csum_set j b in
  blk_ok j b' /\ prefix 12 b b' /\ jbd2_commit_block_csum_verify j b' = true /\ (jbd2_journal_has_csum_v2or3 j = false -> b' = b).
Proof.
  intros B. unfold jbd2_commit_block_csum_set, jbd2_commit_block_csum_verify. destruct W as [Hbs _ _ Hseed].
  destruct (jbd2_journal_has_csum_v2or3 j); cbn [negb]; [|done]. cbn zeta.
  set (b1 := be_put 1 12 0 b). assert (B1 : blk_ok j b1) by (apply be_put_ok; [done|lia|done]).
  set (b2 := be_put 1 13 0 b1). assert (B2 : blk_ok j b2) by (apply be_put_ok; [done|lia|done]).
  set (b3 := be_put 4 16 0 b2). assert (B3 : blk_ok j b3) by (apply be_put_ok; [done|lia|done]).
  rewrite (take_block j b3) by done. set (c := jbd2_chksum _ b3). assert (Hc : is_u32 c) by (apply jbd2_chksum_range; [done|apply B3]).
  split; [apply be_put_ok; [done|lia|done]|]. split; [|split; [|done]].
  - eapply prefix_trans; [|apply (prefix_put j); [done|done|lia|done]]. eapply prefix_trans; [|apply (prefix_put j); [done|done|lia|done]].
    eapply prefix_trans; apply (prefix_put j); done || lia.
  - unfold h_chksum_0. rewrite (be_at_same j) by (done || lia). rewrite (be_put_put j) by (done || lia).
    replace (be_put 4 16 0 b3) with b3 by (unfold b3; by rewrite (be_put_put j) by (done || lia)). rewrite (take_block j b3) by done. fold c.
    apply Z.eqb_eq, Z.mod_small. exact Hc.
Qed.

Lemma commit_spec s t es tv_sec tv_usec :
  s_journal s = j -> trans_is_open t = true -> is_u32 (t_tid t) -> (forall a, oom (s_al s) a = false) -> area_ok (s_io s) ->
  j_first j <= t_start t -> t_block t = t_start t + Z.of_nat (length (entries_blocks es)) -> t_block t < j_last j ->
  stored (s_io s) (t_start t) (entries_blocks es) ->
  jbd2_has_feature_checksum j = false \/ Forall is_desc es /\ jbd2_journal_has_csum_v2or3 j = false ->
  exists i' al' cb, journal_commit_trans s t tv_sec tv_usec = (0, mark_needs_recovery (with_io (with_al s al') i'), committed t) /\
    same_but (t_block t) (t_block t + 1) (s_io s) i' /\ jread i' j (t_block t) = inr cb /\ commit_ok j (t_tid t) (mk_tx es cb).
Proof.
  intros Hj Ho Ht Hal A Hst Hb Hlast Hs Hv. unfold journal_commit_trans. rewrite Ho, Hj. cbn [negb].
  destruct (getblk_mem_ok (s_al s) K_DEV_JOURNAL 0 (j_blocksize j) Hal) as (al1 & -> & Hal1).
  destruct (getblk_mem_ok al1 K_DEV_JOURNAL 0 (j_blocksize j) Hal1) as (al2 & -> & _). set (csum := chk_blocks j (2 ^ 32 - 1) (entries_blocks es)).
  assert (Hcs : is_u32 csum) by (by apply chk_blocks_range).
  rewrite (chksum_v1_spec (s_io s) (entries_blocks es)) by (done || lia). fold csum.
  set (v1 := jbd2_has_feature_checksum j) in *. set (c := if v1 then csum else 0). assert (Hc : is_u32 c) by (unfold c; by destruct v1).
  replace (if v1 then (inr csum, al2) else (inr 0, al1)) with (@inr Z Z c, if v1 then al2 else al1) by (unfold c; by destruct v1). cbn [with_al s_io].
  destruct (commit_fields (t_tid t) c v1 tv_sec tv_usec Ht Hc) as (B & Hh & Hc0 & Hct & Hcz). cbn [b_data getblk].
  set (b := commit_block _ _ _ _ _ _) in *. destruct (commit_csum_ok b B) as (B' & P & V & Hsame). set (cb := jbd2_commit_block_csum_set j b) in *.
  destruct (write_at_spec (s_io s) (set_data (getblk K_DEV_JOURNAL 0 (j_blocksize j)) cb) (t_block t) A ltac:(unfold in_area; lia)) as (i' & bh' & -> & C' & _ & Sw & Hr); [by constructor|].
  rewrite brelse_clean by done. cbn [Z.eqb negb]. exists i', (if v1 then al2 else al1), cb. split; [done|]. split; [done|]. split; [exact Hr|].
  split; [by apply (header_prefix b)|]. split; [exact V|]. cbn [tx_commit]. fold v1. intros Hv1. left. destruct Hv as [Hx|[Hd Hn]]; [congruence|].
  rewrite (Hsame Hn), Hc0, Hct, Hcz. unfold c, csum. rewrite Hv1. rewrite chk_blocks_desc by done. done.
Qed.

End log.
