(* ===== verification/JournalProperties.v ===== *)
(** What debugfs writes into a journal, recovery brings back; and where writing
    goes wrong. *)

From S2P Require Import Prelude Crc CrcBe Journal Revoke Recovery RecoverySpec RecoveryProperties JournalWrite JournalWriteSpec JournalWriteLog.

Local Open Scope Z_scope.

(** The journal as it is written: with the feature for revokes, if there are
    any. *)
Definition prepared (s : session) (revoke_list : list Z) : journal_t :=
  if is_nil revoke_list then s_journal s else jbd2_set_feature_revoke (s_journal s).

(** The blocks of the journal a transaction takes, without its commit block. *)
Definition used (j : journal_t) (block_list revoke_list : list Z) : nat :=
  data_used j (length block_list) + rev_used j (length revoke_list).

(** The guess counts no descriptor block and no revoke block that is not full. *)
Lemma guess_revokes j r :
  writer_ok j -> (0 < r)%nat -> Z.of_nat r * record_len j / (j_blocksize j - csum_size j) < Z.of_nat (rev_used j r).
Proof.
  intros W Hr. pose proof (csum_size_range j) as Hcs. pose proof (record_len_range j) as Hrl. pose proof W as [Hbs _ _ _]. pose proof (rec_cap_pos j W) as Hrp.
  unfold rev_used. destruct r as [|m]; [lia|]. pose proof (Nat.div_mod_eq m (rec_cap j)). pose proof (Nat.mod_upper_bound m (rec_cap j) ltac:(lia)).
  pose proof (proj1 (rec_cap_spec j W (rec_cap j)) ltac:(lia)) as Hfit. unfold rec_pos in Hfit. set (q := (m / rec_cap j)%nat) in *.
  apply Z.div_lt_upper_bound; [lia|]. assert (Z.of_nat (S m) <= Z.of_nat (rec_cap j) * (Z.of_nat q + 1)) by nia. nia.
Qed.

Lemma guess_data j n :
  writer_ok j -> (0 < n)%nat -> Z.of_nat n * journal_tag_bytes j / (j_blocksize j - 16 - csum_size j) + Z.of_nat n < Z.of_nat (data_used j n).
Proof.
  intros W Hn. pose proof (tag_bytes_range j) as Htb. pose proof (csum_size_range j) as Hcs. pose proof W as [Hbs _ _ _]. pose proof (tag_cap_pos j W) as Hcp.
  unfold data_used. destruct n as [|m]; [lia|]. pose proof (Nat.div_mod_eq m (tag_cap j)). pose proof (Nat.mod_upper_bound m (tag_cap j) ltac:(lia)).
  assert (Hfit : 28 + Z.of_nat (tag_cap j) * journal_tag_bytes j <= j_blocksize j - csum_size j).
  { unfold tag_cap. pose proof (Z.mul_div_le (j_blocksize j - csum_size j - 28) (journal_tag_bytes j) ltac:(lia)).
    assert (0 <= (j_blocksize j - csum_size j - 28) / journal_tag_bytes j) by (apply Z.div_pos; lia). rewrite Z2Nat.id by lia. lia. }
  set (q := (m / tag_cap j)%nat) in *.
  assert (Z.of_nat (S m) * journal_tag_bytes j / (j_blocksize j - 16 - csum_size j) < Z.of_nat q + 1).
  { apply Z.div_lt_upper_bound; [lia|]. assert (Z.of_nat (S m) <= Z.of_nat (tag_cap j) * (Z.of_nat q + 1)) by nia. nia. }
  lia.
Qed.

(** The guess is never more than what is needed. *)
Lemma guess_le j n r :
  writer_ok j -> journal_guess_blocks j (Z.of_nat n) (Z.of_nat r) <= Z.of_nat (data_used j n + rev_used j r + 1).
Proof.
  intros W. pose proof (csum_size_range j) as Hcs. pose proof W as [Hbs _ _ _]. unfold journal_guess_blocks.
  destruct n as [|n]; [change (Z.of_nat 0) with 0; rewrite (Z.mul_0_l (journal_tag_bytes j)), (Z.div_0_l (j_blocksize j - 16 - csum_size j)) by lia|pose proof (guess_data j (S n) W ltac:(lia))];
    (destruct r as [|r]; [change (Z.of_nat 0) with 0; rewrite (Z.mul_0_l (record_len j)), (Z.div_0_l (j_blocksize j - csum_size j)) by lia|pose proof (guess_revokes j (S r) W ltac:(lia))]; lia).
Qed.

(** * Writing *)

(** A transaction that can be written into a journal without a log: there is
    memory and space for it, the numbers of the blocks fit, the file is long
    enough, and no old block of the journal looks like one of the transaction
    that follows. *)
Record write_ok (s : session) (block_list revoke_list fp : list Z) : Prop := {
  wk_journal : writer_ok (prepared s revoke_list);
  wk_area : area_ok (prepared s revoke_list) (s_io s);
  wk_first : 0 < j_first (s_journal s);
  wk_fc : jbd2_has_feature_fast_commit (prepared s revoke_list) = false;
  wk_csum : jbd2_has_feature_checksum (s_journal s) = false \/
    revoke_list = [] /\ jbd2_journal_has_csum_v2or3 (s_journal s) = false;
  wk_tail : j_tail s = 0;
  wk_seq : is_u32 (j_tail_sequence s);
  wk_mem : forall a, oom (s_al s) a = false;
  wk_blocks : Forall (fun blk => blk < blocks_count s /\ blk_range (prepared s revoke_list) blk) block_list;
  wk_revokes : Forall (fun blk => blk < blocks_count s /\ blk_range (prepared s revoke_list) blk) revoke_list;
  wk_bytes : bytes_ok fp;
  wk_file : (length block_list * Z.to_nat (j_blocksize (s_journal s)) <= length fp)%nat;
  wk_space : j_first (s_journal s) + Z.of_nat (used (prepared s revoke_list) block_list revoke_list) + 1 < j_last (s_journal s);
  wk_fresh : forall o, in_area (s_journal s) o -> exists b, jread (s_io s) (s_journal s) o = inr b /\ log_end (u32 (j_tail_sequence s + 1)) b
}.

(** What is in the journal afterwards. *)
Record written (s s' : session) (block_list revoke_list fp : list Z) (es : list entry) (cb : list Z) : Prop := {
  wr_but : same_but (prepared s revoke_list) (j_first (s_journal s)) (j_first (s_journal s) + Z.of_nat (used (prepared s revoke_list) block_list revoke_list) + 1) (s_io s) (s_io s');
  wr_stored : stored (prepared s revoke_list) (s_io s') (j_first (s_journal s)) (entries_blocks es ++ [cb]);
  wr_len : length (entries_blocks es) = used (prepared s revoke_list) block_list revoke_list;
  wr_tx : tx_ok (prepared s revoke_list) (j_tail_sequence s) (mk_tx es cb);
  wr_writes : concat (entry_writes (prepared s revoke_list) <$> es) = zip block_list (chunks (s_journal s) (length block_list) fp);
  wr_revokes : concat (entry_revokes (prepared s revoke_list) 0 <$> es) = (fun x => (x, 0)) <$> revoke_list;
  wr_journal : s_journal s' = with_s_start (prepared s revoke_list) (j_first (s_journal s));
  wr_seq : j_tail_sequence s' = j_tail_sequence s;
  wr_head : j_head s' = j_first (s_journal s) + journal_guess_blocks (prepared s revoke_list) (Z.of_nat (length block_list)) (Z.of_nat (length revoke_list)) + 1
}.

Lemma prepared_fields s rl :
  j_first (prepared s rl) = j_first (s_journal s) /\ j_last (prepared s rl) = j_last (s_journal s) /\ j_blocksize (prepared s rl) = j_blocksize (s_journal s) /\
  jbd2_has_feature_checksum (prepared s rl) = jbd2_has_feature_checksum (s_journal s) /\
  (forall i o, jread i (prepared s rl) o = jread i (s_journal s) o) /\ (forall o, in_area (prepared s rl) o <-> in_area (s_journal s) o) /\
  (forall n fp, chunks (prepared s rl) n fp = chunks (s_journal s) n fp).
Proof. unfold prepared. destruct (is_nil rl); [done|]. repeat split; try done; apply H. Qed.

Lemma entry_revokes_desc j es : Forall is_desc es -> concat (entry_revokes j 0 <$> es) = [].
Proof. induction 1 as [|e es He _ IH]; [done|]. rewrite fmap_cons. cbn [concat]. destruct e; [exact IH|done]. Qed.

Lemma entries_blocks_app es1 es2 : entries_blocks (es1 ++ es2) = entries_blocks es1 ++ entries_blocks es2.
Proof. unfold entries_blocks. by rewrite fmap_app, concat_app. Qed.

Lemma journal_write_spec s block_list revoke_list fp errno tv_sec tv_usec :
  write_ok s block_list revoke_list fp ->
  exists s' es cb, journal_write s false block_list revoke_list fp errno tv_sec tv_usec = (0, s') /\ written s s' block_list revoke_list fp es cb.
Proof.
  intros K. pose proof K as [W A Hf Hfc Hcs Ht Hsq Hal Hbl Hrl Hby Hfile Hsp _]. destruct (prepared_fields s revoke_list) as (Ef & El & Eb & Ec & _ & _ & Ech).
  set (j := prepared s revoke_list) in *. unfold used in Hsp. unfold journal_write.
  set (s0 := if is_nil revoke_list then s else _). assert (Ej : s_journal s0 = j) by (unfold s0, j, prepared; by destruct (is_nil revoke_list)).
  assert (E0 : j_tail s0 = 0 /\ j_tail_sequence s0 = j_tail_sequence s /\ s_io s0 = s_io s /\ s_al s0 = s_al s /\ blocks_count s0 = blocks_count s)
    by (unfold s0; destruct (is_nil revoke_list); done). destruct E0 as (E1 & E2 & E3 & E4 & E5).
  rewrite Ej. set (g := journal_guess_blocks _ _ _). pose proof (guess_le j (length block_list) (length revoke_list) W) as Hg. fold g in Hg.
  unfold journal_open_trans. rewrite Ej, E1, E2. cbn [Z.eqb]. destruct (Z.ltb_spec (j_last j) (j_first j + g)); [lia|]. cbn [Z.eqb negb].
  set (t0 := mk_trans _ _ _ _ _ _ _).
  destruct (add_blocks_spec j W s0 t0 block_list fp errno) as (i1 & al1 & es1 & -> & [Sb1 Hm1 Ss1 Ok1 Len1] & Hw1 & Hd1); try done;
    try (cbn [t0 t_block t_tid]; rewrite ?E3, ?E4, ?E5, ?Eb; done || lia). cbn [Z.eqb negb]. cbn [t0 t_block] in *. rewrite E3 in Sb1.
  set (d := data_used j (length block_list)) in *. set (r := rev_used j (length revoke_list)) in *. change (t_tid t0) with (j_tail_sequence s) in *.
  set (s1 := with_io (with_al s0 al1) i1). set (t1 := at_block t0 _).
  destruct (add_revoke_spec j W s1 t1 revoke_list) as (i2 & al2 & es2 & -> & [Sb2 Hm2 Ss2 Ok2 Len2] & Hv2 & Hw2); try done;
    try (cbn [t1 t_block at_block s1 with_io s_io blocks_count with_al]; rewrite ?E5; (done || apply (sb_area _ _ _ _ _ Sb1) || lia)). cbn [Z.eqb negb].
  change (t_block t1) with (j_first j + Z.of_nat d) in *. change (s_io s1) with i1 in *. fold r in Sb2, Len2 |- *. change (t_tid t1) with (j_tail_sequence s) in *.
  assert (St : stored j i2 (j_first j) (entries_blocks (es1 ++ es2))).
  { rewrite entries_blocks_app. apply stored_app; [|by rewrite Len1]. eapply stored_same; [exact Sb2|lia|lia|left; lia|done]. }
  set (s2 := with_io (with_al s1 al2) i2). set (t2 := at_block t1 _).
  destruct (commit_spec j W s2 t2 (es1 ++ es2) tv_sec tv_usec) as (i3 & al3 & cb & -> & Sb3 & Hr3 & Hok3); try done.
  { apply (sb_area _ _ _ _ _ Sb2). }
  { cbn [t2 t1 t0 at_block t_block t_start]. rewrite entries_blocks_app, length_app, Len1, Len2. lia. }
  { cbn [t2 t1 t0 at_block t_block t_start]. lia. }
  { rewrite Ec. destruct Hcs as [Hx|[-> Hx]]; [by left|right]. split; [|exact Hx]. apply Forall_app. split; [done|]. destruct es2 as [|[b x|b] es2]; [done| |]; by cbn in Len2. }
  cbn [Z.eqb negb]. change (t_block t2) with (j_first j + Z.of_nat d + Z.of_nat r) in *. change (s_io s2) with i2 in *. change (t_tid t2) with (j_tail_sequence s) in *.
  unfold journal_close_trans. cbn [committed magic t_committed t_start t_tid t_end t2 t1 t0 at_block negb]. rewrite Z.eqb_refl. cbn [negb].
  change (j_tail (mark_needs_recovery _)) with (j_tail s0). rewrite E1. cbn [Z.eqb].
  eexists _, (es1 ++ es2), cb. split; [reflexivity|]. cbn [needs_recovery with_head with_tail with_journal mark_needs_recovery].
  constructor; rewrite ?entries_blocks_app, <- ?Ef; cbn [s_io s_journal j_tail_sequence j_head]; fold j; unfold used; fold d r.
  - eapply same_but_trans; [eapply same_but_widen; [| |exact Sb1]; lia|]. eapply same_but_trans; [eapply same_but_widen; [| |exact Sb2]; lia|].
    eapply same_but_widen; [| |exact Sb3]; lia.
  - rewrite entries_blocks_app in St. apply stored_app; [eapply stored_same; [exact Sb3|lia|rewrite length_app; lia|left; rewrite length_app; lia|done]|].
    apply stored_one. rewrite length_app, Len1, Len2. rewrite <- Hr3. f_equal. lia.
  - by rewrite length_app, Len1, Len2.
  - split; [by apply Forall_app|done].
  - by rewrite fmap_app, concat_app, Hw1, Hw2, app_nil_r, Ech.
  - by rewrite fmap_app, concat_app, entry_revokes_desc, Hv2 by done.
  - change (with_s_start (s_journal s0) (j_first j) = with_s_start j (j_first j)). by rewrite Ej.
  - done.
  - done.
Qed.

(** * Recovering what was written *)

Lemma last_write_unrevoked rl ws blk :
  last_write (unrevoked ((fun x => (x, 0)) <$> rl) 0 ws) blk = if bool_decide (blk ∈ rl) then None else last_write ws blk.
Proof.
  assert (Hr : forall b, revoked_since ((fun x => (x, 0)) <$> rl) b 0 = bool_decide (b ∈ rl)).
  { intros b. unfold revoked_since. apply bool_decide_ext. rewrite Exists_exists. split.
    - intros ([c k] & Hin & [<- _]). apply list_elem_of_fmap in Hin as (y & Hy & Hin). by injection Hy as -> _.
    - intros Hb. exists (b, 0). split; [|done]. apply list_elem_of_fmap. by exists b. }
  induction ws as [|[b d] ws IH]; [by destruct (bool_decide _)|]. unfold unrevoked in *. rewrite filter_cons. cbn [fst]. rewrite Hr. cbn [last_write].
  destruct (bool_decide_reflect (b ∈ rl)) as [Hb|Hb].
  - rewrite decide_False by done. rewrite IH. case_bool_decide; [done|]. destruct (last_write ws blk); [done|]. destruct (Z.eqb_spec b blk); [congruence|done].
  - rewrite decide_True by done. cbn [last_write]. rewrite IH. case_bool_decide; [|done]. destruct (Z.eqb_spec b blk); [congruence|done].
Qed.

Lemma entries_outside j i tid es :
  Forall (entry_ok j tid) es -> Forall (fun w => outside_journal j i w.1) (concat (entry_writes j <$> es)) -> Forall (entry_outside j i) es.
Proof.
  induction 1 as [|e es He _ IH]; intros Hw; [constructor|]. rewrite fmap_cons in Hw. cbn [concat] in Hw. apply Forall_app in Hw as [Hw Hws].
  constructor; [|by apply IH]. destruct e as [b data|b]; [|done]. destruct He as (_ & _ & _ & Hd). cbn [entry_writes entry_outside] in *. unfold desc_writes in Hw.
  clear IH Hws. revert Hw. induction Hd as [|p d ps ds _ _ IHd]; intros Hw; [constructor|]. cbn [zip_with] in Hw. apply Forall_cons in Hw as [H1 H2]. constructor; [exact H1|by apply IHd].
Qed.

Lemma entries_length es : (length es <= length (entries_blocks es))%nat.
Proof.
  induction es as [|e es IH]; [done|]. unfold entries_blocks in *. rewrite fmap_cons. cbn [concat length]. rewrite length_app. destruct e; cbn [entry_blocks length]; lia.
Qed.

(** The log that was written. *)
Lemma written_log s s' bl rl fp es cb :
  write_ok s bl rl fp -> Forall (outside_journal (s_journal s) (s_io s)) bl -> written s s' bl rl fp es cb ->
  exists b, geometry (close_superblock s') /\ log_ok (close_superblock s') (s_io s') (mk_log [mk_tx es cb] [] None b).
Proof.
  intros [W A Hf Hfc Hcs Ht Hsq Hal Hbl Hrl Hby Hfile Hsp Hfresh] Hout [Sb St Hlen Htx Hwr Hrv Ej Es Hh].
  destruct (prepared_fields s rl) as (Ef & El & Eb & _ & Erd & Ein & _). set (j := prepared s rl) in *.
  assert (Ec : close_superblock s' = with_superblock j (mk_jsb (j_tail_sequence s) (j_first (s_journal s)) (s_feature_compat (j_superblock j)) (s_feature_incompat (j_superblock j)) (s_uuid (j_superblock j))))
    by (unfold close_superblock; rewrite Ej, Es; done).
  set (o := j_first (s_journal s) + Z.of_nat (used j bl rl) + 1) in *. pose proof A as [_ Htot _ _]. pose proof W as [Hbs _ _ _].
  destruct (Hfresh o) as (b & Hb & Hend); [unfold in_area, o; lia|]. exists b. rewrite Ec. set (j3 := with_superblock j _).
  assert (Hlast : log_last j3 = j_last j) by (unfold log_last; change (jbd2_has_feature_fast_commit j3) with (jbd2_has_feature_fast_commit j); by rewrite Hfc).
  split; [constructor; rewrite ?Hlast; cbn [j3 with_superblock j_first j_total_len j_blocksize]; lia|].
  assert (Hrd : jread (s_io s') j o = inr b) by (rewrite (sb_reads _ _ _ _ _ Sb), Erd; [done|apply Ein; unfold in_area, o; lia|unfold o; lia]).
  constructor.
  - cbn [j3 with_superblock j_superblock s_start]. lia.
  - unfold in_log. rewrite Hlast. cbn [j3 with_superblock j_superblock s_start j_first]. lia.
  - exact Hsq.
  - done.
  - split; [|done]. change (tx_ok j (u32 (j_tail_sequence s + 0)) (mk_tx es cb)). by rewrite Z.add_0_r, u32_small.
  - constructor.
  - done.
  - exact Hend.
  - change (log_at j (s_io s') (j_first (s_journal s)) (txs_blocks [mk_tx es cb] ++ [b])). unfold txs_blocks, tx_blocks. cbn [fmap list_fmap concat tx_entries tx_commit]. rewrite app_nil_r.
    apply stored_log_at; [done|rewrite !length_app; cbn [length]; unfold o in *; lia|]. apply stored_app; [done|]. apply stored_one. rewrite length_app, Hlen. cbn [length].
    rewrite <- Hrd. f_equal. unfold o. lia.
  - constructor; [|done]. cbn [tx_entries]. apply (entries_outside j3 (s_io s') (j_tail_sequence s)); [exact (proj1 Htx)|].
    change (Forall (fun w => outside_journal j (s_io s') w.1) (concat (entry_writes j <$> es))). rewrite Hwr. apply Forall_forall. intros [x d] Hin.
    apply elem_of_zip_l in Hin. rewrite Forall_forall in Hout. specialize (Hout x Hin). cbn [fst]. unfold outside_journal in *. rewrite (sb_same _ _ _ _ _ Sb).
    unfold j, prepared. by destruct (is_nil rl).
Qed.

(** C1: what debugfs writes into a journal, recovery brings back.  Writing a
    transaction of data and revoke blocks into a journal without a log succeeds,
    and recovery of the closed journal then writes every data block to its
    place in the file system - the last one of several for the same place, and
    with the magic number of blocks that look like blocks of the journal
    restored - except for the blocks the transaction revokes, and changes
    nothing else outside of the journal.  This holds for every combination of
    64-bit block numbers and checksums, with one exception: transactions that
    revoke blocks in a journal with checksums of the first kind. *)
Theorem write_then_recover (s : session) (block_list revoke_list fp : list Z) (errno tv_sec tv_usec : Z) :
  write_ok s block_list revoke_list fp -> Forall (outside_journal (s_journal s) (s_io s)) block_list ->
  exists s', journal_write s false block_list revoke_list fp errno tv_sec tv_usec = (0, s') /\
    forall (fc_replay : option fc_callback) rs fuel, rs_io rs = s_io s' -> ready rs -> (used (prepared s revoke_list) block_list revoke_list + 3 < fuel)%nat ->
      exists rs', jbd2_journal_recover fc_replay fuel (close_superblock s') rs =
          Done (if flush_err (fs_io (s_io s)) then - EIO else 0, rs', u32 (j_tail_sequence s + 2)) /\
        forall blk, outside_journal (s_journal s) (s_io s) blk ->
          blocks (fs_io (rs_io rs')) !! blk =
            if wr_err (fs_io (s_io s)) blk || bool_decide (blk ∈ revoke_list) then blocks (fs_io (s_io s)) !! blk
            else match last_write (zip block_list (chunks (s_journal s) (length block_list) fp)) blk with
                 | Some d => Some d
                 | None => blocks (fs_io (s_io s)) !! blk
                 end.
Proof.
  intros K Hout. destruct (journal_write_spec s block_list revoke_list fp errno tv_sec tv_usec K) as (s' & es & cb & E & Wr). exists s'. split; [exact E|].
  intros fc rs fuel Hio [Wt Hem Hm] Hf. destruct (written_log s s' block_list revoke_list fp es cb K Hout Wr) as (b & G & L). set (l := mk_log _ _ _ _) in *.
  pose proof Wr as [Sb St Hlen Htx Hwr Hrv Ej Es Hh]. pose proof (sb_errs _ _ _ _ _ Sb) as [Hwe Hfe]. pose proof (entries_length es) as Hel.
  destruct (recover_log (close_superblock s') G fc (s_io s') l rs fuel) as (rs' & Er & Hd & _); try done.
  { left. unfold close_superblock. rewrite Ej. apply (wk_fc _ _ _ _ K). }
  { unfold log_turns. cbn [l l_txs l_open txs_turns length]. unfold tx_turns. cbn [tx_entries]. lia. }
  exists rs'. rewrite Er, Hfe. split.
  { f_equal. f_equal. unfold log_base, close_superblock. cbn [with_superblock j_superblock s_sequence]. rewrite Es. change (log_count l) with 1. f_equal. lia. }
  intros blk Hblk. rewrite Hd, write_blocks_lookup, Hwe.
  assert (Hw : log_writes (close_superblock s') l = unrevoked ((fun x => (x, 0)) <$> revoke_list) 0 (zip block_list (chunks (s_journal s) (length block_list) fp))).
  { unfold log_writes, log_revokes. cbn [l l_txs txs_writes txs_revokes tx_entries]. rewrite !app_nil_r. unfold close_superblock. rewrite Ej.
    rewrite <- Hrv, <- Hwr. done. }
  rewrite Hw, last_write_unrevoked. rewrite (sb_fs _ _ _ _ _ Sb).
  - destruct (wr_err (fs_io (s_io s)) blk); [done|]. cbn [orb]. by case_bool_decide.
  - intros Hsm o pb Ho. pose proof (wk_area _ _ _ _ K) as [Hfi Htot _ _]. destruct (prepared_fields s revoke_list) as (Ef & El & _). unfold in_area in Ho.
    unfold prepared in *. intros Hbm. apply (Hblk Hsm o pb); [destruct (is_nil revoke_list); cbn in *; lia|by destruct (is_nil revoke_list)].
Qed.

(** ** An example *)

Module Written.

(** A journal with 64-bit block numbers and checksums of the third kind; block 5
    is written twice and block 6 is revoked again. *)
Definition j : journal_t :=
  mk_journal (mk_jsb 7 0 0 (Z.lor JBD2_FEATURE_INCOMPAT_64BIT JBD2_FEATURE_INCOMPAT_CSUM_V3) (replicate 16 0xAB)) 2 0 0 1 16 1024 16 99 (fun o => inr (1000 + o)).
Definition dev : device := mk_dev (list_to_map ((fun o => (1000 + Z.of_nat o, replicate 1024 0)) <$> seq 0 16)) (fun _ => false) false.
Definition s : session := mk_session j 0 0 7 7 false (mk_io dev dev true) (mk_alloc 1 (fun _ => false)) 100 false false.
Definition fp : list Z := replicate 1024 1 ++ Demo.put [(4%nat, 0, JBD2_MAGIC_NUMBER)] ++ replicate 1024 3.

Definition fresh (o : Z) : bool :=
  negb (1 <=? o) || match jread (s_io s) j o with inr b => negb (h_magic b =? JBD2_MAGIC_NUMBER) | inl _ => false end.

Lemma fresh_all o : 0 <= o < 16 -> fresh o = true.
Proof. apply (forall_range fresh 16). by vm_compute. Qed.

Lemma write_ok_s : write_ok s [5; 6; 5] [6] fp.
Proof.
  constructor; try done.
  - constructor; [by vm_compute|done|by repeat constructor|by vm_compute].
  - constructor; [by vm_compute|by vm_compute| |].
    + intros o _. exists (1000 + o). done.
    + intros o o' pb _ _ E1 E2. injection E1 as <-. injection E2 as E2. lia.
  - by left.
  - repeat constructor; by vm_compute.
  - repeat constructor; by vm_compute.
  - unfold fp. apply bytes_ok_app. split; [by apply Forall_replicate|]. apply bytes_ok_app. split; [|by apply Forall_replicate].
    apply (bool_decide_unpack (Forall (fun x => 0 <= x < 256) _)). by vm_compute.
  - intros o Ho. pose proof (fresh_all o) as H. unfold fresh in H. unfold in_area in Ho. change (j_first (s_journal s)) with 1 in Ho. change (j_last (s_journal s)) with 16 in Ho.
    destruct (Z.leb_spec 1 o); [|lia]. cbn [negb orb] in H. specialize (H ltac:(lia)). change (s_journal s) with j.
    destruct (jread (s_io s) j o) as [e|b]; [done|]. exists b. split; [done|]. left. by destruct (Z.eqb_spec (h_magic b) JBD2_MAGIC_NUMBER).
Qed.

End Written.

Lemma write_then_recover_witness :
  exists s', journal_write Written.s false [5; 6; 5] [6] Written.fp 0 0 0 = (0, s') /\
    forall rs fuel, rs_io rs = s_io s' -> ready rs -> (8 < fuel)%nat ->
      exists rs', jbd2_journal_recover None fuel (close_superblock s') rs = Done (0, rs', 9) /\
        blocks (fs_io (rs_io rs')) !! 5 = Some (replicate 1024 3) /\ blocks (fs_io (rs_io rs')) !! 6 = None.
Proof.
  destruct (write_then_recover Written.s [5; 6; 5] [6] Written.fp 0 0 0 Written.write_ok_s) as (s' & E & H).
  { repeat constructor; intros _ o pb Ho Hb; injection Hb as <-; lia. }
  exists s'. split; [exact E|]. intros rs fuel Hio Hr Hf. destruct (H None rs fuel Hio Hr Hf) as (rs' & Er & Hb). exists rs'. split; [exact Er|].
  split; (rewrite Hb; [by vm_compute|intros _ o pb Ho Hx; injection Hx as <-; lia]).
Defined.

(** * The head of the log *)

(** after a transaction with data and with revokes, debugfs takes a head of
    the log that is not behind the commit block: the space was guessed without
    the blocks that are not full, so the next transaction of the session
    overwrites the commit block of this one. *)
Theorem head_not_behind_commit (s : session) (block_list revoke_list fp : list Z) (errno tv_sec tv_usec : Z) :
  write_ok s block_list revoke_list fp -> block_list <> [] -> revoke_list <> [] ->
  exists s' cb, journal_write s false block_list revoke_list fp errno tv_sec tv_usec = (0, s') /\
    let commit_at := j_first (s_journal s) + Z.of_nat (used (prepared s revoke_list) block_list revoke_list) in
    jread (s_io s') (s_journal s) commit_at = inr cb /\ h_blocktype cb = JBD2_COMMIT_BLOCK /\ h_sequence cb = j_tail_sequence s /\
    j_head s' <= commit_at.
Proof.
  intros K Hb Hr. destruct (journal_write_spec s block_list revoke_list fp errno tv_sec tv_usec K) as (s' & es & cb & E & Wr). exists s', cb. split; [exact E|].
  destruct (prepared_fields s revoke_list) as (_ & _ & _ & _ & Erd & _). destruct Wr as [Sb St Hlen [_ (Hh & _)] _ _ _ _ Hhd]. cbn zeta.
  split; [|split; [apply Hh|split; [apply Hh|]]].
  - rewrite <- Erd, <- Hlen. apply St. rewrite lookup_app_r, Nat.sub_diag by lia. done.
  - rewrite Hhd. unfold journal_guess_blocks, used. pose proof (wk_journal _ _ _ _ K) as W.
    pose proof (guess_data _ (length block_list) W ltac:(destruct block_list; [done|cbn [length]; lia])).
    pose proof (guess_revokes _ (length revoke_list) W ltac:(destruct revoke_list; [done|cbn [length]; lia])). lia.
Qed.

Lemma head_not_behind_commit_witness :
  exists s' cb, journal_write Written.s false [5; 6; 5] [6] Written.fp 0 0 0 = (0, s') /\
    jread (s_io s') Written.j 6 = inr cb /\ h_blocktype cb = JBD2_COMMIT_BLOCK /\ h_sequence cb = 7 /\ j_head s' <= 6.
Proof. apply (head_not_behind_commit Written.s [5; 6; 5] [6] Written.fp 0 0 0 Written.write_ok_s); done. Defined.

(** ** Finding the head when the journal is opened *)

Section find_head.
Context (j : journal_t) (G : geometry j) (Hfc : jbd2_has_feature_fast_commit j = false).

(** [n] turns of the loop lead from one state to the other. *)
Definition head_turns (i : io) (n : nat) (bh bh' : buffer_head) (x x' : Z * Z * Z) : Prop :=
  forall fuel, find_head_loop (n + fuel) i j bh x.1.1 x.1.2 x.2 = find_head_loop fuel i j bh' x'.1.1 x'.1.2 x'.2.

Definition reads_journal (bh : buffer_head) : Prop := b_dev bh = K_DEV_JOURNAL /\ b_err bh = 0.

Lemma wrap_plain v : (if j_last j <=? v then u64 (v - (j_last j - j_first j)) else v) = wrap j v.
Proof. unfold wrap. by rewrite Hfc. Qed.

Lemma in_log_u32 o : in_log j o -> is_u32 o.
Proof. destruct G as [[H1 _] H2 _]. intros [H3 H4]. unfold is_u32. lia. Qed.

(** One turn, at a block that can be read. *)
Lemma head_turn i bh tid o head b :
  in_log j o -> jread i j o = inr b -> reads_journal bh ->
  exists bh', reads_journal bh' /\ forall fuel,
    find_head_loop (S fuel) i j bh tid o head =
      (let next := wrap j (o + 1) in
       if negb (h_magic b =? JBD2_MAGIC_NUMBER) then Done (inr (tid, head))
       else if negb (h_sequence b =? tid) then Done (inr (tid, head))
       else if h_blocktype b =? JBD2_DESCRIPTOR_BLOCK then
         let* n := count_tags j b in find_head_loop fuel i j bh' tid (wrap j (next + n)) head
       else if h_blocktype b =? JBD2_COMMIT_BLOCK then find_head_loop fuel i j bh' (u32 (tid + 1)) next next
       else if h_blocktype b =? JBD2_REVOKE_BLOCK then find_head_loop fuel i j bh' tid next head
       else Done (inl (- EINVAL))).
Proof.
  intros Ho Hr [Hd He]. destruct (read_back j i o b (in_log_u32 o Ho) Hr) as (pb & Eb & Hrb).
  exists (mark_buffer_uptodate (set_data (mark_buffer_uptodate (set_blocknr bh pb) false) b) true). split; [done|]. intros fuel.
  cbn [find_head_loop]. rewrite Eb, (Hrb bh Hd). cbn [mark_buffer_uptodate set_data set_blocknr b_err b_data]. rewrite He. cbn [Z.eqb negb]. cbn zeta. rewrite !wrap_plain.
  destruct (negb _); [done|]. destruct (negb _); [done|]. destruct (_ =? _); [|done]. destruct (count_tags j b); cbn [obind]; [|done]. by rewrite wrap_plain.
Qed.

Lemma head_entry i bh tid o head e :
  in_log j o -> entry_ok j tid e -> log_at j i o (entry_blocks e) -> reads_journal bh ->
  exists bh', reads_journal bh' /\ head_turns i 1 bh bh' (tid, o, head) (tid, adv j (length (entry_blocks e)) o, head).
Proof.
  intros Ho Hok Hlog Hbh. assert (Hbs : 0 <= j_blocksize j) by (destruct G; lia). assert (Hn : in_log j (wrap j (o + 1))) by (apply wrap_in_log; [done|done|destruct G; lia]).
  destruct e as [b data|b]; destruct Hok as ((Hm & Ht & Hs) & _ & Hok); destruct Hlog as [Hr _];
    destruct (head_turn i bh tid o head b Ho Hr Hbh) as (bh' & Hbh' & E); exists bh'; (split; [done|]); intros fuel; cbn [plus fst snd]; rewrite E; cbn zeta;
    rewrite Hm, Hs, Ht, !Z.eqb_refl; cbn [negb Z.eqb Pos.eqb JBD2_DESCRIPTOR_BLOCK JBD2_COMMIT_BLOCK JBD2_REVOKE_BLOCK].
  - destruct Hok as [Hl Hd]. rewrite count_tags_spec by done. cbn [obind entry_blocks length adv]. rewrite <- (data_length j b data tid Hd) in *.
    by rewrite (adv_wrap j (length data)) by done.
  - done.
Qed.

Lemma head_trans i n m bh1 bh2 bh3 x y z : head_turns i n bh1 bh2 x y -> head_turns i m bh2 bh3 y z -> head_turns i (n + m) bh1 bh3 x z.
Proof. intros H1 H2 fuel. by rewrite <- Nat.add_assoc, H1, H2. Qed.

Lemma head_entries i tid head es : forall bh o,
  in_log j o -> Forall (entry_ok j tid) es -> log_at j i o (entries_blocks es) -> reads_journal bh ->
  exists bh', reads_journal bh' /\ head_turns i (length es) bh bh' (tid, o, head) (tid, adv j (length (entries_blocks es)) o, head).
Proof.
  induction es as [|e es IH]; intros bh o Ho Hok Hlog Hbh; [exists bh; split; [done|]; by intros fuel|].
  apply Forall_cons in Hok as [Hok Hoks]. unfold entries_blocks in *. rewrite fmap_cons in *. cbn [concat] in *. apply log_at_app in Hlog as [Hl1 Hl2].
  destruct (head_entry i bh tid o head e Ho Hok Hl1 Hbh) as (bh1 & Hb1 & T1).
  destruct (IH bh1 (adv j (length (entry_blocks e)) o)) as (bh2 & Hb2 & T2); try done; [by apply adv_in_log|].
  exists bh2. split; [done|]. rewrite length_app, adv_add. exact (head_trans i 1 (length es) _ _ _ _ _ _ T1 T2).
Qed.

Lemma head_txs i base ts : forall k bh o head,
  in_log j o -> txs_ok j base k ts -> log_at j i o (txs_blocks ts) -> reads_journal bh ->
  exists bh', reads_journal bh' /\
    head_turns i (txs_turns ts) bh bh' (u32 (base + k), o, head)
      (u32 (base + (k + Z.of_nat (length ts))), adv j (length (txs_blocks ts)) o, match ts with [] => head | _ => adv j (length (txs_blocks ts)) o end).
Proof.
  induction ts as [|t ts IH]; intros k bh o head Ho Hok Hlog Hbh.
  { exists bh. split; [done|]. cbn [length txs_blocks concat fmap list_fmap adv]. rewrite Z.add_0_r. by intros fuel. }
  destruct Hok as [[Hes ((Hm & Ht & Hs) & _)] Hok]. unfold txs_blocks in *. rewrite fmap_cons in *. cbn [concat] in *. apply log_at_app in Hlog as [Hl1 Hl2].
  unfold tx_blocks in Hl1. apply log_at_app in Hl1 as [Hl0 [Hl1 _]]. set (o1 := adv j (length (entries_blocks (tx_entries t))) o) in *.
  assert (Ho1 : in_log j o1) by (by apply adv_in_log). rewrite length_tx_blocks, adv_add in Hl2. fold o1 in Hl2. cbn [adv] in Hl2.
  destruct (head_entries i (u32 (base + k)) head (tx_entries t) bh o Ho Hes Hl0 Hbh) as (bh1 & Hb1 & T1). fold o1 in T1.
  destruct (head_turn i bh1 (u32 (base + k)) o1 head (tx_commit t) Ho1 Hl1 Hb1) as (bh2 & Hb2 & E2).
  assert (T2 : head_turns i 1 bh1 bh2 (u32 (base + k), o1, head) (u32 (base + (k + 1)), wrap j (o1 + 1), wrap j (o1 + 1))).
  { intros fuel. cbn [plus fst snd]. rewrite E2. cbn zeta. rewrite Hm, Hs, Ht, !Z.eqb_refl. cbn [negb Z.eqb Pos.eqb JBD2_DESCRIPTOR_BLOCK JBD2_COMMIT_BLOCK]. by rewrite u32_succ. }
  destruct (IH (k + 1) bh2 (wrap j (o1 + 1)) (wrap j (o1 + 1))) as (bh3 & Hb3 & T3); try done; [apply wrap_in_log; [done|done|destruct G; lia]|].
  exists bh3. split; [done|]. cbn [txs_turns length]. unfold tx_turns. rewrite length_app, length_tx_blocks, !adv_add. fold o1. cbn [adv].
  replace (k + Z.of_nat (S (length ts))) with (k + 1 + Z.of_nat (length ts)) by lia.
  pose proof (head_trans i _ _ _ _ _ _ _ _ (head_trans i _ _ _ _ _ _ _ _ T1 T2) T3) as T. by destruct ts.
Qed.

End find_head.

(** opening a journal finds the head of the log: the block behind the last
    complete transaction, where the log may wrap around, and the number of the
    transaction that is to be written there. *)
Theorem find_head_correct (s : session) (l : log) (fuel : nat) :
  let j := s_journal s in
  geometry j -> jbd2_has_feature_fast_commit j = false -> log_ok j (s_io s) l -> l_bad l = None -> (forall a, oom (s_al s) a = false) ->
  (log_turns l < fuel)%nat ->
  exists s', journal_find_head fuel s = Done (0, s') /\ j_transaction_sequence s' = u32 (s_sequence (j_superblock j) + log_count l) /\
    j_head s' = adv j (length (txs_blocks (l_txs l))) (s_start (j_superblock j)).
Proof.
  intros j G Hfc [Hst Hin Hsq Hc Hok Hop _ He Hlog _] Hbad Hal Hf. unfold journal_find_head. fold j. destruct (Z.eqb_spec (s_start (j_superblock j)) 0); [done|].
  destruct (getblk_mem_ok (s_al s) K_DEV_JOURNAL 0 (j_blocksize j) Hal) as (al & -> & _). cbn [with_al s_io]. set (bh := getblk _ _ _).
  unfold log_blocks in Hlog. rewrite Hbad in Hlog. cbn [option_list app] in Hlog. apply log_at_app in Hlog as [Hl1 Hl2]. apply log_at_app in Hl2 as [Hl2 [Hl3 _]].
  set (o1 := adv j (length (txs_blocks (l_txs l))) (s_start (j_superblock j))) in *. assert (Ho1 : in_log j o1) by (by apply adv_in_log).
  destruct (head_txs j G Hfc (s_io s) (log_base j) (l_txs l) 0 bh (s_start (j_superblock j)) (s_start (j_superblock j)) Hin Hok Hl1) as (bh1 & Hb1 & T1); [done|].
  rewrite Z.add_0_r, u32_small in T1 by done. rewrite Z.add_0_l in T1. fold (log_count l) in T1. fold (log_tid j l) o1 in T1.
  assert (Hh : match l_txs l with [] => s_start (j_superblock j) | _ => o1 end = o1) by (unfold o1; by destruct (l_txs l)). rewrite Hh in T1.
  destruct (head_entries j G Hfc (s_io s) (log_tid j l) o1 (l_open l) bh1 o1 Ho1 Hop Hl2 Hb1) as (bh2 & Hb2 & T2). set (o2 := adv j _ o1) in *.
  destruct (head_turn j G Hfc (s_io s) bh2 (log_tid j l) o2 o1 (l_end l)) as (bh3 & _ & E3); [by apply adv_in_log|done|done|].
  pose proof (head_trans j _ _ _ _ _ _ _ _ _ T1 T2) as T. unfold log_turns in Hf.
  replace fuel with (txs_turns (l_txs l) + length (l_open l) + S (fuel - txs_turns (l_txs l) - length (l_open l) - 1))%nat by lia.
  specialize (T (S (fuel - txs_turns (l_txs l) - length (l_open l) - 1))). cbn [fst snd] in T. unfold log_base in T. rewrite T, E3. cbn zeta.
  assert (Hend : negb (h_magic (l_end l) =? JBD2_MAGIC_NUMBER) = true \/ negb (h_sequence (l_end l) =? log_tid j l) = true)
    by (destruct He as [He|He]; apply Z.eqb_neq in He; rewrite He; [by left|by right]).
  eexists (with_head (with_al s al) o1 (log_tid j l)). split; [|done].
  destruct (negb (h_magic (l_end l) =? JBD2_MAGIC_NUMBER)); [done|]. destruct Hend as [?|Hend]; [done|]. by rewrite Hend.
Qed.

Lemma find_head_correct_witness :
  exists s', journal_find_head 8 (mk_session Demo.j 0 15 0xFFFFFFFF 0xFFFFFFFF false Demo.i (mk_alloc 1 (fun _ => false)) 1000 false false) = Done (0, s') /\
    j_transaction_sequence s' = 1 /\ j_head s' = 9.
Proof.
  apply (find_head_correct (mk_session Demo.j 0 15 0xFFFFFFFF 0xFFFFFFFF false Demo.i (mk_alloc 1 (fun _ => false)) 1000 false false) Demo.l 8 Demo.geometry_j);
    [done|exact Demo.log_ok_l|done|done|cbn; lia].
Defined.

(** * What goes wrong *)

Module Flaws.

Definition rs (i : io) : recovery_state := mk_rs i (mk_alloc 1 (fun _ => false)) (mk_table 16 4 (replicate 16 [])) 0 (mk_info 0 0 0 0 0).

(** The same journal with checksums of the first kind. *)
Definition j1 : journal_t :=
  mk_journal (mk_jsb 7 0 JBD2_FEATURE_COMPAT_CHECKSUM 0 (replicate 16 0xAB)) 2 0 0 1 16 1024 16 99 (fun o => inr (1000 + o)).
Definition s1 : session := mk_session j1 0 0 7 7 false (s_io Written.s) (mk_alloc 1 (fun _ => false)) 100 false false.

(** With checksums of the first kind, a transaction that revokes a block is
    lost: debugfs puts revoke blocks into the checksum, recovery does not, takes
    the commit for a failed one, and does not bring back the data. *)
Example v1_checksum_of_revokes :
  let '(err, s') := journal_write s1 false [5] [6] (replicate 1024 1) 0 0 0 in
  err = 0 /\
  match jbd2_journal_recover None 20 (close_superblock s') (rs (s_io s')) with
  | Done (err, rs', _) => err = 0 /\ j_failed_commit rs' = 7 /\ blocks (fs_io (rs_io rs')) !! 5 = None
  | Crash _ => False
  end.
Proof. by vm_compute. Qed.

(** A file that is too short: [errno] is 0 at the end of a file, the descriptor
    block is never written, and the transaction is committed. *)
Example short_file_is_committed :
  let '(err, s') := journal_write Written.s false [5] [] [] 0 0 0 in
  err = 0 /\ needs_recovery s' = true /\ jread (s_io s') Written.j 1 = inr (replicate 1024 0) /\
  match jread (s_io s') Written.j 2 with inr b => h_blocktype b = JBD2_COMMIT_BLOCK | inl _ => False end.
Proof. by vm_compute. Qed.

(** A log of two blocks, and behind it a block of the file system. *)
Definition j2 : journal_t := mk_journal (mk_jsb 7 0 0 0 (replicate 16 0xAB)) 2 0 0 1 3 1024 3 99 (fun o => inr (if o <? 3 then 1000 + o else 0)).
Definition s2 : session := mk_session j2 0 0 7 7 false (s_io Written.s) (mk_alloc 1 (fun _ => false)) 100 false false.

(** The space is checked against the guess, which is too small: the commit block
    goes behind the end of the log, where the journal file has no block and the
    map of the inode answers with block 0 of the file system. *)
Example commit_behind_the_log :
  let '(err, s') := journal_write s2 false [5] [] (replicate 1024 1) 0 0 0 in
  err = 0 /\ match blocks (fs_io (s_io s')) !! 0 with Some b => h_blocktype b = JBD2_COMMIT_BLOCK | None => False end.
Proof. by vm_compute. Qed.

(** A block that cannot be written back is not reported. *)
Definition bad_dev : device := mk_dev (blocks Demo.dev) (fun blk => blk =? 101) false.

Example write_error_not_reported :
  match jbd2_journal_recover None 8 Demo.j (rs (mk_io bad_dev bad_dev true)) with
  | Done (err, rs', _) => err = 0 /\ blocks (fs_io (rs_io rs')) !! 101 = None /\ blocks (fs_io (rs_io rs')) !! 102 = Some (Demo.data 2)
  | Crash _ => False
  end.
Proof. by vm_compute. Qed.

End Flaws.
