(* ===== verification/BackedBlock.v ===== *)
(** libsparse/backed_block.cpp: the ordered list of backed blocks.

    The C list is singly linked and [backed_block_list] keeps, besides the
    head, the pointer [last_used] into the chain.  Here the chain is the Rocq
    list of its nodes and every node carries its address, so that [last_used],
    and the [start], [end] and [bb] arguments of the operations, are addresses
    that may or may not belong to a live node: following one that does not is
    [Crash BadPointer].  [malloc]/[calloc] are modelled by an allocator that
    hands out fresh addresses and fails where its oracle says so. *)

From S2P Require Import Prelude.

Local Open Scope Z_scope.

Definition EINVAL : Z := 22.
Definition ENOMEM : Z := 12.

(** * Data *)

(** The tagged union of [struct backed_block]. *)
Inductive backing :=
| BACKED_BLOCK_DATA (data : Z)
| BACKED_BLOCK_FILE (filename : string) (offset : Z)
| BACKED_BLOCK_FD (fd offset : Z)
| BACKED_BLOCK_FILL (val : Z).

Record backed_block := mk_bb {
  bb_addr : Z;
  bb_block : Z;
  bb_len : Z;
  bb_kind : backing }.

Record backed_block_list := mk_bbl {
  data_blocks : list backed_block;
  last_used : option Z;
  bbl_block_size : Z }.

#[export] Instance backing_eq_dec : EqDecision backing.
Proof. solve_decision. Defined.
#[export] Instance backed_block_eq_dec : EqDecision backed_block.
Proof. solve_decision. Defined.

Definition set_len (b : backed_block) (l : Z) : backed_block :=
  mk_bb (bb_addr b) (bb_block b) l (bb_kind b).

Definition with_blocks (bbl : backed_block_list) (l : list backed_block) (lu : option Z)
  : backed_block_list := mk_bbl l lu (bbl_block_size bbl).

(** * Operations *)

Definition backed_block_list_new (block_size : Z) : backed_block_list :=
  mk_bbl [] None block_size.

(** The chain cut in front of the node at address [p]. *)
Fixpoint split_at (p : Z) (l : list backed_block)
  : option (list backed_block * backed_block * list backed_block) :=
  match l with
  | [] => None
  | b :: t =>
      if bb_addr b =? p then Some ([], b, t)
      else match split_at p t with
           | Some (pre, x, post) => Some (b :: pre, x, post)
           | None => None
           end
  end.

Definition same_type (a b : backing) : bool :=
  match a, b with
  | BACKED_BLOCK_DATA _, BACKED_BLOCK_DATA _
  | BACKED_BLOCK_FILE _ _, BACKED_BLOCK_FILE _ _
  | BACKED_BLOCK_FD _ _, BACKED_BLOCK_FD _ _
  | BACKED_BLOCK_FILL _, BACKED_BLOCK_FILL _ => true
  | _, _ => false
  end.

(** The [switch] of [merge_bb]. *)
Definition mergeable (a b : backed_block) : bool :=
  match bb_kind a, bb_kind b with
  | BACKED_BLOCK_FILL va, BACKED_BLOCK_FILL vb => va =? vb
  | BACKED_BLOCK_FILE fa oa, BACKED_BLOCK_FILE fb ob =>
      String.eqb fa fb && (u64 (oa + bb_len a) =? u64 ob)
  | BACKED_BLOCK_FD fa oa, BACKED_BLOCK_FD fb ob =>
      (fa =? fb) && (u64 (oa + bb_len a) =? u64 ob)
  | _, _ => false
  end.

(** [inl] is the error return, [inr a'] the node [a] after it swallowed [b]. *)
Definition merge_bb (block_size : Z) (a b : option backed_block)
  : outcome (Z + backed_block) :=
  match a, b with
  | Some a, Some b =>
      if negb (bb_block a <? bb_block b) then Crash AssertFailed
      else if negb (same_type (bb_kind a) (bb_kind b)) then Done (inl (- EINVAL))
      else
        let block_len := u32 (bb_len a / block_size) in
        if negb (u32 (bb_block a + block_len) =? bb_block b) then Done (inl (- EINVAL))
        else if negb (mergeable a b) then Done (inl (- EINVAL))
        else Done (inr (set_len a (u64 (bb_len a + bb_len b))))
  | _, _ => Done (inl (- EINVAL))
  end.

(** Linking [new_bb] behind [bb], whose successors are [rest], and the two
    merges that follow; returns the chain from [bb] on and the new
    [last_used]. *)
Definition link_and_merge (block_size : Z) (bb new_bb : backed_block)
    (rest : list backed_block) : outcome (list backed_block * Z) :=
  let* r1 := merge_bb block_size (Some new_bb) (head rest) in
  let '(new_bb, rest) :=
    match r1 with inr m => (m, tail rest) | inl _ => (new_bb, rest) end in
  let* r2 := merge_bb block_size (Some bb) (Some new_bb) in
  match r2 with
  | inr m => Done (m :: rest, bb_addr bb)
  | inl _ => Done (bb :: new_bb :: rest, bb_addr new_bb)
  end.

(** [for (; bb->next && bb->next->block < new_bb->block; bb = bb->next)]. *)
Fixpoint scan_and_link (block_size : Z) (bb : backed_block) (rest : list backed_block)
    (new_bb : backed_block) : outcome (list backed_block * Z) :=
  match rest with
  | nxt :: rest' =>
      if bb_block nxt <? bb_block new_bb then
        let* (l, lu) := scan_and_link block_size nxt rest' new_bb in
        Done (bb :: l, lu)
      else link_and_merge block_size bb new_bb rest
  | [] => link_and_merge block_size bb new_bb []
  end.

Definition queue_bb (bbl : backed_block_list) (new_bb : backed_block)
  : outcome (Z * backed_block_list) :=
  match data_blocks bbl with
  | [] => Done (0, with_blocks bbl [new_bb] (last_used bbl))
  | hd :: tl =>
      if bb_block new_bb <? bb_block hd then
        Done (0, with_blocks bbl (new_bb :: hd :: tl) (last_used bbl))
      else
        let* (pre, bb, rest) :=
          match last_used bbl with
          | None => Done ([], hd, tl)
          | Some p =>
              match split_at p (hd :: tl) with
              | None => Crash BadPointer
              | Some (pre, lu, post) =>
                  if bb_block lu <? bb_block new_bb then Done (pre, lu, post)
                  else Done ([], hd, tl)
              end
          end in
        let* (l, lu) := scan_and_link (bbl_block_size bbl) bb rest new_bb in
        Done (0, with_blocks bbl (pre ++ l) (Some lu))
  end.

(** The common shape of the four [backed_block_add_*] functions. *)
Definition backed_block_add (al : allocator) (bbl : backed_block_list)
    (k : backing) (len block : Z) : outcome (Z * allocator * backed_block_list) :=
  match malloc al with
  | (None, al) => Done (- ENOMEM, al, bbl)
  | (Some p, al) =>
      let* (ret, bbl) := queue_bb bbl (mk_bb p block len k) in
      Done (ret, al, bbl)
  end.

Definition backed_block_add_fill al bbl fill_val len block :=
  backed_block_add al bbl (BACKED_BLOCK_FILL fill_val) len block.
Definition backed_block_add_data al bbl data len block :=
  backed_block_add al bbl (BACKED_BLOCK_DATA data) len block.
Definition backed_block_add_file al bbl filename offset len block :=
  backed_block_add al bbl (BACKED_BLOCK_FILE filename offset) len block.
Definition backed_block_add_fd al bbl fd offset len block :=
  backed_block_add al bbl (BACKED_BLOCK_FD fd offset) len block.

(** The [switch] of [backed_block_split]: where the second half's data is. *)
Definition advance (k : backing) (n : Z) : backing :=
  match k with
  | BACKED_BLOCK_DATA data => BACKED_BLOCK_DATA (data + n)
  | BACKED_BLOCK_FILE f off => BACKED_BLOCK_FILE f (s64 (off + n))
  | BACKED_BLOCK_FD fd off => BACKED_BLOCK_FD fd (s64 (off + n))
  | BACKED_BLOCK_FILL v => BACKED_BLOCK_FILL v
  end.

Definition backed_block_split (al : allocator) (bbl : backed_block_list) (p max_len : Z)
  : outcome (Z * allocator * backed_block_list) :=
  match split_at p (data_blocks bbl) with
  | None => Crash BadPointer
  | Some (pre, bb, post) =>
      let max_len := u32 (ALIGN_DOWN max_len (bbl_block_size bbl)) in
      if bb_len bb <=? max_len then Done (0, al, bbl)
      else
        match malloc al with
        | (None, al) => Done (- ENOMEM, al, bbl)
        | (Some p', al) =>
            let new_bb :=
              mk_bb p' (u32 (bb_block bb + max_len / bbl_block_size bbl))
                    (bb_len bb - max_len) (advance (bb_kind bb) max_len) in
            Done (0, al,
              with_blocks bbl (pre ++ set_len bb max_len :: new_bb :: post) (last_used bbl))
        end
  end.

(** The loop that links a segment into a non-empty [to] list: behind the first
    node without successor or whose successor lies after [start]. *)
Fixpoint insert_segment (seg : list backed_block) (start_block : Z)
    (l : list backed_block) : list backed_block :=
  match l with
  | [] => []
  | bb :: t =>
      match t with
      | [] => bb :: seg
      | nxt :: _ =>
          if start_block <? bb_block nxt then bb :: seg ++ t
          else bb :: insert_segment seg start_block t
      end
  end.

Definition backed_block_list_move (from to : backed_block_list) (start end_ : option Z)
  : outcome (backed_block_list * backed_block_list) :=
  let start := match start with Some p => Some p | None => bb_addr <$> head (data_blocks from) end in
  match start with
  | None => Done (from, to)
  | Some sp =>
      match split_at sp (data_blocks from) with
      | None => Crash BadPointer
      | Some (pre, sb, rest) =>
          let* (seg, post) :=
            match end_ with
            | None => Done (sb :: rest, [])
            | Some ep =>
                match split_at ep (sb :: rest) with
                | None => Crash BadPointer
                | Some (seg, eb, post) => Done (seg ++ [eb], post)
                end
            end in
          let to_blocks :=
            match data_blocks to with
            | [] => seg
            | l => insert_segment seg (bb_block sb) l
            end in
          Done (with_blocks from (pre ++ post) None, with_blocks to to_blocks None)
      end
  end.

(** * What a list of backed blocks describes

    The bytes behind a backed block come from the program's memory, from named
    files or from open file descriptors; opening and mapping a file may fail,
    with the error number the environment gives (0 is success). *)

Record env := mk_env {
  mem : Z -> Z;
  file_byte : string -> Z -> Z;
  fd_byte : Z -> Z -> Z;
  open_errno : string -> Z;
  file_mmap_errno : string -> Z -> Z -> Z;
  fd_mmap_errno : Z -> Z -> Z -> Z }.

(** Byte [i] of the data a backed block stands for. *)
Definition payload (e : env) (k : backing) (i : Z) : Z :=
  match k with
  | BACKED_BLOCK_DATA data => mem e (data + i)
  | BACKED_BLOCK_FILE f off => file_byte e f (off + i)
  | BACKED_BLOCK_FD fd off => fd_byte e fd (off + i)
  | BACKED_BLOCK_FILL v => nth (Z.to_nat (i mod 4)) (le_encode 4 v) 0
  end.

Definition covers (bs : Z) (b : backed_block) (off : Z) : bool :=
  (bb_block b * bs <=? off) && (off <? bb_block b * bs + bb_len b).

(** The image: which byte, if any, the list defines at offset [off]. *)
Fixpoint image (e : env) (bs : Z) (l : list backed_block) (off : Z) : option Z :=
  match l with
  | [] => None
  | b :: t =>
      if covers bs b off then Some (payload e (bb_kind b) (off - bb_block b * bs))
      else image e bs t off
  end.

(** The first block behind [b]. *)
Definition bb_end (bs : Z) (b : backed_block) : Z := bb_block b + DIV_ROUND_UP (bb_len b) bs.

(** * The invariant *)

Definition kind_ok (b : backed_block) : Prop :=
  match bb_kind b with
  | BACKED_BLOCK_DATA _ => True
  | BACKED_BLOCK_FILE _ off | BACKED_BLOCK_FD _ off => 0 <= off /\ off + bb_len b < 2 ^ 63
  | BACKED_BLOCK_FILL v => is_u32 v
  end.

Record node_ok (bs : Z) (b : backed_block) : Prop := {
  node_block : 0 <= bb_block b;
  node_len : 0 < bb_len b;
  node_end : bb_end bs b < 2 ^ 32;
  node_kind : kind_ok b }.

(** Blocks in increasing order from [lo] on, none overlapping the next. *)
Fixpoint chain (bs lo : Z) (l : list backed_block) : Prop :=
  match l with
  | [] => True
  | b :: t => lo <= bb_block b /\ node_ok bs b /\ chain bs (bb_end bs b) t
  end.

(** The format wants a block size that is a multiple of four. *)
Definition block_size_ok (bs : Z) : Prop := 0 < bs < 2 ^ 32 /\ bs mod 4 = 0.

Definition addrs (l : list backed_block) : list Z := map bb_addr l.

Record bbl_wf (bbl : backed_block_list) : Prop := {
  wf_bs : block_size_ok (bbl_block_size bbl);
  wf_chain : chain (bbl_block_size bbl) 0 (data_blocks bbl);
  wf_nodup : NoDup (addrs (data_blocks bbl));
  wf_last_used : forall p, last_used bbl = Some p -> p ∈ addrs (data_blocks bbl) }.

(** [b] shares no block with any node of [l]. *)
Definition disjoint_from (bs : Z) (b : backed_block) (l : list backed_block) : Prop :=
  Forall (fun c => bb_end bs c <= bb_block b \/ bb_end bs b <= bb_block c) l.

(** * Lemmas *)

Section proofs.
Context (bs : Z) (Hbs : block_size_ok bs).

Lemma bb_end_gt b : node_ok bs b -> bb_block b < bb_end bs b.
Proof using Hbs.
  intros [? ? ? ?]. unfold bb_end.
  pose proof (div_round_up_bounds (bb_len b) bs). destruct Hbs. nia.
Qed.

Lemma chain_weaken lo lo' l : lo' <= lo -> chain bs lo l -> chain bs lo' l.
Proof using. destruct l as [|b l]; simpl; [done|]. intros ? (? & ? & ?). repeat split; [lia|apply H1..|done]. Qed.

Lemma chain_mono lo l b : chain bs lo l -> b ∈ l -> lo <= bb_block b /\ node_ok bs b.
Proof using Hbs.
  revert lo; induction l as [|c l IH]; intros lo; [by intros _ ?%elem_of_nil|].
  intros (? & Hc & Hl) [->|Hb]%elem_of_cons; [done|].
  destruct (IH _ Hl Hb). pose proof (bb_end_gt c Hc). split; [lia|done].
Qed.

Lemma chain_app lo l1 l2 :
  chain bs lo (l1 ++ l2) <->
  chain bs lo l1 /\ chain bs (foldl (fun _ b => bb_end bs b) lo l1) l2.
Proof using.
  revert lo; induction l1 as [|b l1 IH]; intros lo; simpl; [tauto|].
  rewrite IH. tauto.
Qed.

(** Nothing is defined in front of the chain. *)
Lemma image_below e lo l off : chain bs lo l -> off < lo * bs -> image e bs l off = None.
Proof using Hbs.
  revert lo; induction l as [|b l IH]; intros lo; [done|]. intros (Hlo & Hb & Hl) Hoff.
  simpl. destruct Hbs as [[? ?] ?].
  assert (Hc : covers bs b off = false).
  { unfold covers. apply andb_false_iff. left. apply Z.leb_gt. nia. }
  rewrite Hc. apply (IH (bb_end bs b)); [done|].
  pose proof (bb_end_gt b Hb). nia.
Qed.

(** The node that [merge_bb] leaves behind when it succeeds. *)
Definition merged (a b : backed_block) : backed_block :=
  set_len a (u64 (bb_len a + bb_len b)).

(** Adjacency as the code tests it, for blocks that do not overlap: the first
    one ends on a block boundary. *)
Lemma adjacent_exact a b :
  node_ok bs a -> node_ok bs b -> bb_end bs a <= bb_block b ->
  u32 (bb_block a + u32 (bb_len a / bs)) = bb_block b ->
  bb_block b = bb_end bs a /\ bb_len a = bs * DIV_ROUND_UP (bb_len a) bs.
Proof using Hbs.
  intros [Ha1 Ha2 Ha3 _] [Hb1 Hb2 Hb3 _] Hord. destruct Hbs as [[? ?] _].
  unfold bb_end in *.
  pose proof (div_round_up_bounds (bb_len a) bs).
  pose proof (div_round_up_bounds (bb_len b) bs).
  pose proof (Z.div_mod (bb_len a) bs). pose proof (Z.mod_pos_bound (bb_len a) bs).
  assert (0 <= bb_len a / bs <= DIV_ROUND_UP (bb_len a) bs) by nia.
  rewrite (u32_small (bb_len a / bs)) by (unfold is_u32; nia).
  rewrite u32_small by (unfold is_u32; nia).
  intros Heq. assert (bb_len a / bs = DIV_ROUND_UP (bb_len a) bs) by lia.
  split; [lia|nia].
Qed.

Lemma merged_len a b :
  node_ok bs a -> node_ok bs b ->
  bb_block b = bb_end bs a -> bb_len a = bs * DIV_ROUND_UP (bb_len a) bs ->
  bb_len (merged a b) = bb_len a + bb_len b.
Proof using Hbs.
  intros [Ha1 Ha2 Ha3 _] [Hb1 Hb2 Hb3 _] Hadj Hex. destruct Hbs as [[? ?] _].
  unfold bb_end in *. simpl. apply u64_small. unfold is_u64.
  pose proof (div_round_up_bounds (bb_len b) bs). nia.
Qed.

Lemma merged_end a b :
  node_ok bs a -> node_ok bs b ->
  bb_block b = bb_end bs a -> bb_len a = bs * DIV_ROUND_UP (bb_len a) bs ->
  bb_end bs (merged a b) = bb_end bs b.
Proof using Hbs.
  intros Ha Hb Hadj Hex. pose proof (merged_len a b Ha Hb Hadj Hex) as Hl.
  destruct Hbs as [[? ?] _]. unfold bb_end at 1. rewrite Hl.
  change (bb_block (merged a b)) with (bb_block a). unfold bb_end in *.
  enough (DIV_ROUND_UP (bb_len a + bb_len b) bs
          = DIV_ROUND_UP (bb_len a) bs + DIV_ROUND_UP (bb_len b) bs) by lia.
  rewrite Hex at 1. unfold DIV_ROUND_UP.
  replace (bs * ((bb_len a + bs - 1) / bs) + bb_len b + bs - 1)
    with (bb_len b + bs - 1 + ((bb_len a + bs - 1) / bs) * bs) by lia.
  rewrite Z.div_add by lia. lia.
Qed.

Lemma merged_payload e a b i :
  node_ok bs a -> node_ok bs b -> mergeable a b = true ->
  bb_len a = bs * DIV_ROUND_UP (bb_len a) bs -> bb_len a <= i ->
  payload e (bb_kind a) i = payload e (bb_kind b) (i - bb_len a).
Proof using Hbs.
  intros [_ La _ Ka] [_ Lb _ Kb] Hm Hex Hi. unfold mergeable, kind_ok in *.
  destruct (bb_kind a), (bb_kind b); try discriminate; simpl.
  - apply andb_true_iff in Hm as [<-%String.eqb_eq Hoff%Z.eqb_eq].
    rewrite !u64_small in Hoff by (unfold is_u64; lia). f_equal. lia.
  - apply andb_true_iff in Hm as [<-%Z.eqb_eq Hoff%Z.eqb_eq].
    rewrite !u64_small in Hoff by (unfold is_u64; lia). f_equal. lia.
  - apply Z.eqb_eq in Hm as <-. do 2 f_equal. destruct Hbs as [_ H4].
    apply Z.mod_divide in H4; [|lia]. destruct H4 as [q Hq].
    set (d := DIV_ROUND_UP (bb_len a) bs) in *. clearbody d.
    assert (bb_len a = d * q * 4) by (rewrite Hex, Hq; lia).
    replace i with (i - bb_len a + (d * q) * 4) at 1 by lia.
    now rewrite Z.mod_add.
Qed.

Lemma merged_node_ok a b :
  node_ok bs a -> node_ok bs b -> mergeable a b = true ->
  bb_block b = bb_end bs a -> bb_len a = bs * DIV_ROUND_UP (bb_len a) bs ->
  node_ok bs (merged a b).
Proof using Hbs.
  intros Ha Hb Hm Hadj Hex. pose proof (merged_len a b Ha Hb Hadj Hex) as Hl.
  constructor.
  - apply Ha.
  - rewrite Hl. destruct Ha, Hb. lia.
  - rewrite merged_end by done. apply Hb.
  - destruct Ha as [_ La _ Ka], Hb as [_ Lb _ Kb]. unfold kind_ok, mergeable in *.
    rewrite Hl. change (bb_kind (merged a b)) with (bb_kind a).
    destruct (bb_kind a), (bb_kind b); try discriminate; try done.
    all: apply andb_true_iff in Hm as [_ Hoff%Z.eqb_eq];
      rewrite !u64_small in Hoff by (unfold is_u64; lia); lia.
Qed.

(** Merging adjacent, compatible blocks leaves the image unchanged. *)
Lemma merged_image e a b rest off :
  node_ok bs a -> node_ok bs b -> mergeable a b = true ->
  bb_block b = bb_end bs a -> bb_len a = bs * DIV_ROUND_UP (bb_len a) bs ->
  image e bs (merged a b :: rest) off = image e bs (a :: b :: rest) off.
Proof using Hbs.
  intros Ha Hb Hm Hadj Hex. pose proof (merged_len a b Ha Hb Hadj Hex) as Hl.
  assert (Hpos : bb_block b * bs = bb_block a * bs + bb_len a).
  { rewrite Hadj. unfold bb_end. lia. }
  simpl. unfold covers. rewrite Hl.
  change (bb_block (merged a b)) with (bb_block a).
  change (bb_kind (merged a b)) with (bb_kind a).
  rewrite Hpos. pose proof (node_len bs a Ha). pose proof (node_len bs b Hb).
  destruct (Z.leb_spec (bb_block a * bs) off),
    (Z.ltb_spec off (bb_block a * bs + (bb_len a + bb_len b))),
    (Z.ltb_spec off (bb_block a * bs + bb_len a)),
    (Z.leb_spec (bb_block a * bs + bb_len a) off),
    (Z.ltb_spec off (bb_block a * bs + bb_len a + bb_len b)); simpl; try done; try lia.
  f_equal. rewrite (merged_payload e a b) by (done || lia). f_equal. lia.
Qed.

Lemma merge_bb_spec a b :
  node_ok bs a -> node_ok bs b -> bb_end bs a <= bb_block b ->
  merge_bb bs (Some a) (Some b) = Done (inl (- EINVAL)) \/
  (merge_bb bs (Some a) (Some b) = Done (inr (merged a b)) /\
   bb_block b = bb_end bs a /\ bb_len a = bs * DIV_ROUND_UP (bb_len a) bs /\
   mergeable a b = true).
Proof using Hbs.
  intros Ha Hb Hord. unfold merge_bb.
  pose proof (bb_end_gt a Ha).
  destruct (Z.ltb_spec (bb_block a) (bb_block b)); [|lia]. simpl.
  destruct (same_type _ _); simpl; [|by left].
  destruct (Z.eqb_spec (u32 (bb_block a + u32 (bb_len a / bs))) (bb_block b)) as [E|];
    simpl; [|by left].
  destruct (mergeable a b) eqn:Hm; simpl; [|by left].
  right. destruct (adjacent_exact a b Ha Hb Hord E). done.
Qed.

Definition ends_below (hi : Z) (l : list backed_block) : Prop :=
  Forall (fun b => bb_end bs b <= hi) l.

(** A property of nodes that merging preserves. *)
Definition merge_closed (P : backed_block -> Prop) : Prop :=
  forall a b, node_ok bs a -> node_ok bs b -> bb_block b = bb_end bs a ->
    bb_len a = bs * DIV_ROUND_UP (bb_len a) bs -> mergeable a b = true ->
    P a -> P b -> P (merged a b).

Lemma ends_closed hi : merge_closed (fun b => bb_end bs b <= hi).
Proof using Hbs. intros a b Ha Hb Hadj Hex _ _ He. by rewrite merged_end. Qed.

(** What linking [new] behind [bb] and merging produces: a chain with the
    image of the plain insertion, whose addresses are among those of the
    plain insertion and contain the new [last_used]. *)
Record linked (lo : Z) (plain result : list backed_block) (lu : Z) : Prop := {
  linked_chain : chain bs lo result;
  linked_image e off : image e bs result off = image e bs plain off;
  linked_addrs : sublist (addrs result) (addrs plain);
  linked_lu : lu ∈ addrs result;
  linked_keeps P : merge_closed P -> Forall P plain -> Forall P result }.

Lemma image_cons_congr e b l1 l2 off :
  image e bs l1 off = image e bs l2 off -> image e bs (b :: l1) off = image e bs (b :: l2) off.
Proof using. intros Heq. simpl. now rewrite Heq. Qed.

(** The first merge: [new] with its successor. *)
Lemma merge_next_spec lo new rest :
  lo <= bb_block new -> node_ok bs new -> chain bs (bb_end bs new) rest ->
  exists r, merge_bb bs (Some new) (head rest) = Done r /\
    let '(new', rest') :=
      match r with inr m => (m, tail rest) | inl _ => (new, rest) end in
    bb_addr new' = bb_addr new /\ bb_block new' = bb_block new /\
    chain bs lo (new' :: rest') /\
    (forall e off, image e bs (new' :: rest') off = image e bs (new :: rest) off) /\
    sublist (addrs rest') (addrs rest) /\
    (forall P, merge_closed P -> Forall P (new :: rest) -> Forall P (new' :: rest')).
Proof using Hbs.
  intros Hlo Hnew Hrest. destruct rest as [|b rest]; simpl head.
  { exists (inl (- EINVAL)). repeat split; try done; apply Hnew. }
  destruct Hrest as (Hb1 & Hb & Hrest).
  destruct (merge_bb_spec new b Hnew Hb Hb1) as [E|(E & Hadj & Hex & Hm)].
  - exists (inl (- EINVAL)). repeat split; try done; apply Hnew || apply Hb.
  - exists (inr (merged new b)). split; [done|]. cbn [tail].
    split; [done|]. split; [done|]. split.
    + simpl. split; [done|]. split; [now apply merged_node_ok|].
      now rewrite merged_end.
    + split; [intros; now apply merged_image|]. split; [simpl; now apply sublist_cons|].
      intros P HP [? [? ?]%Forall_cons]%Forall_cons. constructor; [|done]. by apply HP.
Qed.

Lemma link_and_merge_spec lo bb new rest :
  lo <= bb_block bb -> node_ok bs bb -> node_ok bs new ->
  bb_end bs bb <= bb_block new -> chain bs (bb_end bs new) rest ->
  exists result lu, link_and_merge bs bb new rest = Done (result, lu) /\
    linked lo (bb :: new :: rest) result lu.
Proof using Hbs.
  intros Hlo Hbb Hnew Hord Hrest. unfold link_and_merge.
  destruct (merge_next_spec (bb_end bs bb) new rest Hord Hnew Hrest) as (r & -> & Hr).
  cbn [obind]. destruct (match r with inl _ => (new, rest) | inr m => (m, tail rest) end)
    as [new' rest'] eqn:Er.
  destruct r as [err|m]; injection Er as <- <-; cbn iota in *;
    destruct Hr as (Haddr & Hblk & (Hn1 & Hn2 & Hn3) & Himg & Hsub & Hkeep).
  all: destruct (merge_bb_spec bb _ Hbb Hn2 Hn1) as [->|(-> & Hadj & Hex & Hm)]; cbn [obind].
  all: eexists _, _; split; [reflexivity|]; constructor.
  all: try (simpl; repeat split; try done; try apply Hbb; try apply Hn2; fail).
  all: try (simpl; split; [done|]; split; [now apply merged_node_ok|]; now rewrite merged_end).
  all: try (intros e off; rewrite ?merged_image by done; apply image_cons_congr, Himg).
  all: try (intros P HP [Hh1 Hh2%(Hkeep P HP)]%Forall_cons;
    first [by constructor | apply Forall_cons in Hh2 as [? ?]; constructor; [|done];
      by apply HP]).
  all: simpl; rewrite ?Haddr; repeat constructor; try done; try now apply sublist_cons.
Qed.

(** A block strictly between two others is before or after each of them. *)
Lemma disjoint_before nxt new :
  node_ok bs nxt -> node_ok bs new ->
  bb_end bs nxt <= bb_block new \/ bb_end bs new <= bb_block nxt ->
  bb_block nxt < bb_block new -> bb_end bs nxt <= bb_block new.
Proof using Hbs. intros Hn Hw. pose proof (bb_end_gt _ Hn). pose proof (bb_end_gt _ Hw). lia. Qed.

Lemma disjoint_after nxt new :
  node_ok bs nxt -> node_ok bs new ->
  bb_end bs nxt <= bb_block new \/ bb_end bs new <= bb_block nxt ->
  ~ bb_block nxt < bb_block new -> bb_end bs new <= bb_block nxt.
Proof using Hbs. intros Hn Hw. pose proof (bb_end_gt _ Hn). pose proof (bb_end_gt _ Hw). lia. Qed.

Lemma scan_and_link_spec lo bb rest new :
  chain bs lo (bb :: rest) -> node_ok bs new -> bb_end bs bb <= bb_block new ->
  disjoint_from bs new rest ->
  exists result lu before after,
    scan_and_link bs bb rest new = Done (result, lu) /\
    bb :: rest = before ++ after /\ linked lo (before ++ new :: after) result lu.
Proof using Hbs.
  revert lo bb; induction rest as [|nxt rest IH]; intros lo bb (Hlo & Hbb & Hrest) Hnew Hord Hdis.
  - destruct (link_and_merge_spec lo bb new [] Hlo Hbb Hnew Hord I) as (res & lu & E & HL).
    exists res, lu, [bb], []. done.
  - cbn [scan_and_link]. apply Forall_cons in Hdis as [Hd Hdis].
    pose proof Hrest as (Hn1 & Hn2 & Hn3).
    destruct (Z.ltb_spec (bb_block nxt) (bb_block new)) as [Hlt|Hge].
    + destruct (IH (bb_end bs bb) nxt Hrest Hnew) as (res & lu & bef & aft & -> & Hsplit & HL);
        [by apply disjoint_before|done|].
      exists (bb :: res), lu, (bb :: bef), aft. cbn [obind]. split; [done|].
      split; [by rewrite Hsplit|]. destruct HL as [H1 H2 H3 H4 H5]. constructor.
      * done.
      * intros e off. apply image_cons_congr, H2.
      * simpl. by apply sublist_skip.
      * simpl. by apply elem_of_cons; right.
      * intros P HP [? ?]%Forall_cons. constructor; [done|]. by apply H5.
    + destruct (link_and_merge_spec lo bb new (nxt :: rest) Hlo Hbb Hnew Hord)
        as (res & lu & E & HL).
      { simpl. split; [apply disjoint_after; done || lia|done]. }
      exists res, lu, [bb], (nxt :: rest). done.
Qed.

Lemma covers_disjoint b new off :
  node_ok bs b -> node_ok bs new ->
  bb_end bs b <= bb_block new \/ bb_end bs new <= bb_block b ->
  covers bs new off = true -> covers bs b off = false.
Proof using Hbs.
  intros [? ? ? _] [? ? ? _] Hd. unfold covers. rewrite andb_true_iff, Z.leb_le, Z.ltb_lt.
  intros [? ?]. apply andb_false_iff. rewrite Z.leb_gt, Z.ltb_ge.
  destruct Hbs as [[? ?] _]. unfold bb_end in *.
  pose proof (div_round_up_bounds (bb_len b) bs).
  pose proof (div_round_up_bounds (bb_len new) bs). nia.
Qed.

(** Inserting a block that overlaps nothing defines exactly its own bytes. *)
Lemma image_insert e before new after off :
  Forall (node_ok bs) before -> node_ok bs new -> disjoint_from bs new before ->
  image e bs (before ++ new :: after) off =
  if covers bs new off then Some (payload e (bb_kind new) (off - bb_block new * bs))
  else image e bs (before ++ after) off.
Proof using Hbs.
  intros Hok Hnew. induction Hok as [|b l Hb Hl IH]; intros Hdis; [done|].
  apply Forall_cons in Hdis as [Hd Hdis]. simpl. rewrite IH by done.
  destruct (covers bs new off) eqn:Hc; [|done].
  now rewrite (covers_disjoint b new off).
Qed.

Lemma chain_nodes lo l : chain bs lo l -> Forall (node_ok bs) l.
Proof using Hbs.
  intros Hc. apply Forall_forall. intros b Hb. now apply (chain_mono lo l).
Qed.

Lemma split_at_spec p l :
  match split_at p l with
  | Some (pre, b, post) => l = pre ++ b :: post /\ bb_addr b = p
  | None => p ∉ addrs l
  end.
Proof using.
  induction l as [|b l IH]; simpl; [apply not_elem_of_nil|].
  destruct (Z.eqb_spec (bb_addr b) p) as [E|E]; [done|].
  destruct (split_at p l) as [[[pre x] post]|].
  - destruct IH as [-> ?]. done.
  - rewrite not_elem_of_cons. done.
Qed.

Lemma split_at_mem p l :
  p ∈ addrs l -> exists pre b post, split_at p l = Some (pre, b, post) /\
    l = pre ++ b :: post /\ bb_addr b = p.
Proof using.
  intros Hp. pose proof (split_at_spec p l) as H.
  destruct (split_at p l) as [[[pre b] post]|]; [|done].
  exists pre, b, post. tauto.
Qed.

End proofs.

(** * The operations preserve the invariant and update the image *)

(** What [queue_bb] promises about the list it leaves behind. *)
Record queued (bbl : backed_block_list) (new : backed_block) (bbl' : backed_block_list)
  : Prop := {
  queued_wf : bbl_wf bbl';
  queued_bs : bbl_block_size bbl' = bbl_block_size bbl;
  queued_image e off :
    image e (bbl_block_size bbl) (data_blocks bbl') off =
    if covers (bbl_block_size bbl) new off
    then Some (payload e (bb_kind new) (off - bb_block new * bbl_block_size bbl))
    else image e (bbl_block_size bbl) (data_blocks bbl) off;
  queued_addrs p :
    p ∈ addrs (data_blocks bbl') -> p = bb_addr new \/ p ∈ addrs (data_blocks bbl);
  queued_keeps P :
    merge_closed (bbl_block_size bbl) P -> P new ->
    Forall P (data_blocks bbl) -> Forall P (data_blocks bbl') }.

(** Any list linked from a plain insertion of [new] is such a list. *)
Lemma queued_intro bbl new before after result lu :
  bbl_wf bbl -> node_ok (bbl_block_size bbl) new ->
  disjoint_from (bbl_block_size bbl) new (data_blocks bbl) ->
  bb_addr new ∉ addrs (data_blocks bbl) ->
  data_blocks bbl = before ++ after ->
  chain (bbl_block_size bbl) 0 result ->
  (forall e off, image e (bbl_block_size bbl) result off
    = image e (bbl_block_size bbl) (before ++ new :: after) off) ->
  sublist (addrs result) (addrs (before ++ new :: after)) ->
  (forall p, lu = Some p -> p ∈ addrs result) ->
  (forall P, merge_closed (bbl_block_size bbl) P -> Forall P (before ++ new :: after) ->
    Forall P result) ->
  queued bbl new (with_blocks bbl result lu).
Proof.
  intros [Hbs Hch Hnd _] Hnew Hdis Hfresh Hl Hres Himg Hsub Hlu Hkeep.
  rewrite Hl in Hch, Hnd, Hfresh, Hdis.
  assert (Hperm : addrs (before ++ new :: after) ≡ₚ bb_addr new :: addrs (before ++ after)).
  { unfold addrs. rewrite !map_app. simpl. by rewrite Permutation_middle. }
  constructor.
  - constructor; try done. simpl. eapply sublist_NoDup; [|done].
    rewrite Hperm. by apply NoDup_cons.
  - done.
  - intros e off. simpl. rewrite Himg, Hl. apply image_insert; [done| |done|].
    + apply (chain_nodes _ Hbs 0) in Hch. by apply Forall_app in Hch as [? _].
    + by apply Forall_app in Hdis as [? _].
  - intros p Hp. simpl in Hp. rewrite Hl.
    eapply elem_of_submseteq in Hp; [|by apply sublist_submseteq].
    rewrite Hperm in Hp. by apply elem_of_cons in Hp.
  - intros P HP Hn Hall. simpl. apply (Hkeep P HP). rewrite Hl in Hall.
    apply Forall_app in Hall as [? ?]. apply Forall_app. split; [done|]. by constructor.
Qed.

(** Where [queue_bb] starts its search, the block found lies before [new]. *)
Lemma queue_start_spec bbl new hd tl :
  bbl_wf bbl -> node_ok (bbl_block_size bbl) new ->
  disjoint_from (bbl_block_size bbl) new (data_blocks bbl) ->
  data_blocks bbl = hd :: tl -> bb_block hd <= bb_block new ->
  exists pre bb rest,
    match last_used bbl with
    | None => Done ([], hd, tl)
    | Some p =>
        match split_at p (hd :: tl) with
        | None => Crash BadPointer
        | Some (pre, lu, post) =>
            if bb_block lu <? bb_block new then Done (pre, lu, post) else Done ([], hd, tl)
        end
    end = Done (pre, bb, rest) /\
    data_blocks bbl = pre ++ bb :: rest /\ bb_end (bbl_block_size bbl) bb <= bb_block new.
Proof.
  intros [Hbs Hch Hnd Hlu] Hnew Hdis Hl Hge. rewrite Hl in *.
  assert (Hdec : forall b, b ∈ hd :: tl -> bb_block b <= bb_block new ->
            bb_end (bbl_block_size bbl) b <= bb_block new).
  { intros b Hb Hle. pose proof (chain_mono _ Hbs _ _ b Hch Hb) as [_ Hbok].
    unfold disjoint_from in Hdis. rewrite Forall_forall in Hdis. specialize (Hdis b Hb).
    pose proof (bb_end_gt _ Hbs new Hnew). lia. }
  destruct (last_used bbl) as [p|].
  - destruct (split_at_mem p (hd :: tl)) as (pre & b & post & -> & E & _); [by apply Hlu|].
    destruct (Z.ltb_spec (bb_block b) (bb_block new)).
    + exists pre, b, post. split; [done|]. split; [done|]. apply Hdec; [|lia].
      rewrite E. apply elem_of_app. right. by apply elem_of_cons; left.
    + exists [], hd, tl. repeat split. apply Hdec; [by apply elem_of_cons; left|done].
  - exists [], hd, tl. repeat split. apply Hdec; [by apply elem_of_cons; left|done].
Qed.

Lemma queue_bb_spec bbl new :
  bbl_wf bbl -> node_ok (bbl_block_size bbl) new ->
  disjoint_from (bbl_block_size bbl) new (data_blocks bbl) ->
  bb_addr new ∉ addrs (data_blocks bbl) ->
  exists bbl', queue_bb bbl new = Done (0, bbl') /\ queued bbl new bbl'.
Proof.
  intros Hwf Hnew Hdis Hfresh. pose proof Hwf as [Hbs Hch Hnd Hlu].
  unfold queue_bb. destruct (data_blocks bbl) as [|hd tl] eqn:Hl.
  { eexists. split; [reflexivity|]. apply (queued_intro _ _ [] []); rewrite ?Hl; try done.
    - simpl. split; [apply Hnew|done].
    - intros p Hp. apply Hlu in Hp. by apply not_elem_of_nil in Hp. }
  destruct (Z.ltb_spec (bb_block new) (bb_block hd)) as [Hlt|Hge].
  { pose proof Hch as (_ & Hhd & Htl). pose proof Hdis as Hdis'.
    apply Forall_cons in Hdis' as [Hd _]. pose proof (bb_end_gt _ Hbs hd Hhd).
    eexists. split; [reflexivity|].
    apply (queued_intro _ _ [] (hd :: tl)); rewrite ?Hl; try done.
    - simpl. split; [apply Hnew|]. split; [done|]. split; [lia|done].
    - intros p Hp. simpl. apply elem_of_cons. right. by apply Hlu. }
  rewrite <- Hl in Hdis, Hfresh.
  destruct (queue_start_spec bbl new hd tl Hwf Hnew Hdis Hl Hge)
    as (pre & bb & rest & -> & E & Hend). cbn [obind].
  rewrite <- Hl, E in Hch. apply chain_app in Hch as [Hpre Hsuf].
  assert (Hdr : disjoint_from (bbl_block_size bbl) new rest).
  { rewrite E in Hdis. by apply Forall_app in Hdis as [_ [_ ?]%Forall_cons]. }
  destruct (scan_and_link_spec _ Hbs _ bb rest new Hsuf Hnew Hend Hdr)
    as (res & lu & bef & aft & -> & Hsplit & [L1 L2 L3 L4 L5]).
  eexists. split; [reflexivity|].
  apply (queued_intro _ _ (pre ++ bef) aft); try done.
  - by rewrite <- app_assoc, <- Hsplit.
  - apply chain_app. done.
  - intros e off. rewrite <- app_assoc. clear -L2. induction pre as [|b pre IH]; [apply L2|].
    simpl. by rewrite IH.
  - rewrite <- app_assoc. unfold addrs in *. rewrite !(map_app _ pre).
    by apply sublist_app.
  - intros p [= <-]. unfold addrs in *. rewrite map_app. apply elem_of_app. by right.
  - intros P HP. rewrite <- app_assoc. intros [? ?]%Forall_app. apply Forall_app.
    split; [done|]. by apply L5.
Qed.

(** * Adding a block *)

(** The allocator has not handed out any address in front of [next_addr]. *)
Definition alloc_ok (al : allocator) (l : list backed_block) : Prop :=
  forall p, p ∈ addrs l -> p < next_addr al.

Lemma backed_block_add_spec al bbl k len block :
  bbl_wf bbl -> alloc_ok al (data_blocks bbl) -> oom al (next_addr al) = false ->
  node_ok (bbl_block_size bbl) (mk_bb (next_addr al) block len k) ->
  disjoint_from (bbl_block_size bbl) (mk_bb (next_addr al) block len k) (data_blocks bbl) ->
  exists al' bbl', backed_block_add al bbl k len block = Done (0, al', bbl') /\
    queued bbl (mk_bb (next_addr al) block len k) bbl' /\ alloc_ok al' (data_blocks bbl').
Proof.
  intros Hwf Hal Hoom Hnew Hdis. unfold backed_block_add, malloc. rewrite Hoom.
  assert (Hfresh : next_addr al ∉ addrs (data_blocks bbl)).
  { intros Hp%Hal. lia. }
  destruct (queue_bb_spec bbl _ Hwf Hnew Hdis Hfresh) as (bbl' & -> & Hq).
  eexists _, _. split; [reflexivity|]. split; [done|].
  intros p [->|Hp%Hal]%(queued_addrs _ _ _ Hq); simpl; lia.
Qed.

(** * Splitting a block *)

Section split.
Context (bs : Z) (Hbs : block_size_ok bs).

(** The second half that [backed_block_split] creates. *)
Definition second_half (p : Z) (bb : backed_block) (m : Z) : backed_block :=
  mk_bb p (u32 (bb_block bb + m / bs)) (bb_len bb - m) (advance (bb_kind bb) m).

Lemma payload_advance e b m i :
  node_ok bs b -> 0 < m < bb_len b -> m mod 4 = 0 ->
  payload e (advance (bb_kind b) m) i = payload e (bb_kind b) (i + m).
Proof using.
  intros [_ _ _ Hk] Hm H4. unfold kind_ok in Hk.
  destruct (bb_kind b); simpl.
  - f_equal. lia.
  - rewrite s64_small by lia. f_equal. lia.
  - rewrite s64_small by lia. f_equal. lia.
  - do 2 f_equal. rewrite Z.add_mod, H4, Z.add_0_r, Z.mod_mod by lia. done.
Qed.

Lemma second_half_block p b q :
  node_ok bs b -> 0 < q * bs < bb_len b ->
  bb_block (second_half p b (q * bs)) = bb_block b + q.
Proof using Hbs.
  intros [? ? ? _] Hq. simpl. destruct Hbs as [[? ?] _]. rewrite Z.div_mul by lia.
  apply u32_small. unfold is_u32, bb_end in *.
  pose proof (div_round_up_bounds (bb_len b) bs). nia.
Qed.

Lemma second_half_end p b q :
  node_ok bs b -> 0 < q * bs < bb_len b ->
  bb_end bs (second_half p b (q * bs)) = bb_end bs b.
Proof using Hbs.
  intros Hb Hq. unfold bb_end. rewrite second_half_block by done. simpl.
  destruct Hbs as [[? ?] _]. unfold DIV_ROUND_UP.
  replace (bb_len b - q * bs + bs - 1) with (bb_len b + bs - 1 + (- q) * bs) by lia.
  rewrite Z.div_add by lia. lia.
Qed.

Lemma mul_bs_mod4 q : (q * bs) mod 4 = 0.
Proof using Hbs. destruct Hbs as [_ H4]. rewrite Z.mul_mod, H4 by lia. by rewrite Z.mul_0_r. Qed.

Lemma split_chain lo p b q rest :
  chain bs lo (b :: rest) -> 0 < q * bs < bb_len b ->
  chain bs lo (set_len b (q * bs) :: second_half p b (q * bs) :: rest).
Proof using Hbs.
  intros (Hlo & Hb & Hrest) Hq. pose proof (bb_end_gt bs Hbs b Hb) as Hend.
  pose proof (second_half_block p b q Hb Hq) as Hblk.
  pose proof (second_half_end p b q Hb Hq) as Hse.
  assert (Hfe : bb_end bs (set_len b (q * bs)) = bb_block b + q).
  { unfold bb_end. simpl. destruct Hbs as [[? ?] _]. by rewrite div_round_up_mul. }
  destruct Hb as [H1 H2 H3 Hk]. cbn [chain]. split; [done|].
  assert (Hq' : bb_block b + q < bb_end bs b + 1).
  { unfold bb_end. pose proof (div_round_up_bounds (bb_len b) bs).
    destruct Hbs as [[? ?] _]. nia. }
  split; [|split; [lia|split]].
  - constructor; [done|simpl; lia|lia|]. unfold kind_ok in *. simpl.
    destruct (bb_kind b); simpl in *; try lia; done.
  - constructor; [rewrite Hblk; destruct Hbs as [[? ?] _]; nia|simpl; lia|lia|].
    unfold kind_ok in *. simpl. destruct (bb_kind b); simpl in *; try done;
      rewrite s64_small; lia.
  - by rewrite Hse.
Qed.

(** Splitting leaves the image unchanged. *)
Lemma split_image e p b q rest off :
  node_ok bs b -> 0 < q * bs < bb_len b ->
  image e bs (set_len b (q * bs) :: second_half p b (q * bs) :: rest) off
  = image e bs (b :: rest) off.
Proof using Hbs.
  intros Hb Hq. pose proof (second_half_block p b q Hb Hq) as Hblk.
  cbn [image]. unfold covers. rewrite Hblk. simpl.
  set (m := q * bs) in *.
  replace ((bb_block b + q) * bs) with (bb_block b * bs + m) by (unfold m; lia).
  destruct (Z.leb_spec (bb_block b * bs) off),
    (Z.ltb_spec off (bb_block b * bs + m)),
    (Z.leb_spec (bb_block b * bs + m) off),
    (Z.ltb_spec off (bb_block b * bs + bb_len b)),
    (Z.ltb_spec off (bb_block b * bs + m + (bb_len b - m))); simpl; try done; try lia.
  f_equal. rewrite (payload_advance e b) by (done || apply mul_bs_mod4). f_equal. lia.
Qed.

End split.

Lemma image_app_congr e bs pre l1 l2 off :
  image e bs l1 off = image e bs l2 off ->
  image e bs (pre ++ l1) off = image e bs (pre ++ l2) off.
Proof. intros Heq. induction pre as [|b pre IH]; simpl; [done|]. by rewrite IH. Qed.

(** The list after [backed_block_split] of the node at [p]. *)
Record was_split (bbl : backed_block_list) (p m : Z) (bbl' : backed_block_list) : Prop := {
  split_wf : bbl_wf bbl';
  split_bs : bbl_block_size bbl' = bbl_block_size bbl;
  split_same_image e off :
    image e (bbl_block_size bbl) (data_blocks bbl') off
    = image e (bbl_block_size bbl) (data_blocks bbl) off;
  split_shape : exists pre b post, data_blocks bbl = pre ++ b :: post /\ bb_addr b = p /\
    ((bb_len b <= m /\ bbl' = bbl) \/
     exists p' , m < bb_len b /\ data_blocks bbl'
       = pre ++ set_len b m :: second_half (bbl_block_size bbl) p' b m :: post) }.

Lemma split_addrs pre b m n post :
  addrs (pre ++ set_len b m :: n :: post) ≡ₚ bb_addr n :: addrs (pre ++ b :: post).
Proof.
  unfold addrs. rewrite !map_app. simpl.
  rewrite <- !Permutation_middle. apply perm_swap.
Qed.

Lemma backed_block_split_spec al bbl p max_len :
  bbl_wf bbl -> alloc_ok al (data_blocks bbl) -> oom al (next_addr al) = false ->
  p ∈ addrs (data_blocks bbl) -> bbl_block_size bbl <= max_len < 2 ^ 32 ->
  exists al' bbl', backed_block_split al bbl p max_len = Done (0, al', bbl') /\
    was_split bbl p (ALIGN_DOWN max_len (bbl_block_size bbl)) bbl' /\
    alloc_ok al' (data_blocks bbl').
Proof.
  intros Hwf Hal Hoom Hp Hmax. pose proof Hwf as [Hbs Hch Hnd Hlu].
  set (bs := bbl_block_size bbl) in *. unfold backed_block_split. fold bs.
  destruct (split_at_mem p _ Hp) as (pre & b & post & -> & E & Hpb).
  assert (Hq : exists q, ALIGN_DOWN max_len bs = q * bs /\ 0 < q * bs <= max_len).
  { exists (max_len / bs). destruct Hbs as [[? ?] _]. unfold ALIGN_DOWN. split; [lia|].
    pose proof (Z.div_mod max_len bs). pose proof (Z.mod_pos_bound max_len bs).
    assert (1 <= max_len / bs) by (apply Z.div_le_lower_bound; lia). nia. }
  destruct Hq as (q & -> & Hq). rewrite u32_small by (unfold is_u32; lia).
  destruct (Z.leb_spec (bb_len b) (q * bs)) as [Hle|Hgt].
  { eexists _, _. split; [reflexivity|]. split; [|done].
    constructor; try done. exists pre, b, post. split; [done|]. split; [done|]. by left. }
  unfold malloc. rewrite Hoom. rewrite E in *.
  assert (Hb : node_ok bs b).
  { apply (chain_nodes _ Hbs 0) in Hch. by apply Forall_app in Hch as [_ [? _]%Forall_cons]. }
  eexists _, _. split; [reflexivity|]. split.
  - constructor.
    + constructor; simpl; [done| | |].
      * fold bs. change (mk_bb _ _ _ _) with (second_half bs (next_addr al) b (q * bs)).
        apply chain_app in Hch as [? Hsuf]. apply chain_app. split; [done|].
        apply split_chain; done || lia.
      * rewrite split_addrs. apply NoDup_cons. split; [intros Hn%Hal; simpl in Hn; lia|done].
      * intros p0 Hp0%Hlu. rewrite split_addrs. by apply elem_of_cons; right.
    + done.
    + intros e off. simpl. rewrite E. fold bs. apply image_app_congr, split_image; done || lia.
    + exists pre, b, post. split; [done|]. split; [done|]. right. by exists (next_addr al).
  - intros p0. simpl. rewrite split_addrs. simpl.
    intros [->|Hp0%Hal]%elem_of_cons; lia.
Qed.

(** * Moving a segment *)

Lemma chain_sublist bs lo l k :
  block_size_ok bs -> sublist l k -> chain bs lo k -> chain bs lo l.
Proof.
  intros Hbs Hsub. revert lo. induction Hsub as [|b l k Hsub IH|b l k Hsub IH]; intros lo.
  - done.
  - intros (? & ? & ?). simpl. auto.
  - intros (? & Hb & Hk). apply IH. apply (chain_weaken _ (bb_end bs b)); [|done].
    pose proof (bb_end_gt bs Hbs b Hb). lia.
Qed.

Lemma sublist_addrs l k : sublist l k -> sublist (addrs l) (addrs k).
Proof. induction 1; simpl; by constructor. Qed.

(** Any part of a well-formed list, with [last_used] reset, is well formed. *)
Lemma bbl_wf_sublist bbl l :
  bbl_wf bbl -> sublist l (data_blocks bbl) -> bbl_wf (mk_bbl l None (bbl_block_size bbl)).
Proof.
  intros [Hbs Hch Hnd _] Hsub. constructor; simpl; [done| | |done].
  - by eapply chain_sublist.
  - eapply sublist_NoDup; [done|by apply sublist_addrs].
Qed.

Lemma insert_segment_perm seg b l : l <> [] -> insert_segment seg b l ≡ₚ seg ++ l.
Proof.
  induction l as [|x l IH]; [done|]. intros _. destruct l as [|y l]; simpl.
  - by rewrite Permutation_app_comm.
  - destruct (b <? bb_block y); simpl.
    + by rewrite Permutation_middle.
    + simpl in IH. rewrite IH by done. by rewrite Permutation_middle.
Qed.

(** The arguments of [backed_block_list_move] name a segment of [from]. *)
Definition segment (from : backed_block_list) (start end_ : option Z)
    (pre seg post : list backed_block) : Prop :=
  data_blocks from = pre ++ seg ++ post /\
  match start with
  | None => pre = []
  | Some p => bb_addr <$> head seg = Some p
  end /\
  match end_ with
  | None => post = []
  | Some p => bb_addr <$> last seg = Some p
  end.

Lemma split_at_first p pre b post :
  NoDup (addrs (pre ++ b :: post)) -> bb_addr b = p ->
  split_at p (pre ++ b :: post) = Some (pre, b, post).
Proof.
  intros Hnd Hp. induction pre as [|c pre IH]; simpl in *.
  - by rewrite (proj2 (Z.eqb_eq _ _) Hp).
  - apply NoDup_cons in Hnd as [Hc Hnd].
    destruct (Z.eqb_spec (bb_addr c) p) as [E|_].
    + destruct Hc. rewrite E, <- Hp. unfold addrs. rewrite map_app. apply elem_of_app.
      right. by apply elem_of_cons; left.
    + by rewrite IH.
Qed.

Lemma backed_block_list_move_spec from to start end_ pre seg post :
  bbl_wf from -> segment from start end_ pre seg post -> seg <> [] ->
  exists to_blocks,
    backed_block_list_move from to start end_
    = Done (with_blocks from (pre ++ post) None, with_blocks to to_blocks None) /\
    to_blocks ≡ₚ seg ++ data_blocks to /\
    (data_blocks to = [] -> to_blocks = seg).
Proof.
  intros [Hbs Hch Hnd Hlu] (Hl & Hs & He) Hne.
  destruct seg as [|sb rest]; [done|]. clear Hne. rewrite Hl in Hnd.
  unfold backed_block_list_move.
  assert (Hstart : match start with Some p => Some p
    | None => bb_addr <$> head (data_blocks from) end = Some (bb_addr sb)).
  { destruct start as [p|]; [by injection Hs as ->|]. rewrite Hl, Hs. done. }
  rewrite Hstart, Hl. cbn [app].
  rewrite (split_at_first (bb_addr sb) pre sb (rest ++ post)) by done.
  assert (Hend : match end_ with
    | None => Done (sb :: rest ++ post, [])
    | Some ep => match split_at ep (sb :: rest ++ post) with
                 | None => Crash BadPointer
                 | Some (seg, eb, post) => Done (seg ++ [eb], post) end
    end = Done (sb :: rest, post)).
  { destruct end_ as [ep|]; [|by rewrite He, app_nil_r].
    destruct (last (sb :: rest)) as [eb|] eqn:Elast; [|done]. injection He as He.
    apply last_Some in Elast as [init Einit].
    change (sb :: rest ++ post) with ((sb :: rest) ++ post). rewrite Einit, <- app_assoc.
    cbn [app]. rewrite (split_at_first ep init eb post); [done| |done].
    unfold addrs in *. rewrite map_app in Hnd. apply NoDup_app in Hnd as (_ & _ & Hnd).
    change (sb :: rest ++ post) with ((sb :: rest) ++ post) in Hnd.
    by rewrite Einit, <- app_assoc in Hnd. }
  rewrite Hend. cbn [obind]. eexists. split; [reflexivity|].
  destruct (data_blocks to) as [|t l].
  - split; [by rewrite app_nil_r|done].
  - split; [|done]. by apply insert_segment_perm.
Qed.
