(* ===== verification/OutputFile.v ===== *)
(** libsparse/output_file.cpp and libsparse/sparse_format.h: the two ways of
    writing an image (sparse chunks, or the expanded "normal" image) on top of
    an [output_file_ops] table, and two of its implementations (an open file
    descriptor and a user callback).

    [FileOps] is the table of function pointers; [SinkLaws] is what the sparse
    writer relies on: writes append.  The sparse writer is proved against
    [SinkLaws]; both implementations are shown to satisfy it. *)

From S2P Require Import Prelude.
From S2P Require Import CrcTables.
From S2P Require Import Crc.
From S2P Require Import BackedBlock.

Local Open Scope Z_scope.
Import SparseCrc.

(** * The on-disk format, sparse_format.h *)

Record sparse_header := mk_sparse_header {
  magic : Z;
  major_version : Z;
  minor_version : Z;
  file_hdr_sz : Z;
  chunk_hdr_sz : Z;
  blk_sz : Z;
  total_blks : Z;
  total_chunks : Z;
  image_checksum : Z }.

Record chunk_header := mk_chunk_header {
  chunk_type : Z;
  reserved1 : Z;
  chunk_sz : Z;
  total_sz : Z }.

Definition SPARSE_HEADER_MAGIC : Z := 0xed26ff3a.
Definition CHUNK_TYPE_RAW : Z := 0xCAC1.
Definition CHUNK_TYPE_FILL : Z := 0xCAC2.
Definition CHUNK_TYPE_DONT_CARE : Z := 0xCAC3.
Definition CHUNK_TYPE_CRC32 : Z := 0xCAC4.
Definition SPARSE_HEADER_MAJOR_VER : Z := 1.
Definition SPARSE_HEADER_MINOR_VER : Z := 0.
Definition SPARSE_HEADER_LEN : Z := 28.
Definition CHUNK_HEADER_LEN : Z := 12.
Definition FILL_ZERO_BUFSIZE : Z := 2 * 1024 * 1024.
Definition INT_MAX : Z := 2 ^ 31 - 1.

(** The structs as they lie in (little-endian) memory. *)
Definition sparse_header_bytes (h : sparse_header) : list Z :=
  le_encode 4 (magic h) ++ le_encode 2 (major_version h) ++ le_encode 2 (minor_version h) ++
  le_encode 2 (file_hdr_sz h) ++ le_encode 2 (chunk_hdr_sz h) ++ le_encode 4 (blk_sz h) ++
  le_encode 4 (total_blks h) ++ le_encode 4 (total_chunks h) ++ le_encode 4 (image_checksum h).

Definition chunk_header_bytes (h : chunk_header) : list Z :=
  le_encode 2 (chunk_type h) ++ le_encode 2 (reserved1 h) ++
  le_encode 4 (chunk_sz h) ++ le_encode 4 (total_sz h).

(** * Loops over a bounded buffer

    [while (len) { n = min(len, bufsz); body(n); len -= n; }], the shape of
    every loop of libsparse that pushes a long region through a fixed-size
    buffer; a negative result of the body leaves the loop. *)

Fixpoint chunk_loop {S} (fuel : nat) (bufsz : Z) (body : S -> Z -> S * Z) (s : S) (len : Z)
  : outcome (S * Z) :=
  match fuel with
  | O => Crash OutOfFuel
  | Datatypes.S fuel =>
      if len <=? 0 then Done (s, 0)
      else
        let n := Z.min len bufsz in
        let '(s, ret) := body s n in
        if ret <? 0 then Done (s, ret) else chunk_loop fuel bufsz body s (len - n)
  end.

Definition chunk_fuel (len bufsz : Z) : nat := Z.to_nat (len / bufsz + 2).

(** * The operation table *)

Class FileOps (F : Type) := {
  op_skip : F -> Z -> outcome (F * Z);
  op_pad : F -> Z -> F * Z;
  op_write : F -> list Z -> F * Z }.

(** ** [file_ops]: an open file descriptor

    [write(2)] may write less than asked, be interrupted or fail: [events]
    says what the next calls do; once it is used up they write everything. *)

Inductive wevent := Wrote (n : nat) | Eintr | Werror (errno : Z).

Record normal_file := mk_normal_file {
  contents : list Z;
  pos : Z;
  events : list wevent }.

(** Overwrite from position [p] on; a gap behind the end reads as zeros. *)
Definition write_at (l : list Z) (p : nat) (d : list Z) : list Z :=
  take p (l ++ replicate (p - length l) 0) ++ d ++ drop (p + length d) l.

Definition file_put (f : normal_file) (ev : list wevent) (d : list Z) : normal_file :=
  mk_normal_file (write_at (contents f) (Z.to_nat (pos f)) d) (pos f + Z.of_nat (length d)) ev.

Fixpoint file_write (ev : list wevent) (f : normal_file) (data : list Z) : normal_file * Z :=
  match data with
  | [] => (mk_normal_file (contents f) (pos f) ev, 0)
  | _ =>
      match ev with
      | [] => (file_put f [] data, 0)
      | Eintr :: ev => file_write ev f data
      | Werror _ :: ev => (mk_normal_file (contents f) (pos f) ev, -1)
      | Wrote n :: ev => file_write ev (file_put f ev (take n data)) (drop n data)
      end
  end.

Definition file_skip (f : normal_file) (cnt : Z) : normal_file * Z :=
  if pos f + cnt <? 0 then (f, -1)
  else (mk_normal_file (contents f) (pos f + cnt) (events f), 0).

Definition file_pad (f : normal_file) (len : Z) : normal_file * Z :=
  if len <? 0 then (f, - EINVAL)
  else
    let n := Z.to_nat len in
    (mk_normal_file (take n (contents f ++ replicate (n - length (contents f)) 0))
       (pos f) (events f), 0).

#[export] Instance file_ops : FileOps normal_file := {
  op_skip f cnt := Done (file_skip f cnt);
  op_pad := file_pad;
  op_write f d := file_write (events f) f d }.

(** ** [callback_file_ops]: a user callback; a null data pointer is [None] *)

Record callback_file (P : Type) := mk_callback_file {
  priv : P;
  cb_write : P -> option (list Z) -> Z -> P * Z }.
Arguments mk_callback_file {P} _ _.
Arguments priv {P} _.
Arguments cb_write {P} _ _ _ _.

Definition callback_call {P} (c : callback_file P) (d : option (list Z)) (n : Z)
  : callback_file P * Z :=
  let '(p, ret) := cb_write c (priv c) d n in (mk_callback_file p (cb_write c), ret).

Definition callback_file_skip {P} (c : callback_file P) (off : Z) : outcome (callback_file P * Z) :=
  chunk_loop (chunk_fuel off INT_MAX) INT_MAX (fun c n => callback_call c None n) c off.

Definition callback_file_pad {P} (c : callback_file P) (len : Z) : callback_file P * Z := (c, -1).

Definition callback_file_write {P} (c : callback_file P) (data : list Z) : callback_file P * Z :=
  callback_call c (Some data) (Z.of_nat (length data)).

#[export] Instance callback_file_ops {P} : FileOps (callback_file P) := {
  op_skip := callback_file_skip;
  op_pad := callback_file_pad;
  op_write := callback_file_write }.

(** * [struct output_file] *)

Record output_file (F : Type) := mk_output_file {
  cur_out_ptr : Z;
  chunk_cnt : Z;
  crc32 : Z;
  sparse_ops : bool;    (** [sparse_file_ops] or [normal_file_ops] *)
  use_crc : bool;
  of_block_size : Z;
  of_len : Z;
  file : F }.
Arguments mk_output_file {F}.
Arguments cur_out_ptr {F}. Arguments chunk_cnt {F}. Arguments crc32 {F}.
Arguments sparse_ops {F}. Arguments use_crc {F}. Arguments of_block_size {F}.
Arguments of_len {F}. Arguments file {F}.

Section writer.
Context {F : Type} `{FileOps F}.

Definition set_file (out : output_file F) (f : F) : output_file F :=
  mk_output_file (cur_out_ptr out) (chunk_cnt out) (crc32 out) (sparse_ops out)
    (use_crc out) (of_block_size out) (of_len out) f.

Definition set_crc (out : output_file F) (c : Z) : output_file F :=
  mk_output_file (cur_out_ptr out) (chunk_cnt out) c (sparse_ops out)
    (use_crc out) (of_block_size out) (of_len out) (file out).

(** [cur_out_ptr += n; chunk_cnt++]. *)
Definition count_chunk (out : output_file F) (n : Z) : output_file F :=
  mk_output_file (s64 (cur_out_ptr out + n)) (u32 (chunk_cnt out + 1)) (crc32 out)
    (sparse_ops out) (use_crc out) (of_block_size out) (of_len out) (file out).

Definition out_write (out : output_file F) (d : list Z) : output_file F * Z :=
  let '(f, ret) := op_write (file out) d in (set_file out f, ret).

(** ** [sparse_file_ops] *)

Definition write_sparse_skip_chunk (out : output_file F) (skip_len : Z)
  : outcome (output_file F * Z) :=
  if negb (skip_len mod of_block_size out =? 0) then Done (out, -1)
  else
    let header := mk_chunk_header CHUNK_TYPE_DONT_CARE 0
                    (u32 (skip_len / of_block_size out)) CHUNK_HEADER_LEN in
    let '(out, ret) := out_write out (chunk_header_bytes header) in
    if ret <? 0 then Done (out, -1) else Done (count_chunk out skip_len, 0).

Definition write_sparse_fill_chunk (out : output_file F) (len fill_val : Z)
  : outcome (output_file F * Z) :=
  let rnd_up_len := u64 (ALIGN len (of_block_size out)) in
  let header := mk_chunk_header CHUNK_TYPE_FILL 0
                  (u32 (rnd_up_len / of_block_size out)) (CHUNK_HEADER_LEN + 4) in
  let '(out, ret) := out_write out (chunk_header_bytes header) in
  if ret <? 0 then Done (out, -1)
  else
    let '(out, ret) := out_write out (le_encode 4 fill_val) in
    if ret <? 0 then Done (out, -1)
    else
      let out :=
        if use_crc out then
          let count := of_block_size out / 4 in
          set_crc out (Nat.iter (Z.to_nat count)
                         (fun c => sparse_crc32 c (le_encode 4 fill_val)) (crc32 out))
        else out in
      Done (count_chunk out rnd_up_len, 0).

(** One round of the zero-padding loops. *)
Definition pad_write (out : output_file F) (n : Z) : output_file F * Z :=
  out_write out (replicate (Z.to_nat n) 0).
Definition pad_crc (out : output_file F) (n : Z) : output_file F * Z :=
  (set_crc out (sparse_crc32 (crc32 out) (replicate (Z.to_nat n) 0)), 0).

Definition write_sparse_data_chunk (out : output_file F) (data : list Z)
  : outcome (output_file F * Z) :=
  let len := Z.of_nat (length data) in
  let rnd_up_len := u64 (ALIGN len (of_block_size out)) in
  let zero_len := u64 (rnd_up_len - len) in
  let header := mk_chunk_header CHUNK_TYPE_RAW 0
                  (u32 (rnd_up_len / of_block_size out)) (u32 (CHUNK_HEADER_LEN + rnd_up_len)) in
  let '(out, ret) := out_write out (chunk_header_bytes header) in
  if ret <? 0 then Done (out, -1)
  else
    let '(out, ret) := out_write out data in
    if ret <? 0 then Done (out, -1)
    else
      let* (out, ret) :=
        chunk_loop (chunk_fuel zero_len FILL_ZERO_BUFSIZE) FILL_ZERO_BUFSIZE pad_write out zero_len in
      if ret <? 0 then Done (out, ret)
      else
        let* (out, _) :=
          if use_crc out then
            let out := set_crc out (sparse_crc32 (crc32 out) data) in
            chunk_loop (chunk_fuel zero_len FILL_ZERO_BUFSIZE) FILL_ZERO_BUFSIZE pad_crc out zero_len
          else Done (out, 0) in
        Done (count_chunk out rnd_up_len, 0).

(** The result of the second write is not looked at. *)
Definition write_sparse_end_chunk (out : output_file F) : outcome (output_file F * Z) :=
  if use_crc out then
    let header := mk_chunk_header CHUNK_TYPE_CRC32 0 0 (CHUNK_HEADER_LEN + 4) in
    let '(out, ret) := out_write out (chunk_header_bytes header) in
    if ret <? 0 then Done (out, ret)
    else
      let '(out, _) := out_write out (le_encode 4 (crc32 out)) in
      Done (count_chunk out 0, 0)
  else Done (out, 0).

(** ** [normal_file_ops] *)

Definition out_skip (out : output_file F) (n : Z) : outcome (output_file F * Z) :=
  let* (f, ret) := op_skip (file out) n in Done (set_file out f, ret).

Definition write_normal_data_chunk (out : output_file F) (data : list Z)
  : outcome (output_file F * Z) :=
  let len := Z.of_nat (length data) in
  let rnd_up_len := u64 (ALIGN len (of_block_size out)) in
  let '(out, ret) := out_write out data in
  if ret <? 0 then Done (out, ret)
  else if len <? rnd_up_len then out_skip out (rnd_up_len - len)
  else Done (out, ret).

(** The first [n] bytes of a buffer filled with [fill_val]. *)
Definition fill_bytes (fill_val : Z) (n : Z) : list Z :=
  map (fun i => nth (Z.to_nat (i mod 4)) (le_encode 4 fill_val) 0) (seqZ 0 n).

Definition write_normal_fill_chunk (out : output_file F) (len fill_val : Z)
  : outcome (output_file F * Z) :=
  chunk_loop (chunk_fuel len FILL_ZERO_BUFSIZE) FILL_ZERO_BUFSIZE
    (fun out n => out_write out (fill_bytes fill_val n)) out len.

Definition write_normal_skip_chunk (out : output_file F) (len : Z) : outcome (output_file F * Z) :=
  out_skip out len.

Definition write_normal_end_chunk (out : output_file F) : outcome (output_file F * Z) :=
  let '(f, ret) := op_pad (file out) (of_len out) in Done (set_file out f, ret).

(** ** The dispatching entry points *)

Definition write_skip_chunk (out : output_file F) (len : Z) :=
  if sparse_ops out then write_sparse_skip_chunk out len else write_normal_skip_chunk out len.
Definition write_fill_chunk (out : output_file F) (len fill_val : Z) :=
  if sparse_ops out then write_sparse_fill_chunk out len fill_val
  else write_normal_fill_chunk out len fill_val.
Definition write_data_chunk (out : output_file F) (data : list Z) :=
  if sparse_ops out then write_sparse_data_chunk out data else write_normal_data_chunk out data.
Definition write_end_chunk (out : output_file F) :=
  if sparse_ops out then write_sparse_end_chunk out else write_normal_end_chunk out.

(** [output_file_close]: the end chunk, whose result is ignored; what remains
    is the state of the file. *)
Definition output_file_close (out : output_file F) : outcome F :=
  let* (out, _) := write_end_chunk out in Done (file out).

(** [output_file_init], with the two buffer allocations; on failure ([inr]) the
    error code and the file as the failed write left it. *)
Definition output_file_init (al : allocator) (f : F) (block_size len : Z) (sparse : bool)
    (chunks : Z) (crc : bool) : (output_file F + Z * F) * allocator :=
  let out := mk_output_file 0 0 0 sparse crc block_size len f in
  match malloc al with
  | (None, al) => (inr (- ENOMEM, f), al)
  | (Some _, al) =>
      match malloc al with
      | (None, al) => (inr (- ENOMEM, f), al)
      | (Some _, al) =>
          if sparse then
            let header := mk_sparse_header SPARSE_HEADER_MAGIC SPARSE_HEADER_MAJOR_VER
              SPARSE_HEADER_MINOR_VER SPARSE_HEADER_LEN CHUNK_HEADER_LEN block_size
              (u32 (DIV_ROUND_UP len block_size))
              (if crc then u32 (u32 chunks + 1) else u32 chunks) 0 in
            let '(out, ret) := out_write out (sparse_header_bytes header) in
            if ret <? 0 then (inr (ret, file out), al) else (inl out, al)
          else (inl out, al)
      end
  end.

(** [output_file_open_callback] and [output_file_open_fd] (without gz): one
    allocation for the object, then [output_file_init]; [inr] is a null
    result. *)
Definition output_file_open (al : allocator) (f : F) (block_size len : Z) (sparse : bool)
    (chunks : Z) (crc : bool) : (output_file F + F) * allocator :=
  match malloc al with
  | (None, al) => (inr f, al)
  | (Some _, al) =>
      match output_file_init al f block_size len sparse chunks crc with
      | (inl out, al) => (inl out, al)
      | (inr (_, f), al) => (inr f, al)
      end
  end.

End writer.

(** * What the sparse writer relies on *)

(** [sink_rep f l]: the file [f] has received exactly the bytes [l]. *)
Class SinkLaws (F : Type) `{FileOps F} := {
  sink_rep : F -> list Z -> Prop;
  sink_write f l d :
    sink_rep f l ->
    exists f' r, op_write f d = (f', r) /\ 0 <= r /\ sink_rep f' (l ++ d) }.

(** ** A file descriptor positioned at the end of the file, whatever short
    writes and interruptions occur *)

Definition no_error (ev : wevent) : Prop :=
  match ev with Werror _ => False | _ => True end.

Definition file_rep (f : normal_file) (l : list Z) : Prop :=
  contents f = l /\ pos f = Z.of_nat (length l) /\ Forall no_error (events f).

Lemma write_at_end l d : write_at l (length l) d = l ++ d.
Proof.
  unfold write_at. rewrite Nat.sub_diag, drop_ge by lia.
  simpl. now rewrite !app_nil_r, firstn_all.
Qed.

Lemma file_write_spec ev f l d :
  Forall no_error ev -> file_rep f l ->
  exists f', file_write ev f d = (f', 0) /\ file_rep f' (l ++ d).
Proof.
  intros Hev. revert f l d. induction Hev as [|e ev He Hev IH]; intros f l d Hrep0;
    pose proof Hrep0 as (Hc & Hp & _).
  - assert (Hput : file_rep (file_put f [] d) (l ++ d)).
    { unfold file_put, file_rep. simpl. rewrite Hp, Nat2Z.id, Hc, write_at_end, length_app.
      split; [done|]. split; [lia|constructor]. }
    destruct d as [|b d]; simpl; eexists; split; try reflexivity; try done.
    rewrite app_nil_r. split; [done|]. split; [done|constructor].
  - destruct d as [|b d].
    { simpl. eexists. split; [reflexivity|]. rewrite app_nil_r. split; [done|].
      split; [done|]. by constructor. }
    destruct e as [n| |]; cbn [file_write]; [|by apply IH|done].
    destruct (IH (file_put f ev (take n (b :: d))) (l ++ take n (b :: d)) (drop n (b :: d)))
      as (f' & E & Hrep).
    { unfold file_put, file_rep. simpl contents. simpl pos. simpl events.
      rewrite Hp, Nat2Z.id, Hc, write_at_end, length_app. split; [done|]. split; [lia|done]. }
    exists f'. split; [done|]. by rewrite <- app_assoc, take_drop in Hrep.
Qed.

#[export] Program Instance file_sink : SinkLaws normal_file := {
  sink_rep := file_rep }.
Next Obligation.
  intros f l d Hrep. destruct (file_write_spec (events f) f l d) as (f' & E & ?);
    [apply Hrep|done|].
  exists f', 0. split; [done|]. split; [lia|done].
Qed.

(** ** A callback that collects what it is given in memory *)

Definition buffer_write (p : list Z) (d : option (list Z)) (n : Z) : list Z * Z :=
  match d with
  | Some d => (p ++ d, 0)
  | None => (p ++ replicate (Z.to_nat n) 0, 0)
  end.

Definition buffer_file (p : list Z) : callback_file (list Z) := mk_callback_file p buffer_write.

#[export] Program Instance buffer_sink : SinkLaws (callback_file (list Z)) := {
  sink_rep c l := c = buffer_file l }.
Next Obligation. intros c l d ->. eexists _, 0. split; [reflexivity|]. split; [lia|done]. Qed.

(** * The chunks of a sparse image *)

Inductive chunk :=
| ChunkRaw (data : list Z)
| ChunkFill (fill_val nblocks : Z)
| ChunkSkip (nblocks : Z)
| ChunkCrc (crc : Z).

Definition chunk_bytes (bs : Z) (c : chunk) : list Z :=
  match c with
  | ChunkRaw d =>
      chunk_header_bytes (mk_chunk_header CHUNK_TYPE_RAW 0 (Z.of_nat (length d) / bs)
                            (CHUNK_HEADER_LEN + Z.of_nat (length d))) ++ d
  | ChunkFill v n =>
      chunk_header_bytes (mk_chunk_header CHUNK_TYPE_FILL 0 n (CHUNK_HEADER_LEN + 4))
      ++ le_encode 4 v
  | ChunkSkip n =>
      chunk_header_bytes (mk_chunk_header CHUNK_TYPE_DONT_CARE 0 n CHUNK_HEADER_LEN)
  | ChunkCrc v =>
      chunk_header_bytes (mk_chunk_header CHUNK_TYPE_CRC32 0 0 (CHUNK_HEADER_LEN + 4))
      ++ le_encode 4 v
  end.

(** The data of a block, zero-padded to whole blocks. *)
Definition pad_to (bs : Z) (d : list Z) : list Z :=
  d ++ replicate (Z.to_nat (ALIGN (Z.of_nat (length d)) bs - Z.of_nat (length d))) 0.

(** How the writer updates its checksum for a chunk. *)
Definition chunk_crc (bs : Z) (c : chunk) (crc : Z) : Z :=
  match c with
  | ChunkRaw d => sparse_crc32 crc d
  | ChunkFill v n => Nat.iter (Z.to_nat (bs / 4)) (fun c => sparse_crc32 c (le_encode 4 v)) crc
  | ChunkSkip n => crc
  | ChunkCrc v => crc
  end.

(** * Running the bounded-buffer loop *)

(** If every round keeps [I s rest], with [rest] what is left to do, the loop
    ends without running out of fuel in a state that satisfies [I _ 0]. *)
Lemma chunk_loop_spec {S} (I : S -> Z -> Prop) bufsz (body : S -> Z -> S * Z) s len :
  0 < bufsz -> 0 <= len -> I s len ->
  (forall s len n, I s len -> 0 < n <= len -> n = Z.min len bufsz ->
    exists s' r, body s n = (s', r) /\ 0 <= r /\ I s' (len - n)) ->
  exists s', chunk_loop (chunk_fuel len bufsz) bufsz body s len = Done (s', 0) /\ I s' 0.
Proof.
  intros Hbuf Hlen HI Hbody. unfold chunk_fuel.
  assert (Hfuel : (1 <= Z.to_nat (len / bufsz + 2))%nat /\
                  len <= (Z.of_nat (Z.to_nat (len / bufsz + 2)) - 1) * bufsz).
  { pose proof (Z.div_mod len bufsz). pose proof (Z.mod_pos_bound len bufsz).
    assert (0 <= len / bufsz) by (apply Z.div_pos; lia). split; [lia|].
    rewrite Z2Nat.id by lia. nia. }
  remember (Z.to_nat (len / bufsz + 2)) as fuel eqn:Ef. clear Ef.
  revert s len Hlen HI Hfuel. induction fuel as [|fuel IH]; intros s len Hlen HI Hfuel; [lia|].
  cbn [chunk_loop]. destruct (Z.leb_spec len 0).
  - exists s. split; [done|]. by replace 0 with len by lia.
  - destruct (Hbody s len (Z.min len bufsz)) as (s' & r & -> & Hr & HI'); [done|lia|done|].
    destruct (Z.ltb_spec r 0); [lia|]. apply IH; [lia|done|].
    assert (1 <= fuel)%nat by (destruct fuel; lia). split; [done|nia].
Qed.

(** * The sparse writer emits chunks *)

Section emits.
Context {F : Type} `{SinkLaws F}.

(** [out'] is [out] after the bytes [d] were appended to the [l] written so
    far, with checksum [c]; the parameters of the output are unchanged. *)
Record emitted (out : output_file F) (l d : list Z) (c : Z) (out' : output_file F) : Prop := {
  em_rep : sink_rep (file out') (l ++ d);
  em_crc : crc32 out' = c;
  em_bs : of_block_size out' = of_block_size out;
  em_len : of_len out' = of_len out;
  em_sparse : sparse_ops out' = sparse_ops out;
  em_use : use_crc out' = use_crc out }.

Lemma emitted_trans out l d1 c1 out1 d2 c2 out2 :
  emitted out l d1 c1 out1 -> emitted out1 (l ++ d1) d2 c2 out2 ->
  emitted out l (d1 ++ d2) c2 out2.
Proof.
  intros [? ? ? ? ? ?] [? ? ? ? ? ?]. constructor; try congruence. by rewrite app_assoc.
Qed.

Lemma emitted_count out l d c out' n :
  emitted out l d c out' -> emitted out l d c (count_chunk out' n).
Proof. by intros [? ? ? ? ? ?]. Qed.

Lemma emitted_crc out l d c out' c' :
  emitted out l d c out' -> emitted out l d c' (set_crc out' c').
Proof. by intros [? ? ? ? ? ?]. Qed.

Lemma out_write_spec out l d :
  sink_rep (file out) l ->
  exists out' r, out_write out d = (out', r) /\ (r <? 0) = false /\
    emitted out l d (crc32 out) out'.
Proof.
  intros Hrep. unfold out_write.
  destruct (sink_write (file out) l d Hrep) as (f' & r & -> & Hr & Hrep').
  exists (set_file out f'), r. split; [done|]. split; [apply Z.ltb_ge; lia|done].
Qed.

Lemma write_sparse_skip_chunk_spec out l n :
  sink_rep (file out) l -> 0 < of_block_size out -> is_u32 n ->
  exists out', write_sparse_skip_chunk out (n * of_block_size out) = Done (out', 0) /\
    emitted out l (chunk_bytes (of_block_size out) (ChunkSkip n)) (crc32 out) out'.
Proof.
  intros Hrep Hbs Hn. unfold write_sparse_skip_chunk.
  rewrite Z.mod_mul, Z.div_mul, u32_small by (done || lia). simpl negb. cbv iota.
  destruct (out_write_spec out l (chunk_bytes (of_block_size out) (ChunkSkip n)) Hrep)
    as (out' & r & E & Hr & Hem).
  unfold chunk_bytes in E. rewrite E, Hr.
  eexists. split; [reflexivity|]. by apply emitted_count.
Qed.

Lemma u64_align len bs :
  0 < bs < 2 ^ 32 -> 0 <= len -> DIV_ROUND_UP len bs < 2 ^ 32 ->
  u64 (ALIGN len bs) = ALIGN len bs /\ u32 (ALIGN len bs / bs) = DIV_ROUND_UP len bs.
Proof.
  intros Hbs Hlen Hd. pose proof (div_round_up_nonneg len bs). unfold ALIGN.
  rewrite Z.mul_comm, Z.div_mul by lia. split.
  - apply u64_small. unfold is_u64. nia.
  - apply u32_small. unfold is_u32. lia.
Qed.

Lemma write_sparse_fill_chunk_spec out l len v :
  sink_rep (file out) l -> 0 < of_block_size out < 2 ^ 32 -> 0 <= len ->
  DIV_ROUND_UP len (of_block_size out) < 2 ^ 32 ->
  let c := ChunkFill v (DIV_ROUND_UP len (of_block_size out)) in
  exists out', write_sparse_fill_chunk out len v = Done (out', 0) /\
    emitted out l (chunk_bytes (of_block_size out) c)
      (if use_crc out then chunk_crc (of_block_size out) c (crc32 out) else crc32 out) out'.
Proof.
  intros Hrep Hbs Hlen Hd c. unfold write_sparse_fill_chunk.
  destruct (u64_align len (of_block_size out) Hbs Hlen Hd) as [E1 E2]. rewrite E1, E2.
  destruct (out_write_spec out l (chunk_header_bytes (mk_chunk_header CHUNK_TYPE_FILL 0
    (DIV_ROUND_UP len (of_block_size out)) (CHUNK_HEADER_LEN + 4))) Hrep)
    as (o1 & r1 & -> & -> & Hem1).
  destruct (out_write_spec o1 _ (le_encode 4 v) (em_rep _ _ _ _ _ Hem1))
    as (o2 & r2 & -> & -> & Hem2).
  pose proof (emitted_trans _ _ _ _ _ _ _ _ Hem1 Hem2) as Hem.
  pose proof Hem as [_ Hc Hb _ _ Hu]. rewrite Hu, Hb.
  eexists. split; [reflexivity|]. apply emitted_count.
  rewrite (em_crc _ _ _ _ _ Hem1) in Hc. rewrite Hc in *.
  destruct (use_crc out).
  - apply (emitted_crc _ _ _ _ _ _ Hem).
  - destruct Hem. by constructor.
Qed.

(** Writing zeros through the zero buffer appends that many zeros. *)
Lemma pad_write_loop out l n :
  sink_rep (file out) l -> 0 <= n ->
  exists out', chunk_loop (chunk_fuel n FILL_ZERO_BUFSIZE) FILL_ZERO_BUFSIZE pad_write out n
    = Done (out', 0) /\ emitted out l (replicate (Z.to_nat n) 0) (crc32 out) out'.
Proof.
  intros Hrep Hn.
  destruct (chunk_loop_spec (fun o rest => 0 <= rest <= n /\
      emitted out l (replicate (Z.to_nat (n - rest)) 0) (crc32 out) o)
      FILL_ZERO_BUFSIZE pad_write out n) as (out' & E & [_ Hem]); [done|done| | |].
  - split; [lia|]. rewrite Z.sub_diag. constructor; try done. by rewrite app_nil_r.
  - intros o rest k [Hrest Hem] Hk _. unfold pad_write.
    destruct (out_write_spec o _ (replicate (Z.to_nat k) 0) (em_rep _ _ _ _ _ Hem))
      as (o' & r & -> & Hr & Hem'). apply Z.ltb_ge in Hr.
    exists o', r. split; [done|]. split; [done|]. split; [lia|].
    pose proof (emitted_trans _ _ _ _ _ _ _ _ Hem Hem') as Ht.
    rewrite <- replicate_add, (em_crc _ _ _ _ _ Hem) in Ht.
    by replace (Z.to_nat (n - (rest - k))) with (Z.to_nat (n - rest) + Z.to_nat k)%nat by lia.
  - exists out'. rewrite Z.sub_0_r in Hem. done.
Qed.

Lemma pad_crc_loop out l d n :
  emitted out l d (crc32 out) out -> 0 <= n ->
  exists out', chunk_loop (chunk_fuel n FILL_ZERO_BUFSIZE) FILL_ZERO_BUFSIZE pad_crc out n
    = Done (out', 0) /\
    emitted out l d (sparse_crc32 (crc32 out) (replicate (Z.to_nat n) 0)) out'.
Proof.
  intros Hem0 Hn.
  destruct (chunk_loop_spec (fun o rest => 0 <= rest <= n /\
      emitted out l d (sparse_crc32 (crc32 out) (replicate (Z.to_nat (n - rest)) 0)) o)
      FILL_ZERO_BUFSIZE pad_crc out n) as (out' & E & [_ Hem]); [done|done| | |].
  - split; [lia|]. rewrite Z.sub_diag. destruct Hem0. constructor; try done.
    unfold sparse_crc32, crc32_loop. simpl.
    by rewrite Z.lxor_assoc, Z.lxor_nilpotent, Z.lxor_0_r.
  - intros o rest k [Hrest Hem] Hk _. eexists _, 0. split; [reflexivity|].
    split; [lia|]. split; [lia|].
    rewrite (em_crc _ _ _ _ _ Hem), <- sparse_crc32_app, <- replicate_add.
    replace (Z.to_nat (n - rest) + Z.to_nat k)%nat with (Z.to_nat (n - (rest - k))) by lia.
    by apply (emitted_crc _ _ _ _ _ _ Hem).
  - exists out'. rewrite Z.sub_0_r in Hem. done.
Qed.

Lemma length_pad_to bs d :
  0 < bs -> Z.of_nat (length (pad_to bs d)) = ALIGN (Z.of_nat (length d)) bs.
Proof using.
  intros Hbs. unfold pad_to. rewrite length_app, length_replicate.
  pose proof (div_round_up_bounds (Z.of_nat (length d)) bs). unfold ALIGN. lia.
Qed.

Lemma write_sparse_data_chunk_spec out l d :
  sink_rep (file out) l -> 0 < of_block_size out < 2 ^ 32 ->
  CHUNK_HEADER_LEN + ALIGN (Z.of_nat (length d)) (of_block_size out) < 2 ^ 32 ->
  let c := ChunkRaw (pad_to (of_block_size out) d) in
  exists out', write_sparse_data_chunk out d = Done (out', 0) /\
    emitted out l (chunk_bytes (of_block_size out) c)
      (if use_crc out then chunk_crc (of_block_size out) c (crc32 out) else crc32 out) out'.
Proof.
  intros Hrep Hbs Hsz c. set (bs := of_block_size out) in *.
  set (n := Z.of_nat (length d)) in *.
  pose proof (div_round_up_bounds n bs) as Hal. unfold CHUNK_HEADER_LEN in *.
  pose proof (div_round_up_nonneg n bs).
  assert (Hd : DIV_ROUND_UP n bs < 2 ^ 32) by (unfold ALIGN in *; nia).
  unfold write_sparse_data_chunk. fold n bs.
  destruct (u64_align n bs Hbs) as [E1 E2]; [lia|done|]. rewrite E1, E2.
  assert (Hz : u64 (ALIGN n bs - n) = ALIGN n bs - n).
  { apply u64_small. unfold is_u64, ALIGN in *. lia. }
  rewrite Hz. rewrite (u32_small (CHUNK_HEADER_LEN + ALIGN n bs))
    by (unfold is_u32, CHUNK_HEADER_LEN, ALIGN in *; lia).
  destruct (out_write_spec out l (chunk_header_bytes (mk_chunk_header CHUNK_TYPE_RAW 0
    (DIV_ROUND_UP n bs) (CHUNK_HEADER_LEN + ALIGN n bs))) Hrep) as (o1 & r1 & -> & -> & Hem1).
  destruct (out_write_spec o1 _ d (em_rep _ _ _ _ _ Hem1)) as (o2 & r2 & -> & -> & Hem2).
  pose proof (emitted_trans _ _ _ _ _ _ _ _ Hem1 Hem2) as Hem12.
  destruct (pad_write_loop o2 _ (ALIGN n bs - n) (em_rep _ _ _ _ _ Hem12))
    as (o3 & -> & Hem3); [unfold ALIGN in *; lia|].
  pose proof (emitted_trans _ _ _ _ _ _ _ _ Hem12 Hem3) as Hem. cbn [obind].
  rewrite <- app_assoc in Hem. fold (pad_to bs d) in Hem.
  assert (Hbytes : chunk_header_bytes (mk_chunk_header CHUNK_TYPE_RAW 0 (DIV_ROUND_UP n bs)
    (CHUNK_HEADER_LEN + ALIGN n bs)) ++ pad_to bs d = chunk_bytes bs c).
  { unfold c, chunk_bytes. rewrite length_pad_to by lia. fold n.
    unfold ALIGN at 2. by rewrite Z.mul_comm, Z.div_mul by lia. }
  change (d ++ replicate (Z.to_nat (ALIGN n bs - n)) 0) with (pad_to bs d) in Hem.
  rewrite Hbytes in Hem.
  assert (Hc3 : crc32 o3 = crc32 out).
  { rewrite (em_crc _ _ _ _ _ Hem), (em_crc _ _ _ _ _ Hem12). apply Hem1. }
  rewrite (em_crc _ _ _ _ _ Hem12), (em_crc _ _ _ _ _ Hem1) in Hem.
  rewrite (em_use _ _ _ _ _ Hem). destruct (use_crc out).
  - pose proof (emitted_crc _ _ _ _ _ (sparse_crc32 (crc32 o3) d) Hem) as Hs.
    set (o4 := set_crc o3 (sparse_crc32 (crc32 o3) d)) in *.
    destruct (pad_crc_loop o4 l (chunk_bytes bs c) (ALIGN n bs - n)) as (o5 & -> & Hem5).
    { destruct Hs. by constructor. }
    { unfold ALIGN in *; lia. }
    cbn [obind]. eexists. split; [reflexivity|]. apply emitted_count.
    assert (Hc4 : crc32 o4 = sparse_crc32 (crc32 out) d) by (unfold o4; simpl; by rewrite Hc3).
    rewrite Hc4, <- sparse_crc32_app in Hem5.
    change (d ++ replicate (Z.to_nat (ALIGN n bs - n)) 0) with (pad_to bs d) in Hem5.
    destruct Hem5, Hs. constructor; first [done | congruence].
  - cbn [obind]. eexists. split; [reflexivity|]. by apply emitted_count.
Qed.

Lemma write_sparse_end_chunk_spec out l :
  sink_rep (file out) l ->
  exists out', write_sparse_end_chunk out = Done (out', 0) /\
    emitted out l (if use_crc out then chunk_bytes (of_block_size out) (ChunkCrc (crc32 out)) else [])
      (crc32 out) out'.
Proof.
  intros Hrep. unfold write_sparse_end_chunk. destruct (use_crc out).
  - destruct (out_write_spec out l (chunk_header_bytes
      (mk_chunk_header CHUNK_TYPE_CRC32 0 0 (CHUNK_HEADER_LEN + 4))) Hrep)
      as (o1 & r1 & -> & -> & Hem1).
    rewrite (em_crc _ _ _ _ _ Hem1).
    destruct (out_write_spec o1 _ (le_encode 4 (crc32 out)) (em_rep _ _ _ _ _ Hem1))
      as (o2 & r2 & -> & Hr & Hem2).
    pose proof (emitted_trans _ _ _ _ _ _ _ _ Hem1 Hem2) as Hem.
    rewrite (em_crc _ _ _ _ _ Hem1) in Hem.
    eexists. split; [reflexivity|]. by apply emitted_count.
  - exists out. split; [done|]. constructor; try done. by rewrite app_nil_r.
Qed.

(** The file header written by [output_file_init]. *)
Definition image_header (bs len chunks : Z) (crc : bool) : sparse_header :=
  mk_sparse_header SPARSE_HEADER_MAGIC SPARSE_HEADER_MAJOR_VER SPARSE_HEADER_MINOR_VER
    SPARSE_HEADER_LEN CHUNK_HEADER_LEN bs (u32 (DIV_ROUND_UP len bs))
    (if crc then u32 (u32 chunks + 1) else u32 chunks) 0.

(** Three allocations succeed. *)
Definition can_open (al : allocator) : Prop :=
  oom al (next_addr al) = false /\ oom al (next_addr al + 1) = false /\
  oom al (next_addr al + 2) = false.

Lemma output_file_open_spec al f l bs len chunks crc :
  can_open al -> sink_rep f l ->
  exists out al', output_file_open al f bs len true chunks crc = (inl out, al') /\
    sink_rep (file out) (l ++ sparse_header_bytes (image_header bs len chunks crc)) /\
    of_block_size out = bs /\ of_len out = len /\ sparse_ops out = true /\
    use_crc out = crc /\ crc32 out = 0.
Proof.
  intros (H1 & H2 & H3) Hrep. unfold output_file_open, output_file_init, malloc.
  rewrite H1. simpl. rewrite H2. simpl.
  replace (next_addr al + 1 + 1) with (next_addr al + 2) by lia. rewrite H3.
  set (out := mk_output_file 0 0 0 true crc bs len f).
  destruct (out_write_spec out l (sparse_header_bytes (image_header bs len chunks crc)))
    as (out' & r & E & Hr & Hem); [done|].
  unfold image_header in E. rewrite E, Hr. destruct Hem.
  eexists _, _. split; [reflexivity|]. done.
Qed.

End emits.
