(* ===== verification/SparseFile.v ===== *)
(** libsparse/sparse.cpp: a sparse file is a block size, a length and a list of
    backed blocks; this file writes it out, measures it and splits it into
    several files of bounded size. *)

From S2P Require Import Prelude.
From S2P Require Import Crc.
From S2P Require Import BackedBlock.
From S2P Require Import OutputFile.

Local Open Scope Z_scope.

(** * Data *)

Record sparse_file := mk_sparse_file {
  sf_block_size : Z;
  sf_len : Z;
  sf_verbose : bool;
  sf_blocks : backed_block_list }.

Definition set_blocks (s : sparse_file) (bbl : backed_block_list) : sparse_file :=
  mk_sparse_file (sf_block_size s) (sf_len s) (sf_verbose s) bbl.

(** Two allocations; the second result is not checked by the code. *)
Definition sparse_file_new (al : allocator) (block_size len : Z)
  : outcome (option sparse_file * allocator) :=
  match malloc al with
  | (None, al) => Done (None, al)
  | (Some _, al) =>
      match malloc al with
      | (None, al) => Crash BadPointer
      | (Some _, al) =>
          Done (Some (mk_sparse_file block_size len false (backed_block_list_new block_size)), al)
      end
  end.

Definition sparse_file_verbose (s : sparse_file) : sparse_file :=
  mk_sparse_file (sf_block_size s) (sf_len s) true (sf_blocks s).

Definition sparse_file_add (al : allocator) (s : sparse_file) (k : backing) (len block : Z)
  : outcome (Z * allocator * sparse_file) :=
  let* (ret, al, bbl) := backed_block_add al (sf_blocks s) k len block in
  Done (ret, al, set_blocks s bbl).

Definition sparse_file_add_data al s data len block :=
  sparse_file_add al s (BACKED_BLOCK_DATA data) len block.
Definition sparse_file_add_fill al s fill_val len block :=
  sparse_file_add al s (BACKED_BLOCK_FILL fill_val) len block.
Definition sparse_file_add_file al s filename file_offset len block :=
  sparse_file_add al s (BACKED_BLOCK_FILE filename file_offset) len block.
Definition sparse_file_add_fd al s fd file_offset len block :=
  sparse_file_add al s (BACKED_BLOCK_FD fd file_offset) len block.

(** * Counting the chunks *)

Fixpoint count_chunks_loop (bs : Z) (l : list backed_block) (last_block chunks : Z) : Z * Z :=
  match l with
  | [] => (last_block, chunks)
  | bb :: l =>
      let chunks := if last_block <? bb_block bb then u32 (chunks + 1) else chunks in
      count_chunks_loop bs l (u32 (bb_block bb + DIV_ROUND_UP (bb_len bb) bs)) (u32 (chunks + 1))
  end.

Definition sparse_count_chunks (s : sparse_file) : Z :=
  let '(last_block, chunks) :=
    count_chunks_loop (sf_block_size s) (data_blocks (sf_blocks s)) 0 0 in
  if last_block <? DIV_ROUND_UP (sf_len s) (sf_block_size s) then u32 (chunks + 1) else chunks.

(** * Writing *)

Section write.
Context {F : Type} `{FileOps F}.
Context (e : env).

Definition read_bytes (get : Z -> Z) (off len : Z) : list Z :=
  map (fun i => get (off + i)) (seqZ 0 len).

(** [write_fd_chunk] and [write_file_chunk] of output_file.cpp: map the region
    and write it as data. *)
Definition write_fd_chunk (out : output_file F) (len fd offset : Z)
  : outcome (output_file F * Z) :=
  if fd_mmap_errno e fd offset len =? 0
  then write_data_chunk out (read_bytes (fd_byte e fd) offset len)
  else Done (out, - fd_mmap_errno e fd offset len).

Definition write_file_chunk (out : output_file F) (len : Z) (filename : string) (offset : Z)
  : outcome (output_file F * Z) :=
  if negb (open_errno e filename =? 0) then Done (out, - open_errno e filename)
  else if file_mmap_errno e filename offset len =? 0
  then write_data_chunk out (read_bytes (file_byte e filename) offset len)
  else Done (out, - file_mmap_errno e filename offset len).

Definition sparse_file_write_block (out : output_file F) (bb : backed_block)
  : outcome (output_file F * Z) :=
  match bb_kind bb with
  | BACKED_BLOCK_DATA data => write_data_chunk out (read_bytes (mem e) data (bb_len bb))
  | BACKED_BLOCK_FILE filename offset => write_file_chunk out (bb_len bb) filename offset
  | BACKED_BLOCK_FD fd offset => write_fd_chunk out (bb_len bb) fd offset
  | BACKED_BLOCK_FILL v => write_fill_chunk out (bb_len bb) v
  end.

(** The loop of [write_all_blocks]; the result of [write_skip_chunk] is not
    looked at. *)
Fixpoint write_blocks_loop (bs : Z) (l : list backed_block) (last_block : Z)
    (out : output_file F) : outcome (output_file F * Z * Z) :=
  match l with
  | [] => Done (out, 0, last_block)
  | bb :: l =>
      let* (out, _) :=
        if last_block <? bb_block bb
        then write_skip_chunk out (u32 (bb_block bb - last_block) * bs)
        else Done (out, 0) in
      let* (out, ret) := sparse_file_write_block out bb in
      if negb (ret =? 0) then Done (out, ret, last_block)
      else
        write_blocks_loop bs l (u32 (bb_block bb + DIV_ROUND_UP (bb_len bb) bs)) out
  end.

Definition write_all_blocks (s : sparse_file) (out : output_file F)
  : outcome (output_file F * Z) :=
  let* (out, ret, last_block) :=
    write_blocks_loop (sf_block_size s) (data_blocks (sf_blocks s)) 0 out in
  if negb (ret =? 0) then Done (out, ret)
  else
    let pad := sf_len s - last_block * sf_block_size s in
    if pad <? 0 then Crash AssertFailed
    else if 0 <? pad then
      let* (out, _) := write_skip_chunk out pad in Done (out, 0)
    else Done (out, 0).

(** [sparse_file_callback], and what follows the splitting in
    [sparse_file_write]: returns the error code and the final file state. *)
Definition sparse_file_output (al : allocator) (s : sparse_file) (f : F) (sparse crc : bool)
  : outcome (Z * F * allocator) :=
  let chunks := sparse_count_chunks s in
  match output_file_open al f (sf_block_size s) (sf_len s) sparse chunks crc with
  | (inr f, al) => Done (- ENOMEM, f, al)
  | (inl out, al) =>
      let* (out, ret) := write_all_blocks s out in
      let* f := output_file_close out in
      Done (ret, f, al)
  end.

End write.

Definition sparse_file_callback {P} (e : env) (al : allocator) (s : sparse_file)
    (sparse crc : bool) (write : P -> option (list Z) -> Z -> P * Z) (priv : P)
  : outcome (Z * P * allocator) :=
  let* (ret, c, al) :=
    sparse_file_output e al s (mk_callback_file priv write) sparse crc in
  Done (ret, OutputFile.priv c, al).

(** ** [sparse_file_write] *)

Definition MAX_BACKED_BLOCK_SIZE : Z := 64 * 2 ^ 20.

(** The address of the node behind the one at [p]. *)
Definition backed_block_iter_next (bbl : backed_block_list) (p : Z) : outcome (option Z) :=
  match split_at p (data_blocks bbl) with
  | None => Crash BadPointer
  | Some (_, _, post) => Done (bb_addr <$> head post)
  end.

Definition backed_block_iter_new (bbl : backed_block_list) : option Z :=
  bb_addr <$> head (data_blocks bbl).

Fixpoint split_loop (fuel : nat) (al : allocator) (bbl : backed_block_list) (bb : option Z)
  : outcome (Z * allocator * backed_block_list) :=
  match bb with
  | None => Done (0, al, bbl)
  | Some p =>
      match fuel with
      | O => Crash OutOfFuel
      | S fuel =>
          let* (ret, al, bbl) := backed_block_split al bbl p MAX_BACKED_BLOCK_SIZE in
          if negb (ret =? 0) then Done (ret, al, bbl)
          else
            let* nxt := backed_block_iter_next bbl p in
            split_loop fuel al bbl nxt
      end
  end.

Definition sparse_file_write {F} `{FileOps F} (fuel : nat) (e : env) (al : allocator)
    (s : sparse_file) (f : F) (sparse crc : bool)
  : outcome (Z * F * allocator * sparse_file) :=
  let* (ret, al, bbl) := split_loop fuel al (sf_blocks s) (backed_block_iter_new (sf_blocks s)) in
  let s := set_blocks s bbl in
  if negb (ret =? 0) then Done (ret, f, al, s)
  else
    let* (ret, f, al) := sparse_file_output e al s f sparse crc in
    Done (ret, f, al, s).

(** ** [sparse_file_foreach_chunk]: the callback is told which blocks it gets *)

Definition foreach_chunk_write {P} (write : P -> option (list Z) -> Z -> Z -> Z -> P * Z)
    (chk : P * Z * Z) (d : option (list Z)) (n : Z) : (P * Z * Z) * Z :=
  let '(p, block, nr_blocks) := chk in
  let '(p, ret) := write p d n block nr_blocks in
  ((p, block, nr_blocks), ret).

Fixpoint foreach_loop {P} (e : env) (bs : Z) (l : list backed_block)
    (out : output_file (callback_file (P * Z * Z)))
  : outcome (output_file (callback_file (P * Z * Z)) * Z) :=
  match l with
  | [] => Done (out, 0)
  | bb :: l =>
      let c := file out in
      let '(p, _, _) := priv c in
      let nr_blocks := u32 (u64 (bb_len bb - 1) / bs + 1) in
      let out := set_file out (mk_callback_file (p, bb_block bb, nr_blocks) (cb_write c)) in
      let* (out, ret) := sparse_file_write_block e out bb in
      if negb (ret =? 0) then Done (out, ret) else foreach_loop e bs l out
  end.

Definition sparse_file_foreach_chunk {P} (e : env) (al : allocator) (s : sparse_file)
    (sparse crc : bool) (write : P -> option (list Z) -> Z -> Z -> Z -> P * Z) (p : P)
  : outcome (Z * P * allocator) :=
  let chunks := sparse_count_chunks s in
  match output_file_open al (mk_callback_file (p, 0, 0) (foreach_chunk_write write))
          (sf_block_size s) (sf_len s) sparse chunks crc with
  | (inr c, al) => Done (- ENOMEM, (priv c).1.1, al)
  | (inl out, al) =>
      let* (out, ret) := foreach_loop e (sf_block_size s) (data_blocks (sf_blocks s)) out in
      if negb (ret =? 0) then Done (ret, (priv (file out)).1.1, al)
      else
        let* c := output_file_close out in
        Done (ret, (priv c).1.1, al)
  end.

(** ** [sparse_file_len]: run the writer with a callback that only counts *)

Definition out_counter_write (count : Z) (d : option (list Z)) (len : Z) : Z * Z :=
  (s64 (count + len), 0).

Definition counter_file (count : Z) : callback_file Z := mk_callback_file count out_counter_write.

Definition sparse_file_len (e : env) (al : allocator) (s : sparse_file) (sparse crc : bool)
  : outcome (Z * allocator) :=
  let chunks := sparse_count_chunks s in
  match output_file_open al (counter_file 0) (sf_block_size s) (sf_len s) sparse chunks crc with
  | (inr _, al) => Done (-1, al)
  | (inl out, al) =>
      let* (out, ret) := write_all_blocks e s out in
      let* c := output_file_close out in
      Done (if ret <? 0 then -1 else priv c, al)
  end.

(** * The abstract image a sparse file is written as *)

Section spec.
Context (e : env).

Definition payload_bytes (b : backed_block) : list Z :=
  map (payload e (bb_kind b)) (seqZ 0 (bb_len b)).

(** The chunk a backed block becomes. *)
Definition block_chunk (bs : Z) (b : backed_block) : chunk :=
  match bb_kind b with
  | BACKED_BLOCK_FILL v => ChunkFill v (DIV_ROUND_UP (bb_len b) bs)
  | _ => ChunkRaw (pad_to bs (payload_bytes b))
  end.

Definition gap_chunk (from to : Z) : list chunk :=
  if from <? to then [ChunkSkip (to - from)] else [].

Fixpoint chunks_of (bs : Z) (l : list backed_block) (last_block : Z) : list chunk :=
  match l with
  | [] => []
  | b :: l =>
      gap_chunk last_block (bb_block b) ++ block_chunk bs b :: chunks_of bs l (bb_end bs b)
  end.

(** The first block behind the chain [l] that starts at [lo]. *)
Definition chain_end (bs lo : Z) (l : list backed_block) : Z :=
  foldl (fun _ b => bb_end bs b) lo l.

Definition sf_blocks_total (s : sparse_file) : Z := DIV_ROUND_UP (sf_len s) (sf_block_size s).

Definition file_chunks (s : sparse_file) : list chunk :=
  let bs := sf_block_size s in
  let l := data_blocks (sf_blocks s) in
  chunks_of bs l 0 ++ gap_chunk (chain_end bs 0 l) (sf_blocks_total s).

Definition chunks_bytes (bs : Z) (cs : list chunk) : list Z := cs ≫= chunk_bytes bs.

Definition chunks_crc (bs : Z) (cs : list chunk) (crc : Z) : Z :=
  foldl (fun c k => chunk_crc bs k c) crc cs.

(** The bytes that [sparse_file_callback] and [sparse_file_write] put out, as the
    code computes them: a fill that is not a whole number of blocks becomes a
    chunk of whole blocks, and the checksum leaves out holes and counts one block
    of a fill.  Both differ from what sparse.h says; where fills are whole blocks
    the chunks expand to the image ([file_chunks_expand]), and without holes and
    longer fills the checksum is that of the expanded image ([file_crc]). *)
Definition sparse_image (s : sparse_file) (crc : bool) : list Z :=
  let bs := sf_block_size s in
  let cs := file_chunks s in
  sparse_header_bytes (image_header bs (sf_len s) (Z.of_nat (length cs)) crc)
  ++ chunks_bytes bs cs
  ++ (if crc then chunk_bytes bs (ChunkCrc (chunks_crc bs cs 0)) else []).

(** ** When a sparse file can be written *)

(** The data behind the block can be mapped, and fits into one chunk. *)
Definition block_writable (bs : Z) (b : backed_block) : Prop :=
  match bb_kind b with
  | BACKED_BLOCK_DATA _ => True
  | BACKED_BLOCK_FILE f off => open_errno e f = 0 /\ file_mmap_errno e f off (bb_len b) = 0
  | BACKED_BLOCK_FD fd off => fd_mmap_errno e fd off (bb_len b) = 0
  | BACKED_BLOCK_FILL _ => True
  end /\
  match bb_kind b with
  | BACKED_BLOCK_FILL _ => True
  | _ => CHUNK_HEADER_LEN + ALIGN (bb_len b) bs < 2 ^ 32
  end.

End spec.

(** The length is a whole number of blocks and all blocks lie inside it. *)
Record sf_wf (s : sparse_file) : Prop := {
  sfw_list : bbl_wf (sf_blocks s);
  sfw_bs : bbl_block_size (sf_blocks s) = sf_block_size s;
  sfw_len : sf_len s = sf_blocks_total s * sf_block_size s;
  sfw_fits : chain_end (sf_block_size s) 0 (data_blocks (sf_blocks s)) <= sf_blocks_total s;
  sfw_total : 0 <= sf_blocks_total s < 2 ^ 32 }.

(** * Proofs: counting *)

Lemma bbs_ok s : sf_wf s -> block_size_ok (sf_block_size s).
Proof. intros [[Hbs _ _ _] <- _ _ _]. done. Qed.

Lemma sf_chain s : sf_wf s -> chain (sf_block_size s) 0 (data_blocks (sf_blocks s)).
Proof. intros [[_ Hc _ _] <- _ _ _]. done. Qed.

Lemma chain_end_ge bs lo l : block_size_ok bs -> chain bs lo l -> lo <= chain_end bs lo l.
Proof.
  intros Hbs. revert lo; induction l as [|b l IH]; intros lo; simpl; [lia|].
  intros (? & Hb & Hl). pose proof (bb_end_gt bs Hbs b Hb).
  etransitivity; [|by apply IH]. lia.
Qed.

Lemma chain_end_lt bs lo l : lo < 2 ^ 32 -> chain bs lo l -> chain_end bs lo l < 2 ^ 32.
Proof.
  revert lo; induction l as [|b l IH]; intros lo Hlo; simpl; [done|].
  intros (? & Hb & Hl). by apply IH; [apply Hb|].
Qed.

Lemma chain_end_le bs lo hi l : lo <= hi -> ends_below bs hi l -> chain_end bs lo l <= hi.
Proof. intros Hlo Hl. revert lo Hlo. induction Hl; intros lo Hlo; simpl; auto. Qed.

Lemma chain_ends_below bs lo l :
  block_size_ok bs -> chain bs lo l -> ends_below bs (chain_end bs lo l) l.
Proof.
  intros Hbs. revert lo; induction l as [|b l IH]; intros lo; [constructor|].
  intros (_ & Hb & Hl). constructor; [|by apply IH].
  exact (chain_end_ge bs (bb_end bs b) l Hbs Hl).
Qed.

Lemma length_gap_chunk a b : Z.of_nat (length (gap_chunk a b)) <= Z.max 0 (b - a).
Proof. unfold gap_chunk. destruct (Z.ltb_spec a b); simpl; lia. Qed.

(** Every chunk covers at least one block. *)
Lemma length_chunks_of e bs l lo :
  block_size_ok bs -> chain bs lo l ->
  Z.of_nat (length (chunks_of e bs l lo)) <= chain_end bs lo l - lo.
Proof.
  intros Hbs. revert lo; induction l as [|b l IH]; intros lo Hch; [simpl; lia|].
  destruct Hch as (Hlo & Hb & Hl). cbn [chunks_of]. rewrite length_app. cbn [length].
  specialize (IH _ Hl). pose proof (bb_end_gt bs Hbs b Hb).
  pose proof (length_gap_chunk lo (bb_block b)).
  change (chain_end bs lo (b :: l)) with (chain_end bs (bb_end bs b) l). lia.
Qed.

Lemma length_file_chunks e s : sf_wf s -> Z.of_nat (length (file_chunks e s)) <= sf_blocks_total s.
Proof.
  intros Hwf. pose proof (bbs_ok s Hwf) as Hbs. pose proof (sf_chain s Hwf) as Hch.
  unfold file_chunks. rewrite length_app.
  pose proof (length_chunks_of e _ _ 0 Hbs Hch).
  pose proof (length_gap_chunk (chain_end (sf_block_size s) 0 (data_blocks (sf_blocks s)))
    (sf_blocks_total s)).
  destruct Hwf. lia.
Qed.

Lemma count_chunks_loop_spec e bs l lo n :
  block_size_ok bs -> chain bs lo l -> 0 <= n -> 0 <= lo ->
  n + chain_end bs lo l - lo < 2 ^ 32 ->
  count_chunks_loop bs l lo n
  = (chain_end bs lo l, n + Z.of_nat (length (chunks_of e bs l lo))).
Proof.
  intros Hbs. revert lo n; induction l as [|b l IH]; intros lo n Hch Hn Hlo Hsum.
  { simpl. f_equal. lia. }
  destruct Hch as (Hlob & Hb & Hl). pose proof (bb_end_gt bs Hbs b Hb).
  pose proof (chain_end_ge bs _ l Hbs Hl) as Hge.
  change (chain_end bs lo (b :: l)) with (chain_end bs (bb_end bs b) l) in *.
  assert (Hend : bb_end bs b < 2 ^ 32) by apply Hb.
  assert (Hlt : chain_end bs (bb_end bs b) l < 2 ^ 32) by (by apply chain_end_lt).
  cbn [count_chunks_loop chunks_of]. fold (bb_end bs b).
  rewrite (u32_small (bb_end bs b)) by (unfold is_u32; lia).
  rewrite length_app. cbn [length]. unfold gap_chunk.
  destruct (Z.ltb_spec lo (bb_block b)).
  - rewrite (u32_small (n + 1)) by (unfold is_u32; lia).
    rewrite u32_small by (unfold is_u32; lia). rewrite IH by (done || lia).
    f_equal. simpl. lia.
  - rewrite u32_small by (unfold is_u32; lia). rewrite IH by (done || lia).
    f_equal. simpl. lia.
Qed.

(** The number in the header is the number of chunks written. *)
Lemma sparse_count_chunks_spec e s :
  sf_wf s -> sparse_count_chunks s = Z.of_nat (length (file_chunks e s)).
Proof.
  intros Hwf. pose proof (length_file_chunks e s Hwf) as Hlen.
  pose proof (bbs_ok s Hwf) as Hbs. pose proof (sf_chain s Hwf) as Hch.
  pose proof Hwf as [_ _ _ Hfits Htot].
  unfold sparse_count_chunks. rewrite (count_chunks_loop_spec e) by (done || lia).
  unfold file_chunks in *. rewrite length_app in *. unfold gap_chunk in *.
  fold (sf_blocks_total s).
  destruct (Z.ltb_spec (chain_end (sf_block_size s) 0 (data_blocks (sf_blocks s)))
    (sf_blocks_total s)).
  - simpl length in *. rewrite u32_small by (unfold is_u32; lia). lia.
  - simpl length. lia.
Qed.

(** * Proofs: writing in sparse mode *)

Section write_proofs.
Context {F : Type} `{SinkLaws F}.
Context (e : env).

Lemma length_payload_bytes b : 0 <= bb_len b -> Z.of_nat (length (payload_bytes e b)) = bb_len b.
Proof using. intros. unfold payload_bytes. rewrite length_map, length_seqZ. lia. Qed.

Definition written_crc (use : bool) (bs : Z) (cs : list chunk) (crc : Z) : Z :=
  if use then chunks_crc bs cs crc else crc.

Lemma sparse_file_write_block_spec out l b :
  sparse_ops out = true -> block_size_ok (of_block_size out) ->
  node_ok (of_block_size out) b -> block_writable e (of_block_size out) b ->
  sink_rep (file out) l ->
  exists out', sparse_file_write_block e out b = Done (out', 0) /\
    emitted out l (chunk_bytes (of_block_size out) (block_chunk e (of_block_size out) b))
      (written_crc (use_crc out) (of_block_size out) [block_chunk e (of_block_size out) b] (crc32 out))
      out'.
Proof.
  intros Hsp Hbs Hb [Hmap Hfit] Hrep. set (bs := of_block_size out) in *.
  assert (Hlen : 0 < bb_len b) by apply Hb.
  assert (Hdata : forall d, d = payload_bytes e b -> CHUNK_HEADER_LEN + ALIGN (bb_len b) bs < 2 ^ 32 ->
    exists out', write_data_chunk out d = Done (out', 0) /\
      emitted out l (chunk_bytes bs (ChunkRaw (pad_to bs (payload_bytes e b))))
       (written_crc (use_crc out) bs [ChunkRaw (pad_to bs (payload_bytes e b))] (crc32 out)) out').
  { intros d -> Hf. unfold write_data_chunk. rewrite Hsp.
    apply write_sparse_data_chunk_spec; [done|apply Hbs|].
    rewrite length_payload_bytes by lia. done. }
  unfold sparse_file_write_block, block_chunk.
  destruct (bb_kind b) as [data|f off|fd off|v] eqn:Hk.
  - apply Hdata; [|done]. unfold payload_bytes. by rewrite Hk.
  - destruct Hmap as [Ho Hm]. unfold write_file_chunk. rewrite Ho, Hm. simpl.
    apply Hdata; [|done]. unfold payload_bytes. by rewrite Hk.
  - unfold write_fd_chunk. rewrite Hmap. simpl.
    apply Hdata; [|done]. unfold payload_bytes. by rewrite Hk.
  - unfold write_fill_chunk. rewrite Hsp.
    apply write_sparse_fill_chunk_spec; [done|apply Hbs|lia|].
    pose proof (node_end bs b Hb) as He. pose proof (node_block bs b Hb).
    unfold bb_end in He. fold bs. lia.
Qed.

Lemma written_crc_cons use bs c cs crc :
  written_crc use bs (c :: cs) crc = written_crc use bs cs (written_crc use bs [c] crc).
Proof using. by destruct use. Qed.

Lemma written_crc_app use bs cs1 cs2 crc :
  written_crc use bs (cs1 ++ cs2) crc = written_crc use bs cs2 (written_crc use bs cs1 crc).
Proof using. destruct use; [|done]. apply foldl_app. Qed.

Lemma gap_spec out l a b :
  sparse_ops out = true -> block_size_ok (of_block_size out) ->
  0 <= a -> b < 2 ^ 32 -> sink_rep (file out) l ->
  exists out' r,
    (if a <? b then write_skip_chunk out (u32 (b - a) * of_block_size out) else Done (out, 0))
    = Done (out', r) /\
    emitted out l (chunks_bytes (of_block_size out) (gap_chunk a b))
      (written_crc (use_crc out) (of_block_size out) (gap_chunk a b) (crc32 out)) out'.
Proof.
  intros Hsp Hbs Ha Hb Hrep. unfold gap_chunk. destruct (Z.ltb_spec a b).
  - rewrite u32_small by (unfold is_u32; lia). unfold write_skip_chunk. rewrite Hsp.
    destruct (write_sparse_skip_chunk_spec out l (b - a)) as (out' & -> & Hem);
      [done|apply Hbs|unfold is_u32; lia|].
    exists out', 0. split; [done|]. unfold chunks_bytes. cbn [mbind list_bind].
    rewrite app_nil_r. by destruct (use_crc out).
  - exists out, 0. split; [done|]. constructor; try done.
    + simpl. by rewrite app_nil_r.
    + by destruct (use_crc out).
Qed.

Lemma write_blocks_loop_spec l out lo w :
  sparse_ops out = true -> block_size_ok (of_block_size out) ->
  chain (of_block_size out) lo l -> 0 <= lo ->
  Forall (block_writable e (of_block_size out)) l -> sink_rep (file out) w ->
  exists out', write_blocks_loop e (of_block_size out) l lo out
      = Done (out', 0, chain_end (of_block_size out) lo l) /\
    emitted out w (chunks_bytes (of_block_size out) (chunks_of e (of_block_size out) l lo))
      (written_crc (use_crc out) (of_block_size out)
         (chunks_of e (of_block_size out) l lo) (crc32 out)) out'.
Proof.
  intros Hsp Hbs. revert out lo w Hsp Hbs.
  induction l as [|b l IH]; intros out lo w Hsp Hbs Hch Hlo Hwr Hrep.
  { exists out. split; [done|]. constructor; try done.
    - simpl. by rewrite app_nil_r.
    - by destruct (use_crc out). }
  destruct Hch as (Hlob & Hb & Hl). apply Forall_cons in Hwr as [Hwb Hwr].
  pose proof (bb_end_gt _ Hbs b Hb) as Hgt. pose proof (node_end _ _ Hb) as Hend.
  cbn [write_blocks_loop chunks_of].
  destruct (gap_spec out w lo (bb_block b) Hsp Hbs) as (o1 & r & -> & Hem1); [lia..|done|].
  cbn [obind]. pose proof Hem1 as [Hr1 Hc1 Hb1 _ Hs1 Hu1].
  destruct (sparse_file_write_block_spec o1 _ b ltac:(congruence) ltac:(congruence)
    ltac:(by rewrite Hb1) ltac:(by rewrite Hb1) Hr1) as (o2 & -> & Hem2).
  cbn [obind]. rewrite Hb1, Hu1, Hc1 in Hem2.
  pose proof (emitted_trans _ _ _ _ _ _ _ _ Hem1 Hem2) as Hem12.
  pose proof Hem12 as [Hr2 Hc2 Hb2 _ Hs2 Hu2].
  fold (bb_end (of_block_size out) b). rewrite u32_small by (unfold is_u32; lia).
  simpl negb. cbv iota. rewrite <- Hb2.
  destruct (IH o2 (bb_end (of_block_size o2) b) _ ltac:(congruence) ltac:(congruence)
    ltac:(by rewrite Hb2) ltac:(rewrite Hb2; lia) ltac:(by rewrite Hb2) Hr2)
    as (o3 & E & Hem3).
  exists o3. split; [by rewrite E|].
  pose proof (emitted_trans _ _ _ _ _ _ _ _ Hem12 Hem3) as Hem.
  rewrite Hb2, Hu2, Hc2 in *. rewrite written_crc_app, written_crc_cons.
  unfold chunks_bytes in *. rewrite bind_app. cbn [mbind list_bind].
  by rewrite <- app_assoc in Hem.
Qed.

(** [write_all_blocks] in sparse mode emits the chunks of the file. *)
Lemma write_all_blocks_spec s out w :
  sf_wf s -> Forall (block_writable e (sf_block_size s)) (data_blocks (sf_blocks s)) ->
  sparse_ops out = true -> of_block_size out = sf_block_size s -> sink_rep (file out) w ->
  exists out', write_all_blocks e s out = Done (out', 0) /\
    emitted out w (chunks_bytes (sf_block_size s) (file_chunks e s))
      (written_crc (use_crc out) (sf_block_size s) (file_chunks e s) (crc32 out)) out'.
Proof.
  intros Hwf Hwr Hsp Hob Hrep. pose proof (bbs_ok s Hwf) as Hbs.
  pose proof (sf_chain s Hwf) as Hch. pose proof Hwf as [_ _ Hlen Hfits Htot].
  unfold write_all_blocks. rewrite <- Hob in Hbs, Hch, Hwr.
  destruct (write_blocks_loop_spec _ out 0 w Hsp Hbs Hch ltac:(lia) Hwr Hrep)
    as (o1 & E1 & Hem1). rewrite <- Hob, E1. cbn [obind]. simpl negb. cbv iota.
  rewrite <- Hob in *. set (bs := of_block_size out) in *.
  pose proof (chain_end_ge bs 0 _ Hbs Hch).
  set (ce := chain_end bs 0 (data_blocks (sf_blocks s))) in *.
  assert (Hpad : sf_len s - ce * bs = (sf_blocks_total s - ce) * bs) by lia.
  rewrite Hpad. destruct Hbs as [[? ?] ?].
  destruct (Z.ltb_spec ((sf_blocks_total s - ce) * bs) 0); [nia|].
  pose proof Hem1 as [Hr1 Hc1 Hb1 _ Hs1 Hu1].
  destruct (gap_spec o1 _ ce (sf_blocks_total s) ltac:(congruence) ltac:(by rewrite Hb1)
    ltac:(lia) ltac:(lia) Hr1) as (o2 & r & E2 & Hem2).
  rewrite Hb1, Hu1, Hc1, <- written_crc_app in Hem2. fold bs in Hem2.
  pose proof (emitted_trans _ _ _ _ _ _ _ _ Hem1 Hem2) as Hem.
  unfold chunks_bytes in Hem. rewrite <- bind_app in Hem.
  rewrite Hb1 in E2. fold bs in E2.
  exists o2. split.
  - destruct (Z.ltb_spec ce (sf_blocks_total s)).
    + rewrite u32_small in E2 by (unfold is_u32; lia).
      destruct (Z.ltb_spec 0 ((sf_blocks_total s - ce) * bs)); [|nia].
      by rewrite E2.
    + destruct (Z.ltb_spec 0 ((sf_blocks_total s - ce) * bs)); [nia|].
      by injection E2 as <- <-.
  - unfold file_chunks. rewrite <- Hob. done.
Qed.

(** The whole of [sparse_file_callback] / [sparse_file_write] in sparse mode. *)
Lemma sparse_file_output_spec al s f w crc :
  sf_wf s -> Forall (block_writable e (sf_block_size s)) (data_blocks (sf_blocks s)) ->
  can_open al -> sink_rep f w ->
  exists f' al', sparse_file_output e al s f true crc = Done (0, f', al') /\
    sink_rep f' (w ++ sparse_image e s crc).
Proof.
  intros Hwf Hwr Hal Hrep. unfold sparse_file_output.
  rewrite (sparse_count_chunks_spec e) by done.
  destruct (output_file_open_spec al f w (sf_block_size s) (sf_len s)
    (Z.of_nat (length (file_chunks e s))) crc Hal Hrep)
    as (out & al' & -> & Hr0 & Hb0 & Hl0 & Hs0 & Hu0 & Hc0).
  destruct (write_all_blocks_spec s out _ Hwf Hwr Hs0 Hb0 Hr0) as (o1 & -> & Hem1).
  cbn [obind]. pose proof Hem1 as [Hr1 Hc1 Hb1 _ Hs1 Hu1].
  unfold output_file_close, write_end_chunk. rewrite Hs1, Hs0.
  destruct (write_sparse_end_chunk_spec o1 _ Hr1) as (o2 & -> & Hem2). cbn [obind].
  eexists _, _. split; [reflexivity|]. unfold sparse_image.
  pose proof (em_rep _ _ _ _ _ Hem2) as Hr2.
  rewrite Hu1, Hu0, Hc1, Hb1, Hb0, Hu0, Hc0 in Hr2.
  unfold written_crc in Hr2. rewrite <- !app_assoc in Hr2.
  by destruct crc.
Qed.

End write_proofs.

(** * Proofs: measuring *)

Lemma s64_idemp a b : s64 (s64 a + b) = s64 (a + b).
Proof.
  unfold s64. f_equal.
  replace ((a + 2 ^ 63) mod 2 ^ 64 - 2 ^ 63 + b + 2 ^ 63)
    with ((a + 2 ^ 63) mod 2 ^ 64 + b) by lia.
  rewrite Z.add_mod_idemp_l by lia. f_equal. lia.
Qed.

#[export] Program Instance counter_sink : SinkLaws (callback_file Z) := {
  sink_rep c l := c = counter_file (s64 (Z.of_nat (length l))) }.
Next Obligation.
  intros c l d ->.
  exists (counter_file (s64 (s64 (Z.of_nat (length l)) + Z.of_nat (length d)))), 0.
  split; [reflexivity|]. split; [lia|].
  rewrite length_app, s64_idemp. do 2 f_equal. lia.
Qed.

Lemma sparse_file_len_spec e al s crc :
  sf_wf s -> Forall (block_writable e (sf_block_size s)) (data_blocks (sf_blocks s)) ->
  can_open al -> exists al', sparse_file_len e al s true crc
    = Done (s64 (Z.of_nat (length (sparse_image e s crc))), al').
Proof.
  intros Hwf Hwr Hal. assert (Hr0 : sink_rep (counter_file 0) []) by reflexivity.
  destruct (sparse_file_output_spec e al s (counter_file 0) [] crc Hwf Hwr Hal Hr0)
    as (f' & al' & E & Hrep). simpl in Hrep.
  unfold sparse_file_output in E. unfold sparse_file_len.
  destruct (output_file_open _ _ _ _ _ _ _) as [[out|f] a]; [|discriminate].
  destruct (write_all_blocks e s out) as [[o r]|]; [|discriminate]. cbn [obind] in *.
  destruct (output_file_close o) as [f|]; [|discriminate]. cbn [obind] in *.
  injection E as -> -> ->. exists al'. by rewrite Hrep.
Qed.

(** * Proofs: the splitting loop of [sparse_file_write] *)

(** No allocation from now on fails. *)
Definition no_oom (al : allocator) : Prop := forall p, next_addr al <= p -> oom al p = false.

(** How many nodes a node of length [len] becomes, at most. *)
Definition split_fuel (m : Z) (l : list backed_block) : nat :=
  foldr (fun b n => (Z.to_nat (bb_len b / m) + 1 + n)%nat) O l.

Lemma split_fuel_second bs p m b :
  0 < m < bb_len b ->
  (Z.to_nat (bb_len (second_half bs p b m) / m) + 1 = Z.to_nat (bb_len b / m))%nat.
Proof.
  intros Hm. simpl. replace (bb_len b) with (bb_len b - m + 1 * m) at 2 by lia.
  rewrite Z.div_add by lia. pose proof (Z.div_pos (bb_len b - m) m). lia.
Qed.

(** A property of nodes that cutting off [m] bytes preserves. *)
Definition split_closed (bs m : Z) (P : backed_block -> Prop) : Prop :=
  forall p b, 0 < m < bb_len b -> P b -> P (set_len b m) /\ P (second_half bs p b m).

(** The list [bbl'] describes the same image as [bbl] and, from the part
    [suf'] on, has no block longer than [m]. *)
Record split_result (m : Z) (bbl : backed_block_list) (pre suf' : list backed_block)
    (bbl' : backed_block_list) : Prop := {
  sr_wf : bbl_wf bbl';
  sr_bs : bbl_block_size bbl' = bbl_block_size bbl;
  sr_image env off : image env (bbl_block_size bbl) (data_blocks bbl') off
                     = image env (bbl_block_size bbl) (data_blocks bbl) off;
  sr_shape : data_blocks bbl' = pre ++ suf';
  sr_end lo : chain_end (bbl_block_size bbl) lo (data_blocks bbl')
              = chain_end (bbl_block_size bbl) lo (data_blocks bbl);
  sr_small : Forall (fun b => bb_len b <= m) suf';
  sr_keeps P : split_closed (bbl_block_size bbl) m P ->
    Forall P (data_blocks bbl) -> Forall P (data_blocks bbl') }.

Lemma chain_end_split bs lo p b q pre rest :
  block_size_ok bs -> node_ok bs b -> 0 < q * bs < bb_len b ->
  chain_end bs lo (pre ++ set_len b (q * bs) :: second_half bs p b (q * bs) :: rest)
  = chain_end bs lo (pre ++ b :: rest).
Proof. intros. unfold chain_end. rewrite !foldl_app. simpl. by rewrite second_half_end. Qed.

Lemma backed_block_split_alloc al bbl p max_len ret al' bbl' :
  backed_block_split al bbl p max_len = Done (ret, al', bbl') ->
  oom al' = oom al /\ next_addr al <= next_addr al'.
Proof.
  unfold backed_block_split, malloc. destruct (split_at _ _) as [[[? ?] ?]|]; [|done].
  destruct (_ <=? _); [intros [= _ <- _]; split; [done|lia]|].
  destruct (oom al (next_addr al)); intros [= _ <- _]; simpl; split; done || lia.
Qed.

Lemma NoDup_split_unique (pre1 pre2 post1 post2 : list backed_block) b1 b2 :
  NoDup (addrs (pre1 ++ b1 :: post1)) ->
  pre1 ++ b1 :: post1 = pre2 ++ b2 :: post2 -> bb_addr b1 = bb_addr b2 ->
  pre1 = pre2 /\ b1 = b2 /\ post1 = post2.
Proof.
  intros Hnd E Ha.
  pose proof (split_at_first (bb_addr b1) pre1 b1 post1 Hnd eq_refl) as E1.
  rewrite E in Hnd, E1. rewrite Ha in E1.
  rewrite (split_at_first (bb_addr b2) pre2 b2 post2 Hnd eq_refl) in E1.
  by injection E1 as -> -> ->.
Qed.

Lemma iter_next_spec bbl pre b post :
  NoDup (addrs (data_blocks bbl)) -> data_blocks bbl = pre ++ b :: post ->
  backed_block_iter_next bbl (bb_addr b) = Done (bb_addr <$> head post).
Proof.
  intros Hnd E. unfold backed_block_iter_next. rewrite E in *. by rewrite split_at_first.
Qed.

Lemma split_loop_spec fuel al bbl pre suf :
  bbl_wf bbl -> alloc_ok al (data_blocks bbl) -> no_oom al ->
  bbl_block_size bbl <= MAX_BACKED_BLOCK_SIZE ->
  data_blocks bbl = pre ++ suf ->
  (split_fuel (ALIGN_DOWN MAX_BACKED_BLOCK_SIZE (bbl_block_size bbl)) suf <= fuel)%nat ->
  exists al' bbl' suf', split_loop fuel al bbl (bb_addr <$> head suf) = Done (0, al', bbl') /\
    split_result (ALIGN_DOWN MAX_BACKED_BLOCK_SIZE (bbl_block_size bbl)) bbl pre suf' bbl' /\
    oom al' = oom al /\ next_addr al <= next_addr al' /\ alloc_ok al' (data_blocks bbl').
Proof.
  intros Hwf Hal Hoom Hmax. revert al bbl pre suf Hwf Hal Hoom Hmax.
  induction fuel as [|fuel IH]; intros al bbl pre suf Hwf Hal Hoom Hmax E Hfuel;
    destruct suf as [|b post].
  1,3: exists al, bbl, []; split; [done|]; split; [|split; [done|split; [lia|done]]];
    constructor; done || by constructor.
  { simpl in Hfuel. lia. }
  pose proof (wf_nodup bbl Hwf) as Hnd. pose proof (wf_bs bbl Hwf) as Hbs.
  set (m := ALIGN_DOWN MAX_BACKED_BLOCK_SIZE (bbl_block_size bbl)) in *.
  assert (Hm : 0 < m).
  { destruct Hbs as [[? ?] _]. unfold m, ALIGN_DOWN.
    assert (1 <= MAX_BACKED_BLOCK_SIZE / bbl_block_size bbl)
      by (apply Z.div_le_lower_bound; lia). nia. }
  cbn [split_loop fmap option_fmap option_map head].
  destruct (backed_block_split_spec al bbl (bb_addr b) MAX_BACKED_BLOCK_SIZE Hwf Hal)
    as (al1 & bbl1 & E1 & [Hwf1 Hbs1 Himg1 Hshape1] & Hal1).
  { apply Hoom. lia. }
  { rewrite E. unfold addrs. rewrite map_app. apply elem_of_app. right.
    by apply elem_of_cons; left. }
  { split; [done|reflexivity]. }
  destruct (backed_block_split_alloc _ _ _ _ _ _ _ E1) as [Hoom1 Hna1].
  rewrite E1. cbn [obind]. simpl negb. cbv iota.
  assert (Hoom1' : no_oom al1). { intros q Hq. rewrite Hoom1. apply Hoom. lia. }
  (* the node [b] of the new list and what follows it *)
  assert (Hbn : node_ok (bbl_block_size bbl) b).
  { pose proof (wf_chain bbl Hwf) as Hch. apply (chain_nodes _ Hbs) in Hch.
    rewrite E in Hch. by apply Forall_app in Hch as [_ [? _]%Forall_cons]. }
  assert (Hmq : m = MAX_BACKED_BLOCK_SIZE / bbl_block_size bbl * bbl_block_size bbl)
    by (unfold m, ALIGN_DOWN; lia).
  assert (Hnew : exists b1 post1, data_blocks bbl1 = pre ++ b1 :: post1 /\
    bb_addr b1 = bb_addr b /\ bb_len b1 <= m /\ (split_fuel m post1 <= fuel)%nat /\
    (forall lo, chain_end (bbl_block_size bbl) lo (data_blocks bbl1)
      = chain_end (bbl_block_size bbl) lo (data_blocks bbl)) /\
    forall P, split_closed (bbl_block_size bbl) m P ->
      Forall P (data_blocks bbl) -> Forall P (data_blocks bbl1)).
  { destruct Hshape1 as (pre0 & b0 & post0 & E0 & Ha0 & Hcase).
    rewrite E in E0, Hnd. symmetry in Ha0.
    destruct (NoDup_split_unique _ _ _ _ _ _ Hnd E0 Ha0) as (<- & <- & <-).
    cbn [split_fuel foldr] in Hfuel. fold (split_fuel m post) in Hfuel. fold m in Hcase.
    destruct Hcase as [[Hle ->]|(p' & Hlt & ->)].
    - exists b, post. split; [done|]. split; [done|]. split; [done|]. split; [lia|]. by split.
    - eexists (set_len b m), _. split; [reflexivity|]. split; [done|]. split; [simpl; lia|].
      split; [|split].
      + cbn [split_fuel foldr]. fold (split_fuel m post).
        pose proof (split_fuel_second (bbl_block_size bbl) p' m b ltac:(lia)). lia.
      + intros lo. rewrite E, Hmq. apply chain_end_split; done || lia.
      + intros P HP. rewrite E. intros [? [Hb ?]%Forall_cons]%Forall_app.
        apply Forall_app. split; [done|]. apply (HP p') in Hb as [? ?]; [|lia]. by repeat constructor. }
  destruct Hnew as (b1 & post1 & Eq1 & Ha1 & Hlen1 & Hfuel1 & Hend1 & Hkeep1).
  rewrite <- Ha1, (iter_next_spec bbl1 pre b1 post1) by (done || apply Hwf1). cbn [obind].
  destruct (IH al1 bbl1 (pre ++ [b1]) post1 Hwf1 Hal1 Hoom1')
    as (al2 & bbl2 & suf2 & -> & [Hwf2 Hbs2 Himg2 Hsh2 Hend2 Hsm2 Hkeep2] & Hoom2 & Hna2 & Hal2).
  { by rewrite Hbs1. }
  { by rewrite <- app_assoc. }
  { by rewrite Hbs1. }
  exists al2, bbl2, (b1 :: suf2). split; [done|].
  split; [|split; [congruence|split; [lia|done]]].
  rewrite Hbs1 in *. constructor; [done|done|..].
  - intros ev off. by rewrite Himg2, Himg1.
  - by rewrite Hsh2, <- app_assoc.
  - intros lo. by rewrite Hend2, Hend1.
  - by constructor.
  - auto.
Qed.

(** * Proofs: [sparse_file_write] *)

(** Every file can be opened and mapped. *)
Definition env_total (e : env) : Prop :=
  (forall f, open_errno e f = 0) /\ (forall f off n, file_mmap_errno e f off n = 0) /\
  (forall fd off n, fd_mmap_errno e fd off n = 0).

Lemma small_writable e bs b :
  env_total e -> 0 < bs <= MAX_BACKED_BLOCK_SIZE -> bb_len b <= MAX_BACKED_BLOCK_SIZE ->
  block_writable e bs b.
Proof.
  intros (Ho & Hf & Hd) Hbs Hlen. unfold block_writable.
  pose proof (div_round_up_bounds (bb_len b) bs). unfold ALIGN, CHUNK_HEADER_LEN, MAX_BACKED_BLOCK_SIZE in *.
  destruct (bb_kind b); repeat split; auto; lia.
Qed.

Lemma no_oom_can_open al : no_oom al -> can_open al.
Proof. intros H. repeat split; apply H; lia. Qed.

Lemma no_oom_later al al' : no_oom al -> oom al' = oom al -> next_addr al <= next_addr al' -> no_oom al'.
Proof. intros H E Hle p Hp. rewrite E. apply H. lia. Qed.

(** What [sparse_file_write] does before it opens the output: long blocks are
    split, which changes nothing in what the file describes. *)
Record presplit (s s' : sparse_file) : Prop := {
  ps_file : s' = set_blocks s (sf_blocks s');
  ps_wf : sf_wf s';
  ps_image ev off : image ev (sf_block_size s) (data_blocks (sf_blocks s')) off
                    = image ev (sf_block_size s) (data_blocks (sf_blocks s)) off;
  ps_small : Forall (fun b => bb_len b <= MAX_BACKED_BLOCK_SIZE) (data_blocks (sf_blocks s'));
  ps_keeps P :
    split_closed (sf_block_size s) (ALIGN_DOWN MAX_BACKED_BLOCK_SIZE (sf_block_size s)) P ->
    Forall P (data_blocks (sf_blocks s)) -> Forall P (data_blocks (sf_blocks s')) }.

Definition write_fuel (s : sparse_file) : nat :=
  split_fuel (ALIGN_DOWN MAX_BACKED_BLOCK_SIZE (sf_block_size s)) (data_blocks (sf_blocks s)).

(** The length of the file is always enough fuel. *)
Lemma write_fuel_le s :
  sf_wf s -> sf_block_size s <= MAX_BACKED_BLOCK_SIZE -> Z.of_nat (write_fuel s) <= sf_len s.
Proof.
  intros Hwf Hmax. pose proof (bbs_ok s Hwf) as Hbs. pose proof (sf_chain s Hwf) as Hch.
  pose proof Hwf as [_ _ Hlen Hfit _]. rewrite Hlen. unfold write_fuel.
  set (bs := sf_block_size s) in *. set (m := ALIGN_DOWN MAX_BACKED_BLOCK_SIZE bs).
  assert (Hm : 2 <= m).
  { unfold m, ALIGN_DOWN. destruct Hbs as [[? _] H4].
    assert (1 <= MAX_BACKED_BLOCK_SIZE / bs) by (apply Z.div_le_lower_bound; lia).
    assert (4 <= bs) by (Z.div_mod_to_equations; lia). nia. }
  enough (Hall : forall l lo, chain bs lo l ->
    Z.of_nat (split_fuel m l) <= (chain_end bs lo l - lo) * bs).
  { specialize (Hall _ _ Hch). destruct Hbs as [[? _] _]. nia. }
  induction l as [|b l IH]; intros lo Hl; [simpl; lia|]. destruct Hl as (Hlo & Hb & Hl).
  specialize (IH _ Hl). pose proof Hbs as [[Hb0 _] _].
  change (chain_end bs lo (b :: l)) with (chain_end bs (bb_end bs b) l).
  cbn [split_fuel foldr]. fold (split_fuel m l).
  pose proof (div_round_up_bounds (bb_len b) bs Hb0). destruct Hb as [_ Hpos _ _].
  assert (0 <= bb_len b / m /\ bb_len b / m + 1 <= bb_len b) by (Z.div_mod_to_equations; nia).
  unfold bb_end in *. nia.
Qed.

Lemma split_file_spec fuel al s :
  sf_wf s -> alloc_ok al (data_blocks (sf_blocks s)) -> no_oom al ->
  sf_block_size s <= MAX_BACKED_BLOCK_SIZE -> (write_fuel s <= fuel)%nat ->
  exists al' s',
    split_loop fuel al (sf_blocks s) (backed_block_iter_new (sf_blocks s))
    = Done (0, al', sf_blocks s') /\
    presplit s s' /\ no_oom al'.
Proof.
  intros Hwf Hal Hoom Hmax Hfuel. pose proof (bbs_ok s Hwf) as [[Hb1 Hb2] _].
  pose proof Hwf as [Hl Hb Hlen Hfit Htot]. unfold write_fuel in Hfuel. rewrite <- Hb in Hmax, Hfuel.
  destruct (split_loop_spec fuel al (sf_blocks s) [] (data_blocks (sf_blocks s)) Hl Hal Hoom Hmax
    eq_refl Hfuel) as (al1 & bbl1 & suf & E & [R1 R2 R3 R4 R5 R6 R7] & Hoom1 & Hna1 & Hal1).
  exists al1, (set_blocks s bbl1). split; [exact E|]. split; [|by eapply no_oom_later].
  rewrite Hb in *. constructor; try done.
  - constructor; simpl; try done. by rewrite R5.
  - simpl. rewrite R4. simpl. eapply Forall_impl; [exact R6|]. simpl. intros b Hbl.
    pose proof (align_down_le MAX_BACKED_BLOCK_SIZE (sf_block_size s)). lia.
Qed.

Lemma presplit_writable e s s' :
  presplit s s' -> env_total e -> sf_block_size s <= MAX_BACKED_BLOCK_SIZE ->
  Forall (block_writable e (sf_block_size s')) (data_blocks (sf_blocks s')).
Proof.
  intros [Hf Hwf _ Hsmall _] Henv Hmax. pose proof (bbs_ok s' Hwf) as [[? ?] _].
  eapply Forall_impl; [exact Hsmall|]. simpl. intros b Hbl.
  apply small_writable; [done| |done]. split; [lia|]. by rewrite Hf.
Qed.

Lemma sparse_file_write_spec {F} `{SinkLaws F} fuel e al s (f : F) w crc :
  sf_wf s -> alloc_ok al (data_blocks (sf_blocks s)) -> no_oom al -> env_total e ->
  sf_block_size s <= MAX_BACKED_BLOCK_SIZE -> sink_rep f w -> (write_fuel s <= fuel)%nat ->
  exists f' al' s', sparse_file_write fuel e al s f true crc = Done (0, f', al', s') /\
    presplit s s' /\ sink_rep f' (w ++ sparse_image e s' crc).
Proof.
  intros Hwf Hal Hoom Henv Hmax Hrep Hfuel. unfold sparse_file_write.
  destruct (split_file_spec fuel al s Hwf Hal Hoom Hmax Hfuel) as (al1 & s1 & -> & Hps & Hoom1).
  cbn [obind]. simpl negb. cbv iota. rewrite <- (ps_file _ _ Hps).
  destruct (sparse_file_output_spec e al1 s1 f w crc) as (f' & al2 & -> & Hrep'); try done.
  { apply Hps. }
  { by eapply presplit_writable. }
  { by apply no_oom_can_open. }
  cbn [obind]. by exists f', al2, s1.
Qed.
