(* ===== verification/SparseRead.v ===== *)
(** libsparse/sparse_read.cpp: reading a sparse image from a memory buffer or a
    file descriptor, and building a sparse file from an ordinary one. *)

From S2P Require Import Prelude.
From S2P Require Import Crc.
From S2P Require Import BackedBlock.
From S2P Require Import OutputFile.
From S2P Require Import SparseFile.

Local Open Scope Z_scope.
Import SparseCrc.

Definition EOVERFLOW : Z := 75.
Definition COPY_BUF_SIZE : Z := 1024 * 1024.

(** * [class SparseFileSource] *)

Class SparseFileSource (S : Type) := {
  Seek : S -> Z -> S * Z;
  GetOffset : S -> Z;
  Rewind : S -> S * Z;
  AddToSparseFile : S -> allocator -> sparse_file -> Z -> Z -> outcome (Z * allocator * sparse_file);
  ReadValue : S -> Z -> S * (Z + list Z);      (** error, or the bytes read *)
  GetCrc32 : S -> Z -> Z -> outcome (S * Z * Z)  (** source, checksum, result *) }.

(** ** [SparseFileBufSource]: a buffer of the program's memory *)

Record SparseFileBufSource := mk_buf_source {
  buf_start : Z;         (** address of the buffer *)
  buf_bytes : list Z;    (** its contents, [buf_end - buf_start] bytes *)
  buf : Z;               (** the current address *)
  offset : Z }.

Definition buf_end (s : SparseFileBufSource) : Z := buf_start s + Z.of_nat (length (buf_bytes s)).

Definition buf_source (start : Z) (bytes : list Z) : SparseFileBufSource :=
  mk_buf_source start bytes start 0.

Definition AccessOkay (s : SparseFileBufSource) (len : Z) : Z :=
  if len <=? 0 then - EINVAL
  else if buf s <? buf_start s then - EOVERFLOW
  else if buf_end s <=? buf s then - EOVERFLOW
  else if buf_end s - buf s <? len then - EOVERFLOW
  else 0.

Definition buf_advance (s : SparseFileBufSource) (n : Z) : SparseFileBufSource :=
  mk_buf_source (buf_start s) (buf_bytes s) (buf s + n) (s64 (offset s + n)).

(** The [n] bytes at the current address. *)
Definition buf_peek (s : SparseFileBufSource) (n : Z) : list Z :=
  take (Z.to_nat n) (drop (Z.to_nat (buf s - buf_start s)) (buf_bytes s)).

Definition BufSeek (s : SparseFileBufSource) (off : Z) : SparseFileBufSource * Z :=
  let ret := AccessOkay s off in
  if ret <? 0 then (s, ret) else (buf_advance s off, 0).

Definition BufRewind (s : SparseFileBufSource) : SparseFileBufSource * Z :=
  (mk_buf_source (buf_start s) (buf_bytes s) (buf_start s) 0, 0).

Definition BufAddToSparseFile (s : SparseFileBufSource) (al : allocator) (f : sparse_file)
    (len block : Z) : outcome (Z * allocator * sparse_file) :=
  let ret := AccessOkay s len in
  if ret <? 0 then Done (ret, al, f) else sparse_file_add_data al f (buf s) len block.

Definition BufReadValue (s : SparseFileBufSource) (len : Z)
  : SparseFileBufSource * (Z + list Z) :=
  let ret := AccessOkay s len in
  if ret <? 0 then (s, inl ret) else (buf_advance s len, inr (buf_peek s len)).

Definition BufGetCrc32 (s : SparseFileBufSource) (crc len : Z)
  : outcome (SparseFileBufSource * Z * Z) :=
  let ret := AccessOkay s len in
  if ret <? 0 then Done (s, crc, ret)
  else Done (buf_advance s len, sparse_crc32 crc (buf_peek s len), 0).

#[export] Instance BufSource : SparseFileSource SparseFileBufSource := {
  Seek := BufSeek;
  GetOffset := offset;
  Rewind := BufRewind;
  AddToSparseFile := BufAddToSparseFile;
  ReadValue := BufReadValue;
  GetCrc32 := BufGetCrc32 }.

(** ** [SparseFileFdSource]: a file descriptor

    [read(2)] may return less than asked or fail: [fd_events] says what the
    next calls do, and once it is used up they return everything available. *)

Inductive revent := Got (n : nat) | Rerror (errno : Z).

Record SparseFileFdSource := mk_fd_source {
  fd_num : Z;
  fd_data : list Z;
  fd_pos : Z;
  fd_events : list revent }.

(** [read_all] of output_file.cpp: [want] bytes, [acc] read so far. *)
Fixpoint read_all (ev : list revent) (data : list Z) (p want : nat) (acc : list Z)
  : list revent * nat * (Z + list Z) :=
  match want with
  | O => (ev, p, inr acc)
  | _ =>
      match ev with
      | [] =>
          let got := take want (drop p data) in
          if (length got =? want)%nat then ([], (p + want)%nat, inr (acc ++ got))
          else ([], (p + length got)%nat, inl (- EINVAL))
      | Rerror errno :: ev => (ev, p, inl (- errno))
      | Got n :: ev =>
          let got := take (n `min` want) (drop p data) in
          match got with
          | [] => (ev, p, inl (- EINVAL))
          | _ => read_all ev data (p + length got) (want - length got) (acc ++ got)
          end
      end
  end.

Definition FdReadValue (s : SparseFileFdSource) (len : Z) : SparseFileFdSource * (Z + list Z) :=
  let '(ev, p, r) := read_all (fd_events s) (fd_data s) (Z.to_nat (fd_pos s)) (Z.to_nat len) [] in
  (mk_fd_source (fd_num s) (fd_data s) (Z.of_nat p) ev, r).

(** [lseek64(fd, off, SEEK_CUR)]; a negative position is EINVAL. *)
Definition FdSeek (s : SparseFileFdSource) (off : Z) : SparseFileFdSource * Z :=
  if fd_pos s + off <? 0 then (s, - EINVAL)
  else (mk_fd_source (fd_num s) (fd_data s) (fd_pos s + off) (fd_events s), 0).

Definition FdRewind (s : SparseFileFdSource) : SparseFileFdSource * Z :=
  (mk_fd_source (fd_num s) (fd_data s) 0 (fd_events s), 0).

Definition FdGetCrc32 (s : SparseFileFdSource) (crc len : Z)
  : outcome (SparseFileFdSource * Z * Z) :=
  let* (s, crc, ret) :=
    chunk_loop (chunk_fuel len COPY_BUF_SIZE) COPY_BUF_SIZE
      (fun '(s, crc) n =>
         match FdReadValue s n with
         | (s, inl err) => ((s, crc), err)
         | (s, inr bytes) => ((s, sparse_crc32 crc bytes), 0)
         end) (s, crc) len in
  Done (s, crc, ret).

#[export] Instance FdSource : SparseFileSource SparseFileFdSource := {
  Seek := FdSeek;
  GetOffset := fd_pos;
  Rewind := FdRewind;
  AddToSparseFile s al f len block := sparse_file_add_fd al f (fd_num s) (fd_pos s) len block;
  ReadValue := FdReadValue;
  GetCrc32 := FdGetCrc32 }.

(** * Reading the chunks *)

Section reader.
Context {S : Type} `{SparseFileSource S}.

(** What the reader works on; [rs_crc] is [crc_ptr], [None] when null. *)
Record rstate := mk_rstate {
  rs_src : S;
  rs_al : allocator;
  rs_file : sparse_file;
  rs_crc : option Z }.

Definition set_src (st : rstate) (s : S) : rstate :=
  mk_rstate s (rs_al st) (rs_file st) (rs_crc st).
Definition set_rcrc (st : rstate) (c : Z) : rstate :=
  mk_rstate (rs_src st) (rs_al st) (rs_file st) (Some c).

Definition process_raw_chunk (st : rstate) (chunk_size blocks block : Z) : outcome (rstate * Z) :=
  let bs := sf_block_size (rs_file st) in
  let len := s64 (blocks * bs) in
  if negb (chunk_size mod bs =? 0) then Done (st, - EINVAL)
  else if negb (chunk_size / bs =? blocks) then Done (st, - EINVAL)
  else
    let* (ret, al, f) := AddToSparseFile (rs_src st) (rs_al st) (rs_file st) len block in
    let st := mk_rstate (rs_src st) al f (rs_crc st) in
    if ret <? 0 then Done (st, ret)
    else
      match rs_crc st with
      | Some crc =>
          let* (src, crc, ret) := GetCrc32 (rs_src st) crc len in
          Done (set_rcrc (set_src st src) crc, if ret <? 0 then ret else 0)
      | None =>
          let '(src, ret) := Seek (rs_src st) len in
          Done (set_src st src, if ret <? 0 then ret else 0)
      end.

(** The checksum over [len] bytes of a buffer filled with a repeated pattern. *)
Definition crc_fill_loop (pattern : Z -> list Z) (crc len : Z) : outcome Z :=
  let* (crc, _) :=
    chunk_loop (chunk_fuel len COPY_BUF_SIZE) COPY_BUF_SIZE
      (fun crc n => (sparse_crc32 crc (pattern n), 0)) crc len in
  Done crc.

Definition process_fill_chunk (st : rstate) (chunk_size blocks block : Z) : outcome (rstate * Z) :=
  let len := s64 (blocks * sf_block_size (rs_file st)) in
  if negb (chunk_size =? 4) then Done (st, - EINVAL)
  else
    match ReadValue (rs_src st) 4 with
    | (src, inl err) => Done (set_src st src, err)
    | (src, inr bytes) =>
        let fill_val := le_decode bytes in
        let* (ret, al, f) := sparse_file_add_fill (rs_al st) (rs_file st) fill_val len block in
        let st := mk_rstate src al f (rs_crc st) in
        if ret <? 0 then Done (st, ret)
        else
          match rs_crc st with
          | Some crc =>
              let* crc := crc_fill_loop (fill_bytes fill_val) crc len in
              Done (set_rcrc st crc, 0)
          | None => Done (st, 0)
          end
    end.

Definition process_skip_chunk (st : rstate) (chunk_size blocks : Z) : outcome (rstate * Z) :=
  if negb (chunk_size =? 0) then Done (st, - EINVAL)
  else
    match rs_crc st with
    | Some crc =>
        let len := s64 (blocks * sf_block_size (rs_file st)) in
        let* crc := crc_fill_loop (fun n => replicate (Z.to_nat n) 0) crc len in
        Done (set_rcrc st crc, 0)
    | None => Done (st, 0)
    end.

Definition process_crc32_chunk (st : rstate) (chunk_size : Z) : outcome (rstate * Z) :=
  if negb (chunk_size =? 4) then Done (st, - EINVAL)
  else
    match ReadValue (rs_src st) 4 with
    | (src, inl err) => Done (set_src st src, err)
    | (src, inr bytes) =>
        let st := set_src st src in
        match rs_crc st with
        | Some crc => if negb (le_decode bytes =? crc) then Done (st, - EINVAL) else Done (st, 0)
        | None => Done (st, 0)
        end
    end.

(** A chunk of unknown type is reported and otherwise ignored. *)
Definition process_chunk (st : rstate) (chunk_hdr_size : Z) (h : chunk_header) (cur_block : Z)
  : outcome (rstate * Z) :=
  let chunk_data_size := u32 (total_sz h - chunk_hdr_size) in
  if chunk_type h =? CHUNK_TYPE_RAW then
    let* (st, ret) := process_raw_chunk st chunk_data_size (chunk_sz h) cur_block in
    Done (st, if ret <? 0 then ret else s32 (chunk_sz h))
  else if chunk_type h =? CHUNK_TYPE_FILL then
    let* (st, ret) := process_fill_chunk st chunk_data_size (chunk_sz h) cur_block in
    Done (st, if ret <? 0 then ret else s32 (chunk_sz h))
  else if chunk_type h =? CHUNK_TYPE_DONT_CARE then
    let* (st, ret) := process_skip_chunk st chunk_data_size (chunk_sz h) in
    Done (st, if negb (chunk_data_size =? 0) && (ret <? 0) then ret else s32 (chunk_sz h))
  else if chunk_type h =? CHUNK_TYPE_CRC32 then
    let* (st, ret) := process_crc32_chunk st chunk_data_size in
    Done (st, if ret <? 0 then ret else 0)
  else Done (st, 0).

(** The structs as read from memory. *)
Definition field (off n : nat) (b : list Z) : Z := le_decode (take n (drop off b)).

Definition parse_sparse_header (b : list Z) : sparse_header :=
  mk_sparse_header (field 0 4 b) (field 4 2 b) (field 6 2 b) (field 8 2 b) (field 10 2 b)
    (field 12 4 b) (field 16 4 b) (field 20 4 b) (field 24 4 b).

Definition parse_chunk_header (b : list Z) : chunk_header :=
  mk_chunk_header (field 0 2 b) (field 2 2 b) (field 4 4 b) (field 8 4 b).

(** [Seek] over what a longer header has in excess. *)
Definition skip_header (src : S) (excess : Z) : S * Z :=
  if 0 <? excess then
    let '(src, ret) := Seek src excess in (src, if ret <? 0 then ret else 0)
  else (src, 0).

Fixpoint read_chunks (n : nat) (chunk_hdr_size cur_block : Z) (st : rstate)
  : outcome (rstate * Z * Z) :=
  match n with
  | O => Done (st, 0, cur_block)
  | Datatypes.S n =>
      match ReadValue (rs_src st) CHUNK_HEADER_LEN with
      | (src, inl err) => Done (set_src st src, err, cur_block)
      | (src, inr bytes) =>
          let '(src, ret) := skip_header src (chunk_hdr_size - CHUNK_HEADER_LEN) in
          let st := set_src st src in
          if ret <? 0 then Done (st, ret, cur_block)
          else
            let* (st, ret) := process_chunk st chunk_hdr_size (parse_chunk_header bytes) cur_block in
            if ret <? 0 then Done (st, ret, cur_block)
            else read_chunks n chunk_hdr_size (u32 (cur_block + ret)) st
      end
  end.

(** [copybuf] says whether the static copy buffer was allocated before. *)
Definition sparse_file_read_sparse (copybuf : bool) (src : S) (al : allocator) (s : sparse_file)
    (crc : bool) : outcome (rstate * Z) :=
  let '(buf_ok, al) :=
    if copybuf then (true, al)
    else match malloc al with (Some _, al) => (true, al) | (None, al) => (false, al) end in
  let st := mk_rstate src al s (if crc then Some 0 else None) in
  if negb buf_ok then Done (st, - ENOMEM)
  else
    match ReadValue src SPARSE_HEADER_LEN with
    | (src, inl err) => Done (set_src st src, err)
    | (src, inr bytes) =>
        let st := set_src st src in
        let h := parse_sparse_header bytes in
        if negb (magic h =? SPARSE_HEADER_MAGIC) then Done (st, - EINVAL)
        else if negb (major_version h =? SPARSE_HEADER_MAJOR_VER) then Done (st, - EINVAL)
        else if file_hdr_sz h <? SPARSE_HEADER_LEN then Done (st, - EINVAL)
        else if chunk_hdr_sz h <? CHUNK_HEADER_LEN then Done (st, - EINVAL)
        else
          let '(src, ret) := skip_header src (file_hdr_sz h - SPARSE_HEADER_LEN) in
          let st := set_src st src in
          if ret <? 0 then Done (st, ret)
          else
            let* (st, ret, cur_block) :=
              read_chunks (Z.to_nat (total_chunks h)) (chunk_hdr_sz h) 0 st in
            if ret <? 0 then Done (st, ret)
            else if negb (total_blks h =? cur_block) then Done (st, - EINVAL)
            else Done (st, 0)
    end.

(** [None] is a null result; the source is returned as the call leaves it. *)
Definition sparse_file_import_source (copybuf : bool) (src : S) (al : allocator)
    (verbose crc : bool) : outcome (option sparse_file * S * allocator) :=
  match ReadValue src SPARSE_HEADER_LEN with
  | (src, inl _) => Done (None, src, al)
  | (src, inr bytes) =>
      let h := parse_sparse_header bytes in
      if negb (magic h =? SPARSE_HEADER_MAGIC) then Done (None, src, al)
      else if negb (major_version h =? SPARSE_HEADER_MAJOR_VER) then Done (None, src, al)
      else if file_hdr_sz h <? SPARSE_HEADER_LEN then Done (None, src, al)
      else if chunk_hdr_sz h <? CHUNK_HEADER_LEN then Done (None, src, al)
      else if (blk_sz h =? 0) || negb (blk_sz h mod 4 =? 0) then Done (None, src, al)
      else if total_blks h =? 0 then Done (None, src, al)
      else
        let len := s64 (total_blks h * blk_sz h) in
        let* (s, al) := sparse_file_new al (blk_sz h) len in
        match s with
        | None => Done (None, src, al)
        | Some s =>
            let '(src, ret) := Rewind src in
            if ret <? 0 then Done (None, src, al)
            else
              let s := mk_sparse_file (sf_block_size s) (sf_len s) verbose (sf_blocks s) in
              let* (st, ret) := sparse_file_read_sparse copybuf src al s crc in
              if ret <? 0 then Done (None, rs_src st, rs_al st)
              else Done (Some (rs_file st), rs_src st, rs_al st)
        end
  end.

End reader.
Arguments rstate : clear implicits.
Arguments mk_rstate {S}. Arguments rs_src {S}. Arguments rs_al {S}.
Arguments rs_file {S}. Arguments rs_crc {S}.

Definition sparse_file_import (copybuf : bool) (src : SparseFileFdSource) (al : allocator)
    (verbose crc : bool) : outcome (option sparse_file * SparseFileFdSource * allocator) :=
  sparse_file_import_source copybuf src al verbose crc.

Definition sparse_file_import_buf (copybuf : bool) (start : Z) (bytes : list Z) (al : allocator)
    (verbose crc : bool) : outcome (option sparse_file * SparseFileBufSource * allocator) :=
  sparse_file_import_source copybuf (buf_source start bytes) al verbose crc.

(** * What a sequence of chunks describes *)

Definition chunk_blocks (bs : Z) (c : chunk) : Z :=
  match c with
  | ChunkRaw d => Z.of_nat (length d) / bs
  | ChunkFill _ n | ChunkSkip n => n
  | ChunkCrc _ => 0
  end.

(** The byte that chunk [c], placed at block [cur], puts at [off]. *)
Definition chunk_image (bs : Z) (c : chunk) (cur off : Z) : option Z :=
  match c with
  | ChunkRaw d =>
      if (cur * bs <=? off) && (off <? cur * bs + Z.of_nat (length d))
      then Some (nth (Z.to_nat (off - cur * bs)) d 0) else None
  | ChunkFill v n =>
      if (cur * bs <=? off) && (off <? (cur + n) * bs)
      then Some (nth (Z.to_nat ((off - cur * bs) mod 4)) (le_encode 4 v) 0) else None
  | ChunkSkip _ | ChunkCrc _ => None
  end.

Fixpoint chunks_image (bs : Z) (cs : list chunk) (cur off : Z) : option Z :=
  match cs with
  | [] => None
  | c :: cs =>
      match chunk_image bs c cur off with
      | Some b => Some b
      | None => chunks_image bs cs (cur + chunk_blocks bs c) off
      end
  end.

Definition total_blocks (bs : Z) (cs : list chunk) : Z :=
  foldr (fun c n => chunk_blocks bs c + n) 0 cs.

(** The bytes of a chunk in the expanded image, "don't care" read as zero. *)
Definition expand_chunk (bs : Z) (c : chunk) : list Z :=
  match c with
  | ChunkRaw d => d
  | ChunkFill v n => fill_bytes v (n * bs)
  | ChunkSkip n => replicate (Z.to_nat (n * bs)) 0
  | ChunkCrc _ => []
  end.

Definition chunk_ok (bs : Z) (c : chunk) : Prop :=
  match c with
  | ChunkRaw d =>
      (0 < length d)%nat /\ Z.of_nat (length d) mod bs = 0 /\
      CHUNK_HEADER_LEN + Z.of_nat (length d) < 2 ^ 32
  | ChunkFill v n => is_u32 v /\ 0 < n
  | ChunkSkip n => 0 < n
  | ChunkCrc _ => False
  end.

(** * Proofs: parsing headers *)

Lemma field_at pre n z post :
  field (length pre) n (pre ++ le_encode n z ++ post) = z mod 2 ^ (8 * Z.of_nat n).
Proof.
  unfold field. rewrite drop_app_length, <- le_decode_encode. f_equal.
  rewrite <- (length_le_encode n z) at 1. apply take_app_length.
Qed.

Lemma parse_chunk_header_bytes h rest :
  is_u16 (chunk_type h) -> is_u16 (reserved1 h) -> is_u32 (chunk_sz h) -> is_u32 (total_sz h) ->
  parse_chunk_header (chunk_header_bytes h ++ rest) = h.
Proof.
  destruct h as [a b c d]. simpl chunk_type. simpl reserved1. simpl chunk_sz. simpl total_sz.
  intros Ha Hb Hc Hd. unfold parse_chunk_header, chunk_header_bytes. cbn [chunk_type reserved1 chunk_sz total_sz].
  f_equal.
  - etransitivity; [apply (field_at [] 2 a)|]. by apply u16_small.
  - etransitivity; [apply (field_at (le_encode 2 a) 2 b)|]. by apply u16_small.
  - etransitivity; [apply (field_at (le_encode 2 a ++ le_encode 2 b) 4 c)|]. by apply u32_small.
  - etransitivity; [apply (field_at (le_encode 2 a ++ le_encode 2 b ++ le_encode 4 c) 4 d rest)|].
    by apply u32_small.
Qed.

Lemma parse_image_header bs len chunks crc rest :
  0 < bs < 2 ^ 32 ->
  parse_sparse_header (sparse_header_bytes (image_header bs len chunks crc) ++ rest)
  = image_header bs len chunks crc.
Proof.
  intros Hbs. unfold parse_sparse_header, sparse_header_bytes, image_header.
  cbn [magic major_version minor_version file_hdr_sz chunk_hdr_sz blk_sz total_blks total_chunks
       image_checksum].
  set (m := SPARSE_HEADER_MAGIC). set (mj := SPARSE_HEADER_MAJOR_VER).
  set (mn := SPARSE_HEADER_MINOR_VER). set (fh := SPARSE_HEADER_LEN). set (ch := CHUNK_HEADER_LEN).
  set (tb := u32 (DIV_ROUND_UP len bs)).
  set (tc := if crc then u32 (u32 chunks + 1) else u32 chunks).
  assert (Htb : is_u32 tb) by apply u32_range.
  assert (Htc : is_u32 tc) by (unfold tc; destruct crc; apply u32_range).
  pose (p1 := le_encode 4 m). pose (p2 := p1 ++ le_encode 2 mj). pose (p3 := p2 ++ le_encode 2 mn).
  pose (p4 := p3 ++ le_encode 2 fh). pose (p5 := p4 ++ le_encode 2 ch).
  pose (p6 := p5 ++ le_encode 4 bs). pose (p7 := p6 ++ le_encode 4 tb).
  pose (p8 := p7 ++ le_encode 4 tc).
  f_equal.
  - etransitivity; [apply (field_at p5 4 bs)|]. apply u32_small. unfold is_u32. lia.
  - etransitivity; [apply (field_at p6 4 tb)|]. by apply u32_small.
  - etransitivity; [apply (field_at p7 4 tc)|]. by apply u32_small.
Qed.

(** * What the reader asks of its source

    [src_rep e s pre rest]: the source [s] has delivered [pre] and will deliver
    [rest], and the data it hands to a sparse file is what [e] shows there. *)

Class SourceLaws (S : Type) `{SparseFileSource S} := {
  src_rep : env -> S -> list Z -> list Z -> Prop;
  src_read e s pre a rest :
    src_rep e s pre (a ++ rest) -> a <> [] ->
    exists s', ReadValue s (Z.of_nat (length a)) = (s', inr a) /\ src_rep e s' (pre ++ a) rest;
  src_seek e s pre a rest :
    src_rep e s pre (a ++ rest) -> a <> [] ->
    exists s', Seek s (Z.of_nat (length a)) = (s', 0) /\ src_rep e s' (pre ++ a) rest;
  src_crc e s pre a rest crc :
    src_rep e s pre (a ++ rest) -> a <> [] ->
    exists s', GetCrc32 s crc (Z.of_nat (length a)) = Done (s', sparse_crc32 crc a, 0) /\
      src_rep e s' (pre ++ a) rest;
  src_add e s pre a rest :
    src_rep e s pre (a ++ rest) -> a <> [] ->
    exists k,
      (forall al f block, AddToSparseFile s al f (Z.of_nat (length a)) block
                          = sparse_file_add al f k (Z.of_nat (length a)) block) /\
      (forall p block, kind_ok (mk_bb p block (Z.of_nat (length a)) k)) /\
      (forall i, 0 <= i < Z.of_nat (length a) -> payload e k i = nth (Z.to_nat i) a 0);
  src_rewind e s pre rest :
    src_rep e s pre rest -> exists s', Rewind s = (s', 0) /\ src_rep e s' [] (pre ++ rest) }.

Lemma nth_middle_app (pre a rest : list Z) i :
  0 <= i < Z.of_nat (length a) ->
  nth (Z.to_nat (Z.of_nat (length pre) + i)) (pre ++ a ++ rest) 0 = nth (Z.to_nat i) a 0.
Proof.
  intros Hi. rewrite app_nth2 by lia. rewrite app_nth1 by lia. f_equal. lia.
Qed.

Lemma nonempty_length {A} (a : list A) : a <> [] -> 0 < Z.of_nat (length a).
Proof. destruct a; simpl; [done|lia]. Qed.

(** ** The buffer *)

Record buf_rep (e : env) (s : SparseFileBufSource) (pre rest : list Z) : Prop := {
  br_bytes : buf_bytes s = pre ++ rest;
  br_pos : buf s = buf_start s + Z.of_nat (length pre);
  br_mem i : 0 <= i < Z.of_nat (length (buf_bytes s)) ->
    mem e (buf_start s + i) = nth (Z.to_nat i) (buf_bytes s) 0 }.

Lemma buf_access e s pre a rest :
  buf_rep e s pre (a ++ rest) -> a <> [] -> AccessOkay s (Z.of_nat (length a)) = 0.
Proof.
  intros [Hb Hp _] Ha%nonempty_length. unfold AccessOkay, buf_end. rewrite Hb, Hp, !length_app.
  repeat match goal with
  | |- context [?a <=? ?b] => destruct (Z.leb_spec a b); [lia|]
  | |- context [?a <? ?b] => destruct (Z.ltb_spec a b); [lia|]
  end. done.
Qed.

Lemma buf_peek_spec e s pre a rest :
  buf_rep e s pre (a ++ rest) -> buf_peek s (Z.of_nat (length a)) = a.
Proof.
  intros [Hb Hp _]. unfold buf_peek. rewrite Hb, Hp.
  replace (Z.to_nat (buf_start s + _ - buf_start s)) with (length pre) by lia.
  rewrite drop_app_length, Nat2Z.id. apply take_app_length.
Qed.

Lemma buf_advance_spec e s pre a rest :
  buf_rep e s pre (a ++ rest) ->
  buf_rep e (buf_advance s (Z.of_nat (length a))) (pre ++ a) rest.
Proof.
  intros [Hb Hp Hm]. constructor; simpl; [by rewrite <- app_assoc| |done].
  rewrite Hp, length_app. lia.
Qed.

#[export] Program Instance buf_laws : SourceLaws SparseFileBufSource := {
  src_rep := buf_rep }.
Next Obligation.
  intros e s pre a rest Hr Ha. eexists. simpl. unfold BufReadValue.
  rewrite (buf_access _ _ _ _ _ Hr Ha), (buf_peek_spec _ _ _ _ _ Hr). simpl.
  split; [done|]. by apply buf_advance_spec.
Qed.
Next Obligation.
  intros e s pre a rest Hr Ha. eexists. simpl. unfold BufSeek.
  rewrite (buf_access _ _ _ _ _ Hr Ha). split; [done|]. by apply buf_advance_spec.
Qed.
Next Obligation.
  intros e s pre a rest crc Hr Ha. eexists. simpl. unfold BufGetCrc32.
  rewrite (buf_access _ _ _ _ _ Hr Ha), (buf_peek_spec _ _ _ _ _ Hr). simpl.
  split; [done|]. by apply buf_advance_spec.
Qed.
Next Obligation.
  intros e s pre a rest Hr Ha. exists (BACKED_BLOCK_DATA (buf s)). split; [|split; [done|]].
  - intros al f block. simpl. unfold BufAddToSparseFile. by rewrite (buf_access _ _ _ _ _ Hr Ha).
  - intros i Hi. destruct Hr as [Hb Hp Hm]. simpl. rewrite Hp, <- Z.add_assoc, Hm.
    + rewrite Hb. by apply nth_middle_app.
    + rewrite Hb, !length_app. lia.
Qed.
Next Obligation.
  intros e s pre rest [Hb Hp Hm]. eexists. split; [reflexivity|]. constructor; simpl; [done|lia|done].
Qed.

(** ** The file descriptor *)

(** Every [read] makes progress: short reads are fine, errors are not. *)
Definition revents_ok (ev : list revent) : Prop :=
  Forall (fun r => match r with Got n => (0 < n)%nat | Rerror _ => False end) ev.

Record fd_rep (e : env) (s : SparseFileFdSource) (pre rest : list Z) : Prop := {
  fr_data : fd_data s = pre ++ rest;
  fr_pos : fd_pos s = Z.of_nat (length pre);
  fr_events : revents_ok (fd_events s);
  fr_size : Z.of_nat (length (fd_data s)) < 2 ^ 63;
  fr_byte i : 0 <= i < Z.of_nat (length (fd_data s)) ->
    fd_byte e (fd_num s) i = nth (Z.to_nat i) (fd_data s) 0 }.

(** [read_all] delivers what was asked for, however the reads are split. *)
Lemma read_all_spec ev pre a rest acc :
  revents_ok ev ->
  exists ev', read_all ev (pre ++ a ++ rest) (length pre) (length a) acc
              = (ev', length (pre ++ a), inr (acc ++ a)) /\ revents_ok ev'.
Proof.
  intros Hev. revert pre a acc. induction Hev as [|r ev Hr Hev IH]; intros pre a acc.
  - destruct a as [|b a]; [exists []; rewrite !app_nil_r; split; [done|constructor]|].
    cbn [read_all length]. change (Datatypes.S (length a)) with (length (b :: a)).
    rewrite drop_app_length, take_app_length, Nat.eqb_refl, length_app. exists [].
    split; [done|constructor].
  - destruct a as [|b a].
    { exists (r :: ev). rewrite !app_nil_r. split; [done|]. by constructor. }
    destruct r as [n|]; [|done]. cbn [read_all length].
    change (Datatypes.S (length a)) with (length (b :: a)).
    rewrite drop_app_length, take_app_le by lia.
    set (k := (n `min` length (b :: a))%nat).
    assert (Hk : (0 < k <= length (b :: a))%nat) by (subst k; simpl length; lia).
    assert (Hne : take k (b :: a) <> []). { destruct k; [lia|done]. }
    destruct (take k (b :: a)) as [|x t] eqn:Et; [done|]. rewrite <- Et.
    assert (Hsplit : pre ++ (b :: a) ++ rest
      = (pre ++ take k (b :: a)) ++ drop k (b :: a) ++ rest)
      by (rewrite <- app_assoc, (app_assoc (take _ _)), take_drop; done).
    rewrite Hsplit.
    destruct (IH (pre ++ take k (b :: a)) (drop k (b :: a)) (acc ++ take k (b :: a)))
      as (ev' & E & Hev').
    replace (length pre + length (take k (b :: a)))%nat
      with (length (pre ++ take k (b :: a))) by apply length_app.
    replace (length (b :: a) - length (take k (b :: a)))%nat
      with (length (drop k (b :: a))) by (rewrite length_drop, length_take; lia).
    rewrite E, <- !app_assoc, take_drop. by exists ev'.
Qed.

Lemma fd_read_spec e s pre a rest :
  fd_rep e s pre (a ++ rest) ->
  exists s', FdReadValue s (Z.of_nat (length a)) = (s', inr a) /\ fd_rep e s' (pre ++ a) rest.
Proof.
  intros [Hd Hp Hev Hs Hb]. unfold FdReadValue. rewrite Hd, Hp, !Nat2Z.id.
  destruct (read_all_spec (fd_events s) pre a rest [] Hev) as (ev' & -> & Hev').
  eexists. split; [reflexivity|]. rewrite Hd in Hs, Hb.
  constructor; simpl; try done. by rewrite <- app_assoc.
Qed.

Lemma fd_crc_spec e s pre a rest crc :
  fd_rep e s pre (a ++ rest) ->
  exists s', FdGetCrc32 s crc (Z.of_nat (length a)) = Done (s', sparse_crc32 crc a, 0) /\
    fd_rep e s' (pre ++ a) rest.
Proof.
  intros Hr. unfold FdGetCrc32.
  set (I := fun (x : SparseFileFdSource * Z) (n : Z) =>
    exists a1 a2, a = a1 ++ a2 /\ n = Z.of_nat (length a2) /\
      fd_rep e x.1 (pre ++ a1) (a2 ++ rest) /\ x.2 = sparse_crc32 crc a1).
  edestruct (chunk_loop_spec I COPY_BUF_SIZE) as ([s' c'] & -> & a1 & a2 & Ea & En & Hr' & Hc');
    [done|lia| | |].
  - exists [], a. rewrite app_nil_r. split; [done|]. split; [reflexivity|]. split; [exact Hr|].
    simpl. unfold sparse_crc32, crc32_loop. simpl.
    by rewrite Z.lxor_assoc, Z.lxor_nilpotent, Z.lxor_0_r.
  - intros [s1 c1] len n (a1 & a2 & -> & -> & Hr1 & Hc1) Hn _.
    simpl in Hr1, Hc1. rewrite <- (take_drop (Z.to_nat n) a2), <- app_assoc in Hr1.
    assert (Hlen : length (take (Z.to_nat n) a2) = Z.to_nat n) by (rewrite length_take; lia).
    destruct (fd_read_spec e s1 _ _ _ Hr1) as (s2 & E & Hr2).
    rewrite Hlen, Z2Nat.id in E by lia. rewrite E.
    eexists _, 0. split; [reflexivity|]. split; [done|].
    exists (a1 ++ take (Z.to_nat n) a2), (drop (Z.to_nat n) a2).
    rewrite <- !app_assoc, take_drop. split; [done|]. split; [rewrite length_drop; lia|].
    split; [by rewrite <- app_assoc in Hr2|]. simpl. by rewrite Hc1, sparse_crc32_app.
  - cbn [obind]. simpl in Hr', Hc'. destruct a2; [|simpl in En; lia].
    rewrite app_nil_r in Ea. subst a1. exists s'. by rewrite Hc'.
Qed.

#[export] Program Instance fd_laws : SourceLaws SparseFileFdSource := { src_rep := fd_rep }.
Next Obligation. intros e s pre a rest Hr _. by apply fd_read_spec. Qed.
Next Obligation.
  intros e s pre a rest [Hd Hp Hev Hs Hb] _. eexists. simpl. unfold FdSeek.
  destruct (Z.ltb_spec (fd_pos s + Z.of_nat (length a)) 0); [lia|]. split; [done|].
  constructor; simpl; try done; [by rewrite <- app_assoc|rewrite length_app; lia].
Qed.
Next Obligation. intros e s pre a rest crc Hr _. by apply fd_crc_spec. Qed.
Next Obligation.
  intros e s pre a rest [Hd Hp Hev Hs Hb] Ha. exists (BACKED_BLOCK_FD (fd_num s) (fd_pos s)).
  rewrite Hd, !length_app in Hs. split; [done|]. split.
  - intros p block. unfold kind_ok. simpl. lia.
  - intros i Hi. simpl. rewrite Hb by (rewrite Hd, !length_app; lia).
    rewrite Hd, Hp. by apply nth_middle_app.
Qed.
Next Obligation.
  intros e s pre rest [Hd Hp Hev Hs Hb]. eexists. split; [reflexivity|]. by constructor.
Qed.

(** * Proofs: the chunks *)

(** Adding behind everything that is there. *)
Lemma ends_below_image e bs hi l off :
  0 < bs -> ends_below bs hi l -> hi * bs <= off -> image e bs l off = None.
Proof.
  intros Hbs Hl Hoff. induction Hl as [|b l Hb Hl IH]; [done|]. simpl. unfold covers.
  pose proof (div_round_up_bounds (bb_len b) bs Hbs).
  destruct (Z.ltb_spec off (bb_block b * bs + bb_len b)); [|by rewrite andb_false_r].
  unfold bb_end in Hb. nia.
Qed.

Lemma sparse_crc32_nil crc : sparse_crc32 crc [] = crc.
Proof.
  unfold sparse_crc32, crc32_loop. simpl. by rewrite Z.lxor_assoc, Z.lxor_nilpotent, Z.lxor_0_r.
Qed.

(** The checksum over a pattern does not depend on the buffer it goes through. *)
Lemma crc_fill_loop_spec (pattern : Z -> list Z) crc len :
  0 <= len -> pattern 0 = [] ->
  (forall a b, 0 <= a -> 0 <= b -> a mod 4 = 0 -> pattern (a + b) = pattern a ++ pattern b) ->
  crc_fill_loop pattern crc len = Done (sparse_crc32 crc (pattern len)).
Proof.
  intros Hlen H0 Happ. unfold crc_fill_loop.
  set (I := fun (c n : Z) => exists a, a + n = len /\ 0 <= a /\ (n = 0 \/ a mod 4 = 0) /\
    c = sparse_crc32 crc (pattern a)).
  edestruct (chunk_loop_spec I COPY_BUF_SIZE) as (c & -> & a & Ha & _ & _ & ->); [done|done| | |].
  - exists 0. rewrite H0, sparse_crc32_nil. split; [lia|]. split; [lia|]. split; [by right|done].
  - intros c n k (a & Ha & Ha0 & Hm & ->) Hk Hmin. eexists _, 0. split; [reflexivity|].
    split; [done|]. exists (a + k). destruct Hm as [->|Hm]; [lia|].
    split; [lia|]. split; [lia|]. split; [|by rewrite Happ, sparse_crc32_app by (done || lia)].
    unfold COPY_BUF_SIZE in Hmin. destruct (Z.le_gt_cases n (1024 * 1024)); [left; lia|].
    right. replace k with (262144 * 4) by lia. by rewrite Z.mod_add.
  - cbn [obind]. by replace a with len by lia.
Qed.

Lemma fill_bytes_app v a b :
  0 <= a -> 0 <= b -> a mod 4 = 0 -> fill_bytes v (a + b) = fill_bytes v a ++ fill_bytes v b.
Proof.
  intros Ha Hb Hm. unfold fill_bytes. rewrite seqZ_app, map_app by done. f_equal.
  rewrite <- (Z.add_0_r (0 + a)), <- fmap_add_seqZ, Z.add_0_l.
  change (Z.add a <$> seqZ 0 b) with (map (Z.add a) (seqZ 0 b)). rewrite map_map.
  apply map_ext. intros i. do 2 f_equal. rewrite <- Z.add_mod_idemp_l, Hm by done. done.
Qed.

Lemma zeros_app a b :
  0 <= a -> 0 <= b -> replicate (Z.to_nat (a + b)) 0
                      = replicate (Z.to_nat a) 0 ++ replicate (Z.to_nat b) 0.
Proof. intros. by rewrite Z2Nat.inj_add, replicate_add by done. Qed.

(** Fill blocks are whole blocks. *)
Definition fill_aligned (bs : Z) (b : backed_block) : Prop :=
  match bb_kind b with BACKED_BLOCK_FILL _ => bb_len b mod bs = 0 | _ => True end.

Lemma fill_aligned_closed bs : block_size_ok bs -> merge_closed bs (fill_aligned bs).
Proof.
  intros Hbs a b Ha Hb Hadj Hex Hm HPa HPb. unfold fill_aligned. rewrite (merged_len bs) by done.
  unfold mergeable in Hm. unfold fill_aligned in *. simpl.
  destruct (bb_kind a), (bb_kind b); try done.
  destruct Hbs as [[? ?] _]. by rewrite Z.add_mod, HPa, HPb by lia.
Qed.

(** A sparse file all of whose blocks end before block [cur]. *)
Record building (bs : Z) (al : allocator) (f : sparse_file) (cur : Z) : Prop := {
  bld_wf : bbl_wf (sf_blocks f);
  bld_sf_bs : sf_block_size f = bs;
  bld_bs : bbl_block_size (sf_blocks f) = bs;
  bld_alloc : alloc_ok al (data_blocks (sf_blocks f));
  bld_no_oom : no_oom al;
  bld_ends : ends_below bs cur (data_blocks (sf_blocks f));
  bld_fill : Forall (fill_aligned bs) (data_blocks (sf_blocks f)) }.

(** Adding at [cur] leaves the rest alone and moves the end on. *)
Lemma sparse_file_add_behind e bs al f cur k len :
  block_size_ok bs -> building bs al f cur -> 0 <= cur -> 0 < len ->
  cur + DIV_ROUND_UP len bs < 2 ^ 32 -> (forall p, kind_ok (mk_bb p cur len k)) ->
  (forall p, fill_aligned bs (mk_bb p cur len k)) ->
  exists al' f', sparse_file_add al f k len cur = Done (0, al', f') /\
    building bs al' f' (cur + DIV_ROUND_UP len bs) /\ sf_len f' = sf_len f /\
    forall off, image e bs (data_blocks (sf_blocks f')) off =
      match image e bs (data_blocks (sf_blocks f)) off with
      | Some b => Some b
      | None => if (cur * bs <=? off) && (off <? cur * bs + len)
                then Some (payload e k (off - cur * bs)) else None
      end.
Proof.
  intros Hbs [Hwf Hsb Hb Hal Hoom Hends Hfill] Hcur Hn Hlt Hk Hfa. pose proof Hbs as [[Hb0 _] _].
  set (new := mk_bb (next_addr al) cur len k).
  destruct (backed_block_add_spec al (sf_blocks f) k len cur Hwf Hal) as (al' & bbl & E & Hq & Hal').
  - apply Hoom. lia.
  - rewrite Hb. constructor; simpl; [done|lia| |apply Hk]. exact Hlt.
  - rewrite Hb. eapply Forall_impl; [exact Hends|]. simpl. intros c Hc. by left.
  - unfold sparse_file_add. rewrite E. cbn [obind]. eexists _, _. split; [reflexivity|].
    destruct Hq as [Q1 Q2 Q3 Q4 Q5]. rewrite Hb in *.
    assert (Hmal : oom al' = oom al /\ next_addr al <= next_addr al').
    { unfold backed_block_add, malloc in E. rewrite (Hoom (next_addr al)) in E by lia.
      destruct (queue_bb _ _) as [[r b']|]; [|done]. injection E as _ <- _. simpl. split; [done|lia]. }
    pose proof (div_round_up_nonneg len bs).
    split; [|split; [done|]].
    + constructor; simpl; try done.
      * destruct Hmal. by eapply no_oom_later.
      * apply Q5; [by apply ends_closed|unfold bb_end; simpl; lia|]. eapply Forall_impl; [exact Hends|]. simpl. lia.
      * apply Q5; [by apply fill_aligned_closed|apply Hfa|done].
    + intros off. simpl. rewrite Q3. unfold covers. simpl.
      destruct (Z.leb_spec (cur * bs) off); simpl; [|by destruct (image _ _ _ _)].
      rewrite (ends_below_image e bs cur) by done.
      by destruct (Z.ltb_spec off (cur * bs + len)).
Qed.

(** The file the importers start from. *)
Lemma new_file_exists al bs len :
  no_oom al -> exists al', no_oom al' /\ sparse_file_new al bs len
    = Done (Some (mk_sparse_file bs len false (backed_block_list_new bs)), al').
Proof.
  intros Hoom. unfold sparse_file_new, malloc. rewrite Hoom by lia. simpl.
  rewrite Hoom by lia. eexists. split; [|reflexivity]. intros p Hp. simpl in *. apply Hoom. lia.
Qed.

Lemma building_new bs al len verbose :
  block_size_ok bs -> no_oom al ->
  building bs al (mk_sparse_file bs len verbose (backed_block_list_new bs)) 0.
Proof.
  intros Hbs Hoom. constructor; try done; simpl.
  - by constructor; [..|constructor|].
  - intros p ?%elem_of_nil. done.
  - constructor.
Qed.

(** Files whose length is a whole number of blocks are well formed. *)
Lemma building_sf_wf bs al f n :
  block_size_ok bs -> building bs al f n -> sf_len f = n * bs -> 0 <= n < 2 ^ 32 -> sf_wf f.
Proof.
  intros Hbs [Hwf Hsb Hb _ _ Hends _] Hlen Hn. pose proof Hbs as [[Hb0 _] _].
  assert (Htot : sf_blocks_total f = n).
  { unfold sf_blocks_total. rewrite Hlen, Hsb. by apply div_round_up_mul. }
  constructor; rewrite ?Htot, ?Hsb; try done. apply chain_end_le; [lia|done].
Qed.

Section chunk_proofs.
Context {S : Type} `{SourceLaws S}.
Context (e : env) (bs : Z) (Hbs : block_size_ok bs).

(** The reader's state before block [cur]: a well-formed file all of whose
    blocks end before [cur], the source between [pre] and [rest]. *)
Record reading (st : rstate S) (pre rest : list Z) (cur : Z) : Prop := {
  rd_src : src_rep e (rs_src st) pre rest;
  rd_file : building bs (rs_al st) (rs_file st) cur }.

Definition rs_image (st : rstate S) : Z -> option Z :=
  image e bs (data_blocks (sf_blocks (rs_file st))).

(** [st'] has, in addition to [st], the bytes [img] and has summed [bytes]. *)
Record advanced (st st' : rstate S) (img : Z -> option Z) (bytes : list Z) : Prop := {
  adv_image off : rs_image st' off =
    match rs_image st off with Some b => Some b | None => img off end;
  adv_crc : rs_crc st' = (fun c => sparse_crc32 c bytes) <$> rs_crc st;
  adv_len : sf_len (rs_file st') = sf_len (rs_file st) }.

Lemma sparse_file_add_step st pre rest cur k n :
  reading st pre rest cur -> 0 <= cur -> 0 < n -> cur + n < 2 ^ 32 ->
  (forall p, kind_ok (mk_bb p cur (n * bs) k)) ->
  exists al f, sparse_file_add (rs_al st) (rs_file st) k (n * bs) cur = Done (0, al, f) /\
    forall src crc, src_rep e src pre rest ->
      let st' := mk_rstate src al f crc in
      reading st' pre rest (cur + n) /\ sf_len f = sf_len (rs_file st) /\
      forall off, rs_image st' off =
        match rs_image st off with
        | Some b => Some b
        | None => if (cur * bs <=? off) && (off <? (cur + n) * bs)
                  then Some (payload e k (off - cur * bs)) else None
        end.
Proof using Hbs.
  intros [Hs Hf] Hcur Hn Hlt Hk. pose proof Hbs as [[Hb0 _] _].
  destruct (sparse_file_add_behind e bs _ _ cur k (n * bs) Hbs Hf Hcur)
    as (al & f & E & Hf' & Hl & Hi); rewrite ?div_round_up_mul in *; try done; [nia| |].
  { intros p. unfold fill_aligned. simpl. destruct k; [done..|]. by rewrite Z.mod_mul by lia. }
  exists al, f. split; [done|]. intros src crc Hsrc st'. split; [by constructor|]. split; [done|].
  intros off. unfold rs_image. simpl. rewrite Hi.
  by replace ((cur + n) * bs) with (cur * bs + n * bs) by lia.
Qed.

Lemma reading_src st src pre rest pre' rest' cur :
  reading st pre rest cur -> src_rep e src pre' rest' -> reading (set_src st src) pre' rest' cur.
Proof using. intros [? ?] Hs. by constructor. Qed.

Lemma process_raw_chunk_spec st pre d rest cur :
  reading st pre (d ++ rest) cur -> chunk_ok bs (ChunkRaw d) -> 0 <= cur ->
  cur + chunk_blocks bs (ChunkRaw d) < 2 ^ 31 ->
  exists st', process_raw_chunk st (Z.of_nat (length d)) (chunk_blocks bs (ChunkRaw d)) cur
              = Done (st', 0) /\
    reading st' (pre ++ d) rest (cur + chunk_blocks bs (ChunkRaw d)) /\
    advanced st st' (chunk_image bs (ChunkRaw d) cur) d.
Proof using Hbs.
  intros Hrd (Hd & Hm & Hsz) Hcur Hlt. pose proof Hbs as [[Hb0 Hb32] _].
  pose proof Hrd as [Hs [_ Hsb _ _ _ _ _]]. simpl in *.
  set (n := Z.of_nat (length d) / bs) in *.
  assert (Hn : Z.of_nat (length d) = n * bs).
  { pose proof (Z.div_mod (Z.of_nat (length d)) bs). subst n. lia. }
  assert (Hn0 : 0 < n) by nia.
  assert (Hne : d <> []) by (intros ->; simpl in Hd; lia).
  unfold process_raw_chunk. rewrite Hsb, Hm, Z.eqb_refl.
  replace (Z.of_nat (length d) / bs) with n by done. rewrite Z.eqb_refl. simpl negb. cbv iota.
  rewrite s64_small by nia.
  destruct (src_add e _ _ _ _ Hs Hne) as (k & Hadd & Hk & Hpay).
  rewrite Hn in Hadd, Hk, Hpay. rewrite Hadd.
  destruct (sparse_file_add_step st pre (d ++ rest) cur k n Hrd Hcur Hn0 ltac:(lia))
    as (al & f & -> & Hstep); [intros p; apply Hk|].
  cbn [obind]. simpl (0 <? 0). cbv iota. cbn [rs_crc rs_src].
  assert (Hfinish : forall src crc, src_rep e src (pre ++ d) rest ->
    crc = (fun c => sparse_crc32 c d) <$> rs_crc st ->
    reading (mk_rstate src al f crc) (pre ++ d) rest (cur + n) /\
    advanced st (mk_rstate src al f crc) (chunk_image bs (ChunkRaw d) cur) d).
  { intros src crc Hsrc Hcrc. destruct (Hstep (rs_src st) crc Hs) as (Hr1 & Hl1 & Hi1).
    split; [exact (reading_src _ src _ _ _ _ _ Hr1 Hsrc)|]. constructor; [|done|done].
    intros off. unfold rs_image in *. simpl in *. rewrite Hi1, Hn.
    replace ((cur + n) * bs) with (cur * bs + n * bs) by lia.
    destruct (image _ _ _ _); [done|].
    destruct (Z.leb_spec (cur * bs) off); [|done].
    destruct (Z.ltb_spec off (cur * bs + n * bs)); [|done]. simpl. rewrite Hpay by lia. done. }
  destruct (rs_crc st) as [c|] eqn:Ec.
  - destruct (src_crc e _ _ _ _ c Hs Hne) as (src & E & Hsrc). rewrite Hn in E. rewrite E.
    cbn [obind]. eexists. split; [reflexivity|]. by apply Hfinish.
  - destruct (src_seek e _ _ _ _ Hs Hne) as (src & E & Hsrc). rewrite Hn in E. rewrite E.
    eexists. split; [reflexivity|]. unfold set_src. cbn [rs_al rs_file rs_crc]. by apply Hfinish.
Qed.

Lemma process_fill_chunk_spec st pre v n rest cur :
  reading st pre (le_encode 4 v ++ rest) cur -> chunk_ok bs (ChunkFill v n) -> 0 <= cur ->
  cur + n < 2 ^ 31 ->
  exists st', process_fill_chunk st 4 n cur = Done (st', 0) /\
    reading st' (pre ++ le_encode 4 v) rest (cur + n) /\
    advanced st st' (chunk_image bs (ChunkFill v n) cur) (fill_bytes v (n * bs)).
Proof using Hbs.
  intros Hrd (Hv & Hn0) Hcur Hlt. pose proof Hbs as [[Hb0 Hb32] Hb4].
  pose proof Hrd as [Hs [_ Hsb _ _ _ _ _]]. unfold process_fill_chunk. rewrite Hsb.
  rewrite s64_small by nia. simpl negb. cbv iota.
  destruct (src_read e _ _ _ _ Hs ltac:(done)) as (src & E & Hsrc).
  change (Z.of_nat (length (le_encode 4 v))) with 4 in E. rewrite E.
  replace (le_decode (le_encode 4 v)) with v
    by (rewrite le_decode_encode; symmetry; by apply u32_small).
  pose proof (reading_src _ _ _ _ _ _ _ Hrd Hsrc) as Hrd1.
  destruct (sparse_file_add_step _ _ _ cur (BACKED_BLOCK_FILL v) n Hrd1 Hcur Hn0 ltac:(lia))
    as (al & f & Ea & Hstep); [done|].
  simpl in Ea. unfold sparse_file_add_fill. rewrite Ea.
  cbn [obind]. simpl (0 <? 0). cbv iota. cbn [rs_crc rs_src].
  assert (Hfinish : forall crc, crc = (fun c => sparse_crc32 c (fill_bytes v (n * bs))) <$> rs_crc st ->
    reading (mk_rstate src al f crc) (pre ++ le_encode 4 v) rest (cur + n) /\
    advanced st (mk_rstate src al f crc) (chunk_image bs (ChunkFill v n) cur)
      (fill_bytes v (n * bs))).
  { intros crc Hcrc. destruct (Hstep src crc Hsrc) as (Hr1 & Hl1 & Hi1). by split. }
  destruct (rs_crc st) as [c|] eqn:Ec.
  - rewrite crc_fill_loop_spec; [|nia|done|by apply fill_bytes_app]. cbn [obind].
    eexists. split; [reflexivity|]. by apply Hfinish.
  - eexists. split; [reflexivity|]. by apply Hfinish.
Qed.

Lemma process_skip_chunk_spec st pre n rest cur :
  reading st pre rest cur -> 0 < n -> 0 <= cur -> cur + n < 2 ^ 31 ->
  exists st', process_skip_chunk st 0 n = Done (st', 0) /\ reading st' pre rest (cur + n) /\
    advanced st st' (chunk_image bs (ChunkSkip n) cur) (replicate (Z.to_nat (n * bs)) 0).
Proof using Hbs.
  intros Hrd Hn0 Hcur Hlt. pose proof Hbs as [[Hb0 Hb32] Hb4].
  assert (Hrd' : forall crc, reading (mk_rstate (rs_src st) (rs_al st) (rs_file st) crc) pre rest (cur + n)).
  { intros crc. destruct Hrd as [? [? ? ? ? ? Hends ?]]. constructor; [done|]. constructor; try done.
    eapply Forall_impl; [exact Hends|]. simpl. lia. }
  destruct Hrd as [Hs [_ Hsb _ _ _ _ _]]. unfold process_skip_chunk. rewrite Hsb.
  rewrite s64_small by nia. simpl negb. cbv iota.
  destruct (rs_crc st) as [c|] eqn:Ec.
  - rewrite crc_fill_loop_spec; [|nia|done|intros; by apply zeros_app]. cbn [obind].
    eexists. split; [reflexivity|]. split; [apply Hrd'|]. constructor; [|by rewrite Ec|done].
    intros off. unfold rs_image. simpl. by destruct (image _ _ _ _).
  - eexists. split; [reflexivity|]. split; [by specialize (Hrd' (rs_crc st)); destruct st|].
    constructor; [|by rewrite Ec|done]. intros off. unfold rs_image. by destruct (image _ _ _ _).
Qed.

Definition chunk_head (c : chunk) : chunk_header :=
  match c with
  | ChunkRaw d => mk_chunk_header CHUNK_TYPE_RAW 0 (chunk_blocks bs c)
                    (CHUNK_HEADER_LEN + Z.of_nat (length d))
  | ChunkFill _ n => mk_chunk_header CHUNK_TYPE_FILL 0 n (CHUNK_HEADER_LEN + 4)
  | ChunkSkip n => mk_chunk_header CHUNK_TYPE_DONT_CARE 0 n CHUNK_HEADER_LEN
  | ChunkCrc _ => mk_chunk_header CHUNK_TYPE_CRC32 0 0 (CHUNK_HEADER_LEN + 4)
  end.

Definition chunk_body (c : chunk) : list Z :=
  match c with
  | ChunkRaw d => d
  | ChunkFill v _ | ChunkCrc v => le_encode 4 v
  | ChunkSkip _ => []
  end.

Lemma chunk_bytes_split c : chunk_bytes bs c = chunk_header_bytes (chunk_head c) ++ chunk_body c.
Proof using. by destruct c. Qed.

(** Reading the header of a chunk and processing the rest of it. *)
Lemma read_chunks_header m st pre c rest cur :
  reading st pre (chunk_bytes bs c ++ rest) cur ->
  parse_chunk_header (chunk_header_bytes (chunk_head c)) = chunk_head c ->
  exists src, let st1 := set_src st src in
    reading st1 (pre ++ chunk_header_bytes (chunk_head c)) (chunk_body c ++ rest) cur /\
    read_chunks (Datatypes.S m) CHUNK_HEADER_LEN cur st =
      let* (st2, ret) := process_chunk st1 CHUNK_HEADER_LEN (chunk_head c) cur in
      if ret <? 0 then Done (st2, ret, cur)
      else read_chunks m CHUNK_HEADER_LEN (u32 (cur + ret)) st2.
Proof using.
  rewrite chunk_bytes_split, <- app_assoc. intros Hrd Hparse.
  pose proof Hrd as [Hs _].
  destruct (src_read e _ _ _ _ Hs) as (src & E & Hsrc); [by destruct c|].
  change (Z.of_nat (length (chunk_header_bytes (chunk_head c)))) with CHUNK_HEADER_LEN in E.
  exists src. split; [by eapply reading_src|]. cbn [read_chunks]. rewrite E, Hparse. done.
Qed.

Lemma parse_chunk_head c :
  chunk_ok bs c -> chunk_blocks bs c < 2 ^ 31 ->
  parse_chunk_header (chunk_header_bytes (chunk_head c)) = chunk_head c.
Proof using Hbs.
  intros Hok Hn. pose proof Hbs as [[Hb0 Hb32] _].
  rewrite <- (app_nil_r (chunk_header_bytes _)). destruct c as [d|v n|n|v]; [..|done];
    apply parse_chunk_header_bytes; try (split; done); simpl in *; unfold is_u32, CHUNK_HEADER_LEN in *;
    try lia.
  pose proof (Z.div_pos (Z.of_nat (length d)) bs). lia.
Qed.

Lemma chunk_blocks_nonneg c : chunk_ok bs c -> 0 <= chunk_blocks bs c.
Proof using Hbs.
  pose proof Hbs as [[Hb0 _] _]. destruct c; simpl; try lia. intros _. apply Z.div_pos; lia.
Qed.

Lemma read_chunks_step m st pre c rest cur :
  reading st pre (chunk_bytes bs c ++ rest) cur -> chunk_ok bs c -> 0 <= cur ->
  cur + chunk_blocks bs c < 2 ^ 31 ->
  exists st', read_chunks (Datatypes.S m) CHUNK_HEADER_LEN cur st
              = read_chunks m CHUNK_HEADER_LEN (cur + chunk_blocks bs c) st' /\
    reading st' (pre ++ chunk_bytes bs c) rest (cur + chunk_blocks bs c) /\
    advanced st st' (chunk_image bs c cur) (expand_chunk bs c).
Proof using Hbs.
  intros Hrd Hok Hcur Hlt. pose proof Hbs as [[Hb0 _] _].
  pose proof (chunk_blocks_nonneg c Hok) as Hn.
  destruct (read_chunks_header m st pre c rest cur Hrd (parse_chunk_head c Hok ltac:(lia)))
    as (src & Hrd1 & E). cbn zeta in E.
  assert (Hmain : exists st', process_chunk (set_src st src) CHUNK_HEADER_LEN (chunk_head c) cur
      = Done (st', chunk_blocks bs c) /\
    reading st' ((pre ++ chunk_header_bytes (chunk_head c)) ++ chunk_body c) rest
      (cur + chunk_blocks bs c) /\
    advanced (set_src st src) st' (chunk_image bs c cur) (expand_chunk bs c)).
  { unfold process_chunk. destruct c as [d|v n|n|v]; [| | |done];
      cbn [chunk_head chunk_type total_sz chunk_sz chunk_blocks chunk_body expand_chunk] in *.
    - replace (u32 _) with (Z.of_nat (length d))
        by (symmetry; simpl in Hok; unfold CHUNK_HEADER_LEN in *; rewrite u32_small; unfold is_u32; lia).
      destruct (process_raw_chunk_spec _ _ _ _ _ Hrd1 Hok Hcur Hlt) as (st' & Ep & Hr & Ha).
      cbn [chunk_blocks] in *. simpl (_ =? _). cbv iota. rewrite Ep. cbn [obind].
      exists st'. rewrite s32_small by lia. by split.
    - destruct (process_fill_chunk_spec _ _ _ _ _ _ Hrd1 Hok Hcur Hlt) as (st' & Ep & Hr & Ha).
      change (u32 (CHUNK_HEADER_LEN + 4 - CHUNK_HEADER_LEN)) with 4.
      simpl (_ =? _). cbv iota. rewrite Ep. cbn [obind].
      exists st'. rewrite s32_small by lia. by split.
    - destruct (process_skip_chunk_spec _ _ n _ _ Hrd1 Hok Hcur Hlt) as (st' & Ep & Hr & Ha).
      change (u32 (CHUNK_HEADER_LEN - CHUNK_HEADER_LEN)) with 0.
      simpl (_ =? _). cbv iota. rewrite Ep. cbn [obind].
      exists st'. rewrite s32_small by lia. rewrite app_nil_r. by split. }
  destruct Hmain as (st' & Ep & Hr & Ha). exists st'. rewrite E, Ep. cbn [obind].
  destruct (Z.ltb_spec (chunk_blocks bs c) 0); [lia|].
  rewrite u32_small by (unfold is_u32; lia). split; [done|].
  rewrite chunk_bytes_split, app_assoc. split; [done|]. by destruct Ha.
Qed.

Lemma advanced_trans st1 st2 st3 img1 img2 b1 b2 :
  advanced st1 st2 img1 b1 -> advanced st2 st3 img2 b2 ->
  advanced st1 st3 (fun off => match img1 off with Some b => Some b | None => img2 off end)
    (b1 ++ b2).
Proof using.
  intros [I1 C1 L1] [I2 C2 L2]. constructor; [|rewrite C2, C1; by destruct (rs_crc st1); simpl;
    rewrite ?sparse_crc32_app|congruence].
  intros off. rewrite I2, I1. by destruct (rs_image st1 off).
Qed.

Definition expand_chunks (cs : list chunk) : list Z := cs ≫= expand_chunk bs.

Lemma total_blocks_cons c cs : total_blocks bs (c :: cs) = chunk_blocks bs c + total_blocks bs cs.
Proof using. done. Qed.

Lemma total_blocks_nonneg cs : Forall (chunk_ok bs) cs -> 0 <= total_blocks bs cs.
Proof using Hbs.
  induction 1 as [|c cs Hc Hcs IH]; [done|]. rewrite total_blocks_cons.
  pose proof (chunk_blocks_nonneg c Hc). lia.
Qed.

Lemma read_chunks_spec m cs st pre rest cur :
  reading st pre (chunks_bytes bs cs ++ rest) cur -> Forall (chunk_ok bs) cs -> 0 <= cur ->
  cur + total_blocks bs cs < 2 ^ 31 ->
  exists st', read_chunks (length cs + m) CHUNK_HEADER_LEN cur st
              = read_chunks m CHUNK_HEADER_LEN (cur + total_blocks bs cs) st' /\
    reading st' (pre ++ chunks_bytes bs cs) rest (cur + total_blocks bs cs) /\
    advanced st st' (chunks_image bs cs cur) (expand_chunks cs).
Proof using Hbs.
  intros Hrd Hok. revert st pre cur Hrd. induction Hok as [|c cs Hc Hcs IH]; intros st pre cur Hrd Hcur Hlt.
  - exists st. rewrite app_nil_r. simpl. rewrite Z.add_0_r. split; [done|]. split; [done|].
    constructor; [..|done].
    + intros off. by destruct (rs_image st off).
    + destruct (rs_crc st) as [x|]; [|done]. simpl. by rewrite sparse_crc32_nil.
  - rewrite total_blocks_cons in *. pose proof (total_blocks_nonneg cs Hcs).
    pose proof (chunk_blocks_nonneg c Hc) as Hn.
    unfold chunks_bytes in *. cbn [mbind list_bind] in *. rewrite <- app_assoc in Hrd.
    destruct (read_chunks_step (length cs + m) st pre c _ cur Hrd Hc Hcur ltac:(lia))
      as (st1 & E1 & Hr1 & Ha1).
    destruct (IH st1 _ _ Hr1 ltac:(lia) ltac:(lia)) as (st2 & E2 & Hr2 & Ha2).
    exists st2. cbn [length Nat.add]. rewrite E1, E2, Z.add_assoc. split; [done|].
    rewrite app_assoc. split; [done|].
    exact (advanced_trans _ _ _ _ _ _ _ Ha1 Ha2).
Qed.

(** The checksum chunk is accepted when it agrees with what was read. *)
Lemma read_crc_chunk m st pre v rest cur :
  reading st pre (chunk_bytes bs (ChunkCrc v) ++ rest) cur -> is_u32 v -> is_u32 cur ->
  exists st', reading st' (pre ++ chunk_bytes bs (ChunkCrc v)) rest cur /\
    rs_file st' = rs_file st /\
    read_chunks (Datatypes.S m) CHUNK_HEADER_LEN cur st =
    match rs_crc st with
    | Some c => if v =? c then read_chunks m CHUNK_HEADER_LEN cur st'
                else Done (st', - EINVAL, cur)
    | None => read_chunks m CHUNK_HEADER_LEN cur st'
    end.
Proof using.
  intros Hrd Hv Hcur.
  destruct (read_chunks_header m st pre (ChunkCrc v) rest cur Hrd eq_refl) as (src & Hrd1 & E).
  pose proof Hrd1 as [Hs _]. cbn [chunk_body] in *.
  destruct (src_read e _ _ _ _ Hs ltac:(done)) as (src2 & E2 & Hs2).
  change (Z.of_nat (length (le_encode 4 v))) with 4 in E2. cbn [set_src rs_src] in E2.
  exists (set_src st src2). rewrite chunk_bytes_split, app_assoc.
  split; [by eapply reading_src|]. split; [done|]. rewrite E.
  unfold process_chunk. cbn [chunk_head chunk_type total_sz].
  change (u32 (CHUNK_HEADER_LEN + 4 - CHUNK_HEADER_LEN)) with 4.
  simpl (_ =? CHUNK_TYPE_RAW). simpl (_ =? CHUNK_TYPE_FILL). simpl (_ =? CHUNK_TYPE_DONT_CARE).
  simpl (_ =? CHUNK_TYPE_CRC32). cbv iota. unfold process_crc32_chunk.
  simpl negb. cbv iota. cbn [set_src rs_src]. rewrite E2.
  replace (le_decode (le_encode 4 v)) with v
    by (rewrite le_decode_encode; symmetry; by apply u32_small).
  cbn [set_src rs_crc]. destruct (rs_crc st) as [c|]; cbn [obind].
  - destruct (v =? c); [|done]. simpl. by rewrite Z.add_0_r, u32_small.
  - simpl. by rewrite Z.add_0_r, u32_small.
Qed.

(** What the import of such an image yields. *)
Definition import_accepts (cs : list chunk) (crc : option Z) (check : bool) : bool :=
  match crc with
  | Some v => negb check || (v =? sparse_crc32 0 (expand_chunks cs))
  | None => true
  end.

Record imported (T : Z) (cs : list chunk) (f : sparse_file) : Prop := {
  imp_wf : sf_wf f;
  imp_bs : sf_block_size f = bs;
  imp_len : sf_len f = T * bs;
  imp_fill : Forall (fill_aligned bs) (data_blocks (sf_blocks f));
  imp_image off : image e bs (data_blocks (sf_blocks f)) off = chunks_image bs cs 0 off }.

Lemma length_total cs : Forall (chunk_ok bs) cs -> Z.of_nat (length cs) <= total_blocks bs cs.
Proof using Hbs.
  pose proof Hbs as [[Hb0 _] _].
  induction 1 as [|c cs Hc Hcs IH]; [done|]. rewrite total_blocks_cons. cbn [length].
  enough (0 < chunk_blocks bs c) by lia. destruct c as [d|v n|n|v]; simpl in *; [|lia|lia|done].
  destruct Hc as (? & Hm & _). pose proof (Z.div_mod (Z.of_nat (length d)) bs). nia.
Qed.

Definition crc_chunks (crc : option Z) : nat := match crc with Some _ => 1 | None => 0 end.

Definition crc_tail (crc : option Z) : list Z :=
  match crc with Some v => chunk_bytes bs (ChunkCrc v) | None => [] end.

(** The part of an import behind the header. *)
Lemma read_body_spec cs crc st pre junk :
  reading st pre (chunks_bytes bs cs ++ crc_tail crc ++ junk) 0 ->
  Forall (chunk_ok bs) cs -> total_blocks bs cs < 2 ^ 31 ->
  (forall v, crc = Some v -> is_u32 v) ->
  exists st' cur, reading st' (pre ++ chunks_bytes bs cs ++ crc_tail crc) junk
      (total_blocks bs cs) /\
    (forall off, rs_image st' off =
      match rs_image st off with Some b => Some b | None => chunks_image bs cs 0 off end) /\
    sf_len (rs_file st') = sf_len (rs_file st) /\
    read_chunks (length cs + (crc_chunks crc)) CHUNK_HEADER_LEN 0 st =
      if match crc, rs_crc st with
         | Some v, Some c => v =? sparse_crc32 c (expand_chunks cs)
         | _, _ => true
         end
      then Done (st', 0, total_blocks bs cs) else Done (st', - EINVAL, cur).
Proof using Hbs.
  intros Hrd Hok Hlt Hv. pose proof (total_blocks_nonneg cs Hok).
  destruct (read_chunks_spec (crc_chunks crc) cs st pre _ 0 Hrd Hok ltac:(lia) ltac:(lia))
    as (st1 & E1 & Hr1 & [Hi1 Hc1 Hl1]). rewrite Z.add_0_l in *. rewrite E1.
  destruct crc as [v|].
  - destruct (read_crc_chunk 0 st1 _ v junk _ Hr1 (Hv v eq_refl)) as (st2 & Hr2 & Hf2 & E2);
      [unfold is_u32; lia|].
    exists st2, (total_blocks bs cs). rewrite app_assoc. split; [done|].
    unfold rs_image in *. rewrite Hf2. split; [done|]. split; [done|].
    cbn [crc_chunks]. rewrite E2, Hc1.
    destruct (rs_crc st); simpl; [|done]. by destruct (v =? _).
  - exists st1, 0. rewrite app_nil_r. by destruct (rs_crc st).
Qed.

(** An image as the writer lays it out: header, chunks, and the checksum. *)
Definition stored_image (cs : list chunk) (crc : option Z) : list Z :=
  sparse_header_bytes (image_header bs (total_blocks bs cs * bs) (Z.of_nat (length cs))
    (bool_decide (is_Some crc)))
  ++ chunks_bytes bs cs ++ crc_tail crc.

Definition stored_header (cs : list chunk) (crc : option Z) : sparse_header :=
  image_header bs (total_blocks bs cs * bs) (Z.of_nat (length cs)) (bool_decide (is_Some crc)).

Lemma stored_header_spec cs crc :
  Forall (chunk_ok bs) cs -> total_blocks bs cs < 2 ^ 31 ->
  parse_sparse_header (sparse_header_bytes (stored_header cs crc)) = stored_header cs crc /\
  total_blks (stored_header cs crc) = total_blocks bs cs /\
  Z.to_nat (total_chunks (stored_header cs crc)) = (length cs + crc_chunks crc)%nat.
Proof using Hbs.
  intros Hok HT. pose proof Hbs as [[Hb0 Hb32] _]. pose proof (length_total cs Hok).
  pose proof (total_blocks_nonneg cs Hok). split; [|split].
  - rewrite <- (app_nil_r (sparse_header_bytes _)). by apply parse_image_header.
  - simpl. rewrite div_round_up_mul by done. apply u32_small. unfold is_u32. lia.
  - simpl. destruct crc; simpl; rewrite !u32_small; rewrite ?u32_small; unfold is_u32; lia.
Qed.

(** [sparse_file_read_sparse] on such an image, into an empty file. *)
Lemma sparse_file_read_sparse_spec src al copybuf s check cs crc junk :
  reading (mk_rstate src al s None) [] (stored_image cs crc ++ junk) 0 ->
  data_blocks (sf_blocks s) = [] ->
  Forall (chunk_ok bs) cs -> total_blocks bs cs < 2 ^ 31 ->
  (forall v, crc = Some v -> is_u32 v) ->
  exists st pre, sparse_file_read_sparse copybuf src al s check
      = Done (st, if import_accepts cs crc check then 0 else - EINVAL) /\
    reading st pre junk (total_blocks bs cs) /\
    (forall off, rs_image st off = chunks_image bs cs 0 off) /\
    sf_len (rs_file st) = sf_len s.
Proof using Hbs.
  intros Hrd Hempty Hok HT Hv.
  destruct (stored_header_spec cs crc Hok HT) as (Hparse & HtT & Htc).
  unfold sparse_file_read_sparse.
  assert (Hbuf : exists al1, no_oom al1 /\ (alloc_ok al1 (data_blocks (sf_blocks s))) /\
    (if copybuf then (true, al)
    else match malloc al with (Some _, al) => (true, al) | (None, al) => (false, al) end)
    = (true, al1)).
  { destruct Hrd as [_ [_ _ _ Hal Hoom _ _]]. simpl in *. destruct copybuf; [by exists al|].
    unfold malloc. rewrite Hoom by lia. eexists. split; [|split; [|reflexivity]].
    - intros p Hp. simpl in *. apply Hoom. lia.
    - intros p. rewrite Hempty. by intros ?%elem_of_nil. }
  destruct Hbuf as (al1 & Hoom1 & Hal1 & ->). simpl (negb true). cbv iota.
  pose proof Hrd as [Hs _]. cbn [rs_src] in Hs. unfold stored_image in Hs.
  fold (stored_header cs crc) in Hs. rewrite <- !app_assoc in Hs.
  destruct (src_read e _ _ _ _ Hs ltac:(done)) as (src1 & E1 & Hs1).
  change (Z.of_nat (length (sparse_header_bytes _))) with SPARSE_HEADER_LEN in E1.
  rewrite E1, Hparse, HtT, Htc. set (h := stored_header cs crc) in *.
  change (magic h) with SPARSE_HEADER_MAGIC. change (major_version h) with SPARSE_HEADER_MAJOR_VER.
  change (file_hdr_sz h) with SPARSE_HEADER_LEN. change (chunk_hdr_sz h) with CHUNK_HEADER_LEN.
  change (SPARSE_HEADER_LEN <? SPARSE_HEADER_LEN) with false.
  change (CHUNK_HEADER_LEN <? CHUNK_HEADER_LEN) with false.
  change (skip_header src1 (SPARSE_HEADER_LEN - SPARSE_HEADER_LEN)) with (src1, 0).
  rewrite !Z.eqb_refl. simpl (negb _). cbv iota beta.
  set (st1 := mk_rstate src1 al1 s (if check then Some 0 else None)).
  change (set_src (set_src _ _) src1) with st1.
  assert (Hrd1 : reading st1 (sparse_header_bytes h) (chunks_bytes bs cs ++ crc_tail crc ++ junk) 0).
  { destruct Hrd as [_ []]. by constructor. }
  destruct (read_body_spec cs crc st1 _ junk Hrd1 Hok HT Hv) as (st2 & cur & Hr2 & Hi2 & Hl2 & E2).
  exists st2, ([] ++ sparse_header_bytes h ++ chunks_bytes bs cs ++ crc_tail crc).
  change (0 <? 0) with false. cbv iota. rewrite E2. split; [|split; [done|split; [|done]]].
  - unfold import_accepts. destruct crc as [v|], check; simpl; rewrite ?Z.eqb_refl; try done.
    destruct (v =? _); simpl; by rewrite ?Z.eqb_refl.
  - intros off. rewrite Hi2. unfold rs_image. simpl. by rewrite Hempty.
Qed.

(** Importing an image laid out by the writer: the only thing that can reject
    it is a checksum chunk that differs from the checksum of the expanded
    image. *)
Lemma import_source_spec src al copybuf verbose check cs crc junk :
  src_rep e src [] (stored_image cs crc ++ junk) -> no_oom al ->
  Forall (chunk_ok bs) cs -> 0 < total_blocks bs cs < 2 ^ 31 ->
  (forall v, crc = Some v -> is_u32 v) ->
  exists f src' al', sparse_file_import_source copybuf src al verbose check
      = Done (if import_accepts cs crc check then Some f else None, src', al') /\
    imported (total_blocks bs cs) cs f /\
    alloc_ok al' (data_blocks (sf_blocks f)) /\ no_oom al'.
Proof using Hbs.
  intros Hsrc Hoom Hok HT Hv. pose proof Hbs as [[Hb0 Hb32] Hb4].
  destruct (stored_header_spec cs crc Hok ltac:(lia)) as (Hparse & HtT & Htc).
  pose proof Hsrc as Hs. unfold stored_image in Hs.
  fold (stored_header cs crc) in Hs. rewrite <- !app_assoc in Hs.
  destruct (src_read e _ _ _ _ Hs ltac:(done)) as (src1 & E1 & Hs1).
  change (Z.of_nat (length (sparse_header_bytes _))) with SPARSE_HEADER_LEN in E1.
  unfold sparse_file_import_source. rewrite E1, Hparse, HtT.
  set (h := stored_header cs crc) in *. set (T := total_blocks bs cs) in *.
  change (magic h) with SPARSE_HEADER_MAGIC. change (major_version h) with SPARSE_HEADER_MAJOR_VER.
  change (file_hdr_sz h) with SPARSE_HEADER_LEN. change (chunk_hdr_sz h) with CHUNK_HEADER_LEN.
  change (blk_sz h) with bs. rewrite Hb4, !Z.eqb_refl.
  change (SPARSE_HEADER_LEN <? SPARSE_HEADER_LEN) with false.
  change (CHUNK_HEADER_LEN <? CHUNK_HEADER_LEN) with false.
  destruct (Z.eqb_spec bs 0); [lia|]. destruct (Z.eqb_spec T 0); [lia|].
  simpl (negb _). simpl (_ || _). cbv iota.
  rewrite s64_small by nia. destruct (new_file_exists al bs (T * bs) Hoom) as (al2 & Hoom2 & ->).
  cbn [obind]. destruct (src_rewind e _ _ _ Hs1) as (src2 & -> & Hs2). simpl (0 <? 0). cbv iota.
  assert (Hs3 : src_rep e src2 [] (stored_image cs crc ++ junk)).
  { unfold stored_image. fold (stored_header cs crc). fold h. by rewrite <- !app_assoc. }
  set (s0 := mk_sparse_file bs (T * bs) verbose (backed_block_list_new bs)).
  assert (Hrd : reading (mk_rstate src2 al2 s0 None) [] (stored_image cs crc ++ junk) 0).
  { constructor; [done|]. by apply building_new. }
  destruct (sparse_file_read_sparse_spec src2 al2 copybuf s0 check cs crc junk Hrd eq_refl Hok
    ltac:(lia) Hv) as (st & pre & E & Hr & Hi & Hl).
  cbn [sf_block_size sf_len sf_blocks]. fold s0. rewrite E. cbn [obind].
  exists (rs_file st), (rs_src st), (rs_al st). split; [|split; [|split; apply Hr]].
  - by destruct (import_accepts cs crc check).
  - constructor; [|apply Hr|done|apply Hr|done].
    eapply building_sf_wf; [done|apply Hr|done|]. fold T. lia.
Qed.

End chunk_proofs.

(** * Proofs: reading back what was written *)

(** The image with each block's data padded to whole blocks, as the chunks of
    the format can only describe whole blocks. *)
Definition padded_byte (e : env) (b : backed_block) (i : Z) : Z :=
  match bb_kind b with
  | BACKED_BLOCK_FILL _ => payload e (bb_kind b) i
  | _ => if i <? bb_len b then payload e (bb_kind b) i else 0
  end.

Fixpoint padded_image (e : env) (bs : Z) (l : list backed_block) (off : Z) : option Z :=
  match l with
  | [] => None
  | b :: t =>
      if (bb_block b * bs <=? off) && (off <? bb_end bs b * bs)
      then Some (padded_byte e b (off - bb_block b * bs))
      else padded_image e bs t off
  end.

(** Where the sparse file defines a byte, the padded image has that byte. *)
Lemma padded_image_extends e bs lo l off b :
  block_size_ok bs -> chain bs lo l -> image e bs l off = Some b -> padded_image e bs l off = Some b.
Proof.
  intros Hbs. pose proof Hbs as [[Hb0 _] _]. revert lo.
  induction l as [|x l IH]; intros lo; [done|]. intros (Hlo & Hx & Hl). simpl. unfold covers.
  pose proof (div_round_up_bounds (bb_len x) bs Hb0).
  assert (bb_block x * bs + bb_len x <= bb_end bs x * bs) by (unfold bb_end; nia).
  destruct (Z.leb_spec (bb_block x * bs) off); simpl; [|by eapply IH].
  destruct (Z.ltb_spec off (bb_block x * bs + bb_len x)).
  - destruct (Z.ltb_spec off (bb_end bs x * bs)); [|lia]. intros <-. f_equal. unfold padded_byte.
    destruct (Z.ltb_spec (off - bb_block x * bs) (bb_len x)); [|lia]. by destruct (bb_kind x).
  - intros E. destruct (Z.ltb_spec off (bb_end bs x * bs)); [|by eapply IH].
    by rewrite (image_below bs Hbs e (bb_end bs x)) in E by done.
Qed.

Lemma nth_map_seqZ (f : Z -> Z) n i :
  0 <= i < n -> nth (Z.to_nat i) (map f (seqZ 0 n)) 0 = f i.
Proof.
  intros Hi. rewrite (nth_indep _ 0 (f 0)) by (rewrite length_map, length_seqZ; lia).
  rewrite map_nth. f_equal. rewrite nth_lookup.
  rewrite (lookup_seqZ_lt 0 n (Z.to_nat i)) by lia. simpl. lia.
Qed.

Lemma nth_pad_to bs d i :
  0 <= i -> nth (Z.to_nat i) (pad_to bs d) 0 = if i <? Z.of_nat (length d) then nth (Z.to_nat i) d 0 else 0.
Proof.
  intros Hi. unfold pad_to. destruct (Z.ltb_spec i (Z.of_nat (length d))).
  - apply app_nth1. lia.
  - rewrite app_nth2 by lia. rewrite nth_lookup.
    destruct (replicate _ _ !! _) eqn:E; [|done]. by apply lookup_replicate in E as [-> _].
Qed.

Section roundtrip.
Context (e : env) (bs : Z) (Hbs : block_size_ok bs).

Lemma block_chunk_spec b :
  node_ok bs b -> block_writable e bs b ->
  chunk_ok bs (block_chunk e bs b) /\
  chunk_blocks bs (block_chunk e bs b) = bb_end bs b - bb_block b /\
  forall off, chunk_image bs (block_chunk e bs b) (bb_block b) off =
    if (bb_block b * bs <=? off) && (off <? bb_end bs b * bs)
    then Some (padded_byte e b (off - bb_block b * bs)) else None.
Proof using Hbs.
  intros Hb [_ Hw]. pose proof Hbs as [[Hb0 _] _]. destruct Hb as [Hn0 Hl0 Hend Hk].
  pose proof (div_round_up_bounds (bb_len b) bs Hb0) as Hround.
  unfold bb_end, block_chunk, padded_byte, kind_ok in *.
  set (n := DIV_ROUND_UP (bb_len b) bs) in *. assert (Hn : 0 < n) by nia.
  assert (Hraw : CHUNK_HEADER_LEN + ALIGN (bb_len b) bs < 2 ^ 32 ->
    chunk_ok bs (ChunkRaw (pad_to bs (payload_bytes e b))) /\
    chunk_blocks bs (ChunkRaw (pad_to bs (payload_bytes e b))) = n /\
    forall off, chunk_image bs (ChunkRaw (pad_to bs (payload_bytes e b))) (bb_block b) off =
      if (bb_block b * bs <=? off) && (off <? (bb_block b + n) * bs)
      then Some (if off - bb_block b * bs <? bb_len b
                 then payload e (bb_kind b) (off - bb_block b * bs) else 0) else None).
  { intros Hsz. pose proof (length_payload_bytes e b ltac:(lia)) as Hpl.
    pose proof (length_pad_to bs (payload_bytes e b) Hb0) as Hlen.
    rewrite Hpl in Hlen. unfold ALIGN in *. fold n in Hlen, Hsz.
    cbn [chunk_ok chunk_blocks chunk_image]. rewrite Hlen.
    split; [|split; [by rewrite Z.mul_comm, Z.div_mul by lia|]].
    - split; [nia|]. split; [by rewrite Z.mul_comm, Z.mod_mul by lia|lia].
    - intros off. replace ((bb_block b + n) * bs) with (bb_block b * bs + bs * n) by lia.
      destruct (Z.leb_spec (bb_block b * bs) off); [|done].
      destruct (Z.ltb_spec off (bb_block b * bs + bs * n)); [|done]. simpl. f_equal.
      rewrite nth_pad_to, Hpl by lia. destruct (Z.ltb_spec (off - bb_block b * bs) (bb_len b)); [|done].
      unfold payload_bytes. apply nth_map_seqZ. lia. }
  replace (bb_block b + n - bb_block b) with n by lia.
  destruct (bb_kind b); try (by apply Hraw). done.
Qed.

Lemma gap_chunk_ok a b : Forall (chunk_ok bs) (gap_chunk a b).
Proof using. unfold gap_chunk. destruct (Z.ltb_spec a b); repeat constructor; simpl; lia. Qed.

Lemma gap_total a b cs : a <= b -> total_blocks bs (gap_chunk a b ++ cs) = b - a + total_blocks bs cs.
Proof using. intros. unfold gap_chunk. destruct (Z.ltb_spec a b); simpl; lia. Qed.

Lemma gap_image a b cs off :
  a <= b -> chunks_image bs (gap_chunk a b ++ cs) a off = chunks_image bs cs b off.
Proof using.
  intros. unfold gap_chunk. destruct (Z.ltb_spec a b); simpl.
  - by replace (a + (b - a)) with b by lia.
  - by replace a with b by lia.
Qed.

Lemma chunks_of_spec l lo tail :
  chain bs lo l -> Forall (block_writable e bs) l ->
  let cs := chunks_of e bs l lo ++ tail in
  (Forall (chunk_ok bs) tail -> Forall (chunk_ok bs) cs) /\
  total_blocks bs cs = chain_end bs lo l - lo + total_blocks bs tail /\
  forall off, chunks_image bs cs lo off =
    match padded_image e bs l off with
    | Some b => Some b
    | None => chunks_image bs tail (chain_end bs lo l) off
    end.
Proof using Hbs.
  intros Hch Hw. cbn zeta. revert lo Hch. induction Hw as [|b l Hb Hl IH]; intros lo Hch.
  { simpl. split; [done|]. split; [lia|done]. }
  destruct Hch as (Hlo & Hbok & Hch).
  destruct (block_chunk_spec b Hbok Hb) as (Hok & Hn & Himg).
  destruct (IH _ Hch) as (I1 & I2 & I3). cbn [chunks_of]. rewrite <- app_assoc.
  change (chain_end bs lo (b :: l)) with (chain_end bs (bb_end bs b) l).
  split; [|split].
  - intros Ht. apply Forall_app. split; [apply gap_chunk_ok|]. constructor; auto.
  - rewrite gap_total by done. cbn [app]. rewrite total_blocks_cons, Hn, I2. lia.
  - intros off. rewrite gap_image by done. cbn [app chunks_image padded_image].
    rewrite Himg, Hn. replace (bb_block b + (bb_end bs b - bb_block b)) with (bb_end bs b) by lia.
    rewrite I3. by destruct (_ && _).
Qed.

End roundtrip.

(** The chunks of a file describe its padded image. *)
Lemma file_chunks_spec e s :
  sf_wf s -> Forall (block_writable e (sf_block_size s)) (data_blocks (sf_blocks s)) ->
  Forall (chunk_ok (sf_block_size s)) (file_chunks e s) /\
  total_blocks (sf_block_size s) (file_chunks e s) = sf_blocks_total s /\
  forall off, chunks_image (sf_block_size s) (file_chunks e s) 0 off
              = padded_image e (sf_block_size s) (data_blocks (sf_blocks s)) off.
Proof.
  intros Hwf Hw. pose proof (bbs_ok s Hwf) as Hbs. pose proof (sf_chain s Hwf) as Hch.
  destruct Hwf as [_ _ _ Hfits _].
  destruct (chunks_of_spec e _ Hbs _ 0 (gap_chunk (chain_end (sf_block_size s) 0
    (data_blocks (sf_blocks s))) (sf_blocks_total s)) Hch Hw) as (H1 & H2 & H3).
  split; [apply H1, gap_chunk_ok|]. split.
  - unfold file_chunks. rewrite H2. rewrite <- (app_nil_r (gap_chunk _ _)), gap_total by done. simpl. lia.
  - intros off. unfold file_chunks. rewrite H3. rewrite <- (app_nil_r (gap_chunk _ _)), gap_image by done.
    simpl. by destruct (padded_image _ _ _ _).
Qed.
