(* ===== verification/Resparse.v ===== *)
(** libsparse/sparse.cpp: [sparse_file_resparse], which distributes the blocks of
    a sparse file over several sparse files, each small enough to be written
    into [max_len] bytes. *)

From S2P Require Import Prelude.
From S2P Require Import BackedBlock.
From S2P Require Import OutputFile.
From S2P Require Import SparseFile.

Local Open Scope Z_scope.

(** * The operations *)

(** [count = n], the variable the counting callback writes to. *)
Definition set_count (out : output_file (callback_file Z)) (n : Z)
  : output_file (callback_file Z) :=
  mk_output_file (cur_out_ptr out) (chunk_cnt out) (crc32 out) (sparse_ops out) (use_crc out)
    (of_block_size out) (of_len out) (counter_file n).

(** sizeof(sparse_header_t) + 2 * sizeof(chunk_header_t) + sizeof(uint32_t) *)
Definition overhead : Z := SPARSE_HEADER_LEN + 2 * CHUNK_HEADER_LEN + 4.

(** How the loop of [move_chunks_up_to_len] was left: [mv_bb] is the value it
    returns, [mv_moves] is false on [goto out]. *)
Record move_end := mk_move_end {
  mv_al : allocator;
  mv_from : backed_block_list;
  mv_out : output_file (callback_file Z);
  mv_bb : option Z;
  mv_moves : bool;
  mv_last_bb : option Z }.

(** The loop; [bbs] are the nodes from the current one on. *)
Fixpoint move_chunks_loop (e : env) (al : allocator) (from : backed_block_list) (bs len : Z)
    (bbs : list backed_block) (out : output_file (callback_file Z)) (file_len last_block : Z)
    (last_bb : option Z) : outcome move_end :=
  match bbs with
  | [] => Done (mk_move_end al from out None true last_bb)
  | bb :: bbs =>
      let out := set_count out (if last_block <? bb_block bb then CHUNK_HEADER_LEN else 0) in
      let last_block := u32 (bb_block bb + DIV_ROUND_UP (bb_len bb) bs) in
      let* (out, ret) := sparse_file_write_block e out bb in
      if negb (ret =? 0) then Done (mk_move_end al from out None false last_bb)
      else
        let count := priv (file out) in
        if len <? file_len + count then
          let file_len := file_len + CHUNK_HEADER_LEN in
          if match last_bb with None => true | Some _ => len / 8 <? len - file_len end then
            let* (_, al, from) := backed_block_split al from (bb_addr bb) (u32 (len - file_len)) in
            Done (mk_move_end al from out (Some (bb_addr bb)) true (Some (bb_addr bb)))
          else Done (mk_move_end al from out (Some (bb_addr bb)) true last_bb)
        else
          move_chunks_loop e al from bs len bbs out (file_len + count) last_block
            (Some (bb_addr bb))
  end.

(** Returns the node where the next file starts, if any, and both lists. *)
Definition move_chunks_up_to_len (e : env) (al : allocator) (from to : sparse_file) (len : Z)
  : outcome (option Z * allocator * sparse_file * sparse_file) :=
  let len := u32 (len - overhead) in
  let start := backed_block_iter_new (sf_blocks from) in
  match output_file_open al (counter_file 0) (sf_block_size to) (sf_len to) true 0 false with
  | (inr _, al) => Done (None, al, from, to)
  | (inl out, al) =>
      let* m := move_chunks_loop e al (sf_blocks from) (sf_block_size to) len
                  (data_blocks (sf_blocks from)) out 0 0 None in
      let* (from', to') :=
        if mv_moves m
        then backed_block_list_move (mv_from m) (sf_blocks to) start (mv_last_bb m)
        else Done (mv_from m, sf_blocks to) in
      let* _ := output_file_close (mv_out m) in
      Done (mv_bb m, mv_al m, set_blocks from from', set_blocks to to')
  end.

(** The loop of [sparse_file_resparse]; [outs] is [out_s] filled so far. *)
Fixpoint resparse_loop (fuel : nat) (e : env) (al : allocator) (in_s tmp : sparse_file)
    (max_len : Z) (outs : list sparse_file) (c out_s_count : Z)
  : outcome (list sparse_file * Z * sparse_file * sparse_file * allocator) :=
  match fuel with
  | O => Crash OutOfFuel
  | S fuel =>
      let* (s, al) := sparse_file_new al (sf_block_size in_s) (sf_len in_s) in
      match s with
      | None => Crash BadPointer
      | Some s =>
          let* (bb, al, in_s, s) := move_chunks_up_to_len e al in_s s max_len in
          let* (outs, tmp) :=
            if c <? out_s_count then Done (outs ++ [s], tmp)
            else
              let* (_, t) := backed_block_list_move (sf_blocks s) (sf_blocks tmp) None None in
              Done (outs, set_blocks tmp t) in
          let c := c + 1 in
          match bb with
          | Some _ => resparse_loop fuel e al in_s tmp max_len outs c out_s_count
          | None => Done (outs, c, in_s, tmp, al)
          end
      end
  end.

(** Returns the result, the files stored into [out_s] and what is left of
    [in_s]. *)
Definition sparse_file_resparse (fuel : nat) (e : env) (al : allocator) (in_s : sparse_file)
    (max_len out_s_count : Z) : outcome (Z * list sparse_file * sparse_file * allocator) :=
  let* (tmp, al) := sparse_file_new al (sf_block_size in_s) (sf_len in_s) in
  match tmp with
  | None => Done (- ENOMEM, [], in_s, al)
  | Some tmp =>
      let* (outs, c, in_s, tmp, al) :=
        resparse_loop fuel e al in_s tmp max_len [] 0 out_s_count in
      let* (_, l) := backed_block_list_move (sf_blocks tmp) (sf_blocks in_s) None None in
      Done (c, outs, set_blocks in_s l, al)
  end.

(** * Sizes *)

Section sizes.
Context (e : env) (bs : Z) (Hbs : block_size_ok bs).

Definition gap_size (lo : Z) (b : backed_block) : Z := if lo <? bb_block b then CHUNK_HEADER_LEN else 0.

Definition chunk_size (b : backed_block) : Z :=
  match bb_kind b with
  | BACKED_BLOCK_FILL _ => CHUNK_HEADER_LEN + 4
  | _ => CHUNK_HEADER_LEN + ALIGN (bb_len b) bs
  end.

(** The bytes the chunks of [l] take in a file whose last block was [lo]. *)
Fixpoint blocks_size (l : list backed_block) (lo : Z) : Z :=
  match l with
  | [] => 0
  | b :: l => gap_size lo b + chunk_size b + blocks_size l (bb_end bs b)
  end.

Definition sum_len (l : list backed_block) : Z := foldr (fun b n => bb_len b + n) 0 l.

Definition fits_chunk (b : backed_block) : Prop := CHUNK_HEADER_LEN + ALIGN (bb_len b) bs < 2 ^ 32.

Lemma blocks_size_snoc l b lo :
  blocks_size (l ++ [b]) lo = blocks_size l lo + gap_size (chain_end bs lo l) b + chunk_size b.
Proof using.
  revert lo; induction l as [|c l IH]; intros lo; simpl; [lia|]. rewrite IH. simpl. lia.
Qed.

Lemma gap_size_bounds lo b : 0 <= gap_size lo b <= CHUNK_HEADER_LEN.
Proof using. unfold gap_size, CHUNK_HEADER_LEN. destruct (_ <? _); lia. Qed.

Lemma length_chunk b :
  node_ok bs b -> Z.of_nat (length (chunk_bytes bs (block_chunk e bs b))) = chunk_size b.
Proof using Hbs.
  intros [_ Hl _ _]. pose proof Hbs as [[Hb0 _] _]. unfold block_chunk, chunk_size, chunk_bytes.
  assert (Hraw : Z.of_nat (length (pad_to bs (payload_bytes e b))) = ALIGN (bb_len b) bs).
  { pose proof (length_payload_bytes e b ltac:(lia)) as Hp.
    pose proof (div_round_up_bounds (bb_len b) bs Hb0). unfold pad_to, ALIGN in *.
    rewrite length_app, length_replicate, Hp. lia. }
  destruct (bb_kind b); rewrite length_app; rewrite ?Nat2Z.inj_add, ?Hraw; done.
Qed.

Lemma chunk_size_bounds b : node_ok bs b -> fits_chunk b -> 0 <= chunk_size b < 2 ^ 32.
Proof using Hbs.
  intros [_ Hl _ _] Hf. pose proof Hbs as [[Hb0 _] _].
  pose proof (div_round_up_bounds (bb_len b) bs Hb0).
  unfold chunk_size, fits_chunk, ALIGN, CHUNK_HEADER_LEN in *. destruct (bb_kind b); lia.
Qed.

Lemma chunks_bytes_app cs ds : chunks_bytes bs (cs ++ ds) = chunks_bytes bs cs ++ chunks_bytes bs ds.
Proof using. apply bind_app. Qed.

Lemma chunks_bytes_cons c cs : chunks_bytes bs (c :: cs) = chunk_bytes bs c ++ chunks_bytes bs cs.
Proof using. done. Qed.

Lemma length_gap a b :
  Z.of_nat (length (chunks_bytes bs (gap_chunk a b))) = if a <? b then CHUNK_HEADER_LEN else 0.
Proof using. unfold gap_chunk. by destruct (_ <? _). Qed.

Lemma length_blocks l lo :
  chain bs lo l -> Z.of_nat (length (chunks_bytes bs (chunks_of e bs l lo))) = blocks_size l lo.
Proof using Hbs.
  revert lo; induction l as [|b l IH]; intros lo; [done|]. intros (Hlo & Hb & Hl).
  cbn [chunks_of blocks_size]. rewrite chunks_bytes_app, chunks_bytes_cons, !length_app.
  rewrite !Nat2Z.inj_add, length_gap, length_chunk, IH by done. unfold gap_size. lia.
Qed.

(** A file whose block chunks fit into [n] bytes takes at most 40 more, and
    another 16 for the checksum. *)
Lemma sparse_image_size s crc :
  sf_wf s -> sf_block_size s = bs ->
  Z.of_nat (length (sparse_image e s crc)) <=
  SPARSE_HEADER_LEN + blocks_size (data_blocks (sf_blocks s)) 0 + CHUNK_HEADER_LEN
  + (if crc then CHUNK_HEADER_LEN + 4 else 0).
Proof using Hbs.
  intros Hwf E. pose proof (sf_chain s Hwf) as Hch. rewrite E in Hch.
  unfold sparse_image, file_chunks. rewrite E, chunks_bytes_app, !length_app, !Nat2Z.inj_add.
  rewrite length_blocks, length_gap by done.
  change (Z.of_nat (length (sparse_header_bytes _))) with SPARSE_HEADER_LEN.
  unfold CHUNK_HEADER_LEN. destruct (_ <? _), crc; simpl; lia.
Qed.

End sizes.

(** * The move loop *)

Section moving.
Context (e : env) (bs : Z) (Hbs : block_size_ok bs) (Henv : env_total e).

(** [l'] is [l] with some nodes split in two, the new nodes at fresh addresses. *)
Record resplit (al : allocator) (l l' : list backed_block) : Prop := {
  rsp_chain lo : chain bs lo l -> chain bs lo l';
  rsp_nodup : NoDup (addrs l');
  rsp_addrs p : p ∈ addrs l' -> p ∈ addrs l \/ next_addr al <= p;
  rsp_image off : image e bs l' off = image e bs l off;
  rsp_end lo : chain_end bs lo l' = chain_end bs lo l;
  rsp_sum : sum_len l' = sum_len l;
  rsp_fits : Forall (fits_chunk bs) l' }.

Lemma resplit_refl al l : NoDup (addrs l) -> Forall (fits_chunk bs) l -> resplit al l l.
Proof using. intros Hnd Hf. constructor; auto. Qed.

Lemma sum_len_app l k : sum_len (l ++ k) = sum_len l + sum_len k.
Proof using. induction l as [|b l IH]; simpl; lia. Qed.

Lemma fits_chunk_le b b' : bb_len b' <= bb_len b -> fits_chunk bs b -> fits_chunk bs b'.
Proof using Hbs.
  intros Hle. pose proof Hbs as [[Hb0 _] _]. unfold fits_chunk, ALIGN, DIV_ROUND_UP.
  pose proof (Z.div_le_mono (bb_len b' + bs - 1) (bb_len b + bs - 1) bs). nia.
Qed.

Lemma resplit_split al pre b q p post :
  NoDup (addrs (pre ++ b :: post)) -> Forall (fits_chunk bs) (pre ++ b :: post) ->
  node_ok bs b -> 0 < q * bs < bb_len b -> next_addr al <= p -> p ∉ addrs (pre ++ b :: post) ->
  resplit al (pre ++ b :: post)
    (pre ++ set_len b (q * bs) :: second_half bs p b (q * bs) :: post).
Proof using Hbs.
  intros Hnd Hf Hb Hq Hp Hfresh. constructor.
  - intros lo. rewrite !chain_app. intros [? ?]. split; [done|]. by apply split_chain.
  - rewrite split_addrs. by apply NoDup_cons.
  - intros p'. rewrite split_addrs. intros [->|?]%elem_of_cons; [by right|by left].
  - intros off. by apply image_app_congr, split_image.
  - intros lo. by apply chain_end_split.
  - rewrite !sum_len_app. simpl. lia.
  - apply Forall_app in Hf as [? [Hfb ?]%Forall_cons]. apply Forall_app. split; [done|].
    repeat constructor; [..|done]; eapply fits_chunk_le; try exact Hfb; simpl; lia.
Qed.

Lemma fits_writable b : fits_chunk bs b -> block_writable e bs b.
Proof using Henv.
  intros Hf. destruct Henv as (Ho & Hm & Hd). split; destruct (bb_kind b); auto.
Qed.

(** Writing one block counts its bytes. *)
Lemma count_block out n b :
  sparse_ops out = true -> of_block_size out = bs -> use_crc out = false ->
  node_ok bs b -> fits_chunk bs b -> 0 <= n < 2 ^ 32 ->
  exists out', sparse_file_write_block e (set_count out n) b = Done (out', 0) /\
    priv (file out') = n + chunk_size bs b /\
    sparse_ops out' = true /\ of_block_size out' = bs /\ use_crc out' = false.
Proof using Hbs Henv.
  intros Hsp Hob Hu Hb Hf Hn.
  pose proof (chunk_size_bounds bs Hbs b Hb Hf).
  destruct (sparse_file_write_block_spec e (set_count out n) (replicate (Z.to_nat n) 0) b)
    as (out' & E & [Hr _ Hb' _ Hs' Hu']); simpl; rewrite ?Hob; try done.
  - by apply fits_writable.
  - rewrite length_replicate. unfold counter_file. f_equal. rewrite s64_small; lia.
  - exists out'. split; [done|]. simpl in *. rewrite Hr, Hob. simpl.
    rewrite length_app, length_replicate, Nat2Z.inj_add, length_chunk by done.
    rewrite s64_small by lia. split; [lia|]. repeat split; congruence.
Qed.

(** The chunk of a block cut to what is left of [len]. *)
Lemma cut_size b' len fl :
  0 < bb_len b' -> bb_len b' <= ALIGN_DOWN (len - (fl + CHUNK_HEADER_LEN)) bs ->
  bs <= len - (fl + CHUNK_HEADER_LEN) -> fl + chunk_size bs b' <= len.
Proof using Hbs.
  intros Hl Hle Hlen. pose proof Hbs as [[Hb0 _] Hb4]. unfold chunk_size.
  assert (4 <= bs) by (Z.div_mod_to_equations; lia).
  assert (ALIGN (bb_len b') bs <= len - (fl + CHUNK_HEADER_LEN)).
  { unfold ALIGN_DOWN, ALIGN, DIV_ROUND_UP in *. set (x := len - (fl + CHUNK_HEADER_LEN)) in *.
    pose proof (Z.div_mod x bs). pose proof (Z.mod_pos_bound x bs).
    assert ((bb_len b' + bs - 1) / bs <= x / bs); [|nia].
    apply Z.lt_succ_r. apply Z.div_lt_upper_bound; nia. }
  destruct (bb_kind b'); unfold CHUNK_HEADER_LEN in *; lia.
Qed.

(** How [move_chunks_loop] leaves the list: [seg] is to be moved. *)
Record moved (al : allocator) (l : list backed_block) (len : Z) (m : move_end)
    (seg rest : list backed_block) : Prop := {
  mvd_moves : mv_moves m = true;
  mvd_blocks : data_blocks (mv_from m) = seg ++ rest;
  mvd_last : mv_last_bb m = bb_addr <$> last seg;
  mvd_size : blocks_size bs seg 0 <= len + CHUNK_HEADER_LEN;
  mvd_seg : seg = [] -> l = [];
  mvd_done : mv_bb m = None -> rest = [];
  mvd_nil : l = [] -> mv_bb m = None;
  mvd_head : bb_addr <$> head (seg ++ rest) = bb_addr <$> head l;
  mvd_resplit : resplit al l (seg ++ rest);
  mvd_alloc : alloc_ok (mv_al m) (seg ++ rest);
  mvd_oom : oom (mv_al m) = oom al /\ next_addr al <= next_addr (mv_al m);
  mvd_out : sparse_ops (mv_out m) = true /\ use_crc (mv_out m) = false;
  mvd_wf : bbl_wf (mv_from m) /\ bbl_block_size (mv_from m) = bs }.

(** The branch that cuts the node [b] which does not fit any more. *)
Lemma cut_block al from len out pre b post :
  bbl_wf from -> bbl_block_size from = bs -> alloc_ok al (data_blocks from) -> no_oom al ->
  data_blocks from = pre ++ b :: post -> Forall (fits_chunk bs) (data_blocks from) ->
  sparse_ops out = true -> use_crc out = false -> len < 2 ^ 32 -> 0 <= blocks_size bs pre 0 ->
  bs <= len - (blocks_size bs pre 0 + CHUNK_HEADER_LEN) ->
  exists m seg rest,
    (let* (_, al, from) := backed_block_split al from (bb_addr b)
        (u32 (len - (blocks_size bs pre 0 + CHUNK_HEADER_LEN))) in
     Done (mk_move_end al from out (Some (bb_addr b)) true (Some (bb_addr b)))) = Done m /\
    moved al (data_blocks from) len m seg rest.
Proof using Hbs.
  intros Hwf Hb Hal Hoom E Hf Hsp Hu Hlen Hfl Hcut. pose proof Hbs as [[Hb0 _] _].
  assert (0 < CHUNK_HEADER_LEN) by done.
  rewrite u32_small by (unfold is_u32; lia).
  set (x := len - (blocks_size bs pre 0 + CHUNK_HEADER_LEN)) in *.
  destruct (backed_block_split_spec al from (bb_addr b) x Hwf Hal)
    as (al1 & from1 & E1 & [Hwf1 Hbs1 _ (pre0 & b0 & post0 & E0 & Ha0 & Hcase)] & Hal1).
  { apply Hoom. lia. }
  { rewrite E. unfold addrs. rewrite map_app. apply elem_of_app. right. by apply elem_of_cons; left. }
  { rewrite Hb. lia. }
  rewrite E1. cbn [obind]. pose proof (wf_nodup from Hwf) as Hnd.
  assert (Hbn : node_ok bs b).
  { pose proof (wf_chain from Hwf) as Hch. rewrite Hb in Hch. apply (chain_nodes _ Hbs) in Hch.
    rewrite E in Hch. by apply Forall_app in Hch as [_ [? _]%Forall_cons]. }
  assert (Hsplit1 : oom al1 = oom al /\ next_addr al <= next_addr al1)
    by (by eapply backed_block_split_alloc).
  rewrite E in E0. symmetry in Ha0. rewrite E in Hnd.
  destruct (NoDup_split_unique _ _ _ _ _ _ Hnd E0 Ha0) as (<- & <- & <-). clear E0 Ha0.
  rewrite Hb in *. assert (Hq : ALIGN_DOWN x bs = x / bs * bs) by (unfold ALIGN_DOWN; lia).
  pose proof (gap_size_bounds (chain_end bs 0 pre) b) as Hgap.
  destruct Hcase as [[Hle ->]|(p' & Hlt & Eblocks)].
  - eexists _, (pre ++ [b]), post. split; [reflexivity|]. rewrite E in *.
    constructor; cbn [mv_moves mv_from mv_last_bb mv_bb mv_al mv_out]; rewrite <- ?app_assoc; try done.
    + by rewrite last_snoc.
    + rewrite blocks_size_snoc. 
      pose proof (cut_size b len (blocks_size bs pre 0) (node_len bs b Hbn) Hle Hcut). lia.
    + by destruct pre.
    + by destruct pre.
    + by apply resplit_refl.
  - rewrite Hq in *.
    assert (Hpos : 0 < x / bs * bs). { assert (1 <= x / bs) by (apply Z.div_le_lower_bound; lia). nia. }
    set (b1 := set_len b (x / bs * bs)) in *.
    eexists _, (pre ++ [b1]), (second_half bs p' b (x / bs * bs) :: post). split; [reflexivity|].
    rewrite E in *.
    assert (Hp' : (p' ∉ addrs (pre ++ b :: post)) /\ next_addr al <= p').
    { pose proof (wf_nodup from1 Hwf1) as Hnd1. rewrite Eblocks in Hnd1. unfold b1 in Hnd1. rewrite split_addrs in Hnd1.
      apply NoDup_cons in Hnd1 as [Hn _]. split; [done|].
      revert E1. unfold backed_block_split. rewrite E, (split_at_first _ pre b post) by done.
      rewrite Hb, Hq. unfold malloc. rewrite (Hoom (next_addr al)) by lia.
      rewrite u32_small by (unfold is_u32; pose proof (Z.div_mod x bs); pose proof (Z.mod_pos_bound x bs); nia).
      destruct (Z.leb_spec (bb_len b) (x / bs * bs)); [lia|].
      intros [= _ <-]. simpl in Eblocks. apply app_inv_head in Eblocks.
      injection Eblocks as Ep. lia. }
    destruct Hp' as [Hp1 Hp2].
    constructor; cbn [mv_moves mv_from mv_last_bb mv_bb mv_al mv_out]; rewrite <- ?app_assoc; try done.
    + by rewrite last_snoc.
    + rewrite blocks_size_snoc. 
      pose proof (cut_size b1 len (blocks_size bs pre 0) Hpos
        ltac:(simpl; unfold x in *; lia) Hcut).
      change (gap_size (chain_end bs 0 pre) b1)
        with (gap_size (chain_end bs 0 pre) b). lia.
    + by destruct pre.
    + by destruct pre.
    + by destruct pre.
    + apply resplit_split; done || lia.
    + by rewrite Eblocks in Hal1.
Qed.

Lemma chain_split_node pre b post :
  chain bs 0 (pre ++ b :: post) ->
  chain_end bs 0 pre <= bb_block b /\ node_ok bs b /\ 0 <= chain_end bs 0 pre < 2 ^ 32.
Proof using Hbs.
  intros Hch. pose proof Hch as Hch'. apply chain_app in Hch as [Hp (Hlo & Hb & _)].
  fold (chain_end bs 0 pre) in Hlo. split; [done|]. split; [done|].
  pose proof (chain_end_ge bs 0 pre Hbs Hp). pose proof (chain_end_lt bs 0 pre ltac:(lia) Hp). lia.
Qed.

Lemma blocks_size_nonneg l lo :
  chain bs lo l -> Forall (fits_chunk bs) l -> 0 <= blocks_size bs l lo.
Proof using Hbs.
  revert lo. induction l as [|b l IH]; intros lo; [done|].
  intros (_ & Hb & Hch) [Hf Hfl]%Forall_cons. simpl. specialize (IH _ Hch Hfl).
  pose proof (gap_size_bounds lo b). pose proof (chunk_size_bounds bs Hbs b Hb Hf). lia.
Qed.

Lemma move_chunks_loop_spec al from len suf pre out :
  bbl_wf from -> bbl_block_size from = bs -> alloc_ok al (data_blocks from) -> no_oom al ->
  data_blocks from = pre ++ suf -> Forall (fits_chunk bs) (data_blocks from) ->
  sparse_ops out = true -> of_block_size out = bs -> use_crc out = false ->
  8 * bs <= len < 2 ^ 32 -> blocks_size bs pre 0 <= len ->
  exists m seg rest,
    move_chunks_loop e al from bs len suf out (blocks_size bs pre 0) (chain_end bs 0 pre)
      (bb_addr <$> last pre) = Done m /\
    moved al (data_blocks from) len m seg rest.
Proof using Hbs Henv.
  intros Hwf Hb Hal Hoom E Hf Hsp Hob Hu Hlen Hfl. pose proof Hbs as [[Hb0 _] Hb4].
  assert (4 <= bs) by (Z.div_mod_to_equations; lia).
  pose proof (wf_chain from Hwf) as Hch. rewrite Hb in Hch. pose proof (wf_nodup from Hwf) as Hnd.
  revert pre out E Hsp Hob Hu Hfl. induction suf as [|b suf IH]; intros pre out E Hsp Hob Hu Hfl.
  { rewrite app_nil_r in E. exists (mk_move_end al from out None true (bb_addr <$> last pre)), pre, [].
    split; [done|]. rewrite E in *.
    constructor; simpl; rewrite ?app_nil_r; try done; [unfold CHUNK_HEADER_LEN; lia|
      by apply resplit_refl]. }
  pose proof Hch as Hch1. rewrite E in Hch1.
  destruct (chain_split_node _ _ _ Hch1) as (Hlo & Hbn & Hce).
  assert (Hfb : fits_chunk bs b). { rewrite E in Hf. by apply Forall_app in Hf as [_ [? _]%Forall_cons]. }
  pose proof (gap_size_bounds (chain_end bs 0 pre) b) as Hgap.
  assert (Hpre0 : 0 <= blocks_size bs pre 0).
  { apply chain_app in Hch1 as [? _]. rewrite E in Hf. apply Forall_app in Hf as [? _].
    by apply blocks_size_nonneg. }
  cbn [move_chunks_loop]. fold (gap_size (chain_end bs 0 pre) b).
  destruct (count_block out (gap_size (chain_end bs 0 pre) b) b Hsp Hob Hu Hbn Hfb)
    as (out1 & -> & Hcnt & Hsp1 & Hob1 & Hu1); [unfold CHUNK_HEADER_LEN in *; lia|].
  cbn [obind]. simpl negb. cbv iota. rewrite Hcnt.
  destruct (Z.ltb_spec len (blocks_size bs pre 0 + (gap_size (chain_end bs 0 pre) b + chunk_size bs b)))
    as [Hover|Hfit].
  - destruct (last pre) as [lb|] eqn:Elast; cbn [fmap option_fmap option_map].
    + destruct (Z.ltb_spec (len / 8) (len - (blocks_size bs pre 0 + CHUNK_HEADER_LEN))) as [Hcut|Hkeep].
      * apply (cut_block al from len out1 pre b suf); try done; [lia|].
        assert (bs <= len / 8) by (apply Z.div_le_lower_bound; lia). lia.
      * eexists _, pre, (b :: suf). split; [reflexivity|]. rewrite E in *.
        constructor; cbn [mv_moves mv_from mv_last_bb mv_bb mv_al mv_out]; try done.
        -- by rewrite Elast.
        -- unfold CHUNK_HEADER_LEN; lia.
        -- by intros ->.
        -- by destruct pre.
        -- by apply resplit_refl.
    + apply last_None in Elast as ->. apply (cut_block al from len out1 [] b suf); try done; [lia|].
      simpl. unfold CHUNK_HEADER_LEN. lia.
  - assert (Hend : bb_end bs b < 2 ^ 32) by apply Hbn.
    pose proof (bb_end_gt bs Hbs b Hbn). pose proof (node_block bs b Hbn).
    change (bb_block b + DIV_ROUND_UP (bb_len b) bs) with (bb_end bs b).
    rewrite u32_small by (unfold is_u32; lia).
    destruct (IH (pre ++ [b]) out1) as (m & seg & rest & Em & Hm); try done.
    + by rewrite <- app_assoc.
    + rewrite blocks_size_snoc. lia.
    + exists m, seg, rest. split; [|done]. rewrite <- Em, blocks_size_snoc, last_snoc.
      unfold chain_end. rewrite foldl_app. simpl. f_equal. lia.
Qed.

Definition later (al al' : allocator) : Prop := oom al' = oom al /\ next_addr al <= next_addr al'.

Lemma malloc_later al r al' : malloc al = (r, al') -> later al al'.
Proof using. unfold malloc, later. destruct (oom al _); intros [= _ <-]; simpl; split; done || lia. Qed.

Lemma later_trans al al' al'' : later al al' -> later al' al'' -> later al al''.
Proof using. intros [? ?] [? ?]. split; [congruence|lia]. Qed.

Lemma output_file_open_later {F} `{FileOps F} al (f : F) b len sparse chunks crc r al' :
  output_file_open al f b len sparse chunks crc = (r, al') -> later al al'.
Proof using.
  unfold output_file_open, output_file_init.
  destruct (malloc al) as [[?|] a1] eqn:E1; [|by intros [= _ <-]; eapply malloc_later].
  apply malloc_later in E1.
  destruct (malloc a1) as [[?|] a2] eqn:E2; apply malloc_later in E2;
    [|intros [= _ <-]; by eapply later_trans].
  destruct (malloc a2) as [[?|] a3] eqn:E3; apply malloc_later in E3;
    [|intros [= _ <-]; eapply later_trans; [done|]; by eapply later_trans].
  assert (later al a3) by (eapply later_trans; [done|]; by eapply later_trans).
  destruct sparse; [|by intros [= _ <-]].
  destruct (out_write _ _) as [o w]. destruct (w <? 0); by intros [= _ <-].
Qed.

Lemma no_oom_after al al' : no_oom al -> later al al' -> no_oom al'.
Proof using. intros H [E Hle]. by eapply no_oom_later. Qed.

Lemma alloc_ok_after al al' l : alloc_ok al l -> later al al' -> alloc_ok al' l.
Proof using. intros H [E Hle] p Hp%H. lia. Qed.

(** What one call of [move_chunks_up_to_len] does: the blocks [l] of [from]
    become [seg], now in [to], and [rest], still in [from]. *)
Record move_result (al : allocator) (l : list backed_block) (max_len : Z)
    (bb : option Z) (al' : allocator) (seg rest : list backed_block) : Prop := {
  mr_size : blocks_size bs seg 0 <= max_len - overhead + CHUNK_HEADER_LEN;
  mr_seg : seg = [] -> l = [];
  mr_done : bb = None -> rest = [];
  mr_nil : l = [] -> bb = None;
  mr_resplit : resplit al l (seg ++ rest);
  mr_alloc : alloc_ok al' (seg ++ rest);
  mr_later : later al al' }.

Lemma resplit_weaken al al1 l l' : next_addr al <= next_addr al1 -> resplit al1 l l' -> resplit al l l'.
Proof using.
  intros Hle [? ? Ha ? ? ? ?]. constructor; try done. intros p [?|?]%Ha; [by left|right; lia].
Qed.

Lemma move_chunks_up_to_len_spec al from to max_len :
  bbl_wf (sf_blocks from) -> bbl_block_size (sf_blocks from) = bs ->
  alloc_ok al (data_blocks (sf_blocks from)) -> no_oom al ->
  Forall (fits_chunk bs) (data_blocks (sf_blocks from)) ->
  sf_blocks to = backed_block_list_new bs -> sf_block_size to = bs ->
  overhead + 8 * bs <= max_len < 2 ^ 32 ->
  exists bb al' seg rest,
    move_chunks_up_to_len e al from to max_len
    = Done (bb, al', set_blocks from (mk_bbl rest None bs), set_blocks to (mk_bbl seg None bs)) /\
    move_result al (data_blocks (sf_blocks from)) max_len bb al' seg rest.
Proof using Hbs Henv.
  intros Hwf Hb Hal Hoom Hf Hto Htb Hmax. pose proof Hbs as [[Hb0 _] _].
  assert (0 < overhead) by done.
  assert (Hr0 : sink_rep (counter_file 0) []) by reflexivity.
  unfold move_chunks_up_to_len. rewrite u32_small by (unfold is_u32; lia).
  destruct (output_file_open_spec al (counter_file 0) [] (sf_block_size to) (sf_len to) 0 false
    (no_oom_can_open al Hoom) Hr0) as (out & al1 & Eo & _ & Hob & _ & Hsp & Hu & _).
  rewrite Eo. apply output_file_open_later in Eo. rewrite Htb.
  destruct (move_chunks_loop_spec al1 (sf_blocks from) (max_len - overhead)
    (data_blocks (sf_blocks from)) [] out) as (m & seg & rest & Em & Hm);
    try done; try lia; try congruence.
  { by eapply alloc_ok_after. }
  { by eapply no_oom_after. }
  { simpl. lia. }
  simpl in Em. rewrite Em. cbn [obind].
  destruct Hm as [M1 M2 M3 M4 M5 M6 Mnil M7 M8 M9 M10 [M11 M12] [M13 M14]]. rewrite M1, M3, Hto.
  assert (Hmove : backed_block_list_move (mv_from m) (backed_block_list_new bs)
    (backed_block_iter_new (sf_blocks from)) (bb_addr <$> last seg)
    = Done (mk_bbl rest None bs, mk_bbl seg None bs)).
  { unfold backed_block_iter_new. rewrite <- M7. destruct seg as [|sb sr].
    - assert (El : data_blocks (sf_blocks from) = []) by auto. rewrite El in M8.
      assert (Er : rest = []).
      { destruct rest; [done|]. by rewrite El in M7. }
      rewrite Er in *. simpl. unfold backed_block_list_move. rewrite M2. simpl.
      destruct (mv_from m) as [l lu b] eqn:Ef. simpl in *. subst.
      destruct lu as [p|]; [|done]. exfalso.
      pose proof (wf_last_used _ M13 p eq_refl) as Hp. by apply elem_of_nil in Hp.
    - destruct (backed_block_list_move_spec (mv_from m) (backed_block_list_new bs)
        (bb_addr <$> head ((sb :: sr) ++ rest)) (bb_addr <$> last (sb :: sr)) [] (sb :: sr) rest M13)
        as (tb & -> & _ & Htb'); [|done|].
      + split; [done|]. split; [done|]. destruct (last (sb :: sr)) eqn:El; [done|].
        by apply last_None in El.
      + rewrite Htb' by done. unfold with_blocks. by rewrite M14. }
  rewrite Hmove. cbn [obind]. unfold output_file_close, write_end_chunk. rewrite M11.
  unfold write_sparse_end_chunk. rewrite M12. cbn [obind].
  eexists _, _, seg, rest. split; [reflexivity|].
  constructor; try done. eapply resplit_weaken; [|done]. apply Eo.
  by eapply later_trans.
Qed.

(** ** The loop of [sparse_file_resparse] *)

Definition blocks_of (s : sparse_file) : list backed_block := data_blocks (sf_blocks s).

(** A file with the blocks [l], as the loop leaves them. *)
Definition holds (len : Z) (s : sparse_file) (l : list backed_block) : Prop :=
  sf_block_size s = bs /\ sf_len s = len /\ sf_blocks s = mk_bbl l None bs.

(** The blocks [past] were moved away, [cur] is still to do; together they are
    a refinement of the original blocks [l0]. *)
Record dealt (al : allocator) (l0 past cur : list backed_block) : Prop := {
  dl_chain : chain bs 0 (past ++ cur);
  dl_nodup : NoDup (addrs (past ++ cur));
  dl_alloc : alloc_ok al (past ++ cur);
  dl_image off : image e bs (past ++ cur) off = image e bs l0 off;
  dl_end : chain_end bs 0 (past ++ cur) = chain_end bs 0 l0;
  dl_fits : Forall (fits_chunk bs) cur }.

Lemma addrs_app l k : addrs (l ++ k) = addrs l ++ addrs k.
Proof using. apply map_app. Qed.

Lemma dealt_step al l0 past cur max_len bb al' seg rest :
  dealt al l0 past cur -> move_result al cur max_len bb al' seg rest ->
  dealt al' l0 (past ++ seg) rest.
Proof using Hbs.
  intros [Hch Hnd Hal Himg Hend Hf] [_ _ _ _ [R1 R2 R3 R4 R5 R6 R7] Ha' Hlater].
  constructor; rewrite <- ?app_assoc.
  - apply chain_app in Hch as [? ?]. apply chain_app. split; [done|]. by apply R1.
  - rewrite (addrs_app past) in Hnd |- *. apply NoDup_app in Hnd as (Hd & Hdis & Hc). apply NoDup_app.
    split; [done|]. split; [|done]. intros p Hp Hq. apply R3 in Hq as [Hq|Hq].
    + by apply (Hdis p).
    + assert (p < next_addr al); [|lia]. apply Hal. rewrite addrs_app. apply elem_of_app. by left.
  - intros p. rewrite addrs_app. intros [Hp|Hp]%elem_of_app; [|by apply Ha'].
    destruct Hlater as [_ Hle]. assert (p < next_addr al); [|lia]. apply Hal.
    rewrite addrs_app. apply elem_of_app. by left.
  - intros off. rewrite <- Himg. apply image_app_congr, R4.
  - rewrite <- Hend. unfold chain_end. rewrite !(foldl_app _ past). apply R5.
  - by apply Forall_app in R7 as [_ ?].
Qed.

Lemma dealt_wf al l0 past cur : dealt al l0 past cur -> bbl_wf (mk_bbl cur None bs).
Proof using Hbs.
  intros [Hch Hnd _ _ _ _].
  apply (bbl_wf_sublist (mk_bbl (past ++ cur) None bs)); [by constructor|].
  simpl. by apply sublist_inserts_l.
Qed.

Lemma insert_segment_end seg b l :
  l <> [] -> Forall (fun x => bb_block x <= b) l -> insert_segment seg b l = l ++ seg.
Proof using.
  induction l as [|x l IH]; [done|]. intros _ [Hx Hl]%Forall_cons. destruct l as [|y l]; [done|].
  change (insert_segment seg b (x :: y :: l)) with
    (if b <? bb_block y then x :: seg ++ y :: l else x :: insert_segment seg b (y :: l)).
  pose proof Hl as [Hy _]%Forall_cons.
  destruct (Z.ltb_spec b (bb_block y)); [lia|]. by rewrite IH.
Qed.

(** Moving all of [seg] behind what [t] holds already. *)
Lemma list_move_all seg t :
  chain bs 0 (t ++ seg) ->
  backed_block_list_move (mk_bbl seg None bs) (mk_bbl t None bs) None None
  = Done (mk_bbl [] None bs, mk_bbl (t ++ seg) None bs).
Proof using Hbs.
  intros Hch. unfold backed_block_list_move. destruct seg as [|sb sr]; simpl.
  - by rewrite app_nil_r.
  - rewrite Z.eqb_refl. cbn [obind]. unfold with_blocks. simpl. do 3 f_equal.
    destruct t as [|x t]; [done|].
    apply (insert_segment_end (sb :: sr) (bb_block sb) (x :: t)); [done|].
    apply chain_app in Hch as [Ht (Hle & _)]. change (chain_end bs 0 (x :: t) <= bb_block sb) in Hle.
    pose proof (chain_ends_below bs 0 _ Hbs Ht) as Hends.
    pose proof (chain_nodes _ Hbs _ _ Ht) as Hn. rewrite Forall_forall in Hn.
    unfold ends_below in Hends. rewrite Forall_forall in Hends |- *. intros y Hy.
    specialize (Hends y Hy). cbv beta in Hends. pose proof (bb_end_gt bs Hbs y (Hn y Hy)). lia.
Qed.

Lemma sum_len_pos lo l : chain bs lo l -> l <> [] -> 0 < sum_len l.
Proof using.
  revert lo. induction l as [|b l IH]; intros lo; [done|]. intros (_ & Hb & Hl) _. simpl.
  destruct Hb as [_ ? _ _]. destruct l; [simpl; lia|]. specialize (IH _ Hl ltac:(done)). simpl in *. lia.
Qed.

(** The state of the loop: [outs] hold [parts], [tmp] holds [t]. *)
Record resparse_inv (al : allocator) (l0 : list backed_block) (len max_len c count : Z)
    (outs : list sparse_file) (parts : list (list backed_block)) (tmp : sparse_file)
    (t : list backed_block) (in_s : sparse_file) (cur : list backed_block) : Prop := {
  ri_dealt : dealt al l0 (concat parts ++ t) cur;
  ri_outs : Forall2 (holds len) outs parts;
  ri_sizes : Forall (fun p => blocks_size bs p 0 <= max_len - overhead + CHUNK_HEADER_LEN) parts;
  ri_tmp : holds len tmp t;
  ri_in : sf_block_size in_s = bs /\ sf_len in_s = len /\ blocks_of in_s = cur /\
          bbl_wf (sf_blocks in_s) /\ bbl_block_size (sf_blocks in_s) = bs;
  ri_order : c <= count -> t = [];
  ri_count : Z.of_nat (length outs) = Z.min c (Z.max 0 count);
  ri_c : 0 <= c;
  ri_oom : no_oom al }.

Lemma new_file_later al len :
  no_oom al -> exists al', later al al' /\
    sparse_file_new al bs len
    = Done (Some (mk_sparse_file bs len false (backed_block_list_new bs)), al').
Proof using.
  intros Hoom. unfold sparse_file_new, malloc. rewrite Hoom by lia. simpl.
  rewrite Hoom by lia. eexists. split; [|reflexivity]. split; simpl; [done|lia].
Qed.

Lemma dealt_later al al' l0 past cur : later al al' -> dealt al l0 past cur -> dealt al' l0 past cur.
Proof using. intros [_ Hle] [? ? Ha ? ? ?]. constructor; try done. intros p Hp%Ha. lia. Qed.

(** One iteration keeps the invariant. *)
Lemma resparse_step al l0 len max_len c count outs parts tmp t in_s cur :
  resparse_inv al l0 len max_len c count outs parts tmp t in_s cur ->
  overhead + 8 * bs <= max_len < 2 ^ 32 ->
  exists al1 al2 s0 s1 bb in_s' outs' parts' tmp' t' rest,
    sparse_file_new al bs len = Done (Some s0, al1) /\
    move_chunks_up_to_len e al1 in_s s0 max_len = Done (bb, al2, in_s', s1) /\
    (if c <? count then Done (outs ++ [s1], tmp)
     else let* (_, t) := backed_block_list_move (sf_blocks s1) (sf_blocks tmp) None None in
          Done (outs, set_blocks tmp t)) = Done (outs', tmp') /\
    resparse_inv al2 l0 len max_len (c + 1) count outs' parts' tmp' t' in_s' rest /\
    (bb = None -> rest = []) /\ (cur = [] -> bb = None) /\
    (cur <> [] -> 0 <= sum_len rest < sum_len cur).
Proof using Hbs Henv.
  intros [Hd Ho Hsz Ht (Hib & Hil & Hic & Hiw & Hibb) Hord Hcnt Hc Hoom] Hmax.
  destruct (new_file_later al len Hoom) as (al1 & Hl1 & Enew).
  set (s0 := mk_sparse_file bs len false (backed_block_list_new bs)) in *.
  unfold blocks_of in Hic. pose proof (dealt_later _ _ _ _ _ Hl1 Hd) as Hd1.
  destruct (move_chunks_up_to_len_spec al1 in_s s0 max_len) as (bb & al2 & seg & rest & Em & Hm);
    try done.
  { rewrite Hic. intros p Hp. apply Hd1. rewrite addrs_app. apply elem_of_app. by right. }
  { by eapply no_oom_after. }
  { rewrite Hic. apply Hd1. }
  rewrite Hic in Hm. pose proof (dealt_step _ _ _ _ _ _ _ _ _ Hd1 Hm) as Hd2.
  destruct Hm as [M1 M2 M3 M4 M5 M6 M7].
  assert (Hwf' : bbl_wf (mk_bbl rest None bs)) by (by eapply dealt_wf).
  assert (Hoom2 : no_oom al2) by (eapply no_oom_after; [|done]; by eapply no_oom_after).
  assert (Hsum : cur <> [] -> 0 <= sum_len rest < sum_len cur).
  { intros Hne. destruct M5 as [R1 _ _ _ _ R6 _]. rewrite <- R6, sum_len_app.
    pose proof Hd1 as [Hch _ _ _ _ _]. apply chain_app in Hch as [_ Hch%R1].
    apply chain_app in Hch as [Hs Hr].
    assert (0 < sum_len seg) by (eapply sum_len_pos; [done|]; auto).
    destruct rest; [simpl; lia|]. pose proof (sum_len_pos _ _ Hr ltac:(done)). lia. }
  destruct (Z.ltb_spec c count) as [Hlt|Hge].
  - rewrite (Hord ltac:(lia)) in *. clear t Hord. rewrite app_nil_r in *.
    eexists al1, al2, s0, _, bb, _, _, (parts ++ [seg]), tmp, [], rest.
    split; [exact Enew|]. split; [exact Em|]. split; [reflexivity|]. split; [|done].
    constructor; try done; rewrite ?app_nil_r.
    + by rewrite concat_app, concat_cons, concat_nil, app_nil_r.
    + apply Forall2_app; [done|]. by repeat constructor.
    + apply Forall_app. split; [done|]. by constructor.
    + rewrite length_app. simpl. lia.
    + lia.
  - destruct Ht as (Htb & Htl & Htt).
    assert (Hch2 : chain bs 0 (t ++ seg)).
    { destruct Hd2 as [Hch _ _ _ _ _]. eapply chain_sublist; [done| |exact Hch].
      rewrite <- !app_assoc. rewrite (app_assoc t).
      apply sublist_inserts_l, sublist_inserts_r. done. }
    eexists al1, al2, s0, _, bb, _, _, parts, _, (t ++ seg), rest.
    split; [exact Enew|]. split; [exact Em|].
    cbn [set_blocks sf_blocks]. rewrite Htt, list_move_all by done. cbn [obind].
    split; [reflexivity|]. split; [|done].
    constructor; try done; rewrite ?app_assoc; try done; [lia|lia|lia].
Qed.

Lemma resparse_loop_spec fuel al l0 len max_len c count outs parts tmp t in_s cur :
  resparse_inv al l0 len max_len c count outs parts tmp t in_s cur ->
  overhead + 8 * bs <= max_len < 2 ^ 32 -> (Z.to_nat (sum_len cur) < fuel)%nat ->
  exists outs' c' in_s' tmp' al' parts' t',
    resparse_loop fuel e al in_s tmp max_len outs c count = Done (outs', c', in_s', tmp', al') /\
    c < c' /\ resparse_inv al' l0 len max_len c' count outs' parts' tmp' t' in_s' [].
Proof using Hbs Henv.
  revert al c outs parts tmp t in_s cur.
  induction fuel as [|fuel IH]; intros al c outs parts tmp t in_s cur Hinv Hmax Hfuel; [lia|].
  pose proof (ri_in _ _ _ _ _ _ _ _ _ _ _ _ Hinv) as (Hib & Hil & _).
  destruct (resparse_step _ _ _ _ _ _ _ _ _ _ _ _ Hinv Hmax)
    as (al1 & al2 & s0 & s1 & bb & in_s' & outs' & parts' & tmp' & t' & rest &
        E1 & E2 & E3 & Hinv' & Hdone & Hnil & Hsum).
  cbn [resparse_loop]. rewrite Hib, Hil, E1. cbn [obind]. rewrite E2. cbn [obind].
  rewrite E3. cbn [obind]. destruct bb as [p|].
  - destruct cur as [|b cur]; [by specialize (Hnil eq_refl)|].
    specialize (Hsum ltac:(done)).
    destruct (IH al2 (c + 1) outs' parts' tmp' t' in_s' rest Hinv' Hmax ltac:(lia))
      as (o & c' & i & tm & a & pa & tt & -> & Hc' & Hi).
    eexists _, _, _, _, _, pa, tt. split; [reflexivity|]. split; [lia|done].
  - rewrite (Hdone eq_refl) in Hinv'.
    eexists _, _, _, _, _, parts', t'. split; [reflexivity|]. split; [lia|done].
Qed.

(** A file that holds part of the blocks of a well-formed file is well formed. *)
Lemma part_wf len T past seg rest s :
  chain bs 0 (past ++ seg ++ rest) -> NoDup (addrs (past ++ seg ++ rest)) ->
  chain_end bs 0 (past ++ seg ++ rest) <= T -> holds len s seg -> len = T * bs ->
  0 <= T < 2 ^ 32 -> sf_wf s.
Proof using Hbs.
  intros Hch Hnd Hend (Hsb & Hsl & Hbl) -> HT. pose proof Hbs as [[Hb0 _] _].
  assert (Htot : sf_blocks_total s = T).
  { unfold sf_blocks_total. rewrite Hsl, Hsb. by apply div_round_up_mul. }
  assert (Hsub : sublist seg (past ++ seg ++ rest)) by (by apply sublist_inserts_l, sublist_inserts_r).
  constructor; rewrite ?Hsb, ?Hbl, ?Htot; try done.
  - apply (bbl_wf_sublist (mk_bbl (past ++ seg ++ rest) None bs)); [by constructor|done].
  - simpl. apply chain_end_le; [lia|]. pose proof (chain_ends_below _ _ _ Hbs Hch) as He.
    apply Forall_app in He as [_ [He _]%Forall_app].
    eapply Forall_impl; [exact He|]. simpl. lia.
Qed.

End moving.

(** ** The whole function *)

(** What a successful [sparse_file_resparse] leaves: the files [outs] and the
    rest [s'] of the input, [c] the number of files needed. *)
Record resparsed (e : env) (s : sparse_file) (max_len count : Z)
    (outs : list sparse_file) (s' : sparse_file) (c : Z) : Prop := {
  rsd_outs : Forall (fun o =>
    sf_wf o /\ sf_block_size o = sf_block_size s /\ sf_len o = sf_len s /\
    Z.of_nat (length (sparse_image e o false)) <= max_len /\
    Z.of_nat (length (sparse_image e o true)) <= max_len + CHUNK_HEADER_LEN) outs;
  rsd_rest : sf_wf s' /\ sf_block_size s' = sf_block_size s /\ sf_len s' = sf_len s;
  rsd_chain : chain (sf_block_size s) 0 (concat (map blocks_of outs) ++ blocks_of s');
  rsd_image off : image e (sf_block_size s) (concat (map blocks_of outs) ++ blocks_of s') off
                  = image e (sf_block_size s) (blocks_of s) off;
  rsd_count : 0 < c /\ Z.of_nat (length outs) = Z.min c (Z.max 0 count);
  rsd_fit : c <= count -> blocks_of s' = [] }.

Lemma holds_blocks bs len outs parts :
  Forall2 (holds bs len) outs parts -> map blocks_of outs = parts.
Proof.
  induction 1 as [|o p outs parts (_ & _ & E) _ IH]; [done|]. simpl. rewrite IH. f_equal.
  unfold blocks_of. by rewrite E.
Qed.

Lemma sparse_file_resparse_spec fuel e al s max_len count :
  sf_wf s -> alloc_ok al (blocks_of s) -> no_oom al -> env_total e ->
  Forall (fits_chunk (sf_block_size s)) (blocks_of s) ->
  overhead + 8 * sf_block_size s <= max_len < 2 ^ 32 ->
  (Z.to_nat (sum_len (blocks_of s)) < fuel)%nat ->
  exists c outs s' al', sparse_file_resparse fuel e al s max_len count = Done (c, outs, s', al') /\
    resparsed e s max_len count outs s' c.
Proof.
  intros Hwf Hal Hoom Henv Hfits Hmax Hfuel.
  pose proof (bbs_ok s Hwf) as Hbs. pose proof (sf_chain s Hwf) as Hch.
  set (bs := sf_block_size s) in *. set (T := sf_blocks_total s).
  pose proof Hwf as [Hl Hbb Hlen Hfit HT]. fold bs in Hbb, Hlen, Hfit. fold T in Hlen, Hfit, HT.
  destruct (new_file_later bs al (sf_len s) Hoom) as (al1 & Hlater & Enew).
  unfold sparse_file_resparse. fold bs. rewrite Enew. cbn [obind].
  set (tmp := mk_sparse_file bs (sf_len s) false (backed_block_list_new bs)).
  assert (Hinv : resparse_inv e bs al1 (blocks_of s) (sf_len s) max_len 0 count [] [] tmp []
                   s (blocks_of s)).
  { constructor; try done; try (simpl; lia); try (by constructor); [|by eapply no_oom_after].
    constructor; try done; [apply Hl|by eapply alloc_ok_after]. }
  destruct (resparse_loop_spec e bs Hbs Henv _ _ _ _ _ _ _ _ _ _ _ _ _ Hinv Hmax Hfuel)
    as (outs & c & in_s & tm & al2 & parts & t & -> & Hc & [Hd Ho Hsz Ht Hin Hord Hcnt _ _]).
  cbn [obind]. destruct Hin as (Hib & Hil & Hic & Hiw & Hibb). pose proof Ht as (Htb & Htl & Htt).
  assert (Hin_blocks : sf_blocks in_s = mk_bbl [] None bs).
  { unfold blocks_of in Hic. destruct (sf_blocks in_s) as [l lu b] eqn:Eb. simpl in *. subst l b.
    destruct lu as [p|]; [|done]. pose proof (wf_last_used _ Hiw p eq_refl) as Hp.
    by apply elem_of_nil in Hp. }
  pose proof Hd as [Hdc _ _ Hdi Hde _]. rewrite app_nil_r in Hdc, Hdi, Hde.
  assert (Hct : chain bs 0 t).
  { eapply chain_sublist; [done| |exact Hdc]. by apply sublist_inserts_l. }
  rewrite Htt, Hin_blocks, (list_move_all bs Hbs t []) by done. cbn [obind].
  eexists c, outs, _, al2. split; [reflexivity|].
  assert (Hparts : map blocks_of outs = parts) by (by eapply holds_blocks).
  pose proof (dl_nodup _ _ _ _ _ _ Hd) as Hdn. rewrite app_nil_r in Hdn.
  assert (Htmp : sf_wf (set_blocks in_s (mk_bbl ([] ++ t) None bs))).
  { eapply (part_wf bs Hbs (sf_len s) T (concat parts) t []); rewrite ?app_nil_r; try done.
    by rewrite Hde. }
  constructor; [| |by rewrite Hparts|intros off; by rewrite Hparts, <- Hdi|done|by intros ?%Hord].
  - apply Forall_forall. intros o Hoin.
    apply list_elem_of_lookup in Hoin as [i Hi].
    destruct (Forall2_lookup_l _ _ _ _ _ Ho Hi) as (p & Hp & Hh).
    pose proof (take_drop_middle _ _ _ Hp) as Esplit.
    assert (Eparts : concat parts ++ t = concat (take i parts) ++ p ++ concat (drop (S i) parts) ++ t).
    { rewrite <- Esplit at 1. by rewrite concat_app, concat_cons, <- !app_assoc. }
    assert (Hwfo : sf_wf o).
    { eapply (part_wf bs Hbs (sf_len s) T (concat (take i parts)) p (concat (drop (S i) parts) ++ t));
        rewrite <- ?Eparts; try done. by rewrite Hde. }
    pose proof Hh as (Hob & Hol & Hobl). split; [done|]. split; [done|]. split; [done|].
    pose proof (Forall_lookup_1 _ _ _ _ Hsz Hp) as Hszp. simpl in Hszp.
    pose proof (sparse_image_size e bs Hbs o false Hwfo Hob) as S1.
    pose proof (sparse_image_size e bs Hbs o true Hwfo Hob) as S2.
    rewrite Hobl in S1, S2. cbn [data_blocks] in S1, S2. unfold overhead, SPARSE_HEADER_LEN, CHUNK_HEADER_LEN in *.
    lia.
  - done.
Qed.
