(* ===== verification/SparseReadNormal.v ===== *)
(** libsparse/sparse_read.cpp: building a sparse file from an ordinary file
    ([sparse_file_read_normal], [sparse_file_read_hole], [sparse_file_read],
    [sparse_file_import_auto]). *)

From S2P Require Import Prelude.
From S2P Require Import BackedBlock.
From S2P Require Import OutputFile.
From S2P Require Import SparseFile.
From S2P Require Import SparseRead.

Local Open Scope Z_scope.

Definition ENXIO : Z := 6.

(** * The operations *)

(** The loop over [buf]: do all words of the block equal the first one?
    [buf] is the block as a list of bytes, words are little-endian. *)
Definition word_at (buf : list Z) (i : nat) : Z := le_decode (take 4 (drop (4 * i) buf)).

Fixpoint same_words (buf : list Z) (i n : nat) : bool :=
  match n with
  | O => true
  | S n => if negb (word_at buf 0 =? word_at buf i) then false else same_words buf (S i) n
  end.

Definition sparse_block (buf : list Z) (to_read block_size : Z) : bool :=
  if to_read =? block_size then same_words buf 1 (Z.to_nat (block_size / 4) - 1) else false.

(** The state of the reading loop. *)
Record nstate := mk_nstate { ns_src : SparseFileFdSource; ns_al : allocator; ns_file : sparse_file }.

Fixpoint read_normal_loop (fuel : nat) (st : nstate) (offset remain block : Z)
  : outcome (nstate * Z) :=
  match fuel with
  | O => Crash OutOfFuel
  | S fuel =>
      if remain <=? 0 then Done (st, 0)
      else
        let bs := sf_block_size (ns_file st) in
        let to_read := Z.min remain bs in
        match FdReadValue (ns_src st) to_read with
        | (src, inl err) => Done (mk_nstate src (ns_al st) (ns_file st), err)
        | (src, inr buf) =>
            let* (_, al, f) :=
              if sparse_block buf to_read bs
              then sparse_file_add_fill (ns_al st) (ns_file st) (word_at buf 0) to_read block
              else sparse_file_add_fd (ns_al st) (ns_file st) (fd_num (ns_src st)) offset to_read block in
            read_normal_loop fuel (mk_nstate src al f) (s64 (offset + to_read)) (remain - to_read)
              (u32 (block + 1))
        end
  end.

Definition normal_fuel (remain bs : Z) : nat := Z.to_nat (remain / bs + 2).

Definition do_sparse_file_read_normal (st : nstate) (offset remain : Z) : outcome (nstate * Z) :=
  let bs := sf_block_size (ns_file st) in
  read_normal_loop (normal_fuel remain bs) st offset remain (u32 (offset / bs)).

Definition sparse_file_read_normal (st : nstate) : outcome (nstate * Z) :=
  match malloc (ns_al st) with
  | (None, al) => Done (mk_nstate (ns_src st) al (ns_file st), - ENOMEM)
  | (Some _, al) =>
      do_sparse_file_read_normal (mk_nstate (ns_src st) al (ns_file st)) 0 (sf_len (ns_file st))
  end.

Definition set_pos (s : SparseFileFdSource) (p : Z) : SparseFileFdSource :=
  mk_fd_source (fd_num s) (fd_data s) p (fd_events s).

Definition set_ns_src (st : nstate) (s : SparseFileFdSource) : nstate :=
  mk_nstate s (ns_al st) (ns_file st).

(** [lseek] with SEEK_DATA and SEEK_HOLE: an offset, or minus the errno. *)
Section holes.
Context (seek_data seek_hole : Z -> Z).

Fixpoint read_hole_loop (fuel : nat) (st : nstate) (end_ : Z) : outcome (nstate * Z) :=
  match fuel with
  | O => Crash OutOfFuel
  | S fuel =>
      let bs := sf_block_size (ns_file st) in
      let len := sf_len (ns_file st) in
      let start := seek_data end_ in
      if start <? 0 then
        if start =? - ENXIO then Done (st, 0) else Done (st, start)
      else
        let st := set_ns_src st (set_pos (ns_src st) start) in
        if len <? start then Done (st, 0)
        else
          let end_ := seek_hole start in
          if end_ <? 0 then Done (st, end_)
          else
            let end_ := Z.min end_ len in
            let start := ALIGN_DOWN start bs in
            let end_ := ALIGN end_ bs in
            let st := set_ns_src st (set_pos (ns_src st) start) in
            let* (st, ret) := do_sparse_file_read_normal st start (end_ - start) in
            if negb (ret =? 0) then Done (st, ret)
            else if end_ <? len then read_hole_loop fuel st end_
            else Done (st, 0)
  end.

Definition sparse_file_read_hole (fuel : nat) (st : nstate) : outcome (nstate * Z) :=
  match malloc (ns_al st) with
  | (None, al) => Done (mk_nstate (ns_src st) al (ns_file st), - ENOMEM)
  | (Some _, al) => read_hole_loop fuel (mk_nstate (ns_src st) al (ns_file st)) 0
  end.

Inductive sparse_read_mode := SPARSE_READ_MODE_NORMAL | SPARSE_READ_MODE_SPARSE | SPARSE_READ_MODE_HOLE.

Definition sparse_file_read (fuel : nat) (copybuf : bool) (st : nstate) (mode : sparse_read_mode)
    (crc : bool) : outcome (nstate * Z) :=
  match mode with
  | SPARSE_READ_MODE_SPARSE =>
      let* (r, ret) := sparse_file_read_sparse copybuf (ns_src st) (ns_al st) (ns_file st) crc in
      Done (mk_nstate (rs_src r) (rs_al r) (rs_file r), ret)
  | SPARSE_READ_MODE_NORMAL =>
      if crc then Done (st, - EINVAL) else sparse_file_read_normal st
  | SPARSE_READ_MODE_HOLE =>
      if crc then Done (st, - EINVAL) else sparse_file_read_hole fuel st
  end.
End holes.

(** The descriptor is a regular file: seeking to its end and back succeeds. *)
Definition sparse_file_import_auto (copybuf : bool) (src : SparseFileFdSource) (al : allocator)
    (crc verbose : bool) : outcome (option sparse_file * allocator) :=
  let* (s, src, al) := sparse_file_import copybuf src al false crc in
  match s with
  | Some s => Done (Some s, al)
  | None =>
      let len := Z.of_nat (length (fd_data src)) in
      let src := set_pos src 0 in
      let* (s, al) := sparse_file_new al 4096 len in
      match s with
      | None => Done (None, al)
      | Some s =>
          let s := if verbose then sparse_file_verbose s else s in
          let* (st, ret) := sparse_file_read_normal (mk_nstate src al s) in
          if ret <? 0 then Done (None, ns_al st) else Done (Some (ns_file st), ns_al st)
      end
  end.

(** * A block all of whose words are equal is a fill block *)

Lemma same_words_spec buf i n :
  same_words buf i n = true -> forall j, (i <= j < i + n)%nat -> word_at buf j = word_at buf 0.
Proof.
  revert i; induction n as [|n IH]; intros i; [lia|]. simpl.
  destruct (Z.eqb_spec (word_at buf 0) (word_at buf i)) as [E|]; [|done]. simpl.
  intros Hs j Hj. destruct (Nat.eq_dec j i) as [->|]; [done|]. apply (IH _ Hs). lia.
Qed.

Lemma word_at_bytes buf i :
  bytes_ok buf -> (4 * i + 4 <= length buf)%nat ->
  le_encode 4 (word_at buf i) = take 4 (drop (4 * i) buf).
Proof.
  intros Hb Hl. unfold word_at.
  replace 4%nat with (length (take 4 (drop (4 * i) buf))) at 1
    by (rewrite length_take, length_drop; lia).
  apply le_encode_decode, bytes_ok_take, bytes_ok_drop, Hb.
Qed.

Lemma nth_take_drop (buf : list Z) n r k :
  (r < k)%nat -> nth (n + r) buf 0 = nth r (take k (drop n buf)) 0.
Proof.
  intros Hr. rewrite !nth_lookup. rewrite lookup_take, lookup_drop. by rewrite decide_True.
Qed.

Lemma sparse_block_payload e buf bs i :
  bytes_ok buf -> Z.of_nat (length buf) = bs -> bs mod 4 = 0 ->
  sparse_block buf bs bs = true -> 0 <= i < bs ->
  payload e (BACKED_BLOCK_FILL (word_at buf 0)) i = nth (Z.to_nat i) buf 0.
Proof.
  intros Hb Hl Hm Hs Hi. unfold sparse_block in Hs. rewrite Z.eqb_refl in Hs. simpl payload.
  set (q := Z.to_nat (i / 4)). set (r := Z.to_nat (i mod 4)).
  pose proof (Z.div_mod i 4). pose proof (Z.mod_pos_bound i 4). pose proof (Z.div_pos i 4).
  pose proof (Z.div_mod bs 4). assert (i / 4 < bs / 4) by (apply Z.div_lt_upper_bound; lia).
  replace (Z.to_nat i) with (4 * q + r)%nat by lia.
  assert (Hq : word_at buf q = word_at buf 0).
  { destruct q as [|q'] eqn:Eq; [done|]. apply (same_words_spec _ _ _ Hs). lia. }
  rewrite (nth_take_drop buf (4 * q) r 4) by lia.
  rewrite <- word_at_bytes, Hq by (done || lia). done.
Qed.

(** * The loop *)

Section normal.
Context (e : env) (bs : Z) (Hbs : block_size_ok bs).

(** The image with the bytes [a] at [off0]. *)
Definition overlay (img : Z -> option Z) (off0 : Z) (a : list Z) (off : Z) : option Z :=
  match img off with
  | Some b => Some b
  | None => if (off0 <=? off) && (off <? off0 + Z.of_nat (length a))
            then Some (nth (Z.to_nat (off - off0)) a 0) else None
  end.

Definition ns_image (st : nstate) : Z -> option Z :=
  image e bs (data_blocks (sf_blocks (ns_file st))).

Lemma overlay_app img off0 a b off :
  overlay (overlay img off0 a) (off0 + Z.of_nat (length a)) b off = overlay img off0 (a ++ b) off.
Proof using.
  unfold overlay. destruct (img off); [done|]. rewrite length_app.
  destruct (Z.leb_spec off0 off); simpl.
  - destruct (Z.ltb_spec off (off0 + Z.of_nat (length a))); simpl.
    + destruct (Z.ltb_spec off (off0 + Z.of_nat (length a + length b))); [|lia].
      by rewrite app_nth1 by lia.
    + destruct (Z.leb_spec (off0 + Z.of_nat (length a)) off); [|lia]. simpl.
      replace (off0 + Z.of_nat (length a) + Z.of_nat (length b))
        with (off0 + Z.of_nat (length a + length b)) by lia.
      destruct (_ <? _); [|done]. rewrite app_nth2 by lia. do 2 f_equal. lia.
  - destruct (Z.leb_spec (off0 + Z.of_nat (length a)) off); [lia|done].
Qed.

(** One turn: a block of data, or of fill, is added. *)
Lemma add_block_step st pre a1 rest :
  fd_rep e (ns_src st) pre (a1 ++ rest) -> bytes_ok a1 -> a1 <> [] ->
  Z.of_nat (length a1) <= bs ->
  forall block, Z.of_nat (length pre) = block * bs -> 0 <= block -> block + 1 < 2 ^ 32 ->
  building bs (ns_al st) (ns_file st) block ->
  exists al f,
    (if sparse_block a1 (Z.of_nat (length a1)) bs
     then sparse_file_add_fill (ns_al st) (ns_file st) (word_at a1 0) (Z.of_nat (length a1)) block
     else sparse_file_add_fd (ns_al st) (ns_file st) (fd_num (ns_src st)) (Z.of_nat (length pre))
            (Z.of_nat (length a1)) block) = Done (0, al, f) /\
    building bs al f (block + 1) /\ sf_len f = sf_len (ns_file st) /\
    forall off, image e bs (data_blocks (sf_blocks f)) off
                = overlay (ns_image st) (Z.of_nat (length pre)) a1 off.
Proof using Hbs.
  intros Hr Hby Hne Hle block Hpre Hblk Hlt Hbld. pose proof Hbs as [[Hb0 Hb32] Hb4].
  pose proof (nonempty_length a1 Hne) as Hpos.
  assert (Hdru : DIV_ROUND_UP (Z.of_nat (length a1)) bs = 1).
  { pose proof (div_round_up_bounds (Z.of_nat (length a1)) bs Hb0). nia. }
  assert (Hadd : forall k, (forall p, kind_ok (mk_bb p block (Z.of_nat (length a1)) k)) ->
    (forall p, fill_aligned bs (mk_bb p block (Z.of_nat (length a1)) k)) ->
    (forall i, 0 <= i < Z.of_nat (length a1) -> payload e k i = nth (Z.to_nat i) a1 0) ->
    exists al f, sparse_file_add (ns_al st) (ns_file st) k (Z.of_nat (length a1)) block = Done (0, al, f) /\
      building bs al f (block + 1) /\ sf_len f = sf_len (ns_file st) /\
      forall off, image e bs (data_blocks (sf_blocks f)) off
                  = overlay (ns_image st) (Z.of_nat (length pre)) a1 off).
  { intros k Hk Hfa Hpay.
    destruct (sparse_file_add_behind e bs _ _ block k _ Hbs Hbld Hblk Hpos ltac:(lia) Hk Hfa)
      as (al & f & E & Hf & Hl & Hi). rewrite Hdru in Hf. exists al, f.
    split; [done|]. split; [done|]. split; [done|]. intros off. rewrite Hi. unfold overlay, ns_image.
    destruct (image _ _ _ _); [done|]. rewrite <- Hpre.
    destruct (Z.leb_spec (Z.of_nat (length pre)) off); [|done]. simpl.
    destruct (Z.ltb_spec off (Z.of_nat (length pre) + Z.of_nat (length a1))); [|done].
    by rewrite Hpay by lia. }
  destruct (sparse_block a1 (Z.of_nat (length a1)) bs) eqn:Esp.
  - assert (Heq : Z.of_nat (length a1) = bs).
    { unfold sparse_block in Esp. destruct (Z.eqb_spec (Z.of_nat (length a1)) bs); done. }
    apply Hadd.
    + intros p. unfold kind_ok. simpl. unfold word_at.
      pose proof (le_decode_range (take 4 (drop (4 * 0) a1))) as Hrange.
      assert (Hl4 : (length (take 4 (drop (4 * 0) a1)) <= 4)%nat) by (rewrite length_take; lia).
      specialize (Hrange ltac:(by apply bytes_ok_take, bytes_ok_drop)).
      assert (2 ^ (8 * Z.of_nat (length (take 4 (drop (4 * 0) a1)))) <= 2 ^ 32)
        by (apply Z.pow_le_mono_r; lia). unfold is_u32. lia.
    + intros p. unfold fill_aligned. simpl. by rewrite Heq, Z.mod_same by lia.
    + rewrite Heq in *. intros i Hi. by apply (sparse_block_payload e a1 bs i).
  - destruct Hr as [Hd Hp Hev Hs Hb]. rewrite Hd, !length_app in Hs. apply Hadd.
    + intros p. unfold kind_ok. simpl. lia.
    + done.
    + intros i Hi. simpl. rewrite Hb by (rewrite Hd, !length_app; lia). rewrite Hd.
      by apply nth_middle_app.
Qed.

Lemma read_normal_loop_spec fuel st pre a rest offset block cur :
  fd_rep e (ns_src st) pre (a ++ rest) -> bytes_ok a ->
  (a <> [] -> offset = Z.of_nat (length pre) /\ offset = block * bs /\ cur = block) ->
  0 <= cur -> cur + DIV_ROUND_UP (Z.of_nat (length a)) bs < 2 ^ 32 ->
  building bs (ns_al st) (ns_file st) cur ->
  DIV_ROUND_UP (Z.of_nat (length a)) bs < Z.of_nat fuel ->
  exists st', read_normal_loop fuel st offset (Z.of_nat (length a)) block = Done (st', 0) /\
    fd_rep e (ns_src st') (pre ++ a) rest /\
    building bs (ns_al st') (ns_file st') (cur + DIV_ROUND_UP (Z.of_nat (length a)) bs) /\
    sf_len (ns_file st') = sf_len (ns_file st) /\
    forall off, ns_image st' off = overlay (ns_image st) (Z.of_nat (length pre)) a off.
Proof using Hbs.
  pose proof Hbs as [[Hb0 Hb32] Hb4].
  revert st pre a offset block cur.
  induction fuel as [|fuel IH]; intros st pre a offset block cur Hr Hby Hal Hcur Hlt Hbld Hfuel.
  { pose proof (div_round_up_nonneg (Z.of_nat (length a)) bs). lia. }
  cbn [read_normal_loop]. destruct (Z.leb_spec (Z.of_nat (length a)) 0) as [Hz|Hpos].
  { destruct a; [|simpl in Hz; lia]. exists st. split; [done|]. rewrite app_nil_r. split; [done|].
    change (DIV_ROUND_UP (Z.of_nat (length [])) bs) with ((0 + bs - 1) / bs).
    rewrite Z.div_small, Z.add_0_r by lia. split; [done|]. split; [done|].
    intros off. unfold overlay. simpl. destruct (ns_image st off); [done|].
    destruct (Z.leb_spec (Z.of_nat (length pre)) off); [|done]. simpl.
    destruct (Z.ltb_spec off (Z.of_nat (length pre) + Z.of_nat 0)); [lia|done]. }
  assert (Hne : a <> []) by (intros ->; simpl in Hpos; lia).
  destruct (Hal Hne) as (Hoff & Hoffb & ->). rewrite (bld_sf_bs _ _ _ _ Hbld).
  set (n := Z.min (Z.of_nat (length a)) bs).
  set (a1 := take (Z.to_nat n) a). set (a2 := drop (Z.to_nat n) a).
  assert (Ha : a = a1 ++ a2) by (symmetry; apply take_drop).
  assert (Hl1 : Z.of_nat (length a1) = n) by (unfold a1; rewrite length_take; lia).
  assert (Hl2 : Z.of_nat (length a2) = Z.of_nat (length a) - n) by (unfold a2; rewrite length_drop; lia).
  assert (Hdru : DIV_ROUND_UP (Z.of_nat (length a)) bs = 1 + DIV_ROUND_UP (Z.of_nat (length a2)) bs).
  { rewrite Hl2. unfold DIV_ROUND_UP. destruct (Z.le_gt_cases bs (Z.of_nat (length a))).
    - replace n with bs by lia.
      replace (Z.of_nat (length a) + bs - 1) with (Z.of_nat (length a) - bs + bs - 1 + 1 * bs) by lia.
      rewrite Z.div_add by lia. lia.
    - replace n with (Z.of_nat (length a)) by lia. rewrite Z.sub_diag.
      rewrite (Z.div_small (0 + bs - 1)) by lia.
      symmetry. apply (Z.div_unique _ _ _ (Z.of_nat (length a) - 1)); lia. }
  pose proof (div_round_up_nonneg (Z.of_nat (length a2)) bs).
  rewrite Ha, <- app_assoc in Hr. rewrite Ha in Hby. apply bytes_ok_app in Hby as [Hby1 Hby2].
  destruct (fd_read_spec e _ _ _ _ Hr) as (src & E & Hsrc). rewrite Hl1 in E. rewrite E.
  assert (Hne1 : a1 <> []) by (intros En; rewrite En in Hl1; simpl in Hl1; lia).
  destruct (add_block_step st pre a1 _ Hr Hby1 Hne1 ltac:(lia) block ltac:(lia) ltac:(lia) ltac:(lia) Hbld)
    as (al & f & Eadd & Hf & Hlen & Himg).
  rewrite Hl1, <- Hoff in Eadd. rewrite Eadd. cbn [obind].
  rewrite <- Hl2. pose proof Hr as [Hd Hp _ Hsz _]. rewrite Hd, !length_app in Hsz.
  rewrite s64_small by lia. rewrite u32_small by (unfold is_u32; lia).
  destruct (IH (mk_nstate src al f) (pre ++ a1) a2 (offset + n) (block + 1) (block + 1))
    as (st' & -> & Hr' & Hb' & Hl' & Hi'); try done; try lia.
  { intros Hne2%nonempty_length. rewrite length_app. lia. }
  exists st'. split; [done|]. rewrite <- app_assoc, <- Ha in Hr'. split; [done|].
  split; [by replace (block + DIV_ROUND_UP (Z.of_nat (length a)) bs)
            with (block + 1 + DIV_ROUND_UP (Z.of_nat (length a2)) bs) by lia|].
  split; [by rewrite Hl'|]. intros off. rewrite Hi', Ha, <- overlay_app, length_app, Nat2Z.inj_add.
  unfold overlay at 1. unfold overlay at 2. unfold ns_image at 1. simpl. by rewrite Himg.
Qed.

(** The image of an ordinary file. *)
Definition file_image (data : list Z) (off : Z) : option Z :=
  if (0 <=? off) && (off <? Z.of_nat (length data)) then Some (nth (Z.to_nat off) data 0) else None.

Lemma normal_fuel_enough n : 0 <= n -> DIV_ROUND_UP n bs < Z.of_nat (normal_fuel n bs).
Proof using Hbs.
  intros Hn. pose proof Hbs as [[Hb0 _] _]. unfold normal_fuel, DIV_ROUND_UP.
  pose proof (Z.div_pos n bs Hn Hb0). rewrite Z2Nat.id by lia.
  assert ((n + bs - 1) / bs <= n / bs + 1); [|lia].
  replace (n / bs + 1) with ((n + 1 * bs) / bs) by (by rewrite Z.div_add by lia).
  apply Z.div_le_mono; lia.
Qed.

(** Reading a whole file into an empty sparse file of its length. *)
Lemma sparse_file_read_normal_spec src al s data :
  fd_rep e src [] data -> bytes_ok data -> no_oom al ->
  sf_block_size s = bs -> sf_len s = Z.of_nat (length data) ->
  sf_blocks s = backed_block_list_new bs ->
  DIV_ROUND_UP (Z.of_nat (length data)) bs < 2 ^ 32 ->
  exists st, sparse_file_read_normal (mk_nstate src al s) = Done (st, 0) /\
    building bs (ns_al st) (ns_file st) (DIV_ROUND_UP (Z.of_nat (length data)) bs) /\
    sf_len (ns_file st) = Z.of_nat (length data) /\
    forall off, ns_image st off = file_image data off.
Proof using Hbs.
  intros Hr Hby Hoom Hsb Hsl Hbl Hlt. pose proof Hbs as [[Hb0 _] _].
  unfold sparse_file_read_normal, malloc. cbn [ns_al ns_src ns_file]. rewrite Hoom by lia.
  unfold do_sparse_file_read_normal. cbn [ns_file]. rewrite Hsb, Hsl, Z.div_0_l by lia.
  change (u32 0) with 0. set (al1 := mk_alloc (next_addr al + 1) (oom al)).
  rewrite <- (app_nil_r data) in Hr.
  destruct (read_normal_loop_spec (normal_fuel (Z.of_nat (length data)) bs) (mk_nstate src al1 s)
    [] data [] 0 0 0) as (st & -> & _ & Hb & Hl & Hi); try done.
  - cbn [ns_al ns_file]. destruct s as [b l v bl]. simpl in *. subst. apply building_new; [done|].
    intros p Hp. simpl in *. apply Hoom. lia.
  - apply normal_fuel_enough. lia.
  - exists st. split; [done|]. split; [done|]. split; [by rewrite Hl|]. intros off. rewrite Hi.
    unfold overlay, ns_image. cbn [ns_file]. rewrite Hbl. simpl. unfold file_image.
    rewrite Z.add_0_l, Z.sub_0_r. done.
Qed.

End normal.

(** A file that does not start with the magic number is read as it is. *)
Lemma sparse_file_import_auto_normal e copybuf src al crc verbose data :
  fd_rep e src [] data -> bytes_ok data -> no_oom al ->
  SPARSE_HEADER_LEN <= Z.of_nat (length data) -> field 0 4 data <> SPARSE_HEADER_MAGIC ->
  DIV_ROUND_UP (Z.of_nat (length data)) 4096 < 2 ^ 32 ->
  exists s al', sparse_file_import_auto copybuf src al crc verbose = Done (Some s, al') /\
    sf_len s = Z.of_nat (length data) /\
    forall off, image e 4096 (data_blocks (sf_blocks s)) off = file_image data off.
Proof.
  intros Hr Hby Hoom Hlen Hmagic Hlt. unfold SPARSE_HEADER_LEN in Hlen.
  assert (Hbs : block_size_ok 4096) by (by split).
  unfold sparse_file_import_auto, sparse_file_import, sparse_file_import_source.
  assert (Hl : Z.of_nat (length (take 28 data)) = SPARSE_HEADER_LEN)
    by (rewrite length_take; unfold SPARSE_HEADER_LEN; lia).
  rewrite <- (take_drop 28 data) in Hr.
  destruct (fd_read_spec e src [] (take 28 data) (drop 28 data)) as (src1 & E & Hr1); [done|].
  rewrite Hl in E. change (ReadValue src SPARSE_HEADER_LEN) with (FdReadValue src SPARSE_HEADER_LEN). rewrite E.
  assert (Hm : magic (parse_sparse_header (take 28 data)) = field 0 4 data).
  { simpl. unfold field. unfold drop at 1 2. by rewrite take_take. }
  rewrite Hm. destruct (Z.eqb_spec (field 0 4 data) SPARSE_HEADER_MAGIC); [done|].
  simpl negb. cbv iota. cbn [obind].
  destruct Hr1 as [Hd Hp Hev Hsz Hb]. rewrite app_nil_l, take_drop in Hd. rewrite Hd.
  destruct (new_file_exists al 4096 (Z.of_nat (length data)) Hoom) as (al1 & Hoom1 & ->). cbn [obind].
  set (s0 := mk_sparse_file _ _ _ _).
  destruct (sparse_file_read_normal_spec e 4096 Hbs (set_pos src1 0) al1
    (if verbose then sparse_file_verbose s0 else s0) data) as (st & -> & Hbld & Hsl & Hi);
    try done; try (by destruct verbose).
  cbn [obind]. simpl (0 <? 0). cbv iota. eexists _, _. split; [reflexivity|]. by split.
Qed.
