(* ===== verification/NormalOutput.v ===== *)
(** libsparse/output_file.cpp with [normal_file_ops]: writing the expanded image
    (the mode simg2img uses) to a file descriptor. *)

From S2P Require Import Prelude.
From S2P Require Import Crc.
From S2P Require Import BackedBlock.
From S2P Require Import OutputFile.
From S2P Require Import SparseFile.
From S2P Require Import SparseRead.

Import SparseCrc.

Local Open Scope Z_scope.

Definition zeros (n : Z) : list Z := replicate (Z.to_nat n) 0.

(** * The file as the writer sees it

    Seeking leaves holes: what has been written is [l] once the file is
    extended with zeros up to the current position. *)
Record nf_view (f : normal_file) (l : list Z) : Prop := {
  nv_contents : exists n, l = contents f ++ replicate n 0;
  nv_pos : pos f = Z.of_nat (length l);
  nv_events : Forall no_error (events f) }.

Lemma nf_put f l d ev :
  nf_view f l -> Forall no_error ev -> nf_view (file_put f ev d) (l ++ d).
Proof.
  intros [[n Hc] Hp _] Hev.
  assert (Hput : contents (file_put f ev d) = l ++ d).
  { unfold file_put, write_at. cbn [contents]. rewrite Hp, Nat2Z.id, Hc.
    rewrite length_app, length_replicate.
    replace (length (contents f) + n - length (contents f))%nat with n by lia.
    rewrite take_ge by (rewrite length_app, length_replicate; lia).
    rewrite drop_ge by lia. by rewrite app_nil_r. }
  constructor; [exists 0%nat; by rewrite Hput, app_nil_r| |done].
  simpl. rewrite Hp, length_app. lia.
Qed.

Lemma nf_write_events ev f l d :
  Forall no_error ev -> nf_view f l ->
  exists f', file_write ev f d = (f', 0) /\ nf_view f' (l ++ d).
Proof.
  intros Hev. revert f l d. induction Hev as [|e ev He Hev IH]; intros f l d Hv.
  - destruct d as [|b d]; simpl; eexists; (split; [reflexivity|]).
    + rewrite app_nil_r. destruct Hv. by constructor.
    + by apply nf_put.
  - destruct d as [|b d].
    { simpl. eexists. split; [reflexivity|]. rewrite app_nil_r. destruct Hv. constructor; try done.
      by constructor. }
    destruct e as [n| |]; cbn [file_write]; [|by apply IH|done].
    destruct (IH (file_put f ev (take n (b :: d))) (l ++ take n (b :: d)) (drop n (b :: d)))
      as (f' & E & Hv'); [by apply nf_put|].
    exists f'. split; [done|]. by rewrite <- app_assoc, take_drop in Hv'.
Qed.

Lemma nf_skip f l n :
  nf_view f l -> 0 <= n ->
  exists f', file_skip f n = (f', 0) /\ nf_view f' (l ++ zeros n).
Proof.
  intros [[k Hc] Hp Hev] Hn. unfold file_skip. destruct (Z.ltb_spec (pos f + n) 0); [lia|].
  eexists. split; [reflexivity|]. constructor; simpl; [|unfold zeros; rewrite length_app, length_replicate; lia|done].
  exists (k + Z.to_nat n)%nat. unfold zeros. by rewrite Hc, replicate_add, app_assoc.
Qed.

Lemma nf_pad f l len :
  nf_view f l -> Z.of_nat (length l) <= len ->
  exists f', file_pad f len = (f', 0) /\ contents f' = l ++ zeros (len - Z.of_nat (length l)).
Proof.
  intros [[k Hc] Hp Hev] Hlen. unfold file_pad.
  assert (Hl : length l = (length (contents f) + k)%nat) by (rewrite Hc, length_app, length_replicate; done).
  destruct (Z.ltb_spec len 0); [lia|].
  eexists. split; [reflexivity|]. simpl.
  rewrite take_ge; [|rewrite length_app, length_replicate; lia].
  rewrite Hl, Hc, <- app_assoc. f_equal. unfold zeros. rewrite <- replicate_add. f_equal. lia.
Qed.

(** * Writing a block *)

(** A writer in normal mode whose file has received [l]. *)
Record writing (bs len : Z) (out : output_file normal_file) (l : list Z) : Prop := {
  wr_ops : sparse_ops out = false;
  wr_bs : of_block_size out = bs;
  wr_len : of_len out = len;
  wr_view : nf_view (file out) l }.

Section blocks.
Context (e : env) (bs len : Z) (Hbs : block_size_ok bs).

Lemma out_write_normal out l d :
  writing bs len out l -> exists out', out_write out d = (out', 0) /\ writing bs len out' (l ++ d).
Proof using.
  intros [Ho Hb Hl Hv]. unfold out_write. cbn [op_write file_ops].
  destruct (nf_write_events (events (file out)) (file out) l d) as (f' & -> & Hv'); [apply Hv|done|].
  eexists. split; [reflexivity|]. by constructor.
Qed.

Lemma out_skip_normal out l n :
  writing bs len out l -> 0 <= n ->
  exists out', out_skip out n = Done (out', 0) /\ writing bs len out' (l ++ zeros n).
Proof using.
  intros [Ho Hb Hl Hv] Hn. unfold out_skip. cbn [op_skip file_ops obind].
  destruct (nf_skip _ _ n Hv Hn) as (f' & -> & Hv').
  eexists. split; [reflexivity|]. by constructor.
Qed.

(** The bytes of a block in the expanded image. *)
Lemma write_data_normal out l d :
  writing bs len out l -> Z.of_nat (length d) + bs < 2 ^ 64 ->
  exists out', write_data_chunk out d = Done (out', 0) /\ writing bs len out' (l ++ pad_to bs d).
Proof using Hbs.
  intros Hw Hd. pose proof Hbs as [[Hb0 _] _]. pose proof Hw as [Ho Hb _ _].
  unfold write_data_chunk. rewrite Ho. unfold write_normal_data_chunk. rewrite Hb.
  pose proof (div_round_up_bounds (Z.of_nat (length d)) bs Hb0) as Hr.
  rewrite u64_small by (unfold is_u64, ALIGN; lia).
  destruct (out_write_normal out l d Hw) as (o1 & -> & Hw1). simpl (0 <? 0). cbv iota.
  unfold pad_to. destruct (Z.ltb_spec (Z.of_nat (length d)) (ALIGN (Z.of_nat (length d)) bs)).
  - rewrite app_assoc. apply out_skip_normal; [done|lia].
  - replace (ALIGN (Z.of_nat (length d)) bs - Z.of_nat (length d)) with 0 by (unfold ALIGN in *; lia).
    simpl. rewrite app_nil_r. by exists o1.
Qed.

Lemma write_fill_normal out l n v :
  writing bs len out l -> 0 <= n ->
  exists out', write_fill_chunk out n v = Done (out', 0) /\ writing bs len out' (l ++ fill_bytes v n).
Proof using.
  intros Hw Hn. pose proof Hw as [Ho _ _ _]. unfold write_fill_chunk. rewrite Ho.
  unfold write_normal_fill_chunk.
  set (I := fun (o : output_file normal_file) (r : Z) =>
    exists a, a + r = n /\ 0 <= a /\ (r = 0 \/ a mod 4 = 0) /\ writing bs len o (l ++ fill_bytes v a)).
  edestruct (chunk_loop_spec I FILL_ZERO_BUFSIZE) as (o & -> & a & Ha & _ & _ & Ho'); [done|done| | |].
  - exists 0. rewrite app_nil_r. split; [lia|]. split; [lia|]. split; [by right|exact Hw].
  - intros o r k (a & Ha & Ha0 & Hm & Hwo) Hk Hmin. destruct Hm as [->|Hm]; [lia|].
    destruct (out_write_normal o _ (fill_bytes v k) Hwo) as (o' & -> & Hw').
    exists o', 0. split; [done|]. split; [done|]. exists (a + k).
    rewrite fill_bytes_app, app_assoc by (done || lia).
    split; [lia|]. split; [lia|]. split; [|done].
    unfold FILL_ZERO_BUFSIZE in Hmin. destruct (Z.le_gt_cases r (2 * 1024 * 1024)); [left; lia|].
    right. replace k with (524288 * 4) by lia. by rewrite Z.mod_add.
  - exists o. split; [done|]. by replace n with a by lia.
Qed.

End blocks.

Section file.
Context (e : env) (bs : Z) (Hbs : block_size_ok bs).

Lemma expand_block b :
  node_ok bs b -> fill_aligned bs b ->
  expand_chunk bs (block_chunk e bs b) =
  match bb_kind b with
  | BACKED_BLOCK_FILL v => fill_bytes v (bb_len b)
  | _ => pad_to bs (payload_bytes e b)
  end.
Proof using Hbs.
  intros _ Hf. pose proof Hbs as [[Hb0 _] _]. unfold block_chunk, fill_aligned in *.
  destruct (bb_kind b); try done. simpl. f_equal.
  assert (Hq : bb_len b = bb_len b / bs * bs) by (pose proof (Z.div_mod (bb_len b) bs); lia).
  rewrite Hq, div_round_up_mul; done.
Qed.

Lemma write_block_normal len out l b :
  writing bs len out l -> node_ok bs b -> block_writable e bs b -> fill_aligned bs b ->
  exists out', sparse_file_write_block e out b = Done (out', 0) /\
    writing bs len out' (l ++ expand_chunk bs (block_chunk e bs b)).
Proof using Hbs.
  intros Hw Hb [Hmap _] Hf. pose proof Hbs as [[Hb0 Hb32] _].
  rewrite expand_block by done. pose proof Hb as [? Hl Hend _]. unfold bb_end in Hend.
  pose proof (div_round_up_bounds (bb_len b) bs Hb0).
  assert (Hdata : forall d, d = payload_bytes e b ->
    exists out', write_data_chunk out d = Done (out', 0) /\
      writing bs len out' (l ++ pad_to bs (payload_bytes e b))).
  { intros d ->. apply write_data_normal; [done|done|].
    rewrite length_payload_bytes by lia. nia. }
  unfold sparse_file_write_block, write_file_chunk, write_fd_chunk.
  destruct (bb_kind b) as [data|f off|fd off|v] eqn:Hk.
  - apply Hdata. unfold payload_bytes. by rewrite Hk.
  - destruct Hmap as [-> ->]. simpl. apply Hdata. unfold payload_bytes. by rewrite Hk.
  - rewrite Hmap. simpl. apply Hdata. unfold payload_bytes. by rewrite Hk.
  - apply write_fill_normal; [done|lia].
Qed.

Lemma expand_gap a b : expand_chunks bs (gap_chunk a b) = zeros ((b - a) * bs).
Proof using Hbs.
  pose proof Hbs as [[Hb0 _] _]. unfold gap_chunk, expand_chunks, zeros.
  destruct (Z.ltb_spec a b); simpl; [by rewrite app_nil_r|].
  replace (Z.to_nat ((b - a) * bs)) with 0%nat by nia. done.
Qed.

Lemma write_gap_normal len out l a b :
  writing bs len out l -> 0 <= a -> b < 2 ^ 32 -> a < b ->
  exists out', write_skip_chunk out (u32 (b - a) * bs) = Done (out', 0) /\
    writing bs len out' (l ++ expand_chunks bs (gap_chunk a b)).
Proof using Hbs.
  intros Hw Ha Hb Hlt. pose proof Hbs as [[Hb0 _] _]. unfold write_skip_chunk.
  rewrite (wr_ops _ _ _ _ Hw). unfold write_normal_skip_chunk.
  rewrite u32_small by (unfold is_u32; lia). rewrite expand_gap.
  apply out_skip_normal; [done|nia].
Qed.

Lemma write_blocks_normal len bbs out l lo :
  writing bs len out l -> chain bs lo bbs -> 0 <= lo ->
  Forall (block_writable e bs) bbs -> Forall (fill_aligned bs) bbs ->
  exists out', write_blocks_loop e bs bbs lo out = Done (out', 0, chain_end bs lo bbs) /\
    writing bs len out' (l ++ expand_chunks bs (chunks_of e bs bbs lo)).
Proof using Hbs.
  intros Hw Hch Hlo Hwr Hfa. revert out l lo Hw Hch Hlo.
  induction bbs as [|b bbs IH]; intros out l lo Hw Hch Hlo.
  { exists out. simpl. by rewrite app_nil_r. }
  destruct Hch as (Hlob & Hb & Hch). apply Forall_cons in Hwr as [Hwb Hwr].
  apply Forall_cons in Hfa as [Hfb Hfa]. specialize (IH Hwr Hfa).
  pose proof (bb_end_gt bs Hbs b Hb). assert (Hend : bb_end bs b < 2 ^ 32) by apply Hb.
  cbn [write_blocks_loop chunks_of]. unfold expand_chunks in *. rewrite bind_app.
  change (chain_end bs lo (b :: bbs)) with (chain_end bs (bb_end bs b) bbs).
  assert (Hgap : exists o1, (if lo <? bb_block b
      then write_skip_chunk out (u32 (bb_block b - lo) * bs) else Done (out, 0)) = Done (o1, 0) /\
    writing bs len o1 (l ++ (gap_chunk lo (bb_block b) ≫= expand_chunk bs))).
  { unfold gap_chunk. destruct (Z.ltb_spec lo (bb_block b)) as [Hlt|].
    - destruct (write_gap_normal len out l lo (bb_block b) Hw Hlo ltac:(lia) Hlt) as (o1 & E & H1).
      exists o1. split; [done|]. unfold expand_chunks, gap_chunk in H1.
      by rewrite (proj2 (Z.ltb_lt _ _) Hlt) in H1.
    - exists out. simpl. by rewrite app_nil_r. }
  destruct Hgap as (o1 & -> & Hw1). cbn [obind].
  destruct (write_block_normal len o1 _ b Hw1 Hb Hwb Hfb) as (o2 & -> & Hw2).
  cbn [obind]. simpl negb. cbv iota.
  change (bb_block b + DIV_ROUND_UP (bb_len b) bs) with (bb_end bs b).
  rewrite u32_small by (unfold is_u32; lia).
  destruct (IH o2 _ (bb_end bs b) Hw2 Hch ltac:(lia)) as (o3 & -> & Hw3).
  exists o3. split; [done|]. cbn [mbind list_bind]. by rewrite <- !app_assoc in *.
Qed.

Lemma length_expand cs :
  Forall (chunk_ok bs) cs -> Z.of_nat (length (expand_chunks bs cs)) = total_blocks bs cs * bs.
Proof using Hbs.
  pose proof Hbs as [[Hb0 _] _].
  induction 1 as [|c cs Hc Hcs IH]; [done|]. unfold expand_chunks in *. cbn [mbind list_bind].
  rewrite length_app, Nat2Z.inj_add, IH, total_blocks_cons.
  enough (Z.of_nat (length (expand_chunk bs c)) = chunk_blocks bs c * bs) by lia.
  destruct c as [d|v n|n|v]; simpl in *; [|unfold fill_bytes; rewrite length_map, length_seqZ; nia
    |rewrite length_replicate; nia|done].
  destruct Hc as (_ & Hm & _). pose proof (Z.div_mod (Z.of_nat (length d)) bs). lia.
Qed.

End file.

(** Writing a sparse file in normal mode to an empty file. *)
Lemma sparse_file_output_normal e al s f chk :
  sf_wf s -> Forall (block_writable e (sf_block_size s)) (data_blocks (sf_blocks s)) ->
  Forall (fill_aligned (sf_block_size s)) (data_blocks (sf_blocks s)) ->
  can_open al -> nf_view f [] ->
  exists f' al', sparse_file_output e al s f false chk = Done (0, f', al') /\
    contents f' = expand_chunks (sf_block_size s) (file_chunks e s).
Proof.
  intros Hwf Hwr Hfa (H1 & H2 & H3) Hv. pose proof (bbs_ok s Hwf) as Hbs.
  pose proof (sf_chain s Hwf) as Hch. set (bs := sf_block_size s) in *.
  unfold sparse_file_output, output_file_open, output_file_init, malloc.
  rewrite H1. cbn [next_addr oom]. rewrite H2. cbn [next_addr oom].
  replace (next_addr al + 1 + 1) with (next_addr al + 2) by lia. rewrite H3.
  fold bs. set (out := mk_output_file 0 0 0 false chk bs (sf_len s) f).
  assert (Hw : writing bs (sf_len s) out []) by (by constructor).
  unfold write_all_blocks. fold bs.
  destruct (write_blocks_normal e bs Hbs _ _ out [] 0 Hw Hch ltac:(lia) Hwr Hfa) as (o1 & -> & Hw1).
  cbn [obind]. simpl negb. cbv iota.
  pose proof (file_chunks_spec e s Hwf Hwr) as (Hok & Htot & _).
  pose proof (length_expand bs Hbs _ Hok) as Hlen. fold bs in Hok, Htot, Hlen. rewrite Htot in Hlen.
  pose proof Hwf as [_ _ Hsl Hfits HT]. fold bs in Hsl, Hfits.
  pose proof (chain_end_ge bs 0 _ Hbs Hch) as Hge.
  set (ce := chain_end bs 0 (data_blocks (sf_blocks s))) in *. set (T := sf_blocks_total s) in *.
  assert (Hpad : sf_len s - ce * bs = (T - ce) * bs) by lia. rewrite Hpad.
  pose proof Hbs as [[Hb0 _] _]. destruct (Z.ltb_spec ((T - ce) * bs) 0); [nia|].
  assert (Hlast : exists o2, (if 0 <? (T - ce) * bs
      then let* (o, _) := write_skip_chunk o1 ((T - ce) * bs) in Done (o, 0)
      else Done (o1, 0)) = Done (o2, 0) /\
    writing bs (sf_len s) o2 (expand_chunks bs (file_chunks e s))).
  { unfold file_chunks, expand_chunks. fold bs ce T. rewrite bind_app.
    fold (expand_chunks bs (gap_chunk ce T)). rewrite (expand_gap bs Hbs ce T).
    fold (expand_chunks bs (chunks_of e bs (data_blocks (sf_blocks s)) 0)).
    destruct (Z.ltb_spec 0 ((T - ce) * bs)).
    - unfold write_skip_chunk. rewrite (wr_ops _ _ _ _ Hw1). unfold write_normal_skip_chunk.
      destruct (out_skip_normal bs _ o1 _ ((T - ce) * bs) Hw1 ltac:(lia)) as (o2 & -> & Hw2).
      by exists o2.
    - exists o1. replace ((T - ce) * bs) with 0 by lia. by rewrite app_nil_r. }
  destruct Hlast as (o2 & -> & Hw2). cbn [obind].
  unfold output_file_close, write_end_chunk, write_normal_end_chunk. rewrite (wr_ops _ _ _ _ Hw2).
  destruct (nf_pad (file o2) _ (sf_len s) (wr_view _ _ _ _ Hw2)) as (f' & E & Hc); [lia|].
  rewrite (wr_len _ _ _ _ Hw2). cbn [op_pad file_ops]. rewrite E. cbn [obind].
  eexists _, _. split; [reflexivity|]. simpl. rewrite Hc, Hlen, Hsl, Z.sub_diag. apply app_nil_r.
Qed.

(** * The expanded image *)

(** An image as a file of [len] bytes, undefined bytes read as zero. *)
Definition flat (img : Z -> option Z) (len : Z) : list Z :=
  map (fun off => default 0 (img off)) (seqZ 0 len).

Lemma flat_ext img1 img2 len :
  (forall off, 0 <= off < len -> default 0 (img1 off) = default 0 (img2 off)) ->
  flat img1 len = flat img2 len.
Proof.
  intros H. apply map_ext_in. intros off Hoff%list_elem_of_In%elem_of_seqZ. apply H. lia.
Qed.

Lemma list_eq_flat l img :
  (forall off, 0 <= off < Z.of_nat (length l) -> nth (Z.to_nat off) l 0 = default 0 (img off)) ->
  l = flat img (Z.of_nat (length l)).
Proof.
  intros H. apply (nth_ext _ _ 0 0).
  - unfold flat. rewrite length_map, length_seqZ. lia.
  - intros n Hn. specialize (H (Z.of_nat n) ltac:(lia)). rewrite Nat2Z.id in H. rewrite H.
    unfold flat. rewrite <- (Nat2Z.id n) at 2.
    by rewrite (nth_map_seqZ (fun off => default 0 (img off))) by lia.
Qed.

Lemma chunk_expand_image bs c cur off :
  block_size_ok bs -> chunk_ok bs c ->
  cur * bs <= off < (cur + chunk_blocks bs c) * bs ->
  nth (Z.to_nat (off - cur * bs)) (expand_chunk bs c) 0 = default 0 (chunk_image bs c cur off).
Proof.
  intros [[Hb0 _] _] Hok Hoff. destruct c as [d|v n|n|v]; simpl in *; [| | |done].
  - destruct Hok as (_ & Hm & _). pose proof (Z.div_mod (Z.of_nat (length d)) bs).
    destruct (Z.leb_spec (cur * bs) off); [|lia].
    destruct (Z.ltb_spec off (cur * bs + Z.of_nat (length d))); [done|nia].
  - destruct (Z.leb_spec (cur * bs) off); [|lia]. destruct (Z.ltb_spec off ((cur + n) * bs)); [|lia].
    simpl. unfold fill_bytes. apply nth_map_seqZ. lia.
  - rewrite nth_lookup. destruct (replicate _ _ !! _) eqn:E; [|done].
    by apply lookup_replicate in E as [-> _].
Qed.

Lemma chunk_image_outside bs c cur off :
  block_size_ok bs -> chunk_ok bs c ->
  off < cur * bs \/ (cur + chunk_blocks bs c) * bs <= off -> chunk_image bs c cur off = None.
Proof.
  intros [[Hb0 _] _] Hok Hoff. destruct c as [d|v n|n|v]; simpl in *; [| |done|done].
  - destruct Hok as (_ & Hm & _). pose proof (Z.div_mod (Z.of_nat (length d)) bs).
    destruct (Z.leb_spec (cur * bs) off), (Z.ltb_spec off (cur * bs + Z.of_nat (length d))); simpl; try done.
    nia.
  - destruct (Z.leb_spec (cur * bs) off), (Z.ltb_spec off ((cur + n) * bs)); simpl; try done. lia.
Qed.

Lemma chunks_image_below bs cs cur off :
  block_size_ok bs -> Forall (chunk_ok bs) cs -> off < cur * bs -> chunks_image bs cs cur off = None.
Proof.
  intros Hbs Hok. revert cur. induction Hok as [|c cs Hc Hcs IH]; intros cur Hoff; [done|].
  simpl. rewrite chunk_image_outside by auto. apply IH.
  pose proof (chunk_blocks_nonneg bs Hbs c Hc). destruct Hbs as [[? _] _]. nia.
Qed.

(** Byte [off] of the expansion of the chunks is what their image defines. *)
Lemma expand_chunks_image bs cs cur off :
  block_size_ok bs -> Forall (chunk_ok bs) cs ->
  cur * bs <= off < (cur + total_blocks bs cs) * bs ->
  nth (Z.to_nat (off - cur * bs)) (expand_chunks bs cs) 0 = default 0 (chunks_image bs cs cur off).
Proof.
  intros Hbs Hok. revert cur. induction Hok as [|c cs Hc Hcs IH]; intros cur Hoff; [simpl in *; lia|].
  rewrite total_blocks_cons in Hoff. pose proof (chunk_blocks_nonneg bs Hbs c Hc) as Hn.
  pose proof Hbs as [[Hb0 _] _].
  assert (Hl : Z.of_nat (length (expand_chunk bs c)) = chunk_blocks bs c * bs).
  { pose proof (length_expand bs Hbs [c]) as H1. unfold expand_chunks in H1. cbn [mbind list_bind] in H1.
    rewrite app_nil_r, total_blocks_cons in H1. simpl total_blocks in H1. rewrite H1; [lia|by constructor]. }
  unfold expand_chunks in *. cbn [mbind list_bind chunks_image].
  destruct (Z.lt_ge_cases off ((cur + chunk_blocks bs c) * bs)).
  - rewrite app_nth1 by nia. rewrite (chunk_expand_image bs c cur off) by (done || lia).
    destruct (chunk_image bs c cur off); [done|]. by rewrite chunks_image_below.
  - rewrite chunk_image_outside by (done || lia). rewrite app_nth2 by nia.
    rewrite <- IH by lia. f_equal. nia.
Qed.

Lemma expand_chunks_flat bs cs :
  block_size_ok bs -> Forall (chunk_ok bs) cs ->
  expand_chunks bs cs = flat (chunks_image bs cs 0) (total_blocks bs cs * bs).
Proof.
  intros Hbs Hok. pose proof (length_expand bs Hbs cs Hok) as Hl. rewrite <- Hl.
  apply list_eq_flat. rewrite Hl. intros off Hoff.
  rewrite <- (expand_chunks_image bs cs 0 off) by (done || lia). f_equal. lia.
Qed.

Lemma padded_image_flat e bs lo l off :
  block_size_ok bs -> chain bs lo l -> Forall (fill_aligned bs) l ->
  default 0 (padded_image e bs l off) = default 0 (image e bs l off).
Proof.
  intros Hbs Hch Hfa. revert lo Hch. induction Hfa as [|b l Hb Hl IH]; intros lo Hch; [done|].
  destruct Hch as (Hlo & Hok & Hch). simpl. unfold covers.
  pose proof Hbs as [[Hb0 _] _]. pose proof (div_round_up_bounds (bb_len b) bs Hb0).
  assert (bb_block b * bs + bb_len b <= bb_end bs b * bs) by (unfold bb_end; nia).
  destruct (Z.leb_spec (bb_block b * bs) off); simpl; [|by eapply IH].
  destruct (Z.ltb_spec off (bb_end bs b * bs)) as [Hlt|Hge].
  - unfold padded_byte. destruct (Z.ltb_spec off (bb_block b * bs + bb_len b)).
    + destruct (Z.ltb_spec (off - bb_block b * bs) (bb_len b)); [|lia]. by destruct (bb_kind b).
    + destruct (Z.ltb_spec (off - bb_block b * bs) (bb_len b)); [lia|].
      rewrite (image_below bs Hbs e (bb_end bs b)) by done. unfold fill_aligned in Hb.
      destruct (bb_kind b); try done. exfalso.
      pose proof (Z.div_mod (bb_len b) bs). unfold bb_end in Hlt.
      replace (bb_len b) with (bb_len b / bs * bs) in Hlt by lia.
      rewrite div_round_up_mul in Hlt by done. lia.
  - destruct (Z.ltb_spec off (bb_block b * bs + bb_len b)); [lia|]. by eapply IH.
Qed.

Lemma fill_aligned_split bs m : bs <> 0 -> split_closed bs (ALIGN_DOWN m bs) (fill_aligned bs).
Proof.
  intros Hbs p b Hm. unfold fill_aligned. simpl. destruct (bb_kind b); simpl; try done.
  intros Hb. unfold ALIGN_DOWN. rewrite (Z.mul_comm bs), Z.mod_mul by done. split; [done|].
  rewrite Zminus_mod, Hb, Z.mod_mul by done. done.
Qed.

(** An image in whole blocks: a block of which anything is defined is defined
    to its end, zero behind its data. *)
Definition whole_blocks (bs : Z) (img : Z -> option Z) (off : Z) : option Z :=
  match img (off / bs * bs) with Some _ => Some (default 0 (img off)) | None => None end.

(** A block of the list holds the first byte of each of its blocks. *)
Lemma covers_first bs b off :
  block_size_ok bs -> node_ok bs b ->
  covers bs b (off / bs * bs) = (bb_block b * bs <=? off) && (off <? bb_end bs b * bs).
Proof.
  intros [[Hb0 _] _] [_ Hl _ _]. pose proof (div_round_up_bounds (bb_len b) bs Hb0). pose proof (Z.div_mod off bs). pose proof (Z.mod_pos_bound off bs Hb0).
  unfold covers, bb_end. set (q := off / bs) in *. set (n := DIV_ROUND_UP (bb_len b) bs) in *. set (k := bb_block b).
  apply eq_true_iff_eq. rewrite !andb_true_iff, !Z.leb_le, !Z.ltb_lt. split.
  - intros [Hx Hy]. assert (k <= q) by nia. assert (q < k + n) by nia. split; nia.
  - intros [Hx Hy]. assert (k <= q) by nia. assert (q < k + n) by nia. split; nia.
Qed.

(** Where fills are whole blocks, the chunks of the format describe the image in
    whole blocks. *)
Lemma padded_image_whole e bs lo l off :
  block_size_ok bs -> chain bs lo l -> Forall (fill_aligned bs) l ->
  padded_image e bs l off = whole_blocks bs (image e bs l) off.
Proof.
  intros Hbs Hch Hfa. pose proof (padded_image_flat e bs lo l off Hbs Hch Hfa) as Hd. unfold whole_blocks. rewrite <- Hd.
  assert (Hs : is_Some (padded_image e bs l off) <-> is_Some (image e bs l (off / bs * bs))).
  { clear Hd Hfa. revert lo Hch. induction l as [|b l IH]; intros lo Hch; [done|]. destruct Hch as (_ & Hb & Hch). cbn [padded_image image].
    rewrite covers_first by done. destruct (_ && _); [|by eapply IH]. by split. }
  destruct (padded_image e bs l off), (image e bs l (off / bs * bs)); try done; destruct Hs as [H1 H2];
    [destruct (H1 (mk_is_Some _ _ eq_refl))|destruct (H2 (mk_is_Some _ _ eq_refl))]; done.
Qed.

(** * Where the stored checksum is that of the expanded image *)

(** Chunks whose checksum the writer counts in full. *)
Definition counted (c : chunk) : Prop := match c with ChunkRaw _ => True | ChunkFill _ n => n = 1 | _ => False end.

Lemma iter_fill_crc v n crc : Nat.iter n (fun c => sparse_crc32 c (le_encode 4 v)) crc = sparse_crc32 crc (fill_bytes v (4 * Z.of_nat n)).
Proof.
  induction n as [|n IH]; [by rewrite sparse_crc32_nil|]. rewrite Nat.iter_succ, IH. replace (4 * Z.of_nat (S n)) with (4 * Z.of_nat n + 4) by lia.
  rewrite fill_bytes_app by (lia || (rewrite Z.mul_comm; by apply Z.mod_mul)). rewrite sparse_crc32_app. done.
Qed.

Lemma counted_crc bs cs crc : block_size_ok bs -> Forall counted cs -> chunks_crc bs cs crc = sparse_crc32 crc (expand_chunks bs cs).
Proof.
  intros [[Hb0 _] Hb4] H. unfold chunks_crc, expand_chunks. revert crc. induction H as [|c cs Hc _ IH]; intros crc; [by cbn; rewrite sparse_crc32_nil|].
  cbn [foldl mbind list_bind]. rewrite IH, sparse_crc32_app. f_equal. destruct c as [d|v n|n|v]; [done| |done|done]. cbn [counted] in Hc. subst n.
  cbn [chunk_crc expand_chunk]. rewrite iter_fill_crc. do 2 f_equal. pose proof (Z.div_mod bs 4). lia.
Qed.

(** No holes: the first byte of every block is defined.  Each fill is one block
    long. *)
Definition no_holes (e : env) (s : sparse_file) : Prop :=
  forall n, 0 <= n < sf_blocks_total s -> image e (sf_block_size s) (data_blocks (sf_blocks s)) (n * sf_block_size s) <> None.
Definition single_fill (bs : Z) (b : backed_block) : Prop := match bb_kind b with BACKED_BLOCK_FILL _ => bb_len b = bs | _ => True end.

Lemma chunks_counted e bs total l : forall lo,
  block_size_ok bs -> chain bs lo l -> Forall (single_fill bs) l -> chain_end bs lo l <= total ->
  (forall n, lo <= n < total -> image e bs l (n * bs) <> None) ->
  Forall counted (chunks_of e bs l lo ++ gap_chunk (chain_end bs lo l) total).
Proof.
  induction l as [|b l IH]; intros lo Hbs Hch Hf Hend Hno; pose proof Hbs as [[Hb0 _] _].
  - cbn [chunks_of app chain_end foldl] in *. unfold gap_chunk. destruct (Z.ltb_spec lo total); [|constructor]. by destruct (Hno lo ltac:(lia)).
  - destruct Hch as (Hlo & Hb & Hch). apply Forall_cons in Hf as [Hfb Hf]. cbn [chunks_of].
    change (chain_end bs lo (b :: l)) with (chain_end bs (bb_end bs b) l) in *. pose proof (chain_end_ge bs _ _ Hbs Hch).
    pose proof Hb as [_ Hlen _ _]. pose proof (div_round_up_bounds (bb_len b) bs Hb0). assert (bb_block b < bb_end bs b) by (unfold bb_end; nia).
    assert (Hg : bb_block b = lo).
    { destruct (Z.lt_ge_cases lo (bb_block b)) as [Hlt|]; [|lia]. destruct (Hno lo ltac:(lia)). cbn [image].
      assert (covers bs b (lo * bs) = false) as -> by (unfold covers; apply andb_false_iff; left; apply Z.leb_gt; nia).
      apply (image_below bs Hbs e (bb_end bs b)); [done|nia]. }
    unfold gap_chunk at 1. destruct (Z.ltb_spec lo (bb_block b)); [lia|]. cbn [app]. constructor.
    + unfold block_chunk, single_fill in *. destruct (bb_kind b); [done..|]. cbn [counted]. rewrite Hfb. replace bs with (1 * bs) at 1 by lia. by apply div_round_up_mul.
    + apply IH; [done|done|done|done|]. intros n Hn. specialize (Hno n ltac:(lia)). cbn [image] in Hno.
      assert (covers bs b (n * bs) = false) as Hc; [|by rewrite Hc in Hno].
      unfold covers. apply andb_false_iff. right. apply Z.ltb_ge. unfold bb_end in *. nia.
Qed.

Lemma single_fill_split bs m : block_size_ok bs -> bs <= m -> split_closed bs (ALIGN_DOWN m bs) (single_fill bs).
Proof.
  intros [[Hb0 _] _] Hm p b Hlt. unfold single_fill. cbn [set_len second_half bb_kind bb_len]. destruct (bb_kind b); cbn; try done. intros Hl. exfalso.
  unfold ALIGN_DOWN in Hlt. assert (1 <= m / bs) by (apply Z.div_le_lower_bound; lia). nia.
Qed.

(** The checksum of a file without holes and long fills is that of its image. *)
Lemma file_crc e s :
  sf_wf s -> Forall (block_writable e (sf_block_size s)) (data_blocks (sf_blocks s)) ->
  no_holes e s -> Forall (single_fill (sf_block_size s)) (data_blocks (sf_blocks s)) ->
  chunks_crc (sf_block_size s) (file_chunks e s) 0 = sparse_crc32 0 (expand_chunks (sf_block_size s) (file_chunks e s)).
Proof.
  intros Hwf Hw Hno Hf. apply counted_crc; [by apply bbs_ok|]. unfold file_chunks. pose proof (sfw_fits s Hwf).
  apply chunks_counted; [by apply bbs_ok|by apply sf_chain|done|done|done].
Qed.

(** The chunks of a file expand to its image. *)
Lemma file_chunks_expand e s :
  sf_wf s -> Forall (block_writable e (sf_block_size s)) (data_blocks (sf_blocks s)) ->
  Forall (fill_aligned (sf_block_size s)) (data_blocks (sf_blocks s)) ->
  expand_chunks (sf_block_size s) (file_chunks e s) = flat (image e (sf_block_size s) (data_blocks (sf_blocks s))) (sf_len s).
Proof.
  intros Hwf Hw Hfa. destruct (file_chunks_spec e s Hwf Hw) as (Hok & Htot & Himg). pose proof (bbs_ok s Hwf) as Hbs.
  rewrite (expand_chunks_flat _ _ Hbs Hok), Htot, <- (sfw_len s Hwf). apply flat_ext. intros off _. rewrite Himg.
  eapply padded_image_flat; [done|by apply sf_chain|done].
Qed.

(** Writing a file in normal mode produces its image, holes as zeros. *)
Lemma sparse_file_write_normal fuel e al s f chk :
  sf_wf s -> alloc_ok al (data_blocks (sf_blocks s)) -> no_oom al -> env_total e ->
  sf_block_size s <= MAX_BACKED_BLOCK_SIZE ->
  Forall (fill_aligned (sf_block_size s)) (data_blocks (sf_blocks s)) ->
  nf_view f [] -> (write_fuel s <= fuel)%nat ->
  exists f' al' s', sparse_file_write fuel e al s f false chk = Done (0, f', al', s') /\
    presplit s s' /\
    contents f' = flat (image e (sf_block_size s) (data_blocks (sf_blocks s))) (sf_len s).
Proof.
  intros Hwf Hal Hoom Henv Hmax Hfa Hv Hfuel. unfold sparse_file_write.
  destruct (split_file_spec fuel al s Hwf Hal Hoom Hmax Hfuel) as (al1 & s1 & -> & Hps & Hoom1).
  cbn [obind]. simpl negb. cbv iota. rewrite <- (ps_file _ _ Hps).
  pose proof (bbs_ok s Hwf) as Hbs. pose proof Hbs as [[Hb0 _] _].
  pose proof (ps_wf _ _ Hps) as Hwf1.
  assert (Hb1 : sf_block_size s1 = sf_block_size s) by (by rewrite (ps_file _ _ Hps)).
  assert (Hl1 : sf_len s1 = sf_len s) by (by rewrite (ps_file _ _ Hps)).
  assert (Hfa1 : Forall (fill_aligned (sf_block_size s1)) (data_blocks (sf_blocks s1))).
  { rewrite Hb1. apply (ps_keeps _ _ Hps); [apply fill_aligned_split; lia|done]. }
  pose proof (presplit_writable e s s1 Hps Henv Hmax) as Hwr.
  destruct (sparse_file_output_normal e al1 s1 f chk) as (f' & al2 & -> & Hc); try done.
  { by apply no_oom_can_open. }
  cbn [obind]. exists f', al2, s1. split; [done|]. split; [done|]. rewrite Hc.
  rewrite file_chunks_expand, Hl1, Hb1 by done. apply flat_ext. intros off _. by rewrite (ps_image _ _ Hps).
Qed.
