(* ===== verification/SparseTools.v ===== *)
(** libsparse/img2simg.cpp, simg2img.cpp, simg2simg.cpp and append2simg.cpp: the
    command line tools, from the point where their arguments are parsed and the files are open. *)

From S2P Require Import Prelude.
From S2P Require Import BackedBlock.
From S2P Require Import OutputFile.
From S2P Require Import SparseFile.
From S2P Require Import SparseRead.
From S2P Require Import Resparse.
From S2P Require Import SparseReadNormal.
From S2P Require Import NormalOutput.

Local Open Scope Z_scope.

(** * The tools

    [None] is a run that ends with [exit(-1)]; otherwise the output file is
    returned as the tool leaves it. *)

Definition img2simg (fuel : nat) (e : env) (seek_data seek_hole : Z -> Z) (al : allocator)
    (mode : sparse_read_mode) (block_size : Z) (src : SparseFileFdSource) (out : normal_file)
  : outcome (option normal_file) :=
  if (block_size <? 1024) || negb (block_size mod 4 =? 0) then Done None
  else
    let len := Z.of_nat (length (fd_data src)) in
    let src := set_pos src 0 in
    let* (s, al) := sparse_file_new al block_size len in
    match s with
    | None => Done None
    | Some s =>
        let s := sparse_file_verbose s in
        let* (st, ret) :=
          sparse_file_read seek_data seek_hole fuel false (mk_nstate src al s) mode false in
        if negb (ret =? 0) then Done None
        else
          let* (ret, out, _, _) := sparse_file_write fuel e (ns_al st) (ns_file st) out true false in
          Done (if negb (ret =? 0) then None else Some out)
    end.

(** [lseek(out, 0, SEEK_SET)] *)
Definition rewind_out (f : normal_file) : normal_file :=
  mk_normal_file (contents f) 0 (events f).

(** Every input is expanded over the same output; each input
    comes with the files as they are while that input is open. *)
Fixpoint simg2img (fuel : nat) (copybuf : bool) (al : allocator)
    (inputs : list (env * SparseFileFdSource)) (out : normal_file) : outcome (option normal_file) :=
  match inputs with
  | [] => Done (Some out)
  | (e, src) :: inputs =>
      let* (s, _, al) := sparse_file_import copybuf src al true false in
      match s with
      | None => Done None
      | Some s =>
          let* (ret, out, al, _) := sparse_file_write fuel e al s (rewind_out out) false false in
          if ret <? 0 then Done None
          else simg2img fuel true al inputs out
      end
  end.

(** simg2simg: a first call of [sparse_file_resparse] counts the files, a
    second one fills an array of that size, which is written out. *)
Fixpoint write_parts (fuel : nat) (e : env) (al : allocator) (parts : list sparse_file)
  : outcome (option (list normal_file)) :=
  match parts with
  | [] => Done (Some [])
  | s :: parts =>
      let* (ret, out, al, _) := sparse_file_write fuel e al s (mk_normal_file [] 0 []) true false in
      if negb (ret =? 0) then Done None
      else
        let* r := write_parts fuel e al parts in
        Done (match r with Some l => Some (out :: l) | None => None end)
  end.

Definition simg2simg (fuel : nat) (e : env) (al : allocator) (src : SparseFileFdSource)
    (max_size : Z) : outcome (option (list normal_file)) :=
  let* (s, _, al) := sparse_file_import false src al true false in
  match s with
  | None => Done None
  | Some s =>
      let* (files, _, s, al) := sparse_file_resparse fuel e al s (u32 max_size) 0 in
      if files <? 0 then Done None
      else
        match malloc al with
        | (None, _) => Done None
        | (Some _, al) =>
            let* (files, out_s, s, al) := sparse_file_resparse fuel e al s (u32 max_size) files in
            if files <? 0 then Done None
            else
              let* r := write_parts fuel e al out_s in
              match r with
              | None => Done None
              | Some l => if Z.of_nat (length out_s) <? files then Crash BadPointer else Done (Some l)
              end
        end
  end.

(** append2simg: the input file is appended behind the blocks of the image;
    [e] is the environment in which both files are open. *)
Definition append2simg (fuel : nat) (e : env) (al : allocator) (output input : SparseFileFdSource)
    (tmp : normal_file) : outcome (option normal_file) :=
  let* (s, al) := sparse_file_import_auto false output al false true in
  match s with
  | None => Done None
  | Some s =>
      let input_len := Z.of_nat (length (fd_data input)) in
      if negb (input_len mod sf_block_size s =? 0) then Done None
      else
        let output_block := s32 (sf_len s / sf_block_size s) in
        let* (ret, al, s) :=
          sparse_file_add_fd al s (fd_num input) 0 input_len (u32 output_block) in
        if ret <? 0 then Done None
        else
          let s := mk_sparse_file (sf_block_size s) (s64 (sf_len s + input_len)) (sf_verbose s)
                     (sf_blocks s) in
          let* (ret, tmp, _, _) := sparse_file_write fuel e al s tmp true false in
          Done (if ret <? 0 then None else Some tmp)
  end.

(** * Converting to a sparse image and back *)

(** What img2simg writes for an ordinary file. *)
Lemma img2simg_spec fuel e sd sh al bs src out data :
  fd_rep e (set_pos src 0) [] data -> bytes_ok data -> no_oom al -> env_total e ->
  1024 <= bs <= MAX_BACKED_BLOCK_SIZE -> bs mod 4 = 0 ->
  (exists n, Z.of_nat (length data) = n * bs /\ 0 <= n < 2 ^ 32) ->
  file_rep out [] -> (length data < fuel)%nat ->
  exists s out', img2simg fuel e sd sh al SPARSE_READ_MODE_NORMAL bs src out = Done (Some out') /\
    contents out' = sparse_image e s false /\ sf_wf s /\
    sf_block_size s = bs /\ sf_len s = Z.of_nat (length data) /\
    Forall (block_writable e bs) (data_blocks (sf_blocks s)) /\
    Forall (fill_aligned bs) (data_blocks (sf_blocks s)) /\
    forall off, image e bs (data_blocks (sf_blocks s)) off = file_image data off.
Proof.
  intros Hr Hby Hoom Henv Hb Hb4 (n & Hn & Hn32) Hout Hfuel.
  assert (Hbs : block_size_ok bs) by (split; [unfold MAX_BACKED_BLOCK_SIZE in Hb|]; lia).
  pose proof Hr as [Hd _ _ _ _]. simpl in Hd. unfold img2simg. rewrite Hd.
  destruct (Z.ltb_spec bs 1024); [lia|]. rewrite Hb4. simpl (negb _). simpl (_ || _). cbv iota.
  destruct (new_file_exists al bs (Z.of_nat (length data)) Hoom) as (al1 & Hoom1 & ->). cbn [obind].
  set (s0 := sparse_file_verbose _). unfold sparse_file_read.
  destruct (sparse_file_read_normal_spec e bs Hbs (set_pos src 0) al1 s0 data)
    as (st & -> & Hbld & Hsl & Himg); try done; rewrite Hn, div_round_up_mul in * by lia; [lia|].
  cbn [obind]. simpl negb. cbv iota. pose proof Hbld as [Hwf Hsb Hbb Hal Hoom2 _ Hfa].
  assert (Hswf : sf_wf (ns_file st)) by (by eapply building_sf_wf).
  destruct (sparse_file_write_spec fuel e (ns_al st) (ns_file st) out [] false)
    as (f' & al' & s' & -> & Hps & Hrep); rewrite ?Hsb; try done; try lia.
  { pose proof (write_fuel_le (ns_file st) Hswf ltac:(lia)). lia. }
  cbn [obind]. exists s', f'. split; [done|]. destruct Hrep as (Hc & _).
  split; [done|]. split; [apply Hps|].
  assert (Hb' : sf_block_size s' = bs) by (by rewrite (ps_file _ _ Hps)).
  split; [done|]. split; [rewrite (ps_file _ _ Hps); simpl; lia|].
  pose proof (presplit_writable e _ _ Hps Henv ltac:(lia)) as Hwr. rewrite Hb' in Hwr.
  split; [done|]. pose proof (ps_keeps _ _ Hps (fill_aligned bs)) as Hk.
  pose proof (ps_image _ _ Hps e) as Hi. rewrite Hsb in *.
  split; [apply Hk; [apply fill_aligned_split; lia|done]|].
  intros off. rewrite Hi. apply Himg.
Qed.

(** What simg2img writes for the image of a well-formed sparse file. *)
Lemma simg2img_spec fuel copybuf al e e' src s out :
  fd_rep e' src [] (sparse_image e s false) -> no_oom al -> env_total e' ->
  sf_wf s -> Forall (block_writable e (sf_block_size s)) (data_blocks (sf_blocks s)) ->
  sf_block_size s <= MAX_BACKED_BLOCK_SIZE -> 0 < sf_blocks_total s < 2 ^ 31 ->
  Forall (fill_aligned (sf_block_size s)) (data_blocks (sf_blocks s)) ->
  nf_view (rewind_out out) [] -> (Z.to_nat (sf_len s) <= fuel)%nat ->
  exists out', simg2img fuel copybuf al [(e', src)] out = Done (Some out') /\
    contents out' = flat (image e (sf_block_size s) (data_blocks (sf_blocks s))) (sf_len s).
Proof.
  intros Hr Hoom Henv Hwf Hwr Hmax HT Hfa Hv Hfuel. pose proof (bbs_ok s Hwf) as Hbs.
  pose proof (sf_chain s Hwf) as Hch. destruct (file_chunks_spec e s Hwf Hwr) as (Hok & Htot & Himg).
  set (bs := sf_block_size s) in *. set (cs := file_chunks e s) in *.
  assert (Himage : sparse_image e s false = stored_image bs cs None ++ []).
  { unfold sparse_image, stored_image, crc_tail. fold bs cs. rewrite Htot, !app_nil_r.
    pose proof Hwf as [_ _ Hlen _ _]. fold bs in Hlen. by rewrite Hlen. }
  rewrite Himage in Hr. cbn [simg2img].
  assert (Hr' : src_rep e' src [] (stored_image bs cs None ++ [])) by exact Hr.
  destruct (import_source_spec e' bs Hbs src al copybuf true false cs None [] Hr' Hoom Hok)
    as (f & src' & al' & E & [Hfwf Hfb Hfl Hff Hfi] & Hal' & Hoom'); [lia|done|].
  unfold sparse_file_import. rewrite E. cbn [obind import_accepts].
  destruct (sparse_file_write_normal fuel e' al' f (rewind_out out) false)
    as (out' & al2 & s2 & -> & _ & Hc); rewrite ?Hfb; try done.
  { pose proof (write_fuel_le f Hfwf ltac:(rewrite Hfb; done)) as Hfu.
    rewrite Hfl, Htot in Hfu. pose proof Hwf as [_ _ Hlen _ _]. fold bs in Hlen. lia. }
  cbn [obind]. simpl (0 <? 0). cbv iota. exists out'. split; [done|].
  rewrite Hc, Hfb, Hfl, Htot. pose proof Hwf as [_ _ Hlen _ _]. fold bs in Hlen. rewrite <- Hlen.
  apply flat_ext. intros off _. rewrite Hfi, Himg. by eapply padded_image_flat.
Qed.
