(* ===== verification/SparseProperties.v ===== *)
(** The properties of libsparse: the block list, the writer, the reader, the
    splitting of images and the tools, each with an instance on concrete data. *)

From S2P Require Import Prelude.
From S2P Require Import Crc.
From S2P Require Import BackedBlock.
From S2P Require Import OutputFile.
From S2P Require Import SparseFile.
From S2P Require Import SparseRead.
From S2P Require Import Resparse.
From S2P Require Import SparseReadNormal.
From S2P Require Import NormalOutput.
From S2P Require Import SparseTools.

Local Open Scope Z_scope.
Import SparseCrc.

(** * Concrete data for the instances *)

Module Demo.

(** Memory holds its own addresses; every file opens and maps. *)
Definition e : env :=
  mk_env (fun a => a mod 256) (fun _ i => i mod 256) (fun _ i => i mod 256)
    (fun _ => 0) (fun _ _ _ => 0) (fun _ _ _ => 0).

Definition al : allocator := mk_alloc 10 (fun _ => false).

(** Six blocks of four bytes: a gap, six bytes of data, a gap, one fill block,
    a gap. *)
Definition data_block : backed_block := mk_bb 1 1 6 (BACKED_BLOCK_DATA 100).
Definition fill_block : backed_block := mk_bb 2 4 4 (BACKED_BLOCK_FILL 0x01020304).
Definition bbl : backed_block_list := mk_bbl [data_block; fill_block] None 4.
Definition s : sparse_file := mk_sparse_file 4 24 false bbl.

Lemma bs_ok : block_size_ok 4.
Proof. by split. Qed.

Lemma bbl_ok : bbl_wf bbl.
Proof.
  constructor; [apply bs_ok| | |done].
  - repeat (split; [try done; constructor; done|]). done.
  - apply (bool_decide_unpack _). vm_compute. done.
Qed.

Lemma s_ok : sf_wf s.
Proof. constructor; [apply bbl_ok|done|done|vm_compute; done|by split]. Qed.

Lemma s_writable : Forall (block_writable e 4) (data_blocks (sf_blocks s)).
Proof. by repeat constructor. Qed.

Lemma al_oom : no_oom al.
Proof. done. Qed.

Lemma al_ok : alloc_ok al (data_blocks (sf_blocks s)).
Proof. intros p Hp. by repeat (apply elem_of_cons in Hp as [->|Hp]; [done|]); apply elem_of_nil in Hp. Qed.

Lemma e_total : env_total e.
Proof. done. Qed.

Lemma s_fill : Forall (fill_aligned 4) (data_blocks (sf_blocks s)).
Proof. by repeat constructor. Qed.

(** An environment whose memory holds [bytes] from address 0, and whose
    descriptor 3 is a file with these contents. *)
Definition holding (bytes : list Z) : env :=
  mk_env (fun a => nth (Z.to_nat a) bytes 0) (fun _ i => i mod 256)
    (fun _ i => nth (Z.to_nat i) bytes 0) (fun _ => 0) (fun _ _ _ => 0) (fun _ _ _ => 0).

Lemma holding_buf bytes : src_rep (holding bytes) (buf_source 0 bytes) [] bytes.
Proof. by constructor. Qed.

(** Short reads of one byte, then whatever is asked for. *)
Definition fd_source (bytes : list Z) : SparseFileFdSource := mk_fd_source 3 bytes 0 [Got 1; Got 2].

Lemma holding_fd bytes :
  Z.of_nat (length bytes) < 2 ^ 63 -> fd_rep (holding bytes) (fd_source bytes) [] bytes.
Proof. intros. constructor; try done. repeat constructor. Qed.

End Demo.

(** * Block lists *)

(** [backed_block_add] (and with it every [sparse_file_add_*]) on a
    well-formed list, with a region that overlaps nothing: it succeeds, the
    list stays sorted, disjoint and free of duplicate nodes, whatever merging
    takes place the new region reads as the new data and everything else is
    unchanged. *)
Theorem add_extends_image al bbl k len block :
  bbl_wf bbl -> alloc_ok al (data_blocks bbl) -> oom al (next_addr al) = false ->
  node_ok (bbl_block_size bbl) (mk_bb (next_addr al) block len k) ->
  disjoint_from (bbl_block_size bbl) (mk_bb (next_addr al) block len k) (data_blocks bbl) ->
  exists al' bbl', backed_block_add al bbl k len block = Done (0, al', bbl') /\
    bbl_wf bbl' /\ bbl_block_size bbl' = bbl_block_size bbl /\ alloc_ok al' (data_blocks bbl') /\
    forall e off, image e (bbl_block_size bbl) (data_blocks bbl') off =
      if (block * bbl_block_size bbl <=? off) && (off <? block * bbl_block_size bbl + len)
      then Some (payload e k (off - block * bbl_block_size bbl))
      else image e (bbl_block_size bbl) (data_blocks bbl) off.
Proof.
  intros Hwf Hal Hoom Hn Hd.
  destruct (backed_block_add_spec al bbl k len block Hwf Hal Hoom Hn Hd) as (al' & bbl' & E & Hq & Ha).
  exists al', bbl'. destruct Hq as [Q1 Q2 Q3 _ _].
  repeat (split; [done|]). exact Q3.
Qed.

Lemma add_extends_image_witness :
  exists al' bbl', backed_block_add Demo.al Demo.bbl (BACKED_BLOCK_FILL 0x01020304) 4 5 = Done (0, al', bbl') /\
    bbl_wf bbl' /\ image Demo.e 4 (data_blocks bbl') 21 = Some 3.
Proof.
  destruct (add_extends_image Demo.al Demo.bbl (BACKED_BLOCK_FILL 0x01020304) 4 5)
    as (al' & bbl' & E & Hwf & _ & _ & Hi).
  - exact Demo.bbl_ok.
  - exact Demo.al_ok.
  - reflexivity.
  - by constructor.
  - apply Forall_cons; split; [left; vm_compute; done|].
    apply Forall_cons; split; [left; vm_compute; done|constructor].
  - exists al', bbl'. split; [exact E|]. split; [exact Hwf|]. exact (Hi Demo.e 21).
Defined.

(** C36: [backed_block_split] of a node of a well-formed list at a limit of at
    least one block: the list stays well formed, describes the same image, and
    the node is cut at the limit rounded down to whole blocks. *)
Theorem split_preserves_image al bbl p max_len :
  bbl_wf bbl -> alloc_ok al (data_blocks bbl) -> oom al (next_addr al) = false ->
  p ∈ addrs (data_blocks bbl) -> bbl_block_size bbl <= max_len < 2 ^ 32 ->
  exists al' bbl', backed_block_split al bbl p max_len = Done (0, al', bbl') /\
    bbl_wf bbl' /\ alloc_ok al' (data_blocks bbl') /\
    (forall e off, image e (bbl_block_size bbl) (data_blocks bbl') off
                   = image e (bbl_block_size bbl) (data_blocks bbl) off) /\
    exists pre b post, data_blocks bbl = pre ++ b :: post /\ bb_addr b = p /\
      let m := ALIGN_DOWN max_len (bbl_block_size bbl) in
      ((bb_len b <= m /\ bbl' = bbl) \/
       exists p', m < bb_len b /\ data_blocks bbl'
         = pre ++ set_len b m :: second_half (bbl_block_size bbl) p' b m :: post).
Proof.
  intros Hwf Hal Hoom Hp Hm.
  destruct (backed_block_split_spec al bbl p max_len Hwf Hal Hoom Hp Hm)
    as (al' & bbl' & E & [S1 _ S3 S4] & Ha). exists al', bbl'.
  repeat (split; [done|]). exact S4.
Qed.

Lemma split_preserves_image_witness :
  exists al' bbl', backed_block_split Demo.al Demo.bbl 1 7 = Done (0, al', bbl') /\
    bbl_wf bbl' /\ forall off, image Demo.e 4 (data_blocks bbl') off
                               = image Demo.e 4 (data_blocks Demo.bbl) off.
Proof.
  destruct (split_preserves_image Demo.al Demo.bbl 1 7) as (al' & bbl' & E & Hwf & _ & Hi & _).
  - exact Demo.bbl_ok.
  - exact Demo.al_ok.
  - reflexivity.
  - by apply elem_of_cons; left.
  - by split.
  - exists al', bbl'. split; [exact E|]. split; [exact Hwf|]. intros off. apply Hi.
Defined.

(** [backed_block_list_move] takes exactly the given segment out of the
    source list, leaving the rest in place and well formed, and puts it into
    the target: no node is lost or duplicated, and an empty target becomes the
    segment itself. *)
Theorem move_conserves_blocks from to start end_ pre seg post :
  bbl_wf from -> segment from start end_ pre seg post -> seg <> [] ->
  exists from' to', backed_block_list_move from to start end_ = Done (from', to') /\
    bbl_wf from' /\ data_blocks from' = pre ++ post /\
    data_blocks to' ≡ₚ seg ++ data_blocks to /\
    (data_blocks to = [] -> data_blocks to' = seg).
Proof.
  intros Hwf Hs Hne. destruct (backed_block_list_move_spec from to start end_ pre seg post Hwf Hs Hne)
    as (tb & E & Hp & Hempty).
  eexists _, _. split; [exact E|]. split; [|by split].
  apply (bbl_wf_sublist from (pre ++ post) Hwf). destruct Hs as (-> & _ & _).
  apply sublist_app; [done|]. by apply sublist_inserts_l.
Qed.

Lemma move_conserves_blocks_witness :
  exists from' to', backed_block_list_move Demo.bbl (backed_block_list_new 4) (Some 2) (Some 2)
                    = Done (from', to') /\
    data_blocks from' = [Demo.data_block] /\ data_blocks to' = [Demo.fill_block].
Proof.
  destruct (move_conserves_blocks Demo.bbl (backed_block_list_new 4) (Some 2) (Some 2)
    [Demo.data_block] [Demo.fill_block] []) as (f' & t' & E & _ & Hf & _ & Ht).
  - exact Demo.bbl_ok.
  - by repeat split.
  - done.
  - exists f', t'. split; [exact E|]. split; [exact Hf|]. by apply Ht.
Defined.

(** * Writing *)

(** The expanded data of a file: its image, partial blocks padded with zeros and
    holes read as zero. *)
Definition expanded (e : env) (s : sparse_file) : list Z := flat (image e (sf_block_size s) (data_blocks (sf_blocks s))) (sf_len s).

(** C5: [sparse_file_write] in sparse mode to a file descriptor positioned at
    its end, whatever short writes and interruptions occur: it succeeds and
    appends a file in the Android sparse format, a header that counts its chunks
    and chunks that are well formed, fill the length of the file and expand to
    its image, data of partial blocks padded with zeros.  With [crc], a chunk
    with the CRC-32 of the expanded data follows.  The blocks the file is left
    with describe the same image and are at most 64 MB long.  Fills are whole
    blocks, blocks have at most 64 MB, and memory and mappings do not fail; and
    with [crc], the file has no holes and its fills are one block long, since the
    writer leaves holes out of the checksum and counts one block of a fill. *)
Theorem write_emits_image fuel e al s f w crc :
  sf_wf s -> alloc_ok al (data_blocks (sf_blocks s)) -> no_oom al -> env_total e ->
  sf_block_size s <= MAX_BACKED_BLOCK_SIZE -> Forall (fill_aligned (sf_block_size s)) (data_blocks (sf_blocks s)) ->
  (crc = true -> no_holes e s /\ Forall (single_fill (sf_block_size s)) (data_blocks (sf_blocks s))) ->
  file_rep f w -> (Z.to_nat (sf_len s) <= fuel)%nat ->
  exists f' al' s' cs, sparse_file_write fuel e al s f true crc = Done (0, f', al', s') /\
    contents f' = w ++ sparse_header_bytes (image_header (sf_block_size s) (sf_len s) (Z.of_nat (length cs)) crc)
                    ++ chunks_bytes (sf_block_size s) cs
                    ++ (if crc then chunk_bytes (sf_block_size s) (ChunkCrc (sparse_crc32 0 (expanded e s))) else []) /\
    Forall (chunk_ok (sf_block_size s)) cs /\ expand_chunks (sf_block_size s) cs = expanded e s /\
    sf_wf s' /\
    (forall ev off, image ev (sf_block_size s) (data_blocks (sf_blocks s')) off
                    = image ev (sf_block_size s) (data_blocks (sf_blocks s)) off) /\
    Forall (fun b => bb_len b <= MAX_BACKED_BLOCK_SIZE) (data_blocks (sf_blocks s')).
Proof.
  intros Hwf Hal Hoom Henv Hmax Hfa Hcrc Hrep Hfuel. assert (Hrep' : sink_rep f w) by exact Hrep. pose proof (write_fuel_le s Hwf Hmax).
  pose proof (bbs_ok s Hwf) as Hbs. pose proof Hbs as [[Hb0 _] _].
  destruct (sparse_file_write_spec fuel e al s f w crc Hwf Hal Hoom Henv Hmax Hrep' ltac:(lia)) as (f' & al' & s' & E & Hps & (Hc & _)).
  pose proof (presplit_writable e s s' Hps Henv Hmax) as Hwr. pose proof Hps as [Hfile Hwf' Hi Hsm Hk].
  assert (Hb' : sf_block_size s' = sf_block_size s) by (by rewrite Hfile). assert (Hl' : sf_len s' = sf_len s) by (by rewrite Hfile).
  assert (Hfa' : Forall (fill_aligned (sf_block_size s')) (data_blocks (sf_blocks s'))) by (rewrite Hb'; apply Hk; [apply fill_aligned_split; lia|done]).
  assert (Hx : expand_chunks (sf_block_size s) (file_chunks e s') = expanded e s).
  { rewrite <- Hb', file_chunks_expand, Hb', Hl' by done. apply flat_ext. intros off _. by rewrite Hi. }
  exists f', al', s', (file_chunks e s'). split; [done|]. split; [|split; [rewrite <- Hb'; by apply file_chunks_spec|done]].
  rewrite Hc. unfold sparse_image. rewrite Hb', Hl'. do 3 f_equal. destruct crc; [|done]. do 2 f_equal. destruct (Hcrc eq_refl) as [Hno Hf].
  rewrite <- Hx, <- Hb'. apply file_crc; [done|done| |rewrite Hb'; apply Hk; [by apply single_fill_split|done]].
  intros n Hn. rewrite Hb', Hi. apply Hno. unfold sf_blocks_total in *. by rewrite Hb', Hl' in Hn.
Qed.

(** Three blocks of four bytes: six bytes of data and one fill block. *)
Definition solid_demo : sparse_file :=
  mk_sparse_file 4 12 false (mk_bbl [mk_bb 1 0 6 (BACKED_BLOCK_DATA 100); mk_bb 2 2 4 (BACKED_BLOCK_FILL 0x01020304)] None 4).

Lemma solid_demo_ok : sf_wf solid_demo.
Proof.
  constructor; [|done|done|vm_compute; done|by split]. constructor; [apply Demo.bs_ok| | |done].
  - repeat (split; [try done; constructor; done|]). done.
  - apply (bool_decide_unpack _). vm_compute. done.
Qed.

Lemma write_emits_image_witness :
  exists f' al' s' cs, sparse_file_write 30 Demo.e Demo.al solid_demo (mk_normal_file [9] 1 [Wrote 5; Eintr]) true true
                    = Done (0, f', al', s') /\
    contents f' = [9] ++ sparse_header_bytes (image_header 4 12 (Z.of_nat (length cs)) true) ++ chunks_bytes 4 cs
                  ++ chunk_bytes 4 (ChunkCrc (sparse_crc32 0 (expanded Demo.e solid_demo))) /\
    expand_chunks 4 cs = [100; 101; 102; 103; 104; 105; 0; 0; 4; 3; 2; 1].
Proof.
  destruct (write_emits_image 30 Demo.e Demo.al solid_demo (mk_normal_file [9] 1 [Wrote 5; Eintr]) [9] true)
    as (f' & al' & s' & cs & E & Hc & _ & Hx & _).
  - exact solid_demo_ok.
  - intros p Hp. by repeat (apply elem_of_cons in Hp as [->|Hp]; [done|]); apply elem_of_nil in Hp.
  - exact Demo.al_oom.
  - exact Demo.e_total.
  - vm_compute; done.
  - by repeat constructor.
  - intros _. split; [|by repeat constructor]. intros n Hn. change (sf_blocks_total solid_demo) with 3 in Hn.
    assert (n = 0 \/ n = 1 \/ n = 2) as [-> | [-> | ->]] by lia; by vm_compute.
  - split; [done|]. split; [done|]. by repeat constructor.
  - vm_compute. lia.
  - exists f', al', s', cs. split; [exact E|]. split; [exact Hc|exact Hx].
Defined.

(** [sparse_file_len] returns the number of bytes the image takes, as a
    64-bit integer, without and with checksum. *)
Theorem len_is_image_length e al s crc :
  sf_wf s -> Forall (block_writable e (sf_block_size s)) (data_blocks (sf_blocks s)) -> no_oom al ->
  exists al', sparse_file_len e al s true crc
    = Done (s64 (Z.of_nat (length (sparse_image e s crc))), al').
Proof. intros Hwf Hw Hoom. apply sparse_file_len_spec; [done|done|]. by apply no_oom_can_open. Qed.

Lemma len_is_image_length_witness :
  exists al', sparse_file_len Demo.e Demo.al Demo.s true true = Done (116, al').
Proof. apply (len_is_image_length Demo.e Demo.al Demo.s true Demo.s_ok Demo.s_writable Demo.al_oom). Defined.

(** [sparse_count_chunks], the number put into the header, is the number of
    chunks the writer emits. *)
Theorem count_matches_chunks e s :
  sf_wf s -> sparse_count_chunks s = Z.of_nat (length (file_chunks e s)).
Proof. apply sparse_count_chunks_spec. Qed.

Lemma count_matches_chunks_witness :
  sparse_count_chunks Demo.s = Z.of_nat (length (file_chunks Demo.e Demo.s)) /\ sparse_count_chunks Demo.s = 5.
Proof. split; [apply (count_matches_chunks Demo.e Demo.s Demo.s_ok)|reflexivity]. Defined.

(** C34: [sparse_file_write] in normal mode to an empty file produces the
    expanded image: [sf_len] bytes, every defined byte in its place and every
    hole read as zero (fill blocks being whole blocks). *)
Theorem write_normal_expands fuel e al s f :
  sf_wf s -> alloc_ok al (data_blocks (sf_blocks s)) -> no_oom al -> env_total e ->
  sf_block_size s <= MAX_BACKED_BLOCK_SIZE ->
  Forall (fill_aligned (sf_block_size s)) (data_blocks (sf_blocks s)) ->
  nf_view f [] -> (Z.to_nat (sf_len s) <= fuel)%nat ->
  exists f' al' s', sparse_file_write fuel e al s f false false = Done (0, f', al', s') /\
    contents f' = flat (image e (sf_block_size s) (data_blocks (sf_blocks s))) (sf_len s).
Proof.
  intros Hwf Hal Hoom Henv Hmax Hfa Hv Hfuel. pose proof (write_fuel_le s Hwf Hmax).
  destruct (sparse_file_write_normal fuel e al s f false Hwf Hal Hoom Henv Hmax Hfa Hv ltac:(lia))
    as (f' & al' & s' & E & _ & Hc). by exists f', al', s'.
Qed.

Lemma write_normal_expands_witness :
  exists f' al' s', sparse_file_write 30 Demo.e Demo.al Demo.s (mk_normal_file [] 0 [Wrote 1]) false false
                    = Done (0, f', al', s') /\
    contents f' = [0;0;0;0; 100;101;102;103;104;105;0;0; 0;0;0;0; 4;3;2;1; 0;0;0;0].
Proof.
  destruct (write_normal_expands 30 Demo.e Demo.al Demo.s (mk_normal_file [] 0 [Wrote 1]))
    as (f' & al' & s' & E & Hc).
  - exact Demo.s_ok.
  - exact Demo.al_ok.
  - exact Demo.al_oom.
  - exact Demo.e_total.
  - vm_compute; done.
  - exact Demo.s_fill.
  - constructor; [by exists 0%nat|done|by repeat constructor].
  - vm_compute. lia.
  - exists f', al', s'. split; [exact E|]. rewrite Hc. vm_compute. reflexivity.
Defined.

(** * Reading *)

(** The image of a file, seen as a list of chunks. *)
Lemma sparse_image_stored e s (crc : bool) :
  sf_wf s -> Forall (block_writable e (sf_block_size s)) (data_blocks (sf_blocks s)) ->
  let bs := sf_block_size s in
  let cs := file_chunks e s in
  sparse_image e s crc
  = stored_image bs cs (if crc then Some (chunks_crc bs cs 0) else None) ++ [].
Proof.
  intros Hwf Hw bs cs. destruct (file_chunks_spec e s Hwf Hw) as (_ & Htot & _).
  unfold sparse_image, stored_image, crc_tail. fold bs cs. fold bs cs in Htot.
  rewrite Htot, app_nil_r. pose proof Hwf as [_ _ Hlen _ _]. fold bs in Hlen. rewrite Hlen.
  by destruct crc.
Qed.

(** C4: What [sparse_file_write] writes in sparse mode without a checksum, the
    reader reads back, from a memory buffer as from a file descriptor with
    arbitrary short reads, whether it checks checksums or not: the import gives a
    well-formed file of the same block size and length, and a byte is defined in
    it when anything of its block was defined in the file that was written, with
    the value it had there, or zero behind the data of a partial block.  The file
    that is written has 1 to 2^31 - 1 blocks of at most 64 MB, its fills are whole
    blocks, and memory, mappings and the output file do not fail. *)
Theorem import_reads_back {S} `{SourceLaws S} fuel e e' s out al (src : S) al1 copybuf verbose check :
  sf_wf s -> alloc_ok al (data_blocks (sf_blocks s)) -> no_oom al -> env_total e ->
  sf_block_size s <= MAX_BACKED_BLOCK_SIZE -> Forall (fill_aligned (sf_block_size s)) (data_blocks (sf_blocks s)) ->
  0 < sf_blocks_total s < 2 ^ 31 -> file_rep out [] -> (Z.to_nat (sf_len s) <= fuel)%nat ->
  (forall img al2 s2, sparse_file_write fuel e al s out true false = Done (0, img, al2, s2) -> src_rep e' src [] (contents img)) ->
  no_oom al1 ->
  exists img al2 s2 f src' al', sparse_file_write fuel e al s out true false = Done (0, img, al2, s2) /\
    sparse_file_import_source copybuf src al1 verbose check = Done (Some f, src', al') /\
    sf_wf f /\ sf_block_size f = sf_block_size s /\ sf_len f = sf_len s /\
    forall off, image e' (sf_block_size s) (data_blocks (sf_blocks f)) off
                = whole_blocks (sf_block_size s) (image e (sf_block_size s) (data_blocks (sf_blocks s))) off.
Proof.
  intros Hwf Hal Hoom Henv Hmax Hfa HT Hrep Hfuel Hsrc Hoom1. assert (Hrep' : sink_rep out []) by exact Hrep. pose proof (write_fuel_le s Hwf Hmax).
  pose proof (bbs_ok s Hwf) as Hbs. pose proof Hbs as [[Hb0 _] _].
  destruct (sparse_file_write_spec fuel e al s out [] false Hwf Hal Hoom Henv Hmax Hrep' ltac:(lia)) as (img & al2 & s' & E & Hps & (Hc & _)).
  specialize (Hsrc _ _ _ E). rewrite Hc, app_nil_l in Hsrc. pose proof (presplit_writable e s s' Hps Henv Hmax) as Hwr. pose proof Hps as [Hfile Hwf' Hi _ Hk].
  assert (Hb' : sf_block_size s' = sf_block_size s) by (by rewrite Hfile). assert (Hl' : sf_len s' = sf_len s) by (by rewrite Hfile).
  assert (Ht' : sf_blocks_total s' = sf_blocks_total s) by (unfold sf_blocks_total; by rewrite Hb', Hl').
  destruct (file_chunks_spec e s' Hwf' Hwr) as (Hok & Htot & Himg). rewrite (sparse_image_stored e s' false Hwf' Hwr) in Hsrc.
  destruct (import_source_spec e' _ (bbs_ok s' Hwf') src al1 copybuf verbose check _ None [] Hsrc Hoom1 Hok)
    as (f & src' & al' & E' & [I1 I2 I3 _ I5] & _); [by rewrite Htot, Ht'|done|].
  exists img, al2, s', f, src', al'. split; [exact E|]. split; [exact E'|]. split; [done|]. split; [by rewrite I2, Hb'|].
  split; [by rewrite I3, Htot, <- (sfw_len s' Hwf')|]. intros off. rewrite Hb' in *.
  rewrite I5, Himg, (padded_image_whole e _ 0) by (done || (rewrite <- Hb'; by apply sf_chain) || (apply Hk; [apply fill_aligned_split; lia|done])).
  unfold whole_blocks. by rewrite !Hi.
Qed.

(** The six bytes of data come back as two blocks, the holes as holes. *)
Lemma import_reads_back_witness :
  let img := sparse_image Demo.e Demo.s false in
  exists out al2 s2 f src' al', sparse_file_write 30 Demo.e Demo.al Demo.s (mk_normal_file [] 0 [Wrote 5; Eintr]) true false = Done (0, out, al2, s2) /\
    sparse_file_import_buf false 0 img Demo.al false true = Done (Some f, src', al') /\ sf_len f = 24 /\
    image (Demo.holding img) 4 (data_blocks (sf_blocks f)) 5 = Some 101 /\ image (Demo.holding img) 4 (data_blocks (sf_blocks f)) 11 = Some 0 /\
    image (Demo.holding img) 4 (data_blocks (sf_blocks f)) 12 = None.
Proof.
  intros img.
  destruct (import_reads_back 30 Demo.e (Demo.holding img) Demo.s (mk_normal_file [] 0 [Wrote 5; Eintr]) Demo.al (buf_source 0 img) Demo.al false false true)
    as (out & al2 & s2 & f & src' & al' & E & E' & _ & _ & Hl & Hi).
  - exact Demo.s_ok.
  - exact Demo.al_ok.
  - exact Demo.al_oom.
  - exact Demo.e_total.
  - vm_compute; done.
  - exact Demo.s_fill.
  - by split.
  - split; [done|]. split; [done|]. by repeat constructor.
  - vm_compute. lia.
  - intros out al2 s2 E. vm_compute in E. injection E as <- _ _. apply Demo.holding_buf.
  - exact Demo.al_oom.
  - exists out, al2, s2, f, src', al'. split; [exact E|]. split; [exact E'|]. split; [exact Hl|]. split; [exact (Hi 5)|]. split; [exact (Hi 11)|exact (Hi 12)].
Defined.

(** The checksum the writer accumulates is a 32-bit number. *)
Lemma chunks_crc_u32 bs cs crc :
  bytes_ok (expand_chunks bs cs) -> is_u32 crc -> is_u32 (chunks_crc bs cs crc).
Proof.
  unfold chunks_crc. revert crc. induction cs as [|c cs IH]; intros crc Hb Hc; [done|].
  unfold expand_chunks in Hb. cbn [mbind list_bind] in Hb. apply bytes_ok_app in Hb as [Hb1 Hb2].
  simpl. apply IH; [done|]. destruct c as [d|v n|n|v]; simpl; [by apply sparse_crc32_range| |done|done].
  induction (Z.to_nat (bs / 4)) as [|k IHk]; [done|]. simpl.
  apply sparse_crc32_range; [done|]. apply (le_encode_bytes 4 v).
Qed.

(** Importing with the checksum check an image that carries a checksum: it
    is accepted exactly when the checksum the writer stored is the CRC-32 of
    the whole expanded image, holes and fills included. *)
Theorem import_crc_check {S} `{SourceLaws S} e e' s (src : S) al copybuf verbose :
  let bs := sf_block_size s in
  let cs := file_chunks e s in
  sf_wf s -> Forall (block_writable e bs) (data_blocks (sf_blocks s)) ->
  0 < sf_blocks_total s < 2 ^ 31 -> no_oom al -> bytes_ok (expand_chunks bs cs) ->
  src_rep e' src [] (sparse_image e s true) ->
  exists f src' al', sparse_file_import_source copybuf src al verbose true
    = Done (if chunks_crc bs cs 0 =? sparse_crc32 0 (expand_chunks bs cs) then Some f else None,
            src', al').
Proof.
  intros bs cs Hwf Hw HT Hoom Hby Hsrc. destruct (file_chunks_spec e s Hwf Hw) as (Hok & Htot & Himg).
  rewrite (sparse_image_stored e s true Hwf Hw) in Hsrc.
  destruct (import_source_spec e' _ (bbs_ok s Hwf) src al copybuf verbose true _ _ [] Hsrc Hoom Hok)
    as (f & src' & al' & E & _); [by rewrite Htot| |by exists f, src', al'].
  intros v [= <-]. by apply chunks_crc_u32.
Qed.

Lemma import_crc_check_witness :
  exists f src' al', sparse_file_import_buf false 0 (sparse_image Demo.e solid_demo true) Demo.al false true
                     = Done (Some f, src', al').
Proof.
  pose (img := sparse_image Demo.e solid_demo true).
  destruct (import_crc_check Demo.e (Demo.holding img) solid_demo (buf_source 0 img) Demo.al false false)
    as (f & src' & al' & E).
  - exact solid_demo_ok.
  - by repeat constructor.
  - by split.
  - exact Demo.al_oom.
  - vm_compute. repeat constructor; done.
  - apply Demo.holding_buf.
  - exists f, src', al'. exact E.
Defined.

(** The image of a well-formed file with holes, written with a checksum, is
    rejected by the reader when it checks the checksum and accepted when it does
    not: the writer leaves holes out of the sum, the reader counts them as
    zeros. *)
Theorem crc_of_holes_rejected :
  sf_wf Demo.s /\
  match sparse_file_import_buf false 0 (sparse_image Demo.e Demo.s true) Demo.al false true with
  | Done (None, _, _) => True
  | _ => False
  end /\
  match sparse_file_import_buf false 0 (sparse_image Demo.e Demo.s true) Demo.al false false with
  | Done (Some _, _, _) => True
  | _ => False
  end.
Proof. split; [exact Demo.s_ok|]. vm_compute. done. Qed.

(** A sparse image whose two fill chunks cover no block. *)
Definition zero_fill_image : list Z :=
  sparse_header_bytes (image_header 4 4 2 false)
  ++ chunk_bytes 4 (ChunkFill 7 0) ++ chunk_bytes 4 (ChunkFill 7 0).

(** A crafted image with two fill chunks of zero blocks makes the reader
    abort: the second one is queued at the block of the first, and the
    assertion of [merge_bb] fails. *)
Theorem zero_fill_aborts :
  sparse_file_import_buf false 0 zero_fill_image Demo.al false false = Crash AssertFailed.
Proof. vm_compute. reflexivity. Qed.

(** [sparse_file_import_auto] on a file that does not start with the magic
    number falls back to reading it as it is: the sparse file has its length
    and describes exactly its bytes. *)
Theorem import_auto_reads_plain e copybuf src al crc verbose data :
  fd_rep e src [] data -> bytes_ok data -> no_oom al ->
  SPARSE_HEADER_LEN <= Z.of_nat (length data) -> field 0 4 data <> SPARSE_HEADER_MAGIC ->
  DIV_ROUND_UP (Z.of_nat (length data)) 4096 < 2 ^ 32 ->
  exists s al', sparse_file_import_auto copybuf src al crc verbose = Done (Some s, al') /\
    sf_len s = Z.of_nat (length data) /\
    forall off, image e 4096 (data_blocks (sf_blocks s)) off = file_image data off.
Proof. apply sparse_file_import_auto_normal. Qed.

Definition plain_demo : list Z := map (fun i => i mod 256) (seqZ 1 40).

Lemma import_auto_reads_plain_witness :
  exists s al', sparse_file_import_auto false (Demo.fd_source plain_demo) Demo.al true false = Done (Some s, al') /\
    sf_len s = 40 /\ image (Demo.holding plain_demo) 4096 (data_blocks (sf_blocks s)) 7 = Some 8.
Proof.
  destruct (import_auto_reads_plain (Demo.holding plain_demo) false (Demo.fd_source plain_demo)
    Demo.al true false plain_demo) as (s & al' & E & Hl & Hi).
  - by apply Demo.holding_fd.
  - vm_compute. repeat constructor; done.
  - exact Demo.al_oom.
  - vm_compute. done.
  - vm_compute. done.
  - vm_compute. done.
  - exists s, al'. split; [exact E|]. split; [exact Hl|]. rewrite (Hi 7). reflexivity.
Defined.

(** * Splitting an image over several files *)

(** C17: When the limit leaves room for eight blocks beside the headers and is below
    2^32, and every block of the file fits into a chunk, [sparse_file_resparse]
    terminates and distributes the blocks: the files it returns are well formed,
    their blocks and those left in the input form one increasing sequence that
    describes the original image, each file can be written into [max_len] bytes
    (without checksum), and nothing is left in the input when the array of files was
    large enough.  Memory does not run out.  Smaller limits are not covered: one that
    is below a block is aligned down to nothing, and the loop does not end. *)
Theorem resparse_partitions fuel e al s max_len count :
  sf_wf s -> alloc_ok al (blocks_of s) -> no_oom al -> env_total e ->
  Forall (fits_chunk (sf_block_size s)) (blocks_of s) ->
  overhead + 8 * sf_block_size s <= max_len < 2 ^ 32 ->
  (Z.to_nat (sum_len (blocks_of s)) < fuel)%nat ->
  exists c outs s' al', sparse_file_resparse fuel e al s max_len count = Done (c, outs, s', al') /\
    Forall (fun o => sf_wf o /\ sf_block_size o = sf_block_size s /\ sf_len o = sf_len s /\
                     Z.of_nat (length (sparse_image e o false)) <= max_len) outs /\
    chain (sf_block_size s) 0 (concat (map blocks_of outs) ++ blocks_of s') /\
    (forall off, image e (sf_block_size s) (concat (map blocks_of outs) ++ blocks_of s') off
                 = image e (sf_block_size s) (blocks_of s) off) /\
    Z.of_nat (length outs) = Z.min c (Z.max 0 count) /\ (c <= count -> blocks_of s' = []).
Proof.
  intros Hwf Hal Hoom Henv Hfit Hmax Hfuel.
  destruct (sparse_file_resparse_spec fuel e al s max_len count Hwf Hal Hoom Henv Hfit Hmax Hfuel)
    as (c & outs & s' & al' & E & [R1 _ R3 R4 [_ R5] R6]).
  exists c, outs, s', al'. split; [done|]. split; [|by repeat split].
  eapply Forall_impl; [exact R1|]. simpl. tauto.
Qed.

(** One block of data behind a hole, too long for a file of 100 bytes. *)
Definition long_demo : sparse_file :=
  mk_sparse_file 4 244 false (mk_bbl [mk_bb 1 1 200 (BACKED_BLOCK_DATA 100)] None 4).

Lemma long_demo_ok : sf_wf long_demo.
Proof.
  constructor; [|done|done|vm_compute; done|by split]. constructor; [apply Demo.bs_ok| | |done].
  - split; [done|]. split; [by constructor|done].
  - apply NoDup_singleton.
Qed.

Lemma resparse_partitions_witness :
  exists c outs s' al', sparse_file_resparse 300 Demo.e Demo.al long_demo 100 20 = Done (c, outs, s', al') /\
    Forall (fun o => Z.of_nat (length (sparse_image Demo.e o false)) <= 100) outs /\
    forall off, image Demo.e 4 (concat (map blocks_of outs) ++ blocks_of s') off
                = image Demo.e 4 (blocks_of long_demo) off.
Proof.
  destruct (resparse_partitions 300 Demo.e Demo.al long_demo 100 20)
    as (c & outs & s' & al' & E & Ho & _ & Hi & _).
  - exact long_demo_ok.
  - intros p Hp. by repeat (apply elem_of_cons in Hp as [->|Hp]; [done|]); apply elem_of_nil in Hp.
  - exact Demo.al_oom.
  - exact Demo.e_total.
  - repeat constructor.
  - vm_compute. split; [discriminate|reflexivity].
  - vm_compute. lia.
  - exists c, outs, s', al'. split; [exact E|]. split; [|exact Hi].
    eapply Forall_impl; [exact Ho|]. simpl. tauto.
Defined.

(** With a checksum the limit can be exceeded: the header of the hole in
    front of a block that is cut is not accounted for, so the first of the
    files for a limit of 100 bytes takes 112 bytes when written with checksum. *)
Theorem resparse_crc_overrun :
  match sparse_file_resparse 300 Demo.e Demo.al long_demo 100 20 with
  | Done (_, o :: _, _, _) => Z.of_nat (length (sparse_image Demo.e o true)) = 112
  | _ => False
  end.
Proof. vm_compute. reflexivity. Qed.

(** * The tools *)

(** C13: Converting a raw image with img2simg in its normal mode and expanding the
    result with simg2img gives back the raw image, with arbitrary short reads and
    writes on every file.  The block size is a multiple of 4 from 1024 bytes to
    64 MB, the raw image is not empty, its length is a multiple of the block size
    and it has fewer than 2^31 blocks (an image of another length would come back
    padded to whole blocks); memory, mappings and the files do not fail. *)
Theorem simg_tools_roundtrip fuel sd sh e e' al al' bs src out src' out' data :
  fd_rep e (set_pos src 0) [] data -> bytes_ok data -> no_oom al -> env_total e ->
  1024 <= bs <= MAX_BACKED_BLOCK_SIZE -> bs mod 4 = 0 ->
  (exists n, Z.of_nat (length data) = n * bs /\ 0 < n < 2 ^ 31) ->
  file_rep out [] -> (length data < fuel)%nat ->
  (forall img, img2simg fuel e sd sh al SPARSE_READ_MODE_NORMAL bs src out = Done (Some img) ->
     fd_rep e' src' [] (contents img)) ->
  no_oom al' -> env_total e' -> nf_view (rewind_out out') [] ->
  exists img raw,
    img2simg fuel e sd sh al SPARSE_READ_MODE_NORMAL bs src out = Done (Some img) /\
    simg2img fuel false al' [(e', src')] out' = Done (Some raw) /\ contents raw = data.
Proof.
  intros Hr Hby Hoom Henv Hb Hb4 (n & Hn & Hn32) Hout Hfuel Hsrc' Hoom' Henv' Hout'.
  destruct (img2simg_spec fuel e sd sh al bs src out data Hr Hby Hoom Henv Hb Hb4)
    as (s & img & E & Hc & Hwf & Hsb & Hsl & Hw & Hfa & Himg); [exists n; split; [done|lia]|done|done|].
  specialize (Hsrc' img E). rewrite Hc in Hsrc'.
  assert (Htot : sf_blocks_total s = n).
  { unfold sf_blocks_total. rewrite Hsl, Hsb, Hn. apply div_round_up_mul. lia. }
  rewrite <- Hsb in Hw, Hfa, Himg.
  destruct (simg2img_spec fuel false al' e e' src' s out' Hsrc' Hoom' Henv' Hwf Hw)
    as (raw & E' & Hraw); try done; [lia|lia|lia|].
  exists img, raw. split; [done|]. split; [done|]. rewrite Hraw, Hsl. symmetry.
  rewrite (list_eq_flat data (file_image data)) at 1.
  - apply flat_ext. intros off _. by rewrite Himg.
  - intros off Hoff. unfold file_image. destruct (Z.leb_spec 0 off); [|lia].
    by destruct (Z.ltb_spec off (Z.of_nat (length data))); [|lia].
Qed.

(** 1024 bytes, and the sparse image img2simg makes of them. *)
Definition raw_demo : list Z := map (fun i => i mod 251) (seqZ 0 1024).

Definition raw_demo_image : list Z :=
  match img2simg 1100 (Demo.holding raw_demo) (fun _ => 0) (fun _ => 0) Demo.al SPARSE_READ_MODE_NORMAL
          1024 (Demo.fd_source raw_demo) (mk_normal_file [] 0 [Wrote 3]) with
  | Done (Some img) => contents img
  | _ => []
  end.

Lemma simg_tools_roundtrip_witness :
  exists img raw,
    img2simg 1100 (Demo.holding raw_demo) (fun _ => 0) (fun _ => 0) Demo.al SPARSE_READ_MODE_NORMAL
      1024 (Demo.fd_source raw_demo) (mk_normal_file [] 0 [Wrote 3]) = Done (Some img) /\
    simg2img 1100 false Demo.al [(Demo.holding raw_demo_image, Demo.fd_source raw_demo_image)]
      (mk_normal_file [] 0 []) = Done (Some raw) /\ contents raw = raw_demo.
Proof.
  apply (simg_tools_roundtrip 1100 (fun _ => 0) (fun _ => 0) (Demo.holding raw_demo)
    (Demo.holding raw_demo_image) Demo.al Demo.al 1024 (Demo.fd_source raw_demo)
    (mk_normal_file [] 0 [Wrote 3]) (Demo.fd_source raw_demo_image) (mk_normal_file [] 0 []) raw_demo).
  - by apply Demo.holding_fd.
  - apply Forall_map, Forall_forall. intros i _. split; [apply Z.mod_pos_bound; lia|].
    pose proof (Z.mod_pos_bound i 251). change (2 ^ 8) with 256. lia.
  - exact Demo.al_oom.
  - exact Demo.e_total.
  - vm_compute. split; discriminate.
  - reflexivity.
  - exists 1. by split.
  - split; [done|]. split; [done|]. by repeat constructor.
  - vm_compute. lia.
  - intros img E. unfold raw_demo_image. rewrite E. apply Demo.holding_fd.
    vm_compute in E. injection E as <-. vm_compute. reflexivity.
  - exact Demo.al_oom.
  - exact Demo.e_total.
  - constructor; [by exists 0%nat|done|constructor].
Defined.

(** Reading a file whose length is not a whole number of blocks by its
    holes (img2simg -s) fails with EINVAL when it ends in data: the end of the
    data is rounded up to a block and the read goes past the end of the file;
    reading the same file block by block succeeds. *)
Theorem read_hole_unaligned_fails :
  let src := mk_fd_source 3 [1; 2; 3; 4; 5; 6] 0 [] in
  let st := mk_nstate src Demo.al (mk_sparse_file 4 6 false (backed_block_list_new 4)) in
  let seek_data p := if p <? 6 then p else - ENXIO in
  let seek_hole _ := 6 in
  match sparse_file_read seek_data seek_hole 10 false st SPARSE_READ_MODE_HOLE false with
  | Done (_, r) => r = - EINVAL
  | _ => False
  end /\
  match sparse_file_read seek_data seek_hole 10 false st SPARSE_READ_MODE_NORMAL false with
  | Done (_, r) => r = 0
  | _ => False
  end.
Proof. vm_compute. done. Qed.

(** * Checksums *)

(** The table-driven CRC-32 of libsparse is the bitwise reflected CRC with
    polynomial 0xEDB88320, complemented before and after, and feeding a buffer
    in two pieces gives the checksum of the whole. *)
Theorem sparse_crc32_is_crc crc a b :
  is_u32 crc -> bytes_ok a ->
  sparse_crc32 crc a = Z.lxor (Reflected.crc_ref SparseCrc.poly (Z.lxor crc 0xFFFFFFFF) a) 0xFFFFFFFF /\
  is_u32 (sparse_crc32 crc a) /\
  sparse_crc32 crc (a ++ b) = sparse_crc32 (sparse_crc32 crc a) b.
Proof.
  intros Hc Ha. split; [|split; [by apply sparse_crc32_range|apply sparse_crc32_app]].
  unfold sparse_crc32. by destruct (crc32_loop_ref (Z.lxor crc 0xFFFFFFFF) a (flip32_range _ Hc) Ha) as [-> _].
Qed.

(** The check value of CRC-32: the digits 1 to 9. *)
Lemma sparse_crc32_is_crc_witness :
  sparse_crc32 0 [49; 50; 51; 52; 53; 54; 55; 56; 57] = 0xCBF43926 /\
  sparse_crc32 0 ([49; 50; 51; 52] ++ [53; 54; 55; 56; 57])
  = sparse_crc32 (sparse_crc32 0 [49; 50; 51; 52]) [53; 54; 55; 56; 57].
Proof.
  split; [vm_compute; reflexivity|].
  apply (sparse_crc32_is_crc 0 [49; 50; 51; 52] [53; 54; 55; 56; 57]).
  - split; done.
  - repeat constructor; done.
Defined.
