(* ===== verification/Badblocks.v ===== *)
(** lib/ext2fs/badblocks.c: the sorted array of 32-bit numbers that represents a
    bad-blocks list, and the set it stands for. *)

From S2P Require Import Prelude.

Local Open Scope Z_scope.

Definition EXT2_ET_NO_MEMORY : Z := 2133571398.
Definition EXT2_ET_MAGIC_BADBLOCKS_LIST : Z := 2133571330.
Definition EXT2_ET_MAGIC_BADBLOCKS_ITERATE : Z := 2133571331.

(** * The structure and its operations *)

(** [struct ext2_struct_u32_list]; [list_] is the array of [size] cells. *)
Record u32_list := mk_u32_list {
  magic : Z;
  num : Z;
  size : Z;
  list_ : list Z;
  badblocks_flags : Z }.

(** [bb->list[i]]: reading outside the array is an error of the program. *)
Definition get (l : list Z) (i : Z) : outcome Z :=
  if i <? 0 then Crash BadPointer
  else match l !! Z.to_nat i with Some v => Done v | None => Crash BadPointer end.

Definition put (l : list Z) (i v : Z) : outcome (list Z) :=
  if (0 <=? i) && (i <? Z.of_nat (length l)) then Done (<[Z.to_nat i := v]> l)
  else Crash BadPointer.

(** [make_u32_list]; [mem1], [mem2] say whether the two allocations succeed. *)
Definition make_u32_list (mem1 mem2 : bool) (sz n : Z) (l : option (list Z))
  : Z * option u32_list :=
  if negb mem1 then (EXT2_ET_NO_MEMORY, None)
  else
    let sz := if negb (sz =? 0) then sz else 10 in
    if negb mem2 then (EXT2_ET_NO_MEMORY, None)
    else
      let cells := match l with
                   | Some l => take (Z.to_nat sz) l
                   | None => replicate (Z.to_nat sz) 0
                   end in
      (0, Some (mk_u32_list EXT2_ET_MAGIC_BADBLOCKS_LIST n sz cells 0)).

Definition ext2fs_u32_list_create (mem1 mem2 : bool) (sz : Z) := make_u32_list mem1 mem2 sz 0 None.

Definition ext2fs_u32_copy (mem1 mem2 : bool) (src : u32_list) : Z * option u32_list :=
  match make_u32_list mem1 mem2 (size src) (num src) (Some (list_ src)) with
  | (0, Some d) =>
      (0, Some (mk_u32_list (magic d) (num d) (size d) (list_ d) (badblocks_flags src)))
  | r => r
  end.

(** The search for the position in front of the first larger element; [None]:
    the element is there already. *)
Fixpoint add_position (fuel : nat) (l : list Z) (n i blk : Z) : outcome (option Z) :=
  match fuel with
  | O => Crash OutOfFuel
  | S fuel =>
      if i <? n then
        let* v := get l i in
        if v =? blk then Done None
        else if blk <? v then Done (Some i)
        else add_position fuel l n (i + 1) blk
      else Done (Some n)
  end.

(** [for (i = num; i > j; i--) list[i] = list[i-1]] *)
Fixpoint shift_up (fuel : nat) (l : list Z) (i j : Z) : outcome (list Z) :=
  match fuel with
  | O => Crash OutOfFuel
  | S fuel =>
      if j <? i then
        let* v := get l (i - 1) in
        let* l := put l i v in
        shift_up fuel l (i - 1) j
      else Done l
  end.

(** [fresh] are the bytes the resized array has behind the old ones. *)
Definition ext2fs_u32_list_add (resize_ok : bool) (fresh : list Z) (bb : u32_list) (blk : Z)
  : outcome (Z * u32_list) :=
  if negb (magic bb =? EXT2_ET_MAGIC_BADBLOCKS_LIST)
  then Done (EXT2_ET_MAGIC_BADBLOCKS_LIST, bb)
  else
    let grow := size bb <=? num bb in
    if grow && negb resize_ok then Done (EXT2_ET_NO_MEMORY, bb)
    else
      let bb := if grow
                then mk_u32_list (magic bb) (num bb) (size bb + 100)
                       (list_ bb ++ take 100 fresh) (badblocks_flags bb)
                else bb in
      let set_list n l := mk_u32_list (magic bb) n (size bb) l (badblocks_flags bb) in
      let n := num bb in
      let i := n - 1 in
      let* last := if negb (n =? 0) then get (list_ bb) i else Done 0 in
      if negb (n =? 0) && (last =? blk) then Done (0, bb)
      else if (n =? 0) || (last <? blk) then
        let* l := put (list_ bb) n blk in
        Done (0, set_list (n + 1) l)
      else
        let* j := add_position (S (Z.to_nat n)) (list_ bb) n 0 blk in
        match j with
        | None => Done (0, bb)
        | Some j =>
            let* l := shift_up (S (Z.to_nat n)) (list_ bb) n j in
            let* l := put l j blk in
            Done (0, set_list (n + 1) l)
        end.

(** The binary search; -1 when the loop ends without a hit. *)
Fixpoint find_loop (fuel : nat) (l : list Z) (low high blk : Z) : outcome Z :=
  match fuel with
  | O => Crash OutOfFuel
  | S fuel =>
      if low <? high then
        let mid := u32 (low + high) / 2 in
        if (mid =? low) || (mid =? high) then Done (-1)
        else
          let* v := get l mid in
          if blk =? v then Done mid
          else if blk <? v then find_loop fuel l low mid blk
          else find_loop fuel l mid high blk
      else Done (-1)
  end.

Definition ext2fs_u32_list_find (bb : u32_list) (blk : Z) : outcome Z :=
  if negb (magic bb =? EXT2_ET_MAGIC_BADBLOCKS_LIST) then Done (-1)
  else if num bb =? 0 then Done (-1)
  else
    let low := 0 in
    let high := num bb - 1 in
    let* vlow := get (list_ bb) low in
    if blk =? vlow then Done low
    else
      let* vhigh := get (list_ bb) high in
      if blk =? vhigh then Done high
      else find_loop (S (Z.to_nat (num bb))) (list_ bb) low high blk.

Definition ext2fs_u32_list_test (bb : u32_list) (blk : Z) : outcome Z :=
  let* i := ext2fs_u32_list_find bb blk in Done (if i <? 0 then 0 else 1).

(** [for (i = remloc; i < num - 1; i++) list[i] = list[i+1]] *)
Fixpoint shift_down (fuel : nat) (l : list Z) (i n : Z) : outcome (list Z) :=
  match fuel with
  | O => Crash OutOfFuel
  | S fuel =>
      if i <? n - 1 then
        let* v := get l (i + 1) in
        let* l := put l i v in
        shift_down fuel l (i + 1) n
      else Done l
  end.

Definition ext2fs_u32_list_del (bb : u32_list) (blk : Z) : outcome (Z * u32_list) :=
  if num bb =? 0 then Done (-1, bb)
  else
    let* remloc := ext2fs_u32_list_find bb blk in
    if remloc <? 0 then Done (-1, bb)
    else
      let* l := shift_down (S (Z.to_nat (num bb))) (list_ bb) remloc (num bb) in
      Done (0, mk_u32_list (magic bb) (num bb - 1) (size bb) l (badblocks_flags bb)).

(** ** Iteration: the iterator refers to the list, which may change meanwhile *)

Record u32_iterate := mk_u32_iterate { it_magic : Z; ptr : Z }.

Definition ext2fs_u32_list_iterate_begin (mem : bool) (bb : u32_list) : Z * option u32_iterate :=
  if negb (magic bb =? EXT2_ET_MAGIC_BADBLOCKS_LIST) then (EXT2_ET_MAGIC_BADBLOCKS_LIST, None)
  else if negb mem then (EXT2_ET_NO_MEMORY, None)
  else (0, Some (mk_u32_iterate EXT2_ET_MAGIC_BADBLOCKS_ITERATE 0)).

(** The iterator, the result, and [*blk] when it is written. *)
Definition ext2fs_u32_list_iterate (it : u32_iterate) (bb : u32_list)
  : outcome (u32_iterate * Z * option Z) :=
  if negb (it_magic it =? EXT2_ET_MAGIC_BADBLOCKS_ITERATE) then Done (it, 0, None)
  else if negb (magic bb =? EXT2_ET_MAGIC_BADBLOCKS_LIST) then Done (it, 0, None)
  else if ptr it <? num bb then
    let* v := get (list_ bb) (ptr it) in
    Done (mk_u32_iterate (it_magic it) (ptr it + 1), 1, Some v)
  else Done (it, 0, Some 0).

(** The comparison of [num] cells that [memcmp] makes. *)
Definition ext2fs_u32_list_equal (bb1 bb2 : u32_list) : Z :=
  if negb (magic bb1 =? EXT2_ET_MAGIC_BADBLOCKS_LIST) then EXT2_ET_MAGIC_BADBLOCKS_LIST
  else if negb (magic bb2 =? EXT2_ET_MAGIC_BADBLOCKS_LIST) then EXT2_ET_MAGIC_BADBLOCKS_LIST
  else if negb (num bb1 =? num bb2) then 0
  else if bool_decide (take (Z.to_nat (num bb1)) (list_ bb1) = take (Z.to_nat (num bb1)) (list_ bb2))
  then 1 else 0.

Definition ext2fs_u32_list_count (bb : u32_list) : Z := num bb.

(** * The invariant and the set *)

Fixpoint sorted_from (lo : Z) (l : list Z) : Prop :=
  match l with
  | [] => True
  | x :: l => lo < x /\ sorted_from x l
  end.

(** The elements: the first [num] cells. *)
Definition items (bb : u32_list) : list Z := take (Z.to_nat (num bb)) (list_ bb).

Record u32_wf (bb : u32_list) : Prop := {
  uw_magic : magic bb = EXT2_ET_MAGIC_BADBLOCKS_LIST;
  uw_num : 0 <= num bb <= size bb;
  uw_size : size bb < 2 ^ 31 - 100;
  uw_cells : Z.of_nat (length (list_ bb)) = size bb;
  uw_sorted : sorted_from (-1) (items bb);
  uw_u32 : Forall is_u32 (items bb) }.

Definition bb_set (bb : u32_list) : gset Z := list_to_set (items bb).

(** * Sorted lists *)

Lemma sorted_weaken lo lo' l : lo' <= lo -> sorted_from lo l -> sorted_from lo' l.
Proof. destruct l; simpl; [done|]. intros ? [? ?]. split; [lia|done]. Qed.

Lemma sorted_app lo a b :
  sorted_from lo (a ++ b) <-> sorted_from lo a /\ sorted_from (List.last a lo) b.
Proof.
  revert lo. induction a as [|x a IH]; intros lo; [simpl; tauto|].
  simpl app. cbn [sorted_from]. rewrite IH.
  replace (List.last (x :: a) lo) with (List.last a x); [tauto|].
  clear. revert x. induction a as [|y a IH]; intros x; [done|]. simpl in *. destruct a; [done|]. apply IH.
Qed.

Lemma sorted_elem lo l x : sorted_from lo l -> x ∈ l -> lo < x.
Proof.
  revert lo. induction l as [|y l IH]; intros lo; [by intros _ ?%elem_of_nil|].
  intros [Hy Hl] [->|Hx]%elem_of_cons; [done|]. specialize (IH _ Hl Hx). lia.
Qed.

Lemma sorted_lookup lo l i j x y :
  sorted_from lo l -> l !! i = Some x -> l !! j = Some y -> (i < j)%nat -> x < y.
Proof.
  revert lo i j. induction l as [|z l IH]; intros lo i j Hs Hi Hj Hij; [done|].
  destruct Hs as [_ Hs]. destruct j as [|j]; [lia|]. destruct i as [|i]; simpl in *.
  - injection Hi as ->. eapply sorted_elem; [done|]. by eapply list_elem_of_lookup_2.
  - eapply IH; [done..|lia].
Qed.

Lemma sorted_insert lo a b x :
  sorted_from lo (a ++ b) -> lo < x -> Forall (fun y => y < x) a -> Forall (fun y => x < y) b ->
  sorted_from lo (a ++ x :: b).
Proof.
  intros Hs Hlo Ha Hb. apply sorted_app in Hs as [Hsa Hsb]. apply sorted_app. split; [done|].
  cbn [sorted_from]. split.
  - clear -Hlo Ha. revert lo Hlo. induction Ha as [|y a Hy Ha IH]; intros lo Hlo; [done|].
    simpl. destruct a; [done|]. by apply IH.
  - destruct b; [done|]. apply Forall_cons in Hb as [? ?]. destruct Hsb. by split.
Qed.

Lemma sorted_delete lo a b x : sorted_from lo (a ++ x :: b) -> sorted_from lo (a ++ b).
Proof.
  rewrite !sorted_app. intros [Ha [Hx Hb]]. split; [done|]. eapply sorted_weaken; [|done]. lia.
Qed.

(** Two sorted lists with the same elements are equal. *)
Lemma sorted_unique lo l k :
  sorted_from lo l -> sorted_from lo k -> (forall x, x ∈ l <-> x ∈ k) -> l = k.
Proof.
  revert lo k. induction l as [|x l IH]; intros lo k Hl Hk He; destruct k as [|y k]; [done|..].
  - by pose proof (proj2 (He y) ltac:(by apply elem_of_cons; left)) as ?%elem_of_nil.
  - by pose proof (proj1 (He x) ltac:(by apply elem_of_cons; left)) as ?%elem_of_nil.
  - destruct Hl as [Hx Hl], Hk as [Hy Hk].
    assert (Exy : x = y).
    { pose proof (proj1 (He x) ltac:(by apply elem_of_cons; left)) as [?|H1]%elem_of_cons; [done|].
      pose proof (proj2 (He y) ltac:(by apply elem_of_cons; left)) as [?|H2]%elem_of_cons; [done|].
      pose proof (sorted_elem _ _ _ Hk H1). pose proof (sorted_elem _ _ _ Hl H2). lia. }
    subst y. f_equal. apply (IH x); [done..|]. intros z. specialize (He z).
    rewrite !elem_of_cons in He. split; intros Hz.
    + destruct (proj1 He (or_intror Hz)) as [->|?]; [|done]. pose proof (sorted_elem _ _ _ Hl Hz). lia.
    + destruct (proj2 He (or_intror Hz)) as [->|?]; [|done]. pose proof (sorted_elem _ _ _ Hk Hz). lia.
Qed.

(** * Arrays *)

Lemma get_app (a : list Z) x b i : i = Z.of_nat (length a) -> get (a ++ x :: b) i = Done x.
Proof.
  intros ->. unfold get. destruct (Z.ltb_spec (Z.of_nat (length a)) 0); [lia|].
  by rewrite Nat2Z.id, list_lookup_middle.
Qed.

Lemma put_app (a : list Z) x b i y : i = Z.of_nat (length a) -> put (a ++ x :: b) i y = Done (a ++ y :: b).
Proof.
  intros ->. unfold put. rewrite length_app. simpl.
  destruct (Z.leb_spec 0 (Z.of_nat (length a))); [|lia].
  destruct (Z.ltb_spec (Z.of_nat (length a)) (Z.of_nat (length a + S (length b)))); [|lia]. simpl.
  rewrite Nat2Z.id. f_equal. by rewrite insert_app_r_alt, Nat.sub_diag by lia.
Qed.

Lemma get_lookup (l : list Z) (i : nat) x : l !! i = Some x -> get l (Z.of_nat i) = Done x.
Proof.
  intros H. unfold get. destruct (Z.ltb_spec (Z.of_nat i) 0); [lia|]. by rewrite Nat2Z.id, H.
Qed.

(** The loop that makes room at [length a]. *)
Lemma shift_up_spec fuel (a b : list Z) c d :
  (length b < fuel)%nat ->
  exists g, shift_up fuel (a ++ b ++ c :: d) (Z.of_nat (length a + length b)) (Z.of_nat (length a))
            = Done (a ++ g :: b ++ d).
Proof.
  revert fuel c d. induction b as [|x b IH] using rev_ind; intros fuel c d Hf;
    (destruct fuel as [|fuel]; [simpl in Hf; lia|]); cbn [shift_up].
  - exists c. simpl. destruct (Z.ltb_spec (Z.of_nat (length a)) (Z.of_nat (length a + 0))); [lia|done].
  - rewrite length_app in *. simpl length in *.
    destruct (Z.ltb_spec (Z.of_nat (length a)) (Z.of_nat (length a + (length b + 1)))); [|lia].
    replace (a ++ (b ++ [x]) ++ c :: d) with ((a ++ b) ++ x :: c :: d) by (by rewrite <- !app_assoc).
    rewrite get_app by (rewrite length_app; lia). cbn [obind].
    replace ((a ++ b) ++ x :: c :: d) with ((a ++ b ++ [x]) ++ c :: d) by (by rewrite <- !app_assoc).
    rewrite put_app by (rewrite !length_app; simpl; lia). cbn [obind].
    replace (Z.of_nat (length a + (length b + 1)) - 1) with (Z.of_nat (length a + length b)) by lia.
    replace ((a ++ b ++ [x]) ++ x :: d) with (a ++ b ++ x :: x :: d) by (by rewrite <- !app_assoc).
    destruct (IH fuel x (x :: d) ltac:(lia)) as [g ->]. exists g. by rewrite <- app_assoc.
Qed.

(** The loop that closes the gap at [length a]. *)
Lemma shift_down_spec fuel (a : list Z) x b d :
  (length b < fuel)%nat ->
  exists g, shift_down fuel (a ++ x :: b ++ d) (Z.of_nat (length a)) (Z.of_nat (length a + S (length b)))
            = Done (a ++ b ++ g :: d).
Proof.
  revert fuel a x. induction b as [|y b IH]; intros fuel a x Hf;
    (destruct fuel as [|fuel]; [simpl in Hf; lia|]); cbn [shift_down].
  - exists x. simpl. destruct (Z.ltb_spec (Z.of_nat (length a)) (Z.of_nat (length a + 1) - 1)); [lia|done].
  - simpl length in *. destruct (Z.ltb_spec (Z.of_nat (length a)) (Z.of_nat (length a + S (S (length b))) - 1)); [|lia].
    replace (a ++ x :: (y :: b) ++ d) with ((a ++ [x]) ++ y :: b ++ d) by (by rewrite <- app_assoc).
    rewrite get_app by (rewrite length_app; simpl; lia). cbn [obind].
    replace ((a ++ [x]) ++ y :: b ++ d) with (a ++ x :: y :: b ++ d) by (by rewrite <- app_assoc).
    rewrite put_app by done. cbn [obind].
    destruct (IH fuel (a ++ [y]) y ltac:(lia)) as [g E]. exists g.
    rewrite length_app in E. simpl length in E.
    replace (Z.of_nat (length a) + 1) with (Z.of_nat (length a + 1)) by lia.
    replace (length a + S (S (length b)))%nat with (length a + 1 + S (length b))%nat by lia.
    replace (a ++ y :: y :: b ++ d) with ((a ++ [y]) ++ y :: b ++ d) by (by rewrite <- app_assoc).
    rewrite E. by rewrite <- app_assoc.
Qed.

(** * Searching *)

Section operations.
Context (bb : u32_list) (Hwf : u32_wf bb).

(** The array is the elements and some unused cells. *)
Definition spare : list Z := drop (Z.to_nat (num bb)) (list_ bb).

Lemma cells_split : list_ bb = items bb ++ spare.
Proof using. symmetry. apply take_drop. Qed.

Lemma length_items : Z.of_nat (length (items bb)) = num bb.
Proof using Hwf. destruct Hwf. unfold items. rewrite length_take. lia. Qed.

Lemma items_lookup i x : items bb !! i = Some x -> list_ bb !! i = Some x.
Proof using. intros H. rewrite cells_split. by apply lookup_app_l_Some. Qed.

Lemma items_at i : 0 <= i < num bb -> exists x, items bb !! Z.to_nat i = Some x /\ get (list_ bb) i = Done x.
Proof using Hwf.
  intros Hi. pose proof length_items. destruct (lookup_lt_is_Some_2 (items bb) (Z.to_nat i)) as [x Hx]; [lia|].
  exists x. split; [done|]. rewrite <- (Z2Nat.id i) by lia. by apply get_lookup, items_lookup.
Qed.

(** What a search may answer. *)
Definition find_ok (blk i : Z) : Prop :=
  (0 <= i < num bb /\ items bb !! Z.to_nat i = Some blk) \/ (i = -1 /\ blk ∉ items bb).

Lemma find_loop_spec fuel low high blk :
  0 <= low <= high -> high < num bb -> high - low < Z.of_nat fuel ->
  (forall k, items bb !! Z.to_nat k = Some blk -> 0 <= k -> low < k < high) ->
  exists i, find_loop fuel (list_ bb) low high blk = Done i /\ find_ok blk i.
Proof using Hwf.
  pose proof Hwf as [_ _ Hsz _ Hs _]. revert low high.
  induction fuel as [|fuel IH]; intros low high Hlow Hhigh Hf Hin; cbn [find_loop].
  { lia. }
  assert (Hnone : high - low <= 1 -> find_ok blk (-1)).
  { intros Hle. right. split; [done|]. intros [k Hk]%list_elem_of_lookup.
    specialize (Hin (Z.of_nat k)). rewrite Nat2Z.id in Hin. specialize (Hin Hk). lia. }
  destruct (Z.ltb_spec low high); [|exists (-1); split; [done|apply Hnone; lia]].
  destruct Hwf as [_ Hnum _ _ _ _]. rewrite u32_small by (unfold is_u32; lia).
  set (mid := (low + high) / 2). assert (low <= mid < high) by (unfold mid; div_lia).
  destruct (Z.eqb_spec mid low) as [E|]; simpl.
  { exists (-1). split; [done|]. apply Hnone. unfold mid in E. div_lia. }
  destruct (Z.eqb_spec mid high); [lia|]. simpl.
  destruct (items_at mid ltac:(lia)) as (v & Hv & ->). cbn [obind].
  destruct (Z.eqb_spec blk v) as [->|]; [exists mid; split; [done|]; left; split; [lia|done]|].
  destruct (Z.ltb_spec blk v).
  - apply IH; [lia..|]. intros k Hk Hk0. specialize (Hin k Hk Hk0). split; [lia|].
    destruct (Z.lt_ge_cases k mid); [done|]. assert (mid = k \/ mid < k) as [->|] by lia; [congruence|].
    pose proof (sorted_lookup _ _ _ _ _ _ Hs Hv Hk ltac:(lia)). lia.
  - apply IH; [lia..|]. intros k Hk Hk0. specialize (Hin k Hk Hk0). split; [|lia].
    destruct (Z.lt_ge_cases mid k); [done|]. assert (mid = k \/ k < mid) as [->|] by lia; [congruence|].
    pose proof (sorted_lookup _ _ _ _ _ _ Hs Hk Hv ltac:(lia)). lia.
Qed.

Lemma find_spec blk : exists i, ext2fs_u32_list_find bb blk = Done i /\ find_ok blk i.
Proof using Hwf.
  pose proof Hwf as [Hm Hn Hsz Hc Hs _]. pose proof length_items as Hl. unfold ext2fs_u32_list_find.
  rewrite Hm. simpl negb. cbv iota. destruct (Z.eqb_spec (num bb) 0) as [E|].
  { exists (-1). split; [done|]. right. split; [done|].
    destruct (items bb); [by intros ?%elem_of_nil|simpl in Hl; lia]. }
  destruct (items_at 0 ltac:(lia)) as (v0 & Hv0 & ->). cbn [obind].
  destruct (Z.eqb_spec blk v0) as [->|]; [exists 0; split; [done|]; left; split; [lia|done]|].
  destruct (items_at (num bb - 1) ltac:(lia)) as (v1 & Hv1 & ->). cbn [obind].
  destruct (Z.eqb_spec blk v1) as [->|]; [exists (num bb - 1); split; [done|]; left; split; [lia|done]|].
  apply find_loop_spec; [lia..|]. intros k Hk Hk0.
  pose proof (lookup_lt_Some _ _ _ Hk). split.
  - destruct (Z.eq_dec k 0) as [->|]; [congruence|lia].
  - destruct (Z.eq_dec k (num bb - 1)) as [->|]; [congruence|lia].
Qed.

(** * Adding *)

(** Where a new element goes: everything before is smaller, everything behind
    is larger. *)
Lemma add_position_spec fuel a b blk :
  items bb = a ++ b -> Forall (fun x => x < blk) a -> (length b < fuel)%nat ->
  add_position fuel (list_ bb) (num bb) (Z.of_nat (length a)) blk = Done None /\ blk ∈ items bb \/
  exists a' b', add_position fuel (list_ bb) (num bb) (Z.of_nat (length a)) blk
                = Done (Some (Z.of_nat (length a'))) /\
    items bb = a' ++ b' /\ Forall (fun x => x < blk) a' /\ Forall (fun x => blk < x) b'.
Proof using Hwf.
  pose proof Hwf as [_ _ _ _ Hs _]. pose proof length_items as Hl.
  revert fuel a. induction b as [|x b IH]; intros fuel a E Ha Hf;
    (destruct fuel as [|fuel]; [simpl in Hf; lia|]); cbn [add_position].
  - right. rewrite app_nil_r in E. exists a, []. rewrite app_nil_r.
    destruct (Z.ltb_spec (Z.of_nat (length a)) (num bb)); [rewrite <- E in *; lia|].
    rewrite <- E in *. rewrite Hl. split; [done|]. split; [done|]. split; [done|constructor].
  - assert (Hlt : Z.of_nat (length a) < num bb).
    { rewrite <- Hl, E, length_app. simpl. lia. }
    destruct (Z.ltb_spec (Z.of_nat (length a)) (num bb)); [|lia].
    rewrite cells_split, E, <- app_assoc. cbn [app]. rewrite get_app by done. cbn [obind].
    destruct (Z.eqb_spec x blk) as [->|].
    { left. split; [done|]. apply elem_of_app. right. by apply elem_of_cons; left. }
    destruct (Z.ltb_spec blk x).
    + right. exists a, (x :: b). split; [done|]. split; [done|]. split; [done|].
      constructor; [done|]. rewrite E in Hs. apply sorted_app in Hs as [_ [_ Hb]].
      apply Forall_forall. intros y Hy. pose proof (sorted_elem _ _ _ Hb Hy). lia.
    + simpl in Hf. specialize (IH fuel (a ++ [x])). rewrite length_app in IH. simpl length in IH.
      rewrite <- app_assoc in IH. cbn [app] in IH.
      replace (Z.of_nat (length a) + 1) with (Z.of_nat (length a + 1)) by lia.
      replace (a ++ x :: b ++ spare) with (list_ bb) by (rewrite cells_split, E, <- app_assoc; done).
      rewrite <- E. apply IH; [done| |lia]. apply Forall_app. split; [done|].
      constructor; [lia|constructor].
Qed.

End operations.

(** * The list after an insertion *)

Lemma grown_wf bb fresh :
  u32_wf bb -> size bb < 2 ^ 31 - 200 -> (100 <= length fresh)%nat ->
  let bb' := mk_u32_list (magic bb) (num bb) (size bb + 100) (list_ bb ++ take 100 fresh)
               (badblocks_flags bb) in
  u32_wf bb' /\ items bb' = items bb.
Proof.
  intros Hwf Hsz Hfr bb'. pose proof Hwf as [Hm Hn _ Hc Hs Hu].
  assert (Ei : items bb' = items bb).
  { unfold items. simpl. apply take_app_le. lia. }
  split; [|done]. constructor; rewrite ?Ei; try done; simpl; [lia|lia|].
  rewrite length_app, length_take. lia.
Qed.

(** Replacing the elements [a ++ b] by [a ++ blk :: b]. *)
Lemma inserted_wf bb a b d c blk :
  u32_wf bb -> items bb = a ++ b -> num bb < size bb -> is_u32 blk ->
  spare bb = c :: d -> Forall (fun x => x < blk) a -> Forall (fun x => blk < x) b ->
  let bb' := mk_u32_list (magic bb) (num bb + 1) (size bb) (a ++ blk :: b ++ d) (badblocks_flags bb) in
  u32_wf bb' /\ items bb' = a ++ blk :: b.
Proof.
  intros Hwf E Hlt Hblk Hsp Ha Hb bb'. pose proof Hwf as [Hm Hn Hsz Hc Hs Hu].
  pose proof (length_items bb Hwf) as Hl. rewrite E, length_app in Hl.
  assert (Ei : items bb' = a ++ blk :: b).
  { unfold items. simpl. rewrite (app_comm_cons b), (app_assoc a).
    apply take_app_length'. rewrite length_app. simpl. lia. }
  split; [|done]. rewrite (cells_split bb), E, Hsp, !length_app in Hc. simpl in Hc.
  constructor; rewrite ?Ei; try done; simpl.
  - lia.
  - rewrite !length_app. simpl. rewrite length_app. lia.
  - rewrite E in Hs. apply sorted_insert; [done| |done|done]. destruct Hblk. lia.
  - rewrite E in Hu. apply Forall_app in Hu as [? ?]. apply Forall_app. split; [done|]. by constructor.
Qed.

Lemma spare_cons bb : u32_wf bb -> num bb < size bb -> exists c d, spare bb = c :: d.
Proof.
  intros Hwf Hlt. pose proof Hwf as [_ Hn _ Hc _ _].
  assert (Hl : length (spare bb) = (Z.to_nat (size bb) - Z.to_nat (num bb))%nat).
  { unfold spare. rewrite length_drop. lia. }
  destruct (spare bb) as [|c d]; [simpl in Hl; lia|by exists c, d].
Qed.

Definition with_elem (bb bb' : u32_list) (blk : Z) : Prop :=
  u32_wf bb' /\ bb_set bb' = {[blk]} ∪ bb_set bb.

Lemma with_elem_insert bb bb' a b blk :
  u32_wf bb' -> items bb = a ++ b -> items bb' = a ++ blk :: b -> with_elem bb bb' blk.
Proof. intros Hwf E E'. split; [done|]. unfold bb_set. rewrite E, E'. apply set_eq. intros y.
  rewrite elem_of_union, elem_of_singleton, !elem_of_list_to_set, !elem_of_app, elem_of_cons. tauto.
Qed.

(** Adding to a list with a free cell. *)
Lemma add_with_room ok fresh bb blk :
  u32_wf bb -> num bb < size bb -> is_u32 blk ->
  exists bb', ext2fs_u32_list_add ok fresh bb blk = Done (0, bb') /\ with_elem bb bb' blk.
Proof.
  intros Hwf Hlt Hblk. pose proof Hwf as [Hm Hn Hsz Hc Hs Hu]. pose proof (length_items bb Hwf) as Hl.
  destruct (spare_cons bb Hwf Hlt) as (c & d & Hsp).
  unfold ext2fs_u32_list_add. rewrite (proj2 (Z.eqb_eq _ _) Hm). simpl negb. cbv iota.
  destruct (Z.leb_spec (size bb) (num bb)); [lia|]. simpl andb. cbv iota.
  assert (Hput : forall g, put (list_ bb) (num bb) g = Done (items bb ++ g :: d)).
  { intros g. rewrite cells_split, Hsp. by apply put_app. }
  assert (Happend : Forall (fun x => x < blk) (items bb) -> exists bb',
    (let* l := put (list_ bb) (num bb) blk in
     Done (0, mk_u32_list (magic bb) (num bb + 1) (size bb) l (badblocks_flags bb)))
    = Done (0, bb') /\ with_elem bb bb' blk).
  { intros Hall. rewrite Hput. cbn [obind]. eexists. split; [reflexivity|].
    destruct (inserted_wf bb (items bb) [] d c blk) as [H1 H2]; rewrite ?app_nil_r; try done.
    eapply (with_elem_insert _ _ (items bb) []); rewrite ?app_nil_r; done. }
  assert (Hmem : blk ∈ items bb -> with_elem bb bb blk).
  { intros Hin. split; [done|]. unfold bb_set. apply set_eq. intros y.
    rewrite elem_of_union, elem_of_singleton, !elem_of_list_to_set. split; [tauto|]. by intros [->|?]. }
  destruct (Z.eqb_spec (num bb) 0) as [E0|Hne]; simpl negb; cbv iota; cbn [obind andb orb].
  { apply Happend. destruct (items bb); [constructor|simpl in Hl; lia]. }
  destruct (items_at bb Hwf (num bb - 1) ltac:(lia)) as (v & Hv & ->). cbn [obind].
  destruct (Z.eqb_spec v blk) as [->|Hvb].
  { exists bb. split; [done|]. apply Hmem. by eapply list_elem_of_lookup_2. }
  destruct (Z.ltb_spec v blk); cbn [orb].
  { apply Happend. apply Forall_forall. intros x [k Hk]%list_elem_of_lookup.
    pose proof (lookup_lt_Some _ _ _ Hk).
    assert (k = Z.to_nat (num bb - 1) \/ (k < Z.to_nat (num bb - 1))%nat) as [->|] by lia; [congruence|].
    pose proof (sorted_lookup _ _ _ _ _ _ Hs Hk Hv ltac:(lia)). lia. }
  destruct (add_position_spec bb Hwf (S (Z.to_nat (num bb))) [] (items bb) blk eq_refl)
    as [[E Hin]|(a & b & E & Eab & Ha & Hb)]; [constructor|lia|..]; simpl length in E;
    change (Z.of_nat 0) with 0 in E; rewrite E; cbn [obind].
  { exists bb. split; [done|]. by apply Hmem. }
  destruct (shift_up_spec (S (Z.to_nat (num bb))) a b c d) as [g Eg].
  { rewrite Eab, length_app in Hl. lia. }
  rewrite (cells_split bb), Hsp, Eab, <- app_assoc.
  replace (Z.of_nat (length a + length b)) with (num bb) in Eg
    by (rewrite <- Hl, Eab, length_app; done).
  rewrite Eg. cbn [obind]. rewrite put_app by done. cbn [obind].
  eexists. split; [reflexivity|].
  destruct (inserted_wf bb a b d c blk) as [H1 H2]; try done. by eapply with_elem_insert.
Qed.

(** C22: [ext2fs_u32_list_add] on a well-formed list, enough memory being
    available: it succeeds, the list stays sorted without duplicates, and the
    set it represents gains exactly the new element. *)
Theorem u32_list_add_correct fresh bb blk :
  u32_wf bb -> is_u32 blk -> (100 <= length fresh)%nat -> size bb < 2 ^ 31 - 200 ->
  exists bb', ext2fs_u32_list_add true fresh bb blk = Done (0, bb') /\ u32_wf bb' /\
    bb_set bb' = {[blk]} ∪ bb_set bb.
Proof.
  intros Hwf Hblk Hfr Hsz. destruct (Z.lt_ge_cases (num bb) (size bb)) as [Hlt|Hge].
  { by apply add_with_room. }
  destruct (grown_wf bb fresh Hwf Hsz Hfr) as [Hwf1 Hi1].
  set (bb1 := mk_u32_list _ _ _ _ _) in *.
  destruct (add_with_room true fresh bb1 blk Hwf1) as (bb' & E & Hwf' & Hset);
    [pose proof Hwf as [_ ? _ _ _ _]; simpl; lia|done|].
  exists bb'. assert (bb_set bb1 = bb_set bb) as Hsame by (unfold bb_set; by rewrite Hi1).
  rewrite <- Hsame. split; [|by split]. rewrite <- E. unfold ext2fs_u32_list_add.
  pose proof Hwf as [Hm Hn _ _ _ _]. simpl magic. rewrite (proj2 (Z.eqb_eq _ _) Hm). simpl negb. cbv iota.
  destruct (Z.leb_spec (size bb) (num bb)); [|lia]. simpl andb. cbv iota.
  simpl size. simpl num. destruct (Z.leb_spec (size bb + 100) (num bb)); [lia|]. simpl andb. cbv iota.
  done.
Qed.

(** A list with three elements and one free cell. *)
Definition demo_list : u32_list := mk_u32_list EXT2_ET_MAGIC_BADBLOCKS_LIST 3 4 [3; 7; 9; 0] 0.

Lemma demo_list_ok : u32_wf demo_list.
Proof. constructor; [done|by split|done|done|by repeat split|by repeat constructor]. Qed.

Lemma u32_list_add_correct_witness :
  exists bb', ext2fs_u32_list_add true (replicate 100 0) demo_list 8 = Done (0, bb') /\ u32_wf bb' /\
    bb_set bb' = {[8]} ∪ bb_set demo_list.
Proof.
  apply (u32_list_add_correct (replicate 100 0) demo_list 8).
  - exact demo_list_ok.
  - by split.
  - vm_compute. lia.
  - reflexivity.
Defined.

(** The binary search [ext2fs_u32_list_find] terminates and returns the
    index of the element if it is in the list and -1 otherwise; [_test] decides
    membership in the represented set. *)
Theorem u32_list_find_correct bb blk :
  u32_wf bb ->
  exists i, ext2fs_u32_list_find bb blk = Done i /\
    ((0 <= i < num bb /\ items bb !! Z.to_nat i = Some blk) \/ (i = -1 /\ blk ∉ bb_set bb)) /\
    ext2fs_u32_list_test bb blk = Done (if bool_decide (blk ∈ bb_set bb) then 1 else 0).
Proof.
  intros Hwf. destruct (find_spec bb Hwf blk) as (i & E & Hi). exists i. split; [done|].
  unfold ext2fs_u32_list_test. rewrite E. cbn [obind].
  destruct Hi as [[Hi Hl]|[-> Hn]].
  - split; [by left|]. destruct (Z.ltb_spec i 0); [lia|]. rewrite bool_decide_true; [done|].
    unfold bb_set. apply elem_of_list_to_set. by eapply list_elem_of_lookup_2.
  - assert (blk ∉ bb_set bb) by (unfold bb_set; by rewrite elem_of_list_to_set).
    split; [by right|]. by rewrite bool_decide_false.
Qed.

Lemma u32_list_find_correct_witness :
  ext2fs_u32_list_test demo_list 7 = Done 1 /\ ext2fs_u32_list_test demo_list 8 = Done 0.
Proof.
  destruct (u32_list_find_correct demo_list 7 demo_list_ok) as (_ & _ & _ & ->).
  destruct (u32_list_find_correct demo_list 8 demo_list_ok) as (_ & _ & _ & ->). by vm_compute.
Defined.

Lemma NoDup_sorted lo l : sorted_from lo l -> NoDup l.
Proof.
  revert lo. induction l as [|x l IH]; intros lo; [constructor|]. intros [_ Hl]. constructor; [|by eapply IH].
  intros Hx. pose proof (sorted_elem _ _ _ Hl Hx). lia.
Qed.

(** [ext2fs_u32_list_del] removes the element and reports success, or
    reports -1 and leaves the list alone when it is not there; the list stays
    well formed. *)
Theorem u32_list_del_correct bb blk :
  u32_wf bb ->
  exists bb', ext2fs_u32_list_del bb blk = Done (if bool_decide (blk ∈ bb_set bb) then 0 else -1, bb') /\
    u32_wf bb' /\ bb_set bb' = bb_set bb ∖ {[blk]} /\ (blk ∉ bb_set bb -> bb' = bb).
Proof.
  intros Hwf. pose proof Hwf as [Hm Hn Hsz Hc Hs Hu]. pose proof (length_items bb Hwf) as Hl.
  unfold ext2fs_u32_list_del.
  assert (Hmiss : blk ∉ items bb -> exists bb', Done (-1, bb)
      = Done (if bool_decide (blk ∈ bb_set bb) then 0 else -1, bb') /\ u32_wf bb' /\
      bb_set bb' = bb_set bb ∖ {[blk]} /\ (blk ∉ bb_set bb -> bb' = bb)).
  { intros Hno. assert (blk ∉ bb_set bb) by (unfold bb_set; by rewrite elem_of_list_to_set).
    exists bb. rewrite bool_decide_false by done. split; [done|]. split; [done|]. split; [|done].
    apply set_eq. intros y. rewrite elem_of_difference, elem_of_singleton.
    split; [|tauto]. intros Hy. split; [done|]. by intros ->. }
  destruct (Z.eqb_spec (num bb) 0) as [E0|].
  { apply Hmiss. destruct (items bb); [by intros ?%elem_of_nil|simpl in Hl; lia]. }
  destruct (find_spec bb Hwf blk) as (i & -> & [[Hi Hlk]|[-> Hno]]); cbn [obind]; [|by apply Hmiss].
  destruct (Z.ltb_spec i 0); [lia|].
  pose proof (take_drop_middle _ _ _ Hlk) as Esplit.
  set (a := take (Z.to_nat i) (items bb)) in *. set (b := drop (S (Z.to_nat i)) (items bb)) in *.
  assert (Hla : Z.of_nat (length a) = i) by (unfold a; rewrite length_take; lia).
  assert (Hnum : num bb = Z.of_nat (length a + S (length b))).
  { rewrite <- Hl, <- Esplit, length_app. simpl. lia. }
  destruct (shift_down_spec (S (Z.to_nat (num bb))) a blk b (spare bb)) as [g Eg]; [lia|].
  rewrite (cells_split bb), <- Esplit, <- app_assoc. cbn [app]. rewrite Hla, <- Hnum in Eg. rewrite Eg.
  cbn [obind]. eexists. rewrite bool_decide_true
    by (unfold bb_set; apply elem_of_list_to_set; by eapply list_elem_of_lookup_2).
  split; [reflexivity|].
  assert (Ei : items (mk_u32_list (magic bb) (num bb - 1) (size bb) (a ++ b ++ g :: spare bb)
                 (badblocks_flags bb)) = a ++ b).
  { unfold items. simpl. rewrite (app_assoc a). apply take_app_length'. rewrite length_app. lia. }
  assert (Hnd : NoDup (a ++ blk :: b)) by (rewrite Esplit; by eapply NoDup_sorted).
  rewrite (cells_split bb), <- Esplit, !length_app in Hc. simpl in Hc.
  split; [|split].
  - constructor; rewrite ?Ei; try done; simpl.
    + lia.
    + rewrite !length_app. simpl. lia.
    + rewrite <- Esplit in Hs. by eapply sorted_delete.
    + rewrite <- Esplit in Hu. apply Forall_app in Hu as [? [_ ?]%Forall_cons]. by apply Forall_app.
  - unfold bb_set. rewrite Ei, <- Esplit. apply NoDup_app in Hnd as (_ & Ha & [Hb _]%NoDup_cons).
    assert (blk ∉ a) by (intros Hx; by apply (Ha blk Hx), elem_of_cons; left).
    apply set_eq. intros y. rewrite elem_of_difference, elem_of_singleton, !elem_of_list_to_set.
    rewrite !elem_of_app, elem_of_cons. destruct (decide (y = blk)) as [->|]; tauto.
  - intros Hno. destruct Hno. unfold bb_set. apply elem_of_list_to_set. by eapply list_elem_of_lookup_2.
Qed.

Lemma u32_list_del_correct_witness :
  exists bb', ext2fs_u32_list_del demo_list 7 = Done (0, bb') /\ u32_wf bb' /\
    bb_set bb' = bb_set demo_list ∖ {[7]}.
Proof.
  destruct (u32_list_del_correct demo_list 7 demo_list_ok) as (bb' & E & Hwf & Hs & _).
  exists bb'. split; [|by split]. rewrite E. by vm_compute.
Defined.

(** Calling [ext2fs_u32_list_iterate] until it returns 0. *)
Fixpoint iterate_all (fuel : nat) (it : u32_iterate) (bb : u32_list) : outcome (list Z) :=
  match fuel with
  | O => Crash OutOfFuel
  | S fuel =>
      let* (it, r, blk) := ext2fs_u32_list_iterate it bb in
      if r =? 0 then Done []
      else
        let* l := iterate_all fuel it bb in
        Done (match blk with Some b => b :: l | None => l end)
  end.

Lemma iterate_from bb fuel i :
  u32_wf bb -> 0 <= i <= num bb -> num bb - i < Z.of_nat fuel ->
  iterate_all fuel (mk_u32_iterate EXT2_ET_MAGIC_BADBLOCKS_ITERATE i) bb
  = Done (drop (Z.to_nat i) (items bb)).
Proof.
  intros Hwf. pose proof (length_items bb Hwf) as Hl. pose proof Hwf as [Hm _ _ _ _ _]. revert i.
  induction fuel as [|fuel IH]; intros i Hi Hf; [lia|]. cbn [iterate_all].
  unfold ext2fs_u32_list_iterate. cbn [it_magic ptr]. rewrite Hm. simpl negb. cbv iota.
  destruct (Z.ltb_spec i (num bb)).
  - destruct (items_at bb Hwf i ltac:(lia)) as (v & Hv & ->). cbn [obind]. simpl (1 =? 0). cbv iota.
    rewrite IH by lia. cbn [obind]. f_equal. rewrite (drop_S _ _ _ Hv). do 2 f_equal. lia.
  - cbn [obind]. simpl. by rewrite drop_ge by lia.
Qed.

(** An iteration over an unchanged list delivers its elements in increasing
    order, each once, and [ext2fs_u32_list_equal] answers 1 exactly when two
    lists represent the same set. *)
Theorem u32_list_iterate_equal bb bb2 it :
  u32_wf bb -> u32_wf bb2 -> ext2fs_u32_list_iterate_begin true bb = (0, Some it) ->
  iterate_all (S (Z.to_nat (num bb))) it bb = Done (items bb) /\
  (forall x, x ∈ items bb <-> x ∈ bb_set bb) /\ sorted_from (-1) (items bb) /\
  ext2fs_u32_list_equal bb bb2 = (if bool_decide (bb_set bb = bb_set bb2) then 1 else 0).
Proof.
  intros Hwf Hwf2 Hb. pose proof Hwf as [Hm Hn _ _ Hs _]. pose proof Hwf2 as [Hm2 _ _ _ Hs2 _].
  unfold ext2fs_u32_list_iterate_begin in Hb. rewrite Hm in Hb. simpl in Hb. injection Hb as <-.
  split; [rewrite iterate_from by (done || lia); by rewrite drop_0|].
  split; [intros x; unfold bb_set; by rewrite elem_of_list_to_set|]. split; [done|].
  unfold ext2fs_u32_list_equal. rewrite Hm, Hm2. simpl negb. cbv iota.
  pose proof (length_items bb Hwf) as Hl. pose proof (length_items bb2 Hwf2) as Hl2.
  assert (Hiff : bb_set bb = bb_set bb2 <-> items bb = items bb2).
  { unfold bb_set. split; [|by intros ->]. intros E. apply (sorted_unique (-1)); [done..|].
    intros x. rewrite <- !(elem_of_list_to_set (C := gset Z)), E. done. }
  destruct (Z.eqb_spec (num bb) (num bb2)) as [En|Hne]; simpl negb; cbv iota.
  - replace (take (Z.to_nat (num bb)) (list_ bb2)) with (items bb2) by (unfold items; by rewrite En).
    fold (items bb). destruct (decide (items bb = items bb2)) as [E|E].
    + rewrite !bool_decide_true; [done|by apply Hiff|done].
    + rewrite !bool_decide_false; [done|by rewrite Hiff|done].
  - rewrite bool_decide_false; [done|]. rewrite Hiff. intros E. rewrite E in Hl. lia.
Qed.

Lemma u32_list_iterate_equal_witness :
  iterate_all 4 (mk_u32_iterate EXT2_ET_MAGIC_BADBLOCKS_ITERATE 0) demo_list = Done [3; 7; 9].
Proof.
  apply (u32_list_iterate_equal demo_list demo_list (mk_u32_iterate EXT2_ET_MAGIC_BADBLOCKS_ITERATE 0)
    demo_list_ok demo_list_ok). reflexivity.
Defined.
