(* ===== verification/Region.v ===== *)
(** e2fsck/region.c: allocations within a region, kept as a linked list of
    intervals; used to check that directory entries and extended attributes do
    not overlap. *)

From S2P Require Import Prelude.

Local Open Scope Z_scope.

(** * The structures *)

(** [struct region_el]; [el_addr] is its address. *)
Record region_el := mk_el { el_addr : Z; el_start : Z; el_end : Z }.

(** [struct region_struct]; [allocated] is the chain, [rlast] the pointer
    [last]. *)
Record region := mk_region {
  rmin : Z;
  rmax : Z;
  allocated : list region_el;
  rlast : option Z }.

Definition set_start (r : region_el) (s : Z) : region_el := mk_el (el_addr r) s (el_end r).
Definition set_end (r : region_el) (e : Z) : region_el := mk_el (el_addr r) (el_start r) e.

(** * The operations *)

Definition region_create (al : allocator) (min max : Z) : option region * allocator :=
  match malloc al with
  | (None, al) => (None, al)
  | (Some _, al) => (Some (mk_region min max [] None), al)
  end.

(** The chain cut at the element a pointer refers to. *)
Fixpoint cut_at (p : Z) (l : list region_el) : option (list region_el * region_el * list region_el) :=
  match l with
  | [] => None
  | r :: t =>
      if el_addr r =? p then Some ([], r, t)
      else match cut_at p t with
           | Some (a, x, b) => Some (r :: a, x, b)
           | None => None
           end
  end.

(** How the search of [region_allocate] ends: a conflict, an element grown (with
    the new value of [last] if it is assigned), or the place of a new element. *)
Inductive scan :=
| ScanConflict
| ScanGrown (l : list region_el) (last : option Z)
| ScanInsert (before after : list region_el).

Definition conflicts (r : region_el) (start end_ : Z) : bool :=
  ((el_start r <=? start) && (start <? el_end r)) ||
  ((el_start r <? end_) && (end_ <=? el_end r)) ||
  ((start <=? el_start r) && (el_end r <=? end_)).

Fixpoint region_scan (l : list region_el) (start end_ : Z) : scan :=
  match l with
  | [] => ScanInsert [] []
  | r :: t =>
      if conflicts r start end_ then ScanConflict
      else if end_ =? el_start r then ScanGrown (set_start r start :: t) None
      else if start =? el_end r then
        match t with
        | next :: t' =>
            if el_start next <? end_ then ScanConflict
            else if end_ =? el_start next then
              ScanGrown (set_end r (el_end next) :: t')
                (match t' with [] => Some (el_addr r) | _ => None end)
            else ScanGrown (set_end r end_ :: t) None
        | [] => ScanGrown (set_end r end_ :: t) None
        end
      else if start <? el_start r then ScanInsert [] (r :: t)
      else
        match region_scan t start end_ with
        | ScanConflict => ScanConflict
        | ScanGrown t' last => ScanGrown (r :: t') last
        | ScanInsert a b => ScanInsert (r :: a) b
        end
  end.

Definition set_allocated (r : region) (l : list region_el) (last : option Z) : region :=
  mk_region (rmin r) (rmax r) l (match last with Some p => Some p | None => rlast r end).

(** From the label [append_to_list] on. *)
Definition region_insert (al : allocator) (r : region) (before after : list region_el)
    (start end_ : Z) : Z * allocator * region :=
  match malloc al with
  | (None, al) => (-1, al, r)
  | (Some p, al) =>
      (0, al, set_allocated r (before ++ mk_el p start end_ :: after)
                (match after with [] => Some p | _ => None end))
  end.

Definition region_allocate (al : allocator) (r : region) (start n : Z)
  : outcome (Z * allocator * region) :=
  let end_ := u64 (start + n) in
  if (start <? rmin r) || (rmax r <? end_) then Done (-1, al, r)
  else if n =? 0 then Done (1, al, r)
  else
    let search :=
      match region_scan (allocated r) start end_ with
      | ScanConflict => Done (1, al, r)
      | ScanGrown l last => Done (0, al, set_allocated r l last)
      | ScanInsert a b => Done (region_insert al r a b start end_)
      end in
    match rlast r with
    | None => search
    | Some p =>
        match cut_at p (allocated r) with
        | None => Crash BadPointer
        | Some (before, el, []) =>
            if el_end el =? start then Done (0, al, set_allocated r (before ++ [set_end el end_]) None)
            else if el_end el <? start then Done (region_insert al r (allocated r) [] start end_)
            else search
        | Some _ => search
        end
    end.

(** * What a region stands for *)

Definition covers_addr (r : region_el) (x : Z) : bool := (el_start r <=? x) && (x <? el_end r).
Definition covered (l : list region_el) (x : Z) : bool := existsb (fun r => covers_addr r x) l.

(** Some address of [start, end_) is allocated. *)
Definition overlaps (l : list region_el) (start end_ : Z) : bool :=
  existsb (fun r => (el_start r <? end_) && (start <? el_end r)) l.

(** Non-empty intervals in increasing order, with a gap between any two. *)
Fixpoint spaced (lo : Z) (l : list region_el) : Prop :=
  match l with
  | [] => True
  | r :: t => lo < el_start r /\ el_start r < el_end r /\ spaced (el_end r) t
  end.

Definition el_addrs (l : list region_el) : list Z := map el_addr l.

Record region_wf (al : allocator) (r : region) : Prop := {
  rw_min : 0 <= rmin r;
  rw_max : rmax r < 2 ^ 64;
  rw_spaced : spaced (rmin r - 1) (allocated r);
  rw_inside : Forall (fun e => el_end e <= rmax r) (allocated r);
  rw_nodup : NoDup (el_addrs (allocated r));
  rw_old : forall p, p ∈ el_addrs (allocated r) -> p < next_addr al;
  rw_last : rlast r = el_addr <$> last (allocated r) }.

(** * Proofs *)

(** Case analysis on every comparison of the goal. *)
Ltac cmp_cases :=
  repeat match goal with
  | |- context [?a <=? ?b] => destruct (Z.leb_spec a b)
  | |- context [?a <? ?b] => destruct (Z.ltb_spec a b)
  | |- context [?a =? ?b] => destruct (Z.eqb_spec a b)
  end; simpl; try done; try lia.

Definition in_range (start end_ x : Z) : bool := (start <=? x) && (x <? end_).

Lemma overlaps_below lo l start end_ : spaced lo l -> end_ <= lo -> overlaps l start end_ = false.
Proof.
  revert lo. induction l as [|r t IH]; intros lo; [done|]. intros (H1 & H2 & H3) He. simpl.
  rewrite (IH (el_end r)) by (done || lia). rewrite orb_false_r. cmp_cases.
Qed.

Lemma conflicts_overlap r start end_ :
  el_start r < el_end r -> start < end_ ->
  conflicts r start end_ = (el_start r <? end_) && (start <? el_end r).
Proof. intros. unfold conflicts. cmp_cases. Qed.

Lemma spaced_weaken lo lo' l : lo' <= lo -> spaced lo l -> spaced lo' l.
Proof. destruct l; simpl; [done|]. intros ? (? & ? & ?). repeat split; [lia|done|done]. Qed.

(** The list after an element was grown. *)
Record grown (lo start end_ : Z) (l l' : list region_el) (lst : option Z) : Prop := {
  gr_free : overlaps l start end_ = false;
  gr_spaced : spaced lo l';
  gr_covered x : covered l' x = covered l x || in_range start end_ x;
  gr_addrs : sublist (el_addrs l') (el_addrs l);
  gr_inside m : Forall (fun e => el_end e <= m) l -> end_ <= m -> Forall (fun e => el_end e <= m) l';
  gr_last : match lst with Some p => Some p | None => el_addr <$> last l end
            = el_addr <$> last l' }.

Definition scan_ok (lo start end_ : Z) (l : list region_el) (s : scan) : Prop :=
  match s with
  | ScanConflict => overlaps l start end_ = true
  | ScanGrown l' lst => grown lo start end_ l l' lst
  | ScanInsert a b =>
      l = a ++ b /\ overlaps l start end_ = false /\
      forall p, spaced lo (a ++ mk_el p start end_ :: b)
  end.

Lemma grown_cons lo start end_ r l l' lst :
  grown (el_end r) start end_ l l' lst -> lo < el_start r -> el_start r < el_end r ->
  el_end r < start < end_ -> l <> [] -> grown lo start end_ (r :: l) (r :: l') lst.
Proof.
  intros [G1 G2 G3 G4 G5 G6] Hlo Hr Hs Hne. constructor.
  - simpl. rewrite G1, orb_false_r. cmp_cases.
  - by repeat split.
  - intros x. simpl. rewrite G3. apply orb_assoc.
  - simpl. by apply sublist_skip.
  - intros m [? ?]%Forall_cons ?. constructor; auto.
  - assert (Hne' : l' <> []).
    { intros ->. specialize (G3 start). unfold in_range in G3. revert G3. simpl.
      destruct (covered l start); cmp_cases. }
    destruct l as [|y l]; [done|]. destruct l' as [|y' l']; [done|]. exact G6.
Qed.

Lemma region_scan_spec lo l start end_ :
  spaced lo l -> lo < start -> start < end_ -> scan_ok lo start end_ l (region_scan l start end_).
Proof.
  intros Hsp Hlo Hse. revert lo Hsp Hlo. induction l as [|r t IH]; intros lo Hsp Hlo.
  { simpl. repeat split; done. }
  destruct Hsp as (H1 & H2 & H3). cbn [region_scan]. rewrite conflicts_overlap by done.
  destruct ((el_start r <? end_) && (start <? el_end r)) eqn:Ec; [simpl; by rewrite Ec|].
  assert (Hdis : end_ <= el_start r \/ el_end r <= start) by (revert Ec; cmp_cases).
  destruct (Z.eqb_spec end_ (el_start r)) as [Es|].
  { constructor.
    - simpl. rewrite Ec. apply (overlaps_below (el_end r)); [done|lia].
    - simpl. repeat split; [done|lia|done].
    - intros x. simpl. rewrite (orb_comm (covers_addr r x) (covered t x)), <- orb_assoc, orb_comm. f_equal.
      unfold covers_addr, in_range. simpl. cmp_cases.
    - done.
    - intros m [? ?]%Forall_cons ?. by constructor.
    - by destruct t. }
  destruct (Z.eqb_spec start (el_end r)) as [Ee|].
  { assert (Hgrow : overlaps t start end_ = false -> spaced end_ t ->
      grown lo start end_ (r :: t) (set_end r end_ :: t) None).
    { intros Ho Hst. constructor.
      - simpl. by rewrite Ec.
      - simpl. repeat split; [done|lia|done].
      - intros x. simpl. rewrite (orb_comm (covers_addr r x) (covered t x)), <- orb_assoc, orb_comm. f_equal.
        unfold covers_addr, in_range. simpl. cmp_cases.
      - done.
      - intros m [? ?]%Forall_cons ?. by constructor.
      - by destruct t. }
    destruct t as [|next t']; [by apply Hgrow|]. destruct H3 as (H4 & H5 & H6).
    destruct (Z.ltb_spec (el_start next) end_) as [Hc|Hc].
    { simpl. rewrite Ec. simpl. apply orb_true_iff. left. cmp_cases. }
    assert (Ho : overlaps (next :: t') start end_ = false).
    { simpl. rewrite (overlaps_below (el_end next)) by (done || lia). rewrite orb_false_r. cmp_cases. }
    destruct (Z.eqb_spec end_ (el_start next)) as [En|].
    - constructor.
      + simpl. rewrite Ec. exact Ho.
      + simpl. repeat split; [done|lia|done].
      + intros x. simpl. rewrite (orb_assoc (covers_addr r x)), <- orb_assoc, (orb_comm (covered t' x)), orb_assoc.
        f_equal. unfold covers_addr, in_range. simpl. cmp_cases.
      + simpl. by apply sublist_skip, sublist_cons.
      + intros m [? [? ?]%Forall_cons]%Forall_cons ?. by constructor.
      + by destruct t'.
    - apply Hgrow; [done|]. simpl. repeat split; [lia|done|done]. }
  destruct (Z.ltb_spec start (el_start r)).
  { simpl. rewrite Ec. split; [done|]. split; [apply (overlaps_below (el_end r)); [done|lia]|].
    intros p. repeat split; simpl; try done; lia. }
  assert (Hs : el_end r < start) by lia. specialize (IH (el_end r) H3 Hs).
  destruct (region_scan t start end_) as [|t' lst|a b] eqn:Escan; simpl in IH |- *.
  - by rewrite Ec, IH.
  - apply grown_cons; try done. intros ->. discriminate.
  - destruct IH as (-> & Ho & Hi). rewrite Ec, Ho. split; [done|]. split; [done|].
    intros p. repeat split; [done|done|apply Hi].
Qed.

Definition last_end (lo : Z) (l : list region_el) : Z := foldl (fun _ r => el_end r) lo l.

Lemma spaced_app lo a b : spaced lo (a ++ b) <-> spaced lo a /\ spaced (last_end lo a) b.
Proof.
  revert lo. induction a as [|r a IH]; intros lo; simpl; [tauto|]. rewrite IH. unfold last_end. simpl. tauto.
Qed.

Lemma last_end_snoc lo a x : last_end lo (a ++ [x]) = el_end x.
Proof. unfold last_end. by rewrite foldl_app. Qed.

Lemma spaced_ends lo l : spaced lo l -> Forall (fun r => el_end r <= last_end lo l) l.
Proof.
  revert lo. induction l as [|r l IH]; intros lo; [constructor|]. intros (H1 & H2 & H3).
  change (last_end lo (r :: l)) with (last_end (el_end r) l). constructor; [|by apply IH].
  clear -H3. destruct l as [|y l]; [simpl; unfold last_end; simpl; lia|].
  revert r y H3. induction l as [|z l IH]; intros r y (H1 & H2 & H3); unfold last_end in *; simpl in *; [lia|].
  specialize (IH y z H3). simpl in IH. lia.
Qed.

Lemma overlaps_above l start end_ :
  Forall (fun r => el_end r <= start) l -> overlaps l start end_ = false.
Proof. induction 1 as [|r l Hr Hl IH]; [done|]. simpl. rewrite IH, orb_false_r. cmp_cases. Qed.

Lemma covered_app a b x : covered (a ++ b) x = covered a x || covered b x.
Proof. apply existsb_app. Qed.

Lemma cut_at_last a x :
  NoDup (el_addrs (a ++ [x])) -> cut_at (el_addr x) (a ++ [x]) = Some (a, x, []).
Proof.
  intros Hnd. induction a as [|r a IH]; simpl in *; [by rewrite Z.eqb_refl|].
  apply NoDup_cons in Hnd as [Hn Hnd]. destruct (Z.eqb_spec (el_addr r) (el_addr x)) as [E|].
  - destruct Hn. rewrite E. unfold el_addrs. rewrite map_app. apply elem_of_app. right. by apply elem_of_cons; left.
  - by rewrite IH.
Qed.

(** The answer [region_allocate] gives. *)
Definition allocate_result (r : region) (start n : Z) : Z :=
  if (start <? rmin r) || (rmax r <? start + n) then -1
  else if n =? 0 then 1
  else if overlaps (allocated r) start (start + n) then 1
  else 0.

Section allocate.
Context (al : allocator) (r : region) (start n : Z).
Context (Hwf : region_wf al r) (Hn : 0 < n) (Hin : rmin r <= start) (Hend : start + n <= rmax r).
Context (Hoom : oom al (next_addr al) = false).

Definition allocated_ok (res : Z * allocator * region) : Prop :=
  let '(ret, al', r') := res in
  region_wf al' r' /\ ret = allocate_result r start n /\
  forall x, covered (allocated r') x = covered (allocated r) x || (ret =? 0) && in_range start (start + n) x.

Lemma result_free : overlaps (allocated r) start (start + n) = false -> allocate_result r start n = 0.
Proof using Hn Hin Hend. intros Ho. unfold allocate_result. rewrite Ho. cmp_cases. Qed.

Lemma result_conflict : overlaps (allocated r) start (start + n) = true -> allocate_result r start n = 1.
Proof using Hn Hin Hend. intros Ho. unfold allocate_result. rewrite Ho. cmp_cases. Qed.

Lemma grown_ok l lst :
  grown (rmin r - 1) start (start + n) (allocated r) l lst ->
  allocated_ok (0, al, set_allocated r l lst).
Proof using Hwf Hn Hin Hend.
  intros [G1 G2 G3 G4 G5 G6]. destruct Hwf as [W1 W2 W3 W4 W5 W6 W7].
  split; [|split; [by rewrite result_free|done]].
  constructor; simpl; try done.
  - by apply G5.
  - by eapply sublist_NoDup.
  - intros p Hp. apply W6. by eapply elem_of_submseteq, sublist_submseteq.
  - rewrite <- G6, W7. by destruct lst.
Qed.

Lemma insert_ok a b :
  allocated r = a ++ b -> overlaps (allocated r) start (start + n) = false ->
  (forall p, spaced (rmin r - 1) (a ++ mk_el p start (start + n) :: b)) ->
  allocated_ok (region_insert al r a b start (start + n)).
Proof using Hwf Hn Hin Hend Hoom.
  intros E Ho Hs. destruct Hwf as [W1 W2 W3 W4 W5 W6 W7]. rewrite E in *.
  unfold region_insert, malloc. rewrite Hoom.
  set (new := mk_el (next_addr al) start (start + n)).
  assert (Hperm : el_addrs (a ++ new :: b) ≡ₚ next_addr al :: el_addrs (a ++ b)).
  { unfold el_addrs. rewrite !map_app. simpl. by rewrite Permutation_middle. }
  split; [|split; [rewrite result_free; [done|by rewrite E]|]].
  - constructor; simpl; try done.
    + apply Hs.
    + apply Forall_app in W4 as [? ?]. apply Forall_app. split; [done|]. by constructor.
    + rewrite Hperm. apply NoDup_cons. split; [|done]. intros Hp%W6. lia.
    + intros p. rewrite Hperm. intros [->|Hp%W6]%elem_of_cons; lia.
    + destruct b as [|y b]; [by rewrite last_snoc|]. rewrite W7, !last_app. simpl.
      destruct (last b); [done|]. by destruct b.
  - intros x. simpl. rewrite E, !covered_app. simpl. rewrite <- orb_assoc. f_equal.
    apply orb_comm.
Qed.

Lemma search_ok :
  exists res,
    match region_scan (allocated r) start (start + n) with
    | ScanConflict => Done (1, al, r)
    | ScanGrown l last => Done (0, al, set_allocated r l last)
    | ScanInsert a b => Done (region_insert al r a b start (start + n))
    end = Done res /\ allocated_ok res.
Proof using Hwf Hn Hin Hend Hoom.
  pose proof Hwf as [_ _ W3 _ _ _ _].
  pose proof (region_scan_spec (rmin r - 1) (allocated r) start (start + n) W3 ltac:(lia) ltac:(lia)) as Hs.
  destruct (region_scan (allocated r) start (start + n)) as [|l lst|a b]; simpl in Hs.
  - eexists. split; [reflexivity|]. split; [done|]. split; [by rewrite result_conflict|].
    intros x. simpl. by rewrite orb_false_r.
  - eexists. split; [reflexivity|]. by apply grown_ok.
  - destruct Hs as (E & Ho & Hsp). eexists. split; [reflexivity|]. by apply insert_ok.
Qed.

End allocate.

(** C26: [region_allocate] on a well-formed region: it returns -1 outside the
    region, 1 when the interval is empty or meets an allocated address, and
    otherwise 0; the allocated addresses are then exactly the old ones and the
    new interval, and the list stays sorted, with gaps between its elements
    and its [last] pointer at the last one. *)
Theorem region_allocate_correct al r start n :
  region_wf al r -> 0 <= n -> 0 <= start -> start + n < 2 ^ 64 -> oom al (next_addr al) = false ->
  exists ret al' r', region_allocate al r start n = Done (ret, al', r') /\ region_wf al' r' /\
    ret = allocate_result r start n /\
    forall x, covered (allocated r') x = covered (allocated r) x || (ret =? 0) && in_range start (start + n) x.
Proof.
  intros Hwf Hn Hs He Hoom. unfold region_allocate. rewrite u64_small by (unfold is_u64; lia).
  destruct ((start <? rmin r) || (rmax r <? start + n)) eqn:Eout.
  { exists (-1), al, r. split; [done|]. split; [done|]. unfold allocate_result. rewrite Eout.
    split; [done|]. intros x. by rewrite orb_false_r. }
  destruct (Z.eqb_spec n 0) as [E0|Hn0].
  { exists 1, al, r. split; [done|]. split; [done|]. unfold allocate_result. rewrite Eout.
    rewrite (proj2 (Z.eqb_eq _ _) E0). split; [done|]. intros x. by rewrite orb_false_r. }
  assert (Hr : rmin r <= start /\ start + n <= rmax r) by (revert Eout; cmp_cases). destruct Hr as [Hr1 Hr2].
  destruct (search_ok al r start n Hwf ltac:(lia) Hr1 Hr2 Hoom) as ([[ret al'] r'] & Esearch & Hok).
  rewrite Esearch.
  enough (exists res, match rlast r with
    | None => Done (ret, al', r')
    | Some p => match cut_at p (allocated r) with
      | None => Crash BadPointer
      | Some (before, el, []) =>
          if el_end el =? start then Done (0, al, set_allocated r (before ++ [set_end el (start + n)]) None)
          else if el_end el <? start then Done (region_insert al r (allocated r) [] start (start + n))
          else Done (ret, al', r')
      | Some _ => Done (ret, al', r')
      end
    end = Done res /\ allocated_ok r start n res) as ([[ret0 al0] r0] & -> & Hok0).
  { exists ret0, al0, r0. split; [done|]. exact Hok0. }
  pose proof Hwf as [_ _ W3 W4 W5 _ W7]. rewrite W7.
  destruct (last (allocated r)) as [el|] eqn:El; [|eexists; by split].
  apply last_Some in El as [a E]. simpl. rewrite E in *. rewrite cut_at_last by done.
  pose proof (spaced_ends _ _ W3) as Hends. rewrite last_end_snoc in Hends.
  pose proof W3 as [Wa (Wl1 & Wl2 & _)]%spaced_app.
  destruct (Z.eqb_spec (el_end el) start) as [Ee|].
  { eexists. split; [reflexivity|]. apply grown_ok; [done|lia|done|done|]. rewrite E.
    constructor.
    - apply overlaps_above. eapply Forall_impl; [exact Hends|]. simpl. lia.
    - apply spaced_app. split; [done|]. simpl. repeat split; [done|lia].
    - intros x. rewrite !covered_app, <- orb_assoc. f_equal. simpl. rewrite !orb_false_r.
      unfold covers_addr, in_range. simpl. cmp_cases.
    - unfold el_addrs. by rewrite !map_app.
    - intros m [? [? _]%Forall_cons]%Forall_app ?. apply Forall_app. by repeat constructor.
    - by rewrite !last_snoc. }
  destruct (Z.ltb_spec (el_end el) start).
  { eexists. split; [reflexivity|]. rewrite <- E. apply insert_ok; try done; [lia|by rewrite app_nil_r| |].
    - rewrite E. apply overlaps_above. eapply Forall_impl; [exact Hends|]. simpl. lia.
    - intros p. rewrite E. apply spaced_app. split; [done|]. rewrite last_end_snoc. simpl. repeat split; [done|lia]. }
  eexists. by split.
Qed.

Definition demo_region : region :=
  mk_region 1 1001 [mk_el 1 10 20; mk_el 2 30 40] (Some 2).

Lemma region_allocate_correct_witness :
  exists al' r', region_allocate (mk_alloc 3 (fun _ => false)) demo_region 20 10 = Done (0, al', r') /\
    region_wf al' r' /\ covered (allocated r') 25 = true.
Proof.
  destruct (region_allocate_correct (mk_alloc 3 (fun _ => false)) demo_region 20 10)
    as (ret & al' & r' & E & Hwf & Hret & Hc).
  - constructor; try done.
    + repeat constructor; simpl; lia.
    + apply (bool_decide_unpack _). vm_compute. done.
    + intros p Hp. by repeat (apply elem_of_cons in Hp as [->|Hp]; [done|]); apply elem_of_nil in Hp.
  - done.
  - done.
  - done.
  - done.
  - exists al', r'. rewrite E, Hret. split; [by vm_compute|]. split; [done|]. rewrite Hc, Hret. by vm_compute.
Defined.
