(* ===== verification/Unicode.v ===== *)
(** libutils/Unicode.cpp: conversions between UTF-8, UTF-16 and UTF-32 and the
    string functions on UTF-16.  A string is the list of its code units; a
    read behind its end is an error of the program, and a conversion returns
    the units it writes. *)

From S2P Require Import Prelude.

Local Open Scope Z_scope.

Definition kByteMask : Z := 0x000000BF.
Definition kByteMark : Z := 0x00000080.
Definition kUnicodeSurrogateStart : Z := 0x0000D800.
Definition kUnicodeSurrogateEnd : Z := 0x0000DFFF.
Definition kUnicodeMaxCodepoint : Z := 0x0010FFFF.
Definition SSIZE_MAX : Z := 2 ^ 63 - 1.

Definition kFirstByteMark : list Z := [0x00; 0x00; 0xC0; 0xE0; 0xF0].

(** Unit [i] of a string. *)
Definition unit_at (s : list Z) (i : nat) : outcome Z :=
  match s !! i with Some c => Done c | None => Crash BadPointer end.

(** * UTF-32 *)

Definition utf32_codepoint_utf8_length (srcChar : Z) : Z :=
  if srcChar <? 0x80 then 1
  else if srcChar <? 0x800 then 2
  else if srcChar <? 0x10000 then
    if (srcChar <? kUnicodeSurrogateStart) || (kUnicodeSurrogateEnd <? srcChar) then 3 else 0
  else if srcChar <=? kUnicodeMaxCodepoint then 4
  else 0.

(** The [switch] whose cases fall through: [n] trailing bytes in front of
    [acc], then the first byte with the mark of the whole length. *)
Fixpoint utf8_trail (n : nat) (srcChar : Z) (acc : list Z) : Z * list Z :=
  match n with
  | O => (srcChar, acc)
  | S n => utf8_trail n (Z.shiftr srcChar 6) (u8 (Z.land (Z.lor srcChar kByteMark) kByteMask) :: acc)
  end.

Definition utf32_codepoint_to_utf8 (srcChar : Z) (bytes : Z) : list Z :=
  if (1 <=? bytes) && (bytes <=? 4) then
    let '(c, acc) := utf8_trail (Z.to_nat bytes - 1) srcChar [] in
    u8 (Z.lor c (nth (Z.to_nat bytes) kFirstByteMark 0)) :: acc
  else [].

(** A plain [char] is signed: the first byte is sign-extended. *)
Definition sign_extend8 (b : Z) : Z := u32 (if b <? 0x80 then b else b - 0x100).

Fixpoint utf32_at_loop (fuel : nat) (first_char : Z) (cur : list Z) (utf32 num_to_read mask to_ignore_mask : Z)
  : outcome (Z * Z * Z * Z) :=
  match fuel with
  | O => Crash OutOfFuel
  | S fuel =>
      if Z.land first_char mask =? 0 then Done (utf32, num_to_read, mask, to_ignore_mask)
      else
        match cur with
        | [] => Crash BadPointer
        | c :: cur =>
            utf32_at_loop fuel first_char cur (u32 (u32 (Z.shiftl utf32 6) + Z.land c 0x3F))
              (num_to_read + 1) (Z.shiftr mask 1) (Z.lor to_ignore_mask mask)
        end
  end.

(** Returns the value and the number of bytes read. *)
Definition utf32_at_internal (cur : list Z) : outcome (Z * Z) :=
  match cur with
  | [] => Crash BadPointer
  | first_char :: cur =>
      if Z.land first_char 0x80 =? 0 then Done (first_char, 1)
      else
        let* (utf32, num_to_read, mask, to_ignore_mask) :=
          utf32_at_loop 8 first_char cur (sign_extend8 first_char) 1 0x40 0xFFFFFF80 in
        let to_ignore_mask := Z.lor to_ignore_mask mask in
        let utf32 := Z.land utf32 (Z.lxor 0xFFFFFFFF (u32 (Z.shiftl to_ignore_mask (6 * (num_to_read - 1))))) in
        Done (s32 utf32, num_to_read)
  end.

(** The value, and the new [*next_index] if it is assigned. *)
Definition utf32_from_utf8_at (src : list Z) (src_len index : Z) : outcome (Z * option Z) :=
  if src_len <=? index then Done (-1, None)
  else
    let* (ret, num_read) := utf32_at_internal (drop (Z.to_nat index) src) in
    Done (ret, if 0 <=? ret then Some (index + num_read) else None).

Fixpoint utf32_length_loop (src : list Z) (ret : Z) : Z :=
  match src with
  | [] => ret
  | c :: src =>
      let char_len := utf32_codepoint_utf8_length c in
      if SSIZE_MAX - char_len <? ret then -1 else utf32_length_loop src (ret + char_len)
  end.

Definition utf32_to_utf8_length (src : list Z) : Z :=
  match src with [] => -1 | _ => utf32_length_loop src 0 end.

(** The bytes written; a buffer that is too small is fatal. *)
Fixpoint utf32_to_utf8_loop (src : list Z) (dst_len : Z) : outcome (list Z) :=
  match src with
  | [] => if dst_len <? 1 then Crash AssertFailed else Done [0]
  | c :: src =>
      let len := utf32_codepoint_utf8_length c in
      if dst_len <? len then Crash AssertFailed
      else
        let* rest := utf32_to_utf8_loop src (dst_len - len) in
        Done (utf32_codepoint_to_utf8 c len ++ rest)
  end.

Definition utf32_to_utf8 (src : list Z) (dst_len : Z) : outcome (list Z) :=
  match src with [] => Done [] | _ => utf32_to_utf8_loop src dst_len end.

(** * UTF-16 *)

Fixpoint strcmp16 (s1 s2 : list Z) : outcome Z :=
  match s1, s2 with
  | ch :: s1, c2 :: s2 =>
      let d := ch - c2 in
      if negb (d =? 0) || (ch =? 0) then Done d else strcmp16 s1 s2
  | _, _ => Crash BadPointer
  end.

Fixpoint strncmp16 (s1 s2 : list Z) (n : nat) : outcome Z :=
  match n with
  | O => Done 0
  | S n =>
      match s1, s2 with
      | ch :: s1, c2 :: s2 =>
          let d := ch - c2 in
          if negb (d =? 0) || (ch =? 0) then Done d
          else match n with O => Done d | _ => strncmp16 s1 s2 n end
      | _, _ => Crash BadPointer
      end
  end.

Fixpoint strlen16 (s : list Z) : outcome Z :=
  match s with
  | [] => Crash BadPointer
  | c :: s => if c =? 0 then Done 0 else let* n := strlen16 s in Done (n + 1)
  end.

Fixpoint strnlen16 (s : list Z) (maxlen : nat) : outcome Z :=
  match maxlen with
  | O => Done 0
  | S maxlen =>
      match s with
      | [] => Crash BadPointer
      | c :: s => if c =? 0 then Done 0 else let* n := strnlen16 s maxlen in Done (n + 1)
      end
  end.

(** The nested loops of [strstr16], from [src] on: the offset of the match. *)
Fixpoint strstr16_loop (src target : list Z) (needle : Z) (target_len : nat) (off : Z) : outcome (option Z) :=
  match src with
  | [] => Crash BadPointer
  | c :: src =>
      if c =? 0 then Done None
      else if negb (c =? needle) then strstr16_loop src target needle target_len (off + 1)
      else
        let* d := strncmp16 src target target_len in
        if d =? 0 then Done (Some off) else strstr16_loop src target needle target_len (off + 1)
  end.

Definition strstr16 (src target : list Z) : outcome (option Z) :=
  match target with
  | [] => Crash BadPointer
  | needle :: target =>
      if needle =? 0 then Done (Some 0)
      else
        let* target_len := strlen16 target in
        strstr16_loop src target needle (Z.to_nat target_len) 0
  end.

(** [s1], [s2] start at the given positions and may go on behind them. *)
Fixpoint strzcmp16_loop (s1 s2 : list Z) (n1 n2 : nat) : outcome (Z + list Z * list Z) :=
  match n1, n2 with
  | S n1, S n2 =>
      match s1, s2 with
      | c1 :: s1, c2 :: s2 =>
          let d := c1 - c2 in
          if negb (d =? 0) then Done (inl d) else strzcmp16_loop s1 s2 n1 n2
      | _, _ => Crash BadPointer
      end
  | _, _ => Done (inr (s1, s2))
  end.

Definition strzcmp16 (s1 : list Z) (n1 : nat) (s2 : list Z) (n2 : nat) : outcome Z :=
  let* r := strzcmp16_loop s1 s2 n1 n2 in
  match r with
  | inl d => Done d
  | inr (s1, s2) =>
      if (n1 <? n2)%nat then let* c := unit_at s2 0 in Done (0 - c)
      else if (n2 <? n1)%nat then let* c := unit_at s1 0 in Done (c - 0)
      else Done 0
  end.

(** The test for a surrogate pair at the head of the string. *)
Definition is_pair (c : Z) (rest : list Z) : bool :=
  (Z.land c 0xFC00 =? 0xD800) && match rest with d :: _ => Z.land d 0xFC00 =? 0xDC00 | [] => false end.

Definition pair_codepoint (c d : Z) : Z :=
  u32 (Z.lor (Z.shiftl (c - 0xD800) 10) (d - 0xDC00) + 0x10000).

Fixpoint utf16_to_utf8_loop (fuel : nat) (src : list Z) (dst_len : Z) : outcome (list Z) :=
  match fuel with
  | O => Crash OutOfFuel
  | S fuel =>
      match src with
      | [] => if dst_len <? 1 then Crash AssertFailed else Done [0]
      | c :: rest =>
          let '(utf32, src) :=
            if is_pair c rest then
              match rest with
              | d :: rest => (pair_codepoint c d, rest)
              | [] => (c, rest)
              end
            else (c, rest) in
          let len := utf32_codepoint_utf8_length utf32 in
          if dst_len <? len then Crash AssertFailed
          else
            let* out := utf16_to_utf8_loop fuel src (dst_len - len) in
            Done (utf32_codepoint_to_utf8 utf32 len ++ out)
      end
  end.

Definition utf16_to_utf8 (src : list Z) (dst_len : Z) : outcome (list Z) :=
  match src with [] => Done [] | _ => utf16_to_utf8_loop (S (length src)) src dst_len end.

(** * UTF-8 *)

Fixpoint utf16_length_loop (fuel : nat) (src : list Z) (ret : Z) : outcome Z :=
  match fuel with
  | O => Crash OutOfFuel
  | S fuel =>
      match src with
      | [] => Done ret
      | c :: rest =>
          let '(char_len, src) :=
            if is_pair c rest then (4, tail rest)
            else (utf32_codepoint_utf8_length c, rest) in
          if SSIZE_MAX - char_len <? ret then Done (-1)
          else utf16_length_loop fuel src (ret + char_len)
      end
  end.

Definition utf16_to_utf8_length (src : list Z) : outcome Z :=
  match src with [] => Done (-1) | _ => utf16_length_loop (S (length src)) src 0 end.

Definition utf8_codepoint_len (ch : Z) : Z :=
  Z.land (Z.shiftr 0xe5000000 (Z.land (Z.shiftr ch 3) 0x1e)) 3 + 1.

Definition utf8_shift_and_mask (codePoint byte : Z) : Z :=
  Z.lor (u32 (Z.shiftl codePoint 6)) (Z.land 0x3F byte).

Definition utf8_to_utf32_codepoint (src : list Z) (length : Z) : outcome Z :=
  if length =? 1 then unit_at src 0
  else if length =? 2 then
    let* a := unit_at src 0 in let* b := unit_at src 1 in
    Done (utf8_shift_and_mask (Z.land a 0x1f) b)
  else if length =? 3 then
    let* a := unit_at src 0 in let* b := unit_at src 1 in let* c := unit_at src 2 in
    Done (utf8_shift_and_mask (utf8_shift_and_mask (Z.land a 0x0f) b) c)
  else if length =? 4 then
    let* a := unit_at src 0 in let* b := unit_at src 1 in
    let* c := unit_at src 2 in let* d := unit_at src 3 in
    Done (utf8_shift_and_mask (utf8_shift_and_mask (utf8_shift_and_mask (Z.land a 0x07) b) c) d)
  else Done 0xffff.

(** [u8cur] is the rest of the string. *)
Fixpoint utf8_to_utf16_length_loop (fuel : nat) (u8cur : list Z) (u16measuredLen : Z) (overreadIsFatal : bool)
  : outcome Z :=
  match fuel with
  | O => Crash OutOfFuel
  | S fuel =>
      match u8cur with
      | [] => Done u16measuredLen
      | b :: _ =>
          let u16measuredLen := u16measuredLen + 1 in
          let u8charLen := utf8_codepoint_len b in
          if Z.of_nat (length u8cur) <=? u8charLen - 1 then
            if overreadIsFatal then Crash AssertFailed else Done (-1)
          else
            let* codepoint := utf8_to_utf32_codepoint u8cur u8charLen in
            utf8_to_utf16_length_loop fuel (drop (Z.to_nat u8charLen) u8cur)
              (if 0xFFFF <? codepoint then u16measuredLen + 1 else u16measuredLen) overreadIsFatal
      end
  end.

Definition utf8_to_utf16_length (u8str : list Z) (overreadIsFatal : bool) : outcome Z :=
  utf8_to_utf16_length_loop (S (length u8str)) u8str 0 overreadIsFatal.

(** The units written: the second half of a pair that does not fit is dropped,
    and with it the first one. *)
Fixpoint utf8_to_utf16_loop (fuel : nat) (u8cur : list Z) (room : Z) : outcome (list Z) :=
  match fuel with
  | O => Crash OutOfFuel
  | S fuel =>
      match u8cur with
      | [] => Done []
      | b :: _ =>
          if room <=? 0 then Done []
          else
            let u8len := utf8_codepoint_len b in
            let* codepoint := utf8_to_utf32_codepoint u8cur u8len in
            let next := drop (Z.to_nat u8len) u8cur in
            if codepoint <=? 0xFFFF then
              let* out := utf8_to_utf16_loop fuel next (room - 1) in Done (u16 codepoint :: out)
            else
              let codepoint := codepoint - 0x10000 in
              if room - 1 <=? 0 then Done []
              else
                let* out := utf8_to_utf16_loop fuel next (room - 2) in
                Done (u16 (Z.shiftr codepoint 10 + 0xD800) :: u16 (Z.land codepoint 0x3FF + 0xDC00) :: out)
      end
  end.

Definition utf8_to_utf16_no_null_terminator (src : list Z) (dstLen : Z) : outcome (list Z) :=
  if dstLen =? 0 then Done []
  else if SSIZE_MAX <? dstLen then Crash AssertFailed
  else utf8_to_utf16_loop (S (length src)) src dstLen.

Definition utf8_to_utf16 (u8str : list Z) (u16len : Z) : outcome (list Z) :=
  if (u16len =? 0) || (SSIZE_MAX <? u16len) then Crash AssertFailed
  else let* out := utf8_to_utf16_no_null_terminator u8str (u16len - 1) in Done (out ++ [0]).

(** * Code points and their bytes *)

Definition valid_cp (c : Z) : Prop :=
  0 <= c <= kUnicodeMaxCodepoint /\ ~ (kUnicodeSurrogateStart <= c <= kUnicodeSurrogateEnd).

(** The UTF-8 encoding, by digits of base 64. *)
Definition utf8_bytes (c : Z) : list Z :=
  if c <? 0x80 then [c]
  else if c <? 0x800 then [0xC0 + c / 64; 0x80 + c mod 64]
  else if c <? 0x10000 then [0xE0 + c / 4096; 0x80 + c / 64 mod 64; 0x80 + c mod 64]
  else [0xF0 + c / 262144; 0x80 + c / 4096 mod 64; 0x80 + c / 64 mod 64; 0x80 + c mod 64].

Lemma trail_byte c : 0 <= c -> u8 (Z.land (Z.lor c kByteMark) kByteMask) = 0x80 + c mod 64.
Proof.
  intros Hc. pose proof (Z.mod_pos_bound c 64).
  assert (E : Z.land (Z.lor c kByteMark) kByteMask = 0x80 + c mod 64).
  { unfold kByteMark, kByteMask. rewrite Z.land_lor_distr_l. change (Z.land 0x80 0xBF) with 0x80.
    change 0xBF with (Z.lor 63 0x80). rewrite Z.land_lor_distr_r, <- Z.lor_assoc.
    assert (Z.lor (Z.land c 0x80) 0x80 = 0x80) as ->.
    { apply Z.bits_inj'. intros i Hi. rewrite Z.lor_spec, Z.land_spec. by destruct (Z.testbit c i), (Z.testbit 0x80 i). }
    rewrite Z.lor_comm. change 0x80 with (2 * 2 ^ 6). change 63 with (Z.ones 6).
    rewrite Z.land_ones by lia. apply lor_high_low; [lia|]. apply Z.mod_pos_bound. lia. }
  rewrite E. apply u8_small. unfold is_u8. lia.
Qed.

Lemma first_byte c k n mark :
  0 <= c < 2 ^ k -> 0 <= k -> mark = n * 2 ^ k -> mark + 2 ^ k <= 256 -> 0 <= mark ->
  u8 (Z.lor c mark) = mark + c.
Proof.
  intros Hc Hk -> Hm Hn. rewrite Z.lor_comm, lor_high_low by lia. apply u8_small. unfold is_u8. lia.
Qed.

(** Ranges of the digits of a code point. *)
Ltac cp_side :=
  first [done | lia | split; [first [lia | apply Z.div_pos; lia] | apply Z.div_lt_upper_bound; lia]].

(** The writer produces these bytes, and their number is the length. *)
Lemma to_utf8_bytes c :
  valid_cp c -> utf32_codepoint_to_utf8 c (utf32_codepoint_utf8_length c) = utf8_bytes c /\
                utf32_codepoint_utf8_length c = Z.of_nat (length (utf8_bytes c)).
Proof.
  intros [[H0 H1] Hs]. unfold utf32_codepoint_utf8_length, utf8_bytes, kUnicodeMaxCodepoint in *.
  destruct (Z.ltb_spec c 0x80).
  { split; [|done]. unfold utf32_codepoint_to_utf8. simpl. rewrite Z.lor_0_r. rewrite u8_small by (unfold is_u8; lia). done. }
  assert (Hsh : forall x, Z.shiftr x 6 = x / 64) by (intros; by rewrite Z.shiftr_div_pow2).
  assert (D1 : 0 <= c / 64) by (apply Z.div_pos; lia).
  assert (D2 : c / 64 / 64 = c / 4096) by (by rewrite Z.div_div).
  assert (D3 : c / 4096 / 64 = c / 262144) by (by rewrite Z.div_div).
  assert (D4 : 0 <= c / 4096) by (apply Z.div_pos; lia).
  destruct (Z.ltb_spec c 0x800).
  { split; [|done]. unfold utf32_codepoint_to_utf8. simpl. rewrite Hsh, trail_byte by lia.
    rewrite (first_byte (c / 64) 5 6) by cp_side. done. }
  destruct (Z.ltb_spec c 0x10000).
  { unfold kUnicodeSurrogateStart, kUnicodeSurrogateEnd in *.
    assert ((c <? 0xD800) || (0xDFFF <? c) = true) as -> by
      (destruct (Z.ltb_spec c 0xD800); [done|]; destruct (Z.ltb_spec 0xDFFF c); [done|lia]).
    split; [|done]. unfold utf32_codepoint_to_utf8. simpl. rewrite !Hsh, !trail_byte, D2 by lia.
    rewrite (first_byte (c / 4096) 4 14) by cp_side. done. }
  destruct (Z.leb_spec c 0x10FFFF); [|lia]. split; [|done].
  unfold utf32_codepoint_to_utf8. simpl. rewrite !Hsh, !trail_byte, ?D2, ?D3 by (rewrite ?D2; lia).
  rewrite (first_byte (c / 262144) 3 30) by cp_side. done.
Qed.

(** A surrogate or a number beyond the last code point produces nothing. *)
Lemma invalid_cp_empty c :
  0 <= c -> ~ valid_cp c -> utf32_codepoint_utf8_length c = 0 /\
                            utf32_codepoint_to_utf8 c (utf32_codepoint_utf8_length c) = [].
Proof.
  intros H0 Hn. assert (utf32_codepoint_utf8_length c = 0) as E; [|by rewrite E].
  unfold valid_cp, utf32_codepoint_utf8_length, kUnicodeMaxCodepoint, kUnicodeSurrogateStart, kUnicodeSurrogateEnd in *.
  repeat match goal with
  | |- context [?a <? ?b] => destruct (Z.ltb_spec a b)
  | |- context [?a <=? ?b] => destruct (Z.leb_spec a b)
  end; simpl; try done; lia.
Qed.

(** * Decoding *)

Lemma codepoint_len_table :
  forall b, 0 <= b < 256 -> utf8_codepoint_len b =
    if b <? 0xC0 then 1 else if b <? 0xE0 then 2 else if b <? 0xF0 then 3 else 4.
Proof.
  intros b Hb. apply Z.eqb_eq.
  apply (forall_range (fun b => utf8_codepoint_len b =?
    if b <? 0xC0 then 1 else if b <? 0xE0 then 2 else if b <? 0xF0 then 3 else 4) 256); [|done].
  vm_compute. reflexivity.
Qed.

Lemma shift_and_mask_digit x r :
  0 <= x < 2 ^ 26 -> 0 <= r < 64 -> utf8_shift_and_mask x (0x80 + r) = x * 64 + r.
Proof.
  intros Hx Hr. unfold utf8_shift_and_mask.
  assert (Z.land 0x3F (0x80 + r) = r) as ->.
  { apply Z.eqb_eq. apply (forall_range (fun r => Z.land 0x3F (0x80 + r) =? r) 64); [|done]. vm_compute. reflexivity. }
  rewrite Z.shiftl_mul_pow2, u32_small by (try (unfold is_u32); lia). apply (lor_high_low 6); lia.
Qed.

Lemma land_digit k mark n d :
  0 <= d < 2 ^ k -> 0 <= k -> mark = n * 2 ^ k -> Z.land (mark + d) (Z.ones k) = d.
Proof.
  intros Hd Hk ->. rewrite Z.land_ones by done. rewrite Z.add_comm, Z.mod_add by lia. by apply Z.mod_small.
Qed.

Lemma digits_64 c :
  c = c / 64 * 64 + c mod 64 /\ c / 64 = c / 4096 * 64 + c / 64 mod 64 /\
  c / 4096 = c / 262144 * 64 + c / 4096 mod 64.
Proof.
  pose proof (Z.div_mod c 64). pose proof (Z.div_mod (c / 64) 64) as H2. pose proof (Z.div_mod (c / 4096) 64) as H3.
  rewrite Z.div_div in H2, H3 by lia. change (64 * 64) with 4096 in H2. change (4096 * 64) with 262144 in H3. lia.
Qed.

(** The table-driven decoder inverts the encoding. *)
Lemma decode_utf8_bytes c rest :
  valid_cp c ->
  exists b, head (utf8_bytes c) = Some b /\
    utf8_codepoint_len b = Z.of_nat (length (utf8_bytes c)) /\
    utf8_to_utf32_codepoint (utf8_bytes c ++ rest) (utf8_codepoint_len b) = Done c.
Proof.
  intros [[H0 H1] _]. unfold utf8_bytes, kUnicodeMaxCodepoint in *.
  pose proof (Z.mod_pos_bound c 64). pose proof (Z.mod_pos_bound (c / 64) 64).
  pose proof (Z.mod_pos_bound (c / 4096) 64).
  assert (D1 : 0 <= c / 64) by (apply Z.div_pos; lia). assert (D2 : 0 <= c / 4096) by (apply Z.div_pos; lia).
  assert (D3 : 0 <= c / 262144) by (apply Z.div_pos; lia).
  destruct (digits_64 c) as (E1 & E2 & E3).
  destruct (Z.ltb_spec c 0x80).
  { exists c. rewrite codepoint_len_table by lia. destruct (Z.ltb_spec c 0xC0); [|lia]. done. }
  destruct (Z.ltb_spec c 0x800).
  { assert (c / 64 < 32) by (apply Z.div_lt_upper_bound; lia).
    eexists. split; [reflexivity|]. rewrite codepoint_len_table by lia.
    destruct (Z.ltb_spec (0xC0 + c / 64) 0xC0); [lia|]. destruct (Z.ltb_spec (0xC0 + c / 64) 0xE0); [|lia].
    split; [done|]. unfold utf8_to_utf32_codepoint. simpl. change 31 with (Z.ones 5).
    rewrite (land_digit 5 0xC0 6) by (done || lia). rewrite shift_and_mask_digit by lia. f_equal. lia. }
  destruct (Z.ltb_spec c 0x10000).
  { assert (c / 4096 < 16) by (apply Z.div_lt_upper_bound; lia).
    eexists. split; [reflexivity|]. rewrite codepoint_len_table by lia.
    destruct (Z.ltb_spec (0xE0 + c / 4096) 0xC0); [lia|]. destruct (Z.ltb_spec (0xE0 + c / 4096) 0xE0); [lia|].
    destruct (Z.ltb_spec (0xE0 + c / 4096) 0xF0); [|lia].
    split; [done|]. unfold utf8_to_utf32_codepoint. simpl. change 15 with (Z.ones 4).
    rewrite (land_digit 4 0xE0 14) by (done || lia).
    rewrite (shift_and_mask_digit (c / 4096)), <- E2, shift_and_mask_digit, <- E1 by lia. done. }
  assert (c / 262144 < 8) by (apply Z.div_lt_upper_bound; lia).
  eexists. split; [reflexivity|]. rewrite codepoint_len_table by lia.
  destruct (Z.ltb_spec (0xF0 + c / 262144) 0xC0); [lia|]. destruct (Z.ltb_spec (0xF0 + c / 262144) 0xE0); [lia|].
  destruct (Z.ltb_spec (0xF0 + c / 262144) 0xF0); [lia|].
  split; [done|]. unfold utf8_to_utf32_codepoint. simpl. change 7 with (Z.ones 3).
  rewrite (land_digit 3 0xF0 30) by (done || lia).
  rewrite (shift_and_mask_digit (c / 262144)), <- E3, (shift_and_mask_digit (c / 4096)), <- E2,
    shift_and_mask_digit, <- E1 by lia. done.
Qed.

(** One trailing byte of the bit-by-bit decoder. *)
Definition trail_step (x b : Z) : Z := u32 (u32 (Z.shiftl x 6) + Z.land b 0x3F).

Lemma trail_step_digit x y r :
  x mod 2 ^ 32 = y mod 2 ^ 32 -> 0 <= r < 64 -> trail_step x (0x80 + r) mod 2 ^ 32 = (y * 64 + r) mod 2 ^ 32.
Proof.
  intros Hx Hr. unfold trail_step, u32. change 0x3F with (Z.ones 6).
  rewrite (land_digit 6 0x80 2) by (done || lia). rewrite Z.shiftl_mul_pow2 by lia. change (2 ^ 6) with 64.
  rewrite Z.mod_mod, Z.add_mod_idemp_l by lia.
  rewrite (Z.add_mod (x * 64)), (Z.mul_mod x), Hx, <- Z.mul_mod, <- Z.add_mod by lia. done.
Qed.

(** The bits of a first byte that announces [n] trailing bytes. *)
Definition announces (n : nat) (b : Z) : bool :=
  forallb (fun i => negb (Z.land b (Z.shiftr 0x40 (Z.of_nat i)) =? 0)) (seq 0 n) &&
  (Z.land b (Z.shiftr 0x40 (Z.of_nat n)) =? 0) && negb (Z.land b 0x80 =? 0).

Lemma announces_1 d : 0 <= d < 32 -> announces 1 (0xC0 + d) = true.
Proof. apply (forall_range (fun d => announces 1 (0xC0 + d))). vm_compute. reflexivity. Qed.
Lemma announces_2 d : 0 <= d < 16 -> announces 2 (0xE0 + d) = true.
Proof. apply (forall_range (fun d => announces 2 (0xE0 + d))). vm_compute. reflexivity. Qed.
Lemma announces_3 d : 0 <= d < 8 -> announces 3 (0xF0 + d) = true.
Proof. apply (forall_range (fun d => announces 3 (0xF0 + d))). vm_compute. reflexivity. Qed.

Lemma at_loop_step fuel b c cur x n mask ign :
  (Z.land b mask =? 0) = false ->
  utf32_at_loop (S fuel) b (c :: cur) x n mask ign =
  utf32_at_loop fuel b cur (trail_step x c) (n + 1) (Z.shiftr mask 1) (Z.lor ign mask).
Proof. intros H. cbn [utf32_at_loop]. by rewrite H. Qed.

Lemma at_loop_stop fuel b cur x n mask ign :
  (Z.land b mask =? 0) = true -> utf32_at_loop (S fuel) b cur x n mask ign = Done (x, n, mask, ign).
Proof. intros H. cbn [utf32_at_loop]. by rewrite H. Qed.

Ltac read_first_byte :=
  match goal with H : announces _ _ = true |- _ =>
    unfold announces in H; cbn [forallb seq] in H;
    rewrite !andb_true_iff, ?negb_true_iff in H; destruct_and! H
  end;
  cbn [utf32_at_internal];
  match goal with H : (Z.land _ 0x80 =? 0) = false |- _ => rewrite H end;
  repeat (rewrite at_loop_step by done); rewrite at_loop_stop by done; reflexivity.

(** What is left of the bits that were read: 11, 16 or 21. *)
Lemma at_internal_1 b b1 rest :
  announces 1 b = true ->
  utf32_at_internal (b :: b1 :: rest) = Done (s32 (Z.land (trail_step (sign_extend8 b) b1) (Z.ones 11)), 2).
Proof. intros. read_first_byte. Qed.
Lemma at_internal_2 b b1 b2 rest :
  announces 2 b = true ->
  utf32_at_internal (b :: b1 :: b2 :: rest) =
  Done (s32 (Z.land (trail_step (trail_step (sign_extend8 b) b1) b2) (Z.ones 16)), 3).
Proof. intros. read_first_byte. Qed.
Lemma at_internal_3 b b1 b2 b3 rest :
  announces 3 b = true ->
  utf32_at_internal (b :: b1 :: b2 :: b3 :: rest) =
  Done (s32 (Z.land (trail_step (trail_step (trail_step (sign_extend8 b) b1) b2) b3) (Z.ones 21)), 4).
Proof. intros. read_first_byte. Qed.

Lemma keep_bits k m x y c :
  x mod 2 ^ 32 = y mod 2 ^ 32 -> 0 <= k <= 31 -> y = c + m * 2 ^ k -> 0 <= c < 2 ^ k ->
  s32 (Z.land x (Z.ones k)) = c.
Proof.
  intros Hx Hk Hy Hc. assert (Hp : 2 ^ 32 = 2 ^ (32 - k) * 2 ^ k) by (rewrite <- Z.pow_add_r by lia; f_equal; lia).
  assert (Hm : forall z, (z mod 2 ^ 32) mod 2 ^ k = z mod 2 ^ k).
  { intros z. rewrite Hp, Z.mul_comm, Z.rem_mul_r by lia. rewrite Z.mul_comm, Z.mod_add, Z.mod_mod by lia. done. }
  rewrite Z.land_ones, <- Hm, Hx, Hm, Hy, Z.mod_add, Z.mod_small by lia.
  apply s32_small. pose proof (Z.pow_le_mono_r 2 k 31). lia.
Qed.

Lemma sign_extend8_mod b : 0x80 <= b < 256 -> sign_extend8 b mod 2 ^ 32 = (b - 256) mod 2 ^ 32.
Proof.
  intros Hb. unfold sign_extend8, u32. destruct (Z.ltb_spec b 0x80); [lia|]. by rewrite Z.mod_mod.
Qed.

(** So does the bit-by-bit decoder. *)
Lemma at_internal_utf8_bytes c rest :
  valid_cp c -> utf32_at_internal (utf8_bytes c ++ rest) = Done (c, Z.of_nat (length (utf8_bytes c))).
Proof.
  intros [[H0 H1] _]. unfold utf8_bytes, kUnicodeMaxCodepoint in *.
  pose proof (Z.mod_pos_bound c 64). pose proof (Z.mod_pos_bound (c / 64) 64).
  pose proof (Z.mod_pos_bound (c / 4096) 64).
  assert (D1 : 0 <= c / 64) by (apply Z.div_pos; lia). assert (D2 : 0 <= c / 4096) by (apply Z.div_pos; lia).
  assert (D3 : 0 <= c / 262144) by (apply Z.div_pos; lia).
  destruct (Z.ltb_spec c 0x80).
  { simpl. assert ((Z.land c 128 =? 0) = true) as ->; [|done].
    apply (forall_range (fun c => Z.land c 128 =? 0) 128); [vm_compute; reflexivity|lia]. }
  destruct (digits_64 c) as (E1 & E2 & E3).
  destruct (Z.ltb_spec c 0x800).
  { assert (c / 64 < 32) by (apply Z.div_lt_upper_bound; lia).
    cbn [app length]. rewrite at_internal_1 by (apply announces_1; lia). do 2 f_equal.
    eapply (keep_bits 11 (-2)); [apply trail_step_digit; [apply sign_extend8_mod|]| | |]; lia. }
  destruct (Z.ltb_spec c 0x10000).
  { assert (c / 4096 < 16) by (apply Z.div_lt_upper_bound; lia).
    cbn [app length]. rewrite at_internal_2 by (apply announces_2; lia). do 2 f_equal.
    eapply (keep_bits 16 (-2)); [do 2 (apply trail_step_digit; [|lia]); apply sign_extend8_mod| | |]; lia. }
  assert (c / 262144 < 8) by (apply Z.div_lt_upper_bound; lia).
  cbn [app length]. rewrite at_internal_3 by (apply announces_3; lia). do 2 f_equal.
  eapply (keep_bits 21 (-2)); [do 3 (apply trail_step_digit; [|lia]); apply sign_extend8_mod| | |]; lia.
Qed.

(** * Strings *)

Global Instance valid_cp_dec c : Decision (valid_cp c).
Proof. unfold valid_cp. apply _. Defined.

(** What the writers produce for a string of 32-bit units: the bytes of its
    code points, nothing for the units that are none. *)
Definition utf8_of (c : Z) : list Z := if decide (valid_cp c) then utf8_bytes c else [].
Definition utf8_string (s : list Z) : list Z := s ≫= utf8_of.
Definition bytes_in (s : list Z) : Z := Z.of_nat (length (utf8_string s)).

Lemma cp_bytes c :
  0 <= c -> utf32_codepoint_to_utf8 c (utf32_codepoint_utf8_length c) = utf8_of c /\
            utf32_codepoint_utf8_length c = Z.of_nat (length (utf8_of c)).
Proof.
  intros Hc. unfold utf8_of. case_decide as Hv; [by apply to_utf8_bytes|].
  destruct (invalid_cp_empty c Hc Hv) as [E1 E2]. by rewrite E2, E1.
Qed.

Lemma bytes_in_cons c s : bytes_in (c :: s) = Z.of_nat (length (utf8_of c)) + bytes_in s.
Proof. unfold bytes_in, utf8_string. rewrite bind_cons, length_app. lia. Qed.

Lemma utf8_of_length c : Z.of_nat (length (utf8_of c)) <= 4.
Proof. unfold utf8_of, utf8_bytes. repeat case_match; simpl; lia. Qed.

Lemma utf8_bytes_valid c : valid_cp c -> utf8_of c = utf8_bytes c.
Proof. intros. unfold utf8_of. by rewrite decide_True. Qed.

Lemma utf8_string_cons c s : utf8_string (c :: s) = utf8_of c ++ utf8_string s.
Proof. reflexivity. Qed.

(** One character put in front of what the rest of the string yields. *)
Lemma emit_one c s dst_len (rest : Z -> outcome (list Z)) :
  0 <= c ->
  (forall n, rest n = if bytes_in s <? n then Done (utf8_string s ++ [0]) else Crash AssertFailed) ->
  (if dst_len <? utf32_codepoint_utf8_length c then Crash AssertFailed
   else let* out := rest (dst_len - utf32_codepoint_utf8_length c) in
        Done (utf32_codepoint_to_utf8 c (utf32_codepoint_utf8_length c) ++ out)) =
  if bytes_in (c :: s) <? dst_len then Done (utf8_string (c :: s) ++ [0]) else Crash AssertFailed.
Proof.
  intros Hc Hr. destruct (cp_bytes c Hc) as [E1 E2]. rewrite E1, E2, Hr, bytes_in_cons.
  pose proof (Zle_0_nat (length (utf8_string s))).
  destruct (Z.ltb_spec dst_len (Z.of_nat (length (utf8_of c)))).
  { destruct (Z.ltb_spec (Z.of_nat (length (utf8_of c)) + bytes_in s) dst_len); [unfold bytes_in in *; lia|done]. }
  destruct (Z.ltb_spec (bytes_in s) (dst_len - Z.of_nat (length (utf8_of c))));
    destruct (Z.ltb_spec (Z.of_nat (length (utf8_of c)) + bytes_in s) dst_len); try lia; [|done].
  cbn [obind]. by rewrite utf8_string_cons, <- app_assoc.
Qed.

Lemma utf32_to_utf8_loop_spec src dst_len :
  Forall is_u32 src ->
  utf32_to_utf8_loop src dst_len =
  if bytes_in src <? dst_len then Done (utf8_string src ++ [0]) else Crash AssertFailed.
Proof.
  intros H. revert dst_len. induction H as [|c src Hc Hs IH]; intros dst_len; cbn [utf32_to_utf8_loop].
  - change (bytes_in []) with 0. destruct (Z.ltb_spec dst_len 1), (Z.ltb_spec 0 dst_len); lia || done.
  - apply emit_one; [unfold is_u32 in Hc; lia|done].
Qed.

Definition length_result (n : Z) : Z := if n <=? SSIZE_MAX then n else -1.

Lemma utf32_length_loop_spec src r :
  Forall is_u32 src -> 0 <= r <= SSIZE_MAX -> utf32_length_loop src r = length_result (r + bytes_in src).
Proof.
  intros H. revert r. induction H as [|c src Hc Hs IH]; intros r Hr; cbn [utf32_length_loop].
  - change (bytes_in []) with 0. unfold length_result. rewrite Z.add_0_r. destruct (Z.leb_spec r SSIZE_MAX); [done|lia].
  - destruct (cp_bytes c) as [_ ->]; [unfold is_u32 in Hc; lia|]. pose proof (utf8_of_length c).
    rewrite bytes_in_cons, Z.add_assoc. destruct (Z.ltb_spec (SSIZE_MAX - Z.of_nat (length (utf8_of c))) r).
    + unfold length_result, bytes_in. case_match; [lia|done].
    + rewrite IH by lia. done.
Qed.

(** ** UTF-16 as code points *)

Definition utf16_units (c : Z) : list Z :=
  if c <=? 0xFFFF then [c] else [0xD800 + (c - 0x10000) / 1024; 0xDC00 + (c - 0x10000) mod 1024].

(** Pairs are joined, everything else stands for itself. *)
Fixpoint utf16_cps (s : list Z) : list Z :=
  match s with
  | [] => []
  | c :: rest =>
      if is_pair c rest then
        match rest with d :: rest => pair_codepoint c d :: utf16_cps rest | [] => [c] end
      else c :: utf16_cps rest
  end.

Lemma surrogate_bits c : is_u16 c -> Z.land c 0xFC00 = c / 1024 * 1024.
Proof.
  unfold is_u16. intros Hc. change 0xFC00 with (Z.shiftl (Z.ones 6) 10).
  rewrite land_shiftl, Z.land_ones, Z.shiftl_mul_pow2, Z.shiftr_div_pow2 by lia. rewrite Z.mod_small; [done|].
  split; [apply Z.div_pos; lia|apply Z.div_lt_upper_bound; lia].
Qed.

Lemma high_surrogate c : is_u16 c -> Z.land c 0xFC00 = 0xD800 <-> 0xD800 <= c < 0xDC00.
Proof. intros Hc. rewrite surrogate_bits by done. pose proof (Z.div_mod c 1024). pose proof (Z.mod_pos_bound c 1024). lia. Qed.
Lemma low_surrogate c : is_u16 c -> Z.land c 0xFC00 = 0xDC00 <-> 0xDC00 <= c < 0xE000.
Proof. intros Hc. rewrite surrogate_bits by done. pose proof (Z.div_mod c 1024). pose proof (Z.mod_pos_bound c 1024). lia. Qed.

Lemma pair_codepoint_value c d :
  0xD800 <= c < 0xDC00 -> 0xDC00 <= d < 0xE000 ->
  pair_codepoint c d = (c - 0xD800) * 1024 + (d - 0xDC00) + 0x10000.
Proof.
  intros Hc Hd. unfold pair_codepoint. rewrite Z.shiftl_mul_pow2, (lor_high_low 10) by lia.
  apply u32_small. unfold is_u32. lia.
Qed.

(** A pair, its code point and the units of that code point. *)
Lemma is_pair_spec c rest :
  is_u16 c -> Forall is_u16 rest -> is_pair c rest = true ->
  exists d rest', rest = d :: rest' /\ valid_cp (pair_codepoint c d) /\ 0x10000 <= pair_codepoint c d /\
    utf16_units (pair_codepoint c d) = [c; d].
Proof.
  intros Hc Hr H. unfold is_pair in H. destruct rest as [|d rest']; [by rewrite andb_false_r in H|].
  apply Forall_cons in Hr as [Hd _]. rewrite andb_true_iff, !Z.eqb_eq, high_surrogate, low_surrogate in H by done.
  exists d, rest'. rewrite pair_codepoint_value by lia. split; [done|].
  split; [unfold valid_cp, kUnicodeMaxCodepoint, kUnicodeSurrogateStart, kUnicodeSurrogateEnd; lia|].
  split; [lia|]. unfold utf16_units. case_match; [lia|].
  replace ((c - 0xD800) * 1024 + (d - 0xDC00) + 0x10000 - 0x10000) with ((d - 0xDC00) + (c - 0xD800) * 1024) by lia.
  rewrite Z.div_add, Z.mod_add, Z.div_small, Z.mod_small by lia. f_equal; [|f_equal]; lia.
Qed.

Lemma pair_not_last c rest : is_pair c rest = true -> rest <> [].
Proof. unfold is_pair. destruct rest; [by rewrite andb_false_r|done]. Qed.

Lemma utf16_cps_nonneg src : Forall is_u16 src -> Forall is_u32 (utf16_cps src).
Proof.
  remember (length src) as n eqn:Hn. assert (Hle : (length src <= n)%nat) by lia. clear Hn. revert src Hle.
  induction n as [|n IH]; intros [|c src] Hle H; try (constructor || (simpl in Hle; lia)).
  apply Forall_cons in H as [Hc Hr]. simpl in Hle. cbn [utf16_cps].
  assert (is_u32 c) by (unfold is_u16, is_u32 in *; lia).
  destruct (is_pair c src) eqn:Hp; [|constructor; [done|apply IH; [lia|done]]].
  destruct (is_pair_spec c src Hc Hr Hp) as (d & rest & -> & [[]] & _).
  apply Forall_cons in Hr as [Hd Hr]. simpl in Hle. constructor; [|apply IH; [lia|done]].
  unfold is_u32, kUnicodeMaxCodepoint in *. lia.
Qed.

Lemma utf16_to_utf8_loop_spec fuel src dst_len :
  Forall is_u16 src -> (length src < fuel)%nat ->
  utf16_to_utf8_loop fuel src dst_len =
  if bytes_in (utf16_cps src) <? dst_len then Done (utf8_string (utf16_cps src) ++ [0]) else Crash AssertFailed.
Proof.
  revert src dst_len. induction fuel as [|fuel IH]; intros src dst_len H Hf; [lia|].
  destruct src as [|c rest]; cbn [utf16_to_utf8_loop utf16_cps].
  { change (bytes_in []) with 0. destruct (Z.ltb_spec dst_len 1), (Z.ltb_spec 0 dst_len); lia || done. }
  apply Forall_cons in H as [Hc Hr]. simpl in Hf.
  destruct (is_pair c rest) eqn:Hp.
  - destruct (is_pair_spec c rest Hc Hr Hp) as (d & rest' & -> & _ & Hge & _).
    apply Forall_cons in Hr as [Hd Hr]. simpl in Hf. apply emit_one; [lia|]. intros n. apply IH; [done|lia].
  - apply emit_one; [unfold is_u16 in Hc; lia|]. intros n. apply IH; [done|lia].
Qed.

Lemma utf16_length_loop_spec fuel src r :
  Forall is_u16 src -> (length src < fuel)%nat -> 0 <= r <= SSIZE_MAX ->
  utf16_length_loop fuel src r = Done (length_result (r + bytes_in (utf16_cps src))).
Proof.
  revert src r. induction fuel as [|fuel IH]; intros src r H Hf Hr0; [lia|].
  destruct src as [|c rest]; cbn [utf16_length_loop utf16_cps].
  { change (bytes_in []) with 0. unfold length_result. rewrite Z.add_0_r. case_match; [done|lia]. }
  apply Forall_cons in H as [Hc Hr]. simpl in Hf.
  assert (Hstep : forall u s (k : Z -> outcome Z), 0 <= u ->
    (forall r', 0 <= r' <= SSIZE_MAX -> k r' = Done (length_result (r' + bytes_in s))) ->
    (if SSIZE_MAX - utf32_codepoint_utf8_length u <? r then Done (-1) else k (r + utf32_codepoint_utf8_length u)) =
    Done (length_result (r + bytes_in (u :: s)))).
  { intros u s k Hu Hk. destruct (cp_bytes u Hu) as [_ ->]. pose proof (utf8_of_length u). rewrite bytes_in_cons, Z.add_assoc.
    destruct (Z.ltb_spec (SSIZE_MAX - Z.of_nat (length (utf8_of u))) r); [|apply Hk; lia].
    unfold length_result, bytes_in.
    destruct (Z.leb_spec (r + Z.of_nat (length (utf8_of u)) + Z.of_nat (length (utf8_string s))) SSIZE_MAX); [lia|done]. }
  destruct (is_pair c rest) eqn:Hp.
  - destruct (is_pair_spec c rest Hc Hr Hp) as (d & rest' & -> & Hv & Hge & _).
    apply Forall_cons in Hr as [Hd Hr]. simpl in Hf. cbn [tail].
    assert (4 = utf32_codepoint_utf8_length (pair_codepoint c d)) as ->.
    { destruct (to_utf8_bytes _ Hv) as [_ ->]. unfold utf8_bytes. repeat (case_match; [lia|]). done. }
    apply Hstep; [lia|]. intros. apply IH; [done|lia|done].
  - apply Hstep; [unfold is_u16 in Hc; lia|]. intros. apply IH; [done|lia|done].
Qed.

(** ** UTF-8 to UTF-16 *)

Definition utf16_string (s : list Z) : list Z := s ≫= utf16_units.

Lemma utf8_string_valid_cons c s :
  valid_cp c -> utf8_string (c :: s) = utf8_bytes c ++ utf8_string s.
Proof. intros. by rewrite utf8_string_cons, utf8_bytes_valid. Qed.

Lemma utf8_bytes_positive c : (0 < length (utf8_bytes c))%nat.
Proof. unfold utf8_bytes. repeat case_match; simpl; lia. Qed.

(** Reading the first character of a string of valid code points. *)
Lemma first_char c s :
  valid_cp c ->
  exists b tl, utf8_string (c :: s) = b :: tl /\
    utf8_codepoint_len b = Z.of_nat (length (utf8_bytes c)) /\
    utf8_to_utf32_codepoint (b :: tl) (utf8_codepoint_len b) = Done c /\
    drop (Z.to_nat (utf8_codepoint_len b)) (b :: tl) = utf8_string s.
Proof.
  intros Hv. destruct (decode_utf8_bytes c (utf8_string s) Hv) as (b & Hb & Hl & Hd).
  rewrite utf8_string_valid_cons by done. destruct (utf8_bytes c) as [|b' bs] eqn:Hbs; [done|].
  simpl in Hb. injection Hb as ->. exists b, (bs ++ utf8_string s). repeat split; [done|done|].
  rewrite Hl, Nat2Z.id. apply (drop_app_length (b :: bs)).
Qed.

Lemma utf16_units_length c :
  length (utf16_units c) = if 0xFFFF <? c then 2%nat else 1%nat.
Proof. unfold utf16_units. destruct (Z.leb_spec c 0xFFFF), (Z.ltb_spec 0xFFFF c); done || lia. Qed.

Lemma utf16_string_length_cons c s :
  Z.of_nat (length (utf16_string (c :: s))) =
  (if 0xFFFF <? c then 2 else 1) + Z.of_nat (length (utf16_string s)).
Proof.
  unfold utf16_string. rewrite bind_cons, length_app, utf16_units_length. case_match; lia.
Qed.

Lemma utf8_to_utf16_length_loop_spec fuel s r fatal :
  Forall valid_cp s -> (length (utf8_string s) < fuel)%nat ->
  utf8_to_utf16_length_loop fuel (utf8_string s) r fatal = Done (r + Z.of_nat (length (utf16_string s))).
Proof.
  revert s r. induction fuel as [|fuel IH]; intros s r H Hf; [lia|].
  destruct s as [|c s]; [simpl; f_equal; lia|]. apply Forall_cons in H as [Hv Hs].
  pose proof (utf8_bytes_positive c) as Hpos.
  assert (Hlen : length (utf8_string (c :: s)) = (length (utf8_bytes c) + length (utf8_string s))%nat)
    by (by rewrite utf8_string_valid_cons, length_app).
  destruct (first_char c s Hv) as (b & tl & Hb & Hl & Hd & Hn). rewrite utf16_string_length_cons.
  rewrite Hb in *. cbn [utf8_to_utf16_length_loop]. rewrite Hd, Hn.
  destruct (Z.leb_spec (Z.of_nat (length (b :: tl))) (utf8_codepoint_len b - 1)); [lia|]. cbn [obind].
  rewrite IH by (done || lia). f_equal. destruct (0xFFFF <? c); lia.
Qed.

Lemma utf16_pair_units c :
  valid_cp c -> 0xFFFF < c ->
  [u16 (Z.shiftr (c - 0x10000) 10 + 0xD800); u16 (Z.land (c - 0x10000) 0x3FF + 0xDC00)] = utf16_units c.
Proof.
  intros [[_ H1] _] H2. unfold kUnicodeMaxCodepoint in H1. unfold utf16_units.
  destruct (Z.leb_spec c 0xFFFF); [lia|]. rewrite Z.shiftr_div_pow2 by lia. change 0x3FF with (Z.ones 10).
  rewrite Z.land_ones by lia. change (2 ^ 10) with 1024.
  pose proof (Z.mod_pos_bound (c - 0x10000) 1024). assert ((c - 0x10000) / 1024 < 1024) by (apply Z.div_lt_upper_bound; lia).
  assert (0 <= (c - 0x10000) / 1024) by (apply Z.div_pos; lia).
  rewrite !u16_small by (unfold is_u16; lia). f_equal; [|f_equal]; lia.
Qed.

Lemma utf8_to_utf16_loop_spec fuel s room :
  Forall valid_cp s -> (length (utf8_string s) < fuel)%nat -> Z.of_nat (length (utf16_string s)) <= room ->
  utf8_to_utf16_loop fuel (utf8_string s) room = Done (utf16_string s).
Proof.
  revert s room. induction fuel as [|fuel IH]; intros s room H Hf Hr; [lia|].
  destruct s as [|c s]; [done|]. apply Forall_cons in H as [Hv Hs].
  pose proof (utf8_bytes_positive c) as Hpos.
  assert (Hlen : length (utf8_string (c :: s)) = (length (utf8_bytes c) + length (utf8_string s))%nat)
    by (by rewrite utf8_string_valid_cons, length_app).
  destruct (first_char c s Hv) as (b & tl & Hb & Hl & Hd & Hn). rewrite utf16_string_length_cons in Hr.
  rewrite Hb in *. cbn [utf8_to_utf16_loop]. rewrite Hd, Hn. cbn [obind].
  destruct (Z.leb_spec room 0); [destruct (0xFFFF <? c); lia|].
  unfold utf16_string. rewrite bind_cons. fold (utf16_string s).
  destruct (Z.leb_spec c 0xFFFF); destruct (Z.ltb_spec 0xFFFF c); try lia.
  - rewrite IH by (done || lia). cbn [obind]. rewrite u16_small by (destruct Hv; unfold is_u16; lia).
    unfold utf16_units. destruct (Z.leb_spec c 0xFFFF); [done|lia].
  - destruct (Z.leb_spec (room - 1) 0); [lia|]. rewrite IH by (done || lia). cbn [obind].
    by rewrite <- utf16_pair_units.
Qed.

(** ** Well-formed UTF-16 *)

Inductive well_formed16 : list Z -> Prop :=
| wf_nil : well_formed16 []
| wf_bmp c s : 0 <= c <= 0xFFFF -> ~ (0xD800 <= c <= 0xDFFF) -> well_formed16 s -> well_formed16 (c :: s)
| wf_pair c d s : 0xD800 <= c < 0xDC00 -> 0xDC00 <= d < 0xE000 -> well_formed16 s -> well_formed16 (c :: d :: s).

Lemma well_formed16_cps s :
  well_formed16 s -> Forall is_u16 s /\ Forall valid_cp (utf16_cps s) /\ utf16_string (utf16_cps s) = s.
Proof.
  intros H. induction H as [|c s Hc Hn _ (I1 & I2 & I3)|c d s Hc Hd _ (I1 & I2 & I3)]; [done| |].
  - assert (is_u16 c) by (unfold is_u16; lia). split; [by constructor|]. cbn [utf16_cps].
    assert (is_pair c s = false) as ->.
    { unfold is_pair. destruct (Z.eqb_spec (Z.land c 0xFC00) 0xD800) as [E|]; [|done].
      apply high_surrogate in E; [lia|done]. }
    split; [constructor; [|done]|].
    + unfold valid_cp, kUnicodeMaxCodepoint, kUnicodeSurrogateStart, kUnicodeSurrogateEnd. lia.
    + unfold utf16_string in *. rewrite bind_cons, I3. unfold utf16_units. destruct (Z.leb_spec c 0xFFFF); [done|lia].
  - assert (is_u16 c) by (unfold is_u16; lia). assert (is_u16 d) by (unfold is_u16; lia).
    split; [do 2 (apply Forall_cons; split; [done|]); done|]. cbn [utf16_cps].
    assert (Hp : is_pair c (d :: s) = true).
    { unfold is_pair. rewrite andb_true_iff, !Z.eqb_eq, high_surrogate, low_surrogate by done. lia. }
    rewrite Hp. destruct (is_pair_spec c (d :: s)) as (d' & s' & [= <- <-] & Hv & _ & Hu); [done|by constructor|done|].
    split; [by constructor|]. unfold utf16_string in *. by rewrite bind_cons, I3, Hu.
Qed.

(** ** Search *)

Lemma strlen16_spec s z : Forall (fun c => c <> 0) s -> strlen16 (s ++ 0 :: z) = Done (Z.of_nat (length s)).
Proof.
  induction 1 as [|c s Hc _ IH]; [done|]. simpl. destruct (Z.eqb_spec c 0); [done|]. rewrite IH. simpl. f_equal. lia.
Qed.

(** Comparing the first [length t] units with [t]. *)
Lemma strncmp16_prefix s t :
  Forall (fun c => c <> 0) s -> Forall (fun c => c <> 0) t ->
  exists d, strncmp16 (s ++ [0]) (t ++ [0]) (length t) = Done d /\ (d = 0 <-> t `prefix_of` s).
Proof.
  intros Hs Ht. revert s Hs. induction Ht as [|c t Hc Ht IH]; intros s Hs.
  { exists 0. split; [by destruct s|]. split; [|done]. intros _. apply prefix_nil. }
  destruct Hs as [|x s Hx Hs]; cbn [app length strncmp16].
  { exists (0 - c). destruct (Z.eqb_spec (0 - c) 0); [lia|]. split; [done|].
    split; [lia|]. intros H. by apply prefix_nil_not in H. }
  destruct (Z.eqb_spec (x - c) 0) as [E|E]; simpl.
  - destruct (Z.eqb_spec x 0); [done|]. destruct (IH s Hs) as (d & Hd & Hiff).
    assert (x = c) as -> by lia. destruct t as [|c' t].
    + exists (c - c). split; [done|]. split; [intros _; apply prefix_cons, prefix_nil|lia].
    + exists d. split; [done|]. rewrite Hiff. split; [apply prefix_cons|apply prefix_cons_inv_2].
  - exists (x - c). split; [done|]. split; [lia|]. intros H. apply prefix_cons_inv_1 in H. lia.
Qed.

(** The least offset at which [t] occurs in [s]. *)
Fixpoint first_occurrence (t s : list Z) : option Z :=
  if decide (t `prefix_of` s) then Some 0
  else match s with [] => None | _ :: s => Z.succ <$> first_occurrence t s end.

Lemma strstr16_loop_spec s c t off :
  Forall (fun c => c <> 0) s -> Forall (fun c => c <> 0) (c :: t) ->
  strstr16_loop (s ++ [0]) (t ++ [0]) c (length t) off = Done ((fun i => off + i) <$> first_occurrence (c :: t) s).
Proof.
  intros Hs Ht. apply Forall_cons in Ht as [Hc Ht]. revert off.
  induction Hs as [|x s Hx Hs IH]; intros off; cbn [app strstr16_loop first_occurrence].
  { rewrite decide_False; [done|]. apply prefix_nil_not. }
  assert (Hnext : (fun i => off + 1 + i) <$> first_occurrence (c :: t) s =
                  (fun i => off + i) <$> (Z.succ <$> first_occurrence (c :: t) s)).
  { destruct (first_occurrence (c :: t) s); [|done]. simpl. f_equal. lia. }
  destruct (Z.eqb_spec x 0); [done|]. destruct (Z.eqb_spec x c) as [->|Hne]; simpl.
  - destruct (strncmp16_prefix s t Hs Ht) as (d & Hd & Hiff). rewrite Hd. cbn [obind].
    destruct (Z.eqb_spec d 0) as [Ed|Ed].
    + rewrite decide_True by (apply prefix_cons; tauto). simpl. do 2 f_equal. lia.
    + rewrite decide_False by (intros H; apply prefix_cons_inv_2 in H; tauto). rewrite IH. by rewrite Hnext.
  - rewrite decide_False by (intros H; apply prefix_cons_inv_1 in H; congruence). rewrite IH. by rewrite Hnext.
Qed.

(** * Claims *)

(** for a non-empty array of 32-bit units, [utf32_to_utf8_length] is the
    number of bytes of its encoding (-1 when a [ssize_t] cannot hold it) and
    [utf32_to_utf8] writes exactly the UTF-8 encoding of its code points,
    nothing for surrogates and numbers that are no code points, followed by a
    NUL; the program is aborted exactly when the buffer cannot hold that. *)
Theorem utf32_to_utf8_exact src dst_len :
  src <> [] -> Forall is_u32 src ->
  utf32_to_utf8_length src = length_result (bytes_in src) /\
  utf32_to_utf8 src dst_len =
  (if bytes_in src <? dst_len then Done (utf8_string src ++ [0]) else Crash AssertFailed).
Proof.
  intros Hne H. destruct src as [|c src]; [done|]. unfold utf32_to_utf8_length, utf32_to_utf8.
  rewrite utf32_length_loop_spec, utf32_to_utf8_loop_spec by (done || unfold SSIZE_MAX; lia). done.
Qed.

Lemma utf32_to_utf8_exact_witness :
  utf32_to_utf8_length [0x24; 0x20AC; 0xD800; 0x10348] = length_result (bytes_in [0x24; 0x20AC; 0xD800; 0x10348]) /\
  utf32_to_utf8 [0x24; 0x20AC; 0xD800; 0x10348] 9 = Done [0x24; 0xE2; 0x82; 0xAC; 0xF0; 0x90; 0x8D; 0x88; 0].
Proof.
  destruct (utf32_to_utf8_exact [0x24; 0x20AC; 0xD800; 0x10348] 9) as [H1 H2]; [done| |].
  - repeat (apply Forall_cons; split; [unfold is_u32; lia|]). constructor.
  - split; [exact H1|]. rewrite H2. vm_compute. reflexivity.
Defined.

(** read at the start of a character of an encoded string,
    [utf32_from_utf8_at] returns that code point and the index of the next
    character, so a reader that follows the indices sees the code points the
    string was made of, in order, and then the end. *)
Theorem utf32_from_utf8_at_steps pre c post :
  Forall valid_cp (pre ++ c :: post) ->
  utf32_from_utf8_at (utf8_string (pre ++ c :: post) ++ [0]) (bytes_in (pre ++ c :: post)) (bytes_in pre) =
  Done (c, Some (bytes_in (pre ++ [c]))) /\
  utf32_from_utf8_at (utf8_string (pre ++ c :: post) ++ [0]) (bytes_in (pre ++ c :: post))
    (bytes_in (pre ++ c :: post)) = Done (-1, None).
Proof.
  intros H. apply Forall_app in H as [_ H]. apply Forall_cons in H as [Hv _].
  assert (Happ : forall a b, bytes_in (a ++ b) = bytes_in a + bytes_in b).
  { intros. unfold bytes_in, utf8_string. rewrite bind_app, length_app. lia. }
  unfold utf32_from_utf8_at. rewrite !Happ, !bytes_in_cons, utf8_bytes_valid by done. change (bytes_in []) with 0.
  pose proof (utf8_bytes_positive c). pose proof (Zle_0_nat (length (utf8_string post))).
  split; [|by rewrite Z.leb_refl].
  destruct (Z.leb_spec (bytes_in pre + (Z.of_nat (length (utf8_bytes c)) + bytes_in post)) (bytes_in pre)).
  { unfold bytes_in in *. lia. }
  unfold bytes_in at 1. rewrite Nat2Z.id. unfold utf8_string. rewrite bind_app, <- app_assoc, drop_app_length, bind_cons.
  rewrite utf8_bytes_valid, <- app_assoc, at_internal_utf8_bytes by done. cbn [obind].
  destruct Hv as [[Hc _] _]. destruct (Z.leb_spec 0 c); [|lia]. do 3 f_equal. lia.
Qed.

Lemma utf32_from_utf8_at_steps_witness :
  utf32_from_utf8_at [0x24; 0xE2; 0x82; 0xAC; 0xC2; 0xA2; 0] 6 1 = Done (0x20AC, Some 4).
Proof.
  apply (utf32_from_utf8_at_steps [0x24] 0x20AC [0xA2]). unfold valid_cp, kUnicodeMaxCodepoint, kUnicodeSurrogateStart, kUnicodeSurrogateEnd.
  repeat (apply Forall_cons; split; [lia|]). constructor.
Defined.

(** C29: well-formed UTF-16 survives the conversion to UTF-8 and back: the two
    length functions give the room that is needed, no conversion aborts with
    a buffer of that room and one unit for the terminator, and the units come
    back as they were. *)
Theorem utf16_utf8_roundtrip src :
  src <> [] -> well_formed16 src -> bytes_in (utf16_cps src) < SSIZE_MAX ->
  exists u8str,
    utf16_to_utf8_length src = Done (Z.of_nat (length u8str)) /\
    utf16_to_utf8 src (Z.of_nat (length u8str) + 1) = Done (u8str ++ [0]) /\
    (forall fatal, utf8_to_utf16_length u8str fatal = Done (Z.of_nat (length src))) /\
    (Z.of_nat (length src) < SSIZE_MAX ->
     utf8_to_utf16 u8str (Z.of_nat (length src) + 1) = Done (src ++ [0])).
Proof.
  intros Hne Hwf Hb. destruct (well_formed16_cps src Hwf) as (Hu & Hv & Hs). exists (utf8_string (utf16_cps src)).
  unfold utf16_to_utf8_length, utf16_to_utf8. destruct src as [|c src0] eqn:Hsrc; [done|]. rewrite <- Hsrc in *.
  rewrite utf16_length_loop_spec, utf16_to_utf8_loop_spec by (done || lia || unfold SSIZE_MAX; lia).
  fold (bytes_in (utf16_cps src)). split; [|split; [|split]].
  - rewrite Z.add_0_l. unfold length_result. destruct (Z.leb_spec (bytes_in (utf16_cps src)) SSIZE_MAX); [done|lia].
  - destruct (Z.ltb_spec (bytes_in (utf16_cps src)) (bytes_in (utf16_cps src) + 1)); [done|lia].
  - intros fatal. unfold utf8_to_utf16_length. rewrite utf8_to_utf16_length_loop_spec by (done || lia). by rewrite Hs.
  - intros Hl. unfold utf8_to_utf16, utf8_to_utf16_no_null_terminator. rewrite Z.add_simpl_r.
    assert (0 < Z.of_nat (length src)) by (rewrite Hsrc; simpl; lia).
    destruct (Z.eqb_spec (Z.of_nat (length src) + 1) 0); [lia|].
    destruct (Z.ltb_spec SSIZE_MAX (Z.of_nat (length src) + 1)); [lia|]. cbn [orb].
    destruct (Z.eqb_spec (Z.of_nat (length src)) 0); [lia|].
    destruct (Z.ltb_spec SSIZE_MAX (Z.of_nat (length src))); [lia|].
    rewrite utf8_to_utf16_loop_spec by (done || lia || (rewrite Hs; lia)). by rewrite Hs.
Qed.

Lemma utf16_utf8_roundtrip_witness :
  exists u8str, utf16_to_utf8 [0x41; 0xD83D; 0xDE00; 0x20AC] (Z.of_nat (length u8str) + 1) = Done (u8str ++ [0]) /\
    utf8_to_utf16 u8str 5 = Done [0x41; 0xD83D; 0xDE00; 0x20AC; 0].
Proof.
  destruct (utf16_utf8_roundtrip [0x41; 0xD83D; 0xDE00; 0x20AC]) as (u8str & _ & H1 & _ & H2).
  - done.
  - apply wf_bmp; [lia|lia|]. apply wf_pair; [lia|lia|]. apply wf_bmp; [lia|lia|]. constructor.
  - vm_compute. reflexivity.
  - exists u8str. split; [exact H1|]. apply H2. vm_compute. reflexivity.
Defined.

(** on NUL-terminated strings [strstr16] returns the first place at which
    the target occurs in the string, or nothing when it does not, and reads
    neither string behind its terminator. *)
Theorem strstr16_first_occurrence src target :
  Forall (fun c => c <> 0) src -> Forall (fun c => c <> 0) target ->
  strstr16 (src ++ [0]) (target ++ [0]) = Done (first_occurrence target src).
Proof.
  intros Hs Ht. destruct target as [|c t].
  { destruct src; done. }
  pose proof Ht as Ht'. apply Forall_cons in Ht' as [Hc Ht'].
  cbn [strstr16 app]. destruct (Z.eqb_spec c 0); [done|]. rewrite strlen16_spec by done. cbn [obind].
  rewrite Nat2Z.id, strstr16_loop_spec by done. f_equal. destruct (first_occurrence (c :: t) src); [|done].
  simpl. f_equal.
Qed.

Lemma strstr16_first_occurrence_witness :
  strstr16 ([97; 98; 97; 98; 99] ++ [0]) ([97; 98; 99] ++ [0]) = Done (Some 2).
Proof.
  rewrite (strstr16_first_occurrence [97; 98; 97; 98; 99] [97; 98; 99]).
  - vm_compute. reflexivity.
  - repeat (apply Forall_cons; split; [lia|]). constructor.
  - repeat (apply Forall_cons; split; [lia|]). constructor.
Defined.
