(* ===== verification/Hashmap.v ===== *)
(** libcutils/hashmap.cpp: the chained hash table.  The hash function and the
    equality a table is created with, and the null pointer of its values, are
    parameters; keys are compared as pointers first ([decide]).  A bucket is
    the list of its entries in link order. *)

From S2P Require Import Prelude.

Local Open Scope Z_scope.

Section hashmap.
Context {K V : Type} `{EqDecision K}.
Context (hash : K -> Z) (equals : K -> K -> bool) (NULL : V).

Record Entry := mk_entry { ekey : K; ehash : Z; evalue : V }.

Record Hashmap := mk_hashmap {
  buckets : list (list Entry);
  bucketCount : Z;
  size : Z
}.

(** * Operations *)

(** The smallest power of two above the minimum, from [bucketCount] on; a
    shift that overflows makes the loop endless. *)
Fixpoint grow_count (fuel : nat) (bucketCount minimumBucketCount : Z) : outcome Z :=
  match fuel with
  | O => Crash OutOfFuel
  | S fuel =>
      if bucketCount <=? minimumBucketCount
      then grow_count fuel (u64 (Z.shiftl bucketCount 1)) minimumBucketCount
      else Done bucketCount
  end.

Definition hashmapCreate (al : allocator) (initialCapacity : Z) : outcome (option Hashmap * allocator) :=
  match malloc al with
  | (None, al) => Done (None, al)
  | (Some _, al) =>
      let* count := grow_count 65 1 (u64 (initialCapacity * 4) / 3) in
      match malloc al with
      | (None, al) => Done (None, al)
      | (Some _, al) => Done (Some (mk_hashmap (replicate (Z.to_nat count) []) count 0), al)
      end
  end.

Definition hashKey (key : K) : Z :=
  let h := hash key in
  let h := s32 (h + Z.lnot (s32 (Z.shiftl h 9))) in
  let h := s32 (Z.lxor (u32 h) (Z.shiftr (u32 h) 14)) in
  let h := s32 (h + s32 (Z.shiftl h 4)) in
  s32 (Z.lxor (u32 h) (Z.shiftr (u32 h) 10)).

Definition calculateIndex (bucketCount hash : Z) : Z := Z.land (u64 hash) (u64 (bucketCount - 1)).

Definition bucket_at (bs : list (list Entry)) (i : Z) : outcome (list Entry) :=
  match bs !! Z.to_nat i with Some b => Done b | None => Crash BadPointer end.

Definition push_entry (count : Z) (bs : list (list Entry)) (e : Entry) : outcome (list (list Entry)) :=
  let index := calculateIndex count (ehash e) in
  let* b := bucket_at bs index in
  Done (<[Z.to_nat index := e :: b]> bs).

Fixpoint move_bucket (count : Z) (b : list Entry) (bs : list (list Entry)) : outcome (list (list Entry)) :=
  match b with
  | [] => Done bs
  | e :: b => let* bs := push_entry count bs e in move_bucket count b bs
  end.

Fixpoint move_buckets (count : Z) (old bs : list (list Entry)) : outcome (list (list Entry)) :=
  match old with
  | [] => Done bs
  | b :: old => let* bs := move_bucket count b bs in move_buckets count old bs
  end.

Definition expandIfNecessary (al : allocator) (map : Hashmap) : outcome (Hashmap * allocator) :=
  if u64 (bucketCount map * 3) / 4 <? size map then
    let newBucketCount := u64 (Z.shiftl (bucketCount map) 1) in
    match malloc al with
    | (None, al) => Done (map, al)
    | (Some _, al) =>
        let* newBuckets :=
          move_buckets newBucketCount (buckets map) (replicate (Z.to_nat newBucketCount) []) in
        Done (mk_hashmap newBuckets newBucketCount (size map), al)
    end
  else Done (map, al).

(** A plain [char] is signed. *)
Definition hashmapHash (key : list Z) : Z :=
  foldl (fun h c => s32 (h * 31 + (if c <? 128 then c else c - 256))) (s32 (Z.of_nat (length key))) key.

Definition equalKeys (keyA : K) (hashA : Z) (keyB : K) (hashB : Z) : bool :=
  if decide (keyA = keyB) then true
  else if negb (hashA =? hashB) then false
  else equals keyA keyB.

(** The walk along a bucket: [Some] if an entry with the key is replaced. *)
Fixpoint put_walk (b : list Entry) (key : K) (hash : Z) (value : V) : option (V * list Entry) :=
  match b with
  | [] => None
  | e :: b =>
      if equalKeys (ekey e) (ehash e) key hash
      then Some (evalue e, mk_entry (ekey e) (ehash e) value :: b)
      else match put_walk b key hash value with
           | Some (old, b) => Some (old, e :: b)
           | None => None
           end
  end.

(** The table, the result and whether memory ran out ([errno = ENOMEM]). *)
Definition hashmapPut (al : allocator) (map : Hashmap) (key : K) (value : V)
  : outcome (Hashmap * V * bool * allocator) :=
  let hash := hashKey key in
  let index := calculateIndex (bucketCount map) hash in
  let* b := bucket_at (buckets map) index in
  match put_walk b key hash value with
  | Some (old, b) =>
      Done (mk_hashmap (<[Z.to_nat index := b]> (buckets map)) (bucketCount map) (size map), old, false, al)
  | None =>
      match malloc al with
      | (None, al) => Done (map, NULL, true, al)
      | (Some _, al) =>
          let* (map, al) :=
            expandIfNecessary al
              (mk_hashmap (<[Z.to_nat index := b ++ [mk_entry key hash value]]> (buckets map))
                 (bucketCount map) (size map + 1)) in
          Done (map, NULL, false, al)
      end
  end.

Fixpoint get_walk (b : list Entry) (key : K) (hash : Z) : V :=
  match b with
  | [] => NULL
  | e :: b => if equalKeys (ekey e) (ehash e) key hash then evalue e else get_walk b key hash
  end.

Definition hashmapGet (map : Hashmap) (key : K) : outcome V :=
  let hash := hashKey key in
  let* b := bucket_at (buckets map) (calculateIndex (bucketCount map) hash) in
  Done (get_walk b key hash).

Fixpoint remove_walk (b : list Entry) (key : K) (hash : Z) : option (V * list Entry) :=
  match b with
  | [] => None
  | e :: b =>
      if equalKeys (ekey e) (ehash e) key hash then Some (evalue e, b)
      else match remove_walk b key hash with
           | Some (old, b) => Some (old, e :: b)
           | None => None
           end
  end.

Definition hashmapRemove (map : Hashmap) (key : K) : outcome (Hashmap * V) :=
  let hash := hashKey key in
  let index := calculateIndex (bucketCount map) hash in
  let* b := bucket_at (buckets map) index in
  Done match remove_walk b key hash with
       | Some (old, b) =>
           (mk_hashmap (<[Z.to_nat index := b]> (buckets map)) (bucketCount map) (size map - 1), old)
       | None => (map, NULL)
       end.

(** The callback threads its context and says whether to go on. *)
Fixpoint foreach_entries {C} (callback : C -> K -> V -> C * bool) (b : list Entry) (c : C) : C * bool :=
  match b with
  | [] => (c, true)
  | e :: b =>
      let '(c, go_on) := callback c (ekey e) (evalue e) in
      if go_on then foreach_entries callback b c else (c, false)
  end.

Fixpoint foreach_buckets {C} (callback : C -> K -> V -> C * bool) (bs : list (list Entry)) (c : C) : C :=
  match bs with
  | [] => c
  | b :: bs =>
      let '(c, go_on) := foreach_entries callback b c in
      if go_on then foreach_buckets callback bs c else c
  end.

Definition hashmapForEach {C} (map : Hashmap) (callback : C -> K -> V -> C * bool) (context : C) : C :=
  foreach_buckets callback (buckets map) context.

(** * Invariant *)

(** What the table relies on: an equivalence that the hash respects. *)
Class KeyLaws : Prop := {
  equals_refl k : equals k k = true;
  equals_sym a b : equals a b = true -> equals b a = true;
  equals_trans a b c : equals a b = true -> equals b c = true -> equals a c = true;
  equals_hash a b : equals a b = true -> hash a = hash b
}.

Definition entries (m : Hashmap) : list Entry := concat (buckets m).

Fixpoint distinct (l : list Entry) : Prop :=
  match l with
  | [] => True
  | e :: l => Forall (fun x => equals (ekey e) (ekey x) = false) l /\ distinct l
  end.

(** Entry [e] is where the table with [n] buckets looks for its key. *)
Definition placed (n : Z) (i : nat) (e : Entry) : Prop :=
  ehash e = hashKey (ekey e) /\ calculateIndex n (ehash e) = Z.of_nat i.

Definition all_placed (n : Z) (bs : list (list Entry)) : Prop :=
  forall i b, bs !! i = Some b -> Forall (placed n i) b.

Record hm_wf (m : Hashmap) : Prop := {
  wf_count : exists k, 0 <= k <= 62 /\ bucketCount m = 2 ^ k;
  wf_length : Z.of_nat (length (buckets m)) = bucketCount m;
  wf_placed : all_placed (bucketCount m) (buckets m);
  wf_distinct : distinct (entries m);
  wf_size : size m = Z.of_nat (length (entries m))
}.

(** * Buckets and keys *)

Context {LAWS : KeyLaws}.

Lemma calculateIndex_bound k h :
  0 <= k <= 62 -> calculateIndex (2 ^ k) h = u64 h mod 2 ^ k /\ 0 <= calculateIndex (2 ^ k) h < 2 ^ k.
Proof.
  intros Hk. assert (0 < 2 ^ k) by lia. assert (2 ^ k <= 2 ^ 62) by (apply Z.pow_le_mono_r; lia).
  assert (E : calculateIndex (2 ^ k) h = u64 h mod 2 ^ k).
  { unfold calculateIndex. rewrite (u64_small (2 ^ k - 1)) by (unfold is_u64; lia).
    rewrite Z.sub_1_r, <- Z.ones_equiv. apply Z.land_ones. lia. }
  split; [done|]. rewrite E. by apply Z.mod_pos_bound.
Qed.

Lemma bucket_exists m h :
  hm_wf m -> exists b, buckets m !! Z.to_nat (calculateIndex (bucketCount m) h) = Some b.
Proof.
  intros W. destruct (wf_count _ W) as (k & Hk & E). pose proof (wf_length _ W) as Hl.
  apply lookup_lt_is_Some_2. rewrite E in *. destruct (calculateIndex_bound k h Hk). lia.
Qed.

Lemma equals_false_sym a b : equals a b = false -> equals b a = false.
Proof. intros H. destruct (equals b a) eqn:E; [|done]. apply equals_sym in E. congruence. Qed.

Lemma hashKey_equals a b : equals a b = true -> hashKey a = hashKey b.
Proof. intros H. unfold hashKey. by rewrite (equals_hash a b H). Qed.

(** On entries in their place the short cuts of [equalKeys] change nothing. *)
Lemma equalKeys_equals e n i k :
  placed n i e -> equalKeys (ekey e) (ehash e) k (hashKey k) = equals (ekey e) k.
Proof.
  intros [Hh _]. unfold equalKeys. case_decide as E; [subst; by rewrite equals_refl|].
  rewrite Hh. destruct (Z.eqb_spec (hashKey (ekey e)) (hashKey k)) as [|Hne]; simpl; [done|].
  destruct (equals (ekey e) k) eqn:Eq; [|done]. apply hashKey_equals in Eq. congruence.
Qed.

(** * The table as a list of entries *)

Fixpoint lookup_value (l : list Entry) (k : K) : V :=
  match l with [] => NULL | e :: l => if equals (ekey e) k then evalue e else lookup_value l k end.

Definition absent (l : list Entry) (k : K) : Prop := Forall (fun e => equals (ekey e) k = false) l.

Lemma lookup_absent l k : absent l k -> lookup_value l k = NULL.
Proof. induction 1 as [|e l He _ IH]; [done|]. simpl. by rewrite He. Qed.

Lemma lookup_present l k e :
  distinct l -> e ∈ l -> equals (ekey e) k = true -> lookup_value l k = evalue e.
Proof.
  induction l as [|x l IH]; [by intros _ ?%elem_of_nil|]. intros [Hx Hd] He Heq. simpl.
  apply elem_of_cons in He as [->|He]; [by rewrite Heq|].
  rewrite Forall_forall in Hx. specialize (Hx e He).
  destruct (equals (ekey x) k) eqn:Ex; [|by apply IH].
  rewrite (equals_trans (ekey x) k (ekey e)) in Hx; [done|done|by apply equals_sym].
Qed.

Lemma present_or_absent l k :
  (exists e, e ∈ l /\ equals (ekey e) k = true) \/ absent l k.
Proof.
  induction l as [|x l [(e & He & Heq)|IH]]; [right; constructor| |].
  - left. exists e. split; [by right|done].
  - destruct (equals (ekey x) k) eqn:E; [left; exists x; split; [left|done]|right; by constructor].
Qed.

Lemma distinct_perm l l' : l ≡ₚ l' -> distinct l -> distinct l'.
Proof.
  induction 1 as [|x l l' HP IH|x y l|l l' l'' _ IH1 _ IH2]; [done| | |by auto].
  - intros [Hx Hd]. split; [by rewrite <- HP|by apply IH].
  - intros [Hy [Hx Hd]]. apply Forall_cons in Hy as [Hyx Hy]. repeat split; [|done|done].
    constructor; [by apply equals_false_sym|done].
Qed.

Lemma lookup_perm l l' k : l ≡ₚ l' -> distinct l -> lookup_value l k = lookup_value l' k.
Proof.
  intros HP Hd. destruct (present_or_absent l k) as [(e & He & Heq)|Ha].
  - rewrite (lookup_present l k e), (lookup_present l' k e); [done| |by rewrite <- HP|done|done|done|done].
    by apply (distinct_perm l).
  - rewrite !lookup_absent; [done| |done]. unfold absent. by rewrite <- HP.
Qed.

Lemma distinct_lookup l i j x y :
  distinct l -> l !! i = Some x -> l !! j = Some y -> equals (ekey x) (ekey y) = true -> i = j.
Proof.
  revert i j. induction l as [|e l IH]; intros i j Hd Hx Hy Heq; [by rewrite lookup_nil in Hx|].
  destruct Hd as [He Hd]. rewrite Forall_forall in He.
  destruct i as [|i], j as [|j]; cbn [lookup list_lookup] in *; simplify_eq; [done| | |].
  - rewrite (He y) in Heq by (by eapply list_elem_of_lookup_2). done.
  - apply equals_sym in Heq. rewrite (He x) in Heq by (by eapply list_elem_of_lookup_2). done.
  - f_equal. by apply IH.
Qed.

(** ** Walks *)

Lemma get_walk_spec n i b k :
  Forall (placed n i) b -> get_walk b k (hashKey k) = lookup_value b k.
Proof.
  induction 1 as [|e b He _ IH]; [done|]. simpl. rewrite (equalKeys_equals e n i) by done. by rewrite IH.
Qed.

Lemma put_walk_spec n i b k v :
  Forall (placed n i) b ->
  match put_walk b k (hashKey k) v with
  | Some (old, b') => exists b1 e b2, b = b1 ++ e :: b2 /\ absent b1 k /\ equals (ekey e) k = true /\
      old = evalue e /\ b' = b1 ++ mk_entry (ekey e) (ehash e) v :: b2
  | None => absent b k
  end.
Proof.
  induction 1 as [|x b Hx _ IH]; [by constructor|]. simpl. rewrite (equalKeys_equals x n i) by done.
  destruct (equals (ekey x) k) eqn:E; [exists [], x, b; repeat split; done || constructor|].
  destruct (put_walk b k (hashKey k) v) as [[old b']|]; [|by constructor].
  destruct IH as (b1 & e & b2 & -> & Ha & He & -> & ->). exists (x :: b1), e, b2. repeat split; [by constructor|done].
Qed.

Lemma remove_walk_spec n i b k :
  Forall (placed n i) b ->
  match remove_walk b k (hashKey k) with
  | Some (old, b') => exists b1 e b2, b = b1 ++ e :: b2 /\ absent b1 k /\ equals (ekey e) k = true /\
      old = evalue e /\ b' = b1 ++ b2
  | None => absent b k
  end.
Proof.
  induction 1 as [|x b Hx _ IH]; [by constructor|]. simpl. rewrite (equalKeys_equals x n i) by done.
  destruct (equals (ekey x) k) eqn:E; [exists [], x, b; repeat split; done || constructor|].
  destruct (remove_walk b k (hashKey k)) as [[old b']|]; [|by constructor].
  destruct IH as (b1 & e & b2 & -> & Ha & He & -> & ->). exists (x :: b1), e, b2. repeat split; [by constructor|done].
Qed.

(** ** One bucket among the others *)

Definition others (bs : list (list Entry)) (i : nat) : list Entry := concat (take i bs) ++ concat (drop (S i) bs).

Lemma entries_split bs i b : bs !! i = Some b -> concat bs ≡ₚ b ++ others bs i.
Proof.
  intros H. rewrite <- (take_drop_middle bs i b H) at 1. rewrite concat_app. simpl. unfold others.
  rewrite !app_assoc. apply Permutation_app_tail, Permutation_app_comm.
Qed.

Lemma entries_insert bs i b b' : bs !! i = Some b -> concat (<[i := b']> bs) ≡ₚ b' ++ others bs i.
Proof.
  intros H. assert (i < length bs)%nat by (by apply lookup_lt_Some in H).
  rewrite (entries_split (<[i := b']> bs) i b') by (by apply list_lookup_insert_eq).
  unfold others. by rewrite take_insert_ge, drop_insert_lt by lia.
Qed.

Lemma elem_of_concat (bs : list (list Entry)) e : e ∈ concat bs <-> exists b, b ∈ bs /\ e ∈ b.
Proof.
  rewrite list_elem_of_In, in_concat. setoid_rewrite list_elem_of_In. done.
Qed.

(** No key of another bucket is the one looked for. *)
Lemma others_absent m i b k :
  hm_wf m -> buckets m !! i = Some b -> Z.of_nat i = calculateIndex (bucketCount m) (hashKey k) ->
  absent (others (buckets m) i) k.
Proof.
  intros W Hb Hi. apply Forall_forall. intros e He. destruct (equals (ekey e) k) eqn:Eq; [|done]. exfalso.
  apply hashKey_equals in Eq.
  assert (exists j bj, j <> i /\ buckets m !! j = Some bj /\ e ∈ bj) as (j & bj & Hj & Hbj & Hej).
  { unfold others in He. apply elem_of_app in He as [He|He]; apply elem_of_concat in He as (bj & Hin & He);
      apply list_elem_of_lookup in Hin as (j & Hj).
    - apply lookup_take_Some in Hj as [Hj Hlt]. exists j, bj. split; [lia|done].
    - rewrite lookup_drop in Hj. eexists _, bj. split; [|done]. lia. }
  pose proof (wf_placed _ W j bj Hbj) as Hp. rewrite Forall_forall in Hp. destruct (Hp e Hej) as [Hh Hx].
  rewrite Hh, Eq in Hx. lia.
Qed.

Lemma lookup_app_absent l l' k : absent l' k -> lookup_value (l ++ l') k = lookup_value l k.
Proof. intros Ha. induction l as [|e l IH]; simpl; [by apply lookup_absent|]. by rewrite IH. Qed.

Lemma absent_lookup_app l l' k : absent l k -> lookup_value (l ++ l') k = lookup_value l' k.
Proof. induction 1 as [|e l He _ IH]; [done|]. simpl. by rewrite He. Qed.

Lemma hashmapGet_spec m k : hm_wf m -> hashmapGet m k = Done (lookup_value (entries m) k).
Proof.
  intros W. unfold hashmapGet, bucket_at. destruct (bucket_exists m (hashKey k) W) as (b & Hb). rewrite Hb. simpl.
  f_equal. destruct (wf_count _ W) as (kk & Hk & E).
  rewrite (get_walk_spec _ _ _ _ (wf_placed _ W _ _ Hb)).
  rewrite (lookup_perm (entries m) _ k (entries_split _ _ _ Hb) (wf_distinct _ W)).
  symmetry. apply lookup_app_absent. eapply others_absent; [done|done|].
  rewrite Z2Nat.id; [done|]. rewrite E. by apply calculateIndex_bound.
Qed.

(** A bucket replaced by one whose entries are in their place. *)
Lemma replace_bucket m i b b' sz :
  hm_wf m -> buckets m !! i = Some b -> Forall (placed (bucketCount m) i) b' ->
  distinct (b' ++ others (buckets m) i) -> sz = Z.of_nat (length (b' ++ others (buckets m) i)) ->
  hm_wf (mk_hashmap (<[i := b']> (buckets m)) (bucketCount m) sz) /\
  entries (mk_hashmap (<[i := b']> (buckets m)) (bucketCount m) sz) ≡ₚ b' ++ others (buckets m) i.
Proof.
  intros W Hb Hp Hd Hs. pose proof (entries_insert _ _ _ b' Hb) as HP. split; [|done]. constructor; simpl.
  - apply (wf_count _ W).
  - rewrite length_insert. apply (wf_length _ W).
  - intros j bj Hj. destruct (decide (i = j)) as [<-|Hne].
    + rewrite list_lookup_insert_eq in Hj by (by apply lookup_lt_Some in Hb). by injection Hj as <-.
    + rewrite list_lookup_insert_ne in Hj by done. by apply (wf_placed _ W).
  - eapply distinct_perm; [symmetry; exact HP|done].
  - unfold entries. simpl. by rewrite HP.
Qed.

(** ** Moving to a larger table *)

Lemma push_entry_spec k bs e :
  0 <= k <= 62 -> Z.of_nat (length bs) = 2 ^ k -> all_placed (2 ^ k) bs -> ehash e = hashKey (ekey e) ->
  exists bs', push_entry (2 ^ k) bs e = Done bs' /\ length bs' = length bs /\ all_placed (2 ^ k) bs' /\
    concat bs' ≡ₚ e :: concat bs.
Proof.
  intros Hk Hl Hp He. destruct (calculateIndex_bound k (ehash e) Hk) as [_ Hi]. unfold push_entry, bucket_at.
  set (i := calculateIndex (2 ^ k) (ehash e)) in *.
  destruct (lookup_lt_is_Some_2 bs (Z.to_nat i)) as [b Hb]; [lia|]. rewrite Hb. cbn [obind].
  eexists. split; [done|]. split; [apply length_insert|]. split.
  - intros j bj Hj. destruct (decide (Z.to_nat i = j)) as [<-|Hne].
    + rewrite list_lookup_insert_eq in Hj by (by apply lookup_lt_Some in Hb). injection Hj as <-.
      constructor; [split; [done|fold i; lia]|by apply Hp].
    + rewrite list_lookup_insert_ne in Hj by done. by apply Hp.
  - rewrite (entries_insert _ _ _ _ Hb), (entries_split _ _ _ Hb). done.
Qed.

Lemma move_bucket_spec k b bs :
  0 <= k <= 62 -> Z.of_nat (length bs) = 2 ^ k -> all_placed (2 ^ k) bs ->
  Forall (fun e => ehash e = hashKey (ekey e)) b ->
  exists bs', move_bucket (2 ^ k) b bs = Done bs' /\ length bs' = length bs /\ all_placed (2 ^ k) bs' /\
    concat bs' ≡ₚ b ++ concat bs.
Proof.
  intros Hk Hl Hp Hb. revert bs Hl Hp. induction Hb as [|e b He _ IH]; intros bs Hl Hp; [by exists bs|].
  destruct (push_entry_spec k bs e Hk Hl Hp He) as (bs1 & E1 & Hl1 & Hp1 & HP1).
  destruct (IH bs1) as (bs2 & E2 & Hl2 & Hp2 & HP2); [lia|done|]. exists bs2. simpl. rewrite E1. simpl.
  split; [done|]. split; [congruence|]. split; [done|].
  rewrite HP2, HP1. by rewrite Permutation_middle.
Qed.

Lemma move_buckets_spec k old bs :
  0 <= k <= 62 -> Z.of_nat (length bs) = 2 ^ k -> all_placed (2 ^ k) bs ->
  Forall (Forall (fun e => ehash e = hashKey (ekey e))) old ->
  exists bs', move_buckets (2 ^ k) old bs = Done bs' /\ length bs' = length bs /\ all_placed (2 ^ k) bs' /\
    concat bs' ≡ₚ concat old ++ concat bs.
Proof.
  intros Hk Hl Hp Ho. revert bs Hl Hp. induction Ho as [|b old Hb _ IH]; intros bs Hl Hp; [by exists bs|].
  destruct (move_bucket_spec k b bs Hk Hl Hp Hb) as (bs1 & E1 & Hl1 & Hp1 & HP1).
  destruct (IH bs1) as (bs2 & E2 & Hl2 & Hp2 & HP2); [lia|done|]. exists bs2. simpl. rewrite E1. simpl.
  split; [done|]. split; [congruence|]. split; [done|].
  rewrite HP2, HP1, !app_assoc. apply Permutation_app_tail, Permutation_app_comm.
Qed.

Lemma concat_replicate_nil n : concat (replicate n ([] : list Entry)) = [].
Proof. by induction n. Qed.

Lemma expandIfNecessary_spec al m :
  hm_wf m -> size m <= 2 ^ 58 ->
  exists m' al', expandIfNecessary al m = Done (m', al') /\ hm_wf m' /\ entries m' ≡ₚ entries m.
Proof.
  intros W Hs. destruct (wf_count _ W) as (k & Hk & E). unfold expandIfNecessary.
  assert (2 ^ k <= 2 ^ 62) by (apply Z.pow_le_mono_r; lia).
  rewrite (u64_small (bucketCount m * 3)) by (unfold is_u64; lia).
  destruct (Z.ltb_spec (bucketCount m * 3 / 4) (size m)) as [Hlt|Hge];
    [|by exists m, al].
  destruct (malloc al) as [[a|] al'] eqn:Ha.
  2:{ by exists m, al'. }
  assert (Hk58 : k <= 58).
  { destruct (Z.le_gt_cases k 58) as [|Hgt]; [done|]. assert (2 ^ 59 <= 2 ^ k) by (apply Z.pow_le_mono_r; lia). rewrite E in Hlt. div_lia. }
  assert (E2 : u64 (Z.shiftl (bucketCount m) 1) = 2 ^ (k + 1)).
  { rewrite Z.shiftl_mul_pow2, E, <- Z.pow_add_r by lia. assert (2 ^ (k + 1) <= 2 ^ 62) by (apply Z.pow_le_mono_r; lia).
    apply u64_small. unfold is_u64. lia. }
  rewrite E2. destruct (move_buckets_spec (k + 1) (buckets m) (replicate (Z.to_nat (2 ^ (k + 1))) []))
    as (bs & Eb & Hl & Hp & HP); [lia|rewrite length_replicate; lia| | |].
  - intros i b Hb. apply lookup_replicate in Hb as [-> _]. constructor.
  - apply Forall_forall. intros b Hb. apply list_elem_of_lookup in Hb as (i & Hi).
    eapply Forall_impl; [apply (wf_placed _ W _ _ Hi)|]. by intros e [? _].
  - rewrite Eb. cbn [obind]. rewrite concat_replicate_nil, app_nil_r in HP. rewrite length_replicate in Hl.
    eexists _, al'. split; [done|]. split; [|done].
    constructor; simpl; [exists (k + 1); split; [lia|done]|lia|done|
      eapply distinct_perm; [symmetry; exact HP|apply (wf_distinct _ W)]|].
    unfold entries. simpl. rewrite HP. apply (wf_size _ W).
Qed.

(** * Specifications *)

Lemma lookup_replaced b1 e b2 rest k v k' :
  distinct ((b1 ++ e :: b2) ++ rest) -> equals (ekey e) k = true ->
  lookup_value ((b1 ++ mk_entry (ekey e) (ehash e) v :: b2) ++ rest) k' =
  if equals k k' then v else lookup_value ((b1 ++ e :: b2) ++ rest) k'.
Proof.
  intros Hd He. assert (HP : forall x, (b1 ++ x :: b2) ++ rest ≡ₚ x :: (b1 ++ b2 ++ rest)).
  { intros x. rewrite <- app_assoc. simpl. by rewrite <- Permutation_middle. }
  assert (Hd' : distinct (e :: (b1 ++ b2 ++ rest))) by (eapply distinct_perm; [apply HP|done]).
  assert (Hd2 : distinct (mk_entry (ekey e) (ehash e) v :: (b1 ++ b2 ++ rest))) by done.
  rewrite (lookup_perm _ _ k' (HP e) Hd).
  rewrite <- (lookup_perm _ _ k' (symmetry (HP (mk_entry (ekey e) (ehash e) v))) Hd2). simpl.
  destruct (equals k k') eqn:E1.
  - by rewrite (equals_trans (ekey e) k k').
  - destruct (equals (ekey e) k') eqn:E2; [|done].
    rewrite (equals_trans k (ekey e) k') in E1; [done|by apply equals_sym|done].
Qed.

Lemma distinct_replaced b1 e b2 rest v :
  distinct ((b1 ++ e :: b2) ++ rest) -> distinct ((b1 ++ mk_entry (ekey e) (ehash e) v :: b2) ++ rest).
Proof.
  intros Hd. eapply (distinct_perm (mk_entry (ekey e) (ehash e) v :: (b1 ++ b2 ++ rest))).
  { rewrite <- app_assoc. simpl. by rewrite <- Permutation_middle. }
  assert (HP : (b1 ++ e :: b2) ++ rest ≡ₚ e :: (b1 ++ b2 ++ rest)).
  { rewrite <- app_assoc. simpl. by rewrite <- Permutation_middle. }
  by apply (distinct_perm _ _ HP).
Qed.

(** What an operation on the key [k] leaves: the other keys as they were. *)
Definition updated (m m' : Hashmap) (k : K) (v : V) : Prop :=
  hm_wf m' /\ hashmapGet m' k = Done v /\
  forall k', equals k k' = false -> hashmapGet m' k' = hashmapGet m k'.

Lemma updated_intro m m' k v :
  hm_wf m -> hm_wf m' ->
  (forall k', lookup_value (entries m') k' = if equals k k' then v else lookup_value (entries m) k') ->
  updated m m' k v.
Proof.
  intros W W' H. split; [done|]. rewrite !hashmapGet_spec, H, equals_refl by done. split; [done|].
  intros k' Hk. by rewrite !hashmapGet_spec, H, Hk by done.
Qed.

Lemma absent_equals l k e :
  absent l k -> equals (ekey e) k = true -> Forall (fun x => equals (ekey e) (ekey x) = false) l.
Proof.
  intros Ha He. eapply Forall_impl; [exact Ha|]. intros x Hx. simpl in Hx.
  destruct (equals (ekey e) (ekey x)) eqn:E; [|done]. apply equals_sym in E.
  rewrite (equals_trans (ekey x) (ekey e) k) in Hx; done.
Qed.

(** The bucket [b] in which the key [k] is looked for. *)
Definition home (m : Hashmap) (k : K) : nat := Z.to_nat (calculateIndex (bucketCount m) (hashKey k)).

Lemma home_eq m k : Z.to_nat (calculateIndex (bucketCount m) (hashKey k)) = home m k.
Proof. unfold home. reflexivity. Qed.

Record spot (m : Hashmap) (k : K) (b : list Entry) : Prop := {
  spot_bucket : buckets m !! home m k = Some b;
  spot_placed : Forall (placed (bucketCount m) (home m k)) b;
  spot_index : Z.of_nat (home m k) = calculateIndex (bucketCount m) (hashKey k);
  spot_others : absent (others (buckets m) (home m k)) k;
  spot_entries : entries m ≡ₚ b ++ others (buckets m) (home m k);
  spot_distinct : distinct (b ++ others (buckets m) (home m k))
}.

Lemma spot_exists m k : hm_wf m -> exists b, spot m k b.
Proof.
  intros W. destruct (bucket_exists m (hashKey k) W) as (b & Hb). destruct (wf_count _ W) as (kk & Hk & E).
  rewrite home_eq in Hb.
  assert (Hi : Z.of_nat (home m k) = calculateIndex (bucketCount m) (hashKey k)).
  { rewrite <- home_eq, Z2Nat.id; [done|]. rewrite E. by apply calculateIndex_bound. }
  exists b. pose proof (entries_split _ _ _ Hb) as HP. constructor; [done| |done| |done|].
  - by apply (wf_placed _ W).
  - by eapply others_absent.
  - eapply distinct_perm; [exact HP|apply (wf_distinct _ W)].
Qed.

Lemma spot_get m k b :
  hm_wf m -> spot m k b -> hashmapGet m k = Done (lookup_value b k).
Proof.
  intros W S. rewrite hashmapGet_spec by done. f_equal.
  rewrite (lookup_perm _ _ k (spot_entries _ _ _ S) (wf_distinct _ W)). apply lookup_app_absent, (spot_others _ _ _ S).
Qed.

(** An entry of the bucket with another value. *)
Lemma put_replaces m k b1 e b2 v :
  hm_wf m -> spot m k (b1 ++ e :: b2) -> equals (ekey e) k = true ->
  updated m (mk_hashmap (<[home m k := b1 ++ mk_entry (ekey e) (ehash e) v :: b2]> (buckets m)) (bucketCount m) (size m)) k v.
Proof.
  intros W S He. pose proof (spot_placed _ _ _ S) as Hp. apply Forall_app in Hp as [Hp1 Hp2].
  apply Forall_cons in Hp2 as [Hpe Hp2].
  destruct (replace_bucket m (home m k) (b1 ++ e :: b2) (b1 ++ mk_entry (ekey e) (ehash e) v :: b2) (size m)) as [W' HP'].
  - done.
  - apply (spot_bucket _ _ _ S).
  - apply Forall_app; split; [done|]. by constructor.
  - apply distinct_replaced, (spot_distinct _ _ _ S).
  - rewrite (wf_size _ W), (spot_entries _ _ _ S), !length_app. done.
  - apply updated_intro; [done|done|]. intros k'.
    rewrite (lookup_perm _ _ k' HP' (wf_distinct _ W')), (lookup_perm _ _ k' (spot_entries _ _ _ S) (wf_distinct _ W)).
    apply lookup_replaced; [apply (spot_distinct _ _ _ S)|done].
Qed.

(** A new entry at the end of the bucket. *)
Lemma put_appends m k b v :
  hm_wf m -> spot m k b -> absent b k ->
  let m1 := mk_hashmap (<[home m k := b ++ [mk_entry k (hashKey k) v]]> (buckets m)) (bucketCount m) (size m + 1) in
  hm_wf m1 /\ forall k', lookup_value (entries m1) k' = if equals k k' then v else lookup_value (entries m) k'.
Proof.
  intros W S Ha m1. set (e := mk_entry k (hashKey k) v) in *. set (rest := others (buckets m) (home m k)).
  assert (HPe : (b ++ [e]) ++ rest ≡ₚ e :: (b ++ rest)) by (rewrite <- app_assoc; cbn [app]; by rewrite <- Permutation_middle).
  assert (Hd : distinct (e :: (b ++ rest))).
  { split; [|apply (spot_distinct _ _ _ S)]. apply (absent_equals _ k e); [|apply equals_refl].
    apply Forall_app. split; [done|apply (spot_others _ _ _ S)]. }
  destruct (replace_bucket m (home m k) b (b ++ [e]) (size m + 1)) as [W1 HP1].
  - done.
  - apply (spot_bucket _ _ _ S).
  - apply Forall_app; split; [apply (spot_placed _ _ _ S)|]. constructor; [|constructor].
    split; [done|]. cbn [ehash e]. by rewrite (spot_index _ _ _ S).
  - by apply (distinct_perm _ _ (symmetry HPe)).
  - rewrite (wf_size _ W), (spot_entries _ _ _ S), !length_app. cbn [length]. lia.
  - split; [done|]. intros k'. fold rest in HP1.
    rewrite (lookup_perm _ _ k' (spot_entries _ _ _ S) (wf_distinct _ W)). fold rest.
    rewrite (lookup_perm _ (e :: (b ++ rest)) k'); [done| |apply (wf_distinct _ W1)]. subst m1. by rewrite HP1, HPe.
Qed.

(** C21: on a well-formed table [hashmapPut] returns the value stored under the
    key (null if there is none) and afterwards the key maps to the new value
    and every other key to what it mapped to before, whatever the buckets it
    shares and whether or not the table is enlarged; if memory for a new entry
    runs out the table is left as it was and [ENOMEM] is reported. *)
Theorem hashmap_put_correct al m k v :
  hm_wf m -> size m < 2 ^ 58 ->
  exists m' old failed al',
    hashmapPut al m k v = Done (m', old, failed, al') /\ hashmapGet m k = Done old /\
    (if failed then m' = m /\ oom al (next_addr al) = true else updated m m' k v) /\
    (oom al (next_addr al) = false -> failed = false).
Proof.
  intros W Hs. destruct (spot_exists m k W) as (b & S). rewrite (spot_get m k b W S).
  unfold hashmapPut, bucket_at. rewrite !home_eq, (spot_bucket _ _ _ S). cbn [obind].
  pose proof (put_walk_spec _ _ b k v (spot_placed _ _ _ S)) as Hw.
  destruct (put_walk b k (hashKey k) v) as [[old b']|].
  - destruct Hw as (b1 & e & b2 & -> & Ha & He & -> & ->).
    eexists _, _, false, al. split; [reflexivity|].
    split; [f_equal; rewrite absent_lookup_app by done; simpl; by rewrite He|].
    split; [by apply put_replaces|done].
  - rewrite (lookup_absent b k Hw). destruct (put_appends m k b v W S Hw) as [W1 HL].
    unfold malloc. destruct (oom al (next_addr al)) eqn:Hoom; [by eexists _, _, true, _|].
    destruct (expandIfNecessary_spec (mk_alloc (next_addr al + 1) (oom al)) _ W1) as (m' & al' & E' & W' & HP').
    { cbn [size]. lia. }
    rewrite E'. cbn [obind]. eexists _, _, false, al'. split; [reflexivity|]. split; [done|]. split; [|done].
    apply updated_intro; [done|done|]. intros k'. rewrite <- HL. apply lookup_perm; [done|apply (wf_distinct _ W')].
Qed.

Lemma distinct_tail e l : distinct (e :: l) -> distinct l.
Proof. by intros [_ ?]. Qed.

(** on a well-formed table [hashmapRemove] returns the value stored under
    the key (null if there is none), afterwards the key is absent and every
    other key maps to what it mapped to before, and the size goes down by one
    exactly when an entry was removed. *)
Theorem hashmap_remove_correct m k :
  hm_wf m ->
  exists m' old, hashmapRemove m k = Done (m', old) /\ hashmapGet m k = Done old /\ updated m m' k NULL /\
    size m' = (if decide (Exists (fun e => equals (ekey e) k = true) (entries m)) then size m - 1 else size m).
Proof.
  intros W. destruct (spot_exists m k W) as (b & S). rewrite (spot_get m k b W S).
  unfold hashmapRemove, bucket_at. rewrite !home_eq, (spot_bucket _ _ _ S). cbn [obind].
  pose proof (remove_walk_spec _ _ b k (spot_placed _ _ _ S)) as Hw.
  set (rest := others (buckets m) (home m k)).
  destruct (remove_walk b k (hashKey k)) as [[old b']|].
  - destruct Hw as (b1 & e & b2 & -> & Ha & He & -> & ->).
    assert (HPe : entries m ≡ₚ e :: ((b1 ++ b2) ++ rest)).
    { rewrite (spot_entries _ _ _ S). fold rest. rewrite <- !app_assoc. cbn [app]. by rewrite <- Permutation_middle. }
    pose proof (distinct_perm _ _ HPe (wf_distinct _ W)) as [Hne Hd].
    pose proof (spot_placed _ _ _ S) as Hp. apply Forall_app in Hp as [Hp1 Hp2]. apply Forall_cons in Hp2 as [_ Hp2].
    destruct (replace_bucket m (home m k) (b1 ++ e :: b2) (b1 ++ b2) (size m - 1)) as [W' HP'];
      [done|apply (spot_bucket _ _ _ S)|by apply Forall_app|done| |].
    { rewrite (wf_size _ W), HPe. fold rest. cbn [length]. lia. }
    eexists _, _. split; [reflexivity|]. split; [f_equal; rewrite absent_lookup_app by done; simpl; by rewrite He|].
    split.
    + apply updated_intro; [done|done|]. intros k'.
      rewrite (lookup_perm _ _ k' HP' (wf_distinct _ W')), (lookup_perm _ _ k' HPe (wf_distinct _ W)). fold rest. cbn [lookup_value].
      destruct (equals k k') eqn:E1.
      * apply lookup_absent. eapply Forall_impl; [exact Hne|]. intros x Hx. cbn beta in *.
        destruct (equals (ekey x) k') eqn:E2; [|done].
        rewrite (equals_trans (ekey e) k (ekey x)) in Hx; [done|done|].
        apply (equals_trans k k' (ekey x)); [done|by apply equals_sym].
      * destruct (equals (ekey e) k') eqn:E2; [|done].
        rewrite (equals_trans k (ekey e) k') in E1; [done|by apply equals_sym|done].
    + rewrite decide_True; [done|]. rewrite HPe. by left.
  - rewrite (lookup_absent b k Hw). exists m, NULL. split; [done|]. split; [done|].
    assert (Ha : absent (entries m) k).
    { unfold absent. rewrite (spot_entries _ _ _ S). apply Forall_app. split; [done|apply (spot_others _ _ _ S)]. }
    split.
    + apply updated_intro; [done|done|]. intros k'. destruct (equals k k') eqn:E1; [|done].
      apply lookup_absent. eapply Forall_impl; [exact Ha|]. intros x Hx. cbn beta in *.
      destruct (equals (ekey x) k') eqn:E2; [|done].
      rewrite (equals_trans (ekey x) k' k) in Hx; [done|done|by apply equals_sym].
    + rewrite decide_False; [done|]. intros Hex. apply Exists_exists in Hex as (x & Hx & Hk).
      unfold absent in Ha. rewrite Forall_forall in Ha. specialize (Ha x Hx). congruence.
Qed.

Lemma foreach_entries_all {C} (f : C -> K -> V -> C) b c :
  foreach_entries (fun c k v => (f c k v, true)) b c = (foldl (fun c e => f c (ekey e) (evalue e)) c b, true).
Proof. revert c. induction b as [|e b IH]; intros c; [done|]. apply IH. Qed.

Lemma foreach_all {C} (f : C -> K -> V -> C) m c :
  hashmapForEach m (fun c k v => (f c k v, true)) c = foldl (fun c e => f c (ekey e) (evalue e)) c (entries m).
Proof.
  unfold hashmapForEach, entries. revert c. induction (buckets m) as [|b bs IH]; intros c; [done|].
  cbn [foreach_buckets concat]. rewrite foreach_entries_all, foldl_app. apply IH.
Qed.

Lemma fold_collect (l : list Entry) (c : list (K * V)) :
  foldl (fun c e => c ++ [(ekey e, evalue e)]) c l = c ++ ((fun e => (ekey e, evalue e)) <$> l).
Proof.
  revert c. induction l as [|e l IH]; intros c; [by rewrite app_nil_r|]. cbn [foldl]. rewrite IH, <- app_assoc. done.
Qed.

(** iterating over a well-formed table shows the callback every pair of
    the table exactly once: as many pairs as the size says, no two with equal
    keys, each with the value [hashmapGet] finds, and none is missed that has
    a value. *)
Theorem hashmap_foreach_complete m :
  hm_wf m ->
  let seen := hashmapForEach m (fun c k v => (c ++ [(k, v)], true)) [] in
  Z.of_nat (length seen) = size m /\
  (forall i j a b, seen !! i = Some a -> seen !! j = Some b -> equals a.1 b.1 = true -> i = j) /\
  (forall k v, (k, v) ∈ seen -> hashmapGet m k = Done v) /\
  (forall k v, hashmapGet m k = Done v -> v <> NULL -> exists k', (k', v) ∈ seen /\ equals k' k = true).
Proof.
  intros W seen. assert (E : seen = (fun e => (ekey e, evalue e)) <$> entries m).
  { unfold seen. rewrite (foreach_all (fun c k v => c ++ [(k, v)])). apply (fold_collect _ []). }
  pose proof (wf_distinct _ W) as Hd. rewrite E. split; [by rewrite length_fmap, (wf_size _ W)|].
  split; [|split].
  - intros i j a b Ha Hb Heq. rewrite list_lookup_fmap in Ha, Hb.
    apply fmap_Some in Ha as (x & Hx & ->). apply fmap_Some in Hb as (y & Hy & ->). cbn [fst] in Heq.
    apply (distinct_lookup _ _ _ _ _ Hd Hx Hy Heq).
  - intros k v Hin. apply list_elem_of_fmap in Hin as (e & [= -> ->] & He).
    rewrite hashmapGet_spec by done. f_equal. apply lookup_present; [done|done|apply equals_refl].
  - intros k v Hg Hv. rewrite hashmapGet_spec in Hg by done. injection Hg as Hg.
    destruct (present_or_absent (entries m) k) as [(e & He & Heq)|Ha].
    + exists (ekey e). split; [|done]. apply list_elem_of_fmap. exists e. split; [|done].
      rewrite (lookup_present _ k e Hd He Heq) in Hg. by rewrite Hg.
    + rewrite lookup_absent in Hg by done. congruence.
Qed.

Lemma grow_count_spec fuel k mn :
  0 <= k -> mn < 2 ^ 62 -> (Z.to_nat (63 - k) < fuel)%nat -> k <= 62 ->
  (k = 0 \/ 2 ^ (k - 1) <= mn) -> 0 <= mn ->
  exists k', grow_count fuel (2 ^ k) mn = Done (2 ^ k') /\ 0 <= k' <= 62 /\ mn < 2 ^ k' /\ (k' = 0 \/ 2 ^ (k' - 1) <= mn).
Proof.
  revert k. induction fuel as [|fuel IH]; intros k Hk Hm Hf Hk2 Hlow H0; [lia|]. cbn [grow_count].
  destruct (Z.leb_spec (2 ^ k) mn) as [Hle|Hgt]; [|by exists k].
  assert (k <= 61). { destruct (Z.le_gt_cases k 61); [done|]. assert (k = 62) as -> by lia. lia. }
  assert (E : u64 (Z.shiftl (2 ^ k) 1) = 2 ^ (k + 1)).
  { rewrite Z.shiftl_mul_pow2, <- Z.pow_add_r by lia. assert (2 ^ (k + 1) <= 2 ^ 62) by (apply Z.pow_le_mono_r; lia).
    apply u64_small. unfold is_u64. lia. }
  rewrite E. apply IH; [lia|done|lia|lia|right; by rewrite Z.add_simpl_r|done].
Qed.

(** a created table is well-formed and empty, and has a power of two of
    buckets, more than four thirds of the initial capacity and at most twice
    that (one for no capacity), unless memory runs out. *)
Theorem hashmap_create_empty al cap :
  0 <= cap < 2 ^ 60 ->
  exists res al', hashmapCreate al cap = Done (res, al') /\
    match res with
    | Some m => hm_wf m /\ size m = 0 /\ (forall k, hashmapGet m k = Done NULL) /\
        cap * 4 / 3 < bucketCount m /\ (bucketCount m = 1 \/ bucketCount m <= cap * 4 / 3 * 2)
    | None => oom al (next_addr al) = true \/ oom al (next_addr al + 1) = true
    end.
Proof.
  intros Hc. unfold hashmapCreate, malloc at 1. destruct (oom al (next_addr al)) eqn:O1.
  { eexists _, _. split; [done|]. by left. }
  rewrite u64_small by (unfold is_u64; lia).
  destruct (grow_count_spec 65 0 (cap * 4 / 3)) as (k & E & Hk & Hmin & Hlow); [lia|div_lia|simpl; lia|lia|by left|div_lia|].
  change (2 ^ 0) with 1 in E. rewrite E. cbn [obind]. unfold malloc. cbn [oom next_addr].
  destruct (oom al (next_addr al + 1)) eqn:O2.
  { eexists _, _. split; [done|]. by right. }
  eexists _, _. split; [reflexivity|].
  assert (W : hm_wf (mk_hashmap (replicate (Z.to_nat (2 ^ k)) []) (2 ^ k) 0)).
  { constructor; cbn [buckets bucketCount size].
    - by exists k.
    - rewrite length_replicate. lia.
    - intros i b Hb. apply lookup_replicate in Hb as [-> _]. constructor.
    - unfold entries. cbn [buckets]. by rewrite concat_replicate_nil.
    - unfold entries. cbn [buckets]. by rewrite concat_replicate_nil. }
  split; [done|]. split; [done|]. split.
  { intros key. rewrite hashmapGet_spec by done. unfold entries. cbn [buckets]. by rewrite concat_replicate_nil. }
  cbn [bucketCount]. split; [done|]. destruct (decide (k = 0)) as [->|]; [by left|right].
  destruct Hlow as [->|Hlow]; [done|].
  replace k with (k - 1 + 1) at 1 by lia. rewrite Z.pow_add_r by lia. lia.
Qed.

End hashmap.

(** * A table of numbered keys *)

Definition demo_hash (k : Z) : Z := k mod 16.

Global Instance demo_laws : KeyLaws demo_hash Z.eqb.
Proof.
  constructor.
  - intros k. apply Z.eqb_refl.
  - intros a b H. rewrite Z.eqb_sym. exact H.
  - intros a b c H1 H2. rewrite Z.eqb_eq in *. congruence.
  - intros a b H. rewrite Z.eqb_eq in H. by subst.
Qed.

Definition demo_alloc : allocator := mk_alloc 0 (fun _ => false).

(** Keys 3 and 19 share a bucket. *)
Definition demo_map : Hashmap (K := Z) (V := Z) :=
  match hashmapCreate demo_alloc 2 with
  | Done (Some m, al) =>
      match hashmapPut demo_hash Z.eqb 0 al m 3 30 with
      | Done (m, _, _, al) => match hashmapPut demo_hash Z.eqb 0 al m 19 190 with Done (m, _, _, _) => m | _ => m end
      | _ => m
      end
  | _ => mk_hashmap [] 0 0
  end.

Lemma demo_map_wf : hm_wf demo_hash Z.eqb demo_map.
Proof.
  constructor.
  - exists 2. vm_compute. split; [split; congruence|reflexivity].
  - reflexivity.
  - intros i b Hb. assert (Hi : (i < 4)%nat) by (apply lookup_lt_Some in Hb; exact Hb).
    vm_compute in Hb. do 4 (destruct i as [|i]; [injection Hb as <-; repeat constructor|]). lia.
  - vm_compute. repeat constructor.
  - reflexivity.
Qed.

Lemma hashmap_put_correct_witness :
  exists m' old failed al',
    hashmapPut demo_hash Z.eqb 0 demo_alloc demo_map 19 191 = Done (m', old, failed, al') /\
    hashmapGet demo_hash Z.eqb 0 demo_map 19 = Done old /\
    (if failed then m' = demo_map /\ oom demo_alloc (next_addr demo_alloc) = true
     else updated demo_hash Z.eqb 0 demo_map m' 19 191).
Proof.
  destruct (hashmap_put_correct demo_hash Z.eqb 0 demo_alloc demo_map 19 191 demo_map_wf) as (m' & old & failed & al' & H1 & H2 & H3 & _).
  - vm_compute. reflexivity.
  - exists m', old, failed, al'. split; [exact H1|]. split; [exact H2|exact H3].
Defined.

Lemma hashmap_remove_correct_witness :
  exists m' old, hashmapRemove demo_hash Z.eqb 0 demo_map 3 = Done (m', old) /\
    hashmapGet demo_hash Z.eqb 0 demo_map 3 = Done old /\ updated demo_hash Z.eqb 0 demo_map m' 3 0.
Proof.
  destruct (hashmap_remove_correct demo_hash Z.eqb 0 demo_map 3 demo_map_wf) as (m' & old & H1 & H2 & H3 & _).
  exists m', old. split; [exact H1|]. split; [exact H2|exact H3].
Defined.

Lemma hashmap_foreach_complete_witness :
  Z.of_nat (length (hashmapForEach demo_map (fun c k v => (c ++ [(k, v)], true)) [])) = size demo_map.
Proof. exact (proj1 (hashmap_foreach_complete demo_hash Z.eqb 0 demo_map demo_map_wf)). Defined.

Lemma hashmap_create_empty_witness :
  exists res al', hashmapCreate (K := Z) (V := Z) demo_alloc 100 = Done (res, al') /\ res <> None.
Proof.
  destruct (hashmap_create_empty demo_hash Z.eqb 0 demo_alloc 100) as (res & al' & H1 & H2).
  - lia.
  - exists res, al'. split; [exact H1|]. destruct res; [discriminate|]. destruct H2; discriminate.
Defined.
