(* ===== verification/EventList.v ===== *)
(** liblog/log_event_list.cpp: the binary event lists of the log: a context
    to which integers, floats, strings and nested lists are written, and the
    parser that reads them back.  A context pointer that is not null is a
    [context]; the arrays of the struct are lists of their fixed lengths, and
    an access outside of them is an error of the program.  A [float] is its bit
    pattern. *)

From S2P Require Import Prelude.

Local Open Scope Z_scope.

Definition EIO : Z := 5.
Definition EBADF : Z := 9.
Definition EFAULT : Z := 14.
Definition EINVAL : Z := 22.
Definition EOVERFLOW : Z := 75.

Definition LOGGER_ENTRY_MAX_PAYLOAD : Z := 4068.
Definition MAX_EVENT_PAYLOAD : Z := LOGGER_ENTRY_MAX_PAYLOAD - 4.
Definition ANDROID_MAX_LIST_NEST_DEPTH : Z := 8.
Definition UINT16_MAX : Z := 65535.

Definition EVENT_TYPE_INT : Z := 0.
Definition EVENT_TYPE_LONG : Z := 1.
Definition EVENT_TYPE_STRING : Z := 2.
Definition EVENT_TYPE_LIST : Z := 3.
Definition EVENT_TYPE_FLOAT : Z := 4.
Definition EVENT_TYPE_LIST_STOP : Z := 10.
Definition EVENT_TYPE_UNKNOWN : Z := 63.

(** Sizes of the packed structs of the wire format. *)
Definition event_list_size : Z := 2.
Definition event_int_size : Z := 5.
Definition event_float_size : Z := 5.
Definition event_long_size : Z := 9.
Definition event_string_size : Z := 5.

Inductive ReadWriteFlag := kAndroidLoggerNone | kAndroidLoggerRead | kAndroidLoggerWrite.

Record context := mk_context {
  tag : Z;
  pos : Z;
  count : list Z;
  list_pos : list Z;
  list_nest_depth : Z;
  len : Z;
  overflow : bool;
  list_stop : bool;
  read_write_flag : ReadWriteFlag;
  storage : list Z
}.

Definition set_pos (c : context) (p : Z) : context :=
  mk_context (tag c) p (count c) (list_pos c) (list_nest_depth c) (len c) (overflow c) (list_stop c)
    (read_write_flag c) (storage c).
Definition set_count (c : context) (l : list Z) : context :=
  mk_context (tag c) (pos c) l (list_pos c) (list_nest_depth c) (len c) (overflow c) (list_stop c)
    (read_write_flag c) (storage c).
Definition set_list (c : context) (l : list Z) : context :=
  mk_context (tag c) (pos c) (count c) l (list_nest_depth c) (len c) (overflow c) (list_stop c)
    (read_write_flag c) (storage c).
Definition set_depth (c : context) (d : Z) : context :=
  mk_context (tag c) (pos c) (count c) (list_pos c) d (len c) (overflow c) (list_stop c)
    (read_write_flag c) (storage c).
Definition set_len (c : context) (n : Z) : context :=
  mk_context (tag c) (pos c) (count c) (list_pos c) (list_nest_depth c) n (overflow c) (list_stop c)
    (read_write_flag c) (storage c).
Definition set_overflow (c : context) : context :=
  mk_context (tag c) (pos c) (count c) (list_pos c) (list_nest_depth c) (len c) true (list_stop c)
    (read_write_flag c) (storage c).
Definition set_stop (c : context) (b : bool) : context :=
  mk_context (tag c) (pos c) (count c) (list_pos c) (list_nest_depth c) (len c) (overflow c) b
    (read_write_flag c) (storage c).
Definition set_flag (c : context) (f : ReadWriteFlag) : context :=
  mk_context (tag c) (pos c) (count c) (list_pos c) (list_nest_depth c) (len c) (overflow c) (list_stop c)
    f (storage c).
Definition set_storage (c : context) (s : list Z) : context :=
  mk_context (tag c) (pos c) (count c) (list_pos c) (list_nest_depth c) (len c) (overflow c) (list_stop c)
    (read_write_flag c) s.

(** * Arrays *)

Definition aget (l : list Z) (i : Z) : outcome Z :=
  if 0 <=? i then match l !! Z.to_nat i with Some x => Done x | None => Crash BadPointer end
  else Crash BadPointer.

Definition aput (l : list Z) (i : Z) (x : Z) : outcome (list Z) :=
  if (0 <=? i) && (i <? Z.of_nat (length l)) then Done (<[Z.to_nat i := x]> l) else Crash BadPointer.

(** [n] bytes from [i] on. *)
Definition mget (l : list Z) (i n : Z) : outcome (list Z) :=
  if (0 <=? i) && (0 <=? n) && (i + n <=? Z.of_nat (length l))
  then Done (take (Z.to_nat n) (drop (Z.to_nat i) l)) else Crash BadPointer.

Definition mput (l : list Z) (i : Z) (bs : list Z) : outcome (list Z) :=
  if (0 <=? i) && (i + Z.of_nat (length bs) <=? Z.of_nat (length l))
  then Done (take (Z.to_nat i) l ++ bs ++ drop (Z.to_nat i + length bs) l)
  else Crash BadPointer.

(** * Contexts *)

(** [calloc] or [memset]. *)
Definition zero_context : context :=
  mk_context 0 0 (replicate 9 0) (replicate 9 0) 0 0 false false kAndroidLoggerNone
    (replicate (Z.to_nat LOGGER_ENTRY_MAX_PAYLOAD) 0).

Definition init_context (c : context) (tag : Z) : outcome context :=
  let c := mk_context tag (pos c) (count c) (list_pos c) (list_nest_depth c) (len c) (overflow c) (list_stop c)
             kAndroidLoggerWrite (storage c) in
  let needed := event_list_size in
  let c := if MAX_EVENT_PAYLOAD <? pos c + needed then set_overflow c else c in
  let* s := aput (storage c) (pos c + 0) EVENT_TYPE_LIST in
  let c := set_storage c s in
  let* l := aput (list_pos c) 0 (pos c + 1) in
  Done (set_pos (set_list c l) (u32 (pos c + needed))).

Definition init_parser_context (c : context) (msg : list Z) (n : Z) : outcome context :=
  let n := if n <=? MAX_EVENT_PAYLOAD then n else MAX_EVENT_PAYLOAD in
  let c := set_len c n in
  let* bs := mget msg 0 n in
  let* s := mput (storage c) 0 bs in
  Done (set_flag (set_storage c s) kAndroidLoggerRead).

Definition create_android_logger (al : allocator) (tag : Z) : outcome (option context * allocator) :=
  match malloc al with
  | (None, al) => Done (None, al)
  | (Some _, al) => let* c := init_context zero_context tag in Done (Some c, al)
  end.

Definition create_android_log_parser (al : allocator) (msg : list Z) (n : Z) : outcome (option context * allocator) :=
  match malloc al with
  | (None, al) => Done (None, al)
  | (Some _, al) => let* c := init_parser_context zero_context msg n in Done (Some c, al)
  end.

Definition is_write (c : context) : bool :=
  match read_write_flag c with kAndroidLoggerWrite => true | _ => false end.
Definition is_read (c : context) : bool :=
  match read_write_flag c with kAndroidLoggerRead => true | _ => false end.

Definition android_log_reset (c : context) : outcome (context * Z) :=
  if negb (is_write c) then Done (c, - EBADF)
  else let* c := init_context zero_context (tag c) in Done (c, 0).

Definition android_log_parser_reset (c : context) (msg : list Z) (n : Z) : outcome (context * Z) :=
  if negb (is_read c) then Done (c, - EBADF)
  else let* c := init_parser_context zero_context msg n in Done (c, 0).

(** * Writing *)

(** [context->count[context->list_nest_depth]++] *)
Definition count_one (c : context) : outcome context :=
  let* n := aget (count c) (list_nest_depth c) in
  let* l := aput (count c) (list_nest_depth c) (u32 (n + 1)) in
  Done (set_count c l).

Definition android_log_write_list_begin (c : context) : outcome (context * Z) :=
  if negb (is_write c) then Done (c, - EBADF)
  else if ANDROID_MAX_LIST_NEST_DEPTH <? list_nest_depth c then Done (set_overflow c, - EOVERFLOW)
  else
    let needed := event_list_size in
    if MAX_EVENT_PAYLOAD <? pos c + needed then Done (set_overflow c, - EIO)
    else
      let* c := count_one c in
      let c := set_depth c (list_nest_depth c + 1) in
      if ANDROID_MAX_LIST_NEST_DEPTH <? list_nest_depth c then Done (set_overflow c, - EOVERFLOW)
      else if overflow c then Done (c, - EIO)
      else
        let* s := mput (storage c) (pos c) [EVENT_TYPE_LIST; 0] in
        let c := set_storage c s in
        let* l := aput (list_pos c) (list_nest_depth c) (u32 (pos c + 1)) in
        let c := set_list c l in
        let* n := aput (count c) (list_nest_depth c) 0 in
        Done (set_pos (set_count c n) (u32 (pos c + needed)), 0).

(** The common body of [android_log_write_int32], [android_log_write_int64]
    and [android_log_write_float32]. *)
Definition write_scalar (c : context) (needed : Z) (bs : list Z) : outcome (context * Z) :=
  if negb (is_write c) then Done (c, - EBADF)
  else if overflow c then Done (c, - EIO)
  else if MAX_EVENT_PAYLOAD <? pos c + needed then Done (set_overflow c, - EIO)
  else
    let* c := count_one c in
    let* s := mput (storage c) (pos c) bs in
    Done (set_pos (set_storage c s) (u32 (pos c + needed)), 0).

Definition android_log_write_int32 (c : context) (value : Z) : outcome (context * Z) :=
  write_scalar c event_int_size (EVENT_TYPE_INT :: le_encode 4 value).

Definition android_log_write_int64 (c : context) (value : Z) : outcome (context * Z) :=
  write_scalar c event_long_size (EVENT_TYPE_LONG :: le_encode 8 value).

Definition android_log_write_float32 (c : context) (value : Z) : outcome (context * Z) :=
  write_scalar c event_float_size (EVENT_TYPE_FLOAT :: le_encode 4 value).

Fixpoint strnlen (s : list Z) (maxlen : nat) : outcome Z :=
  match maxlen with
  | O => Done 0
  | S maxlen =>
      match s with
      | [] => Crash BadPointer
      | b :: s => if b =? 0 then Done 0 else let* n := strnlen s maxlen in Done (n + 1)
      end
  end.

(** [value] is the memory the pointer points to, [None] a null pointer. *)
Definition android_log_write_string8_len (c : context) (value : option (list Z)) (maxlen : Z) : outcome (context * Z) :=
  if negb (is_write c) then Done (c, - EBADF)
  else if overflow c then Done (c, - EIO)
  else
    let value := match value with Some v => v | None => [0] end in
    let* n := strnlen value (Z.to_nat maxlen) in
    let n := s32 n in
    let needed := u64 (event_string_size + n) in
    let truncated := MAX_EVENT_PAYLOAD <? u64 (pos c + needed) in
    let n := if truncated then s32 (u64 (MAX_EVENT_PAYLOAD - pos c - 1 - 4)) else n in
    if truncated && (n <=? 0) then Done (set_overflow c, - EIO)
    else
      let* c := count_one c in
      let* s := mput (storage c) (pos c) (EVENT_TYPE_STRING :: le_encode 4 n) in
      let* v := mget value 0 n in
      let* s := mput s (pos c + event_string_size) v in
      Done (set_pos (set_storage c s) (u32 (pos c + needed)), n).

Definition android_log_write_string8 (c : context) (value : option (list Z)) : outcome (context * Z) :=
  android_log_write_string8_len c value MAX_EVENT_PAYLOAD.

Definition android_log_write_list_end (c : context) : outcome (context * Z) :=
  if negb (is_write c) then Done (c, - EBADF)
  else if ANDROID_MAX_LIST_NEST_DEPTH <? list_nest_depth c then
    Done (set_depth (set_overflow c) (list_nest_depth c - 1), - EOVERFLOW)
  else if list_nest_depth c =? 0 then Done (set_overflow c, - EOVERFLOW)
  else
    let* p := aget (list_pos c) (list_nest_depth c) in
    if p <=? 0 then Done (set_overflow (set_depth c (list_nest_depth c - 1)), - EOVERFLOW)
    else
      let* n := aget (count c) (list_nest_depth c) in
      let* s := aput (storage c) p (u8 n) in
      Done (set_depth (set_storage c s) (list_nest_depth c - 1), 0).

(** The message of a finished list: where it starts and its length. *)
Definition finish_list (c : context) : outcome (context * Z * Z) :=
  let* n := aget (count c) 0 in
  let* s := aput (storage c) 1 (u8 n) in
  let c := set_len (set_storage c s) (pos c) in
  Done (if n <=? 1 then (c, 2, if len c - 2 <? 0 then 0 else len c - 2) else (c, 0, len c)).

Inductive log_id := LOG_ID_EVENTS | LOG_ID_SECURITY | LOG_ID_STATS | LOG_ID_OTHER.

(** [bwrite] is the writer of the log buffer (of liblog's logger_write.cpp):
    it gets the tag and the bytes of the message. *)
Definition android_log_write_list (bwrite : log_id -> Z -> list Z -> Z) (c : context) (id : log_id)
  : outcome (context * Z) :=
  match id with
  | LOG_ID_OTHER => Done (c, - EINVAL)
  | _ =>
      if negb (is_write c) then Done (c, - EBADF)
      else if negb (list_nest_depth c =? 0) then Done (c, - EIO)
      else
        let* (c, start, n) := finish_list c in
        let* msg := mget (storage c) start n in
        Done (c, bwrite id (tag c) msg)
  end.

(** The start of the buffer in the storage, if it is set, and the result. *)
Definition android_log_write_list_buffer (c : context) : outcome (context * option Z * Z) :=
  if negb (is_write c) then Done (c, None, - EBADF)
  else if negb (list_nest_depth c =? 0) then Done (c, None, - EIO)
  else let* (c, start, n) := finish_list c in Done (c, Some start, n).

(** * Reading *)

(** [elem.data]: a string is the position of its first byte. *)
Inductive elem_data := NoData | Int32 (v : Z) | Int64 (v : Z) | String (start : Z).

Record elem := mk_elem { etype : Z; complete : bool; elen : Z; edata : elem_data }.

Definition no_elem : elem := mk_elem 0 false 0 NoData.

(** The suffix of the scalar and string cases: unless it is a peek, the
    element is counted and the position moves to [p]. *)
Definition consume (c : context) (peek : bool) (p : Z) : outcome context :=
  if peek then Done c
  else
    let* n := aget (count c) (list_nest_depth c) in
    let* c :=
      if n =? 0 then Done (set_stop c true)
      else
        let* l := aput (count c) (list_nest_depth c) (n - 1) in
        Done (if n - 1 =? 0 then set_stop (set_count c l) true else set_count c l) in
    Done (set_pos c p).

(** [!context->list_nest_depth && !context->count[0]] *)
Definition is_complete (c : context) : outcome bool :=
  let* n := aget (count c) 0 in Done ((list_nest_depth c =? 0) && (n =? 0)).

(** The guard of the function: nothing can be parsed from this context. *)
Definition exhausted (c : context) : outcome bool :=
  if negb (is_read c) || (ANDROID_MAX_LIST_NEST_DEPTH <? list_nest_depth c) then Done true
  else let* n := aget (count c) (list_nest_depth c) in Done (MAX_EVENT_PAYLOAD / 2 <=? n).

Definition read_exhausted (c : context) : outcome elem :=
  let* stop :=
    if list_stop c then Done true
    else if list_nest_depth c <=? ANDROID_MAX_LIST_NEST_DEPTH
         then let* n := aget (count c) (list_nest_depth c) in Done (n =? 0)
         else Done false in
  Done (mk_elem (if stop : bool then EVENT_TYPE_LIST_STOP else EVENT_TYPE_UNKNOWN) true 0 NoData).

Definition read_stop (c : context) (peek : bool) : outcome (context * elem) :=
  let* n0 := aget (count c) 0 in
  let* comp :=
    if negb (n0 =? 0) then Done false
    else if list_nest_depth c =? 0 then Done true
    else if list_nest_depth c =? 1 then let* n1 := aget (count c) 1 in Done (n1 =? 0)
    else Done false in
  let el := mk_elem EVENT_TYPE_LIST_STOP comp 0 NoData in
  if peek then Done (c, el)
  else
    let* b := aget (storage c) (pos c) in
    let c := if b =? EVENT_TYPE_LIST_STOP then set_pos c (pos c + 1) else c in
    if negb (list_nest_depth c =? 0) then
      let c := set_depth c (list_nest_depth c - 1) in
      let* n := aget (count c) (list_nest_depth c) in
      Done (if negb (n =? 0) then set_stop c false else c, el)
    else Done (set_stop c false, el).

Definition read_int (c : context) (ty : Z) (peek : bool) : outcome (context * elem) :=
  if len c <? pos c + event_int_size then Done (c, mk_elem EVENT_TYPE_UNKNOWN false 4 NoData)
  else
    let* bs := mget (storage c) (pos c + 1) 4 in
    let* comp := is_complete c in
    let* c := consume c peek (pos c + event_int_size) in
    Done (c, mk_elem ty comp 4 (Int32 (s32 (le_decode bs)))).

Definition read_long (c : context) (peek : bool) : outcome (context * elem) :=
  if len c <? pos c + event_long_size then Done (c, mk_elem EVENT_TYPE_UNKNOWN false 8 NoData)
  else
    let* bs := mget (storage c) (pos c + 1) 8 in
    let* comp := is_complete c in
    let* c := consume c peek (pos c + event_long_size) in
    Done (c, mk_elem EVENT_TYPE_LONG comp 8 (Int64 (s64 (le_decode bs)))).

Definition read_string (c : context) (peek : bool) : outcome (context * elem) :=
  if len c <? pos c + event_string_size then Done (c, mk_elem EVENT_TYPE_UNKNOWN true 0 NoData)
  else
    let* bs := mget (storage c) (pos c + 1) 4 in
    let n := s32 (le_decode bs) in
    let p := pos c + event_string_size in
    if UINT16_MAX <=? n then Done (c, mk_elem EVENT_TYPE_UNKNOWN false 0 NoData)
    else
      let n := u16 n in
      let truncated := len c <? p + n in
      let n := if truncated then u16 (len c - p) else n in
      if truncated && (n =? 0) then Done (c, mk_elem EVENT_TYPE_UNKNOWN true n NoData)
      else
        let* comp := is_complete c in
        let* c := consume c peek (p + n) in
        Done (c, mk_elem EVENT_TYPE_STRING comp n (String p)).

Definition read_list (c : context) (peek : bool) : outcome (context * elem) :=
  if len c <? pos c + event_list_size then Done (c, mk_elem EVENT_TYPE_UNKNOWN true 0 NoData)
  else
    let el := mk_elem EVENT_TYPE_LIST (ANDROID_MAX_LIST_NEST_DEPTH <=? list_nest_depth c) 0 NoData in
    if peek then Done (c, el)
    else
      let* b := aget (storage c) (pos c + 1) in
      let element_count := if b <? 128 then b else b - 256 in
      let* n := aget (count c) (list_nest_depth c) in
      let* c :=
        if negb (n =? 0)
        then let* l := aput (count c) (list_nest_depth c) (n - 1) in Done (set_count c l)
        else Done c in
      let c := set_stop c (element_count =? 0) in
      let c := set_depth c (list_nest_depth c + 1) in
      let* c :=
        if list_nest_depth c <=? ANDROID_MAX_LIST_NEST_DEPTH
        then let* l := aput (count c) (list_nest_depth c) (u32 element_count) in Done (set_count c l)
        else Done c in
      Done (set_pos c (pos c + event_list_size), el).

(** A newline where an element is expected ends the list. *)
Definition read_newline (c : context) (peek : bool) : outcome (context * elem) :=
  let comp := list_nest_depth c =? 0 in
  let c1 := if peek then c else set_pos c (pos c + 1) in
  if 0 <? list_nest_depth c then
    Done (if peek then c1 else set_depth c1 (list_nest_depth c1 - 1), mk_elem EVENT_TYPE_LIST_STOP comp 0 NoData)
  else Done (c1, mk_elem EVENT_TYPE_UNKNOWN comp 0 NoData).

Definition android_log_read_next_internal (c : context) (peek : bool) : outcome (context * elem) :=
  let* ex := exhausted c in
  if ex : bool then let* el := read_exhausted c in Done (c, el)
  else if list_stop c then read_stop c peek
  else if len c <? pos c + 1 then Done (c, mk_elem EVENT_TYPE_UNKNOWN true 0 NoData)
  else
    let* ty := aget (storage c) (pos c) in
    if (ty =? EVENT_TYPE_FLOAT) || (ty =? EVENT_TYPE_INT) then read_int c ty peek
    else if ty =? EVENT_TYPE_LONG then read_long c peek
    else if ty =? EVENT_TYPE_STRING then read_string c peek
    else if ty =? EVENT_TYPE_LIST then read_list c peek
    else if ty =? EVENT_TYPE_LIST_STOP then read_newline c peek
    else Done (c, mk_elem EVENT_TYPE_UNKNOWN false 0 NoData).

Definition android_log_read_next (c : context) : outcome (context * elem) := android_log_read_next_internal c false.
Definition android_log_peek_next (c : context) : outcome (context * elem) := android_log_read_next_internal c true.

(** * Arrays in range *)

Lemma aget_ok l i : 0 <= i < Z.of_nat (length l) -> exists x, aget l i = Done x /\ l !! Z.to_nat i = Some x.
Proof.
  intros Hi. unfold aget. destruct (Z.leb_spec 0 i); [|lia].
  destruct (lookup_lt_is_Some_2 l (Z.to_nat i)) as [x Hx]; [lia|]. rewrite Hx. by exists x.
Qed.

Lemma aget_eq l i x : 0 <= i -> l !! Z.to_nat i = Some x -> aget l i = Done x.
Proof. intros Hi Hx. unfold aget. destruct (Z.leb_spec 0 i); [|lia]. by rewrite Hx. Qed.

Lemma aput_ok l i x : 0 <= i < Z.of_nat (length l) -> aput l i x = Done (<[Z.to_nat i := x]> l).
Proof. intros Hi. unfold aput. destruct (Z.leb_spec 0 i), (Z.ltb_spec i (Z.of_nat (length l))); try lia; done. Qed.

Lemma mget_ok l i n :
  0 <= i -> 0 <= n -> i + n <= Z.of_nat (length l) -> mget l i n = Done (take (Z.to_nat n) (drop (Z.to_nat i) l)).
Proof.
  intros Hi Hn Hl. unfold mget.
  destruct (Z.leb_spec 0 i), (Z.leb_spec 0 n), (Z.leb_spec (i + n) (Z.of_nat (length l))); try lia; done.
Qed.

Lemma mput_ok l i bs :
  0 <= i -> i + Z.of_nat (length bs) <= Z.of_nat (length l) ->
  mput l i bs = Done (take (Z.to_nat i) l ++ bs ++ drop (Z.to_nat i + length bs) l).
Proof.
  intros Hi Hl. unfold mput.
  destruct (Z.leb_spec 0 i), (Z.leb_spec (i + Z.of_nat (length bs)) (Z.of_nat (length l))); try lia; done.
Qed.

(** * The parser on any message *)

Record rd_ok (c : context) : Prop := {
  rd_storage : Z.of_nat (length (storage c)) = LOGGER_ENTRY_MAX_PAYLOAD;
  rd_count : length (count c) = 9%nat;
  rd_pos : 0 <= pos c <= len c;
  rd_len : len c <= MAX_EVENT_PAYLOAD;
  rd_depth : 0 <= list_nest_depth c;
  rd_behind : forall i, len c <= i < LOGGER_ENTRY_MAX_PAYLOAD -> storage c !! Z.to_nat i = Some 0
}.

(** An upper bound of the calls until the end of the message is reported. *)
Definition calls_left (c : context) : Z :=
  4 * (len c - pos c) + 2 * list_nest_depth c + (if list_stop c then 1 else 0).

Definition last_elem (el : elem) : Prop := etype el = EVENT_TYPE_UNKNOWN \/ complete el = true.

Definition in_message (c : context) (el : elem) : Prop :=
  match edata el with String p => 0 <= p /\ p + elen el <= len c | _ => True end.

(** One call: what it may change. *)
Record read_ok (c : context) (peek : bool) (c' : context) (el : elem) : Prop := {
  ro_ok : rd_ok c';
  ro_same : len c' = len c /\ storage c' = storage c /\ read_write_flag c' = read_write_flag c;
  ro_peek : peek = true -> c' = c;
  ro_progress : peek = false -> last_elem el \/ calls_left c' < calls_left c;
  ro_data : in_message c el
}.

(** The position moved forward, within the message, and the arrays kept. *)
Lemma rd_moved c c' p :
  rd_ok c -> len c' = len c -> storage c' = storage c -> length (count c') = 9%nat -> 0 <= list_nest_depth c' ->
  pos c' = p -> pos c <= p <= len c -> rd_ok c'.
Proof.
  intros R Hl Hs Hc Hd <- Hp. destruct R as [R1 R2 R3 R4 R5 R6].
  constructor; rewrite ?Hl, ?Hs; try done; lia.
Qed.

Lemma consume_ok c peek p :
  rd_ok c -> list_nest_depth c <= ANDROID_MAX_LIST_NEST_DEPTH -> pos c < p <= len c ->
  exists c', consume c peek p = Done c' /\ rd_ok c' /\
    len c' = len c /\ storage c' = storage c /\ read_write_flag c' = read_write_flag c /\
    (peek = true -> c' = c) /\ (peek = false -> calls_left c' < calls_left c).
Proof.
  intros R Hd Hp. unfold consume. destruct peek; [exists c; do 5 (split; [done|]); done|].
  pose proof (rd_count _ R) as Hc. pose proof (rd_depth _ R). unfold ANDROID_MAX_LIST_NEST_DEPTH in Hd.
  destruct (aget_ok (count c) (list_nest_depth c)) as (n & -> & _); [lia|]. cbn [obind].
  destruct (n =? 0); [|rewrite aput_ok by lia; cbn [obind]; destruct (n - 1 =? 0)]; cbn [obind];
    (eexists; split; [reflexivity|]; split; [eapply (rd_moved c); try done; cbn; rewrite ?length_insert; try lia|];
     do 3 (split; [done|]); split; [done|]; intros _; unfold calls_left; cbn; destruct (list_stop c); lia).
Qed.

Lemma is_complete_ok c : rd_ok c -> exists b, is_complete c = Done b.
Proof.
  intros R. unfold is_complete. pose proof (rd_count _ R). destruct (aget_ok (count c) 0) as (n & -> & _); [lia|].
  by eexists.
Qed.

(** An element of which nothing but its kind is known. *)
Lemma read_ok_end c peek el :
  rd_ok c -> last_elem el -> edata el = NoData -> read_ok c peek c el.
Proof. intros R H1 H2. constructor; [done|done|done|by left|]. unfold in_message. by rewrite H2. Qed.

Lemma unknown_last b n d : last_elem (mk_elem EVENT_TYPE_UNKNOWN b n d).
Proof. by left. Qed.

Lemma complete_last t n d : last_elem (mk_elem t true n d).
Proof. by right. Qed.

Ltac rd_facts R :=
  pose proof (rd_storage _ R); pose proof (rd_count _ R); pose proof (rd_pos _ R); pose proof (rd_len _ R);
  pose proof (rd_depth _ R);
  unfold MAX_EVENT_PAYLOAD, LOGGER_ENTRY_MAX_PAYLOAD, ANDROID_MAX_LIST_NEST_DEPTH in *.

Ltac read_end := eexists _, _; split; [reflexivity|apply read_ok_end; [assumption|first [apply unknown_last | apply complete_last]|reflexivity]].

(** The end of the scalar and string cases. *)
Lemma read_consume c peek p t n d :
  rd_ok c -> list_nest_depth c <= ANDROID_MAX_LIST_NEST_DEPTH -> pos c < p <= len c ->
  (forall comp, in_message c (mk_elem t comp n d)) ->
  exists c' el, (let* comp := is_complete c in let* c := consume c peek p in Done (c, mk_elem t comp n d)) = Done (c', el) /\
    read_ok c peek c' el.
Proof.
  intros R Hd Hp Hm. destruct (is_complete_ok c R) as (comp & ->). cbn [obind].
  destruct (consume_ok c peek p R Hd Hp) as (c' & -> & R' & H1 & H2 & H3 & H4 & H5). cbn [obind].
  eexists _, _. split; [reflexivity|]. constructor; [done|done|done|by right; auto|done].
Qed.

Lemma read_int_ok c ty peek :
  rd_ok c -> list_nest_depth c <= ANDROID_MAX_LIST_NEST_DEPTH ->
  exists c' el, read_int c ty peek = Done (c', el) /\ read_ok c peek c' el.
Proof.
  intros R Hd. unfold read_int, event_int_size. rd_facts R.
  destruct (Z.ltb_spec (len c) (pos c + 5)); [read_end|].
  rewrite mget_ok by lia. cbn [obind]. apply read_consume; [done|done|lia|done].
Qed.

Lemma read_long_ok c peek :
  rd_ok c -> list_nest_depth c <= ANDROID_MAX_LIST_NEST_DEPTH ->
  exists c' el, read_long c peek = Done (c', el) /\ read_ok c peek c' el.
Proof.
  intros R Hd. unfold read_long, event_long_size. rd_facts R.
  destruct (Z.ltb_spec (len c) (pos c + 9)); [read_end|].
  rewrite mget_ok by lia. cbn [obind]. apply read_consume; [done|done|lia|done].
Qed.

Lemma read_string_ok c peek :
  rd_ok c -> list_nest_depth c <= ANDROID_MAX_LIST_NEST_DEPTH ->
  exists c' el, read_string c peek = Done (c', el) /\ read_ok c peek c' el.
Proof.
  intros R Hd. unfold read_string, event_string_size. rd_facts R.
  destruct (Z.ltb_spec (len c) (pos c + 5)); [read_end|].
  rewrite mget_ok by lia. cbn [obind]. set (n := s32 _). destruct (UINT16_MAX <=? n); [read_end|].
  pose proof (u16_range n) as Hn. unfold is_u16 in Hn.
  destruct (Z.ltb_spec (len c) (pos c + 5 + u16 n)) as [Ht|Ht].
  - rewrite (u16_small (len c - (pos c + 5))) by (unfold is_u16; lia).
    destruct (Z.eqb_spec (len c - (pos c + 5)) 0); cbn [andb]; [read_end|].
    apply read_consume; [done|done|lia|]. intros comp. unfold in_message. cbn. lia.
  - cbn [andb]. apply read_consume; [done|done|lia|]. intros comp. unfold in_message. cbn. lia.
Qed.

Lemma read_list_ok c peek :
  rd_ok c -> list_nest_depth c <= ANDROID_MAX_LIST_NEST_DEPTH ->
  exists c' el, read_list c peek = Done (c', el) /\ read_ok c peek c' el.
Proof.
  intros R Hd. unfold read_list, event_list_size. rd_facts R.
  destruct (Z.ltb_spec (len c) (pos c + 2)); [read_end|].
  destruct peek; [eexists _, _; split; [reflexivity|by constructor]|].
  destruct (aget_ok (storage c) (pos c + 1)) as (b & -> & _); [lia|]. cbn [obind].
  set (ec := if b <? 128 then b else b - 256).
  destruct (aget_ok (count c) (list_nest_depth c)) as (n & -> & _); [lia|]. cbn [obind].
  assert (Hfin : forall c1, len c1 = len c -> storage c1 = storage c -> read_write_flag c1 = read_write_flag c ->
    length (count c1) = 9%nat -> list_nest_depth c1 = list_nest_depth c + 1 -> pos c1 = pos c ->
    forall el, in_message c el -> read_ok c false (set_pos c1 (pos c1 + 2)) el).
  { intros c1 E1 E2 E3 E4 E5 E6 el Hm. constructor; [|done|done| |done].
    - eapply (rd_moved c); try done; cbn; lia.
    - intros _. right. unfold calls_left. cbn. destruct (list_stop c1), (list_stop c); lia. }
  destruct (negb (n =? 0)); [rewrite aput_ok by lia|]; cbn [obind list_nest_depth set_depth set_stop set_count count];
    (destruct (Z.leb_spec (list_nest_depth c + 1) 8);
     [rewrite aput_ok by (cbn; rewrite ?length_insert; lia)|]); cbn [obind];
    (eexists _, _; split; [reflexivity|]; apply Hfin; cbn; rewrite ?length_insert; done).
Qed.

Lemma read_newline_ok c peek :
  rd_ok c -> pos c < len c ->
  exists c' el, read_newline c peek = Done (c', el) /\ read_ok c peek c' el.
Proof.
  intros R Hp. unfold read_newline. rd_facts R.
  destruct (Z.ltb_spec 0 (list_nest_depth c)); destruct peek; cbn [set_pos list_nest_depth];
    eexists _, _; (split; [reflexivity|]).
  - by constructor.
  - constructor; [|done|done| |done].
    + eapply (rd_moved c); try done; cbn; lia.
    + intros _. right. unfold calls_left. cbn. destruct (list_stop c); lia.
  - apply read_ok_end; [done|apply unknown_last|done].
  - constructor; [|done|done|intros _; left; apply unknown_last|done].
    eapply (rd_moved c); try done; cbn; lia.
Qed.

Lemma read_stop_ok c peek :
  rd_ok c -> list_nest_depth c <= ANDROID_MAX_LIST_NEST_DEPTH -> list_stop c = true ->
  exists c' el, read_stop c peek = Done (c', el) /\ read_ok c peek c' el.
Proof.
  intros R Hd Hs. unfold read_stop. rd_facts R.
  destruct (aget_ok (count c) 0) as (n0 & -> & _); [lia|]. cbn [obind].
  destruct (aget_ok (count c) 1) as (n1 & E1 & _); [lia|]. rewrite E1. cbn [obind].
  assert (exists comp, (if negb (n0 =? 0) then Done false else if list_nest_depth c =? 0 then Done true
    else if list_nest_depth c =? 1 then Done (n1 =? 0) else Done false) = Done comp) as (comp & ->)
    by (repeat case_match; by eexists).
  cbn [obind]. destruct peek; [eexists _, _; split; [reflexivity|by constructor]|].
  destruct (aget_ok (storage c) (pos c)) as (b & -> & Hb); [lia|]. cbn [obind].
  set (c1 := if b =? EVENT_TYPE_LIST_STOP then set_pos c (pos c + 1) else c).
  assert (Hc1 : rd_ok c1 /\ len c1 = len c /\ storage c1 = storage c /\ read_write_flag c1 = read_write_flag c /\
    count c1 = count c /\ list_nest_depth c1 = list_nest_depth c /\ list_stop c1 = true /\ pos c <= pos c1).
  { unfold c1. destruct (Z.eqb_spec b EVENT_TYPE_LIST_STOP) as [->|]; [|do 7 (split; [done|]); lia].
    assert (pos c < len c).
    { destruct (Z.lt_ge_cases (pos c) (len c)); [done|]. rewrite (rd_behind _ R) in Hb by (unfold LOGGER_ENTRY_MAX_PAYLOAD; lia). done. }
    split; [eapply (rd_moved c); try done; cbn; lia|]. do 6 (split; [done|]). cbn. lia. }
  destruct Hc1 as (R1 & E2 & E3 & E4 & E5 & E6 & E7 & E8). rewrite E6. pose proof (rd_pos _ R1).
  destruct (Z.eqb_spec (list_nest_depth c) 0) as [Hz|Hnz]; cbn [negb].
  - eexists _, _. split; [reflexivity|]. constructor; [|done|done| |done].
    + eapply (rd_moved c1); try done; cbn; lia || (by rewrite E5).
    + intros _. right. unfold calls_left. cbn. rewrite Hs, E2, E6. lia.
  - cbn [list_nest_depth set_depth count]. rewrite E5.
    destruct (aget_ok (count c) (list_nest_depth c - 1)) as (n & -> & _); [lia|]. cbn [obind].
    eexists _, _. split; [reflexivity|].
    destruct (negb (n =? 0)); (constructor; [|done|done| |done]);
      first [eapply (rd_moved c1); try done; cbn; lia || (by rewrite E5) |
             intros _; right; unfold calls_left; cbn; rewrite Hs, ?E7, E2; lia].
Qed.

(** Whatever the message, a call succeeds and stays within it. *)
Lemma read_next_ok c peek :
  rd_ok c -> exists c' el, android_log_read_next_internal c peek = Done (c', el) /\ read_ok c peek c' el.
Proof.
  intros R. unfold android_log_read_next_internal, exhausted. rd_facts R.
  assert (Hex : exists c' el, (let* el := read_exhausted c in Done (c, el)) = Done (c', el) /\ read_ok c peek c' el).
  { unfold read_exhausted. unfold ANDROID_MAX_LIST_NEST_DEPTH. destruct (list_stop c); [cbn [obind]; read_end|].
    destruct (Z.leb_spec (list_nest_depth c) 8); [|cbn [obind]; read_end].
    destruct (aget_ok (count c) (list_nest_depth c)) as (n & -> & _); [lia|]. cbn [obind]. read_end. }
  destruct (negb (is_read c)); cbn [orb]; [exact Hex|].
  destruct (Z.ltb_spec 8 (list_nest_depth c)); cbn [orb]; [exact Hex|].
  destruct (aget_ok (count c) (list_nest_depth c)) as (n & -> & _); [lia|]. cbn [obind].
  destruct (_ <=? n); [exact Hex|]. destruct (list_stop c) eqn:Hs; [by apply read_stop_ok|].
  destruct (Z.ltb_spec (len c) (pos c + 1)); [read_end|].
  destruct (aget_ok (storage c) (pos c)) as (ty & -> & _); [lia|]. cbn [obind].
  destruct ((ty =? EVENT_TYPE_FLOAT) || (ty =? EVENT_TYPE_INT)); [by apply read_int_ok|].
  destruct (ty =? EVENT_TYPE_LONG); [by apply read_long_ok|].
  destruct (ty =? EVENT_TYPE_STRING); [by apply read_string_ok|].
  destruct (ty =? EVENT_TYPE_LIST); [by apply read_list_ok|].
  destruct (ty =? EVENT_TYPE_LIST_STOP); [apply read_newline_ok; [done|lia]|]. read_end.
Qed.

(** ** Sequences of calls *)

(** A sequence of reads ([false]) and peeks ([true]). *)
Fixpoint calls (ops : list bool) (c : context) : outcome (list elem * context) :=
  match ops with
  | [] => Done ([], c)
  | peek :: ops =>
      let* (c, el) := android_log_read_next_internal c peek in
      let* (els, c) := calls ops c in
      Done (el :: els, c)
  end.

Lemma calls_ok ops c :
  rd_ok c -> exists els c', calls ops c = Done (els, c') /\ rd_ok c' /\ len c' = len c /\ storage c' = storage c /\
    length els = length ops /\ Forall (in_message c) els.
Proof.
  revert c. induction ops as [|peek ops IH]; intros c R.
  { exists [], c. repeat split; done || constructor || apply R. }
  destruct (read_next_ok c peek R) as (c1 & el & E1 & H1). destruct (ro_same _ _ _ _ H1) as (Hl & Hs & _).
  destruct (IH c1 (ro_ok _ _ _ _ H1)) as (els & c' & E2 & R' & Hl' & Hs' & Hn & Hf).
  exists (el :: els), c'. cbn [calls]. rewrite E1. cbn [obind]. rewrite E2. cbn [obind].
  split; [done|]. split; [done|]. split; [congruence|]. split; [congruence|]. split; [cbn; lia|].
  constructor; [apply (ro_data _ _ _ _ H1)|]. eapply Forall_impl; [exact Hf|].
  intros x. unfold in_message. by rewrite Hl.
Qed.

Lemma reads_end c :
  rd_ok c -> exists n els c', (Z.of_nat n <= calls_left c + 1) /\ calls (replicate n false) c = Done (els, c') /\
    exists el, last els = Some el /\ last_elem el.
Proof.
  intros R. remember (Z.to_nat (calls_left c)) as m eqn:Hm.
  assert (H0 : forall c, rd_ok c -> 0 <= calls_left c).
  { intros c0 R0. unfold calls_left. pose proof (rd_pos _ R0). pose proof (rd_depth _ R0). destruct (list_stop c0); lia. }
  revert c R Hm. induction (lt_wf m) as [m _ IH]. intros c R ->.
  destruct (read_next_ok c false R) as (c1 & el & E1 & H1). pose proof (H0 c R).
  destruct (ro_progress _ _ _ _ H1 eq_refl) as [Hlast|Hlt].
  - exists 1%nat, [el], c1. split; [lia|]. cbn [replicate calls]. rewrite E1. cbn [obind]. split; [done|]. by exists el.
  - pose proof (H0 c1 (ro_ok _ _ _ _ H1)).
    destruct (IH (Z.to_nat (calls_left c1)) ltac:(lia) c1 (ro_ok _ _ _ _ H1) eq_refl) as (n & els & c' & Hn & E2 & el' & Hl & Hle).
    exists (S n), (el :: els), c'. split; [lia|]. cbn [replicate calls]. rewrite E1. cbn [obind]. rewrite E2. cbn [obind].
    split; [done|]. exists el'. split; [|done]. destruct els; [done|]. exact Hl.
Qed.

(** A parser of any message is in order. *)
Lemma init_parser_ok msg n :
  0 <= n <= Z.of_nat (length msg) ->
  exists c, init_parser_context zero_context msg n = Done c /\ rd_ok c /\
    len c = Z.min n MAX_EVENT_PAYLOAD /\ is_read c = true /\ pos c = 0 /\ list_nest_depth c = 0 /\ list_stop c = false /\
    count c = replicate 9 0 /\
    storage c = take (Z.to_nat (len c)) msg ++ replicate (Z.to_nat (LOGGER_ENTRY_MAX_PAYLOAD - len c)) 0.
Proof.
  intros Hn. unfold init_parser_context. set (m := if n <=? MAX_EVENT_PAYLOAD then n else MAX_EVENT_PAYLOAD).
  assert (Hm : m = Z.min n MAX_EVENT_PAYLOAD).
  { unfold m. destruct (Z.leb_spec n MAX_EVENT_PAYLOAD); lia. }
  assert (0 <= m <= MAX_EVENT_PAYLOAD /\ m <= n) as [Hm1 Hm2] by (unfold MAX_EVENT_PAYLOAD, LOGGER_ENTRY_MAX_PAYLOAD in *; lia).
  clearbody m. unfold MAX_EVENT_PAYLOAD, LOGGER_ENTRY_MAX_PAYLOAD in Hm1. rewrite mget_ok by lia. cbn [obind].
  rewrite drop_0. assert (Hlt : length (take (Z.to_nat m) msg) = Z.to_nat m) by (rewrite length_take; lia).
  rewrite mput_ok; [|lia|cbn [storage set_len zero_context]; rewrite length_replicate, Hlt; unfold LOGGER_ENTRY_MAX_PAYLOAD; lia].
  cbn [obind]. eexists. split; [reflexivity|].
  cbn [set_flag set_storage set_len zero_context storage len pos list_nest_depth list_stop count is_read read_write_flag].
  assert (Hst : take (Z.to_nat 0) (replicate (Z.to_nat LOGGER_ENTRY_MAX_PAYLOAD) 0) ++ take (Z.to_nat m) msg ++
    drop (Z.to_nat 0 + length (take (Z.to_nat m) msg)) (replicate (Z.to_nat LOGGER_ENTRY_MAX_PAYLOAD) 0) =
    take (Z.to_nat m) msg ++ replicate (Z.to_nat (LOGGER_ENTRY_MAX_PAYLOAD - m)) 0).
  { rewrite Hlt. change (Z.to_nat 0) with 0%nat. rewrite take_0, Nat.add_0_l, drop_replicate. cbn [app]. do 2 f_equal.
    unfold LOGGER_ENTRY_MAX_PAYLOAD. lia. }
  rewrite Hst. split; [|do 6 (split; [done|]); done].
  constructor; cbn [set_flag set_storage set_len zero_context storage count pos len list_nest_depth]; unfold LOGGER_ENTRY_MAX_PAYLOAD, MAX_EVENT_PAYLOAD in *.
  - rewrite length_app, Hlt, length_replicate. lia.
  - done.
  - lia.
  - unfold LOGGER_ENTRY_MAX_PAYLOAD. lia.
  - lia.
  - intros i Hi. rewrite lookup_app_r by lia. apply lookup_replicate. split; [done|]. lia.
Qed.

(** * Events and their encoding *)

Inductive event :=
| EInt (v : Z)
| ELong (v : Z)
| EFloat (bits : Z)
| EStr (s : list Z)
| EList (es : list event).

Fixpoint event_ind' (P : event -> Prop) (HI : forall v, P (EInt v)) (HL : forall v, P (ELong v))
    (HF : forall b, P (EFloat b)) (HS : forall s, P (EStr s)) (HE : forall es, Forall P es -> P (EList es))
    (e : event) : P e :=
  match e with
  | EInt v => HI v
  | ELong v => HL v
  | EFloat b => HF b
  | EStr s => HS s
  | EList es =>
      HE es ((fix go es : Forall P es :=
                match es with
                | [] => Forall_nil_2 P
                | e :: es => Forall_cons_2 P e es (event_ind' P HI HL HF HS HE e) (go es)
                end) es)
  end.

Fixpoint encode (e : event) : list Z :=
  match e with
  | EInt v => EVENT_TYPE_INT :: le_encode 4 v
  | ELong v => EVENT_TYPE_LONG :: le_encode 8 v
  | EFloat b => EVENT_TYPE_FLOAT :: le_encode 4 b
  | EStr s => EVENT_TYPE_STRING :: le_encode 4 (Z.of_nat (length s)) ++ s
  | EList es => EVENT_TYPE_LIST :: Z.of_nat (length es) :: concat (encode <$> es)
  end.

Definition encode_all (es : list event) : list Z := concat (encode <$> es).

(** Values of their types, strings without NUL, lists that can be nested
    [d] deep and have at most [m] elements. *)
Fixpoint ev_ok (m d : Z) (e : event) : Prop :=
  match e with
  | EInt v => - 2 ^ 31 <= v < 2 ^ 31
  | ELong v => - 2 ^ 63 <= v < 2 ^ 63
  | EFloat b => 0 <= b < 2 ^ 32
  | EStr s => Forall (fun b => 0 < b < 256) s
  | EList es =>
      d < ANDROID_MAX_LIST_NEST_DEPTH /\ Z.of_nat (length es) <= m /\
      (fix go es := match es with [] => True | e :: es => ev_ok m (d + 1) e /\ go es end) es
  end.

Lemma ev_ok_list m d es :
  ev_ok m d (EList es) <->
  d < ANDROID_MAX_LIST_NEST_DEPTH /\ Z.of_nat (length es) <= m /\ Forall (ev_ok m (d + 1)) es.
Proof.
  cbn [ev_ok]. assert ((fix go es := match es with [] => True | e :: es => ev_ok m (d + 1) e /\ go es end) es <->
    Forall (ev_ok m (d + 1)) es) as ->; [|done].
  induction es as [|e es IH]; [split; [constructor|done]|]. rewrite Forall_cons, IH. done.
Qed.

Lemma ev_ok_weaken m m' d d' e : m <= m' -> d' <= d -> ev_ok m d e -> ev_ok m' d' e.
Proof.
  intros Hm. revert d d'. induction e as [v|v|b|s|es IH] using event_ind'; intros d d' Hd; [done|done|done|done|].
  rewrite !ev_ok_list. intros (H1 & H2 & H3). split; [lia|]. split; [lia|].
  rewrite Forall_forall in *. intros e He. apply (IH e He (d + 1)); [lia|by apply H3].
Qed.

(** A caller that writes an event, with the calls the API offers for it. *)
Fixpoint write_event (e : event) (c : context) : outcome context :=
  match e with
  | EInt v => let* (c, _) := android_log_write_int32 c v in Done c
  | ELong v => let* (c, _) := android_log_write_int64 c v in Done c
  | EFloat b => let* (c, _) := android_log_write_float32 c b in Done c
  | EStr s => let* (c, _) := android_log_write_string8 c (Some (s ++ [0])) in Done c
  | EList es =>
      let* (c, _) := android_log_write_list_begin c in
      let* c := (fix go es c := match es with [] => Done c | e :: es => let* c := write_event e c in go es c end) es c in
      let* (c, _) := android_log_write_list_end c in Done c
  end.

Fixpoint write_events (es : list event) (c : context) : outcome context :=
  match es with [] => Done c | e :: es => let* c := write_event e c in write_events es c end.

Lemma write_event_list es c :
  write_event (EList es) c =
  (let* (c, _) := android_log_write_list_begin c in
   let* c := write_events es c in
   let* (c, _) := android_log_write_list_end c in Done c).
Proof. reflexivity. Qed.

(** ** Bytes written into the storage *)

Lemma mput_splice l i bs :
  0 <= i -> i + Z.of_nat (length bs) <= Z.of_nat (length l) -> mput l i bs = Done (splice l (Z.to_nat i) bs).
Proof. apply mput_ok. Qed.

(** * The writer *)

Record wr_ok (c : context) : Prop := {
  wr_flag : read_write_flag c = kAndroidLoggerWrite;
  wr_overflow : overflow c = false;
  wr_storage : Z.of_nat (length (storage c)) = LOGGER_ENTRY_MAX_PAYLOAD;
  wr_count : length (count c) = 9%nat;
  wr_list : length (list_pos c) = 9%nat;
  wr_depth : 0 <= list_nest_depth c <= ANDROID_MAX_LIST_NEST_DEPTH;
  wr_pos : 0 <= pos c <= MAX_EVENT_PAYLOAD
}.

(** [k] elements encoded as [bs] were written at the depth of [c]. *)
Record wrote (c : context) (bs : list Z) (k : Z) (c' : context) : Prop := {
  wt_ok : wr_ok c';
  wt_storage : storage c' = splice (storage c) (Z.to_nat (pos c)) bs;
  wt_pos : pos c' = pos c + Z.of_nat (length bs);
  wt_depth : list_nest_depth c' = list_nest_depth c;
  wt_count : forall n, count c !! Z.to_nat (list_nest_depth c) = Some n ->
    count c' !! Z.to_nat (list_nest_depth c) = Some (u32 (n + k));
  wt_below : forall i, (i < Z.to_nat (list_nest_depth c))%nat -> count c' !! i = count c !! i;
  wt_list : forall i, (i <= Z.to_nat (list_nest_depth c))%nat -> list_pos c' !! i = list_pos c !! i;
  wt_tag : tag c' = tag c
}.

Definition fits (c : context) (bs : list Z) : Prop := pos c + Z.of_nat (length bs) <= MAX_EVENT_PAYLOAD.

Ltac wr_facts R :=
  pose proof (wr_storage _ R); pose proof (wr_count _ R); pose proof (wr_list _ R); pose proof (wr_depth _ R);
  pose proof (wr_pos _ R);
  unfold fits, MAX_EVENT_PAYLOAD, LOGGER_ENTRY_MAX_PAYLOAD, ANDROID_MAX_LIST_NEST_DEPTH in *.

Lemma count_one_ok c :
  wr_ok c -> exists n, count c !! Z.to_nat (list_nest_depth c) = Some n /\
    count_one c = Done (set_count c (<[Z.to_nat (list_nest_depth c) := u32 (n + 1)]> (count c))).
Proof.
  intros R. wr_facts R. unfold count_one. destruct (aget_ok (count c) (list_nest_depth c)) as (n & -> & Hn); [lia|].
  exists n. split; [done|]. cbn [obind]. rewrite aput_ok by lia. done.
Qed.

(** Bytes put at the position, one element counted. *)
Lemma wrote_one c bs n s :
  wr_ok c -> fits c bs -> count c !! Z.to_nat (list_nest_depth c) = Some n ->
  s = splice (storage c) (Z.to_nat (pos c)) bs ->
  wrote c bs 1 (set_pos (set_storage (set_count c (<[Z.to_nat (list_nest_depth c) := u32 (n + 1)]> (count c))) s)
                  (u32 (pos c + Z.of_nat (length bs)))).
Proof.
  intros R Hf Hn ->. wr_facts R. rewrite (u32_small (pos c + _)) by (unfold is_u32; lia).
  constructor; cbn [set_pos set_storage set_count storage pos list_nest_depth count list_pos tag].
  - constructor; cbn [set_pos set_storage set_count storage pos list_nest_depth count list_pos tag read_write_flag overflow].
    + apply (wr_flag _ R).
    + apply (wr_overflow _ R).
    + rewrite length_splice by lia. done.
    + by rewrite length_insert.
    + done.
    + done.
    + unfold MAX_EVENT_PAYLOAD, LOGGER_ENTRY_MAX_PAYLOAD. lia.
  - done.
  - done.
  - done.
  - intros n' Hn'. rewrite Hn in Hn'. injection Hn' as <-. apply list_lookup_insert_eq. lia.
  - intros i Hi. apply list_lookup_insert_ne. lia.
  - done.
  - done.
Qed.

Lemma write_scalar_ok c needed bs :
  wr_ok c -> fits c bs -> needed = Z.of_nat (length bs) ->
  exists c', write_scalar c needed bs = Done (c', 0) /\ wrote c bs 1 c'.
Proof.
  intros R Hf ->. unfold write_scalar, is_write. rewrite (wr_flag _ R), (wr_overflow _ R). cbn [negb].
  destruct (count_one_ok c R) as (n & Hn & ->). cbn [obind].
  destruct (Z.ltb_spec MAX_EVENT_PAYLOAD (pos c + Z.of_nat (length bs))); [unfold fits in Hf; lia|].
  cbn [set_count storage pos]. rewrite mput_splice by (wr_facts R; lia). cbn [obind].
  eexists. split; [reflexivity|]. by eapply wrote_one.
Qed.

Lemma strnlen_ok s z m : Forall (fun b => 0 < b < 256) s -> (length s <= m)%nat -> strnlen (s ++ 0 :: z) m = Done (Z.of_nat (length s)).
Proof.
  intros H. revert m. induction H as [|b s Hb _ IH]; intros m Hm; [by destruct m|].
  destruct m as [|m]; [cbn in Hm; lia|]. cbn [app strnlen length] in *. destruct (Z.eqb_spec b 0); [lia|].
  rewrite IH by lia. cbn [obind]. f_equal. lia.
Qed.

Lemma write_string_ok c s :
  wr_ok c -> Forall (fun b => 0 < b < 256) s -> fits c (encode (EStr s)) ->
  exists c', android_log_write_string8 c (Some (s ++ [0])) = Done (c', Z.of_nat (length s)) /\
    wrote c (encode (EStr s)) 1 c'.
Proof.
  intros R Hs Hf. assert (Hlen : length (encode (EStr s)) = (5 + length s)%nat).
  { cbn [encode length]. rewrite length_app, length_le_encode. lia. }
  unfold android_log_write_string8, android_log_write_string8_len, is_write. rewrite (wr_flag _ R), (wr_overflow _ R). cbn [negb].
  destruct (count_one_ok c R) as (n & Hn & Hc1). wr_facts R. rewrite strnlen_ok by (done || lia). cbn [obind].
  rewrite s32_small, (u64_small (event_string_size + _)) by (unfold is_u64, event_string_size; lia).
  rewrite u64_small by (unfold is_u64, event_string_size; lia). unfold event_string_size.
  destruct (Z.ltb_spec (4068 - 4) (pos c + (5 + Z.of_nat (length s)))); [lia|]. cbn [andb]. rewrite Hc1. cbn [obind set_count storage pos].
  rewrite mput_splice by (cbn [length]; rewrite ?length_le_encode; lia). cbn [obind].
  rewrite mget_ok by (rewrite ?length_app; cbn [length]; lia). cbn [obind].
  change (Z.to_nat 0) with 0%nat. rewrite drop_0, Nat2Z.id, take_app_length.
  rewrite mput_splice by (rewrite ?length_splice; cbn [length]; rewrite ?length_le_encode; lia). cbn [obind].
  eexists. split; [reflexivity|].
  replace (pos c + (5 + Z.of_nat (length s))) with (pos c + Z.of_nat (length (encode (EStr s)))) by lia.
  eapply wrote_one; [done|unfold fits, MAX_EVENT_PAYLOAD, LOGGER_ENTRY_MAX_PAYLOAD; lia|done|].
  replace (Z.to_nat (pos c + 5)) with (Z.to_nat (pos c) + length (EVENT_TYPE_STRING :: le_encode 4 (Z.of_nat (length s))))%nat
    by (cbn [length]; rewrite length_le_encode; lia).
  rewrite splice_app by (cbn [length]; rewrite length_le_encode; lia). done.
Qed.

Lemma wrote_nil c : wr_ok c -> (forall n, count c !! Z.to_nat (list_nest_depth c) = Some n -> is_u32 n) -> wrote c [] 0 c.
Proof.
  intros R Hu. wr_facts R. constructor; try done.
  - unfold splice. cbn [length app]. by rewrite Nat.add_0_r, take_drop.
  - cbn [length]. lia.
  - intros n Hn. rewrite Hn, Z.add_0_r, u32_small; [done|by apply Hu].
Qed.

Lemma wrote_trans c a j c1 b k c2 :
  wr_ok c -> fits c (a ++ b) -> wrote c a j c1 -> wrote c1 b k c2 -> wrote c (a ++ b) (j + k) c2.
Proof.
  intros R Hf [A1 A2 A3 A4 A5 A6 A7 A8] [B1 B2 B3 B4 B5 B6 B7 B8]. wr_facts R. rewrite length_app in Hf.
  rewrite A4 in *. constructor; [done| |rewrite length_app; lia|done| | | |congruence].
  - rewrite B2, A2, A3. replace (Z.to_nat (pos c + Z.of_nat (length a))) with (Z.to_nat (pos c) + length a)%nat by lia.
    apply splice_app. lia.
  - intros n Hn. rewrite (B5 _ (A5 _ Hn)). f_equal. unfold u32. rewrite Zplus_mod_idemp_l. f_equal. lia.
  - intros i Hi. rewrite B6, A6 by lia. done.
  - intros i Hi. rewrite B7, A7 by lia. done.
Qed.

Lemma list_begin_ok c :
  wr_ok c -> list_nest_depth c < ANDROID_MAX_LIST_NEST_DEPTH -> pos c + 2 <= MAX_EVENT_PAYLOAD ->
  exists c1 n, android_log_write_list_begin c = Done (c1, 0) /\ wr_ok c1 /\
    count c !! Z.to_nat (list_nest_depth c) = Some n /\
    list_nest_depth c1 = list_nest_depth c + 1 /\ pos c1 = pos c + 2 /\
    storage c1 = splice (storage c) (Z.to_nat (pos c)) [EVENT_TYPE_LIST; 0] /\
    count c1 = <[Z.to_nat (list_nest_depth c + 1) := 0]> (<[Z.to_nat (list_nest_depth c) := u32 (n + 1)]> (count c)) /\
    list_pos c1 = <[Z.to_nat (list_nest_depth c + 1) := pos c + 1]> (list_pos c) /\ tag c1 = tag c.
Proof.
  intros R Hd Hp. unfold android_log_write_list_begin, is_write. rewrite (wr_flag _ R). cbn [negb].
  destruct (count_one_ok c R) as (n & Hn & Hc1). pose proof (wr_overflow _ R) as Ho. wr_facts R. unfold event_list_size.
  destruct (Z.ltb_spec 8 (list_nest_depth c)); [lia|]. destruct (Z.ltb_spec (4068 - 4) (pos c + 2)); [lia|].
  rewrite Hc1. cbn [obind set_count set_depth list_nest_depth overflow storage pos list_pos count set_storage set_list].
  destruct (Z.ltb_spec 8 (list_nest_depth c + 1)); [lia|]. rewrite Ho.
  rewrite mput_splice by (cbn [length]; lia). cbn [obind set_count set_depth list_nest_depth overflow storage pos list_pos count set_storage set_list].
  rewrite aput_ok by lia. cbn [obind set_count set_depth list_nest_depth overflow storage pos list_pos count set_storage set_list].
  rewrite aput_ok by (rewrite length_insert; lia). cbn [obind].
  rewrite (u32_small (pos c + 1)), (u32_small (pos c + 2)) by (unfold is_u32; lia).
  eexists _, n. split; [reflexivity|]. split; [|do 6 (split; [done|]); done].
  constructor; cbn [set_pos set_count set_depth set_storage set_list list_nest_depth overflow storage pos list_pos count read_write_flag].
  - apply (wr_flag _ R).
  - done.
  - rewrite length_splice by (cbn [length]; lia). done.
  - by rewrite !length_insert.
  - by rewrite length_insert.
  - unfold ANDROID_MAX_LIST_NEST_DEPTH. lia.
  - unfold MAX_EVENT_PAYLOAD, LOGGER_ENTRY_MAX_PAYLOAD. lia.
Qed.

Lemma list_end_ok c p m :
  wr_ok c -> 0 < list_nest_depth c -> list_pos c !! Z.to_nat (list_nest_depth c) = Some p ->
  count c !! Z.to_nat (list_nest_depth c) = Some m -> 0 < p < LOGGER_ENTRY_MAX_PAYLOAD ->
  android_log_write_list_end c =
  Done (set_depth (set_storage c (<[Z.to_nat p := u8 m]> (storage c))) (list_nest_depth c - 1), 0).
Proof.
  intros R Hd Hp Hm Hr. unfold android_log_write_list_end, is_write. rewrite (wr_flag _ R). cbn [negb]. wr_facts R.
  destruct (Z.ltb_spec 8 (list_nest_depth c)); [lia|]. destruct (Z.eqb_spec (list_nest_depth c) 0); [lia|].
  rewrite (aget_eq (list_pos c) (list_nest_depth c) p) by (done || lia). cbn [obind]. destruct (Z.leb_spec p 0); [lia|].
  rewrite (aget_eq (count c) (list_nest_depth c) m) by (done || lia). cbn [obind]. rewrite aput_ok by lia. done.
Qed.

(** Closing a list whose elements were written since it was begun. *)
Lemma list_closed c c1 c2 n bs k :
  wr_ok c -> fits c (EVENT_TYPE_LIST :: k :: bs) -> list_nest_depth c < ANDROID_MAX_LIST_NEST_DEPTH -> 0 <= k < 256 ->
  list_nest_depth c1 = list_nest_depth c + 1 -> pos c1 = pos c + 2 ->
  storage c1 = splice (storage c) (Z.to_nat (pos c)) [EVENT_TYPE_LIST; 0] ->
  count c !! Z.to_nat (list_nest_depth c) = Some n ->
  count c1 = <[Z.to_nat (list_nest_depth c + 1) := 0]> (<[Z.to_nat (list_nest_depth c) := u32 (n + 1)]> (count c)) ->
  list_pos c1 = <[Z.to_nat (list_nest_depth c + 1) := pos c + 1]> (list_pos c) -> tag c1 = tag c ->
  wrote c1 bs k c2 ->
  exists c', android_log_write_list_end c2 = Done (c', 0) /\ wrote c (EVENT_TYPE_LIST :: k :: bs) 1 c'.
Proof.
  intros R Hf Hd Hk D1 P1 S1 Hn C1 L1 T1 [B1 B2 B3 B4 B5 B6 B7 B8]. wr_facts R. cbn [length] in Hf.
  rewrite D1, P1 in *.
  assert (Hc2 : count c2 !! Z.to_nat (list_nest_depth c + 1) = Some k).
  { rewrite (B5 0); [by rewrite Z.add_0_l, u32_small by (unfold is_u32; lia)|].
    rewrite C1. apply list_lookup_insert_eq. rewrite length_insert. lia. }
  assert (Hl2 : list_pos c2 !! Z.to_nat (list_nest_depth c + 1) = Some (pos c + 1)).
  { rewrite B7 by lia. rewrite L1. apply list_lookup_insert_eq. lia. }
  assert (Hst : <[Z.to_nat (pos c + 1) := u8 k]> (storage c2) = splice (storage c) (Z.to_nat (pos c)) (EVENT_TYPE_LIST :: k :: bs)).
  { rewrite B2, S1. replace (Z.to_nat (pos c + 2)) with (Z.to_nat (pos c) + length [EVENT_TYPE_LIST; 0%Z])%nat by (cbn [length]; lia).
    rewrite splice_app by (cbn [length]; lia).
    replace (Z.to_nat (pos c + 1)) with (Z.to_nat (pos c) + 1)%nat by lia.
    rewrite splice_insert by (cbn [length app]; lia). cbn [app]. by rewrite u8_small by (unfold is_u8; lia). }
  eexists. rewrite (list_end_ok c2 (pos c + 1) k B1), Hst by (rewrite ?B4; done || (unfold LOGGER_ENTRY_MAX_PAYLOAD; lia)).
  split; [reflexivity|]. pose proof (wr_storage _ B1) as Hs2.
  constructor; cbn [set_depth set_storage storage pos list_nest_depth count list_pos tag].
  - constructor; cbn [set_depth set_storage storage pos list_nest_depth count list_pos tag read_write_flag overflow].
    + apply (wr_flag _ B1).
    + apply (wr_overflow _ B1).
    + rewrite length_splice by (cbn [length]; lia). done.
    + apply (wr_count _ B1).
    + apply (wr_list _ B1).
    + unfold ANDROID_MAX_LIST_NEST_DEPTH. lia.
    + unfold MAX_EVENT_PAYLOAD, LOGGER_ENTRY_MAX_PAYLOAD. lia.
  - done.
  - cbn [length]. lia.
  - lia.
  - intros n' Hn'. rewrite Hn in Hn'. injection Hn' as <-.
    rewrite B6, C1, list_lookup_insert_ne by lia. apply list_lookup_insert_eq. lia.
  - intros i Hi. rewrite B6, C1, !list_lookup_insert_ne by lia. done.
  - intros i Hi. rewrite B7, L1, list_lookup_insert_ne by lia. done.
  - congruence.
Qed.

Definition writes (e : event) : Prop :=
  forall c, wr_ok c -> ev_ok 255 (list_nest_depth c) e -> fits c (encode e) ->
  exists c', write_event e c = Done c' /\ wrote c (encode e) 1 c'.

Lemma encode_all_cons e es : encode_all (e :: es) = encode e ++ encode_all es.
Proof. reflexivity. Qed.

Lemma write_events_ok es c :
  Forall writes es -> wr_ok c -> Forall (ev_ok 255 (list_nest_depth c)) es -> fits c (encode_all es) ->
  (forall n, count c !! Z.to_nat (list_nest_depth c) = Some n -> is_u32 n) ->
  exists c', write_events es c = Done c' /\ wrote c (encode_all es) (Z.of_nat (length es)) c'.
Proof.
  intros Hw. revert c. induction Hw as [|e es He _ IH]; intros c R Hok Hf Hu.
  { exists c. split; [done|]. by apply wrote_nil. }
  apply Forall_cons in Hok as [Hoke Hok]. rewrite encode_all_cons in *. unfold fits in Hf. rewrite length_app in Hf.
  destruct (He c R Hoke) as (c1 & E1 & W1); [unfold fits; lia|].
  destruct (IH c1) as (c2 & E2 & W2).
  - apply (wt_ok _ _ _ _ W1).
  - by rewrite (wt_depth _ _ _ _ W1).
  - unfold fits. rewrite (wt_pos _ _ _ _ W1). lia.
  - rewrite (wt_depth _ _ _ _ W1). intros n Hn.
    destruct (lookup_lt_is_Some_2 (count c) (Z.to_nat (list_nest_depth c))) as [n0 Hn0]; [wr_facts R; lia|].
    rewrite (wt_count _ _ _ _ W1 _ Hn0) in Hn. injection Hn as <-. apply u32_range.
  - exists c2. cbn [write_events]. rewrite E1. cbn [obind]. split; [done|].
    replace (Z.of_nat (length (e :: es))) with (1 + Z.of_nat (length es)) by (cbn [length]; lia).
    eapply wrote_trans; [done|unfold fits; rewrite length_app; lia|done|done].
Qed.

Lemma write_event_ok e : writes e.
Proof.
  induction e as [v|v|b|s|es IH] using event_ind'; intros c R Hok Hf.
  - destruct (write_scalar_ok c event_int_size (encode (EInt v)) R Hf) as (c' & E & W); [done|].
    exists c'. cbn [write_event]. unfold android_log_write_int32. cbn [encode] in E. by rewrite E.
  - destruct (write_scalar_ok c event_long_size (encode (ELong v)) R Hf) as (c' & E & W); [done|].
    exists c'. cbn [write_event]. unfold android_log_write_int64. cbn [encode] in E. by rewrite E.
  - destruct (write_scalar_ok c event_float_size (encode (EFloat b)) R Hf) as (c' & E & W); [done|].
    exists c'. cbn [write_event]. unfold android_log_write_float32. cbn [encode] in E. by rewrite E.
  - destruct (write_string_ok c s R Hok Hf) as (c' & E & W). exists c'. cbn [write_event]. by rewrite E.
  - rewrite ev_ok_list in Hok. destruct Hok as (Hd & Hl & Hes). rewrite write_event_list.
    assert (Hf' : fits c (EVENT_TYPE_LIST :: Z.of_nat (length es) :: encode_all es)) by exact Hf.
    unfold fits in Hf'. cbn [length] in Hf'.
    destruct (list_begin_ok c R Hd) as (c1 & n & E1 & R1 & Hn & D1 & P1 & S1 & C1 & L1 & T1); [lia|].
    rewrite E1. cbn [obind].
    destruct (write_events_ok es c1 IH R1) as (c2 & E2 & W2).
    + by rewrite D1.
    + unfold fits. lia.
    + rewrite D1, C1. intros m Hm. rewrite list_lookup_insert_eq in Hm by (rewrite length_insert; wr_facts R; lia).
      injection Hm as <-. unfold is_u32. lia.
    + rewrite E2. cbn [obind].
      destruct (list_closed c c1 c2 n (encode_all es) (Z.of_nat (length es))) as (c' & E3 & W3); try done; [lia|].
      exists c'. by rewrite E3.
Qed.

(** The message of a context to which [es] was written: no list around
    less than two elements. *)
Definition message (es : list event) : list Z :=
  match es with [] | [_] => encode_all es | _ => encode (EList es) end.

Lemma init_context_ok t :
  exists c, init_context zero_context t = Done c /\ wr_ok c /\ tag c = t /\ pos c = 2 /\ list_nest_depth c = 0 /\
    count c = replicate 9 0 /\ storage c = EVENT_TYPE_LIST :: replicate (Z.to_nat (LOGGER_ENTRY_MAX_PAYLOAD - 1)) 0.
Proof.
  unfold init_context. rewrite aput_ok by (vm_compute; done || (split; done)). cbn [obind].
  rewrite aput_ok by (vm_compute; split; done). cbn [obind]. eexists. split; [reflexivity|].
  split; [constructor; vm_compute; done || (split; done)|]. do 4 (split; [done|]). reflexivity.
Qed.

Lemma finished es c c1 :
  wr_ok c -> pos c = 2 -> list_nest_depth c = 0 -> count c = replicate 9 0 ->
  storage c = EVENT_TYPE_LIST :: replicate (Z.to_nat (LOGGER_ENTRY_MAX_PAYLOAD - 1)) 0 ->
  2 + Z.of_nat (length (encode_all es)) <= MAX_EVENT_PAYLOAD -> Z.of_nat (length es) < 256 ->
  wrote c (encode_all es) (Z.of_nat (length es)) c1 ->
  exists c2 start n, finish_list c1 = Done (c2, start, n) /\ mget (storage c2) start n = Done (message es) /\
    n = Z.of_nat (length (message es)).
Proof.
  intros R P0 D0 C0 S0 Hf Hl W. wr_facts R. unfold finish_list.
  pose proof (wt_count _ _ _ _ W 0) as Hc. rewrite D0, C0, Z.add_0_l, u32_small in Hc by (unfold is_u32; lia).
  specialize (Hc eq_refl). rewrite (aget_eq (count c1) 0 (Z.of_nat (length es))) by (done || lia). cbn [obind].
  pose proof (wr_storage _ (wt_ok _ _ _ _ W)) as Hs1. unfold LOGGER_ENTRY_MAX_PAYLOAD in Hs1.
  rewrite aput_ok by lia. cbn [obind]. rewrite u8_small by (unfold is_u8; lia).
  set (bs := encode_all es) in *.
  assert (Hst : <[Z.to_nat 1 := Z.of_nat (length es)]> (storage c1) =
    EVENT_TYPE_LIST :: Z.of_nat (length es) :: bs ++ drop (length bs) (replicate 4066 0)).
  { rewrite (wt_storage _ _ _ _ W), P0, S0. unfold splice.
    change (Z.to_nat 2) with 2%nat. change (Z.to_nat (4068 - 1)) with (S 4066). change (Z.to_nat 1) with 1%nat. reflexivity. }
  rewrite Hst. cbn [set_len set_storage len storage].
  assert (Hp1 : pos c1 = 2 + Z.of_nat (length bs)) by (rewrite (wt_pos _ _ _ _ W), P0; done). rewrite Hp1.
  set (st := EVENT_TYPE_LIST :: Z.of_nat (length es) :: bs ++ drop (length bs) (replicate 4066 0)).
  assert (Hlen : Z.of_nat (length st) = 4068).
  { unfold st. cbn [length]. rewrite length_app, length_drop, length_replicate. lia. }
  destruct (Z.leb_spec (Z.of_nat (length es)) 1) as [Hle|Hgt].
  - assert (Hmsg : message es = bs) by (destruct es as [|e [|e' es]]; [done|done|cbn [length] in Hle; lia]).
    eexists _, 2, _. split; [reflexivity|]. cbn [set_len set_storage storage]. rewrite Hmsg.
    destruct (Z.ltb_spec (2 + Z.of_nat (length bs) - 2) 0); [lia|]. split; [|lia].
    rewrite mget_ok by lia. change (Z.to_nat 2) with 2%nat. unfold st. rewrite !skipn_cons, drop_0.
    replace (Z.to_nat (2 + Z.of_nat (length bs) - 2)) with (length bs) by lia. by rewrite take_app_length.
  - assert (Hmsg : message es = EVENT_TYPE_LIST :: Z.of_nat (length es) :: bs)
      by (destruct es as [|e [|e' es]]; [cbn [length] in Hgt; lia|cbn [length] in Hgt; lia|done]).
    eexists _, 0, _. split; [reflexivity|]. cbn [set_len set_storage storage]. rewrite Hmsg. split; [|cbn [length]; lia].
    rewrite mget_ok by lia. change (Z.to_nat 0) with 0%nat. rewrite drop_0. unfold st.
    replace (Z.to_nat (2 + Z.of_nat (length bs))) with (S (S (length bs))) by lia. cbn [take]. by rewrite take_app_length.
Qed.

(** * Reading what was written *)

Inductive item := IInt (v : Z) | ILong (v : Z) | IFloat (bits : Z) | IStr (s : list Z) | IBegin | IStop | IUnknown.

(** The element as its reader sees it, and whether it says [complete]. *)
Definition view (c : context) (el : elem) : item * bool :=
  (if etype el =? EVENT_TYPE_LIST then IBegin
   else if etype el =? EVENT_TYPE_LIST_STOP then IStop
   else match edata el with
        | Int32 v => if etype el =? EVENT_TYPE_INT then IInt v
                     else if etype el =? EVENT_TYPE_FLOAT then IFloat (u32 v) else IUnknown
        | Int64 v => if etype el =? EVENT_TYPE_LONG then ILong v else IUnknown
        | String p => if etype el =? EVENT_TYPE_STRING
                      then IStr (take (Z.to_nat (elen el)) (drop (Z.to_nat p) (storage c))) else IUnknown
        | NoData => IUnknown
        end, complete el).

Fixpoint read_items (n : nat) (c : context) : outcome (list (item * bool) * context) :=
  match n with
  | O => Done ([], c)
  | S n =>
      let* (c1, el) := android_log_read_next c in
      let* (l, c2) := read_items n c1 in
      Done (view c1 el :: l, c2)
  end.

Lemma read_items_app n m c l1 c1 l2 c2 :
  read_items n c = Done (l1, c1) -> read_items m c1 = Done (l2, c2) -> read_items (n + m) c = Done (l1 ++ l2, c2).
Proof.
  revert c l1 c1. induction n as [|n IH]; intros c l1 c1 H1 H2; [by injection H1 as <- <-|].
  cbn [read_items Nat.add] in *. destruct (android_log_read_next c) as [[c' el]|]; [|done]. cbn [obind] in *.
  destruct (read_items n c') as [[l c'']|] eqn:E; [|done]. cbn [obind] in H1. injection H1 as <- <-.
  by rewrite (IH _ _ _ E H2).
Qed.

Lemma read_items_one c c1 el : android_log_read_next c = Done (c1, el) -> read_items 1 c = Done ([view c1 el], c1).
Proof. intros H. cbn [read_items]. by rewrite H. Qed.

Fixpoint flatten (e : event) : list item :=
  match e with
  | EInt v => [IInt v]
  | ELong v => [ILong v]
  | EFloat b => [IFloat b]
  | EStr s => [IStr s]
  | EList es => IBegin :: concat (flatten <$> es) ++ [IStop]
  end.
Definition flatten_all (es : list event) : list item := concat (flatten <$> es).

Definition partial (l : list item) : list (item * bool) := (fun i => (i, false)) <$> l.

(** The parser stands at depth [d] in front of [n] more elements of a list,
    whose bytes and what follows them are [bs]. *)
Record at_list (c : context) (d n : Z) (bs : list Z) : Prop := {
  al_ok : rd_ok c;
  al_read : is_read c = true;
  al_depth : list_nest_depth c = d;
  al_range : 1 <= d <= ANDROID_MAX_LIST_NEST_DEPTH;
  al_count : count c !! Z.to_nat d = Some n;
  al_count0 : count c !! 0%nat = Some 0;
  al_n : 0 <= n < 128;
  al_stop : list_stop c = (n =? 0);
  al_bytes : drop (Z.to_nat (pos c)) (storage c) = bs
}.

(** The parser after an element: further on, the outer counters as before. *)
Record passed (c : context) (k : Z) (c' : context) : Prop := {
  pa_pos : pos c' = pos c + k;
  pa_len : len c' = len c;
  pa_storage : storage c' = storage c;
  pa_below : forall i, (i < Z.to_nat (list_nest_depth c))%nat -> count c' !! i = count c !! i
}.

Definition no_newline (bs : list Z) : Prop := head bs <> Some EVENT_TYPE_LIST_STOP.

Lemma encode_no_newline e bs : no_newline (encode e ++ bs).
Proof. unfold no_newline. destruct e; intros [=]. Qed.

Lemma bytes_lookup c bs k x :
  0 <= pos c -> drop (Z.to_nat (pos c)) (storage c) = bs -> bs !! k = Some x ->
  aget (storage c) (pos c + Z.of_nat k) = Done x.
Proof.
  intros Hp <- Hx. rewrite lookup_drop in Hx. apply aget_eq; [lia|]. rewrite <- Hx. f_equal. lia.
Qed.

Lemma mget_bytes c a b rest :
  rd_ok c -> drop (Z.to_nat (pos c)) (storage c) = a ++ b ++ rest ->
  mget (storage c) (pos c + Z.of_nat (length a)) (Z.of_nat (length b)) = Done b.
Proof.
  intros R H. rd_facts R. assert (Hl : length (drop (Z.to_nat (pos c)) (storage c)) = (length a + length b + length rest)%nat)
    by (rewrite H, !length_app; lia).
  rewrite length_drop in Hl. rewrite mget_ok by lia. f_equal.
  replace (Z.to_nat (pos c + Z.of_nat (length a))) with (Z.to_nat (pos c) + length a)%nat by lia.
  rewrite <- drop_drop, H, drop_app_length, Nat2Z.id. apply take_app_length.
Qed.

(** In front of an element, its type decides. *)
Lemma next_dispatch c d n ty bs :
  at_list c d n (ty :: bs) -> 0 < n -> pos c < len c ->
  android_log_read_next c =
  if (ty =? EVENT_TYPE_FLOAT) || (ty =? EVENT_TYPE_INT) then read_int c ty false
  else if ty =? EVENT_TYPE_LONG then read_long c false
  else if ty =? EVENT_TYPE_STRING then read_string c false
  else if ty =? EVENT_TYPE_LIST then read_list c false
  else if ty =? EVENT_TYPE_LIST_STOP then read_newline c false
  else Done (c, mk_elem EVENT_TYPE_UNKNOWN false 0 NoData).
Proof.
  intros [A1 A2 A3 A4 A5 A6 A7 A8 A9] Hn Hp. unfold android_log_read_next, android_log_read_next_internal, exhausted.
  rd_facts A1. rewrite A2, A3. cbn [negb orb]. destruct (Z.ltb_spec 8 d); [lia|].
  rewrite (aget_eq (count c) d n) by (done || lia). cbn [obind]. change ((4068 - 4) / 2) with 2032.
  destruct (Z.leb_spec 2032 n); [lia|]. rewrite A8. destruct (Z.eqb_spec n 0); [lia|].
  destruct (Z.ltb_spec (len c) (pos c + 1)); [lia|].
  replace (pos c) with (pos c + Z.of_nat 0) at 1 by lia. rewrite (bytes_lookup c (ty :: bs) 0 ty) by (done || lia). done.
Qed.

(** An element of [k] bytes consumed. *)
Lemma consumed c d n a rest :
  at_list c d n (a ++ rest) -> 0 < n -> pos c + Z.of_nat (length a) <= len c -> a <> [] ->
  exists c', consume c false (pos c + Z.of_nat (length a)) = Done c' /\ is_complete c = Done false /\
    at_list c' d (n - 1) rest /\ passed c (Z.of_nat (length a)) c'.
Proof.
  intros [A1 A2 A3 A4 A5 A6 A7 A8 A9] Hn Hp Ha. rd_facts A1.
  assert (Hc : is_complete c = Done false).
  { unfold is_complete. rewrite (aget_eq (count c) 0 0) by done. cbn [obind]. rewrite A3.
    destruct (Z.eqb_spec d 0); [lia|done]. }
  assert (Hpos : (0 < length a)%nat) by (destruct a; [done|cbn; lia]).
  destruct (consume_ok c false (pos c + Z.of_nat (length a)) A1) as (c' & E & R' & Hl & Hs & Hf & _); [unfold ANDROID_MAX_LIST_NEST_DEPTH; lia|lia|].
  exists c'. rewrite E. split; [done|]. split; [done|].
  unfold consume in E. rewrite A3, (aget_eq (count c) d n) in E by (done || lia). cbn [obind] in E.
  destruct (Z.eqb_spec n 0); [lia|]. rewrite aput_ok in E by lia. cbn [obind] in E. injection E as E.
  assert (Hcnt : count c' = <[Z.to_nat d := n - 1]> (count c)) by (rewrite <- E; destruct (n - 1 =? 0); done).
  assert (Hst : list_stop c' = (n - 1 =? 0)).
  { rewrite <- E. destruct (Z.eqb_spec (n - 1) 0); [done|]. cbn. rewrite A8. destruct (Z.eqb_spec n 0); [lia|done]. }
  assert (Hps : pos c' = pos c + Z.of_nat (length a)) by (rewrite <- E; destruct (n - 1 =? 0); done).
  split.
  - constructor; [done| | |done| | |lia|done|].
    + unfold is_read in *. by rewrite Hf.
    + rewrite <- E. destruct (n - 1 =? 0); done.
    + rewrite Hcnt. apply list_lookup_insert_eq. lia.
    + rewrite Hcnt, list_lookup_insert_ne by lia. done.
    + rewrite Hs, Hps. replace (Z.to_nat (pos c + Z.of_nat (length a))) with (Z.to_nat (pos c) + length a)%nat by lia.
      by rewrite <- drop_drop, A9, drop_app_length.
  - constructor; [done|done|done|]. intros i Hi. rewrite Hcnt. apply list_lookup_insert_ne. lia.
Qed.

Definition reads (e : event) : Prop :=
  forall c d n rest,
  at_list c d n (encode e ++ rest) -> 0 < n -> pos c + Z.of_nat (length (encode e)) <= len c ->
  ev_ok 127 d e -> no_newline rest ->
  exists c', read_items (length (flatten e)) c = Done (partial (flatten e), c') /\
    at_list c' d (n - 1) rest /\ passed c (Z.of_nat (length (encode e))) c'.

Lemma s32_word v : - 2 ^ 31 <= v < 2 ^ 31 -> s32 (le_decode (le_encode 4 v)) = v.
Proof.
  intros Hv. rewrite le_decode_encode. change (8 * Z.of_nat 4) with 32. unfold s32.
  rewrite Zplus_mod_idemp_l, Z.mod_small; lia.
Qed.

Lemma s64_word v : - 2 ^ 63 <= v < 2 ^ 63 -> s64 (le_decode (le_encode 8 v)) = v.
Proof.
  intros Hv. rewrite le_decode_encode. change (8 * Z.of_nat 8) with 64. unfold s64.
  rewrite Zplus_mod_idemp_l, Z.mod_small; lia.
Qed.

Lemma u32_word b : 0 <= b < 2 ^ 32 -> u32 (s32 (le_decode (le_encode 4 b))) = b.
Proof.
  intros Hb. rewrite le_decode_encode. change (8 * Z.of_nat 4) with 32. unfold s32, u32.
  rewrite Zplus_mod_idemp_l, Zminus_mod_idemp_l. rewrite Z.add_simpl_r. by apply Z.mod_small.
Qed.

(** A scalar with its four bytes. *)
Lemma read_int_at c d n ty w rest :
  at_list c d n ((ty :: le_encode 4 w) ++ rest) -> 0 < n -> pos c + 5 <= len c ->
  exists c', read_int c ty false = Done (c', mk_elem ty false 4 (Int32 (s32 (le_decode (le_encode 4 w))))) /\
    at_list c' d (n - 1) rest /\ passed c 5 c'.
Proof.
  intros A Hn Hp. unfold read_int, event_int_size. destruct (Z.ltb_spec (len c) (pos c + 5)); [lia|].
  pose proof (mget_bytes c [ty] (le_encode 4 w) rest (al_ok _ _ _ _ A) (al_bytes _ _ _ _ A)) as Hm.
  rewrite length_le_encode in Hm. change (Z.of_nat (length [ty])) with 1 in Hm. change (Z.of_nat 4) with 4 in Hm.
  rewrite Hm. cbn [obind].
  assert (H5 : Z.of_nat (length (ty :: le_encode 4 w)) = 5) by (cbn [length]; rewrite length_le_encode; done).
  destruct (consumed c d n (ty :: le_encode 4 w) rest A Hn) as (c' & E1 & E2 & A' & P); [lia|done|].
  rewrite H5 in *. exists c'. rewrite E2. cbn [obind]. rewrite E1. done.
Qed.

Lemma read_one c c' el i :
  android_log_read_next c = Done (c', el) -> view c' el = (i, false) -> read_items (length [i]) c = Done (partial [i], c').
Proof. intros H1 H2. cbn [length]. rewrite (read_items_one _ _ _ H1). by rewrite H2. Qed.

Lemma reads_int v : reads (EInt v).
Proof.
  intros c d n rest A Hn Hp Hv _.
  assert (H5 : Z.of_nat (length (encode (EInt v))) = 5) by (cbn [encode length]; rewrite length_le_encode; done).
  rewrite H5 in *. destruct (read_int_at c d n EVENT_TYPE_INT v rest A Hn) as (c' & E & A' & P); [lia|].
  exists c'. split; [|done]. eapply read_one.
  - erewrite next_dispatch; [|exact A|done|lia]. exact E.
  - cbn [ev_ok] in Hv. unfold view. cbn [etype edata complete]. rewrite s32_word by done. done.
Qed.

Lemma reads_float b : reads (EFloat b).
Proof.
  intros c d n rest A Hn Hp Hv _.
  assert (H5 : Z.of_nat (length (encode (EFloat b))) = 5) by (cbn [encode length]; rewrite length_le_encode; done).
  rewrite H5 in *. destruct (read_int_at c d n EVENT_TYPE_FLOAT b rest A Hn) as (c' & E & A' & P); [lia|].
  exists c'. split; [|done]. eapply read_one.
  - erewrite next_dispatch; [|exact A|done|lia]. exact E.
  - cbn [ev_ok] in Hv. unfold view. cbn [etype edata complete]. rewrite u32_word by done. done.
Qed.

Lemma reads_long v : reads (ELong v).
Proof.
  intros c d n rest A Hn Hp Hv _.
  assert (H9 : Z.of_nat (length (encode (ELong v))) = 9) by (cbn [encode length]; rewrite length_le_encode; done).
  rewrite H9 in *.
  pose proof (mget_bytes c [EVENT_TYPE_LONG] (le_encode 8 v) rest (al_ok _ _ _ _ A) (al_bytes _ _ _ _ A)) as Hm.
  rewrite length_le_encode in Hm. change (Z.of_nat (length [EVENT_TYPE_LONG])) with 1 in Hm. change (Z.of_nat 8) with 8 in Hm.
  destruct (consumed c d n (encode (ELong v)) rest A Hn) as (c' & E1 & E2 & A' & P); [lia|done|].
  rewrite H9 in *. exists c'. split; [|done]. eapply read_one.
  - erewrite next_dispatch; [|exact A|done|lia]. cbn [orb Z.eqb]. unfold EVENT_TYPE_LONG, EVENT_TYPE_FLOAT, EVENT_TYPE_INT. cbn [orb Z.eqb Pos.eqb].
    unfold read_long, event_long_size. destruct (Z.ltb_spec (len c) (pos c + 9)); [lia|].
    rewrite Hm. cbn [obind]. rewrite E2. cbn [obind]. rewrite E1. reflexivity.
  - cbn [ev_ok] in Hv. unfold view. cbn [etype edata complete]. rewrite s64_word by done. done.
Qed.

Lemma reads_str s : reads (EStr s).
Proof.
  intros c d n rest A Hn Hp Hv _. set (k := Z.of_nat (length s)) in *.
  assert (HL : Z.of_nat (length (encode (EStr s))) = 5 + k).
  { cbn [encode length]. rewrite length_app, length_le_encode. lia. }
  pose proof (al_ok _ _ _ _ A) as R. rd_facts R. rewrite HL in *.
  assert (HB : drop (Z.to_nat (pos c)) (storage c) = [EVENT_TYPE_STRING] ++ le_encode 4 k ++ s ++ rest).
  { rewrite (al_bytes _ _ _ _ A). cbn [encode app]. by rewrite <- app_assoc. }
  pose proof (mget_bytes c _ _ _ R HB) as Hm.
  rewrite length_le_encode in Hm. change (Z.of_nat (length [EVENT_TYPE_STRING])) with 1 in Hm. change (Z.of_nat 4) with 4 in Hm.
  destruct (consumed c d n (encode (EStr s)) rest A Hn) as (c' & E1 & E2 & A' & P); [lia|done|].
  rewrite HL in *. exists c'. split; [|done]. eapply read_one.
  - erewrite next_dispatch; [|exact A|done|lia].
    unfold EVENT_TYPE_STRING, EVENT_TYPE_LONG, EVENT_TYPE_FLOAT, EVENT_TYPE_INT. cbn [orb Z.eqb Pos.eqb].
    unfold read_string, event_string_size. destruct (Z.ltb_spec (len c) (pos c + 5)); [lia|].
    rewrite Hm. cbn [obind]. rewrite s32_word by lia. unfold UINT16_MAX. destruct (Z.leb_spec 65535 k); [lia|].
    rewrite u16_small by (unfold is_u16; lia). destruct (Z.ltb_spec (len c) (pos c + 5 + k)); [lia|]. cbn [andb].
    rewrite E2. cbn [obind]. rewrite <- Z.add_assoc, E1. reflexivity.
  - unfold view. cbn [etype edata complete elen]. rewrite (pa_storage _ _ _ P).
    replace (Z.to_nat (pos c + 5)) with (Z.to_nat (pos c) + 5)%nat by lia. rewrite <- drop_drop, HB.
    change 5%nat with (length ([EVENT_TYPE_STRING] ++ le_encode 4 k)). rewrite (app_assoc [EVENT_TYPE_STRING]), drop_app_length.
    unfold k. rewrite Nat2Z.id, take_app_length. done.
Qed.

(** The parser enters a list, at any depth at which that is possible. *)
Record in_front (c : context) (d n : Z) (bs : list Z) : Prop := {
  if_ok : rd_ok c;
  if_read : is_read c = true;
  if_depth : list_nest_depth c = d;
  if_range : 0 <= d < ANDROID_MAX_LIST_NEST_DEPTH;
  if_count : count c !! Z.to_nat d = Some n;
  if_count0 : count c !! 0%nat = Some 0;
  if_n : 0 <= n < 128;
  if_stop : list_stop c = false;
  if_bytes : drop (Z.to_nat (pos c)) (storage c) = bs
}.

Lemma read_list_at c d n k bs :
  in_front c d n (EVENT_TYPE_LIST :: k :: bs) -> 0 <= k < 128 -> pos c + 2 <= len c ->
  exists c1, read_items 1 c = Done ([(IBegin, false)], c1) /\ at_list c1 (d + 1) k bs /\
    pos c1 = pos c + 2 /\ len c1 = len c /\ storage c1 = storage c /\
    count c1 !! Z.to_nat d = Some (if n =? 0 then 0 else n - 1) /\
    forall i, (i < Z.to_nat d)%nat -> count c1 !! i = count c !! i.
Proof.
  intros [A1 A2 A3 A4 A5 A6 A7 A8 A9] Hk Hp. pose proof A1 as R. rd_facts A1.
  assert (E : android_log_read_next c = read_list c false).
  { unfold android_log_read_next, android_log_read_next_internal, exhausted. rewrite A2, A3. cbn [negb orb].
    unfold ANDROID_MAX_LIST_NEST_DEPTH, MAX_EVENT_PAYLOAD, LOGGER_ENTRY_MAX_PAYLOAD. destruct (Z.ltb_spec 8 d); [lia|].
    rewrite (aget_eq (count c) d n) by (done || lia). cbn [obind]. change ((4068 - 4) / 2) with 2032.
    destruct (Z.leb_spec 2032 n); [lia|]. rewrite A8. destruct (Z.ltb_spec (len c) (pos c + 1)); [lia|].
    replace (pos c) with (pos c + Z.of_nat 0) at 1 by lia.
    by rewrite (bytes_lookup c _ 0 EVENT_TYPE_LIST ltac:(lia) A9). }
  set (cnt := <[Z.to_nat (d + 1) := k]> (if n =? 0 then count c else <[Z.to_nat d := n - 1]> (count c))).
  set (c1 := mk_context (tag c) (pos c + 2) cnt (list_pos c) (d + 1) (len c) (overflow c) (k =? 0) (read_write_flag c) (storage c)).
  assert (Hlen : length (if n =? 0 then count c else <[Z.to_nat d := n - 1]> (count c)) = 9%nat)
    by (destruct (n =? 0); rewrite ?length_insert; done).
  assert (E2 : read_list c false = Done (c1, mk_elem EVENT_TYPE_LIST false 0 NoData)).
  { unfold read_list, event_list_size. destruct (Z.ltb_spec (len c) (pos c + 2)); [lia|].
    change (pos c + 1) with (pos c + Z.of_nat 1). rewrite (bytes_lookup c _ 1 k ltac:(lia) A9) by done. cbn [obind].
    destruct (Z.ltb_spec k 128); [|lia]. rewrite A3, (aget_eq (count c) d n) by (done || lia). cbn [obind].
    unfold ANDROID_MAX_LIST_NEST_DEPTH. destruct (Z.leb_spec 8 d); [lia|].
    unfold c1, cnt. rewrite (u32_small k) by (unfold is_u32; lia).
    destruct (Z.eqb_spec n 0); cbn [negb]; [|rewrite aput_ok by lia]; cbn [obind set_stop set_count set_depth list_nest_depth count]; rewrite ?A3;
      (destruct (Z.leb_spec (d + 1) 8); [|lia]; rewrite aput_ok by (rewrite ?length_insert; lia); reflexivity). }
  exists c1. split; [rewrite (read_items_one c c1 (mk_elem EVENT_TYPE_LIST false 0 NoData)) by congruence; reflexivity|].
  assert (Hd : count c1 !! Z.to_nat d = Some (if n =? 0 then 0 else n - 1)).
  { unfold c1, cnt. cbn [count]. rewrite list_lookup_insert_ne by lia. destruct (Z.eqb_spec n 0) as [->|]; [done|].
    apply list_lookup_insert_eq. lia. }
  assert (Hb : forall i, (i < Z.to_nat d)%nat -> count c1 !! i = count c !! i).
  { intros i Hi. unfold c1, cnt. cbn [count]. rewrite list_lookup_insert_ne by lia. destruct (n =? 0); [done|].
    apply list_lookup_insert_ne. lia. }
  split; [|done]. constructor; unfold c1; cbn [is_read read_write_flag list_nest_depth count list_stop pos storage].
  - eapply (rd_moved c _ (pos c + 2)); try done; cbn [len storage count list_nest_depth pos]; unfold cnt; rewrite ?length_insert; lia || done.
  - done.
  - done.
  - unfold ANDROID_MAX_LIST_NEST_DEPTH. lia.
  - unfold cnt. apply list_lookup_insert_eq. lia.
  - destruct (decide (d = 0)) as [->|].
    + change (count c1 !! 0%nat = Some 0). change (Z.to_nat 0) with 0%nat in *. rewrite Hd.
      rewrite A5 in A6. injection A6 as ->. done.
    + change (count c1 !! 0%nat = Some 0). rewrite Hb by lia. done.
  - lia.
  - done.
  - replace (Z.to_nat (pos c + 2)) with (Z.to_nat (pos c) + 2)%nat by lia. by rewrite <- drop_drop, A9.
Qed.

(** The parser leaves a list of which no element is left. *)
Lemma read_stop_at c d m rest :
  at_list c (d + 1) 0 rest -> no_newline rest -> count c !! Z.to_nat d = Some m -> 0 <= m < 128 ->
  exists c', read_items 1 c = Done ([(IStop, (d =? 0))], c') /\ rd_ok c' /\ is_read c' = true /\
    list_nest_depth c' = d /\ pos c' = pos c /\ len c' = len c /\ storage c' = storage c /\ count c' = count c /\
    list_stop c' = (m =? 0).
Proof.
  intros [A1 A2 A3 A4 A5 A6 A7 A8 A9] Hnl Hm Hm2. pose proof A1 as R. rd_facts A1.
  destruct (aget_ok (storage c) (pos c)) as (b & Eb & Hb); [lia|].
  assert (Hb10 : b <> EVENT_TYPE_LIST_STOP).
  { intros ->. apply Hnl. rewrite <- A9. rewrite <- (Nat.add_0_r (Z.to_nat (pos c))), <- lookup_drop in Hb.
    by destruct (drop (Z.to_nat (pos c)) (storage c)). }
  assert (E : android_log_read_next c =
    Done (set_stop (set_depth c d) (m =? 0), mk_elem EVENT_TYPE_LIST_STOP (d =? 0) 0 NoData)).
  { unfold android_log_read_next, android_log_read_next_internal, exhausted. rewrite A2, A3. cbn [negb orb].
    unfold ANDROID_MAX_LIST_NEST_DEPTH, MAX_EVENT_PAYLOAD, LOGGER_ENTRY_MAX_PAYLOAD. destruct (Z.ltb_spec 8 (d + 1)); [lia|].
    rewrite (aget_eq (count c) (d + 1) 0) by (done || lia). cbn [obind]. change ((4068 - 4) / 2 <=? 0) with false.
    rewrite A8. cbn [Z.eqb]. unfold read_stop. rewrite (aget_eq (count c) 0 0) by done. cbn [obind negb Z.eqb]. rewrite A3.
    destruct (Z.eqb_spec (d + 1) 0); [lia|]. cbn [negb].
    assert (Hcomp : (if d + 1 =? 1 then let* n1 := aget (count c) 1 in Done (n1 =? 0) else Done false) = Done (d =? 0)).
    { destruct (Z.eqb_spec (d + 1) 1), (Z.eqb_spec d 0); try lia; [|done]. subst d.
      by rewrite (aget_eq (count c) 1 0). }
    rewrite Hcomp. cbn [obind]. rewrite Eb. cbn [obind]. destruct (Z.eqb_spec b EVENT_TYPE_LIST_STOP); [done|].
    cbn [set_depth list_nest_depth count]. rewrite A3, Z.add_simpl_r.
    destruct (Z.eqb_spec (d + 1) 0); [lia|]. cbn [negb].
    rewrite (aget_eq (count c) d m) by (done || lia). cbn [obind].
    destruct (Z.eqb_spec m 0); cbn [negb]; [|done].
    unfold set_stop, set_depth. cbn. by rewrite A8. }
  eexists. split; [by rewrite (read_items_one _ _ _ E)|].
  split; [|done]. eapply (rd_moved c _ (pos c)); try done; cbn; lia.
Qed.

Lemma encode_all_no_newline es rest : no_newline rest -> no_newline (encode_all es ++ rest).
Proof. destruct es as [|e es]; [done|]. intros _. rewrite encode_all_cons, <- app_assoc. apply encode_no_newline. Qed.

Lemma partial_app a b : partial (a ++ b) = partial a ++ partial b.
Proof. apply fmap_app. Qed.

Lemma reads_all es : Forall reads es -> forall c d rest,
  at_list c d (Z.of_nat (length es)) (encode_all es ++ rest) ->
  pos c + Z.of_nat (length (encode_all es)) <= len c -> Forall (ev_ok 127 d) es -> no_newline rest ->
  exists c', read_items (length (flatten_all es)) c = Done (partial (flatten_all es), c') /\
    at_list c' d 0 rest /\ passed c (Z.of_nat (length (encode_all es))) c'.
Proof.
  induction 1 as [|e es He _ IH]; intros c d rest A Hp Hok Hnl.
  { exists c. split; [done|]. split; [done|]. constructor; try done. cbn. lia. }
  apply Forall_cons in Hok as [Hoke Hok]. rewrite encode_all_cons in *. rewrite <- app_assoc in A. rewrite length_app in Hp.
  destruct (He c d _ _ A) as (c1 & E1 & A1 & P1); [cbn [length]; lia|lia|done|by apply encode_all_no_newline|].
  replace (Z.of_nat (length (e :: es)) - 1) with (Z.of_nat (length es)) in A1 by (cbn [length]; lia).
  destruct (IH c1 d rest A1) as (c2 & E2 & A2 & P2); [rewrite (pa_pos _ _ _ P1), (pa_len _ _ _ P1); lia|done|done|].
  exists c2. split; [|split; [done|]].
  - change (flatten_all (e :: es)) with (flatten e ++ flatten_all es). rewrite length_app, partial_app.
    by eapply read_items_app.
  - destruct P1 as [Q1 Q2 Q3 Q4], P2 as [T1 T2 T3 T4]. rewrite (al_depth _ _ _ _ A) in Q4. rewrite (al_depth _ _ _ _ A1) in T4.
    constructor; [rewrite length_app; lia|congruence|congruence|]. intros i Hi. rewrite (al_depth _ _ _ _ A) in Hi.
    by rewrite T4, Q4.
Qed.

(** A whole list, from any depth. *)
Lemma reads_list es c d n rest :
  Forall reads es -> in_front c d n (encode (EList es) ++ rest) -> pos c + Z.of_nat (length (encode (EList es))) <= len c ->
  ev_ok 127 d (EList es) -> no_newline rest ->
  exists c', read_items (length (flatten (EList es))) c =
      Done (partial (IBegin :: flatten_all es) ++ [(IStop, (d =? 0))], c') /\
    rd_ok c' /\ is_read c' = true /\ list_nest_depth c' = d /\ list_stop c' = ((if n =? 0 then 0 else n - 1) =? 0) /\
    count c' !! Z.to_nat d = Some (if n =? 0 then 0 else n - 1) /\ passed c (Z.of_nat (length (encode (EList es)))) c'.
Proof.
  intros Hes A Hp Hok Hnl. rewrite ev_ok_list in Hok. destruct Hok as (Hd & Hl & Hok). pose proof (if_n _ _ _ _ A) as Hn.
  change (encode (EList es)) with (EVENT_TYPE_LIST :: Z.of_nat (length es) :: encode_all es) in *. cbn [length app] in *.
  destruct (read_list_at c d n _ _ A) as (c1 & E1 & A1 & P1 & L1 & S1 & C1 & B1); [lia|lia|].
  destruct (reads_all es Hes c1 (d + 1) rest A1) as (c2 & E2 & A2 & P2); [rewrite P1, L1; lia|done|done|].
  pose proof (if_range _ _ _ _ A).
  destruct (read_stop_at c2 d (if n =? 0 then 0 else n - 1) rest A2 Hnl) as (c3 & E3 & R3 & F3 & D3 & P3 & L3 & S3 & C3 & T3).
  - rewrite (pa_below _ _ _ P2) by (rewrite (al_depth _ _ _ _ A1); lia). done.
  - destruct (Z.eqb_spec n 0); lia.
  - exists c3. split.
    + cbn [flatten length]. rewrite length_app. cbn [length].
      change (S (length (concat (flatten <$> es)) + 1)) with (1 + (length (flatten_all es) + 1))%nat.
      change (partial (IBegin :: flatten_all es) ++ [(IStop, d =? 0)]) with ([(IBegin, false)] ++ partial (flatten_all es) ++ [(IStop, d =? 0)]).
      eapply read_items_app; [exact E1|]. eapply read_items_app; [exact E2|exact E3].
    + split; [done|]. split; [done|]. split; [done|]. split; [done|].
      assert (Hc : forall i, (i <= Z.to_nat d)%nat -> count c3 !! i = count c1 !! i).
      { intros i Hi. rewrite C3. apply (pa_below _ _ _ P2). rewrite (al_depth _ _ _ _ A1). lia. }
      split; [by rewrite Hc|]. constructor; [rewrite P3, (pa_pos _ _ _ P2), P1; lia| | |].
      * rewrite L3, (pa_len _ _ _ P2). done.
      * rewrite S3, (pa_storage _ _ _ P2). done.
      * rewrite (if_depth _ _ _ _ A). intros i Hi. rewrite Hc by lia. by apply B1.
Qed.

Lemma reads_event e : reads e.
Proof.
  induction e as [v|v|b|s|es IH] using event_ind'; [apply reads_int|apply reads_long|apply reads_float|apply reads_str|].
  intros c d n rest A Hn Hp Hok Hnl. destruct A as [A1 A2 A3 A4 A5 A6 A7 A8 A9].
  assert (Hd : d < ANDROID_MAX_LIST_NEST_DEPTH) by (rewrite ev_ok_list in Hok; tauto).
  destruct (reads_list es c d n rest IH) as (c' & E & R & F & D & T & C & P); [|done|done|done|].
  - constructor; try done; [lia|]. rewrite A8. destruct (Z.eqb_spec n 0); [lia|done].
  - destruct (Z.eqb_spec n 0); [lia|]. destruct (Z.eqb_spec d 0); [lia|].
    exists c'. split.
    + rewrite E. f_equal. f_equal. change (flatten (EList es)) with ((IBegin :: flatten_all es) ++ [IStop]). by rewrite partial_app.
    + split; [|done]. pose proof (pa_storage _ _ _ P) as Hs. pose proof (pa_pos _ _ _ P) as Hpos. rd_facts A1.
      constructor; try done; [|lia|].
      * rewrite (pa_below _ _ _ P) by (rewrite A3; lia). done.
      * rewrite Hs, Hpos. replace (Z.to_nat (pos c + Z.of_nat (length (encode (EList es))))) with (Z.to_nat (pos c) + length (encode (EList es)))%nat by lia.
        by rewrite <- drop_drop, A9, drop_app_length.
Qed.

(** * Claims *)

Definition can_alloc (al : allocator) : Prop := forall a, oom al a = false.

Lemma malloc_ok al : can_alloc al -> exists a al', malloc al = (Some a, al') /\ can_alloc al'.
Proof. intros H. unfold malloc. rewrite H. eexists _, _. split; [done|exact H]. Qed.

(** C19: events written to a log context come back from the parser as they
    were: for at least two well-typed events, nested no deeper and with no
    longer lists than the format allows and fitting the payload, the buffer
    the context hands out, parsed again, gives the start of the list, every
    element with its value in order, the starts and ends of the nested lists
    in their places, and last the end of the list marked complete. *)
Theorem event_log_roundtrip al t es :
  can_alloc al -> Forall (ev_ok 127 1) es -> (2 <= length es <= 127)%nat ->
  2 + Z.of_nat (length (encode_all es)) <= MAX_EVENT_PAYLOAD ->
  exists c0 c1 c2 start n msg p p' al1 al2,
    create_android_logger al t = Done (Some c0, al1) /\ write_events es c0 = Done c1 /\
    android_log_write_list_buffer c1 = Done (c2, Some start, n) /\ mget (storage c2) start n = Done msg /\
    create_android_log_parser al1 msg n = Done (Some p, al2) /\
    read_items (length (flatten (EList es))) p =
    Done (partial (IBegin :: flatten_all es) ++ [(IStop, true)], p').
Proof.
  intros Hal Hok1 Hl Hf.
  assert (Hok : Forall (ev_ok 255 0) es) by (eapply Forall_impl; [exact Hok1|]; intros e; apply ev_ok_weaken; lia).
  destruct (malloc_ok al Hal) as (a1 & al1 & M1 & Hal1).
  destruct (malloc_ok al1 Hal1) as (a2 & al2 & M2 & _).
  destruct (init_context_ok t) as (c0 & E0 & R0 & T0 & P0 & D0 & C0 & S0).
  destruct (write_events_ok es c0) as (c1 & E1 & W1).
  - apply Forall_forall. intros e _. apply write_event_ok.
  - done.
  - by rewrite D0.
  - unfold fits. by rewrite P0.
  - rewrite D0, C0. intros n [= <-]. unfold is_u32. lia.
  - destruct (finished es c0 c1) as (c2 & start & n & E2 & Em & En); try done; [lia|].
    assert (Hmsg : message es = encode (EList es)) by (destruct es as [|e [|e' es]]; [cbn in Hl; lia|cbn in Hl; lia|done]).
    rewrite Hmsg in *. destruct (init_parser_ok (encode (EList es)) n) as (p & Ep & R & Ln & Rd & Pp & Dp & Sp & Cp & Stp); [lia|].
    assert (Hle : Z.of_nat (length (encode (EList es))) = 2 + Z.of_nat (length (encode_all es))) by (cbn [encode length]; unfold encode_all; lia).
    rewrite Z.min_l in Ln by lia. unfold MAX_EVENT_PAYLOAD, LOGGER_ENTRY_MAX_PAYLOAD in *.
    destruct (reads_list es p 0 0 (replicate (Z.to_nat (4068 - n)) 0)) as (p' & Er & _).
    + apply Forall_forall. intros e _. apply reads_event.
    + constructor; try done; [by rewrite Cp|by rewrite Cp|].
      rewrite Pp, Stp, Ln, En. change (Z.to_nat 0) with 0%nat. rewrite drop_0, Nat2Z.id, take_ge by lia. done.
    + rewrite Pp, Ln. lia.
    + apply ev_ok_list. split; [done|]. split; [lia|done].
    + unfold no_newline. destruct (Z.to_nat (4068 - n)) eqn:E; [lia|]. done.
    + eexists c0, c1, c2, start, n, (encode (EList es)), p, p', al1, al2.
      unfold create_android_logger. rewrite M1, E0. cbn [obind]. split; [done|]. split; [done|].
      unfold android_log_write_list_buffer, is_write. rewrite (wr_flag _ (wt_ok _ _ _ _ W1)), (wt_depth _ _ _ _ W1), D0, E2.
      cbn [negb Z.eqb obind]. split; [done|]. split; [done|].
      unfold create_android_log_parser. rewrite M2, Ep. cbn [obind]. split; [done|]. exact Er.
Qed.

Lemma event_log_roundtrip_witness :
  exists c0 c1 c2 start n msg p p' al1 al2,
    create_android_logger (mk_alloc 0 (fun _ => false)) 42 = Done (Some c0, al1) /\
    write_events [EInt (-7); EList [EStr [104; 105]; ELong 5]; EFloat 0x3F800000] c0 = Done c1 /\
    android_log_write_list_buffer c1 = Done (c2, Some start, n) /\ mget (storage c2) start n = Done msg /\
    create_android_log_parser al1 msg n = Done (Some p, al2) /\
    read_items 8 p = Done ([(IBegin, false); (IInt (-7), false); (IBegin, false); (IStr [104; 105], false); (ILong 5, false);
      (IStop, false); (IFloat 0x3F800000, false); (IStop, true)], p').
Proof.
  apply (event_log_roundtrip (mk_alloc 0 (fun _ => false)) 42 [EInt (-7); EList [EStr [104; 105]; ELong 5]; EFloat 0x3F800000]).
  - intros a. reflexivity.
  - repeat (apply Forall_cons; split; [cbn; repeat (split || constructor); lia || done|]). constructor.
  - cbn. lia.
  - vm_compute. discriminate.
Defined.

(** C33: the parser is safe on every message, however malformed: any sequence
    of reads and peeks succeeds, never leaves the arrays of the context, and
    every string it returns lies within the message. *)
Theorem event_reader_safe al msg n ops :
  can_alloc al -> 0 <= n <= Z.of_nat (length msg) ->
  exists p al' els p', create_android_log_parser al msg n = Done (Some p, al') /\
    len p = Z.min n MAX_EVENT_PAYLOAD /\ calls ops p = Done (els, p') /\ length els = length ops /\
    Forall (fun el => match edata el with String start => 0 <= start /\ start + elen el <= len p | _ => True end) els.
Proof.
  intros Hal Hn. destruct (malloc_ok al Hal) as (a & al' & M & _).
  destruct (init_parser_ok msg n Hn) as (p & E & R & L & _). destruct (calls_ok ops p R) as (els & p' & Ec & _ & _ & _ & Hl & Hf).
  exists p, al', els, p'. unfold create_android_log_parser. rewrite M, E. done.
Qed.

Lemma event_reader_safe_witness :
  exists p al' els p', create_android_log_parser (mk_alloc 0 (fun _ => false)) [3; 200; 2; 255; 255; 0; 0; 10] 8 = Done (Some p, al') /\
    calls [false; true; false; false] p = Done (els, p') /\ length els = 4%nat.
Proof.
  destruct (event_reader_safe (mk_alloc 0 (fun _ => false)) [3; 200; 2; 255; 255; 0; 0; 10] 8 [false; true; false; false])
    as (p & al' & els & p' & H1 & _ & H2 & H3 & _).
  - intros a. reflexivity.
  - cbn. lia.
  - exists p, al', els, p'. split; [exact H1|]. split; [exact H2|exact H3].
Defined.

(** C38: a reader that calls [android_log_read_next] until an element is of
    unknown type or marked complete stops on every message, after at most four
    calls per byte of the message and one more. *)
Theorem event_reader_terminates al msg n :
  can_alloc al -> 0 <= n <= Z.of_nat (length msg) ->
  exists p al' k els p' el, create_android_log_parser al msg n = Done (Some p, al') /\
    Z.of_nat k <= 4 * len p + 1 /\ calls (replicate k false) p = Done (els, p') /\
    last els = Some el /\ (etype el = EVENT_TYPE_UNKNOWN \/ complete el = true).
Proof.
  intros Hal Hn. destruct (malloc_ok al Hal) as (a & al' & M & _).
  destruct (init_parser_ok msg n Hn) as (p & E & R & L & _ & P & D & S & _).
  destruct (reads_end p R) as (k & els & p' & Hk & Ec & el & Hl & He). exists p, al', k, els, p', el.
  unfold create_android_log_parser. rewrite M, E. split; [done|].
  unfold calls_left in Hk. rewrite P, D, S in Hk. split; [lia|]. done.
Qed.

Lemma event_reader_terminates_witness :
  exists p al' k els p' el, create_android_log_parser (mk_alloc 0 (fun _ => false)) [3; 1; 3; 1; 10; 10] 6 = Done (Some p, al') /\
    Z.of_nat k <= 4 * len p + 1 /\ calls (replicate k false) p = Done (els, p') /\
    last els = Some el /\ (etype el = EVENT_TYPE_UNKNOWN \/ complete el = true).
Proof.
  apply (event_reader_terminates (mk_alloc 0 (fun _ => false)) [3; 1; 3; 1; 10; 10] 6).
  - intros a. reflexivity.
  - cbn. lia.
Defined.

(** Runs an outcome for its result. *)
Definition result_of {A} (o : outcome A) (d : A) : A := match o with Done a => a | Crash _ => d end.

(** a list of 128 elements is written but cannot be read: the count is
    stored in a byte and read back as a signed one, so the parser reports the
    start of the list and then, in place of the first element, an element of
    unknown type marked complete. *)
Theorem long_list_unreadable :
  exists c p p',
    (let* c := init_context zero_context 1 in write_events (replicate 128 (EInt 1)) c) = Done c /\
    overflow c = false /\
    (let* (c, start, n) := finish_list c in
     let* msg := mget (storage c) start n in init_parser_context zero_context msg n) = Done p /\
    read_items 2 p = Done ([(IBegin, false); (IUnknown, true)], p').
Proof. eexists _, _, _. repeat (split; [vm_compute; reflexivity|]). vm_compute. reflexivity. Qed.

Lemma strnlen_le v m n : strnlen v m = Done n -> 0 <= n <= Z.of_nat (length v).
Proof.
  revert v n. induction m as [|m IH]; intros v n E; [destruct v; injection E as <-; lia|]. destruct v as [|b v]; [done|]. cbn [strnlen] in E.
  destruct (b =? 0); [injection E as <-; lia|]. apply obind_Done in E as (k & E & Ek). injection Ek as <-. apply IH in E. cbn [length]. lia.
Qed.

(** The buffer of a finished message ends at the write position. *)
Lemma list_buffer_ends c :
  read_write_flag c = kAndroidLoggerWrite -> list_nest_depth c = 0 -> length (count c) = 9%nat -> Z.of_nat (length (storage c)) = LOGGER_ENTRY_MAX_PAYLOAD ->
  2 <= pos c ->
  exists c' start n, android_log_write_list_buffer c = Done (c', Some start, n) /\ start + n = pos c /\
    Z.of_nat (length (storage c')) = LOGGER_ENTRY_MAX_PAYLOAD.
Proof.
  intros Hf Hd Hc Hs Hp. unfold android_log_write_list_buffer, is_write, finish_list. rewrite Hf, Hd. cbn [negb Z.eqb].
  destruct (aget_ok (count c) 0) as (n & -> & _); [lia|]. cbn [obind]. rewrite aput_ok by (rewrite Hs; done). cbn [obind set_len set_storage len storage].
  destruct (n <=? 1); [destruct (Z.ltb_spec (pos c - 2) 0); [lia|]|]; do 3 eexists; (split; [reflexivity|]); (split; [lia|]);
    cbn [set_len set_storage storage]; by rewrite length_insert.
Qed.

(** C39: a string that does not fit into the payload.  In any state of a writer
    that has not overflowed, when the string [android_log_write_string8_len] is
    given ([n] bytes of it, fewer than 2^31, up to its end or [maxlen]) does not fit
    behind the position, which is behind the header of the list: if not even one
    of its bytes fits, the call fails, sets the overflow flag and writes nothing.
    Otherwise the bytes that fit are written as a string that ends at the end of the
    payload and their number is returned, but the write position moves by the
    length of the whole string and the overflow flag is not set: at nesting depth 0,
    the buffer that [android_log_write_list_buffer] then reports ends behind the
    payload, and reading it leaves the storage of the context as soon as that end
    is behind LOGGER_ENTRY_MAX_PAYLOAD. *)
Theorem truncated_string_overruns c v maxlen n :
  wr_ok c -> strnlen v (Z.to_nat maxlen) = Done n -> n < 2 ^ 31 -> MAX_EVENT_PAYLOAD < pos c + event_string_size + n -> 2 <= pos c ->
  let room := MAX_EVENT_PAYLOAD - pos c - event_string_size in
  if room <=? 0 then android_log_write_string8_len c (Some v) maxlen = Done (set_overflow c, - EIO)
  else exists c', android_log_write_string8_len c (Some v) maxlen = Done (c', room) /\
    storage c' = splice (storage c) (Z.to_nat (pos c)) (encode (EStr (take (Z.to_nat room) v))) /\
    overflow c' = false /\ pos c' = pos c + event_string_size + n /\
    (list_nest_depth c = 0 ->
     exists c'' start len, android_log_write_list_buffer c' = Done (c'', Some start, len) /\ start + len = pos c' /\ MAX_EVENT_PAYLOAD < start + len /\
       (LOGGER_ENTRY_MAX_PAYLOAD < pos c' -> mget (storage c'') start len = Crash BadPointer)).
Proof.
  intros R Hn Hn31 Hbig Hp2 room. pose proof (strnlen_le _ _ _ Hn) as Hnv. unfold android_log_write_string8_len, is_write.
  rewrite (wr_flag _ R), (wr_overflow _ R), Hn. cbn [negb obind]. destruct (count_one_ok c R) as (k & Hk & Hc1).
  pose proof (wr_overflow _ R) as Ho. pose proof (wr_flag _ R) as Hfl. wr_facts R. unfold event_string_size in *.
  rewrite (s32_small n), (u64_small (5 + n)), (u64_small (pos c + _)) by (unfold is_u64; lia). destruct (Z.ltb_spec (4068 - 4) (pos c + (5 + n))); [|lia]. cbn [andb].
  assert (Hroom : s32 (u64 (4068 - 4 - pos c - 1 - 4)) = room).
  { unfold room, s32, u64. rewrite <- (Z.mod_mod_divide (_ mod 2 ^ 64 + 2 ^ 31) (2 ^ 64) (2 ^ 32)) by (by exists (2 ^ 32)).
    rewrite Zplus_mod_idemp_l, Z.mod_mod_divide by (by exists (2 ^ 32)). rewrite Z.mod_small by lia. lia. }
  rewrite Hroom. destruct (Z.leb_spec room 0); [done|]. rewrite Hc1. cbn [obind set_count storage pos].
  rewrite mput_splice by (cbn [length]; rewrite ?length_le_encode; lia). cbn [obind]. rewrite mget_ok by (unfold room in *; lia). cbn [obind].
  change (Z.to_nat 0) with 0%nat. rewrite drop_0. set (bs := take (Z.to_nat room) v).
  assert (Hbs : Z.of_nat (length bs) = room) by (unfold bs; rewrite length_take; unfold room in *; lia).
  rewrite mput_splice by (rewrite ?length_splice; cbn [length]; rewrite ?length_le_encode; unfold room in *; lia). cbn [obind].
  eexists. split; [reflexivity|]. cbn [set_pos set_storage set_count storage pos list_nest_depth overflow]. rewrite u32_small by (unfold is_u32; lia).
  assert (Hst : splice (splice (storage c) (Z.to_nat (pos c)) (EVENT_TYPE_STRING :: le_encode 4 room)) (Z.to_nat (pos c + 5)) bs
    = splice (storage c) (Z.to_nat (pos c)) (encode (EStr bs))).
  { cbn [encode]. rewrite Hbs. replace (Z.to_nat (pos c + 5)) with (Z.to_nat (pos c) + length (EVENT_TYPE_STRING :: le_encode 4 room))%nat
      by (cbn [length]; rewrite length_le_encode; lia).
    rewrite splice_app by (cbn [length]; rewrite length_le_encode; lia). done. }
  rewrite Hst. split; [done|]. split; [done|]. split; [lia|]. intros Hd.
  match goal with |- context [android_log_write_list_buffer ?x] => destruct (list_buffer_ends x) as (c'' & start & len & E & Hend & Hlen) end;
    [done|done|cbn [set_pos set_storage set_count count]; by rewrite length_insert| |cbn [set_pos pos]; lia|].
  { cbn [set_pos set_storage storage]. rewrite length_splice; [done|]. cbn [encode length]. rewrite length_app, length_le_encode. unfold room in *. lia. }
  cbn [set_pos pos] in Hend. unfold LOGGER_ENTRY_MAX_PAYLOAD in Hlen. exists c'', start, len. split; [exact E|]. split; [lia|]. split; [lia|]. intros Hover. unfold mget.
  destruct (Z.leb_spec (start + len) (Z.of_nat (length (storage c'')))); [lia|]. by rewrite andb_false_r.
Qed.

(** A string of 5000 bytes in a new context: 4057 of them are written, and the
    message is said to have 5005 bytes. *)
Lemma truncated_string_overruns_witness :
  exists c c' c'' start len, init_context zero_context 1 = Done c /\
    android_log_write_string8_len c (Some (replicate 5000 65 ++ [0])) 6000 = Done (c', 4057) /\ overflow c' = false /\
    android_log_write_list_buffer c' = Done (c'', Some start, len) /\ start + len = 5007 /\ mget (storage c'') start len = Crash BadPointer.
Proof.
  destruct (init_context_ok 1) as (c & E & R & _ & Hp & Hd & _).
  assert (Hn : strnlen (replicate 5000 65 ++ [0]) (Z.to_nat 6000) = Done 5000) by (vm_compute; reflexivity).
  pose proof (truncated_string_overruns c (replicate 5000 65 ++ [0]) 6000 5000 R Hn) as H. rewrite Hp in H.
  destruct (H ltac:(lia) ltac:(vm_compute; reflexivity) ltac:(lia)) as (c' & E1 & _ & Ho & Hp' & Hb).
  destruct (Hb Hd) as (c'' & start & len & E2 & Hend & _ & Hm). rewrite Hp' in Hend, Hm.
  exists c, c', c'', start, len. split; [exact E|]. split; [exact E1|]. split; [exact Ho|]. split; [exact E2|]. split; [exact Hend|].
  apply Hm. vm_compute. reflexivity.
Defined.
