(* ===== verification/Vector.v ===== *)
(** libutils/VectorImpl.cpp and SharedBuffer.cpp: vectors that share their
    storage until one of them is changed, and sorted vectors.  The storage is
    kept in a heap of reference-counted buffers; a buffer is the list of its
    item slots, [None] for memory that holds no item.  The size of an item,
    the flags of its type and the value its constructor makes are parameters.
    [LOG_ALWAYS_FATAL] ends the program. *)

From S2P Require Import Prelude.

Local Open Scope Z_scope.

Definition OK : Z := 0.
Definition NO_MEMORY : Z := -12.
Definition BAD_VALUE : Z := -22.
Definition NAME_NOT_FOUND : Z := -2.
Definition BAD_INDEX : Z := -75.

Definition SIZE_MAX : Z := 2 ^ 64 - 1.
Definition sizeof_SharedBuffer : Z := 24.
Definition kMinVectorCapacity : Z := 4.

(** [__builtin_add_overflow], [__builtin_sub_overflow] and
    [__builtin_mul_overflow] where an overflow is fatal. *)
Definition checked (z : Z) : outcome Z :=
  if (0 <=? z) && (z <=? SIZE_MAX) then Done z else Crash AssertFailed.

Section vector.
Context {A : Type} (itemSize : Z) (trivial_ctor trivial_dtor trivial_copy : bool) (default : A).

(** * Shared buffers *)

Record SharedBuffer := mk_sb { mRefs : Z; mSize : Z; slots : list (option A) }.

Record heap := mk_heap { bufs : gmap Z SharedBuffer; hal : allocator }.

Definition sb_get (h : heap) (p : Z) : outcome SharedBuffer :=
  match bufs h !! p with Some sb => Done sb | None => Crash BadPointer end.
Definition sb_set (h : heap) (p : Z) (sb : SharedBuffer) : heap := mk_heap (<[p := sb]> (bufs h)) (hal h).
Definition set_refs (sb : SharedBuffer) (n : Z) : SharedBuffer := mk_sb n (mSize sb) (slots sb).
Definition set_slots (sb : SharedBuffer) (l : list (option A)) : SharedBuffer := mk_sb (mRefs sb) (mSize sb) l.

(** Number of items that fit into [size] bytes. *)
Definition items_in (size : Z) : nat := Z.to_nat (size / itemSize).

Definition alloc (h : heap) (size : Z) : outcome (option Z * heap) :=
  if SIZE_MAX - sizeof_SharedBuffer <=? size then Crash AssertFailed
  else
    match malloc (hal h) with
    | (None, al) => Done (None, mk_heap (bufs h) al)
    | (Some p, al) => Done (Some p, mk_heap (<[p := mk_sb 1 size (replicate (items_in size) None)]> (bufs h)) al)
    end.

Definition dealloc (h : heap) (p : Z) : heap := mk_heap (delete p (bufs h)) (hal h).

Definition onlyOwner (sb : SharedBuffer) : bool := mRefs sb =? 1.

(** [mRefs] is an [int32_t]; it stays the number of owners while there are fewer
    than 2^31 of them, and is not cut to its width here. *)
Definition acquire (h : heap) (p : Z) : outcome heap :=
  let* sb := sb_get h p in Done (sb_set h p (set_refs sb (mRefs sb + 1))).

Definition release (h : heap) (p : Z) (eKeepStorage : bool) : outcome (Z * heap) :=
  let* sb := sb_get h p in
  let useDealloc := negb eKeepStorage in
  if onlyOwner sb then
    let h := sb_set h p (set_refs sb 0) in
    Done (1, if useDealloc then dealloc h p else h)
  else
    let h := sb_set h p (set_refs sb (mRefs sb - 1)) in
    Done (mRefs sb, if (mRefs sb =? 1) && useDealloc then dealloc h p else h).

Definition attemptEdit (sb : SharedBuffer) (p : Z) : option Z := if onlyOwner sb then Some p else None.

(** The copying end of [editResize]. *)
Definition edit_copy (h : heap) (p newSize : Z) (sb : SharedBuffer) : outcome (option Z * heap) :=
  let* (q, h) := alloc h newSize in
  match q with
  | None => Done (None, h)
  | Some q =>
      let* nb := sb_get h q in
      let n := items_in (if newSize <? mSize sb then newSize else mSize sb) in
      let h := sb_set h q (set_slots nb (splice (slots nb) 0 (take n (slots sb)))) in
      let* (_, h) := release h p false in
      Done (Some q, h)
  end.

(** [realloc] moves the buffer to a new address. *)
Definition editResize (h : heap) (p newSize : Z) : outcome (option Z * heap) :=
  let* sb := sb_get h p in
  if onlyOwner sb then
    if mSize sb =? newSize then Done (Some p, h)
    else if SIZE_MAX - sizeof_SharedBuffer <=? newSize then Crash AssertFailed
    else
      match malloc (hal h) with
      | (Some q, al) =>
          Done (Some q, mk_heap (<[q := mk_sb (mRefs sb) newSize (resize (items_in newSize) None (slots sb))]>
                                   (delete p (bufs h))) al)
      | (None, al) => edit_copy (mk_heap (bufs h) al) p newSize sb
      end
  else edit_copy h p newSize sb.

(** * Items in the storage *)

Definition mem_read (h : heap) (p i n : Z) : outcome (list (option A)) :=
  let* sb := sb_get h p in
  if (0 <=? i) && (0 <=? n) && (i + n <=? Z.of_nat (length (slots sb)))
  then Done (take (Z.to_nat n) (drop (Z.to_nat i) (slots sb))) else Crash BadPointer.

Definition mem_write (h : heap) (p i : Z) (xs : list (option A)) : outcome heap :=
  let* sb := sb_get h p in
  if (0 <=? i) && (i + Z.of_nat (length xs) <=? Z.of_nat (length (slots sb)))
  then Done (sb_set h p (set_slots sb (splice (slots sb) (Z.to_nat i) xs))) else Crash BadPointer.

Definition _do_construct (h : heap) (p i n : Z) : outcome heap :=
  if trivial_ctor then Done h else mem_write h p i (replicate (Z.to_nat n) (Some default)).

Definition _do_destroy (h : heap) (p i n : Z) : outcome heap :=
  if trivial_dtor then Done h else mem_write h p i (replicate (Z.to_nat n) None).

Definition _do_copy (h : heap) (dest i from j n : Z) : outcome heap :=
  let* xs := mem_read h from j n in mem_write h dest i xs.

Definition _do_splat (h : heap) (p i : Z) (item : A) (n : Z) : outcome heap :=
  mem_write h p i (replicate (Z.to_nat n) (Some item)).

(** Moving [n] items within a buffer, in either direction. *)
Definition _do_move (h : heap) (p to from n : Z) : outcome heap :=
  let* xs := mem_read h p from n in
  let* h := if trivial_dtor then Done h else mem_write h p from (replicate (Z.to_nat n) None) in
  mem_write h p to xs.

(** * Vectors *)

Record VectorImpl := mk_vec { mStorage : option Z; mCount : Z }.

Definition empty_vec : VectorImpl := mk_vec None 0.

Definition copy_vec (h : heap) (rhs : VectorImpl) : outcome (heap * VectorImpl) :=
  let* h := match mStorage rhs with Some p => acquire h p | None => Done h end in
  Done (h, mk_vec (mStorage rhs) (mCount rhs)).

Definition release_storage (h : heap) (v : VectorImpl) : outcome heap :=
  match mStorage v with
  | None => Done h
  | Some p =>
      let* (prev, h) := release h p true in
      if prev =? 1 then let* h := _do_destroy h p 0 (mCount v) in Done (dealloc h p) else Done h
  end.

(** [same]: the two sides are one object. *)
Definition assign_vec (h : heap) (v rhs : VectorImpl) (same : bool) : outcome (heap * VectorImpl) :=
  if same then Done (h, v)
  else
    let* h := release_storage h v in
    if negb (mCount rhs =? 0) then
      match mStorage rhs with
      | Some p => let* h := acquire h p in Done (h, mk_vec (Some p) (mCount rhs))
      | None => Crash BadPointer
      end
    else Done (h, empty_vec).

Definition editArrayImpl (h : heap) (v : VectorImpl) : outcome (heap * VectorImpl) :=
  match mStorage v with
  | None => Done (h, v)
  | Some p =>
      let* sb := sb_get h p in
      match attemptEdit sb p with
      | Some _ => Done (h, v)
      | None =>
          let* (q, h) := alloc h (mSize sb) in
          match q with
          | None => Crash AssertFailed
          | Some q =>
              let* h := _do_copy h q 0 p 0 (mCount v) in
              let* h := release_storage h v in
              Done (h, mk_vec (Some q) (mCount v))
          end
      end
  end.

Definition capacity (h : heap) (v : VectorImpl) : outcome Z :=
  match mStorage v with
  | Some p => let* sb := sb_get h p in Done (mSize sb / itemSize)
  | None => Done 0
  end.

(** The slot of an item, if there is one. *)
Definition itemLocation (h : heap) (v : VectorImpl) (index : Z) : outcome (option (Z * Z)) :=
  let* c := capacity h v in
  Done (if index <? c then match mStorage v with Some p => Some (p, index) | None => None end else None).

Definition editItemLocation (h : heap) (v : VectorImpl) (index : Z) : outcome (heap * VectorImpl * option (Z * Z)) :=
  let* c := capacity h v in
  if index <? c then
    let* (h, v) := editArrayImpl h v in
    Done (h, v, match mStorage v with Some p => Some (p, index) | None => None end)
  else Done (h, v, None).

(** A new buffer into which the items in front of [where] and those from
    [from] on, which go to [to], are copied; then the old one is released. *)
Definition copy_around (h : heap) (v : VectorImpl) (size where_ from to n : Z) : outcome (heap * option Z) :=
  let* (q, h) := alloc h size in
  match q with
  | None => Done (h, None)
  | Some q =>
      let* h :=
        if negb (where_ =? 0) then
          match mStorage v with Some p => _do_copy h q 0 p 0 where_ | None => Crash BadPointer end
        else Done h in
      let* h :=
        if negb (n =? 0) then
          match mStorage v with Some p => _do_copy h q to p from n | None => Crash BadPointer end
        else Done h in
      let* h := release_storage h v in
      Done (h, Some q)
  end.

Definition _grow (h : heap) (v : VectorImpl) (where_ amount : Z) : outcome (heap * VectorImpl * option (Z * Z)) :=
  let* new_size := checked (mCount v + amount) in
  let* c := capacity h v in
  let* (h, v, ok) :=
    if c <? new_size then
      let* new_capacity := checked (new_size + new_size / 2) in
      let* new_capacity := checked (new_capacity + 1) in
      let new_capacity := Z.max kMinVectorCapacity new_capacity in
      let* new_alloc_size := checked (new_capacity * itemSize) in
      match mStorage v with
      | Some p =>
          if (mCount v =? where_) && trivial_copy && trivial_dtor then
            let* (q, h) := editResize h p new_alloc_size in
            Done (match q with Some q => (h, mk_vec (Some q) (mCount v), true) | None => (h, v, false) end)
          else
            let* (h, q) := copy_around h v new_alloc_size where_ where_ (where_ + amount) (mCount v - where_) in
            Done (match q with Some q => (h, mk_vec (Some q) (mCount v), true) | None => (h, v, false) end)
      | None =>
          let* (h, q) := copy_around h v new_alloc_size where_ where_ (where_ + amount) (mCount v - where_) in
          Done (match q with Some q => (h, mk_vec (Some q) (mCount v), true) | None => (h, v, false) end)
      end
    else
      let* (h, v) := editArrayImpl h v in
      let* h :=
        if negb (where_ =? mCount v) then
          match mStorage v with
          | Some p => _do_move h p (where_ + amount) where_ (mCount v - where_)
          | None => Crash BadPointer
          end
        else Done h in
      Done (h, v, true) in
  if ok : bool then
    let v := mk_vec (mStorage v) new_size in
    let* loc := itemLocation h v where_ in
    Done (h, v, loc)
  else Done (h, v, None).

Definition _shrink (h : heap) (v : VectorImpl) (where_ amount : Z) : outcome (heap * VectorImpl) :=
  match mStorage v with
  | None => Done (h, v)
  | Some p =>
      let* new_size := checked (mCount v - amount) in
      let* c := capacity h v in
      if new_size <? c / 2 then
        let new_capacity := Z.max kMinVectorCapacity (new_size * 2) in
        if (where_ =? new_size) && trivial_copy && trivial_dtor then
          let* (q, h) := editResize h p (new_capacity * itemSize) in
          Done (match q with Some q => (h, mk_vec (Some q) new_size) | None => (h, v) end)
        else
          let* (h, q) := copy_around h v (new_capacity * itemSize) where_ (where_ + amount) where_ (new_size - where_) in
          Done (match q with Some q => (h, mk_vec (Some q) new_size) | None => (h, v) end)
      else
        let* (h, v) := editArrayImpl h v in
        match mStorage v with
        | None => Crash BadPointer
        | Some p =>
            let* h := _do_destroy h p where_ amount in
            let* h :=
              if negb (where_ =? new_size) then _do_move h p where_ (where_ + amount) (new_size - where_)
              else Done h in
            Done (h, mk_vec (Some p) new_size)
        end
  end.

(** Where the items to insert are read from: values of the caller, or a slot
    of a buffer (the storage of a vector). *)
Inductive source := Values (l : list A) | Slots (p i : Z).

Definition insertArrayAt (h : heap) (v : VectorImpl) (array : source) (index length_ : Z) : outcome (heap * VectorImpl * Z) :=
  if mCount v <? index then Done (h, v, BAD_INDEX)
  else
    let* (h, v, where_) := _grow h v index length_ in
    match where_ with
    | None => Done (h, v, NO_MEMORY)
    | Some (p, i) =>
        let* h :=
          match array with
          | Values l => mem_write h p i (Some <$> take (Z.to_nat length_) l)
          | Slots q j => _do_copy h p i q j length_
          end in
        Done (h, v, index)
    end.

(** [arrayImpl()] of a vector without storage is null, and nothing is read. *)
Definition insertVectorAt (h : heap) (v vector : VectorImpl) (index : Z) : outcome (heap * VectorImpl * Z) :=
  insertArrayAt h v (match mStorage vector with Some q => Slots q 0 | None => Values [] end) index (mCount vector).

Definition appendVector (h : heap) (v vector : VectorImpl) : outcome (heap * VectorImpl * Z) :=
  insertVectorAt h v vector (mCount v).

Definition appendArray (h : heap) (v : VectorImpl) (array : source) (length_ : Z) : outcome (heap * VectorImpl * Z) :=
  insertArrayAt h v array (mCount v) length_.

Definition insertAt (h : heap) (v : VectorImpl) (item : option A) (index numItems : Z) : outcome (heap * VectorImpl * Z) :=
  if mCount v <? index then Done (h, v, BAD_INDEX)
  else
    let* (h, v, where_) := _grow h v index numItems in
    match where_ with
    | None => Done (h, v, NO_MEMORY)
    | Some (p, i) =>
        let* h :=
          match item with
          | Some item => _do_splat h p i item numItems
          | None => _do_construct h p i numItems
          end in
        Done (h, v, index)
    end.

Definition removeItemsAt (h : heap) (v : VectorImpl) (index count : Z) : outcome (heap * VectorImpl * Z) :=
  let* end_ := checked (index + count) in
  if mCount v <? end_ then Done (h, v, BAD_VALUE)
  else let* (h, v) := _shrink h v index count in Done (h, v, index).

Definition pop (h : heap) (v : VectorImpl) : outcome (heap * VectorImpl) :=
  if negb (mCount v =? 0) then let* (h, v, _) := removeItemsAt h v (mCount v - 1) 1 in Done (h, v) else Done (h, v).

Definition push (h : heap) (v : VectorImpl) (item : option A) : outcome (heap * VectorImpl) :=
  let* (h, v, _) := insertAt h v item (mCount v) 1 in Done (h, v).

Definition add (h : heap) (v : VectorImpl) (item : option A) : outcome (heap * VectorImpl * Z) :=
  insertAt h v item (mCount v) 1.

Definition replaceAt (h : heap) (v : VectorImpl) (prototype : option A) (index : Z) : outcome (heap * VectorImpl * Z) :=
  if mCount v <=? index then Done (h, v, BAD_INDEX)
  else
    let* (h, v, item) := editItemLocation h v index in
    match item with
    | None => Done (h, v, NO_MEMORY)
    | Some (p, i) =>
        let* h := _do_destroy h p i 1 in
        let* h :=
          match prototype with
          | None => _do_construct h p i 1
          | Some x => mem_write h p i [Some x]
          end in
        Done (h, v, index)
    end.

Definition finish_vector (h : heap) (v : VectorImpl) : outcome (heap * VectorImpl) :=
  let* h := release_storage h v in Done (h, empty_vec).

Definition clear (h : heap) (v : VectorImpl) : outcome (heap * VectorImpl) := _shrink h v 0 (mCount v).

Definition setCapacity (h : heap) (v : VectorImpl) (new_capacity : Z) : outcome (heap * VectorImpl * Z) :=
  if new_capacity <=? mCount v then let* c := capacity h v in Done (h, v, c)
  else
    let* new_allocation_size := checked (new_capacity * itemSize) in
    let* (h, q) := copy_around h v new_allocation_size (mCount v) 0 0 0 in
    Done (match q with
          | Some q => (h, mk_vec (Some q) (mCount v), new_capacity)
          | None => (h, v, NO_MEMORY)
          end).

Definition resize_vec (h : heap) (v : VectorImpl) (size : Z) : outcome (heap * VectorImpl * Z) :=
  let* (h, v, result) :=
    if mCount v <? size then insertAt h v None (mCount v) (size - mCount v)
    else if size <? mCount v then removeItemsAt h v size (mCount v - size)
    else Done (h, v, OK) in
  Done (h, v, if result <? 0 then result else size).

(** * Vectors and the items they hold

    A world is a heap together with all vectors that are alive, each with its
    items; the count of a buffer is the number of vectors that use it. *)

Definition owners (p : Z) (vs : list (VectorImpl * list A)) : Z :=
  Z.of_nat (length (filter (fun x => mStorage x.1 = Some p) vs)).

Definition vec_ok (h : heap) (v : VectorImpl) (l : list A) : Prop :=
  match mStorage v with
  | None => mCount v = 0 /\ l = []
  | Some p => exists sb, bufs h !! p = Some sb /\ take (length l) (slots sb) = Some <$> l /\
      mCount v = Z.of_nat (length l)
  end.

Definition sb_ok (sb : SharedBuffer) : Prop :=
  mSize sb = Z.of_nat (length (slots sb)) * itemSize /\ mSize sb < SIZE_MAX - sizeof_SharedBuffer.

Record world (h : heap) (vs : list (VectorImpl * list A)) : Prop := {
  w_vecs : Forall (fun x => vec_ok h x.1 x.2) vs;
  w_refs : forall p sb, bufs h !! p = Some sb -> mRefs sb = owners p vs /\ 0 < mRefs sb;
  w_bufs : forall p sb, bufs h !! p = Some sb -> sb_ok sb /\ p < next_addr (hal h);
  w_mem : forall a, oom (hal h) a = false
}.

Context (itemSize_pos : 0 < itemSize).

Lemma owners_cons p v l vs :
  owners p ((v, l) :: vs) = owners p vs + if decide (mStorage v = Some p) then 1 else 0.
Proof. unfold owners. rewrite filter_cons. cbn [fst]. case_decide; cbn [length]; lia. Qed.

Lemma owners_nonneg p vs : 0 <= owners p vs.
Proof. unfold owners. lia. Qed.

Lemma owners_perm p vs vs' : vs ≡ₚ vs' -> owners p vs = owners p vs'.
Proof. intros HP. unfold owners. by rewrite HP. Qed.

Lemma world_perm h vs vs' : vs ≡ₚ vs' -> world h vs -> world h vs'.
Proof.
  intros HP W. constructor; [rewrite <- HP; apply W| |apply W|apply W].
  intros p sb Hp. rewrite <- (owners_perm p vs vs' HP). by apply (w_refs _ _ W).
Qed.

(** Vectors that do not use the buffer [p] do not see it change. *)
Lemma owners_zero p vs x : owners p vs = 0 -> x ∈ vs -> mStorage x.1 <> Some p.
Proof.
  unfold owners. intros H Hx Hp. assert (x ∈ filter (fun x => mStorage x.1 = Some p) vs) as Hin by (by apply list_elem_of_filter).
  destruct (filter (fun x => mStorage x.1 = Some p) vs); [by apply elem_of_nil in Hin|cbn [length] in H; lia].
Qed.

Lemma vec_ok_frame h h' v l :
  (forall p, mStorage v = Some p -> exists sb sb', bufs h !! p = Some sb /\ bufs h' !! p = Some sb' /\ slots sb' = slots sb) ->
  vec_ok h v l -> vec_ok h' v l.
Proof.
  intros H. unfold vec_ok. destruct (mStorage v) as [p|]; [|done]. intros (sb & Hb & Ht & Hc).
  destruct (H p eq_refl) as (sb1 & sb2 & H1 & H2 & H3). exists sb2. split; [done|]. rewrite H1 in Hb. injection Hb as ->.
  by rewrite H3.
Qed.

Lemma items_in_mul n : 0 <= n -> items_in (n * itemSize) = Z.to_nat n.
Proof. intros Hn. unfold items_in. rewrite Z.div_mul by lia. done. Qed.

(** ** Allocation *)

Lemma alloc_spec h vs n :
  world h vs -> 0 <= n -> n * itemSize < SIZE_MAX - sizeof_SharedBuffer ->
  exists p h1, alloc h (n * itemSize) = Done (Some p, h1) /\ bufs h !! p = None /\
    bufs h1 = <[p := mk_sb 1 (n * itemSize) (replicate (Z.to_nat n) None)]> (bufs h) /\
    world h1 ((mk_vec (Some p) 0, []) :: vs).
Proof.
  intros W Hn Hs. unfold alloc. destruct (Z.leb_spec (SIZE_MAX - sizeof_SharedBuffer) (n * itemSize)); [lia|].
  unfold malloc. rewrite (w_mem _ _ W). rewrite items_in_mul by done. set (p := next_addr (hal h)).
  assert (Hp : bufs h !! p = None).
  { destruct (bufs h !! p) as [sb|] eqn:E; [|done]. apply (w_bufs _ _ W) in E as [_ E]. unfold p in E. lia. }
  eexists p, _. split; [reflexivity|]. split; [done|]. split; [done|]. constructor; cbn [bufs hal next_addr oom].
  - apply Forall_cons. split.
    + exists (mk_sb 1 (n * itemSize) (replicate (Z.to_nat n) None)). split; [apply lookup_insert_eq|done].
    + eapply Forall_impl; [apply (w_vecs _ _ W)|]. intros [v l] Hv. cbn [fst snd] in *. eapply vec_ok_frame; [|exact Hv].
      intros q Hq. unfold vec_ok in Hv. rewrite Hq in Hv. destruct Hv as (sb & Hb & _). exists sb, sb.
      split; [done|]. split; [|done]. cbn [bufs]. rewrite lookup_insert_ne; [done|]. intros ->. congruence.
  - intros q sb Hq. rewrite owners_cons. cbn [mStorage]. destruct (decide (p = q)) as [<-|Hne].
    + rewrite lookup_insert_eq in Hq. injection Hq as <-. rewrite decide_True by done. cbn [mRefs]. split; [|lia].
      assert (owners p vs = 0) as ->; [|lia]. unfold owners.
      destruct (filter (fun x => mStorage x.1 = Some p) vs) as [|x f] eqn:E; [done|]. exfalso.
      assert (x ∈ filter (fun x => mStorage x.1 = Some p) vs) as Hx by (rewrite E; left).
      apply list_elem_of_filter in Hx as [Hx1 Hx2]. pose proof (w_vecs _ _ W) as Hv. rewrite Forall_forall in Hv.
      specialize (Hv x Hx2). unfold vec_ok in Hv. rewrite Hx1 in Hv. destruct Hv as (? & ? & _). congruence.
    + rewrite lookup_insert_ne in Hq by done. rewrite decide_False by congruence. rewrite Z.add_0_r. by apply (w_refs _ _ W).
  - intros q sb Hq. destruct (decide (p = q)) as [<-|Hne].
    + rewrite lookup_insert_eq in Hq. injection Hq as <-. split; [|unfold p; lia]. unfold sb_ok. cbn [mSize slots]. rewrite length_replicate. split; lia.
    + rewrite lookup_insert_ne in Hq by done. apply (w_bufs _ _ W) in Hq as [? ?]. split; [done|lia].
  - apply (w_mem _ _ W).
Qed.

(** ** Writing into a buffer of one's own *)

Lemma own_buffer h v l vs p sb :
  world h ((v, l) :: vs) -> mStorage v = Some p -> bufs h !! p = Some sb -> mRefs sb = 1 -> owners p vs = 0.
Proof.
  intros W Hv Hb H1. destruct (w_refs _ _ W p sb Hb) as [Ho _]. rewrite owners_cons, decide_True in Ho by done. lia.
Qed.

Lemma own_write h v l vs p sb sl n l' :
  world h ((v, l) :: vs) -> mStorage v = Some p -> bufs h !! p = Some sb -> mRefs sb = 1 ->
  length sl = length (slots sb) -> take (length l') sl = Some <$> l' -> n = Z.of_nat (length l') ->
  world (sb_set h p (set_slots sb sl)) ((mk_vec (Some p) n, l') :: vs).
Proof.
  intros W Hv Hb H1 Hl Ht ->. pose proof (own_buffer _ _ _ _ _ _ W Hv Hb H1) as Ho.
  pose proof (w_vecs _ _ W) as Hvs. apply Forall_cons in Hvs as [_ Hvs].
  constructor; unfold sb_set; cbn [bufs hal].
  - apply Forall_cons. split.
    + exists (set_slots sb sl). cbn [mStorage mCount bufs]. split; [apply lookup_insert_eq|]. done.
    + rewrite Forall_forall in *. intros x Hx. eapply vec_ok_frame; [|by apply Hvs]. intros q Hq.
      pose proof (owners_zero p vs x Ho Hx) as Hne. specialize (Hvs x Hx). unfold vec_ok in Hvs. rewrite Hq in Hvs.
      destruct Hvs as (sb' & Hsb' & _). exists sb', sb'. cbn [bufs]. rewrite lookup_insert_ne by congruence. done.
  - intros q sb' Hq. destruct (w_refs _ _ W p sb Hb) as [Hr Hr']. destruct (decide (p = q)) as [<-|Hne].
    + rewrite lookup_insert_eq in Hq. injection Hq as <-. rewrite owners_cons. cbn [mStorage set_slots mRefs].
      rewrite decide_True, Ho, H1 by done. lia.
    + rewrite lookup_insert_ne in Hq by done. apply (w_refs _ _ W) in Hq as [Hq Hq']. rewrite owners_cons in Hq |- *. cbn [mStorage].
      rewrite decide_False in Hq by congruence. rewrite decide_False by congruence. done.
  - intros q sb' Hq. destruct (decide (p = q)) as [<-|Hne].
    + rewrite lookup_insert_eq in Hq. injection Hq as <-. apply (w_bufs _ _ W) in Hb as [Hok ?]. split; [|done].
      unfold sb_ok in *. cbn [set_slots mSize slots]. by rewrite Hl.
    + rewrite lookup_insert_ne in Hq by done. by apply (w_bufs _ _ W).
  - apply (w_mem _ _ W).
Qed.

(** ** Giving up a vector *)

Lemma release_storage_spec h v l vs :
  world h ((v, l) :: vs) ->
  exists h', release_storage h v = Done h' /\ world h' vs /\
    (forall q, mStorage v <> Some q -> bufs h' !! q = bufs h !! q).
Proof.
  intros W. pose proof (w_vecs _ _ W) as Hvs. apply Forall_cons in Hvs as [Hv Hvs]. cbn [fst snd] in Hv.
  unfold release_storage. destruct (mStorage v) as [p|] eqn:Hp.
  2:{ exists h. split; [done|]. split; [|done]. constructor; [done| |apply W|apply W].
      intros q sb Hq. destruct (w_refs _ _ W q sb Hq) as [H1 H2]. rewrite owners_cons, Hp in H1.
      rewrite decide_False in H1 by done. split; [lia|done]. }
  unfold vec_ok in Hv. rewrite Hp in Hv. destruct Hv as (sb & Hb & Ht & Hc).
  destruct (w_refs _ _ W p sb Hb) as [Hr Hr']. rewrite owners_cons, decide_True in Hr by done.
  unfold release, sb_get. rewrite Hb. cbn [obind]. unfold onlyOwner.
  assert (Hlen : (length l <= length (slots sb))%nat).
  { apply (f_equal length) in Ht. rewrite length_take, length_fmap in Ht. lia. }
  assert (Hframe : forall x, x ∈ vs -> forall q, mStorage x.1 = Some q -> exists sb, bufs h !! q = Some sb).
  { intros x Hx q Hq. rewrite Forall_forall in Hvs. specialize (Hvs x Hx). unfold vec_ok in Hvs. rewrite Hq in Hvs.
    destruct Hvs as (sb' & ? & _). by exists sb'. }
  destruct (Z.eqb_spec (mRefs sb) 1) as [E1|E1].
  - assert (Ho : owners p vs = 0) by lia. cbn [obind negb Z.eqb Pos.eqb].
    assert (exists h1, _do_destroy (sb_set h p (set_refs sb 0)) p 0 (mCount v) = Done h1 /\
      forall q, q <> p -> bufs h1 !! q = bufs h !! q /\ hal h1 = hal h) as (h1 & -> & Hh1).
    { unfold _do_destroy. destruct trivial_dtor.
      - eexists. split; [done|]. intros q Hq. cbn [sb_set bufs]. by rewrite lookup_insert_ne.
      - unfold mem_write, sb_get. cbn [sb_set bufs]. rewrite lookup_insert_eq. cbn [obind set_refs slots].
        rewrite length_replicate. destruct (Z.leb_spec (0 + Z.of_nat (Z.to_nat (mCount v))) (Z.of_nat (length (slots sb)))); [|lia].
        cbn [andb Z.leb]. eexists. split; [reflexivity|]. intros q Hq. cbn [sb_set bufs hal]. by rewrite !lookup_insert_ne. }
    cbn [obind]. exists (dealloc h1 p). split; [done|].
    assert (Hsame : forall q, q <> p -> bufs (dealloc h1 p) !! q = bufs h !! q).
    { intros q Hq. cbn [dealloc bufs]. rewrite lookup_delete_ne by done. by apply Hh1. }
    assert (Hhal : hal (dealloc h1 p) = hal h) by (apply (Hh1 (p + 1)); lia).
    split; [|intros q Hq; apply Hsame; congruence].
    constructor.
    + rewrite Forall_forall in *. intros x Hx. eapply vec_ok_frame; [|by apply Hvs]. intros q Hq.
      pose proof (owners_zero p vs x Ho Hx) as Hne. destruct (Hframe x Hx q Hq) as (sb' & Hsb'). exists sb', sb'.
      rewrite Hsame by congruence. done.
    + intros q sb' Hq. destruct (decide (q = p)) as [->|Hne]; [cbn [dealloc bufs] in Hq; by rewrite lookup_delete_eq in Hq|].
      rewrite Hsame in Hq by done. destruct (w_refs _ _ W q sb' Hq) as [H1 H2]. rewrite owners_cons, Hp, decide_False in H1 by congruence.
      split; [lia|done].
    + intros q sb' Hq. destruct (decide (q = p)) as [->|Hne]; [cbn [dealloc bufs] in Hq; by rewrite lookup_delete_eq in Hq|].
      rewrite Hsame in Hq by done. rewrite Hhal. by apply (w_bufs _ _ W).
    + rewrite Hhal. apply (w_mem _ _ W).
  - cbn [obind negb]. rewrite andb_false_r. destruct (Z.eqb_spec (mRefs sb) 1); [done|].
    eexists. split; [reflexivity|].
    assert (Hsame : forall q, q <> p -> bufs (sb_set h p (set_refs sb (mRefs sb - 1))) !! q = bufs h !! q).
    { intros q Hq. cbn [sb_set bufs]. by rewrite lookup_insert_ne. }
    split; [|intros q Hq; apply Hsame; congruence]. constructor.
    + rewrite Forall_forall in *. intros x Hx. eapply vec_ok_frame; [|by apply Hvs]. intros q Hq.
      destruct (Hframe x Hx q Hq) as (sb' & Hsb'). destruct (decide (q = p)) as [->|Hne].
      * exists sb, (set_refs sb (mRefs sb - 1)). split; [done|]. cbn [sb_set bufs]. by rewrite lookup_insert_eq.
      * exists sb', sb'. rewrite Hsame by done. done.
    + intros q sb' Hq. destruct (decide (q = p)) as [->|Hne].
      * cbn [sb_set bufs] in Hq. rewrite lookup_insert_eq in Hq. injection Hq as <-. cbn [set_refs mRefs]. lia.
      * rewrite Hsame in Hq by done. destruct (w_refs _ _ W q sb' Hq) as [H1 H2]. rewrite owners_cons, Hp, decide_False in H1 by congruence.
        split; [lia|done].
    + intros q sb' Hq. cbn [sb_set hal]. destruct (decide (q = p)) as [->|Hne].
      * cbn [sb_set bufs] in Hq. rewrite lookup_insert_eq in Hq. injection Hq as <-. by apply (w_bufs _ _ W) in Hb.
      * rewrite Hsame in Hq by done. by apply (w_bufs _ _ W).
    + apply (w_mem _ _ W).
Qed.

(** ** Reading and writing *)

Lemma mem_read_ok h p sb i n :
  bufs h !! p = Some sb -> 0 <= i -> 0 <= n -> i + n <= Z.of_nat (length (slots sb)) ->
  mem_read h p i n = Done (take (Z.to_nat n) (drop (Z.to_nat i) (slots sb))).
Proof.
  intros Hb Hi Hn Hl. unfold mem_read, sb_get. rewrite Hb. cbn [obind].
  destruct (Z.leb_spec 0 i), (Z.leb_spec 0 n), (Z.leb_spec (i + n) (Z.of_nat (length (slots sb)))); try lia; done.
Qed.

Lemma mem_write_ok h p sb i xs :
  bufs h !! p = Some sb -> 0 <= i -> i + Z.of_nat (length xs) <= Z.of_nat (length (slots sb)) ->
  mem_write h p i xs = Done (sb_set h p (set_slots sb (splice (slots sb) (Z.to_nat i) xs))).
Proof.
  intros Hb Hi Hl. unfold mem_write, sb_get. rewrite Hb. cbn [obind].
  destruct (Z.leb_spec 0 i), (Z.leb_spec (i + Z.of_nat (length xs)) (Z.of_nat (length (slots sb)))); try lia; done.
Qed.

(** The items of a vector with storage. *)
Lemma vec_buffer h v l vs p :
  world h ((v, l) :: vs) -> mStorage v = Some p ->
  exists sb, bufs h !! p = Some sb /\ take (length l) (slots sb) = Some <$> l /\ mCount v = Z.of_nat (length l) /\
    sb_ok sb /\ (length l <= length (slots sb))%nat.
Proof.
  intros W Hp. pose proof (w_vecs _ _ W) as Hv. apply Forall_cons in Hv as [Hv _]. unfold vec_ok in Hv. cbn [fst snd] in Hv.
  rewrite Hp in Hv. destruct Hv as (sb & Hb & Ht & Hc). exists sb. split; [done|]. split; [done|]. split; [done|].
  split; [apply (w_bufs _ _ W p sb Hb)|]. apply (f_equal length) in Ht. rewrite length_take, length_fmap in Ht. lia.
Qed.

Lemma vec_count h v l vs : world h ((v, l) :: vs) -> mCount v = Z.of_nat (length l).
Proof.
  intros W. pose proof (w_vecs _ _ W) as Hv. apply Forall_cons in Hv as [Hv _]. unfold vec_ok in Hv. cbn [fst snd] in Hv.
  destruct (mStorage v); [by destruct Hv as (? & _ & _ & ?)|]. by destruct Hv as [-> ->].
Qed.

Lemma vec_no_storage h v l vs : world h ((v, l) :: vs) -> mStorage v = None -> l = [] /\ mCount v = 0.
Proof.
  intros W Hn. pose proof (w_vecs _ _ W) as Hv. apply Forall_cons in Hv as [Hv _]. unfold vec_ok in Hv. cbn [fst snd] in Hv.
  rewrite Hn in Hv. tauto.
Qed.

(** A part of the items, as slots. *)
Lemma slots_part (sl : list (option A)) (l : list A) i n :
  take (length l) sl = Some <$> l -> (i + n <= length l)%nat ->
  take n (drop i sl) = Some <$> take n (drop i l).
Proof.
  intros Ht Hl. rewrite fmap_take, fmap_drop, <- Ht, skipn_firstn_comm, take_take. f_equal. lia.
Qed.

Lemma slots_take (sl : list (option A)) (l : list A) n :
  take (length l) sl = Some <$> l -> (n <= length l)%nat -> take n sl = Some <$> take n l.
Proof. intros Ht Hl. apply (slots_part sl l 0 n Ht). done. Qed.

(** ** Buffers of one's own *)

(** A vector that is the only user of its buffer of [cap] slots. *)
Record sole (h : heap) (v : VectorImpl) (l : list A) (vs : list (VectorImpl * list A)) (p cap : Z) (sb : SharedBuffer) : Prop := {
  so_world : world h ((v, l) :: vs);
  so_storage : mStorage v = Some p;
  so_buffer : bufs h !! p = Some sb;
  so_refs : mRefs sb = 1;
  so_cap : Z.of_nat (length (slots sb)) = cap
}.

(** The slots of the buffer replaced. *)
Lemma sole_write h v l vs p cap sb sl n l' :
  sole h v l vs p cap sb -> length sl = length (slots sb) -> take (length l') sl = Some <$> l' -> n = Z.of_nat (length l') ->
  sole (sb_set h p (set_slots sb sl)) (mk_vec (Some p) n) l' vs p cap (set_slots sb sl).
Proof.
  intros [W Hp Hb H1 Hc] Hl Ht Hn. constructor; [by eapply own_write|done| |done|cbn [set_slots slots]; lia].
  cbn [sb_set bufs]. apply lookup_insert_eq.
Qed.

Lemma sole_items h v l vs p cap sb :
  sole h v l vs p cap sb -> take (length l) (slots sb) = Some <$> l /\ Z.of_nat (length l) <= cap.
Proof.
  intros [W Hp Hb H1 Hc]. destruct (vec_buffer h v l vs p W Hp) as (sb' & Hb' & Ht & _ & _ & Hl).
  rewrite Hb in Hb'. injection Hb' as <-. split; [done|lia].
Qed.

(** Only the first [k] items counted. *)
Lemma sole_shorten h v l vs p cap sb k :
  sole h v l vs p cap sb -> (k <= length l)%nat ->
  sole h (mk_vec (Some p) (Z.of_nat k)) (take k l) vs p cap sb.
Proof.
  intros S Hk. destruct (sole_items _ _ _ _ _ _ _ S) as [Ht Hl]. pose proof (so_buffer _ _ _ _ _ _ _ S) as Hb.
  assert (Hsb : set_slots sb (slots sb) = sb) by (by destruct sb).
  assert (Hid : sb_set h p sb = h).
  { destruct h as [m al]. unfold sb_set. cbn [bufs hal] in *. by rewrite insert_id. }
  pose proof (sole_write h v l vs p cap sb (slots sb) (Z.of_nat k) (take k l) S eq_refl) as S'.
  rewrite Hsb, Hid in S'. apply S'; rewrite length_take, Nat.min_l by lia; [by apply slots_take|done].
Qed.

(** Another vector given up. *)
Lemma sole_drop h w lw v l vs q cap sb :
  sole h w lw ((v, l) :: vs) q cap sb ->
  exists h', release_storage h v = Done h' /\ sole h' w lw vs q cap sb.
Proof.
  intros S. destruct (release_storage_spec h v l ((w, lw) :: vs)) as (h' & E & W' & Hsame).
  { eapply world_perm; [|apply (so_world _ _ _ _ _ _ _ S)]. apply Permutation_swap. }
  exists h'. split; [done|]. pose proof S as [W Hq Hb H1 Hc]. constructor; [done|done| |done|done].
  rewrite Hsame; [done|]. intros Hv. pose proof (own_buffer _ _ _ _ _ _ W Hq Hb H1) as Ho. rewrite owners_cons, decide_True in Ho by done.
  pose proof (owners_nonneg q vs). lia.
Qed.

(** The storage of [v] as seen while a new buffer is filled. *)
Lemma sole_other h w lw v l vs q cap sb p :
  sole h w lw ((v, l) :: vs) q cap sb -> mStorage v = Some p ->
  exists sbp, bufs h !! p = Some sbp /\ take (length l) (slots sbp) = Some <$> l /\ (length l <= length (slots sbp))%nat.
Proof.
  intros S Hp. destruct (vec_buffer h v l ((w, lw) :: vs) p) as (sbp & Hb & Ht & _ & _ & Hl); [|done|by exists sbp].
  eapply world_perm; [|apply (so_world _ _ _ _ _ _ _ S)]. apply Permutation_swap.
Qed.

(** The first [k] items copied from [v]. *)
Lemma copy_front h w v l vs q cap sb p k :
  sole h w [] ((v, l) :: vs) q cap sb -> mStorage v = Some p -> 0 <= k <= Z.of_nat (length l) -> k <= cap ->
  exists h' sb', _do_copy h q 0 p 0 k = Done h' /\ sole h' (mk_vec (Some q) k) (take (Z.to_nat k) l) ((v, l) :: vs) q cap sb'.
Proof.
  intros S Hp Hk Hc. destruct (sole_other _ _ _ _ _ _ _ _ _ p S Hp) as (sbp & Hb & Ht & Hl).
  pose proof (so_cap _ _ _ _ _ _ _ S) as Hcap. pose proof (so_buffer _ _ _ _ _ _ _ S) as Hq.
  unfold _do_copy. rewrite (mem_read_ok h p sbp) by (done || lia). cbn [obind].
  change (Z.to_nat 0) with 0%nat. rewrite drop_0, (slots_take _ l) by (done || lia).
  set (xs := Some <$> take (Z.to_nat k) l). assert (Hxs : length xs = Z.to_nat k) by (unfold xs; rewrite length_fmap, length_take; lia).
  rewrite (mem_write_ok h q sb) by (done || lia). eexists _, _. split; [reflexivity|].
  eapply sole_write; [exact S|apply length_splice; lia| |rewrite length_take; lia].
  change (Z.to_nat 0) with 0%nat. unfold splice. rewrite take_0. cbn [app]. apply take_app_length'. unfold xs. by rewrite length_fmap.
Qed.

(** [n] items of [v] from [from] on copied behind the first [k]. *)
Lemma copy_back h v l vs q cap sb p k from to n :
  sole h (mk_vec (Some q) k) (take (Z.to_nat k) l) ((v, l) :: vs) q cap sb -> mStorage v = Some p ->
  0 <= k <= Z.of_nat (length l) -> 0 <= from -> 0 <= n -> from + n <= Z.of_nat (length l) -> k <= to -> to + n <= cap ->
  exists h' sb', _do_copy h q to p from n = Done h' /\
    sole h' (mk_vec (Some q) k) (take (Z.to_nat k) l) ((v, l) :: vs) q cap sb' /\
    take (Z.to_nat n) (drop (Z.to_nat to) (slots sb')) = Some <$> take (Z.to_nat n) (drop (Z.to_nat from) l).
Proof.
  intros S Hp Hk Hf Hn Hfn Hto Htn. destruct (sole_other _ _ _ _ _ _ _ _ _ p S Hp) as (sbp & Hb & Ht & Hl).
  pose proof (so_cap _ _ _ _ _ _ _ S) as Hcap. pose proof (so_buffer _ _ _ _ _ _ _ S) as Hq.
  destruct (sole_items _ _ _ _ _ _ _ S) as [Hi _]. rewrite length_take, Nat.min_l in Hi by lia.
  unfold _do_copy. rewrite (mem_read_ok h p sbp) by (done || lia). cbn [obind]. rewrite (slots_part _ l) by (done || lia).
  set (xs := Some <$> take (Z.to_nat n) (drop (Z.to_nat from) l)).
  assert (Hxs : length xs = Z.to_nat n) by (unfold xs; rewrite length_fmap, length_take, length_drop; lia).
  rewrite (mem_write_ok h q sb) by (done || lia). eexists _, _. split; [reflexivity|]. split.
  - eapply sole_write; [exact S|apply length_splice; lia| |rewrite length_take; lia].
    rewrite length_take, Nat.min_l by lia. rewrite take_splice by lia. done.
  - cbn [set_slots slots]. unfold splice. rewrite drop_app_length' by (rewrite length_take; lia). by rewrite take_app_length'.
Qed.

Definition small (cap : Z) : Prop := 0 <= cap /\ cap * itemSize < SIZE_MAX - sizeof_SharedBuffer.

Lemma alloc_sole h vs cap :
  world h vs -> small cap ->
  exists q h1 sb, alloc h (cap * itemSize) = Done (Some q, h1) /\ sole h1 (mk_vec (Some q) 0) [] vs q cap sb.
Proof.
  intros W [Hc Hs]. destruct (alloc_spec h vs cap W Hc Hs) as (q & h1 & E & _ & Hb & W1). eexists q, h1, _. split; [done|].
  constructor; [done|done|rewrite Hb; apply lookup_insert_eq|done|]. cbn [slots]. rewrite length_replicate. lia.
Qed.

(** ** Copying into a new buffer *)

Lemma copy_around_spec h v l vs cap where_ from to n :
  world h ((v, l) :: vs) -> small cap ->
  0 <= where_ <= Z.of_nat (length l) -> 0 <= from -> 0 <= n -> from + n <= Z.of_nat (length l) ->
  where_ <= to -> to + n <= cap ->
  exists h' q sb, copy_around h v (cap * itemSize) where_ from to n = Done (h', Some q) /\
    sole h' (mk_vec (Some q) where_) (take (Z.to_nat where_) l) vs q cap sb /\
    take (Z.to_nat n) (drop (Z.to_nat to) (slots sb)) = Some <$> take (Z.to_nat n) (drop (Z.to_nat from) l).
Proof.
  intros W Hs Hw Hf Hn Hfn Hto Htn. unfold copy_around.
  destruct (alloc_sole h _ cap W Hs) as (q & h1 & sb1 & -> & S1). cbn [obind].
  assert (Hnone : mStorage v = None -> where_ = 0 /\ n = 0).
  { intros Hp. destruct (vec_no_storage _ _ _ _ W Hp) as [-> _]. cbn [length] in *. lia. }
  assert (exists h2 sb2, (if negb (where_ =? 0) then match mStorage v with Some p => _do_copy h1 q 0 p 0 where_ | None => Crash BadPointer end
    else Done h1) = Done h2 /\ sole h2 (mk_vec (Some q) where_) (take (Z.to_nat where_) l) ((v, l) :: vs) q cap sb2) as (h2 & sb2 & -> & S2).
  { destruct (Z.eqb_spec where_ 0) as [->|Hne]; cbn [negb]; [by exists h1, sb1|].
    destruct (mStorage v) as [p|] eqn:Hp; [|by destruct Hnone]. eapply copy_front; [done|done|done|lia]. }
  cbn [obind].
  assert (exists h3 sb3, (if negb (n =? 0) then match mStorage v with Some p => _do_copy h2 q to p from n | None => Crash BadPointer end
    else Done h2) = Done h3 /\ sole h3 (mk_vec (Some q) where_) (take (Z.to_nat where_) l) ((v, l) :: vs) q cap sb3 /\
    take (Z.to_nat n) (drop (Z.to_nat to) (slots sb3)) = Some <$> take (Z.to_nat n) (drop (Z.to_nat from) l)) as (h3 & sb3 & -> & S3 & Hpart).
  { destruct (Z.eqb_spec n 0) as [->|Hne]; cbn [negb]; [by exists h2, sb2|].
    destruct (mStorage v) as [p|] eqn:Hp; [|by destruct Hnone]. eapply copy_back; try done; lia. }
  cbn [obind]. destruct (sole_drop _ _ _ _ _ _ _ _ _ S3) as (h4 & -> & S4). cbn [obind]. by exists h4, q, sb3.
Qed.

Lemma size_of_slots sb : sb_ok sb -> mSize sb / itemSize = Z.of_nat (length (slots sb)).
Proof. intros [-> _]. apply Z.div_mul. lia. Qed.

Lemma sb_ok_small sb : sb_ok sb -> small (Z.of_nat (length (slots sb))).
Proof. intros [E H]. split; lia. Qed.

Lemma capacity_spec h v l vs :
  world h ((v, l) :: vs) ->
  exists c, capacity h v = Done c /\ Z.of_nat (length l) <= c /\
    match mStorage v with
    | Some p => exists sb, bufs h !! p = Some sb /\ Z.of_nat (length (slots sb)) = c /\ mSize sb = c * itemSize
    | None => c = 0
    end.
Proof.
  intros W. unfold capacity. destruct (mStorage v) as [p|] eqn:Hp.
  - destruct (vec_buffer h v l vs p W Hp) as (sb & Hb & _ & _ & Hok & Hl). unfold sb_get. rewrite Hb. cbn [obind].
    exists (mSize sb / itemSize). rewrite size_of_slots by done. split; [done|]. split; [lia|]. exists sb. split; [done|]. split; [done|]. apply Hok.
  - destruct (vec_no_storage _ _ _ _ W Hp) as [-> _]. by exists 0.
Qed.

(** ** Making the storage one's own *)

Lemma editArrayImpl_spec h v l vs p sb :
  world h ((v, l) :: vs) -> mStorage v = Some p -> bufs h !! p = Some sb ->
  exists h' q sb', editArrayImpl h v = Done (h', mk_vec (Some q) (mCount v)) /\
    sole h' (mk_vec (Some q) (mCount v)) l vs q (Z.of_nat (length (slots sb))) sb'.
Proof.
  intros W Hp Hb. unfold editArrayImpl. rewrite Hp. unfold sb_get. rewrite Hb. cbn [obind]. unfold attemptEdit, onlyOwner.
  destruct (vec_buffer h v l vs p W Hp) as (sb1 & Hb1 & Ht & Hc & Hok & Hl). rewrite Hb in Hb1. injection Hb1 as <-.
  destruct (Z.eqb_spec (mRefs sb) 1) as [E|E].
  - exists h, p, sb. destruct v as [st cnt]. cbn [mStorage mCount] in *. subst st. split; [done|]. by constructor.
  - destruct Hok as [Hsz Hmax]. rewrite Hsz in *. destruct (alloc_sole h _ (Z.of_nat (length (slots sb))) W ltac:(split; lia)) as (q & h1 & sb1 & -> & S1). cbn [obind].
    destruct (copy_front _ _ _ _ _ _ _ _ p (mCount v) S1 Hp) as (h2 & sb2 & -> & S2); [lia|lia|]. cbn [obind].
    destruct (sole_drop _ _ _ _ _ _ _ _ _ S2) as (h3 & -> & S3). cbn [obind]. exists h3, q, sb2. split; [done|].
    rewrite take_ge in S3 by lia. done.
Qed.

(** ** Resizing the storage *)

(** The buffer moved to a new address. *)
Lemma moved_world h v l vs p sb size sl k :
  world h ((v, l) :: vs) -> mStorage v = Some p -> bufs h !! p = Some sb -> mRefs sb = 1 ->
  size = Z.of_nat (length sl) * itemSize -> size < SIZE_MAX - sizeof_SharedBuffer -> (k <= length l)%nat -> take k sl = Some <$> take k l ->
  let q := next_addr (hal h) in
  let h' := mk_heap (<[q := mk_sb (mRefs sb) size sl]> (delete p (bufs h))) (mk_alloc (q + 1) (oom (hal h))) in
  sole h' (mk_vec (Some q) (Z.of_nat k)) (take k l) vs q (Z.of_nat (length sl)) (mk_sb (mRefs sb) size sl).
Proof.
  intros W Hp Hb H1 Hsz Hmax Hk Ht q h'. pose proof (own_buffer _ _ _ _ _ _ W Hp Hb H1) as Ho.
  pose proof (w_vecs _ _ W) as Hvs. apply Forall_cons in Hvs as [_ Hvs].
  assert (Hlt : forall r sb', bufs h !! r = Some sb' -> r <> q) by (intros r sb' Hr ->; apply (w_bufs _ _ W) in Hr; unfold q in Hr; lia).
  assert (Hoq : owners q vs = 0).
  { pose proof (owners_nonneg q vs). destruct (decide (owners q vs = 0)) as [|Hne]; [done|]. exfalso. unfold owners in Hne.
    destruct (filter (fun x => mStorage x.1 = Some q) vs) as [|x f] eqn:E; [done|].
    assert (x ∈ filter (fun x => mStorage x.1 = Some q) vs) as Hx by (rewrite E; left).
    apply list_elem_of_filter in Hx as [Hx1 Hx2]. rewrite Forall_forall in Hvs. specialize (Hvs x Hx2).
    unfold vec_ok in Hvs. rewrite Hx1 in Hvs. destruct Hvs as (sb' & Hsb' & _). by apply Hlt in Hsb'. }
  constructor; [|done|apply lookup_insert_eq|done|done]. constructor; unfold h'; cbn [bufs hal next_addr oom].
  - apply Forall_cons. split.
    + exists (mk_sb (mRefs sb) size sl). cbn [bufs mCount]. split; [apply lookup_insert_eq|]. cbn [snd slots].
      rewrite length_take, Nat.min_l by lia. done.
    + rewrite Forall_forall in *. intros x Hx. eapply vec_ok_frame; [|by apply Hvs]. intros r Hr.
      pose proof (owners_zero p vs x Ho Hx) as Hne. specialize (Hvs x Hx). unfold vec_ok in Hvs. rewrite Hr in Hvs.
      destruct Hvs as (sb' & Hsb' & _). exists sb', sb'. cbn [bufs]. pose proof (Hlt r sb' Hsb').
      rewrite lookup_insert_ne, lookup_delete_ne by congruence. done.
  - intros r sb' Hr. rewrite owners_cons. cbn [mStorage]. destruct (decide (q = r)) as [<-|Hne].
    + rewrite lookup_insert_eq in Hr. injection Hr as <-. rewrite decide_True by done. cbn [mRefs]. rewrite Hoq. lia.
    + rewrite lookup_insert_ne in Hr by done. rewrite decide_False by congruence. destruct (decide (r = p)) as [->|Hrp]; [by rewrite lookup_delete_eq in Hr|].
      rewrite lookup_delete_ne in Hr by done. destruct (w_refs _ _ W r sb' Hr) as [H2 H3]. rewrite owners_cons, decide_False in H2 by congruence. split; [lia|done].
  - intros r sb' Hr. destruct (decide (q = r)) as [<-|Hne].
    + rewrite lookup_insert_eq in Hr. injection Hr as <-. split; [done|lia].
    + rewrite lookup_insert_ne in Hr by done. apply lookup_delete_Some in Hr as [_ Hr]. apply (w_bufs _ _ W) in Hr as [? ?]. split; [done|unfold q; lia].
  - apply (w_mem _ _ W).
Qed.

Lemma release_shared h v p sb h' :
  mStorage v = Some p -> bufs h !! p = Some sb -> mRefs sb <> 1 -> release_storage h v = Done h' ->
  release h p false = Done (mRefs sb, h').
Proof.
  intros Hp Hb H1 H. unfold release_storage in H. rewrite Hp in H. unfold release, sb_get, onlyOwner in *. rewrite Hb in *. cbn [obind] in *.
  destruct (Z.eqb_spec (mRefs sb) 1); [done|]. cbn [obind negb andb] in *. destruct (Z.eqb_spec (mRefs sb) 1); [done|].
  by injection H as <-.
Qed.

Lemma take_resize_slots (sl : list (option A)) n k :
  (k <= n)%nat -> (k <= length sl)%nat -> take k (resize n None sl) = take k sl.
Proof. intros H1 H2. rewrite take_resize_le by done. by apply resize_le. Qed.

Lemma editResize_spec h v l vs p sb cap k :
  world h ((v, l) :: vs) -> mStorage v = Some p -> bufs h !! p = Some sb -> small cap ->
  (k <= length l)%nat -> Z.of_nat k <= cap ->
  exists h' q sb', editResize h p (cap * itemSize) = Done (Some q, h') /\
    sole h' (mk_vec (Some q) (Z.of_nat k)) (take k l) vs q cap sb'.
Proof.
  intros W Hp Hb Hs Hk Hkc. destruct (vec_buffer h v l vs p W Hp) as (sb1 & Hb1 & Ht & Hc & Hok & Hl).
  rewrite Hb in Hb1. injection Hb1 as <-. destruct Hok as [Hok _]. unfold editResize, sb_get, onlyOwner. rewrite Hb. cbn [obind].
  destruct (Z.eqb_spec (mRefs sb) 1) as [E|E].
  - destruct (Z.eqb_spec (mSize sb) (cap * itemSize)) as [Esz|Esz].
    + exists h, p, sb. split; [done|]. rewrite Hok in Esz. apply Z.mul_cancel_r in Esz; [|lia].
      eapply sole_shorten; [|done]. by constructor.
    + pose proof Hs as [Hc0 Hs']. destruct (Z.leb_spec (SIZE_MAX - sizeof_SharedBuffer) (cap * itemSize)); [lia|].
      unfold malloc. rewrite (w_mem _ _ W). eexists _, _, _. split; [reflexivity|]. rewrite items_in_mul by done.
      pose proof (moved_world h v l vs p sb (cap * itemSize) (resize (Z.to_nat cap) None (slots sb)) k) as Hm.
      cbn zeta in Hm. rewrite length_resize, Z2Nat.id in Hm by done. apply Hm; try done.
      rewrite take_resize_slots by lia. by apply slots_take.
  - unfold edit_copy. destruct (alloc_sole h _ cap W Hs) as (q & h1 & sb1 & -> & S1). cbn [obind].
    unfold sb_get. rewrite (so_buffer _ _ _ _ _ _ _ S1). cbn [obind].
    set (n := items_in (if cap * itemSize <? mSize sb then cap * itemSize else mSize sb)).
    assert (Hn : n = Z.to_nat (Z.min cap (Z.of_nat (length (slots sb))))).
    { unfold n. destruct Hs as [Hc0 _]. rewrite Hok. destruct (Z.ltb_spec (cap * itemSize) (Z.of_nat (length (slots sb)) * itemSize)) as [Hlt|Hge].
      - apply Z.mul_lt_mono_pos_r in Hlt; [|done]. rewrite items_in_mul by lia. f_equal. lia.
      - apply Z.mul_le_mono_pos_r in Hge; [|done]. rewrite items_in_mul by lia. f_equal. lia. }
    assert (Hlen : length (splice (slots sb1) 0 (take n (slots sb))) = length (slots sb1)).
    { apply length_splice. rewrite length_take. pose proof (so_cap _ _ _ _ _ _ _ S1). lia. }
    pose proof (sole_write _ _ _ _ _ _ _ (splice (slots sb1) 0 (take n (slots sb))) (Z.of_nat k) (take k l) S1 Hlen) as S2.
    assert (Hf : take (length (take k l)) (splice (slots sb1) 0 (take n (slots sb))) = Some <$> take k l).
    { rewrite length_take, Nat.min_l by lia. unfold splice. rewrite take_0. cbn [app].
      rewrite take_app_le by (rewrite length_take; lia). rewrite take_take, Nat.min_l by lia. by apply slots_take. }
    specialize (S2 Hf ltac:(rewrite length_take; lia)).
    destruct (sole_drop _ _ _ _ _ _ _ _ _ S2) as (h3 & E3 & S3).
    assert (Hpq : p <> q).
    { intros ->. pose proof (own_buffer _ _ _ _ _ _ (so_world _ _ _ _ _ _ _ S1) eq_refl (so_buffer _ _ _ _ _ _ _ S1) (so_refs _ _ _ _ _ _ _ S1)) as Ho.
      rewrite owners_cons, decide_True in Ho by done. pose proof (owners_nonneg q vs). lia. }
    assert (Hb2 : exists sb2, bufs (sb_set h1 q (set_slots sb1 (splice (slots sb1) 0 (take n (slots sb))))) !! p = Some sb2 /\ mRefs sb2 <> 1).
    { destruct (sole_other _ _ _ _ _ _ _ _ _ p S2 Hp) as (sb2 & Hsb2 & _). exists sb2. split; [done|].
      destruct (w_refs _ _ (so_world _ _ _ _ _ _ _ S2) p sb2 Hsb2) as [Hr _]. rewrite owners_cons in Hr. cbn [mStorage] in Hr.
      rewrite decide_False in Hr by congruence. destruct (w_refs _ _ W p sb Hb) as [Hr0 _]. lia. }
    destruct Hb2 as (sb2 & Hsb2 & Hne2). rewrite (release_shared _ v p sb2 h3) by done. cbn [obind]. by eexists h3, q, _.
Qed.

(** ** Growing *)

(** Room for [amount] items at [where_]: the items in front are in place, those
    behind are [amount] slots further on. *)
Record room (h : heap) (v : VectorImpl) (l : list A) (vs : list (VectorImpl * list A)) (where_ amount p cap : Z) (sb : SharedBuffer) : Prop := {
  ro_sole : sole h (mk_vec (Some p) where_) (take (Z.to_nat where_) l) vs p cap sb;
  ro_storage : mStorage v = Some p;
  ro_count : mCount v = Z.of_nat (length l) + amount;
  ro_fits : Z.of_nat (length l) + amount <= cap;
  ro_behind : take (length l - Z.to_nat where_) (drop (Z.to_nat (where_ + amount)) (slots sb)) = Some <$> drop (Z.to_nat where_) l
}.

Definition grown_capacity (n : Z) : Z := Z.max kMinVectorCapacity (n + n / 2 + 1).

Lemma checked_ok z : 0 <= z <= SIZE_MAX -> checked z = Done z.
Proof. intros H. unfold checked. destruct (Z.leb_spec 0 z), (Z.leb_spec z SIZE_MAX); try lia; done. Qed.

Lemma itemLocation_ok h v p sb i :
  mStorage v = Some p -> bufs h !! p = Some sb -> sb_ok sb -> i < Z.of_nat (length (slots sb)) ->
  itemLocation h v i = Done (Some (p, i)).
Proof.
  intros Hp Hb Hok Hi. unfold itemLocation, capacity, sb_get. rewrite Hp, Hb. cbn [obind]. rewrite size_of_slots by done.
  destruct (Z.ltb_spec i (Z.of_nat (length (slots sb)))); [done|lia].
Qed.

Lemma sole_sb_ok h v l vs p cap sb : sole h v l vs p cap sb -> sb_ok sb.
Proof. intros [W Hp Hb _ _]. apply (w_bufs _ _ W p sb Hb). Qed.

(** Moving the tail of a buffer of one's own. *)
Lemma move_tail h v l vs p cap sb where_ amount :
  sole h v l vs p cap sb -> 0 <= where_ < Z.of_nat (length l) -> 0 <= amount -> Z.of_nat (length l) + amount <= cap ->
  exists h' sb', _do_move h p (where_ + amount) where_ (Z.of_nat (length l) - where_) = Done h' /\
    sole h' (mk_vec (Some p) where_) (take (Z.to_nat where_) l) vs p cap sb' /\
    take (length l - Z.to_nat where_) (drop (Z.to_nat (where_ + amount)) (slots sb')) = Some <$> drop (Z.to_nat where_) l.
Proof.
  intros S Hw Ha Hf. destruct (sole_items _ _ _ _ _ _ _ S) as [Ht Hl]. pose proof (so_cap _ _ _ _ _ _ _ S) as Hcap.
  pose proof (so_buffer _ _ _ _ _ _ _ S) as Hb. unfold _do_move. rewrite (mem_read_ok h p sb) by (done || lia). cbn [obind].
  rewrite (slots_part _ l) by (done || lia). rewrite (take_ge (drop _ l)) by (rewrite length_drop; lia).
  set (xs := Some <$> drop (Z.to_nat where_) l). assert (Hxs : length xs = (length l - Z.to_nat where_)%nat) by (unfold xs; by rewrite length_fmap, length_drop).
  assert (exists h1 sb1, (if trivial_dtor then Done h else mem_write h p where_ (replicate (Z.to_nat (Z.of_nat (length l) - where_)) None)) = Done h1 /\
    sole h1 (mk_vec (Some p) where_) (take (Z.to_nat where_) l) vs p cap sb1 /\ bufs h1 !! p = Some sb1) as (h1 & sb1 & -> & S1 & Hb1).
  { destruct trivial_dtor.
    - exists h, sb. split; [done|]. split; [|done]. pose proof (sole_shorten _ _ _ _ _ _ _ (Z.to_nat where_) S ltac:(lia)) as S1.
      by rewrite Z2Nat.id in S1 by lia.
    - rewrite (mem_write_ok h p sb) by (rewrite ?length_replicate; done || lia). eexists _, _. split; [reflexivity|].
      split; [|cbn [sb_set bufs]; apply lookup_insert_eq].
      eapply sole_write; [exact S|apply length_splice; rewrite length_replicate; lia| |rewrite length_take; lia].
      rewrite length_take, Nat.min_l by lia. rewrite take_splice by lia. apply slots_take; [done|lia]. }
  cbn [obind]. pose proof (so_cap _ _ _ _ _ _ _ S1) as Hcap1. destruct (sole_items _ _ _ _ _ _ _ S1) as [Ht1 _].
  rewrite length_take, Nat.min_l in Ht1 by lia.
  rewrite (mem_write_ok h1 p sb1) by (done || lia). eexists _, _. split; [reflexivity|]. split.
  - eapply sole_write; [exact S1|apply length_splice; lia| |rewrite length_take; lia].
    rewrite length_take, Nat.min_l by lia. rewrite take_splice by lia. done.
  - cbn [set_slots slots]. unfold splice. rewrite drop_app_length' by (rewrite length_take; lia). by rewrite take_app_length'.
Qed.

Lemma checked_small n : 0 <= n -> small (grown_capacity n) ->
  checked n = Done n /\ checked (n + n / 2) = Done (n + n / 2) /\ checked (n + n / 2 + 1) = Done (n + n / 2 + 1) /\
  checked (grown_capacity n * itemSize) = Done (grown_capacity n * itemSize).
Proof.
  intros Hn [H0 H1]. assert (n / 2 <= n) by (apply Z.div_le_upper_bound; lia). pose proof (Z.div_pos n 2 Hn ltac:(lia)).
  assert (n + n / 2 + 1 <= grown_capacity n) by (unfold grown_capacity; lia).
  unfold sizeof_SharedBuffer in H1. rewrite !checked_ok by nia. done.
Qed.

Lemma grown_enough n : 0 <= n -> n < grown_capacity n.
Proof. intros Hn. unfold grown_capacity. pose proof (Z.div_pos n 2 Hn ltac:(lia)). lia. Qed.

(** The room made when the storage has to be replaced: by [realloc] where the
    items are plain memory and the room is at the end, else in a new buffer. *)
Lemma grow_storage h v l vs where_ amount cap :
  world h ((v, l) :: vs) -> small cap -> 0 <= where_ <= Z.of_nat (length l) -> 0 <= amount -> Z.of_nat (length l) + amount <= cap ->
  exists h' q sb,
    match mStorage v with
    | Some p =>
        if (mCount v =? where_) && trivial_copy && trivial_dtor then
          let* (q, h) := editResize h p (cap * itemSize) in
          Done (match q with Some q => (h, mk_vec (Some q) (mCount v), true) | None => (h, v, false) end)
        else
          let* (h, q) := copy_around h v (cap * itemSize) where_ where_ (where_ + amount) (mCount v - where_) in
          Done (match q with Some q => (h, mk_vec (Some q) (mCount v), true) | None => (h, v, false) end)
    | None =>
        let* (h, q) := copy_around h v (cap * itemSize) where_ where_ (where_ + amount) (mCount v - where_) in
        Done (match q with Some q => (h, mk_vec (Some q) (mCount v), true) | None => (h, v, false) end)
    end = Done (h', mk_vec (Some q) (mCount v), true) /\
    room h' (mk_vec (Some q) (Z.of_nat (length l) + amount)) l vs where_ amount q cap sb.
Proof.
  intros W Hs Hw Ha Hf. pose proof (vec_count _ _ _ _ W) as Hc.
  assert (Hcopy : exists h' q sb,
    (let* (h, q) := copy_around h v (cap * itemSize) where_ where_ (where_ + amount) (mCount v - where_) in
     Done (match q with Some q => (h, mk_vec (Some q) (mCount v), true) | None => (h, v, false) end)) = Done (h', mk_vec (Some q) (mCount v), true) /\
    room h' (mk_vec (Some q) (Z.of_nat (length l) + amount)) l vs where_ amount q cap sb).
  { destruct (copy_around_spec h v l vs cap where_ where_ (where_ + amount) (mCount v - where_)) as (h' & q & sb & -> & S & Ht); try done; try lia.
    cbn [obind]. exists h', q, sb. split; [done|]. constructor; try done.
    rewrite (take_ge (drop _ l)) in Ht by (rewrite length_drop; lia). rewrite <- Ht. f_equal. lia. }
  destruct (mStorage v) as [p|] eqn:Hp; [|done]. destruct ((mCount v =? where_) && trivial_copy && trivial_dtor) eqn:E; [|done].
  apply andb_prop in E as [E _]. apply andb_prop in E as [E _]. apply Z.eqb_eq in E.
  destruct (vec_buffer h v l vs p W Hp) as (sb & Hb & _).
  destruct (editResize_spec h v l vs p sb cap (length l) W Hp Hb Hs) as (h' & q & sb' & -> & S); [lia|lia|]. cbn [obind].
  exists h', q, sb'. split; [done|]. rewrite <- E, Hc. constructor; cbn [mStorage mCount]; try done; try lia.
  - by rewrite Nat2Z.id.
  - rewrite Nat2Z.id, Nat.sub_diag, drop_all. by rewrite take_0.
Qed.

(** The room made in the storage at hand. *)
Lemma grow_in_place h v l vs p sb where_ amount cap :
  world h ((v, l) :: vs) -> mStorage v = Some p -> bufs h !! p = Some sb -> Z.of_nat (length (slots sb)) = cap ->
  0 <= where_ <= Z.of_nat (length l) -> 0 <= amount -> Z.of_nat (length l) + amount <= cap ->
  exists h' q sb',
    (let* (h, v) := editArrayImpl h v in
     let* h :=
       if negb (where_ =? mCount v) then
         match mStorage v with
         | Some p => _do_move h p (where_ + amount) where_ (mCount v - where_)
         | None => Crash BadPointer
         end
       else Done h in
     Done (h, v, true)) = Done (h', mk_vec (Some q) (mCount v), true) /\
    room h' (mk_vec (Some q) (Z.of_nat (length l) + amount)) l vs where_ amount q cap sb'.
Proof.
  intros W Hp Hb Hcap Hw Ha Hf. pose proof (vec_count _ _ _ _ W) as Hc. subst cap.
  destruct (editArrayImpl_spec h v l vs p sb W Hp Hb) as (h1 & q & sb1 & -> & S1). cbn [obind mStorage mCount].
  destruct (Z.eqb_spec where_ (mCount v)) as [E|E]; cbn [negb].
  - exists h1, q, sb1. split; [done|]. constructor; cbn [mStorage mCount]; try done.
    + subst where_. pose proof (sole_shorten _ _ _ _ _ _ _ (length l) S1 ltac:(lia)) as S. rewrite Hc, Nat2Z.id. done.
    + rewrite E, Hc, Nat2Z.id, Nat.sub_diag, drop_all. by rewrite take_0.
  - rewrite Hc. destruct (move_tail _ _ _ _ _ _ _ where_ amount S1) as (h2 & sb2 & -> & S2 & Ht); [lia|lia|lia|]. cbn [obind].
    exists h2, q, sb2. split; [done|]. by constructor.
Qed.

Lemma grow_spec h v l vs where_ amount :
  world h ((v, l) :: vs) -> 0 <= where_ <= Z.of_nat (length l) -> 0 < amount ->
  small (grown_capacity (Z.of_nat (length l) + amount)) ->
  exists h' v' p cap sb, _grow h v where_ amount = Done (h', v', Some (p, where_)) /\ room h' v' l vs where_ amount p cap sb.
Proof.
  intros W Hw Ha Hs. pose proof (vec_count _ _ _ _ W) as Hc. destruct (capacity_spec _ _ _ _ W) as (c & Hcap & _ & Hst).
  destruct (checked_small (Z.of_nat (length l) + amount) ltac:(lia) Hs) as (C1 & C2 & C3 & C4). pose proof (grown_enough (Z.of_nat (length l) + amount) ltac:(lia)) as Hg.
  unfold _grow. rewrite Hcap, Hc, C1. cbn [obind].
  assert (Hend : forall X, (exists h' q cap sb, X = Done (h', mk_vec (Some q) (mCount v), true) /\
      room h' (mk_vec (Some q) (Z.of_nat (length l) + amount)) l vs where_ amount q cap sb) ->
    exists h' v' p cap sb,
      (let* (h, v, ok) := X in
       if ok : bool then
         let v := mk_vec (mStorage v) (Z.of_nat (length l) + amount) in
         let* loc := itemLocation h v where_ in Done (h, v, loc)
       else Done (h, v, None)) = Done (h', v', Some (p, where_)) /\ room h' v' l vs where_ amount p cap sb).
  { intros X (h' & q & cap & sb & -> & R). cbn [obind mStorage]. pose proof (ro_sole _ _ _ _ _ _ _ _ _ R) as S. pose proof (ro_fits _ _ _ _ _ _ _ _ _ R).
    rewrite (itemLocation_ok h' _ q sb) by (done || apply S || (eapply sole_sb_ok; exact S) || (rewrite (so_cap _ _ _ _ _ _ _ S); lia)).
    cbn [obind]. by exists h', (mk_vec (Some q) (Z.of_nat (length l) + amount)), q, cap, sb. }
  destruct (Z.ltb_spec c (Z.of_nat (length l) + amount)).
  - rewrite C2. cbn [obind]. rewrite C3. cbn [obind]. fold (grown_capacity (Z.of_nat (length l) + amount)). rewrite C4. cbn [obind].
    apply Hend. destruct (grow_storage h v l vs where_ amount (grown_capacity (Z.of_nat (length l) + amount)) W Hs Hw) as (h' & q & sb & E & R); [lia|lia|].
    rewrite Hc in E |- *. by exists h', q, (grown_capacity (Z.of_nat (length l) + amount)), sb.
  - apply Hend.
    destruct (mStorage v) as [p|] eqn:Hp; [|lia]. destruct Hst as (sb & Hb & Hlen & _).
    destruct (grow_in_place h v l vs p sb where_ amount c W Hp Hb Hlen Hw) as (h' & q & sb' & E & R); [lia|lia|].
    rewrite Hc in E |- *. by exists h', q, c, sb'.
Qed.

(** ** Inserting *)

(** [xs] inserted into [l] in front of the item at [i]. *)
Definition list_insert_at (i : Z) (xs l : list A) : list A := take (Z.to_nat i) l ++ xs ++ drop (Z.to_nat i) l.

Lemma fill_room h v l vs i p cap sb xs :
  room h v l vs i (Z.of_nat (length xs)) p cap sb -> 0 <= i <= Z.of_nat (length l) ->
  exists h' sb', mem_write h p i (Some <$> xs) = Done h' /\ sole h' v (list_insert_at i xs l) vs p cap sb'.
Proof.
  intros R Hi. pose proof (ro_sole _ _ _ _ _ _ _ _ _ R) as S. pose proof (ro_fits _ _ _ _ _ _ _ _ _ R) as Hf.
  pose proof (ro_count _ _ _ _ _ _ _ _ _ R) as Hc. pose proof (ro_behind _ _ _ _ _ _ _ _ _ R) as Hbh.
  pose proof (so_cap _ _ _ _ _ _ _ S) as Hcap. destruct (sole_items _ _ _ _ _ _ _ S) as [Ht _].
  rewrite length_take, Nat.min_l in Ht by lia.
  rewrite (mem_write_ok h p sb) by (apply S || rewrite ?length_fmap; lia). eexists _, _. split; [reflexivity|].
  destruct v as [st n]. pose proof (ro_storage _ _ _ _ _ _ _ _ _ R) as Hst. cbn [mStorage mCount] in *. subst st n.
  assert (Hlen : length (list_insert_at i xs l) = (length l + length xs)%nat).
  { unfold list_insert_at. rewrite !length_app, length_take, length_drop. lia. }
  eapply sole_write; [exact S|apply length_splice; rewrite length_fmap; lia| |lia].
  rewrite Hlen. unfold splice, list_insert_at. rewrite length_fmap, !fmap_app, Ht.
  rewrite take_app_ge by (rewrite length_fmap, length_take; lia). f_equal. rewrite length_fmap, length_take, Nat.min_l by lia.
  rewrite take_app_ge by (rewrite length_fmap; lia). f_equal. rewrite length_fmap, <- Hbh. f_equal; [lia|]. f_equal. lia.
Qed.

Lemma insertAt_items h v l vs item index n :
  world h ((v, l) :: vs) -> 0 <= index <= Z.of_nat (length l) -> 0 < n -> small (grown_capacity (Z.of_nat (length l) + n)) ->
  (item = None -> trivial_ctor = false) ->
  exists h' v', insertAt h v item index n = Done (h', v', index) /\
    world h' ((v', list_insert_at index (replicate (Z.to_nat n) (from_option id default item)) l) :: vs).
Proof.
  intros W Hi Hn Hs Hd. pose proof (vec_count _ _ _ _ W) as Hc. unfold insertAt. destruct (Z.ltb_spec (mCount v) index); [lia|].
  destruct (grow_spec h v l vs index n W Hi Hn Hs) as (h1 & v1 & p & cap & sb & -> & R). cbn [obind].
  set (xs := replicate (Z.to_nat n) (from_option id default item)).
  assert (Hxs : Z.of_nat (length xs) = n) by (unfold xs; rewrite length_replicate; lia). rewrite <- Hxs in R.
  destruct (fill_room _ _ _ _ _ _ _ _ xs R Hi) as (h2 & sb2 & E & S2). exists h2, v1. split; [|apply S2].
  unfold _do_splat, _do_construct. destruct item as [x|]; [|rewrite Hd by done]; cbn [from_option id] in xs; unfold xs in E;
    rewrite fmap_replicate in E; rewrite E; done.
Qed.

Lemma insertArrayAt_items h v l vs xs index :
  world h ((v, l) :: vs) -> 0 <= index <= Z.of_nat (length l) -> xs <> [] ->
  small (grown_capacity (Z.of_nat (length l) + Z.of_nat (length xs))) ->
  exists h' v', insertArrayAt h v (Values xs) index (Z.of_nat (length xs)) = Done (h', v', index) /\
    world h' ((v', list_insert_at index xs l) :: vs).
Proof.
  intros W Hi Hn Hs. pose proof (vec_count _ _ _ _ W) as Hc. unfold insertArrayAt. destruct (Z.ltb_spec (mCount v) index); [lia|].
  assert (0 < Z.of_nat (length xs)) by (destruct xs; [done|cbn [length]; lia]).
  destruct (grow_spec h v l vs index (Z.of_nat (length xs)) W Hi) as (h1 & v1 & p & cap & sb & -> & R); [done|done|]. cbn [obind].
  destruct (fill_room _ _ _ _ _ _ _ _ xs R Hi) as (h2 & sb2 & E & S2). rewrite Nat2Z.id, take_ge, E by lia. cbn [obind].
  exists h2, v1. split; [done|apply S2].
Qed.

(** The items of another vector, which is not changed. *)
Lemma insertVectorAt_items h v l w lw vs index :
  world h ((v, l) :: (w, lw) :: vs) -> 0 <= index <= Z.of_nat (length l) -> lw <> [] ->
  small (grown_capacity (Z.of_nat (length l) + Z.of_nat (length lw))) ->
  exists h' v', insertVectorAt h v w index = Done (h', v', index) /\
    world h' ((v', list_insert_at index lw l) :: (w, lw) :: vs).
Proof.
  intros W Hi Hn Hs. pose proof (vec_count _ _ _ _ W) as Hc.
  assert (W' : world h ((w, lw) :: (v, l) :: vs)) by (eapply world_perm; [|exact W]; apply Permutation_swap).
  pose proof (vec_count _ _ _ _ W') as Hcw. unfold insertVectorAt, insertArrayAt. destruct (Z.ltb_spec (mCount v) index); [lia|].
  destruct (mStorage w) as [q|] eqn:Hq; [|by destruct (vec_no_storage _ _ _ _ W' Hq)]. rewrite Hcw.
  assert (0 < Z.of_nat (length lw)) by (destruct lw; [done|cbn [length]; lia]).
  destruct (grow_spec h v l _ index (Z.of_nat (length lw)) W Hi) as (h1 & v1 & p & cap & sb & -> & R); [done|done|]. cbn [obind].
  destruct (sole_other _ _ _ _ _ _ _ _ _ q (ro_sole _ _ _ _ _ _ _ _ _ R) Hq) as (sbq & Hb & Ht & Hl).
  unfold _do_copy. rewrite (mem_read_ok h1 q sbq) by (done || lia). cbn [obind]. rewrite Nat2Z.id. change (Z.to_nat 0) with 0%nat.
  rewrite drop_0, Ht. destruct (fill_room _ _ _ _ _ _ _ _ lw R Hi) as (h2 & sb2 & -> & S2). cbn [obind].
  exists h2, v1. split; [done|apply S2].
Qed.

(** ** Removing *)

Definition list_remove_at (i n : Z) (l : list A) : list A := take (Z.to_nat i) l ++ drop (Z.to_nat (i + n)) l.

(** The end of the items moved down by [n] slots, in a buffer of one's own. *)
Lemma close_gap h v l vs p cap sb i n :
  sole h v l vs p cap sb -> 0 <= i -> 0 <= n -> i + n <= Z.of_nat (length l) ->
  exists h' sb',
    (let* h := _do_destroy h p i n in
     if negb (i =? Z.of_nat (length l) - n) then _do_move h p i (i + n) (Z.of_nat (length l) - n - i) else Done h) = Done h' /\
    sole h' (mk_vec (Some p) (Z.of_nat (length l) - n)) (list_remove_at i n l) vs p cap sb'.
Proof.
  intros S Hi Hn Hl. destruct (sole_items _ _ _ _ _ _ _ S) as [Ht Hcl]. pose proof (so_cap _ _ _ _ _ _ _ S) as Hcap.
  assert (Hfront : take (Z.to_nat i) (slots sb) = Some <$> take (Z.to_nat i) l) by (apply slots_take; [done|lia]).
  assert (Hback : take (length l - Z.to_nat (i + n)) (drop (Z.to_nat (i + n)) (slots sb)) = Some <$> drop (Z.to_nat (i + n)) l).
  { rewrite (slots_part _ l) by (done || lia). by rewrite (take_ge (drop _ l)) by (rewrite length_drop; lia). }
  assert (exists h1 sb1, _do_destroy h p i n = Done h1 /\ sole h1 (mk_vec (Some p) i) (take (Z.to_nat i) l) vs p cap sb1 /\
    take (length l - Z.to_nat (i + n)) (drop (Z.to_nat (i + n)) (slots sb1)) = Some <$> drop (Z.to_nat (i + n)) l)
    as (h1 & sb1 & -> & S1 & Hb1).
  { unfold _do_destroy. destruct trivial_dtor.
    - exists h, sb. split; [done|]. split; [|done]. pose proof (sole_shorten _ _ _ _ _ _ _ (Z.to_nat i) S ltac:(lia)) as S1.
      by rewrite Z2Nat.id in S1 by lia.
    - rewrite (mem_write_ok h p sb) by (apply S || rewrite ?length_replicate; lia). eexists _, _. split; [reflexivity|]. split.
      + eapply sole_write; [exact S|apply length_splice; rewrite length_replicate; lia| |rewrite length_take; lia].
        rewrite length_take, Nat.min_l by lia. rewrite take_splice by lia. done.
      + cbn [set_slots slots]. rewrite drop_splice by (rewrite ?length_replicate; lia). done. }
  cbn [obind].
  pose proof (so_cap _ _ _ _ _ _ _ S1) as Hcap1. destruct (Z.eqb_spec i (Z.of_nat (length l) - n)) as [E|E]; cbn [negb].
  - exists h1, sb1. split; [done|]. rewrite <- E. unfold list_remove_at. rewrite (drop_ge l), app_nil_r by lia. done.
  - unfold _do_move. rewrite (mem_read_ok h1 p sb1) by (apply S1 || lia). cbn [obind].
    replace (Z.to_nat (Z.of_nat (length l) - n - i)) with (length l - Z.to_nat (i + n))%nat by lia. rewrite Hb1.
    set (xs := Some <$> drop (Z.to_nat (i + n)) l).
    assert (Hxs : length xs = (length l - Z.to_nat (i + n))%nat) by (unfold xs; by rewrite length_fmap, length_drop).
    assert (exists h2 sb2, (if trivial_dtor then Done h1 else mem_write h1 p (i + n) (replicate (length l - Z.to_nat (i + n)) None)) = Done h2 /\
      sole h2 (mk_vec (Some p) i) (take (Z.to_nat i) l) vs p cap sb2) as (h2 & sb2 & -> & S2).
    { destruct trivial_dtor; [by exists h1, sb1|]. rewrite (mem_write_ok h1 p sb1) by (apply S1 || rewrite ?length_replicate; lia).
      eexists _, _. split; [reflexivity|]. eapply sole_write; [exact S1|apply length_splice; rewrite length_replicate; lia| |rewrite length_take; lia].
      rewrite take_splice by (rewrite ?length_take; lia). apply (sole_items _ _ _ _ _ _ _ S1). }
    cbn [obind]. pose proof (so_cap _ _ _ _ _ _ _ S2) as Hcap2. destruct (sole_items _ _ _ _ _ _ _ S2) as [Ht2 _].
    rewrite (mem_write_ok h2 p sb2) by (apply S2 || lia). eexists _, _. split; [reflexivity|].
    eapply sole_write; [exact S2|apply length_splice; lia| |unfold list_remove_at; rewrite length_app, length_take, length_drop; lia].
    unfold list_remove_at. rewrite length_app, length_take, length_drop, Nat.min_l by lia. rewrite length_take, Nat.min_l in Ht2 by lia.
    rewrite <- Hxs, take_splice_end by lia. by rewrite fmap_app, Ht2.
Qed.

(** [_shrink] in a new buffer, or in the old one made smaller. *)
Lemma shrink_storage h v l vs p i n cap :
  world h ((v, l) :: vs) -> mStorage v = Some p -> small cap -> 0 <= i -> 0 <= n -> i + n <= Z.of_nat (length l) ->
  Z.of_nat (length l) - n <= cap ->
  exists h' q, (if (i =? Z.of_nat (length l) - n) && trivial_copy && trivial_dtor then
      let* (q, h) := editResize h p (cap * itemSize) in
      Done (match q with Some q => (h, mk_vec (Some q) (Z.of_nat (length l) - n)) | None => (h, v) end)
    else
      let* (h, q) := copy_around h v (cap * itemSize) i (i + n) i (Z.of_nat (length l) - n - i) in
      Done (match q with Some q => (h, mk_vec (Some q) (Z.of_nat (length l) - n)) | None => (h, v) end)) =
      Done (h', mk_vec (Some q) (Z.of_nat (length l) - n)) /\
    world h' ((mk_vec (Some q) (Z.of_nat (length l) - n), list_remove_at i n l) :: vs).
Proof.
  intros W Hp Hs Hi Hn Hl Hcap. destruct ((i =? Z.of_nat (length l) - n) && trivial_copy && trivial_dtor) eqn:E.
  - apply andb_prop in E as [E _]. apply andb_prop in E as [E _]. apply Z.eqb_eq in E.
    destruct (vec_buffer h v l vs p W Hp) as (sb & Hb & _).
    destruct (editResize_spec h v l vs p sb cap (Z.to_nat i) W Hp Hb Hs) as (h' & q & sb' & -> & S); [lia|lia|]. cbn [obind].
    exists h', q. split; [done|]. rewrite Z2Nat.id in S by lia. unfold list_remove_at. rewrite (drop_ge l), app_nil_r, <- E by lia. apply S.
  - destruct (copy_around_spec h v l vs cap i (i + n) i (Z.of_nat (length l) - n - i)) as (h' & q & sb & -> & S & Ht); try done; try lia.
    cbn [obind]. exists h', q. split; [done|]. destruct (sole_items _ _ _ _ _ _ _ S) as [Hf _]. rewrite length_take, Nat.min_l in Hf by lia.
    rewrite (take_ge (drop _ l)) in Ht by (rewrite length_drop; lia).
    assert (Hsame : set_slots sb (slots sb) = sb) by (by destruct sb).
    assert (Hid : sb_set h' q sb = h').
    { pose proof (so_buffer _ _ _ _ _ _ _ S) as Hb. destruct h' as [m al]. unfold sb_set. cbn [bufs hal] in *. by rewrite insert_id. }
    pose proof (sole_write _ _ _ _ _ _ _ (slots sb) (Z.of_nat (length l) - n) (list_remove_at i n l) S eq_refl) as S'.
    rewrite Hsame, Hid in S'. apply S'.
    + unfold list_remove_at. rewrite length_app, length_take, length_drop, Nat.min_l, fmap_app, <- Hf, <- Ht by lia.
      rewrite take_take_drop. f_equal. lia.
    + unfold list_remove_at. rewrite length_app, length_take, length_drop. lia.
Qed.

Lemma shrink_spec h v l vs i n :
  world h ((v, l) :: vs) -> 0 <= i -> 0 <= n -> i + n <= Z.of_nat (length l) -> small kMinVectorCapacity ->
  exists h' v', _shrink h v i n = Done (h', v') /\ world h' ((v', list_remove_at i n l) :: vs).
Proof.
  intros W Hi Hn Hl Hmin. pose proof (vec_count _ _ _ _ W) as Hc. unfold _shrink. destruct (mStorage v) as [p|] eqn:Hp.
  2:{ destruct (vec_no_storage _ _ _ _ W Hp) as [-> _]. exists h, v. split; [done|]. unfold list_remove_at. by rewrite take_nil, drop_nil. }
  destruct (vec_buffer h v l vs p W Hp) as (sb & Hb & Ht & _ & Hok & Hle). destruct (capacity_spec _ _ _ _ W) as (c & -> & Hlc & Hst).
  rewrite Hp in Hst. destruct Hst as (sb1 & Hb1 & Hlen & _). rewrite Hb in Hb1. injection Hb1 as <-.
  pose proof (sb_ok_small _ Hok) as Hsm. rewrite Hlen in Hsm. rewrite Hc.
  rewrite checked_ok by (destruct Hsm; unfold sizeof_SharedBuffer in *; nia). cbn [obind].
  destruct (Z.ltb_spec (Z.of_nat (length l) - n) (c / 2)) as [Hlt|Hge].
  - assert (c / 2 * 2 <= c) by (pose proof (Z.mul_div_le c 2); lia).
    destruct (shrink_storage h v l vs p i n (Z.max kMinVectorCapacity ((Z.of_nat (length l) - n) * 2)) W Hp) as (h' & q & E & W'); try lia.
    { destruct (Z.max_spec kMinVectorCapacity ((Z.of_nat (length l) - n) * 2)) as [[_ ->]|[_ ->]]; [|done]. destruct Hsm. split; nia. }
    exists h', (mk_vec (Some q) (Z.of_nat (length l) - n)). split; [exact E|done].
  - destruct (editArrayImpl_spec h v l vs p sb W Hp Hb) as (h1 & q & sb1 & -> & S1). cbn [obind mStorage].
    destruct (close_gap _ _ _ _ _ _ _ i n S1 Hi Hn Hl) as (h2 & sb2 & E & S2).
    destruct (_do_destroy h1 q i n) as [h1'|]; cbn [obind] in E |- *; [|done]. rewrite E. cbn [obind].
    eexists h2, _. split; [reflexivity|]. apply S2.
Qed.

(** ** Replacing *)

Lemma splice_one (sl : list (option A)) (l : list A) k x :
  take (length l) sl = Some <$> l -> (k < length l)%nat ->
  take (length l) (splice sl k [Some x]) = Some <$> <[k := x]> l.
Proof.
  intros Ht Hk. assert (Hle : (length l <= length sl)%nat) by (apply (f_equal length) in Ht; rewrite length_take, length_fmap in Ht; lia).
  unfold splice. cbn [length]. rewrite <- (take_drop (length l) sl) at 2. rewrite Ht, drop_app_le by (rewrite length_fmap; lia).
  rewrite !app_assoc, take_app_length'.
  - rewrite (slots_take sl l k) by (done || lia). rewrite insert_take_drop by done. rewrite <- app_assoc, fmap_app, fmap_cons, fmap_drop. do 3 f_equal. lia.
  - rewrite !length_app, length_take, length_drop, length_fmap. cbn [length]. lia.
Qed.

Lemma splice_again (sl : list (option A)) i a b :
  length a = length b -> (i + length a <= length sl)%nat -> splice (splice sl i a) i b = splice sl i b.
Proof.
  intros Hl Hi. set (m := splice sl i a). unfold splice at 1. unfold m. by rewrite take_splice, drop_splice by lia.
Qed.

Lemma replaceAt_items h v l vs x index :
  world h ((v, l) :: vs) -> 0 <= index < Z.of_nat (length l) ->
  exists h' v', replaceAt h v (Some x) index = Done (h', v', index) /\ world h' ((v', <[Z.to_nat index := x]> l) :: vs).
Proof.
  intros W Hi. pose proof (vec_count _ _ _ _ W) as Hc. unfold replaceAt. destruct (Z.leb_spec (mCount v) index); [lia|].
  destruct (capacity_spec _ _ _ _ W) as (c & Hcap & Hlc & Hst). unfold editItemLocation. rewrite Hcap. cbn [obind].
  destruct (Z.ltb_spec index c); [|lia]. destruct (mStorage v) as [p|] eqn:Hp; [|lia]. destruct Hst as (sb & Hb & _).
  destruct (editArrayImpl_spec h v l vs p sb W Hp Hb) as (h1 & q & sb1 & -> & S1). cbn [obind mStorage].
  destruct (sole_items _ _ _ _ _ _ _ S1) as [Ht1 Hl1]. pose proof (so_cap _ _ _ _ _ _ _ S1) as Hcap1.
  pose proof (splice_one _ _ (Z.to_nat index) x Ht1 ltac:(lia)) as Hnew.
  assert (exists h2 sb2, _do_destroy h1 q index 1 = Done h2 /\ bufs h2 !! q = Some sb2 /\ length (slots sb2) = length (slots sb1) /\
    sb_set h2 q (set_slots sb2 (splice (slots sb2) (Z.to_nat index) [Some x])) =
    sb_set h1 q (set_slots sb1 (splice (slots sb1) (Z.to_nat index) [Some x]))) as (h2 & sb2 & -> & Hb2 & Hl2 & Hsame).
  { unfold _do_destroy. destruct trivial_dtor; [exists h1, sb1; split; [done|]; split; [apply S1|done]|].
    rewrite (mem_write_ok h1 q sb1) by (apply S1 || rewrite ?length_replicate; lia). eexists _, _. split; [reflexivity|]. cbn [sb_set bufs].
    split; [apply lookup_insert_eq|]. cbn [set_slots slots]. split; [apply length_splice; rewrite length_replicate; lia|].
    unfold sb_set, set_slots. cbn [bufs hal mRefs mSize slots]. rewrite insert_insert_eq, splice_again by (rewrite ?length_replicate; done || lia).
    done. }
  cbn [obind]. rewrite (mem_write_ok h2 q sb2) by (done || cbn [length]; lia). cbn [obind]. eexists _, _. split; [reflexivity|]. rewrite Hsame.
  destruct (sole_write _ _ _ _ _ _ _ (splice (slots sb1) (Z.to_nat index) [Some x]) (mCount v) (<[Z.to_nat index := x]> l) S1) as [W' _ _ _ _];
    [apply length_splice; cbn [length]; lia|by rewrite length_insert|by rewrite length_insert|exact W'].
Qed.

(** ** Sharing *)

Lemma acquire_spec h v l vs p :
  world h ((v, l) :: vs) -> mStorage v = Some p ->
  exists h', acquire h p = Done h' /\ world h' ((mk_vec (Some p) (mCount v), l) :: (v, l) :: vs).
Proof.
  intros W Hp. destruct (vec_buffer h v l vs p W Hp) as (sb & Hb & Ht & Hc & Hok & _). unfold acquire, sb_get. rewrite Hb. cbn [obind].
  eexists. split; [reflexivity|]. assert (Hsame : forall q sb1, bufs h !! q = Some sb1 ->
    exists sb2, bufs (sb_set h p (set_refs sb (mRefs sb + 1))) !! q = Some sb2 /\ slots sb2 = slots sb1).
  { intros q sb1 Hq. cbn [sb_set bufs]. destruct (decide (p = q)) as [<-|Hne].
    - rewrite Hb in Hq. injection Hq as <-. exists (set_refs sb (mRefs sb + 1)). by rewrite lookup_insert_eq.
    - exists sb1. by rewrite lookup_insert_ne. }
  constructor; cbn [sb_set bufs hal].
  - apply Forall_cons. split.
    + exists (set_refs sb (mRefs sb + 1)). cbn [fst snd mStorage mCount sb_set bufs]. split; [apply lookup_insert_eq|done].
    + pose proof (w_vecs _ _ W) as Hvs. rewrite Forall_forall in *. intros x Hx. eapply vec_ok_frame; [|by apply Hvs].
      intros q Hq. specialize (Hvs x Hx). unfold vec_ok in Hvs. rewrite Hq in Hvs. destruct Hvs as (sb1 & Hsb1 & _).
      destruct (Hsame q sb1 Hsb1) as (sb2 & H1 & H2). by exists sb1, sb2.
  - intros q sb1 Hq. rewrite owners_cons. cbn [mStorage]. destruct (decide (p = q)) as [<-|Hne].
    + rewrite lookup_insert_eq in Hq. injection Hq as <-. rewrite decide_True by done. cbn [set_refs mRefs].
      destruct (w_refs _ _ W p sb Hb). lia.
    + rewrite lookup_insert_ne in Hq by done. rewrite decide_False by congruence. rewrite Z.add_0_r. by apply (w_refs _ _ W).
  - intros q sb1 Hq. destruct (decide (p = q)) as [<-|Hne].
    + rewrite lookup_insert_eq in Hq. injection Hq as <-. by apply (w_bufs _ _ W) in Hb.
    + rewrite lookup_insert_ne in Hq by done. by apply (w_bufs _ _ W).
  - apply (w_mem _ _ W).
Qed.

Lemma copy_vec_spec h v l vs :
  world h ((v, l) :: vs) -> exists h', copy_vec h v = Done (h', v) /\ world h' ((v, l) :: (v, l) :: vs).
Proof.
  intros W. unfold copy_vec. destruct v as [[p|] n] eqn:Ev; cbn [mStorage mCount].
  - destruct (acquire_spec h _ l vs p W eq_refl) as (h' & -> & W'). cbn [obind]. by exists h'.
  - exists h. split; [done|]. pose proof (w_vecs _ _ W) as Hv. apply Forall_cons in Hv as [Hv Hvs]. constructor; [|  |apply W|apply W].
    + apply Forall_cons. split; [done|]. by apply Forall_cons.
    + intros q sb Hq. rewrite owners_cons. cbn [mStorage]. rewrite decide_False, Z.add_0_r by done. by apply (w_refs _ _ W).
Qed.

Lemma world_empty_vec h vs : world h vs -> world h ((empty_vec, []) :: vs).
Proof.
  intros W. constructor; [|  |apply W|apply W].
  - apply Forall_cons. split; [done|apply W].
  - intros q sb Hq. rewrite owners_cons. cbn [empty_vec mStorage]. rewrite decide_False, Z.add_0_r by done. by apply (w_refs _ _ W).
Qed.

Lemma assign_vec_spec h v l r lr vs :
  world h ((v, l) :: (r, lr) :: vs) ->
  exists h' v', assign_vec h v r false = Done (h', v') /\ world h' ((v', lr) :: (r, lr) :: vs).
Proof.
  intros W. unfold assign_vec. destruct (release_storage_spec _ _ _ _ W) as (h1 & -> & W1 & _). cbn [obind].
  pose proof (vec_count _ _ _ _ W1) as Hc. destruct (Z.eqb_spec (mCount r) 0) as [E|E]; cbn [negb].
  - exists h1, empty_vec. split; [done|]. destruct lr; [|cbn [length] in Hc; lia]. by apply world_empty_vec.
  - destruct (mStorage r) as [p|] eqn:Hp; [|by destruct (vec_no_storage _ _ _ _ W1 Hp)].
    destruct (acquire_spec h1 r lr vs p W1 Hp) as (h2 & -> & W2). cbn [obind]. by eexists h2, _.
Qed.

(** No vector, no storage. *)
Lemma world_nil h : world h [] -> bufs h = ∅.
Proof.
  intros W. apply map_empty. intros p. destruct (bufs h !! p) as [sb|] eqn:E; [|done].
  destruct (w_refs _ _ W p sb E) as [H1 H2]. unfold owners in H1. cbn in H1. lia.
Qed.

(** ** What the operations do *)

(** C18: insertion has value semantics.  Inserting [n] copies of an item (or
    of the default value) puts them in front of the item at [index] and returns
    the index, whatever vectors share the storage: every other vector keeps its
    items, and every buffer is counted exactly once per vector that uses it.
    An index behind the end is refused and nothing is changed. *)
Theorem insertAt_value_semantics h v l vs item index n :
  world h ((v, l) :: vs) -> 0 <= index -> 0 < n -> small (grown_capacity (Z.of_nat (length l) + n)) ->
  (item = None -> trivial_ctor = false) ->
  if decide (index <= Z.of_nat (length l)) then
    exists h' v', insertAt h v item index n = Done (h', v', index) /\
      world h' ((v', list_insert_at index (replicate (Z.to_nat n) (from_option id default item)) l) :: vs)
  else insertAt h v item index n = Done (h, v, BAD_INDEX).
Proof.
  intros W Hi Hn Hs Hd. case_decide.
  - by apply insertAt_items.
  - unfold insertAt. rewrite (vec_count _ _ _ _ W). destruct (Z.ltb_spec (Z.of_nat (length l)) index); [done|lia].
Qed.

(** the items of one vector inserted into another, which may share its
    storage: the one vector is extended, the other keeps its items. *)
Theorem insertVectorAt_value_semantics h v l w lw vs index :
  world h ((v, l) :: (w, lw) :: vs) -> 0 <= index -> lw <> [] ->
  small (grown_capacity (Z.of_nat (length l) + Z.of_nat (length lw))) ->
  if decide (index <= Z.of_nat (length l)) then
    exists h' v', insertVectorAt h v w index = Done (h', v', index) /\
      world h' ((v', list_insert_at index lw l) :: (w, lw) :: vs)
  else insertVectorAt h v w index = Done (h, v, BAD_INDEX).
Proof.
  intros W Hi Hn Hs. case_decide.
  - by apply insertVectorAt_items.
  - unfold insertVectorAt, insertArrayAt. rewrite (vec_count _ _ _ _ W). destruct (Z.ltb_spec (Z.of_nat (length l)) index); [done|lia].
Qed.

Lemma removeItemsAt_items h v l vs index count :
  world h ((v, l) :: vs) -> 0 <= index -> 0 <= count -> index + count <= Z.of_nat (length l) -> small kMinVectorCapacity ->
  exists h' v', removeItemsAt h v index count = Done (h', v', index) /\ world h' ((v', list_remove_at index count l) :: vs).
Proof.
  intros W Hi Hc Hl Hmin. unfold removeItemsAt. pose proof (vec_count _ _ _ _ W) as Hcv.
  rewrite checked_ok; [cbn [obind]|].
  - rewrite Hcv. destruct (Z.ltb_spec (Z.of_nat (length l)) (index + count)); [lia|].
    destruct (shrink_spec h v l vs index count W Hi Hc Hl Hmin) as (h' & v' & -> & W'). cbn [obind]. by exists h', v'.
  - destruct (mStorage v) as [p|] eqn:Hp.
    + destruct (vec_buffer h v l vs p W Hp) as (sb & _ & _ & _ & [E Hok] & Hle). unfold sizeof_SharedBuffer in *. nia.
    + destruct (vec_no_storage _ _ _ _ W Hp) as [-> _]. unfold SIZE_MAX. cbn [length] in *. lia.
Qed.

(** C27: removal has value semantics.  Removing [count] items takes exactly
    those out, other vectors keep theirs; a range that reaches behind the end
    is refused, and one whose end is no [size_t] ends the program. *)
Theorem removeItemsAt_value_semantics h v l vs index count :
  world h ((v, l) :: vs) -> 0 <= index -> 0 <= count -> small kMinVectorCapacity ->
  if decide (index + count <= Z.of_nat (length l)) then
    exists h' v', removeItemsAt h v index count = Done (h', v', index) /\ world h' ((v', list_remove_at index count l) :: vs)
  else removeItemsAt h v index count = if decide (index + count <= SIZE_MAX) then Done (h, v, BAD_VALUE) else Crash AssertFailed.
Proof.
  intros W Hi Hc Hmin. destruct (decide (index + count <= Z.of_nat (length l))) as [Hl|Hl].
  - by apply removeItemsAt_items.
  - unfold removeItemsAt, checked. destruct (Z.leb_spec 0 (index + count)); [|lia]. cbn [andb].
    destruct (Z.leb_spec (index + count) SIZE_MAX), (decide (index + count <= SIZE_MAX)); try lia; cbn [obind]; [|done].
    rewrite (vec_count _ _ _ _ W). destruct (Z.ltb_spec (Z.of_nat (length l)) (index + count)); [done|lia].
Qed.

(** C40: the life of shared storage.  A copy and an assignment give a vector
    with the same items, finishing gives one up without touching the others,
    and when no vector is left every buffer has been freed. *)
Theorem vectors_share_and_free h v l vs :
  world h ((v, l) :: vs) ->
  (exists h', copy_vec h v = Done (h', v) /\ world h' ((v, l) :: (v, l) :: vs)) /\
  (forall w lw ws, vs = (w, lw) :: ws ->
    exists h' v', assign_vec h v w false = Done (h', v') /\ world h' ((v', lw) :: (w, lw) :: ws)) /\
  (exists h', finish_vector h v = Done (h', empty_vec) /\ world h' vs /\ (vs = [] -> bufs h' = ∅)).
Proof.
  intros W. split; [by apply copy_vec_spec|]. split.
  - intros w lw ws ->. by eapply assign_vec_spec.
  - unfold finish_vector. destruct (release_storage_spec _ _ _ _ W) as (h' & -> & W' & _). cbn [obind].
    exists h'. split; [done|]. split; [done|]. intros ->. by apply world_nil.
Qed.

End vector.

(** * Concrete vectors *)

Definition fresh_heap : @heap Z := mk_heap ∅ (mk_alloc 1 (fun _ => false)).

Lemma fresh_world : world 8 fresh_heap [(empty_vec, [])].
Proof. constructor; [by repeat constructor| | |done]; intros p sb Hp; cbn [fresh_heap bufs] in Hp; by rewrite lookup_empty in Hp. Qed.

(** Two vectors that share the items 1, 2, 3. *)
Definition shared_vec : VectorImpl := mk_vec (Some 1) 3.
Definition shared_heap : @heap Z :=
  mk_heap {[1 := mk_sb 2 32 [Some 1; Some 2; Some 3; None]]} (mk_alloc 2 (fun _ => false)).

Lemma shared_world : world 8 shared_heap [(shared_vec, [1; 2; 3]); (shared_vec, [1; 2; 3])].
Proof.
  assert (Hv : vec_ok shared_heap shared_vec [1; 2; 3]).
  { exists (mk_sb 2 32 [Some 1; Some 2; Some 3; None]). split; [apply lookup_singleton_eq|]. done. }
  constructor; [by repeat constructor| | |done]; intros p sb Hp; cbn [shared_heap bufs] in Hp;
    apply lookup_singleton_Some in Hp as [<- <-]; [split; [done|cbn; lia]|]. split; [split; [done|]|]; unfold SIZE_MAX, sizeof_SharedBuffer; cbn; lia.
Qed.

Lemma insertAt_value_semantics_witness :
  exists h' v', insertAt 8 true true true 0 shared_heap shared_vec (Some 9) 1 2 = Done (h', v', 1) /\
    world 8 h' [(v', [1; 9; 9; 2; 3]); (shared_vec, [1; 2; 3])].
Proof.
  apply (insertAt_value_semantics 8 true true true 0 ltac:(lia) shared_heap shared_vec [1; 2; 3] [(shared_vec, [1; 2; 3])] (Some 9) 1 2);
    [exact shared_world|lia|lia|split; vm_compute; congruence|done].
Defined.

(** The vector appended to shares its storage with the one appended. *)
Lemma insertVectorAt_value_semantics_witness :
  exists h' v', insertVectorAt 8 true true shared_heap shared_vec shared_vec 3 = Done (h', v', 3) /\
    world 8 h' [(v', [1; 2; 3; 1; 2; 3]); (shared_vec, [1; 2; 3])].
Proof.
  apply (insertVectorAt_value_semantics 8 true true ltac:(lia) shared_heap shared_vec [1; 2; 3] shared_vec [1; 2; 3] [] 3);
    [exact shared_world|lia|done|split; vm_compute; congruence].
Defined.

Lemma removeItemsAt_value_semantics_witness :
  exists h' v', removeItemsAt 8 true true shared_heap shared_vec 0 2 = Done (h', v', 0) /\
    world 8 h' [(v', [3]); (shared_vec, [1; 2; 3])].
Proof.
  apply (removeItemsAt_value_semantics 8 true true ltac:(lia) shared_heap shared_vec [1; 2; 3] [(shared_vec, [1; 2; 3])] 0 2);
    [exact shared_world|lia|lia|split; vm_compute; congruence].
Defined.

Lemma vectors_share_and_free_witness :
  (exists h', finish_vector true shared_heap shared_vec = Done (h', empty_vec) /\ world 8 h' [(shared_vec, [1; 2; 3])]) /\
  (exists h', copy_vec shared_heap shared_vec = Done (h', shared_vec) /\
    world 8 h' [(shared_vec, [1; 2; 3]); (shared_vec, [1; 2; 3]); (shared_vec, [1; 2; 3])]).
Proof.
  destruct (vectors_share_and_free 8 true shared_heap shared_vec [1; 2; 3] [(shared_vec, [1; 2; 3])] shared_world)
    as (Hcopy & _ & h' & E & W & _).
  split; [by exists h'|exact Hcopy].
Defined.

(** Appending an empty vector to a vector without room to spare: [_grow] has
    made no room, [itemLocation] of the end is null, and the caller is told
    that memory ran out. *)
Theorem append_nothing_fails : appendVector 8 true true fresh_heap empty_vec empty_vec = Done (fresh_heap, empty_vec, NO_MEMORY).
Proof. vm_compute. reflexivity. Qed.

(** A vector appended to itself: the items are read from the storage that
    [_grow] has released. *)
Theorem append_self_reads_freed :
  let h := mk_heap {[1 := mk_sb 1 32 [Some 1; Some 2; Some 3; None]]} (mk_alloc 2 (fun _ => false)) in
  appendVector 8 true true h shared_vec shared_vec = Crash BadPointer.
Proof. vm_compute. reflexivity. Qed.
