(* ===== verification/SortedVector.v ===== *)
(** libutils/VectorImpl.cpp: the insertion sort of vectors and the sorted
    vectors built on them.  The comparison function is a parameter; what its
    callers promise of it is the class [CompareOrder]. *)

From S2P Require Import Prelude Vector.
From stdpp Require Import sorting.

Local Open Scope Z_scope.

(** [compar_t] and [do_compare]: negative, zero or positive. *)
Class CompareOrder {A : Type} (cmp : A -> A -> Z) : Prop := {
  cmp_sym : forall x y, Z.sgn (cmp y x) = - Z.sgn (cmp x y);
  cmp_trans : forall x y z, cmp x y <= 0 -> cmp y z <= 0 -> cmp x z <= 0
}.

#[export] Instance CompareOrder_Z_sub : CompareOrder Z.sub.
Proof. constructor; intros; lia. Qed.

Section sorted_vector.
Context {A : Type} (itemSize : Z) (trivial_ctor trivial_dtor trivial_copy : bool) (default : A) (cmp : A -> A -> Z).

Local Abbreviation heap := (@heap A).
Local Abbreviation _do_destroy := (_do_destroy trivial_dtor).
Local Abbreviation editArrayImpl := (editArrayImpl itemSize trivial_dtor).
Local Abbreviation insertAt := (insertAt itemSize trivial_ctor trivial_dtor trivial_copy default).
Local Abbreviation replaceAt := (replaceAt itemSize trivial_ctor trivial_dtor default).
Local Abbreviation removeItemsAt := (removeItemsAt itemSize trivial_dtor trivial_copy).
Local Abbreviation insertVectorAt := (insertVectorAt itemSize trivial_dtor trivial_copy).
Local Abbreviation appendVector := (appendVector itemSize trivial_dtor trivial_copy).
Local Abbreviation itemLocation := (itemLocation itemSize).
Local Abbreviation world := (world itemSize).
Local Abbreviation small := (small itemSize).

(** An item that is compared or copied through a pointer. *)
Definition item_at (h : heap) (p i : Z) : outcome A :=
  let* xs := mem_read h p i 1 in
  match xs with [Some x] => Done x | _ => Crash BadPointer end.

(** * Sorting *)

(** The [do] loop: [curr] is the item at [j], [next] the one behind it; the
    result is the place left for [temp]. *)
Fixpoint sort_shift (h : heap) (p : Z) (temp : A) (j : nat) : outcome (heap * Z) :=
  let* h := _do_destroy h p (Z.of_nat (S j)) 1 in
  let* h := _do_copy h p (Z.of_nat (S j)) p (Z.of_nat j) 1 in
  match j with
  | O => Done (h, 0)
  | S k =>
      let* curr := item_at h p (Z.of_nat k) in
      if 0 <? cmp curr temp then sort_shift h p temp k else Done (h, Z.of_nat j)
  end.

(** Before the first change the array is made the vector's own and [temp] is
    allocated; [false] where there is no memory. *)
Definition sort_edit (h : heap) (v : VectorImpl) (p : Z) (temp : option A) : outcome (heap * VectorImpl * Z * bool) :=
  match temp with
  | Some _ => Done (h, v, p, true)
  | None =>
      let* (h, v) := editArrayImpl h v in
      match mStorage v with
      | None => Done (h, v, p, false)
      | Some q =>
          match malloc (hal h) with
          | (Some _, al) => Done (mk_heap (bufs h) al, v, q, true)
          | (None, al) => Done (mk_heap (bufs h) al, v, q, false)
          end
      end
  end.

(** The [while] loop with [n] rounds to go. *)
Fixpoint sort_loop (n : nat) (h : heap) (v : VectorImpl) (array : option Z) (temp : option A) (i : Z) : outcome (heap * VectorImpl * Z) :=
  match n with
  | O => Done (h, v, OK)
  | S n =>
      match array with
      | None => Crash BadPointer
      | Some p =>
          let* item := item_at h p i in
          let* curr := item_at h p (i - 1) in
          if 0 <? cmp curr item then
            let* (h, v, p, ok) := sort_edit h v p temp in
            if ok : bool then
              let* temp := item_at h p i in
              let* (h, next) := sort_shift h p temp (Z.to_nat (i - 1)) in
              let* h := _do_destroy h p next 1 in
              let* h := mem_write h p next [Some temp] in
              sort_loop n h v (Some p) (Some temp) (i + 1)
            else Done (h, v, NO_MEMORY)
          else sort_loop n h v array temp (i + 1)
      end
  end.

Definition sort (h : heap) (v : VectorImpl) : outcome (heap * VectorImpl * Z) :=
  let count := mCount v in
  if 1 <? count then sort_loop (Z.to_nat (count - 1)) h v (mStorage v) None 1 else Done (h, v, OK).

(** * Sorted vectors *)

(** The binary search between [l] and [hi]: the place of an equal item or an
    error, and the place where the item belongs. *)
Fixpoint search (fuel : nat) (h : heap) (a : option Z) (item : A) (l hi : Z) : outcome (Z * Z) :=
  match fuel with
  | O => Crash OutOfFuel
  | S fuel =>
      if l <=? hi then
        let mid := l + (hi - l) / 2 in
        match a with
        | None => Crash BadPointer
        | Some p =>
            let* curr := item_at h p mid in
            let c := cmp curr item in
            if c =? 0 then Done (mid, mid)
            else if c <? 0 then search fuel h a item (mid + 1) hi
            else search fuel h a item l (mid - 1)
        end
      else Done (NAME_NOT_FOUND, l)
  end.

Definition _indexOrderOf (h : heap) (v : VectorImpl) (item : A) : outcome (Z * Z) :=
  if mCount v =? 0 then Done (NAME_NOT_FOUND, 0)
  else search (S (Z.to_nat (mCount v))) h (mStorage v) item 0 (mCount v - 1).

Definition indexOf (h : heap) (v : VectorImpl) (item : A) : outcome Z :=
  let* (i, _) := _indexOrderOf h v item in Done i.

Definition orderOf (h : heap) (v : VectorImpl) (item : A) : outcome Z :=
  let* (_, o) := _indexOrderOf h v item in Done o.

Definition sorted_add (h : heap) (v : VectorImpl) (item : A) : outcome (heap * VectorImpl * Z) :=
  let* (index, order) := _indexOrderOf h v item in
  if index <? 0 then insertAt h v (Some item) order 1 else replaceAt h v (Some item) index.

Definition sorted_remove (h : heap) (v : VectorImpl) (item : A) : outcome (heap * VectorImpl * Z) :=
  let* i := indexOf h v item in
  if 0 <=? i then let* (h, v, _) := removeItemsAt h v i 1 in Done (h, v, i) else Done (h, v, i).

(** The [for] loop of [merge] over the items of a vector. *)
Fixpoint merge_loop (n : nat) (h : heap) (v : VectorImpl) (buffer : option Z) (i : Z) : outcome (heap * VectorImpl * Z) :=
  match n with
  | O => Done (h, v, OK)
  | S n =>
      match buffer with
      | None => Crash BadPointer
      | Some q =>
          let* item := item_at h q i in
          let* (h, v, err) := sorted_add h v item in
          if err <? 0 then Done (h, v, err) else merge_loop n h v buffer (i + 1)
      end
  end.

Definition merge (h : heap) (v vector : VectorImpl) : outcome (heap * VectorImpl * Z) :=
  if negb (mCount vector =? 0) then merge_loop (Z.to_nat (mCount vector)) h v (mStorage vector) 0 else Done (h, v, OK).

(** The item a location points to. *)
Definition deref (h : heap) (loc : option (Z * Z)) : outcome A :=
  match loc with Some (p, i) => item_at h p i | None => Crash BadPointer end.

Definition arrayImpl (v : VectorImpl) : option (Z * Z) :=
  match mStorage v with Some p => Some (p, 0) | None => None end.

Definition merge_sorted (h : heap) (v vector : VectorImpl) : outcome (heap * VectorImpl * Z) :=
  if negb (mCount vector =? 0) then
    let* loc := itemLocation h vector (mCount vector - 1) in
    let* last := deref h loc in
    let* first := deref h (arrayImpl v) in
    if cmp last first <=? 0 then insertVectorAt h v vector 0
    else
      let* loc := itemLocation h v (mCount v - 1) in
      let* last := deref h loc in
      let* first := deref h (arrayImpl vector) in
      if 0 <=? cmp first last then appendVector h v vector
      else merge h v vector
  else Done (h, v, OK).

(** * Insertion sort on lists *)

(** [x] put into a list that is kept in reverse, behind the first item that
    is not greater. *)
Fixpoint ins_rev (x : A) (r : list A) : list A :=
  match r with
  | [] => [x]
  | y :: r' => if 0 <? cmp y x then y :: ins_rev x r' else x :: r
  end.

Definition ins_right (l : list A) (x : A) : list A := reverse (ins_rev x (reverse l)).
Definition isort (l : list A) : list A := foldl ins_right [] l.

Lemma ins_rev_perm x r : ins_rev x r ≡ₚ x :: r.
Proof. induction r as [|y r IH]; [done|]. cbn [ins_rev]. destruct (0 <? cmp y x); [|done]. rewrite IH. apply Permutation_swap. Qed.

Lemma ins_right_perm l x : ins_right l x ≡ₚ x :: l.
Proof. unfold ins_right. by rewrite reverse_Permutation, ins_rev_perm, reverse_Permutation. Qed.

Lemma ins_right_snoc l y x :
  ins_right (l ++ [y]) x = if 0 <? cmp y x then ins_right l x ++ [y] else l ++ [y; x].
Proof.
  unfold ins_right. rewrite reverse_snoc. cbn [ins_rev]. destruct (0 <? cmp y x).
  - by rewrite reverse_cons.
  - rewrite !reverse_cons, reverse_involutive, <- app_assoc. done.
Qed.

Lemma ins_right_nil x : ins_right [] x = [x].
Proof. done. Qed.

Lemma length_ins_right l x : length (ins_right l x) = S (length l).
Proof. by rewrite (Permutation_length (ins_right_perm l x)). Qed.

Lemma isort_snoc l x : isort (l ++ [x]) = ins_right (isort l) x.
Proof. unfold isort. by rewrite foldl_app. Qed.

Lemma isort_perm l : isort l ≡ₚ l.
Proof.
  induction l as [|x l IH] using rev_ind; [done|]. rewrite isort_snoc, ins_right_perm, IH. apply Permutation_cons_append.
Qed.

Lemma length_isort l : length (isort l) = length l.
Proof. apply Permutation_length, isort_perm. Qed.

Section order.
Context {Hcmp : CompareOrder cmp}.

Lemma cmp_refl x : cmp x x = 0.
Proof. pose proof (cmp_sym x x). lia. Qed.

Definition cmp_le (x y : A) : Prop := cmp x y <= 0.

(** Sorted, with every pair compared. *)
Lemma ins_right_sorted l x : StronglySorted cmp_le l -> StronglySorted cmp_le (ins_right l x).
Proof.
  induction l as [|y l IH] using rev_ind; intros Hs; [rewrite ins_right_nil; by repeat constructor|].
  rewrite ins_right_snoc. pose proof Hs as Hs'. apply StronglySorted_app in Hs as (Hly & Hl & _).
  destruct (Z.ltb_spec 0 (cmp y x)) as [Hgt|Hle].
  - apply StronglySorted_app_2; [|by apply IH|by repeat constructor]. intros a b Ha Hb. apply list_elem_of_singleton in Hb as ->.
    rewrite ins_right_perm in Ha. apply elem_of_cons in Ha as [->|Ha].
    + unfold cmp_le. pose proof (cmp_sym x y). lia.
    + apply Hly; [done|by apply list_elem_of_singleton].
  - change [y; x] with ([y] ++ [x]). rewrite app_assoc. apply StronglySorted_app_2; [|done|by repeat constructor].
    intros a b Ha Hb. apply list_elem_of_singleton in Hb as ->. apply elem_of_app in Ha as [Ha|Ha].
    + apply (cmp_trans a y x); [|done]. apply Hly; [done|by apply list_elem_of_singleton].
    + by apply list_elem_of_singleton in Ha as ->.
Qed.

Lemma isort_sorted l : StronglySorted cmp_le (isort l).
Proof. induction l as [|x l IH] using rev_ind; [constructor|]. rewrite isort_snoc. by apply ins_right_sorted. Qed.

(** Items that compare equal to [z] keep their order. *)
Definition equal_to (z y : A) : Prop := cmp y z = 0.
#[global] Instance equal_to_dec z y : Decision (equal_to z y).
Proof. unfold equal_to. apply _. Defined.

Lemma ins_right_stable l x z : filter (equal_to z) (ins_right l x) = filter (equal_to z) (l ++ [x]).
Proof.
  induction l as [|y l IH] using rev_ind; [done|]. rewrite ins_right_snoc. destruct (Z.ltb_spec 0 (cmp y x)) as [Hgt|Hle].
  - rewrite !filter_app, IH, !filter_app, <- !app_assoc. f_equal. rewrite !filter_cons, !filter_nil.
    destruct (decide (equal_to z x)) as [Hx|Hx], (decide (equal_to z y)) as [Hy|Hy]; try done.
    exfalso. unfold equal_to in *. pose proof (cmp_sym x z). pose proof (cmp_trans y z x). lia.
  - by rewrite <- app_assoc.
Qed.

Lemma isort_stable l z : filter (equal_to z) (isort l) = filter (equal_to z) l.
Proof.
  induction l as [|x l IH] using rev_ind; [done|]. by rewrite isort_snoc, ins_right_stable, !filter_app, IH.
Qed.

End order.

(** * The sort in memory *)

Lemma sb_set_twice (h : heap) p a b : sb_set (sb_set h p a) p b = sb_set h p b.
Proof. unfold sb_set. cbn [bufs hal]. by rewrite insert_insert_eq. Qed.

Lemma lookup_sb_set (h : heap) p sb : bufs (sb_set h p sb) !! p = Some sb.
Proof. cbn [sb_set bufs]. apply lookup_insert_eq. Qed.

Lemma sb_set_same (h : heap) p sb : bufs h !! p = Some sb -> sb_set h p (set_slots sb (slots sb)) = h.
Proof. intros Hb. destruct h as [m al], sb as [r z sl]. unfold sb_set, set_slots. cbn [bufs hal mRefs mSize slots] in *. by rewrite insert_id. Qed.

Lemma item_at_ok (h : heap) p sb i x :
  bufs h !! p = Some sb -> 0 <= i -> slots sb !! Z.to_nat i = Some (Some x) -> item_at h p i = Done x.
Proof.
  intros Hb Hi Hx. unfold item_at. pose proof (lookup_lt_Some _ _ _ Hx). rewrite (mem_read_ok h p sb) by (done || lia). cbn [obind].
  by rewrite (drop_S _ (Some x)).
Qed.

(** A slot overwritten: the old item destroyed, the new one constructed. *)
Lemma overwrite (h : heap) p sb i x :
  bufs h !! p = Some sb -> 0 <= i < Z.of_nat (length (slots sb)) ->
  (let* h := _do_destroy h p i 1 in mem_write h p i [x]) = Done (sb_set h p (set_slots sb (<[Z.to_nat i := x]> (slots sb)))).
Proof.
  intros Hb Hi. unfold Vector._do_destroy.
  assert (Hsp : splice (slots sb) (Z.to_nat i) [x] = <[Z.to_nat i := x]> (slots sb)).
  { unfold splice. cbn [length]. rewrite insert_take_drop by lia. cbn [app]. do 3 f_equal. lia. }
  destruct trivial_dtor; cbn [obind]; [by rewrite (mem_write_ok h p sb), Hsp by (done || cbn [length]; lia)|].
  rewrite (mem_write_ok h p sb) by (done || rewrite ?length_replicate; lia). cbn [obind].
  rewrite (mem_write_ok _ p _ _ _ (lookup_sb_set h p _)); cbn [set_slots slots length];
    [|lia|rewrite length_splice; [lia|rewrite length_replicate; lia]].
  rewrite sb_set_twice. f_equal. f_equal. unfold set_slots. cbn [mRefs mSize slots]. f_equal.
  rewrite splice_again, Hsp by (rewrite ?length_replicate; done || lia). done.
Qed.

(** The item at [j] copied into the slot behind it. *)
Lemma shift_step (h : heap) p sb a y hole rest :
  bufs h !! p = Some sb -> slots sb = a ++ Some y :: hole :: rest ->
  (let* h := _do_destroy h p (Z.of_nat (S (length a))) 1 in
   _do_copy h p (Z.of_nat (S (length a))) p (Z.of_nat (length a)) 1) =
  Done (sb_set h p (set_slots sb (a ++ Some y :: Some y :: rest))).
Proof.
  intros Hb Hsl. pose proof (overwrite h p sb (Z.of_nat (S (length a))) (Some y) Hb) as Ho.
  assert (Hlen : length (slots sb) = (length a + (2 + length rest))%nat) by (rewrite Hsl, length_app; done).
  assert (Hins : <[Z.to_nat (Z.of_nat (S (length a))) := Some y]> (slots sb) = a ++ Some y :: Some y :: rest).
  { rewrite Hsl, Nat2Z.id. replace (S (length a)) with (length a + 1)%nat by lia. by rewrite insert_app_r. }
  rewrite Hins in Ho. rewrite <- Ho by lia. clear Ho. unfold Vector._do_destroy, _do_copy. destruct trivial_dtor; cbn [obind].
  - rewrite (mem_read_ok h p sb) by (done || lia). cbn [obind]. rewrite Nat2Z.id, Hsl, drop_app_length. done.
  - rewrite (mem_write_ok h p sb) by (done || rewrite ?length_replicate; lia). cbn [obind].
    rewrite (mem_read_ok _ p _ _ _ (lookup_sb_set h p _)); cbn [set_slots slots obind];
      [|lia|lia|rewrite length_splice; [lia|rewrite length_replicate; lia]].
    f_equal. rewrite !Nat2Z.id. unfold splice. rewrite Hsl. replace (S (length a)) with (length a + 1)%nat by lia.
    rewrite take_app_add. cbn [take]. rewrite <- app_assoc, drop_app_length. done.
Qed.

Lemma sort_shift_spec temp pre : forall (h : heap) p sb y hole rest,
  bufs h !! p = Some sb -> slots sb = (Some <$> pre) ++ Some y :: hole :: rest -> 0 < cmp y temp ->
  exists sl next, sort_shift h p temp (length pre) = Done (sb_set h p (set_slots sb sl), next) /\
    length sl = length (slots sb) /\ 0 <= next < Z.of_nat (length sl) /\
    <[Z.to_nat next := Some temp]> sl = (Some <$> ins_right (pre ++ [y]) temp) ++ rest.
Proof.
  induction pre as [|z pre IH] using rev_ind; intros h p sb y hole rest Hb Hsl Hgt.
  - pose proof (shift_step h p sb [] y hole rest Hb Hsl) as Hst. cbn [length sort_shift]. cbn [length] in Hst.
    exists (Some y :: Some y :: rest), 0. split.
    + destruct (_do_destroy h p (Z.of_nat 1) 1) as [h1|]; cbn [obind] in *; [|done]. by rewrite Hst.
    + split; [rewrite Hsl; done|]. split; [cbn [length]; lia|]. rewrite ins_right_snoc. by destruct (Z.ltb_spec 0 (cmp y temp)); [|lia].
  - assert (Hla : length (Some <$> pre ++ [z]) = S (length pre)) by (rewrite length_fmap, length_app; cbn [length]; lia).
    pose proof (shift_step h p sb (Some <$> pre ++ [z]) y hole rest Hb Hsl) as Hst. rewrite Hla in Hst.
    replace (length (pre ++ [z])) with (S (length pre)) by (rewrite length_app; cbn [length]; lia). cbn [sort_shift].
    destruct (_do_destroy h p (Z.of_nat (S (S (length pre)))) 1) as [h1|]; cbn [obind] in *; [|done]. rewrite Hst. cbn [obind].
    set (sl1 := (Some <$> pre ++ [z]) ++ Some y :: Some y :: rest) in *.
    assert (Hsl1 : sl1 = (Some <$> pre) ++ Some z :: Some y :: Some y :: rest) by (unfold sl1; by rewrite fmap_app, <- app_assoc).
    assert (Hlen1 : length sl1 = length (slots sb)) by (rewrite Hsl; unfold sl1; rewrite !length_app; done).
    rewrite (item_at_ok _ p (set_slots sb sl1) _ z (lookup_sb_set h p _)) by
      (lia || (cbn [set_slots slots]; rewrite Hsl1, Nat2Z.id; apply list_lookup_middle; by rewrite length_fmap)).
    cbn [obind]. rewrite ins_right_snoc. destruct (Z.ltb_spec 0 (cmp y temp)); [|lia].
    destruct (Z.ltb_spec 0 (cmp z temp)) as [Hz|Hz].
    + destruct (IH _ p (set_slots sb sl1) z (Some y) (Some y :: rest) (lookup_sb_set h p _) Hsl1 Hz) as (sl & next & E & Hl & Hn & Hres).
      exists sl, next. rewrite E, sb_set_twice. split; [done|]. split; [rewrite Hl; done|]. split; [done|].
      rewrite Hres, fmap_app, <- app_assoc. done.
    + exists sl1, (Z.of_nat (S (length pre))). split; [done|]. split; [done|].
      split; [rewrite Hlen1, Hsl, length_app, Hla; cbn [length]; lia|].
      rewrite Nat2Z.id. unfold sl1. rewrite <- Hla. replace (length (Some <$> pre ++ [z])) with (length (Some <$> pre ++ [z]) + 0)%nat by lia.
      rewrite insert_app_r. cbn [insert list_insert]. rewrite ins_right_snoc. destruct (Z.ltb_spec 0 (cmp z temp)); [lia|].
      rewrite !fmap_app, <- !app_assoc. done.
Qed.

Context (itemSize_pos : 0 < itemSize).
Local Abbreviation sole := (sole itemSize).

Lemma sole_malloc (h : heap) v l vs p cap sb :
  sole h v l vs p cap sb -> exists q al, malloc (hal h) = (Some q, al) /\ sole (mk_heap (bufs h) al) v l vs p cap sb.
Proof.
  intros [W Hp Hb H1 Hc]. unfold malloc. rewrite (w_mem _ _ _ W). eexists _, _. split; [reflexivity|].
  constructor; try done. constructor; [apply W|apply W| |apply (w_mem _ _ _ W)].
  intros q sb' Hq. destruct (w_bufs _ _ _ W q sb' Hq). cbn [hal next_addr]. split; [done|lia].
Qed.

Lemma sort_edit_spec (h : heap) v l vs p temp :
  world h ((v, l) :: vs) -> mStorage v = Some p ->
  (temp <> None -> exists sb, bufs h !! p = Some sb /\ mRefs sb = 1) ->
  exists h' v' q cap sb, sort_edit h v p temp = Done (h', v', q, true) /\ sole h' v' l vs q cap sb.
Proof.
  intros W Hp Ht. destruct (vec_buffer _ h v l vs p W Hp) as (sb & Hb & _). unfold sort_edit. destruct temp as [t|].
  - destruct Ht as (sb' & Hb' & H1); [done|]. exists h, v, p, (Z.of_nat (length (slots sb'))), sb'. split; [done|]. by constructor.
  - destruct (editArrayImpl_spec itemSize trivial_dtor itemSize_pos h v l vs p sb W Hp Hb) as (h1 & q & sb1 & -> & S1). cbn [obind mStorage].
    destruct (sole_malloc _ _ _ _ _ _ _ S1) as (r & al & -> & S2). by eexists _, _, q, _, sb1.
Qed.

(** The items of a vector in its buffer. *)
Lemma sole_slots (h : heap) v l vs p cap sb : sole h v l vs p cap sb -> slots sb = (Some <$> l) ++ drop (length l) (slots sb).
Proof. intros S. destruct (sole_items _ _ _ _ _ _ _ _ S) as [Ht _]. rewrite <- Ht. by rewrite take_drop. Qed.

Lemma vec_item_at (h : heap) v l vs p i x :
  world h ((v, l) :: vs) -> mStorage v = Some p -> 0 <= i -> l !! Z.to_nat i = Some x -> item_at h p i = Done x.
Proof.
  intros W Hp Hi Hx. destruct (vec_buffer _ h v l vs p W Hp) as (sb & Hb & Ht & _ & _ & Hl). apply (item_at_ok h p sb); [done|done|].
  pose proof (lookup_lt_Some _ _ _ Hx). rewrite <- (lookup_take_lt _ (length l)), Ht by lia. by rewrite list_lookup_fmap, Hx.
Qed.

(** One round of the sort that moves the item [x] into the sorted items
    [pre ++ [y]] in front of it. *)
Lemma sort_insert (h : heap) v vs p cap sb pre y x rest :
  sole h v (pre ++ y :: x :: rest) vs p cap sb -> 0 < cmp y x ->
  exists h1 next h' sb', sort_shift h p x (length pre) = Done (h1, next) /\
    (let* h := _do_destroy h1 p next 1 in mem_write h p next [Some x]) = Done h' /\
    sole h' v (ins_right (pre ++ [y]) x ++ rest) vs p cap sb'.
Proof.
  intros S Hgt. pose proof (sole_slots _ _ _ _ _ _ _ S) as Hsl. rewrite fmap_app, !fmap_cons, <- app_assoc in Hsl. cbn [app] in Hsl.
  pose proof (so_buffer _ _ _ _ _ _ _ _ S) as Hb.
  destruct (sort_shift_spec x pre h p sb y (Some x) _ Hb Hsl Hgt) as (sl & next & E & Hl & Hn & Hres).
  eexists _, next. rewrite E. pose proof (lookup_sb_set h p (set_slots sb sl)) as Hb1. rewrite (overwrite _ p _ next (Some x) Hb1) by done.
  rewrite sb_set_twice. cbn [set_slots slots]. rewrite Hres. eexists _, _. split; [reflexivity|]. split; [reflexivity|].
  pose proof (so_storage _ _ _ _ _ _ _ _ S) as Hst. pose proof (vec_count _ _ _ _ _ (so_world _ _ _ _ _ _ _ _ S)) as Hc.
  destruct v as [st n]. cbn [mStorage mCount] in *. subst st.
  assert (Hlen : length (ins_right (pre ++ [y]) x ++ rest) = length (pre ++ y :: x :: rest)).
  { rewrite !length_app, length_ins_right, length_app. cbn [length]. lia. }
  apply (sole_write itemSize _ _ _ _ _ _ sb _ n _ S).
  - rewrite <- Hl. rewrite <- (length_insert sl (Z.to_nat next) (Some x)), Hres. done.
  - rewrite Hlen. rewrite (app_assoc _ (Some <$> rest)), <- fmap_app. apply take_app_length'. by rewrite length_fmap, Hlen.
  - by rewrite Hlen.
Qed.

Lemma sort_loop_spec (l : list A) vs n : forall (h : heap) v p temp k,
  (1 <= k)%nat -> (k + n)%nat = length l ->
  world h ((v, isort (take k l) ++ drop k l) :: vs) -> mStorage v = Some p ->
  (temp <> None -> exists sb, bufs h !! p = Some sb /\ mRefs sb = 1) ->
  exists h' v', sort_loop n h v (Some p) temp (Z.of_nat k) = Done (h', v', OK) /\ world h' ((v', isort l) :: vs).
Proof.
  induction n as [|n IH]; intros h v p temp k Hk Hn W Hp Ht; cbn [sort_loop].
  - exists h, v. split; [done|]. by rewrite take_ge, drop_ge, app_nil_r in W by lia.
  - destruct (lookup_lt_is_Some_2 l k) as [x Hx]; [lia|]. rewrite (drop_S _ _ _ Hx) in W.
    destruct (exists_last (l := isort (take k l))) as (pre & y & Es).
    { intros Es. apply (f_equal length) in Es. rewrite length_isort, length_take in Es. cbn [length] in Es. lia. }
    rewrite Es in W. assert (Hpre : k = S (length pre)).
    { apply (f_equal length) in Es. rewrite length_isort, length_take, length_app in Es. cbn [length] in Es. lia. }
    assert (Hnext : isort (take (S k) l) = ins_right (pre ++ [y]) x) by (by rewrite (take_S_r _ _ _ Hx), isort_snoc, Es).
    rewrite <- app_assoc in W. cbn [app] in W.
    rewrite (vec_item_at h v _ vs p (Z.of_nat k) x W Hp ltac:(lia)); [cbn [obind]|
      rewrite Nat2Z.id, lookup_app_r by lia; by replace (k - length pre)%nat with 1%nat by lia].
    rewrite (vec_item_at h v _ vs p (Z.of_nat k - 1) y W Hp ltac:(lia)); [cbn [obind]|
      replace (Z.to_nat (Z.of_nat k - 1)) with (length pre) by lia; by apply list_lookup_middle].
    rewrite ins_right_snoc in Hnext. replace (Z.of_nat k + 1) with (Z.of_nat (S k)) by lia.
    destruct (Z.ltb_spec 0 (cmp y x)) as [Hgt|Hle].
    + destruct (sort_edit_spec h v _ vs p temp W Hp Ht) as (h1 & v1 & q & cap & sb & -> & S1). cbn [obind].
      rewrite (vec_item_at h1 v1 _ vs q (Z.of_nat k) x (so_world _ _ _ _ _ _ _ _ S1) (so_storage _ _ _ _ _ _ _ _ S1) ltac:(lia)); [cbn [obind]|
        rewrite Nat2Z.id, lookup_app_r by lia; by replace (k - length pre)%nat with 1%nat by lia].
      destruct (sort_insert _ _ _ _ _ _ _ _ _ _ S1 Hgt) as (h2 & next & h3 & sb3 & E2 & E3 & S3).
      replace (Z.to_nat (Z.of_nat k - 1)) with (length pre) by lia. rewrite E2. cbn [obind].
      destruct (_do_destroy h2 q next 1) as [h2'|]; cbn [obind] in E3 |- *; [|done]. rewrite E3. cbn [obind].
      apply IH; [lia|lia| |apply S3|intros _; exists sb3; split; apply S3].
      rewrite Hnext. rewrite ins_right_snoc in S3. destruct (Z.ltb_spec 0 (cmp y x)); [|lia]. apply S3.
    + apply IH; [lia|lia| |done|done]. rewrite Hnext, <- app_assoc. exact W.
Qed.

Lemma sort_spec (h : heap) v l vs :
  world h ((v, l) :: vs) -> exists h' v', sort h v = Done (h', v', OK) /\ world h' ((v', isort l) :: vs).
Proof.
  intros W. pose proof (vec_count _ _ _ _ _ W) as Hc. unfold sort. rewrite Hc. destruct (Z.ltb_spec 1 (Z.of_nat (length l))) as [H1|H1].
  - destruct (mStorage v) as [p|] eqn:Hp; [|destruct (vec_no_storage _ _ _ _ _ W Hp) as [-> _]; cbn [length] in H1; lia].
    change 1 with (Z.of_nat 1) at 2. apply sort_loop_spec; [lia|lia| |done|done].
    destruct l as [|x l]; [done|]. exact W.
  - exists h, v. split; [done|]. destruct l as [|x [|y l]]; [done|done|cbn [length] in H1; lia].
Qed.

(** * The search *)

Section sorted_order.
Context {Hcmp : CompareOrder cmp}.

Definition cmp_lt (x y : A) : Prop := cmp x y < 0.

Lemma cmp_flip x y : (cmp x y < 0 <-> 0 < cmp y x) /\ (cmp x y = 0 <-> cmp y x = 0).
Proof. pose proof (cmp_sym x y). lia. Qed.

Lemma cmp_lt_le_trans x y z : cmp x y < 0 -> cmp y z <= 0 -> cmp x z < 0.
Proof.
  intros H1 H2. destruct (Z.lt_ge_cases (cmp x z) 0) as [|H3]; [done|]. exfalso.
  pose proof (cmp_sym x z). pose proof (cmp_trans y z x). pose proof (cmp_sym x y). lia.
Qed.

Lemma cmp_le_lt_trans x y z : cmp x y <= 0 -> cmp y z < 0 -> cmp x z < 0.
Proof.
  intros H1 H2. destruct (Z.lt_ge_cases (cmp x z) 0) as [|H3]; [done|]. exfalso.
  pose proof (cmp_sym x z). pose proof (cmp_trans z x y). pose proof (cmp_sym y z). lia.
Qed.

Lemma strict_lookup l i j x y :
  StronglySorted cmp_lt l -> (i < j)%nat -> l !! i = Some x -> l !! j = Some y -> cmp x y < 0.
Proof.
  intros Hs Hij Hx Hy. rewrite <- (take_drop j l) in Hs. apply (StronglySorted_app_1_elem_of _ _ _ x y Hs).
  - apply list_elem_of_lookup. exists i. by rewrite lookup_take_lt.
  - apply list_elem_of_lookup. exists 0%nat. rewrite lookup_drop. by rewrite Nat.add_0_r.
Qed.

(** What a search for [item] reports: the place of an equal item, or the
    place that separates the smaller items from the greater ones. *)
Inductive reports (l : list A) (item : A) : Z -> Z -> Prop :=
| report_found a x b : l = a ++ x :: b -> cmp x item = 0 -> reports l item (Z.of_nat (length a)) (Z.of_nat (length a))
| report_missing a b : l = a ++ b -> Forall (fun x => cmp x item < 0) a -> Forall (fun x => 0 < cmp x item) b ->
    reports l item NAME_NOT_FOUND (Z.of_nat (length a)).

Lemma search_spec (h : heap) v l vs p item fuel : forall lo hi,
  world h ((v, l) :: vs) -> mStorage v = Some p -> StronglySorted cmp_lt l ->
  0 <= lo -> lo <= hi + 1 -> hi < Z.of_nat (length l) ->
  Forall (fun x => cmp x item < 0) (take (Z.to_nat lo) l) -> Forall (fun x => 0 < cmp x item) (drop (Z.to_nat (hi + 1)) l) ->
  hi + 1 - lo < Z.of_nat fuel ->
  exists r o, search fuel h (Some p) item lo hi = Done (r, o) /\ reports l item r o.
Proof.
  induction fuel as [|fuel IH]; intros lo hi W Hp Hs Hlo Hlh Hhi Hlt Hgt Hf; [lia|]. cbn [search].
  destruct (Z.leb_spec lo hi) as [Hle|Hend].
  - set (mid := lo + (hi - lo) / 2). assert (Hmid : lo <= mid <= hi) by (unfold mid; div_lia).
    destruct (lookup_lt_is_Some_2 l (Z.to_nat mid)) as [x Hx]; [lia|].
    rewrite (vec_item_at h v l vs p mid x W Hp ltac:(lia) Hx). cbn [obind].
    destruct (Z.eqb_spec (cmp x item) 0) as [E|E]; [|destruct (Z.ltb_spec (cmp x item) 0) as [Hxl|Hxg]].
    + exists mid, mid. split; [done|]. pose proof (report_found l item _ x _ (eq_sym (take_drop_middle _ _ _ Hx)) E) as R.
      rewrite length_take, Nat.min_l, Z2Nat.id in R by lia. done.
    + apply IH; try done; try lia. apply Forall_lookup_2. intros i y Hy. apply lookup_take_Some in Hy as [Hy Hi].
      destruct (decide (i = Z.to_nat mid)) as [->|Hne]; [congruence|].
      apply (cmp_lt_le_trans y x item); [|lia]. apply (strict_lookup l i (Z.to_nat mid)); try done. lia.
    + apply IH; try done; try lia. apply Forall_lookup_2. intros i y Hy. rewrite lookup_drop in Hy.
      destruct (decide (Z.to_nat (mid - 1 + 1) + i = Z.to_nat mid)%nat) as [Heq|Hne]; [rewrite Heq in Hy; assert (x = y) as <- by congruence; lia|].
      apply cmp_flip. apply (cmp_lt_le_trans item x y).
      * apply cmp_flip. lia.
      * apply Z.lt_le_incl. apply (strict_lookup l (Z.to_nat mid) (Z.to_nat (mid - 1 + 1) + i)); try done. lia.
  - exists NAME_NOT_FOUND, lo. split; [done|]. replace (hi + 1) with lo in Hgt by lia.
    pose proof (report_missing l item _ _ (eq_sym (take_drop (Z.to_nat lo) l)) Hlt Hgt) as R.
    rewrite length_take, Nat.min_l, Z2Nat.id in R by lia. done.
Qed.

Lemma indexOrderOf_reports (h : heap) v l vs item :
  world h ((v, l) :: vs) -> StronglySorted cmp_lt l ->
  exists r o, _indexOrderOf h v item = Done (r, o) /\ reports l item r o.
Proof.
  intros W Hs. pose proof (vec_count _ _ _ _ _ W) as Hc. unfold _indexOrderOf. destruct (Z.eqb_spec (mCount v) 0) as [E|E].
  - exists NAME_NOT_FOUND, 0. split; [done|]. destruct l; [|cbn [length] in Hc; lia]. by apply (report_missing [] item [] []).
  - destruct (mStorage v) as [p|] eqn:Hp; [|by destruct (vec_no_storage _ _ _ _ _ W Hp)].
    apply (search_spec h v l vs p); try done; try lia. rewrite drop_ge by lia. constructor.
Qed.

(** * Sorted vectors as ordered sets *)

Definition below (item : A) (l : list A) : list A := filter (fun x => cmp x item < 0) l.
Definition above (item : A) (l : list A) : list A := filter (fun x => 0 < cmp x item) l.

(** [item] put in the place of the one equal to it, or where it belongs. *)
Definition set_add (l : list A) (item : A) : list A := below item l ++ item :: above item l.
Definition set_remove (l : list A) (item : A) : list A := filter (fun x => cmp x item <> 0) l.

Lemma filter_all (P : A -> Prop) `{forall x, Decision (P x)} l : Forall P l -> filter P l = l.
Proof. induction 1 as [|x l Hx Hl IH]; [done|]. by rewrite filter_cons_True, IH. Qed.

Lemma filter_none (P : A -> Prop) `{forall x, Decision (P x)} l : Forall (fun x => ~ P x) l -> filter P l = [].
Proof. induction 1 as [|x l Hx Hl IH]; [done|]. by rewrite filter_cons_False, IH. Qed.

(** The parts of a list around an item. *)
Lemma parts_around a m b item :
  Forall (fun x => cmp x item < 0) a -> Forall (fun x => cmp x item = 0) m -> Forall (fun x => 0 < cmp x item) b ->
  below item (a ++ m ++ b) = a /\ above item (a ++ m ++ b) = b /\ set_remove (a ++ m ++ b) item = a ++ b.
Proof.
  intros Ha Hm Hb. unfold below, above, set_remove.
  assert (Hsub : forall (P Q : A -> Prop) l, Forall P l -> (forall x, P x -> Q x) -> Forall Q l) by (intros P Q l Hl HPQ; by eapply Forall_impl).
  split; [|split]; rewrite !filter_app.
  - rewrite (filter_all _ a), (filter_none _ m), (filter_none _ b) by (done || (eapply Hsub; [eassumption|]; cbn; lia)). by rewrite !app_nil_r.
  - rewrite (filter_none _ a), (filter_none _ m), (filter_all _ b) by (done || (eapply Hsub; [eassumption|]; cbn; lia)). done.
  - rewrite (filter_all _ a), (filter_none _ m), (filter_all _ b) by (done || (eapply Hsub; [eassumption|]; cbn; lia)). done.
Qed.

(** The items in front of and behind one that equals [item]. *)
Lemma sorted_around a x b item :
  StronglySorted cmp_lt (a ++ x :: b) -> cmp x item = 0 ->
  Forall (fun y => cmp y item < 0) a /\ Forall (fun y => 0 < cmp y item) b.
Proof.
  intros Hs E. apply StronglySorted_app in Hs as (Hab & _ & Hxb). inversion_clear Hxb as [|? ? _ Hb].
  split; apply Forall_forall.
  - intros y Hy. apply (cmp_lt_le_trans y x item); [|lia]. apply Hab; [done|left].
  - intros y Hy. rewrite Forall_forall in Hb. apply cmp_flip. apply (cmp_le_lt_trans item x y); [|by apply Hb].
    apply cmp_flip in E. lia.
Qed.

Lemma sorted_add_spec (h : heap) v l vs item :
  world h ((v, l) :: vs) -> StronglySorted cmp_lt l -> small (grown_capacity (Z.of_nat (length l) + 1)) ->
  exists h' v' i, sorted_add h v item = Done (h', v', i) /\ i = Z.of_nat (length (below item l)) /\
    world h' ((v', set_add l item) :: vs).
Proof.
  intros W Hs Hsm. destruct (indexOrderOf_reports h v l vs item W Hs) as (r & o & E & R). unfold sorted_add. rewrite E. cbn [obind].
  unfold set_add. destruct R as [a x b -> Hx|a b -> Ha Hb].
  - destruct (sorted_around _ _ _ _ Hs Hx) as [Ha Hb]. destruct (parts_around a [x] b item) as (E1 & E2 & _); [done|by repeat constructor|done|].
    cbn [app] in E1, E2. rewrite E1, E2. destruct (Z.ltb_spec (Z.of_nat (length a)) 0); [lia|].
    destruct (replaceAt_items itemSize trivial_ctor trivial_dtor default itemSize_pos h v _ vs item (Z.of_nat (length a)) W) as (h' & v' & -> & W').
    { rewrite length_app. cbn [length]. lia. }
    exists h', v', (Z.of_nat (length a)). split; [done|]. split; [done|].
    rewrite Nat2Z.id in W'. replace (length a) with (length a + 0)%nat in W' by lia. by rewrite insert_app_r in W'.
  - destruct (parts_around a [] b item) as (E1 & E2 & _); [done|constructor|done|]. cbn [app] in E1, E2. rewrite E1, E2. cbn [Z.ltb].
    destruct (insertAt_items itemSize trivial_ctor trivial_dtor trivial_copy default itemSize_pos h v _ vs (Some item) (Z.of_nat (length a)) 1 W)
      as (h' & v' & E' & W'); try done; [rewrite length_app; lia|].
    exists h', v', (Z.of_nat (length a)). split; [exact E'|]. split; [done|]. unfold list_insert_at in W'. rewrite Nat2Z.id, take_app_length, drop_app_length in W'.
    exact W'.
Qed.

Lemma sorted_remove_spec (h : heap) v l vs item :
  world h ((v, l) :: vs) -> StronglySorted cmp_lt l -> small kMinVectorCapacity ->
  exists h' v' i, sorted_remove h v item = Done (h', v', i) /\ world h' ((v', set_remove l item) :: vs) /\
    (0 <= i <-> exists x, x ∈ l /\ cmp x item = 0).
Proof.
  intros W Hs Hmin. destruct (indexOrderOf_reports h v l vs item W Hs) as (r & o & E & R). unfold sorted_remove, indexOf. rewrite E. cbn [obind].
  destruct R as [a x b -> Hx|a b -> Ha Hb].
  - destruct (sorted_around _ _ _ _ Hs Hx) as [Ha Hb]. destruct (parts_around a [x] b item) as (_ & _ & E3); [done|by repeat constructor|done|].
    cbn [app] in E3. rewrite E3. destruct (Z.leb_spec 0 (Z.of_nat (length a))); [|lia].
    destruct (removeItemsAt_items itemSize trivial_dtor trivial_copy itemSize_pos h v _ vs (Z.of_nat (length a)) 1 W) as (h' & v' & -> & W'); try done; try lia.
    { rewrite length_app. cbn [length]. lia. }
    cbn [obind]. exists h', v', (Z.of_nat (length a)). split; [done|]. split.
    + unfold list_remove_at in W'. rewrite Nat2Z.id, take_app_length in W'.
      replace (Z.to_nat (Z.of_nat (length a) + 1)) with (length a + 1)%nat in W' by lia. by rewrite drop_app_add' in W'.
    + split; [|lia]. intros _. exists x. split; [set_solver|done].
  - destruct (parts_around a [] b item) as (_ & _ & E3); [done|constructor|done|]. cbn [app] in E3. rewrite E3.
    exists h, v, NAME_NOT_FOUND. split; [done|]. split; [done|]. split; [unfold NAME_NOT_FOUND; lia|]. intros (x & Hin & E0).
    rewrite Forall_forall in Ha, Hb. apply elem_of_app in Hin as [Hin|Hin]; [apply Ha in Hin|apply Hb in Hin]; lia.
Qed.

(** ** Merging *)

Definition has_key (z : A) (l : list A) : Prop := exists x, x ∈ l /\ cmp x z = 0.

Lemma cmp_eq_trans x y z : cmp x y = 0 -> cmp y z = 0 -> cmp x z = 0.
Proof.
  intros H1 H2. pose proof (cmp_trans x y z). pose proof (cmp_trans z y x). pose proof (cmp_sym x y). pose proof (cmp_sym y z).
  pose proof (cmp_sym x z). lia.
Qed.

Lemma has_key_cons z y l : has_key z (y :: l) <-> cmp y z = 0 \/ has_key z l.
Proof.
  unfold has_key. split.
  - intros (x & Hx & E). apply elem_of_cons in Hx as [->|Hx]; [by left|right; by exists x].
  - intros [E|(x & Hx & E)]; [exists y|exists x]; rewrite elem_of_cons; auto.
Qed.

Lemma has_key_app z l1 l2 : has_key z (l1 ++ l2) <-> has_key z l1 \/ has_key z l2.
Proof. unfold has_key. setoid_rewrite elem_of_app. firstorder. Qed.

Lemma set_add_elem l item x : x ∈ set_add l item <-> x = item \/ (x ∈ l /\ cmp x item <> 0).
Proof.
  unfold set_add, below, above. rewrite elem_of_app, elem_of_cons, !list_elem_of_filter. split.
  - intros [[? ?]|[?|[? ?]]]; auto; right; split; auto; lia.
  - intros [?|[? ?]]; [auto|]. destruct (Z.lt_total (cmp x item) 0) as [|[|]]; [auto|done|auto].
Qed.

Lemma set_add_keys l item z : has_key z (set_add l item) <-> cmp item z = 0 \/ has_key z l.
Proof.
  unfold has_key. setoid_rewrite set_add_elem. split.
  - intros (x & [->|[Hx Hne]] & E); [by left|right; by exists x].
  - intros [E|(x & Hx & E)]; [exists item; auto|]. destruct (decide (cmp x item = 0)) as [E0|Hne]; [|exists x; auto].
    exists item. split; [by left|]. apply (cmp_eq_trans _ x); [by apply cmp_flip|done].
Qed.

Lemma set_add_sorted l item : StronglySorted cmp_lt l -> StronglySorted cmp_lt (set_add l item).
Proof.
  intros Hs. unfold set_add. assert (Hf : forall (P : A -> Prop) `{forall x, Decision (P x)}, StronglySorted cmp_lt (filter P l)).
  { intros P HP. induction Hs as [|x l Hs IH Hx]; [constructor|]. rewrite filter_cons. case_decide; [|done]. constructor; [done|].
    apply Forall_forall. intros y Hy. apply list_elem_of_filter in Hy as [_ Hy]. rewrite Forall_forall in Hx. by apply Hx. }
  assert (Hb : forall x, x ∈ below item l -> cmp x item < 0) by (intros x Hx; by apply list_elem_of_filter in Hx as [? _]).
  assert (Ha : forall x, x ∈ above item l -> cmp item x < 0).
  { intros x Hx. apply list_elem_of_filter in Hx as [? _]. by apply cmp_flip. }
  apply StronglySorted_app_2; [|apply Hf|constructor; [apply Hf|by apply Forall_forall]].
  intros x y Hx Hy. apply elem_of_cons in Hy as [->|Hy]; [by apply Hb|]. apply (cmp_lt_le_trans x item y); [by apply Hb|]. apply Ha in Hy. lia.
Qed.

Lemma length_set_add l item : (length (set_add l item) <= S (length l))%nat.
Proof.
  unfold set_add, below, above. rewrite length_app. cbn [length]. rewrite Nat.add_succ_r. apply le_n_S.
  induction l as [|x l IH]; [done|]. rewrite !filter_cons. repeat case_decide; cbn [length]; lia.
Qed.

Lemma small_mono n m : 0 <= n <= m -> small (grown_capacity m) -> small (grown_capacity n).
Proof.
  intros [Hn Hnm] [H0 H1]. assert (n / 2 <= m / 2) by (apply Z.div_le_mono; lia). pose proof (Z.div_pos n 2 Hn ltac:(lia)).
  assert (0 <= grown_capacity n <= grown_capacity m) by (unfold grown_capacity; lia). split; [lia|nia].
Qed.

Lemma merge_loop_spec w lw q vs (ys : list A) : forall (h : heap) v l xs,
  lw = xs ++ ys -> mStorage w = Some q -> world h ((v, l) :: (w, lw) :: vs) -> StronglySorted cmp_lt l ->
  small (grown_capacity (Z.of_nat (length l + length ys))) ->
  exists h' v', merge_loop (length ys) h v (Some q) (Z.of_nat (length xs)) = Done (h', v', OK) /\
    world h' ((v', foldl set_add l ys) :: (w, lw) :: vs).
Proof.
  induction ys as [|y ys IH]; intros h v l xs Hlw Hq W Hs Hsm; cbn [length merge_loop foldl]; [by exists h, v|].
  assert (W' : world h ((w, lw) :: (v, l) :: vs)) by (eapply world_perm; [|exact W]; apply Permutation_swap).
  rewrite (vec_item_at h w lw _ q _ y W' Hq) by (lia || (rewrite Hlw, Nat2Z.id; by apply list_lookup_middle)). cbn [obind].
  destruct (sorted_add_spec h v l _ y W Hs) as (h1 & v1 & i & -> & Hi & W1).
  { eapply small_mono; [|exact Hsm]. cbn [length]. lia. }
  cbn [obind]. destruct (Z.ltb_spec i 0); [lia|]. replace (Z.of_nat (length xs) + 1) with (Z.of_nat (length (xs ++ [y]))) by (rewrite length_app; cbn [length]; lia).
  apply IH; [by rewrite <- app_assoc|done|done|by apply set_add_sorted|].
  eapply small_mono; [|exact Hsm]. pose proof (length_set_add l y). cbn [length]. lia.
Qed.

Lemma foldl_set_add_spec ys : forall l, StronglySorted cmp_lt l ->
  StronglySorted cmp_lt (foldl set_add l ys) /\ forall z, has_key z (foldl set_add l ys) <-> has_key z l \/ has_key z ys.
Proof.
  induction ys as [|y ys IH]; intros l Hs; cbn [foldl].
  - split; [done|]. intros z. split; [by left|]. intros [H|(x & Hx & _)]; [done|by apply elem_of_nil in Hx].
  - destruct (IH (set_add l y) (set_add_sorted _ _ Hs)) as [H1 H2]. split; [done|]. intros z. rewrite H2, set_add_keys.
    rewrite has_key_cons. tauto.
Qed.

Lemma merge_spec (h : heap) v l w lw vs :
  world h ((v, l) :: (w, lw) :: vs) -> StronglySorted cmp_lt l ->
  small (grown_capacity (Z.of_nat (length l + length lw))) ->
  exists h' v', merge h v w = Done (h', v', OK) /\ world h' ((v', foldl set_add l lw) :: (w, lw) :: vs).
Proof.
  intros W Hs Hsm. assert (W' : world h ((w, lw) :: (v, l) :: vs)) by (eapply world_perm; [|exact W]; apply Permutation_swap).
  pose proof (vec_count _ _ _ _ _ W') as Hc. unfold merge. rewrite Hc. destruct (Z.eqb_spec (Z.of_nat (length lw)) 0) as [E|E]; cbn [negb].
  - exists h, v. split; [done|]. by destruct lw.
  - destruct (mStorage w) as [q|] eqn:Hq; [|destruct (vec_no_storage _ _ _ _ _ W' Hq) as [-> _]; done].
    rewrite Nat2Z.id. by apply (merge_loop_spec w lw q vs lw h v l []).
Qed.

(** The items of a vector as [merge_sorted] reads them. *)
Lemma last_location (h : heap) v l vs x :
  world h ((v, l) :: vs) -> last l = Some x ->
  exists loc, itemLocation h v (mCount v - 1) = Done loc /\ deref h loc = Done x.
Proof.
  intros W Hx. pose proof (vec_count _ _ _ _ _ W) as Hc. rewrite last_lookup in Hx. pose proof (lookup_lt_Some _ _ _ Hx) as Hlt.
  destruct (mStorage v) as [p|] eqn:Hp; [|destruct (vec_no_storage _ _ _ _ _ W Hp) as [-> _]; done].
  destruct (vec_buffer _ h v l vs p W Hp) as (sb & Hb & _ & _ & Hok & Hl).
  exists (Some (p, mCount v - 1)). rewrite (itemLocation_ok itemSize itemSize_pos h v p sb) by (done || lia). split; [done|]. cbn [deref].
  apply (vec_item_at h v l vs p); [done|done|lia|]. rewrite <- Hx. f_equal. lia.
Qed.

Lemma first_location (h : heap) v l vs x :
  world h ((v, l) :: vs) -> head l = Some x -> deref h (arrayImpl v) = Done x.
Proof.
  intros W Hx. unfold arrayImpl. destruct (mStorage v) as [p|] eqn:Hp; [|destruct (vec_no_storage _ _ _ _ _ W Hp) as [-> _]; done].
  cbn [deref]. apply (vec_item_at h v l vs p); [done|done|lia|]. by rewrite head_lookup in Hx.
Qed.

Lemma sorted_last l x y : StronglySorted cmp_lt l -> last l = Some y -> x ∈ l -> cmp x y <= 0.
Proof.
  intros Hs Hy Hx. apply last_Some in Hy as [l' ->]. apply elem_of_app in Hx as [Hx|Hx].
  - apply Z.lt_le_incl. apply (StronglySorted_app_1_elem_of _ _ _ _ _ Hs Hx). by apply list_elem_of_singleton.
  - apply list_elem_of_singleton in Hx as ->. by rewrite cmp_refl.
Qed.

Lemma sorted_head l x y : StronglySorted cmp_lt l -> head l = Some y -> x ∈ l -> cmp y x <= 0.
Proof.
  intros Hs Hy Hx. destruct l as [|z l]; [done|]. injection Hy as ->. apply elem_of_cons in Hx as [->|Hx]; [by rewrite cmp_refl|].
  inversion_clear Hs as [|? ? _ Hz]. rewrite Forall_forall in Hz. apply Z.lt_le_incl. by apply Hz.
Qed.

Lemma sorted_concat l1 l2 x y :
  StronglySorted cmp_lt l1 -> StronglySorted cmp_lt l2 -> last l1 = Some x -> head l2 = Some y -> cmp x y < 0 ->
  StronglySorted cmp_lt (l1 ++ l2).
Proof.
  intros H1 H2 Hx Hy Hxy. apply StronglySorted_app_2; [|done|done]. intros a b Ha Hb.
  apply (cmp_le_lt_trans a x b); [by apply (sorted_last l1)|]. apply (cmp_lt_le_trans x y b); [done|by apply (sorted_head l2)].
Qed.

(** * What the operations do *)

(** C32: [sort] returns [OK] and leaves a stably sorted permutation of the
    items: every pair is in order, items that compare equal keep their order,
    and vectors that shared the storage keep the unsorted items. *)
Theorem sort_stable_permutation (h : heap) v l vs :
  world h ((v, l) :: vs) ->
  exists h' v' l', sort h v = Done (h', v', OK) /\ world h' ((v', l') :: vs) /\ l' ≡ₚ l /\
    StronglySorted cmp_le l' /\ forall z, filter (equal_to z) l' = filter (equal_to z) l.
Proof.
  intros W. destruct (sort_spec h v l vs W) as (h' & v' & E & W'). exists h', v', (isort l). split; [done|]. split; [done|].
  split; [apply isort_perm|]. split; [apply isort_sorted|intros z; apply isort_stable].
Qed.

(** the binary search of a sorted vector ends and finds an item exactly
    when the vector holds one that compares equal; otherwise the order it
    reports separates the smaller items from the greater ones. *)
Theorem indexOrderOf_correct (h : heap) v l vs item :
  world h ((v, l) :: vs) -> StronglySorted cmp_lt l ->
  exists r o, _indexOrderOf h v item = Done (r, o) /\ reports l item r o /\ (0 <= r <-> has_key item l).
Proof.
  intros W Hs. destruct (indexOrderOf_reports h v l vs item W Hs) as (r & o & E & R). exists r, o. split; [done|]. split; [done|].
  destruct R as [a x b -> Hx|a b -> Ha Hb]; [split; [intros _; exists x; split; [set_solver|done]|lia]|]. split; [unfold NAME_NOT_FOUND; lia|].
  intros (x & Hin & E0). rewrite Forall_forall in Ha, Hb. apply elem_of_app in Hin as [Hin|Hin]; [apply Ha in Hin|apply Hb in Hin]; lia.
Qed.

(** C35: a sorted vector is an ordered set.  Adding an item puts it behind the
    smaller and in front of the greater ones in place of one that compares
    equal, removing takes exactly the equal item out and reports whether there
    was one; both keep the vector sorted without duplicates and leave every
    other vector alone. *)
Theorem sorted_vector_is_set (h : heap) v l vs item :
  world h ((v, l) :: vs) -> StronglySorted cmp_lt l -> small (grown_capacity (Z.of_nat (length l) + 1)) ->
  (exists h' v', sorted_add h v item = Done (h', v', Z.of_nat (length (below item l))) /\
    world h' ((v', below item l ++ item :: above item l) :: vs) /\
    StronglySorted cmp_lt (below item l ++ item :: above item l)) /\
  (exists h' v' i, sorted_remove h v item = Done (h', v', i) /\ world h' ((v', set_remove l item) :: vs) /\
    StronglySorted cmp_lt (set_remove l item) /\ (0 <= i <-> has_key item l)).
Proof.
  intros W Hs Hsm. split.
  - destruct (sorted_add_spec h v l vs item W Hs Hsm) as (h' & v' & i & -> & -> & W'). exists h', v'.
    split; [done|]. split; [done|]. by apply (set_add_sorted l item).
  - destruct (sorted_remove_spec h v l vs item W Hs) as (h' & v' & i & E & W' & Hi).
    { destruct Hsm as [H0 H1]. unfold grown_capacity in *. split; [done|]. nia. }
    exists h', v', i. split; [done|]. split; [done|]. split; [|done].
    destruct (indexOrderOf_reports h v l vs item W Hs) as (r & o & _ & R). destruct R as [a x b -> Hx|a b -> Ha Hb].
    + destruct (sorted_around _ _ _ _ Hs Hx) as [Ha Hb]. destruct (parts_around a [x] b item) as (_ & _ & E3); [done|by repeat constructor|done|].
      cbn [app] in E3. rewrite E3. apply StronglySorted_app in Hs as (Hab & H1 & H2). inversion_clear H2.
      apply StronglySorted_app_2; [|done|done]. intros y z Hy Hz. apply Hab; [done|by right].
    + destruct (parts_around a [] b item) as (_ & _ & E3); [done|constructor|done|]. cbn [app] in E3. by rewrite E3.
Qed.

(** merging a sorted vector into a sorted vector that is not empty, with
    no item equal across the ends that are compared first: the result is sorted
    without duplicates and holds exactly the keys of both. *)
Theorem merge_sorted_correct (h : heap) v l w lw vs x y x' y' :
  world h ((v, l) :: (w, lw) :: vs) -> StronglySorted cmp_lt l -> StronglySorted cmp_lt lw ->
  head l = Some x -> last l = Some y -> head lw = Some x' -> last lw = Some y' ->
  cmp y' x <> 0 -> cmp x' y <> 0 -> small (grown_capacity (Z.of_nat (length l + length lw))) ->
  exists h' v' l' r, merge_sorted h v w = Done (h', v', r) /\ 0 <= r /\ world h' ((v', l') :: (w, lw) :: vs) /\
    StronglySorted cmp_lt l' /\ forall z, has_key z l' <-> has_key z l \/ has_key z lw.
Proof.
  intros W Hl Hlw Hx Hy Hx' Hy' N1 N2 Hsm.
  assert (W' : world h ((w, lw) :: (v, l) :: vs)) by (eapply world_perm; [|exact W]; apply Permutation_swap).
  pose proof (vec_count _ _ _ _ _ W) as Hc. pose proof (vec_count _ _ _ _ _ W') as Hcw.
  assert (Hne : lw <> []) by (by intros ->). assert (0 < mCount w) by (destruct lw; [done|cbn [length] in Hcw; lia]).
  unfold merge_sorted. destruct (Z.eqb_spec (mCount w) 0); [lia|]. cbn [negb].
  destruct (last_location _ _ _ _ _ W' Hy') as (loc & -> & E1). cbn [obind]. rewrite E1, (first_location _ _ _ _ _ W Hx). cbn [obind].
  rewrite Nat2Z.inj_add in Hsm. destruct (Z.leb_spec (cmp y' x) 0) as [Hle|Hgt].
  - destruct (insertVectorAt_items itemSize trivial_dtor trivial_copy itemSize_pos h v l w lw vs 0 W) as (h' & v' & -> & W2); [lia|done|done|].
    exists h', v', (lw ++ l), 0. split; [done|]. split; [done|]. split; [exact W2|].
    split; [by apply (sorted_concat lw l y' x); try done; lia|]. intros z. rewrite has_key_app. tauto.
  - destruct (last_location _ _ _ _ _ W Hy) as (loc' & -> & E2). cbn [obind]. rewrite E2, (first_location _ _ _ _ _ W' Hx'). cbn [obind].
    destruct (Z.leb_spec 0 (cmp x' y)) as [Hge|Hlt].
    + unfold Vector.appendVector. rewrite Hc.
      destruct (insertVectorAt_items itemSize trivial_dtor trivial_copy itemSize_pos h v l w lw vs (Z.of_nat (length l)) W) as (h' & v' & -> & W2); [lia|done|done|].
      exists h', v', (l ++ lw), (Z.of_nat (length l)). split; [done|]. split; [lia|]. unfold list_insert_at in W2.
      rewrite Nat2Z.id, take_ge, drop_ge, app_nil_r in W2 by lia. split; [done|].
      split; [|intros z; by rewrite has_key_app]. apply (sorted_concat l lw y x'); try done. apply cmp_flip. lia.
    + destruct (merge_spec h v l w lw vs W Hl) as (h' & v' & -> & W2); [by rewrite Nat2Z.inj_add|].
      destruct (foldl_set_add_spec lw l Hl) as [S1 S2]. by exists h', v', (foldl set_add l lw), OK.
Qed.

End sorted_order.
End sorted_vector.

(** * Concrete vectors *)

Definition sample_heap : @heap Z :=
  mk_heap {[1 := mk_sb 2 32 [Some 3; Some 1; Some 2; None]; 2 := mk_sb 1 32 [Some 2; Some 4; Some 6; None];
            3 := mk_sb 1 32 [Some 1; Some 4; Some 9; None]]} (mk_alloc 4 (fun _ => false)).
Definition vec_312 : VectorImpl := mk_vec (Some 1) 3.
Definition vec_246 : VectorImpl := mk_vec (Some 2) 3.
Definition vec_149 : VectorImpl := mk_vec (Some 3) 3.
Definition sample_vectors : list (VectorImpl * list Z) :=
  [(vec_312, [3; 1; 2]); (vec_312, [3; 1; 2]); (vec_246, [2; 4; 6]); (vec_149, [1; 4; 9])].

Lemma sample_world : world 8 sample_heap sample_vectors.
Proof.
  constructor; [| | |done].
  - repeat apply Forall_cons_2; [| | | |constructor]; eexists; (split; [reflexivity|done]).
  - intros p sb Hp. unfold sample_heap in Hp. cbn [bufs] in Hp. rewrite !lookup_insert_Some, lookup_singleton_Some in Hp.
    destruct Hp as [[<- <-]|[? [[<- <-]|[? [<- <-]]]]]; split; done.
  - intros p sb Hp. unfold sample_heap in Hp. cbn [bufs] in Hp. rewrite !lookup_insert_Some, lookup_singleton_Some in Hp.
    unfold sb_ok, SIZE_MAX, sizeof_SharedBuffer. destruct Hp as [[<- <-]|[? [[<- <-]|[? [<- <-]]]]]; cbn; lia.
Qed.

Lemma sorted_246 : StronglySorted (cmp_lt Z.sub) [2; 4; 6].
Proof. repeat constructor; unfold cmp_lt; lia. Qed.
Lemma sorted_149 : StronglySorted (cmp_lt Z.sub) [1; 4; 9].
Proof. repeat constructor; unfold cmp_lt; lia. Qed.

Lemma sort_stable_permutation_witness :
  exists h' v' l', sort 8 true Z.sub sample_heap vec_312 = Done (h', v', OK) /\ l' ≡ₚ [3; 1; 2] /\ StronglySorted (cmp_le Z.sub) l'.
Proof.
  destruct (sort_stable_permutation 8 true Z.sub ltac:(lia) sample_heap vec_312 [3; 1; 2] _ sample_world) as (h' & v' & l' & E & _ & P & S & _).
  by exists h', v', l'.
Defined.

Lemma world_246 : world 8 sample_heap [(vec_246, [2; 4; 6]); (vec_149, [1; 4; 9]); (vec_312, [3; 1; 2]); (vec_312, [3; 1; 2])].
Proof. eapply world_perm; [|apply sample_world]. apply (Permutation_app_comm [_; _] [_; _]). Qed.

Lemma indexOrderOf_correct_witness :
  exists r o, _indexOrderOf Z.sub sample_heap vec_246 5 = Done (r, o) /\ reports Z.sub [2; 4; 6] 5 r o /\
    (0 <= r <-> has_key Z.sub 5 [2; 4; 6]).
Proof. apply (indexOrderOf_correct 8 Z.sub ltac:(lia) sample_heap vec_246 [2; 4; 6] _ 5 world_246 sorted_246). Defined.

Lemma sorted_vector_is_set_witness :
  exists h' v', sorted_add 8 true true true 0 Z.sub sample_heap vec_246 5 = Done (h', v', 2) /\
    world 8 h' [(v', [2; 4; 5; 6]); (vec_149, [1; 4; 9]); (vec_312, [3; 1; 2]); (vec_312, [3; 1; 2])].
Proof.
  destruct (sorted_vector_is_set 8 true true true 0 Z.sub ltac:(lia) sample_heap vec_246 [2; 4; 6] _ 5 world_246 sorted_246)
    as [(h' & v' & E & W & _) _]; [split; vm_compute; congruence|].
  exists h', v'. split; [exact E|exact W].
Defined.

Lemma merge_sorted_correct_witness :
  exists h' v' l' r, merge_sorted 8 true true true 0 Z.sub sample_heap vec_246 vec_149 = Done (h', v', r) /\ 0 <= r /\
    StronglySorted (cmp_lt Z.sub) l' /\ forall z, has_key Z.sub z l' <-> has_key Z.sub z [2; 4; 6] \/ has_key Z.sub z [1; 4; 9].
Proof.
  destruct (merge_sorted_correct 8 true true true 0 Z.sub ltac:(lia) sample_heap vec_246 [2; 4; 6] vec_149 [1; 4; 9] _ 2 6 1 9 world_246 sorted_246 sorted_149)
    as (h' & v' & l' & r & E & Hr & _ & S & K); try done; try (split; vm_compute; congruence).
  by exists h', v', l', r.
Defined.

(** The items of a vector, read back. *)
Definition contents (r : outcome (@heap Z * VectorImpl * Z)) : option (list (option Z) * Z) :=
  match r with
  | Done (h, v, res) =>
      match mStorage v with
      | Some p => match bufs h !! p with Some sb => Some (take (Z.to_nat (mCount v)) (slots sb), res) | None => None end
      | None => Some ([], res)
      end
  | Crash _ => None
  end.

(** Merging {6, 8} into {2, 4, 6}: the ends that are compared first are equal,
    the vectors are appended, and 6 is in the result twice. *)
Theorem merge_equal_ends_duplicates :
  let h := mk_heap {[1 := mk_sb 1 32 [Some 2; Some 4; Some 6; None]; 2 := mk_sb 1 32 [Some 6; Some 8; None; None]]} (mk_alloc 3 (fun _ => false)) in
  contents (merge_sorted 8 true true true 0 Z.sub h (mk_vec (Some 1) 3) (mk_vec (Some 2) 2)) =
    Some ([Some 2; Some 4; Some 6; Some 6; Some 8], 3).
Proof. vm_compute. reflexivity. Qed.

(** Merging into an empty vector compares with an item that does not exist. *)
Theorem merge_into_empty_crashes :
  let h := mk_heap {[2 := mk_sb 1 32 [Some 6; Some 8; None; None]]} (mk_alloc 3 (fun _ => false)) in
  merge_sorted 8 true true true 0 Z.sub h empty_vec (mk_vec (Some 2) 2) = Crash BadPointer.
Proof. vm_compute. reflexivity. Qed.
