(* ===== verification/Bitops.v ===== *)
(** lib/ext2fs/bitops.c and bitops.h: bits in an array of bytes, the number of
    bits that are set, and the two routines on byte arrays that the bitmaps
    share, [ext2fs_mem_is_zero] and the test whether a range of bits is clear. *)

From S2P Require Import Prelude.

Local Open Scope Z_scope.

(** * Memory *)

(** [addr[i]]: leaving the array is an error of the program. *)
Definition load (addr : list Z) (i : Z) : outcome Z :=
  if i <? 0 then Crash BadPointer
  else match addr !! Z.to_nat i with Some b => Done b | None => Crash BadPointer end.

Definition store (addr : list Z) (i b : Z) : outcome (list Z) :=
  if (0 <=? i) && (i <? Z.of_nat (length addr)) then Done (<[Z.to_nat i := b]> addr)
  else Crash BadPointer.

(** The [n] bytes from [i] on, as [memcpy] and [memcmp] read them. *)
Definition load_bytes (addr : list Z) (i n : Z) : outcome (list Z) :=
  if (0 <=? i) && (i + n <=? Z.of_nat (length addr)) && (0 <=? n)
  then Done (take (Z.to_nat n) (drop (Z.to_nat i) addr))
  else Crash BadPointer.

(** [memcpy(addr + i, bs, n)] and [memset] *)
Definition store_bytes (addr : list Z) (i : Z) (bs : list Z) : outcome (list Z) :=
  if (0 <=? i) && (i + Z.of_nat (length bs) <=? Z.of_nat (length addr))
  then Done (splice addr (Z.to_nat i) bs)
  else Crash BadPointer.

(** Little-endian fields of structures in memory. *)
Definition get32 (buf : list Z) (off : Z) : outcome Z := let* bs := load_bytes buf off 4 in Done (le_decode bs).
Definition get16 (buf : list Z) (off : Z) : outcome Z := let* bs := load_bytes buf off 2 in Done (le_decode bs).
Definition get8 (buf : list Z) (off : Z) : outcome Z := let* bs := load_bytes buf off 1 in Done (le_decode bs).
Definition put32 (buf : list Z) (off v : Z) : outcome (list Z) := store_bytes buf off (le_encode 4 v).
Definition put16 (buf : list Z) (off v : Z) : outcome (list Z) := store_bytes buf off (le_encode 2 v).

(** * bitops.c *)

Definition ext2fs_set_bit64 (nr : Z) (addr : list Z) : outcome (Z * list Z) :=
  let i := Z.shiftr nr 3 in
  let mask := Z.shiftl 1 (Z.land nr 7) in
  let* b := load addr i in
  let* addr := store addr i (Z.lor b mask) in
  Done (Z.land mask b, addr).

Definition ext2fs_clear_bit64 (nr : Z) (addr : list Z) : outcome (Z * list Z) :=
  let i := Z.shiftr nr 3 in
  let mask := Z.shiftl 1 (Z.land nr 7) in
  let* b := load addr i in
  let* addr := store addr i (Z.land b (Z.lnot mask)) in
  Done (Z.land mask b, addr).

Definition ext2fs_test_bit64 (nr : Z) (addr : list Z) : outcome Z :=
  let i := Z.shiftr nr 3 in
  let mask := Z.shiftl 1 (Z.land nr 7) in
  let* b := load addr i in
  Done (Z.land mask b).

Definition ext2fs_fast_set_bit64 (nr : Z) (addr : list Z) : outcome (list Z) :=
  let i := Z.shiftr nr 3 in
  let* b := load addr i in
  store addr i (Z.lor b (u8 (Z.shiftl 1 (Z.land nr 7)))).

Definition ext2fs_fast_clear_bit64 (nr : Z) (addr : list Z) : outcome (list Z) :=
  let i := Z.shiftr nr 3 in
  let* b := load addr i in
  store addr i (Z.land b (u8 (Z.lnot (Z.shiftl 1 (Z.land nr 7))))).

(** The functions without [64] take an [unsigned int] and are otherwise the same
    text. *)
Definition ext2fs_set_bit (nr : Z) (addr : list Z) : outcome (Z * list Z) := ext2fs_set_bit64 (u32 nr) addr.
Definition ext2fs_clear_bit (nr : Z) (addr : list Z) : outcome (Z * list Z) := ext2fs_clear_bit64 (u32 nr) addr.
Definition ext2fs_test_bit (nr : Z) (addr : list Z) : outcome Z := ext2fs_test_bit64 (u32 nr) addr.
Definition ext2fs_fast_set_bit (nr : Z) (addr : list Z) : outcome (list Z) := ext2fs_fast_set_bit64 (u32 nr) addr.
Definition ext2fs_fast_clear_bit (nr : Z) (addr : list Z) : outcome (list Z) := ext2fs_fast_clear_bit64 (u32 nr) addr.

Definition popcount8 (w : Z) : Z :=
  let res := u32 (w - Z.land (Z.shiftr w 1) 0x55) in
  let res := u32 (Z.land res 0x33 + Z.land (Z.shiftr res 2) 0x33) in
  Z.land (u32 (res + Z.shiftr res 4)) 0x0F.

Definition popcount32 (w : Z) : Z :=
  let res := u32 (w - Z.land (Z.shiftr w 1) 0x55555555) in
  let res := u32 (Z.land res 0x33333333 + Z.land (Z.shiftr res 2) 0x33333333) in
  let res := Z.land (u32 (res + Z.shiftr res 4)) 0x0F0F0F0F in
  let res := u32 (res + Z.shiftr res 8) in
  Z.land (u32 (res + Z.shiftr res 16)) 0x000000FF.

(** The three loops of [ext2fs_bitcount]; [cp] is the address, of which the
    first loop reads the last bits, [i] the index of the byte it points to. *)
Fixpoint bitcount_align (fuel : nat) (addr : list Z) (cp i nbytes res : Z)
  : outcome (Z * Z * Z) :=
  match fuel with
  | O => Crash OutOfFuel
  | S fuel =>
      if negb (Z.land (cp + i) 3 =? 0) && (0 <? nbytes) then
        let* b := load addr i in
        bitcount_align fuel addr cp (i + 1) (nbytes - 1) (u32 (res + popcount8 b))
      else Done (i, nbytes, res)
  end.

Fixpoint bitcount_words (fuel : nat) (addr : list Z) (i nbytes res : Z) : outcome (Z * Z * Z) :=
  match fuel with
  | O => Crash OutOfFuel
  | S fuel =>
      if 4 <? nbytes then
        let* bs := load_bytes addr i 4 in
        bitcount_words fuel addr (i + 4) (nbytes - 4) (u32 (res + popcount32 (le_decode bs)))
      else Done (i, nbytes, res)
  end.

Fixpoint bitcount_bytes (fuel : nat) (addr : list Z) (i nbytes res : Z) : outcome Z :=
  match fuel with
  | O => Crash OutOfFuel
  | S fuel =>
      if 0 <? nbytes then
        let* b := load addr i in
        bitcount_bytes fuel addr (i + 1) (nbytes - 1) (u32 (res + popcount8 b))
      else Done res
  end.

Definition ext2fs_bitcount (cp : Z) (addr : list Z) (nbytes : Z) : outcome Z :=
  let fuel := S (Z.to_nat nbytes) in
  let* (i, nbytes, res) := bitcount_align fuel addr cp 0 nbytes 0 in
  let* (i, nbytes, res) := bitcount_words fuel addr i nbytes res in
  bitcount_bytes fuel addr i nbytes res.

(** * gen_bitmap.c: routines on the bytes of a bitmap *)

Definition all_zero (bs : list Z) : bool := forallb (fun b => b =? 0) bs.

(** [ext2fs_mem_is_zero(addr + i, len)]: compares 256 bytes at a time. *)
Fixpoint ext2fs_mem_is_zero (fuel : nat) (addr : list Z) (i len : Z) : outcome Z :=
  match fuel with
  | O => Crash OutOfFuel
  | S fuel =>
      if 256 <=? len then
        let* bs := load_bytes addr i 256 in
        if negb (all_zero bs) then Done 0
        else ext2fs_mem_is_zero fuel addr (i + 256) (len - 256)
      else if negb (len =? 0) then
        let* bs := load_bytes addr i len in
        Done (if all_zero bs then 1 else 0)
      else Done 1
  end.

(** [for (i = n; i > 0; i--, mark_bit--) acc |= 1 << mark_bit] *)
Fixpoint mark_bits (n : nat) (mark_bit acc : Z) : Z :=
  match n with
  | O => acc
  | S n => mark_bits n (mark_bit - 1) (Z.lor acc (Z.shiftl 1 mark_bit))
  end.

(** The common body of [ba_test_clear_bmap_extent] and
    [ext2fs_test_clear_generic_bitmap_range]: [start] counts from the first bit
    of the array, [len] is an [unsigned int].  Its second half, from a byte
    boundary on: *)
Definition test_clear_bytes (ADDR : list Z) (start_byte len_byte len_bit : Z) : outcome Z :=
  let mem_is_zero := ext2fs_mem_is_zero (S (Z.to_nat len_byte)) ADDR start_byte len_byte in
  if negb (len_bit =? 0) then
    let last_bit := mark_bits (Z.to_nat len_bit) (len_bit - 1) 0 in
    let* b := load ADDR (start_byte + len_byte) in
    if negb (Z.land last_bit b =? 0) then Done 0
    else if len_byte =? 0 then Done 1
    else mem_is_zero
  else mem_is_zero.

Definition test_clear_bits (ADDR : list Z) (start len : Z) : outcome Z :=
  let start_byte := Z.shiftr start 3 in
  let start_bit := start mod 8 in
  if negb (start_bit =? 0) then
    let (mark_count, mark_bit) :=
      if len <? 8 - start_bit then (len, len + start_bit - 1) else (8 - start_bit, 7) in
    let first_bit := mark_bits (Z.to_nat mark_count) mark_bit 0 in
    let* b := load ADDR start_byte in
    if negb (Z.land first_bit b =? 0) then Done 0
    else if len <=? 8 - start_bit then Done 1
    else test_clear_bytes ADDR (start_byte + 1) (Z.shiftr (len - mark_count) 3) ((len - mark_count) mod 8)
  else test_clear_bytes ADDR start_byte (Z.shiftr len 3) (len mod 8).

(** * What the arrays stand for *)

(** Bit [n] of an array; outside it is clear. *)
Definition bit (addr : list Z) (n : Z) : bool :=
  Z.testbit (default 0 (addr !! Z.to_nat (n / 8))) (n mod 8).

(** [addr'] is [addr] with bit [i] changed by [f i]. *)
Definition updated (addr addr' : list Z) (f : Z -> bool -> bool) : Prop :=
  length addr' = length addr /\ bytes_ok addr' /\
  forall i, 0 <= i -> bit addr' i = f i (bit addr i).

Lemma updated_trans a b c f g :
  updated a b f -> updated b c g -> updated a c (fun i x => g i (f i x)).
Proof.
  intros (? & ? & Hf) (? & ? & Hg). split; [congruence|]. split; [done|].
  intros i Hi. rewrite Hg, Hf by done. done.
Qed.

Lemma updated_ext a b f g :
  updated a b f -> (forall i x, 0 <= i -> f i x = g i x) -> updated a b g.
Proof. intros (? & ? & Hf) E. do 2 (split; [done|]). intros i Hi. rewrite Hf, E; done. Qed.

Lemma updated_refl a : bytes_ok a -> updated a a (fun _ x => x).
Proof. done. Qed.

Lemma bytes_ok_default l i : bytes_ok l -> is_u8 (default 0 (l !! i)).
Proof.
  intros H. destruct (l !! i) as [b|] eqn:E; simpl; [|range_lia].
  apply (proj1 (Forall_lookup _ _) H _ _ E).
Qed.

Lemma load_ok addr i : 0 <= i < Z.of_nat (length addr) ->
  load addr i = Done (default 0 (addr !! Z.to_nat i)).
Proof.
  intros H. unfold load. destruct (Z.ltb_spec i 0); [lia|].
  destruct (addr !! Z.to_nat i) eqn:E; [done|]. apply lookup_ge_None in E. lia.
Qed.

Lemma store_ok addr i b : 0 <= i < Z.of_nat (length addr) -> store addr i b = Done (<[Z.to_nat i := b]> addr).
Proof.
  intros H. unfold store.
  destruct (Z.leb_spec 0 i); [|lia]. destruct (Z.ltb_spec i (Z.of_nat (length addr))); [done|lia].
Qed.

(** The bit a byte number and an offset name. *)
Lemma bit_byte addr i k : 0 <= i -> 0 <= k < 8 ->
  bit addr (8 * i + k) = Z.testbit (default 0 (addr !! Z.to_nat i)) k.
Proof.
  intros Hi Hk. unfold bit.
  replace ((8 * i + k) / 8) with i by (apply Z.div_unique with k; lia).
  replace ((8 * i + k) mod 8) with k by (apply Z.mod_unique with i; lia). done.
Qed.

Lemma insert_updated addr i b f :
  bytes_ok addr -> 0 <= i < Z.of_nat (length addr) -> is_u8 b ->
  (forall k, 0 <= k < 8 -> Z.testbit b k = f (8 * i + k) (bit addr (8 * i + k))) ->
  (forall j x, 0 <= j -> j / 8 <> i -> f j x = x) ->
  updated addr (<[Z.to_nat i := b]> addr) f.
Proof.
  intros Hok Hi Hb Hin Hout. split; [apply length_insert|].
  split; [apply Forall_insert; done|]. intros j Hj.
  pose proof (Z.div_mod j 8). pose proof (Z.mod_pos_bound j 8).
  destruct (decide (j / 8 = i)) as [E|E].
  - assert (Ej : j = 8 * i + j mod 8) by lia. rewrite Ej, <- Hin by lia.
    rewrite bit_byte by lia. rewrite list_lookup_insert_eq by lia. done.
  - rewrite Hout by done. unfold bit. rewrite list_lookup_insert_ne; [done|].
    intros E'. apply E. pose proof (Z.div_pos j 8). lia.
Qed.

Lemma shiftr_3 n : Z.shiftr n 3 = n / 8.
Proof. rewrite Z.shiftr_div_pow2 by lia. done. Qed.

Lemma land_7 n : Z.land n 7 = n mod 8.
Proof. change 7 with (Z.ones 3). rewrite Z.land_ones by lia. done. Qed.

Lemma testbit_mask k i : 0 <= k -> Z.testbit (Z.shiftl 1 k) i = (i =? k).
Proof.
  intros Hk. rewrite Z.shiftl_1_l, Z.pow2_bits_eqb by lia. apply Z.eqb_sym.
Qed.

Lemma land_mask k b : 0 <= k -> (Z.land (Z.shiftl 1 k) b <> 0 <-> Z.testbit b k = true).
Proof.
  intros Hk. split.
  - intros H. destruct (Z.testbit b k) eqn:E; [done|]. destruct H. apply Z.bits_inj'. intros i Hi.
    rewrite Z.land_spec, testbit_mask, Z.bits_0 by lia.
    destruct (Z.eqb_spec i k); subst; rewrite ?E; done.
  - intros E H. assert (Ht : Z.testbit (Z.land (Z.shiftl 1 k) b) k = true).
    { rewrite Z.land_spec, testbit_mask, E, Z.eqb_refl by lia. done. }
    rewrite H, Z.bits_0 in Ht. done.
Qed.

Lemma u8_bits z : (forall i, 8 <= i -> Z.testbit z i = false) -> is_u8 z.
Proof.
  intros H. assert (E : z = u8 z); [|rewrite E; apply u8_range].
  apply Z.bits_inj'. intros i Hi. unfold u8. destruct (Z.lt_ge_cases i 8).
  - rewrite Z.mod_pow2_bits_low by lia. done.
  - rewrite Z.mod_pow2_bits_high, H by lia. done.
Qed.

Lemma u8_bits_high z i : is_u8 z -> 8 <= i -> Z.testbit z i = false.
Proof. intros Hz. apply (testbit_high 8). exact Hz. Qed.

(** * The operations on a bit *)

Section bit_operations.
Context (addr : list Z) (nr : Z) (Hok : bytes_ok addr)
        (Hnr : 0 <= nr < 8 * Z.of_nat (length addr)).

Let i := nr / 8.
Let k := nr mod 8.

Lemma bit_index : 0 <= i < Z.of_nat (length addr) /\ 0 <= k < 8 /\ nr = 8 * i + k.
Proof using Hnr.
  unfold i, k. pose proof (Z.div_mod nr 8). pose proof (Z.mod_pos_bound nr 8).
  assert (0 <= nr / 8) by (apply Z.div_pos; lia).
  assert (nr / 8 < Z.of_nat (length addr)) by (apply Z.div_lt_upper_bound; lia). lia.
Qed.

Lemma test_bit64_ok :
  exists r, ext2fs_test_bit64 nr addr = Done r /\ (r <> 0 <-> bit addr nr = true).
Proof using Hnr.
  destruct bit_index as (Hi & Hk & E). unfold ext2fs_test_bit64. rewrite shiftr_3, land_7.
  fold i k. rewrite load_ok by lia. simpl. eexists. split; [done|].
  rewrite land_mask by lia. rewrite E, bit_byte by lia. done.
Qed.

Lemma lor_mask_updated :
  updated addr (<[Z.to_nat i := Z.lor (default 0 (addr !! Z.to_nat i)) (Z.shiftl 1 k)]> addr)
    (fun j x => (j =? nr) || x).
Proof using Hok Hnr.
  destruct bit_index as (Hi & Hk & E). pose proof (bytes_ok_default addr (Z.to_nat i) Hok) as Hb.
  apply insert_updated; [done|done| | |].
  - apply u8_bits. intros j Hj. rewrite Z.lor_spec, testbit_mask, u8_bits_high by (done || lia).
    destruct (Z.eqb_spec j k); [lia|done].
  - intros j Hj. rewrite Z.lor_spec, testbit_mask, bit_byte by lia. rewrite orb_comm. f_equal.
    destruct (Z.eqb_spec j k), (Z.eqb_spec (8 * i + j) nr); lia || done.
  - intros j x Hj Hne. destruct (Z.eqb_spec j nr); [subst j; done|done].
Qed.

Lemma land_lnot_updated :
  updated addr (<[Z.to_nat i := Z.land (default 0 (addr !! Z.to_nat i)) (Z.lnot (Z.shiftl 1 k))]> addr)
    (fun j x => negb (j =? nr) && x).
Proof using Hok Hnr.
  destruct bit_index as (Hi & Hk & E). pose proof (bytes_ok_default addr (Z.to_nat i) Hok) as Hb.
  apply insert_updated; [done|done| | |].
  - apply u8_bits. intros j Hj. rewrite Z.land_spec, u8_bits_high by done. done.
  - intros j Hj. rewrite Z.land_spec, Z.lnot_spec, testbit_mask, bit_byte by lia. rewrite andb_comm.
    f_equal. destruct (Z.eqb_spec j k), (Z.eqb_spec (8 * i + j) nr); lia || done.
  - intros j x Hj Hne. destruct (Z.eqb_spec j nr); [subst j; done|done].
Qed.

Lemma set_bit64_ok :
  exists r addr', ext2fs_set_bit64 nr addr = Done (r, addr') /\ (r <> 0 <-> bit addr nr = true) /\
    updated addr addr' (fun j x => (j =? nr) || x).
Proof using Hok Hnr.
  destruct bit_index as (Hi & Hk & E). unfold ext2fs_set_bit64. rewrite shiftr_3, land_7. fold i k.
  rewrite load_ok by lia. simpl. rewrite store_ok by lia. simpl. do 2 eexists. split; [done|].
  split; [|apply lor_mask_updated]. rewrite land_mask by lia. rewrite E, bit_byte by lia. done.
Qed.

Lemma clear_bit64_ok :
  exists r addr', ext2fs_clear_bit64 nr addr = Done (r, addr') /\ (r <> 0 <-> bit addr nr = true) /\
    updated addr addr' (fun j x => negb (j =? nr) && x).
Proof using Hok Hnr.
  destruct bit_index as (Hi & Hk & E). unfold ext2fs_clear_bit64. rewrite shiftr_3, land_7. fold i k.
  rewrite load_ok by lia. simpl. rewrite store_ok by lia. simpl. do 2 eexists. split; [done|].
  split; [|apply land_lnot_updated]. rewrite land_mask by lia. rewrite E, bit_byte by lia. done.
Qed.

Lemma fast_set_bit64_ok :
  exists addr', ext2fs_fast_set_bit64 nr addr = Done addr' /\ updated addr addr' (fun j x => (j =? nr) || x).
Proof using Hok Hnr.
  destruct bit_index as (Hi & Hk & E). unfold ext2fs_fast_set_bit64. rewrite shiftr_3, land_7. fold i k.
  rewrite load_ok by lia. simpl. rewrite store_ok by lia. eexists. split; [done|].
  rewrite u8_small; [apply lor_mask_updated|].
  apply u8_bits. intros j Hj. rewrite testbit_mask by lia. destruct (Z.eqb_spec j k); [lia|done].
Qed.

Lemma fast_clear_bit64_ok :
  exists addr', ext2fs_fast_clear_bit64 nr addr = Done addr' /\
    updated addr addr' (fun j x => negb (j =? nr) && x).
Proof using Hok Hnr.
  destruct bit_index as (Hi & Hk & E). pose proof (bytes_ok_default addr (Z.to_nat i) Hok) as Hb.
  unfold ext2fs_fast_clear_bit64. rewrite shiftr_3, land_7. fold i k.
  rewrite load_ok by lia. simpl. rewrite store_ok by lia. eexists. split; [done|].
  replace (Z.land _ (u8 _)) with (Z.land (default 0 (addr !! Z.to_nat i)) (Z.lnot (Z.shiftl 1 k)));
    [apply land_lnot_updated|].
  apply Z.bits_inj'. intros j Hj. rewrite !Z.land_spec. unfold u8. destruct (Z.lt_ge_cases j 8).
  - rewrite Z.mod_pow2_bits_low by lia. done.
  - rewrite u8_bits_high by done. done.
Qed.
End bit_operations.

(** * Ranges of bits *)

(** No bit of the [len] bits from [start] on is set. *)
Definition clear_range (addr : list Z) (start len : Z) : Prop :=
  forall i, start <= i < start + len -> bit addr i = false.

Lemma clear_range_app addr s a b : 0 <= a -> 0 <= b ->
  clear_range addr s (a + b) <-> clear_range addr s a /\ clear_range addr (s + a) b.
Proof.
  intros Ha Hb. unfold clear_range. split; [intros H; split; intros i Hi; apply H; lia|].
  intros [H1 H2] i Hi. destruct (Z.lt_ge_cases i (s + a)); [apply H1|apply H2]; lia.
Qed.

Lemma load_bytes_ok addr i n : 0 <= i -> 0 <= n -> i + n <= Z.of_nat (length addr) ->
  load_bytes addr i n = Done (take (Z.to_nat n) (drop (Z.to_nat i) addr)).
Proof.
  intros. unfold load_bytes.
  destruct (Z.leb_spec 0 i); [|lia]. destruct (Z.leb_spec (i + n) (Z.of_nat (length addr))); [|lia].
  destruct (Z.leb_spec 0 n); [done|lia].
Qed.

Lemma byte_zero b : is_u8 b -> (b = 0 <-> forall k, 0 <= k < 8 -> Z.testbit b k = false).
Proof.
  intros Hb. split; [intros -> k _; apply Z.bits_0|]. intros H. apply Z.bits_inj'. intros k Hk.
  rewrite Z.bits_0. destruct (Z.lt_ge_cases k 8); [apply H; lia|apply u8_bits_high; done].
Qed.

Lemma all_zero_clear addr i n : bytes_ok addr -> 0 <= i -> 0 <= n -> i + n <= Z.of_nat (length addr) ->
  all_zero (take (Z.to_nat n) (drop (Z.to_nat i) addr)) = true <-> clear_range addr (8 * i) (8 * n).
Proof.
  intros Hok Hi Hn Hle. unfold all_zero. rewrite forallb_forall. split.
  - intros H j Hj. pose proof (Z.div_mod j 8). pose proof (Z.mod_pos_bound j 8).
    pose proof (Z.div_le_lower_bound j 8 i). pose proof (Z.div_lt_upper_bound j 8 (i + n)).
    unfold bit. destruct (addr !! Z.to_nat (j / 8)) as [b|] eqn:E; simpl; [|apply Z.bits_0].
    assert (Hb : (b =? 0) = true).
    { apply H. rewrite <- list_elem_of_In. apply list_elem_of_lookup. exists (Z.to_nat (j / 8 - i)).
      rewrite lookup_take, lookup_drop.
      rewrite decide_True by lia. replace (_ + _)%nat with (Z.to_nat (j / 8)) by lia. done. }
    apply Z.eqb_eq in Hb. rewrite Hb. apply Z.bits_0.
  - intros H b Hb. rewrite <- list_elem_of_In in Hb. apply list_elem_of_lookup in Hb as [k Hk].
    pose proof (lookup_lt_Some _ _ _ Hk) as Hlt. rewrite length_take, length_drop in Hlt.
    rewrite lookup_take, decide_True, lookup_drop in Hk by lia.
    apply Z.eqb_eq, byte_zero; [apply (proj1 (Forall_lookup _ _) Hok _ _ Hk)|].
    intros m Hm. rewrite <- (H (8 * (i + Z.of_nat k) + m)) by lia. rewrite bit_byte by lia.
    replace (Z.to_nat (i + Z.of_nat k)) with (Z.to_nat i + k)%nat by lia. rewrite Hk. done.
Qed.

Lemma mem_is_zero_ok fuel addr i len :
  bytes_ok addr -> 0 <= i -> 0 <= len -> i + len <= Z.of_nat (length addr) -> (Z.to_nat len < fuel)%nat ->
  exists r, ext2fs_mem_is_zero fuel addr i len = Done r /\ (r = 0 \/ r = 1) /\
    (r = 1 <-> clear_range addr (8 * i) (8 * len)).
Proof.
  intros Hok. revert i len. induction fuel as [|fuel IH]; intros i len Hi Hl Hle Hf; [lia|].
  simpl. destruct (Z.leb_spec 256 len).
  - rewrite load_bytes_ok by lia. simpl.
    pose proof (all_zero_clear addr i 256 Hok Hi ltac:(lia) ltac:(lia)) as Hz.
    pose proof (clear_range_app addr (8 * i) (8 * 256) (8 * (len - 256)) ltac:(lia) ltac:(lia)) as Ha.
    replace (8 * 256 + 8 * (len - 256)) with (8 * len) in Ha by lia.
    change (Z.to_nat 256) with 256%nat in Hz.
    destruct (all_zero _); simpl.
    + destruct (IH (i + 256) (len - 256)) as (r & E & Hr & Hiff); [lia..|].
      exists r. split; [done|]. split; [done|]. rewrite Hiff, Ha.
      replace (8 * (i + 256)) with (8 * i + 8 * 256) by lia. tauto.
    + exists 0. split; [done|]. split; [auto|]. rewrite Ha. intuition congruence || lia.
  - destruct (Z.eqb_spec len 0) as [->|]; simpl.
    + exists 1. split; [done|]. split; [auto|]. split; [|done]. intros _ j Hj. lia.
    + rewrite load_bytes_ok by lia. simpl. eexists. split; [done|].
      rewrite <- all_zero_clear by (done || lia). destruct (all_zero _); intuition lia || done.
Qed.

Lemma testbit_mark_bits n m acc j : Z.of_nat n <= m + 1 -> 0 <= j ->
  Z.testbit (mark_bits n m acc) j = Z.testbit acc j || ((m - Z.of_nat n <? j) && (j <=? m)).
Proof.
  revert m acc. induction n as [|n IH]; intros m acc Hn Hj; cbn [mark_bits].
  - destruct (Z.ltb_spec (m - Z.of_nat 0) j), (Z.leb_spec j m); try lia; simpl; rewrite orb_false_r; done.
  - rewrite IH, Z.lor_spec, testbit_mask by lia.
    replace (m - 1 - Z.of_nat n) with (m - Z.of_nat (S n)) by lia.
    destruct (Z.testbit acc j); [done|]. simpl.
    destruct (Z.eqb_spec j m), (Z.ltb_spec (m - Z.of_nat (S n)) j), (Z.leb_spec j (m - 1)), (Z.leb_spec j m);
      simpl; done || lia.
Qed.

(** A byte masked with [n] bits up to [m]. *)
Lemma masked_byte addr i n m :
  0 <= i -> 0 <= n <= m + 1 -> m < 8 ->
  Z.land (mark_bits (Z.to_nat n) m 0) (default 0 (addr !! Z.to_nat i)) = 0 <->
  clear_range addr (8 * i + m + 1 - n) n.
Proof.
  intros Hi Hn Hm. split.
  - intros H j Hj. assert (Hz : Z.testbit 0 (j - 8 * i) = false) by apply Z.bits_0.
    rewrite <- H, Z.land_spec, testbit_mark_bits, Z.bits_0, <- bit_byte in Hz by lia.
    replace (8 * i + (j - 8 * i)) with j in Hz by lia.
    destruct (Z.ltb_spec (m - Z.of_nat (Z.to_nat n)) (j - 8 * i)), (Z.leb_spec (j - 8 * i) m);
      try lia. done.
  - intros H. apply Z.bits_inj'. intros j Hj. rewrite Z.land_spec, testbit_mark_bits, Z.bits_0 by lia.
    destruct (Z.ltb_spec (m - Z.of_nat (Z.to_nat n)) j), (Z.leb_spec j m); simpl; try done.
    rewrite <- bit_byte by lia. apply H. lia.
Qed.

(** A result that is 1 when [P] holds and 0 when it does not. *)
Definition decides (m : outcome Z) (P : Prop) : Prop :=
  exists r, m = Done r /\ (r = 0 \/ r = 1) /\ (r = 1 <-> P).

Lemma test_clear_bytes_ok addr sb lb k :
  bytes_ok addr -> 0 <= sb -> 0 <= lb -> 0 <= k < 8 -> 8 * (sb + lb) + k <= 8 * Z.of_nat (length addr) ->
  decides (test_clear_bytes addr sb lb k) (clear_range addr (8 * sb) (8 * lb + k)).
Proof.
  intros Hok Hsb Hlb Hk Hle. unfold test_clear_bytes.
  destruct (mem_is_zero_ok (S (Z.to_nat lb)) addr sb lb) as (r & Er & Hr & Hiff); [done|lia..|].
  rewrite Er. pose proof (clear_range_app addr (8 * sb) (8 * lb) k ltac:(lia) ltac:(lia)) as Ha.
  destruct (Z.eqb_spec k 0) as [->|]; cbn [negb].
  { exists r. split; [done|]. split; [done|]. rewrite Z.add_0_r. done. }
  rewrite load_ok by lia. cbn [obind].
  pose proof (masked_byte addr (sb + lb) k (k - 1) ltac:(lia) ltac:(lia) ltac:(lia)) as Hm.
  replace (8 * (sb + lb) + (k - 1) + 1 - k) with (8 * sb + 8 * lb) in Hm by lia.
  destruct (Z.eqb_spec (Z.land (mark_bits (Z.to_nat k) (k - 1) 0)
                          (default 0 (addr !! Z.to_nat (sb + lb)))) 0) as [Ez|Ez]; cbn [negb].
  - destruct (Z.eqb_spec lb 0) as [->|].
    + exists 1. split; [done|]. split; [auto|]. split; [|done]. intros _. apply Ha. split; [|tauto].
      intros j Hj. lia.
    + exists r. split; [done|]. split; [done|]. rewrite Hiff, Ha. tauto.
  - exists 0. split; [done|]. split; [auto|]. split; [lia|]. tauto.
Qed.

Lemma test_clear_bits_ok addr start len :
  bytes_ok addr -> 0 <= start -> 0 <= len -> start + len <= 8 * Z.of_nat (length addr) ->
  decides (test_clear_bits addr start len) (clear_range addr start len).
Proof.
  intros Hok Hs Hl Hle. unfold test_clear_bits. rewrite shiftr_3.
  pose proof (Z.div_mod start 8). pose proof (Z.mod_pos_bound start 8). pose proof (Z.div_pos start 8).
  set (sb := start / 8) in *. set (k := start mod 8) in *.
  destruct (Z.eqb_spec k 0); cbn [negb].
  { rewrite shiftr_3. pose proof (Z.div_mod len 8). pose proof (Z.mod_pos_bound len 8).
    pose proof (Z.div_pos len 8).
    destruct (test_clear_bytes_ok addr sb (len / 8) (len mod 8)) as (r & E & Hr); [done|lia..|].
    exists r. replace start with (8 * sb) by lia. replace len with (8 * (len / 8) + len mod 8) at 3 by lia.
    done. }
  destruct (if len <? 8 - k then _ else _) as [c m] eqn:Ec.
  assert (Hcm : c = Z.min len (8 - k) /\ m + 1 - c = k).
  { destruct (Z.ltb_spec len (8 - k)); injection Ec as <- <-; lia. }
  pose proof (masked_byte addr sb c m ltac:(lia) ltac:(lia) ltac:(lia)) as Hm.
  replace (8 * sb + m + 1 - c) with start in Hm by lia.
  rewrite load_ok by lia. cbn [obind].
  destruct (Z.eqb_spec (Z.land (mark_bits (Z.to_nat c) m 0) (default 0 (addr !! Z.to_nat sb))) 0)
    as [Ez|Ez]; cbn [negb].
  2: { exists 0. split; [done|]. split; [auto|]. split; [lia|]. intros Hc. destruct Ez. apply Hm.
       intros j Hj. apply Hc. lia. }
  destruct (Z.leb_spec len (8 - k)).
  { exists 1. split; [done|]. split; [auto|]. split; [|done]. intros _ j Hj. apply Hm; [done|lia]. }
  rewrite shiftr_3. set (d := len - c).
  pose proof (Z.div_mod d 8). pose proof (Z.mod_pos_bound d 8). pose proof (Z.div_pos d 8).
  destruct (test_clear_bytes_ok addr (sb + 1) (d / 8) (d mod 8)) as (r & E & Hr & Hiff); [done|lia..|].
  exists r. split; [done|]. split; [done|]. rewrite Hiff.
  replace (8 * (sb + 1)) with (start + c) by lia. replace (8 * (d / 8) + d mod 8) with (len - c) by lia.
  replace len with (c + (len - c)) at 2 by lia. rewrite clear_range_app by lia. tauto.
Qed.

(** * Counting bits *)

(** How many of the [n] numbers from [s] on satisfy [f]. *)
Fixpoint count_bits (f : Z -> bool) (s : Z) (n : nat) : Z :=
  match n with
  | O => 0
  | S n => (if f s then 1 else 0) + count_bits f (s + 1) n
  end.

Lemma count_bits_app f s a b :
  count_bits f s (a + b) = count_bits f s a + count_bits f (s + Z.of_nat a) b.
Proof.
  revert s. induction a as [|a IH]; intros s; cbn [count_bits Nat.add].
  - rewrite Z.add_0_r. done.
  - rewrite IH. replace (s + 1 + Z.of_nat a) with (s + Z.of_nat (S a)) by lia. lia.
Qed.

Lemma count_bits_ext f g s t n :
  (forall i, 0 <= i < Z.of_nat n -> f (s + i) = g (t + i)) -> count_bits f s n = count_bits g t n.
Proof.
  revert s t. induction n as [|n IH]; intros s t H; cbn [count_bits]; [done|].
  pose proof (H 0 ltac:(lia)) as H0. rewrite !Z.add_0_r in H0. rewrite H0. f_equal.
  apply IH. intros i Hi. rewrite <- !Z.add_assoc. apply H. lia.
Qed.

Lemma count_bits_range f s n : 0 <= count_bits f s n <= Z.of_nat n.
Proof. revert s. induction n as [|n IH]; intros s; cbn [count_bits]; [lia|]. specialize (IH (s + 1)). destruct (f s); lia. Qed.

Definition ones (b : Z) : Z := count_bits (Z.testbit b) 0 8.

Lemma popcount8_ok b : is_u8 b -> popcount8 b = ones b.
Proof.
  intros Hb. apply Z.eqb_eq. apply (forall_range (fun b => popcount8 b =? ones b) 256); [|exact Hb].
  vm_compute. done.
Qed.

Lemma land_range w a b : 0 <= w -> 0 <= b < 2 ^ w -> 0 <= Z.land a b < 2 ^ w.
Proof.
  intros Hw Hb. assert (E : Z.land a b = Z.land a b mod 2 ^ w).
  { apply Z.bits_inj'. intros i Hi. destruct (Z.lt_ge_cases i w).
    - rewrite Z.mod_pow2_bits_low by lia. done.
    - rewrite Z.mod_pow2_bits_high, Z.land_spec, (testbit_high w b) by lia. apply andb_false_r. }
  rewrite E. apply Z.mod_pos_bound. lia.
Qed.

(** Numbers as lists of four-bit digits. *)
Section digits.
Fixpoint digits (l : list Z) : Z := match l with [] => 0 | d :: l => d + 16 * digits l end.

Lemma digit_bits d y i : 0 <= d < 16 -> 0 <= i ->
  Z.testbit (d + 16 * y) i = if i <? 4 then Z.testbit d i else Z.testbit y (i - 4).
Proof.
  intros Hd Hi. replace (d + 16 * y) with (y * 2 ^ 4 + d) by lia.
  rewrite <- lor_high_low, Z.lor_spec, <- Z.shiftl_mul_pow2 by lia.
  destruct (Z.ltb_spec i 4).
  - rewrite (Z.shiftl_spec_low y) by lia. done.
  - rewrite (testbit_high 4 d), Z.shiftl_spec by lia. apply orb_false_r.
Qed.

Lemma land_shift_digit s d y m mm :
  0 <= s -> 0 <= d < 16 -> 0 <= m < 2 ^ (4 - s) -> s <= 4 ->
  Z.land (Z.shiftr (d + 16 * y) s) (m + 16 * mm) =
  Z.land (Z.shiftr d s) m + 16 * Z.land (Z.shiftr y s) mm.
Proof.
  intros Hs Hd Hm Hs4.
  assert (Hm16 : 0 <= m < 16).
  { split; [lia|]. apply Z.lt_le_trans with (2 ^ (4 - s)); [lia|].
    change 16 with (2 ^ 4). apply Z.pow_le_mono_r; lia. }
  assert (Hl : 0 <= Z.land (Z.shiftr d s) m < 16).
  { apply (land_range 4); lia. }
  apply Z.bits_inj'. intros i Hi.
  rewrite Z.land_spec, Z.shiftr_spec, !digit_bits by lia.
  destruct (Z.ltb_spec i 4).
  - rewrite Z.land_spec, Z.shiftr_spec by lia. destruct (Z.ltb_spec (i + s) 4); [done|].
    rewrite (testbit_high (4 - s) m i) by lia. rewrite !andb_false_r. done.
  - destruct (Z.ltb_spec (i + s) 4); [lia|]. rewrite Z.land_spec, Z.shiftr_spec by lia.
    f_equal. f_equal. lia.
Qed.

Lemma land_shift_digits s l ms :
  0 <= s <= 4 -> Forall (fun d => 0 <= d < 16) l -> Forall (fun m => 0 <= m < 2 ^ (4 - s)) ms ->
  length l = length ms ->
  Z.land (Z.shiftr (digits l) s) (digits ms) = digits (zip_with (fun d m => Z.land (Z.shiftr d s) m) l ms).
Proof.
  intros Hs Hl. revert ms. induction Hl as [|d l Hd Hl IH]; intros ms Hms E; destruct ms as [|m ms]; try discriminate E.
  { apply Z.land_0_r. }
  apply Forall_cons in Hms as [Hm Hms]. injection E as E. cbn [digits zip_with].
  rewrite land_shift_digit, IH by (done || lia). done.
Qed.
End digits.

(** The number of bits of a digit, as the first two lines of [popcount32] find it. *)
Definition pop4 (d : Z) : Z :=
  let r := d - Z.land (Z.shiftr d 1) 5 in Z.land (Z.shiftr r 0) 3 + Z.land (Z.shiftr r 2) 3.

Lemma pop4_range d : 0 <= d < 16 ->
  0 <= d - Z.land (Z.shiftr d 1) 5 < 16 /\ 0 <= pop4 d <= 4.
Proof.
  intros Hd.
  assert (H : ((0 <=? d - Z.land (Z.shiftr d 1) 5) && (d - Z.land (Z.shiftr d 1) 5 <? 16) &&
               (0 <=? pop4 d) && (pop4 d <=? 4)) = true); [|lia].
  apply (forall_range (fun d => (0 <=? d - Z.land (Z.shiftr d 1) 5) &&
    (d - Z.land (Z.shiftr d 1) 5 <? 16) && (0 <=? pop4 d) && (pop4 d <=? 4)) 16); [|exact Hd].
  vm_compute. done.
Qed.

Lemma ones_pop4 b : is_u8 b -> ones b = pop4 (b mod 16) + pop4 (b / 16).
Proof.
  intros Hb. apply Z.eqb_eq.
  apply (forall_range (fun b => ones b =? pop4 (b mod 16) + pop4 (b / 16)) 256); [|exact Hb].
  vm_compute. done.
Qed.

(** The lines of [popcount32], digit by digit. *)
Section popcount32_lines.
Context (a0 a1 a2 a3 a4 a5 a6 a7 : Z).
Let l := [a0; a1; a2; a3; a4; a5; a6; a7].
Context (Hl : Forall (fun d => 0 <= d < 16) l).

Lemma popcount32_line1 :
  u32 (digits l - Z.land (Z.shiftr (digits l) 1) 0x55555555) =
  digits ((fun d => d - Z.land (Z.shiftr d 1) 5) <$> l).
Proof using Hl.
  pose proof (Forall_impl _ _ _ Hl pop4_range) as Hr. change 0x55555555 with (digits (replicate 8 5)).
  rewrite (land_shift_digits 1) by (done || lia || (repeat constructor; lia)).
  subst l. cbn [replicate zip_with digits fmap list_fmap].
  repeat (apply Forall_cons in Hr as [? Hr]). rewrite u32_small by range_lia. lia.
Qed.

Lemma popcount32_line2 :
  let r := digits ((fun d => d - Z.land (Z.shiftr d 1) 5) <$> l) in
  u32 (Z.land r 0x33333333 + Z.land (Z.shiftr r 2) 0x33333333) = digits (pop4 <$> l).
Proof using Hl.
  pose proof (Forall_impl _ _ _ Hl pop4_range) as Hr. intros r.
  rewrite <- (Z.shiftr_0_r r) at 1. subst r. change 0x33333333 with (digits (replicate 8 3)).
  rewrite (land_shift_digits 0), (land_shift_digits 2);
    try (done || lia || (repeat constructor; lia) ||
         (apply Forall_fmap; eapply Forall_impl; [exact Hr|]; simpl; tauto)).
  subst l. cbn [replicate zip_with digits fmap list_fmap].
  repeat (apply Forall_cons in Hr as [? Hr]). unfold pop4 in *. rewrite u32_small by range_lia. lia.
Qed.

Lemma popcount32_line3 :
  Forall (fun d => 0 <= d <= 4) l ->
  Z.land (u32 (digits l + Z.shiftr (digits l) 4)) 0x0F0F0F0F =
  a0 + a1 + 256 * (a2 + a3) + 65536 * (a4 + a5) + 16777216 * (a6 + a7).
Proof using.
  intros Hb. subst l. repeat (apply Forall_cons in Hb as [? Hb]).
  replace (Z.shiftr _ 4) with (digits [a1; a2; a3; a4; a5; a6; a7]).
  2: { rewrite Z.shiftr_div_pow2 by lia. cbn [digits]. apply Z.div_unique with a0; lia. }
  replace (u32 _) with (digits [a0 + a1; a1 + a2; a2 + a3; a3 + a4; a4 + a5; a5 + a6; a6 + a7; a7]).
  2: { cbn [digits]. rewrite u32_small by range_lia. lia. }
  change 0x0F0F0F0F with (digits [15; 0; 15; 0; 15; 0; 15; 0]).
  rewrite <- (Z.shiftr_0_r (digits [a0 + a1; _; _; _; _; _; _; _])), (land_shift_digits 0)
    by (done || lia || (repeat constructor; lia)).
  cbn [zip_with]. rewrite !Z.shiftr_0_r, !Z.land_0_r.
  change 15 with (Z.ones 4). rewrite !Z.land_ones, !Z.mod_small by lia. cbn [digits]. lia.
Qed.
End popcount32_lines.

(** The last two lines add the four bytes. *)
Lemma popcount32_line4 q0 q1 q2 q3 :
  0 <= q0 <= 8 -> 0 <= q1 <= 8 -> 0 <= q2 <= 8 -> 0 <= q3 <= 8 ->
  let res := q0 + 256 * q1 + 65536 * q2 + 16777216 * q3 in
  let res := u32 (res + Z.shiftr res 8) in
  Z.land (u32 (res + Z.shiftr res 16)) 0xFF = q0 + q1 + q2 + q3.
Proof.
  intros H0 H1 H2 H3 res. cbv zeta. change 0xFF with (Z.ones 8). rewrite Z.land_ones, !Z.shiftr_div_pow2 by lia.
  replace (res / 2 ^ 8) with (q1 + 256 * q2 + 65536 * q3)
    by (unfold res; apply Z.div_unique with q0; lia).
  rewrite (u32_small (res + _)) by (unfold res; range_lia).
  replace ((res + _) / 2 ^ 16) with (q2 + q3 + 256 * q3)
    by (unfold res; apply Z.div_unique with (q0 + q1 + 256 * (q1 + q2)); lia).
  rewrite u32_small by (unfold res; range_lia).
  symmetry. unfold res. apply Z.mod_unique with (q1 + q2 + q3 + 256 * (q2 + q3) + 65536 * q3); lia.
Qed.

Lemma popcount32_ok b0 b1 b2 b3 :
  bytes_ok [b0; b1; b2; b3] ->
  popcount32 (le_decode [b0; b1; b2; b3]) = ones b0 + ones b1 + ones b2 + ones b3.
Proof.
  intros Hb. repeat (apply Forall_cons in Hb as [? Hb]).
  rewrite !ones_pop4 by done.
  assert (Hh : forall b, is_u8 b -> b = b mod 16 + 16 * (b / 16) /\ 0 <= b mod 16 < 16 /\ 0 <= b / 16 < 16).
  { intros b Hu. unfold is_u8 in Hu. div_lia. }
  pose proof (Hh b0 ltac:(done)) as (E0 & ? & ?). pose proof (Hh b1 ltac:(done)) as (E1 & ? & ?).
  pose proof (Hh b2 ltac:(done)) as (E2 & ? & ?). pose proof (Hh b3 ltac:(done)) as (E3 & ? & ?).
  replace (le_decode _) with (digits [b0 mod 16; b0 / 16; b1 mod 16; b1 / 16; b2 mod 16; b2 / 16; b3 mod 16; b3 / 16])
    by (cbn [digits le_decode]; lia).
  unfold popcount32. rewrite popcount32_line1, popcount32_line2 by (repeat constructor; lia).
  cbn [fmap list_fmap]. rewrite popcount32_line3 by (repeat constructor; apply pop4_range; done).
  rewrite popcount32_line4; [lia|..];
    match goal with |- 0 <= pop4 ?x + pop4 ?y <= 8 =>
      pose proof (pop4_range x); pose proof (pop4_range y); lia end.
Qed.

(** The bits set in the first [i] bytes. *)
Definition ones_before (addr : list Z) (i : Z) : Z := count_bits (bit addr) 0 (8 * Z.to_nat i).

Lemma ones_before_step addr i : 0 <= i ->
  ones_before addr (i + 1) = ones_before addr i + ones (default 0 (addr !! Z.to_nat i)).
Proof.
  intros Hi. unfold ones_before. replace (8 * Z.to_nat (i + 1))%nat with (8 * Z.to_nat i + 8)%nat by lia.
  rewrite count_bits_app. f_equal. apply count_bits_ext. intros k Hk.
  rewrite <- bit_byte by lia. f_equal. lia.
Qed.

Section bitcount_loops.
Context (addr : list Z) (n : Z) (Hok : bytes_ok addr)
        (Hn : n <= Z.of_nat (length addr)) (Hbits : 8 * n < 2 ^ 32).

Lemma ones_before_small i : 0 <= i <= n -> is_u32 (ones_before addr i).
Proof using Hbits.
  intros Hi. unfold ones_before. pose proof (count_bits_range (bit addr) 0 (8 * Z.to_nat i)). range_lia.
Qed.

Lemma count_one i : 0 <= i < n ->
  load addr i = Done (default 0 (addr !! Z.to_nat i)) /\
  u32 (ones_before addr i + popcount8 (default 0 (addr !! Z.to_nat i))) = ones_before addr (i + 1).
Proof using Hok Hn Hbits.
  intros Hi. split; [apply load_ok; lia|].
  rewrite popcount8_ok, <- ones_before_step by (apply bytes_ok_default || lia; done).
  apply u32_small, ones_before_small. lia.
Qed.

Lemma bitcount_align_ok cp fuel i : 0 <= i <= n -> (Z.to_nat (n - i) < fuel)%nat ->
  exists j, i <= j <= n /\
    bitcount_align fuel addr cp i (n - i) (ones_before addr i) = Done (j, n - j, ones_before addr j).
Proof using Hok Hn Hbits.
  revert i. induction fuel as [|fuel IH]; intros i Hi Hf; [lia|]. cbn [bitcount_align].
  destruct (negb _ && _) eqn:E; [|exists i; split; [lia|done]].
  apply andb_true_iff in E as [_ E]. apply Z.ltb_lt in E.
  destruct (count_one i) as [-> Eu]; [lia|]. cbn [obind]. rewrite Eu.
  replace (n - i - 1) with (n - (i + 1)) by lia.
  destruct (IH (i + 1)) as (j & Hj & Ej); [lia..|]. exists j. split; [lia|done].
Qed.

Lemma bitcount_words_ok fuel i : 0 <= i <= n -> (Z.to_nat (n - i) < fuel)%nat ->
  exists j, i <= j <= n /\
    bitcount_words fuel addr i (n - i) (ones_before addr i) = Done (j, n - j, ones_before addr j).
Proof using Hok Hn Hbits.
  revert i. induction fuel as [|fuel IH]; intros i Hi Hf; [lia|]. cbn [bitcount_words].
  destruct (Z.ltb_spec 4 (n - i)); [|exists i; split; [lia|done]].
  rewrite load_bytes_ok by lia. cbn [obind].
  assert (Hw : popcount32 (le_decode (take (Z.to_nat 4) (drop (Z.to_nat i) addr))) =
               ones_before addr (i + 4) - ones_before addr i).
  { pose proof (bytes_ok_take (Z.to_nat 4) _ (bytes_ok_drop (Z.to_nat i) _ Hok)) as Ht.
    assert (Hd : forall k, 0 <= k < 4 ->
      default 0 (addr !! Z.to_nat (i + k)) = default 0 (take (Z.to_nat 4) (drop (Z.to_nat i) addr) !! Z.to_nat k)).
    { intros k Hk. rewrite lookup_take, decide_True, lookup_drop by lia. do 2 f_equal. lia. }
    assert (Hlen : length (take (Z.to_nat 4) (drop (Z.to_nat i) addr)) = 4%nat)
      by (rewrite length_take, length_drop; lia).
    replace (i + 4) with (i + 1 + 1 + 1 + 1) by lia. rewrite !ones_before_step by lia.
    replace (i + 1 + 1 + 1) with (i + 3) by lia. replace (i + 1 + 1) with (i + 2) by lia.
    pose proof (Hd 0 ltac:(lia)) as H0. rewrite Z.add_0_r in H0.
    rewrite H0, (Hd 1), (Hd 2), (Hd 3) by lia.
    destruct (take (Z.to_nat 4) _) as [|b0 [|b1 [|b2 [|b3 [|]]]]]; try discriminate Hlen.
    rewrite popcount32_ok by done.
    change (default 0 ([b0; b1; b2; b3] !! Z.to_nat 0)) with b0.
    change (default 0 ([b0; b1; b2; b3] !! Z.to_nat 1)) with b1.
    change (default 0 ([b0; b1; b2; b3] !! Z.to_nat 2)) with b2.
    change (default 0 ([b0; b1; b2; b3] !! Z.to_nat 3)) with b3. lia. }
  rewrite Hw. replace (ones_before addr i + _) with (ones_before addr (i + 4)) by lia.
  rewrite u32_small by (apply ones_before_small; lia).
  replace (n - i - 4) with (n - (i + 4)) by lia.
  destruct (IH (i + 4)) as (j & Hj & Ej); [lia..|]. exists j. split; [lia|done].
Qed.

Lemma bitcount_bytes_ok fuel i : 0 <= i <= n -> (Z.to_nat (n - i) < fuel)%nat ->
  bitcount_bytes fuel addr i (n - i) (ones_before addr i) = Done (ones_before addr n).
Proof using Hok Hn Hbits.
  revert i. induction fuel as [|fuel IH]; intros i Hi Hf; [lia|]. cbn [bitcount_bytes].
  destruct (Z.ltb_spec 0 (n - i)); [|replace i with n by lia; done].
  destruct (count_one i) as [-> Eu]; [lia|]. cbn [obind]. rewrite Eu.
  replace (n - i - 1) with (n - (i + 1)) by lia. apply IH; lia.
Qed.
End bitcount_loops.

(** ext2fs_bitcount, which takes bytes up to a word boundary and then four
    bytes at a time with sums inside of words, returns the number of bits that
    are set in the first bytes of the array, whatever the alignment of the
    array. *)
Theorem bitcount_correct cp addr n :
  bytes_ok addr -> 0 <= n <= Z.of_nat (length addr) -> 8 * n < 2 ^ 32 ->
  ext2fs_bitcount cp addr n = Done (count_bits (bit addr) 0 (8 * Z.to_nat n)).
Proof.
  intros Hok Hn Hb. unfold ext2fs_bitcount.
  replace (bitcount_align (S (Z.to_nat n)) addr cp 0 n 0) with
    (bitcount_align (S (Z.to_nat n)) addr cp 0 (n - 0) (ones_before addr 0)) by (f_equal; lia || done).
  destruct (bitcount_align_ok addr n Hok ltac:(lia) Hb cp (S (Z.to_nat n)) 0) as (i & Hi & ->); [lia..|].
  cbn [obind].
  destruct (bitcount_words_ok addr n Hok ltac:(lia) Hb (S (Z.to_nat n)) i) as (j & Hj & ->); [lia..|].
  cbn [obind]. apply (bitcount_bytes_ok addr n Hok); lia.
Qed.

Lemma bitcount_correct_witness :
  ext2fs_bitcount 3 [255; 1; 0; 129; 7; 16; 3; 0; 64] 9 = Done 18.
Proof. rewrite (bitcount_correct 3 [255; 1; 0; 129; 7; 16; 3; 0; 64] 9); [reflexivity|repeat constructor; lia|simpl; lia|lia]. Defined.
