(* ===== verification/BlockIo.v ===== *)
(** Parts of buffers, and the interface of the functions that read and write blocks of
    a device: [io_channel_read_blk64] and [io_channel_write_blk64].  Directories and
    files are verified against the interface, unix_io.c implements it. *)

From S2P Require Import Prelude Bitops.

Local Open Scope Z_scope.

(** * Parts of lists *)

Lemma lookup_splice {A} (l : list A) k bs j : (k + length bs <= length l)%nat ->
  splice l k bs !! j = if decide (k <= j < k + length bs)%nat then bs !! (j - k)%nat else l !! j.
Proof.
  intros Hk. unfold splice. destruct (decide (k <= j < k + length bs)%nat) as [Hi|Ho].
  - rewrite lookup_app_r, length_take by (rewrite length_take; lia). rewrite lookup_app_l by lia. f_equal. lia.
  - destruct (decide (j < k)%nat).
    + rewrite lookup_app_l by (rewrite length_take; lia). apply lookup_take_lt. done.
    + rewrite lookup_app_r, length_take by (rewrite length_take; lia). rewrite lookup_app_r by lia. rewrite lookup_drop. f_equal. lia.
Qed.

Definition part {A} (l : list A) (i n : nat) : list A := take n (drop i l).

Lemma lookup_part {A} (l : list A) i n j : part l i n !! j = if decide (j < n)%nat then l !! (i + j)%nat else None.
Proof.
  unfold part. destruct (decide (j < n)%nat).
  - rewrite lookup_take_lt by done. apply lookup_drop.
  - apply lookup_ge_None_2. rewrite length_take. lia.
Qed.

Lemma length_part {A} (l : list A) i n : (i + n <= length l)%nat -> length (part l i n) = n.
Proof. intros. unfold part. rewrite length_take, length_drop. lia. Qed.

Lemma part_part {A} (l : list A) i n j m : (j + m <= n)%nat -> part (part l i n) j m = part l (i + j) m.
Proof.
  intros Hm. apply list_eq. intros k. rewrite !lookup_part. destruct (decide (k < m)%nat); [|done].
  destruct (decide (j + k < n)%nat); [|lia]. f_equal. lia.
Qed.

Lemma part_splice_in {A} (l : list A) i n k bs : (i <= k)%nat -> (k + length bs <= i + n)%nat -> (i + n <= length l)%nat ->
  part (splice l k bs) i n = splice (part l i n) (k - i) bs.
Proof.
  intros. apply list_eq. intros j. rewrite lookup_part, !lookup_splice by (rewrite ?length_part; lia). rewrite lookup_part.
  destruct (decide (j < n)%nat).
  - destruct (decide (k <= i + j < k + length bs)%nat), (decide (k - i <= j < k - i + length bs)%nat); try lia; [f_equal; lia|done].
  - destruct (decide (k - i <= j < k - i + length bs)%nat); [lia|done].
Qed.

Lemma part_splice_out {A} (l : list A) i n k bs : (k + length bs <= i \/ i + n <= k)%nat -> (k + length bs <= length l)%nat ->
  part (splice l k bs) i n = part l i n.
Proof.
  intros. apply list_eq. intros j. rewrite !lookup_part, lookup_splice by lia. destruct (decide (j < n)%nat); [|done].
  destruct (decide (k <= i + j < k + length bs)%nat); [lia|done].
Qed.

Lemma part_splice_same {A} (l : list A) k bs : (k + length bs <= length l)%nat -> part (splice l k bs) k (length bs) = bs.
Proof.
  intros. apply list_eq. intros j. rewrite lookup_part, lookup_splice by lia. destruct (decide (j < length bs)%nat).
  - destruct (decide (k <= k + j < k + length bs)%nat); [|lia]. f_equal. lia.
  - by rewrite lookup_ge_None_2 by lia.
Qed.

Lemma load_part l i n : 0 <= i -> 0 <= n -> i + n <= Z.of_nat (length l) -> load_bytes l i n = Done (part l (Z.to_nat i) (Z.to_nat n)).
Proof. intros. unfold load_bytes, part. destruct (Z.leb_spec 0 i), (Z.leb_spec (i + n) (Z.of_nat (length l))), (Z.leb_spec 0 n); try lia. done. Qed.

Lemma store_splice l i bs : 0 <= i -> i + Z.of_nat (length bs) <= Z.of_nat (length l) -> store_bytes l i bs = Done (splice l (Z.to_nat i) bs).
Proof. intros. unfold store_bytes. destruct (Z.leb_spec 0 i), (Z.leb_spec (i + Z.of_nat (length bs)) (Z.of_nat (length l))); try lia. done. Qed.

Lemma bytes_ok_splice l k bs : bytes_ok l -> bytes_ok bs -> bytes_ok (splice l k bs).
Proof. intros. unfold splice. rewrite !bytes_ok_app. auto using bytes_ok_take, bytes_ok_drop. Qed.

Lemma bytes_ok_part l i n : bytes_ok l -> bytes_ok (part l i n).
Proof. intros. by apply bytes_ok_take, bytes_ok_drop. Qed.

(** * Blocks of a device *)

(** A channel that reads and writes blocks: [io_channel_read_blk64] and
    [io_channel_write_blk64] with [count] 1. *)
Class BlockIo (S : Type) := {
  read_blk : S -> Z -> outcome (Z * list Z * S);
  write_blk : S -> Z -> list Z -> outcome (Z * S) }.

(** What the directory functions need of a channel: it holds some blocks, gives
    back what was written last, and has no errors. *)
Class BlockIoLaws (S : Type) `{BlockIo S} := {
  io_rep : S -> gmap Z (list Z) -> Prop;
  io_read s d b bs : io_rep s d -> d !! b = Some bs -> exists s', read_blk s b = Done (0, bs, s') /\ io_rep s' d;
  io_write s d b bs data : io_rep s d -> d !! b = Some bs -> length data = length bs ->
    exists s', write_blk s b data = Done (0, s') /\ io_rep s' (<[b := data]> d) }.
