(* ===== verification/Bitmap32.v ===== *)
(** lib/ext2fs/gen_bitmap.c: bitmaps with 32-bit numbers, kept as an array of
    bytes.  The functions here take the structure itself; handed a 64-bit bitmap
    the ones for single numbers call their namesakes of GenBitmap.v. *)

From S2P Require Import Prelude Bitops.

Local Open Scope Z_scope.

Definition EXT2_ET_NO_MEMORY : Z := 2133571398.
Definition EXT2_ET_INVALID_ARGUMENT : Z := 2133571399.
Definition EXT2_ET_MAGIC_BLOCK_BITMAP : Z := 2133571336.
Definition EXT2_ET_MAGIC_INODE_BITMAP : Z := 2133571337.
Definition EXT2_ET_MAGIC_GENERIC_BITMAP : Z := 2133571338.
Definition EXT2_ET_MAGIC_GENERIC_BITMAP64 : Z := 2133571437.
Definition EXT2_ET_MAGIC_BLOCK_BITMAP64 : Z := 2133571438.
Definition EXT2_ET_MAGIC_INODE_BITMAP64 : Z := 2133571439.
Definition EXT2_ET_BAD_BLOCK_MARK : Z := 2133571373.
Definition EXT2_ET_BAD_INODE_MARK : Z := 2133571376.
Definition EXT2_ET_BAD_GENERIC_MARK : Z := 2133571389.
Definition EINVAL : Z := 22.
Definition ENOENT : Z := 2.

Definition EXT2FS_IS_32_BITMAP (magic : Z) : bool :=
  (magic =? EXT2_ET_MAGIC_GENERIC_BITMAP) || (magic =? EXT2_ET_MAGIC_BLOCK_BITMAP) ||
  (magic =? EXT2_ET_MAGIC_INODE_BITMAP).

Definition EXT2FS_IS_64_BITMAP (magic : Z) : bool :=
  (magic =? EXT2_ET_MAGIC_GENERIC_BITMAP64) || (magic =? EXT2_ET_MAGIC_BLOCK_BITMAP64) ||
  (magic =? EXT2_ET_MAGIC_INODE_BITMAP64).

(** [struct ext2fs_struct_generic_bitmap_32]; [bitmap] is the allocated array. *)
Record bitmap32 := mk_bitmap32 {
  magic : Z;
  start : Z;
  end_ : Z;
  real_end : Z;
  description : option string;
  bitmap : list Z;
  base_error_code : Z }.

Definition set_bitmap (b : bitmap32) (l : list Z) : bitmap32 :=
  mk_bitmap32 (magic b) (start b) (end_ b) (real_end b) (description b) l (base_error_code b).

Definition set_ends (b : bitmap32) (e re : Z) : bitmap32 :=
  mk_bitmap32 (magic b) (start b) e re (description b) (bitmap b) (base_error_code b).

(** * Creation *)

(** Memory is requested for the structure, the description and the array;
    [init_map] is a buffer of which as many bytes are read as the array has. *)
Definition ext2fs_make_generic_bitmap (al : allocator) (mg st en re : Z) (descr : option string)
    (init_map : option (list Z)) : outcome (Z * option bitmap32 * allocator) :=
  let (p, al) := malloc al in
  match p with
  | None => Done (EXT2_ET_NO_MEMORY, None, al)
  | Some _ =>
      let base := if mg =? EXT2_ET_MAGIC_INODE_BITMAP then EXT2_ET_BAD_INODE_MARK
                  else if mg =? EXT2_ET_MAGIC_BLOCK_BITMAP then EXT2_ET_BAD_BLOCK_MARK
                  else EXT2_ET_BAD_GENERIC_MARK in
      let (d, al) := match descr with Some _ => malloc al | None => (Some 0, al) end in
      match d with
      | None => Done (EXT2_ET_NO_MEMORY, None, al)
      | Some _ =>
          let size := u32 (re - st) / 8 + 1 in
          let size := Z.land (size + 7) (Z.lnot 3) in
          let (p, al) := malloc al in
          match p with
          | None => Done (EXT2_ET_NO_MEMORY, None, al)
          | Some _ =>
              let* map := match init_map with
                          | Some l => load_bytes l 0 size
                          | None => Done (replicate (Z.to_nat size) 0)
                          end in
              Done (0, Some (mk_bitmap32 mg st en re descr map base), al)
          end
      end
  end.

Definition ext2fs_allocate_generic_bitmap (al : allocator) (st en re : Z) (descr : option string) :=
  ext2fs_make_generic_bitmap al EXT2_ET_MAGIC_GENERIC_BITMAP st en re descr None.

Definition ext2fs_copy_generic_bitmap (al : allocator) (src : bitmap32) :=
  ext2fs_make_generic_bitmap al (magic src) (start src) (end_ src) (real_end src)
    (description src) (Some (bitmap src)).

(** * Single bits *)

Definition ext2fs_test_generic_bitmap (b : bitmap32) (bitno : Z) : outcome Z :=
  if negb (EXT2FS_IS_32_BITMAP (magic b)) then Done 0
  else if (bitno <? start b) || (end_ b <? bitno) then Done 0
  else ext2fs_test_bit (bitno - start b) (bitmap b).

Definition ext2fs_mark_generic_bitmap (b : bitmap32) (bitno : Z) : outcome (Z * bitmap32) :=
  if negb (EXT2FS_IS_32_BITMAP (magic b)) then Done (0, b)
  else if (bitno <? start b) || (end_ b <? bitno) then Done (0, b)
  else let* (r, l) := ext2fs_set_bit (bitno - start b) (bitmap b) in Done (r, set_bitmap b l).

Definition ext2fs_unmark_generic_bitmap (b : bitmap32) (bitno : Z) : outcome (Z * bitmap32) :=
  if negb (EXT2FS_IS_32_BITMAP (magic b)) then Done (0, b)
  else if (bitno <? start b) || (end_ b <? bitno) then Done (0, b)
  else let* (r, l) := ext2fs_clear_bit (bitno - start b) (bitmap b) in Done (r, set_bitmap b l).

Definition ext2fs_get_generic_bitmap_start (b : bitmap32) : Z :=
  if negb (EXT2FS_IS_32_BITMAP (magic b)) then 0 else start b.

Definition ext2fs_get_generic_bitmap_end (b : bitmap32) : Z :=
  if negb (EXT2FS_IS_32_BITMAP (magic b)) then 0 else end_ b.

(** * The whole bitmap *)

Definition ext2fs_clear_generic_bitmap (b : bitmap32) : outcome bitmap32 :=
  if negb (EXT2FS_IS_32_BITMAP (magic b)) then Done b
  else
    let* l := store_bytes (bitmap b) 0 (replicate (Z.to_nat (u32 (real_end b - start b) / 8 + 1)) 0) in
    Done (set_bitmap b l).

(** [None]: the old end was not stored. *)
Definition ext2fs_fudge_generic_bitmap_end (b : bitmap32) (mg neq en : Z) : Z * option Z * bitmap32 :=
  if negb (magic b =? mg) then (mg, None, b)
  else if real_end b <? en then (neq, None, b)
  else (0, Some (end_ b), set_ends b en (real_end b)).

(** [for (; bitno > end; bitno--) ext2fs_clear_bit(bitno - start, bitmap)] *)
Fixpoint clear_bits_down (fuel : nat) (l : list Z) (st en bitno : Z) : outcome (list Z) :=
  match fuel with
  | O => Crash OutOfFuel
  | S fuel =>
      if en <? bitno then
        let* (_, l) := ext2fs_clear_bit (bitno - st) l in
        clear_bits_down fuel l st en (bitno - 1)
      else Done l
  end.

(** [fresh] are the bytes [realloc] finds behind the old array. *)
Definition ext2fs_resize_generic_bitmap (al : allocator) (fresh : Z -> Z) (mg new_end new_real_end : Z)
    (b : bitmap32) : outcome (Z * bitmap32 * allocator) :=
  if negb (magic b =? mg) then Done (mg, b, al)
  else
    let* l := if end_ b <? new_end
              then clear_bits_down (S (Z.to_nat (real_end b))) (bitmap b) (start b) (end_ b)
                     (Z.min (real_end b) new_end)
              else Done (bitmap b) in
    let b := set_bitmap b l in
    if new_real_end =? real_end b then Done (0, set_ends b new_end (real_end b), al)
    else
      let size := u32 (real_end b - start b) / 8 + 1 in
      let new_size := u32 (new_real_end - start b) / 8 + 1 in
      let (p, al) := if negb (size =? new_size) then malloc al else (Some 0, al) in
      match p with
      | None => Done (EXT2_ET_NO_MEMORY, b, al)
      | Some _ =>
          let l := if negb (size =? new_size)
                   then take (Z.to_nat new_size)
                          (bitmap b ++ (fresh <$> seqZ (Z.of_nat (length (bitmap b))) new_size))
                   else bitmap b in
          let* l := if size <? new_size
                    then store_bytes l size (replicate (Z.to_nat (new_size - size)) 0)
                    else Done l in
          Done (0, set_ends (set_bitmap b l) new_end new_real_end, al)
      end.

(** The loop over the last bits; its tests go through [ext2fs_test_generic_bmap],
    which hands 32-bit bitmaps back to [ext2fs_test_generic_bitmap]. *)
Fixpoint compare_last_bits (fuel : nat) (neq : Z) (b1 b2 : bitmap32) (i : Z) : outcome Z :=
  match fuel with
  | O => Crash OutOfFuel
  | S fuel =>
      if i <=? end_ b1 then
        let* r1 := ext2fs_test_generic_bitmap b1 i in
        let* r2 := ext2fs_test_generic_bitmap b2 i in
        if negb (r1 =? r2) then Done neq else compare_last_bits fuel neq b1 b2 (u32 (i + 1))
      else Done 0
  end.

Definition ext2fs_compare_generic_bitmap (mg neq : Z) (b1 b2 : bitmap32) : outcome Z :=
  if negb (magic b1 =? mg) then Done mg
  else if negb (magic b2 =? mg) then Done mg
  else if negb (start b1 =? start b2) || negb (end_ b1 =? end_ b2) then Done neq
  else
    let n := u32 (end_ b1 - start b1) / 8 in
    let* l1 := load_bytes (bitmap b1) 0 n in
    let* l2 := load_bytes (bitmap b2) 0 n in
    if negb (bool_decide (l1 = l2)) then Done neq
    else compare_last_bits 9 neq b1 b2 (end_ b1 - u32 (end_ b1 - start b1) mod 8).

Fixpoint set_padding (fuel : nat) (l : list Z) (en re i j : Z) : outcome (list Z) :=
  match fuel with
  | O => Crash OutOfFuel
  | S fuel =>
      if (i <=? re) && (en <? i) then
        let* (_, l) := ext2fs_set_bit j l in
        set_padding fuel l en re (u32 (i + 1)) (u32 (j + 1))
      else Done l
  end.

Definition ext2fs_set_generic_bitmap_padding (b : bitmap32) : outcome bitmap32 :=
  let i := u32 (end_ b + 1) in
  let* l := set_padding (S (Z.to_nat (real_end b))) (bitmap b) (end_ b) (real_end b) i (u32 (i - start b)) in
  Done (set_bitmap b l).

(** * Ranges *)

(** The bytes stored into the buffer, if any. *)
Definition ext2fs_get_generic_bitmap_range (b : bitmap32) (mg st num : Z) : outcome (Z * list Z) :=
  if negb (magic b =? mg) then Done (mg, [])
  else if (st <? start b) || (real_end b <? u32 (st + num - 1)) then Done (EXT2_ET_INVALID_ARGUMENT, [])
  else
    let* l := load_bytes (bitmap b) (Z.shiftr (st - start b) 3) (Z.shiftr (u32 (num + 7)) 3) in
    Done (0, l).

Definition ext2fs_set_generic_bitmap_range (b : bitmap32) (mg st num : Z) (in_ : list Z) : outcome (Z * bitmap32) :=
  if negb (magic b =? mg) then Done (mg, b)
  else if (st <? start b) || (real_end b <? u32 (st + num - 1)) then Done (EXT2_ET_INVALID_ARGUMENT, b)
  else
    let* bs := load_bytes in_ 0 (Z.shiftr (u32 (num + 7)) 3) in
    let* l := store_bytes (bitmap b) (Z.shiftr (st - start b) 3) bs in
    Done (0, set_bitmap b l).

Definition ext2fs_test_clear_generic_bitmap_range (b : bitmap32) (st len : Z) : outcome Z :=
  test_clear_bits (bitmap b) (u32 (st - start b)) len.

(** [while (start <= end)] of the two searches; [want] is the value of the bit
    that is looked for. *)
Fixpoint find_first_loop (fuel : nat) (want : bool) (b : bitmap32) (st en : Z) : outcome (Z * option Z) :=
  match fuel with
  | O => Crash OutOfFuel
  | S fuel =>
      if st <=? en then
        let* r := ext2fs_test_bit (u32 (st - start b)) (bitmap b) in
        if Bool.eqb (negb (r =? 0)) want then Done (0, Some st)
        else find_first_loop fuel want b (u32 (st + 1)) en
      else Done (ENOENT, None)
  end.

Definition ext2fs_find_first_zero_generic_bitmap (b : bitmap32) (st en : Z) : outcome (Z * option Z) :=
  if (st <? start b) || (end_ b <? en) || (en <? st) then Done (EINVAL, None)
  else find_first_loop (S (Z.to_nat (en - st + 1))) false b st en.

Definition ext2fs_find_first_set_generic_bitmap (b : bitmap32) (st en : Z) : outcome (Z * option Z) :=
  if (st <? start b) || (end_ b <? en) || (en <? st) then Done (EINVAL, None)
  else find_first_loop (S (Z.to_nat (en - st + 1))) true b st en.

(** [num] is an [int], [block + num - 1] is computed in 32 bits. *)
Definition ext2fs_test_block_bitmap_range (b : bitmap32) (block num : Z) : outcome Z :=
  if negb (magic b =? EXT2_ET_MAGIC_BLOCK_BITMAP) then Done EXT2_ET_MAGIC_BLOCK_BITMAP
  else if (block <? start b) || (real_end b <? block) || (real_end b <? u32 (block + num - 1)) then Done 0
  else ext2fs_test_clear_generic_bitmap_range b block (u32 num).

Definition ext2fs_test_inode_bitmap_range (b : bitmap32) (inode num : Z) : outcome Z :=
  if negb (magic b =? EXT2_ET_MAGIC_INODE_BITMAP) then Done EXT2_ET_MAGIC_INODE_BITMAP
  else if (inode <? start b) || (real_end b <? inode) || (real_end b <? u32 (inode + num - 1)) then Done 0
  else ext2fs_test_clear_generic_bitmap_range b inode (u32 num).

(** [for (i = 0; i < num; i++) set_bit(block + i - start)] for one of the two
    fast operations. *)
Fixpoint range_loop (op : Z -> list Z -> outcome (list Z)) (n : nat) (nr : Z) (l : list Z) : outcome (list Z) :=
  match n with
  | O => Done l
  | S n => let* l := op nr l in range_loop op n (nr + 1) l
  end.

Definition ext2fs_mark_block_bitmap_range (b : bitmap32) (block num : Z) : outcome bitmap32 :=
  if (block <? start b) || (end_ b <? block) || (end_ b <? u32 (block + num - 1)) then Done b
  else
    let* l := range_loop ext2fs_fast_set_bit (Z.to_nat num) (block - start b) (bitmap b) in
    Done (set_bitmap b l).

Definition ext2fs_unmark_block_bitmap_range (b : bitmap32) (block num : Z) : outcome bitmap32 :=
  if (block <? start b) || (end_ b <? block) || (end_ b <? u32 (block + num - 1)) then Done b
  else
    let* l := range_loop ext2fs_fast_clear_bit (Z.to_nat num) (block - start b) (bitmap b) in
    Done (set_bitmap b l).
