(* ===== verification/Bitmap64.v ===== *)
(** lib/ext2fs/bmap64.h: the structure of 64-bit bitmaps, the table of operations
    a back end provides ([struct ext2_bitmap_ops]), and the laws the rest of the
    library may rely on.  BitArray.v and RbBitmap.v are the two back ends. *)

From S2P Require Import Prelude Bitops.

Local Open Scope Z_scope.

(** * The structure *)

(** [struct ext2fs_struct_generic_bitmap_64].  [private] is [None] until the back
    end has allocated its data. *)
Record bmap64 (P : Type) := mk_bmap {
  magic : Z;
  start : Z;
  end_ : Z;
  real_end : Z;
  cluster_bits : Z;
  description : option string;
  base_error_code : Z;
  private : option P }.
Arguments mk_bmap {P}.
Arguments magic {P}.
Arguments start {P}.
Arguments end_ {P}.
Arguments real_end {P}.
Arguments cluster_bits {P}.
Arguments description {P}.
Arguments base_error_code {P}.
Arguments private {P}.

Definition set_private {P} (b : bmap64 P) (p : P) : bmap64 P :=
  mk_bmap (magic b) (start b) (end_ b) (real_end b) (cluster_bits b) (description b)
    (base_error_code b) (Some p).

Definition set_ends {P} (b : bmap64 P) (e re : Z) : bmap64 P :=
  mk_bmap (magic b) (start b) e re (cluster_bits b) (description b) (base_error_code b) (private b).

(** [bitmap->private], which is dereferenced. *)
Definition get_private {P} (b : bmap64 P) : outcome P :=
  match private b with Some p => Done p | None => Crash BadPointer end.

(** A bitmap and the memory it may allocate from. *)
Definition st (P : Type) : Type := bmap64 P * allocator.

(** [struct ext2_bitmap_ops]: results of type [int] and [errcode_t] are [Z]; the
    searches may be missing. *)
Class BitmapOps (P : Type) := {
  new_bmap : st P -> outcome (Z * st P);
  free_bmap : bmap64 P -> outcome (bmap64 P);
  copy_bmap : bmap64 P -> st P -> outcome (Z * bmap64 P * st P);
  resize_bmap : st P -> Z -> Z -> outcome (Z * st P);
  mark_bmap : st P -> Z -> outcome (Z * st P);
  unmark_bmap : st P -> Z -> outcome (Z * st P);
  test_bmap : bmap64 P -> Z -> outcome (Z * bmap64 P);
  mark_bmap_extent : st P -> Z -> Z -> outcome (st P);
  unmark_bmap_extent : st P -> Z -> Z -> outcome (st P);
  test_clear_bmap_extent : bmap64 P -> Z -> Z -> outcome Z;
  set_bmap_range : st P -> Z -> Z -> list Z -> outcome (Z * st P);
  get_bmap_range : bmap64 P -> Z -> Z -> list Z -> outcome (Z * list Z);
  clear_bmap : bmap64 P -> outcome (bmap64 P);
  find_first_zero : option (bmap64 P -> Z -> Z -> outcome (Z * option Z));
  find_first_set : option (bmap64 P -> Z -> Z -> outcome (Z * option Z)) }.

(** * What a back end promises *)

Definition no_oom (al : allocator) : Prop := forall n, oom al n = false.

(** Memory that has handed out more addresses. *)
Definition later (al al' : allocator) : Prop := next_addr al <= next_addr al' /\ oom al' = oom al.

Definition header_ok {P} (b : bmap64 P) : Prop :=
  0 <= start b <= end_ b /\ end_ b <= real_end b /\ real_end b < 2 ^ 64 - 1.

(** The fields other than [private] are the same. *)
Definition same_header {P} (b b' : bmap64 P) : Prop :=
  magic b' = magic b /\ start b' = start b /\ end_ b' = end_ b /\ real_end b' = real_end b /\
  cluster_bits b' = cluster_bits b /\ description b' = description b /\
  base_error_code b' = base_error_code b.

(** As many numbers, from the same one on. *)
Definition same_size {P} (b d : bmap64 P) : Prop :=
  start d = start b /\ end_ d = end_ b /\ real_end d = real_end b.

Definition in_range (j s n : Z) : bool := (s <=? j) && (j <? s + n).

(** The first of the [n] numbers from [s] on that satisfies [f]. *)
Fixpoint first_from (f : Z -> bool) (n : nat) (s : Z) : option Z :=
  match n with
  | O => None
  | S n => if f s then Some s else first_from f n (s + 1)
  end.

(** A search from [s] to [e], as the functions report it. *)
Definition search (ENOENT : Z) (f : Z -> bool) (s e : Z) : Z * option Z :=
  match first_from f (Z.to_nat (e - s + 1)) s with
  | Some j => (0, Some j)
  | None => (ENOENT, None)
  end.

Definition ENOENT : Z := 2.

Class BitmapLaws (P : Type) `{BitmapOps P} := {
  (** the invariant, and the set the bitmap stands for *)
  ok : st P -> Prop;
  marked : bmap64 P -> Z -> bool;

  ok_header b al : ok (b, al) -> header_ok b /\ no_oom al;
  ok_later b al al' : ok (b, al) -> later al al' -> ok (b, al');
  ok_end b al e : ok (b, al) -> start b <= e <= real_end b ->
    ok (set_ends b e (real_end b), al) /\ forall j, marked (set_ends b e (real_end b)) j = marked b j;
  marked_inside b al j : ok (b, al) -> marked b j = true -> start b <= j <= real_end b;

  new_law b al : header_ok b -> private b = None -> no_oom al ->
    exists b' al', new_bmap (b, al) = Done (0, (b', al')) /\ ok (b', al') /\ same_header b b' /\
      later al al' /\ forall j, marked b' j = false;

  mark_law b al i : ok (b, al) -> start b <= i <= real_end b ->
    exists r b' al', mark_bmap (b, al) i = Done (r, (b', al')) /\ (r <> 0 <-> marked b i = true) /\
      ok (b', al') /\ same_header b b' /\ later al al' /\
      forall j, marked b' j = (j =? i) || marked b j;

  unmark_law b al i : ok (b, al) -> start b <= i <= real_end b ->
    exists r b' al', unmark_bmap (b, al) i = Done (r, (b', al')) /\ (marked b i = true -> r <> 0) /\
      ok (b', al') /\ same_header b b' /\ later al al' /\
      forall j, marked b' j = negb (j =? i) && marked b j;

  test_law b al i : ok (b, al) -> start b <= i <= real_end b ->
    exists r b', test_bmap b i = Done (r, b') /\ (r <> 0 <-> marked b i = true) /\
      ok (b', al) /\ same_header b b' /\ forall j, marked b' j = marked b j;

  mark_extent_law b al i n : ok (b, al) -> start b <= i -> 0 <= n < 2 ^ 32 -> i + n - 1 <= real_end b ->
    exists b' al', mark_bmap_extent (b, al) i n = Done (b', al') /\
      ok (b', al') /\ same_header b b' /\ later al al' /\
      forall j, marked b' j = in_range j i n || marked b j;

  unmark_extent_law b al i n : ok (b, al) -> start b <= i -> 0 <= n < 2 ^ 32 -> i + n - 1 <= real_end b ->
    exists b' al', unmark_bmap_extent (b, al) i n = Done (b', al') /\
      ok (b', al') /\ same_header b b' /\ later al al' /\
      forall j, marked b' j = negb (in_range j i n) && marked b j;

  test_clear_law b al i n : ok (b, al) -> start b <= i -> 0 <= n < 2 ^ 32 -> i + n - 1 <= real_end b ->
    decides (test_clear_bmap_extent b i n) (forall j, i <= j < i + n -> marked b j = false);

  clear_law b al : ok (b, al) ->
    exists b', clear_bmap b = Done b' /\ ok (b', al) /\ same_header b b' /\ forall j, marked b' j = false;

  (** Growing leaves the new numbers clear; behind the new end nothing is
      promised.  A bitmap shrinks to whole bytes. *)
  resize_law b al e re : ok (b, al) -> start b <= e -> e <= re -> re < 2 ^ 64 - 1 ->
    real_end b <= re \/ (re - start b + 1) mod 8 = 0 ->
    exists b' al', resize_bmap (b, al) e re = Done (0, (b', al')) /\
      ok (b', al') /\ same_header (set_ends b e re) b' /\ later al al' /\
      forall j, j <= e -> marked b' j = (j <=? end_ b) && marked b j;

  copy_law b d al : ok (b, al) -> same_size b d -> private d = None ->
    exists b' d' al', copy_bmap b (d, al) = Done (0, b', (d', al')) /\
      ok (b', al') /\ ok (d', al') /\ same_header b b' /\ same_header d d' /\ later al al' /\
      forall j, marked b' j = marked b j /\ marked d' j = marked b j;

  (** Whole bytes are copied in and out, into a part that is clear and out of a
      bitmap that is not empty; a range has fewer than 2^31 numbers, since the
      tree counts it in an [int]. *)
  set_range_law b al s n inp :
    ok (b, al) -> start b < 8 -> (s - start b) mod 8 = 0 -> n mod 8 = 0 -> start b <= s -> 0 <= n < 2 ^ 31 ->
    s + n - 1 <= real_end b -> bytes_ok inp -> n <= 8 * Z.of_nat (length inp) ->
    (forall j, s <= j < s + n -> marked b j = false) ->
    exists b' al', set_bmap_range (b, al) s n inp = Done (0, (b', al')) /\
      ok (b', al') /\ same_header b b' /\ later al al' /\
      forall j, marked b' j = if in_range j s n then bit inp (j - s) else marked b j;

  get_range_law b al s n out :
    ok (b, al) -> start b < 8 -> (s - start b) mod 8 = 0 -> n mod 8 = 0 -> start b <= s -> 0 <= n < 2 ^ 31 ->
    s + n - 1 <= real_end b -> bytes_ok out -> n <= 8 * Z.of_nat (length out) ->
    (exists j, marked b j = true) ->
    exists out', get_bmap_range b s n out = Done (0, out') /\
      updated out out' (fun j x => if in_range j 0 n then marked b (s + j) else x);

  (** An empty bitmap is not searched for a clear bit. *)
  find_zero_law f b al s e : find_first_zero = Some f -> ok (b, al) -> start b <= s <= e -> e <= real_end b ->
    (exists j, marked b j = true) ->
    f b s e = Done (search ENOENT (fun j => negb (marked b j)) s e);

  find_set_law f b al s e : find_first_set = Some f -> ok (b, al) -> start b <= s <= e -> e <= real_end b ->
    f b s e = Done (search ENOENT (marked b) s e) }.

(** * Lemmas on the definitions *)

Lemma same_header_refl {P} (b : bmap64 P) : same_header b b.
Proof. repeat split. Qed.

Lemma same_header_trans {P} (a b c : bmap64 P) : same_header a b -> same_header b c -> same_header a c.
Proof. unfold same_header. intuition congruence. Qed.

Lemma later_refl al : later al al.
Proof. split; [lia|done]. Qed.

Lemma mem_later_trans a b c : later a b -> later b c -> later a c.
Proof. unfold later. intros [? ?] [? ?]. split; [lia|congruence]. Qed.

(** What [malloc] does when there is memory. *)
Definition bump (al : allocator) : allocator := mk_alloc (next_addr al + 1) (oom al).

Lemma mem_malloc_ok al : no_oom al -> malloc al = (Some (next_addr al), bump al).
Proof. intros H. unfold malloc. rewrite H. done. Qed.

Lemma no_oom_bump al : no_oom al -> no_oom (bump al).
Proof. done. Qed.

Lemma later_bump al : later al (bump al).
Proof. split; cbn; [lia|done]. Qed.

Lemma mem_no_oom_later al al' : no_oom al -> later al al' -> no_oom al'.
Proof. intros H [_ E] n. rewrite E. apply H. Qed.

Create HintDb bmap.
#[export] Hint Resolve same_header_refl later_refl : bmap.

Lemma in_range_spec j s n : in_range j s n = true <-> s <= j < s + n.
Proof. unfold in_range. rewrite andb_true_iff, Z.leb_le, Z.ltb_lt. done. Qed.

Lemma in_range_false j s n : in_range j s n = false <-> ~ s <= j < s + n.
Proof. rewrite <- not_true_iff_false, in_range_spec. done. Qed.

Lemma first_from_Some f n s j :
  first_from f n s = Some j <->
  s <= j < s + Z.of_nat n /\ f j = true /\ forall k, s <= k < j -> f k = false.
Proof.
  revert s. induction n as [|n IH]; intros s; cbn [first_from]; [split; [done|lia]|].
  destruct (f s) eqn:E.
  - split; [intros [= <-]; split; [lia|]; split; [done|lia]|].
    intros (Hj & Hf & Hk). f_equal. destruct (Z.eq_dec s j); [done|].
    rewrite Hk in E by lia. done.
  - rewrite IH. split; intros (Hj & Hf & Hk).
    + split; [lia|]. split; [done|]. intros k Hk'. destruct (Z.eq_dec k s); [congruence|]. apply Hk. lia.
    + split; [|split; [done|intros; apply Hk; lia]]. destruct (Z.eq_dec j s); [congruence|lia].
Qed.

Lemma first_from_None f n s :
  first_from f n s = None <-> forall k, s <= k < s + Z.of_nat n -> f k = false.
Proof.
  revert s. induction n as [|n IH]; intros s; cbn [first_from]; [split; [lia|done]|].
  destruct (f s) eqn:E.
  - split; [done|]. intros H. rewrite H in E by lia. done.
  - rewrite IH. split; intros H k Hk; [|apply H; lia].
    destruct (Z.eq_dec k s); [congruence|]. apply H. lia.
Qed.

Lemma first_from_ext f g n s :
  (forall j, s <= j < s + Z.of_nat n -> f j = g j) -> first_from f n s = first_from g n s.
Proof.
  revert s. induction n as [|n IH]; intros s H; cbn [first_from]; [done|].
  rewrite H by lia. rewrite IH; [done|]. intros j Hj. apply H. lia.
Qed.

(** Numbers that do not satisfy [f] can be skipped. *)
Lemma first_from_skip f k n s : (k <= n)%nat ->
  (forall j, s <= j < s + Z.of_nat k -> f j = false) ->
  first_from f n s = first_from f (n - k) (s + Z.of_nat k).
Proof.
  revert n s. induction k as [|k IH]; intros n s Hk Hf.
  - rewrite Nat.sub_0_r, Z.add_0_r. done.
  - destruct n as [|n]; [lia|]. cbn [first_from Nat.sub]. rewrite Hf by lia.
    rewrite IH by (lia || (intros j Hj; apply Hf; lia)). f_equal. lia.
Qed.

Lemma first_from_shift (g : Z -> bool) d n s :
  first_from g n (s + d) = (fun j => j + d) <$> first_from (fun i => g (i + d)) n s.
Proof.
  revert s. induction n as [|n IH]; intros s; cbn [first_from]; [done|].
  destruct (g (s + d)); [done|]. rewrite <- IH. f_equal. lia.
Qed.

Lemma search_ext f g s e : (forall j, s <= j <= e -> f j = g j) -> search ENOENT f s e = search ENOENT g s e.
Proof. intros H. unfold search. rewrite (first_from_ext f g); [done|]. intros j Hj. apply H. lia. Qed.

Lemma search_found f s e j : s <= j <= e -> f j = true -> (forall k, s <= k < j -> f k = false) ->
  search ENOENT f s e = (0, Some j).
Proof.
  intros Hj Hf Hk. unfold search. rewrite (proj2 (first_from_Some f _ s j)); [done|]. split; [lia|]. done.
Qed.

Lemma search_none f s e : (forall k, s <= k <= e -> f k = false) -> search ENOENT f s e = (ENOENT, None).
Proof.
  intros Hk. unfold search. rewrite (proj2 (first_from_None f _ s)); [done|]. intros k Hk'. apply Hk. lia.
Qed.

(** ** Whole bytes *)

Lemma bit_replicate_0 n i : bit (replicate n 0) i = false.
Proof.
  unfold bit. destruct (replicate n 0 !! _) as [x|] eqn:E; [|apply Z.bits_0].
  apply lookup_replicate in E as [-> _]. apply Z.bits_0.
Qed.

Lemma bit_splice l p bs i : 0 <= i -> (p + length bs <= length l)%nat ->
  bit (splice l p bs) i =
  if in_range i (8 * Z.of_nat p) (8 * Z.of_nat (length bs)) then bit bs (i - 8 * Z.of_nat p) else bit l i.
Proof.
  intros Hi Hp. pose proof (Z.div_mod i 8). pose proof (Z.mod_pos_bound i 8). pose proof (Z.div_pos i 8).
  unfold bit, splice. destruct (in_range _ _ _) eqn:E.
  - apply in_range_spec in E.
    replace ((i - 8 * Z.of_nat p) / 8) with (i / 8 - Z.of_nat p) by div_lia.
    replace ((i - 8 * Z.of_nat p) mod 8) with (i mod 8) by div_lia.
    rewrite lookup_app_r by (rewrite length_take; lia). rewrite length_take.
    rewrite lookup_app_l by lia. do 3 f_equal. lia.
  - apply in_range_false in E. destruct (Z.lt_ge_cases (i / 8) (Z.of_nat p)).
    + rewrite lookup_app_l by (rewrite length_take; lia). rewrite lookup_take, decide_True by lia. done.
    + rewrite lookup_app_r by (rewrite length_take; lia). rewrite length_take.
      rewrite lookup_app_r by lia. rewrite lookup_drop. do 3 f_equal. lia.
Qed.

Lemma store_bytes_ok l p bs : bytes_ok l -> bytes_ok bs -> 0 <= p -> p + Z.of_nat (length bs) <= Z.of_nat (length l) ->
  exists l', store_bytes l p bs = Done l' /\
    updated l l' (fun j x => if in_range j (8 * p) (8 * Z.of_nat (length bs)) then bit bs (j - 8 * p) else x).
Proof.
  intros Hl Hbs Hp Hle. unfold store_bytes.
  destruct (Z.leb_spec 0 p); [|lia].
  destruct (Z.leb_spec (p + Z.of_nat (length bs)) (Z.of_nat (length l))); [|lia]. cbn [andb].
  eexists. split; [done|]. split; [apply length_splice; lia|]. split.
  - unfold splice. apply bytes_ok_app. split; [apply bytes_ok_take; done|].
    apply bytes_ok_app. split; [done|]. apply bytes_ok_drop. done.
  - intros i Hi. rewrite bit_splice by lia. rewrite Z2Nat.id by lia. done.
Qed.

Lemma range_bytes n : 0 <= n -> n mod 8 = 0 -> 0 <= n / 8 /\ Z.shiftr (n + 7) 3 = n / 8 /\ 8 * (n / 8) = n.
Proof.
  intros Hn Hm. pose proof (Z.div_mod n 8). pose proof (Z.div_pos n 8). rewrite shiftr_3.
  split; [lia|]. split; [|lia]. symmetry. apply Z.div_unique with 7; lia.
Qed.
