(* ===== verification/GenBitmap.v ===== *)
(** lib/ext2fs/gen_bitmap64.c and bitmaps.c: the bitmaps the rest of e2fsprogs
    uses.  A bitmap is a 32-bit or a 64-bit structure, told apart by its magic
    number; the numbers handed to a 64-bit block bitmap are blocks, of which
    [cluster_bits] bits are dropped.  The functions are written against the
    operations of a back end ([BitmapOps]) and proved against its laws
    ([BitmapLaws]). *)

From S2P Require Import Prelude Bitops Bitmap32 Bitmap64.

Local Open Scope Z_scope.

Definition EXT2_ET_CANT_USE_LEGACY_BITMAPS : Z := 2133571465.
Definition EXT2_ET_MAGIC_EXT2FS_FILSYS : Z := 2133571329.
Definition EXT2_FLAG_64BITS : Z := 0x20000.

(** The pointer [ext2fs_generic_bitmap]: null, or one of the two structures. *)
Inductive generic_bitmap (P : Type) :=
| GenNull
| Gen32 (b : bitmap32)
| Gen64 (b : bmap64 P).
Arguments GenNull {P}.
Arguments Gen32 {P}.
Arguments Gen64 {P}.

Definition gst (P : Type) : Type := generic_bitmap P * allocator.

(** The fields of the file system the functions read. *)
Record filsys := mk_fs {
  fs_magic : Z;
  fs_flags : Z;
  cluster_ratio_bits : Z;
  s_first_data_block : Z;
  s_blocks_count : Z;
  s_inodes_count : Z;
  s_clusters_per_group : Z;
  s_blocks_per_group : Z;
  s_inodes_per_group : Z;
  group_desc_count : Z }.

Definition EXT2FS_B2C (fs : filsys) (blk : Z) : Z := Z.shiftr blk (cluster_ratio_bits fs).
Definition EXT2FS_C2B (fs : filsys) (c : Z) : Z := Z.shiftl c (cluster_ratio_bits fs).
Definition EXT2FS_NUM_B2C (fs : filsys) (blks : Z) : Z :=
  Z.shiftr (u64 (blks + (2 ^ cluster_ratio_bits fs - 1))) (cluster_ratio_bits fs).

(** [arg & ~0xffffffffULL] *)
Definition beyond32 (arg : Z) : bool := negb (Z.land (u64 arg) (u64 (Z.lnot 0xffffffff)) =? 0).

Section generic.
Context {P : Type} `{BitmapOps P}.

(** The tests every function begins with: a null pointer, a 32-bit bitmap, a
    64-bit bitmap, or a structure with another magic number.  A magic number
    of the other kind would make the code take one structure for the other. *)
Definition dispatch {A} (g : generic_bitmap P) (null other : outcome A)
    (f32 : bitmap32 -> outcome A) (f64 : bmap64 P -> outcome A) : outcome A :=
  match g with
  | GenNull => null
  | Gen32 b =>
      if EXT2FS_IS_32_BITMAP (Bitmap32.magic b) then f32 b
      else if EXT2FS_IS_64_BITMAP (Bitmap32.magic b) then Crash BadPointer else other
  | Gen64 b =>
      if EXT2FS_IS_32_BITMAP (magic b) then Crash BadPointer
      else if EXT2FS_IS_64_BITMAP (magic b) then f64 b else other
  end.

(** ** Creation *)

(** [ext2fs_alloc_generic_bmap], once the back end is chosen: memory for the
    structure and the description, then the back end's own. *)
Definition ext2fs_alloc_generic_bmap (fs : filsys) (al : allocator) (mg st en re : Z) (descr : option string)
  : outcome (Z * gst P) :=
  let (p, al) := malloc al in
  match p with
  | None => Done (EXT2_ET_NO_MEMORY, (GenNull, al))
  | Some _ =>
      let base := if mg =? EXT2_ET_MAGIC_INODE_BITMAP64 then EXT2_ET_BAD_INODE_MARK
                  else if mg =? EXT2_ET_MAGIC_BLOCK_BITMAP64 then EXT2_ET_BAD_BLOCK_MARK
                  else EXT2_ET_BAD_GENERIC_MARK in
      let cb := if mg =? EXT2_ET_MAGIC_BLOCK_BITMAP64 then cluster_ratio_bits fs else 0 in
      let (d, al) := match descr with Some _ => malloc al | None => (Some 0, al) end in
      match d with
      | None => Done (EXT2_ET_NO_MEMORY, (GenNull, al))
      | Some _ =>
          let* (retval, (b, al)) := new_bmap (mk_bmap mg st en re cb descr base None, al) in
          if negb (retval =? 0) then Done (retval, (GenNull, al))
          else Done (0, (Gen64 b, al))
      end
  end.

Definition of_make32 (r : outcome (Z * option bitmap32 * allocator)) : outcome (Z * gst P) :=
  let* (retval, b, al) := r in
  Done (retval, (match b with Some b => Gen32 b | None => GenNull end, al)).

Definition ext2fs_allocate_inode_bitmap (fs : filsys) (al : allocator) (descr : option string)
  : outcome (Z * gst P) :=
  if negb (fs_magic fs =? EXT2_ET_MAGIC_EXT2FS_FILSYS) then Done (EXT2_ET_MAGIC_EXT2FS_FILSYS, (GenNull, al))
  else
    let st := 1 in
    let en := s_inodes_count fs in
    let re := u64 (s_inodes_per_group fs * group_desc_count fs) in
    if negb (Z.land (fs_flags fs) EXT2_FLAG_64BITS =? 0)
    then ext2fs_alloc_generic_bmap fs al EXT2_ET_MAGIC_INODE_BITMAP64 st en re descr
    else if (2 ^ 32 - 1 <? en) || (2 ^ 32 - 1 <? re)
    then Done (EXT2_ET_CANT_USE_LEGACY_BITMAPS, (GenNull, al))
    else of_make32 (ext2fs_make_generic_bitmap al EXT2_ET_MAGIC_INODE_BITMAP st en re descr None).

Definition ext2fs_allocate_block_bitmap (fs : filsys) (al : allocator) (descr : option string)
  : outcome (Z * gst P) :=
  if negb (fs_magic fs =? EXT2_ET_MAGIC_EXT2FS_FILSYS) then Done (EXT2_ET_MAGIC_EXT2FS_FILSYS, (GenNull, al))
  else
    let st := EXT2FS_B2C fs (s_first_data_block fs) in
    let en := EXT2FS_B2C fs (u64 (s_blocks_count fs - 1)) in
    let re := u64 (s_clusters_per_group fs * group_desc_count fs - 1 + st) in
    if negb (Z.land (fs_flags fs) EXT2_FLAG_64BITS =? 0)
    then ext2fs_alloc_generic_bmap fs al EXT2_ET_MAGIC_BLOCK_BITMAP64 st en re descr
    else if (2 ^ 32 - 1 <? en) || (2 ^ 32 - 1 <? re)
    then Done (EXT2_ET_CANT_USE_LEGACY_BITMAPS, (GenNull, al))
    else of_make32 (ext2fs_make_generic_bitmap al EXT2_ET_MAGIC_BLOCK_BITMAP st en re descr None).

Definition set_cluster_bits (b : bmap64 P) (cb : Z) : bmap64 P :=
  mk_bmap (magic b) (start b) (end_ b) (real_end b) cb (description b) (base_error_code b) (private b).

Definition ext2fs_allocate_subcluster_bitmap (fs : filsys) (al : allocator) (descr : option string)
  : outcome (Z * gst P) :=
  if negb (fs_magic fs =? EXT2_ET_MAGIC_EXT2FS_FILSYS) then Done (EXT2_ET_MAGIC_EXT2FS_FILSYS, (GenNull, al))
  else if cluster_ratio_bits fs =? 0 then ext2fs_allocate_block_bitmap fs al descr
  else if Z.land (fs_flags fs) EXT2_FLAG_64BITS =? 0 then Done (EXT2_ET_CANT_USE_LEGACY_BITMAPS, (GenNull, al))
  else
    let st := s_first_data_block fs in
    let en := u64 (s_blocks_count fs - 1) in
    let re := u64 (s_blocks_per_group fs * group_desc_count fs - 1 + st) in
    let* (retval, (g, al)) := ext2fs_alloc_generic_bmap fs al EXT2_ET_MAGIC_BLOCK_BITMAP64 st en re descr in
    if negb (retval =? 0) then Done (retval, (GenNull, al))
    else match g with
         | Gen64 b => Done (0, (Gen64 (set_cluster_bits b 0), al))
         | _ => Crash BadPointer
         end.

Definition ext2fs_get_bitmap_granularity (g : generic_bitmap P) : outcome Z :=
  match g with
  | GenNull => Crash BadPointer
  | Gen32 b => if EXT2FS_IS_64_BITMAP (Bitmap32.magic b) then Crash BadPointer else Done 0
  | Gen64 b => if EXT2FS_IS_64_BITMAP (magic b) then Done (cluster_bits b) else Done 0
  end.

(** The source keeps its cursors up to date, so it is returned as well. *)
Definition ext2fs_copy_generic_bmap (s : gst P) : outcome (Z * gst P * generic_bitmap P) :=
  let (g, al) := s in
  dispatch g (Done (EINVAL, (g, al), GenNull)) (Done (EINVAL, (g, al), GenNull))
    (fun b =>
       let* (retval, d, al) := ext2fs_copy_generic_bitmap al b in
       Done (retval, (g, al), match d with Some d => Gen32 d | None => GenNull end))
    (fun b =>
       let (p, al) := malloc al in
       match p with
       | None => Done (EXT2_ET_NO_MEMORY, (g, al), GenNull)
       | Some _ =>
           let (d, al) := match description b with Some _ => malloc al | None => (Some 0, al) end in
           match d with
           | None => Done (EXT2_ET_NO_MEMORY, (g, al), GenNull)
           | Some _ =>
               let descr := match description b with
                            | Some d => Some (String.append "copy of " d) | None => None end in
               let* (retval, b, (d, al)) :=
                 copy_bmap b (mk_bmap (magic b) (start b) (end_ b) (real_end b) (cluster_bits b) descr
                                (base_error_code b) None, al) in
               if negb (retval =? 0) then Done (retval, (Gen64 b, al), GenNull)
               else Done (0, (Gen64 b, al), Gen64 d)
           end
       end).

(** ** The whole bitmap *)

Definition ext2fs_resize_generic_bmap (s : gst P) (fresh : Z -> Z) (new_end new_real_end : Z)
  : outcome (Z * gst P) :=
  let (g, al) := s in
  dispatch g (Done (EINVAL, s)) (Done (EINVAL, s))
    (fun b =>
       let* (r, b, al) := ext2fs_resize_generic_bitmap al fresh (Bitmap32.magic b) (u32 new_end)
                            (u32 new_real_end) b in
       Done (r, (Gen32 b, al)))
    (fun b =>
       let* (r, (b, al)) := resize_bmap (b, al) new_end new_real_end in
       Done (r, (Gen64 b, al))).

(** The second component is what is stored through [oend]; for 32-bit bitmaps
    that is an uninitialised variable when the call fails. *)
Definition ext2fs_fudge_generic_bmap_end (g : generic_bitmap P) (neq en : Z)
  : outcome (Z * option Z * generic_bitmap P) :=
  dispatch g (Done (EINVAL, None, g)) (Done (EINVAL, None, g))
    (fun b =>
       let '(r, o, b) := ext2fs_fudge_generic_bitmap_end b (Bitmap32.magic b) neq (u32 en) in
       Done (r, o, Gen32 b))
    (fun b =>
       if real_end b <? en then Done (neq, None, g)
       else Done (0, Some (end_ b), Gen64 (set_ends b en (real_end b)))).

Definition ext2fs_get_generic_bmap_start (g : generic_bitmap P) : outcome Z :=
  dispatch g (Done EINVAL) (Done EINVAL)
    (fun b => Done (ext2fs_get_generic_bitmap_start b)) (fun b => Done (start b)).

Definition ext2fs_get_generic_bmap_end (g : generic_bitmap P) : outcome Z :=
  dispatch g (Done EINVAL) (Done EINVAL)
    (fun b => Done (ext2fs_get_generic_bitmap_end b)) (fun b => Done (end_ b)).

(** No test for a null pointer, nor for the magic number of 64-bit bitmaps. *)
Definition ext2fs_clear_generic_bmap (g : generic_bitmap P) : outcome (generic_bitmap P) :=
  match g with
  | GenNull => Crash BadPointer
  | Gen32 b =>
      if EXT2FS_IS_32_BITMAP (Bitmap32.magic b)
      then let* b := ext2fs_clear_generic_bitmap b in Done (Gen32 b) else Crash BadPointer
  | Gen64 b =>
      if EXT2FS_IS_32_BITMAP (magic b) then Crash BadPointer
      else let* b := clear_bmap b in Done (Gen64 b)
  end.

(** ** Single numbers *)

Definition ext2fs_mark_generic_bmap (s : gst P) (arg : Z) : outcome (Z * gst P) :=
  let (g, al) := s in
  dispatch g (Done (0, s)) (Done (0, s))
    (fun b =>
       if beyond32 arg then Done (0, s)
       else let* (r, b) := ext2fs_mark_generic_bitmap b arg in Done (r, (Gen32 b, al)))
    (fun b =>
       let arg := Z.shiftr arg (cluster_bits b) in
       if (arg <? start b) || (end_ b <? arg) then Done (0, s)
       else let* (r, (b, al)) := mark_bmap (b, al) arg in Done (r, (Gen64 b, al))).

Definition ext2fs_unmark_generic_bmap (s : gst P) (arg : Z) : outcome (Z * gst P) :=
  let (g, al) := s in
  dispatch g (Done (0, s)) (Done (0, s))
    (fun b =>
       if beyond32 arg then Done (0, s)
       else let* (r, b) := ext2fs_unmark_generic_bitmap b arg in Done (r, (Gen32 b, al)))
    (fun b =>
       let arg := Z.shiftr arg (cluster_bits b) in
       if (arg <? start b) || (end_ b <? arg) then Done (0, s)
       else let* (r, (b, al)) := unmark_bmap (b, al) arg in Done (r, (Gen64 b, al))).

Definition ext2fs_test_generic_bmap (g : generic_bitmap P) (arg : Z) : outcome (Z * generic_bitmap P) :=
  dispatch g (Done (0, g)) (Done (0, g))
    (fun b =>
       if beyond32 arg then Done (0, g)
       else let* r := ext2fs_test_generic_bitmap b arg in Done (r, g))
    (fun b =>
       let arg := Z.shiftr arg (cluster_bits b) in
       if (arg <? start b) || (end_ b <? arg) then Done (0, g)
       else let* (r, b) := test_bmap b arg in Done (r, Gen64 b)).

(** ** Ranges *)

Definition ext2fs_set_generic_bmap_range (s : gst P) (st num : Z) (inp : list Z) : outcome (Z * gst P) :=
  let (g, al) := s in
  dispatch g (Done (EINVAL, s)) (Done (EINVAL, s))
    (fun b =>
       if beyond32 (st + num - 1) then Done (EINVAL, s)
       else let* (r, b) := ext2fs_set_generic_bitmap_range b (Bitmap32.magic b) (u32 st) num inp in
            Done (r, (Gen32 b, al)))
    (fun b => let* (r, (b, al)) := set_bmap_range (b, al) st num inp in Done (r, (Gen64 b, al))).

Definition ext2fs_get_generic_bmap_range (g : generic_bitmap P) (st num : Z) (out : list Z)
  : outcome (Z * list Z) :=
  dispatch g (Done (EINVAL, out)) (Done (EINVAL, out))
    (fun b =>
       if beyond32 (st + num - 1) then Done (EINVAL, out)
       else let* (r, bs) := ext2fs_get_generic_bitmap_range b (Bitmap32.magic b) (u32 st) num in
            let* out := store_bytes out 0 bs in Done (r, out))
    (fun b => get_bmap_range b st num out).

(** [for (i = ...; i <= bm1->end; i++)] *)
Fixpoint compare_loop (fuel : nat) (neq en : Z) (g1 g2 : generic_bitmap P) (i : Z) : outcome Z :=
  match fuel with
  | O => Crash OutOfFuel
  | S fuel =>
      if i <=? en then
        let* (r1, g1) := ext2fs_test_generic_bmap g1 i in
        let* (r2, g2) := ext2fs_test_generic_bmap g2 i in
        if negb (r1 =? r2) then Done neq else compare_loop fuel neq en g1 g2 (u64 (i + 1))
      else Done 0
  end.

Definition gmagic (g : generic_bitmap P) : option Z :=
  match g with GenNull => None | Gen32 b => Some (Bitmap32.magic b) | Gen64 b => Some (magic b) end.

Definition ext2fs_compare_generic_bmap (neq : Z) (g1 g2 : generic_bitmap P) : outcome Z :=
  match gmagic g1, gmagic g2 with
  | Some m1, Some m2 =>
      if negb (m1 =? m2) then Done EINVAL
      else if EXT2FS_IS_32_BITMAP m1 then
        match g1, g2 with
        | Gen32 b1, Gen32 b2 => ext2fs_compare_generic_bitmap m1 neq b1 b2
        | _, _ => Crash BadPointer
        end
      else if negb (EXT2FS_IS_64_BITMAP m1) then Done EINVAL
      else
        match g1, g2 with
        | Gen64 b1, Gen64 b2 =>
            if negb (start b1 =? start b2) || negb (end_ b1 =? end_ b2) then Done neq
            else compare_loop 9 neq (end_ b1) g1 g2 (end_ b1 - u64 (end_ b1 - start b1) mod 8)
        | _, _ => Crash BadPointer
        end
  | _, _ => Done EINVAL
  end.

Definition ext2fs_set_generic_bmap_padding (s : gst P) : outcome (gst P) :=
  let (g, al) := s in
  match g with
  | GenNull => Crash BadPointer
  | Gen32 b =>
      if EXT2FS_IS_32_BITMAP (Bitmap32.magic b)
      then let* b := ext2fs_set_generic_bitmap_padding b in Done (Gen32 b, al) else Crash BadPointer
  | Gen64 b =>
      if EXT2FS_IS_32_BITMAP (magic b) then Crash BadPointer
      else let* (b, al) := mark_bmap_extent (b, al) (u64 (end_ b + 1)) (u32 (real_end b - end_ b)) in
           Done (Gen64 b, al)
  end.

(** The clusters that [num] blocks from [block] on touch: the first of them
    and how many; [None] when the bitmap does not have them. *)
Definition block_range (b : bmap64 P) (block num : Z) : option (Z * Z) :=
  let en := u64 (block + num) in
  let block := Z.shiftr block (cluster_bits b) in
  let en := Z.shiftr (u64 (en + (2 ^ cluster_bits b - 1))) (cluster_bits b) in
  let num := u32 (en - block) in
  if (block <? start b) || (end_ b <? block) || (end_ b <? u64 (block + num - 1)) then None
  else Some (block, num).

Definition ext2fs_test_block_bitmap_range2 (g : generic_bitmap P) (block num : Z) : outcome (Z * generic_bitmap P) :=
  match g with
  | GenNull => Done (EINVAL, g)
  | _ =>
      if num =? 1 then
        let* (r, g) := ext2fs_test_generic_bmap g block in
        Done (if r =? 0 then 1 else 0, g)
      else
        dispatch g (Done (EINVAL, g)) (Done (EINVAL, g))
          (fun b =>
             if beyond32 block || beyond32 (block + num - 1) then Done (EINVAL, g)
             else let* r := ext2fs_test_block_bitmap_range b block (s32 num) in Done (r, g))
          (fun b =>
             match block_range b block num with
             | None => Done (EINVAL, g)
             | Some (block, num) => let* r := test_clear_bmap_extent b block num in Done (r, g)
             end)
  end.

Definition ext2fs_mark_block_bitmap_range2 (s : gst P) (block num : Z) : outcome (gst P) :=
  let (g, al) := s in
  dispatch g (Done s) (Done s)
    (fun b =>
       if beyond32 block || beyond32 (block + num - 1) then Done s
       else let* b := ext2fs_mark_block_bitmap_range b block (s32 num) in Done (Gen32 b, al))
    (fun b =>
       match block_range b block num with
       | None => Done s
       | Some (block, num) =>
           let* (b, al) := mark_bmap_extent (b, al) block num in Done (Gen64 b, al)
       end).

Definition ext2fs_unmark_block_bitmap_range2 (s : gst P) (block num : Z) : outcome (gst P) :=
  let (g, al) := s in
  dispatch g (Done s) (Done s)
    (fun b =>
       if beyond32 block || beyond32 (block + num - 1) then Done s
       else let* b := ext2fs_unmark_block_bitmap_range b block (s32 num) in Done (Gen32 b, al))
    (fun b =>
       match block_range b block num with
       | None => Done s
       | Some (block, num) =>
           let* (b, al) := unmark_bmap_extent (b, al) block num in Done (Gen64 b, al)
       end).

(** ** Searches *)

(** The loop for a back end without a search of its own. *)
Fixpoint find_loop (fuel : nat) (want : bool) (b : bmap64 P) (cout cend : Z) : outcome (option Z) :=
  match fuel with
  | O => Crash OutOfFuel
  | S fuel =>
      if cout <=? cend then
        let* (r, b) := test_bmap b cout in
        if Bool.eqb (negb (r =? 0)) want then Done (Some cout)
        else find_loop fuel want b (u64 (cout + 1)) cend
      else Done None
  end.

Definition find_first (want : bool) (op : option (bmap64 P -> Z -> Z -> outcome (Z * option Z)))
    (op32 : bitmap32 -> Z -> Z -> outcome (Z * option Z)) (g : generic_bitmap P) (st en : Z)
  : outcome (Z * option Z) :=
  dispatch g (Done (EINVAL, None)) (Done (EINVAL, None))
    (fun b => if beyond32 st || beyond32 en then Done (EINVAL, None) else op32 b st en)
    (fun b =>
       let cstart := Z.shiftr st (cluster_bits b) in
       let cend := Z.shiftr en (cluster_bits b) in
       let found cout :=
         let cout := Z.shiftl cout (cluster_bits b) in
         (0, Some (if st <=? cout then cout else st)) in
       if (cstart <? start b) || (end_ b <? cend) || (en <? st) then Done (EINVAL, None)
       else
         match op with
         | Some f =>
             let* (retval, cout) := f b cstart cend in
             if negb (retval =? 0) then Done (retval, None)
             else match cout with Some cout => Done (found cout) | None => Crash BadPointer end
         | None =>
             let* cout := find_loop (S (Z.to_nat (cend - cstart + 1))) want b cstart cend in
             match cout with Some cout => Done (found cout) | None => Done (ENOENT, None) end
         end).

Definition ext2fs_find_first_zero_generic_bmap :=
  find_first false find_first_zero ext2fs_find_first_zero_generic_bitmap.
Definition ext2fs_find_first_set_generic_bmap :=
  find_first true find_first_set ext2fs_find_first_set_generic_bitmap.

(** [ext2fs_count_used_clusters]: [retval] is [None] as long as it was not
    assigned. *)
Fixpoint count_loop (fuel : nat) (g : generic_bitmap P) (st en tot : Z) (retval : option Z)
  : outcome (option Z * Z) :=
  match fuel with
  | O => Crash OutOfFuel
  | S fuel =>
      if st <? en then
        let* (retval, next) := ext2fs_find_first_set_generic_bmap g st en in
        match next with
        | Some st =>
            let* (retval, next) := ext2fs_find_first_zero_generic_bmap g st en in
            match next with
            | Some next => count_loop fuel g (u64 (next + 1)) en (u64 (tot + (next - st))) (Some retval)
            | None =>
                if retval =? ENOENT then Done (Some 0, u64 (tot + (en - st + 1)))
                else Done (Some retval, tot)
            end
        | None => Done (Some (if retval =? ENOENT then 0 else retval), tot)
        end
      else Done (retval, tot)
  end.

(** The result stored through [out], when the code stores one; reading
    [retval] before it is assigned is an error of the program. *)
Definition ext2fs_count_used_clusters (fs : filsys) (g : generic_bitmap P) (st en : Z)
  : outcome (Z * option Z) :=
  let* (retval, tot) := count_loop (S (Z.to_nat (en - st))) g st en 0 None in
  match retval with
  | None => Crash BadPointer
  | Some retval =>
      Done (retval, if retval =? 0 then Some (EXT2FS_NUM_B2C fs tot) else None)
  end.

(** ** Conversion to a bitmap of clusters *)

Fixpoint convert_loop (fuel : nat) (fs : filsys) (bmap : generic_bitmap P) (s : gst P) (re i : Z)
  : outcome (gst P) :=
  match fuel with
  | O => Crash OutOfFuel
  | S fuel =>
      if i <? re then
        let* (retval, next) := ext2fs_find_first_set_generic_bmap bmap i re in
        match next with
        | None => Done s
        | Some next =>
            let* (_, s) := ext2fs_mark_generic_bmap s next in
            convert_loop fuel fs bmap s re (u64 (EXT2FS_C2B fs (u64 (EXT2FS_B2C fs next + 1))))
        end
      else Done s
  end.

Definition ext2fs_convert_subcluster_bitmap (fs : filsys) (s : gst P) : outcome (Z * gst P) :=
  let (g, al) := s in
  let* gran := ext2fs_get_bitmap_granularity g in
  if cluster_ratio_bits fs =? gran then Done (0, s)
  else
    let* (retval, (c, al)) := ext2fs_allocate_block_bitmap fs al (Some "converted cluster bitmap"%string) in
    if negb (retval =? 0) then Done (retval, (g, al))
    else
      match g, c with
      | Gen64 b, Gen64 cm =>
          let bfull := set_ends b (real_end b) (real_end b) in
          let cfull := set_ends cm (real_end cm) (real_end cm) in
          let* (c, al) := convert_loop (S (Z.to_nat (real_end b - start b))) fs (Gen64 bfull) (Gen64 cfull, al)
                            (real_end b) (start b) in
          match c with
          | Gen64 c =>
              let* _ := free_bmap (set_ends b (end_ b) (real_end b)) in
              Done (0, (Gen64 (set_ends c (end_ cm) (real_end c)), al))
          | _ => Crash BadPointer
          end
      | _, _ => Crash BadPointer
      end.

(** ** The names of bitmaps.c *)

Definition ext2fs_copy_bitmap := ext2fs_copy_generic_bmap.
Definition ext2fs_set_bitmap_padding := ext2fs_set_generic_bmap_padding.
Definition ext2fs_clear_block_bitmap := ext2fs_clear_generic_bmap.
Definition ext2fs_compare_block_bitmap := ext2fs_compare_generic_bmap 2133571384.
Definition ext2fs_compare_inode_bitmap := ext2fs_compare_generic_bmap 2133571385.
Definition ext2fs_fudge_block_bitmap_end2 (g : generic_bitmap P) (en : Z) :=
  ext2fs_fudge_generic_bmap_end g 2133571379 en.
Definition ext2fs_resize_block_bitmap2 (new_end new_real_end : Z) (fresh : Z -> Z) (s : gst P) :=
  ext2fs_resize_generic_bmap s fresh new_end new_real_end.
End generic.
