(* ===== verification/BitmapRefine.v ===== *)
(** A bitmap is a set of clusters: the commands of gen_bitmap64.c on a 64-bit
    bitmap, run over any back end that satisfies the laws, give the answers of a
    set. *)

From S2P Require Import Prelude Bitops Bitmap32 Bitmap64 GenBitmap.

Local Open Scope Z_scope.

(** * The specification *)

(** The clusters from [lo] to [hi] and which of them are used; the bitmap has
    room up to [top]; a cluster has [2 ^ cb] blocks. *)
Record spec := mk_spec { lo : Z; hi : Z; top : Z; cb : Z; used : Z -> bool }.

Definition cluster (sp : spec) (blk : Z) : Z := Z.shiftr blk (cb sp).

Definition has_cluster (sp : spec) (c : Z) : bool := (lo sp <=? c) && (c <=? hi sp).

(** Whether a block is in use. *)
Definition in_use (sp : spec) (blk : Z) : bool := has_cluster sp (cluster sp blk) && used sp (cluster sp blk).

Definition with_used (sp : spec) (f : Z -> bool) : spec := mk_spec (lo sp) (hi sp) (top sp) (cb sp) f.

(** The clusters the blocks touch: the first one and how many; [None] when they
    are not all there. *)
Definition touched (sp : spec) (blk num : Z) : option (Z * Z) :=
  let first := cluster sp blk in
  let last := cluster sp (blk + num - 1) in
  if (lo sp <=? first) && (last <=? hi sp) then Some (first, last - first + 1) else None.

Inductive cmd :=
| CMark (blk : Z)
| CUnmark (blk : Z)
| CTest (blk : Z)
| CMarkRange (blk num : Z)
| CUnmarkRange (blk num : Z)
| CTestRange (blk num : Z)
| CFindSet (s e : Z)
| CFindZero (s e : Z)
| CClear
| CResize (e re : Z).

Inductive answer :=
| ANone
| ABool (b : bool)
| ACode (z : Z)
| AFound (r : Z * option Z).

Definition spec_step (c : cmd) (sp : spec) : answer * spec :=
  match c with
  | CMark blk =>
      (ABool (in_use sp blk),
       if has_cluster sp (cluster sp blk)
       then with_used sp (fun c => (c =? cluster sp blk) || used sp c) else sp)
  | CUnmark blk =>
      (ANone,
       if has_cluster sp (cluster sp blk)
       then with_used sp (fun c => negb (c =? cluster sp blk) && used sp c) else sp)
  | CTest blk => (ABool (in_use sp blk), sp)
  | CMarkRange blk num =>
      (ANone, match touched sp blk num with
              | Some (c, n) => with_used sp (fun k => in_range k c n || used sp k)
              | None => sp
              end)
  | CUnmarkRange blk num =>
      (ANone, match touched sp blk num with
              | Some (c, n) => with_used sp (fun k => negb (in_range k c n) && used sp k)
              | None => sp
              end)
  | CTestRange blk num =>
      (ACode (if num =? 1 then if in_use sp blk then 0 else 1
              else match touched sp blk num with
                   | Some (c, n) => match first_from (used sp) (Z.to_nat n) c with Some _ => 0 | None => 1 end
                   | None => EINVAL
                   end), sp)
  | CFindSet s e =>
      (AFound (if (lo sp <=? cluster sp s) && (cluster sp e <=? hi sp) && (s <=? e)
               then search ENOENT (in_use sp) s e else (EINVAL, None)), sp)
  | CFindZero s e =>
      (AFound (if (lo sp <=? cluster sp s) && (cluster sp e <=? hi sp) && (s <=? e)
               then search ENOENT (fun k => negb (in_use sp k)) s e else (EINVAL, None)), sp)
  | CClear => (ANone, with_used sp (fun _ => false))
  | CResize e re =>
      (ACode 0, mk_spec (lo sp) e re (cb sp) (fun c => (c <=? hi sp) && used sp c))
  end.

(** What a caller has to respect: numbers of 64 bits, ranges that do not wrap
    around, no search for a free block in an empty bitmap, sizes that are not
    too large and that shrink to whole bytes. *)
Definition allowed (c : cmd) (sp : spec) : Prop :=
  match c with
  | CMark blk | CUnmark blk | CTest blk => is_u64 blk
  | CMarkRange blk num | CUnmarkRange blk num | CTestRange blk num =>
      0 <= blk /\ 1 <= num < 2 ^ 32 /\ blk + num + 2 ^ 32 < 2 ^ 64
  | CFindSet s e => is_u64 s /\ is_u64 e
  | CFindZero s e => is_u64 s /\ is_u64 e /\ exists c, has_cluster sp c = true /\ used sp c = true
  | CClear => True
  | CResize e re => lo sp <= e <= re /\ re < 2 ^ 64 - 1 /\ (top sp <= re \/ (re - lo sp + 1) mod 8 = 0)
  end.

Fixpoint spec_run (cs : list cmd) (sp : spec) : list answer :=
  match cs with
  | [] => []
  | c :: cs => let (a, sp) := spec_step c sp in a :: spec_run cs sp
  end.

Fixpoint allowed_run (cs : list cmd) (sp : spec) : Prop :=
  match cs with
  | [] => True
  | c :: cs => allowed c sp /\ allowed_run cs (snd (spec_step c sp))
  end.

(** * The implementation *)

Section implementation.
Context {P : Type} `{BitmapOps P}.

(** The answer to [CUnmark] is not looked at: the back ends do not agree on
    it. *)
Definition impl_step (c : cmd) (s : gst P) : outcome (answer * gst P) :=
  let (g, al) := s in
  match c with
  | CMark blk =>
      let* (r, s) := ext2fs_mark_generic_bmap s blk in Done (ABool (negb (r =? 0)), s)
  | CUnmark blk => let* (_, s) := ext2fs_unmark_generic_bmap s blk in Done (ANone, s)
  | CTest blk =>
      let* (r, g) := ext2fs_test_generic_bmap g blk in Done (ABool (negb (r =? 0)), (g, al))
  | CMarkRange blk num => let* s := ext2fs_mark_block_bitmap_range2 s blk num in Done (ANone, s)
  | CUnmarkRange blk num => let* s := ext2fs_unmark_block_bitmap_range2 s blk num in Done (ANone, s)
  | CTestRange blk num =>
      let* (r, g) := ext2fs_test_block_bitmap_range2 g blk num in Done (ACode r, (g, al))
  | CFindSet st en => let* r := ext2fs_find_first_set_generic_bmap g st en in Done (AFound r, s)
  | CFindZero st en => let* r := ext2fs_find_first_zero_generic_bmap g st en in Done (AFound r, s)
  | CClear => let* g := ext2fs_clear_generic_bmap g in Done (ANone, (g, al))
  | CResize e re =>
      let* (r, s) := ext2fs_resize_generic_bmap s (fun _ => 0) e re in Done (ACode r, s)
  end.

Fixpoint impl_run (cs : list cmd) (s : gst P) : outcome (list answer) :=
  match cs with
  | [] => Done []
  | c :: cs =>
      let* (a, s) := impl_step c s in
      let* l := impl_run cs s in
      Done (a :: l)
  end.
End implementation.

(** * The relation between them *)

Section refinement.
Context {P : Type} `{BitmapLaws P}.

(** A 64-bit bitmap stands for a set; behind its end it may hold anything. *)
Record represents (b : bmap64 P) (al : allocator) (sp : spec) : Prop := {
  rep_magic : EXT2FS_IS_32_BITMAP (magic b) = false /\ EXT2FS_IS_64_BITMAP (magic b) = true;
  rep_ok : ok (b, al);
  rep_start : start b = lo sp;
  rep_end : end_ b = hi sp;
  rep_top : real_end b = top sp;
  rep_cb : cluster_bits b = cb sp;
  rep_cb_range : 0 <= cb sp < 32;
  rep_used : forall c, c <= hi sp -> marked b c = used sp c }.

Definition rel (s : gst P) (sp : spec) : Prop := exists b, fst s = Gen64 b /\ represents b (snd s) sp.

Lemma dispatch_64 {A} (b : bmap64 P) al sp (null other : outcome A) f32 f64 :
  represents b al sp -> dispatch (Gen64 b) null other f32 f64 = f64 b.
Proof using. intros R. destruct (rep_magic _ _ _ R) as [E1 E2]. unfold dispatch. rewrite E1, E2. done. Qed.

(** A state with the same header and a set that agrees up to the end. *)
Lemma represents_step b al sp b' al' f :
  represents b al sp -> ok (b', al') -> same_header b b' -> (forall c, c <= hi sp -> marked b' c = f c) ->
  rel (Gen64 b', al') (with_used sp f).
Proof using.
  intros [[Hm1 Hm2] Ho Hs He Ht Hc Hcr Hu] Hok (Em & Es & Ee & Er & Ec & _) Hf. exists b'. split; [done|].
  constructor; cbn [snd lo hi top cb used with_used]; rewrite ?Em; try done; congruence.
Qed.

Lemma out_of_range b al sp c : represents b al sp ->
  (c <? start b) || (end_ b <? c) = negb (has_cluster sp c).
Proof using.
  intros R. unfold has_cluster. rewrite (rep_start _ _ _ R), (rep_end _ _ _ R).
  destruct (Z.ltb_spec c (lo sp)), (Z.ltb_spec (hi sp) c), (Z.leb_spec (lo sp) c), (Z.leb_spec c (hi sp)); done || lia.
Qed.

Lemma has_cluster_spec sp c : has_cluster sp c = true <-> lo sp <= c <= hi sp.
Proof using. unfold has_cluster. rewrite andb_true_iff, !Z.leb_le. done. Qed.

Lemma represents_bounds b al sp : represents b al sp ->
  0 <= lo sp <= hi sp /\ hi sp <= top sp /\ top sp < 2 ^ 64 - 1.
Proof using.
  intros R. destruct (ok_header b al (rep_ok _ _ _ R)) as [(? & ? & ?) _].
  rewrite (rep_start _ _ _ R), (rep_end _ _ _ R), (rep_top _ _ _ R) in *. lia.
Qed.

Lemma cluster_bits_eq b al sp blk : represents b al sp -> Z.shiftr blk (cluster_bits b) = cluster sp blk.
Proof using. intros R. unfold cluster. rewrite (rep_cb _ _ _ R). done. Qed.

(** The result of a test as a truth value. *)
Lemma nonzero_iff r (x : bool) : (r <> 0 <-> x = true) -> negb (r =? 0) = x.
Proof using. intros Hr. destruct (Z.eqb_spec r 0), x; cbn; intuition congruence. Qed.

(** A command gives the answer of the specification and keeps the relation; memory
    that was handed out stays where it is. *)
Definition step_ok (c : cmd) (s : gst P) (sp : spec) : Prop :=
  exists s', impl_step c s = Done (fst (spec_step c sp), s') /\ rel s' (snd (spec_step c sp)) /\ later (snd s) (snd s').

Lemma rel_later g al al' sp : rel (g, al) sp -> later al al' -> rel (g, al') sp.
Proof using. intros (b & Hg & []) Hl. exists b. split; [done|]. constructor; try done. by apply (ok_later b al). Qed.

(** A mark, or the removal of one: the cluster is there and the back end is
    called, or nothing happens. *)
Lemma mark_generic b al sp blk : represents b al sp ->
  exists r s', ext2fs_mark_generic_bmap (Gen64 b, al) blk = Done (r, s') /\ negb (r =? 0) = in_use sp blk /\
    rel s' (snd (spec_step (CMark blk) sp)) /\ later al (snd s').
Proof using.
  intros R. cbn [spec_step fst snd]. unfold ext2fs_mark_generic_bmap.
  rewrite (dispatch_64 b al sp) by done. rewrite (cluster_bits_eq b al sp), (out_of_range b al sp) by done.
  unfold in_use. destruct (has_cluster sp (cluster sp blk)) eqn:E; cbn [negb andb obind].
  2: { do 2 eexists. split; [done|]. split; [done|]. split; [exists b; done|apply later_refl]. }
  apply has_cluster_spec in E. pose proof (represents_bounds _ _ _ R).
  destruct (mark_law b al (cluster sp blk) (rep_ok _ _ _ R)) as (r & b' & al' & -> & Hr & Hok & Hsh & Hl & Hm).
  { rewrite (rep_start _ _ _ R), (rep_top _ _ _ R). lia. }
  cbn [obind]. do 2 eexists. split; [done|]. split; [rewrite (nonzero_iff r _ Hr), (rep_used _ _ _ R) by lia; done|].
  split; [|done]. apply (represents_step b al); try done. intros c Hc. rewrite Hm, (rep_used _ _ _ R) by done. done.
Qed.

Lemma unmark_generic b al sp blk : represents b al sp ->
  exists r s', ext2fs_unmark_generic_bmap (Gen64 b, al) blk = Done (r, s') /\
    rel s' (snd (spec_step (CUnmark blk) sp)) /\ later al (snd s').
Proof using.
  intros R. cbn [spec_step fst snd]. unfold ext2fs_unmark_generic_bmap.
  rewrite (dispatch_64 b al sp) by done. rewrite (cluster_bits_eq b al sp), (out_of_range b al sp) by done.
  destruct (has_cluster sp (cluster sp blk)) eqn:E; cbn [negb andb obind].
  2: { do 2 eexists. split; [done|]. split; [exists b; done|apply later_refl]. }
  apply has_cluster_spec in E. pose proof (represents_bounds _ _ _ R).
  destruct (unmark_law b al (cluster sp blk) (rep_ok _ _ _ R)) as (r & b' & al' & -> & _ & Hok & Hsh & Hl & Hm).
  { rewrite (rep_start _ _ _ R), (rep_top _ _ _ R). lia. }
  cbn [obind]. do 2 eexists. split; [done|]. split; [|done].
  apply (represents_step b al); try done. intros c Hc. rewrite Hm, (rep_used _ _ _ R) by done. done.
Qed.

Lemma mark_step b al sp blk : represents b al sp -> step_ok (CMark blk) (Gen64 b, al) sp.
Proof using.
  intros R. unfold step_ok; cbn [impl_step]. destruct (mark_generic b al sp blk R) as (r & s' & -> & Hr & Hrel & Hl).
  cbn [obind]. rewrite Hr. eauto.
Qed.

Lemma unmark_step b al sp blk : represents b al sp -> step_ok (CUnmark blk) (Gen64 b, al) sp.
Proof using.
  intros R. unfold step_ok; cbn [impl_step]. destruct (unmark_generic b al sp blk R) as (r & s' & -> & Hrel & Hl). eauto.
Qed.

(** A test leaves a bitmap that stands for the same set. *)
Lemma test_generic b al sp blk : represents b al sp ->
  exists r b', ext2fs_test_generic_bmap (Gen64 b) blk = Done (r, Gen64 b') /\
    negb (r =? 0) = in_use sp blk /\ represents b' al sp.
Proof using.
  intros R. unfold ext2fs_test_generic_bmap.
  rewrite (dispatch_64 b al sp) by done. rewrite (cluster_bits_eq b al sp), (out_of_range b al sp) by done.
  unfold in_use. destruct (has_cluster sp (cluster sp blk)) eqn:E; cbn [negb andb]; [|eauto 10].
  apply has_cluster_spec in E. pose proof (represents_bounds _ _ _ R).
  destruct (test_law b al (cluster sp blk) (rep_ok _ _ _ R)) as (r & b' & -> & Hr & Hok & Hsh & Hm).
  { rewrite (rep_start _ _ _ R), (rep_top _ _ _ R). lia. }
  cbn [obind]. exists r, b'. split; [done|]. split.
  { rewrite (nonzero_iff r _ Hr), (rep_used _ _ _ R) by lia. done. }
  destruct (represents_step b al sp b' al (used sp)) as (b1 & [= <-] & R1); try done.
  - intros c Hc. rewrite Hm. apply (rep_used _ _ _ R). done.
  - destruct sp. exact R1.
Qed.

Lemma test_step b al sp blk : represents b al sp -> step_ok (CTest blk) (Gen64 b, al) sp.
Proof using.
  intros R. unfold step_ok; cbn [impl_step spec_step fst snd].
  destruct (test_generic b al sp blk R) as (r & b' & -> & Hr & R'). cbn [obind]. rewrite Hr.
  eexists. split; [done|]. split; [exists b'; done|apply later_refl].
Qed.

(** The clusters of a range of blocks. *)
Lemma block_range_touched b al sp blk num :
  represents b al sp -> 0 <= blk -> 1 <= num < 2 ^ 32 -> blk + num + 2 ^ 32 < 2 ^ 64 ->
  block_range b blk num = touched sp blk num /\
  forall c n, touched sp blk num = Some (c, n) -> lo sp <= c /\ 1 <= n < 2 ^ 32 /\ c + n - 1 <= hi sp.
Proof using.
  intros R Hb Hn H64. pose proof (represents_bounds _ _ _ R) as Hbd. pose proof (rep_cb_range _ _ _ R) as Hcb.
  unfold block_range, touched, cluster. rewrite (rep_cb _ _ _ R), (rep_start _ _ _ R), (rep_end _ _ _ R).
  assert (Hp : 1 <= 2 ^ cb sp < 2 ^ 32).
  { split; [apply (Z.pow_le_mono_r 2 0); lia|apply Z.pow_lt_mono_r; lia]. }
  rewrite (u64_small (blk + num)), (u64_small (_ + (2 ^ cb sp - 1))) by range_lia.
  rewrite !Z.shiftr_div_pow2 by lia.
  replace (blk + num + (2 ^ cb sp - 1)) with (blk + num - 1 + 1 * 2 ^ cb sp) by lia. rewrite Z.div_add by lia.
  assert (Hf : 0 <= blk / 2 ^ cb sp) by (apply Z.div_pos; lia).
  assert (Hfl : blk / 2 ^ cb sp <= (blk + num - 1) / 2 ^ cb sp) by (apply Z.div_le_mono; lia).
  assert (Hl : (blk + num - 1) / 2 ^ cb sp <= blk / 2 ^ cb sp + (num - 1)).
  { apply Z.lt_succ_r. apply Z.div_lt_upper_bound; [lia|].
    pose proof (Z.mul_succ_div_gt blk (2 ^ cb sp)). nia. }
  assert (Hlb : (blk + num - 1) / 2 ^ cb sp <= blk + num - 1).
  { apply Z.div_le_upper_bound; [lia|]. nia. }
  set (f := blk / 2 ^ cb sp) in *. set (l := (blk + num - 1) / 2 ^ cb sp) in *.
  rewrite (u32_small (l + 1 - f)), (u64_small (f + (l + 1 - f) - 1)) by range_lia.
  replace (f + (l + 1 - f) - 1) with l by lia. replace (l + 1 - f) with (l - f + 1) by lia.
  split.
  - destruct (Z.ltb_spec f (lo sp)), (Z.ltb_spec (hi sp) f), (Z.ltb_spec (hi sp) l), (Z.leb_spec (lo sp) f),
      (Z.leb_spec l (hi sp)); cbn [orb andb]; done || lia.
  - intros c n. destruct (Z.leb_spec (lo sp) f), (Z.leb_spec l (hi sp)); cbn [andb]; intros [= <- <-]. lia.
Qed.

Lemma mark_range_step b al sp blk num : represents b al sp -> allowed (CMarkRange blk num) sp ->
  step_ok (CMarkRange blk num) (Gen64 b, al) sp.
Proof using.
  intros R (Hb & Hn & H64). destruct (block_range_touched b al sp blk num R Hb Hn H64) as [E Hin].
  unfold step_ok; cbn [impl_step spec_step fst snd]. unfold ext2fs_mark_block_bitmap_range2.
  rewrite (dispatch_64 b al sp), E by done. destruct (touched sp blk num) as [[c n]|].
  2: { eexists. split; [done|]. split; [exists b; done|apply later_refl]. }
  destruct (Hin c n eq_refl) as (? & ? & ?). pose proof (represents_bounds _ _ _ R).
  destruct (mark_extent_law b al c n (rep_ok _ _ _ R)) as (b' & al' & -> & Hok & Hsh & Hl & Hm);
    [rewrite ?(rep_start _ _ _ R), ?(rep_top _ _ _ R); lia..|].
  cbn [obind]. eexists. split; [done|]. split; [|done]. apply (represents_step b al); try done.
  intros k Hk. rewrite Hm, (rep_used _ _ _ R) by done. done.
Qed.

Lemma unmark_range_step b al sp blk num : represents b al sp -> allowed (CUnmarkRange blk num) sp ->
  step_ok (CUnmarkRange blk num) (Gen64 b, al) sp.
Proof using.
  intros R (Hb & Hn & H64). destruct (block_range_touched b al sp blk num R Hb Hn H64) as [E Hin].
  unfold step_ok; cbn [impl_step spec_step fst snd]. unfold ext2fs_unmark_block_bitmap_range2.
  rewrite (dispatch_64 b al sp), E by done. destruct (touched sp blk num) as [[c n]|].
  2: { eexists. split; [done|]. split; [exists b; done|apply later_refl]. }
  destruct (Hin c n eq_refl) as (? & ? & ?). pose proof (represents_bounds _ _ _ R).
  destruct (unmark_extent_law b al c n (rep_ok _ _ _ R)) as (b' & al' & -> & Hok & Hsh & Hl & Hm);
    [rewrite ?(rep_start _ _ _ R), ?(rep_top _ _ _ R); lia..|].
  cbn [obind]. eexists. split; [done|]. split; [|done]. apply (represents_step b al); try done.
  intros k Hk. rewrite Hm, (rep_used _ _ _ R) by done. done.
Qed.

Lemma test_range_step b al sp blk num : represents b al sp -> allowed (CTestRange blk num) sp ->
  step_ok (CTestRange blk num) (Gen64 b, al) sp.
Proof using.
  intros R (Hb & Hn & H64). unfold step_ok; cbn [impl_step spec_step fst snd]. unfold ext2fs_test_block_bitmap_range2.
  destruct (Z.eqb_spec num 1).
  { destruct (test_generic b al sp blk R) as (r & b' & -> & Hr & R'). cbn [obind]. rewrite <- Hr.
    eexists. split; [destruct (r =? 0); done|]. split; [exists b'; done|apply later_refl]. }
  destruct (block_range_touched b al sp blk num R Hb Hn H64) as [E Hin].
  rewrite (dispatch_64 b al sp), E by done. destruct (touched sp blk num) as [[c n']|].
  2: { eexists. split; [done|]. split; [exists b; done|apply later_refl]. }
  destruct (Hin c n' eq_refl) as (? & ? & ?). pose proof (represents_bounds _ _ _ R).
  destruct (test_clear_law b al c n' (rep_ok _ _ _ R)) as (r & -> & Hr & Hiff);
    [rewrite ?(rep_start _ _ _ R), ?(rep_top _ _ _ R); lia..|].
  cbn [obind]. exists (Gen64 b, al). split; [|split; [exists b; done|apply later_refl]]. do 3 f_equal.
  destruct (first_from (used sp) (Z.to_nat n') c) as [j|] eqn:Ef.
  - apply first_from_Some in Ef as (Hj & Hf & _). destruct Hr as [|Hr1]; [done|].
    exfalso. pose proof (proj1 Hiff Hr1 j ltac:(lia)) as Hc. rewrite (rep_used _ _ _ R) in Hc by lia. congruence.
  - apply (proj2 Hiff). intros j Hj. rewrite (rep_used _ _ _ R) by lia.
    apply (proj1 (first_from_None _ _ _) Ef). lia.
Qed.

(** ** Searches *)

(** The first cluster found gives the first block found. *)
Lemma search_blocks sp (f : Z -> bool) s e :
  0 <= cb sp -> 0 <= s <= e ->
  match first_from f (Z.to_nat (cluster sp e - cluster sp s + 1)) (cluster sp s) with
  | Some c => (0, Some (if s <=? Z.shiftl c (cb sp) then Z.shiftl c (cb sp) else s))
  | None => (ENOENT, None)
  end = search ENOENT (fun k => f (cluster sp k)) s e.
Proof using.
  intros Hcb Hs. unfold search, cluster. rewrite !Z.shiftr_div_pow2 by lia.
  assert (Hp : 0 < 2 ^ cb sp) by lia. set (q := 2 ^ cb sp) in *.
  assert (Hmono : forall a b, a <= b -> a / q <= b / q) by (intros; apply Z.div_le_mono; lia).
  pose proof (Hmono s e ltac:(lia)). pose proof (Z.div_mod s q). pose proof (Z.mod_pos_bound s q).
  pose proof (Z.div_mod e q). pose proof (Z.mod_pos_bound e q).
  destruct (first_from f _ (s / q)) as [c|] eqn:E.
  - apply first_from_Some in E as (Hc & Hf & Hk). rewrite Z.shiftl_mul_pow2 by lia. fold q.
    set (j := if s <=? c * q then c * q else s).
    assert (Hj : s <= j <= e /\ j / q = c).
    { unfold j. destruct (Z.leb_spec s (c * q)).
      - split; [nia|apply Z.div_mul; lia].
      - assert (c = s / q) by nia. split; [lia|done]. }
    replace (first_from _ (Z.to_nat (e - s + 1)) s) with (Some j); [done|]. symmetry.
    apply first_from_Some. split; [lia|]. rewrite Z.shiftr_div_pow2 by lia. fold q.
    split; [rewrite (proj2 Hj); done|].
    intros k Hk'. rewrite Z.shiftr_div_pow2 by lia. fold q. apply Hk.
    pose proof (Hmono s k ltac:(lia)). split; [lia|].
    unfold j in Hk'. destruct (Z.leb_spec s (c * q)); [|lia]. apply Z.div_lt_upper_bound; lia.
  - replace (first_from _ (Z.to_nat (e - s + 1)) s) with (@None Z); [done|]. symmetry.
    apply first_from_None. intros k Hk. rewrite Z.shiftr_div_pow2 by lia. fold q.
    apply (proj1 (first_from_None _ _ _) E).
    pose proof (Hmono s k ltac:(lia)). pose proof (Hmono k e ltac:(lia)). lia.
Qed.

(** The search without help of the back end. *)
Lemma find_loop_ok want fuel b al sp c e :
  represents b al sp -> lo sp <= c -> e <= hi sp -> (Z.to_nat (e - c + 1) < fuel)%nat ->
  GenBitmap.find_loop fuel want b c e =
  Done (first_from (fun k => Bool.eqb (used sp k) want) (Z.to_nat (e - c + 1)) c).
Proof using.
  revert b c. induction fuel as [|fuel IH]; intros b c R Hc He Hf; [lia|].
  pose proof (represents_bounds _ _ _ R). cbn [GenBitmap.find_loop]. destruct (Z.leb_spec c e).
  - destruct (test_law b al c (rep_ok _ _ _ R)) as (r & b' & -> & Hr & Hok & Hsh & Hm).
    { rewrite (rep_start _ _ _ R), (rep_top _ _ _ R). lia. }
    cbn [obind]. rewrite (nonzero_iff r _ Hr), (rep_used _ _ _ R) by lia.
    replace (Z.to_nat (e - c + 1)) with (S (Z.to_nat (e - (c + 1) + 1))) by lia. cbn [first_from].
    destruct (Bool.eqb (used sp c) want); [done|]. rewrite u64_small by range_lia.
    destruct (represents_step b al sp b' al (used sp)) as (b1 & [= <-] & R1); try done.
    { intros k Hk. rewrite Hm. apply (rep_used _ _ _ R). done. }
    apply IH; [destruct sp; exact R1|lia..].
  - replace (Z.to_nat (e - c + 1)) with O by lia. done.
Qed.

(** A search through the generic layer, for a back end whose own search, if it
    has one, finds what [find_loop] finds. *)
Lemma find_first_ok want op op32 b al sp s e :
  represents b al sp -> is_u64 s -> is_u64 e ->
  (forall f c c', op = Some f -> lo sp <= c <= c' -> c' <= hi sp ->
     f b c c' = Done (search ENOENT (fun k => Bool.eqb (marked b k) want) c c')) ->
  find_first want op op32 (Gen64 b) s e =
  Done (if (lo sp <=? cluster sp s) && (cluster sp e <=? hi sp) && (s <=? e)
        then search ENOENT (fun k => Bool.eqb (in_use sp k) want) s e else (EINVAL, None)).
Proof using.
  intros R Hs He Hop. unfold find_first. rewrite (dispatch_64 b al sp) by done.
  rewrite !(cluster_bits_eq b al sp) by done.
  rewrite (rep_start _ _ _ R), (rep_end _ _ _ R), (rep_cb _ _ _ R).
  pose proof (rep_cb_range _ _ _ R). unfold is_u64 in *.
  destruct (Z.ltb_spec (cluster sp s) (lo sp)), (Z.ltb_spec (hi sp) (cluster sp e)), (Z.ltb_spec e s),
    (Z.leb_spec (lo sp) (cluster sp s)), (Z.leb_spec (cluster sp e) (hi sp)), (Z.leb_spec s e);
    cbn [orb andb]; try done; try lia.
  assert (Hcl : cluster sp s <= cluster sp e).
  { unfold cluster. rewrite !Z.shiftr_div_pow2 by lia. apply Z.div_le_mono; lia. }
  assert (Es : search ENOENT (fun k => Bool.eqb (in_use sp k) want) s e =
               search ENOENT (fun k => Bool.eqb (used sp (cluster sp k)) want) s e).
  { apply search_ext. intros j Hj. unfold in_use.
    replace (has_cluster sp (cluster sp j)) with true; [done|]. symmetry. apply has_cluster_spec.
    assert (cluster sp s <= cluster sp j <= cluster sp e); [|lia].
    unfold cluster. rewrite !Z.shiftr_div_pow2 by lia. split; apply Z.div_le_mono; lia. }
  rewrite Es, <- search_blocks with (f := fun k => Bool.eqb (used sp k) want) by lia.
  destruct op as [f|].
  - rewrite Hop by (done || lia). cbn [obind]. unfold search.
    rewrite (first_from_ext _ (fun k => Bool.eqb (used sp k) want)).
    2: { intros k Hk. rewrite (rep_used _ _ _ R) by lia. done. }
    destruct (first_from _ _ _); done.
  - rewrite (find_loop_ok want _ b al sp) by (done || lia). cbn [obind].
    destruct (first_from _ _ _); done.
Qed.

Lemma find_set_step b al sp s e : represents b al sp -> allowed (CFindSet s e) sp ->
  step_ok (CFindSet s e) (Gen64 b, al) sp.
Proof using.
  intros R [Hs He]. unfold step_ok. cbn [impl_step spec_step fst snd]. unfold ext2fs_find_first_set_generic_bmap.
  pose proof (represents_bounds _ _ _ R).
  rewrite (find_first_ok true _ _ b al sp s e R Hs He).
  - cbn [obind]. exists (Gen64 b, al). split; [|split; [exists b; done|apply later_refl]].
    rewrite (search_ext (fun k => Bool.eqb (in_use sp k) true) (in_use sp)); [done|].
    intros j _. destruct (in_use sp j); done.
  - intros f c c' Ef Hc Hc'.
    rewrite (find_set_law f b al c c' Ef (rep_ok _ _ _ R));
      [|rewrite ?(rep_start _ _ _ R), ?(rep_top _ _ _ R); lia..].
    rewrite (search_ext (fun k => Bool.eqb (marked b k) true) (marked b)); [done|].
    intros j _. destruct (marked b j); done.
Qed.

Lemma find_zero_step b al sp s e : represents b al sp -> allowed (CFindZero s e) sp ->
  step_ok (CFindZero s e) (Gen64 b, al) sp.
Proof using.
  intros R (Hs & He & c0 & Hc0 & Hu0). unfold step_ok. cbn [impl_step spec_step fst snd].
  unfold ext2fs_find_first_zero_generic_bmap. pose proof (represents_bounds _ _ _ R).
  rewrite (find_first_ok false _ _ b al sp s e R Hs He); [exists (Gen64 b, al); split; [done|split; [exists b; done|apply later_refl]]|].
  intros f c c' Ef Hc Hc'.
  rewrite (find_zero_law f b al c c' Ef (rep_ok _ _ _ R)); [done|..].
  - rewrite ?(rep_start _ _ _ R), ?(rep_top _ _ _ R); lia.
  - rewrite ?(rep_start _ _ _ R), ?(rep_top _ _ _ R); lia.
  - apply has_cluster_spec in Hc0. exists c0. rewrite (rep_used _ _ _ R) by lia. done.
Qed.

(** ** The whole bitmap *)

Lemma clear_step b al sp : represents b al sp -> step_ok CClear (Gen64 b, al) sp.
Proof using.
  intros R. unfold step_ok. cbn [impl_step spec_step fst snd]. unfold ext2fs_clear_generic_bmap.
  rewrite (proj1 (rep_magic _ _ _ R)).
  destruct (clear_law b al (rep_ok _ _ _ R)) as (b' & -> & Hok & Hsh & Hm). cbn [obind].
  eexists. split; [done|]. split; [|apply later_refl]. apply (represents_step b al); done.
Qed.

Lemma resize_step b al sp e re : represents b al sp -> allowed (CResize e re) sp ->
  step_ok (CResize e re) (Gen64 b, al) sp.
Proof using.
  intros R (He & Hre & Hc). unfold step_ok. cbn [impl_step spec_step fst snd]. unfold ext2fs_resize_generic_bmap.
  rewrite (dispatch_64 b al sp) by done.
  destruct (resize_law b al e re (rep_ok _ _ _ R)) as (b' & al' & -> & Hok & (Em & Es & Ee & Er & Ec & _) & Hl & Hm);
    [rewrite ?(rep_start _ _ _ R), ?(rep_top _ _ _ R); lia || done..|].
  cbn [obind]. eexists. split; [done|]. split; [|done]. exists b'. split; [done|].
  destruct R as [[Hm1 Hm2] Ho Hs He' Ht Hc' Hcr Hu]. cbn [set_ends magic start end_ real_end cluster_bits] in *.
  constructor; cbn [snd lo hi top cb used]; rewrite ?Em; try done; try congruence.
  intros c Hc0. rewrite Hm, He' by done. destruct (Z.leb_spec c (hi sp)); [|done]. rewrite Hu by done. done.
Qed.

Lemma impl_step_ok c s sp : rel s sp -> allowed c sp -> step_ok c s sp.
Proof using.
  destruct s as [g al]. intros (b & E & R) Ha. cbn [fst snd] in E, R. subst g.
  destruct c; eauto using mark_step, unmark_step, test_step, mark_range_step, unmark_range_step,
    test_range_step, find_set_step, find_zero_step, clear_step, resize_step.
Qed.

Lemma impl_run_ok cs s sp : rel s sp -> allowed_run cs sp -> impl_run cs s = Done (spec_run cs sp).
Proof using.
  revert s sp. induction cs as [|c cs IH]; intros s sp Hr Ha; [done|]. destruct Ha as [Hc Ha].
  cbn [impl_run spec_run]. destruct (impl_step_ok c s sp Hr Hc) as (s' & -> & Hr' & _). cbn [obind].
  destruct (spec_step c sp) as [a sp'] eqn:E. cbn [fst snd] in *. rewrite (IH s' sp') by done. done.
Qed.
End refinement.
