(* ===== verification/BitArray.v ===== *)
(** lib/ext2fs/blkmap64_ba.c: the back end of 64-bit bitmaps that keeps one bit
    for every number in an array of bytes. *)

From S2P Require Import Prelude Bitops Bitmap64.

Local Open Scope Z_scope.

Definition EXT2_ET_NO_MEMORY : Z := 2133571398.

(** [struct ext2fs_ba_private_struct]; [ba_addr] is the address of the array. *)
Record ba_private := mk_ba { bitarray : list Z; ba_addr : Z }.

Definition set_bitarray (b : bmap64 ba_private) (l : list Z) : outcome (bmap64 ba_private) :=
  let* bp := get_private b in Done (set_private b (mk_ba l (ba_addr bp))).

Definition ba_size (st re : Z) : Z := u64 (re - st) / 8 + 1.

(** * Creating, copying and resizing *)

(** The bytes of the new array are those of fresh memory; both callers overwrite
    all of them. *)
Definition ba_alloc_private_data (s : st ba_private) : Z * st ba_private :=
  let (b, al) := s in
  let (p, al) := malloc al in
  match p with
  | None => (EXT2_ET_NO_MEMORY, (b, al))
  | Some _ =>
      let (q, al) := malloc al in
      match q with
      | None => (EXT2_ET_NO_MEMORY, (b, al))
      | Some a => (0, (set_private b (mk_ba (replicate (Z.to_nat (ba_size (start b) (real_end b))) 0) a), al))
      end
  end.

Definition ba_new_bmap (s : st ba_private) : outcome (Z * st ba_private) :=
  let (retval, s) := ba_alloc_private_data s in
  if negb (retval =? 0) then Done (retval, s)
  else
    let (b, al) := s in
    let* bp := get_private b in
    let* l := store_bytes (bitarray bp) 0 (replicate (Z.to_nat (ba_size (start b) (real_end b))) 0) in
    let* b := set_bitarray b l in
    Done (0, (b, al)).

Definition ba_free_bmap (b : bmap64 ba_private) : outcome (bmap64 ba_private) :=
  Done (mk_bmap (magic b) (start b) (end_ b) (real_end b) (cluster_bits b) (description b)
          (base_error_code b) None).

Definition ba_copy_bmap (src : bmap64 ba_private) (dest : st ba_private)
  : outcome (Z * bmap64 ba_private * st ba_private) :=
  let* src_bp := get_private src in
  let (retval, s) := ba_alloc_private_data dest in
  if negb (retval =? 0) then Done (retval, src, s)
  else
    let (d, al) := s in
    let* dest_bp := get_private d in
    let* bytes := load_bytes (bitarray src_bp) 0 (ba_size (start src) (real_end src)) in
    let* l := store_bytes (bitarray dest_bp) 0 bytes in
    let* d := set_bitarray d l in
    Done (0, src, (d, al)).

(** [for (; bitno > bmap->end; bitno--) ext2fs_clear_bit64(bitno - start)] *)
Fixpoint ba_clear_down (fuel : nat) (l : list Z) (st en bitno : Z) : outcome (list Z) :=
  match fuel with
  | O => Crash OutOfFuel
  | S fuel =>
      if en <? bitno then
        let* (_, l) := ext2fs_clear_bit64 (bitno - st) l in
        ba_clear_down fuel l st en (bitno - 1)
      else Done l
  end.

Definition ba_resize_bmap (s : st ba_private) (new_end new_real_end : Z) : outcome (Z * st ba_private) :=
  let (b, al) := s in
  let* bp := get_private b in
  let* l := if end_ b <? new_end
            then
              let bitno := real_end b in
              let bitno := if new_end <? bitno then new_end else bitno in
              ba_clear_down (S (Z.to_nat (bitno - end_ b))) (bitarray bp) (start b) (end_ b) bitno
            else Done (bitarray bp) in
  let* b := set_bitarray b l in
  if new_real_end =? real_end b then Done (0, (set_ends b new_end (real_end b), al))
  else
    let size := ba_size (start b) (real_end b) in
    let new_size := ba_size (start b) new_real_end in
    let (p, al) := if negb (size =? new_size) then malloc al else (Some (ba_addr bp), al) in
    match p with
    | None => Done (EXT2_ET_NO_MEMORY, (b, al))
    | Some a =>
        let l := if negb (size =? new_size)
                 then take (Z.to_nat new_size) (l ++ replicate (Z.to_nat (new_size - size)) 0) else l in
        let* l := if size <? new_size
                  then store_bytes l size (replicate (Z.to_nat (new_size - size)) 0) else Done l in
        Done (0, (set_ends (set_private b (mk_ba l a)) new_end new_real_end, al))
    end.

(** * Bits and extents *)

Definition ba_mark_bmap (s : st ba_private) (arg : Z) : outcome (Z * st ba_private) :=
  let (b, al) := s in
  let* bp := get_private b in
  let* (r, l) := ext2fs_set_bit64 (u64 (arg - start b)) (bitarray bp) in
  let* b := set_bitarray b l in
  Done (r, (b, al)).

Definition ba_unmark_bmap (s : st ba_private) (arg : Z) : outcome (Z * st ba_private) :=
  let (b, al) := s in
  let* bp := get_private b in
  let* (r, l) := ext2fs_clear_bit64 (u64 (arg - start b)) (bitarray bp) in
  let* b := set_bitarray b l in
  Done (r, (b, al)).

Definition ba_test_bmap (b : bmap64 ba_private) (arg : Z) : outcome (Z * bmap64 ba_private) :=
  let* bp := get_private b in
  let* r := ext2fs_test_bit64 (u64 (arg - start b)) (bitarray bp) in
  Done (r, b).

(** [for (i = 0; i < num; i++) op(bitno + i - bitmap->start, bp->bitarray)] *)
Fixpoint extent_loop (op : Z -> list Z -> outcome (list Z)) (n : nat) (nr : Z) (l : list Z) : outcome (list Z) :=
  match n with
  | O => Done l
  | S n => let* l := op (u64 nr) l in extent_loop op n (nr + 1) l
  end.

Definition ba_mark_bmap_extent (s : st ba_private) (arg num : Z) : outcome (st ba_private) :=
  let (b, al) := s in
  let* bp := get_private b in
  let* l := extent_loop ext2fs_fast_set_bit64 (Z.to_nat num) (arg - start b) (bitarray bp) in
  let* b := set_bitarray b l in
  Done (b, al).

Definition ba_unmark_bmap_extent (s : st ba_private) (arg num : Z) : outcome (st ba_private) :=
  let (b, al) := s in
  let* bp := get_private b in
  let* l := extent_loop ext2fs_fast_clear_bit64 (Z.to_nat num) (arg - start b) (bitarray bp) in
  let* b := set_bitarray b l in
  Done (b, al).

Definition ba_test_clear_bmap_extent (b : bmap64 ba_private) (arg len : Z) : outcome Z :=
  let* bp := get_private b in
  test_clear_bits (bitarray bp) (u64 (arg - start b)) len.

(** The index is [start >> 3], not [(start - bitmap->start) >> 3]. *)
Definition ba_set_bmap_range (s : st ba_private) (arg num : Z) (inp : list Z) : outcome (Z * st ba_private) :=
  let (b, al) := s in
  let* bp := get_private b in
  let* bytes := load_bytes inp 0 (Z.shiftr (num + 7) 3) in
  let* l := store_bytes (bitarray bp) (Z.shiftr arg 3) bytes in
  let* b := set_bitarray b l in
  Done (0, (b, al)).

Definition ba_get_bmap_range (b : bmap64 ba_private) (arg num : Z) (out : list Z) : outcome (Z * list Z) :=
  let* bp := get_private b in
  let* bytes := load_bytes (bitarray bp) (Z.shiftr arg 3) (Z.shiftr (num + 7) 3) in
  let* out := store_bytes out 0 bytes in
  Done (0, out).

Definition ba_clear_bmap (b : bmap64 ba_private) : outcome (bmap64 ba_private) :=
  let* bp := get_private b in
  let* l := store_bytes (bitarray bp) 0 (replicate (Z.to_nat (ba_size (start b) (real_end b))) 0) in
  set_bitarray b l.

(** * The searches

    [ba_find_first_zero] and [ba_find_first_set] have the same text but for the
    value [want] of the bit and the bytes ([skip8]) and words ([skip64]) that
    are passed over: 0xff and all ones, or 0 and 0. *)

(** Scan bits until a byte boundary: found, or the position and the rest. *)
Fixpoint scan_to_byte (fuel : nat) (want : bool) (l : list Z) (bitpos count : Z) : outcome (Z + Z * Z) :=
  match fuel with
  | O => Crash OutOfFuel
  | S fuel =>
      if negb (Z.land bitpos 7 =? 0) && (0 <? count) then
        let* r := ext2fs_test_bit64 bitpos l in
        if Bool.eqb (negb (r =? 0)) want then Done (inl bitpos)
        else scan_to_byte fuel want l (bitpos + 1) (count - 1)
      else Done (inr (bitpos, count))
  end.

(** Scan bytes until [pos] is a multiple of 8: (byte_found, pos, count, bitpos). *)
Fixpoint scan_to_word (fuel : nat) (skip8 : Z) (l : list Z) (addr pos count bitpos : Z)
  : outcome (bool * Z * Z * Z) :=
  match fuel with
  | O => Crash OutOfFuel
  | S fuel =>
      if (8 <=? count) && negb (Z.land (addr + pos) 7 =? 0) then
        let* b := load l pos in
        if negb (b =? skip8) then Done (true, pos, count, bitpos)
        else scan_to_word fuel skip8 l addr (pos + 1) (count - 8) (bitpos + 8)
      else Done (false, pos, count, bitpos)
  end.

(** Skip words, [i] of them at most: the position and how many are left. *)
Fixpoint scan_words (i : nat) (skip64 : Z) (l : list Z) (pos : Z) : outcome (Z * nat) :=
  match i with
  | O => Done (pos, O)
  | S i' =>
      let* bs := load_bytes l pos 8 in
      if negb (le_decode bs =? skip64) then Done (pos, i)
      else scan_words i' skip64 l (pos + 8)
  end.

Fixpoint scan_bytes (i : nat) (skip8 : Z) (l : list Z) (pos : Z) : outcome (Z * nat) :=
  match i with
  | O => Done (pos, O)
  | S i' =>
      let* b := load l pos in
      if negb (b =? skip8) then Done (pos, i)
      else scan_bytes i' skip8 l (pos + 1)
  end.

Fixpoint scan_bits (count : nat) (want : bool) (l : list Z) (bitpos : Z) : outcome (option Z) :=
  match count with
  | O => Done None
  | S count =>
      let* r := ext2fs_test_bit64 bitpos l in
      if Bool.eqb (negb (r =? 0)) want then Done (Some bitpos)
      else scan_bits count want l (bitpos + 1)
  end.

Definition ba_find_first (want : bool) (skip8 skip64 : Z) (b : bmap64 ba_private) (s e : Z)
  : outcome (Z * option Z) :=
  let* bp := get_private b in
  let l := bitarray bp in
  let* head := scan_to_byte 8 want l (u64 (s - start b)) (u64 (e - s + 1)) in
  match head with
  | inl bitpos => Done (0, Some (bitpos + start b))
  | inr (bitpos, count) =>
      if count =? 0 then Done (ENOENT, None)
      else
        let pos := Z.shiftr bitpos 3 in
        let* (byte_found, pos, count, bitpos) := scan_to_word 8 skip8 l (ba_addr bp) pos count bitpos in
        let* (bitpos, count) :=
          if byte_found then Done (bitpos, count)
          else
            let max_loop_count := Z.shiftr count 6 in
            let* (pos, i) := scan_words (Z.to_nat max_loop_count) skip64 l pos in
            let count := count - 64 * (max_loop_count - Z.of_nat i) in
            let bitpos := bitpos + 64 * (max_loop_count - Z.of_nat i) in
            let max_loop_count := Z.shiftr count 3 in
            let* (pos, i) := scan_bytes (Z.to_nat max_loop_count) skip8 l pos in
            Done (bitpos + 8 * (max_loop_count - Z.of_nat i), count - 8 * (max_loop_count - Z.of_nat i)) in
        let* out := scan_bits (Z.to_nat count) want l bitpos in
        match out with
        | Some bitpos => Done (0, Some (bitpos + start b))
        | None => Done (ENOENT, None)
        end
  end.

Definition ba_find_first_zero := ba_find_first false 0xff (2 ^ 64 - 1).
Definition ba_find_first_set := ba_find_first true 0 0.

(** [ext2fs_blkmap64_bitarray] *)
#[export] Instance ext2fs_blkmap64_bitarray : BitmapOps ba_private := {
  new_bmap := ba_new_bmap;
  free_bmap := ba_free_bmap;
  copy_bmap := ba_copy_bmap;
  resize_bmap := ba_resize_bmap;
  mark_bmap := ba_mark_bmap;
  unmark_bmap := ba_unmark_bmap;
  test_bmap := ba_test_bmap;
  mark_bmap_extent := ba_mark_bmap_extent;
  unmark_bmap_extent := ba_unmark_bmap_extent;
  test_clear_bmap_extent := ba_test_clear_bmap_extent;
  set_bmap_range := ba_set_bmap_range;
  get_bmap_range := ba_get_bmap_range;
  clear_bmap := ba_clear_bmap;
  find_first_zero := Some ba_find_first_zero;
  find_first_set := Some ba_find_first_set }.

(** * The set an array stands for *)

Definition ba_marked (b : bmap64 ba_private) (j : Z) : bool :=
  match private b with
  | Some bp => (start b <=? j) && bit (bitarray bp) (j - start b)
  | None => false
  end.

(** The array has the size of the bitmap, and the bits behind its end are clear. *)
Definition array_ok (st re : Z) (l : list Z) : Prop :=
  bytes_ok l /\ Z.of_nat (length l) = (re - st) / 8 + 1 /\ forall i, re - st < i -> bit l i = false.

Definition ba_ok (s : st ba_private) : Prop :=
  header_ok (fst s) /\ no_oom (snd s) /\
  exists bp, private (fst s) = Some bp /\ array_ok (start (fst s)) (real_end (fst s)) (bitarray bp).

Lemma ba_size_ok st re : 0 <= st <= re -> re < 2 ^ 64 -> ba_size st re = (re - st) / 8 + 1.
Proof. intros. unfold ba_size. rewrite u64_small by range_lia. done. Qed.

Lemma array_index st re l i : array_ok st re l -> 0 <= i <= re - st -> 0 <= i < 8 * Z.of_nat (length l).
Proof.
  intros (_ & E & _) Hi. rewrite E. pose proof (Z.div_mod (re - st) 8). pose proof (Z.mod_pos_bound (re - st) 8).
  lia.
Qed.

Lemma bit_outside l i : 8 * Z.of_nat (length l) <= i -> bit l i = false.
Proof.
  intros Hi. unfold bit. rewrite lookup_ge_None_2; [apply Z.bits_0|].
  pose proof (Z.div_le_lower_bound i 8 (Z.of_nat (length l))). lia.
Qed.

(** Changing the bits of a bitmap inside of it. *)
Lemma ba_update b al bp l' f :
  ba_ok (b, al) -> private b = Some bp -> updated (bitarray bp) l' f ->
  (forall i, real_end b - start b < i -> f i false = false) ->
  set_bitarray b l' = Done (set_private b (mk_ba l' (ba_addr bp))) /\
  ba_ok (set_private b (mk_ba l' (ba_addr bp)), al) /\
  same_header b (set_private b (mk_ba l' (ba_addr bp))) /\
  forall j, ba_marked (set_private b (mk_ba l' (ba_addr bp))) j =
    if start b <=? j then f (j - start b) (ba_marked b j) else false.
Proof.
  intros (Hh & Hal & bp' & Hp & Ha) Hbp (Hlen & Hok & Hbit) Hf. cbn [fst snd] in *.
  rewrite Hbp in Hp. injection Hp as <-. destruct Ha as (Hb & Hl & Hz).
  split. { unfold set_bitarray, get_private. rewrite Hbp. done. }
  split.
  { split; [done|]. split; [done|]. eexists. split; [done|]. split; [done|].
    split; [cbn [bitarray]; rewrite Hlen; done|].
    intros i Hi. cbn [fst start real_end set_private] in Hi. cbn [bitarray].
    destruct Hh. rewrite Hbit, Hz by lia. apply Hf. done. }
  split; [repeat split|]. intros j. unfold ba_marked. rewrite Hbp. cbn [private set_private start bitarray].
  destruct (Z.leb_spec (start b) j); [|done]. cbn [andb]. apply Hbit. lia.
Qed.

Ltac ba_open H bp :=
  let Hh := fresh "Hh" in let Hal := fresh "Hal" in let Hp := fresh "Hp" in let Ha := fresh "Ha" in
  pose proof H as (Hh & Hal & bp & Hp & Ha); cbn [fst snd] in Hh, Hal, Hp, Ha.

Lemma ba_marked_bit b bp j : private b = Some bp -> start b <= j ->
  ba_marked b j = bit (bitarray bp) (j - start b).
Proof. intros Hp Hj. unfold ba_marked. rewrite Hp. destruct (Z.leb_spec (start b) j); [done|lia]. Qed.

Lemma ba_marked_below b j : j < start b -> ba_marked b j = false.
Proof. intros. unfold ba_marked. destruct (private b); [|done]. destruct (Z.leb_spec (start b) j); [lia|done]. Qed.

Lemma ba_marked_inside b al j : ba_ok (b, al) -> ba_marked b j = true -> start b <= j <= real_end b.
Proof.
  intros H Hm. ba_open H bp. unfold ba_marked in Hm. rewrite Hp in Hm.
  apply andb_true_iff in Hm as [Hs Hb]. apply Z.leb_le in Hs. destruct Ha as (_ & _ & Hz).
  split; [done|]. destruct (Z.le_gt_cases j (real_end b)); [done|]. rewrite Hz in Hb by lia. done.
Qed.

Lemma ba_later b al al' : ba_ok (b, al) -> later al al' -> ba_ok (b, al').
Proof.
  intros (Hh & Hal & Hr) [_ Ho]. split; [done|]. split; [|done].
  intros n. cbn [snd] in *. rewrite Ho. apply Hal.
Qed.

Lemma ba_mark_law b al i : ba_ok (b, al) -> start b <= i <= real_end b ->
  exists r b' al', ba_mark_bmap (b, al) i = Done (r, (b', al')) /\ (r <> 0 <-> ba_marked b i = true) /\
    ba_ok (b', al') /\ same_header b b' /\ later al al' /\
    forall j, ba_marked b' j = (j =? i) || ba_marked b j.
Proof.
  intros H Hi. ba_open H bp. destruct Hh as (? & ? & ?).
  pose proof (array_index _ _ _ (i - start b) Ha ltac:(lia)) as Hx.
  unfold ba_mark_bmap, get_private. rewrite Hp. cbn [obind]. rewrite u64_small by range_lia.
  destruct (set_bit64_ok _ _ (proj1 Ha) Hx) as (r & l' & E & Hr & Hu). rewrite E. cbn [obind].
  destruct (ba_update b al bp l' _ H Hp Hu) as (Es & Hok & Hsh & Hm).
  { intros k Hk. destruct (Z.eqb_spec k (i - start b)); [lia|done]. }
  rewrite Es. cbn [obind]. do 3 eexists. split; [done|].
  split; [rewrite Hr, (ba_marked_bit b bp) by (done || lia); done|].
  split; [exact Hok|]. split; [done|]. split; [apply later_refl|]. intros j. rewrite Hm.
  destruct (Z.leb_spec (start b) j).
  - f_equal. destruct (Z.eqb_spec (j - start b) (i - start b)), (Z.eqb_spec j i); done || lia.
  - rewrite ba_marked_below by done. destruct (Z.eqb_spec j i); [lia|done].
Qed.

Lemma ba_unmark_law b al i : ba_ok (b, al) -> start b <= i <= real_end b ->
  exists r b' al', ba_unmark_bmap (b, al) i = Done (r, (b', al')) /\ (r <> 0 <-> ba_marked b i = true) /\
    ba_ok (b', al') /\ same_header b b' /\ later al al' /\
    forall j, ba_marked b' j = negb (j =? i) && ba_marked b j.
Proof.
  intros H Hi. ba_open H bp. destruct Hh as (? & ? & ?).
  pose proof (array_index _ _ _ (i - start b) Ha ltac:(lia)) as Hx.
  unfold ba_unmark_bmap, get_private. rewrite Hp. cbn [obind]. rewrite u64_small by range_lia.
  destruct (clear_bit64_ok _ _ (proj1 Ha) Hx) as (r & l' & E & Hr & Hu). rewrite E. cbn [obind].
  destruct (ba_update b al bp l' _ H Hp Hu) as (Es & Hok & Hsh & Hm).
  { intros k Hk. apply andb_false_r. }
  rewrite Es. cbn [obind]. do 3 eexists. split; [done|].
  split; [rewrite Hr, (ba_marked_bit b bp) by (done || lia); done|].
  split; [exact Hok|]. split; [done|]. split; [apply later_refl|]. intros j. rewrite Hm.
  destruct (Z.leb_spec (start b) j).
  - f_equal. f_equal. destruct (Z.eqb_spec (j - start b) (i - start b)), (Z.eqb_spec j i); done || lia.
  - rewrite ba_marked_below by done. symmetry. apply andb_false_r.
Qed.

Lemma ba_test_law b al i : ba_ok (b, al) -> start b <= i <= real_end b ->
  exists r b', ba_test_bmap b i = Done (r, b') /\ (r <> 0 <-> ba_marked b i = true) /\
    ba_ok (b', al) /\ same_header b b' /\ forall j, ba_marked b' j = ba_marked b j.
Proof.
  intros H Hi. ba_open H bp. destruct Hh as (? & ? & ?).
  pose proof (array_index _ _ _ (i - start b) Ha ltac:(lia)) as Hx.
  unfold ba_test_bmap, get_private. rewrite Hp. cbn [obind]. rewrite u64_small by range_lia.
  destruct (test_bit64_ok _ _ Hx) as (r & E & Hr). rewrite E. cbn [obind]. do 2 eexists. split; [done|].
  split; [rewrite Hr, (ba_marked_bit b bp) by (done || lia); done|].
  split; [exact H|]. split; [apply same_header_refl|done].
Qed.

(** ** Extents *)

(** A loop over an operation that changes one bit. *)
Lemma extent_loop_ok op (f : bool -> bool) n nr l :
  (forall nr l, bytes_ok l -> 0 <= nr < 8 * Z.of_nat (length l) ->
     exists l', op nr l = Done l' /\ updated l l' (fun j x => if j =? nr then f x else x)) ->
  bytes_ok l -> 0 <= nr -> nr + Z.of_nat n <= 8 * Z.of_nat (length l) -> nr + Z.of_nat n <= 2 ^ 64 ->
  exists l', extent_loop op n nr l = Done l' /\
    updated l l' (fun j x => if in_range j nr (Z.of_nat n) then f x else x).
Proof.
  intros Hop. revert nr l. induction n as [|n IH]; intros nr l Hok Hnr Hn H64; cbn [extent_loop].
  - exists l. split; [done|]. eapply updated_ext; [by apply updated_refl|]. intros i x Hi.
    destruct (in_range i nr (Z.of_nat 0)) eqn:E; [apply in_range_spec in E; lia|done].
  - rewrite u64_small by range_lia.
    destruct (Hop nr l Hok ltac:(lia)) as (l1 & -> & Hu1). cbn [obind]. pose proof Hu1 as (Hl1 & Hok1 & _).
    destruct (IH (nr + 1) l1) as (l2 & -> & Hu2); [done|lia|lia|lia|].
    exists l2. split; [done|]. eapply updated_ext; [apply (updated_trans _ _ _ _ _ Hu1 Hu2)|].
    intros i x Hi. cbv beta. unfold in_range.
    destruct (Z.eqb_spec i nr), (Z.leb_spec (nr + 1) i), (Z.ltb_spec i (nr + 1 + Z.of_nat n)),
      (Z.leb_spec nr i), (Z.ltb_spec i (nr + Z.of_nat (S n))); cbn [andb]; done || lia.
Qed.

Lemma ba_extent_law op (f : bool -> bool) b al i n :
  (forall nr l, bytes_ok l -> 0 <= nr < 8 * Z.of_nat (length l) ->
     exists l', op nr l = Done l' /\ updated l l' (fun j x => if j =? nr then f x else x)) ->
  ba_ok (b, al) -> start b <= i -> 0 <= n < 2 ^ 32 -> i + n - 1 <= real_end b ->
  exists b',
    (let* bp := get_private b in
     let* l := extent_loop op (Z.to_nat n) (i - start b) (bitarray bp) in
     let* b := set_bitarray b l in Done (b, al)) = Done (b', al) /\
    ba_ok (b', al) /\ same_header b b' /\
    forall j, ba_marked b' j = if in_range j i n then f (ba_marked b j) else ba_marked b j.
Proof.
  intros Hop H Hi Hn Hr. ba_open H bp. destruct Hh as (? & ? & ?).
  assert (Hx : i - start b + Z.of_nat (Z.to_nat n) <= 8 * Z.of_nat (length (bitarray bp))).
  { destruct (Z.eq_dec (i - start b + n) 0); [lia|].
    pose proof (array_index _ _ _ (i - start b + n - 1) Ha ltac:(lia)). lia. }
  unfold get_private. rewrite Hp. cbn [obind].
  destruct (extent_loop_ok op f (Z.to_nat n) (i - start b) (bitarray bp) Hop (proj1 Ha)) as (l' & -> & Hu); [lia..|].
  rewrite Z2Nat.id in Hu by lia. cbn [obind].
  destruct (ba_update b al bp l' _ H Hp Hu) as (Es & Hok & Hsh & Hm).
  { intros k Hk. destruct (in_range k _ _) eqn:E; [apply in_range_spec in E; lia|done]. }
  rewrite Es. cbn [obind]. eexists. split; [done|]. split; [exact Hok|]. split; [done|].
  intros j. rewrite Hm. destruct (Z.leb_spec (start b) j).
  - replace (in_range (j - start b) (i - start b) n) with (in_range j i n); [done|].
    apply eq_true_iff_eq. rewrite !in_range_spec. lia.
  - rewrite ba_marked_below by done.
    destruct (in_range j i n) eqn:E; [apply in_range_spec in E; lia|done].
Qed.

Lemma ba_mark_extent_law b al i n :
  ba_ok (b, al) -> start b <= i -> 0 <= n < 2 ^ 32 -> i + n - 1 <= real_end b ->
  exists b' al', ba_mark_bmap_extent (b, al) i n = Done (b', al') /\
    ba_ok (b', al') /\ same_header b b' /\ later al al' /\
    forall j, ba_marked b' j = in_range j i n || ba_marked b j.
Proof.
  intros H Hi Hn Hr.
  destruct (ba_extent_law ext2fs_fast_set_bit64 (fun _ => true) b al i n) as (b' & E & Hok & Hs & Hm); try done.
  { intros nr l Hl Hnr. destruct (fast_set_bit64_ok l nr Hl Hnr) as (l' & E & Hu). exists l'. split; [done|].
    eapply updated_ext; [exact Hu|]. intros j x _. simpl. destruct (j =? nr); done. }
  exists b', al. split; [exact E|]. do 2 (split; [done|]). split; [apply later_refl|].
  intros j. rewrite Hm. destruct (in_range j i n); done.
Qed.

Lemma ba_unmark_extent_law b al i n :
  ba_ok (b, al) -> start b <= i -> 0 <= n < 2 ^ 32 -> i + n - 1 <= real_end b ->
  exists b' al', ba_unmark_bmap_extent (b, al) i n = Done (b', al') /\
    ba_ok (b', al') /\ same_header b b' /\ later al al' /\
    forall j, ba_marked b' j = negb (in_range j i n) && ba_marked b j.
Proof.
  intros H Hi Hn Hr.
  destruct (ba_extent_law ext2fs_fast_clear_bit64 (fun _ => false) b al i n) as (b' & E & Hok & Hs & Hm); try done.
  { intros nr l Hl Hnr. destruct (fast_clear_bit64_ok l nr Hl Hnr) as (l' & E & Hu). exists l'. split; [done|].
    eapply updated_ext; [exact Hu|]. intros j x _. simpl. destruct (j =? nr); done. }
  exists b', al. split; [exact E|]. do 2 (split; [done|]). split; [apply later_refl|].
  intros j. rewrite Hm. destruct (in_range j i n); done.
Qed.

Lemma ba_test_clear_law b al i n :
  ba_ok (b, al) -> start b <= i -> 0 <= n < 2 ^ 32 -> i + n - 1 <= real_end b ->
  decides (ba_test_clear_bmap_extent b i n) (forall j, i <= j < i + n -> ba_marked b j = false).
Proof.
  intros H Hi Hn Hr. ba_open H bp. destruct Hh as (? & ? & ?).
  unfold ba_test_clear_bmap_extent, get_private. rewrite Hp. cbn [obind]. rewrite u64_small by range_lia.
  assert (Hx : i - start b + n <= 8 * Z.of_nat (length (bitarray bp))).
  { destruct (Z.eq_dec (i - start b + n) 0); [lia|].
    pose proof (array_index _ _ _ (i - start b + n - 1) Ha ltac:(lia)). lia. }
  destruct (test_clear_bits_ok (bitarray bp) (i - start b) n (proj1 Ha)) as (r & E & Hb & Hiff); [lia..|].
  exists r. split; [done|]. split; [done|]. rewrite Hiff. unfold clear_range. split; intros Hc j Hj.
  - rewrite (ba_marked_bit b bp) by (done || lia). apply Hc. lia.
  - specialize (Hc (j + start b) ltac:(lia)). rewrite (ba_marked_bit b bp) in Hc by (done || lia).
    rewrite Z.add_simpl_r in Hc. done.
Qed.

(** ** The whole array *)

Lemma array_ok_zero st re : 0 <= st <= re -> re < 2 ^ 64 ->
  array_ok st re (replicate (Z.to_nat (ba_size st re)) 0).
Proof.
  intros. rewrite ba_size_ok by lia. split; [apply Forall_replicate; range_lia|].
  pose proof (Z.div_pos (re - st) 8). split; [rewrite length_replicate; lia|].
  intros. apply bit_replicate_0.
Qed.

Lemma array_length st re l : 0 <= st <= re -> re < 2 ^ 64 -> array_ok st re l ->
  Z.of_nat (length l) = ba_size st re.
Proof. intros ? ? (_ & E & _). rewrite ba_size_ok by lia. done. Qed.

(** Overwriting all of an array. *)
Lemma store_all l bs : length bs = length l -> store_bytes l 0 bs = Done bs.
Proof.
  intros E. unfold store_bytes. rewrite E. simpl. rewrite Z.leb_refl. unfold splice.
  cbn. rewrite drop_ge by lia. rewrite app_nil_r. done.
Qed.

Lemma load_all l : load_bytes l 0 (Z.of_nat (length l)) = Done l.
Proof. rewrite load_bytes_ok by lia. rewrite Nat2Z.id. simpl. rewrite firstn_all. done. Qed.

Lemma ba_new_law b al : header_ok b -> private b = None -> no_oom al ->
  exists b' al', ba_new_bmap (b, al) = Done (0, (b', al')) /\ ba_ok (b', al') /\ same_header b b' /\
    later al al' /\ forall j, ba_marked b' j = false.
Proof.
  intros Hh Hp Hal. pose proof Hh as (? & ? & ?). unfold ba_new_bmap, ba_alloc_private_data.
  rewrite mem_malloc_ok by done. rewrite mem_malloc_ok by (by apply no_oom_bump). cbn. rewrite store_all by done. cbn. do 2 eexists. split; [done|].
  split; [|split; [repeat split|split; [split; cbn; [lia|done]|]]].
  - split; [done|]. split; [done|]. eexists. split; [done|]. apply array_ok_zero; cbn; lia.
  - intros j. unfold ba_marked. cbn. rewrite bit_replicate_0. apply andb_false_r.
Qed.

Lemma ba_clear_law b al : ba_ok (b, al) ->
  exists b', ba_clear_bmap b = Done b' /\ ba_ok (b', al) /\ same_header b b' /\ forall j, ba_marked b' j = false.
Proof.
  intros H. ba_open H bp. destruct Hh as (? & ? & ?). unfold ba_clear_bmap, get_private. rewrite Hp. cbn [obind].
  pose proof (array_length (start b) (real_end b) _ ltac:(lia) ltac:(lia) Ha) as Hlen.
  rewrite store_all by (rewrite length_replicate; lia).
  cbn [obind]. unfold set_bitarray, get_private. rewrite Hp. cbn [obind]. eexists. split; [done|].
  split; [|split; [repeat split|]].
  - split; [done|]. split; [done|]. eexists. split; [done|]. apply array_ok_zero; cbn; lia.
  - intros j. unfold ba_marked. cbn. rewrite bit_replicate_0. apply andb_false_r.
Qed.

Lemma ba_copy_law b d al : ba_ok (b, al) -> same_size b d -> private d = None ->
  exists b' d' al', ba_copy_bmap b (d, al) = Done (0, b', (d', al')) /\
    ba_ok (b', al') /\ ba_ok (d', al') /\ same_header b b' /\ same_header d d' /\ later al al' /\
    forall j, ba_marked b' j = ba_marked b j /\ ba_marked d' j = ba_marked b j.
Proof.
  intros H Hsh Hd. ba_open H bp. pose proof Hh as (? & ? & ?).
  destruct Hsh as (Es & Ee & Er).
  unfold ba_copy_bmap, ba_alloc_private_data.
  unfold get_private at 1. rewrite Hp. cbn [obind].
  rewrite mem_malloc_ok by done. rewrite mem_malloc_ok by (by apply no_oom_bump).
  cbn [get_private private set_private obind bitarray]. simpl (negb _).
  cbn [get_private private set_private obind bitarray].
  pose proof (array_length (start b) (real_end b) _ ltac:(lia) ltac:(lia) Ha) as Hlen.
  rewrite Es, Er, <- Hlen, load_all. cbn [obind].
  rewrite store_all by (rewrite length_replicate; lia). cbn.
  do 3 eexists. split; [done|].
  assert (Hlat : later al (bump (bump al))) by (split; cbn; [lia|done]).
  split; [apply (ba_later b al); done|].
  split. { split; [unfold header_ok; cbn; lia|]. split; [exact Hal|]. eexists. split; [done|].
    cbn. rewrite Es, Er. exact Ha. }
  split; [apply same_header_refl|]. split; [repeat split|]. split; [done|].
  intros j. split; [done|]. unfold ba_marked. cbn. rewrite Hp, Es. done.
Qed.

(** ** Resizing *)

Lemma ba_clear_down_ok fuel l st en bitno :
  bytes_ok l -> 0 <= st <= en -> bitno - st < 8 * Z.of_nat (length l) -> (Z.to_nat (bitno - en) < fuel)%nat ->
  exists l', ba_clear_down fuel l st en bitno = Done l' /\
    updated l l' (fun j x => if in_range j (en + 1 - st) (bitno - en) then false else x).
Proof.
  revert l bitno. induction fuel as [|fuel IH]; intros l bitno Hok Hst Hb Hf; [lia|]. cbn [ba_clear_down].
  destruct (Z.ltb_spec en bitno).
  - destruct (clear_bit64_ok l (bitno - st) Hok ltac:(lia)) as (r & l1 & -> & _ & Hu1). cbn [obind].
    pose proof Hu1 as (Hl1 & Hok1 & _).
    destruct (IH l1 (bitno - 1)) as (l2 & -> & Hu2); [done|lia|lia|lia|].
    exists l2. split; [done|]. eapply updated_ext; [apply (updated_trans _ _ _ _ _ Hu1 Hu2)|].
    intros i x Hi. cbv beta. unfold in_range.
    destruct (Z.eqb_spec i (bitno - st)), (Z.leb_spec (en + 1 - st) i), (Z.ltb_spec i (en + 1 - st + (bitno - 1 - en))),
      (Z.ltb_spec i (en + 1 - st + (bitno - en))); cbn [andb negb]; done || lia.
  - exists l. split; [done|]. eapply updated_ext; [by apply updated_refl|]. intros i x Hi. cbv beta.
    destruct (in_range i _ _) eqn:E; [apply in_range_spec in E; lia|done].
Qed.

Lemma bit_take n l i : 0 <= i -> bit (take n l) i = (i <? 8 * Z.of_nat n) && bit l i.
Proof.
  intros Hi. unfold bit. rewrite lookup_take.
  pose proof (Z.div_mod i 8). pose proof (Z.mod_pos_bound i 8). pose proof (Z.div_pos i 8).
  destruct (Z.ltb_spec i (8 * Z.of_nat n)).
  - rewrite decide_True by lia. done.
  - rewrite decide_False by lia. apply Z.bits_0.
Qed.

Lemma bit_app_zeros l k i : bit (l ++ replicate k 0) i = bit l i.
Proof.
  unfold bit. destruct (decide (Z.to_nat (i / 8) < length l)%nat).
  - rewrite lookup_app_l by done. done.
  - rewrite lookup_app_r by lia. rewrite (lookup_ge_None_2 l) by lia.
    destruct (replicate k 0 !! _) as [x|] eqn:E; [|done]. apply lookup_replicate in E as [-> _]. done.
Qed.

(** [realloc] and [memset] together: the array cut to the new size or filled up
    with zeros. *)
Lemma resized_array l size new_size :
  Z.of_nat (length l) = size -> 0 <= new_size -> size <> new_size ->
  (let l := take (Z.to_nat new_size) (l ++ replicate (Z.to_nat (new_size - size)) 0) in
   if size <? new_size then store_bytes l size (replicate (Z.to_nat (new_size - size)) 0) else Done l) =
  Done (take (Z.to_nat new_size) (l ++ replicate (Z.to_nat (new_size - size)) 0)).
Proof.
  intros Hl Hn Hne. cbv zeta. destruct (Z.ltb_spec size new_size); [|done].
  rewrite take_ge by (rewrite length_app, length_replicate; lia).
  unfold store_bytes. rewrite length_replicate, length_app, length_replicate.
  destruct (Z.leb_spec 0 size); [|lia]. destruct (Z.leb_spec (size + Z.of_nat (Z.to_nat (new_size - size)))
    (Z.of_nat (length l + Z.to_nat (new_size - size)))); [|lia]. cbn [andb].
  unfold splice. rewrite take_app_le by lia. rewrite (take_ge l) by lia.
  rewrite drop_ge by (rewrite length_app, !length_replicate; lia). rewrite app_nil_r. done.
Qed.

Lemma array_ok_resize st re re' l k :
  array_ok st re l -> 0 <= st <= re' ->
  re <= re' \/ (re' - st + 1) mod 8 = 0 ->
  (k = (re' - st) / 8 + 1 - Z.of_nat (length l)) ->
  let l' := take (Z.to_nat ((re' - st) / 8 + 1)) (l ++ replicate (Z.to_nat k) 0) in
  array_ok st re' l' /\ forall i, 0 <= i <= re' - st -> bit l' i = bit l i.
Proof.
  intros (Hok & Hl & Hz) Hst Hcase Hk l'. subst k.
  pose proof (Z.div_mod (re' - st) 8). pose proof (Z.mod_pos_bound (re' - st) 8). pose proof (Z.div_pos (re' - st) 8).
  assert (Hb : forall i, 0 <= i -> bit l' i = (i <? 8 * ((re' - st) / 8 + 1)) && bit l i).
  { intros i Hi. unfold l'. rewrite bit_take, bit_app_zeros by done. rewrite Z2Nat.id by lia. done. }
  split.
  - split; [apply bytes_ok_take, bytes_ok_app; split; [done|apply Forall_replicate; range_lia]|].
    split; [unfold l'; rewrite length_take, length_app, length_replicate; lia|].
    intros i Hi. rewrite Hb by lia. destruct (Z.ltb_spec i (8 * ((re' - st) / 8 + 1))); [|done]. cbn [andb].
    destruct Hcase as [Hc|Hc]; [apply Hz; lia|].
    pose proof (Z.div_mod (re' - st + 1) 8). lia.
  - intros i Hi. rewrite Hb by lia. destruct (Z.ltb_spec i (8 * ((re' - st) / 8 + 1))); [done|lia].
Qed.

(** The bits between the old and the new end are cleared first. *)
Lemma ba_resize_clear b al bp e :
  ba_ok (b, al) -> private b = Some bp -> start b <= e ->
  exists l1, (if end_ b <? e then
      ba_clear_down (S (Z.to_nat ((if e <? real_end b then e else real_end b) - end_ b))) (bitarray bp)
        (start b) (end_ b) (if e <? real_end b then e else real_end b)
      else Done (bitarray bp)) = Done l1 /\
    set_bitarray b l1 = Done (set_private b (mk_ba l1 (ba_addr bp))) /\
    array_ok (start b) (real_end b) l1 /\
    forall j, start b <= j <= e -> j <= real_end b -> bit l1 (j - start b) = (j <=? end_ b) && ba_marked b j.
Proof.
  intros H Hbp He. ba_open H bp'. rewrite Hbp in Hp. injection Hp as <-. destruct Hh as (? & ? & ?).
  set (f := fun (j : Z) (x : bool) =>
    if in_range j (end_ b + 1 - start b) (Z.min e (real_end b) - end_ b) then false else x).
  replace (if e <? real_end b then e else real_end b) with (Z.min e (real_end b))
    by (destruct (Z.ltb_spec e (real_end b)); lia).
  assert (Hl1 : exists l1, (if end_ b <? e then
      ba_clear_down (S (Z.to_nat (Z.min e (real_end b) - end_ b))) (bitarray bp) (start b) (end_ b)
        (Z.min e (real_end b)) else Done (bitarray bp)) = Done l1 /\ updated (bitarray bp) l1 f).
  { destruct (Z.ltb_spec (end_ b) e).
    - apply ba_clear_down_ok; [apply Ha|lia| |lia].
      pose proof (array_index _ _ _ (real_end b - start b) Ha). lia.
    - exists (bitarray bp). split; [done|]. eapply updated_ext; [apply updated_refl, Ha|]. intros i x Hi.
      unfold f. destruct (in_range i _ _) eqn:E; [apply in_range_spec in E; lia|done]. }
  destruct Hl1 as (l1 & -> & Hu1). exists l1. split; [done|].
  destruct (ba_update b al bp l1 f H Hbp Hu1) as (Es & Hok1 & _ & Hm1).
  { intros i Hi. unfold f. destruct (in_range _ _ _); done. }
  split; [done|]. split.
  { destruct Hok1 as (_ & _ & bp1 & [= <-] & Ha1). exact Ha1. }
  intros j Hj Hjr. specialize (Hm1 j). rewrite (ba_marked_bit _ (mk_ba l1 (ba_addr bp))) in Hm1 by (done || apply Hj).
  cbn [bitarray start set_private] in Hm1. rewrite Hm1. destruct (Z.leb_spec (start b) j); [|lia].
  unfold f. destruct (in_range _ _ _) eqn:Ei.
  - apply in_range_spec in Ei. destruct (Z.leb_spec j (end_ b)); [lia|done].
  - apply in_range_false in Ei. destruct (Z.leb_spec j (end_ b)); [done|]. lia.
Qed.

(** What is left to show of the resized array [l']. *)
Lemma ba_resized b al al' e re l1 l' a :
  ba_ok (b, al) -> start b <= e -> e <= re -> re < 2 ^ 64 - 1 ->
  array_ok (start b) (real_end b) l1 -> array_ok (start b) re l' -> later al al' ->
  (forall j, start b <= j <= e -> j <= real_end b -> bit l1 (j - start b) = (j <=? end_ b) && ba_marked b j) ->
  (forall i, 0 <= i <= re - start b -> bit l' i = bit l1 i) ->
  let b' := set_ends (set_private b (mk_ba l' a)) e re in
  ba_ok (b', al') /\ same_header (set_ends b e re) b' /\ later al al' /\
  forall j, j <= e -> ba_marked b' j = (j <=? end_ b) && ba_marked b j.
Proof.
  intros H He Hre H64 Ha1 Hl' Hlat Hmark Hbits b'. ba_open H bp. destruct Hh as (? & ? & ?). split.
  { split; [unfold header_ok; cbn; lia|]. split; [by apply (mem_no_oom_later al)|]. eexists. split; [done|]. exact Hl'. }
  split; [repeat split|]. split; [done|]. intros j Hj.
  destruct (Z.lt_ge_cases j (start b)).
  { rewrite !ba_marked_below by done. rewrite andb_false_r. done. }
  rewrite (ba_marked_bit _ (mk_ba l' a)) by done. cbn [bitarray]. cbn [set_ends set_private start b'].
  rewrite Hbits by lia. destruct (Z.le_gt_cases j (real_end b)); [apply Hmark; lia|].
  destruct Ha1 as (_ & _ & Hz). rewrite Hz by lia. destruct (Z.leb_spec j (end_ b)); [lia|done].
Qed.

Lemma ba_resize_law b al e re :
  ba_ok (b, al) -> start b <= e -> e <= re -> re < 2 ^ 64 - 1 ->
  real_end b <= re \/ (re - start b + 1) mod 8 = 0 ->
  exists b' al', ba_resize_bmap (b, al) e re = Done (0, (b', al')) /\
    ba_ok (b', al') /\ same_header (set_ends b e re) b' /\ later al al' /\
    forall j, j <= e -> ba_marked b' j = (j <=? end_ b) && ba_marked b j.
Proof.
  intros H He Hre H64 Hcase. ba_open H bp. pose proof Hh as (? & ? & ?).
  unfold ba_resize_bmap, get_private. rewrite Hp. cbn [obind].
  destruct (ba_resize_clear b al bp e H Hp He) as (l1 & -> & Es & Ha1 & Hmark). cbn [obind]. rewrite Es. cbn [obind].
  cbn [start real_end set_private].
  pose proof (fun al' l' a Hl' Hlat => ba_resized b al al' e re l1 l' a H He Hre H64 Ha1 Hl' Hlat Hmark) as Hfin.
  destruct (Z.eqb_spec re (real_end b)) as [->|Hne].
  { do 2 eexists. split; [done|]. apply (Hfin al l1); [done|apply later_refl|done]. }
  pose proof (array_length (start b) (real_end b) _ ltac:(lia) ltac:(lia) Ha1) as Hlen.
  pose proof (array_ok_resize (start b) (real_end b) re l1 _ Ha1 ltac:(lia) Hcase eq_refl) as [Hr1 Hr2].
  rewrite <- (ba_size_ok (start b) re) in Hr1, Hr2 by lia. rewrite Hlen in Hr1, Hr2.
  assert (0 < ba_size (start b) re) by (rewrite ba_size_ok by lia; pose proof (Z.div_pos (re - start b) 8); lia).
  destruct (Z.eqb_spec (ba_size (start b) (real_end b)) (ba_size (start b) re)) as [Eq|Eq]; cbn [negb].
  - rewrite Eq, Z.ltb_irrefl. cbn [obind]. rewrite <- Eq, Z.sub_diag in Hr1, Hr2. cbn in Hr1, Hr2.
    rewrite app_nil_r in Hr1, Hr2. rewrite take_ge in Hr1, Hr2 by lia.
    do 2 eexists. split; [done|]. apply Hfin; [done|apply later_refl|done].
  - rewrite mem_malloc_ok by done. cbn [negb]. rewrite resized_array by lia. cbn [obind].
    do 2 eexists. split; [done|]. apply Hfin; [done|apply later_bump|done].
Qed.

(** ** Whole bytes in and out *)

(** The byte a number begins in, for bitmaps that start below 8. *)
Lemma range_index st s : 0 <= st < 8 -> st <= s -> (s - st) mod 8 = 0 ->
  Z.shiftr s 3 = (s - st) / 8 /\ 8 * ((s - st) / 8) = s - st.
Proof.
  intros Hst Hs Hm. rewrite shiftr_3. pose proof (Z.div_mod (s - st) 8).
  split; [|lia]. symmetry. apply Z.div_unique with st; lia.
Qed.

Lemma ba_set_range_law b al s n inp :
  ba_ok (b, al) -> start b < 8 -> (s - start b) mod 8 = 0 -> n mod 8 = 0 -> start b <= s -> 0 <= n < 2 ^ 32 ->
  s + n - 1 <= real_end b -> bytes_ok inp -> n <= 8 * Z.of_nat (length inp) ->
  exists b' al', ba_set_bmap_range (b, al) s n inp = Done (0, (b', al')) /\
    ba_ok (b', al') /\ same_header b b' /\ later al al' /\
    forall j, ba_marked b' j = if in_range j s n then bit inp (j - s) else ba_marked b j.
Proof.
  intros H H8 Hs Hn Hle Hn32 Hend Hin Hlen. ba_open H bp. pose proof Hh as (? & ? & ?).
  destruct (range_index (start b) s) as [Ei Ep]; [lia..|]. destruct (range_bytes n) as (Hn0 & Eb & En); [lia..|].
  unfold ba_set_bmap_range, get_private. rewrite Hp. cbn [obind]. rewrite Ei, Eb, load_bytes_ok by lia. cbn [obind].
  set (p := (s - start b) / 8) in *. set (bs := take (Z.to_nat (n / 8)) (drop (Z.to_nat 0) inp)).
  assert (Hbs : Z.of_nat (length bs) = n / 8) by (unfold bs; rewrite length_take, length_drop; lia).
  assert (Hx : p + n / 8 <= Z.of_nat (length (bitarray bp))).
  { destruct (Z.eq_dec n 0).
    - pose proof (array_index _ _ _ (Z.min (s - start b) (real_end b - start b)) Ha). lia.
    - pose proof (array_index _ _ _ (s - start b + n - 1) Ha). lia. }
  destruct (store_bytes_ok (bitarray bp) p bs (proj1 Ha)) as (l' & -> & Hu);
    [by apply bytes_ok_take, bytes_ok_drop|lia|lia|]. cbn [obind].
  destruct (ba_update b al bp l' _ H Hp Hu) as (Es & Hok & Hsh & Hm).
  { intros i Hi. destruct (in_range i _ _) eqn:E; [apply in_range_spec in E; lia|done]. }
  rewrite Es. cbn [obind]. do 2 eexists. split; [done|]. split; [exact Hok|]. split; [done|].
  split; [apply later_refl|]. intros j. rewrite Hm. destruct (Z.leb_spec (start b) j).
  - replace (in_range (j - start b) (8 * p) (8 * Z.of_nat (length bs))) with (in_range j s n)
      by (apply eq_true_iff_eq; rewrite !in_range_spec; lia).
    destruct (in_range j s n) eqn:E; [|done]. apply in_range_spec in E. unfold bs.
    rewrite drop_0, bit_take by lia. replace (j - start b - 8 * p) with (j - s) by lia.
    destruct (Z.ltb_spec (j - s) (8 * Z.of_nat (Z.to_nat (n / 8)))); [done|lia].
  - rewrite ba_marked_below by done. destruct (in_range j s n) eqn:E; [apply in_range_spec in E; lia|done].
Qed.

Lemma ba_get_range_law b al s n out :
  ba_ok (b, al) -> start b < 8 -> (s - start b) mod 8 = 0 -> n mod 8 = 0 -> start b <= s -> 0 <= n < 2 ^ 32 ->
  s + n - 1 <= real_end b -> bytes_ok out -> n <= 8 * Z.of_nat (length out) ->
  exists out', ba_get_bmap_range b s n out = Done (0, out') /\
    updated out out' (fun j x => if in_range j 0 n then ba_marked b (s + j) else x).
Proof.
  intros H H8 Hs Hn Hle Hn32 Hend Hout Hlen. ba_open H bp. pose proof Hh as (? & ? & ?).
  destruct (range_index (start b) s) as [Ei Ep]; [lia..|]. destruct (range_bytes n) as (Hn0 & Eb & En); [lia..|].
  unfold ba_get_bmap_range, get_private. rewrite Hp. cbn [obind]. rewrite Ei, Eb.
  set (p := (s - start b) / 8) in *.
  assert (Hx : p + n / 8 <= Z.of_nat (length (bitarray bp))).
  { destruct (Z.eq_dec n 0).
    - pose proof (array_index _ _ _ (Z.min (s - start b) (real_end b - start b)) Ha). lia.
    - pose proof (array_index _ _ _ (s - start b + n - 1) Ha). lia. }
  rewrite load_bytes_ok by lia. cbn [obind]. set (bs := take _ _).
  assert (Hbs : Z.of_nat (length bs) = n / 8) by (unfold bs; rewrite length_take, length_drop; lia).
  destruct (store_bytes_ok out 0 bs Hout) as (l' & -> & Hu);
    [by apply bytes_ok_take, bytes_ok_drop, (proj1 Ha)|lia|lia|]. cbn [obind].
  exists l'. split; [done|]. eapply updated_ext; [exact Hu|]. intros j x Hj. cbv beta.
  replace (in_range j (8 * 0) (8 * Z.of_nat (length bs))) with (in_range j 0 n)
    by (apply eq_true_iff_eq; rewrite !in_range_spec; lia).
  destruct (in_range j 0 n) eqn:E; [|done]. apply in_range_spec in E.
  rewrite (ba_marked_bit b bp) by (done || lia). unfold bs. rewrite bit_take by lia.
  rewrite Z2Nat.id by lia. destruct (Z.ltb_spec (j - 8 * 0) (8 * (n / 8))); [|lia]. cbn [andb].
  replace (s + j - start b) with (8 * p + j) by lia. unfold bit. rewrite lookup_drop.
  pose proof (Z.div_pos j 8).
  replace ((8 * p + j) / 8) with (p + j / 8) by div_lia. replace ((8 * p + j) mod 8) with (j mod 8) by div_lia.
  rewrite Z.sub_0_r. do 3 f_equal. lia.
Qed.

(** ** The searches *)

Section searches.
Context (want : bool) (skip8 : Z) (l : list Z) (Hl : bytes_ok l)
        (Hskip : forall k, 0 <= k < 8 -> Z.testbit skip8 k = negb want).

(** The bits that are looked for; [N] is the end of the array. *)
Let f (j : Z) : bool := Bool.eqb (bit l j) want.
Let N := 8 * Z.of_nat (length l).

Lemma test_wanted i : 0 <= i < N ->
  exists r, ext2fs_test_bit64 i l = Done r /\ Bool.eqb (negb (r =? 0)) want = f i.
Proof using Hl Hskip.
  intros Hi. destruct (test_bit64_ok l i Hi) as (r & E & Hr). exists r. split; [done|]. unfold f. f_equal.
  destruct (Z.eqb_spec r 0), (bit l i); cbn; intuition congruence.
Qed.

(** A byte that is passed over has none of them. *)
Lemma skipped_byte p j : 0 <= p -> default 0 (l !! Z.to_nat p) = skip8 -> 8 * p <= j < 8 * p + 8 -> f j = false.
Proof using Hl Hskip.
  intros Hp E Hj. unfold f. replace j with (8 * p + (j - 8 * p)) by lia.
  rewrite bit_byte, E, Hskip by lia. destruct want; done.
Qed.

Lemma scan_to_byte_ok fuel p c : 0 <= p -> 0 <= c -> p + c <= N -> (Z.to_nat ((- p) mod 8) < fuel)%nat ->
  exists r, scan_to_byte fuel want l p c = Done r /\
  match r with
  | inl j => first_from f (Z.to_nat c) p = Some j
  | inr (p', c') => first_from f (Z.to_nat c) p = first_from f (Z.to_nat c') p' /\
      p <= p' /\ 0 <= c' /\ p' + c' = p + c /\ (c' = 0 \/ p' mod 8 = 0)
  end.
Proof using Hl Hskip.
  revert p c. induction fuel as [|fuel IH]; intros p c Hp Hc Hn Hf; [lia|]. cbn [scan_to_byte].
  rewrite land_7. destruct (Z.eqb_spec (p mod 8) 0), (Z.ltb_spec 0 c); cbn [negb andb];
    try (eexists; split; [done|]; cbn; split; [done|lia]).
  destruct (test_wanted p ltac:(lia)) as (r & E & Er). rewrite E. cbn [obind]. rewrite Er.
  replace (Z.to_nat c) with (S (Z.to_nat (c - 1))) by lia. cbn [first_from].
  destruct (f p); [eexists; split; done|].
  destruct (IH (p + 1) (c - 1)) as (r' & E' & Hr); [lia..| |].
  { assert ((- (p + 1)) mod 8 = (- p) mod 8 - 1) by div_lia. pose proof (Z.mod_pos_bound (- (p + 1)) 8). lia. }
  exists r'. split; [done|]. destruct r' as [j|[p' c']]; [done|]. destruct Hr as (Hr & ?). split; [done|lia].
Qed.

(** What every loop over bytes and words keeps: bits without a hit are passed
    over, [p] bytes from the start of the array. *)
Definition passed (p c p' c' : Z) : Prop :=
  p <= p' /\ 0 <= c' /\ 8 * p' + c' = 8 * p + c /\
  first_from f (Z.to_nat c) (8 * p) = first_from f (Z.to_nat c') (8 * p').

Lemma passed_refl p c : 0 <= c -> passed p c p c.
Proof using Hl Hskip. intros. split; [lia|]. done. Qed.

Lemma passed_trans p c p1 c1 p2 c2 : passed p c p1 c1 -> passed p1 c1 p2 c2 -> passed p c p2 c2.
Proof using Hl Hskip. unfold passed. intros (? & ? & ? & ?) (? & ? & ? & ?). split; [lia|]. split; [lia|]. split; [lia|congruence]. Qed.

Lemma passed_bytes p c k : 0 <= p -> 0 <= k -> 8 * k <= c ->
  (forall i, p <= i < p + k -> default 0 (l !! Z.to_nat i) = skip8) -> passed p c (p + k) (c - 8 * k).
Proof using Hl Hskip.
  intros Hp Hk Hc Hall. split; [lia|]. split; [lia|]. split; [lia|].
  rewrite (first_from_skip f (Z.to_nat (8 * k))); [f_equal; lia|lia|].
  intros j Hj. pose proof (Z.div_mod j 8). pose proof (Z.mod_pos_bound j 8).
  apply (skipped_byte (j / 8)); [|apply Hall|]; lia.
Qed.

Lemma scan_to_word_ok addr fuel p c :
  0 <= p -> 0 <= c -> 8 * p + c <= N -> (Z.to_nat ((- (addr + p)) mod 8) < fuel)%nat ->
  exists bf p' c', scan_to_word fuel skip8 l addr p c (8 * p) = Done (bf, p', c', 8 * p') /\ passed p c p' c'.
Proof using Hl Hskip.
  revert p c. induction fuel as [|fuel IH]; intros p c Hp Hc Hn Hf; [lia|]. cbn [scan_to_word].
  rewrite land_7. destruct (Z.leb_spec 8 c), (Z.eqb_spec ((addr + p) mod 8) 0); cbn [negb andb];
    try (do 3 eexists; split; [done|]; apply passed_refl; lia).
  unfold N in Hn. rewrite load_ok by lia. cbn [obind].
  destruct (Z.eqb_spec (default 0 (l !! Z.to_nat p)) skip8) as [E|E]; cbn [negb];
    [|do 3 eexists; split; [done|]; apply passed_refl; lia].
  replace (8 * p + 8) with (8 * (p + 1)) by lia.
  destruct (IH (p + 1) (c - 8)) as (bf & p' & c' & -> & Hps); [lia|lia|unfold N; lia| |].
  { assert ((- (addr + (p + 1))) mod 8 = (- (addr + p)) mod 8 - 1) by div_lia.
    pose proof (Z.mod_pos_bound (- (addr + (p + 1))) 8). lia. }
  do 3 eexists. split; [done|]. eapply passed_trans; [|exact Hps].
  apply (passed_bytes p c 1); [lia..|]. intros i Hi. replace i with p by lia. done.
Qed.

Lemma scan_words_ok skip64 i p c :
  (forall bs, bytes_ok bs -> length bs = 8%nat -> le_decode bs = skip64 -> bs = replicate 8 skip8) ->
  0 <= p -> 64 * Z.of_nat i <= c -> 8 * p + c <= N ->
  exists i', (i' <= i)%nat /\ scan_words i skip64 l p = Done (p + 8 * (Z.of_nat i - Z.of_nat i'), i') /\
    passed p c (p + 8 * (Z.of_nat i - Z.of_nat i')) (c - 64 * (Z.of_nat i - Z.of_nat i')).
Proof using Hl Hskip.
  intros H64. revert p c. induction i as [|i IH]; intros p c Hp Hc Hn; cbn [scan_words].
  - exists O. split; [done|]. rewrite !Z.sub_diag, !Z.mul_0_r, Z.add_0_r, Z.sub_0_r.
    split; [done|apply passed_refl; lia].
  - unfold N in Hn. rewrite load_bytes_ok by lia. cbn [obind].
    destruct (Z.eqb_spec (le_decode (take (Z.to_nat 8) (drop (Z.to_nat p) l))) skip64) as [E|E]; cbn [negb].
    2: { exists (S i). split; [done|]. rewrite !Z.sub_diag, !Z.mul_0_r, Z.add_0_r, Z.sub_0_r.
         split; [done|apply passed_refl; lia]. }
    destruct (IH (p + 8) (c - 64)) as (i' & Hi' & -> & Hps); [lia|lia|unfold N; lia|].
    exists i'. split; [lia|]. split; [do 2 f_equal; lia|].
    replace (p + 8 * (Z.of_nat (S i) - Z.of_nat i')) with (p + 8 + 8 * (Z.of_nat i - Z.of_nat i')) by lia.
    replace (c - 64 * (Z.of_nat (S i) - Z.of_nat i')) with (c - 64 - 64 * (Z.of_nat i - Z.of_nat i')) by lia.
    eapply passed_trans; [|exact Hps]. apply (passed_bytes p c 8); [lia..|]. intros k Hk.
    apply H64 in E; [|by apply bytes_ok_take, bytes_ok_drop|rewrite length_take, length_drop; lia].
    assert (Ek : take (Z.to_nat 8) (drop (Z.to_nat p) l) !! Z.to_nat (k - p) = Some skip8)
      by (rewrite E; apply lookup_replicate; split; [done|lia]).
    rewrite lookup_take, decide_True, lookup_drop in Ek by lia.
    replace (Z.to_nat p + Z.to_nat (k - p))%nat with (Z.to_nat k) in Ek by lia. rewrite Ek. done.
Qed.

Lemma scan_bytes_ok i p c : 0 <= p -> 8 * Z.of_nat i <= c -> 8 * p + c <= N ->
  exists i', (i' <= i)%nat /\ scan_bytes i skip8 l p = Done (p + (Z.of_nat i - Z.of_nat i'), i') /\
    passed p c (p + (Z.of_nat i - Z.of_nat i')) (c - 8 * (Z.of_nat i - Z.of_nat i')).
Proof using Hl Hskip.
  revert p c. induction i as [|i IH]; intros p c Hp Hc Hn; cbn [scan_bytes].
  - exists O. split; [done|]. rewrite !Z.sub_diag, !Z.mul_0_r, Z.add_0_r, Z.sub_0_r.
    split; [done|apply passed_refl; lia].
  - unfold N in Hn. rewrite load_ok by lia. cbn [obind].
    destruct (Z.eqb_spec (default 0 (l !! Z.to_nat p)) skip8) as [E|E]; cbn [negb].
    2: { exists (S i). split; [done|]. rewrite !Z.sub_diag, !Z.mul_0_r, Z.add_0_r, Z.sub_0_r.
         split; [done|apply passed_refl; lia]. }
    destruct (IH (p + 1) (c - 8)) as (i' & Hi' & -> & Hps); [lia|lia|unfold N; lia|].
    exists i'. split; [lia|]. split; [do 2 f_equal; lia|].
    replace (p + (Z.of_nat (S i) - Z.of_nat i')) with (p + 1 + (Z.of_nat i - Z.of_nat i')) by lia.
    replace (c - 8 * (Z.of_nat (S i) - Z.of_nat i')) with (c - 8 - 8 * (Z.of_nat i - Z.of_nat i')) by lia.
    eapply passed_trans; [|exact Hps]. apply (passed_bytes p c 1); [lia..|]. intros k Hk.
    replace k with p by lia. done.
Qed.

Lemma scan_bits_ok n p : 0 <= p -> p + Z.of_nat n <= N -> scan_bits n want l p = Done (first_from f n p).
Proof using Hl Hskip.
  revert p. induction n as [|n IH]; intros p Hp Hn; cbn [scan_bits first_from]; [done|].
  destruct (test_wanted p ltac:(lia)) as (r & E & Er). rewrite E. cbn [obind]. rewrite Er. destruct (f p); [done|]. apply IH; lia.
Qed.
End searches.

(** The search from the byte boundary on. *)
Lemma ba_find_tail want skip8 skip64 l addr p c :
  bytes_ok l -> (forall k, 0 <= k < 8 -> Z.testbit skip8 k = negb want) ->
  (forall bs, bytes_ok bs -> length bs = 8%nat -> le_decode bs = skip64 -> bs = replicate 8 skip8) ->
  0 <= p -> 0 <= c -> 8 * p + c <= 8 * Z.of_nat (length l) ->
  (let* (byte_found, pos, count, bitpos) := scan_to_word 8 skip8 l addr p c (8 * p) in
   let* (bitpos, count) :=
     if byte_found : bool then Done (bitpos, count)
     else
       let max_loop_count := Z.shiftr count 6 in
       let* (pos, i) := scan_words (Z.to_nat max_loop_count) skip64 l pos in
       let count := count - 64 * (max_loop_count - Z.of_nat i) in
       let bitpos := bitpos + 64 * (max_loop_count - Z.of_nat i) in
       let max_loop_count := Z.shiftr count 3 in
       let* (pos, i) := scan_bytes (Z.to_nat max_loop_count) skip8 l pos in
       Done (bitpos + 8 * (max_loop_count - Z.of_nat i), count - 8 * (max_loop_count - Z.of_nat i)) in
   scan_bits (Z.to_nat count) want l bitpos) =
  Done (first_from (fun j => Bool.eqb (bit l j) want) (Z.to_nat c) (8 * p)).
Proof.
  intros Hl Hskip H64 Hp Hc Hn.
  destruct (scan_to_word_ok want skip8 l Hl Hskip addr 8 p c Hp Hc Hn) as (bf & p1 & c1 & -> & Hps1).
  { pose proof (Z.mod_pos_bound (- (addr + p)) 8). lia. }
  cbn [obind]. pose proof Hps1 as (? & ? & ? & E1). destruct bf; cbn [obind].
  { rewrite scan_bits_ok with (skip8 := skip8) by (done || lia). f_equal. symmetry. exact E1. }
  rewrite (Z.shiftr_div_pow2 c1 6) by lia. pose proof (Z.div_mod c1 (2 ^ 6)). pose proof (Z.mod_pos_bound c1 (2 ^ 6)).
  pose proof (Z.div_pos c1 (2 ^ 6)).
  destruct (scan_words_ok want skip8 l Hl Hskip skip64 (Z.to_nat (c1 / 2 ^ 6)) p1 c1 H64) as (i & Hi & -> & Hps2); [lia..|].
  cbn [obind]. rewrite shiftr_3. rewrite Z2Nat.id in Hps2 |- * by lia. set (k := c1 / 2 ^ 6 - Z.of_nat i) in *.
  pose proof Hps2 as (? & ? & ? & E2). pose proof (Z.div_mod (c1 - 64 * k) 8). pose proof (Z.mod_pos_bound (c1 - 64 * k) 8).
  pose proof (Z.div_pos (c1 - 64 * k) 8).
  destruct (scan_bytes_ok want skip8 l Hl Hskip (Z.to_nat ((c1 - 64 * k) / 8)) (p1 + 8 * k) (c1 - 64 * k))
    as (i2 & Hi2 & -> & Hps3); [lia..|].
  cbn [obind]. rewrite Z2Nat.id in Hps3 by lia. set (k2 := (c1 - 64 * k) / 8 - Z.of_nat i2) in *.
  pose proof Hps3 as (? & ? & ? & E3).
  rewrite scan_bits_ok with (skip8 := skip8) by (done || lia). f_equal.
  rewrite E1, E2, E3. f_equal. lia.
Qed.

Lemma ba_find_first_ok want skip8 skip64 b al s e :
  (forall k, 0 <= k < 8 -> Z.testbit skip8 k = negb want) ->
  (forall bs, bytes_ok bs -> length bs = 8%nat -> le_decode bs = skip64 -> bs = replicate 8 skip8) ->
  ba_ok (b, al) -> start b <= s <= e -> e <= real_end b ->
  ba_find_first want skip8 skip64 b s e =
  Done (search ENOENT (fun j => Bool.eqb (ba_marked b j) want) s e).
Proof.
  intros Hskip H64 H Hs He. ba_open H bp. pose proof Hh as (? & ? & ?). pose proof (proj1 Ha) as Hl.
  pose proof (array_index _ _ _ (e - start b) Ha ltac:(lia)) as Hx.
  unfold ba_find_first, get_private. rewrite Hp. cbn [obind]. rewrite !u64_small by range_lia.
  assert (Esearch : search ENOENT (fun j => Bool.eqb (ba_marked b j) want) s e =
    match first_from (fun i => Bool.eqb (bit (bitarray bp) i) want) (Z.to_nat (e - s + 1)) (s - start b) with
    | Some j => (0, Some (j + start b)) | None => (ENOENT, None) end).
  { unfold search. replace s with (s - start b + start b) at 2 by lia. rewrite first_from_shift.
    rewrite (first_from_ext _ (fun i => Bool.eqb (bit (bitarray bp) i) want)); [by destruct (first_from _ _ _)|].
    intros j Hj. rewrite (ba_marked_bit b bp) by (done || lia). rewrite Z.add_simpl_r. done. }
  rewrite Esearch. clear Esearch.
  destruct (scan_to_byte_ok want skip8 (bitarray bp) Hl Hskip 8 (s - start b) (e - s + 1)) as (r & -> & Hr); [lia..| |].
  { pose proof (Z.mod_pos_bound (- (s - start b)) 8). lia. }
  cbn [obind]. destruct r as [j|[p c]]; [rewrite Hr; done|]. destruct Hr as (-> & Hp0 & Hc & Hpc & Hor).
  destruct (Z.eqb_spec c 0) as [->|]; [done|]. destruct Hor as [|Hmod]; [lia|].
  pose proof (Z.div_mod p 8). rewrite shiftr_3. replace p with (8 * (p / 8)) at 2 by lia.
  pose proof (ba_find_tail want skip8 skip64 (bitarray bp) (ba_addr bp) (p / 8) c Hl Hskip H64
    ltac:(lia) ltac:(lia) ltac:(lia)) as Et. replace (8 * (p / 8)) with p in Et |- * by lia.
  destruct (scan_to_word _ _ _ _ _ _ _) as [[[[bf p1] c1] b1]|]; [|done]. cbn [obind] in Et |- *.
  destruct (if bf then _ else _) as [[b2 c2]|]; [|done]. cbn [obind] in Et |- *.
  rewrite Et. cbn [obind]. destruct (first_from _ _ _); done.
Qed.

Lemma ba_find_zero_law b al s e : ba_ok (b, al) -> start b <= s <= e -> e <= real_end b ->
  ba_find_first_zero b s e = Done (search ENOENT (fun j => negb (ba_marked b j)) s e).
Proof.
  intros H Hs He. unfold ba_find_first_zero.
  rewrite (ba_find_first_ok false 0xff (2 ^ 64 - 1) b al s e); [..|done|done|done].
  - done.
  - intros k Hk. change 255 with (Z.ones 8). apply Z.ones_spec_low. lia.
  - intros bs Hbs Hlen E. rewrite <- (le_encode_decode bs Hbs), Hlen, E. reflexivity.
Qed.

Lemma ba_find_set_law b al s e : ba_ok (b, al) -> start b <= s <= e -> e <= real_end b ->
  ba_find_first_set b s e = Done (search ENOENT (ba_marked b) s e).
Proof.
  intros H Hs He. unfold ba_find_first_set.
  rewrite (ba_find_first_ok true 0 0 b al s e); [..|done|done|done].
  - f_equal. apply search_ext. intros j. destruct (ba_marked b j); done.
  - intros k Hk. apply Z.bits_0.
  - intros bs Hbs Hlen E. rewrite <- (le_encode_decode bs Hbs), Hlen, E. reflexivity.
Qed.

#[export] Program Instance bitarray_laws : BitmapLaws ba_private := {
  ok := ba_ok;
  marked := ba_marked;
  ok_later := ba_later;
  marked_inside := ba_marked_inside;
  new_law := ba_new_law;
  mark_law := ba_mark_law;
  test_law := ba_test_law;
  mark_extent_law := ba_mark_extent_law;
  unmark_extent_law := ba_unmark_extent_law;
  test_clear_law := ba_test_clear_law;
  clear_law := ba_clear_law;
  resize_law := ba_resize_law;
  copy_law := ba_copy_law }.
Next Obligation. intros b al (Hh & Hal & _). done. Qed.
Next Obligation.
  intros b al e H He. ba_open H bp. destruct Hh as (? & ? & ?). split; [|done].
  split; [unfold header_ok; cbn; lia|]. split; [done|]. exists bp. done.
Qed.
Next Obligation.
  intros b al i H Hi. destruct (ba_unmark_law b al i H Hi) as (r & b' & al' & E & Hr & Hrest).
  exists r, b', al'. split; [done|]. split; [apply Hr|done].
Qed.
Next Obligation. intros b al s n inp ? ? ? ? ? ? ? ? ? _. apply ba_set_range_law; (done || lia). Qed.
Next Obligation. intros b al s n out ? ? ? ? ? ? ? ? ? _. eapply ba_get_range_law; (done || lia). Qed.
Next Obligation. intros f b al s e [= <-] H Hs He _. apply (ba_find_zero_law b al); done. Qed.
Next Obligation. intros f b al s e [= <-] H Hs He. apply (ba_find_set_law b al); done. Qed.

(** C31: the search for a clear number, which goes bit by bit to a byte boundary,
    then byte by byte to a word boundary, then by words, by bytes and by bits,
    finds what looking at one number after the other finds, for every alignment
    of the array; so does the search for a number that is set. *)
Theorem ba_find_first_correct b al s e :
  ba_ok (b, al) -> start b <= s <= e -> e <= real_end b ->
  ba_find_first_zero b s e = Done (search ENOENT (fun j => negb (ba_marked b j)) s e) /\
  ba_find_first_set b s e = Done (search ENOENT (ba_marked b) s e).
Proof.
  intros H Hs He. split; [apply (ba_find_zero_law b al)|apply (ba_find_set_law b al)]; done.
Qed.

Lemma ba_find_first_correct_witness :
  exists b al, ba_ok (b, al) /\ ba_find_first_zero b 8 90 = Done (0, Some 8) /\ ba_find_first_set b 8 90 = Done (ENOENT, None).
Proof.
  destruct (ba_new_law (mk_bmap 0 3 100 103 0 None 0 None) (mk_alloc 40 (fun _ => false)))
    as (b & al & _ & Hok & (_ & Hs & _ & Hr & _) & _ & Hm); [unfold header_ok; cbn; lia|done|done|]. cbn in Hs, Hr.
  exists b, al. split; [exact Hok|].
  destruct (ba_find_first_correct b al 8 90 Hok) as [E1 E2]; [lia|lia|]. rewrite E1, E2. split; f_equal.
  - apply search_found; [lia|rewrite Hm; done|lia].
  - apply search_none. intros k _. apply Hm.
Defined.
