(* ===== verification/RbTree.v ===== *)
(** lib/ext2fs/rbtree.c and rbtree.h: red-black trees with parent pointers.

    A node is named by its address.  A pointer to a node together with the
    parent pointers above it is the subtree below and the path to the root: each
    step of the path says on which side of its parent the node is, and holds the
    parent's colour, address and other subtree.  Following [rb_parent] drops a
    step, following [rb_left] or [rb_right] adds one. *)

From S2P Require Import Prelude.

Local Open Scope Z_scope.

Inductive color := RB_RED | RB_BLACK.

Inductive tree :=
| Leaf
| Node (c : color) (l : tree) (p : Z) (r : tree).

Inductive frame :=
| InLeft (c : color) (p : Z) (r : tree)
| InRight (c : color) (l : tree) (p : Z).

Definition path := list frame.

Definition close (t : tree) (f : frame) : tree :=
  match f with
  | InLeft c p r => Node c t p r
  | InRight c l p => Node c l p t
  end.

(** The whole tree. *)
Definition plug (t : tree) (k : path) : tree := fold_left close k t.

Definition frame_ptr (f : frame) : Z := match f with InLeft _ p _ | InRight _ _ p => p end.
Definition frame_color (f : frame) : color := match f with InLeft c _ _ | InRight c _ _ => c end.

Definition ptr_of (t : tree) : option Z := match t with Leaf => None | Node _ _ p _ => Some p end.
Definition parent_of (k : path) : option Z := match k with [] => None | f :: _ => Some (frame_ptr f) end.

(** What a pointer refers to. *)
Fixpoint locate (t : tree) (k : path) (q : Z) : option (tree * path) :=
  match t with
  | Leaf => None
  | Node c l p r =>
      if p =? q then Some (t, k)
      else match locate l (InLeft c p r :: k) q with
           | Some z => Some z
           | None => locate r (InRight c l p :: k) q
           end
  end.

(** * Colours and rotations *)

(** [ext2fs_rb_is_red] and [ext2fs_rb_is_black] of a node that is there. *)
Definition is_red (t : tree) : outcome bool :=
  match t with
  | Leaf => Crash BadPointer
  | Node RB_RED _ _ _ => Done true
  | Node RB_BLACK _ _ _ => Done false
  end.

(** [node && is_red(node)]; its negation is [!node || is_black(node)]. *)
Definition red (t : tree) : bool := match t with Node RB_RED _ _ _ => true | _ => false end.

Definition set_color (t : tree) (c : color) : outcome tree :=
  match t with Leaf => Crash BadPointer | Node _ l p r => Done (Node c l p r) end.

Definition rb_rotate_left (t : tree) : outcome tree :=
  match t with
  | Node c a p (Node c2 b p2 d) => Done (Node c2 (Node c a p b) p2 d)
  | _ => Crash BadPointer
  end.

Definition rb_rotate_right (t : tree) : outcome tree :=
  match t with
  | Node c (Node c2 a p2 b) p d => Done (Node c2 a p2 (Node c b p d))
  | _ => Crash BadPointer
  end.

(** * Insertion *)

(** [ext2fs_rb_set_black(root->rb_node)] *)
Definition blacken_root (t : tree) : outcome tree := set_color t RB_BLACK.

(** [ext2fs_rb_insert_color] of the node [t] at [k]. *)
Fixpoint insert_color (t : tree) (k : path) : outcome tree :=
  match k with
  | [] => blacken_root t
  | par :: k' =>
      match frame_color par with
      | RB_BLACK => blacken_root (plug t k)
      | RB_RED =>
          match k' with
          | [] => Crash BadPointer
          | InLeft gc gp uncle :: k'' =>
              if red uncle then
                let* uncle := set_color uncle RB_BLACK in
                let* parent := set_color (close t par) RB_BLACK in
                insert_color (Node RB_RED parent gp uncle) k''
              else
                let* parent := match par with
                               | InRight _ _ _ => rb_rotate_left (close t par)
                               | InLeft _ _ _ => Done (close t par)
                               end in
                let* parent := set_color parent RB_BLACK in
                let* t := rb_rotate_right (Node RB_RED parent gp uncle) in
                blacken_root (plug t k'')
          | InRight gc uncle gp :: k'' =>
              if red uncle then
                let* uncle := set_color uncle RB_BLACK in
                let* parent := set_color (close t par) RB_BLACK in
                insert_color (Node RB_RED uncle gp parent) k''
              else
                let* parent := match par with
                               | InLeft _ _ _ => rb_rotate_right (close t par)
                               | InRight _ _ _ => Done (close t par)
                               end in
                let* parent := set_color parent RB_BLACK in
                let* t := rb_rotate_left (Node RB_RED uncle gp parent) in
                blacken_root (plug t k'')
          end
      end
  end.

(** [ext2fs_rb_link_node] at an empty place, then [ext2fs_rb_insert_color]. *)
Definition rb_insert (p : Z) (k : path) : outcome tree := insert_color (Node RB_RED Leaf p Leaf) k.

(** * Removal *)

(** One turn of [__rb_erase_color] for a node that is a left child, from the
    place on where [other] is not red: [inl] when the loop goes on with the
    parent, [inr] when it ends with the tree below the parent rearranged. *)
Definition erase_left (t : tree) (pc : color) (pp : Z) (other : tree) : outcome (tree + tree) :=
  match other with
  | Leaf => Crash BadPointer
  | Node oc ol op or =>
      if negb (red ol) && negb (red or) then Done (inl (Node pc t pp (Node RB_RED ol op or)))
      else
        let* other := if negb (red or) then
                        let* ol := set_color ol RB_BLACK in
                        rb_rotate_right (Node RB_RED ol op or)
                      else Done other in
        match other with
        | Leaf => Crash BadPointer
        | Node _ ol op or =>
            let* or := set_color or RB_BLACK in
            let* t := rb_rotate_left (Node RB_BLACK t pp (Node pc ol op or)) in
            Done (inr t)
        end
  end.

Definition erase_right (t : tree) (pc : color) (pp : Z) (other : tree) : outcome (tree + tree) :=
  match other with
  | Leaf => Crash BadPointer
  | Node oc ol op or =>
      if negb (red ol) && negb (red or) then Done (inl (Node pc (Node RB_RED ol op or) pp t))
      else
        let* other := if negb (red ol) then
                        let* or := set_color or RB_BLACK in
                        rb_rotate_left (Node RB_RED ol op or)
                      else Done other in
        match other with
        | Leaf => Crash BadPointer
        | Node _ ol op or =>
            let* ol := set_color ol RB_BLACK in
            let* t := rb_rotate_right (Node RB_BLACK (Node pc ol op or) pp t) in
            Done (inr t)
        end
  end.

(** [if (node) ext2fs_rb_set_black(node)] *)
Definition black (t : tree) : tree := match t with Leaf => Leaf | Node _ l p r => Node RB_BLACK l p r end.

(** [__rb_erase_color] of the place [t] at [k].  When the sibling is red, the
    parent is made red and rotated below it first; if the loop then goes on with
    the parent it ends at once, because the parent is red. *)
Fixpoint erase_color (t : tree) (k : path) : outcome tree :=
  match k with
  | [] => Done (black t)
  | f :: k' =>
      if red t then Done (plug (black t) k)
      else
        match f with
        | InLeft pc pp other =>
            let* r := is_red other in
            match r, other with
            | true, Node _ ol op or =>
                let* res := erase_left t RB_RED pp ol in
                match res with
                | inl parent => Done (plug (black parent) (InLeft RB_BLACK op or :: k'))
                | inr t => Done (black (plug t (InLeft RB_BLACK op or :: k')))
                end
            | _, _ =>
                let* res := erase_left t pc pp other in
                match res with
                | inl parent => erase_color parent k'
                | inr t => Done (black (plug t k'))
                end
            end
        | InRight pc other pp =>
            let* r := is_red other in
            match r, other with
            | true, Node _ ol op or =>
                let* res := erase_right t RB_RED pp or in
                match res with
                | inl parent => Done (plug (black parent) (InRight RB_BLACK ol op :: k'))
                | inr t => Done (black (plug t (InRight RB_BLACK ol op :: k')))
                end
            | _, _ =>
                let* res := erase_right t pc pp other in
                match res with
                | inl parent => erase_color parent k'
                | inr t => Done (black (plug t k'))
                end
            end
        end
  end.

(** [while ((left = node->rb_left) != NULL) node = left] *)
Fixpoint go_left (t : tree) (k : path) : tree * path :=
  match t with
  | Node c l p r => match l with Leaf => (t, k) | _ => go_left l (InLeft c p r :: k) end
  | Leaf => (t, k)
  end.

Fixpoint go_right (t : tree) (k : path) : tree * path :=
  match t with
  | Node c l p r => match r with Leaf => (t, k) | _ => go_right r (InRight c l p :: k) end
  | Leaf => (t, k)
  end.

(** [ext2fs_rb_erase] of the node [t] at [k]: a node with two children is
    replaced by its successor. *)
Definition erase_at (t : tree) (k : path) : outcome tree :=
  let finish c child k := match c with
                          | RB_BLACK => erase_color child k
                          | RB_RED => Done (plug child k)
                          end in
  match t with
  | Leaf => Crash BadPointer
  | Node c Leaf p r => finish c r k
  | Node c l p Leaf => finish c l k
  | Node c l p r =>
      match go_left r [] with
      | (Node c' _ p' child, k') => finish c' child (k' ++ InRight c l p' :: k)
      | (Leaf, _) => Crash BadPointer
      end
  end.

Definition ext2fs_rb_erase (p : Z) (root : tree) : outcome tree :=
  match locate root [] p with
  | Some (t, k) => erase_at t k
  | None => Crash BadPointer
  end.

(** * Walking *)

Definition ext2fs_rb_first (root : tree) : option Z := ptr_of (fst (go_left root [])).
Definition ext2fs_rb_last (root : tree) : option Z := ptr_of (fst (go_right root [])).

(** [while ((parent = rb_parent(node)) && node == parent->rb_right) node = parent] *)
Fixpoint up_right (k : path) : option Z :=
  match k with
  | [] => None
  | InRight _ _ _ :: k => up_right k
  | InLeft _ p _ :: _ => Some p
  end.

Fixpoint up_left (k : path) : option Z :=
  match k with
  | [] => None
  | InLeft _ _ _ :: k => up_left k
  | InRight _ _ p :: _ => Some p
  end.

Definition ext2fs_rb_next (p : Z) (root : tree) : outcome (option Z) :=
  match locate root [] p with
  | Some (Node _ _ _ r, k) =>
      match r with Leaf => Done (up_right k) | _ => Done (ptr_of (fst (go_left r []))) end
  | _ => Crash BadPointer
  end.

Definition ext2fs_rb_prev (p : Z) (root : tree) : outcome (option Z) :=
  match locate root [] p with
  | Some (Node _ l _ _, k) =>
      match l with Leaf => Done (up_left k) | _ => Done (ptr_of (fst (go_right l []))) end
  | _ => Crash BadPointer
  end.

(** * What a tree stands for *)

(** The addresses from left to right. *)
Fixpoint inorder (t : tree) : list Z :=
  match t with Leaf => [] | Node _ l p r => inorder l ++ p :: inorder r end.

(** The addresses to the left and to the right of a place. *)
Fixpoint before (k : path) : list Z :=
  match k with
  | [] => []
  | InLeft _ _ _ :: k => before k
  | InRight _ l p :: k => before k ++ inorder l ++ [p]
  end.

Fixpoint after (k : path) : list Z :=
  match k with
  | [] => []
  | InLeft _ p r :: k => p :: inorder r ++ after k
  | InRight _ _ _ :: k => after k
  end.

(** Normal form of nested appends. *)
Ltac app_norm := rewrite <- ?app_assoc; cbn [app]; rewrite <- ?app_assoc; cbn [app].

Lemma inorder_plug t k : inorder (plug t k) = before k ++ inorder t ++ after k.
Proof.
  revert t. induction k as [|f k IH]; intros t; cbn; [by rewrite app_nil_r|].
  unfold plug in IH. rewrite IH. destruct f; cbn; app_norm; done.
Qed.

Lemma plug_cons t f k : plug t (f :: k) = plug (close t f) k.
Proof. done. Qed.

Lemma plug_app t k k' : plug t (k ++ k') = plug (plug t k) k'.
Proof. apply fold_left_app. Qed.

Lemma before_app k k' : before (k ++ k') = before k' ++ before k.
Proof. induction k as [|[] k IH]; cbn; [by rewrite app_nil_r|done|]. rewrite IH. app_norm. done. Qed.

Lemma after_app k k' : after (k ++ k') = after k ++ after k'.
Proof. induction k as [|[] k IH]; cbn; [done| |done]. rewrite IH. app_norm. done. Qed.

Lemma locate_sound t k q t' k' : locate t k q = Some (t', k') -> plug t' k' = plug t k /\ ptr_of t' = Some q.
Proof.
  revert k. induction t as [|c l IHl p r IHr]; intros k; cbn [locate]; [done|].
  destruct (Z.eqb_spec p q) as [->|]; [intros [= <- <-]; done|].
  destruct (locate l _ q) as [z|] eqn:E.
  - intros [= ->]. apply IHl in E. done.
  - intros E'. apply IHr in E'. done.
Qed.

Lemma locate_complete t k q : q ∈ inorder t -> is_Some (locate t k q).
Proof.
  revert k. induction t as [|c l IHl p r IHr]; intros k; cbn [locate inorder]; [by rewrite elem_of_nil|].
  rewrite elem_of_app, elem_of_cons. intros Hq.
  destruct (Z.eqb_spec p q); [done|]. destruct Hq as [Hq|[Hq|Hq]]; [|congruence|].
  - destruct (IHl (InLeft c p r :: k) Hq) as [z ->]. done.
  - destruct (locate l _ q); [done|]. apply IHr. done.
Qed.

(** Looking up the address of a tree finds its node and its neighbours. *)
Lemma locate_root root q A B :
  NoDup (inorder root) -> inorder root = A ++ q :: B ->
  exists c l r k, locate root [] q = Some (Node c l q r, k) /\ plug (Node c l q r) k = root /\
    A = before k ++ inorder l /\ B = inorder r ++ after k.
Proof.
  intros Hnd E. destruct (locate_complete root [] q) as [[t k] El].
  { rewrite E. set_solver. }
  destruct (locate_sound _ _ _ _ _ El) as [Hp Hq]. destruct t as [|c l p r]; [done|]. injection Hq as ->.
  exists c, l, r, k. split; [done|]. split; [done|].
  assert (E2 : inorder root = (before k ++ inorder l) ++ q :: (inorder r ++ after k)).
  { change (plug root []) with root in Hp. rewrite <- Hp, inorder_plug. cbn. app_norm. done. }
  rewrite E in E2, Hnd. clear -E2 Hnd.
  apply NoDup_app in Hnd as (_ & Hd & Hn2). apply NoDup_cons in Hn2 as [Hn2 _].
  revert E2. generalize (before k ++ inorder l) as A'. generalize (inorder r ++ after k) as B'.
  revert Hd. induction A as [|a A IH]; intros Hd B' A' E2; destruct A' as [|a' A']; cbn in *.
  - injection E2 as ->. done.
  - injection E2 as <- ->. set_solver.
  - clear IH. injection E2 as -> _. set_solver.
  - injection E2 as -> E2. destruct (IH ltac:(clear IH; set_solver) B' A' E2) as [-> ->]. done.
Qed.

Lemma go_left_plug t k : plug (fst (go_left t k)) (snd (go_left t k)) = plug t k.
Proof.
  revert k. induction t as [|c l IHl p r IHr]; intros k; cbn [go_left]; [done|].
  destruct l as [|cl ll pl rl]; [done|]. rewrite IHl. done.
Qed.

Lemma go_left_spec c l p r k :
  exists c' p' r' k', go_left (Node c l p r) k = (Node c' Leaf p' r', k') /\ before k' = before k /\
    p' :: inorder r' ++ after k' = inorder (Node c l p r) ++ after k.
Proof.
  revert c p r k. induction l as [|cl ll IHl pl rl _]; intros c p r k.
  - cbn [go_left]. do 4 eexists. split; [done|]. done.
  - change (go_left (Node c (Node cl ll pl rl) p r) k) with (go_left (Node cl ll pl rl) (InLeft c p r :: k)).
    destruct (IHl cl pl rl (InLeft c p r :: k)) as (c' & p' & r' & k' & E & Hb & Ho).
    exists c', p', r', k'. split; [done|]. split; [done|]. rewrite Ho. cbn. app_norm. done.
Qed.

Lemma go_right_spec c l p r k :
  exists c' l' p' k', go_right (Node c l p r) k = (Node c' l' p' Leaf, k') /\ after k' = after k /\
    before k' ++ inorder l' ++ [p'] = before k ++ inorder (Node c l p r).
Proof.
  revert c l p k. induction r as [|cr lr _ pr rr IHr]; intros c l p k.
  - cbn [go_right]. do 4 eexists. split; [done|]. done.
  - change (go_right (Node c l p (Node cr lr pr rr)) k) with (go_right (Node cr lr pr rr) (InRight c l p :: k)).
    destruct (IHr cr lr pr (InRight c l p :: k)) as (c' & l' & p' & k' & E & Ha & Ho).
    exists c', l', p', k'. split; [done|]. split; [done|]. rewrite Ho. cbn. app_norm. done.
Qed.

(** ** Walking *)

Lemma up_right_after k : up_right k = head (after k).
Proof. induction k as [|[] k IH]; cbn; done. Qed.

Lemma up_left_before k : up_left k = last (before k).
Proof.
  induction k as [|[] k IH]; cbn; [done|done|]. rewrite app_assoc, last_snoc. done.
Qed.

Lemma rb_first_ok root : ext2fs_rb_first root = head (inorder root).
Proof.
  unfold ext2fs_rb_first. destruct root as [|c l p r]; [done|].
  destruct (go_left_spec c l p r []) as (c' & p' & r' & k' & -> & _ & Ho). cbn [after] in Ho.
  rewrite app_nil_r in Ho. rewrite <- Ho. done.
Qed.

Lemma rb_last_ok root : ext2fs_rb_last root = last (inorder root).
Proof.
  unfold ext2fs_rb_last. destruct root as [|c l p r]; [done|].
  destruct (go_right_spec c l p r []) as (c' & l' & p' & k' & -> & _ & Ho). cbn [before] in Ho.
  rewrite app_nil_l in Ho. rewrite <- Ho, app_assoc, last_snoc. done.
Qed.

Lemma rb_next_ok root A q B : NoDup (inorder root) -> inorder root = A ++ q :: B ->
  ext2fs_rb_next q root = Done (head B).
Proof.
  intros Hnd E. destruct (locate_root root q A B Hnd E) as (c & l & r & k & El & _ & _ & ->).
  unfold ext2fs_rb_next. rewrite El. destruct r as [|cr lr pr rr]; [rewrite up_right_after; done|].
  destruct (go_left_spec cr lr pr rr []) as (c' & p' & r' & k' & -> & _ & Ho). cbn [after] in Ho.
  rewrite app_nil_r in Ho. rewrite <- Ho. done.
Qed.

Lemma rb_prev_ok root A q B : NoDup (inorder root) -> inorder root = A ++ q :: B ->
  ext2fs_rb_prev q root = Done (last A).
Proof.
  intros Hnd E. destruct (locate_root root q A B Hnd E) as (c & l & r & k & El & _ & -> & _).
  unfold ext2fs_rb_prev. rewrite El. destruct l as [|cr lr pr rr]; [rewrite up_left_before; cbn; rewrite app_nil_r; done|].
  destruct (go_right_spec cr lr pr rr []) as (c' & l' & p' & k' & -> & _ & Ho). cbn [before] in Ho.
  rewrite app_nil_l in Ho. rewrite <- Ho, !app_assoc, last_snoc. done.
Qed.

(** * The invariant *)

(** Every way down to a leaf has [n] black nodes, and a red node has no red
    child. *)
Inductive balanced : nat -> tree -> Prop :=
| bal_leaf : balanced 0 Leaf
| bal_red n l p r : balanced n l -> balanced n r -> red l = false -> red r = false ->
    balanced n (Node RB_RED l p r)
| bal_black n l p r : balanced n l -> balanced n r -> balanced (S n) (Node RB_BLACK l p r).

Definition rb_tree (t : tree) : Prop := red t = false /\ exists n, balanced n t.

(** The place may not hold a red node. *)
Definition hole_black (k : path) : bool :=
  match k with [] => true | f :: _ => match frame_color f with RB_RED => true | RB_BLACK => false end end.

(** A path that is in order around a place for a tree of black height [n]. *)
Fixpoint fine (n : nat) (k : path) : Prop :=
  match k with
  | [] => True
  | f :: k =>
      let other := match f with InLeft _ _ r => r | InRight _ l _ => l end in
      balanced n other /\
      match frame_color f with
      | RB_RED => red other = false /\ hole_black k = false /\ fine n k
      | RB_BLACK => fine (S n) k
      end
  end.

Create HintDb rb.
#[local] Hint Constructors balanced : rb.
#[local] Hint Extern 3 => congruence : rb.

Lemma plug_rb t k n : balanced n t -> fine n k -> (red t = true -> hole_black k = false) -> rb_tree (plug t k).
Proof.
  revert t n. induction k as [|f k IH]; intros t n Ht Hk Hr.
  - split; [|eauto]. change (plug t []) with t. destruct (red t); [discriminate Hr; done|done].
  - rewrite plug_cons. cbn [fine] in Hk. destruct Hk as [Ho Hk].
    destruct f as [[] p r|[] l p]; cbn [close frame_color hole_black] in *.
    + destruct Hk as (? & ? & ?). apply (IH _ n); [|done|done]. constructor; try done.
      destruct (red t); [discriminate Hr; done|done].
    + apply (IH _ (S n)); [by constructor|done|done].
    + destruct Hk as (? & ? & ?). apply (IH _ n); [|done|done]. constructor; try done.
      destruct (red t); [discriminate Hr; done|done].
    + apply (IH _ (S n)); [by constructor|done|done].
Qed.

Lemma rb_tree_black t : rb_tree t -> black t = t.
Proof. intros [Hr _]. destruct t as [|[] l p r]; done. Qed.

(** Making the root black keeps the rest. *)
Lemma blacken_balanced n t : balanced n t -> t <> Leaf ->
  exists t' m, blacken_root t = Done t' /\ balanced m t' /\ red t' = false /\ inorder t' = inorder t.
Proof.
  intros Ht Hne. destruct t as [|c l p r]; [done|]. inversion Ht; subst; cbn;
    do 2 eexists; (split; [done|]); (split; [constructor; eassumption|done]).
Qed.

Lemma plug_balanced t k n : balanced n t -> fine n k -> (red t = true -> k <> [] -> hole_black k = false) ->
  exists m, balanced m (plug t k).
Proof.
  intros Ht Hk Hr. destruct k as [|f k]; [eauto|].
  destruct (plug_rb t (f :: k) n Ht Hk) as [_ ?]; [|done]. intros. apply Hr; done.
Qed.

Lemma plug_not_leaf t k : t <> Leaf -> plug t k <> Leaf.
Proof. revert t. induction k as [|[] k IH]; intros t Ht; cbn; [done|..]; apply IH; done. Qed.

(** Inverting what is known of the colours and heights of subtrees. *)
Ltac balanced_inv :=
  repeat match goal with
  | H : balanced _ (Node _ _ _ _) |- _ => inversion H; clear H; subst
  | H : balanced (S _) Leaf |- _ => inversion H
  | H : context [red (Node _ _ _ _)] |- _ => progress cbn [red] in H
  | H : true = false |- _ => discriminate H
  | H : false = true |- _ => discriminate H
  | H : balanced _ ?t, R : red ?t = true |- _ =>
      destruct t as [|[] ? ? ?]; cbn [red] in R; try discriminate R; clear R
  end.

Lemma insert_color_end t k n :
  balanced n t -> fine n k -> t <> Leaf -> (red t = true -> k <> [] -> hole_black k = false) ->
  exists t', blacken_root (plug t k) = Done t' /\ rb_tree t' /\ inorder t' = before k ++ inorder t ++ after k.
Proof.
  intros Ht Hk Hne Hr. destruct (plug_balanced t k n Ht Hk Hr) as [m Hm].
  destruct (blacken_balanced m _ Hm) as (t' & m' & E & Hb & Hrt & Ho); [by apply plug_not_leaf|].
  exists t'. split; [done|]. split; [split; [done|eauto]|]. rewrite Ho. apply inorder_plug.
Qed.

(** Inserting a red node keeps the order and restores the invariant. *)
Lemma insert_color_ok t k n :
  balanced n t -> red t = true -> fine n k ->
  exists t', insert_color t k = Done t' /\ rb_tree t' /\ inorder t' = before k ++ inorder t ++ after k.
Proof.
  remember (length k) as len eqn:Hlen. revert t k n Hlen.
  induction len as [len IH] using lt_wf_ind. intros t k n Hlen Ht Hr Hk.
  assert (Hne : t <> Leaf) by (destruct t; done).
  destruct k as [|par k]; [apply (insert_color_end t [] n); done|].
  cbn [insert_color]. destruct (frame_color par) eqn:Ec.
  2: { apply (insert_color_end t _ n); try done. cbn. rewrite Ec. done. }
  cbn [fine] in Hk. rewrite Ec in Hk. destruct Hk as (Hsib & Hsr & Hhb & Hk).
  destruct k as [|g k]; [discriminate Hhb|]. cbn [hole_black fine] in Hhb, Hk. destruct Hk as [Hun Hk].
  destruct (frame_color g) eqn:Eg; [discriminate Hhb|].
  destruct g as [gc gp uncle|gc uncle gp]; cbn [frame_color] in Eg; subst gc;
    (destruct (red uncle) eqn:Eu;
     [ destruct uncle as [|[] ul up ur]; try discriminate Eu;
       destruct par as [pc pp psib|pc psib pp]; cbn [frame_color] in Ec; subst pc; cbn [close set_color obind];
       inversion Hun; subst;
       match goal with |- context [insert_color ?x _] =>
         destruct (IH (length k) ltac:(subst; cbn; lia) x k (S n) eq_refl) as (t' & E & Hrb & Ho);
         [eauto with rb|done|done|]; exists t'; split; [done|]; split; [done|];
         rewrite Ho; cbn; app_norm; done end
     | destruct par as [pc pp psib|pc psib pp]; cbn [frame_color] in Ec; subst pc; balanced_inv;
       cbn [close rb_rotate_left rb_rotate_right set_color obind];
       match goal with |- context [plug ?x k] =>
         destruct (insert_color_end x k (S n)) as (t' & E & Hrb & Ho);
         [eauto with rb|done|done|done|]; exists t'; split; [done|]; split; [done|];
         rewrite Ho; cbn; app_norm; done end ]).
Qed.

(** ** Removal *)

(** One turn for a left child whose sibling is black: the loop goes on with the
    parent, below which one black node is missing everywhere, or the heights are
    equal again. *)
Definition turn_ok (n : nat) (pc : color) (order : list Z) (res : tree + tree) : Prop :=
  match res with
  | inl t' => inorder t' = order /\ red t' = (match pc with RB_RED => true | RB_BLACK => false end) /\
              balanced (S n) (black t') /\ t' <> Leaf
  | inr t' => inorder t' = order /\ red t' = (match pc with RB_RED => true | RB_BLACK => false end) /\
              balanced (match pc with RB_RED => S n | RB_BLACK => S (S n) end) t'
  end.

Lemma erase_left_ok n t pc pp other :
  balanced n t -> red t = false -> balanced (S n) other -> red other = false ->
  exists res, erase_left t pc pp other = Done res /\ turn_ok n pc (inorder t ++ pp :: inorder other) res.
Proof.
  intros Ht Hrt Ho Hro. destruct other as [|[] ol op or]; [inversion Ho|discriminate Hro|].
  inversion Ho; subst. cbn [erase_left].
  destruct (red or) eqn:Er, (red ol) eqn:El; cbn [negb andb]; balanced_inv;
    cbn [set_color rb_rotate_left rb_rotate_right obind]; eexists; (split; [done|]); cbn;
    (split; [app_norm; done|]); destruct pc; eauto 10 with rb.
Qed.

Lemma erase_right_ok n t pc pp other :
  balanced n t -> red t = false -> balanced (S n) other -> red other = false ->
  exists res, erase_right t pc pp other = Done res /\ turn_ok n pc (inorder other ++ pp :: inorder t) res.
Proof.
  intros Ht Hrt Ho Hro. destruct other as [|[] ol op or]; [inversion Ho|discriminate Hro|].
  inversion Ho; subst. cbn [erase_right].
  destruct (red ol) eqn:El, (red or) eqn:Er; cbn [negb andb]; balanced_inv;
    cbn [set_color rb_rotate_left rb_rotate_right obind]; eexists; (split; [done|]); cbn;
    (split; [app_norm; done|]); destruct pc; eauto 10 with rb.
Qed.

(** The place holds a tree that is one black node short of what the path wants,
    or a red node that makes it up when it turns black. *)
Definition short (n : nat) (t : tree) : Prop :=
  if red t then balanced (S n) (black t) else balanced n t.

Lemma inorder_black t : inorder (black t) = inorder t.
Proof. destruct t; done. Qed.

Lemma red_black t : red (black t) = false.
Proof. destruct t; done. Qed.

(** The end of the loop: a tree with the right height is plugged in. *)
Lemma erase_end t k n order :
  balanced n t -> fine n k -> (red t = true -> hole_black k = false) -> inorder (plug t k) = order ->
  rb_tree (plug t k) /\ black (plug t k) = plug t k /\ inorder (plug t k) = order.
Proof.
  intros Ht Hk Hr Ho. pose proof (plug_rb t k n Ht Hk Hr) as Hrb. split; [done|].
  split; [apply rb_tree_black; done|done].
Qed.

Lemma erase_color_ok t k n :
  short n t -> fine (S n) k ->
  exists t', erase_color t k = Done t' /\ rb_tree t' /\ inorder t' = before k ++ inorder t ++ after k.
Proof.
  revert t n. induction k as [|f k IH]; intros t n Ht Hk.
  { exists (black t). split; [done|]. split.
    - split; [apply red_black|]. unfold short in Ht. destruct (red t) eqn:E; [eauto|].
      destruct t as [|[] l p r]; [eauto|discriminate E|eauto].
    - cbn. rewrite inorder_black, app_nil_r. done. }
  unfold short in Ht. cbn [erase_color]. destruct (red t) eqn:Ert.
  { eexists. split; [done|]. split.
    - apply (plug_rb _ _ (S n)); [done|done|]. rewrite red_black. done.
    - rewrite inorder_plug, inorder_black. done. }
  cbn [fine] in Hk. destruct Hk as [Ho Hk].
  destruct f as [pc pp other|pc other pp]; cbn [frame_color] in Hk.
  - destruct other as [|[] ol op or]; [inversion Ho| |]; cbn [is_red obind].
    + (* the sibling is red *)
      inversion Ho; subst. destruct pc; [destruct Hk as [? _]; discriminate|].
      destruct (erase_left_ok n t RB_RED pp ol) as (res & -> & Hres); [done..|]. cbn [obind].
      destruct res as [x|x]; cbn in Hres; eexists; (split; [done|]).
      * destruct Hres as (Hin & _ & Hb & _). split.
        -- apply (plug_rb _ _ (S n)); [done|cbn; done|rewrite red_black; done].
        -- rewrite inorder_plug, inorder_black, Hin. cbn. app_norm. done.
      * destruct Hres as (Hin & _ & Hb).
        destruct (erase_end x (InLeft RB_BLACK op or :: k) (S n) (before (InLeft RB_BLACK op or :: k) ++ inorder x ++
          after (InLeft RB_BLACK op or :: k))) as (Hrb & -> & Hi); [done|cbn; done|done|apply inorder_plug|].
        split; [done|]. rewrite Hi, Hin. cbn. app_norm. done.
    + destruct (erase_left_ok n t pc pp (Node RB_BLACK ol op or)) as (res & -> & Hres); [done..|]. cbn [obind].
      destruct res as [x|x]; cbn in Hres.
      * destruct Hres as (Hin & Hrx & Hb & _).
        destruct (IH x (match pc with RB_RED => n | RB_BLACK => S n end)) as (t' & E & Hrb & Hi).
        -- unfold short. rewrite Hrx. destruct pc; [done|]. destruct x as [|[] ? ? ?]; done.
        -- destruct pc; [apply Hk|done].
        -- exists t'. split; [done|]. split; [done|]. rewrite Hi, Hin. cbn. app_norm. done.
      * destruct Hres as (Hin & Hrx & Hb). eexists. split; [done|].
        destruct (erase_end x k _ (before k ++ inorder x ++ after k) Hb) as (Hrb & -> & Hi);
          [destruct pc; [apply Hk|done]|rewrite Hrx; destruct pc; [intros; apply Hk|done]|apply inorder_plug|].
        split; [done|]. rewrite Hi, Hin. cbn. app_norm. done.
  - destruct other as [|[] ol op or]; [inversion Ho| |]; cbn [is_red obind].
    + inversion Ho; subst. destruct pc; [destruct Hk as [? _]; discriminate|].
      destruct (erase_right_ok n t RB_RED pp or) as (res & -> & Hres); [done..|]. cbn [obind].
      destruct res as [x|x]; cbn in Hres; eexists; (split; [done|]).
      * destruct Hres as (Hin & _ & Hb & _). split.
        -- apply (plug_rb _ _ (S n)); [done|cbn; done|rewrite red_black; done].
        -- rewrite inorder_plug, inorder_black, Hin. cbn. app_norm. done.
      * destruct Hres as (Hin & _ & Hb).
        destruct (erase_end x (InRight RB_BLACK ol op :: k) (S n) (before (InRight RB_BLACK ol op :: k) ++ inorder x ++
          after (InRight RB_BLACK ol op :: k))) as (Hrb & -> & Hi); [done|cbn; done|done|apply inorder_plug|].
        split; [done|]. rewrite Hi, Hin. cbn. app_norm. done.
    + destruct (erase_right_ok n t pc pp (Node RB_BLACK ol op or)) as (res & -> & Hres); [done..|]. cbn [obind].
      destruct res as [x|x]; cbn in Hres.
      * destruct Hres as (Hin & Hrx & Hb & _).
        destruct (IH x (match pc with RB_RED => n | RB_BLACK => S n end)) as (t' & E & Hrb & Hi).
        -- unfold short. rewrite Hrx. destruct pc; [done|]. destruct x as [|[] ? ? ?]; done.
        -- destruct pc; [apply Hk|done].
        -- exists t'. split; [done|]. split; [done|]. rewrite Hi, Hin. cbn. app_norm. done.
      * destruct Hres as (Hin & Hrx & Hb). eexists. split; [done|].
        destruct (erase_end x k _ (before k ++ inorder x ++ after k) Hb) as (Hrb & -> & Hi);
          [destruct pc; [apply Hk|done]|rewrite Hrx; destruct pc; [intros; apply Hk|done]|apply inorder_plug|].
        split; [done|]. rewrite Hi, Hin. cbn. app_norm. done.
Qed.

Lemma unplug t k : rb_tree (plug t k) ->
  exists n, balanced n t /\ fine n k /\ (red t = true -> hole_black k = false).
Proof.
  revert t. induction k as [|f k IH]; intros t.
  - intros [Hr [n Hn]]. exists n. split; [done|]. split; [done|]. change (plug t []) with t in Hr. congruence.
  - rewrite plug_cons. intros Hrb. destruct (IH _ Hrb) as (n & Hn & Hk & Hh).
    destruct f as [[] p r|[] l p]; cbn [close] in Hn, Hh; inversion Hn; subst; cbn [red] in Hh.
    + exists n. split; [done|]. split; [cbn; auto|]. congruence.
    + eexists. split; [eassumption|]. split; [cbn; auto|]. done.
    + exists n. split; [done|]. split; [cbn; auto|]. congruence.
    + eexists. split; [eassumption|]. split; [cbn; auto|]. done.
Qed.

(** The address stored at a step of the path does not matter. *)
Lemma fine_ptr n k' c l p p' k : fine n (k' ++ InRight c l p :: k) -> fine n (k' ++ InRight c l p' :: k).
Proof.
  revert n. induction k' as [|f k' IH]; intros n; [done|]. cbn [app fine].
  replace (hole_black (k' ++ InRight c l p' :: k)) with (hole_black (k' ++ InRight c l p :: k))
    by (destruct k'; done).
  intros [Ho Hk]. split; [done|]. destruct (frame_color f); [|by apply IH]. destruct Hk as (? & ? & ?). auto.
Qed.

(** Taking out a node with at most one child. *)
Lemma finish_ok c child n k :
  (match c with RB_RED => balanced n child /\ red child = false
              | RB_BLACK => exists m, n = S m /\ balanced m child end) ->
  fine n k ->
  exists t', match c with RB_BLACK => erase_color child k | RB_RED => Done (plug child k) end = Done t' /\
    rb_tree t' /\ inorder t' = before k ++ inorder child ++ after k.
Proof.
  intros Hc Hk. destruct c.
  - destruct Hc as [Hb Hr]. eexists. split; [done|]. split; [|apply inorder_plug].
    apply (plug_rb _ _ n); [done|done|congruence].
  - destruct Hc as (m & -> & Hb). apply (erase_color_ok child k m); [|done]. unfold short.
    destruct (red child) eqn:E; [|done]. destruct child as [|[] ? ? ?]; try discriminate E.
    inversion Hb; subst. constructor; done.
Qed.

(** [ext2fs_rb_erase] takes exactly the node out and restores the invariant. *)
Lemma rb_erase_ok root A q B :
  rb_tree root -> NoDup (inorder root) -> inorder root = A ++ q :: B ->
  exists root', ext2fs_rb_erase q root = Done root' /\ rb_tree root' /\ inorder root' = A ++ B.
Proof.
  intros Hrb Hnd E. destruct (locate_root root q A B Hnd E) as (c & l & r & k & El & Hp & -> & ->).
  unfold ext2fs_rb_erase. rewrite El. rewrite <- Hp in Hrb.
  destruct (unplug _ _ Hrb) as (n & Hn & Hk & Hh). unfold erase_at. cbv zeta.
  destruct l as [|cl ll pl lr]; [|destruct r as [|cr rl pr rr]].
  - destruct (finish_ok c r n k) as (t' & Et & Ht & Hi); [|done|].
    { inversion Hn; subst; eauto. }
    exists t'. split; [done|]. split; [done|]. rewrite Hi. cbn. rewrite app_nil_r. done.
  - destruct (finish_ok c (Node cl ll pl lr) n k) as (t' & Et & Ht & Hi); [|done|].
    { inversion Hn; subst; eauto. }
    exists t'. split; [done|]. split; [done|]. rewrite Hi. cbn [inorder app]. app_norm. done.
  - destruct (go_left_spec cr rl pr rr []) as (c' & p' & r' & k' & Eg & Hb & Ho). rewrite Eg.
    set (l := Node cl ll pl lr) in *. set (r := Node cr rl pr rr) in *.
    assert (Hp' : plug (Node c' Leaf p' r') (k' ++ InRight c l q :: k) = plug (Node c l q r) k).
    { rewrite plug_app. pose proof (go_left_plug r []) as Hg. rewrite Eg in Hg. cbn [fst snd] in Hg.
      rewrite Hg. done. }
    rewrite <- Hp' in Hrb. destruct (unplug _ _ Hrb) as (m & Hm & Hk' & _).
    destruct (finish_ok c' r' m (k' ++ InRight c l p' :: k)) as (t' & Et & Ht & Hi).
    { inversion Hm; subst; eauto. }
    { apply (fine_ptr m k' c l q). done. }
    exists t'. split; [done|]. split; [done|]. rewrite Hi, before_app, after_app, Hb.
    cbn [before after app] in *. rewrite !app_nil_r in Ho. rewrite app_nil_r.
    fold r in Ho. rewrite <- Ho. app_norm. done.
Qed.

(** A node linked at an empty place and coloured. *)
Lemma rb_insert_ok p k : rb_tree (plug Leaf k) ->
  exists root', rb_insert p k = Done root' /\ rb_tree root' /\ inorder root' = before k ++ p :: after k.
Proof.
  intros Hrb. destruct (unplug _ _ Hrb) as (n & Hn & Hk & _). inversion Hn; subst.
  destruct (insert_color_ok (Node RB_RED Leaf p Leaf) k 0) as (t' & E & Ht & Hi);
    [repeat constructor|done|done|]. eauto.
Qed.

(** ** The height *)

Fixpoint size (t : tree) : nat := match t with Leaf => 0 | Node _ l _ r => S (size l + size r) end.
Fixpoint height (t : tree) : nat := match t with Leaf => 0 | Node _ l _ r => S (Nat.max (height l) (height r)) end.

Lemma balanced_height n t : balanced n t ->
  (height t <= 2 * n + (if red t then 1 else 0))%nat /\ (2 ^ n <= S (size t))%nat.
Proof.
  induction 1 as [|n l p r Hl [IHl Sl] Hr [IHr Sr] El Er|n l p r Hl [IHl Sl] Hr [IHr Sr]]; cbn [height size red Nat.pow].
  - lia.
  - rewrite El in IHl. rewrite Er in IHr. lia.
  - destruct (red l), (red r); lia.
Qed.

Lemma rb_height t : rb_tree t -> (2 ^ ((height t + 1) / 2) <= S (size t))%nat.
Proof.
  intros [Hr [n Hn]]. destruct (balanced_height n t Hn) as [Hh Hs]. rewrite Hr in Hh.
  apply Nat.le_trans with (2 ^ n)%nat; [|done]. apply Nat.pow_le_mono_r; [lia|].
  apply Nat.lt_succ_r. apply Nat.Div0.div_lt_upper_bound. lia.
Qed.

(** ** All trees that can come about *)

(** Nodes are linked at any empty place and taken out in any order. *)
Inductive reach : tree -> Prop :=
| reach_empty : reach Leaf
| reach_link t k p t' : reach t -> plug Leaf k = t -> p ∉ inorder t -> rb_insert p k = Done t' -> reach t'
| reach_erase t p t' : reach t -> p ∈ inorder t -> ext2fs_rb_erase p t = Done t' -> reach t'.

Lemma reach_inv t : reach t -> rb_tree t /\ NoDup (inorder t).
Proof.
  induction 1 as [|t k p t' _ [Hrb Hnd] Hk Hp E|t p t' _ [Hrb Hnd] Hp E].
  - split; [split; [done|exists 0%nat; constructor]|constructor].
  - subst t. destruct (rb_insert_ok p k Hrb) as (u & Eu & Hu & Hi). rewrite Eu in E. injection E as <-.
    split; [done|]. rewrite Hi. rewrite inorder_plug in Hnd, Hp. cbn in Hnd, Hp.
    rewrite Permutation_app_comm. cbn. rewrite NoDup_cons, Permutation_app_comm. split; [set_solver|done].
  - apply list_elem_of_split in Hp as (A & B & Ho). destruct (rb_erase_ok _ _ _ _ Hrb Hnd Ho) as (u & Eu & Hu & Hi).
    rewrite Eu in E. injection E as <-. split; [done|]. rewrite Hi. rewrite Ho, Permutation_app_comm in Hnd. cbn in Hnd.
    rewrite Permutation_app_comm. apply NoDup_cons in Hnd as [_ Hnd]. rewrite Permutation_app_comm. rewrite Permutation_app_comm in Hnd. done.
Qed.

(** C16: from the empty tree on, however nodes are linked and erased: the tree is a
    red-black tree, no higher than twice the logarithm of its size; linking a node
    at an empty place and erasing a node succeed, and put the node there or take
    exactly that node out of the order; the first node and the successor and
    predecessor of a node are those of that order. *)
Theorem rb_tree_correct t (H : reach t) :
  rb_tree t /\ (height t <= 2 * Nat.log2 (S (size t)))%nat /\
  (forall k p, plug Leaf k = t ->
     inorder t = before k ++ after k /\
     exists t', rb_insert p k = Done t' /\ rb_tree t' /\ inorder t' = before k ++ p :: after k) /\
  ext2fs_rb_first t = head (inorder t) /\
  forall A p B, inorder t = A ++ p :: B ->
    (exists t', ext2fs_rb_erase p t = Done t' /\ rb_tree t' /\ inorder t' = A ++ B) /\
    ext2fs_rb_next p t = Done (head B) /\ ext2fs_rb_prev p t = Done (last A).
Proof.
  destruct (reach_inv t H) as [Hrb Hnd]. split; [done|]. split; [|split; [|split; [apply rb_first_ok|]]].
  - pose proof (rb_height t Hrb) as Hh. apply Nat.log2_le_mono in Hh. rewrite Nat.log2_pow2 in Hh by lia.
    pose proof (Nat.div_mod_eq (height t + 1) 2). pose proof (Nat.mod_upper_bound (height t + 1) 2). lia.
  - intros k p <-. split; [apply inorder_plug|]. apply rb_insert_ok. done.
  - intros A p B Ho. split; [by apply rb_erase_ok|]. split; [by apply (rb_next_ok _ A)|by apply (rb_prev_ok _ A p B)].
Qed.

(** Three nodes linked in ascending order, then the first one erased. *)
Lemma rb_tree_correct_witness :
  reach (Node RB_BLACK Leaf 2 (Node RB_RED Leaf 3 Leaf)) /\
  rb_tree (Node RB_BLACK Leaf 2 (Node RB_RED Leaf 3 Leaf)).
Proof.
  assert (H : reach (Node RB_BLACK Leaf 2 (Node RB_RED Leaf 3 Leaf))).
  { apply (reach_erase (Node RB_BLACK (Node RB_RED Leaf 1 Leaf) 2 (Node RB_RED Leaf 3 Leaf)) 1); [|set_solver|reflexivity].
    apply (reach_link (Node RB_BLACK Leaf 1 (Node RB_RED Leaf 2 Leaf))
             [InRight RB_RED Leaf 2; InRight RB_BLACK Leaf 1] 3); [|reflexivity|set_solver|reflexivity].
    apply (reach_link (Node RB_BLACK Leaf 1 Leaf) [InRight RB_BLACK Leaf 1] 2); [|reflexivity|set_solver|reflexivity].
    apply (reach_link Leaf [] 1); [apply reach_empty|reflexivity|set_solver|reflexivity]. }
  split; [exact H|]. apply (rb_tree_correct _ H).
Defined.
