(* ===== verification/RbBitmap.v ===== *)
(** lib/ext2fs/blkmap64_rb.c: the back end of 64-bit bitmaps that keeps the
    numbers that are set as extents in a red-black tree. *)

From S2P Require Import Prelude Bitops Bitmap64 RbTree.

Local Open Scope Z_scope.

Definition EXT2_ET_NO_MEMORY : Z := 2133571398.
Definition EINVAL : Z := 22.

(** * The structures *)

(** [struct bmap_rb_extent] without its [struct rb_node], which is in the tree. *)
Record extent := mk_ext { e_start : Z; e_count : Z }.

Definition e_end (e : extent) : Z := u64 (e_start e + e_count e).

(** [struct ext2fs_rb_private] with the extents that are allocated. *)
Record rb_private := mk_rb {
  root : tree;
  exts : gmap Z extent;
  wcursor : option Z;
  rcursor : option Z;
  rcursor_next : option Z }.

Definition set_root (bp : rb_private) (t : tree) : rb_private :=
  mk_rb t (exts bp) (wcursor bp) (rcursor bp) (rcursor_next bp).
Definition set_ext (bp : rb_private) (p : Z) (e : extent) : rb_private :=
  mk_rb (root bp) (<[p := e]> (exts bp)) (wcursor bp) (rcursor bp) (rcursor_next bp).
Definition set_wcursor (bp : rb_private) (c : option Z) : rb_private :=
  mk_rb (root bp) (exts bp) c (rcursor bp) (rcursor_next bp).
Definition set_rcursor (bp : rb_private) (c : option Z) : rb_private :=
  mk_rb (root bp) (exts bp) (wcursor bp) c (rcursor_next bp).
Definition set_rcursor_next (bp : rb_private) (c : option Z) : rb_private :=
  mk_rb (root bp) (exts bp) (wcursor bp) (rcursor bp) c.

(** [node_to_extent], dereferenced. *)
Definition deref (bp : rb_private) (p : Z) : outcome extent :=
  match exts bp !! p with Some e => Done e | None => Crash BadPointer end.

(** [rb_get_new_extent] aborts the program without memory. *)
Definition rb_get_new_extent (bp : rb_private) (al : allocator) (start count : Z)
  : outcome (Z * rb_private * allocator) :=
  let (p, al) := malloc al in
  match p with
  | None => Crash AssertFailed
  | Some p => Done (p, set_ext bp p (mk_ext start count), al)
  end.

Definition clear_cursor (c : option Z) (p : Z) : option Z :=
  match c with Some q => if q =? p then None else c | None => None end.

Definition rb_free_extent (bp : rb_private) (p : Z) : rb_private :=
  mk_rb (root bp) (delete p (exts bp)) (clear_cursor (wcursor bp) p) (clear_cursor (rcursor bp) p)
    (clear_cursor (rcursor_next bp) p).

(** [ext2fs_free_mem(&ext)] without a look at the cursors. *)
Definition free_mem (bp : rb_private) (p : Z) : rb_private :=
  mk_rb (root bp) (delete p (exts bp)) (wcursor bp) (rcursor bp) (rcursor_next bp).

Definition rb_erase (bp : rb_private) (p : Z) : outcome rb_private :=
  let* t := ext2fs_rb_erase p (root bp) in Done (set_root bp t).

(** The loop all functions begin with, down from the root: found at a node, or
    the empty place where it ends; the last node visited is the parent of that place. *)
Fixpoint descend (cmp : extent -> comparison) (bp : rb_private) (t : tree) (k : path) : outcome (Z + path) :=
  match t with
  | Leaf => Done (inr k)
  | Node c l p r =>
      let* e := deref bp p in
      match cmp e with
      | Lt => descend cmp bp l (InLeft c p r :: k)
      | Gt => descend cmp bp r (InRight c l p :: k)
      | Eq => Done (inl p)
      end
  end.

(** In an extent, or directly behind it. *)
Definition cmp_touch (start : Z) (e : extent) : comparison :=
  if start <? e_start e then Lt else if e_end e <? start then Gt else Eq.

Definition cmp_in (start : Z) (e : extent) : comparison :=
  if start <? e_start e then Lt else if e_end e <=? start then Gt else Eq.

(** * Insertion *)

(** The extents to the right that the new one reaches are taken out. *)
Fixpoint merge_right (fuel : nat) (node : option Z) (start count : Z) (bp : rb_private)
  : outcome (Z * rb_private) :=
  match fuel with
  | O => Crash OutOfFuel
  | S fuel =>
      match node with
      | None => Done (count, bp)
      | Some p =>
          let* next := ext2fs_rb_next p (root bp) in
          let* e := deref bp p in
          if e_end e <=? start then merge_right fuel next start count bp
          else if u64 (start + count) <? e_start e then Done (count, bp)
          else if e_end e <=? u64 (start + count) then
            let* bp := rb_erase bp p in
            merge_right fuel next start count (rb_free_extent bp p)
          else
            let count := u64 (count + (e_end e - u64 (start + count))) in
            let* bp := rb_erase bp p in
            Done (count, rb_free_extent bp p)
      end
  end.

(** From [skip_insert] on. *)
Definition insert_merge (p start count retval : Z) (bp : rb_private) : outcome (Z * rb_private) :=
  let* next := ext2fs_rb_next p (root bp) in
  let* (count, bp) := merge_right (S (size (root bp))) next start count bp in
  Done (retval, set_ext bp p (mk_ext start count)).

(** From [got_extent] on: the new extent begins in [p] or directly behind it. *)
Definition insert_found (p : Z) (e : extent) (start count : Z) (bp : rb_private) : outcome (Z * rb_private) :=
  if u64 (start + count) <=? e_end e then Done (1, bp)
  else
    let retval := if e_end e =? start then 0 else 1 in
    insert_merge p (e_start e) (u64 (count + (start - e_start e))) retval bp.

(** Where the new extent goes: a node that it begins in or directly behind of,
    the one of the cursor first, or an empty place. *)
Definition insert_place (start : Z) (bp : rb_private) : outcome (Z + path) :=
  let* hit := match wcursor bp with
              | Some p =>
                  let* e := deref bp p in
                  Done (if (e_start e <=? start) && (start <=? e_end e) then Some p else None)
              | None => Done None
              end in
  match hit with
  | Some p => Done (inl p)
  | None => descend (cmp_touch start) bp (root bp) []
  end.

(** The extent in front of a new node is taken into it if they touch. *)
Definition merge_prev (p start count : Z) (bp : rb_private) : outcome (Z * Z * rb_private) :=
  let* prev := ext2fs_rb_prev p (root bp) in
  match prev with
  | None => Done (start, count, bp)
  | Some q =>
      let* e := deref bp q in
      if e_end e =? start then
        let* bp := rb_erase bp q in
        Done (e_start e, u64 (count + e_count e), rb_free_extent bp q)
      else Done (start, count, bp)
  end.

Definition rb_insert_extent (start count : Z) (bp : rb_private) (al : allocator)
  : outcome (Z * rb_private * allocator) :=
  if count =? 0 then Done (0, bp, al)
  else
    let bp := set_rcursor_next bp None in
    let* place := insert_place start bp in
    match place with
    | inl p =>
        let* e := deref bp p in
        let* (r, bp) := insert_found p e start count bp in
        Done (r, bp, al)
    | inr k =>
        let* (p, bp, al) := rb_get_new_extent bp al start count in
        let* t := rb_insert p k in
        let bp := set_wcursor (set_root bp t) (Some p) in
        let* (start, count, bp) := merge_prev p start count bp in
        let* (r, bp) := insert_merge p start count 0 bp in
        Done (r, bp, al)
    end.

(** * Removal *)

(** The loop over the extents to the right of the place. *)
Fixpoint remove_right (fuel : nat) (node : option Z) (start count retval : Z) (bp : rb_private)
  : outcome (Z * rb_private) :=
  match fuel with
  | O => Crash OutOfFuel
  | S fuel =>
      match node with
      | None => Done (retval, bp)
      | Some p =>
          let* next := ext2fs_rb_next p (root bp) in
          let* e := deref bp p in
          if e_end e <=? start then remove_right fuel next start count retval bp
          else if u64 (start + count) <? e_start e then Done (retval, bp)
          else if e_end e <=? u64 (start + count) then
            let* bp := rb_erase bp p in
            remove_right fuel next start count 1 (rb_free_extent bp p)
          else
            Done (1, set_ext bp p (mk_ext (u64 (start + count))
                                     (u64 (e_count e - (u64 (start + count) - e_start e)))))
      end
  end.

(** How the descent of [rb_remove_extent] ends: the function returns, or the loop
    over the extents begins at a node. *)
Inductive removal :=
| Returned (retval : Z) (bp : rb_private) (al : allocator)
| GoOn (parent : option Z) (retval : Z) (bp : rb_private).

Fixpoint remove_descend (t : tree) (parent : option Z) (start count retval : Z) (bp : rb_private) (al : allocator)
  : outcome removal :=
  match t with
  | Leaf => Done (GoOn parent retval bp)
  | Node c l p r =>
      let* e := deref bp p in
      if start <? e_start e then remove_descend l (Some p) start count retval bp al
      else if e_end e <=? start then remove_descend r (Some p) start count retval bp al
      else if (e_start e <? start) && (u64 (start + count) <? e_end e) then
        let new_start := u64 (start + count) in
        let new_count := u64 (e_end e - new_start) in
        let bp := set_ext bp p (mk_ext (e_start e) (start - e_start e)) in
        let* (_, bp, al) := rb_insert_extent new_start new_count bp al in
        Done (Returned 1 bp al)
      else
        let cut := e_end e <=? u64 (start + count) in
        let retval := if cut then 1 else retval in
        let bp := if cut then set_ext bp p (mk_ext (e_start e) (start - e_start e)) else bp in
        let* e := deref bp p in
        if e_count e =? 0 then
          let* next := ext2fs_rb_next p (root bp) in
          let* bp := rb_erase bp p in
          Done (GoOn next retval (rb_free_extent bp p))
        else if start =? e_start e then
          Done (Returned 1 (set_ext bp p (mk_ext (u64 (e_start e + count)) (u64 (e_count e - count)))) al)
        else
          (* the same node again: now its end is [start] *)
          remove_descend r (Some p) start count retval bp al
  end.

Definition rb_remove_extent (start count : Z) (bp : rb_private) (al : allocator)
  : outcome (Z * rb_private * allocator) :=
  match root bp with
  | Leaf => Done (0, bp, al)
  | t =>
      let* res := remove_descend t None start count 0 bp al in
      match res with
      | Returned r bp al => Done (r, bp, al)
      | GoOn parent r bp =>
          let* (r, bp) := remove_right (S (size (root bp))) parent start count r bp in
          Done (r, bp, al)
      end
  end.

(** * The operations of the back end *)

Definition rb_alloc_private_data (s : st rb_private) : Z * st rb_private :=
  let (b, al) := s in
  let (p, al) := malloc al in
  match p with
  | None => (EXT2_ET_NO_MEMORY, (b, al))
  | Some _ => (0, (set_private b (mk_rb Leaf ∅ None None None), al))
  end.

Definition rb_new_bmap (s : st rb_private) : outcome (Z * st rb_private) := Done (rb_alloc_private_data s).

(** [rb_free_tree]: all nodes from the first on. *)
Fixpoint free_nodes (fuel : nat) (node : option Z) (bp : rb_private) : outcome rb_private :=
  match fuel with
  | O => Crash OutOfFuel
  | S fuel =>
      match node with
      | None => Done bp
      | Some p =>
          let* next := ext2fs_rb_next p (root bp) in
          let* bp := rb_erase bp p in
          free_nodes fuel next (free_mem bp p)
      end
  end.

Definition rb_free_tree (bp : rb_private) : outcome rb_private :=
  free_nodes (S (size (root bp))) (ext2fs_rb_first (root bp)) bp.

Definition rb_free_bmap (b : bmap64 rb_private) : outcome (bmap64 rb_private) :=
  let* bp := get_private b in
  let* _ := rb_free_tree bp in
  Done (mk_bmap (magic b) (start b) (end_ b) (real_end b) (cluster_bits b) (description b)
          (base_error_code b) None).

(** The loop of [rb_copy_bmap]: each extent is linked to the right of the last
    node of the new tree. *)
Fixpoint copy_nodes (fuel : nat) (node : option Z) (src dst : rb_private) (al : allocator)
  : outcome (Z * rb_private * allocator) :=
  match fuel with
  | O => Crash OutOfFuel
  | S fuel =>
      match node with
      | None => Done (0, dst, al)
      | Some p =>
          let* e := deref src p in
          let (q, al) := malloc al in
          match q with
          | None => Done (EXT2_ET_NO_MEMORY, dst, al)
          | Some q =>
              let k := match go_right (root dst) [] with
                       | (Node c l p _, k) => InRight c l p :: k
                       | (Leaf, k) => k
                       end in
              let dst := set_ext dst q e in
              let* t := rb_insert q k in
              let* next := ext2fs_rb_next p (root src) in
              copy_nodes fuel next src (set_root dst t) al
          end
      end
  end.

Definition rb_copy_bmap (src : bmap64 rb_private) (dest : st rb_private)
  : outcome (Z * bmap64 rb_private * st rb_private) :=
  let (retval, s) := rb_alloc_private_data dest in
  if negb (retval =? 0) then Done (retval, src, s)
  else
    let (d, al) := s in
    let* src_bp := get_private src in
    let* dest_bp := get_private d in
    let src_bp := set_rcursor src_bp None in
    let* (retval, dest_bp, al) :=
      copy_nodes (S (size (root src_bp))) (ext2fs_rb_first (root src_bp)) src_bp dest_bp al in
    Done (retval, set_private src src_bp, (set_private d dest_bp, al)).

Fixpoint rb_truncate (fuel : nat) (new_max : Z) (node : option Z) (bp : rb_private) : outcome rb_private :=
  match fuel with
  | O => Crash OutOfFuel
  | S fuel =>
      match node with
      | None => Done bp
      | Some p =>
          let* e := deref bp p in
          if u64 (e_end e - 1) <=? new_max then Done bp
          else if new_max <? e_start e then
            let* bp := rb_erase bp p in
            let bp := free_mem bp p in
            rb_truncate fuel new_max (ext2fs_rb_last (root bp)) bp
          else
            rb_truncate fuel new_max node (set_ext bp p (mk_ext (e_start e) (u64 (new_max - e_start e + 1))))
      end
  end.

Definition rb_resize_bmap (s : st rb_private) (new_end new_real_end : Z) : outcome (Z * st rb_private) :=
  let (b, al) := s in
  let* bp := get_private b in
  let bp := set_wcursor (set_rcursor bp None) None in
  let* bp := rb_truncate (S (S (size (root bp)))) (u64 ((if new_end <? end_ b then new_end else end_ b) - start b))
               (ext2fs_rb_last (root bp)) bp in
  let b := set_ends b new_end new_real_end in
  if new_end <? new_real_end then
    let* (_, bp, al) := rb_insert_extent (u64 (end_ b + 1 - start b)) (real_end b - end_ b) bp al in
    Done (0, (set_private b bp, al))
  else Done (0, (set_private b bp, al)).

(** [search_tree:] of [rb_test_bit] *)
Definition search_tree (bp : rb_private) (bit : Z) : outcome (Z * rb_private) :=
  let* place := descend (cmp_in bit) bp (root bp) [] in
  match place with
  | inl p => Done (1, set_rcursor_next (set_rcursor bp (Some p)) None)
  | inr _ => Done (0, bp)
  end.

Definition rb_test_bit (bp : rb_private) (bit : Z) : outcome (Z * rb_private) :=
  match rcursor bp with
  | None => search_tree bp bit
  | Some c =>
      let* e := deref bp c in
      if (e_start e <=? bit) && (bit <? e_end e) then Done (1, bp)
      else
        let* next_ext := match rcursor_next bp with
                         | Some q => Done (Some q)
                         | None => ext2fs_rb_next c (root bp)
                         end in
        let bp := set_rcursor_next bp next_ext in
        let* hole := match next_ext with
                     | Some q =>
                         let* e' := deref bp q in
                         Done ((e_end e <=? bit) && (bit <? e_start e'))
                     | None => Done false
                     end in
        if hole : bool then Done (0, bp)
        else
          let bp := set_rcursor_next (set_rcursor bp None) None in
          match wcursor bp with
          | None => search_tree bp bit
          | Some w =>
              let* e := deref bp w in
              if (e_start e <=? bit) && (bit <? e_end e) then Done (1, bp) else search_tree bp bit
          end
  end.

Definition rb_mark_bmap (s : st rb_private) (arg : Z) : outcome (Z * st rb_private) :=
  let (b, al) := s in
  let* bp := get_private b in
  let* (r, bp, al) := rb_insert_extent (u64 (arg - start b)) 1 bp al in
  Done (r, (set_private b bp, al)).

Definition rb_unmark_bmap (s : st rb_private) (arg : Z) : outcome (Z * st rb_private) :=
  let (b, al) := s in
  let* bp := get_private b in
  let* (r, bp, al) := rb_remove_extent (u64 (arg - start b)) 1 bp al in
  Done (r, (set_private b bp, al)).

Definition rb_test_bmap (b : bmap64 rb_private) (arg : Z) : outcome (Z * bmap64 rb_private) :=
  let* bp := get_private b in
  let* (r, bp) := rb_test_bit bp (u64 (arg - start b)) in
  Done (r, set_private b bp).

Definition rb_mark_bmap_extent (s : st rb_private) (arg num : Z) : outcome (st rb_private) :=
  let (b, al) := s in
  let* bp := get_private b in
  let* (_, bp, al) := rb_insert_extent (u64 (arg - start b)) num bp al in
  Done (set_private b bp, al).

Definition rb_unmark_bmap_extent (s : st rb_private) (arg num : Z) : outcome (st rb_private) :=
  let (b, al) := s in
  let* bp := get_private b in
  let* (_, bp, al) := rb_remove_extent (u64 (arg - start b)) num bp al in
  Done (set_private b bp, al).

(** The first extent that does not end in front of the range decides. *)
Fixpoint clear_from (fuel : nat) (node : option Z) (start len : Z) (bp : rb_private) : outcome Z :=
  match fuel with
  | O => Crash OutOfFuel
  | S fuel =>
      match node with
      | None => Done 1
      | Some p =>
          let* next := ext2fs_rb_next p (root bp) in
          let* e := deref bp p in
          if e_end e <=? start then clear_from fuel next start len bp
          else if u64 (start + len) <=? e_start e then Done 1
          else Done 0
      end
  end.

Definition rb_test_clear_bmap_extent (b : bmap64 rb_private) (arg len : Z) : outcome Z :=
  let* bp := get_private b in
  let start := u64 (arg - start b) in
  match root bp with
  | Leaf => Done 1
  | t =>
      if len =? 0 then Done 1
      else
        let* place := descend (cmp_in start) bp t [] in
        match place with
        | inl _ => Done 0
        | inr k => clear_from (S (size t)) (parent_of k) start len bp
        end
  end.

(** The loop of [rb_set_bmap_range]; [first_set], an [int], is the start of a
    run of set bits, or -1; the loop ends with its last value.  The numbers that
    are inserted are computed in 64 bits. *)
Fixpoint set_range_loop (fuel : nat) (i num first_set off : Z) (inp : list Z)
    (bp : rb_private) (al : allocator) : outcome (Z * rb_private * allocator) :=
  match fuel with
  | O => Crash OutOfFuel
  | S fuel =>
      if i <? num then
        let* c := if Z.land i 7 =? 0 then load inp (i / 8) else Done (-1) in
        if c =? 0xFF then
          set_range_loop fuel (i + 8) num (if first_set =? -1 then s32 i else first_set) off inp bp al
        else if (c =? 0) && (first_set =? -1) then
          set_range_loop fuel (i + 8) num first_set off inp bp al
        else
          let* r := ext2fs_test_bit i inp in
          if negb (r =? 0) then
            set_range_loop fuel (i + 1) num (if first_set =? -1 then s32 i else first_set) off inp bp al
          else if first_set =? -1 then set_range_loop fuel (i + 1) num first_set off inp bp al
          else
            let* (_, bp, al) := rb_insert_extent (u64 (off + first_set)) (u64 (i - first_set)) bp al in
            set_range_loop fuel (i + 1) num (-1) off inp bp al
      else Done (first_set, bp, al)
  end.

Definition rb_set_bmap_range (s : st rb_private) (arg num : Z) (inp : list Z) : outcome (Z * st rb_private) :=
  let (b, al) := s in
  let* bp := get_private b in
  let* (first_set, bp, al) := set_range_loop (S (Z.to_nat num)) 0 num (-1) (arg - start b) inp bp al in
  if first_set =? -1 then Done (0, (set_private b bp, al))
  else
    let* (_, bp, al) := rb_insert_extent (u64 (arg - start b + first_set)) (u64 (num - first_set)) bp al in
    Done (0, (set_private b bp, al)).

(** [while (count > 0)]: whole bytes where possible, else single bits; [pos]
    counts from the start of the range.  [nbytes] and [offset] are of type [int],
    and so is [nbytes << 3]; [pos] and [count] have 64 bits. *)
Fixpoint fill_bits (fuel : nat) (pos count : Z) (out : list Z) : outcome (list Z) :=
  match fuel with
  | O => Crash OutOfFuel
  | S fuel =>
      if 0 <? count then
        if (8 <=? count) && (pos mod 8 =? 0) then
          let nbytes := s32 (Z.shiftr count 3) in
          let offset := s32 (Z.shiftr pos 3) in
          let* out := store_bytes out offset (replicate (Z.to_nat (u64 nbytes)) 0xFF) in
          fill_bits fuel (u64 (pos + s32 (Z.shiftl nbytes 3))) (u64 (count - s32 (Z.shiftl nbytes 3))) out
        else
          let* out := ext2fs_fast_set_bit64 pos out in
          fill_bits fuel (u64 (pos + 1)) (count - 1) out
      else Done out
  end.

Fixpoint get_range_loop (fuel : nat) (node : option Z) (start num : Z) (bp : rb_private) (out : list Z)
  : outcome (list Z) :=
  match fuel with
  | O => Crash OutOfFuel
  | S fuel =>
      match node with
      | None => Done out
      | Some p =>
          let* next := ext2fs_rb_next p (root bp) in
          let* e := deref bp p in
          let pos := e_start e in
          let count := e_count e in
          if u64 (start + num) <=? pos then Done out
          else if (pos <? start) && (u64 (pos + count) <? start) then get_range_loop fuel next start num bp out
          else
            let count := if pos <? start then count - (start - pos) else count in
            let pos := if pos <? start then start else pos in
            let count := if u64 (start + num) <? u64 (pos + count) then u64 (start + num) - pos else count in
            let* out := fill_bits (S (Z.to_nat count)) (pos - start) count out in
            get_range_loop fuel next start num bp out
      end
  end.

Definition rb_get_bmap_range (b : bmap64 rb_private) (arg num : Z) (out : list Z) : outcome (Z * list Z) :=
  let* bp := get_private b in
  let start := u64 (arg - start b) in
  match root bp with
  | Leaf => Done (0, out)
  | t =>
      let* place := descend (cmp_in start) bp t [] in
      let parent := match place with inl p => Some p | inr k => parent_of k end in
      let* out := store_bytes out 0 (replicate (Z.to_nat (Z.shiftr (num + 7) 3)) 0) in
      let* out := get_range_loop (S (size t)) parent start num bp out in
      Done (0, out)
  end.

Definition rb_clear_bmap (b : bmap64 rb_private) : outcome (bmap64 rb_private) :=
  let* bp := get_private b in
  let* bp := rb_free_tree bp in
  Done (set_private b (set_rcursor_next (set_rcursor (set_wcursor bp None) None) None)).

Definition rb_find_first_zero (b : bmap64 rb_private) (s e : Z) : outcome (Z * option Z) :=
  let* bp := get_private b in
  let st := u64 (s - start b) in
  let en := u64 (e - start b) in
  if en <? st then Done (EINVAL, None)
  else
    match root bp with
    | Leaf => Done (ENOENT, None)
    | t =>
        let* place := descend (cmp_in st) bp t [] in
        match place with
        | inl p =>
            let* x := deref bp p in
            if e_end x <=? en then Done (0, Some (u64 (e_end x + start b))) else Done (ENOENT, None)
        | inr _ => Done (0, Some (u64 (st + start b)))
        end
    end.

Definition rb_find_first_set (b : bmap64 rb_private) (s e : Z) : outcome (Z * option Z) :=
  let* bp := get_private b in
  let st := u64 (s - start b) in
  let en := u64 (e - start b) in
  if en <? st then Done (EINVAL, None)
  else
    match root bp with
    | Leaf => Done (ENOENT, None)
    | t =>
        let* place := descend (cmp_in st) bp t [] in
        match place with
        | inl _ => Done (0, Some (u64 (st + start b)))
        | inr k =>
            match parent_of k with
            | None => Crash BadPointer
            | Some p =>
                let* x := deref bp p in
                let* next := if e_start x <? st then ext2fs_rb_next p (root bp) else Done (Some p) in
                match next with
                | None => Done (ENOENT, None)
                | Some p =>
                    let* x := deref bp p in
                    if e_start x <=? en then Done (0, Some (u64 (e_start x + start b))) else Done (ENOENT, None)
                end
            end
        end
    end.

(** [ext2fs_blkmap64_rbtree] *)
#[export] Instance ext2fs_blkmap64_rbtree : BitmapOps rb_private := {
  new_bmap := rb_new_bmap;
  free_bmap := rb_free_bmap;
  copy_bmap := rb_copy_bmap;
  resize_bmap := rb_resize_bmap;
  mark_bmap := rb_mark_bmap;
  unmark_bmap := rb_unmark_bmap;
  test_bmap := rb_test_bmap;
  mark_bmap_extent := rb_mark_bmap_extent;
  unmark_bmap_extent := rb_unmark_bmap_extent;
  test_clear_bmap_extent := rb_test_clear_bmap_extent;
  set_bmap_range := rb_set_bmap_range;
  get_bmap_range := rb_get_bmap_range;
  clear_bmap := rb_clear_bmap;
  find_first_zero := Some rb_find_first_zero;
  find_first_set := Some rb_find_first_set }.
