(* ===== verification/RbBitmapSpec.v ===== *)
(** The extents of blkmap64_rb.c as an ordered list: what the functions on the
    tree do to the list, and the numbers it covers. *)

From S2P Require Import Prelude Bitops Bitmap64 RbTree RbBitmap.

Local Open Scope Z_scope.

(** * Lists of extents *)

(** Extents within [lo] and [hi], in order and not touching each other. *)
Fixpoint gaps (lo hi : Z) (l : list extent) : Prop :=
  match l with
  | [] => True
  | e :: l => lo <= e_start e /\ 0 < e_count e /\ e_start e + e_count e <= hi /\
              gaps (e_start e + e_count e + 1) hi l
  end.

(** The numbers in the extents. *)
Definition covers (l : list extent) (i : Z) : bool :=
  existsb (fun e => in_range i (e_start e) (e_count e)) l.

Lemma covers_app a b i : covers (a ++ b) i = covers a i || covers b i.
Proof. apply existsb_app. Qed.

Lemma covers_cons e l i : covers (e :: l) i = in_range i (e_start e) (e_count e) || covers l i.
Proof. done. Qed.

Lemma gaps_weaken lo lo' hi l : gaps lo hi l -> lo' <= lo -> gaps lo' hi l.
Proof. destruct l as [|e l]; [done|]. cbn. intros (? & ? & ? & ?) ?. split; [lia|done]. Qed.

(** Where the next extent may begin. *)
Definition bound (lo : Z) (l : list extent) : Z :=
  match last l with Some e => e_start e + e_count e + 1 | None => lo end.

Lemma bound_cons lo e l : bound lo (e :: l) = bound (e_start e + e_count e + 1) l.
Proof. unfold bound. rewrite last_cons. destruct (last l); done. Qed.

Lemma gaps_app lo hi a b : gaps lo hi (a ++ b) <-> gaps lo hi a /\ gaps (bound lo a) hi b.
Proof.
  revert lo. induction a as [|e a IH]; intros lo; cbn [app gaps]; [unfold bound; cbn; tauto|].
  rewrite IH, bound_cons. tauto.
Qed.

Lemma gaps_bound lo hi l : gaps lo hi l -> lo <= bound lo l /\ (bound lo l <= hi + 1 \/ l = []).
Proof.
  revert lo. induction l as [|e l IH]; intros lo; [unfold bound; cbn; intros; split; [lia|auto]|].
  cbn [gaps]. intros (? & ? & ? & Hg). rewrite bound_cons. destruct (IH _ Hg) as [? Hb].
  split; [lia|]. left. destruct Hb as [?| ->]; [done|]. unfold bound. cbn. lia.
Qed.

(** Every extent of an ordered list lies between its ends. *)
Lemma gaps_elem lo hi l e : gaps lo hi l -> e ∈ l ->
  lo <= e_start e /\ 0 < e_count e /\ e_start e + e_count e <= hi /\ e_start e + e_count e + 1 <= bound lo l.
Proof.
  revert lo. induction l as [|x l IH]; intros lo Hg He; [by apply elem_of_nil in He|].
  cbn [gaps] in Hg. destruct Hg as (? & ? & ? & Hg). rewrite bound_cons.
  apply elem_of_cons in He as [->|He].
  - pose proof (gaps_bound _ _ _ Hg). lia.
  - pose proof (IH _ Hg He). lia.
Qed.

Lemma covers_true l i : covers l i = true <-> exists e, e ∈ l /\ e_start e <= i < e_start e + e_count e.
Proof.
  unfold covers. rewrite existsb_exists. setoid_rewrite in_range_spec.
  split; intros (e & He & Hi); exists e; (split; [|done]); apply list_elem_of_In; done.
Qed.

Lemma covers_false l i : (forall e, e ∈ l -> ~ e_start e <= i < e_start e + e_count e) -> covers l i = false.
Proof.
  intros H. apply not_true_is_false. rewrite covers_true. intros (e & He & Hi). by apply (H e).
Qed.

(** Nothing is covered in front of an ordered list, nor behind its end. *)
Lemma covers_below lo hi l i : gaps lo hi l -> i < lo -> covers l i = false.
Proof. intros Hg Hi. apply covers_false. intros e He. pose proof (gaps_elem _ _ _ _ Hg He). lia. Qed.

Lemma covers_above lo hi l i : gaps lo hi l -> bound lo l - 1 <= i -> covers l i = false.
Proof. intros Hg Hi. apply covers_false. intros e He. pose proof (gaps_elem _ _ _ _ Hg He). lia. Qed.

Lemma covers_outside lo hi l i : gaps lo hi l -> hi <= i -> covers l i = false.
Proof. intros Hg Hi. apply covers_false. intros e He. pose proof (gaps_elem _ _ _ _ Hg He). lia. Qed.

Lemma e_end_ok e hi : 0 <= e_start e -> 0 <= e_count e -> e_start e + e_count e <= hi -> hi < 2 ^ 64 ->
  e_end e = e_start e + e_count e.
Proof. intros. unfold e_end. apply u64_small. range_lia. Qed.

(** * The list in the tree *)

Record tree_is (bp : rb_private) (L : list (Z * extent)) : Prop := {
  ti_rb : rb_tree (root bp);
  ti_order : inorder (root bp) = L.*1;
  ti_nodup : NoDup L.*1;
  ti_exts : forall p e, exts bp !! p = Some e <-> (p, e) ∈ L }.

(** The cursors refer to nodes of the tree, and the second one of the two for
    reading to the node behind the first. *)
Definition cursors_ok (bp : rb_private) (l : list Z) : Prop :=
  (forall p, wcursor bp = Some p -> p ∈ l) /\
  (forall p, rcursor bp = Some p -> p ∈ l) /\
  (forall p q, rcursor bp = Some p -> rcursor_next bp = Some q -> exists A B, l = A ++ p :: q :: B).

Lemma deref_ok bp L p e : tree_is bp L -> (p, e) ∈ L -> deref bp p = Done e.
Proof. intros T H. unfold deref. apply (ti_exts _ _ T) in H. rewrite H. done. Qed.

Lemma nodup_split bp A p e B : tree_is bp (A ++ (p, e) :: B) ->
  NoDup (inorder (root bp)) /\ inorder (root bp) = A.*1 ++ p :: (B.*1) /\ (p ∉ A.*1) /\ (p ∉ B.*1).
Proof.
  intros T. pose proof (ti_nodup _ _ T) as Hn. rewrite (ti_order _ _ T). rewrite fmap_app in *. cbn in *.
  split; [done|]. split; [done|]. apply NoDup_app in Hn as (_ & Hd & Hn). apply NoDup_cons in Hn as [Hn _].
  split; [|done]. intros Hp. apply (Hd p Hp). set_solver.
Qed.

Lemma next_ok bp A p e B : tree_is bp (A ++ (p, e) :: B) -> ext2fs_rb_next p (root bp) = Done (head (B.*1)).
Proof. intros T. destruct (nodup_split _ _ _ _ _ T) as (Hn & Ho & _). apply (rb_next_ok _ _ _ _ Hn Ho). Qed.

Lemma prev_ok bp A p e B : tree_is bp (A ++ (p, e) :: B) -> ext2fs_rb_prev p (root bp) = Done (last (A.*1)).
Proof. intros T. destruct (nodup_split _ _ _ _ _ T) as (Hn & Ho & _). apply (rb_prev_ok _ _ _ _ Hn Ho). Qed.

Lemma size_inorder t : size t = length (inorder t).
Proof. induction t as [|c l IHl p r IHr]; cbn; [done|]. rewrite length_app. cbn. lia. Qed.

Lemma size_ok bp L : tree_is bp L -> size (root bp) = length L.
Proof. intros T. rewrite size_inorder, (ti_order _ _ T), length_fmap. done. Qed.

(** A node is taken out of the tree and its memory given back. *)
Lemma erase_ok bp A p e B : tree_is bp (A ++ (p, e) :: B) ->
  exists bp', rb_erase bp p = Done bp' /\ exts bp' = exts bp /\ wcursor bp' = wcursor bp /\
    rcursor bp' = rcursor bp /\ rcursor_next bp' = rcursor_next bp /\
    tree_is (rb_free_extent bp' p) (A ++ B) /\ tree_is (free_mem bp' p) (A ++ B).
Proof.
  intros T. destruct (nodup_split _ _ _ _ _ T) as (Hn & Ho & HpA & HpB).
  destruct (rb_erase_ok _ _ _ _ (ti_rb _ _ T) Hn Ho) as (t & E & Ht & Hi).
  unfold rb_erase. rewrite E. cbn. eexists. split; [done|]. cbn. do 4 (split; [done|]).
  assert (Hnd : NoDup (A ++ B).*1).
  { pose proof (ti_nodup _ _ T) as Hd. rewrite fmap_app in *. cbn in Hd.
    apply NoDup_app in Hd as (? & Hd & Hb). apply NoDup_cons in Hb as [_ Hb].
    apply NoDup_app. split; [done|]. split; [set_solver|done]. }
  assert (Hex : forall q x, delete p (exts bp) !! q = Some x <-> (q, x) ∈ A ++ B).
  { intros q x. rewrite lookup_delete_Some, (ti_exts _ _ T), !elem_of_app, elem_of_cons.
    split; [intros (Hne & [|[[=]|]]); [auto|congruence|auto]|]. intros Hq. split; [|tauto].
    intros ->. destruct Hq as [Hq|Hq]; [apply HpA|apply HpB]; apply (list_elem_of_fmap_2 fst) in Hq; done. }
  split; constructor; cbn; try done; rewrite fmap_app; done.
Qed.

Lemma clear_cursor_ok c p q : clear_cursor c p = Some q <-> c = Some q /\ q <> p.
Proof.
  destruct c as [x|]; cbn; [|split; [done|intros [? _]; done]].
  destruct (Z.eqb_spec x p); split; intros; try done; [intuition congruence|split; congruence|tauto].
Qed.

Lemma erase_cursors bp bp' A p B :
  cursors_ok bp (A ++ p :: B) -> NoDup (A ++ p :: B) ->
  wcursor bp' = wcursor bp -> rcursor bp' = rcursor bp -> rcursor_next bp' = rcursor_next bp ->
  cursors_ok (rb_free_extent bp' p) (A ++ B).
Proof.
  intros (Hw & Hr & Hn) Hnd Ew Er En. unfold cursors_ok. cbn. rewrite Ew, Er, En.
  setoid_rewrite clear_cursor_ok. split; [|split].
  - intros q [Hq Hne]. specialize (Hw q Hq). set_solver.
  - intros q [Hq Hne]. specialize (Hr q Hq). set_solver.
  - intros q q' [Hq Hne] [Hq' Hne']. destruct (Hn q q' Hq Hq') as (C & D & E). clear Hw Hr Hn.
    revert A E Hnd. induction C as [|c C IH]; intros A E Hnd; destruct A as [|a A]; cbn in E.
    + injection E as E1 _. congruence.
    + destruct A as [|a' A]; cbn in E; [injection E as _ E1 _; congruence|].
      injection E as E1 E2 _. subst a a'. exists [], (A ++ B). done.
    + injection E as _ E2. exists C, D. done.
    + injection E as _ E. cbn in Hnd. apply NoDup_cons in Hnd as [_ Hnd].
      destruct (IH A E Hnd) as (C' & D' & E'). exists (a :: C'), D'. cbn. rewrite E'. done.
Qed.

(** The extent of a node is changed. *)
Lemma set_ext_ok bp A p e e' B : tree_is bp (A ++ (p, e) :: B) -> tree_is (set_ext bp p e') (A ++ (p, e') :: B).
Proof.
  intros T. destruct (nodup_split _ _ _ _ _ T) as (Hn & Ho & HpA & HpB).
  constructor; cbn; [apply T|rewrite (ti_order _ _ T), !fmap_app; done| |].
  - pose proof (ti_nodup _ _ T) as Hd. rewrite fmap_app in *. done.
  - intros q x. destruct (decide (q = p)) as [->|Hne].
    + rewrite lookup_insert_eq, elem_of_app, elem_of_cons. split; [intros [= ->]; auto|].
      intros [Hq|[[= ->]|Hq]]; [|done|]; apply (list_elem_of_fmap_2 fst) in Hq; done.
    + rewrite lookup_insert_ne by done. rewrite (ti_exts _ _ T), !elem_of_app, !elem_of_cons.
      split; intros [?|[[=]|?]]; auto; congruence.
Qed.

(** * The descent *)

(** A comparison that says in which direction to look. *)
Definition directs (cmp : extent -> comparison) (L : list (Z * extent)) : Prop :=
  forall A x B, L = A ++ x :: B ->
    (cmp x.2 = Lt -> Forall (fun y => cmp y.2 = Lt) B) /\
    (cmp x.2 = Gt -> Forall (fun y => cmp y.2 = Gt) A).

Lemma descend_ok cmp bp L t k LB LT LA :
  tree_is bp L -> directs cmp L -> L = LB ++ LT ++ LA ->
  before k = LB.*1 -> inorder t = LT.*1 -> after k = LA.*1 ->
  Forall (fun y => cmp y.2 = Gt) LB -> Forall (fun y => cmp y.2 = Lt) LA ->
  exists r, descend cmp bp t k = Done r /\
  match r with
  | inl p => exists A e B, L = A ++ (p, e) :: B /\ cmp e = Eq
  | inr k' => plug Leaf k' = plug t k /\
      exists A B, L = A ++ B /\ before k' = A.*1 /\ after k' = B.*1 /\
        Forall (fun y => cmp y.2 = Gt) A /\ Forall (fun y => cmp y.2 = Lt) B
  end.
Proof.
  intros T Hdir. revert k LB LT LA. induction t as [|c l IHl p r IHr]; intros k LB LT LA HL Hb Ht Ha HB HA;
    cbn [descend].
  - destruct LT; [|done]. exists (inr k). split; [done|]. split; [done|]. exists LB, LA. done.
  - cbn [inorder] in Ht. symmetry in Ht. apply fmap_app_inv in Ht as (L1 & L2 & El & Er & ->).
    destruct L2 as [|[p' e] L2]; [done|]. cbn in Er. injection Er as <- Er.
    assert (HL' : L = (LB ++ L1) ++ (p, e) :: (L2 ++ LA)) by (rewrite HL; rewrite <- !app_assoc; done).
    rewrite (deref_ok bp L p e T) by (rewrite HL'; set_solver). cbn [obind].
    destruct (Hdir _ _ _ HL') as [Hlt Hgt]. cbn [snd] in Hlt, Hgt.
    destruct (cmp e) eqn:Ec.
    + exists (inl p). split; [done|]. exists (LB ++ L1), e, (L2 ++ LA). done.
    + destruct (IHl (InLeft c p r :: k) LB L1 ((p, e) :: L2 ++ LA)) as (res & E & Hres); try done.
      * rewrite HL, <- app_assoc. done.
      * cbn. rewrite fmap_app, Er, Ha. done.
      * constructor; [done|]. apply Hlt. done.
      * exists res. done.
    + destruct (IHr (InRight c l p :: k) (LB ++ L1 ++ [(p, e)]) L2 LA) as (res & E & Hres); try done.
      * rewrite HL. rewrite <- !app_assoc. done.
      * cbn. rewrite !fmap_app, Hb, El. done.
      * rewrite app_assoc. apply Forall_app. split; [by apply Hgt|]. constructor; done.
      * exists res. done.
Qed.

Lemma directs_in s N L : gaps 0 N L.*2 -> N < 2 ^ 64 -> directs (cmp_in s) L.
Proof.
  intros Hg HN A [q e] B ->. rewrite fmap_app, fmap_cons in Hg. cbn [snd] in *.
  apply gaps_app in Hg as [HA HB]. pose proof (gaps_bound _ _ _ HA) as [Hb0 _].
  cbn [gaps] in HB. destruct HB as (? & ? & ? & HB).
  assert (Hin : forall x, cmp_in s x = Lt <-> s < e_start x)
    by (intros x; unfold cmp_in; destruct (Z.ltb_spec s (e_start x)), (e_end x <=? s); split; done || lia).
  split; intros Hc; apply Forall_forall; intros [q' x] Hx; cbn [snd]; apply (list_elem_of_fmap_2 snd) in Hx.
  - apply Hin in Hc. apply Hin. pose proof (gaps_elem _ _ _ _ HB Hx). cbn in *. lia.
  - pose proof (gaps_elem _ _ _ _ HA Hx). cbn in *. unfold cmp_in in *.
    rewrite (e_end_ok e N) in Hc by lia. rewrite (e_end_ok x N) by lia.
    destruct (Z.ltb_spec s (e_start e)); [done|]. destruct (Z.leb_spec (e_start e + e_count e) s); [|done].
    destruct (Z.ltb_spec s (e_start x)); [lia|]. destruct (Z.leb_spec (e_start x + e_count x) s); [done|lia].
Qed.

Lemma directs_touch s N L : gaps 0 N L.*2 -> N < 2 ^ 64 -> directs (cmp_touch s) L.
Proof.
  intros Hg HN A [q e] B ->. rewrite fmap_app, fmap_cons in Hg. cbn [snd] in *.
  apply gaps_app in Hg as [HA HB]. pose proof (gaps_bound _ _ _ HA) as [Hb0 _].
  cbn [gaps] in HB. destruct HB as (? & ? & ? & HB).
  assert (Hin : forall x, cmp_touch s x = Lt <-> s < e_start x)
    by (intros x; unfold cmp_touch; destruct (Z.ltb_spec s (e_start x)), (e_end x <? s); split; done || lia).
  split; intros Hc; apply Forall_forall; intros [q' x] Hx; cbn [snd]; apply (list_elem_of_fmap_2 snd) in Hx.
  - apply Hin in Hc. apply Hin. pose proof (gaps_elem _ _ _ _ HB Hx). cbn in *. lia.
  - pose proof (gaps_elem _ _ _ _ HA Hx). cbn in *. unfold cmp_touch in *.
    rewrite (e_end_ok e N) in Hc by lia. rewrite (e_end_ok x N) by lia.
    destruct (Z.ltb_spec s (e_start e)); [done|]. destruct (Z.ltb_spec (e_start e + e_count e) s); [|done].
    destruct (Z.ltb_spec s (e_start x)); [lia|]. destruct (Z.ltb_spec (e_start x + e_count x) s); [done|lia].
Qed.

(** The descent from the root. *)
Lemma descend_root cmp bp L : tree_is bp L -> directs cmp L ->
  exists r, descend cmp bp (root bp) [] = Done r /\
  match r with
  | inl p => exists A e B, L = A ++ (p, e) :: B /\ cmp e = Eq
  | inr k => plug Leaf k = root bp /\
      exists A B, L = A ++ B /\ before k = A.*1 /\ after k = B.*1 /\
        Forall (fun y => cmp y.2 = Gt) A /\ Forall (fun y => cmp y.2 = Lt) B
  end.
Proof.
  intros T Hd. apply (descend_ok cmp bp L (root bp) [] [] L []); try done.
  - rewrite app_nil_r. done.
  - apply (ti_order _ _ T).
Qed.

(** The parent of the empty place is a neighbour. *)
Lemma parent_ok k p : parent_of k = Some p -> last (before k) = Some p \/ head (after k) = Some p.
Proof.
  destruct k as [|[c q r|c l q] k]; cbn; intros [= <-]; [auto|]. left. rewrite app_assoc, last_snoc. done.
Qed.

Lemma parent_none k : parent_of k = None -> before k = [] /\ after k = [].
Proof. destruct k as [|[] k]; done. Qed.

(** * Insertion *)

Lemma cursors_same bp bp' l : wcursor bp' = wcursor bp -> rcursor bp' = rcursor bp ->
  rcursor_next bp' = rcursor_next bp -> cursors_ok bp l -> cursors_ok bp' l.
Proof. unfold cursors_ok. intros -> -> ->. done. Qed.

(** The first extent behind [p] is taken out. *)
Lemma erase_next bp A p e q x B :
  tree_is bp (A ++ (p, e) :: (q, x) :: B) -> cursors_ok bp (A ++ (p, e) :: (q, x) :: B).*1 ->
  exists bp', rb_erase bp q = Done bp' /\ tree_is (rb_free_extent bp' q) (A ++ (p, e) :: B) /\
    cursors_ok (rb_free_extent bp' q) (A ++ (p, e) :: B).*1.
Proof.
  intros T Hc. assert (EL : A ++ (p, e) :: (q, x) :: B = (A ++ [(p, e)]) ++ (q, x) :: B) by (rewrite <- app_assoc; done).
  rewrite EL in T, Hc. destruct (erase_ok _ _ _ _ _ T) as (bp' & E & _ & Ew & Er & En & T' & _).
  rewrite <- app_assoc in T'. exists bp'. split; [done|]. split; [done|].
  pose proof (ti_nodup _ _ T) as Hnd. rewrite fmap_app in Hc, Hnd. cbn in Hc, Hnd.
  pose proof (erase_cursors bp bp' _ q _ Hc Hnd Ew Er En) as Hc'. rewrite fmap_app in Hc'. cbn in Hc'.
  rewrite <- app_assoc in Hc'. rewrite fmap_app. exact Hc'.
Qed.

Lemma merge_right_ok N fuel A p e B s c bp :
  N < 2 ^ 64 -> tree_is bp (A ++ (p, e) :: B) -> cursors_ok bp (A ++ (p, e) :: B).*1 ->
  gaps (s + 1) N B.*2 -> 0 <= s -> 0 < c -> s + c <= N -> (length B < fuel)%nat ->
  exists c' B' bp', merge_right fuel (head B.*1) s c bp = Done (c', bp') /\
    tree_is bp' (A ++ (p, e) :: B') /\ cursors_ok bp' (A ++ (p, e) :: B').*1 /\
    gaps (s + c' + 1) N B'.*2 /\ c <= c' /\ s + c' <= N /\ B'.*1 ⊆ B.*1 /\
    forall i, in_range i s c' || covers B'.*2 i = in_range i s c || covers B.*2 i.
Proof.
  intros HN. revert c bp B. induction fuel as [|fuel IH]; intros c bp B T Hcur Hg Hs Hc HsN Hf; [lia|].
  destruct B as [|[q x] B]; cbn [merge_right fmap list_fmap head fst snd].
  { exists c, [], bp. do 4 (split; [done|]). do 2 (split; [lia|]). done. }
  cbn [fmap list_fmap snd gaps] in Hg. destruct Hg as (H1 & H2 & H3 & Hg).
  assert (EL : A ++ (p, e) :: (q, x) :: B = (A ++ [(p, e)]) ++ (q, x) :: B) by (rewrite <- app_assoc; done).
  pose proof T as T0. rewrite EL in T0. rewrite (next_ok _ _ _ _ _ T0). cbn [obind].
  rewrite (deref_ok _ _ q x T) by set_solver. cbn [obind].
  rewrite (e_end_ok x N), (u64_small (s + c)) by (lia || range_lia).
  destruct (Z.leb_spec (e_start x + e_count x) s); [lia|].
  destruct (Z.ltb_spec (s + c) (e_start x)).
  { exists c, ((q, x) :: B), bp. split; [done|]. split; [done|]. split; [done|].
    split; [cbn; split; [lia|done]|]. do 2 (split; [lia|]). done. }
  destruct (erase_next _ _ _ _ _ _ _ T Hcur) as (bp1 & E1 & T1 & Hc1).
  destruct (Z.leb_spec (e_start x + e_count x) (s + c)); rewrite E1; cbn [obind].
  - destruct (IH c (rb_free_extent bp1 q) B) as (c' & B' & bp' & E & T' & Hc' & Hg' & ? & ? & Hsub & Hcov);
      [done|done|eapply gaps_weaken; [exact Hg|lia]|lia|lia|lia|cbn in Hf; lia|].
    exists c', B', bp'. split; [done|]. do 2 (split; [done|]). split; [done|]. do 2 (split; [lia|]).
    split; [cbn; set_solver|]. intros i. rewrite Hcov. cbn [fmap list_fmap snd]. rewrite covers_cons.
    destruct (in_range i s c) eqn:Ei, (in_range i (e_start x) (e_count x)) eqn:Ex; try done.
    apply in_range_spec in Ex. apply in_range_false in Ei. lia.
  - rewrite u64_small by range_lia. exists (c + (e_start x + e_count x - (s + c))), B, (rb_free_extent bp1 q).
    split; [done|]. do 2 (split; [done|]).
    replace (s + (c + (e_start x + e_count x - (s + c))) + 1) with (e_start x + e_count x + 1) by lia.
    split; [done|]. do 2 (split; [lia|]). split; [cbn; set_solver|].
    intros i. cbn [fmap list_fmap snd]. rewrite covers_cons, orb_assoc. f_equal. unfold in_range.
    destruct (Z.leb_spec s i), (Z.ltb_spec i (s + (c + (e_start x + e_count x - (s + c))))),
      (Z.ltb_spec i (s + c)), (Z.leb_spec (e_start x) i), (Z.ltb_spec i (e_start x + e_count x)); cbn; done || lia.
Qed.

(** The invariant of the tree for numbers below [N]. *)
Record rb_inv (N : Z) (bp : rb_private) (al : allocator) (L : list (Z * extent)) : Prop := {
  ri_tree : tree_is bp L;
  ri_cur : cursors_ok bp L.*1;
  ri_gaps : gaps 0 N L.*2;
  ri_addr : forall p, p ∈ L.*1 -> p < next_addr al }.

(** What an operation leaves: a tree that covers [f] of what was covered. *)
Definition rb_after (N : Z) (bp' : rb_private) (al' : allocator) (f : Z -> bool) : Prop :=
  exists L', rb_inv N bp' al' L' /\ forall i, covers L'.*2 i = f i.

(** The merge at node [p], which takes the place of its old extent. *)
Lemma insert_merge_ok N A p e B s c r bp al :
  N < 2 ^ 64 -> tree_is bp (A ++ (p, e) :: B) -> cursors_ok bp (A ++ (p, e) :: B).*1 ->
  gaps 0 N A.*2 -> bound 0 A.*2 <= s -> gaps (s + 1) N B.*2 -> 0 < c -> s + c <= N ->
  (forall q, q ∈ (A ++ (p, e) :: B).*1 -> q < next_addr al) ->
  exists bp', insert_merge p s c r bp = Done (r, bp') /\
    rb_after N bp' al (fun i => in_range i s c || covers (A.*2 ++ B.*2) i).
Proof.
  intros HN T Hc HA Hb HB Hc0 HsN Haddr. unfold insert_merge. rewrite (next_ok _ _ _ _ _ T). cbn [obind].
  pose proof (gaps_bound _ _ _ HA) as [Hb0 _].
  destruct (merge_right_ok N (S (RbTree.size (root bp))) A p e B s c bp HN T Hc HB)
    as (c' & B' & bp' & E & T' & Hc' & Hg' & ? & ? & Hsub & Hcov); [lia|lia|lia| |].
  { rewrite (size_ok _ _ T), length_app. cbn. lia. }
  rewrite E. cbn [obind]. eexists. split; [done|]. exists (A ++ (p, mk_ext s c') :: B'). split.
  - constructor.
    + apply (set_ext_ok _ _ _ e). done.
    + eapply cursors_same; [..|rewrite fmap_app in Hc' |- *; exact Hc']; done.
    + rewrite fmap_app. cbn. apply gaps_app. split; [done|]. cbn. split; [lia|]. split; [lia|]. split; [lia|done].
    + intros q Hq. apply Haddr. rewrite fmap_app in Hq |- *. cbn in Hq |- *. set_solver.
  - intros i. rewrite fmap_app, !covers_app. cbn [fmap list_fmap snd]. rewrite covers_cons. cbn [e_start e_count].
    rewrite Hcov. destruct (covers A.*2 i), (in_range i s c); done.
Qed.

(** A new node at an empty place. *)
Lemma link_ok bp A B k p e :
  tree_is bp (A ++ B) -> plug Leaf k = root bp -> before k = A.*1 -> after k = B.*1 -> p ∉ (A ++ B).*1 ->
  exists t, rb_insert p k = Done t /\ tree_is (set_root (set_ext bp p e) t) (A ++ (p, e) :: B).
Proof.
  intros T Hk Hb Ha Hp. pose proof (ti_rb _ _ T) as Hrb. rewrite <- Hk in Hrb.
  destruct (rb_insert_ok p k Hrb) as (t & E & Ht & Hi). exists t. split; [done|].
  pose proof (ti_nodup _ _ T) as Hnd. rewrite fmap_app in Hnd, Hp.
  constructor; cbn; [done|rewrite fmap_app, Hi, Hb, Ha; done| |].
  - rewrite fmap_app. cbn. apply NoDup_app in Hnd as (? & Hd & ?). apply NoDup_app.
    split; [done|]. split; [set_solver|]. apply NoDup_cons. split; [set_solver|done].
  - intros q x. destruct (decide (q = p)) as [->|Hne].
    + rewrite lookup_insert_eq, elem_of_app, elem_of_cons. split; [intros [= ->]; auto|].
      intros [Hq|[[= ->]|Hq]]; [|done|]; apply (list_elem_of_fmap_2 fst) in Hq; cbn in Hq; set_solver.
    + rewrite lookup_insert_ne by done. rewrite (ti_exts _ _ T), !elem_of_app, elem_of_cons.
      split; [tauto|]. intros [?|[[=]|?]]; auto; congruence.
Qed.

Lemma tree_is_cursor bp bp' L : root bp' = root bp -> exts bp' = exts bp -> tree_is bp L -> tree_is bp' L.
Proof. intros Er Ee [T1 T2 T3 T4]. constructor; rewrite ?Er, ?Ee; done. Qed.

(** The new extent begins in an extent or directly behind it. *)
Lemma insert_found_ok N A p e B s c bp al :
  N < 2 ^ 64 -> rb_inv N bp al (A ++ (p, e) :: B) -> e_start e <= s <= e_start e + e_count e -> 0 < c -> s + c <= N ->
  exists r bp', insert_found p e s c bp = Done (r, bp') /\
    rb_after N bp' al (fun i => in_range i s c || covers (A ++ (p, e) :: B).*2 i) /\
    (r <> 0 <-> covers (A ++ (p, e) :: B).*2 s = true).
Proof.
  intros HN [T Hcur Hg Haddr] Hs Hc HsN. pose proof Hg as Hg0. rewrite fmap_app in Hg.
  apply gaps_app in Hg as [HA HB]. cbn [fmap list_fmap snd gaps] in HB. destruct HB as (H1 & H2 & H3 & HB).
  pose proof (gaps_bound _ _ _ HA) as [Hb0 _]. unfold insert_found.
  rewrite (e_end_ok e N), (u64_small (s + c)) by (lia || range_lia).
  assert (Hcs : covers (A ++ (p, e) :: B).*2 s = (s <? e_start e + e_count e)).
  { rewrite fmap_app, covers_app, (covers_above _ _ _ _ HA) by lia. cbn [fmap list_fmap snd orb].
    rewrite covers_cons, (covers_below _ _ _ _ HB) by lia. unfold in_range.
    destruct (Z.leb_spec (e_start e) s), (Z.ltb_spec s (e_start e + e_count e)); done || lia. }
  destruct (Z.leb_spec (s + c) (e_start e + e_count e)).
  - exists 1, bp. split; [done|]. split.
    + exists (A ++ (p, e) :: B). split; [by constructor|]. intros i. destruct (in_range i s c) eqn:E; [|done].
      apply in_range_spec in E. cbn. apply covers_true. exists e. split; [rewrite fmap_app; cbn; set_solver|lia].
    + rewrite Hcs. destruct (Z.ltb_spec s (e_start e + e_count e)); split; done || lia.
  - rewrite u64_small by range_lia.
    destruct (insert_merge_ok N A p e B (e_start e) (c + (s - e_start e))
      (if e_start e + e_count e =? s then 0 else 1) bp al HN T Hcur HA) as (bp' & E & L' & HL & Hcov);
      [lia|eapply gaps_weaken; [exact HB|lia]|lia|lia|done|].
    exists (if e_start e + e_count e =? s then 0 else 1), bp'. split; [done|]. split.
    + exists L'. split; [done|]. intros i. rewrite Hcov, fmap_app, !covers_app. cbn [fmap list_fmap snd].
      rewrite covers_cons. destruct (covers A.*2 i), (covers B.*2 i); rewrite ?orb_true_r; try done.
      rewrite !orb_false_r. unfold in_range.
      destruct (Z.leb_spec (e_start e) i), (Z.ltb_spec i (e_start e + (c + (s - e_start e)))),
        (Z.leb_spec s i), (Z.ltb_spec i (s + c)), (Z.ltb_spec i (e_start e + e_count e)); cbn; done || lia.
    + rewrite Hcs. destruct (Z.eqb_spec (e_start e + e_count e) s), (Z.ltb_spec s (e_start e + e_count e));
        split; done || lia.
Qed.

(** The new extent touches none to its left. *)
Lemma insert_new_ok N A B k s c bp al :
  N < 2 ^ 64 -> rb_inv N bp al (A ++ B) -> no_oom al -> rcursor_next bp = None ->
  plug Leaf k = root bp -> before k = A.*1 -> after k = B.*1 ->
  Forall (fun y => cmp_touch s y.2 = Gt) A -> Forall (fun y => cmp_touch s y.2 = Lt) B ->
  0 <= s -> 0 < c -> s + c <= N ->
  exists p t bp', rb_get_new_extent bp al s c = Done (p, set_ext bp p (mk_ext s c), bump al) /\
    rb_insert p k = Done t /\
    let bp1 := set_wcursor (set_root (set_ext bp p (mk_ext s c)) t) (Some p) in
    tree_is bp1 (A ++ (p, mk_ext s c) :: B) /\
    (forall e, last A.*2 = Some e -> e_end e < s) /\
    insert_merge p s c 0 bp1 = Done (0, bp') /\
    rb_after N bp' (bump al) (fun i => in_range i s c || covers (A ++ B).*2 i) /\
    covers (A ++ B).*2 s = false.
Proof.
  intros HN [T Hcur Hg Haddr] Hal Hrn Hk Hb Ha HA HB Hs Hc HsN.
  unfold rb_get_new_extent. rewrite mem_malloc_ok by done. exists (next_addr al).
  assert (Hp : next_addr al ∉ (A ++ B).*1) by (intros Hp; specialize (Haddr _ Hp); lia).
  destruct (link_ok bp A B k (next_addr al) (mk_ext s c) T Hk Hb Ha Hp) as (t & Et & Tt). exists t.
  rewrite fmap_app in Hg. apply gaps_app in Hg as [HgA HgB].
  assert (HlA : forall e, last A.*2 = Some e -> e_start e + e_count e < s).
  { intros e He. assert (Hin : e ∈ A.*2) by (apply last_Some_elem_of; done).
    pose proof (gaps_elem _ _ _ _ HgA Hin). apply list_elem_of_fmap_1 in Hin as ([q x] & -> & Hin). cbn in *.
    rewrite Forall_forall in HA. specialize (HA _ Hin). cbn in HA. unfold cmp_touch in HA.
    rewrite (e_end_ok x N) in HA by lia. destruct (Z.ltb_spec s (e_start x)); [done|].
    destruct (Z.ltb_spec (e_start x + e_count x) s); [done|done]. }
  assert (HbA : bound 0 A.*2 <= s).
  { unfold bound. destruct (last A.*2) as [e|] eqn:E; [|lia]. specialize (HlA e eq_refl). lia. }
  assert (HgB' : gaps (s + 1) N B.*2).
  { destruct B as [|[q x] B]; [done|]. cbn in HgB |- *. apply Forall_cons in HB as [HB _]. cbn in HB.
    unfold cmp_touch in HB. destruct (Z.ltb_spec s (e_start x)); [|destruct (e_end x <? s); done].
    split; [lia|]. apply HgB. }
  set (bp1 := set_wcursor (set_root (set_ext bp (next_addr al) (mk_ext s c)) t) (Some (next_addr al))).
  assert (T1 : tree_is bp1 (A ++ (next_addr al, mk_ext s c) :: B)) by (eapply tree_is_cursor; [..|exact Tt]; done).
  assert (Hc1 : cursors_ok bp1 (A ++ (next_addr al, mk_ext s c) :: B).*1).
  { destruct Hcur as (Hw & Hr & _). rewrite fmap_app in Hr |- *. unfold cursors_ok. cbn. split; [|split].
    - intros q [= <-]. set_solver.
    - intros q Hq. specialize (Hr q Hq). set_solver.
    - intros q q' _ Hq'. congruence. }
  destruct (insert_merge_ok N A (next_addr al) (mk_ext s c) B s c 0 bp1 (bump al) HN T1 Hc1 HgA HbA HgB' Hc HsN)
    as (bp' & E & L' & HL & Hcov).
  { intros q Hq. rewrite fmap_app in Hq, Haddr. cbn in Hq. cbn.
    apply elem_of_app in Hq as [Hq|Hq]; [specialize (Haddr q); set_solver by lia|].
    apply elem_of_cons in Hq as [->|Hq]; [lia|]. specialize (Haddr q). set_solver by lia. }
  exists bp'. split; [done|]. split; [done|]. cbv zeta. split; [done|]. split.
  { intros e He. assert (Hin : e ∈ A.*2) by (apply last_Some_elem_of; done).
    pose proof (gaps_elem _ _ _ _ HgA Hin). rewrite (e_end_ok e N) by lia. apply HlA. done. }
  split; [done|]. split.
  - exists L'. split; [done|]. intros i. rewrite Hcov, fmap_app. done.
  - rewrite fmap_app, covers_app, (covers_below _ _ _ _ HgB'), (covers_above _ _ _ _ HgA) by lia. done.
Qed.

Lemma insert_place_ok N bp al L s :
  N < 2 ^ 64 -> rb_inv N bp al L ->
  exists place, insert_place s bp = Done place /\
  match place with
  | inl p => exists A e B, L = A ++ (p, e) :: B /\ e_start e <= s <= e_start e + e_count e
  | inr k => plug Leaf k = root bp /\ exists A B, L = A ++ B /\ before k = A.*1 /\ after k = B.*1 /\
      Forall (fun y => cmp_touch s y.2 = Gt) A /\ Forall (fun y => cmp_touch s y.2 = Lt) B
  end.
Proof.
  intros HN I. unfold insert_place.
  destruct (descend_root (cmp_touch s) bp L (ri_tree _ _ _ _ I) (directs_touch s N L (ri_gaps _ _ _ _ I) HN))
    as (r & Er & Hr).
  assert (Hdesc : match r with
    | inl p => exists A e B, L = A ++ (p, e) :: B /\ e_start e <= s <= e_start e + e_count e
    | inr k => plug Leaf k = root bp /\ exists A B, L = A ++ B /\ before k = A.*1 /\ after k = B.*1 /\
      Forall (fun y => cmp_touch s y.2 = Gt) A /\ Forall (fun y => cmp_touch s y.2 = Lt) B end).
  { destruct r as [p|k]; [|done]. destruct Hr as (A & e & B & HL & He). exists A, e, B. split; [done|].
    pose proof (gaps_elem 0 N L.*2 e (ri_gaps _ _ _ _ I)) as Hge. rewrite HL, fmap_app in Hge. cbn in Hge.
    specialize (Hge ltac:(set_solver)). unfold cmp_touch in He. rewrite (e_end_ok e N) in He by lia.
    destruct (Z.ltb_spec s (e_start e)); [done|]. destruct (Z.ltb_spec (e_start e + e_count e) s); [done|lia]. }
  destruct (wcursor bp) as [w|] eqn:Ew; cbn [obind]; [|exists r; done].
  destruct (ri_cur _ _ _ _ I) as (Hw & _ & _). specialize (Hw w Ew).
  apply list_elem_of_fmap_1 in Hw as ([w' e] & -> & Hin). cbn [fst].
  rewrite (deref_ok _ _ _ _ (ri_tree _ _ _ _ I) Hin). cbn [obind].
  assert (Hge := gaps_elem 0 N L.*2 e (ri_gaps _ _ _ _ I) (list_elem_of_fmap_2 snd _ _ Hin)).
  rewrite (e_end_ok e N) by lia.
  destruct (Z.leb_spec (e_start e) s), (Z.leb_spec s (e_start e + e_count e)); cbn [andb obind];
    try (exists r; done).
  exists (inl w'). split; [done|]. apply list_elem_of_split in Hin as (A & B & ->). exists A, e, B. done.
Qed.

(** An extent in front that ends earlier is left alone. *)
Lemma merge_prev_ok bp A p e B s c :
  tree_is bp (A ++ (p, e) :: B) -> (forall x, last A.*2 = Some x -> e_end x < s) ->
  merge_prev p s c bp = Done (s, c, bp).
Proof.
  intros T Hlast. unfold merge_prev. rewrite (prev_ok _ _ _ _ _ T). cbn [obind].
  rewrite fmap_last. destruct (last A) as [[q x]|] eqn:El; [|done]. cbn.
  rewrite (deref_ok _ _ q x T) by (apply elem_of_app; left; apply last_Some_elem_of; done). cbn [obind].
  assert (Hx : last (A.*2) = Some x) by (rewrite fmap_last, El; done).
  specialize (Hlast x Hx). destruct (Z.eqb_spec (e_end x) s); [lia|done].
Qed.

Lemma rb_insert_extent_ok N bp al L s c :
  N < 2 ^ 64 -> rb_inv N bp al L -> no_oom al -> 0 <= s -> 0 <= c -> s + c <= N ->
  exists r bp' al', rb_insert_extent s c bp al = Done (r, bp', al') /\ later al al' /\
    rb_after N bp' al' (fun i => in_range i s c || covers L.*2 i) /\
    (0 < c -> (r <> 0 <-> covers L.*2 s = true)).
Proof.
  intros HN I Hal Hs Hc HsN. unfold rb_insert_extent. destruct (Z.eqb_spec c 0) as [->|].
  { exists 0, bp, al. split; [done|]. split; [apply later_refl|]. split; [|lia].
    exists L. split; [done|]. intros i. destruct (in_range i s 0) eqn:E; [apply in_range_spec in E; lia|done]. }
  set (bp1 := set_rcursor_next bp None).
  assert (I1 : rb_inv N bp1 al L).
  { destruct I as [T (Hw & Hr & _) Hg Ha]. constructor; [|split; [|split]|..]; try done.
    eapply tree_is_cursor; [..|exact T]; done. }
  destruct (insert_place_ok N bp1 al L s HN I1) as (place & -> & Hpl). cbn [obind]. destruct place as [p|k].
  - destruct Hpl as (A & e & B & -> & He).
    rewrite (deref_ok _ _ p e (ri_tree _ _ _ _ I1)) by set_solver. cbn [obind].
    destruct (insert_found_ok N A p e B s c bp1 al HN I1 He ltac:(lia) HsN) as (r & bp' & E & Haf & Hr).
    rewrite E. cbn [obind]. exists r, bp', al. split; [done|]. split; [apply later_refl|]. done.
  - destruct Hpl as (Hk & A & B & -> & Hb & Ha & HA & HB).
    destruct (insert_new_ok N A B k s c bp1 al HN I1 Hal eq_refl Hk Hb Ha HA HB Hs ltac:(lia) HsN)
      as (p & t & bp' & E1 & E2 & T1 & Hlast & E3 & Haf & Hcs).
    rewrite E1. cbn [obind]. rewrite E2. cbn [obind]. rewrite (merge_prev_ok _ _ _ _ _ _ _ T1 Hlast). cbn [obind].
    rewrite E3. cbn [obind]. exists 0, bp', (bump al). split; [done|]. split; [apply later_bump|]. split; [done|].
    intros _. rewrite Hcs. split; done || lia.
Qed.

(** * Removal *)

Definition left_of (s : Z) (L : list (Z * extent)) : Prop := Forall (fun y => e_start y.2 + e_count y.2 <= s) L.
Definition right_of (s : Z) (L : list (Z * extent)) : Prop := Forall (fun y => s < e_start y.2) L.

Lemma rb_after_ext N bp al f g : rb_after N bp al f -> (forall i, f i = g i) -> rb_after N bp al g.
Proof. intros (L & I & Hc) E. exists L. split; [done|]. intros i. rewrite Hc, E. done. Qed.

Lemma inv_elem N bp al L p e : rb_inv N bp al L -> (p, e) ∈ L ->
  0 <= e_start e /\ 0 < e_count e /\ e_start e + e_count e <= N.
Proof.
  intros I Hin. pose proof (gaps_elem 0 N L.*2 e (ri_gaps _ _ _ _ I) (list_elem_of_fmap_2 snd _ _ Hin)). lia.
Qed.

(** A node taken out of a tree that satisfies the invariant. *)
Lemma inv_erase N bp al A p e B : rb_inv N bp al (A ++ (p, e) :: B) ->
  exists bp', rb_erase bp p = Done bp' /\ rb_inv N (rb_free_extent bp' p) al (A ++ B).
Proof.
  intros [T Hcur Hg Ha]. destruct (erase_ok _ _ _ _ _ T) as (bp' & E & _ & Ew & Er & En & T' & _).
  exists bp'. split; [done|]. constructor; [done|..].
  - pose proof (ti_nodup _ _ T) as Hnd. rewrite fmap_app in Hcur, Hnd |- *. cbn in Hcur, Hnd.
    apply (erase_cursors bp); done.
  - rewrite fmap_app in Hg |- *. cbn in Hg. apply gaps_app in Hg as [HA HB]. apply gaps_app. split; [done|].
    cbn in HB. destruct HB as (? & ? & ? & HB). eapply gaps_weaken; [exact HB|lia].
  - intros q Hq. apply Ha. rewrite fmap_app in Hq |- *. cbn. set_solver.
Qed.

(** An extent replaced by one inside of it. *)
Lemma inv_shrink N bp al A p e e' B : rb_inv N bp al (A ++ (p, e) :: B) ->
  e_start e <= e_start e' -> 0 < e_count e' -> e_start e' + e_count e' <= e_start e + e_count e ->
  rb_inv N (set_ext bp p e') al (A ++ (p, e') :: B).
Proof.
  intros [T Hcur Hg Ha] H1 H2 H3. constructor.
  - apply (set_ext_ok _ _ _ e). done.
  - eapply cursors_same; [..|rewrite fmap_app in Hcur |- *; exact Hcur]; done.
  - rewrite fmap_app in Hg |- *. apply gaps_app in Hg as [HA HB]. apply gaps_app. split; [done|].
    cbn in HB |- *. destruct HB as (? & ? & ? & HB). split; [lia|]. split; [lia|]. split; [lia|].
    eapply gaps_weaken; [exact HB|lia].
  - intros q Hq. apply Ha. rewrite fmap_app in Hq |- *. done.
Qed.

Lemma covers_left s c A i : left_of s A -> negb (in_range i s c) && covers A.*2 i = covers A.*2 i.
Proof.
  intros HA. destruct (in_range i s c) eqn:E; [|done]. cbn. symmetry. apply covers_false. intros e He.
  apply in_range_spec in E. apply list_elem_of_fmap_1 in He as ([q x] & -> & Hin).
  unfold left_of in HA. rewrite Forall_forall in HA. specialize (HA _ Hin). cbn in *. lia.
Qed.

Lemma remove_right_ok N fuel A B s c r bp al :
  N < 2 ^ 64 -> rb_inv N bp al (A ++ B) -> right_of s B -> 0 <= s -> 0 <= c -> s + c <= N -> (length B < fuel)%nat ->
  exists r' B' bp', remove_right fuel (head B.*1) s c r bp = Done (r', bp') /\ rb_inv N bp' al (A ++ B') /\
    (forall i, covers B'.*2 i = negb (in_range i s c) && covers B.*2 i) /\ (r <> 0 -> r' <> 0).
Proof.
  intros HN. revert r bp B. induction fuel as [|fuel IH]; intros r bp B I Hr Hs Hc HsN Hf; [lia|].
  destruct B as [|[q x] B]; cbn [remove_right fmap list_fmap head fst snd].
  { exists r, [], bp. split; [done|]. split; [done|]. split; [|done]. intros i. rewrite andb_false_r. done. }
  apply Forall_cons in Hr as [Hx Hr]. cbn [snd] in Hx.
  destruct (inv_elem _ _ _ _ q x I) as (? & ? & ?); [set_solver|].
  rewrite (next_ok _ _ _ _ _ (ri_tree _ _ _ _ I)). cbn [obind].
  rewrite (deref_ok _ _ q x (ri_tree _ _ _ _ I)) by set_solver. cbn [obind].
  rewrite (e_end_ok x N), (u64_small (s + c)) by (lia || range_lia).
  pose proof (ri_gaps _ _ _ _ I) as Hg. rewrite fmap_app in Hg. apply gaps_app in Hg as [_ Hg].
  cbn in Hg. destruct Hg as (_ & _ & _ & Hg).
  destruct (Z.leb_spec (e_start x + e_count x) s); [lia|].
  destruct (Z.ltb_spec (s + c) (e_start x)).
  { exists r, ((q, x) :: B), bp. split; [done|]. split; [done|]. split; [|done].
    intros i. destruct (in_range i s c) eqn:E; [|done]. apply in_range_spec in E. cbn [negb andb fmap list_fmap snd].
    rewrite covers_cons, (covers_below _ _ _ _ Hg) by lia.
    destruct (in_range i (e_start x) (e_count x)) eqn:E'; [apply in_range_spec in E'; lia|done]. }
  destruct (Z.leb_spec (e_start x + e_count x) (s + c)).
  - destruct (inv_erase _ _ _ _ _ _ _ I) as (bp1 & E1 & I1). rewrite E1. cbn [obind].
    destruct (IH 1 (rb_free_extent bp1 q) B I1 Hr Hs Hc HsN) as (r' & B' & bp' & E & I' & Hcov & Hr'); [cbn in Hf; lia|].
    exists r', B', bp'. split; [done|]. split; [done|]. split; [|intros; apply Hr'; done].
    intros i. rewrite Hcov. cbn [fmap list_fmap snd]. rewrite covers_cons.
    destruct (in_range i s c) eqn:E2, (in_range i (e_start x) (e_count x)) eqn:E3; try done.
    apply in_range_spec in E3. apply in_range_false in E2. lia.
  - rewrite u64_small by range_lia. eexists 1, ((q, _) :: B), _. split; [done|]. split.
    { apply (inv_shrink _ _ _ _ _ x); [done|cbn; lia..]. }
    split; [|done]. intros i. cbn [fmap list_fmap snd]. rewrite !covers_cons. cbn [e_start e_count].
    destruct (covers B.*2 i) eqn:EB.
    + rewrite !orb_true_r. destruct (in_range i s c) eqn:E2; [|done]. apply in_range_spec in E2.
      rewrite (covers_below _ _ _ _ Hg) in EB by lia. done.
    + rewrite !orb_false_r. unfold in_range.
      destruct (Z.leb_spec (s + c) i), (Z.ltb_spec i (s + c + (e_count x - (s + c - e_start x)))), (Z.leb_spec s i),
        (Z.ltb_spec i (s + c)), (Z.leb_spec (e_start x) i), (Z.ltb_spec i (e_start x + e_count x)); cbn; done || lia.
Qed.

(** The loop may begin one extent earlier, which it passes over. *)
Lemma remove_right_parent N fuel A B s c r p bp al :
  N < 2 ^ 64 -> rb_inv N bp al (A ++ B) -> left_of s A -> right_of s B -> 0 <= s -> 0 <= c -> s + c <= N ->
  last A.*1 = Some p \/ head B.*1 = Some p -> (S (length B) < fuel)%nat ->
  exists r' B' bp', remove_right fuel (Some p) s c r bp = Done (r', bp') /\ rb_inv N bp' al (A ++ B') /\
    (forall i, covers B'.*2 i = negb (in_range i s c) && covers B.*2 i) /\ (r <> 0 -> r' <> 0).
Proof.
  intros HN I HA HB Hs Hc HsN Hp Hf. destruct Hp as [Hp|Hp].
  - rewrite fmap_last in Hp. destruct (last A) as [[q e]|] eqn:El; [|done]. cbn in Hp. injection Hp as <-.
    apply last_Some in El as [A' ->]. destruct fuel as [|fuel]; [lia|]. cbn [remove_right].
    pose proof (ri_tree _ _ _ _ I) as T. rewrite <- app_assoc in T. rewrite (next_ok _ _ _ _ _ T). cbn [obind].
    rewrite (deref_ok _ _ q e T) by set_solver. cbn [obind].
    destruct (inv_elem _ _ _ _ q e I) as (? & ? & ?); [set_solver|].
    rewrite (e_end_ok e N) by lia. unfold left_of in HA. rewrite Forall_app, Forall_singleton in HA.
    destruct HA as [_ HA]. cbn in HA. destruct (Z.leb_spec (e_start e + e_count e) s); [|lia].
    apply (remove_right_ok N); done || lia.
  - rewrite <- Hp. apply (remove_right_ok N); done || lia.
Qed.

(** How the descent of a removal ends. *)
Definition removal_ok (N s c retval : Z) (al : allocator) (f : Z -> bool) (res : removal) : Prop :=
  match res with
  | Returned r bp al' =>
      later al al' /\ r <> 0 /\ rb_after N bp al' (fun i => negb (in_range i s c) && f i)
  | GoOn parent r bp =>
      exists A B, rb_inv N bp al (A ++ B) /\ left_of s A /\ right_of s B /\
        (forall i, negb (in_range i s c) && covers (A ++ B).*2 i = negb (in_range i s c) && f i) /\
        (retval <> 0 \/ f s = true -> r <> 0) /\
        match parent with
        | Some p => last A.*1 = Some p \/ head B.*1 = Some p
        | None => B = []
        end
  end.

Lemma removal_weaken N s c r r' al f g res :
  removal_ok N s c r al f res -> (forall i, negb (in_range i s c) && f i = negb (in_range i s c) && g i) ->
  (r' <> 0 \/ g s = true -> r <> 0 \/ f s = true) -> removal_ok N s c r' al g res.
Proof.
  destruct res as [r0 bp al'|p r0 bp]; cbn.
  - intros (Hl & Hr & Ha) E _. split; [done|]. split; [done|]. eapply rb_after_ext; [exact Ha|]. done.
  - intros (A & B & I & HA & HB & Hc & Hr & Hp) E Himp. exists A, B. do 3 (split; [done|]).
    split; [intros i; rewrite Hc; apply E|]. split; [auto|done].
Qed.

(** The extent that holds [s]: what is cut off its end, and what is left of it. *)
Section found.
Context (N s c : Z) (A : list (Z * extent)) (p : Z) (e : extent) (B : list (Z * extent))
        (bp : rb_private) (al : allocator) (HN : N < 2 ^ 64) (Hal : no_oom al)
        (I : rb_inv N bp al (A ++ (p, e) :: B))
        (Hs : e_start e <= s < e_start e + e_count e) (Hc : 0 <= c) (HsN : s + c <= N).

Let L := A ++ (p, e) :: B.

Lemma found_bounds : 0 <= e_start e /\ 0 < e_count e /\ e_start e + e_count e <= N.
Proof using I.
  apply (inv_elem _ _ _ _ p e I). apply elem_of_app. right. apply elem_of_cons. left. done.
Qed.

Lemma found_sides : left_of s A /\ right_of s B /\ gaps (e_start e + e_count e + 1) N B.*2.
Proof using I Hs.
  pose proof (ri_gaps _ _ _ _ I) as Hg. rewrite fmap_app in Hg. apply gaps_app in Hg as [HA HB].
  cbn in HB. destruct HB as (H1 & _ & _ & HB). split; [|split; [|done]]; apply Forall_forall; intros [q x] Hx; cbn;
    apply (list_elem_of_fmap_2 snd) in Hx; cbn in Hx.
  - pose proof (gaps_elem _ _ _ _ HA Hx). lia.
  - pose proof (gaps_elem _ _ _ _ HB Hx). lia.
Qed.

Lemma found_covers i : covers L.*2 i = covers A.*2 i || in_range i (e_start e) (e_count e) || covers B.*2 i.
Proof using. unfold L. rewrite fmap_app, covers_app. cbn [fmap list_fmap snd]. rewrite covers_cons. apply orb_assoc. Qed.

(** The numbers of the extent that are left. *)
Lemma left_over (keep : Z -> bool) i :
  (in_range i s c = false -> keep i = in_range i (e_start e) (e_count e)) ->
  (in_range i s c = true -> keep i = false) ->
  s + c <= e_start e + e_count e ->
  covers A.*2 i || keep i || covers B.*2 i = negb (in_range i s c) && covers L.*2 i.
Proof using I Hs Hc.
  intros Hk1 Hk2 Hle. rewrite found_covers. destruct found_sides as (HA & HB & Hg).
  destruct (in_range i s c) eqn:E; cbn [negb andb].
  - rewrite Hk2 by done. rewrite <- (covers_left s c A i HA), E. apply in_range_spec in E.
    rewrite (covers_below _ _ _ _ Hg) by lia. done.
  - rewrite Hk1 by done. done.
Qed.

Lemma split_ok : e_start e < s -> s + c < e_start e + e_count e ->
  exists r' bp' al', rb_insert_extent (s + c) (e_start e + e_count e - (s + c))
      (set_ext bp p (mk_ext (e_start e) (s - e_start e))) al = Done (r', bp', al') /\ later al al' /\
    rb_after N bp' al' (fun i => negb (in_range i s c) && covers L.*2 i).
Proof using I Hs Hc HN Hal HsN.
  intros H1 H2. destruct found_bounds as (? & ? & ?).
  assert (I1 : rb_inv N (set_ext bp p (mk_ext (e_start e) (s - e_start e))) al
                 (A ++ (p, mk_ext (e_start e) (s - e_start e)) :: B)).
  { apply (inv_shrink _ _ _ _ _ e); [done|cbn; lia..]. }
  destruct (rb_insert_extent_ok N _ al _ (s + c) (e_start e + e_count e - (s + c)) HN I1 Hal)
    as (r' & bp' & al' & E & Hl & Haf & _); [lia..|].
  exists r', bp', al'. split; [done|]. split; [done|]. eapply rb_after_ext; [exact Haf|]. intros i. cbv beta.
  rewrite <- (left_over (fun i => in_range i (s + c) (e_start e + e_count e - (s + c)) ||
                                  in_range i (e_start e) (s - e_start e))).
  - rewrite fmap_app, covers_app. cbn [fmap list_fmap snd]. rewrite covers_cons. cbn [e_start e_count].
    destruct (covers A.*2 i), (covers B.*2 i), (in_range i (s + c) _), (in_range i (e_start e) _); done.
  - intros E1. apply in_range_false in E1. apply eq_true_iff_eq. rewrite orb_true_iff, !in_range_spec. lia.
  - intros E1. apply in_range_spec in E1. apply not_true_is_false. rewrite orb_true_iff, !in_range_spec. lia.
  - lia.
Qed.

(** The front of the extent is cut off. *)
Lemma front_ok : s = e_start e -> s + c < e_start e + e_count e ->
  rb_after N (set_ext bp p (mk_ext (e_start e + c) (e_count e - c))) al
    (fun i => negb (in_range i s c) && covers L.*2 i).
Proof using I Hs Hc HN.
  intros H1 H2. exists (A ++ (p, mk_ext (e_start e + c) (e_count e - c)) :: B). split.
  { apply (inv_shrink _ _ _ _ _ e); [done|cbn; lia..]. }
  intros i. rewrite <- (left_over (fun i => in_range i (e_start e + c) (e_count e - c))).
  - rewrite fmap_app, covers_app. cbn [fmap list_fmap snd]. rewrite covers_cons. apply orb_assoc.
  - intros E1. apply in_range_false in E1. apply eq_true_iff_eq. rewrite !in_range_spec. lia.
  - intros E1. apply in_range_spec in E1. apply not_true_is_false. rewrite !in_range_spec. lia.
  - lia.
Qed.

(** What is left when everything from [s] on goes. *)
Lemma back_covers i (l : list extent) :
  e_start e + e_count e <= s + c -> (forall i, covers l i = in_range i (e_start e) (s - e_start e)) ->
  negb (in_range i s c) && covers (A.*2 ++ l ++ B.*2) i = negb (in_range i s c) && covers L.*2 i.
Proof using Hs.
  intros Hle Hl. rewrite found_covers, !covers_app, Hl. destruct (in_range i s c) eqn:E; [done|]. cbn [negb andb].
  rewrite orb_assoc. do 2 f_equal. apply in_range_false in E. apply eq_true_iff_eq. rewrite !in_range_spec. lia.
Qed.
End found.

Lemma remove_descend_ok N s c t parent retval bp al L LB LT LA :
  N < 2 ^ 64 -> no_oom al -> 0 <= s -> 0 <= c -> s + c <= N ->
  rb_inv N bp al L -> L = LB ++ LT ++ LA -> inorder t = LT.*1 -> left_of s LB -> right_of s LA ->
  (LT = [] -> match parent with Some p => last LB.*1 = Some p \/ head LA.*1 = Some p | None => LA = [] end) ->
  exists res, remove_descend t parent s c retval bp al = Done res /\ removal_ok N s c retval al (covers L.*2) res.
Proof.
  intros HN Hal Hs Hc HsN. revert parent retval bp L LB LT LA.
  induction t as [|tc l IHl p r IHr]; intros parent retval bp L LB LT LA I HL Ht HB HA Hpar; cbn [remove_descend].
  { destruct LT; [|done]. eexists. split; [done|]. exists LB, LA. subst L. do 3 (split; [done|]). split; [done|].
    split; [|by apply Hpar]. intros [?|Hcv]; [done|]. exfalso. apply covers_true in Hcv as (x & Hx & Hxs).
    apply list_elem_of_fmap_1 in Hx as ([q y] & -> & Hin). cbn in Hxs.
    unfold left_of, right_of in *. rewrite Forall_forall in HB, HA. apply elem_of_app in Hin as [Hin|Hin].
    - specialize (HB _ Hin). cbn in HB. lia.
    - specialize (HA _ Hin). cbn in HA. lia. }
  cbn [inorder] in Ht. symmetry in Ht. apply fmap_app_inv in Ht as (L1 & L2 & El & Er & ->).
  destruct L2 as [|[p' e] L2]; [done|]. cbn in Er. injection Er as <- Er.
  assert (HL' : L = (LB ++ L1) ++ (p, e) :: (L2 ++ LA)) by (rewrite HL; rewrite <- !app_assoc; done).
  rewrite (deref_ok bp L p e (ri_tree _ _ _ _ I)) by (rewrite HL'; set_solver). cbn [obind].
  pose proof I as I0. rewrite HL' in I0.
  destruct (inv_elem _ _ _ _ p e I0) as (He0 & He1 & He2); [set_solver|].
  rewrite (e_end_ok e N), (u64_small (s + c)) by (lia || range_lia).
  pose proof (ri_gaps _ _ _ _ I0) as Hg. rewrite fmap_app in Hg. apply gaps_app in Hg as [HgA HgB].
  cbn in HgB. destruct HgB as (Hb & _ & _ & HgB).
  destruct (Z.ltb_spec s (e_start e)).
  { apply (IHl (Some p) retval bp L LB L1 ((p, e) :: L2 ++ LA)); try done.
    - rewrite HL, <- app_assoc. done.
    - constructor; [done|]. apply Forall_forall. intros [q x] Hx. apply (list_elem_of_fmap_2 snd) in Hx.
      pose proof (gaps_elem _ _ _ _ HgB Hx). cbn in *. lia.
    - intros ->. auto. }
  destruct (Z.leb_spec (e_start e + e_count e) s).
  { apply (IHr (Some p) retval bp L (LB ++ L1 ++ [(p, e)]) L2 LA); try done.
    - rewrite HL, <- !app_assoc. done.
    - rewrite app_assoc. apply Forall_app. split; [|constructor; [cbn; lia|done]].
      apply Forall_forall. intros [q x] Hx. apply (list_elem_of_fmap_2 snd) in Hx.
      pose proof (gaps_elem _ _ _ _ HgA Hx). cbn in *. lia.
    - intros ->. left. rewrite !fmap_app, app_assoc. cbn. rewrite last_snoc. done. }
  assert (Hse : e_start e <= s < e_start e + e_count e) by lia.
  destruct (found_sides N s (LB ++ L1) p e (L2 ++ LA) bp al I0 Hse) as (HlA & HrB & _).
  destruct ((e_start e <? s) && (s + c <? e_start e + e_count e)) eqn:Esplit.
  { apply andb_true_iff in Esplit as [Es1 Es2]. apply Z.ltb_lt in Es1, Es2.
    destruct (split_ok N s c (LB ++ L1) p e (L2 ++ LA) bp al HN Hal I0 Hse Hc HsN Es1 Es2)
      as (r' & bp' & al' & E & Hl & Haf).
    rewrite u64_small by range_lia. rewrite E. cbn [obind]. eexists. split; [done|]. cbn. rewrite HL'. done. }
  apply andb_false_iff in Esplit. rewrite !Z.ltb_ge in Esplit.
  destruct (Z.leb_spec (e_start e + e_count e) (s + c)) as [Hcut|Hcut].
  2: { rewrite (deref_ok bp L p e (ri_tree _ _ _ _ I)) by (rewrite HL'; set_solver). cbn [obind].
       destruct (Z.eqb_spec (e_count e) 0); [lia|]. destruct (Z.eqb_spec s (e_start e)) as [Eq|]; [|lia].
       rewrite !u64_small by range_lia. eexists. split; [done|]. cbn. split; [apply later_refl|]. split; [done|].
       rewrite HL'. apply (front_ok N s c (LB ++ L1) p e (L2 ++ LA) bp al HN I0 Hse Hc Eq Hcut). }
  unfold deref at 1. cbn [set_ext exts]. rewrite lookup_insert_eq. cbn [obind e_count e_start].
  destruct (Z.eqb_spec (s - e_start e) 0) as [E0|E0].
  - pose proof (set_ext_ok _ _ _ _ (mk_ext (e_start e) (s - e_start e)) _ (ri_tree _ _ _ _ I0)) as T1.
    rewrite (next_ok _ _ _ _ _ T1). cbn [obind].
    destruct (erase_ok _ _ _ _ _ T1) as (bp1 & E1 & _ & Ew & Erc & En & T2 & _). rewrite E1. cbn [obind].
    eexists. split; [done|]. exists (LB ++ L1), (L2 ++ LA). split.
    { destruct (inv_erase _ _ _ _ _ _ _ I0) as (bp2 & _ & I2). constructor; [done| |apply I2|apply I2].
      pose proof (ri_cur _ _ _ _ I0) as Hcur. pose proof (ti_nodup _ _ T1) as Hnd.
      rewrite fmap_app in Hcur, Hnd |- *. cbn in Hcur, Hnd. apply (erase_cursors bp); done. }
    do 2 (split; [done|]). split.
    { intros i. rewrite HL'. rewrite <- (back_covers s c (LB ++ L1) p e (L2 ++ LA) Hse i [] Hcut), fmap_app; [done|].
      intros k. symmetry. apply in_range_false. lia. }
    split; [done|]. destruct (head (L2 ++ LA).*1) as [q|] eqn:Eh; [auto|]. destruct (L2 ++ LA); done.
  - destruct (Z.eqb_spec s (e_start e)); [lia|].
    set (e' := mk_ext (e_start e) (s - e_start e)).
    assert (I1 : rb_inv N (set_ext bp p e') al ((LB ++ L1) ++ (p, e') :: (L2 ++ LA))).
    { apply (inv_shrink _ _ _ _ _ e); [done|cbn; lia..]. }
    destruct (IHr (Some p) 1 (set_ext bp p e') _ (LB ++ L1 ++ [(p, e')]) L2 LA I1) as (res & E & Hres); try done.
    + rewrite <- !app_assoc. done.
    + rewrite app_assoc. apply Forall_app. split; [done|]. constructor; [cbn; lia|done].
    + intros ->. left. rewrite !fmap_app, app_assoc. cbn. rewrite last_snoc. done.
    + exists res. split; [done|]. eapply removal_weaken; [exact Hres|..|auto].
      intros i. rewrite HL'. rewrite <- (back_covers s c (LB ++ L1) p e (L2 ++ LA) Hse i [e'] Hcut);
        [rewrite fmap_app; done|]. intros k. cbn. apply orb_false_r.
Qed.

Lemma rb_remove_extent_ok N bp al L s c :
  N < 2 ^ 64 -> rb_inv N bp al L -> no_oom al -> 0 <= s -> 0 <= c -> s + c <= N ->
  exists r bp' al', rb_remove_extent s c bp al = Done (r, bp', al') /\ later al al' /\
    rb_after N bp' al' (fun i => negb (in_range i s c) && covers L.*2 i) /\ (covers L.*2 s = true -> r <> 0).
Proof.
  intros HN I Hal Hs Hc HsN. unfold rb_remove_extent.
  pose proof (ti_order _ _ (ri_tree _ _ _ _ I)) as Ho. destruct (root bp) as [|tc l p r] eqn:Et.
  { destruct L; [|done]. exists 0, bp, al. split; [done|]. split; [apply later_refl|]. split; [|done].
    exists []. split; [done|]. intros i. rewrite andb_false_r. done. }
  rewrite <- Et in Ho |- *. assert (HLne : L <> []) by (intros ->; rewrite Et in Ho; cbn in Ho; destruct (inorder l); done).
  destruct (remove_descend_ok N s c (root bp) None 0 bp al L [] L [] HN Hal Hs Hc HsN I) as (res & -> & Hres);
    try (done || by apply Forall_nil).
  { rewrite app_nil_r. done. }
  cbn [obind]. destruct res as [r0 bp' al'|parent r0 bp'].
  - destruct Hres as (Hl & Hr & Haf). exists r0, bp', al'. do 3 (split; [done|]). done.
  - destruct Hres as (A & B & I' & HA & HB & Hcov & Hr & Hp).
    pose proof (size_ok _ _ (ri_tree _ _ _ _ I')) as Hsz. rewrite length_app in Hsz.
    assert (Hloop : exists r' B' bp2, remove_right (S (RbTree.size (root bp'))) parent s c r0 bp' = Done (r', bp2) /\
      rb_inv N bp2 al (A ++ B') /\ (forall i, covers B'.*2 i = negb (in_range i s c) && covers B.*2 i) /\
      (r0 <> 0 -> r' <> 0)).
    { destruct parent as [q|].
      - destruct A as [|a A].
        + destruct Hp as [Hp|Hp]; [done|]. rewrite <- Hp. apply (remove_right_ok N); try done. cbn in Hsz. lia.
        + apply (remove_right_parent N _ (a :: A)); try done. cbn in Hsz |- *. lia.
      - subst B. exists r0, [], bp'. split; [done|]. split; [done|]. split; [intros i; rewrite andb_false_r; done|done]. }
    destruct Hloop as (r' & B' & bp2 & -> & I2 & Hcov2 & Hr2). cbn [obind]. exists r', bp2, al. split; [done|].
    split; [apply later_refl|]. split; [|auto]. exists (A ++ B'). split; [done|]. intros i.
    rewrite <- Hcov, !fmap_app, !covers_app, Hcov2, andb_orb_distrib_r, (covers_left s c A i HA). done.
Qed.
