(* ===== verification/RbBitmapLaws.v ===== *)
(** The red-black tree back end satisfies the laws of a back end. *)

From S2P Require Import Prelude Bitops Bitmap64 RbTree RbBitmap RbBitmapSpec.

Local Open Scope Z_scope.

(** * The set a bitmap stands for *)

(** The extents in the order of the tree. *)
Definition extents (bp : rb_private) : list extent :=
  (fun p => default (mk_ext 0 0) (exts bp !! p)) <$> inorder (root bp).

Definition rb_marked (b : bmap64 rb_private) (j : Z) : bool :=
  match private b with
  | Some bp => (start b <=? j) && covers (extents bp) (j - start b)
  | None => false
  end.

(** How many numbers the bitmap has room for. *)
Definition room (b : bmap64 rb_private) : Z := real_end b - start b + 1.

Definition rb_ok (s : st rb_private) : Prop :=
  header_ok (fst s) /\ no_oom (snd s) /\
  exists bp L, private (fst s) = Some bp /\ rb_inv (room (fst s)) bp (snd s) L.

Lemma extents_list (bp : rb_private) (l : list (Z * extent)) :
  (forall p e, (p, e) ∈ l -> exts bp !! p = Some e) ->
  (fun p => default (mk_ext 0 0) (exts bp !! p)) <$> l.*1 = l.*2.
Proof.
  intros H. induction l as [|[p e] l IH]; [done|]. cbn. rewrite (H p e) by set_solver. cbn. f_equal.
  apply IH. intros q x Hq. apply H. set_solver.
Qed.

Lemma extents_ok bp L : tree_is bp L -> extents bp = L.*2.
Proof.
  intros T. unfold extents. rewrite (ti_order _ _ T). apply extents_list. intros p e Hp.
  apply (ti_exts _ _ T). done.
Qed.

Lemma rb_marked_covers b bp L j : private b = Some bp -> tree_is bp L -> start b <= j ->
  rb_marked b j = covers L.*2 (j - start b).
Proof.
  intros Hp T Hj. unfold rb_marked. rewrite Hp, (extents_ok _ _ T).
  destruct (Z.leb_spec (start b) j); [done|lia].
Qed.

Lemma rb_marked_below b j : j < start b -> rb_marked b j = false.
Proof. intros. unfold rb_marked. destruct (private b); [|done]. destruct (Z.leb_spec (start b) j); [lia|done]. Qed.

Ltac rb_open H bp L :=
  let Hh := fresh "Hh" in let Hal := fresh "Hal" in let Hp := fresh "Hp" in let I := fresh "I" in
  pose proof H as (Hh & Hal & bp & L & Hp & I); cbn [fst snd] in Hh, Hal, Hp, I;
  pose proof Hh as (? & ? & ?).

(** The bitmap with new private data that covers [f]. *)
Lemma rb_update b al al' bp' f :
  rb_ok (b, al) -> later al al' -> rb_after (room b) bp' al' f ->
  rb_ok (set_private b bp', al') /\ same_header b (set_private b bp') /\
  forall j, rb_marked (set_private b bp') j = if start b <=? j then f (j - start b) else false.
Proof.
  intros (Hh & Hal & _) Hl (L' & I & Hc). cbn [fst snd] in *. split; [|split].
  - split; [done|]. split; [by apply (mem_no_oom_later al)|]. exists bp', L'. done.
  - repeat split.
  - intros j. destruct (Z.leb_spec (start b) j); [|apply rb_marked_below; done].
    rewrite (rb_marked_covers _ bp' L') by (done || apply I). apply Hc.
Qed.

Lemma rb_later b al al' : rb_ok (b, al) -> later al al' -> rb_ok (b, al').
Proof.
  intros H Hl. rb_open H bp L. split; [done|]. split; [by apply (mem_no_oom_later al)|]. exists bp, L. split; [done|].
  destruct I as [T Hc Hg Ha]. constructor; try done. cbn [snd]. intros p Hin. specialize (Ha p Hin). destruct Hl. lia.
Qed.

Lemma rb_marked_inside b al j : rb_ok (b, al) -> rb_marked b j = true -> start b <= j <= real_end b.
Proof.
  intros H Hm. rb_open H bp L. destruct (Z.le_gt_cases (start b) j); [|rewrite rb_marked_below in Hm by done; done].
  split; [done|]. rewrite (rb_marked_covers b bp L) in Hm by (done || apply I).
  destruct (Z.le_gt_cases j (real_end b)); [done|].
  rewrite (covers_outside _ _ _ _ (ri_gaps _ _ _ _ I)) in Hm by (unfold room; lia). done.
Qed.

(** ** Marks *)

Lemma in_range_shift j s i n : in_range (j - s) (i - s) n = in_range j i n.
Proof. apply eq_true_iff_eq. rewrite !in_range_spec. lia. Qed.

Lemma in_range_1 j i : in_range j i 1 = (j =? i).
Proof. apply eq_true_iff_eq. rewrite in_range_spec, Z.eqb_eq. lia. Qed.

(** Inserting and removing through the structure. *)
Lemma rb_insert_law b al bp L i n :
  rb_ok (b, al) -> private b = Some bp -> rb_inv (room b) bp al L ->
  start b <= i -> 0 <= n < 2 ^ 32 -> i + n - 1 <= real_end b ->
  exists r bp' al', rb_insert_extent (u64 (i - start b)) n bp al = Done (r, bp', al') /\
    rb_ok (set_private b bp', al') /\ same_header b (set_private b bp') /\ later al al' /\
    (0 < n -> (r <> 0 <-> rb_marked b i = true)) /\
    forall j, rb_marked (set_private b bp') j = in_range j i n || rb_marked b j.
Proof.
  intros H Hp I Hi Hn Hr. pose proof H as ((? & ? & ?) & Hal & _). cbn [fst snd] in *. rewrite u64_small by range_lia.
  destruct (rb_insert_extent_ok (room b) bp al L (i - start b) n) as (r & bp' & al' & E & Hl & Haf & Hret);
    [unfold room; lia|done|done|lia|lia|unfold room; lia|].
  destruct (rb_update b al al' bp' _ H Hl Haf) as (Hok & Hsh & Hm).
  exists r, bp', al'. do 4 (split; [done|]). split.
  - rewrite (rb_marked_covers b bp L) by (done || apply I). done.
  - intros j. rewrite Hm. destruct (Z.leb_spec (start b) j).
    + rewrite in_range_shift, (rb_marked_covers b bp L) by (done || apply I). done.
    + rewrite rb_marked_below by done. destruct (in_range j i n) eqn:Ei; [apply in_range_spec in Ei; lia|done].
Qed.

Lemma rb_remove_law b al bp L i n :
  rb_ok (b, al) -> private b = Some bp -> rb_inv (room b) bp al L ->
  start b <= i -> 0 <= n < 2 ^ 32 -> i + n - 1 <= real_end b ->
  exists r bp' al', rb_remove_extent (u64 (i - start b)) n bp al = Done (r, bp', al') /\
    rb_ok (set_private b bp', al') /\ same_header b (set_private b bp') /\ later al al' /\
    (rb_marked b i = true -> r <> 0) /\
    forall j, rb_marked (set_private b bp') j = negb (in_range j i n) && rb_marked b j.
Proof.
  intros H Hp I Hi Hn Hr. pose proof H as ((? & ? & ?) & Hal & _). cbn [fst snd] in *. rewrite u64_small by range_lia.
  destruct (rb_remove_extent_ok (room b) bp al L (i - start b) n) as (r & bp' & al' & E & Hl & Haf & Hret);
    [unfold room; lia|done|done|lia|lia|unfold room; lia|].
  destruct (rb_update b al al' bp' _ H Hl Haf) as (Hok & Hsh & Hm).
  exists r, bp', al'. do 4 (split; [done|]). split.
  - rewrite (rb_marked_covers b bp L) by (done || apply I). done.
  - intros j. rewrite Hm. destruct (Z.leb_spec (start b) j).
    + rewrite in_range_shift, (rb_marked_covers b bp L) by (done || apply I). done.
    + rewrite rb_marked_below by done. rewrite andb_false_r. done.
Qed.

Lemma rb_mark_law b al i : rb_ok (b, al) -> start b <= i <= real_end b ->
  exists r b' al', rb_mark_bmap (b, al) i = Done (r, (b', al')) /\ (r <> 0 <-> rb_marked b i = true) /\
    rb_ok (b', al') /\ same_header b b' /\ later al al' /\
    forall j, rb_marked b' j = (j =? i) || rb_marked b j.
Proof.
  intros H Hi. rb_open H bp L. unfold rb_mark_bmap, get_private. rewrite Hp. cbn [obind].
  destruct (rb_insert_law b al bp L i 1) as (r & bp' & al' & -> & Hok & Hsh & Hl & Hr & Hm); [done|done|done|lia..|].
  cbn [obind]. do 3 eexists. split; [done|]. split; [apply Hr; lia|]. do 3 (split; [done|]).
  intros j. rewrite Hm, in_range_1. done.
Qed.

Lemma rb_unmark_law b al i : rb_ok (b, al) -> start b <= i <= real_end b ->
  exists r b' al', rb_unmark_bmap (b, al) i = Done (r, (b', al')) /\ (rb_marked b i = true -> r <> 0) /\
    rb_ok (b', al') /\ same_header b b' /\ later al al' /\
    forall j, rb_marked b' j = negb (j =? i) && rb_marked b j.
Proof.
  intros H Hi. rb_open H bp L. unfold rb_unmark_bmap, get_private. rewrite Hp. cbn [obind].
  destruct (rb_remove_law b al bp L i 1) as (r & bp' & al' & -> & Hok & Hsh & Hl & Hr & Hm); [done|done|done|lia..|].
  cbn [obind]. do 3 eexists. split; [done|]. do 4 (split; [done|]).
  intros j. rewrite Hm, in_range_1. done.
Qed.

Lemma rb_mark_extent_law b al i n :
  rb_ok (b, al) -> start b <= i -> 0 <= n < 2 ^ 32 -> i + n - 1 <= real_end b ->
  exists b' al', rb_mark_bmap_extent (b, al) i n = Done (b', al') /\
    rb_ok (b', al') /\ same_header b b' /\ later al al' /\
    forall j, rb_marked b' j = in_range j i n || rb_marked b j.
Proof.
  intros H Hi Hn Hr. rb_open H bp L. unfold rb_mark_bmap_extent, get_private. rewrite Hp. cbn [obind].
  destruct (rb_insert_law b al bp L i n) as (r & bp' & al' & -> & Hok & Hsh & Hl & _ & Hm); [done..|].
  cbn [obind]. do 2 eexists. done.
Qed.

Lemma rb_unmark_extent_law b al i n :
  rb_ok (b, al) -> start b <= i -> 0 <= n < 2 ^ 32 -> i + n - 1 <= real_end b ->
  exists b' al', rb_unmark_bmap_extent (b, al) i n = Done (b', al') /\
    rb_ok (b', al') /\ same_header b b' /\ later al al' /\
    forall j, rb_marked b' j = negb (in_range j i n) && rb_marked b j.
Proof.
  intros H Hi Hn Hr. rb_open H bp L. unfold rb_unmark_bmap_extent, get_private. rewrite Hp. cbn [obind].
  destruct (rb_remove_law b al bp L i n) as (r & bp' & al' & -> & Hok & Hsh & Hl & _ & Hm); [done..|].
  cbn [obind]. do 2 eexists. done.
Qed.

(** ** Tests *)

(** What the descent says of a number. *)
Lemma descend_in N bp al L s : N < 2 ^ 64 -> rb_inv N bp al L -> 0 <= s ->
  exists r, descend (cmp_in s) bp (root bp) [] = Done r /\
  match r with
  | inl p => exists A e B, L = A ++ (p, e) :: B /\ e_start e <= s < e_start e + e_count e /\ covers L.*2 s = true
  | inr k => exists A B, L = A ++ B /\ before k = A.*1 /\ after k = B.*1 /\ left_of s A /\ right_of s B /\
      covers L.*2 s = false
  end.
Proof.
  intros HN I Hs.
  destruct (descend_root (cmp_in s) bp L (ri_tree _ _ _ _ I) (directs_in s N L (ri_gaps _ _ _ _ I) HN)) as (r & E & Hr).
  exists r. split; [done|]. destruct r as [p|k].
  - destruct Hr as (A & e & B & HL & He). exists A, e, B. split; [done|].
    assert (Hin : (p, e) ∈ L) by (rewrite HL; set_solver).
    destruct (inv_elem _ _ _ _ _ _ I Hin) as (? & ? & ?). unfold cmp_in in He. rewrite (e_end_ok e N) in He by lia.
    destruct (Z.ltb_spec s (e_start e)); [done|]. destruct (Z.leb_spec (e_start e + e_count e) s); [done|].
    split; [lia|]. apply covers_true. exists e. split; [|lia]. apply (list_elem_of_fmap_2 snd) in Hin. done.
  - destruct Hr as (_ & A & B & -> & Hb & Ha & HA & HB). exists A, B. do 3 (split; [done|]).
    assert (HlA : left_of s A).
    { apply Forall_forall. intros [q x] Hx. destruct (inv_elem _ _ _ _ q x I) as (? & ? & ?); [set_solver|].
      rewrite Forall_forall in HA. specialize (HA _ Hx). cbn in *. unfold cmp_in in HA.
      rewrite (e_end_ok x N) in HA by lia. destruct (Z.ltb_spec s (e_start x)); [done|].
      destruct (Z.leb_spec (e_start x + e_count x) s); [done|done]. }
    assert (HrB : right_of s B).
    { apply Forall_forall. intros [q x] Hx. rewrite Forall_forall in HB. specialize (HB _ Hx). cbn in *.
      unfold cmp_in in HB. destruct (Z.ltb_spec s (e_start x)); [done|]. destruct (e_end x <=? s); done. }
    do 2 (split; [done|]). apply covers_false. intros x Hx Hxs. apply list_elem_of_fmap_1 in Hx as ([q y] & -> & Hin).
    unfold left_of, right_of in *. rewrite Forall_forall in HlA, HrB. apply elem_of_app in Hin as [Hin|Hin].
    + specialize (HlA _ Hin). cbn in *. lia.
    + specialize (HrB _ Hin). cbn in *. lia.
Qed.

Lemma inv_cursors N bp bp' al L : rb_inv N bp al L -> root bp' = root bp -> exts bp' = exts bp ->
  cursors_ok bp' L.*1 -> rb_inv N bp' al L.
Proof. intros [T Hc Hg Ha] Er Ee Hc'. constructor; try done. apply (tree_is_cursor bp); done. Qed.

Lemma search_tree_ok N bp al L s : N < 2 ^ 64 -> rb_inv N bp al L -> 0 <= s ->
  exists r bp', search_tree bp s = Done (r, bp') /\ rb_inv N bp' al L /\ (r <> 0 <-> covers L.*2 s = true).
Proof.
  intros HN I Hs. unfold search_tree. destruct (descend_in N bp al L s HN I Hs) as (r & -> & Hr). cbn [obind].
  destruct r as [p|k].
  - destruct Hr as (A & e & B & HL & _ & Hc). do 2 eexists. split; [done|]. split; [|rewrite Hc; done].
    apply (inv_cursors N bp); [done..|]. pose proof (ri_cur _ _ _ _ I) as (Hw & _ & _).
    split; [exact Hw|]. split; [|done]. cbn. intros q [= <-]. rewrite HL, fmap_app. apply elem_of_app. right. apply list_elem_of_here.
  - destruct Hr as (A & B & _ & _ & _ & _ & _ & Hc). do 2 eexists. split; [done|]. split; [done|]. rewrite Hc. done.
Qed.

(** A number in an extent, as [rb_test_bit] compares. *)
Lemma in_ext N bp al L p e s : N < 2 ^ 64 -> rb_inv N bp al L -> (p, e) ∈ L ->
  (e_start e <=? s) && (s <? e_end e) = true -> covers L.*2 s = true.
Proof.
  intros HN I Hin Hs. destruct (inv_elem _ _ _ _ _ _ I Hin) as (? & ? & ?).
  rewrite (e_end_ok e N) in Hs by lia. apply covers_true. exists e.
  split; [apply (list_elem_of_fmap_2 snd _ _ Hin)|lia].
Qed.

(** A number between two extents that follow each other. *)
Lemma in_hole N bp al A p e q x B s : N < 2 ^ 64 -> rb_inv N bp al (A ++ (p, e) :: (q, x) :: B) ->
  (e_end e <=? s) && (s <? e_start x) = true -> covers (A ++ (p, e) :: (q, x) :: B).*2 s = false.
Proof.
  intros HN I Hs. destruct (inv_elem _ _ _ _ p e I) as (? & ? & ?); [set_solver|].
  rewrite (e_end_ok e N) in Hs by lia. pose proof (ri_gaps _ _ _ _ I) as Hg.
  rewrite fmap_app in *. cbn in *. apply gaps_app in Hg as [HgA HgB]. cbn [gaps] in HgB.
  destruct HgB as (? & ? & ? & ? & ? & ? & HgB). rewrite covers_app, !covers_cons.
  rewrite (covers_above _ _ _ s HgA) by lia. rewrite (covers_below _ _ _ s HgB) by lia.
  rewrite (proj2 (in_range_false s _ _)) by lia. rewrite (proj2 (in_range_false s _ _)) by lia. done.
Qed.

(** The extent in [rcursor_next], or the one the tree gives, follows. *)
Lemma cursor_next N bp al L p : rb_inv N bp al L -> rcursor bp = Some p ->
  exists A e B, L = A ++ (p, e) :: B /\
    match rcursor_next bp with Some q => Done (Some q) | None => ext2fs_rb_next p (root bp) end = Done (head B.*1).
Proof.
  intros I Hp. destruct (ri_cur _ _ _ _ I) as (_ & Hr & Hn).
  pose proof (Hr _ Hp) as Hin. apply list_elem_of_fmap_1 in Hin as ([p' e] & -> & Hin). cbn in *.
  apply list_elem_of_split in Hin as (A & B & ->). exists A, e, B. split; [done|].
  destruct (rcursor_next bp) as [q|] eqn:En; [|apply (next_ok _ _ _ _ _ (ri_tree _ _ _ _ I))].
  destruct (Hn _ _ Hp eq_refl) as (A' & B' & E). f_equal.
  pose proof (ti_nodup _ _ (ri_tree _ _ _ _ I)) as Hnd. rewrite fmap_app in E, Hnd. cbn in E, Hnd.
  assert (HB : B.*1 = q :: B').
  { rewrite NoDup_app in Hnd. destruct Hnd as (_ & Hd & Hnd). apply NoDup_cons in Hnd as [Hp1 Hnd].
    apply app_eq_inv in E as [(k & E1 & E2)|(k & E1 & E2)].
    - destruct k as [|y k]; cbn in E2; [congruence|]. injection E2 as <- E2.
      exfalso. apply (Hd p'); [rewrite E1|]; set_solver.
    - destruct k as [|y k]; cbn in E2; [congruence|]. injection E2 as <- E2.
      exfalso. apply Hp1. rewrite E2. set_solver. }
  rewrite HB. done.
Qed.

Lemma rb_test_bit_ok N bp al L s : N < 2 ^ 64 -> rb_inv N bp al L -> 0 <= s ->
  exists r bp', rb_test_bit bp s = Done (r, bp') /\ rb_inv N bp' al L /\ (r <> 0 <-> covers L.*2 s = true).
Proof.
  intros HN I Hs. unfold rb_test_bit. destruct (rcursor bp) as [c|] eqn:Ec; [|by apply (search_tree_ok N)].
  destruct (cursor_next _ _ _ _ _ I Ec) as (A & e & B & HL & ->).
  pose proof (ri_tree _ _ _ _ I) as T. pose proof (ri_cur _ _ _ _ I) as (Hw & _ & _).
  assert (Hin : (c, e) ∈ L) by (rewrite HL; set_solver).
  rewrite (deref_ok bp L c e) by done. cbn [obind].
  destruct ((e_start e <=? s) && (s <? e_end e)) eqn:Ein.
  { do 2 eexists. do 2 (split; [done|]). rewrite (in_ext N bp al L c e) by done. done. }
  set (bp1 := set_rcursor_next bp (head B.*1)).
  set (bp2 := set_rcursor_next (set_rcursor bp1 None) None).
  assert (I2 : rb_inv N bp2 al L) by (apply (inv_cursors N bp); [done..|]; split; [exact Hw|done]).
  assert (Hgo : exists r bp',
    match wcursor bp2 with
    | Some w => let* x := deref bp2 w in
        if (e_start x <=? s) && (s <? e_end x) then Done (1, bp2) else search_tree bp2 s
    | None => search_tree bp2 s
    end = Done (r, bp') /\ rb_inv N bp' al L /\ (r <> 0 <-> covers L.*2 s = true)).
  { destruct (wcursor bp2) as [w|] eqn:Ew; [|by apply (search_tree_ok N)].
    pose proof (Hw w Ew) as Hwin. apply list_elem_of_fmap_1 in Hwin as ([w' x] & -> & Hwin). cbn [fst].
    rewrite (deref_ok bp2 L w' x (ri_tree _ _ _ _ I2)) by done. cbn [obind].
    destruct ((e_start x <=? s) && (s <? e_end x)) eqn:Ex; [|by apply (search_tree_ok N)].
    do 2 eexists. do 2 (split; [done|]). rewrite (in_ext N bp al L w' x) by done. done. }
  destruct B as [|[q x] B]; [exact Hgo|]. cbn [fmap list_fmap head fst] in *.
  assert (T1 : tree_is bp1 L) by (apply (tree_is_cursor bp); done).
  rewrite (deref_ok bp1 L q x T1) by (rewrite HL; set_solver). cbn [obind].
  destruct ((e_end e <=? s) && (s <? e_start x)) eqn:Eh; [|exact Hgo].
  do 2 eexists. split; [done|]. split.
  - apply (inv_cursors N bp); [done..|]. destruct (ri_cur _ _ _ _ I) as (_ & Hr & _).
    split; [exact Hw|]. split; [exact Hr|]. cbn. rewrite Ec. intros ? ? [= <-] [= <-].
    exists A.*1, B.*1. rewrite HL, fmap_app. done.
  - rewrite HL, (in_hole N bp al) by (done || (rewrite <- HL; done)). done.
Qed.

Lemma rb_test_law b al i : rb_ok (b, al) -> start b <= i <= real_end b ->
  exists r b', rb_test_bmap b i = Done (r, b') /\ (r <> 0 <-> rb_marked b i = true) /\
    rb_ok (b', al) /\ same_header b b' /\ forall j, rb_marked b' j = rb_marked b j.
Proof.
  intros H Hi. rb_open H bp L. unfold rb_test_bmap, get_private. rewrite Hp. cbn [obind]. rewrite u64_small by range_lia.
  destruct (rb_test_bit_ok (room b) bp al L (i - start b)) as (r & bp' & -> & I' & Hr); [unfold room; lia|done|lia|].
  cbn [obind]. do 2 eexists. split; [done|]. split; [rewrite (rb_marked_covers b bp L) by (done || lia || apply I); done|].
  destruct (rb_update b al al bp' (covers L.*2) H (later_refl al)) as (Hok & Hsh & Hm); [by exists L|].
  do 2 (split; [done|]). intros j. rewrite Hm. destruct (Z.leb_spec (start b) j).
  - rewrite (rb_marked_covers b bp L) by (done || apply I). done.
  - rewrite rb_marked_below by done. done.
Qed.

Lemma covers_left_none s A i : left_of s A -> s <= i -> covers A.*2 i = false.
Proof.
  intros HA Hi. apply covers_false. intros e He. apply list_elem_of_fmap_1 in He as ([q x] & -> & Hin).
  unfold left_of in HA. rewrite Forall_forall in HA. specialize (HA _ Hin). cbn in *. lia.
Qed.

(** The last extent in front of [s]: its successor is the first one behind. *)
Lemma left_step N bp al A B s p : N < 2 ^ 64 -> rb_inv N bp al (A ++ B) -> left_of s A -> last A.*1 = Some p ->
  exists e, ext2fs_rb_next p (root bp) = Done (head B.*1) /\ deref bp p = Done e /\
    e_end e = e_start e + e_count e /\ e_start e + e_count e <= s /\ 0 < e_count e /\ 0 <= e_start e.
Proof.
  intros HN I HA Hp. rewrite fmap_last in Hp. destruct (last A) as [[q e]|] eqn:El; [|done]. cbn in Hp. injection Hp as <-.
  apply last_Some in El as [A' ->]. exists e.
  destruct (inv_elem _ _ _ _ q e I) as (? & ? & ?); [set_solver|].
  pose proof (ri_tree _ _ _ _ I) as T. rewrite <- app_assoc in T.
  split; [apply (next_ok _ _ _ _ _ T)|]. split; [apply (deref_ok _ _ q e T); set_solver|].
  split; [apply (e_end_ok e N); lia|]. unfold left_of in HA. rewrite Forall_app, Forall_singleton in HA.
  destruct HA as [_ HA]. cbn in HA. lia.
Qed.

(** The first extent behind [s]. *)
Lemma right_step N bp al A B s p : N < 2 ^ 64 -> rb_inv N bp al (A ++ B) -> right_of s B -> head B.*1 = Some p ->
  exists e B', B = (p, e) :: B' /\ ext2fs_rb_next p (root bp) = Done (head B'.*1) /\ deref bp p = Done e /\
    e_end e = e_start e + e_count e /\ s < e_start e /\ 0 < e_count e /\ e_start e + e_count e <= N /\
    forall i, s <= i < e_start e -> covers B.*2 i = false.
Proof.
  intros HN I HB Hp. destruct B as [|[q e] B]; [done|]. cbn in Hp. injection Hp as <-. exists e, B.
  destruct (inv_elem _ _ _ _ q e I) as (? & ? & ?); [set_solver|].
  pose proof (ri_tree _ _ _ _ I) as T. pose proof (ri_gaps _ _ _ _ I) as Hg.
  rewrite fmap_app in Hg. apply gaps_app in Hg as [_ Hg]. cbn [fmap list_fmap gaps snd] in Hg. destruct Hg as (? & ? & ? & Hg).
  apply Forall_cons in HB as [He HB]. cbn in He.
  split; [done|]. split; [apply (next_ok _ _ _ _ _ T)|]. split; [apply (deref_ok _ _ q e T); set_solver|].
  split; [apply (e_end_ok e N); lia|]. do 3 (split; [lia|]). intros i Hi. rewrite fmap_cons, covers_cons. cbn [snd].
  rewrite (proj2 (in_range_false i _ _)) by lia. apply (covers_below _ _ _ i Hg). lia.
Qed.

Lemma clear_from_right N fuel bp al A B s c : N < 2 ^ 64 -> rb_inv N bp al (A ++ B) -> right_of s B ->
  0 <= s -> 0 <= c -> s + c <= N -> (0 < fuel)%nat ->
  decides (clear_from fuel (head B.*1) s c bp) (forall i, s <= i < s + c -> covers B.*2 i = false).
Proof.
  intros HN I HB Hs Hc HsN Hf. destruct fuel as [|fuel]; [lia|]. cbn [clear_from].
  destruct (head B.*1) as [p|] eqn:Eh.
  - destruct (right_step N _ _ _ _ _ _ HN I HB Eh) as (e & B' & -> & -> & -> & Ee & ? & ? & ? & Hno).
    cbn [obind]. rewrite Ee.
    destruct (Z.leb_spec (e_start e + e_count e) s); [lia|]. rewrite u64_small by range_lia.
    destruct (Z.leb_spec (s + c) (e_start e)).
    + exists 1. split; [done|]. split; [auto|]. split; [|done]. intros _ i Hi. apply Hno. lia.
    + exists 0. split; [done|]. split; [auto|]. split; [done|]. intros Hall. specialize (Hall (e_start e) ltac:(lia)).
      rewrite fmap_cons, covers_cons in Hall. cbn [snd] in Hall. rewrite (proj2 (in_range_spec (e_start e) _ _)) in Hall by lia. done.
  - destruct B as [|[? ?] ?]; [|done]. exists 1. split; [done|]. split; [auto|]. done.
Qed.

Lemma clear_from_ok N fuel bp al A B s c k : N < 2 ^ 64 -> rb_inv N bp al (A ++ B) -> left_of s A -> right_of s B ->
  before k = A.*1 -> after k = B.*1 ->
  0 <= s -> 0 <= c -> s + c <= N -> (1 < fuel)%nat ->
  decides (clear_from fuel (parent_of k) s c bp) (forall i, s <= i < s + c -> covers (A ++ B).*2 i = false).
Proof.
  intros HN I HA HB Hb Ha Hs Hc HsN Hf.
  assert (D : decides (clear_from fuel (parent_of k) s c bp) (forall i, s <= i < s + c -> covers B.*2 i = false)).
  { destruct (parent_of k) as [p|] eqn:Ep.
    - apply parent_ok in Ep. rewrite Hb, Ha in Ep. destruct Ep as [Ep|Ep].
      + destruct (left_step N _ _ _ _ _ _ HN I HA Ep) as (e & E1 & E2 & E3 & ? & ? & ?).
        destruct fuel as [|fuel]; [lia|]. cbn [clear_from]. rewrite E1, E2. cbn [obind]. rewrite E3.
        destruct (Z.leb_spec (e_start e + e_count e) s); [|lia]. apply (clear_from_right N _ _ al A); done || lia.
      + rewrite <- Ep. apply (clear_from_right N _ _ al A); done || lia.
    - apply parent_none in Ep as [_ Eb]. rewrite Eb in Ha. destruct B; [|done].
      destruct fuel; [lia|]. exists 1. split; [done|]. split; [auto|done]. }
  destruct D as (r & E & Hr & Hiff). exists r. split; [done|]. split; [done|]. rewrite Hiff.
  split; intros Hall i Hi; specialize (Hall i Hi); rewrite fmap_app, covers_app, (covers_left_none s A) in *; done || lia.
Qed.

Lemma rb_test_clear_law b al i n : rb_ok (b, al) -> start b <= i -> 0 <= n < 2 ^ 32 -> i + n - 1 <= real_end b ->
  decides (rb_test_clear_bmap_extent b i n) (forall j, i <= j < i + n -> rb_marked b j = false).
Proof.
  intros H Hi Hn Hr. rb_open H bp L. unfold rb_test_clear_bmap_extent, get_private. rewrite Hp. cbn [obind].
  pose proof (ri_tree _ _ _ _ I) as T.
  assert (D : decides (match root bp with
      | Leaf => Done 1
      | t => if n =? 0 then Done 1 else
          let* place := descend (cmp_in (u64 (i - start b))) bp t [] in
          match place with inl _ => Done 0 | inr k => clear_from (S (size t)) (parent_of k) (u64 (i - start b)) n bp end
      end) (forall j, i - start b <= j < i - start b + n -> covers L.*2 j = false)).
  { pose proof (size_ok _ _ T) as Hsz. destruct (root bp) as [|c l p r] eqn:Er.
    { destruct L; [|done]. exists 1. split; [done|]. split; [auto|done]. }
    destruct (Z.eqb_spec n 0); [exists 1; split; [done|]; split; [auto|]; split; [lia|done]|].
    destruct (Z.le_gt_cases (i - start b) (2 ^ 64 - 1)); [|unfold room in *; lia].
    rewrite u64_small by range_lia. rewrite <- Er. cbn zeta.
    destruct (descend_in (room b) bp al L (i - start b)) as (res & -> & Hres); [unfold room; lia|done|lia|]. cbn [obind].
    destruct res as [q|k].
    - destruct Hres as (A & e & B & _ & _ & Hc). exists 0. split; [done|]. split; [auto|]. split; [done|].
      intros Hall. rewrite Hall in Hc by lia. done.
    - destruct Hres as (A & B & -> & Hb & Ha & HA & HB & _).
      apply (clear_from_ok (room b) _ _ al); try done; unfold room in *; try lia.
      rewrite Er, Hsz. destruct (A ++ B); cbn in *; lia. }
  destruct D as (r & E & Hr' & Hiff). exists r. split; [exact E|]. split; [done|]. rewrite Hiff.
  split; intros Hall j Hj.
  - rewrite (rb_marked_covers b bp L) by (done || lia || apply I). apply Hall. lia.
  - specialize (Hall (j + start b) ltac:(lia)). rewrite (rb_marked_covers b bp L) in Hall by (done || lia || apply I).
    rewrite <- Hall. f_equal. lia.
Qed.

(** ** The whole bitmap *)

Lemma rb_new_law b al : header_ok b -> private b = None -> no_oom al ->
  exists b' al', rb_new_bmap (b, al) = Done (0, (b', al')) /\ rb_ok (b', al') /\ same_header b b' /\
    later al al' /\ forall j, rb_marked b' j = false.
Proof.
  intros Hh Hp Hal. unfold rb_new_bmap, rb_alloc_private_data. rewrite mem_malloc_ok by done.
  do 2 eexists. split; [done|]. split; [|split; [repeat split|split; [apply later_bump|]]].
  - split; [done|]. split; [by apply no_oom_bump|]. eexists _, []. split; [done|].
    constructor; [constructor; cbn; [split; [done|exists 0%nat; constructor]|done|constructor|]|split; [done|split; done]|done|set_solver].
    intros p e. rewrite lookup_empty. split; [done|]. intros Hin. by apply elem_of_nil in Hin.
  - intros j. unfold rb_marked. cbn. destruct (start b <=? j); done.
Qed.

Lemma rb_ok_end b al e : rb_ok (b, al) -> start b <= e <= real_end b ->
  rb_ok (set_ends b e (real_end b), al) /\ forall j, rb_marked (set_ends b e (real_end b)) j = rb_marked b j.
Proof.
  intros H He. rb_open H bp L. split; [|done].
  split; [unfold header_ok; cbn; lia|]. split; [done|]. exists bp, L. done.
Qed.

Lemma free_nodes_ok fuel B bp : tree_is bp B -> (length B < fuel)%nat ->
  exists bp', free_nodes fuel (head B.*1) bp = Done bp' /\ tree_is bp' [].
Proof.
  revert B bp. induction fuel as [|fuel IH]; intros B bp T Hf; [lia|]. destruct B as [|[p e] B]; [by exists bp|].
  cbn [fmap list_fmap head fst free_nodes]. rewrite (next_ok bp [] p e B T). cbn [obind].
  destruct (erase_ok bp [] p e B T) as (bp' & -> & _ & _ & _ & _ & _ & T'). cbn [obind].
  apply IH; [done|]. cbn in Hf. lia.
Qed.

Lemma rb_clear_law b al : rb_ok (b, al) ->
  exists b', rb_clear_bmap b = Done b' /\ rb_ok (b', al) /\ same_header b b' /\ forall j, rb_marked b' j = false.
Proof.
  intros H. rb_open H bp L. unfold rb_clear_bmap, get_private, rb_free_tree. rewrite Hp. cbn [obind].
  pose proof (ri_tree _ _ _ _ I) as T. rewrite rb_first_ok, (ti_order _ _ T), (size_ok _ _ T).
  destruct (free_nodes_ok (S (length L)) L bp T) as (bp' & -> & T'); [lia|]. cbn [obind].
  eexists. split; [done|].
  destruct (rb_update b al al (set_rcursor_next (set_rcursor (set_wcursor bp' None) None) None) (fun _ => false))
    as (Hok & Hsh & Hm); [done|apply later_refl| |].
  - exists []. split; [|done]. constructor; [by apply (tree_is_cursor bp')|split; [done|split; done]|done|set_solver].
  - do 2 (split; [done|]). intros j. rewrite Hm. destruct (start b <=? j); done.
Qed.

(** ** Copies *)

Lemma go_right_plug c l p r k :
  exists c' l' p' k', go_right (Node c l p r) k = (Node c' l' p' Leaf, k') /\
    plug Leaf (InRight c' l' p' :: k') = plug (Node c l p r) k /\ after k' = after k /\
    before k' ++ inorder l' ++ [p'] = before k ++ inorder (Node c l p r).
Proof.
  revert c l p k. induction r as [|cr lr _ pr rr IHr]; intros c l p k.
  - cbn [go_right]. do 4 eexists. split; [done|]. done.
  - change (go_right (Node c l p (Node cr lr pr rr)) k) with (go_right (Node cr lr pr rr) (InRight c l p :: k)).
    destruct (IHr cr lr pr (InRight c l p :: k)) as (c' & l' & p' & k' & E & Hk & Ha & Ho).
    exists c', l', p', k'. split; [done|]. split; [done|]. split; [done|]. rewrite Ho. cbn. rewrite <- !app_assoc. done.
Qed.

(** The place of the new extent in [rb_copy_bmap]. *)
Lemma last_place t :
  let k := match go_right t [] with (Node c l p _, k) => InRight c l p :: k | (Leaf, k) => k end in
  plug Leaf k = t /\ before k = inorder t /\ after k = [].
Proof.
  destruct t as [|c l p r]; [done|].
  destruct (go_right_plug c l p r []) as (c' & l' & p' & k' & -> & Hk & Ha & Ho). cbn zeta iota beta.
  split; [done|]. split; [|done]. cbn [before] in *. rewrite Ho. done.
Qed.

Lemma copy_nodes_ok fuel src A B dst C al :
  no_oom al -> tree_is src (A ++ B) -> tree_is dst C -> C.*2 = A.*2 ->
  (forall p, p ∈ C.*1 -> p < next_addr al) -> (length B < fuel)%nat ->
  exists dst' C' al', copy_nodes fuel (head B.*1) src dst al = Done (0, dst', al') /\ later al al' /\
    tree_is dst' C' /\ C'.*2 = (A ++ B).*2 /\ (forall p, p ∈ C'.*1 -> p < next_addr al') /\
    wcursor dst' = wcursor dst /\ rcursor dst' = rcursor dst /\ rcursor_next dst' = rcursor_next dst.
Proof.
  revert A B dst C al. induction fuel as [|fuel IH]; intros A B dst C al Hal Ts Td HC Haddr Hf; [lia|].
  destruct B as [|[p e] B]; cbn [fmap list_fmap head fst copy_nodes].
  { exists dst, C, al. split; [done|]. split; [apply later_refl|]. rewrite app_nil_r. done. }
  rewrite (deref_ok _ _ p e Ts) by set_solver. cbn [obind]. rewrite mem_malloc_ok by done.
  set (q := next_addr al). destruct (last_place (root dst)) as (Hk & Hb & Ha).
  set (k := match go_right (root dst) [] with (Node c l p _, k) => InRight c l p :: k | (Leaf, k) => k end) in *.
  rewrite (ti_order _ _ Td) in Hb.
  destruct (link_ok dst C [] k q e) as (t & Et & T'); [by rewrite app_nil_r|done|done|done| |].
  { rewrite app_nil_r. intros Hin. specialize (Haddr _ Hin). lia. }
  rewrite Et. cbn [obind]. rewrite (next_ok _ _ _ _ _ Ts). cbn [obind].
  destruct (IH (A ++ [(p, e)]) B (set_root (set_ext dst q e) t) (C ++ [(q, e)]) (bump al))
    as (dst' & C' & al' & E & Hl & T'' & HC' & Ha' & Hcur); [done|by rewrite <- app_assoc|done| | |cbn in Hf; lia|].
  { rewrite !fmap_app, HC. done. }
  { intros x. rewrite fmap_app, elem_of_app. intros [Hx|Hx]; [specialize (Haddr _ Hx); cbn; lia|].
    apply list_elem_of_singleton in Hx. subst x. cbn. lia. }
  exists dst', C', al'. split; [exact E|]. split; [apply (mem_later_trans _ (bump al)); [apply later_bump|done]|].
  split; [done|]. split; [rewrite HC', <- app_assoc; done|]. done.
Qed.

Lemma rb_copy_law b d al : rb_ok (b, al) -> same_size b d -> private d = None ->
  exists b' d' al', rb_copy_bmap b (d, al) = Done (0, b', (d', al')) /\
    rb_ok (b', al') /\ rb_ok (d', al') /\ same_header b b' /\ same_header d d' /\ later al al' /\
    forall j, rb_marked b' j = rb_marked b j /\ rb_marked d' j = rb_marked b j.
Proof.
  intros H Hd Hnone. rb_open H bp L. unfold rb_copy_bmap, rb_alloc_private_data. rewrite mem_malloc_ok by done.
  cbn [negb Z.eqb]. unfold get_private. cbn [private set_private]. rewrite Hp. cbn [obind].
  pose proof (ri_tree _ _ _ _ I) as T. pose proof (ri_cur _ _ _ _ I) as (Hw & _ & _).
  assert (I1 : rb_inv (room b) (set_rcursor bp None) al L)
    by (apply (inv_cursors _ bp); [done..|]; split; [exact Hw|done]).
  destruct (rb_new_law d al) as (d0 & al0 & E0 & Hok0 & _ & Hl0 & _);
    [destruct Hd as (Hs & He & Hr); unfold header_ok; rewrite Hs, He, Hr; done|done|done|].
  unfold rb_new_bmap, rb_alloc_private_data in E0. rewrite mem_malloc_ok in E0 by done. injection E0 as <- <-.
  destruct Hok0 as (_ & Hal0 & bp0 & L0 & [= <-] & I0). cbn [snd] in I0, Hal0.
  assert (HL0 : L0 = []) by (pose proof (ti_order _ _ (ri_tree _ _ _ _ I0)) as E; destruct L0; done). subst L0.
  rewrite rb_first_ok. cbn [root set_rcursor]. rewrite (ti_order _ _ T), (size_ok _ _ T).
  destruct (copy_nodes_ok (S (length L)) (set_rcursor bp None) [] L (mk_rb Leaf ∅ None None None) [] (bump al))
    as (dst & C & al' & -> & Hl & Td & HC & Ha & Ew & Er & En);
    [done|apply (ri_tree _ _ _ _ I1)|apply (ri_tree _ _ _ _ I0)|done|set_solver|lia|].
  cbn [obind app] in *. do 3 eexists. split; [done|].
  assert (Hl' : later al al') by (apply (mem_later_trans _ (bump al)); [apply later_bump|done]).
  destruct (rb_update b al al (set_rcursor bp None) (covers L.*2) H (later_refl _)) as (Hok & Hsh & Hm); [by exists L|].
  assert (Em : forall j, rb_marked (set_private b (set_rcursor bp None)) j = rb_marked b j).
  { intros j. unfold rb_marked. cbn [private set_private]. rewrite Hp. done. }
  split; [by apply (rb_later _ al)|]. split; [|split; [done|split; [repeat split|split; [done|]]]].
  - destruct Hd as (Hs & He & Hr). split; [unfold header_ok; cbn; rewrite Hs, He, Hr; done|].
    split; [by apply (mem_no_oom_later al)|]. exists dst, C. split; [done|]. constructor; [done| |unfold room; cbn|done].
    + split; [rewrite Ew; done|]. split; rewrite Er; done.
    + rewrite Hr, Hs, HC. apply I.
  - intros j. split; [apply Em|]. unfold rb_marked. cbn [private set_private start].
    destruct Hd as (Hs & _). rewrite Hs, Hp, (extents_ok _ _ Td), (extents_ok _ _ T), HC. done.
Qed.

(** ** Sizes *)

Lemma gaps_hi lo hi hi' l : gaps lo hi l -> (forall e, e ∈ l -> e_start e + e_count e <= hi') -> gaps lo hi' l.
Proof.
  revert lo. induction l as [|e l IH]; intros lo; [done|]. cbn [gaps]. intros (? & ? & ? & Hg) He.
  split; [done|]. split; [done|]. split; [apply He; set_solver|]. apply IH; [done|]. intros x Hx. apply He. set_solver.
Qed.

Definition no_cursors (bp : rb_private) : Prop := wcursor bp = None /\ rcursor bp = None.

Lemma no_cursors_ok bp l : no_cursors bp -> cursors_ok bp l.
Proof. intros [Ew Er]. unfold cursors_ok. rewrite Ew, Er. done. Qed.

Lemma bound_snoc lo l e : bound lo (l ++ [e]) = e_start e + e_count e + 1.
Proof. unfold bound. rewrite last_snoc. done. Qed.

(** The last extent ends at [m] or in front of it: nothing is left to do. *)
Lemma truncated N (A : list (Z * extent)) p e m : gaps 0 N (A ++ [(p, e)]).*2 -> e_start e + e_count e - 1 <= m ->
  gaps 0 (m + 1) (A ++ [(p, e)]).*2 /\
  forall i, covers (A ++ [(p, e)]).*2 i = (i <=? m) && covers (A ++ [(p, e)]).*2 i.
Proof.
  intros Hg Hm. assert (Hle : forall x, x ∈ (A ++ [(p, e)]).*2 -> e_start x + e_count x <= m + 1).
  { intros x Hx. pose proof (gaps_elem _ _ _ _ Hg Hx) as (_ & _ & _ & Hb). rewrite fmap_app in Hb. cbn in Hb.
    rewrite bound_snoc in Hb. lia. }
  split; [by apply (gaps_hi _ N)|]. intros i. destruct (Z.leb_spec i m); [done|].
  apply covers_false. intros x Hx. specialize (Hle x Hx). lia.
Qed.

Lemma rb_truncate_ok N fuel bp L m :
  N < 2 ^ 64 -> tree_is bp L -> gaps 0 N L.*2 -> no_cursors bp -> 0 <= m -> (S (length L) < fuel)%nat ->
  exists bp' L', rb_truncate fuel m (last L.*1) bp = Done bp' /\ tree_is bp' L' /\ gaps 0 (m + 1) L'.*2 /\
    no_cursors bp' /\ L'.*1 ⊆ L.*1 /\ forall i, covers L'.*2 i = (i <=? m) && covers L.*2 i.
Proof.
  intros HN. revert bp L. induction fuel as [|fuel IH]; intros bp L T Hg Hno Hm Hf; [lia|].
  destruct L as [|[p e] A _] using rev_ind.
  { exists bp, []. split; [done|]. do 3 (split; [done|]). split; [done|]. intros i. rewrite andb_false_r. done. }
  assert (El : last (A ++ [(p, e)]).*1 = Some p) by (rewrite fmap_app; apply last_snoc).
  rewrite El. cbn [rb_truncate].
  rewrite (deref_ok _ _ p e T) by set_solver. cbn [obind]. pose proof Hg as Hg0.
  rewrite fmap_app in Hg0. apply gaps_app in Hg0 as [HgA HgB]. cbn in HgB.
  pose proof (gaps_bound _ _ _ HgA) as [Hb _]. destruct HgB as (? & ? & ? & _).
  rewrite (e_end_ok e N) by lia. rewrite u64_small by range_lia.
  destruct (Z.leb_spec (e_start e + e_count e - 1) m).
  { destruct (truncated _ _ _ _ _ Hg H2) as [Hg' Hc]. exists bp, (A ++ [(p, e)]). done. }
  destruct (Z.ltb_spec m (e_start e)).
  - destruct (erase_ok bp A p e [] T) as (bp1 & -> & _ & Ew & Er & _ & _ & T1). cbn [obind]. rewrite app_nil_r in T1.
    rewrite rb_last_ok, (ti_order _ _ T1).
    destruct (IH (free_mem bp1 p) A) as (bp' & L' & E & T' & Hg' & Hno' & Hsub & Hc); [done|done| |done| |].
    { unfold no_cursors. cbn. rewrite Ew, Er. done. }
    { rewrite length_app in Hf. cbn in Hf. lia. }
    exists bp', L'. do 4 (split; [done|]). split; [rewrite fmap_app; set_solver|]. intros i. rewrite Hc, fmap_app, covers_app.
    cbn. destruct (Z.leb_spec i m); [|done]. rewrite (proj2 (in_range_false i _ _)) by lia.
    rewrite !orb_false_r. done.
  - rewrite (u64_small (m - e_start e + 1)) by range_lia. set (e' := mk_ext (e_start e) (m - e_start e + 1)).
    destruct fuel as [|fuel]; [lia|]. cbn [rb_truncate]. pose proof (set_ext_ok bp A p e e' [] T) as T'.
    rewrite (deref_ok _ _ p e' T') by set_solver. cbn [obind].
    rewrite (e_end_ok e' N) by (cbn; lia). rewrite u64_small by (cbn; range_lia).
    destruct (Z.leb_spec (e_start e' + e_count e' - 1) m); [|cbn in *; lia].
    assert (Hg' : gaps 0 N (A ++ [(p, e')]).*2).
    { rewrite fmap_app. apply gaps_app. split; [done|]. cbn. lia. }
    destruct (truncated _ _ _ _ _ Hg' H4) as [Hg'' Hc]. exists (set_ext bp p e'), (A ++ [(p, e')]).
    do 4 (split; [done|]). split; [rewrite !fmap_app; done|]. intros i. rewrite Hc, !fmap_app, !covers_app. cbn.
    destruct (Z.leb_spec i m); [|done]. cbn. f_equal. f_equal. apply eq_true_iff_eq. rewrite !in_range_spec. cbn. lia.
Qed.

Lemma rb_resize_law b al e re : rb_ok (b, al) -> start b <= e -> e <= re -> re < 2 ^ 64 - 1 ->
  exists b' al', rb_resize_bmap (b, al) e re = Done (0, (b', al')) /\
    rb_ok (b', al') /\ same_header (set_ends b e re) b' /\ later al al' /\
    forall j, j <= e -> rb_marked b' j = (j <=? end_ b) && rb_marked b j.
Proof.
  intros H He Hre Hre2. rb_open H bp L. unfold rb_resize_bmap, get_private. rewrite Hp. cbn [obind].
  set (m := (if e <? end_ b then e else end_ b) - start b).
  assert (Hm : 0 <= m <= e - start b /\ m <= end_ b - start b) by (unfold m; destruct (Z.ltb_spec e (end_ b)); lia).
  assert (Hmin : forall j, j <= e -> (j - start b <=? m) = (j <=? end_ b)).
  { intros j Hj. unfold m. destruct (Z.ltb_spec e (end_ b)), (Z.leb_spec j (end_ b)); apply Z.leb_le || apply Z.leb_gt; lia. }
  rewrite u64_small by range_lia. set (bp0 := set_wcursor (set_rcursor bp None) None).
  pose proof (ri_tree _ _ _ _ I) as T. assert (T0 : tree_is bp0 L) by (apply (tree_is_cursor bp); done).
  rewrite rb_last_ok, (ti_order _ _ T0), (size_ok _ _ T0).
  destruct (rb_truncate_ok (room b) (S (S (length L))) bp0 L m) as (bp1 & L1 & -> & T1 & Hg1 & Hno1 & Hsub & Hc1);
    [unfold room; lia|done|apply I|done|lia|lia|]. cbn [obind].
  assert (I1 : rb_inv (re - start b + 1) bp1 al L1).
  { constructor; [done|by apply no_cursors_ok| |].
    - apply (gaps_hi _ (m + 1)); [done|]. intros x Hx. pose proof (gaps_elem _ _ _ _ Hg1 Hx). lia.
    - intros p Hin. apply (ri_addr _ _ _ _ I). set_solver. }
  assert (Hbase : forall j, j <= e -> (start b <=? j) && covers L1.*2 (j - start b) = (j <=? end_ b) && rb_marked b j).
  { intros j Hj. destruct (Z.leb_spec (start b) j); [|rewrite rb_marked_below, andb_false_r by done; done].
    rewrite Hc1, Hmin, (rb_marked_covers b bp L) by done. done. }
  cbn [end_ real_end start set_ends].
  assert (Hcase : exists b' al', (if e <? re then
      let* (_, bp, al) := rb_insert_extent (u64 (e + 1 - start b)) (re - e) bp1 al in
      Done (0, (set_private (set_ends b e re) bp, al))
    else Done (0, (set_private (set_ends b e re) bp1, al))) = Done (0, (set_private (set_ends b e re) b', al')) /\
    later al al' /\ exists L', rb_inv (re - start b + 1) b' al' L' /\
      forall j, j <= e -> (start b <=? j) && covers L'.*2 (j - start b) = (j <=? end_ b) && rb_marked b j).
  { destruct (Z.ltb_spec e re).
    - rewrite u64_small by range_lia.
      destruct (rb_insert_extent_ok (re - start b + 1) bp1 al L1 (e + 1 - start b) (re - e))
        as (r & bp' & al' & -> & Hl & (L' & I' & Hc') & _); [lia|done|done|lia..|]. cbn [obind].
      exists bp', al'. do 2 (split; [done|]). exists L'. split; [done|]. intros j Hj. rewrite <- Hbase by done.
      rewrite Hc', (proj2 (in_range_false _ _ _)) by lia. done.
    - exists bp1, al. split; [done|]. split; [apply later_refl|]. exists L1. done. }
  destruct Hcase as (bp' & al' & -> & Hl & L' & I' & Hc'). do 2 eexists. split; [done|].
  split; [|split; [repeat split|split; [done|]]].
  - split; [unfold header_ok; cbn; lia|]. split; [by apply (mem_no_oom_later al)|]. exists bp', L'. done.
  - intros j Hj. rewrite <- Hc' by done. unfold rb_marked. cbn [private set_private start set_ends].
    rewrite (extents_ok _ _ (ri_tree _ _ _ _ I')). done.
Qed.

(** ** Bytes into the bitmap *)

(** The first [n] bits of the buffer. *)
Definition upto (inp : list Z) (n i : Z) : bool := in_range i 0 n && bit inp i.

Lemma upto_spec inp n i : upto inp n i = true <-> 0 <= i < n /\ bit inp i = true.
Proof. unfold upto. rewrite andb_true_iff, in_range_spec. done. Qed.

(** Bits that are clear add nothing, and a run of set bits is an extent. *)
Lemma upto_clear inp n m i : n <= m -> (forall k, n <= k < m -> bit inp k = false) -> upto inp m i = upto inp n i.
Proof.
  intros Hnm Hk. apply eq_true_iff_eq. rewrite !upto_spec. split; intros [Hi Hb]; [|split; [lia|done]].
  split; [|done]. destruct (Z.lt_ge_cases i n); [lia|]. rewrite Hk in Hb by lia. done.
Qed.

Lemma upto_run inp f n off x : 0 <= f <= n -> (forall k, f <= k < n -> bit inp k = true) ->
  in_range x (off + f) (n - f) || upto inp f (x - off) = upto inp n (x - off).
Proof.
  intros Hf Hk. apply eq_true_iff_eq. rewrite orb_true_iff, in_range_spec, !upto_spec. split.
  - intros [Hx|[Hx Hb]]; (split; [lia|]); [apply Hk; lia|done].
  - intros [Hx Hb]. destruct (Z.lt_ge_cases (x - off) f); [right|left]; lia || (split; [lia|done]).
Qed.

(** A whole byte of ones, or of zeros. *)
Lemma byte_bits inp i : bytes_ok inp -> 0 <= i -> i mod 8 = 0 -> i + 8 <= 8 * Z.of_nat (length inp) ->
  exists c, load inp (i / 8) = Done c /\
    (c = 0xFF -> forall k, i <= k < i + 8 -> bit inp k = true) /\
    (c = 0 -> forall k, i <= k < i + 8 -> bit inp k = false).
Proof.
  intros Hok Hi Hm Hle. pose proof (Z.div_mod i 8). exists (default 0 (inp !! Z.to_nat (i / 8))).
  split; [apply load_ok; lia|].
  assert (Hb : forall k, i <= k < i + 8 -> bit inp k = Z.testbit (default 0 (inp !! Z.to_nat (i / 8))) (k - i)).
  { intros k Hk. rewrite <- bit_byte by lia. f_equal. lia. }
  split; intros Hc k Hk; rewrite Hb, Hc by lia; [|apply Z.bits_0].
  change 0xFF with (Z.ones 8). rewrite Z.ones_spec_low by lia. done.
Qed.

(** What the loop keeps: everything in front of the run that is open is in the
    tree, and the open run is a run of set bits. *)
Definition range_state (N off : Z) (inp : list Z) (f : Z -> bool) (fs : option Z) (i : Z)
    (bp : rb_private) (al : allocator) : Prop :=
  rb_after N bp al (fun x => upto inp (default i fs) (x - off) || f x) /\
  match fs with Some p => 0 <= p <= i /\ forall k, p <= k < i -> bit inp k = true | None => True end.

(** The open run that [first_set] stands for. *)
Definition run_of (first_set : Z) : option Z := if first_set =? -1 then None else Some first_set.

(** A run is opened or goes on. *)
Lemma range_state_set N off inp f fs i m bp al : 0 <= i < 2 ^ 31 -> i <= m -> (forall k, i <= k < m -> bit inp k = true) ->
  range_state N off inp f (run_of fs) i bp al ->
  range_state N off inp f (run_of (if fs =? -1 then s32 i else fs)) m bp al.
Proof.
  intros Hi Hm Hk [Ha Hr]. unfold run_of in *. rewrite s32_small by lia. destruct (Z.eqb_spec fs (-1)).
  { destruct (Z.eqb_spec i (-1)); [lia|]. split; [done|]. split; [lia|done]. }
  destruct (Z.eqb_spec fs (-1)); [done|].
  split; [done|]. destruct Hr as [Hp Hr]. split; [lia|]. intros k Hk'.
  destruct (Z.lt_ge_cases k i); [apply Hr|apply Hk]; lia.
Qed.

(** Clear bits with no run open. *)
Lemma range_state_clear N off inp f i m bp al : 0 <= i <= m -> (forall k, i <= k < m -> bit inp k = false) ->
  range_state N off inp f None i bp al -> range_state N off inp f None m bp al.
Proof.
  intros Hm Hk [Ha _]. split; [|done]. eapply rb_after_ext; [exact Ha|]. intros x. cbn.
  rewrite (upto_clear _ i m) by (lia || done). done.
Qed.

(** The open run is closed. *)
Lemma range_state_close N off inp f p i bp al :
  N < 2 ^ 64 -> no_oom al -> 0 <= off -> 0 <= i -> off + i <= N -> range_state N off inp f (Some p) i bp al ->
  exists r bp' al', rb_insert_extent (u64 (off + p)) (u64 (i - p)) bp al = Done (r, bp', al') /\ later al al' /\
    range_state N off inp f None i bp' al'.
Proof.
  intros HN Hal Hoff Hi Hle [(L & I & Hc) [Hp Hr]]. rewrite !u64_small by range_lia.
  destruct (rb_insert_extent_ok N bp al L (off + p) (i - p)) as (r & bp' & al' & E & Hl & Ha & _); [done|done|done|lia..|].
  exists r, bp', al'. do 2 (split; [done|]). split; [|done]. eapply rb_after_ext; [exact Ha|]. intros x. cbn.
  rewrite Hc. cbn. rewrite orb_assoc, (upto_run inp p i) by done. done.
Qed.

Lemma set_range_loop_ok N fuel i num fs off inp bp al f :
  N < 2 ^ 64 -> no_oom al -> 0 <= off -> off + num <= N -> num mod 8 = 0 -> 0 <= i <= num -> num < 2 ^ 31 ->
  bytes_ok inp -> num <= 8 * Z.of_nat (length inp) -> (Z.to_nat (num - i) < fuel)%nat ->
  range_state N off inp f (run_of fs) i bp al ->
  exists fs' bp' al', set_range_loop fuel i num fs off inp bp al = Done (fs', bp', al') /\ later al al' /\
    range_state N off inp f (run_of fs') num bp' al'.
Proof.
  intros HN Hal Hoff HoN Hmod Hi Hnum Hok Hlen. revert i fs bp al Hal Hi.
  induction fuel as [|fuel IH]; intros i fs bp al Hal Hi Hf R; [lia|]. cbn [set_range_loop].
  destruct (Z.ltb_spec i num); [|replace num with i by lia; do 3 eexists; split; [done|]; split; [apply later_refl|done]].
  rewrite land_7.
  assert (Hbyte : exists c, (if i mod 8 =? 0 then load inp (i / 8) else Done (-1)) = Done c /\
    (c = 0xFF -> i + 8 <= num /\ forall k, i <= k < i + 8 -> bit inp k = true) /\
    (c = 0 -> i + 8 <= num /\ forall k, i <= k < i + 8 -> bit inp k = false)).
  { destruct (Z.eqb_spec (i mod 8) 0); [|by exists (-1)].
    assert (i + 8 <= num) by (pose proof (Z.div_mod i 8); pose proof (Z.div_mod num 8); lia).
    destruct (byte_bits inp i) as (c & E & Hy1 & Hy0); [done|lia|done|lia|]. exists c. split; [done|].
    split; intros Hc; (split; [done|]); [by apply Hy1|by apply Hy0]. }
  destruct Hbyte as (c & -> & Hff & Hzz). cbn [obind].
  assert (Hstep : forall n fs' bp' al', 0 < n -> i + n <= num -> no_oom al' -> later al al' ->
    range_state N off inp f (run_of fs') (i + n) bp' al' ->
    exists fs'' bp'' al'', set_range_loop fuel (i + n) num fs' off inp bp' al' = Done (fs'', bp'', al'') /\
      later al al'' /\ range_state N off inp f (run_of fs'') num bp'' al'').
  { intros n fs' bp' al' Hn Hle Hal' Hl R'.
    destruct (IH (i + n) fs' bp' al') as (fs'' & bp'' & al'' & E & Hl' & R''); [done|lia|lia|done|].
    exists fs'', bp'', al''. split; [done|]. split; [by apply (mem_later_trans _ al')|done]. }
  destruct (Z.eqb_spec c 0xFF).
  { destruct Hff as [? ?]; [done|]. apply Hstep; [lia|lia|done|apply later_refl|].
    apply range_state_set with (i := i); [lia|lia|done|done]. }
  destruct ((c =? 0) && _) eqn:E0.
  { apply andb_true_iff in E0 as [E0 Efs]. apply Z.eqb_eq in E0. destruct Hzz as [? ?]; [done|].
    unfold run_of in R. apply Hstep; [lia|lia|done|apply later_refl|]. unfold run_of. rewrite Efs in *. apply range_state_clear with (i := i); [lia|done|done]. }
  unfold ext2fs_test_bit. rewrite u32_small by range_lia.
  destruct (test_bit64_ok inp i) as (r & -> & Hr); [lia|]. cbn [obind].
  assert (Hone : forall v, bit inp i = v -> forall k, i <= k < i + 1 -> bit inp k = v)
    by (intros v Hv k Hk; replace k with i by lia; done).
  destruct (Z.eqb_spec r 0) as [->|Hne]; cbn [negb].
  - assert (Hb : bit inp i = false) by (destruct (bit inp i); [tauto|done]). unfold run_of in R. destruct (Z.eqb_spec fs (-1)) as [Hfs|Hfs]; swap 1 2.
    + destruct (range_state_close N off inp f fs i bp al) as (r & bp' & al' & -> & Hl & R'); [done|done|lia..|done|].
      cbn [obind]. apply Hstep; [lia|lia|by apply (mem_no_oom_later al)|done|].
      apply range_state_clear with (i := i); [lia|by apply Hone|done].
    + apply Hstep; [lia|lia|done|apply later_refl|]. unfold run_of. destruct (Z.eqb_spec fs (-1)); [|done]. apply range_state_clear with (i := i); [lia|by apply Hone|done].
  - apply Hstep; [lia|lia|done|apply later_refl|]. apply range_state_set with (i := i); [lia|lia|apply Hone; tauto|done].
Qed.

Lemma rb_set_range_law b al s n inp :
  rb_ok (b, al) -> n mod 8 = 0 -> start b <= s -> 0 <= n < 2 ^ 31 ->
  s + n - 1 <= real_end b -> bytes_ok inp -> n <= 8 * Z.of_nat (length inp) ->
  exists b' al', rb_set_bmap_range (b, al) s n inp = Done (0, (b', al')) /\
    rb_ok (b', al') /\ same_header b b' /\ later al al' /\
    forall j, rb_marked b' j = upto inp n (j - s) || rb_marked b j.
Proof.
  intros H Hmod Hs Hn Hr Hok Hlen. rb_open H bp L. unfold rb_set_bmap_range, get_private. rewrite Hp. cbn [obind].
  set (off := s - start b). assert (Hoff : 0 <= off /\ off + n <= room b < 2 ^ 64) by (unfold off, room; lia).
  destruct (set_range_loop_ok (room b) (S (Z.to_nat n)) 0 n (-1) off inp bp al (covers L.*2))
    as (fs & bp1 & al1 & -> & Hl1 & R); [lia|done|lia|lia|done|lia|lia|done|lia|lia| |].
  { split; [|done]. exists L. split; [done|]. intros x. cbn. destruct (upto inp 0 (x - off)) eqn:E; [|done].
    apply upto_spec in E. lia. }
  cbn [obind]. pose proof (mem_no_oom_later _ _ Hal Hl1) as Hal1.
  assert (Hfin : exists bp2 al2,
    (if fs =? -1 then Done (0, (set_private b bp1, al1))
     else let* (_, bp, al) := rb_insert_extent (u64 (off + fs)) (u64 (n - fs)) bp1 al1 in Done (0, (set_private b bp, al))) = Done (0, (set_private b bp2, al2)) /\ later al al2 /\ range_state (room b) off inp (covers L.*2) None n bp2 al2).
  { unfold run_of in R. destruct (fs =? -1); swap 1 2.
    - destruct (range_state_close (room b) off inp (covers L.*2) fs n bp1 al1) as (r & bp2 & al2 & -> & Hl2 & R');
        [lia|done|lia..|done|]. cbn [obind]. exists bp2, al2. split; [done|]. split; [by apply (mem_later_trans _ al1)|done].
    - exists bp1, al1. done. }
  destruct Hfin as (bp2 & al2 & -> & Hl2 & Ha & _). cbn in Ha.
  destruct (rb_update b al al2 bp2 _ H Hl2 Ha) as (Hok2 & Hsh & Hm). do 2 eexists. do 4 (split; [done|]).
  intros j. rewrite Hm. destruct (Z.leb_spec (start b) j).
  - rewrite (rb_marked_covers b bp L) by (done || apply I). unfold off. do 2 f_equal. lia.
  - rewrite rb_marked_below by done. destruct (upto inp n (j - s)) eqn:E; [apply upto_spec in E; lia|done].
Qed.

(** ** Bytes out of the bitmap *)

Lemma bit_replicate_ff n i : 0 <= i < 8 * Z.of_nat n -> bit (replicate n 0xFF) i = true.
Proof.
  intros Hi. unfold bit. rewrite lookup_replicate_2 by div_lia. cbn [default id from_option].
  change 0xFF with (Z.ones 8). rewrite Z.ones_spec_low by div_lia. done.
Qed.

Lemma fill_bits_ok fuel pos count out :
  bytes_ok out -> 0 <= pos -> 0 <= count -> pos + count < 2 ^ 31 -> pos + count <= 8 * Z.of_nat (length out) -> (Z.to_nat count < fuel)%nat ->
  exists out', fill_bits fuel pos count out = Done out' /\ updated out out' (fun j x => in_range j pos count || x).
Proof.
  revert pos count out. induction fuel as [|fuel IH]; intros pos count out Hok Hpos Hc H31 Hle Hf; [lia|]. cbn [fill_bits].
  destruct (Z.ltb_spec 0 count).
  - assert (Hjoin : forall n out1, 0 < n <= count -> updated out out1 (fun j x => in_range j pos n || x) ->
      exists out', fill_bits fuel (pos + n) (count - n) out1 = Done out' /\
        updated out out' (fun j x => in_range j pos count || x)).
    { intros n out1 Hn U. pose proof U as (Hlen & Hok1 & _).
      destruct (IH (pos + n) (count - n) out1) as (out' & E & U'); [done|lia|lia|lia|lia|lia|].
      exists out'. split; [done|]. eapply updated_ext; [exact (updated_trans _ _ _ _ _ U U')|].
      intros j x Hj. cbn. rewrite orb_assoc. f_equal. apply eq_true_iff_eq.
      rewrite orb_true_iff, !in_range_spec. lia. }
    destruct ((8 <=? count) && (pos mod 8 =? 0)) eqn:E8.
    + apply andb_true_iff in E8 as [E8 Em]. apply Z.leb_le in E8. apply Z.eqb_eq in Em.
      rewrite !shiftr_3.
      pose proof (Z.div_mod count 8). pose proof (Z.mod_pos_bound count 8). pose proof (Z.div_mod pos 8).
      set (nb := count / 8) in *. rewrite (s32_small nb), (s32_small (pos / 8)), Z.shiftl_mul_pow2 by lia. change (2 ^ 3) with 8. rewrite (s32_small (nb * 8)), (u64_small nb), !u64_small by range_lia.
      destruct (store_bytes_ok out (pos / 8) (replicate (Z.to_nat nb) 0xFF)) as (out1 & -> & U);
        [done|apply Forall_replicate; range_lia|lia|rewrite length_replicate; lia|].
      rewrite length_replicate in U. cbn [obind]. apply Hjoin; [lia|]. eapply updated_ext; [exact U|].
      intros j x Hj. cbn. replace (8 * (pos / 8)) with pos by lia. replace (8 * Z.of_nat (Z.to_nat nb)) with (nb * 8) by lia.
      destruct (in_range j pos (nb * 8)) eqn:Ej; [|done]. apply in_range_spec in Ej. apply bit_replicate_ff. lia.
    + rewrite (u64_small (pos + 1)) by range_lia. destruct (fast_set_bit64_ok out pos) as (out1 & -> & U); [done|lia|]. cbn [obind]. apply Hjoin; [lia|].
      eapply updated_ext; [exact U|]. intros j x Hj. cbn. rewrite in_range_1. done.
  - eexists. split; [done|]. eapply updated_ext; [by apply updated_refl|]. intros j x Hj. cbn.
    rewrite (proj2 (in_range_false _ _ _)) by lia. done.
Qed.

(** The bits one extent puts into the buffer. *)
Lemma window N s n e : 0 <= s -> 0 <= n -> s + n <= N -> 0 <= e_start e -> 0 < e_count e ->
  e_start e + e_count e <= N -> N < 2 ^ 64 -> e_start e < s + n -> s <= e_start e + e_count e ->
  let count1 := if e_start e <? s then e_count e - (s - e_start e) else e_count e in
  let pos := if e_start e <? s then s else e_start e in
  let count := if u64 (s + n) <? u64 (pos + count1) then u64 (s + n) - pos else count1 in
  0 <= pos - s /\ 0 <= count /\ pos - s + count <= n /\
  forall j, in_range j (pos - s) count = in_range j 0 n && in_range (s + j) (e_start e) (e_count e).
Proof.
  intros Hs Hn HsN He Hc HeN HN Hlt Hle. cbn zeta.
  destruct (Z.ltb_spec (e_start e) s).
  - replace (s + (e_count e - (s - e_start e))) with (e_start e + e_count e) by lia.
    rewrite !u64_small by range_lia. destruct (Z.ltb_spec (s + n) (e_start e + e_count e));
      (do 3 (split; [lia|])); intros j; apply eq_true_iff_eq; rewrite andb_true_iff, !in_range_spec; lia.
  - rewrite !u64_small by range_lia. destruct (Z.ltb_spec (s + n) (e_start e + e_count e));
      (do 3 (split; [lia|])); intros j; apply eq_true_iff_eq; rewrite andb_true_iff, !in_range_spec; lia.
Qed.

Lemma get_range_loop_ok N fuel bp al A B s n out :
  N < 2 ^ 64 -> rb_inv N bp al (A ++ B) -> 0 <= s -> 0 <= n < 2 ^ 31 -> s + n <= N -> bytes_ok out ->
  n <= 8 * Z.of_nat (length out) -> (length B < fuel)%nat ->
  exists out', get_range_loop fuel (head B.*1) s n bp out = Done out' /\
    updated out out' (fun j x => in_range j 0 n && covers B.*2 (s + j) || x).
Proof.
  intros HN. revert A B out. induction fuel as [|fuel IH]; intros A B out I Hs Hn HsN Hok Hlen Hf; [lia|].
  assert (Hnone : (forall j, 0 <= j < n -> covers B.*2 (s + j) = false) ->
    exists out', Done out = Done out' /\ updated out out' (fun j x => in_range j 0 n && covers B.*2 (s + j) || x)).
  { intros Hno. exists out. split; [done|]. eapply updated_ext; [by apply updated_refl|]. intros j x Hj. cbn.
    destruct (in_range j 0 n) eqn:Ej; [|done]. apply in_range_spec in Ej. rewrite Hno by lia. done. }
  destruct B as [|[p e] B]; [by apply Hnone|].
  cbn [get_range_loop fmap list_fmap head fst]. pose proof (ri_tree _ _ _ _ I) as T.
  rewrite (next_ok _ _ _ _ _ T). cbn [obind]. rewrite (deref_ok _ _ p e T) by set_solver. cbn [obind].
  destruct (inv_elem _ _ _ _ p e I) as (? & ? & ?); [set_solver|].
  assert (I' : rb_inv N bp al ((A ++ [(p, e)]) ++ B)) by (rewrite <- app_assoc; done). cbn in Hf.
  rewrite (u64_small (s + n)), (u64_small (e_start e + e_count e)) by range_lia.
  assert (Hcov : forall i, covers ((p, e) :: B).*2 i = in_range i (e_start e) (e_count e) || covers B.*2 i) by done.
  assert (Hbelow : forall i, i < e_start e -> covers B.*2 i = false).
  { intros i Hi. pose proof (ri_gaps _ _ _ _ I) as Hg. rewrite fmap_app in Hg. apply gaps_app in Hg as [_ Hg].
    cbn in Hg. destruct Hg as (_ & _ & _ & Hg). apply (covers_below _ _ _ i Hg). lia. }
  destruct (Z.leb_spec (s + n) (e_start e)).
  { apply Hnone. intros j Hj. rewrite Hcov, Hbelow, (proj2 (in_range_false _ _ _)) by lia. done. }
  destruct (((e_start e <? s) && (e_start e + e_count e <? s))) eqn:Esk.
  { destruct (IH (A ++ [(p, e)]) B out) as (out' & E & U); [done..|lia|]. exists out'. split; [exact E|].
    eapply updated_ext; [exact U|]. intros j x Hj. cbn beta. rewrite Hcov.
    apply andb_true_iff in Esk as [_ Esk]. apply Z.ltb_lt in Esk.
    rewrite (proj2 (in_range_false (s + j) _ _)) by lia. done. }
  destruct (window N s n e) as (Hw1 & Hw2 & Hw3 & Hw); [lia..|apply andb_false_iff in Esk as [Esk|Esk]; lia|].
  set (pos := if e_start e <? s then s else e_start e) in *.
  set (count1 := if e_start e <? s then _ else e_count e) in *. rewrite u64_small in Hw2, Hw3, Hw by range_lia.
  set (count := if s + n <? _ then _ else count1) in *.
  destruct (fill_bits_ok (S (Z.to_nat count)) (pos - s) count out) as (out1 & -> & U1); [done|lia..|]. cbn [obind].
  pose proof U1 as (Hlen1 & Hok1 & _).
  destruct (IH (A ++ [(p, e)]) B out1) as (out' & E & U); [done..|lia|lia|]. exists out'. split; [exact E|].
  eapply updated_ext; [exact (updated_trans _ _ _ _ _ U1 U)|]. intros j x Hj. cbn beta. rewrite Hw, Hcov.
  destruct (in_range j 0 n); cbn [andb orb]; [|done]. rewrite orb_assoc. f_equal. apply orb_comm.
Qed.

(** The walk begins at an extent behind which all that counts lies. *)
Lemma range_begin N bp al L s : N < 2 ^ 64 -> rb_inv N bp al L -> 0 <= s ->
  exists r A B, descend (cmp_in s) bp (root bp) [] = Done r /\ L = A ++ B /\ left_of s A /\
    match r with inl p => Some p | inr k => parent_of k end = head B.*1.
Proof.
  intros HN I Hs. destruct (descend_in N bp al L s HN I Hs) as (r & E & Hr). exists r. destruct r as [p|k].
  - destruct Hr as (A & e & B & -> & He & _). exists A, ((p, e) :: B). do 2 (split; [done|]). split; [|done].
    apply Forall_forall. intros [q x] Hx. pose proof (ri_gaps _ _ _ _ I) as Hg. rewrite fmap_app in Hg.
    apply gaps_app in Hg as [HgA HgB]. cbn in HgB. apply (list_elem_of_fmap_2 snd) in Hx.
    pose proof (gaps_elem _ _ _ _ HgA Hx). cbn in *. lia.
  - destruct Hr as (A & B & -> & Hb & Ha & HA & HB & _). destruct (parent_of k) as [p|] eqn:Ep.
    + apply parent_ok in Ep. rewrite Hb, Ha in Ep. destruct Ep as [Ep|Ep]; [|exists A, B; done].
      rewrite fmap_last in Ep. destruct (last A) as [[q e]|] eqn:El; [|done]. cbn in Ep. injection Ep as <-.
      apply last_Some in El as [A' ->]. exists A', ((q, e) :: B). rewrite <- app_assoc. do 2 (split; [done|]).
      split; [|done]. unfold left_of in *. rewrite Forall_app in HA. apply HA.
    + apply parent_none in Ep as [_ Eb]. exists A, B. rewrite Eb in Ha. destruct B; done.
Qed.

(** A bitmap with a number in it has a tree. *)
Lemma nonempty_root b bp j : private b = Some bp -> rb_marked b j = true ->
  exists c l p r, root bp = Node c l p r.
Proof.
  intros Hp Hj. unfold rb_marked in Hj. rewrite Hp in Hj. unfold extents in Hj. destruct (root bp); [|by do 4 eexists].
  cbn in Hj. destruct (start b <=? j); done.
Qed.

Lemma rb_get_range_law b al s n out :
  rb_ok (b, al) -> n mod 8 = 0 -> start b <= s -> 0 <= n < 2 ^ 31 ->
  s + n - 1 <= real_end b -> bytes_ok out -> n <= 8 * Z.of_nat (length out) ->
  (exists j, rb_marked b j = true) ->
  exists out', rb_get_bmap_range b s n out = Done (0, out') /\
    updated out out' (fun j x => if in_range j 0 n then rb_marked b (s + j) else x).
Proof.
  intros H Hmod Hs Hn Hr Hok Hlen [j0 Hj0]. rb_open H bp L. pose proof (ri_tree _ _ _ _ I) as T.
  unfold rb_get_bmap_range, get_private. rewrite Hp. cbn [obind].
  destruct (nonempty_root b bp j0) as (c0 & l0 & p0 & r0 & Er); [done..|].
  rewrite Er, <- Er. cbn zeta.
  rewrite u64_small by range_lia.
  destruct (range_begin (room b) bp al L (s - start b)) as (res & A & B & -> & -> & HA & Eb); [unfold room; lia|done|lia|].
  cbn [obind]. rewrite Eb. destruct (range_bytes n) as (Hn8 & -> & Hn88); [lia|done|].
  destruct (store_bytes_ok out 0 (replicate (Z.to_nat (n / 8)) 0)) as (out1 & -> & U1);
    [done|apply Forall_replicate; range_lia|lia|rewrite length_replicate; lia|].
  rewrite length_replicate in U1. cbn [obind]. pose proof U1 as (Hlen1 & Hok1 & _).
  rewrite (size_ok _ _ T).
  destruct (get_range_loop_ok (room b) (S (length (A ++ B))) bp al A B (s - start b) n out1) as (out' & -> & U);
    [unfold room; lia|done|lia|lia|unfold room; lia|done|lia|rewrite length_app; lia|].
  cbn [obind]. eexists. split; [done|]. eapply updated_ext; [exact (updated_trans _ _ _ _ _ U1 U)|].
  intros j x Hj. cbn beta. replace (8 * Z.of_nat (Z.to_nat (n / 8))) with n by lia. rewrite Z.mul_0_r.
  destruct (in_range j 0 n); cbn [andb]; [|done]. rewrite bit_replicate_0, orb_false_r.
  rewrite (rb_marked_covers b bp (A ++ B)) by (done || lia). rewrite fmap_app, covers_app.
  replace (s + j - start b) with (s - start b + j) by lia. rewrite (covers_left_none (s - start b) A) by (done || lia). done.
Qed.

(** ** Searches *)

(** The numbers of the extent [p] holds, and the first one behind it. *)
Lemma extent_run N bp al A p e B : rb_inv N bp al (A ++ (p, e) :: B) ->
  (forall i, e_start e <= i < e_start e + e_count e -> covers (A ++ (p, e) :: B).*2 i = true) /\
  covers (A ++ (p, e) :: B).*2 (e_start e + e_count e) = false.
Proof.
  intros I. pose proof (ri_gaps _ _ _ _ I) as Hg. rewrite fmap_app in *. cbn [fmap list_fmap snd] in *.
  apply gaps_app in Hg as [HgA HgB]. cbn [gaps] in HgB. destruct HgB as (? & ? & ? & HgB).
  split; [intros i Hi|]; rewrite covers_app, covers_cons.
  - rewrite (proj2 (in_range_spec i _ _)) by lia. rewrite orb_true_r. done.
  - rewrite (covers_above _ _ _ _ HgA), (covers_below _ _ _ _ HgB) by lia.
    rewrite (proj2 (in_range_false _ _ _)) by lia. done.
Qed.

Lemma rb_find_zero_law b al s e : rb_ok (b, al) -> start b <= s <= e -> e <= real_end b ->
  (exists j, rb_marked b j = true) ->
  rb_find_first_zero b s e = Done (search ENOENT (fun j => negb (rb_marked b j)) s e).
Proof.
  intros H Hs He [j0 Hj0]. rb_open H bp L. pose proof (ri_tree _ _ _ _ I) as T.
  unfold rb_find_first_zero, get_private. rewrite Hp. cbn [obind]. rewrite !(u64_small (_ - start b)) by range_lia.
  destruct (Z.ltb_spec (e - start b) (s - start b)); [lia|]. destruct (nonempty_root b bp j0) as (c0 & l0 & p0 & r0 & Er); [done..|].
  rewrite Er, <- Er. cbn zeta.
  assert (Hm : forall j, start b <= j -> rb_marked b j = covers L.*2 (j - start b))
    by (intros j Hj; apply (rb_marked_covers b bp L); done).
  destruct (descend_in (room b) bp al L (s - start b)) as (r & -> & Hr); [unfold room; lia|done|lia|]. cbn [obind].
  destruct r as [p|k].
  - destruct Hr as (A & x & B & -> & Hx & _). rewrite (deref_ok _ _ p x T) by set_solver. cbn [obind].
    destruct (inv_elem _ _ _ _ p x I) as (? & ? & ?); [set_solver|]. destruct (extent_run _ _ _ _ _ _ _ I) as [Hrun Hend].
    rewrite (e_end_ok x (room b)) by (unfold room in *; lia).
    destruct (Z.leb_spec (e_start x + e_count x) (e - start b)).
    + rewrite u64_small by range_lia. f_equal. symmetry. apply search_found; [lia|rewrite Hm by lia|].
      * replace (e_start x + e_count x + start b - start b) with (e_start x + e_count x) by lia. rewrite Hend. done.
      * intros j Hj. rewrite Hm, Hrun by lia. done.
    + f_equal. symmetry. apply search_none. intros j Hj. rewrite Hm, Hrun by lia. done.
  - destruct Hr as (A & B & _ & _ & _ & _ & _ & Hno). rewrite u64_small by range_lia. f_equal. symmetry.
    replace (s - start b + start b) with s by lia. apply search_found; [lia|rewrite Hm, Hno by lia; done|lia].
Qed.

Lemma rb_find_set_law b al s e : rb_ok (b, al) -> start b <= s <= e -> e <= real_end b ->
  rb_find_first_set b s e = Done (search ENOENT (rb_marked b) s e).
Proof.
  intros H Hs He. rb_open H bp L. pose proof (ri_tree _ _ _ _ I) as T.
  unfold rb_find_first_set, get_private. rewrite Hp. cbn [obind]. rewrite !(u64_small (_ - start b)) by range_lia.
  destruct (Z.ltb_spec (e - start b) (s - start b)); [lia|].
  assert (Hm : forall j, start b <= j -> rb_marked b j = covers L.*2 (j - start b))
    by (intros j Hj; apply (rb_marked_covers b bp L); done).
  destruct (root bp) as [|c l p r] eqn:Er.
  { pose proof (ti_order _ _ T) as Ho. rewrite Er in Ho. destruct L; [|done]. f_equal. symmetry. apply search_none.
    intros j Hj. rewrite Hm by lia. done. }
  rewrite <- Er. cbn zeta.
  destruct (descend_in (room b) bp al L (s - start b)) as (res & -> & Hr); [unfold room; lia|done|lia|]. cbn [obind].
  destruct res as [q|k].
  { destruct Hr as (A & x & B & _ & _ & Hc). rewrite u64_small by range_lia. f_equal. symmetry.
    replace (s - start b + start b) with s by lia. apply search_found; [lia|rewrite Hm by lia; done|lia]. }
  destruct Hr as (A & B & -> & Hb & Ha & HA & HB & _).
  assert (Hfin : match head B.*1 with
    | Some p => let* x := deref bp p in
        if e_start x <=? e - start b then Done (0, Some (u64 (e_start x + start b))) else Done (ENOENT, None)
    | None => Done (ENOENT, None) end = Done (search ENOENT (rb_marked b) s e)).
  { assert (HmB : forall j, s <= j -> rb_marked b j = covers B.*2 (j - start b)).
    { intros j Hj. rewrite Hm, fmap_app, covers_app, (covers_left_none (s - start b) A) by (done || lia). done. }
    destruct (head B.*1) as [q|] eqn:Eh.
    - destruct (right_step (room b) bp al A B (s - start b) q) as (x & B' & HBq & _ & -> & _ & ? & ? & ? & Hno);
        [unfold room; lia|done..|]. cbn [obind]. destruct (Z.leb_spec (e_start x) (e - start b)).
      + rewrite u64_small by range_lia. f_equal. symmetry. apply search_found; [lia|rewrite HmB, HBq by lia|].
        * rewrite fmap_cons, covers_cons. cbn [snd].
          rewrite (proj2 (in_range_spec (e_start x + start b - start b) _ _)) by lia. done.
        * intros j Hj. rewrite HmB by lia. apply Hno. lia.
      + f_equal. symmetry. apply search_none. intros j Hj. rewrite HmB by lia. apply Hno. lia.
    - destruct B as [|[? ?] ?]; [|done]. f_equal. symmetry. apply search_none. intros j Hj. rewrite HmB by lia. done. }
  destruct (parent_of k) as [q|] eqn:Ep.
  - apply parent_ok in Ep. rewrite Hb, Ha in Ep. destruct Ep as [Ep|Ep].
    + destruct (left_step (room b) bp al A B (s - start b) q) as (x & E1 & -> & _ & ? & ? & ?); [unfold room; lia|done..|].
      cbn [obind]. destruct (Z.ltb_spec (e_start x) (s - start b)); [|lia]. rewrite E1. cbn [obind]. exact Hfin.
    + destruct (right_step (room b) bp al A B (s - start b) q) as (x & B' & _ & _ & E2 & _ & ? & ? & ? & _);
        [unfold room; lia|done..|]. rewrite E2. cbn [obind].
      destruct (Z.ltb_spec (e_start x) (s - start b)); [lia|]. cbn [obind]. rewrite Ep in Hfin. exact Hfin.
  - apply parent_none in Ep as [E1 E2]. rewrite E1 in Hb. rewrite E2 in Ha. pose proof (ti_order _ _ T) as Ho.
    rewrite Er in Ho. destruct A, B; try done. cbn in Ho. destruct (inorder l); done.
Qed.

#[export] Program Instance rbtree_laws : BitmapLaws rb_private := {
  ok := rb_ok;
  marked := rb_marked;
  ok_later := rb_later;
  ok_end := rb_ok_end;
  marked_inside := rb_marked_inside;
  new_law := rb_new_law;
  mark_law := rb_mark_law;
  unmark_law := rb_unmark_law;
  test_law := rb_test_law;
  mark_extent_law := rb_mark_extent_law;
  unmark_extent_law := rb_unmark_extent_law;
  test_clear_law := rb_test_clear_law;
  clear_law := rb_clear_law;
  copy_law := rb_copy_law }.
Next Obligation. intros b al (Hh & Hal & _). done. Qed.
Next Obligation. intros b al e re H He Hre Hre2 _. apply rb_resize_law; done. Qed.
Next Obligation.
  intros b al s n inp H _ _ Hmod Hs Hn Hr Hok Hlen Hclear.
  destruct (rb_set_range_law b al s n inp) as (b' & al' & E & Hok' & Hsh & Hl & Hm); [done..|].
  exists b', al'. do 4 (split; [done|]). intros j. rewrite Hm. unfold upto.
  replace (in_range (j - s) 0 n) with (in_range j s n) by (apply eq_true_iff_eq; rewrite !in_range_spec; lia).
  destruct (in_range j s n) eqn:Ej; [|done]. apply in_range_spec in Ej. rewrite Hclear, orb_false_r by lia. done.
Qed.
Next Obligation. intros b al s n out H _ _ ? ? ? ? ? ? ?. apply (rb_get_range_law b al); done. Qed.
Next Obligation. intros f b al s e [= <-] H Hs He Hex. apply (rb_find_zero_law b al); done. Qed.
Next Obligation. intros f b al s e [= <-] H Hs He. apply (rb_find_set_law b al); done. Qed.
