(* ===== verification/BitmapProperties.v ===== *)
(** What the bitmaps promise to the rest of the library, whatever back end
    [ext2fs_alloc_generic_bmap] chooses: they are sets of clusters. *)

From S2P Require Import Prelude Bitops Bitmap32 Bitmap64 GenBitmap BitmapRefine BitArray RbTree RbBitmap RbBitmapLaws.

Local Open Scope Z_scope.

(** * The choice of the back end *)

Definition EXT2FS_BMAP64_BITARRAY : Z := 1.
Definition EXT2FS_BMAP64_RBTREE : Z := 2.
Definition EXT2FS_BMAP64_AUTODIR : Z := 3.

(** The sum of [ext2fs_get_num_dirs]; [used] gives [bg_used_dirs_count] of a group. *)
Fixpoint sum_dirs (n : nat) (i max_dirs : Z) (used : Z -> Z) (num_dirs : Z) : Z :=
  match n with
  | O => num_dirs
  | S n => sum_dirs n (i + 1) max_dirs used
             (u32 (num_dirs + (if max_dirs <? used i then max_dirs / 8 else used i)))
  end.

Definition ext2fs_get_num_dirs (fs : filsys) (used : Z -> Z) : Z * option Z :=
  if negb (fs_magic fs =? EXT2_ET_MAGIC_EXT2FS_FILSYS) then (EXT2_ET_MAGIC_EXT2FS_FILSYS, None)
  else
    let num_dirs := sum_dirs (Z.to_nat (group_desc_count fs)) 0 (s_inodes_per_group fs) used 0 in
    (0, Some (if s_inodes_count fs <? num_dirs then s_inodes_count fs else num_dirs)).

Inductive bitmap_ops := ext2fs_blkmap64_ba | ext2fs_blkmap64_rb.

(** [switch (type)] of [ext2fs_alloc_generic_bmap] *)
Definition choose_ops (fs : filsys) (used : Z -> Z) (type : Z) : option bitmap_ops :=
  let type := if type =? 0 then EXT2FS_BMAP64_BITARRAY else type in
  if type =? EXT2FS_BMAP64_BITARRAY then Some ext2fs_blkmap64_ba
  else if type =? EXT2FS_BMAP64_RBTREE then Some ext2fs_blkmap64_rb
  else if type =? EXT2FS_BMAP64_AUTODIR then
    match ext2fs_get_num_dirs fs used with
    | (_, Some num_dirs) =>
        Some (if s_inodes_count fs / 320 <? num_dirs then ext2fs_blkmap64_ba else ext2fs_blkmap64_rb)
    | (_, None) => Some ext2fs_blkmap64_ba
    end
  else None.

(** A bitmap with the operations it was given. *)
Inductive any_bitmap :=
| WithArray (s : gst ba_private)
| WithTree (s : gst rb_private).

Definition alloc_generic_bmap (fs : filsys) (used : Z -> Z) (al : allocator) (mg type st en re : Z)
    (descr : option string) : outcome (Z * option any_bitmap) :=
  match choose_ops fs used type with
  | None => Done (EINVAL, None)
  | Some ext2fs_blkmap64_ba =>
      let* (r, s) := ext2fs_alloc_generic_bmap fs al mg st en re descr in Done (r, Some (WithArray s))
  | Some ext2fs_blkmap64_rb =>
      let* (r, s) := ext2fs_alloc_generic_bmap fs al mg st en re descr in Done (r, Some (WithTree s))
  end.

Definition run_any (cs : list cmd) (b : any_bitmap) : outcome (list answer) :=
  match b with WithArray s => impl_run cs s | WithTree s => impl_run cs s end.

(** The set a new bitmap is. *)
Definition empty_set (fs : filsys) (mg st en re : Z) : spec :=
  mk_spec st en re (if mg =? EXT2_ET_MAGIC_BLOCK_BITMAP64 then cluster_ratio_bits fs else 0) (fun _ => false).

Definition is_64 (mg : Z) : Prop := EXT2FS_IS_32_BITMAP mg = false /\ EXT2FS_IS_64_BITMAP mg = true.

(** * New bitmaps *)

Lemma alloc_rel {P} `{BitmapLaws P} fs al mg st en re descr :
  no_oom al -> is_64 mg -> 0 <= cluster_ratio_bits fs < 32 -> 0 <= st <= en -> en <= re -> re < 2 ^ 64 - 1 ->
  exists s : gst P, ext2fs_alloc_generic_bmap fs al mg st en re descr = Done (0, s) /\
    rel s (empty_set fs mg st en re) /\ no_oom (snd s) /\ later al (snd s).
Proof.
  intros Hal Hmg Hcr Hst Hen Hre. unfold ext2fs_alloc_generic_bmap. rewrite mem_malloc_ok by done.
  assert (Hd : exists p al', match descr with Some _ => malloc (bump al) | None => (Some 0, bump al) end = (Some p, al') /\
    no_oom al' /\ later al al').
  { destruct descr; [rewrite mem_malloc_ok by done|]; do 2 eexists; (split; [done|split; [done|]]); [|apply later_bump].
    apply (mem_later_trans al (bump al)); apply later_bump. }
  destruct Hd as (p & al1 & -> & Hal1 & Hlat).
  match goal with |- context [new_bmap (?b, al1)] => destruct (new_law b al1) as (b' & al' & -> & Hok & Hsh & Hl & Hm) end;
    [done|done|done|]. cbn [obind negb Z.eqb]. eexists. split; [done|].
  split; [|split; [by apply (mem_no_oom_later al1)|by apply (mem_later_trans al al1)]].
  exists b'. split; [done|]. destruct Hsh as (Em & Es & Ee & Er & Ec & _). cbn in *.
  constructor; cbn; rewrite ?Em; try done. destruct (mg =? _); [done|lia].
Qed.

(** C3: a bitmap made by ext2fs_alloc_generic_bmap, with whichever back end the type
    and the number of directories select, is a set of clusters: there is memory,
    and a sequence of marks, unmarks, tests, ranges, searches, clears and resizes
    that stays within [allowed_run] runs to its end, touches no memory that is not
    there, and gives the answers of the set, the error codes of operations on
    numbers outside of the bitmap included.  [allowed_run] asks for block numbers
    of 64 bits, ranges of 1 to 2^32 - 1 blocks that end at least 2^32 below 2^64,
    a search for a free block only while some cluster is in use (the tree finds
    none in an empty bitmap), and new ends in order, below 2^64 - 1, that leave
    whole bytes where the bitmap shrinks.  The value unmark returns is not
    compared, since the back ends return different ones. *)
Theorem bitmap_refines_set fs used al mg type st en re descr cs :
  no_oom al -> is_64 mg -> 0 <= cluster_ratio_bits fs < 32 -> 0 <= type <= 3 ->
  0 <= st <= en -> en <= re -> re < 2 ^ 64 - 1 -> allowed_run cs (empty_set fs mg st en re) ->
  exists b, alloc_generic_bmap fs used al mg type st en re descr = Done (0, Some b) /\
    run_any cs b = Done (spec_run cs (empty_set fs mg st en re)).
Proof.
  intros Hal Hmg Hcr Hty Hst Hen Hre Hall.
  assert (Hops : exists o, choose_ops fs used type = Some o).
  { unfold choose_ops. destruct (Z.eqb_spec type 0); [by eexists|].
    destruct (Z.eqb_spec type EXT2FS_BMAP64_BITARRAY); [by eexists|].
    destruct (Z.eqb_spec type EXT2FS_BMAP64_RBTREE); [by eexists|].
    destruct (Z.eqb_spec type EXT2FS_BMAP64_AUTODIR);
      [|unfold EXT2FS_BMAP64_BITARRAY, EXT2FS_BMAP64_RBTREE, EXT2FS_BMAP64_AUTODIR in *; lia].
    destruct (ext2fs_get_num_dirs fs used) as [? [?|]]; by eexists. }
  destruct Hops as [o Ho]. unfold alloc_generic_bmap. rewrite Ho. destruct o.
  - destruct (alloc_rel (P := ba_private) fs al mg st en re descr) as (s & -> & Hr & _); [done..|].
    eexists. split; [done|]. apply impl_run_ok; done.
  - destruct (alloc_rel (P := rb_private) fs al mg st en re descr) as (s & -> & Hr & _); [done..|].
    eexists. split; [done|]. apply impl_run_ok; done.
Qed.

(** Clusters of four blocks, numbers that are not aligned, a search and a size that
    shrinks and grows. *)
Definition demo_fs : filsys := mk_fs EXT2_ET_MAGIC_EXT2FS_FILSYS EXT2_FLAG_64BITS 2 0 400 0 0 0 0 0.
Definition demo_al : allocator := mk_alloc 1000 (fun _ => false).
Definition demo_cmds : list cmd :=
  [CMark 21; CTest 23; CMarkRange 37 10; CTestRange 24 12; CFindZero 36 399; CUnmark 22; CFindSet 0 399;
   CResize 10 15; CTest 46; CResize 99 103; CTest 46; CClear; CTest 37].

Lemma bitmap_refines_set_witness :
  exists b, alloc_generic_bmap demo_fs (fun _ => 0) demo_al EXT2_ET_MAGIC_BLOCK_BITMAP64 3 0 99 103 (Some "blocks"%string)
    = Done (0, Some b) /\
  run_any demo_cmds b =
    Done [ABool false; ABool true; ANone; ACode 1; AFound (0, Some 48); ANone; AFound (0, Some 36);
          ACode 0; ABool false; ACode 0; ABool false; ANone; ABool false].
Proof.
  apply (bitmap_refines_set demo_fs (fun _ => 0) demo_al EXT2_ET_MAGIC_BLOCK_BITMAP64 3 0 99 103 (Some "blocks"%string) demo_cmds);
    [done|done|vm_compute; done|lia|lia|lia|lia|].
  cbn [allowed_run demo_cmds snd spec_step]. repeat split; try (vm_compute; done).
  - exists 5. done.
  - right. done.
  - left. vm_compute. done.
Defined.

(** * Copies, and bytes in and out *)

(** ext2fs_copy_generic_bmap makes a second bitmap that stands for the same set,
    without a change to the first; from then on each answers on its own. *)
Theorem copy_generic_correct {P} `{BitmapLaws P} (s : gst P) sp :
  rel s sp ->
  exists s' g, ext2fs_copy_generic_bmap s = Done (0, s', g) /\ rel s' sp /\ rel (g, snd s') sp /\
    forall cs, allowed_run cs sp ->
      impl_run cs s' = Done (spec_run cs sp) /\ impl_run cs (g, snd s') = Done (spec_run cs sp).
Proof.
  destruct s as [g0 al]. intros (b & Hb & R). cbn in Hb, R. subst g0. unfold ext2fs_copy_generic_bmap.
  rewrite (dispatch_64 b al sp) by done. destruct (ok_header b al (rep_ok _ _ _ R)) as [_ Hal]. rewrite mem_malloc_ok by done.
  assert (Hd : exists p al', match description b with Some _ => malloc (bump al) | None => (Some 0, bump al) end = (Some p, al') /\
    later al al').
  { destruct (description b); [rewrite mem_malloc_ok by done|]; do 2 eexists; (split; [done|]);
      [apply (mem_later_trans _ (bump al))|]; apply later_bump. }
  destruct Hd as (p & al1 & -> & Hl1).
  match goal with |- context [copy_bmap b (?d, al1)] => set (d0 := d) end.
  destruct (copy_law b d0 al1) as (b' & d' & al' & -> & Hb' & Hd' & Hshb & Hshd & Hl & Hm);
    [apply (ok_later b al); [apply (rep_ok _ _ _ R)|done]|repeat split|done|]. cbn [obind negb Z.eqb].
  assert (Rb : rel (Gen64 b', al') sp).
  { destruct sp. apply (represents_step b al _ b' al' _ R); try done. cbn. intros c Hc. rewrite (proj1 (Hm c)).
    apply (rep_used _ _ _ R). done. }
  assert (Rd : rel (Gen64 d', al') sp).
  { exists d'. split; [done|]. destruct Hshd as (Em & Es & Ee & Er & Ec & _). cbn in *.
    destruct R as [Hmg Ho Hs He Ht Hc Hcr Hu]. constructor; cbn; rewrite ?Em; try done; try congruence.
    intros c Hcc. rewrite (proj2 (Hm c)). apply Hu. done. }
  do 2 eexists. split; [done|]. do 2 (split; [done|]). intros cs Hcs. split; apply impl_run_ok; done.
Qed.

Lemma copy_generic_correct_witness :
  exists s : gst rb_private, rel s (mk_spec 3 40 47 0 (fun _ => false)) /\
    exists s' g, ext2fs_copy_generic_bmap s = Done (0, s', g) /\ rel (g, snd s') (mk_spec 3 40 47 0 (fun _ => false)).
Proof.
  destruct (alloc_rel (P := rb_private) demo_fs demo_al EXT2_ET_MAGIC_INODE_BITMAP64 3 40 47 (Some "inodes"%string))
    as (s & _ & Hr & _); [done|done|vm_compute; done|lia|lia|lia|].
  exists s. split; [exact Hr|].
  destruct (copy_generic_correct s _ Hr) as (s' & g & E & _ & Hg & _). exists s', g. split; [exact E|exact Hg].
Defined.

(** C24: the bytes that ext2fs_get_generic_bmap_range takes out of a bitmap, given to
    ext2fs_set_generic_bmap_range of another one, which may have the other back
    end, make it hold the same numbers in the range; the rest of it and the bytes
    behind the range stay.  Both bitmaps begin below 8, the range lies in both, it
    begins a multiple of 8 behind the start of each and its length is a multiple
    of 8 below 2^31, the buffer is long enough, the bitmap that is read is not
    empty (an empty tree leaves the buffer as it was), and the other one is clear
    in the range (the tree adds to what it holds). *)
Theorem bitmap_bytes_roundtrip {P} `{BitmapLaws P} {Q} `{BitmapLaws Q} (s : gst P) (d : gst Q) sp sq st n buf :
  rel s sp -> rel d sq ->
  lo sp < 8 -> lo sq < 8 -> (st - lo sp) mod 8 = 0 -> (st - lo sq) mod 8 = 0 -> n mod 8 = 0 -> 0 <= n < 2 ^ 31 ->
  lo sp <= st -> lo sq <= st -> st + n - 1 <= hi sp -> st + n - 1 <= hi sq ->
  bytes_ok buf -> n <= 8 * Z.of_nat (length buf) ->
  (exists c, has_cluster sp c = true /\ used sp c = true) ->
  (forall j, st <= j < st + n -> used sq j = false) ->
  exists buf' d', ext2fs_get_generic_bmap_range (fst s) st n buf = Done (0, buf') /\
    (forall j, n <= j -> bit buf' j = bit buf j) /\
    ext2fs_set_generic_bmap_range d st n buf' = Done (0, d') /\
    rel d' (with_used sq (fun j => if in_range j st n then used sp j else used sq j)).
Proof.
  destruct s as [g al], d as [g2 al2]. intros (b & Eg & R) (b2 & Eg2 & R2) Hlo Hlo2 Hm1 Hm2 Hn Hn32 Hst Hst2 Hhi Hhi2 Hbuf Hlen
    (c & Hc & Huse) Hclear. cbn in *. subst g g2.
  pose proof (represents_bounds _ _ _ R). pose proof (represents_bounds _ _ _ R2).
  unfold ext2fs_get_generic_bmap_range. rewrite (dispatch_64 b al sp) by done.
  destruct (get_range_law b al st n buf) as (buf' & E & U);
    [apply (rep_ok _ _ _ R)|rewrite ?(rep_start _ _ _ R), ?(rep_top _ _ _ R); lia || done..| |].
  { exists c. rewrite (rep_used _ _ _ R); [done|]. apply has_cluster_spec in Hc. lia. }
  destruct U as (Hl & Hok & Hbits).
  destruct (set_range_law b2 al2 st n buf') as (b2' & al2' & E2 & Hok2 & Hsh2 & _ & Hm);
    [apply (rep_ok _ _ _ R2)|rewrite ?(rep_start _ _ _ R2), ?(rep_top _ _ _ R2); lia || done..| |].
  { intros j Hj. rewrite (rep_used _ _ _ R2) by lia. by apply Hclear. }
  assert (E3 : ext2fs_set_generic_bmap_range (Gen64 b2, al2) st n buf' = Done (0, (Gen64 b2', al2'))).
  { unfold ext2fs_set_generic_bmap_range. rewrite (dispatch_64 b2 al2 sq), E2 by done. done. }
  exists buf', (Gen64 b2', al2'). split; [done|]. split; [|split; [done|]].
  { intros j Hj. rewrite Hbits, (proj2 (in_range_false j 0 n)) by lia. done. }
  apply (represents_step b2 al2); try done. intros j Hj. rewrite Hm. destruct (in_range j st n) eqn:Ej.
  - apply in_range_spec in Ej. rewrite Hbits by lia. rewrite (proj2 (in_range_spec (j - st) 0 n)) by lia.
    replace (st + (j - st)) with j by lia. apply (rep_used _ _ _ R). lia.
  - apply (rep_used _ _ _ R2). done.
Qed.

(** Two numbers go from a tree into an array. *)
Definition demo_tree : gst rb_private :=
  match ext2fs_alloc_generic_bmap demo_fs demo_al EXT2_ET_MAGIC_INODE_BITMAP64 1 40 47 None with
  | Done (_, s) => match ext2fs_mark_generic_bmap s 9 with Done (_, s) => s | _ => s end
  | _ => (GenNull, demo_al)
  end.
Definition demo_array : gst ba_private :=
  match ext2fs_alloc_generic_bmap demo_fs demo_al EXT2_ET_MAGIC_INODE_BITMAP64 1 40 47 None with
  | Done (_, s) => s
  | _ => (GenNull, demo_al)
  end.

Lemma bitmap_bytes_roundtrip_witness :
  exists buf' d',
    ext2fs_get_generic_bmap_range (fst demo_tree) 9 16 [7; 7; 7] = Done (0, buf') /\ buf' = [1; 0; 7] /\
    ext2fs_set_generic_bmap_range demo_array 9 16 buf' = Done (0, d') /\
    rel d' (with_used (mk_spec 1 40 47 0 (fun _ => false))
              (fun j => if in_range j 9 16 then j =? 9 else false)).
Proof.
  destruct (alloc_rel (P := ba_private) demo_fs demo_al EXT2_ET_MAGIC_INODE_BITMAP64 1 40 47 None)
    as (sa & Ea & Ra & _); [done|done|vm_compute; done|lia|lia|lia|].
  destruct (alloc_rel (P := rb_private) demo_fs demo_al EXT2_ET_MAGIC_INODE_BITMAP64 1 40 47 None)
    as (sr & Er & Rr & _); [done|done|vm_compute; done|lia|lia|lia|].
  assert (R : rel demo_tree (mk_spec 1 40 47 0 (fun c => (c =? 9) || false))).
  { destruct (impl_step_ok (CMark 9) sr _ Rr) as (s' & E & R' & _); [vm_compute; done|].
    unfold demo_tree. rewrite Er. cbn [impl_step] in E. destruct sr as [g al].
    apply obind_Done in E as ([r s1] & E1 & E2). rewrite E1.
    injection E2 as _ E2. subst s1. exact R'. }
  assert (Ra' : rel demo_array (mk_spec 1 40 47 0 (fun _ => false))) by (unfold demo_array; rewrite Ea; exact Ra).
  destruct (bitmap_bytes_roundtrip demo_tree demo_array _ _ 9 16 [7; 7; 7] R Ra') as (buf' & d' & E1 & _ & E2 & R3);
    try (cbn; lia); try done; [repeat constructor; range_lia|exists 9; done|].
  exists buf', d'. split; [exact E1|]. split; [vm_compute in E1; injection E1 as <-; done|]. split; [exact E2|].
  destruct R3 as (b & Hb & [Hmg Ho Hs He Ht Hc Hcr Hu]). exists b. split; [exact Hb|]. constructor; try done.
  intros c Hc'. rewrite Hu by done. cbn. rewrite orb_false_r. done.
Defined.

(** [nbytes << 3] is computed in an [int]: for an extent of 2^32 numbers it is
    0, and the loop that copies the extent out never ends. *)
Lemma fill_bits_never_ends fuel out : 2 ^ 29 <= Z.of_nat (length out) -> fill_bits fuel 0 (2 ^ 32) out = Crash OutOfFuel.
Proof.
  revert out. induction fuel as [|fuel IH]; intros out Hl; [done|]. cbn [fill_bits].
  change (0 <? 2 ^ 32) with true. change ((8 <=? 2 ^ 32) && (0 mod 8 =? 0)) with true. cbv beta iota zeta.
  change (s32 (Z.shiftr (2 ^ 32) 3)) with (2 ^ 29). change (s32 (Z.shiftl (2 ^ 29) 3)) with 0. change (s32 (Z.shiftr 0 3)) with 0.
  change (u64 (2 ^ 29)) with (2 ^ 29). change (u64 (0 + 0)) with 0. change (u64 (2 ^ 32 - 0)) with (2 ^ 32).
  set (bs := replicate _ _). assert (Hb : Z.of_nat (length bs) = 2 ^ 29) by (unfold bs; rewrite length_replicate; apply Z2Nat.id; lia).
  clearbody bs. unfold store_bytes. rewrite (proj2 (Z.leb_le (0 + Z.of_nat (length bs)) _)) by lia. cbn [Z.leb Z.compare andb obind].
  apply IH. rewrite length_splice; [done|]. change (Z.to_nat 0) with 0%nat. lia.
Qed.

(** * Counting *)

(** The numbers from [c] to [en] that [f] holds for. *)
Definition count_in (f : Z -> bool) (c en : Z) : Z := count_bits f c (Z.to_nat (en - c + 1)).

(** [ext2fs_count_used_clusters] stops one short: a used last block is left out
    when the block in front of it ends a run. *)
Definition missed (f : Z -> bool) (c en : Z) : bool :=
  (c <=? en - 2) && f (en - 2) && negb (f (en - 1)) && f en.

Lemma count_in_split f c m en : c <= m -> m <= en + 1 -> count_in f c en = count_in f c (m - 1) + count_in f m en.
Proof.
  intros. unfold count_in. replace (Z.to_nat (en - c + 1)) with (Z.to_nat (m - 1 - c + 1) + Z.to_nat (en - m + 1))%nat by lia.
  rewrite count_bits_app. f_equal. f_equal. lia.
Qed.

Lemma count_in_all f c en v : c <= en + 1 -> (forall j, c <= j <= en -> f j = v) ->
  count_in f c en = if v then en - c + 1 else 0.
Proof.
  intros Hc Hf. unfold count_in. rewrite (count_bits_ext f (fun _ => v) c c) by (intros; apply Hf; lia).
  assert (E : forall n s, count_bits (fun _ => v) s n = if v then Z.of_nat n else 0).
  { induction n as [|n IH]; intros s; cbn [count_bits]; [destruct v; done|]. rewrite IH. destruct v; lia. }
  rewrite E. destruct v; lia.
Qed.

Lemma count_in_range f c en : c <= en + 1 -> 0 <= count_in f c en <= en - c + 1.
Proof. intros. unfold count_in. pose proof (count_bits_range f c (Z.to_nat (en - c + 1))). lia. Qed.

Section count.
Context {P : Type} `{BitmapLaws P} (b : bmap64 P) (al : allocator) (sp : spec) (R : represents b al sp) (en : Z).
Context (Hen : is_u64 en) (Hlast : en < 2 ^ 64 - 1) (Hhi : cluster sp en <= hi sp).

Let f : Z -> bool := in_use sp.

(** The two searches, on blocks that are there. *)
Lemma find_set_block c : is_u64 c -> lo sp <= cluster sp c -> c <= en ->
  ext2fs_find_first_set_generic_bmap (Gen64 b) c en = Done (search ENOENT f c en).
Proof using R Hen Hhi.
  intros Hc Hlo Hle. destruct (find_set_step b al sp c en R (conj Hc Hen)) as (s' & E & _). cbn [impl_step spec_step fst] in E.
  destruct (Z.leb_spec (lo sp) (cluster sp c)); [|lia]. destruct (Z.leb_spec (cluster sp en) (hi sp)); [|lia].
  destruct (Z.leb_spec c en); [|lia]. cbn [andb] in E.
  apply obind_Done in E as (r & E1 & E2). rewrite E1. injection E2 as E2 _. rewrite E2. done.
Qed.

Lemma find_zero_block c : is_u64 c -> lo sp <= cluster sp c -> c <= en -> f c = true ->
  ext2fs_find_first_zero_generic_bmap (Gen64 b) c en = Done (search ENOENT (fun j => negb (f j)) c en).
Proof using R Hen Hhi.
  intros Hc Hlo Hle Hf. assert (Hal : allowed (CFindZero c en) sp).
  { split; [done|]. split; [done|]. exists (cluster sp c). unfold f, in_use in Hf. by apply andb_true_iff in Hf. }
  destruct (find_zero_step b al sp c en R Hal) as (s' & E & _). cbn [impl_step spec_step fst] in E.
  destruct (Z.leb_spec (lo sp) (cluster sp c)); [|lia]. destruct (Z.leb_spec (cluster sp en) (hi sp)); [|lia].
  destruct (Z.leb_spec c en); [|lia]. cbn [andb] in E.
  apply obind_Done in E as (r & E1 & E2). rewrite E1. injection E2 as E2 _. rewrite E2. done.
Qed.

Lemma cluster_mono x y : 0 <= x <= y -> cluster sp x <= cluster sp y.
Proof using R.
  intros. pose proof (rep_cb_range _ _ _ R). unfold cluster. rewrite !Z.shiftr_div_pow2 by lia. apply Z.div_le_mono; lia.
Qed.

(** A search with its result, as cases. *)
Lemma search_cases (g : Z -> bool) c :
  (exists j, search ENOENT g c en = (0, Some j) /\ c <= j <= en /\ g j = true /\ forall k, c <= k < j -> g k = false) \/
  (search ENOENT g c en = (ENOENT, None) /\ forall k, c <= k <= en -> g k = false).
Proof using.
  unfold search. destruct (first_from g (Z.to_nat (en - c + 1)) c) as [j|] eqn:E.
  - left. exists j. split; [done|]. apply first_from_Some in E as (? & ? & ?). split; [lia|]. done.
  - right. split; [done|]. intros k Hk. apply (proj1 (first_from_None _ _ _) E). lia.
Qed.

Lemma count_loop_ok fuel c tot rv :
  0 <= c -> lo sp <= cluster sp c -> c < en -> 0 <= tot -> tot + (en - c + 1) < 2 ^ 64 -> (Z.to_nat (en - c) < fuel)%nat ->
  count_loop fuel (Gen64 b) c en tot rv =
    Done (Some 0, tot + count_in f c en - (if missed f c en then 1 else 0)).
Proof using R Hen Hhi Hlast.
  revert c tot rv. induction fuel as [|fuel IH]; intros c tot rv Hc Hlo Hlt Htot Hb Hf; [lia|]. cbn [count_loop].
  destruct (Z.ltb_spec c en); [|lia]. rewrite find_set_block by (done || range_lia).
  destruct (search_cases f c) as [(s1 & -> & Hs1 & Ef1 & Hno)|[-> Hno]]; cbn [obind].
  2: { unfold ENOENT. cbn [Z.eqb]. rewrite (count_in_all f c en false) by (lia || done). unfold missed.
       rewrite (Hno en), !andb_false_r by lia. do 2 f_equal. lia. }
  pose proof (cluster_mono c s1 ltac:(lia)). rewrite find_zero_block by (done || range_lia).
  rewrite (count_in_split f c s1 en), (count_in_all f c (s1 - 1) false) by (lia || (intros; apply Hno; lia)).
  destruct (search_cases (fun j => negb (f j)) s1) as [(z & -> & Hz & Efz & Hyes)|[-> Hyes]]; cbn [obind].
  2: { cbn [Z.eqb]. assert (Hall : forall j, s1 <= j <= en -> f j = true)
         by (intros j Hj; specialize (Hyes j Hj); destruct (f j); done).
       rewrite (count_in_all f s1 en true) by (lia || done). rewrite u64_small by range_lia.
       assert (missed f c en = false) as ->; [|do 2 f_equal; lia]. unfold missed.
       destruct (Z.eq_dec s1 en) as [->|]; [|rewrite (Hall (en - 1)) by lia; rewrite andb_false_r; done].
       destruct (Z.leb_spec c (en - 2)); [|done]. rewrite (Hno (en - 2)) by lia. done. }
  assert (Hall : forall j, s1 <= j <= z - 1 -> f j = true)
    by (intros j Hj; specialize (Hyes j ltac:(lia)); destruct (f j); done).
  assert (Hz1 : s1 < z) by (destruct (Z.eq_dec s1 z) as [->|]; [rewrite Ef1 in Efz; done|lia]).
  apply negb_true_iff in Efz.
  rewrite (count_in_split f s1 z en), (count_in_all f s1 (z - 1) true) by (lia || done).
  rewrite (count_in_split f z (z + 1) en), (count_in_all f z (z + 1 - 1) false)
    by (lia || (intros j Hj; replace j with z by lia; done)).
  pose proof (count_in_range f (z + 1) en ltac:(lia)). pose proof (cluster_mono s1 (z + 1) ltac:(lia)).
  rewrite (u64_small (tot + _)) by range_lia.
  destruct (Z.lt_ge_cases (z + 1) en).
  - rewrite u64_small by range_lia. rewrite IH by lia.
    assert (missed f (z + 1) en = missed f c en) as ->; [|do 2 f_equal; lia]. unfold missed.
    destruct (Z.leb_spec (z + 1) (en - 2)), (Z.leb_spec c (en - 2)); try done; try lia.
    replace (en - 2) with z by lia. rewrite Efz. done.
  - destruct fuel as [|fuel]; [lia|]. cbn [count_loop]. rewrite (u64_small (z + 1)) by range_lia.
    destruct (Z.ltb_spec (z + 1) en); [lia|]. do 2 f_equal.
    destruct (Z.eq_dec z en) as [->|].
    + unfold missed. rewrite Efz, andb_false_r. unfold count_in. replace (Z.to_nat (en - (en + 1) + 1)) with 0%nat by lia.
      cbn. lia.
    + replace z with (en - 1) in * by lia. unfold missed. rewrite Efz, (Hall (en - 2)) by lia.
      destruct (Z.leb_spec c (en - 2)); [|lia]. cbn [andb negb]. replace (en - 1 + 1) with en by lia.
      unfold count_in. replace (Z.to_nat (en - en + 1)) with 1%nat by lia. cbn. destruct (f en); lia.
Qed.
End count.

(** ext2fs_count_used_clusters returns the number of used blocks from start to end,
    in clusters, except that the block end is not counted when it is used, the
    block in front of it is free and the one in front of that is used. *)
Theorem count_used_clusters_exact {P} `{BitmapLaws P} fs (s : gst P) sp st en :
  rel s sp -> 0 <= st < en -> en < 2 ^ 64 - 1 -> lo sp <= cluster sp st -> cluster sp en <= hi sp ->
  ext2fs_count_used_clusters fs (fst s) st en =
    Done (0, Some (EXT2FS_NUM_B2C fs (count_in (in_use sp) st en - (if missed (in_use sp) st en then 1 else 0)))).
Proof.
  destruct s as [g al]. intros (b & Hb & R) Hst Hen Hlo Hhi. cbn in Hb. subst g. cbn [fst snd] in *.
  unfold ext2fs_count_used_clusters. rewrite (count_loop_ok b al sp R en) by (done || range_lia). done.
Qed.

(** Blocks 1 and 3 are used: of the blocks 0 to 3, one is counted. *)
Definition demo_counted : gst ba_private :=
  match ext2fs_mark_generic_bmap demo_array 1 with
  | Done (_, s) => match ext2fs_mark_generic_bmap s 3 with Done (_, s) => s | _ => s end
  | _ => demo_array
  end.

Lemma count_used_clusters_exact_witness :
  ext2fs_count_used_clusters (mk_fs 0 0 0 0 0 0 0 0 0 0) (fst demo_counted) 1 3 = Done (0, Some 1) /\
  count_in (fun c => (c =? 3) || ((c =? 1) || false)) 1 3 = 2.
Proof.
  split; [|vm_compute; reflexivity].
  destruct (alloc_rel (P := ba_private) demo_fs demo_al EXT2_ET_MAGIC_INODE_BITMAP64 1 40 47 None)
    as (sa & Ea & Ra & _); [done|done|vm_compute; done|lia|lia|lia|].
  assert (R0 : rel demo_array (mk_spec 1 40 47 0 (fun _ => false))) by (unfold demo_array; rewrite Ea; exact Ra).
  assert (R : rel demo_counted (mk_spec 1 40 47 0 (fun c => (c =? 3) || ((c =? 1) || false)))).
  { destruct (impl_step_ok (CMark 1) _ _ R0) as (s1 & E1 & R1 & _); [vm_compute; done|].
    destruct (impl_step_ok (CMark 3) _ _ R1) as (s2 & E2 & R2 & _); [vm_compute; done|].
    unfold demo_counted. destruct demo_array as [g al]. cbn [impl_step] in E1.
    apply obind_Done in E1 as ([r x1] & E1 & Ex1). rewrite E1. injection Ex1 as _ Ex1. subst x1.
    destruct s1 as [g1 al1]. cbn [impl_step] in E2.
    apply obind_Done in E2 as ([r2 x2] & E2 & Ex2). rewrite E2. injection Ex2 as _ Ex2. subst x2. exact R2. }
  rewrite (count_used_clusters_exact (mk_fs 0 0 0 0 0 0 0 0 0 0) demo_counted _ 1 3 R) by (vm_compute; intuition discriminate).
  vm_compute. reflexivity.
Defined.

(** * Behaviour the callers do not expect *)

Definition marks {P} `{BitmapOps P} (l : list Z) (s : gst P) : gst P :=
  fold_left (fun s i => match ext2fs_mark_generic_bmap s i with Done (_, s) => s | _ => s end) l s.

Definition fresh64 {P} `{BitmapOps P} (st en re : Z) : gst P :=
  match ext2fs_alloc_generic_bmap demo_fs demo_al EXT2_ET_MAGIC_INODE_BITMAP64 st en re None with
  | Done (_, s) => s
  | _ => (GenNull, demo_al)
  end.

(** [ext2fs_compare_generic_bmap] looks at the last few numbers only: bitmaps that
    differ in the number 3 compare equal. *)
Example compare_ignores_front :
  ext2fs_compare_generic_bmap 77 (fst (marks (P := ba_private) [3] (fresh64 0 15 15))) (fst (fresh64 0 15 15)) = Done 0.
Proof. vm_compute. reflexivity. Qed.

(** The tree finds no clear number in an empty bitmap; the array does. *)
Example empty_tree_has_no_zero :
  ext2fs_find_first_zero_generic_bmap (fst (fresh64 (P := rb_private) 0 15 15)) 0 15 = Done (ENOENT, None) /\
  ext2fs_find_first_zero_generic_bmap (fst (fresh64 (P := ba_private) 0 15 15)) 0 15 = Done (0, Some 0).
Proof. split; vm_compute; reflexivity. Qed.

(** The tree leaves the caller's buffer as it is when the bitmap is empty. *)
Example empty_tree_keeps_buffer :
  ext2fs_get_generic_bmap_range (fst (fresh64 (P := rb_private) 0 15 15)) 0 16 [170; 85] = Done (0, [170; 85]) /\
  ext2fs_get_generic_bmap_range (fst (fresh64 (P := ba_private) 0 15 15)) 0 16 [170; 85] = Done (0, [0; 0]).
Proof. split; vm_compute; reflexivity. Qed.

(** The tree only ever sets numbers from a buffer; the array takes all of it. *)
Example set_range_differs :
  (let* (_, s) := ext2fs_set_generic_bmap_range (marks (P := rb_private) [3] (fresh64 0 15 15)) 0 16 [0; 1] in
   let* (r, _) := ext2fs_test_generic_bmap (fst s) 3 in Done r) = Done 1 /\
  (let* (_, s) := ext2fs_set_generic_bmap_range (marks (P := ba_private) [3] (fresh64 0 15 15)) 0 16 [0; 1] in
   let* (r, _) := ext2fs_test_generic_bmap (fst s) 3 in Done r) = Done 0.
Proof. split; vm_compute; reflexivity. Qed.

(** Unmarking 4 when only 5 is marked: the tree says 4 was marked. *)
Example unmark_answers_differ :
  (let* (r, _) := ext2fs_unmark_generic_bmap (marks (P := rb_private) [5] (fresh64 0 15 15)) 4 in Done r) = Done 1 /\
  (let* (r, _) := ext2fs_unmark_generic_bmap (marks (P := ba_private) [5] (fresh64 0 15 15)) 4 in Done r) = Done 0.
Proof. split; vm_compute; reflexivity. Qed.
