(* ===== verification/UnixIo.v ===== *)
(** lib/ext2fs/unix_io.c: block I/O on a file or device through a cache of eight
    blocks that is written back late, with the bounce buffer for devices that
    want aligned requests. *)

From S2P Require Import Prelude Bitops.

Local Open Scope Z_scope.

Definition EXT2_ET_MAGIC_IO_CHANNEL : Z := 2133571333.
Definition EXT2_ET_MAGIC_UNIX_IO_CHANNEL : Z := 2133571334.
Definition EXT2_ET_SHORT_READ : Z := 2133571364.
Definition EXT2_ET_SHORT_WRITE : Z := 2133571365.
Definition EXT2_ET_LLSEEK_FAILED : Z := 2133571397.
Definition EXT2_ET_NO_MEMORY : Z := 2133571398.
Definition EXT2_ET_INVALID_ARGUMENT : Z := 2133571399.
Definition EXT2_ET_UNIMPLEMENTED : Z := 2133571408.

Definition CACHE_SIZE : nat := 8.
Definition WRITE_DIRECT_SIZE : Z := 4.

(** * The file under the channel *)

(** How a system call ends: as it should, with fewer bytes, or with [errno]. *)
Inductive event := Full | Short (n : Z) | Fail (errno : Z).

(** Its bytes, the file position, and how the next calls end; when no event is
    left they all succeed. *)
Record device := mk_dev { contents : list Z; fpos : Z; events : list event }.

Definition next_event (d : device) : event * device :=
  match events d with
  | [] => (Full, d)
  | e :: l => (e, mk_dev (contents d) (fpos d) l)
  end.

Definition zeros (n : Z) : list Z := replicate (Z.to_nat n) 0.

Definition read_at (c : list Z) (off size : Z) : list Z := take (Z.to_nat size) (drop (Z.to_nat off) c).

(** A write behind the end leaves a hole of zeros. *)
Definition write_at (c : list Z) (off : Z) (bs : list Z) : list Z :=
  splice (c ++ zeros (off + Z.of_nat (length bs) - Z.of_nat (length c))) (Z.to_nat off) bs.

(** The bytes that are read, or [errno]. *)
Definition sys_pread (d : device) (size off : Z) : (Z + list Z) * device :=
  let (e, d) := next_event d in
  match e with
  | Full => (inr (read_at (contents d) off size), d)
  | Short n => (inr (read_at (contents d) off (Z.min n size)), d)
  | Fail errno => (inl errno, d)
  end.

(** The number of bytes that are written, or [errno]. *)
Definition sys_pwrite (d : device) (bs : list Z) (off : Z) : (Z + Z) * device :=
  let (e, d) := next_event d in
  match e with
  | Full => (inr (Z.of_nat (length bs)), mk_dev (write_at (contents d) off bs) (fpos d) (events d))
  | Short n =>
      let bs := take (Z.to_nat n) bs in
      (inr (Z.of_nat (length bs)), mk_dev (write_at (contents d) off bs) (fpos d) (events d))
  | Fail errno => (inl errno, d)
  end.

Definition set_fpos (d : device) (p : Z) : device := mk_dev (contents d) p (events d).

(** [errno], or [None] when the position is set. *)
Definition sys_lseek (d : device) (off : Z) : option Z * device :=
  let (e, d) := next_event d in
  match e with Fail errno => (Some errno, d) | _ => (None, set_fpos d off) end.

Definition sys_read (d : device) (size : Z) : (Z + list Z) * device :=
  let (r, d) := sys_pread d size (fpos d) in
  match r with
  | inr bs => (r, set_fpos d (fpos d + Z.of_nat (length bs)))
  | inl _ => (r, d)
  end.

Definition sys_write (d : device) (bs : list Z) : (Z + Z) * device :=
  let (r, d) := sys_pwrite d bs (fpos d) in
  match r with
  | inr n => (r, set_fpos d (fpos d + n))
  | inl _ => (r, d)
  end.

(** [fsync] and [close]: [errno] or [None]. *)
Definition sys_other (d : device) : option Z * device :=
  let (e, d) := next_event d in match e with Fail errno => (Some errno, d) | _ => (None, d) end.

(** * The channel *)

(** [struct unix_cache]; [c_buf] is [None] for a null pointer, else the address
    and the bytes. *)
Record unix_cache := mk_cache {
  c_buf : option (Z * list Z);
  c_block : Z;
  c_time : Z;
  c_dirty : bool;
  c_in_use : bool }.

(** [struct struct_io_channel] with its [struct unix_private_data]. *)
Record channel := mk_chan {
  magic : Z;
  block_size : Z;
  refcount : Z;
  writethrough : bool;
  align : Z;
  d_magic : Z;
  force_bounce : bool;
  nocache : bool;
  access_time : Z;
  offset : Z;
  cache : list unix_cache;
  bounce : option (list Z);
  bytes_read : Z;
  bytes_written : Z;
  dev : device }.

Definition set_dev (c : channel) (d : device) : channel :=
  mk_chan (magic c) (block_size c) (refcount c) (writethrough c) (align c) (d_magic c) (force_bounce c) (nocache c)
    (access_time c) (offset c) (cache c) (bounce c) (bytes_read c) (bytes_written c) d.
Definition set_cache (c : channel) (l : list unix_cache) : channel :=
  mk_chan (magic c) (block_size c) (refcount c) (writethrough c) (align c) (d_magic c) (force_bounce c) (nocache c)
    (access_time c) (offset c) l (bounce c) (bytes_read c) (bytes_written c) (dev c).
Definition set_time (c : channel) (t : Z) : channel :=
  mk_chan (magic c) (block_size c) (refcount c) (writethrough c) (align c) (d_magic c) (force_bounce c) (nocache c)
    t (offset c) (cache c) (bounce c) (bytes_read c) (bytes_written c) (dev c).
Definition set_align (c : channel) (a : Z) : channel :=
  mk_chan (magic c) (block_size c) (refcount c) (writethrough c) a (d_magic c) (force_bounce c) (nocache c)
    (access_time c) (offset c) (cache c) (bounce c) (bytes_read c) (bytes_written c) (dev c).
Definition set_bounce (c : channel) (b : option (list Z)) : channel :=
  mk_chan (magic c) (block_size c) (refcount c) (writethrough c) (align c) (d_magic c) (force_bounce c) (nocache c)
    (access_time c) (offset c) (cache c) b (bytes_read c) (bytes_written c) (dev c).
Definition set_stats (c : channel) (r w : Z) : channel :=
  mk_chan (magic c) (block_size c) (refcount c) (writethrough c) (align c) (d_magic c) (force_bounce c) (nocache c)
    (access_time c) (offset c) (cache c) (bounce c) r w (dev c).
Definition set_block_size (c : channel) (n : Z) : channel :=
  mk_chan (magic c) n (refcount c) (writethrough c) (align c) (d_magic c) (force_bounce c) (nocache c)
    (access_time c) (offset c) (cache c) (bounce c) (bytes_read c) (bytes_written c) (dev c).
Definition set_offset (c : channel) (n : Z) : channel :=
  mk_chan (magic c) (block_size c) (refcount c) (writethrough c) (align c) (d_magic c) (force_bounce c) (nocache c)
    (access_time c) n (cache c) (bounce c) (bytes_read c) (bytes_written c) (dev c).
Definition set_nocache (c : channel) (n : bool) : channel :=
  mk_chan (magic c) (block_size c) (refcount c) (writethrough c) (align c) (d_magic c) (force_bounce c) n
    (access_time c) (offset c) (cache c) (bounce c) (bytes_read c) (bytes_written c) (dev c).
Definition set_refcount (c : channel) (n : Z) : channel :=
  mk_chan (magic c) (block_size c) n (writethrough c) (align c) (d_magic c) (force_bounce c) (nocache c)
    (access_time c) (offset c) (cache c) (bounce c) (bytes_read c) (bytes_written c) (dev c).

Definition IS_ALIGNED (n align : Z) : bool := Z.land n (align - 1) =? 0.

(** The condition for a request without the bounce buffer. *)
Definition direct (c : channel) (addr location size : Z) : bool :=
  (align c =? 0) || (IS_ALIGNED addr (align c) && IS_ALIGNED location (align c) && IS_ALIGNED size (align c)).

Definition align_size (c : channel) : Z :=
  if (align c <? block_size c) && (block_size c mod align c =? 0) then block_size c else align c.

Section io.
(** The functions of the application that are told about errors ([read_error]
    and [write_error]), if there are any: they see block, count, size, what was
    transferred and the error, and give the error to return. *)
Context (read_error write_error : option (Z -> Z -> Z -> Z -> Z -> Z)).

Definition io_error (handler : option (Z -> Z -> Z -> Z -> Z -> Z)) (block count size actual retval : Z) : Z :=
  match handler with Some f => f block count size actual retval | None => retval end.

(** * Raw I/O *)

(** [error_unlock:] of [raw_read_blk]: the rest of the buffer is cleared. *)
Definition read_failed (c : channel) (block count size : Z) (got : list Z) (retval : Z) : Z * list Z * channel :=
  let actual := Z.of_nat (length got) in
  (io_error read_error block count size actual retval, got ++ zeros (size - actual), c).

(** [ext2fs_llseek] that failed. *)
Definition seek_error (errno : Z) : Z := if errno =? 0 then EXT2_ET_LLSEEK_FAILED else errno.

(** The loop with the bounce buffer; [got] are the bytes copied so far. *)
Fixpoint bounce_read (fuel : nat) (c : channel) (block count size0 size off : Z) (got : list Z)
  : outcome (Z * list Z * channel) :=
  match fuel with
  | O => Crash OutOfFuel
  | S fuel =>
      if 0 <? size then
        let asz := align_size c in
        let (r, d) := sys_read (dev c) asz in
        let c := set_dev c d in
        match bounce c, r with
        | None, _ => Crash BadPointer
        | Some _, inl _ => Done (read_failed c block count size0 got EXT2_ET_SHORT_READ)
        | Some b, inr bs =>
            let* b := store_bytes b 0 bs in
            let c := set_bounce c (Some b) in
            if negb (Z.of_nat (length bs) =? asz) then Done (read_failed c block count size0 got EXT2_ET_SHORT_READ)
            else
              let actual := (if asz <? size then asz else size) - off in
              if actual <? 0 then Crash BadPointer
              else
                let* part := load_bytes b off actual in
                bounce_read fuel c block count size0 (size - actual) 0 (got ++ part)
        end
      else Done (0, got, c)
  end.

(** [bounce_read:].  A turn of the loop reads on in the file, which ends. *)
Definition read_bounced (c : channel) (block count size location : Z) : outcome (Z * list Z * channel) :=
  let c := if align c =? 0 then set_align c 1 else c in
  let asz := align_size c in
  let (e, d) := sys_lseek (dev c) (location / asz * asz) in
  let c := set_dev c d in
  match e with
  | Some errno => Done (read_failed c block count size [] (seek_error errno))
  | None => bounce_read (S (S (length (contents d)))) c block count size size (location mod asz) []
  end.

(** [ext2fs_llseek] and [read]. *)
Definition seek_read (c : channel) (block count size location : Z) : Z * list Z * channel :=
  let (e, d) := sys_lseek (dev c) location in
  let c := set_dev c d in
  match e with
  | Some errno => read_failed c block count size [] (seek_error errno)
  | None =>
      let (r, d) := sys_read (dev c) size in
      let c := set_dev c d in
      match r with
      | inl errno => read_failed c block count size [] errno
      | inr bs =>
          if s32 (Z.of_nat (length bs)) =? size then (0, bs, c)
          else read_failed c block count size bs EXT2_ET_SHORT_READ
      end
  end.

(** [raw_read_blk] into the buffer at [addr]: the result, what the buffer then
    holds, and the channel. *)
Definition raw_read_blk (c : channel) (block count addr : Z) : outcome (Z * list Z * channel) :=
  let size := if count <? 0 then - count else count * block_size c in
  let c := set_stats c (u64 (bytes_read c + size)) (bytes_written c) in
  let location := block * block_size c + offset c in
  if force_bounce c then read_bounced c block count size location
  else if direct c addr location size then
    let (r, d) := sys_pread (dev c) size location in
    let c := set_dev c d in
    match r with
    | inr bs => if s32 (Z.of_nat (length bs)) =? size then Done (0, bs, c)
                else Done (seek_read c block count size location)
    | inl _ => Done (seek_read c block count size location)
    end
  else read_bounced c block count size location.

(** [error_out:] of [raw_write_blk] *)
Definition write_failed (c : channel) (block count size actual retval : Z) : Z * channel :=
  (io_error write_error block count size actual retval, c).

(** What is in the bounce buffer before the new bytes go in: a part of a block is
    read first, and zeros stand for what is behind the end of the file.  An error
    comes with the value of the variable [actual], which was [actual] before. *)
Definition bounce_fill (c : channel) (b : list Z) (blk actual : Z) : (Z * Z + outcome (list Z)) * channel :=
  let asz := align_size c in
  let (e, d) := sys_lseek (dev c) (blk * asz) in
  let c := set_dev c d in
  match e with
  | Some errno => (inl (seek_error errno, actual), c)
  | None =>
      let (r, d) := sys_read (dev c) asz in
      let c := set_dev c d in
      match r with
      | inl errno => (inl (errno, -1), c)
      | inr bs => (inr (store_bytes b 0 (bs ++ zeros (asz - Z.of_nat (length bs)))), c)
      end
  end.

(** The loop of [bounce_write:]; [buf] are the bytes that are left. *)
Fixpoint bounce_write (fuel : nat) (c : channel) (block count size blk off actual : Z) (buf : list Z)
  : outcome (Z * channel) :=
  match fuel with
  | O => Crash OutOfFuel
  | S fuel =>
      if 0 <? size then
        let asz := align_size c in
        match bounce c with
        | None => Crash BadPointer
        | Some b =>
            let (fill, c) := if (size <? asz) || negb (off =? 0) then bounce_fill c b blk actual else (inr (Done b), c) in
            match fill with
            | inl (errno, actual) => Done (write_failed c block count size actual errno)
            | inr b =>
                let* b := b in
                let actual := (if asz <? size then asz else size) - off in
                if actual <? 0 then Crash BadPointer
                else
                  let* part := load_bytes buf 0 actual in
                  let* b := store_bytes b off part in
                  let c := set_bounce c (Some b) in
                  let (e, d) := sys_lseek (dev c) (blk * asz) in
                  let c := set_dev c d in
                  match e with
                  | Some errno => Done (write_failed c block count size actual (seek_error errno))
                  | None =>
                      let (r, d) := sys_write (dev c) (take (Z.to_nat asz) b) in
                      let c := set_dev c d in
                      match r with
                      | inl errno => Done (write_failed c block count size actual errno)
                      | inr n =>
                          if negb (n =? asz) then Done (write_failed c block count size actual EXT2_ET_SHORT_WRITE)
                          else bounce_write fuel c block count (size - actual) (blk + 1) 0 actual (drop (Z.to_nat actual) buf)
                      end
                  end
            end
        end
      else Done (0, c)
  end.

(** [bounce_write:].  Every turn but the first writes a byte or more. *)
Definition write_bounced (c : channel) (block count size location : Z) (buf : list Z) : outcome (Z * channel) :=
  let c := if align c =? 0 then set_align c 1 else c in
  let asz := align_size c in
  bounce_write (S (S (Z.to_nat size))) c block count size (location / asz) (location mod asz) 0 buf.

(** [ext2fs_llseek] and [write]; [actual] is what [pwrite] has left in the variable. *)
Definition seek_write (c : channel) (block count size location actual : Z) (bs : list Z) : Z * channel :=
  let (e, d) := sys_lseek (dev c) location in
  let c := set_dev c d in
  match e with
  | Some errno => write_failed c block count size actual (seek_error errno)
  | None =>
      let (r, d) := sys_write (dev c) bs in
      let c := set_dev c d in
      match r with
      | inl errno => write_failed c block count size (-1) errno
      | inr n => if s32 n =? size then (0, c) else write_failed c block count size (s32 n) EXT2_ET_SHORT_WRITE
      end
  end.

(** [raw_write_blk] from the buffer at [addr], which holds [buf]. *)
Definition raw_write_blk (c : channel) (block count addr : Z) (buf : list Z) : outcome (Z * channel) :=
  let size := if count =? 1 then block_size c else if count <? 0 then - count else count * block_size c in
  let c := set_stats c (bytes_read c) (u64 (bytes_written c + size)) in
  let location := block * block_size c + offset c in
  if force_bounce c then write_bounced c block count size location buf
  else if direct c addr location size then
    let* bs := load_bytes buf 0 size in
    let (r, d) := sys_pwrite (dev c) bs location in
    let c := set_dev c d in
    match r with
    | inr n => if s32 n =? size then Done (0, c) else Done (seek_write c block count size location (s32 n) bs)
    | inl _ => Done (seek_write c block count size location (-1) bs)
    end
  else write_bounced c block count size location buf.

(** * The cache *)

(** [io_channel_alloc_buf(channel, 0, ...)]: an address and as many bytes, whose
    values nobody looks at before they are set. *)
Definition io_channel_alloc_buf (c : channel) (al : allocator) : option (Z * list Z) * allocator :=
  let (p, al) := malloc al in
  let size := if (negb (align c =? 0)) && (block_size c <? align c) then align c else block_size c in
  (match p with Some p => Some (p, zeros size) | None => None end, al).

Definition no_cache (b : option (Z * list Z)) : unix_cache := mk_cache b 0 0 false false.

(** The loop of [alloc_cache] over the entries [l]. *)
Fixpoint alloc_entries (c : channel) (l : list unix_cache) (al : allocator) : Z * list unix_cache * allocator :=
  match l with
  | [] => (0, [], al)
  | _ :: l =>
      let (b, al) := io_channel_alloc_buf c al in
      match b with
      | None => (EXT2_ET_NO_MEMORY, no_cache None :: l, al)
      | Some _ => let '(r, l, al) := alloc_entries c l al in (r, no_cache b :: l, al)
      end
  end.

Definition alloc_cache (c : channel) (al : allocator) : Z * channel * allocator :=
  let c := set_time c 0 in
  let '(r, l, al) := alloc_entries c (cache c) al in
  let c := set_cache c l in
  if negb (r =? 0) then (r, c, al)
  else if negb (align c =? 0) || force_bounce c then
    let (b, al) := io_channel_alloc_buf c al in
    match b with
    | None => (EXT2_ET_NO_MEMORY, set_bounce c None, al)
    | Some (_, bs) => (0, set_bounce c (Some bs), al)
    end
  else (0, c, al).

Definition free_cache (c : channel) : channel :=
  set_bounce (set_cache (set_time c 0) ((fun _ => no_cache None) <$> cache c)) None.

(** The loop of [find_cached_block] from entry [i] on. *)
Fixpoint find_entry (l : list unix_cache) (i : nat) (block : Z) (unused oldest : option (nat * Z)) : nat + option nat :=
  match l with
  | [] => inr (match unused with Some (j, _) => Some j | None => match oldest with Some (j, _) => Some j | None => None end end)
  | e :: l =>
      if negb (c_in_use e) then
        find_entry l (S i) block (match unused with None => Some (i, 0) | u => u end) oldest
      else if c_block e =? block then inl i
      else
        find_entry l (S i) block unused
          (match oldest with
           | Some (_, t) => if c_time e <? t then Some (i, c_time e) else oldest
           | None => Some (i, c_time e)
           end)
  end.

Definition set_entry (c : channel) (i : nat) (e : unix_cache) : channel := set_cache c (<[i := e]> (cache c)).

Definition get_entry (c : channel) (i : nat) : outcome unix_cache :=
  match cache c !! i with Some e => Done e | None => Crash BadPointer end.

Definition with_time (e : unix_cache) (t : Z) : unix_cache := mk_cache (c_buf e) (c_block e) t (c_dirty e) (c_in_use e).
Definition with_buf (e : unix_cache) (b : option (Z * list Z)) : unix_cache :=
  mk_cache b (c_block e) (c_time e) (c_dirty e) (c_in_use e).
Definition with_dirty (e : unix_cache) (d : bool) : unix_cache :=
  mk_cache (c_buf e) (c_block e) (c_time e) d (c_in_use e).
Definition with_in_use (e : unix_cache) (u : bool) : unix_cache :=
  mk_cache (c_buf e) (c_block e) (c_time e) (c_dirty e) u.

(** The entry of the block, which becomes the youngest one, or the entry to use
    for it. *)
Definition find_cached_block (c : channel) (block : Z) : outcome ((nat + option nat) * channel) :=
  match find_entry (cache c) 0 block None None with
  | inl i =>
      let* e := get_entry c i in
      let t := s32 (access_time c + 1) in
      Done (inl i, set_entry (set_time c t) i (with_time e t))
  | inr r => Done (inr r, c)
  end.

Definition buffer (e : unix_cache) : outcome (Z * list Z) :=
  match c_buf e with Some b => Done b | None => Crash BadPointer end.

(** The result of the write is not looked at. *)
Definition reuse_cache (c : channel) (i : nat) (block : Z) : outcome channel :=
  let* e := get_entry c i in
  let* c := if c_dirty e && c_in_use e then
              let* (addr, bs) := buffer e in
              let* (_, c) := raw_write_blk c (c_block e) 1 addr bs in Done c
            else Done c in
  let t := s32 (access_time c + 1) in
  Done (set_entry (set_time c t) i (mk_cache (c_buf e) block t false true)).

(** [flush_cached_blocks] from entry [i] on. *)
Fixpoint flush_from (n i : nat) (c : channel) (invalidate : bool) (retval2 : Z) : outcome (Z * channel) :=
  match n with
  | O => Done (retval2, c)
  | S n =>
      let* e := get_entry c i in
      if negb (c_in_use e) then flush_from n (S i) c invalidate retval2
      else
        let e := if invalidate then with_in_use e false else e in
        let c := set_entry c i e in
        if negb (c_dirty e) then flush_from n (S i) c invalidate retval2
        else
          let* (addr, bs) := buffer e in
          let* (retval, c) := raw_write_blk c (c_block e) 1 addr bs in
          if negb (retval =? 0) then flush_from n (S i) c invalidate retval
          else flush_from n (S i) (set_entry c i (with_dirty e false)) invalidate retval2
  end.

Definition flush_cached_blocks (c : channel) (invalidate : bool) : outcome (Z * channel) :=
  flush_from CACHE_SIZE 0 c invalidate 0.

(** * The operations of the channel *)

Definition check_magic {A} (c : channel) (bad : Z -> A) (k : A) : A :=
  if negb (magic c =? EXT2_ET_MAGIC_IO_CHANNEL) then bad EXT2_ET_MAGIC_IO_CHANNEL
  else if negb (d_magic c =? EXT2_ET_MAGIC_UNIX_IO_CHANNEL) then bad EXT2_ET_MAGIC_UNIX_IO_CHANNEL
  else k.

(** [for (i=1; i < count; i++) if (find_cached_block(...)) break]: how many blocks
    are not cached, and the entries to use for them. *)
Fixpoint count_uncached (n : nat) (c : channel) (block i : Z) (reuse : list (option nat))
  : outcome (Z * list (option nat) * channel) :=
  match n with
  | O => Done (i, reuse, c)
  | S n =>
      let* (r, c) := find_cached_block c (u64 (block + i)) in
      match r with
      | inl _ => Done (i, reuse, c)
      | inr e => count_uncached n c block (i + 1) (reuse ++ [e])
      end
  end.

(** A null pointer in [reuse] is dereferenced. *)
Definition entry_of (r : option nat) : outcome nat := match r with Some i => Done i | None => Crash BadPointer end.

Definition fill_entry (c : channel) (i : nat) (bs : list Z) : outcome channel :=
  let* e := get_entry c i in
  let* (addr, old) := buffer e in
  let* new := store_bytes old 0 bs in
  Done (set_entry c i (with_buf e (Some (addr, new)))).

(** "Save the results in the cache" *)
Fixpoint save_blocks (reuse : list (option nat)) (c : channel) (block : Z) (bs : list Z) : outcome channel :=
  match reuse with
  | [] => Done c
  | r :: reuse =>
      let* i := entry_of r in
      let* c := reuse_cache c i block in
      let* part := load_bytes bs 0 (block_size c) in
      let* c := fill_entry c i part in
      save_blocks reuse c (u64 (block + 1)) (drop (Z.to_nat (block_size c)) bs)
  end.

(** The loop of [unix_read_blk64]; [got] is the part of the buffer that is filled. *)
Fixpoint read_loop (fuel : nat) (c : channel) (block count addr : Z) (got : list Z) : outcome (Z * list Z * channel) :=
  match fuel with
  | O => Crash OutOfFuel
  | S fuel =>
      if 0 <? count then
        let* (r, c) := find_cached_block c block in
        match r with
        | inl i =>
            let* e := get_entry c i in
            let* (_, bs) := buffer e in
            let* part := load_bytes bs 0 (block_size c) in
            read_loop fuel c (u64 (block + 1)) (count - 1) (addr + block_size c) (got ++ part)
        | inr reuse0 =>
            if count =? 1 then
              let* i := entry_of reuse0 in
              let* c := reuse_cache c i block in
              let* e := get_entry c i in
              let* (baddr, old) := buffer e in
              let* (retval, bs, c) := raw_read_blk c block 1 baddr in
              let* new := store_bytes old 0 bs in
              let* e := get_entry c i in
              let e := with_buf e (Some (baddr, new)) in
              if negb (retval =? 0) then Done (retval, got, set_entry c i (with_in_use e false))
              else
                let* part := load_bytes new 0 (block_size c) in
                Done (0, got ++ part, set_entry c i e)
            else
              let* (i, reuse, c) := count_uncached (Z.to_nat (count - 1)) c block 1 [reuse0] in
              let* (retval, bs, c) := raw_read_blk c block i addr in
              if negb (retval =? 0) then Done (retval, got ++ bs, c)
              else
                let* c := save_blocks reuse c block bs in
                read_loop fuel c (u64 (block + i)) (count - i) (addr + i * block_size c) (got ++ bs)
        end
      else Done (0, got, c)
  end.

(** The result, the bytes the buffer at [addr] holds from its start on, and the
    channel. *)
Definition unix_read_blk64 (c : channel) (block count addr : Z) : outcome (Z * list Z * channel) :=
  check_magic c (fun e => Done (e, [], c))
    (if nocache c then raw_read_blk c block count addr
     else if (count <? 0) || (WRITE_DIRECT_SIZE <? count) then
       let* (retval, c) := flush_cached_blocks c false in
       if negb (retval =? 0) then Done (retval, [], c) else raw_read_blk c block count addr
     else read_loop (S (Z.to_nat count)) c block count addr []).

(** The loop of [unix_write_blk64]; the caller's buffer is not one of the cache. *)
Fixpoint write_loop (n : nat) (c : channel) (block : Z) (buf : list Z) : outcome channel :=
  match n with
  | O => Done c
  | S n =>
      let* (r, c) := find_cached_block c block in
      let* (i, c) := match r with
                     | inl i => Done (i, c)
                     | inr reuse => let* i := entry_of reuse in let* c := reuse_cache c i block in Done (i, c)
                     end in
      let* part := load_bytes buf 0 (block_size c) in
      let* c := fill_entry c i part in
      let* e := get_entry c i in
      let c := set_entry c i (with_dirty e (negb (writethrough c))) in
      write_loop n c (u64 (block + 1)) (drop (Z.to_nat (block_size c)) buf)
  end.

Definition unix_write_blk64 (c : channel) (block count addr : Z) (buf : list Z) : outcome (Z * channel) :=
  check_magic c (fun e => Done (e, c))
    (if nocache c then raw_write_blk c block count addr buf
     else if (count <? 0) || (WRITE_DIRECT_SIZE <? count) then
       let* (retval, c) := flush_cached_blocks c true in
       if negb (retval =? 0) then Done (retval, c) else raw_write_blk c block count addr buf
     else
       let* (retval, c) := if writethrough c then raw_write_blk c block count addr buf else Done (0, c) in
       let* c := write_loop (Z.to_nat count) c block buf in
       Done (retval, c)).

Definition unix_write_byte (c : channel) (off size : Z) (buf : list Z) : outcome (Z * channel) :=
  check_magic c (fun e => Done (e, c))
    (if negb (align c =? 0) then Done (EXT2_ET_UNIMPLEMENTED, c)
     else
       let* (retval, c) := flush_cached_blocks c true in
       if negb (retval =? 0) then Done (retval, c)
       else
         let (e, d) := sys_lseek (dev c) (off + offset c) in
         let c := set_dev c d in
         match e with
         | Some errno => Done (errno, c)
         | None =>
             let* bs := load_bytes buf 0 size in
             let (r, d) := sys_write (dev c) bs in
             let c := set_dev c d in
             match r with
             | inl errno => Done (errno, c)
             | inr n => Done (if n =? size then 0 else EXT2_ET_SHORT_WRITE, c)
             end
         end).

Definition unix_flush (c : channel) : outcome (Z * channel) :=
  check_magic c (fun e => Done (e, c))
    (let* (retval, c) := flush_cached_blocks c false in
     if retval =? 0 then
       let (e, d) := sys_other (dev c) in
       Done (match e with Some errno => errno | None => 0 end, set_dev c d)
     else Done (retval, c)).

(** The channel while it is shared; what the file holds when it has been freed. *)
Definition unix_close (c : channel) : outcome (Z * (channel + device)) :=
  check_magic c (fun e => Done (e, inl c))
    (let c := set_refcount c (refcount c - 1) in
     if 0 <? refcount c then Done (0, inl c)
     else
       let* (retval, c) := flush_cached_blocks c false in
       let (e, d) := sys_other (dev c) in
       Done (match e with Some errno => errno | None => retval end, inr d)).

(** After an error the mutexes stay locked. *)
Definition unix_set_blksize (c : channel) (al : allocator) (blksize : Z) : outcome (Z * channel * allocator) :=
  check_magic c (fun e => Done (e, c, al))
    (if negb (block_size c =? blksize) then
       let* (retval, c) := flush_cached_blocks c false in
       if negb (retval =? 0) then Done (retval, c, al)
       else Done (alloc_cache (free_cache (set_block_size c blksize)) al)
     else Done (0, c, al)).

(** [unix_set_option]: the offset, of which [arg] is the number [strtoull] gives
    ([None] when it is not a number), and the cache. *)
Inductive option_arg := OptOffset (arg : option Z) | OptCache (on : bool) | OptOther.

Definition unix_set_option (c : channel) (o : option_arg) : outcome (Z * channel) :=
  check_magic c (fun e => Done (e, c))
    (match o with
     | OptOffset None => Done (EXT2_ET_INVALID_ARGUMENT, c)
     | OptOffset (Some tmp) =>
         let c := set_offset c (s64 tmp) in
         Done (if offset c <? 0 then EXT2_ET_INVALID_ARGUMENT else 0, c)
     | OptCache true => Done (0, set_nocache c false)
     | OptCache false =>
         let* (retval, c) := flush_cached_blocks c false in
         Done (retval, set_nocache c true)
     | OptOther => Done (EXT2_ET_INVALID_ARGUMENT, c)
     end).
End io.
