(* ===== verification/UnixIoSpec.v ===== *)
(** The cache of unix_io.c does not show: reads and writes through it give what
    an array of bytes gives. *)

From S2P Require Import Prelude Bitops UnixIo.

Local Open Scope Z_scope.

(** * Reading and writing a part of a file *)

Lemma length_read_at c o n : 0 <= o -> 0 <= n -> o + n <= Z.of_nat (length c) -> length (read_at c o n) = Z.to_nat n.
Proof. intros. unfold read_at. rewrite length_take, length_drop. lia. Qed.

Lemma lookup_read_at c o n p : 0 <= o -> (p < Z.to_nat n)%nat -> read_at c o n !! p = c !! (Z.to_nat o + p)%nat.
Proof. intros Ho Hp. unfold read_at. rewrite lookup_take, decide_True by done. rewrite lookup_drop. done. Qed.

Lemma write_at_inside c o bs : 0 <= o -> o + Z.of_nat (length bs) <= Z.of_nat (length c) ->
  write_at c o bs = splice c (Z.to_nat o) bs.
Proof.
  intros Ho Hl. unfold write_at, zeros. replace (Z.to_nat _) with 0%nat by lia. cbn [replicate]. rewrite app_nil_r. done.
Qed.

Lemma length_write_at c o bs : 0 <= o -> o + Z.of_nat (length bs) <= Z.of_nat (length c) ->
  length (write_at c o bs) = length c.
Proof. intros. rewrite write_at_inside by done. apply length_splice. lia. Qed.

Lemma lookup_write_at c o bs p : 0 <= o -> o + Z.of_nat (length bs) <= Z.of_nat (length c) ->
  write_at c o bs !! p =
  if decide (o <= Z.of_nat p < o + Z.of_nat (length bs)) then bs !! (p - Z.to_nat o)%nat else c !! p.
Proof.
  intros Ho Hl. rewrite write_at_inside by done. unfold splice. case_decide as Hp.
  - rewrite lookup_app_r by (rewrite length_take; lia). rewrite length_take, lookup_app_l by lia. f_equal. lia.
  - destruct (Nat.lt_ge_cases p (Z.to_nat o)).
    + rewrite lookup_app_l by (rewrite length_take; lia). rewrite lookup_take, decide_True by done. done.
    + rewrite lookup_app_r by (rewrite length_take; lia). rewrite length_take, lookup_app_r by lia.
      rewrite lookup_drop. f_equal. lia.
Qed.

(** Two files agree on a range. *)
Lemma read_at_ext c d o n : 0 <= o -> length c = length d ->
  (forall p, o <= Z.of_nat p < o + n -> c !! p = d !! p) -> read_at c o n = read_at d o n.
Proof.
  intros Ho Hl H. apply list_eq. intros p. destruct (Nat.lt_ge_cases p (Z.to_nat n)).
  - rewrite !lookup_read_at by lia. apply H. lia.
  - rewrite !lookup_ge_None_2; [done|unfold read_at; rewrite length_take; lia..].
Qed.

Lemma read_write_same c o bs : 0 <= o -> o + Z.of_nat (length bs) <= Z.of_nat (length c) ->
  read_at (write_at c o bs) o (Z.of_nat (length bs)) = bs.
Proof.
  intros Ho Hl. apply list_eq. intros p. destruct (Nat.lt_ge_cases p (length bs)).
  - rewrite lookup_read_at by lia. rewrite lookup_write_at by done. rewrite decide_True by lia. f_equal. lia.
  - rewrite !lookup_ge_None_2; [done|lia|unfold read_at; rewrite length_take; lia].
Qed.

Lemma write_read_same c o n : 0 <= o -> 0 <= n -> o + n <= Z.of_nat (length c) -> write_at c o (read_at c o n) = c.
Proof.
  intros Ho Hn Hl. assert (E : length (read_at c o n) = Z.to_nat n) by (by apply length_read_at).
  apply list_eq. intros p. rewrite lookup_write_at by lia. rewrite E. case_decide as Hp; [|done].
  rewrite lookup_read_at by lia. f_equal. lia.
Qed.

(** * The relation between the channel and the bytes it stands for *)

Definition loc (c : channel) (b : Z) : Z := b * block_size c + offset c.

Definition in_block (c : channel) (b : Z) (p : nat) : Prop := loc c b <= Z.of_nat p < loc c b + block_size c.

#[export] Instance in_block_dec c b p : Decision (in_block c b p).
Proof. unfold in_block. apply _. Defined.

Definition bytes_of (e : unix_cache) : list Z := match c_buf e with Some (_, bs) => bs | None => [] end.

(** A channel without direct I/O on a file whose system calls succeed. *)
Record plain (c : channel) : Prop := {
  pl_magic : magic c = EXT2_ET_MAGIC_IO_CHANNEL /\ d_magic c = EXT2_ET_MAGIC_UNIX_IO_CHANNEL;
  pl_align : align c = 0;
  pl_bounce : force_bounce c = false;
  pl_nocache : nocache c = false;
  pl_wt : writethrough c = false;
  pl_events : events (dev c) = [];
  pl_bs : 0 < block_size c /\ 4 * block_size c < 2 ^ 31;
  pl_off : 0 <= offset c;
  pl_len : length (cache c) = CACHE_SIZE;
  pl_buf : forall i e, cache c !! i = Some e -> exists a bs, c_buf e = Some (a, bs) /\ Z.of_nat (length bs) = block_size c }.

(** A block that lies in the file. *)
Definition block_ok (c : channel) (b : Z) : Prop := 0 <= b /\ loc c b + block_size c <= Z.of_nat (length (contents (dev c))).

(** An entry holds what the channel stands for, and what the file holds unless
    it is dirty. *)
Record entry_ok (c : channel) (disk : list Z) (e : unix_cache) : Prop := {
  eo_block : block_ok c (c_block e);
  eo_disk : forall p, in_block c (c_block e) p -> disk !! p = bytes_of e !! (p - Z.to_nat (loc c (c_block e)))%nat;
  eo_clean : c_dirty e = false -> forall p, in_block c (c_block e) p -> contents (dev c) !! p = disk !! p }.

Record coherent (c : channel) (disk : list Z) : Prop := {
  co_plain : plain c;
  co_length : length disk = length (contents (dev c));
  co_distinct : forall i j e f, cache c !! i = Some e -> cache c !! j = Some f ->
    c_in_use e = true -> c_in_use f = true -> c_block e = c_block f -> i = j;
  co_entry : forall i e, cache c !! i = Some e -> c_in_use e = true -> entry_ok c disk e;
  co_rest : forall p, (forall i e, cache c !! i = Some e -> c_in_use e = true -> ~ in_block c (c_block e) p) ->
    disk !! p = contents (dev c) !! p }.

(** What stays the same. *)
Definition keeps (c c' : channel) : Prop :=
  block_size c' = block_size c /\ offset c' = offset c /\ length (contents (dev c')) = length (contents (dev c)).

Lemma keeps_refl c : keeps c c.
Proof. done. Qed.

Lemma keeps_trans a b c : keeps a b -> keeps b c -> keeps a c.
Proof. unfold keeps. intros (? & ? & ?) (? & ? & ?). repeat split; congruence. Qed.

Lemma keeps_loc c c' b : keeps c c' -> loc c' b = loc c b.
Proof. unfold keeps, loc. intros (-> & -> & _). done. Qed.

(** Blocks that have a byte in common are the same. *)
Lemma in_block_inj c a b p : 0 < block_size c -> in_block c a p -> in_block c b p -> a = b.
Proof. unfold in_block, loc. intros. nia. Qed.

Create HintDb unixio.
#[export] Hint Resolve keeps_refl : unixio.

(** Fields that do not count. *)
Lemma coherent_stats c disk r w : coherent c disk -> coherent (set_stats c r w) disk.
Proof.
  intros [[] ? ? He Hr]. constructor; try done. intros i e Hi Hu. destruct (He i e Hi Hu). constructor; done.
Qed.

Lemma coherent_time c disk i e t t' : coherent c disk -> cache c !! i = Some e ->
  coherent (set_entry (set_time c t) i (with_time e t')) disk.
Proof.
  intros [[? ? ? ? ? ? ? ? Hlen Hbuf] Hl Hd He Hr] Hi. pose proof (lookup_lt_Some _ _ _ Hi).
  assert (Hsame : forall j f, <[i := with_time e t']> (cache c) !! j = Some f ->
    exists g, cache c !! j = Some g /\ c_in_use g = c_in_use f /\ c_block g = c_block f /\ c_dirty g = c_dirty f /\ c_buf g = c_buf f).
  { intros j f. rewrite list_lookup_insert_Some. intros [(-> & <- & _)|[_ Hj]]; [exists e; done|exists f; done]. }
  constructor; cbn.
  - constructor; cbn; try done; [rewrite length_insert; done|].
    intros j f Hj. destruct (Hsame j f Hj) as (g & Hg & _ & _ & _ & <-). by apply (Hbuf j).
  - done.
  - intros j k f f' Hj Hk Hu Hu' Eb. destruct (Hsame j f Hj) as (g & Hg & Eu & Ebl & _).
    destruct (Hsame k f' Hk) as (g' & Hg' & Eu' & Ebl' & _). apply (Hd j k g g'); congruence.
  - intros j f Hj Hu. destruct (Hsame j f Hj) as (g & Hg & Eu & Ebl & Ed & Ebf).
    destruct (He j g Hg ltac:(congruence)) as [H1 H2 H3]. rewrite Ebl in *.
    constructor; [done|intros p Hp; rewrite H2 by done; unfold bytes_of; rewrite Ebf; done|].
    intros Hcl p Hp. apply H3; [congruence|done].
  - intros p Hp. apply Hr. intros j g Hj Hu Hin. destruct (decide (j = i)) as [->|Hne].
    + rewrite Hi in Hj. injection Hj as <-. apply (Hp i (with_time e t')); [apply list_lookup_insert_eq; lia|done|done].
    + apply (Hp j g); [rewrite list_lookup_insert_ne by done; done|done|done].
Qed.

(** * The raw requests *)

Section io.
Context (read_error write_error : option (Z -> Z -> Z -> Z -> Z -> Z)).

Definition request_size (c : channel) (count : Z) : Z := if count <? 0 then - count else count * block_size c.

(** A request of [n] bytes at block [b] that stays in the file. *)
Definition request_ok (c : channel) (b n : Z) : Prop :=
  0 <= b /\ 0 <= n < 2 ^ 31 /\ loc c b + n <= Z.of_nat (length (contents (dev c))).

Lemma plain_direct c a l s : plain c -> direct c a l s = true.
Proof. intros P. unfold direct. rewrite (pl_align _ P). done. Qed.

Lemma loc_nonneg c b : plain c -> 0 <= b -> 0 <= loc c b.
Proof. intros P Hb. pose proof (pl_bs _ P). pose proof (pl_off _ P). unfold loc. nia. Qed.

Lemma raw_read_ok c b count addr : plain c -> request_ok c b (request_size c count) ->
  exists r, raw_read_blk read_error c b count addr =
    Done (0, read_at (contents (dev c)) (loc c b) (request_size c count), set_stats c r (bytes_written c)).
Proof.
  intros P (Hb & Hn & Hl). unfold raw_read_blk. fold (request_size c count). cbn [force_bounce set_stats].
  rewrite (pl_bounce _ P). change (direct (set_stats c _ _)) with (direct c). rewrite plain_direct by done.
  cbn [block_size offset set_stats dev]. fold (loc c b).
  unfold sys_pread, next_event. rewrite (pl_events _ P).
  pose proof (loc_nonneg c b P Hb). rewrite length_read_at by lia. rewrite Z2Nat.id by lia.
  rewrite s32_small, Z.eqb_refl by lia. eexists. destruct c; done.
Qed.

Definition put_bytes (c : channel) (w : Z) (l : list Z) : channel :=
  set_dev (set_stats c (bytes_read c) w) (mk_dev l (fpos (dev c)) []).

Lemma raw_write_ok c b count addr buf : plain c -> request_ok c b (request_size c count) ->
  request_size c count <= Z.of_nat (length buf) ->
  exists w, raw_write_blk write_error c b count addr buf =
    Done (0, put_bytes c w (write_at (contents (dev c)) (loc c b) (take (Z.to_nat (request_size c count)) buf))).
Proof.
  intros P (Hb & Hn & Hl) Hbuf. unfold raw_write_blk.
  assert (Es : (if count =? 1 then block_size c else if count <? 0 then - count else count * block_size c) = request_size c count).
  { unfold request_size. destruct (Z.eqb_spec count 1) as [->|]; [|done]. cbn. destruct (block_size c); done. }
  rewrite Es. cbn [force_bounce set_stats]. rewrite (pl_bounce _ P).
  change (direct (set_stats c _ _)) with (direct c). rewrite plain_direct by done.
  rewrite load_bytes_ok by lia. change (Z.to_nat 0) with 0%nat. rewrite drop_0.
  cbn [obind block_size offset set_stats dev]. fold (loc c b).
  unfold sys_pwrite, next_event. rewrite (pl_events _ P). rewrite length_take, Nat.min_l by lia.
  rewrite Z2Nat.id by lia. rewrite s32_small, Z.eqb_refl by lia. eexists. unfold put_bytes. cbn. rewrite (pl_events _ P). done.
Qed.

(** * The single changes of the cache *)

(** One entry and the file change; the other entries and what the channel stands
    for outside of the block [b] do not. *)
Record others (i : nat) (b : Z) (c : channel) (disk : list Z) : Prop := {
  ot_plain : plain c;
  ot_length : length disk = length (contents (dev c));
  ot_distinct : forall j k e f, j <> i -> k <> i -> cache c !! j = Some e -> cache c !! k = Some f ->
    c_in_use e = true -> c_in_use f = true -> c_block e = c_block f -> j = k;
  ot_entry : forall j e, j <> i -> cache c !! j = Some e -> c_in_use e = true -> entry_ok c disk e /\ c_block e <> b;
  ot_rest : forall p, ~ in_block c b p ->
    (forall j e, j <> i -> cache c !! j = Some e -> c_in_use e = true -> ~ in_block c (c_block e) p) ->
    disk !! p = contents (dev c) !! p }.

Lemma found_others c disk i e : coherent c disk -> cache c !! i = Some e -> c_in_use e = true ->
  others i (c_block e) c disk.
Proof.
  intros [P Hl Hd He Hr] Hi Hu. constructor; try done.
  - intros j k f g _ _. apply Hd.
  - intros j f Hne Hj Huj. split; [by apply (He j)|]. intros Eb. apply Hne. by apply (Hd j i f e).
  - intros p Hp Hno. apply Hr. intros j f Hj Huj. destruct (decide (j = i)) as [->|Hne]; [|by apply (Hno j f)].
    rewrite Hi in Hj. injection Hj as <-. done.
Qed.

(** The file is not changed outside of one block, and entry [i] in any way. *)
Definition entry_changed (i : nat) (c c' : channel) : Prop :=
  keeps c c' /\ (forall j, j <> i -> cache c' !! j = cache c !! j).

(** A new content for the entry [i] and the block [b]. *)
Lemma put_ok c disk i b bs dv t a :
  others i b c disk -> (i < CACHE_SIZE)%nat -> block_ok c b -> Z.of_nat (length bs) = block_size c ->
  (dv = false -> read_at (contents (dev c)) (loc c b) (block_size c) = bs) ->
  coherent (set_entry c i (mk_cache (Some (a, bs)) b t dv true)) (write_at disk (loc c b) bs).
Proof.
  intros [P Hl Hd He Hr] Hi [Hb Hbl] Hbs Hclean. pose proof (pl_bs _ P) as [Hp _].
  pose proof (loc_nonneg c b P Hb) as Hloc. pose proof P as [? ? ? ? ? ? ? ? Hlen Hbuf].
  set (new := mk_cache (Some (a, bs)) b t dv true). set (disk' := write_at disk (loc c b) bs).
  assert (Hlk : forall j f, <[i := new]> (cache c) !! j = Some f -> j = i /\ f = new \/ j <> i /\ cache c !! j = Some f).
  { intros j f. rewrite list_lookup_insert_Some. intros [(-> & <- & _)|[? ?]]; [left|right]; done. }
  assert (Hin : forall p, in_block c b p -> disk' !! p = bs !! (p - Z.to_nat (loc c b))%nat).
  { intros p Hin. unfold disk'. rewrite lookup_write_at by lia. unfold in_block in Hin. rewrite decide_True by lia. done. }
  assert (Hout : forall p, ~ in_block c b p -> disk' !! p = disk !! p).
  { intros p Hnin. unfold disk'. rewrite lookup_write_at by lia. unfold in_block in Hnin. rewrite decide_False by lia. done. }
  constructor; cbn.
  - constructor; cbn; try done; [rewrite length_insert; done|]. intros j f Hj.
    destruct (Hlk j f Hj) as [[-> ->]|[_ Hj']]; [by exists a, bs|by apply (Hbuf j)].
  - unfold disk'. rewrite length_write_at by lia. done.
  - intros j k e f Hj Hk Hu Hu' Eb.
    destruct (Hlk j e Hj) as [[-> ->]|[Hnj Hj']], (Hlk k f Hk) as [[-> ->]|[Hnk Hk']]; [done|..].
    + destruct (He k f Hnk Hk' Hu') as [_ Hnb]. cbn in Eb. congruence.
    + destruct (He j e Hnj Hj' Hu) as [_ Hnb]. cbn in Eb. congruence.
    + by apply (Hd j k e f).
  - intros j e Hj Hu. destruct (Hlk j e Hj) as [[-> ->]|[Hnj Hj']].
    + constructor; [done|exact Hin|]. cbn. intros Hdv p Hpb. change (in_block c b p) in Hpb. rewrite Hin by done. rewrite <- (Hclean Hdv).
      unfold in_block in Hpb. rewrite lookup_read_at by lia. f_equal. lia.
    + destruct (He j e Hnj Hj' Hu) as [[H1 H2 H3] Hnb].
      assert (Hdis : forall p, in_block c (c_block e) p -> ~ in_block c b p)
        by (intros p Hp1 Hp2; apply Hnb; by apply (in_block_inj c _ _ p)).
      constructor; [done|intros p Hpe; change (in_block c (c_block e) p) in Hpe; rewrite Hout by auto; by apply H2|].
      intros Hcl p Hpe. change (in_block c (c_block e) p) in Hpe. rewrite Hout by auto. by apply H3.
  - intros p Hno. assert (Hnb : ~ in_block c b p).
    { apply (Hno i new); [apply list_lookup_insert_eq; lia|done]. }
    rewrite Hout by done. apply Hr; [done|]. intros j e Hnj Hj Hu. apply (Hno j e); [|done].
    rewrite list_lookup_insert_ne by done. done.
Qed.

Lemma entry_bytes c i e : plain c -> cache c !! i = Some e ->
  exists a, buffer e = Done (a, bytes_of e) /\ c_buf e = Some (a, bytes_of e) /\ Z.of_nat (length (bytes_of e)) = block_size c.
Proof.
  intros P Hi. destruct (pl_buf _ P _ _ Hi) as (a & bs & E & Hl). exists a. unfold buffer, bytes_of. rewrite E. done.
Qed.

Lemma block_request c b : plain c -> block_ok c b -> request_ok c b (request_size c 1).
Proof.
  intros P [Hb Hl]. pose proof (pl_bs _ P). unfold request_ok, request_size. cbn [Z.ltb Z.compare].
  rewrite Z.mul_1_l. lia.
Qed.

(** An entry is written to the file. *)
Lemma write_back c disk i e w : coherent c disk -> cache c !! i = Some e -> c_in_use e = true ->
  let c' := put_bytes c w (write_at (contents (dev c)) (loc c (c_block e)) (bytes_of e)) in
  coherent c' disk /\ keeps c c' /\ (forall p, in_block c (c_block e) p -> contents (dev c') !! p = disk !! p) /\
  (forall p, ~ in_block c (c_block e) p -> contents (dev c') !! p = contents (dev c) !! p).
Proof.
  intros [P Hl Hd He Hr] Hi Hu. destruct (entry_bytes c i e P Hi) as (a & _ & _ & Hlen).
  destruct (He i e Hi Hu) as [[Hb Hbl] Hdisk _]. pose proof (loc_nonneg c _ P Hb).
  set (l := write_at _ _ _). cbn zeta. set (c' := put_bytes c w l).
  assert (Hl' : length l = length (contents (dev c))) by (unfold l; apply length_write_at; lia).
  assert (Hin : forall p, in_block c (c_block e) p -> l !! p = disk !! p).
  { intros p Hp. rewrite Hdisk by done. unfold l, in_block in *. rewrite lookup_write_at, decide_True by lia. done. }
  assert (Hout : forall p, ~ in_block c (c_block e) p -> l !! p = contents (dev c) !! p).
  { intros p Hp. unfold l, in_block in *. rewrite lookup_write_at, decide_False by lia. done. }
  split; [|split; [done|split; [exact Hin|exact Hout]]].
  constructor.
  - destruct P. constructor; done.
  - cbn. congruence.
  - exact Hd.
  - intros j f Hj Huj. destruct (He j f Hj Huj) as [[? ?] H2 H3]. constructor; [|exact H2|].
    + split; [done|]. cbn. rewrite Hl'. done.
    + intros Hcl p Hp. cbn. destruct (decide (in_block c (c_block e) p)) as [Hpe|Hpe]; [by apply Hin|].
      rewrite Hout by done. by apply H3.
  - intros p Hno. cbn. rewrite Hout; [by apply Hr|]. by apply (Hno i e).
Qed.

(** The write of an entry, as the code does it. *)
Lemma raw_write_entry c disk i e : coherent c disk -> cache c !! i = Some e -> c_in_use e = true ->
  exists w a, buffer e = Done (a, bytes_of e) /\ raw_write_blk write_error c (c_block e) 1 a (bytes_of e) =
    Done (0, put_bytes c w (write_at (contents (dev c)) (loc c (c_block e)) (bytes_of e))).
Proof.
  intros C Hi Hu. pose proof (co_plain _ _ C) as P. destruct (entry_bytes c i e P Hi) as (a & Hbuf & _ & Hlen).
  destruct (co_entry _ _ C i e Hi Hu) as [Hb _ _].
  assert (Es : request_size c 1 = block_size c) by (unfold request_size; cbn [Z.ltb Z.compare]; lia).
  destruct (raw_write_ok c (c_block e) 1 a (bytes_of e) P (block_request c _ P Hb)) as (w & E); [lia|].
  exists w, a. split; [done|]. rewrite E. rewrite take_ge by lia. done.
Qed.

Definition uncached (c : channel) (b : Z) : Prop :=
  forall j e, cache c !! j = Some e -> c_in_use e = true -> c_block e <> b.

Lemma reuse_ok c disk i b : coherent c disk -> (i < CACHE_SIZE)%nat -> block_ok c b -> uncached c b ->
  exists c' t a old, reuse_cache write_error c i b = Done c' /\ others i b c' disk /\ keeps c c' /\
    cache c' !! i = Some (mk_cache (Some (a, old)) b t false true) /\ Z.of_nat (length old) = block_size c /\
    read_at (contents (dev c')) (loc c b) (block_size c) = read_at disk (loc c b) (block_size c) /\
    forall j, j <> i -> cache c' !! j = cache c !! j.
Proof.
  intros C Hi Hb Hun. pose proof (co_plain _ _ C) as P. pose proof (pl_bs _ P) as [Hbs _].
  assert (exists e, cache c !! i = Some e) as [e He] by (apply lookup_lt_is_Some; rewrite (pl_len _ P); done).
  destruct (entry_bytes c i e P He) as (a & _ & Hbuf & Hlen).
  unfold reuse_cache, get_entry. rewrite He. cbn [obind].
  (* the entry is clean or it is written *)
  assert (Hwb : exists c1, (if c_dirty e && c_in_use e then
      let* (addr, bs) := buffer e in let* (_, c) := raw_write_blk write_error c (c_block e) 1 addr bs in Done c else Done c) = Done c1 /\
    coherent c1 disk /\ keeps c c1 /\ cache c1 = cache c /\
    (c_in_use e = true -> forall p, in_block c (c_block e) p -> contents (dev c1) !! p = disk !! p)).
  { destruct (c_dirty e) eqn:Ed, (c_in_use e) eqn:Eu; cbn [andb].
    - destruct (raw_write_entry c disk i e C He Eu) as (w & a' & -> & E). cbn [obind]. rewrite E. cbn [obind].
      destruct (write_back c disk i e w C He Eu) as (C' & K & Hin & _). eexists. split; [done|]. done.
    - exists c. split; [done|]. split; [done|]. split; [done|]. done.
    - exists c. split; [done|]. split; [done|]. split; [done|]. split; [done|]. intros _. by apply (co_entry _ _ C i e).
    - exists c. split; [done|]. split; [done|]. split; [done|]. done. }
  destruct Hwb as (c1 & -> & C1 & K1 & Ec & Hclean). cbn [obind]. pose proof (co_plain _ _ C1) as P1.
  destruct K1 as (Kb & Ko & Kl).
  assert (Hib : forall x p, in_block c1 x p <-> in_block c x p) by (intros; unfold in_block, loc; rewrite Kb, Ko; done).
  eexists _, _, a, _. split; [done|]. split; [|split; [done|split; [cbn; rewrite list_lookup_insert_eq by (rewrite Ec, (pl_len _ P); done); rewrite Hbuf; done|split; [done|split]]]].
  - set (new := mk_cache _ _ _ _ _).
    assert (Hne : forall j f, j <> i -> <[i := new]> (cache c1) !! j = Some f -> cache c1 !! j = Some f)
      by (intros j f Hj; rewrite list_lookup_insert_ne by done; done).
    constructor.
    + destruct P1 as [? ? ? ? ? ? ? ? Hlen1 Hbuf1]. constructor; cbn; try done; [rewrite length_insert; done|].
      intros j f. rewrite list_lookup_insert_Some. intros [(-> & <- & _)|[_ Hj]]; [|by apply (Hbuf1 j)].
      exists a, (bytes_of e). cbn. rewrite Kb. done.
    + apply (co_length _ _ C1).
    + intros j k f g Hj Hk Hjf Hkg. apply (co_distinct _ _ C1); [by apply Hne|by apply Hne].
    + intros j f Hj Hjf Hu. apply Hne in Hjf; [|done]. split.
      * destruct (co_entry _ _ C1 j f Hjf Hu). constructor; done.
      * rewrite Ec in Hjf. by apply (Hun j).
    + intros p Hp Hno. cbn. destruct (c_in_use e) eqn:Eu.
      * destruct (decide (in_block c (c_block e) p)) as [Hpe|Hpe]; [symmetry; by apply Hclean|].
        apply (co_rest _ _ C1). intros j f Hj Hu. rewrite Hib. destruct (decide (j = i)) as [->|Hji].
        { rewrite Ec, He in Hj. injection Hj as <-. done. }
        rewrite <- Hib. apply (Hno j f Hji); [cbn; rewrite list_lookup_insert_ne by done; done|done].
      * apply (co_rest _ _ C1). intros j f Hj Hu. destruct (decide (j = i)) as [->|Hji].
        { rewrite Ec, He in Hj. injection Hj as <-. congruence. }
        apply (Hno j f Hji); [cbn; rewrite list_lookup_insert_ne by done; done|done].
  - cbn. symmetry. apply read_at_ext; [apply loc_nonneg; [done|apply Hb]|apply (co_length _ _ C1)|].
    intros p Hp. apply (co_rest _ _ C1). intros j f Hj Hu Hpf. rewrite Ec in Hj. apply (Hun j f Hj Hu).
    apply (in_block_inj c _ _ p); [done|by apply Hib|exact Hp].
  - intros j Hj. cbn. rewrite list_lookup_insert_ne by done. rewrite Ec. done.
Qed.

Lemma store_over (old bs : list Z) : length old = length bs -> store_bytes old 0 bs = Done bs.
Proof.
  intros Hl. unfold store_bytes. cbn [Z.leb Z.compare andb]. destruct (Z.leb_spec (0 + Z.of_nat (length bs)) (Z.of_nat (length old))); [|lia].
  unfold splice. cbn [take Z.to_nat Nat.add app]. rewrite drop_ge, app_nil_r by lia. done.
Qed.

Lemma fill_ok c i a old b t dv u bs : cache c !! i = Some (mk_cache (Some (a, old)) b t dv u) -> length old = length bs ->
  fill_entry c i bs = Done (set_entry c i (mk_cache (Some (a, bs)) b t dv u)).
Proof. intros Hi Hl. unfold fill_entry, get_entry. rewrite Hi. cbn [obind buffer c_buf]. rewrite store_over by done. done. Qed.

(** * Looking up and flushing *)

Lemma find_entry_ok l i b u o :
  match find_entry l i b u o with
  | inl j => exists k e, j = (i + k)%nat /\ l !! k = Some e /\ c_in_use e = true /\ c_block e = b
  | inr r =>
      (forall k e, l !! k = Some e -> c_in_use e = true -> c_block e <> b) /\
      (r = None -> l = [] /\ u = None /\ o = None) /\
      (forall j, r = Some j -> (exists x, u = Some (j, x)) \/ (exists x, o = Some (j, x)) \/ (i <= j < i + length l)%nat)
  end.
Proof.
  revert i u o. induction l as [|e l IH]; intros i u o; cbn [find_entry].
  { split; [done|]. destruct u as [[j x]|], o as [[k y]|]; (split; [done|]); intros ? [= <-]; eauto. }
  destruct (c_in_use e) eqn:Eu; cbn [negb].
  - destruct (Z.eqb_spec (c_block e) b) as [Eb|Hb]; [exists 0%nat, e; rewrite Nat.add_0_r; done|].
    match goal with |- context [find_entry l (S i) b u ?o'] => specialize (IH (S i) u o'); destruct (find_entry l (S i) b u o') as [j|r] end.
    + destruct IH as (k & f & -> & Hk & Hf). exists (S k), f. split; [lia|done].
    + destruct IH as (Hno & Hn & Hr). split; [|split].
      * intros [|k] f; [intros [= <-]; done|apply Hno].
      * intros E. destruct (Hn E) as (_ & _ & Ho). destruct o as [[? ?]|]; [destruct (_ <? _); done|done].
      * intros j Ej. destruct (Hr j Ej) as [?|[[x Ex]|?]]; [auto| |right; right; cbn; lia].
        destruct o as [[k y]|]; [destruct (_ <? _)|]; injection Ex as <- <-; [right; right; cbn; lia|right; left; eauto|right; right; cbn; lia].
  - match goal with |- context [find_entry l (S i) b ?u' o] => specialize (IH (S i) u' o); destruct (find_entry l (S i) b u' o) as [j|r] end.
    + destruct IH as (k & f & -> & Hk & Hf). exists (S k), f. split; [lia|done].
    + destruct IH as (Hno & Hn & Hr). split; [|split].
      * intros [|k] f; [intros [= <-]; congruence|apply Hno].
      * intros E. destruct (Hn E) as (_ & Hu & _). destruct u; done.
      * intros j Ej. destruct (Hr j Ej) as [[x Ex]|[?|?]]; [|auto|right; right; cbn; lia].
        destruct u as [[k y]|]; injection Ex as <- <-; [left; eauto|right; right; cbn; lia].
Qed.

Lemma find_ok c disk b : coherent c disk ->
  exists r c', find_cached_block c b = Done (r, c') /\ coherent c' disk /\ keeps c c' /\
  match r with
  | inl i => exists e, cache c' !! i = Some e /\ c_in_use e = true /\ c_block e = b
  | inr r => c' = c /\ uncached c b /\ exists i, r = Some i /\ (i < CACHE_SIZE)%nat
  end.
Proof.
  intros C. pose proof (co_plain _ _ C) as P. unfold find_cached_block.
  pose proof (find_entry_ok (cache c) 0 b None None) as H. destruct (find_entry (cache c) 0 b None None) as [j|r].
  - destruct H as (k & e & -> & Hk & Hu & Hb). cbn [Nat.add]. unfold get_entry. rewrite Hk. cbn [obind].
    do 2 eexists. split; [done|]. split; [by apply coherent_time|]. split; [done|].
    exists (with_time e (s32 (access_time c + 1))). cbn. rewrite list_lookup_insert_eq by (by apply lookup_lt_Some in Hk). done.
  - destruct H as (Hno & Hn & Hr). do 2 eexists. split; [done|]. do 2 (split; [done|]). split; [done|]. split; [exact Hno|].
    destruct r as [i|]; [|destruct (Hn eq_refl) as [El _]; pose proof (pl_len _ P) as Hl; rewrite El in Hl; done].
    exists i. split; [done|]. destruct (Hr i eq_refl) as [[? ?]|[[? ?]|Hi]]; [done|done|]. rewrite (pl_len _ P) in Hi. lia.
Qed.

(** An entry that holds what the file holds may be marked as clean or dropped. *)
Lemma settle c disk i e t dv u : coherent c disk -> cache c !! i = Some e -> c_in_use e = true ->
  (forall p, in_block c (c_block e) p -> contents (dev c) !! p = disk !! p) ->
  coherent (set_entry c i (mk_cache (c_buf e) (c_block e) t dv u)) disk.
Proof.
  intros [P Hl Hd He Hr] Hi Hu Hsame. pose proof P as [? ? ? ? ? ? ? ? Hlen Hbuf]. pose proof (lookup_lt_Some _ _ _ Hi).
  set (new := mk_cache _ _ _ _ _).
  assert (Hlk : forall j f, <[i := new]> (cache c) !! j = Some f -> j = i /\ f = new \/ j <> i /\ cache c !! j = Some f).
  { intros j f. rewrite list_lookup_insert_Some. intros [(-> & <- & _)|[? ?]]; [left|right]; done. }
  assert (Hold : forall j f, <[i := new]> (cache c) !! j = Some f -> exists g, cache c !! j = Some g /\
    (c_in_use f = true -> c_in_use g = true) /\ c_block g = c_block f).
  { intros j f Hj. destruct (Hlk j f Hj) as [[-> ->]|[_ Hj']]; [exists e|exists f]; done. }
  constructor; cbn.
  - constructor; cbn; try done; [rewrite length_insert; done|]. intros j f Hj.
    destruct (Hlk j f Hj) as [[-> ->]|[_ Hj']]; [apply (Hbuf i e Hi)|by apply (Hbuf j)].
  - done.
  - intros j k f g Hj Hk Huf Hug Eb. destruct (Hold j f Hj) as (f' & Hf' & Hfu & Hfb).
    destruct (Hold k g Hk) as (g' & Hg' & Hgu & Hgb). apply (Hd j k f' g'); auto. congruence.
  - intros j f Hj Huf. destruct (Hlk j f Hj) as [[-> ->]|[_ Hj']].
    + destruct (He i e Hi Hu) as [H1 H2 _]. constructor; [exact H1|exact H2|intros _; exact Hsame].
    + destruct (He j f Hj' Huf) as [H1 H2 H3]. constructor; [exact H1|exact H2|exact H3].
  - intros p Hno. destruct (decide (in_block c (c_block e) p)) as [Hpe|Hpe]; [symmetry; by apply Hsame|].
    apply Hr. intros j f Hj Huf. destruct (decide (j = i)) as [->|Hne].
    + rewrite Hi in Hj. injection Hj as <-. done.
    + apply (Hno j f); [rewrite list_lookup_insert_ne by done; done|done].
Qed.

Definition flushed (inv : bool) (e : unix_cache) : Prop :=
  if inv then c_in_use e = false else c_in_use e = true -> c_dirty e = false.

Lemma flush_from_ok n i c inv disk : coherent c disk -> (i + n = CACHE_SIZE)%nat ->
  (forall j e, (j < i)%nat -> cache c !! j = Some e -> flushed inv e) ->
  exists c', flush_from write_error n i c inv 0 = Done (0, c') /\ coherent c' disk /\ keeps c c' /\
    forall j e, cache c' !! j = Some e -> flushed inv e.
Proof.
  revert i c. induction n as [|n IH]; intros i c C Hn Hdone; pose proof (co_plain _ _ C) as P.
  { exists c. split; [done|]. split; [done|]. split; [done|]. intros j e Hj. apply (Hdone j e); [|done].
    apply lookup_lt_Some in Hj. rewrite (pl_len _ P) in Hj. lia. }
  assert (exists e, cache c !! i = Some e) as [e He] by (apply lookup_lt_is_Some; rewrite (pl_len _ P); lia).
  pose proof (lookup_lt_Some _ _ _ He) as Hilt.
  (* the next entry, from a state in which this one is done *)
  assert (Hgo : forall c1, coherent c1 disk -> keeps c c1 -> (forall j, j <> i -> cache c1 !! j = cache c !! j) ->
    (forall f, cache c1 !! i = Some f -> flushed inv f) ->
    exists c', flush_from write_error n (S i) c1 inv 0 = Done (0, c') /\ coherent c' disk /\ keeps c c' /\
      forall j f, cache c' !! j = Some f -> flushed inv f).
  { intros c1 C1 K1 Hsame Hi. destruct (IH (S i) c1 C1) as (c' & E & C' & K' & Hall); [lia| |].
    - intros j f Hj Hf. destruct (decide (j = i)) as [->|Hne]; [by apply Hi|]. apply (Hdone j f); [lia|]. rewrite <- Hsame by done. done.
    - exists c'. split; [done|]. split; [done|]. split; [by apply (keeps_trans _ c1)|done]. }
  cbn [flush_from]. unfold get_entry. rewrite He. cbn [obind].
  destruct (c_in_use e) eqn:Eu; cbn [negb].
  2: { apply Hgo; [done|done|done|]. intros f Hf. rewrite He in Hf. injection Hf as <-. unfold flushed. destruct inv; congruence. }
  set (e' := if inv then with_in_use e false else e).
  assert (Ee' : e' = mk_cache (c_buf e) (c_block e) (c_time e) (c_dirty e) (if inv then false else c_in_use e))
    by (unfold e'; destruct inv, e; done).
  rewrite Ee'. cbn [c_dirty]. destruct (c_dirty e) eqn:Ed; cbn [negb].
  - cbn [buffer c_buf c_block].
    destruct (raw_write_entry c disk i e C He Eu) as (w & a & Hbuf & Ew). unfold buffer in Hbuf |- *. cbn [c_buf].
    destruct (c_buf e) as [[a' bs']|] eqn:Ebuf; [|done]. injection Hbuf as -> ->. cbn [obind].
    set (e1 := mk_cache _ _ _ _ _). set (c1 := set_entry c i e1).
    assert (P1 : plain c1).
    { destruct P as [? ? ? ? ? ? ? ? Hlen Hb]. constructor; cbn; try done; [rewrite length_insert; done|].
      intros j f. rewrite list_lookup_insert_Some. intros [(<- & <- & _)|[_ Hj]]; [|by apply (Hb j)].
      destruct (Hb i e He) as (x & bs & Ex & Hx). exists x, bs. cbn. split; [congruence|done]. }
    destruct (co_entry _ _ C i e He Eu) as [Hbok _ _]. destruct (entry_bytes c i e P He) as (a2 & _ & _ & Hlen2).
    destruct (raw_write_ok c1 (c_block e) 1 a (bytes_of e) P1 (block_request c1 _ P1 Hbok)) as (w1 & E1);
      [change (request_size c1 1) with (request_size c 1); unfold request_size; cbn [Z.ltb Z.compare]; lia|].
    rewrite E1. cbn [obind negb Z.eqb]. rewrite take_ge by
      (change (request_size c1 1) with (request_size c 1); unfold request_size; cbn [Z.ltb Z.compare]; lia).
    change (contents (dev c1)) with (contents (dev c)). change (loc c1 (c_block e)) with (loc c (c_block e)).
    set (l := write_at _ _ _). destruct (write_back c disk i e w1 C He Eu) as (C2 & K2 & Hin & _). fold l in C2, K2, Hin.
    pose proof (settle (put_bytes c w1 l) disk i e (c_time e) false (if inv then false else true) C2 He Eu Hin) as C3.
    assert (Es : set_entry (put_bytes c1 w1 l) i (with_dirty e1 false) =
      set_entry (put_bytes c w1 l) i (mk_cache (c_buf e) (c_block e) (c_time e) false (if inv then false else true))).
    { unfold set_entry, put_bytes, c1, e1. cbn. unfold set_cache. cbn. rewrite list_insert_insert_eq, Ebuf, Eu. done. }
    rewrite Es. apply Hgo; [done|done| |].
    + intros j Hj. cbn. rewrite list_lookup_insert_ne by done. done.
    + intros f. cbn. rewrite list_lookup_insert_eq by done. intros [= <-]. unfold flushed. destruct inv; done.
  - apply Hgo.
    + apply settle; try done. by apply (co_entry _ _ C i e).
    + done.
    + intros j Hj. cbn. rewrite list_lookup_insert_ne by done. done.
    + intros f. cbn. rewrite list_lookup_insert_eq by done. intros [= <-]. unfold flushed. destruct inv; cbn; congruence.
Qed.

Lemma flush_ok c inv disk : coherent c disk ->
  exists c', flush_cached_blocks write_error c inv = Done (0, c') /\ coherent c' disk /\ keeps c c' /\
    forall j e, cache c' !! j = Some e -> flushed inv e.
Proof. intros C. unfold flush_cached_blocks. apply flush_from_ok; [exact C|reflexivity|]. intros j e Hj. lia. Qed.

(** After a flush the file holds what the channel stands for. *)
Lemma flushed_contents c disk inv : coherent c disk -> (forall j e, cache c !! j = Some e -> flushed inv e) ->
  contents (dev c) = disk.
Proof.
  intros C Hf. apply list_eq. intros p.
  destruct (decide (Exists (fun e => c_in_use e = true /\ in_block c (c_block e) p) (cache c))) as [Hex|Hno].
  - apply Exists_exists in Hex as (e & Hin & Hu & Hp). apply list_elem_of_lookup in Hin as [i Hi].
    apply (co_entry _ _ C i e Hi Hu); [|done]. specialize (Hf i e Hi). destruct inv; cbn in Hf; [congruence|auto].
  - symmetry. apply (co_rest _ _ C). intros i e Hi Hu Hp. apply Hno. apply Exists_exists. exists e.
    split; [by apply list_elem_of_lookup_2 in Hi|done].
Qed.

(** * The loops *)

Lemma read_at_split c o m n : 0 <= o -> 0 <= m -> 0 <= n -> read_at c o (m + n) = read_at c o m ++ read_at c (o + m) n.
Proof.
  intros. unfold read_at. rewrite Z2Nat.inj_add, Z2Nat.inj_add by lia. rewrite <- drop_drop, <- take_take_drop. done.
Qed.

Lemma write_at_split c o a b : 0 <= o -> o + Z.of_nat (length a) + Z.of_nat (length b) <= Z.of_nat (length c) ->
  write_at (write_at c o a) (o + Z.of_nat (length a)) b = write_at c o (a ++ b).
Proof.
  intros Ho Hl. rewrite (write_at_inside c o a), (write_at_inside c o (a ++ b)) by (rewrite ?length_app; lia).
  rewrite write_at_inside by (rewrite ?length_splice; lia). rewrite Z2Nat.inj_add, Nat2Z.id by lia. apply splice_app. lia.
Qed.

Lemma loc_next c b : loc c (b + 1) = loc c b + block_size c.
Proof. unfold loc. lia. Qed.

(** The entry that a block gets. *)
Lemma take_entry c disk b : coherent c disk -> block_ok c b ->
  exists i c1 a old t dv, 
    (let* (r, c) := find_cached_block c b in
     match r with
     | inl i => Done (i, c)
     | inr reuse => let* i := entry_of reuse in let* c := reuse_cache write_error c i b in Done (i, c)
     end) = Done (i, c1) /\
    others i b c1 disk /\ keeps c c1 /\ (i < CACHE_SIZE)%nat /\
    cache c1 !! i = Some (mk_cache (Some (a, old)) b t dv true) /\ Z.of_nat (length old) = block_size c.
Proof.
  intros C Hb. destruct (find_ok c disk b C) as (r & c1 & -> & C1 & K1 & Hr). cbn [obind]. destruct r as [i|r].
  - destruct Hr as (e & He & Hu & Eb). pose proof (co_plain _ _ C1) as P1.
    destruct (entry_bytes c1 i e P1 He) as (a & _ & Ebuf & Hlen). pose proof K1 as (Kb & _ & _).
    exists i, c1, a, (bytes_of e), (c_time e), (c_dirty e). split; [done|].
    split; [rewrite <- Eb; by apply found_others|]. split; [done|].
    split; [apply lookup_lt_Some in He; rewrite (pl_len _ P1) in He; done|].
    split; [rewrite He; destruct e; cbn in *; congruence|congruence].
  - destruct Hr as (-> & Hun & i & -> & Hi). cbn [entry_of obind].
    destruct (reuse_ok c disk i b C Hi Hb Hun) as (c2 & t & a & old & -> & O & K & Hc & Hl & _).
    cbn [obind]. exists i, c2, a, old, t, false. done.
Qed.

Lemma write_loop_ok n c disk b buf : coherent c disk -> 0 <= b -> b + Z.of_nat n < 2 ^ 64 ->
  loc c b + Z.of_nat n * block_size c <= Z.of_nat (length (contents (dev c))) ->
  Z.of_nat n * block_size c <= Z.of_nat (length buf) ->
  exists c', write_loop write_error n c b buf = Done c' /\ keeps c c' /\
    coherent c' (write_at disk (loc c b) (take (Z.to_nat (Z.of_nat n * block_size c)) buf)).
Proof.
  revert c disk b buf. induction n as [|n IH]; intros c disk b buf C Hb Hb64 Hl Hbuf; pose proof (co_plain _ _ C) as P;
    pose proof (pl_bs _ P) as [Hbs _]; pose proof (co_length _ _ C) as Hdl; pose proof (loc_nonneg c b P Hb).
  { exists c. split; [done|]. split; [done|]. rewrite Z.mul_0_l. cbn [Z.to_nat take]. change (Z.to_nat 0) with 0%nat. rewrite take_0.
    rewrite write_at_inside by (cbn; lia). unfold splice. cbn [length app]. rewrite Nat.add_0_r, take_drop. done. }
  cbn [write_loop].
  destruct (take_entry c disk b C) as (i & c1 & a & old & t & dv & E & O & K & Hi & He & Hlen); [split; lia|].
  destruct (find_cached_block c b) as [[r c0]|] eqn:Ef; [|done]. cbn [obind] in E |- *. rewrite E. cbn [obind].
  pose proof K as (Kb & Ko & Kl). rewrite Kb. rewrite load_bytes_ok by lia. change (Z.to_nat 0) with 0%nat. rewrite drop_0. cbn [obind].
  set (bs := take (Z.to_nat (block_size c)) buf).
  assert (Hbsl : Z.of_nat (length bs) = block_size c) by (unfold bs; rewrite length_take; lia).
  rewrite (fill_ok c1 i a old b t dv true bs) by (done || lia). cbn [obind].
  unfold get_entry at 1. cbn [cache set_entry set_cache]. rewrite list_lookup_insert_eq by (apply lookup_lt_Some in He; done). cbn [obind].
  cbn [writethrough set_entry set_cache]. rewrite (pl_wt _ (ot_plain _ _ _ _ O)). cbn [negb].
  set (c2 := set_entry (set_entry c1 i _) i _).
  assert (E2 : c2 = set_entry c1 i (mk_cache (Some (a, bs)) b t true true)).
  { unfold c2, set_entry, set_cache. cbn. rewrite list_insert_insert_eq. done. }
  assert (Hl1 : loc c1 b = loc c b) by (apply keeps_loc; done).
  assert (C2 : coherent c2 (write_at disk (loc c b) bs)).
  { rewrite E2, <- Hl1. apply put_ok; [done|done|split; lia|lia|done]. }
  assert (K2 : keeps c c2) by (rewrite E2; exact K). pose proof K2 as (Kb2 & Ko2 & Kl2).
  rewrite u64_small by range_lia. rewrite Kb2.
  destruct (IH c2 (write_at disk (loc c b) bs) (b + 1) (drop (Z.to_nat (block_size c)) buf) C2) as (c' & E' & K' & C').
  - lia.
  - lia.
  - rewrite (keeps_loc c c2), loc_next, Kl2, Kb2 by done. lia.
  - rewrite Kb2, length_drop. lia.
  - exists c'. split; [exact E'|]. split; [by apply (keeps_trans _ c2)|].
    rewrite (keeps_loc c c2), loc_next, Kb2 in C' by done. rewrite <- Hbsl in C' at 1. rewrite write_at_split in C'.
    + replace (take (Z.to_nat (Z.of_nat (S n) * block_size c)) buf)
        with (bs ++ take (Z.to_nat (Z.of_nat n * block_size c)) (drop (Z.to_nat (block_size c)) buf)); [done|].
      unfold bs. rewrite take_take_drop. f_equal. lia.
    + lia.
    + rewrite Hbsl, length_take, length_drop. lia.
Qed.

(** What an entry holds is what is read. *)
Lemma entry_read c disk i e : coherent c disk -> cache c !! i = Some e -> c_in_use e = true ->
  bytes_of e = read_at disk (loc c (c_block e)) (block_size c).
Proof.
  intros C Hi Hu. pose proof (co_plain _ _ C) as P. destruct (co_entry _ _ C i e Hi Hu) as [[Hb Hbl] Hd _].
  destruct (entry_bytes c i e P Hi) as (_ & _ & _ & Hlen). pose proof (loc_nonneg c _ P Hb). pose proof (co_length _ _ C).
  apply list_eq. intros p. destruct (Nat.lt_ge_cases p (length (bytes_of e))).
  - rewrite lookup_read_at by lia. rewrite Hd by (unfold in_block; lia). f_equal. lia.
  - rewrite !lookup_ge_None_2; [done|unfold read_at; rewrite length_take; lia|done].
Qed.

(** Blocks that are not cached are read from the file. *)
Lemma uncached_read c disk b n : coherent c disk -> 0 <= b ->
  (forall k, 0 <= k < n -> uncached c (b + k)) ->
  read_at (contents (dev c)) (loc c b) (n * block_size c) = read_at disk (loc c b) (n * block_size c).
Proof.
  intros C Hb Hun. pose proof (co_plain _ _ C) as P. pose proof (pl_bs _ P) as [Hbs _]. pose proof (loc_nonneg c b P Hb).
  symmetry. apply read_at_ext; [done|apply (co_length _ _ C)|]. intros p Hp. apply (co_rest _ _ C).
  intros j e Hj Hu Hin. set (k := (Z.of_nat p - loc c b) / block_size c).
  assert (Hk : 0 <= k < n) by (unfold k; split; [apply Z.div_pos; lia|apply Z.div_lt_upper_bound; lia]).
  apply (Hun k Hk j e Hj Hu). apply (in_block_inj c _ _ p); [done|done|]. unfold in_block, loc in *. unfold k.
  pose proof (Z.div_mod (Z.of_nat p - (b * block_size c + offset c)) (block_size c) ltac:(lia)).
  pose proof (Z.mod_pos_bound (Z.of_nat p - (b * block_size c + offset c)) (block_size c) Hbs). nia.
Qed.

(** A block is taken into the cache. *)
Lemma load_ok_entry c disk i b : coherent c disk -> (i < CACHE_SIZE)%nat -> block_ok c b -> uncached c b ->
  exists c1 c', reuse_cache write_error c i b = Done c1 /\ keeps c c1 /\
    fill_entry c1 i (read_at disk (loc c b) (block_size c)) = Done c' /\ coherent c' disk /\ keeps c c' /\
    forall x, x <> b -> uncached c x -> uncached c' x.
Proof.
  intros C Hi Hb Hun. destruct (reuse_ok c disk i b C Hi Hb Hun) as (c1 & t & a & old & E & O & K & Hc & Hl & Hr & Hoth).
  pose proof (co_plain _ _ C) as P. pose proof (pl_bs _ P) as [Hbs _]. destruct Hb as [Hb0 Hbl].
  pose proof (loc_nonneg c b P Hb0). pose proof (co_length _ _ C) as Hdl. pose proof K as (Kb & Ko & Kl).
  set (bs := read_at disk (loc c b) (block_size c)) in *.
  assert (Hbsl : Z.of_nat (length bs) = block_size c) by (unfold bs; rewrite length_read_at; lia).
  exists c1, (set_entry c1 i (mk_cache (Some (a, bs)) b t false true)). split; [done|]. split; [done|].
  split; [apply (fill_ok c1 i a old); [done|lia]|].
  assert (Hl1 : loc c1 b = loc c b) by (by apply keeps_loc).
  split; [|split; [exact K|]].
  - replace disk with (write_at disk (loc c1 b) bs) at 1; [apply put_ok; [done|done|split; lia|lia|]|].
    + intros _. rewrite Hl1, Kb. exact Hr.
    + rewrite Hl1. unfold bs. apply write_read_same; lia.
  - intros x Hx Hux j e. cbn. rewrite list_lookup_insert_Some. intros [(<- & <- & _)|[Hne Hj]] Hu; [done|].
    apply (Hux j e); [rewrite <- Hoth by done; done|done].
Qed.

Definition entries_ok (reuse : list (option nat)) : Prop := Forall (fun r => exists i, r = Some i /\ (i < CACHE_SIZE)%nat) reuse.

Lemma save_blocks_ok reuse c disk b : coherent c disk -> entries_ok reuse -> 0 <= b -> b + Z.of_nat (length reuse) < 2 ^ 64 ->
  loc c b + Z.of_nat (length reuse) * block_size c <= Z.of_nat (length disk) ->
  (forall k, 0 <= k < Z.of_nat (length reuse) -> uncached c (b + k)) ->
  exists c', save_blocks write_error reuse c b (read_at disk (loc c b) (Z.of_nat (length reuse) * block_size c)) = Done c' /\
    coherent c' disk /\ keeps c c'.
Proof.
  revert c b. induction reuse as [|r reuse IH]; intros c b C Hr Hb Hb64 Hl Hun; [by exists c|].
  pose proof (co_plain _ _ C) as P. pose proof (pl_bs _ P) as [Hbs _]. pose proof (co_length _ _ C) as Hdl.
  pose proof (loc_nonneg c b P Hb). apply Forall_cons in Hr as [(i & -> & Hi) Hr]. cbn [length] in *.
  destruct (load_ok_entry c disk i b C Hi) as (c1 & c2 & E1 & K1 & E2 & C2 & K2 & Hun2);
    [split; lia|specialize (Hun 0 ltac:(lia)); rewrite Z.add_0_r in Hun; done|].
  cbn [save_blocks entry_of obind]. rewrite E1. cbn [obind]. pose proof K1 as (Kb1 & _ & _). rewrite Kb1.
  replace (Z.of_nat (S (length reuse)) * block_size c) with (block_size c + Z.of_nat (length reuse) * block_size c) by lia.
  rewrite (read_at_split disk (loc c b)) by lia.
  assert (Hlen : length (read_at disk (loc c b) (block_size c)) = Z.to_nat (block_size c)) by (apply length_read_at; lia).
  rewrite load_bytes_ok by (rewrite ?length_app, ?Hlen; lia). change (Z.to_nat 0) with 0%nat. rewrite drop_0, take_app_length' by done.
  cbn [obind]. rewrite E2. cbn [obind]. pose proof K2 as (Kb2 & _ & Kl2). rewrite Kb2.
  rewrite drop_app_length' by done. rewrite u64_small by range_lia.
  destruct (IH c2 (b + 1) C2 Hr) as (c' & E' & C' & K').
  - lia.
  - lia.
  - rewrite (keeps_loc c c2), loc_next, Kb2 by done. lia.
  - intros k Hk. apply Hun2; [lia|]. rewrite <- Z.add_assoc. apply Hun. lia.
  - rewrite (keeps_loc c c2), loc_next, Kb2 in E' by done. exists c'. split; [exact E'|]. split; [done|].
    by apply (keeps_trans _ c2).
Qed.

(** A lookup does not change which blocks are cached. *)
Lemma find_uncached c b r c' x : find_cached_block c b = Done (r, c') -> uncached c x -> uncached c' x.
Proof.
  unfold find_cached_block. destruct (find_entry (cache c) 0 b None None) as [i|r0]; [|intros [= _ <-]; done].
  unfold get_entry. destruct (cache c !! i) as [e|] eqn:Ei; [|done]. cbn [obind]. intros [= _ <-] Hun j f. cbn.
  rewrite list_lookup_insert_Some. intros [(<- & <- & _)|[_ Hj]]; [apply (Hun i e Ei)|by apply (Hun j f)].
Qed.

Lemma count_uncached_ok n c disk b i reuse : coherent c disk -> 0 <= b -> 1 <= i -> b + i + Z.of_nat n < 2 ^ 64 ->
  entries_ok reuse -> Z.of_nat (length reuse) = i -> (forall k, 0 <= k < i -> uncached c (b + k)) ->
  exists i' reuse' c', count_uncached n c b i reuse = Done (i', reuse', c') /\ coherent c' disk /\ keeps c c' /\
    i <= i' <= i + Z.of_nat n /\ entries_ok reuse' /\ Z.of_nat (length reuse') = i' /\
    (forall k, 0 <= k < i' -> uncached c' (b + k)).
Proof.
  revert c i reuse. induction n as [|n IH]; intros c i reuse C Hb Hi H64 Hr Hlen Hun; cbn [count_uncached].
  { exists i, reuse, c. do 3 (split; [done|]). split; [lia|]. done. }
  rewrite u64_small by range_lia. destruct (find_ok c disk (b + i) C) as (r & c1 & Ef & C1 & K1 & Hfr). rewrite Ef. cbn [obind].
  assert (Hun1 : forall k, 0 <= k < i -> uncached c1 (b + k)).
  { intros k Hk. apply (find_uncached c (b + i) r c1); [done|by apply Hun]. }
  destruct r as [j|r].
  - exists i, reuse, c1. do 3 (split; [done|]). split; [lia|]. done.
  - destruct Hfr as (-> & Hunb & j & -> & Hj).
    destruct (IH c (i + 1) (reuse ++ [Some j]) C1) as (i' & reuse' & c' & E & C' & K' & Hi' & Hr' & Hl' & Hun'); [lia|lia|lia| | | |].
    + apply Forall_app. split; [done|]. apply Forall_singleton. eauto.
    + rewrite length_app. cbn. lia.
    + intros k Hk. destruct (Z.eq_dec k i) as [->|]; [done|]. apply Hun. lia.
    + exists i', reuse', c'. split; [done|]. split; [done|]. split; [done|]. split; [lia|]. done.
Qed.

Lemma read_loop_ok fuel c disk b count addr got : coherent c disk -> 0 <= b -> 0 <= count <= 4 -> b + count < 2 ^ 64 ->
  loc c b + count * block_size c <= Z.of_nat (length disk) -> (Z.to_nat count < fuel)%nat ->
  exists c', read_loop read_error write_error fuel c b count addr got =
      Done (0, got ++ read_at disk (loc c b) (count * block_size c), c') /\ coherent c' disk /\ keeps c c'.
Proof.
  revert c b count addr got. induction fuel as [|fuel IH]; intros c b count addr got C Hb Hc Hb64 Hl Hf; [lia|].
  pose proof (co_plain _ _ C) as P. pose proof (pl_bs _ P) as [Hbs Hbs4]. pose proof (co_length _ _ C) as Hdl.
  pose proof (loc_nonneg c b P Hb). cbn [read_loop]. destruct (Z.ltb_spec 0 count).
  2: { exists c. replace count with 0 by lia. cbn. unfold read_at. cbn [Z.to_nat]. rewrite take_0, app_nil_r. done. }
  destruct (find_ok c disk b C) as (r & c1 & Ef & C1 & K1 & Hr). rewrite Ef. cbn [obind]. pose proof K1 as (Kb1 & Ko1 & Kl1).
  (* the rest, after [m] blocks *)
  assert (Hgo : forall m c2 a2 part, 0 < m <= count -> coherent c2 disk -> keeps c c2 -> part = read_at disk (loc c b) (m * block_size c) ->
    exists c', read_loop read_error write_error fuel c2 (u64 (b + m)) (count - m) a2 (got ++ part) =
      Done (0, got ++ read_at disk (loc c b) (count * block_size c), c') /\ coherent c' disk /\ keeps c c').
  { intros m c2 a2 part Hm C2 K2 ->. pose proof K2 as (Kb2 & _ & _). rewrite u64_small by range_lia.
    assert (Hlm : loc c2 (b + m) = loc c b + m * block_size c) by (rewrite (keeps_loc c c2) by done; unfold loc; lia).
    destruct (IH c2 (b + m) (count - m) a2 (got ++ read_at disk (loc c b) (m * block_size c)) C2) as (c' & E & C' & K');
      [lia|lia|lia|rewrite Hlm, Kb2; nia|lia|].
    exists c'. split; [|split; [done|by apply (keeps_trans _ c2)]]. rewrite E, Hlm, Kb2, <- app_assoc, <- read_at_split by nia.
    replace (m * block_size c + (count - m) * block_size c) with (count * block_size c) by lia. done. }
  destruct r as [i|r].
  - destruct Hr as (e & He & Hu & Eb). unfold get_entry. rewrite He. cbn [obind].
    destruct (entry_bytes c1 i e (co_plain _ _ C1) He) as (a & -> & _ & Hlen). cbn [obind].
    rewrite load_bytes_ok by lia. change (Z.to_nat 0) with 0%nat. rewrite drop_0, take_ge by lia. cbn [obind].
    apply Hgo; [lia|done|done|]. rewrite (entry_read c1 disk i e), Eb, (keeps_loc c c1), Kb1 by done. rewrite Z.mul_1_l. done.
  - destruct Hr as (-> & Hunb & i & -> & Hi). destruct (Z.eqb_spec count 1) as [->|Hc1].
    + destruct (reuse_ok c disk i b C Hi) as (c2 & t & a & old & E & O & K & Hce & Hlo & Hro & _); [split; lia|done|].
      cbn [entry_of obind]. rewrite E. cbn [obind]. unfold get_entry. rewrite Hce. cbn [obind buffer c_buf].
      pose proof K as (Kb2 & Ko2 & Kl2). assert (Hl2 : loc c2 b = loc c b) by (by apply keeps_loc).
      assert (Es : request_size c2 1 = block_size c) by (unfold request_size; cbn [Z.ltb Z.compare]; lia).
      destruct (raw_read_ok c2 b 1 a (ot_plain _ _ _ _ O)) as (w & ->); [rewrite Es; split; [done|]; split; lia|].
      cbn [obind]. rewrite Es, Hl2, Hro. set (bs := read_at disk (loc c b) (block_size c)).
      assert (Hbsl : Z.of_nat (length bs) = block_size c) by (unfold bs; rewrite length_read_at; lia).
      rewrite store_over by lia. cbn [obind cache set_stats]. rewrite Hce. cbn [obind negb Z.eqb block_size set_stats].
      rewrite Kb2, load_bytes_ok by lia. change (Z.to_nat 0) with 0%nat. rewrite drop_0, take_ge by lia. cbn [obind].
      eexists. rewrite Z.mul_1_l. split; [done|]. split; [|exact K].
      assert (C3 : coherent (set_entry c2 i (mk_cache (Some (a, bs)) b t false true)) disk).
      { replace disk with (write_at disk (loc c2 b) bs) at 1; [apply put_ok; [done|done|split; lia|lia|]|].
        - intros _. rewrite Hl2, Kb2. exact Hro.
        - rewrite Hl2. unfold bs. apply write_read_same; lia. }
      apply (coherent_stats _ _ w (bytes_written c2)) in C3. exact C3.
    + destruct (count_uncached_ok (Z.to_nat (count - 1)) c disk b 1 [Some i] C) as (m & reuse & c2 & E & C2 & K2 & Hm & Hre & Hlre & Hun2);
        [done|lia|lia|apply Forall_singleton; eauto|done|intros k Hk; replace (b + k) with b by lia; done|].
      rewrite E. cbn [obind]. pose proof K2 as (Kb2 & _ & Kl2). assert (Hl2 : loc c2 b = loc c b) by (by apply keeps_loc).
      assert (Es : request_size c2 m = m * block_size c)
        by (unfold request_size; destruct (Z.ltb_spec m 0); [lia|]; congruence).
      destruct (raw_read_ok c2 b m addr (co_plain _ _ C2)) as (w & ->);
        [rewrite Es; split; [done|]; rewrite Hl2, Kl2; split; nia|].
      cbn [obind]. rewrite Es, Hl2. cbn [negb Z.eqb].
      replace (read_at (contents (dev c2)) (loc c b) (m * block_size c)) with (read_at disk (loc c b) (m * block_size c))
        by (rewrite <- Hl2, <- Kb2; symmetry; apply uncached_read; [done|done|exact Hun2]).
      destruct (save_blocks_ok reuse (set_stats c2 w (bytes_written c2)) disk b (coherent_stats _ _ _ _ C2) Hre) as (c3 & E3 & C3 & K3).
      * done.
      * lia.
      * rewrite Hlre. change (loc (set_stats c2 _ _) b) with (loc c2 b). cbn [block_size set_stats]. rewrite Hl2, Kb2. nia.
      * rewrite Hlre. exact Hun2.
      * change (loc (set_stats c2 _ _) b) with (loc c2 b) in E3. cbn [block_size set_stats] in E3. rewrite Hl2, Kb2, Hlre in E3.
        rewrite E3. cbn [obind]. apply Hgo; [lia|done| |done]. apply (keeps_trans _ c2); [done|exact K3].
Qed.
End io.
