(* ===== verification/UnixIoProperties.v ===== *)
(** The channel of unix_io.c as an array of bytes, and what its errors lose. *)

From S2P Require Import Prelude Bitops Bitmap64 UnixIo UnixIoSpec.

Local Open Scope Z_scope.

(** * The array of bytes *)

Record array := mk_array { bytes : list Z; unit_size : Z; shift : Z }.

Inductive io_cmd :=
| IRead (block count : Z)
| IWrite (block count : Z) (data : list Z)
| IWriteByte (off size : Z) (data : list Z)
| IFlush
| ISetBlksize (n : Z).

Definition array_size (a : array) (count : Z) : Z := if count <? 0 then - count else count * unit_size a.
Definition array_loc (a : array) (b : Z) : Z := b * unit_size a + shift a.
Definition with_bytes (a : array) (l : list Z) : array := mk_array l (unit_size a) (shift a).

(** The bytes that are read, and the array afterwards. *)
Definition array_step (x : io_cmd) (a : array) : list Z * array :=
  match x with
  | IRead b count => (read_at (bytes a) (array_loc a b) (array_size a count), a)
  | IWrite b count data =>
      ([], with_bytes a (write_at (bytes a) (array_loc a b) (take (Z.to_nat (array_size a count)) data)))
  | IWriteByte off size data => ([], with_bytes a (write_at (bytes a) (off + shift a) (take (Z.to_nat size) data)))
  | IFlush => ([], a)
  | ISetBlksize n => ([], mk_array (bytes a) n (shift a))
  end.

(** Requests that stay in the file. *)
Definition io_allowed (x : io_cmd) (a : array) : Prop :=
  let len := Z.of_nat (length (bytes a)) in
  match x with
  | IRead b count =>
      0 <= b /\ b + Z.max 0 count < 2 ^ 64 /\ array_size a count < 2 ^ 31 /\ array_loc a b + array_size a count <= len
  | IWrite b count data =>
      0 <= b /\ b + Z.max 0 count < 2 ^ 64 /\ array_size a count < 2 ^ 31 /\ array_loc a b + array_size a count <= len /\
      array_size a count <= Z.of_nat (length data)
  | IWriteByte off size data =>
      0 <= off /\ 0 <= size < 2 ^ 31 /\ off + shift a + size <= len /\ size <= Z.of_nat (length data)
  | IFlush => True
  | ISetBlksize n => 0 < n /\ 4 * n < 2 ^ 31
  end.

Fixpoint array_run (l : list io_cmd) (a : array) : list (Z * list Z) * array :=
  match l with
  | [] => ([], a)
  | x :: l =>
      let (r, a) := array_step x a in
      let (rs, a) := array_run l a in ((0, r) :: rs, a)
  end.

Fixpoint io_allowed_run (l : list io_cmd) (a : array) : Prop :=
  match l with
  | [] => True
  | x :: l => io_allowed x a /\ io_allowed_run l (snd (array_step x a))
  end.

Section io.
Context (read_error write_error : option (Z -> Z -> Z -> Z -> Z -> Z)).

(** * The channel *)

Definition io_step (x : io_cmd) (s : channel * allocator) : outcome (Z * list Z * (channel * allocator)) :=
  let (c, al) := s in
  match x with
  | IRead b count => let* (r, bs, c) := unix_read_blk64 read_error write_error c b count 0 in Done (r, bs, (c, al))
  | IWrite b count data => let* (r, c) := unix_write_blk64 write_error c b count 0 data in Done (r, [], (c, al))
  | IWriteByte off size data => let* (r, c) := unix_write_byte write_error c off size data in Done (r, [], (c, al))
  | IFlush => let* (r, c) := unix_flush write_error c in Done (r, [], (c, al))
  | ISetBlksize n => let* (r, c, al) := unix_set_blksize write_error c al n in Done (r, [], (c, al))
  end.

Fixpoint io_run (l : list io_cmd) (s : channel * allocator) : outcome (list (Z * list Z) * (channel * allocator)) :=
  match l with
  | [] => Done ([], s)
  | x :: l =>
      let* (r, bs, s) := io_step x s in
      let* (rs, s) := io_run l s in
      Done ((r, bs) :: rs, s)
  end.

Definition is_array (s : channel * allocator) (a : array) : Prop :=
  coherent (fst s) (bytes a) /\ block_size (fst s) = unit_size a /\ offset (fst s) = shift a /\ no_oom (snd s).

(** Without cached blocks the channel stands for the file. *)
Lemma idle_coherent c : plain c -> (forall i e, cache c !! i = Some e -> c_in_use e = false) ->
  coherent c (contents (dev c)).
Proof.
  intros P Hno. constructor; try done.
  - intros i j e f Hi _ Hu. rewrite (Hno i e Hi) in Hu. done.
  - intros i e Hi Hu. rewrite (Hno i e Hi) in Hu. done.
Qed.

Lemma checked c {A} (bad : Z -> A) k : plain c -> check_magic c bad k = k.
Proof. intros P. unfold check_magic. destruct (pl_magic _ P) as [-> ->]. done. Qed.

Lemma plain_put c w l : plain c -> plain (put_bytes c w l).
Proof. intros []. constructor; done. Qed.

Lemma array_size_eq c al a count : is_array (c, al) a -> request_size c count = array_size a count.
Proof. intros (_ & Hb & _). cbn in Hb. unfold request_size, array_size. rewrite Hb. done. Qed.

Lemma array_loc_eq c al a b : is_array (c, al) a -> loc c b = array_loc a b.
Proof. intros (_ & Hb & Ho & _). cbn in *. unfold loc, array_loc. rewrite Hb, Ho. done. Qed.

Lemma keeps_array c c' al a l : is_array (c, al) a -> coherent c' l -> keeps c c' -> is_array (c', al) (with_bytes a l).
Proof. intros (_ & Hb & Ho & Hal) C (Kb & Ko & _). cbn in *. split; [done|]. cbn. split; [congruence|]. split; [congruence|done]. Qed.

(** A command gives what the array gives. *)
Definition io_step_ok (x : io_cmd) (s : channel * allocator) (a : array) : Prop :=
  exists s', io_step x s = Done (0, fst (array_step x a), s') /\ is_array s' (snd (array_step x a)).

Lemma read_step c al a b count : is_array (c, al) a -> io_allowed (IRead b count) a -> io_step_ok (IRead b count) (c, al) a.
Proof.
  intros HA (Hb & H64 & H31 & Hl). pose proof HA as (C & Hbs & Ho & Hal). cbn [fst snd] in *. pose proof (co_plain _ _ C) as P.
  unfold io_step_ok. cbn [io_step array_step fst snd]. rewrite <- (array_size_eq c al a), <- (array_loc_eq c al a) in * by done.
  pose proof (pl_bs _ P) as [Hbs0 _]. pose proof (co_length _ _ C) as Hdl.
  unfold unix_read_blk64. rewrite checked by done. rewrite (pl_nocache _ P).
  assert (Hgoal : forall c', coherent c' (bytes a) -> keeps c c' -> is_array (c', al) a).
  { intros c' C' K. pose proof (keeps_array c c' al a (bytes a) HA C' K) as H. destruct a. exact H. }
  destruct ((count <? 0) || (WRITE_DIRECT_SIZE <? count)) eqn:Ec.
  - destruct (flush_ok write_error c false (bytes a) C) as (c1 & -> & C1 & K1 & Hf). cbn [obind negb Z.eqb].
    pose proof K1 as (Kb1 & Ko1 & Kl1). assert (Es : request_size c1 count = request_size c count) by (unfold request_size; rewrite Kb1; done).
    destruct (raw_read_ok read_error c1 b count 0 (co_plain _ _ C1)) as (w & ->).
    { rewrite Es. split; [done|]. rewrite (keeps_loc c c1), Kl1 by done. split; [|lia].
      unfold request_size in *. destruct (Z.ltb_spec count 0); nia. }
    cbn [obind]. rewrite (flushed_contents c1 (bytes a) false C1 Hf), Es, (keeps_loc c c1) by done.
    eexists. split; [done|]. apply Hgoal; [by apply coherent_stats|done].
  - apply orb_false_iff in Ec as [Ec1 Ec2]. apply Z.ltb_ge in Ec1, Ec2. unfold WRITE_DIRECT_SIZE in Ec2.
    assert (Es : request_size c count = count * block_size c) by (unfold request_size; destruct (Z.ltb_spec count 0); [lia|done]).
    rewrite Es in *. destruct (read_loop_ok read_error write_error (S (Z.to_nat count)) c (bytes a) b count 0 [] C) as (c' & -> & C' & K');
      [lia|lia|lia|lia|lia|]. cbn [obind app]. eexists. split; [done|]. by apply Hgoal.
Qed.

Lemma write_step c al a b count data : is_array (c, al) a -> io_allowed (IWrite b count data) a ->
  io_step_ok (IWrite b count data) (c, al) a.
Proof.
  intros HA (Hb & H64 & H31 & Hl & Hd). pose proof HA as (C & Hbs & Ho & Hal). cbn [fst snd] in *. pose proof (co_plain _ _ C) as P.
  unfold io_step_ok. cbn [io_step array_step fst snd]. rewrite <- (array_size_eq c al a), <- (array_loc_eq c al a) in * by done.
  pose proof (pl_bs _ P) as [Hbs0 _]. pose proof (co_length _ _ C) as Hdl.
  unfold unix_write_blk64. rewrite checked by done. rewrite (pl_nocache _ P).
  destruct ((count <? 0) || (WRITE_DIRECT_SIZE <? count)) eqn:Ec.
  - destruct (flush_ok write_error c true (bytes a) C) as (c1 & -> & C1 & K1 & Hf). cbn [obind negb Z.eqb].
    pose proof K1 as (Kb1 & Ko1 & Kl1). assert (Es : request_size c1 count = request_size c count) by (unfold request_size; rewrite Kb1; done).
    assert (Hsz : 0 <= request_size c count) by (unfold request_size in *; destruct (Z.ltb_spec count 0); nia).
    destruct (raw_write_ok write_error c1 b count 0 data (co_plain _ _ C1)) as (w & ->).
    { rewrite Es. split; [done|]. rewrite (keeps_loc c c1), Kl1 by done. lia. }
    { rewrite Es. lia. }
    cbn [obind]. rewrite (flushed_contents c1 (bytes a) true C1 Hf), Es, (keeps_loc c c1) by done.
    eexists. split; [done|]. set (l := write_at _ _ _).
    assert (Hll : length l = length (bytes a)).
    { unfold l. apply length_write_at; [by apply loc_nonneg|]. rewrite length_take. lia. }
    apply (keeps_array c _ al a); [done| |split; [done|split; [done|cbn; congruence]]].
    apply (idle_coherent (put_bytes c1 w l)); [apply plain_put, (co_plain _ _ C1)|exact Hf].
  - apply orb_false_iff in Ec as [Ec1 Ec2]. apply Z.ltb_ge in Ec1, Ec2. unfold WRITE_DIRECT_SIZE in Ec2.
    assert (Es : request_size c count = count * block_size c) by (unfold request_size; destruct (Z.ltb_spec count 0); [lia|done]).
    rewrite Es in *. rewrite (pl_wt _ P). cbn [obind].
    destruct (write_loop_ok write_error (Z.to_nat count) c (bytes a) b data C) as (c' & -> & K' & C'); [lia|lia|rewrite Z2Nat.id by lia; lia..|].
    cbn [obind]. rewrite Z2Nat.id in C' by lia. eexists. split; [done|]. by apply (keeps_array c _ al a).
Qed.

Lemma plain_set_dev c d : plain c -> events d = [] -> plain (set_dev c d).
Proof. intros [] Hd. constructor; done. Qed.

Lemma write_byte_step c al a off size data : is_array (c, al) a -> io_allowed (IWriteByte off size data) a ->
  io_step_ok (IWriteByte off size data) (c, al) a.
Proof.
  intros HA (Hoff & Hsz & Hl & Hd). pose proof HA as (C & Hbs & Ho & Hal). cbn [fst snd] in *. pose proof (co_plain _ _ C) as P.
  unfold io_step_ok. cbn [io_step array_step fst snd]. pose proof (pl_off _ P). pose proof (co_length _ _ C) as Hdl.
  unfold unix_write_byte. rewrite checked by done. rewrite (pl_align _ P). cbn [negb Z.eqb].
  destruct (flush_ok write_error c true (bytes a) C) as (c1 & -> & C1 & K1 & Hf). cbn [obind negb Z.eqb].
  pose proof K1 as (Kb1 & Ko1 & Kl1). pose proof (pl_events _ (co_plain _ _ C1)) as Hev.
  unfold sys_lseek, next_event. rewrite Hev. rewrite load_bytes_ok by lia. change (Z.to_nat 0) with 0%nat. rewrite drop_0. cbn [obind].
  unfold sys_write, sys_pwrite, next_event. cbn [dev set_dev events set_fpos fpos contents]. rewrite Hev.
  cbn [dev set_dev events set_fpos fpos contents]. rewrite length_take, Nat.min_l, Z2Nat.id, Z.eqb_refl by lia.
  rewrite (flushed_contents c1 (bytes a) true C1 Hf), Ko1, Ho.
  eexists. split; [done|]. set (l := write_at _ _ _).
  assert (Hll : length l = length (bytes a)) by (unfold l; apply length_write_at; rewrite ?length_take; lia).
  apply (keeps_array c _ al a); [done| |split; [done|split; [done|cbn; congruence]]].
  match goal with |- coherent ?x l => change l with (contents (dev x)) end.
  apply idle_coherent; [|exact Hf]. apply plain_set_dev; [apply plain_set_dev; [apply (co_plain _ _ C1)|]|]; done.
Qed.

Lemma flush_step c al a : is_array (c, al) a -> io_step_ok IFlush (c, al) a.
Proof.
  intros HA. pose proof HA as (C & Hbs & Ho & Hal). cbn [fst snd] in *. pose proof (co_plain _ _ C) as P.
  unfold io_step_ok. cbn [io_step array_step fst snd]. unfold unix_flush. rewrite checked by done.
  destruct (flush_ok write_error c false (bytes a) C) as (c1 & -> & C1 & K1 & Hf). cbn [obind Z.eqb].
  unfold sys_other, next_event. rewrite (pl_events _ (co_plain _ _ C1)). cbn [obind]. eexists. split; [done|].
  pose proof (keeps_array c c1 al a (bytes a) HA C1 K1) as H. destruct a, c1; exact H.
Qed.

(** New buffers of the size of a block, none of them in use. *)
Lemma alloc_entries_ok c l al : no_oom al -> align c = 0 ->
  exists l' al', alloc_entries c l al = (0, l', al') /\ no_oom al' /\ length l' = length l /\
    forall i e, l' !! i = Some e -> c_in_use e = false /\ exists a, c_buf e = Some (a, zeros (block_size c)).
Proof.
  intros Hal Ha. revert al Hal. induction l as [|x l IH]; intros al Hal; cbn [alloc_entries]; [by exists [], al|].
  unfold io_channel_alloc_buf. rewrite mem_malloc_ok by done. rewrite Ha. cbn [negb Z.eqb andb].
  destruct (IH (bump al)) as (l' & al' & -> & Hal' & Hl & Hall); [done|]. do 2 eexists. split; [done|]. split; [done|].
  split; [cbn; lia|]. intros [|i] e; [|apply Hall]. intros [= <-]. cbn. split; [done|]. eauto.
Qed.

Lemma set_blksize_step c al a n : is_array (c, al) a -> io_allowed (ISetBlksize n) a -> io_step_ok (ISetBlksize n) (c, al) a.
Proof.
  intros HA (Hn & Hn4). pose proof HA as (C & Hbs & Ho & Hal). cbn [fst snd] in *. pose proof (co_plain _ _ C) as P.
  unfold io_step_ok. cbn [io_step array_step fst snd]. unfold unix_set_blksize. rewrite checked by done.
  destruct (Z.eqb_spec (block_size c) n) as [E|Hne]; cbn [negb].
  { cbn [obind]. eexists. split; [done|]. subst n. rewrite Hbs. destruct a; exact HA. }
  destruct (flush_ok write_error c false (bytes a) C) as (c1 & -> & C1 & K1 & Hf). cbn [obind negb Z.eqb].
  pose proof (co_plain _ _ C1) as P1. pose proof K1 as (Kb1 & Ko1 & Kl1).
  unfold alloc_cache, free_cache. cbn [cache set_time set_bounce set_cache set_block_size].
  match goal with |- context [alloc_entries ?x ?l al] => destruct (alloc_entries_ok x l al) as (l' & al' & -> & Hal' & Hl' & Hall) end;
    [done|apply (pl_align _ P1)|]. cbn [negb Z.eqb align force_bounce set_cache set_time set_bounce set_block_size].
  rewrite (pl_align _ P1), (pl_bounce _ P1). cbn [negb Z.eqb orb obind].
  eexists. split; [done|]. split; [|split; [done|split; [cbn; congruence|done]]]. cbn [fst bytes].
  rewrite <- (flushed_contents c1 (bytes a) false C1 Hf).
  match goal with |- coherent ?x _ => apply (idle_coherent x) end; [|intros i e Hi; apply (Hall i e Hi)].
  destruct P1. constructor; cbn; try done.
  - rewrite Hl', length_fmap. done.
  - intros i e Hi. destruct (Hall i e Hi) as [_ [x Hx]]. exists x. eexists. split; [exact Hx|].
    cbn. unfold zeros. rewrite length_replicate. lia.
Qed.

Lemma io_step_all x s a : is_array s a -> io_allowed x a -> io_step_ok x s a.
Proof.
  destruct s as [c al], x; intros; auto using read_step, write_step, write_byte_step, flush_step, set_blksize_step.
Qed.

Lemma io_run_ok l s a : is_array s a -> io_allowed_run l a ->
  exists s', io_run l s = Done (fst (array_run l a), s') /\ is_array s' (snd (array_run l a)).
Proof.
  revert s a. induction l as [|x l IH]; intros s a HA Hal; [by exists s|]. destruct Hal as [Hx Hal]. cbn [io_run array_run].
  destruct (io_step_all x s a HA Hx) as (s1 & -> & HA1). cbn [obind]. destruct (array_step x a) as [r a1]. cbn [fst snd] in *.
  destruct (IH s1 a1 HA1 Hal) as (s2 & -> & HA2). cbn [obind]. destruct (array_run l a1) as [rs a2]. cbn [fst snd] in *.
  eexists. split; [done|]. done.
Qed.

Lemma close_ok c al a : is_array (c, al) a -> refcount c <= 1 ->
  exists d, unix_close write_error c = Done (0, inr d) /\ contents d = bytes a.
Proof.
  intros (C & _) Hr. cbn in C. pose proof (co_plain _ _ C) as P. unfold unix_close. rewrite checked by done.
  cbn [refcount set_refcount]. destruct (Z.ltb_spec 0 (refcount c - 1)); [lia|].
  assert (C0 : coherent (set_refcount c (refcount c - 1)) (bytes a)).
  { destruct C as [[] ? ? He ?]. constructor; try done. intros i e Hi Hu. destruct (He i e Hi Hu). constructor; done. }
  destruct (flush_ok write_error _ false (bytes a) C0) as (c1 & -> & C1 & _ & Hf). cbn [obind].
  unfold sys_other, next_event. rewrite (pl_events _ (co_plain _ _ C1)). eexists. split; [done|].
  apply (flushed_contents c1 (bytes a) false C1 Hf).
Qed.

(** The commands do not change the reference count. *)
Lemma io_run_close l s a : is_array s a -> io_allowed_run l a ->
  exists s', io_run l s = Done (fst (array_run l a), s') /\
    exists d, unix_close write_error (set_refcount (fst s') 1) = Done (0, inr d) /\ contents d = bytes (snd (array_run l a)).
Proof.
  intros HA Hl. destruct (io_run_ok l s a HA Hl) as ([c' al'] & E & HA'). exists (c', al'). split; [done|].
  apply (close_ok _ al'); [|cbn; lia]. destruct HA' as (C & Hb & Ho & Hal). split; [|done].
  cbn [fst] in *. destruct C as [[] ? ? He ?]. constructor; try done. intros i e Hi Hu. destruct (He i e Hi Hu). constructor; done.
Qed.
End io.

(** * Claims *)

(** C12: the write-back cache of the unix I/O manager does not show.  Any sequence of
    block reads and writes of any size, byte writes, flushes and changes of the
    block size that stays in the file returns exactly what an array of bytes
    returns, whatever is cached, evicted or written late; and when the channel is
    closed afterwards the file holds the bytes of that array. *)
Theorem io_cache_transparent read_error write_error l c al a :
  is_array (c, al) a -> io_allowed_run l a ->
  exists s, io_run read_error write_error l (c, al) = Done (fst (array_run l a), s) /\
    exists d, unix_close write_error (set_refcount (fst s) 1) = Done (0, inr d) /\ contents d = bytes (snd (array_run l a)).
Proof. apply io_run_close. Qed.

(** A channel on a file of 64 bytes, with blocks of four bytes. *)
Definition demo_bytes : list Z := seqZ 0 64.

Definition demo_channel (evs : list event) : channel :=
  mk_chan EXT2_ET_MAGIC_IO_CHANNEL 4 1 false 0 EXT2_ET_MAGIC_UNIX_IO_CHANNEL false false 0 0
    (replicate 8 (no_cache (Some (9, zeros 4)))) None 0 0 (mk_dev demo_bytes 0 evs).

Definition demo_mem : allocator := mk_alloc 10 (fun _ => false).

(** Ten blocks are dirtied, which evicts two of them; then more than four are read. *)
Definition demo_io : list io_cmd :=
  [IWrite 0 4 (replicate 16 100); IWrite 4 4 (replicate 16 101); IRead 0 2; IWrite 8 2 (replicate 8 102); IRead 7 3;
   IRead 0 12; IWrite 3 (-6) (replicate 6 103); IRead 3 2; IWriteByte 1 2 [104; 105]; ISetBlksize 8; IRead 0 2; IFlush].

Lemma io_cache_transparent_witness :
  exists s, io_run None None demo_io (demo_channel [], demo_mem) =
    Done (fst (array_run demo_io (mk_array demo_bytes 4 0)), s) /\
  exists d, unix_close None (set_refcount (fst s) 1) = Done (0, inr d) /\
    contents d = bytes (snd (array_run demo_io (mk_array demo_bytes 4 0))).
Proof.
  apply io_cache_transparent.
  - split; [|done]. cbn [fst bytes]. apply (idle_coherent (demo_channel [])).
    + constructor; try done; try (cbn; lia). cbn [cache demo_channel]. intros i e Hi. apply lookup_replicate in Hi as [-> _]. by exists 9, (zeros 4).
    + cbn [cache demo_channel]. intros i e Hi. apply lookup_replicate in Hi as [-> _]. done.
  - cbn [io_allowed_run demo_io]. repeat split; vm_compute; try done; intros; done.
Defined.

(** * What the cache loses *)

(** The bytes of the file when the channel is closed, and the result. *)
Definition closed (r : outcome (Z * (channel + device))) : option (Z * list Z) :=
  match r with Done (e, inr d) => Some (e, contents d) | _ => None end.

(** Eight dirty blocks, and a ninth one that takes the place of the first, whose
    write fails twice ([pwrite], then [lseek] and [write]) with EIO.  No call
    returns an error, and the file does not get the block. *)
Definition evict_failing : outcome (list Z * option (Z * list Z)) :=
  let* (rs, s) := io_run None None
    [IWrite 0 4 (replicate 16 100); IWrite 4 4 (replicate 16 101); IWrite 8 1 (replicate 4 102); IFlush]
    (demo_channel [Fail 5; Full; Fail 5], demo_mem) in
  Done (rs.*1, closed (unix_close None (fst s))).

Example evicted_block_lost : evict_failing =
  Done ([0; 0; 0; 0], Some (0, [0; 1; 2; 3] ++ replicate 12 100 ++ replicate 16 101 ++ replicate 4 102 ++ seqZ 36 28)).
Proof. vm_compute. reflexivity. Qed.

(** A flush that invalidates forgets a block whose write failed: the error is
    returned, but the next flush has nothing left to write. *)
Definition invalidate_failing : outcome (list Z * option (Z * list Z)) :=
  let* (rs, s) := io_run None None
    [IWrite 0 1 (replicate 4 100); IWriteByte 32 1 [7]; IFlush] (demo_channel [Fail 5; Full; Fail 5], demo_mem) in
  Done (rs.*1, closed (unix_close None (fst s))).

Example invalidated_block_lost : invalidate_failing = Done ([0; 5; 0], Some (0, demo_bytes)).
Proof. vm_compute. reflexivity. Qed.

(** Off and on again: the blocks that were cached before come back, although the
    file has been written since. *)
Definition cache_off_on : outcome (list Z) :=
  let* (_, _, c) := unix_read_blk64 None None (demo_channel []) 0 1 0 in
  let* (_, c) := unix_set_option None c (OptCache false) in
  let* (_, c) := unix_write_blk64 None c 0 1 0 (replicate 4 100) in
  let* (_, c) := unix_set_option None c (OptCache true) in
  let* (_, bs, _) := unix_read_blk64 None None c 0 1 0 in
  Done bs.

Example cache_on_is_stale : cache_off_on = Done [0; 1; 2; 3].
Proof. vm_compute. reflexivity. Qed.

(** A new offset moves a dirty block: it is written where the block of that
    number is now. *)
Definition offset_dirty : outcome (option (Z * list Z)) :=
  let* (_, c) := unix_write_blk64 None (demo_channel []) 0 1 0 (replicate 4 100) in
  let* (_, c) := unix_set_option None c (OptOffset (Some 8)) in
  Done (closed (unix_close None c)).

Example offset_moves_block : offset_dirty = Done (Some (0, seqZ 0 8 ++ replicate 4 100 ++ seqZ 12 52)).
Proof. vm_compute. reflexivity. Qed.

(** Of three blocks that are read together only the last one is cached: each of
    them gets the same entry. *)
Example read_caches_last :
  match unix_read_blk64 None None (demo_channel []) 0 3 0 with
  | Done (_, _, c) => filter (fun e : unix_cache => c_in_use e = true) (cache c)
  | Crash _ => []
  end = [mk_cache (Some (9, [8; 9; 10; 11])) 2 3 false true].
Proof. vm_compute. reflexivity. Qed.

(** A channel whose device wants requests of sixteen bytes, with blocks of eight. *)
Definition bounce_channel : channel :=
  mk_chan EXT2_ET_MAGIC_IO_CHANNEL 8 1 false 16 EXT2_ET_MAGIC_UNIX_IO_CHANNEL false false 0 0
    (replicate 8 (no_cache (Some (3, zeros 16)))) (Some (zeros 16)) 0 0 (mk_dev demo_bytes 0 []).

(** Block 0 is read and written as it should. *)
Example bounce_block0 :
  (let* (r, bs, _) := raw_read_blk None bounce_channel 0 1 3 in Done (r, bs)) = Done (0, seqZ 0 8) /\
  (let* (r, c) := raw_write_blk None bounce_channel 0 1 3 (replicate 8 100) in Done (r, contents (dev c))) =
    Done (0, replicate 8 100 ++ seqZ 8 56).
Proof. split; vm_compute; reflexivity. Qed.

(** Block 1 starts in the middle of the aligned block: what is copied is the size
    of the request less the offset, here nothing, and the loop goes on with the
    next aligned block.  The read gives block 2; the write ends up there too. *)
Example bounce_block1 :
  (let* (r, bs, _) := raw_read_blk None bounce_channel 1 1 3 in Done (r, bs)) = Done (0, seqZ 16 8) /\
  (let* (r, c) := raw_write_blk None bounce_channel 1 1 3 (replicate 8 100) in Done (r, contents (dev c))) =
    Done (0, seqZ 0 16 ++ replicate 8 100 ++ seqZ 24 40).
Proof. split; vm_compute; reflexivity. Qed.

(** Four bytes from there: the number of bytes to copy is negative. *)
Example bounce_negative : raw_read_blk None bounce_channel 1 (-4) 3 = Crash BadPointer.
Proof. vm_compute. reflexivity. Qed.
