(* ===== verification/UnixBlockIo.v ===== *)
(** The channel of unix_io.c as the channel that the other components read and write
    blocks with: it keeps what it promises to them. *)

From S2P Require Import Prelude Bitops BlockIo Bitmap64 UnixIo UnixIoSpec UnixIoProperties.

Local Open Scope Z_scope.

Section unix.
Context (read_error write_error : option (Z -> Z -> Z -> Z -> Z -> Z)).

#[export] Instance unix_block_io : BlockIo channel := {|
  read_blk c b := unix_read_blk64 read_error write_error c b 1 0;
  write_blk c b data := unix_write_blk64 write_error c b 1 0 data |}.

(** The blocks that a channel stands for. *)
Definition unix_rep (c : channel) (d : gmap Z (list Z)) : Prop :=
  exists al a, is_array (c, al) a /\ unit_size a < 2 ^ 31 /\ forall b bs, d !! b = Some bs ->
    0 <= b /\ b + 1 < 2 ^ 64 /\ array_loc a b + unit_size a <= Z.of_nat (length (bytes a)) /\
    read_at (bytes a) (array_loc a b) (unit_size a) = bs.

Lemma array_sizes c al a : is_array (c, al) a -> 0 < unit_size a /\ 0 <= shift a.
Proof. intros ([P _ _ _ _] & Hb & Ho & _). cbn in *. rewrite <- Hb, <- Ho. split; apply P. Qed.

Lemma unix_read_ok c d b bs : unix_rep c d -> d !! b = Some bs -> exists c', read_blk c b = Done (0, bs, c') /\ unix_rep c' d.
Proof.
  intros (al & a & Ha & Hu & Hd) Hb. destruct (Hd b bs Hb) as (H0 & H64 & Hl & Hr). destruct (array_sizes c al a Ha) as [Hpos Hsh].
  assert (Es : array_size a 1 = unit_size a) by (unfold array_size; cbn; lia).
  destruct (read_step read_error write_error c al a b 1 Ha) as ([c' al'] & Hs & Ha').
  { cbn [io_allowed]. rewrite Es. repeat split; lia. }
  cbn [io_step array_step fst snd] in *. apply obind_Done in Hs as ([[r bs'] c''] & Hrd & [= -> Hbs -> ->]).
  rewrite Es, Hr in Hbs. subst bs'. exists c'. split; [exact Hrd|]. exists al', a. done.
Qed.

Lemma unix_write_ok c d b bs data : unix_rep c d -> d !! b = Some bs -> length data = length bs ->
  exists c', write_blk c b data = Done (0, c') /\ unix_rep c' (<[b := data]> d).
Proof.
  intros (al & a & Ha & Hu & Hd) Hb Hlen. destruct (Hd b bs Hb) as (H0 & H64 & Hl & Hr). destruct (array_sizes c al a Ha) as [Hpos Hsh].
  assert (Es : array_size a 1 = unit_size a) by (unfold array_size; cbn; lia). assert (Hloc : 0 <= array_loc a b) by (unfold array_loc; nia).
  assert (Hdl : Z.of_nat (length data) = unit_size a) by (rewrite Hlen, <- Hr, length_read_at by lia; lia).
  destruct (write_step read_error write_error c al a b 1 data Ha) as ([c' al'] & Hs & Ha').
  { cbn [io_allowed]. rewrite Es. repeat split; lia. }
  cbn [io_step array_step fst snd] in *. apply obind_Done in Hs as ([r c''] & Hwr & [= -> -> ->]).
  exists c'. split; [exact Hwr|]. rewrite Es, take_ge in Ha' by lia. exists al'. eexists. split; [exact Ha'|]. split; [done|].
  cbn [with_bytes bytes unit_size]. intros b' bs' Hb'. rewrite length_write_at by lia.
  change (array_loc (with_bytes a ?l) b') with (array_loc a b'). destruct (decide (b' = b)) as [->|Hne].
  - rewrite lookup_insert_eq in Hb'. injection Hb' as <-. repeat split; [lia..|]. rewrite <- Hdl. apply read_write_same; lia.
  - rewrite lookup_insert_ne in Hb' by done. destruct (Hd b' bs' Hb') as (G0 & G64 & Gl & Gr). repeat split; [lia..|]. rewrite <- Gr.
    apply read_at_ext; [unfold array_loc; nia|apply length_write_at; lia|]. intros p Hp. rewrite lookup_write_at by lia. rewrite decide_False; [done|].
    unfold array_loc in *. nia.
Qed.

#[export] Instance unix_laws : BlockIoLaws channel := {| io_rep := unix_rep; io_read := unix_read_ok; io_write := unix_write_ok |}.
End unix.
