(* ===== verification/Dir.v ===== *)
(** Directory blocks of lib/ext2fs: entries and their lengths, the checksum at
    the end of a block, the walk over the entries of a directory with a callback,
    and the callers of it that look up, link and unlink names (dir_iterate.c,
    dirblock.c, csum.c, lookup.c, link.c, unlink.c, newdir.c). *)

From S2P Require Import Prelude Crc Bitops BlockIo.

Local Open Scope Z_scope.

Definition EINVAL : Z := 22.
Definition EXT2_ET_RO_FILSYS : Z := 2133571349.
Definition EXT2_ET_DIR_CORRUPTED : Z := 2133571363.
Definition EXT2_ET_DIR_NO_SPACE : Z := 2133571366.
Definition EXT2_ET_BAD_INODE_NUM : Z := 2133571369.
Definition EXT2_ET_CALLBACK_NOTHANDLED : Z := 2133571393.
Definition EXT2_ET_NO_MEMORY : Z := 2133571398.
Definition EXT2_ET_INVALID_ARGUMENT : Z := 2133571399.
Definition EXT2_ET_NO_DIRECTORY : Z := 2133571402.
Definition EXT2_ET_FILE_NOT_FOUND : Z := 2133571404.
Definition EXT2_ET_DB_NOT_FOUND : Z := 2133571406.
Definition EXT2_ET_DIR_NO_SPACE_FOR_CSUM : Z := 2133571477.
Definition EXT2_ET_DIR_CSUM_INVALID : Z := 2133571478.
Definition EXT2_ET_INLINE_DATA_CANT_ITERATE : Z := 2133571485.
Definition EXT2_FILSYS_CORRUPTED : Z := 2133571508.

Definition DIRENT_CHANGED : Z := 1.
Definition DIRENT_ABORT : Z := 2.
Definition DIRENT_FLAG_INCLUDE_EMPTY : Z := 1.
Definition DIRENT_FLAG_INCLUDE_REMOVED : Z := 2.
Definition DIRENT_FLAG_INCLUDE_CSUM : Z := 4.
Definition DIRENT_FLAG_INCLUDE_INLINE_DATA : Z := 8.
Definition DIRENT_DOT_FILE : Z := 1.
Definition DIRENT_OTHER_FILE : Z := 3.
Definition DIRENT_DELETED_FILE : Z := 4.
Definition DIRENT_CHECKSUM : Z := 5.
Definition BLOCK_ABORT : Z := 2.
Definition BLOCK_INLINE_DATA_CHANGED : Z := 8.
Definition EXT2FS_UNLINK_FORCE : Z := 1.
Definition EXT2_DIR_NAME_LEN_CSUM : Z := 0xDE00.
Definition EXT4_MAX_REC_LEN : Z := 2 ^ 16 - 1.
Definition EXT2_FT_DIR : Z := 2.
Definition EXT2_INDEX_FL : Z := 0x00001000.

(** * The file system *)

(** What the directory functions look at of [struct struct_ext2_filsys] and of its
    super block. *)
Record filsys := mk_fs {
  blocksize : Z;
  s_inodes_count : Z;
  metadata_csum : bool;
  filetype : bool;
  csum_seed : Z;
  flag_rw : bool;
  flag_ignore_csum : bool }.

Record inode := mk_inode { i_mode : Z; i_flags : Z; i_generation : Z }.

Definition has_flag (flags f : Z) : bool := negb (Z.land flags f =? 0).

(** * Directory entries in a buffer *)

(** The fields of the [struct ext2_dir_entry] at [off]: [rec_len] and [name_len]
    are those on the disk. *)
Definition d_inode (buf : list Z) (off : Z) : outcome Z := get32 buf off.
Definition d_rec_len (buf : list Z) (off : Z) : outcome Z := get16 buf (off + 4).
Definition d_name_len (buf : list Z) (off : Z) : outcome Z := get16 buf (off + 6).
Definition set_inode (buf : list Z) (off v : Z) : outcome (list Z) := put32 buf off v.
Definition set_rec_len (buf : list Z) (off v : Z) : outcome (list Z) := put16 buf (off + 4) v.

Definition ext2fs_dirent_name_len (buf : list Z) (off : Z) : outcome Z :=
  let* n := d_name_len buf off in Done (Z.land n 0xff).
Definition ext2fs_dirent_set_name_len (buf : list Z) (off len : Z) : outcome (list Z) :=
  let* n := d_name_len buf off in put16 buf (off + 6) (Z.lor (Z.land n 0xff00) (Z.land len 0xff)).
Definition ext2fs_dirent_file_type (buf : list Z) (off : Z) : outcome Z :=
  let* n := d_name_len buf off in Done (Z.shiftr n 8).
Definition ext2fs_dirent_set_file_type (buf : list Z) (off type : Z) : outcome (list Z) :=
  let* n := d_name_len buf off in put16 buf (off + 6) (Z.lor (Z.land n 0xff) (Z.shiftl type 8)).

(** [EXT2_DIR_REC_LEN]: its argument is converted to eight bits. *)
Definition ext2fs_dir_rec_len (name_len : Z) (extended : bool) : Z :=
  let rec_len := Z.land (u8 name_len + 8 + 3) (Z.lnot 3) in
  if extended then rec_len + 8 else rec_len.
Definition EXT2_DIR_REC_LEN (name_len : Z) : Z := ext2fs_dir_rec_len name_len false.

(** [strncmp(a, b, n) == 0], where a string ends with the zero behind its bytes. *)
Fixpoint strncmp_eq (a b : list Z) (n : nat) : bool :=
  match n with
  | O => true
  | S n =>
      let x := default 0 (head a) in
      let y := default 0 (head b) in
      if x =? y then if x =? 0 then true else strncmp_eq (tail a) (tail b) n else false
  end.

Section fs.
Context (fs : filsys).

Definition ext2fs_get_rec_len (buf : list Z) (off : Z) : outcome Z :=
  let* len := d_rec_len buf off in
  Done (if blocksize fs <? 65536 then len
        else if (len =? EXT4_MAX_REC_LEN) || (len =? 0) then blocksize fs
        else Z.lor (Z.land len 65532) (Z.shiftl (Z.land len 3) 16)).

(** The error or 0, and the buffer. *)
Definition ext2fs_set_rec_len (len : Z) (buf : list Z) (off : Z) : outcome (Z * list Z) :=
  if (blocksize fs <? len) || (2 ^ 18 <? blocksize fs) || negb (Z.land len 3 =? 0) then Done (EINVAL, buf)
  else
    let enc := if len <? 65536 then len
               else if len =? blocksize fs then if blocksize fs =? 65536 then EXT4_MAX_REC_LEN else 0
               else Z.lor (Z.land len 65532) (Z.land (Z.shiftr len 16) 3) in
    let* buf := set_rec_len buf off enc in Done (0, buf).

Definition csum_size : Z := if metadata_csum fs then 12 else 0.

(** * Checksums of directory blocks *)

(** The walk of [__get_dirent_tail] to [top]: the error, or the offset. *)
Fixpoint tail_walk (fuel : nat) (buf : list Z) (d top : Z) : outcome (Z + Z) :=
  match fuel with
  | O => Crash OutOfFuel
  | S fuel =>
      if d <? top then
        let* rec_len := d_rec_len buf d in
        if (rec_len <? 8) || negb (Z.land rec_len 3 =? 0) then Done (inl EXT2_ET_DIR_CORRUPTED)
        else tail_walk fuel buf (d + rec_len) top
      else Done (inr d)
  end.

Definition get_dirent_tail (buf : list Z) : outcome (Z + Z) :=
  if blocksize fs <? 1024 then Done (inl EXT2_FILSYS_CORRUPTED)
  else
    let top := blocksize fs - 12 in
    let* r := tail_walk (Z.to_nat (blocksize fs)) buf 0 top in
    match r with
    | inl e => Done (inl e)
    | inr d =>
        if blocksize fs <? d then Done (inl EXT2_ET_DIR_CORRUPTED)
        else if negb (d =? top) then Done (inl EXT2_ET_DIR_NO_SPACE_FOR_CSUM)
        else
          let* zero1 := d_inode buf d in
          let* rec_len := d_rec_len buf d in
          let* name_len := d_name_len buf d in
          if negb (zero1 =? 0) || negb (rec_len =? 12) || negb (name_len =? EXT2_DIR_NAME_LEN_CSUM)
          then Done (inl EXT2_ET_DIR_NO_SPACE_FOR_CSUM)
          else Done (inr d)
    end.

(** The offset of the count and limit of an index block, or the error. *)
Definition get_dx_countlimit (buf : list Z) : outcome (Z + Z) :=
  let* rec_len := d_rec_len buf 0 in
  let* name_len := d_name_len buf 0 in
  let* co :=
    if (rec_len =? blocksize fs) && (name_len =? 0) then Done (Some 8)
    else if rec_len =? 12 then
      let* rec_len := d_rec_len buf 12 in
      if negb (rec_len =? blocksize fs - 12) then Done None
      else
        let* reserved_zero := get32 buf 24 in
        let* info_length := get8 buf 29 in
        if negb (reserved_zero =? 0) || negb (info_length =? 8) then Done None else Done (Some 32)
    else Done None in
  match co with
  | None => Done (inl EXT2_ET_DB_NOT_FOUND)
  | Some count_offset =>
      let* limit := get16 buf count_offset in
      let* count := get16 buf (count_offset + 2) in
      let max_sane_entries := (blocksize fs - count_offset) / 8 in
      if (max_sane_entries <? limit) || (max_sane_entries <? count) then Done (inl EXT2_ET_DIR_NO_SPACE_FOR_CSUM)
      else Done (inr count_offset)
  end.

Definition ext2fs_initialize_dirent_tail (buf : list Z) (t : Z) : outcome (list Z) :=
  let* buf := store_bytes buf t (replicate 12 0) in
  let* (_, buf) := ext2fs_set_rec_len 12 buf t in
  put16 buf (t + 6) EXT2_DIR_NAME_LEN_CSUM.

(** [ext2fs_read_inode]: the inode, or an error. *)
Context (read_inode : Z -> Z + inode).

Definition crc32c (crc : Z) (bs : list Z) : Z := Crc32c.ext2fs_crc32c_le 0 crc bs.

Definition dirent_seed (inum gen : Z) : Z := crc32c (crc32c (csum_seed fs) (le_encode 4 inum)) (le_encode 4 gen).

Definition ext2fs_dirent_csum (inum : Z) (buf : list Z) (size : Z) : outcome (Z + Z) :=
  match read_inode inum with
  | inl e => Done (inl e)
  | inr ino => let* bs := load_bytes buf 0 size in Done (inr (crc32c (dirent_seed inum (i_generation ino)) bs))
  end.

Definition ext2fs_dirent_csum_verify (inum : Z) (buf : list Z) : outcome bool :=
  let* r := get_dirent_tail buf in
  match r with
  | inl _ => Done true
  | inr t =>
      let* r := ext2fs_dirent_csum inum buf t in
      match r with
      | inl _ => Done false
      | inr calculated => let* c := get32 buf (t + 8) in Done (c =? calculated)
      end
  end.

Definition ext2fs_dirent_csum_set (inum : Z) (buf : list Z) : outcome (Z * list Z) :=
  let* r := get_dirent_tail buf in
  match r with
  | inl e => Done (e, buf)
  | inr t =>
      let* r := ext2fs_dirent_csum inum buf t in
      match r with
      | inl e => Done (e, buf)
      | inr crc => let* buf := put32 buf (t + 8) crc in Done (0, buf)
      end
  end.

(** The checksum of an index block and the offset of its tail, or the error. *)
Definition ext2fs_dx_csum (inum : Z) (buf : list Z) : outcome (Z + Z * Z) :=
  let* r := get_dx_countlimit buf in
  match r with
  | inl e => Done (inl e)
  | inr count_offset =>
      let* limit := get16 buf count_offset in
      let* count := get16 buf (count_offset + 2) in
      if blocksize fs - 8 <? count_offset + limit * 8 then Done (inl EXT2_ET_DIR_NO_SPACE_FOR_CSUM)
      else
        let t := count_offset + limit * 8 in
        let size := count_offset + count * 8 in
        match read_inode inum with
        | inl e => Done (inl e)
        | inr ino =>
            let* bs := load_bytes buf 0 size in
            let* reserved := load_bytes buf t 4 in
            Done (inr (crc32c (crc32c (crc32c (dirent_seed inum (i_generation ino)) bs) reserved) [0; 0; 0; 0], t))
        end
  end.

Definition ext2fs_dx_csum_verify (inum : Z) (buf : list Z) : outcome bool :=
  let* r := ext2fs_dx_csum inum buf in
  match r with
  | inl _ => Done false
  | inr (calculated, t) => let* c := get32 buf (t + 4) in Done (c =? calculated)
  end.

Definition ext2fs_dx_csum_set (inum : Z) (buf : list Z) : outcome (Z * list Z) :=
  let* r := ext2fs_dx_csum inum buf in
  match r with
  | inl e => Done (e, buf)
  | inr (crc, t) => let* buf := put32 buf (t + 4) crc in Done (0, buf)
  end.

Definition ext2fs_dir_block_csum_verify (inum : Z) (buf : list Z) : outcome bool :=
  if negb (metadata_csum fs) then Done true
  else
    let* r := get_dirent_tail buf in
    match r with
    | inr _ => ext2fs_dirent_csum_verify inum buf
    | inl _ =>
        let* r := get_dx_countlimit buf in
        match r with inr _ => ext2fs_dx_csum_verify inum buf | inl _ => Done false end
    end.

Definition ext2fs_dir_block_csum_set (inum : Z) (buf : list Z) : outcome (Z * list Z) :=
  if negb (metadata_csum fs) then Done (0, buf)
  else
    let* r := get_dirent_tail buf in
    match r with
    | inr _ => ext2fs_dirent_csum_set inum buf
    | inl _ =>
        let* r := get_dx_countlimit buf in
        match r with
        | inr _ => ext2fs_dx_csum_set inum buf
        | inl _ => Done (if flag_ignore_csum fs then 0 else EXT2_ET_DIR_NO_SPACE_FOR_CSUM, buf)
        end
    end.

(** * Reading and writing directory blocks *)

Context {S : Type} `{BlockIo S}.

(** The result, the buffer and the channel.  What the buffer held before is gone
    as far as bytes were read. *)
Definition ext2fs_read_dir_block4 (io : S) (block : Z) (buf : list Z) (ino : Z) : outcome (Z * list Z * S) :=
  let* (retval, bs, io) := read_blk io block in
  let* buf := store_bytes buf 0 bs in
  if negb (retval =? 0) then Done (retval, buf, io)
  else
    let* good := if flag_ignore_csum fs then Done true else ext2fs_dir_block_csum_verify ino buf in
    Done (if good then 0 else EXT2_ET_DIR_CSUM_INVALID, buf, io).

(** The checksum is put into the caller's buffer. *)
Definition ext2fs_write_dir_block4 (io : S) (block : Z) (buf : list Z) (ino : Z) : outcome (Z * list Z * S) :=
  let* (retval, buf) := ext2fs_dir_block_csum_set ino buf in
  if negb (retval =? 0) then Done (retval, buf, io)
  else let* (retval, io) := write_blk io block buf in Done (retval, buf, io).

(** * The walk over the entries of a block *)

Fixpoint validate_loop (fuel : nat) (buf : list Z) (offset final_offset : Z) : outcome bool :=
  match fuel with
  | O => Crash OutOfFuel
  | Datatypes.S fuel =>
      if (offset <? final_offset) && (offset <=? blocksize fs - 12) then
        let* rec_len := ext2fs_get_rec_len buf offset in
        let* name_len := ext2fs_dirent_name_len buf offset in
        if (rec_len <? 8) || negb (rec_len mod 4 =? 0) || (rec_len <? name_len + 8) then Done false
        else validate_loop fuel buf (offset + rec_len) final_offset
      else Done (offset =? final_offset)
  end.

Definition ext2fs_validate_entry (buf : list Z) (offset final_offset : Z) : outcome bool :=
  validate_loop (Datatypes.S (Z.to_nat (final_offset - offset))) buf offset final_offset.

(** The next place of a deleted entry from [offset] on that looks valid. *)
Fixpoint skip_invalid (fuel : nat) (buf : list Z) (offset final_offset : Z) : outcome Z :=
  match fuel with
  | O => Crash OutOfFuel
  | Datatypes.S fuel =>
      if offset <? final_offset then
        let* valid := ext2fs_validate_entry buf offset final_offset in
        if valid then Done offset else skip_invalid fuel buf (offset + 4) final_offset
      else Done offset
  end.

(** A callback gets the kind of the entry, its offset, the length of the buffer
    and the buffer with its own data; it returns flags and may change both. *)
Definition dir_func (P : Type) : Type := Z -> Z -> Z -> list Z -> P -> outcome (Z * list Z * P).

(** How the loop ends: with a corrupted entry, or at the end or after an abort. *)
Inductive walk_end (P : Type) :=
| Corrupted (buf : list Z) (p : P)
| Walked (do_abort changed : bool) (buf : list Z) (p : P).
#[global] Arguments Corrupted {P} buf p.
#[global] Arguments Walked {P} do_abort changed buf p.

Section walk.
Context {P : Type} (func : dir_func P) (flags buflen : Z).

Definition inline_data : bool := has_flag flags DIRENT_FLAG_INCLUDE_INLINE_DATA.

(** Whether an entry without an inode is passed over, and else its kind. *)
Definition unused_entry (buf : list Z) (offset entry : Z) : outcome (option Z) :=
  let* rec_len := d_rec_len buf offset in
  let* name_len := d_name_len buf offset in
  if negb inline_data && (offset =? buflen - csum_size) && (rec_len =? csum_size) &&
     (name_len =? EXT2_DIR_NAME_LEN_CSUM) then
    Done (if has_flag flags DIRENT_FLAG_INCLUDE_CSUM then Some DIRENT_CHECKSUM else None)
  else Done (if has_flag flags DIRENT_FLAG_INCLUDE_EMPTY then Some entry else None).

(** [next:]: where the walk goes on. *)
Definition next_offset (buf : list Z) (offset rec_len : Z) : outcome Z :=
  if has_flag flags DIRENT_FLAG_INCLUDE_REMOVED then
    let* name_len := ext2fs_dirent_name_len buf offset in
    let size := Z.land (name_len + 11) (Z.lnot 3) in
    if negb (rec_len =? size) then
      let final_offset := offset + rec_len in
      skip_invalid (Datatypes.S (Z.to_nat rec_len)) buf (offset + size) final_offset
    else Done (offset + rec_len)
  else Done (offset + rec_len).

Fixpoint dir_walk (fuel : nat) (offset next_real_entry entry : Z) (changed : bool) (buf : list Z) (p : P)
  : outcome (walk_end P) :=
  match fuel with
  | O => Crash OutOfFuel
  | Datatypes.S fuel =>
      if offset <? buflen - 8 then
        let* rec_len := ext2fs_get_rec_len buf offset in
        let* name_len := ext2fs_dirent_name_len buf offset in
        if (buflen <? offset + rec_len) || (rec_len <? 8) || negb (rec_len mod 4 =? 0) || (rec_len <? name_len + 8)
        then Done (Corrupted buf p)
        else
          let* ino := d_inode buf offset in
          let* visit := if ino =? 0 then unused_entry buf offset entry else Done (Some entry) in
          match visit with
          | None =>
              let next_real_entry := if next_real_entry =? offset then next_real_entry + rec_len else next_real_entry in
              let* offset := next_offset buf offset rec_len in
              dir_walk fuel offset next_real_entry entry changed buf p
          | Some entry =>
              let* (ret, buf, p) := func (if offset <? next_real_entry then DIRENT_DELETED_FILE else entry) offset buflen buf p in
              let entry := if entry <? DIRENT_OTHER_FILE then entry + 1 else entry in
              let* (rec_len, changed) :=
                if has_flag ret DIRENT_CHANGED then let* r := ext2fs_get_rec_len buf offset in Done (r, true)
                else Done (rec_len, changed) in
              if has_flag ret DIRENT_ABORT then Done (Walked true changed buf p)
              else
                let next_real_entry := if next_real_entry =? offset then next_real_entry + rec_len else next_real_entry in
                let* offset := next_offset buf offset rec_len in
                dir_walk fuel offset next_real_entry entry changed buf p
          end
      else Done (Walked false changed buf p)
  end.
End walk.

(** [struct dir_context], what changes of it. *)
Record dir_context (P : Type) := mk_ctx { c_errcode : Z; c_buf : list Z; c_priv : P }.
#[global] Arguments mk_ctx {P} c_errcode c_buf c_priv.
#[global] Arguments c_errcode {P} d.
#[global] Arguments c_buf {P} d.
#[global] Arguments c_priv {P} d.

(** [ext2fs_process_dir_block]; [buflen] is [ctx->buflen] of a directory with
    inline data. *)
Definition ext2fs_process_dir_block {P} (func : dir_func P) (flags buflen dir : Z) (io : S) (blocknr blockcnt : Z)
    (ctx : dir_context P) : outcome (Z * dir_context P * S) :=
  if blockcnt <? 0 then Done (0, ctx, io)
  else
    let entry := if blockcnt =? 0 then DIRENT_DOT_FILE else DIRENT_OTHER_FILE in
    let inl_data := inline_data flags in
    let* (errcode, buf, io) := if inl_data then Done (c_errcode ctx, c_buf ctx, io)
                               else ext2fs_read_dir_block4 io blocknr (c_buf ctx) dir in
    if negb inl_data && negb (errcode =? 0) then Done (BLOCK_ABORT, mk_ctx errcode buf (c_priv ctx), io)
    else
      let buflen := if inl_data then buflen else blocksize fs in
      let* w := dir_walk func flags buflen (Datatypes.S (Z.to_nat buflen)) 0 0 entry false buf (c_priv ctx) in
      match w with
      | Corrupted buf p => Done (BLOCK_ABORT, mk_ctx EXT2_ET_DIR_CORRUPTED buf p, io)
      | Walked do_abort changed buf p =>
          let* (errcode, buf, retval, io) :=
            if changed then
              if negb inl_data then
                let* (errcode, buf, io) := ext2fs_write_dir_block4 io blocknr buf dir in Done (errcode, buf, 0, io)
              else Done (errcode, buf, BLOCK_INLINE_DATA_CHANGED, io)
            else Done (errcode, buf, 0, io) in
          if changed && negb inl_data && negb (errcode =? 0) then Done (BLOCK_ABORT, mk_ctx errcode buf p, io)
          else Done (if do_abort then Z.lor retval BLOCK_ABORT else retval, mk_ctx errcode buf p, io)
      end.

(** * The walk over the blocks of a directory *)

(** The blocks of a directory in their order, each with its logical number (below
    zero for blocks of its block map), as [ext2fs_block_iterate3] visits them, or
    the error of that function; and the walk over a directory that is in its inode. *)
Context (dir_blocks : Z -> Z + list (Z * Z)).
Context (inline_data_dir_iterate : forall P, dir_func P -> Z -> dir_context P -> S -> outcome (dir_context P * S)).

(** The application's [check_directory], if there is one. *)
Context (check_directory : option (Z -> Z)).

Definition LINUX_S_ISDIR (m : Z) : bool := Z.land m 0xF000 =? 0x4000.

Definition ext2fs_check_directory (ino : Z) : Z :=
  if s_inodes_count fs <? ino then EXT2_ET_BAD_INODE_NUM
  else
    let retval := match check_directory with Some f => f ino | None => EXT2_ET_CALLBACK_NOTHANDLED end in
    if negb (retval =? EXT2_ET_CALLBACK_NOTHANDLED) then retval
    else match read_inode ino with
         | inl e => e
         | inr i => if LINUX_S_ISDIR (i_mode i) then 0 else EXT2_ET_NO_DIRECTORY
         end.

(** [ext2fs_block_iterate3] with [ext2fs_process_dir_block]: it ends when the
    callback asks for it. *)
Fixpoint iterate_blocks {P} (func : dir_func P) (flags dir : Z) (io : S) (blocks : list (Z * Z)) (ctx : dir_context P)
  : outcome (dir_context P * S) :=
  match blocks with
  | [] => Done (ctx, io)
  | (blockcnt, blocknr) :: blocks =>
      let* (ret, ctx, io) := ext2fs_process_dir_block func flags 0 dir io blocknr blockcnt ctx in
      if has_flag ret BLOCK_ABORT then Done (ctx, io)
      else iterate_blocks func flags dir io blocks ctx
  end.

(** The error or 0, the callback's data, and the channel; [oom] when there is no
    memory for the buffer. *)
Definition ext2fs_dir_iterate2 {P} (oom : bool) (dir flags : Z) (func : dir_func P) (p : P) (io : S)
  : outcome (Z * P * S) :=
  let retval := ext2fs_check_directory dir in
  if negb (retval =? 0) then Done (retval, p, io)
  else if oom then Done (EXT2_ET_NO_MEMORY, p, io)
  else
    let ctx := mk_ctx 0 (replicate (Z.to_nat (blocksize fs)) 0) p in
    match dir_blocks dir with
    | inl e =>
        if e =? EXT2_ET_INLINE_DATA_CANT_ITERATE then
          let* (ctx, io) := inline_data_dir_iterate P func dir ctx io in
          Done (c_errcode ctx, c_priv ctx, io)
        else Done (e, p, io)
    | inr blocks =>
        let* (ctx, io) := iterate_blocks func flags dir io blocks ctx in
        Done (c_errcode ctx, c_priv ctx, io)
    end.

(** * lookup.c *)

(** [*inode] and [found] of [struct lookup_struct]. *)
Definition lookup_proc (name : list Z) (len : Z) : dir_func (Z * bool) := fun _ offset _ buf p =>
  let* name_len := ext2fs_dirent_name_len buf offset in
  if negb (len =? name_len) then Done (0, buf, p)
  else
    let* nm := load_bytes buf (offset + 8) name_len in
    if negb (strncmp_eq name nm (Z.to_nat name_len)) then Done (0, buf, p)
    else let* ino := d_inode buf offset in Done (DIRENT_ABORT, buf, (ino, true)).

(** The error or 0, and [*inode], which was [inode]. *)
Definition ext2fs_lookup (oom : bool) (dir : Z) (name : list Z) (namelen inode : Z) (io : S) : outcome (Z * Z * S) :=
  let* (retval, p, io) := ext2fs_dir_iterate2 oom dir 0 (lookup_proc name namelen) (inode, false) io in
  if negb (retval =? 0) then Done (retval, fst p, io)
  else Done (if snd p then 0 else EXT2_ET_FILE_NOT_FOUND, fst p, io).

(** * link.c *)

Record link_state := mk_ls { ls_done : bool; ls_err : Z }.

(** "See if the following directory entry (if any) is unused; if so, absorb it":
    the error, the flags to return, the length of the entry and the buffer. *)
Definition link_absorb (buf : list Z) (offset blocksize curr_rec_len : Z) : outcome (Z * Z * Z * list Z) :=
  let next := offset + curr_rec_len in
  if next <? blocksize - (8 + csum_size) then
    let* ino := d_inode buf next in
    let* rec_len := d_rec_len buf next in
    if (ino =? 0) && (next + rec_len <=? blocksize) then
      let curr_rec_len := curr_rec_len + rec_len in
      let* (err, buf) := ext2fs_set_rec_len curr_rec_len buf offset in
      Done (err, DIRENT_CHANGED, curr_rec_len, buf)
    else Done (0, 0, curr_rec_len, buf)
  else Done (0, 0, curr_rec_len, buf).

(** An entry in use is cut to what its name needs, an empty one comes behind it. *)
Definition link_split (buf : list Z) (offset min_rec_len rec_len : Z) : outcome (Z * list Z) :=
  let* (err, buf) := ext2fs_set_rec_len min_rec_len buf offset in
  if negb (err =? 0) then Done (err, buf)
  else
    let* r := d_rec_len buf offset in
    let next := offset + r in
    let* buf := set_inode buf next 0 in
    let* buf := ext2fs_dirent_set_name_len buf next 0 in
    let* buf := ext2fs_dirent_set_file_type buf next 0 in
    ext2fs_set_rec_len rec_len buf next.

Definition link_fill (name : list Z) (ino flags : Z) (buf : list Z) (offset : Z) : outcome (list Z) :=
  let namelen := Z.of_nat (length name) in
  let* buf := set_inode buf offset ino in
  let* buf := ext2fs_dirent_set_name_len buf offset namelen in
  let* buf := store_bytes buf (offset + 8) name in
  if filetype fs then ext2fs_dirent_set_file_type buf offset (Z.land flags 0x7) else Done buf.

(** [link_proc]; the name is a string without zeros. *)
Definition link_proc (name : list Z) (ino flags : Z) : dir_func link_state := fun _ offset blocksize buf ls =>
  if ls_done ls then Done (DIRENT_ABORT, buf, ls)
  else
    let rec_len := EXT2_DIR_REC_LEN (Z.of_nat (length name)) in
    let* curr_rec_len := ext2fs_get_rec_len buf offset in
    let* (err, ret, curr_rec_len, buf) := link_absorb buf offset blocksize curr_rec_len in
    if negb (err =? 0) then Done (DIRENT_ABORT, buf, mk_ls false err)
    else
      let* used := d_inode buf offset in
      if negb (used =? 0) then
        let* name_len := ext2fs_dirent_name_len buf offset in
        let min_rec_len := EXT2_DIR_REC_LEN name_len in
        if curr_rec_len <? min_rec_len + rec_len then Done (ret, buf, mk_ls false 0)
        else
          let* (err, buf) := link_split buf offset min_rec_len (curr_rec_len - min_rec_len) in
          Done (if negb (err =? 0) then DIRENT_ABORT else DIRENT_CHANGED, buf, mk_ls false err)
      else if curr_rec_len <? rec_len then Done (ret, buf, mk_ls false 0)
      else
        let* buf := link_fill name ino flags buf offset in
        Done (Z.lor DIRENT_ABORT DIRENT_CHANGED, buf, mk_ls true 0).

(** [ext2fs_link] for a directory without index, from the call of
    [ext2fs_dir_iterate2] on. *)
Definition link_linear (oom : bool) (dir : Z) (name : list Z) (ino flags : Z) (io : S) : outcome (Z * S) :=
  let* (retval, ls, io) := ext2fs_dir_iterate2 oom dir DIRENT_FLAG_INCLUDE_EMPTY (link_proc name ino flags) (mk_ls false 0) io in
  if negb (retval =? 0) then Done (retval, io)
  else if negb (ls_err ls =? 0) then Done (ls_err ls, io)
  else Done (if ls_done ls then 0 else EXT2_ET_DIR_NO_SPACE, io).

(** Linking into a directory with an index. *)
Context (dx_link : Z -> list Z -> Z -> Z -> S -> outcome (Z * S)).

Definition ext2fs_link (oom : bool) (dir : Z) (name : list Z) (ino flags : Z) (io : S) : outcome (Z * S) :=
  if negb (flag_rw fs) then Done (EXT2_ET_RO_FILSYS, io)
  else match read_inode dir with
       | inl e => Done (e, io)
       | inr i => if has_flag (i_flags i) EXT2_INDEX_FL then dx_link dir name ino flags io
                  else link_linear oom dir name ino flags io
       end.

(** * unlink.c *)

(** [prev], as an offset in the buffer, and [done]. *)
Definition unlink_proc (name : option (list Z)) (ino flags : Z) : dir_func (option Z * bool) := fun _ offset _ buf p =>
  let prev := fst p in
  let keep := Done (0, buf, (Some offset, snd p)) in
  let* name_len := ext2fs_dirent_name_len buf offset in
  let* same := match name with
               | Some name =>
                   if negb (name_len =? Z.of_nat (length name)) then Done false
                   else let* nm := load_bytes buf (offset + 8) name_len in Done (strncmp_eq name nm (Z.to_nat name_len))
               | None => Done true
               end in
  if negb same then keep
  else
    let* i := d_inode buf offset in
    if (if negb (has_flag flags EXT2FS_UNLINK_FORCE) && negb (ino =? 0) then negb (i =? ino) else i =? 0) then keep
    else
      let* buf := if negb (offset =? 0) then
                    match prev with
                    | None => Crash BadPointer
                    | Some prev =>
                        let* a := d_rec_len buf prev in
                        let* b := d_rec_len buf offset in
                        set_rec_len buf prev (u16 (a + b))
                    end
                  else set_inode buf offset 0 in
      Done (Z.lor DIRENT_ABORT DIRENT_CHANGED, buf, (Some offset, true)).

Definition ext2fs_unlink (oom : bool) (dir : Z) (name : option (list Z)) (ino flags : Z) (io : S) : outcome (Z * S) :=
  if match name with None => ino =? 0 | Some _ => false end then Done (EXT2_ET_INVALID_ARGUMENT, io)
  else if negb (flag_rw fs) then Done (EXT2_ET_RO_FILSYS, io)
  else
    let* (retval, p, io) := ext2fs_dir_iterate2 oom dir DIRENT_FLAG_INCLUDE_EMPTY (unlink_proc name ino flags) (None, false) io in
    if negb (retval =? 0) then Done (retval, io)
    else Done (if snd p then 0 else EXT2_ET_DIR_NO_SPACE, io).

(** * newdir.c *)

(** A new block: the error, or the block. *)
Definition ext2fs_new_dir_block (oom : bool) (dir_ino parent_ino : Z) : outcome (Z + list Z) :=
  if oom then Done (inl EXT2_ET_NO_MEMORY)
  else
    let* (retval, buf) := ext2fs_set_rec_len (blocksize fs - csum_size) (replicate (Z.to_nat (blocksize fs)) 0) 0 in
    if negb (retval =? 0) then Done (inl retval)
    else
      let* (retval, buf) :=
        if negb (dir_ino =? 0) then
          let ft := if filetype fs then EXT2_FT_DIR else 0 in
          let* buf := set_inode buf 0 dir_ino in
          let* buf := ext2fs_dirent_set_name_len buf 0 1 in
          let* buf := ext2fs_dirent_set_file_type buf 0 ft in
          let* buf := store_bytes buf 8 [46] in
          let rec_len := blocksize fs - csum_size - EXT2_DIR_REC_LEN 1 in
          let* buf := set_rec_len buf 0 (EXT2_DIR_REC_LEN 1) in
          let* dir := d_rec_len buf 0 in
          let* (retval, buf) := ext2fs_set_rec_len rec_len buf dir in
          if negb (retval =? 0) then Done (retval, buf)
          else
            let* buf := set_inode buf dir parent_ino in
            let* buf := ext2fs_dirent_set_name_len buf dir 2 in
            let* buf := ext2fs_dirent_set_file_type buf dir ft in
            let* buf := store_bytes buf (dir + 8) [46; 46] in
            Done (0, buf)
        else Done (0, buf) in
      if negb (retval =? 0) then Done (inl retval)
      else
        let* buf := if metadata_csum fs then ext2fs_initialize_dirent_tail buf (blocksize fs - 12) else Done buf in
        Done (inr buf).
End fs.
