(* ===== verification/DirSpec.v ===== *)
(** Directory blocks as sequences of entries: what the accessors of Dir.v read and
    write in the bytes of a block that holds given entries. *)

From S2P Require Import Prelude Crc Bitops BlockIo Bitmap64 Dir.

Local Open Scope Z_scope.

(** * Entries and their bytes *)

(** [e_rest] is what follows the eight bytes of the header, the name first. *)
Record dentry := mk_de { e_inode : Z; e_rec : Z; e_nl : Z; e_rest : list Z }.

Definition e_name_len (e : dentry) : Z := Z.land (e_nl e) 0xff.
Definition e_name (e : dentry) : list Z := take (Z.to_nat (e_name_len e)) (e_rest e).
Definition e_type (e : dentry) : Z := Z.shiftr (e_nl e) 8.

Definition header (e : dentry) : list Z := le_encode 4 (e_inode e) ++ le_encode 2 (e_rec e) ++ le_encode 2 (e_nl e).
Definition enc (e : dentry) : list Z := header e ++ e_rest e.
Definition encode (es : list dentry) : list Z := mjoin (enc <$> es).
Definition size (es : list dentry) : Z := Z.of_nat (length (encode es)).

Record entry_ok (e : dentry) : Prop := {
  ok_inode : is_u32 (e_inode e);
  ok_rec : 12 <= e_rec e < 2 ^ 16;
  ok_mod : e_rec e mod 4 = 0;
  ok_nl : is_u16 (e_nl e);
  ok_name : e_name_len e + 8 <= e_rec e;
  ok_rest : Z.of_nat (length (e_rest e)) = e_rec e - 8;
  ok_bytes : bytes_ok (e_rest e);
  ok_live : e_inode e <> 0 -> 1 <= e_name_len e /\ 0 ∉ e_name e }.

Lemma length_header e : length (header e) = 8%nat.
Proof. unfold header. rewrite !length_app, !length_le_encode. done. Qed.

Lemma length_enc e : entry_ok e -> Z.of_nat (length (enc e)) = e_rec e.
Proof. intros []. unfold enc. rewrite length_app, length_header. lia. Qed.

Lemma encode_app a b : encode (a ++ b) = encode a ++ encode b.
Proof. unfold encode. rewrite fmap_app, join_app. done. Qed.

Lemma encode_cons e es : encode (e :: es) = enc e ++ encode es.
Proof. done. Qed.

Lemma size_app a b : size (a ++ b) = size a + size b.
Proof. unfold size. rewrite encode_app, length_app. lia. Qed.

Lemma size_cons e es : entry_ok e -> size (e :: es) = e_rec e + size es.
Proof. intros He. unfold size. rewrite encode_cons, length_app, Nat2Z.inj_add, length_enc by done. lia. Qed.

Lemma size_nonneg es : 0 <= size es.
Proof. unfold size. lia. Qed.

Lemma size_mod es : Forall entry_ok es -> size es mod 4 = 0.
Proof.
  induction 1 as [|e es He _ IH]; [done|]. rewrite size_cons by done. pose proof (ok_mod e He).
  rewrite Z.add_mod, H, IH by lia. done.
Qed.

(** * Loading and storing in the middle *)

Lemma load_mid a b c n i : Z.of_nat (length a) = i -> Z.of_nat (length b) = n -> load_bytes (a ++ b ++ c) i n = Done b.
Proof.
  intros <- <-. rewrite load_bytes_ok by (rewrite ?length_app; lia). rewrite !Nat2Z.id.
  rewrite drop_app_length, take_app_length. done.
Qed.

Lemma store_mid a b c i d : Z.of_nat (length a) = i -> length d = length b -> store_bytes (a ++ b ++ c) i d = Done (a ++ d ++ c).
Proof.
  intros <- Hd. unfold store_bytes. rewrite !length_app.
  destruct (Z.leb_spec 0 (Z.of_nat (length a))); [|lia]. cbn [andb].
  destruct (Z.leb_spec (Z.of_nat (length a) + Z.of_nat (length d)) (Z.of_nat (length a + (length b + length c)))); [|lia].
  f_equal. unfold splice. rewrite Nat2Z.id, take_app_length, <- drop_drop, drop_app_length, Hd, drop_app_length. done.
Qed.

(** A field [f] of the entry behind [a], at [k] in its bytes. *)
Lemma load_field a pre f post c n i : Z.of_nat (length a + length pre) = i -> Z.of_nat (length f) = n ->
  load_bytes (a ++ (pre ++ f ++ post) ++ c) i n = Done f.
Proof.
  intros Hi Hn. replace (a ++ (pre ++ f ++ post) ++ c) with ((a ++ pre) ++ f ++ (post ++ c)) by (rewrite <- !app_assoc; done).
  apply load_mid; [|done]. rewrite length_app. done.
Qed.

Lemma store_field a pre f post c i g : Z.of_nat (length a + length pre) = i -> length g = length f ->
  store_bytes (a ++ (pre ++ f ++ post) ++ c) i g = Done (a ++ (pre ++ g ++ post) ++ c).
Proof.
  intros Hi Hn. replace (a ++ (pre ++ f ++ post) ++ c) with ((a ++ pre) ++ f ++ (post ++ c)) by (rewrite <- !app_assoc; done).
  rewrite (store_mid (a ++ pre) f (post ++ c)); [|rewrite length_app; done|done]. rewrite <- !app_assoc. done.
Qed.

Lemma enc_inode e : enc e = [] ++ le_encode 4 (e_inode e) ++ (le_encode 2 (e_rec e) ++ le_encode 2 (e_nl e) ++ e_rest e).
Proof. unfold enc, header. rewrite <- !app_assoc. done. Qed.
Lemma enc_rec e : enc e = le_encode 4 (e_inode e) ++ le_encode 2 (e_rec e) ++ (le_encode 2 (e_nl e) ++ e_rest e).
Proof. unfold enc, header. rewrite <- !app_assoc. done. Qed.
Lemma enc_nl e : enc e = (le_encode 4 (e_inode e) ++ le_encode 2 (e_rec e)) ++ le_encode 2 (e_nl e) ++ e_rest e.
Proof. unfold enc, header. rewrite <- !app_assoc. done. Qed.

Lemma length_encode_nat es : Z.of_nat (length (encode es)) = size es.
Proof. done. Qed.

(** The accessors on an entry of a block. *)
Section at_entry.
Context (es1 : list dentry) (e : dentry) (rest : list Z).
Let buf : list Z := encode es1 ++ enc e ++ rest.

Lemma d_inode_at : is_u32 (e_inode e) -> d_inode buf (size es1) = Done (e_inode e).
Proof.
  intros He. unfold d_inode, get32, buf. rewrite enc_inode, load_field by (rewrite ?length_le_encode; cbn; unfold size; lia).
  cbn [obind]. rewrite le_decode_encode. f_equal. rewrite Z.mod_small; [done|]. exact He.
Qed.

Lemma d_rec_len_at : is_u16 (e_rec e) -> d_rec_len buf (size es1) = Done (e_rec e).
Proof.
  intros He. unfold d_rec_len, get16, buf. rewrite enc_rec, load_field by (rewrite ?length_le_encode; cbn; unfold size; lia).
  cbn [obind]. rewrite le_decode_encode. f_equal. rewrite Z.mod_small; [done|]. exact He.
Qed.

Lemma d_name_len_at : is_u16 (e_nl e) -> d_name_len buf (size es1) = Done (e_nl e).
Proof.
  intros He. unfold d_name_len, get16, buf.
  rewrite enc_nl, load_field by (rewrite ?length_app, ?length_le_encode; cbn; unfold size; lia).
  cbn [obind]. rewrite le_decode_encode. f_equal. rewrite Z.mod_small; [done|]. exact He.
Qed.

Lemma dirent_name_len_at : is_u16 (e_nl e) -> ext2fs_dirent_name_len buf (size es1) = Done (e_name_len e).
Proof. intros He. unfold ext2fs_dirent_name_len. rewrite d_name_len_at by done. done. Qed.

Lemma set_inode_at v : set_inode buf (size es1) v = Done (encode es1 ++ enc (mk_de v (e_rec e) (e_nl e) (e_rest e)) ++ rest).
Proof.
  unfold set_inode, put32, buf. rewrite enc_inode, store_field by (rewrite ?length_le_encode; cbn; unfold size; lia).
  rewrite (enc_inode (mk_de v (e_rec e) (e_nl e) (e_rest e))). done.
Qed.

Lemma set_rec_len_at v : set_rec_len buf (size es1) v = Done (encode es1 ++ enc (mk_de (e_inode e) v (e_nl e) (e_rest e)) ++ rest).
Proof.
  unfold set_rec_len, put16, buf. rewrite enc_rec, store_field by (rewrite ?length_le_encode; cbn; unfold size; lia).
  rewrite (enc_rec (mk_de (e_inode e) v (e_nl e) (e_rest e))). done.
Qed.

Lemma put_nl_at v : put16 buf (size es1 + 6) v = Done (encode es1 ++ enc (mk_de (e_inode e) (e_rec e) v (e_rest e)) ++ rest).
Proof.
  unfold put16, buf. rewrite enc_nl, store_field by (rewrite ?length_app, ?length_le_encode; cbn; unfold size; lia).
  rewrite (enc_nl (mk_de (e_inode e) (e_rec e) v (e_rest e))). done.
Qed.

Lemma name_at n : 0 <= n -> n <= Z.of_nat (length (e_rest e)) -> load_bytes buf (size es1 + 8) n = Done (take (Z.to_nat n) (e_rest e)).
Proof.
  intros Hn Hl. unfold buf, enc. rewrite <- (take_drop (Z.to_nat n) (e_rest e)) at 1.
  apply load_field; [rewrite length_header; unfold size; lia|]. rewrite length_take. lia.
Qed.

(** The name is put in front of what was there. *)
Lemma set_name_at nm : (length nm <= length (e_rest e))%nat ->
  store_bytes buf (size es1 + 8) nm = Done (encode es1 ++ enc (mk_de (e_inode e) (e_rec e) (e_nl e) (nm ++ drop (length nm) (e_rest e))) ++ rest).
Proof.
  intros Hl. unfold buf, enc. rewrite <- (take_drop (length nm) (e_rest e)) at 1.
  rewrite store_field; [done|rewrite length_header; unfold size; lia|]. rewrite length_take. lia.
Qed.
End at_entry.

(** * Lengths *)

Lemma land_lnot3 x : Z.land x (Z.lnot 3) = 4 * (x / 4).
Proof.
  change 3 with (Z.ones 2). rewrite <- Z.ldiff_land, Z.ldiff_ones_r by lia.
  rewrite Z.shiftl_mul_pow2, Z.shiftr_div_pow2 by lia. change (2 ^ 2) with 4. lia.
Qed.

Lemma land3 x : Z.land x 3 = x mod 4.
Proof. change 3 with (Z.ones 2). rewrite Z.land_ones by lia. done. Qed.

(** What a name of [n] bytes needs. *)
Lemma rec_len_eq n : 0 <= n < 256 -> EXT2_DIR_REC_LEN n = 4 * ((n + 11) / 4).
Proof.
  intros Hn. unfold EXT2_DIR_REC_LEN, ext2fs_dir_rec_len. rewrite land_lnot3, u8_small by range_lia. do 2 f_equal. lia.
Qed.

Lemma rec_len_bounds n : 0 <= n < 256 -> n + 8 <= EXT2_DIR_REC_LEN n <= n + 11 /\ EXT2_DIR_REC_LEN n mod 4 = 0 /\
  (1 <= n -> 12 <= EXT2_DIR_REC_LEN n).
Proof. intros Hn. rewrite rec_len_eq by done. split; [div_lia|]. split; [|div_lia]. rewrite Z.mul_comm. apply Z.mod_mul. lia. Qed.

Lemma name_len_mod e : e_name_len e = e_nl e mod 256.
Proof. unfold e_name_len. change 255 with (Z.ones 8). rewrite Z.land_ones by lia. done. Qed.

Lemma name_len_range e : 0 <= e_name_len e < 256.
Proof. rewrite name_len_mod. apply Z.mod_pos_bound. lia. Qed.

Lemma type_div e : e_type e = e_nl e / 256.
Proof. unfold e_type. rewrite Z.shiftr_div_pow2 by lia. done. Qed.

(** The two bytes of the field [name_len]. *)
Lemma join_name_len nl len : is_u16 nl -> Z.lor (Z.land nl 0xff00) (Z.land len 0xff) = nl / 256 * 256 + len mod 256.
Proof.
  intros Hn. change 0xff00 with (Z.shiftl 255 8). rewrite land_shiftl by lia. change 255 with (Z.ones 8).
  rewrite !Z.land_ones, Z.shiftl_mul_pow2, Z.shiftr_div_pow2 by lia. rewrite lor_high_low by (try lia; apply Z.mod_pos_bound; lia).
  change (2 ^ 8) with 256. rewrite (Z.mod_small (nl / 256)); [done|]. unfold is_u16 in Hn. div_lia.
Qed.

Lemma join_file_type nl t : Z.lor (Z.land nl 0xff) (Z.shiftl t 8) = t * 256 + nl mod 256.
Proof.
  change 0xff with (Z.ones 8). rewrite Z.land_ones, Z.shiftl_mul_pow2, Z.lor_comm by lia.
  rewrite lor_high_low by (try lia; apply Z.mod_pos_bound; lia). done.
Qed.

Lemma set_name_len_at es1 e rest len : is_u16 (e_nl e) ->
  ext2fs_dirent_set_name_len (encode es1 ++ enc e ++ rest) (size es1) len =
    Done (encode es1 ++ enc (mk_de (e_inode e) (e_rec e) (e_nl e / 256 * 256 + len mod 256) (e_rest e)) ++ rest).
Proof.
  intros He. unfold ext2fs_dirent_set_name_len. rewrite d_name_len_at by done. cbn [obind].
  rewrite put_nl_at, join_name_len by done. done.
Qed.

Lemma set_file_type_at es1 e rest t : is_u16 (e_nl e) ->
  ext2fs_dirent_set_file_type (encode es1 ++ enc e ++ rest) (size es1) t =
    Done (encode es1 ++ enc (mk_de (e_inode e) (e_rec e) (t * 256 + e_nl e mod 256) (e_rest e)) ++ rest).
Proof.
  intros He. unfold ext2fs_dirent_set_file_type. rewrite d_name_len_at by done. cbn [obind].
  rewrite put_nl_at, join_file_type by done. done.
Qed.

Section fs.
Context (fs : filsys) (Hbs : 24 <= blocksize fs < 65536).

Lemma get_rec_len_at es1 e rest : is_u16 (e_rec e) -> ext2fs_get_rec_len fs (encode es1 ++ enc e ++ rest) (size es1) = Done (e_rec e).
Proof.
  intros He. unfold ext2fs_get_rec_len. rewrite d_rec_len_at by done. cbn [obind].
  destruct (Z.ltb_spec (blocksize fs) 65536); [done|lia].
Qed.

Lemma set_rec_len_ok es1 e rest len : 0 <= len <= blocksize fs -> len mod 4 = 0 ->
  ext2fs_set_rec_len fs len (encode es1 ++ enc e ++ rest) (size es1) =
    Done (0, encode es1 ++ enc (mk_de (e_inode e) len (e_nl e) (e_rest e)) ++ rest).
Proof.
  intros Hl Hm. unfold ext2fs_set_rec_len. rewrite land3, Hm.
  destruct (Z.ltb_spec (blocksize fs) len); [lia|]. destruct (Z.ltb_spec (2 ^ 18) (blocksize fs)); [lia|].
  cbn [orb negb Z.eqb]. destruct (Z.ltb_spec len 65536); [|lia]. rewrite set_rec_len_at. done.
Qed.

(** * The end of a block *)

Definition tail_of (cs : list Z) : dentry := mk_de 0 12 EXT2_DIR_NAME_LEN_CSUM cs.

(** The entries behind the body of a block: the one with the checksum, if there
    are checksums. *)
Definition tl_ok (tl : list dentry) : Prop :=
  if metadata_csum fs then exists cs, length cs = 4%nat /\ bytes_ok cs /\ tl = [tail_of cs] else tl = [].

Lemma tail_ok cs : length cs = 4%nat -> bytes_ok cs -> entry_ok (tail_of cs).
Proof. intros Hl Hb. constructor; cbn; try done; try range_lia. Qed.

Lemma tl_entries tl : tl_ok tl -> Forall entry_ok tl.
Proof.
  unfold tl_ok. destruct (metadata_csum fs); [|by intros ->]. intros (cs & Hl & Hb & ->).
  apply Forall_singleton. by apply tail_ok.
Qed.

Lemma tl_size tl : tl_ok tl -> size tl = csum_size fs.
Proof.
  unfold tl_ok, csum_size. destruct (metadata_csum fs); [|by intros ->]. intros (cs & Hl & Hb & ->).
  rewrite size_cons by (by apply tail_ok). done.
Qed.

Lemma csum_size_cases : csum_size fs = 12 \/ csum_size fs = 0.
Proof. unfold csum_size. destruct (metadata_csum fs); auto. Qed.

(** The body of a block in front of [tl]. *)
Record body_ok (es tl : list dentry) : Prop := {
  bo_entries : Forall entry_ok es;
  bo_tl : tl_ok tl;
  bo_size : size (es ++ tl) = blocksize fs }.

Lemma encode_mid es1 e es2 : encode (es1 ++ e :: es2) = encode es1 ++ enc e ++ encode es2.
Proof. rewrite encode_app, encode_cons. done. Qed.

(** * Steps of the walk *)

Definition plain_flags (flags : Z) : Prop := flags = 0 \/ flags = DIRENT_FLAG_INCLUDE_EMPTY.

Lemma plain_no_inline flags : plain_flags flags -> inline_data flags = false.
Proof. by intros [->| ->]. Qed.

Lemma plain_next flags buf off r : plain_flags flags -> next_offset fs flags buf off r = Done (off + r).
Proof. by intros [->| ->]. Qed.

Section walk.
Context {P : Type} (func : dir_func P) (flags : Z) (Hf : plain_flags flags).
Context (es1 : list dentry) (e : dentry) (es2 : list dentry) (He : entry_ok e).
Context (Hsize : size (es1 ++ e :: es2) = blocksize fs).
Let buf : list Z := encode (es1 ++ e :: es2).

Lemma walk_sizes : size es1 + e_rec e + size es2 = blocksize fs.
Proof. rewrite size_app, size_cons in Hsize by done. lia. Qed.

(** The checks of an entry pass. *)
Lemma walk_checks fuel nre entry changed p :
  dir_walk fs func flags (blocksize fs) (S fuel) (size es1) nre entry changed buf p =
    let* visit := if e_inode e =? 0 then unused_entry fs flags (blocksize fs) buf (size es1) entry else Done (Some entry) in
    match visit with
    | None => dir_walk fs func flags (blocksize fs) fuel (size es1 + e_rec e)
                (if nre =? size es1 then nre + e_rec e else nre) entry changed buf p
    | Some entry =>
        let* (ret, buf, p) := func (if size es1 <? nre then DIRENT_DELETED_FILE else entry) (size es1) (blocksize fs) buf p in
        let entry := if entry <? DIRENT_OTHER_FILE then entry + 1 else entry in
        let* (rec_len, changed) :=
          if has_flag ret DIRENT_CHANGED then let* r := ext2fs_get_rec_len fs buf (size es1) in Done (r, true)
          else Done (e_rec e, changed) in
        if has_flag ret DIRENT_ABORT then Done (Walked true changed buf p)
        else dir_walk fs func flags (blocksize fs) fuel (size es1 + rec_len)
               (if nre =? size es1 then nre + rec_len else nre) entry changed buf p
    end.
Proof.
  pose proof walk_sizes. pose proof (size_nonneg es2). pose proof (size_nonneg es1). pose proof (ok_rec _ He) as Hr.
  cbn [dir_walk]. destruct (Z.ltb_spec (size es1) (blocksize fs - 8)); [|lia].
  assert (Hu : is_u16 (e_rec e)) by range_lia. pose proof (ok_nl _ He) as Hnl. pose proof (ok_name _ He) as Hn.
  replace (ext2fs_get_rec_len fs buf (size es1)) with (Done (e_rec e)) by (unfold buf; rewrite encode_mid, get_rec_len_at by done; done).
  replace (ext2fs_dirent_name_len buf (size es1)) with (Done (e_name_len e)) by (unfold buf; rewrite encode_mid, dirent_name_len_at by done; done).
  replace (d_inode buf (size es1)) with (Done (e_inode e)) by (unfold buf; rewrite encode_mid, d_inode_at by (apply He); done).
  cbn [obind]. rewrite (ok_mod _ He). destruct (Z.ltb_spec (blocksize fs) (size es1 + e_rec e)); [lia|].
  destruct (Z.ltb_spec (e_rec e) 8); [lia|]. destruct (Z.ltb_spec (e_rec e) (e_name_len e + 8)); [lia|]. cbn [orb negb Z.eqb].
  destruct (if e_inode e =? 0 then unused_entry fs flags (blocksize fs) buf (size es1) entry else Done (Some entry)) as [[k|]|]; [| |done];
    cbn [obind]; [|rewrite plain_next by done; done].
  destruct (func _ (size es1) (blocksize fs) buf p) as [[[ret buf'] p']|]; [|done]. cbn [obind].
  destruct (has_flag ret DIRENT_CHANGED).
  - destruct (ext2fs_get_rec_len fs buf' (size es1)) as [r|]; [|done]. cbn [obind]. destruct (has_flag ret DIRENT_ABORT); [done|].
    rewrite plain_next by done. done.
  - cbn [obind]. destruct (has_flag ret DIRENT_ABORT); [done|]. rewrite plain_next by done. done.
Qed.

(** An entry of the body is passed over when it has no inode and the empty ones are
    not wanted. *)
Lemma unused_at entry : csum_size fs <= size es2 ->
  unused_entry fs flags (blocksize fs) buf (size es1) entry = Done (if flags =? 0 then None else Some entry).
Proof.
  intros Hc. pose proof walk_sizes. pose proof (ok_rec _ He) as Hr. unfold unused_entry.
  replace (d_rec_len buf (size es1)) with (Done (e_rec e)) by (unfold buf; rewrite encode_mid, d_rec_len_at by range_lia; done).
  replace (d_name_len buf (size es1)) with (Done (e_nl e)) by (unfold buf; rewrite encode_mid, d_name_len_at by apply He; done).
  cbn [obind]. destruct (Z.eqb_spec (size es1) (blocksize fs - csum_size fs)); [lia|]. rewrite plain_no_inline by done. cbn [negb andb].
  destruct Hf as [->| ->]; done.
Qed.

Lemma walk_skip fuel nre entry changed p : csum_size fs <= size es2 -> e_inode e = 0 -> flags = 0 ->
  exists nre', dir_walk fs func flags (blocksize fs) (S fuel) (size es1) nre entry changed buf p =
    dir_walk fs func flags (blocksize fs) fuel (size (es1 ++ [e])) nre' entry changed buf p.
Proof.
  intros Hc Hi Hfl. rewrite walk_checks, Hi. cbn [Z.eqb]. rewrite unused_at by done. rewrite Hfl. cbn [Z.eqb obind].
  rewrite size_app, size_cons by done. change (size []) with 0. rewrite Z.add_0_r. eauto.
Qed.

(** Another one is given to the callback. *)
Lemma walk_call fuel nre entry changed p ret buf' p' r :
  csum_size fs <= size es2 -> e_inode e <> 0 \/ flags = DIRENT_FLAG_INCLUDE_EMPTY ->
  (forall k, func k (size es1) (blocksize fs) buf p = Done (ret, buf', p')) ->
  (if has_flag ret DIRENT_CHANGED then ext2fs_get_rec_len fs buf' (size es1) = Done r else r = e_rec e) ->
  exists nre' entry', dir_walk fs func flags (blocksize fs) (S fuel) (size es1) nre entry changed buf p =
    if has_flag ret DIRENT_ABORT then Done (Walked true (changed || has_flag ret DIRENT_CHANGED) buf' p')
    else dir_walk fs func flags (blocksize fs) fuel (size es1 + r) nre' entry' (changed || has_flag ret DIRENT_CHANGED) buf' p'.
Proof.
  intros Hc Hv Hfn Hr. rewrite walk_checks.
  assert (Hvis : exists k, (if e_inode e =? 0 then unused_entry fs flags (blocksize fs) buf (size es1) entry else Done (Some entry)) = Done (Some k)).
  { destruct (Z.eqb_spec (e_inode e) 0) as [H0|H0]; [|eauto]. rewrite unused_at by done. destruct Hv as [Hv| ->]; [done|]. eauto. }
  destruct Hvis as [k ->]. cbn [obind]. rewrite Hfn. cbn [obind].
  destruct (has_flag ret DIRENT_CHANGED); [rewrite Hr|rewrite <- Hr]; cbn [obind];
    rewrite ?orb_true_r, ?orb_false_r; destruct (has_flag ret DIRENT_ABORT); eauto.
Qed.

(** The callback leaves an entry in its place. *)
Lemma walk_visit fuel nre entry changed p ret e' es2' p' :
  csum_size fs <= size es2 -> e_inode e <> 0 \/ flags = DIRENT_FLAG_INCLUDE_EMPTY ->
  (forall k, func k (size es1) (blocksize fs) buf p = Done (ret, encode (es1 ++ e' :: es2'), p')) ->
  entry_ok e' -> (has_flag ret DIRENT_CHANGED = false -> e_rec e' = e_rec e) ->
  exists nre' entry', dir_walk fs func flags (blocksize fs) (S fuel) (size es1) nre entry changed buf p =
    if has_flag ret DIRENT_ABORT then Done (Walked true (changed || has_flag ret DIRENT_CHANGED) (encode (es1 ++ e' :: es2')) p')
    else dir_walk fs func flags (blocksize fs) fuel (size (es1 ++ [e'])) nre' entry' (changed || has_flag ret DIRENT_CHANGED)
           (encode (es1 ++ e' :: es2')) p'.
Proof.
  intros Hc Hv Hfn He' Hsame. rewrite size_app, (size_cons e' []) by done. change (size []) with 0. rewrite Z.add_0_r.
  apply walk_call; [done..|]. destruct (has_flag ret DIRENT_CHANGED); [|by apply Hsame].
  rewrite encode_mid. apply get_rec_len_at. pose proof (ok_rec _ He'). range_lia.
Qed.
End walk.

(** Behind the body. *)
Lemma walk_end {P} (func : dir_func P) flags es tl fuel nre entry changed p : plain_flags flags -> body_ok es tl ->
  (Z.to_nat (blocksize fs - size es) < fuel)%nat ->
  dir_walk fs func flags (blocksize fs) fuel (size es) nre entry changed (encode (es ++ tl)) p =
    Done (Walked false changed (encode (es ++ tl)) p).
Proof.
  intros Hf [Hes Htl Hsz] Hfuel. pose proof (tl_size _ Htl) as Hts. rewrite size_app in Hsz.
  assert (Hstop : forall fuel nre entry, dir_walk fs func flags (blocksize fs) (S fuel) (blocksize fs) nre entry changed (encode (es ++ tl)) p =
    Done (Walked false changed (encode (es ++ tl)) p)).
  { intros. cbn [dir_walk]. destruct (Z.ltb_spec (blocksize fs) (blocksize fs - 8)); [lia|]. done. }
  unfold tl_ok in Htl. destruct (metadata_csum fs) eqn:Hm.
  - destruct Htl as (cs & Hl & Hb & ->). pose proof (tail_ok cs Hl Hb) as Ht. rewrite size_cons in Hsz by done. change (size []) with 0 in Hsz. cbn [e_rec tail_of] in Hsz.
    destruct fuel as [|[|fuel]]; [lia..|]. rewrite (walk_checks func flags Hf es (tail_of cs) []) by (try done; rewrite size_app, size_cons by done; exact Hsz).
    cbn [e_inode tail_of Z.eqb]. unfold unused_entry.
    replace (d_rec_len (encode (es ++ [tail_of cs])) (size es)) with (Done 12) by (rewrite encode_mid, d_rec_len_at by done; done).
    replace (d_name_len (encode (es ++ [tail_of cs])) (size es)) with (Done EXT2_DIR_NAME_LEN_CSUM)
      by (rewrite encode_mid, d_name_len_at by done; done). cbn [obind].
    rewrite plain_no_inline by done. unfold csum_size. rewrite Hm. destruct (Z.eqb_spec (size es) (blocksize fs - 12)); [|lia].
    cbn [negb andb Z.eqb Pos.eqb]. replace (has_flag flags DIRENT_FLAG_INCLUDE_CSUM) with false by (destruct Hf as [->| ->]; done).
    cbn [obind]. replace (size es + e_rec (tail_of cs)) with (blocksize fs) by (cbn; lia). apply Hstop.
  - subst tl. change (size []) with 0 in Hsz. replace (size es) with (blocksize fs) by lia. destruct fuel; [lia|]. apply Hstop.
Qed.
End fs.
