(* ===== verification/DirLink.v ===== *)
(** Linking a name into the blocks of a directory: [link_proc] on a block that
    holds given entries, and the walk with it. *)

From S2P Require Import Prelude Crc Bitops BlockIo Bitmap64 Dir DirSpec.

Local Open Scope Z_scope.

(** * The names in a block *)

(** Name, inode and file type. *)
Definition live (e : dentry) : option (list Z * Z * Z) :=
  if e_inode e =? 0 then None else Some (e_name e, e_inode e, e_type e).

Definition names (es : list dentry) : list (list Z * Z * Z) := omap live es.

(** What an entry could give to another one. *)
Definition room (e : dentry) : Z := if e_inode e =? 0 then e_rec e else e_rec e - EXT2_DIR_REC_LEN (e_name_len e).

Lemma names_app a b : names (a ++ b) = names a ++ names b.
Proof. apply omap_app. Qed.

Lemma names_dead e es : e_inode e = 0 -> names (e :: es) = names es.
Proof. intros H. unfold names. cbn. unfold live. rewrite H. done. Qed.

Lemma names_live e es x : live e = Some x -> names (e :: es) = x :: names es.
Proof. intros H. unfold names. cbn. rewrite H. done. Qed.

Lemma names_cons_eq e e' es es' : live e = live e' -> names es = names es' -> names (e :: es) = names (e' :: es').
Proof. unfold names. cbn. intros -> ->. done. Qed.

(** * Bytes as entries *)

(** The entry that some bytes are. *)
Definition dec (bs : list Z) : dentry :=
  mk_de (le_decode (take 4 bs)) (le_decode (take 2 (drop 4 bs))) (le_decode (take 2 (drop 6 bs))) (drop 8 bs).

Lemma le_encode_take n (bs : list Z) : bytes_ok bs -> (n <= length bs)%nat -> le_encode n (le_decode (take n bs)) = take n bs.
Proof.
  intros Hb Hl. rewrite <- (le_encode_decode (take n bs)) at 2 by (by apply bytes_ok_take). rewrite length_take, Nat.min_l by lia. done.
Qed.

Lemma enc_dec bs : bytes_ok bs -> (8 <= length bs)%nat -> enc (dec bs) = bs.
Proof.
  intros Hb Hl. unfold enc, header, dec. cbn [e_inode e_rec e_nl e_rest].
  rewrite !le_encode_take by (rewrite ?length_drop; try lia; try apply bytes_ok_drop; done).
  pose proof (take_drop 4 bs) as H1. pose proof (take_drop 2 (drop 4 bs)) as H2. pose proof (take_drop 2 (drop 6 bs)) as H3.
  rewrite drop_drop in H2, H3. cbn [Nat.add] in H2, H3. rewrite <- !app_assoc, H3, H2. exact H1.
Qed.

Lemma enc_bytes e : bytes_ok (e_rest e) -> bytes_ok (enc e).
Proof. intros He. unfold enc, header. rewrite !bytes_ok_app. eauto using le_encode_bytes. Qed.

(** An entry with the next one as part of its free bytes. *)
Definition merge (e n : dentry) : dentry := mk_de (e_inode e) (e_rec e + e_rec n) (e_nl e) (e_rest e ++ enc n).

Lemma enc_merge e n : enc (mk_de (e_inode e) (e_rec e + e_rec n) (e_nl e) (e_rest e)) ++ enc n = enc (merge e n).
Proof. unfold merge, enc, header. cbn [e_inode e_rec e_nl e_rest]. rewrite <- !app_assoc. done. Qed.

Lemma merge_name e n : entry_ok e -> e_name (merge e n) = e_name e.
Proof.
  intros He. unfold e_name, merge, e_name_len. cbn [e_nl e_rest]. pose proof (ok_name _ He). pose proof (ok_rest _ He).
  pose proof (name_len_range e). unfold e_name_len in *. apply take_app_le. lia.
Qed.

Lemma merge_ok e n : entry_ok e -> entry_ok n -> e_rec e + e_rec n < 2 ^ 16 -> entry_ok (merge e n).
Proof.
  intros He Hn Hs. pose proof (merge_name e n He) as Hnm. pose proof (ok_rec _ He). pose proof (ok_rec _ Hn).
  pose proof (length_enc n Hn). destruct He as [? ? Hm ? ? ? ? Hl]. constructor; cbn [e_inode e_rec e_nl e_rest merge]; try done.
  - lia.
  - rewrite Z.add_mod, Hm, (ok_mod _ Hn) by lia. done.
  - unfold e_name_len, merge in *. cbn [e_nl]. lia.
  - rewrite length_app. lia.
  - apply bytes_ok_app. split; [done|]. apply enc_bytes, Hn.
  - rewrite Hnm. exact Hl.
Qed.

Lemma merge_live e n : entry_ok e -> live (merge e n) = live e.
Proof. intros He. unfold live. rewrite merge_name by done. done. Qed.

Section link.
Context (fs : filsys) (Hbs : 24 <= blocksize fs < 65536).

Lemma body_sizes es1 e es2 tl : body_ok fs (es1 ++ e :: es2) tl ->
  entry_ok e /\ size es1 + e_rec e + size es2 + csum_size fs = blocksize fs /\ size (es1 ++ e :: es2 ++ tl) = blocksize fs /\
  csum_size fs <= size (es2 ++ tl).
Proof.
  intros [Hes Htl Hsz]. apply Forall_app in Hes as [_ Hes]. apply Forall_cons in Hes as [He _]. split; [done|].
  pose proof (tl_size fs tl Htl). pose proof (size_nonneg es2). rewrite <- app_assoc in Hsz. cbn [app] in Hsz. split; [|split; [done|]].
  - rewrite size_app, size_cons, size_app in Hsz by done. lia.
  - rewrite size_app. lia.
Qed.

(** What may take the place of [e :: es2] in the walk. *)
Record same_names (e : dentry) (es2 : list dentry) (e' : dentry) (es2' : list dentry) : Prop := {
  sn_ok : entry_ok e';
  sn_oks : Forall entry_ok es2';
  sn_size : size (e' :: es2') = size (e :: es2);
  sn_live : live e' = live e;
  sn_names : names es2' = names es2 }.

Lemma same_refl e es2 : Forall entry_ok (e :: es2) -> same_names e es2 e es2.
Proof. intros [He Hes]%Forall_cons. by constructor. Qed.

Lemma same_body es1 e es2 e' es2' tl : body_ok fs (es1 ++ e :: es2) tl -> same_names e es2 e' es2' -> body_ok fs (es1 ++ e' :: es2') tl.
Proof.
  intros [Hes Htl Hsz] [He' Hes' Hs _ _]. apply Forall_app in Hes as [H1 _]. constructor; [|done|].
  - apply Forall_app. split; [done|]. by constructor.
  - rewrite <- Hsz, !size_app, Hs. done.
Qed.

(** Absorbing the next entry. *)
Lemma absorb_ok es1 e es2 tl : body_ok fs (es1 ++ e :: es2) tl ->
  exists ret e' es2', link_absorb fs (encode (es1 ++ e :: es2 ++ tl)) (size es1) (blocksize fs) (e_rec e) =
      Done (0, ret, e_rec e', encode (es1 ++ e' :: es2' ++ tl)) /\
    same_names e es2 e' es2' /\ e_inode e' = e_inode e /\ e_nl e' = e_nl e /\ e_rec e <= e_rec e' /\
    (ret = 0 /\ e' = e /\ es2' = es2 \/ ret = DIRENT_CHANGED) /\
    forall n, n ∈ es2 -> n ∈ es2' \/ (e_inode n = 0 /\ e_rec n + e_rec e <= e_rec e').
Proof.
  intros Hb. destruct (body_sizes _ _ _ _ Hb) as (He & Hsz & Hfull & Hc). pose proof (bo_entries _ _ _ Hb) as Hes.
  apply Forall_app in Hes as [_ Hes]. pose proof (ok_rec _ He) as Hr.
  assert (Hstay : exists ret e' es2', Done (0, 0, e_rec e, encode (es1 ++ e :: es2 ++ tl)) = Done (0, ret, e_rec e', encode (es1 ++ e' :: es2' ++ tl)) /\
    same_names e es2 e' es2' /\ e_inode e' = e_inode e /\ e_nl e' = e_nl e /\ e_rec e <= e_rec e' /\
    (ret = 0 /\ e' = e /\ es2' = es2 \/ ret = DIRENT_CHANGED) /\
    forall n, n ∈ es2 -> n ∈ es2' \/ (e_inode n = 0 /\ e_rec n + e_rec e <= e_rec e')).
  { exists 0, e, es2. split; [done|]. split; [by apply same_refl|]. split; [done|]. split; [done|]. split; [lia|]. split; [by left|]. by left. }
  unfold link_absorb. destruct es2 as [|n es2].
  - destruct (Z.ltb_spec (size es1 + e_rec e) (blocksize fs - (8 + csum_size fs))); [|exact Hstay].
    change (size []) with 0 in Hsz. lia.
  - apply Forall_cons in Hes as [_ Hes]. apply Forall_cons in Hes as [Hn Hes]. pose proof (ok_rec _ Hn) as Hrn.
    rewrite size_cons in Hsz by done. pose proof (size_nonneg es2). pose proof (csum_size_cases fs).
    pose proof (size_nonneg es1).
    destruct (Z.ltb_spec (size es1 + e_rec e) (blocksize fs - (8 + csum_size fs))); [|lia].
    assert (Hoff : size es1 + e_rec e = size (es1 ++ [e])) by (rewrite size_app, size_cons by done; change (size []) with 0; lia).
    assert (Hbuf : encode (es1 ++ e :: (n :: es2) ++ tl) = encode (es1 ++ [e]) ++ enc n ++ encode (es2 ++ tl)).
    { rewrite <- encode_cons, <- encode_app, <- app_assoc. done. }
    rewrite Hbuf, Hoff, d_inode_at, d_rec_len_at by (try apply Hn; range_lia). cbn [obind]. rewrite <- Hbuf.
    destruct (Z.eqb_spec (e_inode n) 0) as [Hn0|Hn0]; [|exact Hstay]. cbn [andb].
    rewrite <- Hoff. destruct (Z.leb_spec (size es1 + e_rec e + e_rec n) (blocksize fs)); [|lia].
    rewrite encode_mid, (set_rec_len_ok fs Hbs) by (try lia; rewrite Z.add_mod, (ok_mod _ He), (ok_mod _ Hn) by lia; done).
    cbn [obind]. exists DIRENT_CHANGED, (merge e n), es2. split.
    { f_equal. f_equal. rewrite encode_mid. f_equal. change ((n :: es2) ++ tl) with (n :: es2 ++ tl). rewrite encode_cons, app_assoc, enc_merge. done. }
    assert (Hmok : entry_ok (merge e n)) by (apply merge_ok; [done..|lia]).
    split; [|split; [done|split; [done|split; [cbn; lia|split; [by right|]]]]].
    + constructor; [done|done| |by apply merge_live|by rewrite names_dead].
      rewrite !size_cons by done. cbn. lia.
    + intros m [->|Hm]%elem_of_cons; [right; cbn; lia|by left].
Qed.

(** Cutting an entry in use to what its name needs. *)
Definition cut (e : dentry) : dentry :=
  let min := EXT2_DIR_REC_LEN (e_name_len e) in mk_de (e_inode e) min (e_nl e) (take (Z.to_nat (min - 8)) (e_rest e)).

Definition gap (e : dentry) : dentry :=
  let min := EXT2_DIR_REC_LEN (e_name_len e) in mk_de 0 (e_rec e - min) 0 (drop 8 (drop (Z.to_nat (min - 8)) (e_rest e))).

Lemma cut_name e : entry_ok e -> e_name (cut e) = e_name e.
Proof.
  intros He. pose proof (name_len_range e). pose proof (rec_len_bounds (e_name_len e) ltac:(lia)) as (? & _ & _).
  unfold e_name, cut, e_name_len in *. cbn [e_nl e_rest]. rewrite take_take. f_equal. lia.
Qed.

Lemma cut_ok e : entry_ok e -> e_inode e <> 0 -> EXT2_DIR_REC_LEN (e_name_len e) <= e_rec e -> entry_ok (cut e).
Proof.
  intros He Hl Hm. pose proof (cut_name e He) as Hc. pose proof (name_len_range e). destruct (ok_live _ He Hl) as [H1 H0].
  pose proof (rec_len_bounds (e_name_len e) ltac:(lia)) as (Hb & Hmod & Hlow). specialize (Hlow H1). destruct He.
  constructor; cbn [cut e_inode e_rec e_nl e_rest]; try done.
  - lia.
  - unfold e_name_len, cut in *. cbn [e_nl]. lia.
  - rewrite length_take. lia.
  - by apply bytes_ok_take.
  - rewrite Hc. done.
Qed.

Lemma gap_ok e : entry_ok e -> EXT2_DIR_REC_LEN (e_name_len e) + 12 <= e_rec e -> entry_ok (gap e).
Proof.
  intros He Hm. pose proof (name_len_range e). pose proof (rec_len_bounds (e_name_len e) ltac:(lia)) as (Hb & Hmod & _). destruct He.
  constructor; cbn [gap e_inode e_rec e_nl e_rest]; try done.
  - lia.
  - rewrite Zminus_mod, Hmod, ok_mod. done.
  - change (0 + 8 <= e_rec e - EXT2_DIR_REC_LEN (e_name_len e)). lia.
  - rewrite !length_drop. lia.
  - by apply bytes_ok_drop, bytes_ok_drop.
Qed.

Lemma link_split_ok es1 e rest : entry_ok e -> e_inode e <> 0 -> EXT2_DIR_REC_LEN (e_name_len e) + 12 <= e_rec e <= blocksize fs ->
  link_split fs (encode es1 ++ enc e ++ rest) (size es1) (EXT2_DIR_REC_LEN (e_name_len e)) (e_rec e - EXT2_DIR_REC_LEN (e_name_len e)) =
    Done (0, encode es1 ++ enc (cut e) ++ enc (gap e) ++ rest).
Proof.
  intros He Hl Hm. pose proof (name_len_range e). pose proof (rec_len_bounds (e_name_len e) ltac:(lia)) as (Hb & Hmod & _).
  pose proof (cut_ok e He Hl ltac:(lia)) as Hc. set (min := EXT2_DIR_REC_LEN (e_name_len e)) in *.
  set (G := drop (Z.to_nat (min - 8)) (e_rest e)).
  assert (HG : bytes_ok G) by apply bytes_ok_drop, He.
  assert (HGl : (8 <= length G)%nat) by (unfold G; rewrite length_drop; pose proof (ok_rest _ He); lia).
  unfold link_split. rewrite (set_rec_len_ok fs Hbs) by (try lia; done). cbn [obind negb Z.eqb].
  rewrite d_rec_len_at by (cbn [e_rec]; range_lia). cbn [obind e_rec].
  assert (Hbuf : encode es1 ++ enc (mk_de (e_inode e) min (e_nl e) (e_rest e)) ++ rest = encode (es1 ++ [cut e]) ++ enc (dec G) ++ rest).
  { rewrite enc_dec, encode_app by done. unfold encode at 3. cbn [fmap list_fmap mjoin list_join]. rewrite app_nil_r, <- !app_assoc. f_equal.
    rewrite app_assoc. f_equal. unfold cut, enc, header. cbn [e_inode e_rec e_nl e_rest]. fold min. rewrite <- !app_assoc. do 3 f_equal.
    unfold G. rewrite take_drop. done. }
  rewrite Hbuf. replace (size es1 + min) with (size (es1 ++ [cut e])) by (rewrite size_app, size_cons by done; unfold cut; cbn [e_rec]; fold min; change (size []) with 0; lia).
  assert (Hu : is_u16 (e_nl (dec G))).
  { unfold dec. cbn [e_nl]. pose proof (le_decode_range (take 2 (drop 6 G)) ltac:(auto using bytes_ok_take, bytes_ok_drop)) as Hr.
    rewrite length_take, length_drop in Hr. replace (2 `min` (length G - 6))%nat with 2%nat in Hr by lia. exact Hr. }
  rewrite set_inode_at. cbn [obind].
  rewrite set_name_len_at by done. cbn [obind e_nl e_inode e_rec e_rest].
  rewrite set_file_type_at by (unfold is_u16 in *; cbn [e_nl]; change (0 mod 256) with 0; div_lia). cbn [obind e_nl e_inode e_rec e_rest].
  rewrite (set_rec_len_ok fs Hbs) by (try lia; rewrite Zminus_mod, Hmod, (ok_mod _ He); done).
  cbn [obind e_nl e_inode e_rec e_rest]. f_equal. f_equal. rewrite encode_app. unfold encode at 2. cbn [fmap list_fmap mjoin list_join].
  rewrite app_nil_r, <- !app_assoc. do 3 f_equal. unfold gap. fold min. f_equal.
  change (0 mod 256) with 0. rewrite Z.add_0_r, Z.mod_mul by lia. done.
Qed.

(** * The callback *)

Section name.
Context (name : list Z) (ino flags : Z).
Context (Hlen : 1 <= Z.of_nat (length name) <= 255) (Hbytes : bytes_ok name) (Hzero : 0 ∉ name) (Hino : 0 < ino < 2 ^ 32).

Definition need : Z := EXT2_DIR_REC_LEN (Z.of_nat (length name)).

(** The file type of the new entry, when it takes the place of [e]. *)
Definition new_type (e : dentry) : Z := if filetype fs then Z.land flags 0x7 else e_nl e / 256.

Definition filled (e : dentry) : dentry :=
  mk_de ino (e_rec e) (new_type e * 256 + Z.of_nat (length name)) (name ++ drop (length name) (e_rest e)).

Lemma new_type_range e : entry_ok e -> 0 <= new_type e < 256.
Proof.
  intros He. unfold new_type. destruct (filetype fs).
  - change 7 with (Z.ones 3). rewrite Z.land_ones by lia. pose proof (Z.mod_pos_bound flags (2 ^ 3)). lia.
  - pose proof (ok_nl _ He). unfold is_u16 in *. div_lia.
Qed.

Lemma filled_name_len e : e_name_len (filled e) = Z.of_nat (length name).
Proof. rewrite name_len_mod. cbn [filled e_nl]. rewrite Z.add_comm, Z.mod_add, Z.mod_small by lia. done. Qed.

Lemma filled_name e : e_name (filled e) = name.
Proof. unfold e_name. rewrite filled_name_len, Nat2Z.id. cbn [filled e_rest]. apply take_app_length. Qed.

Lemma filled_ok e : entry_ok e -> need <= e_rec e -> entry_ok (filled e).
Proof.
  intros He Hn. pose proof (new_type_range e He). pose proof (rec_len_bounds (Z.of_nat (length name)) ltac:(lia)) as (Hb & _ & _).
  unfold need in Hn. destruct He. constructor; rewrite ?filled_name_len, ?filled_name; cbn [filled e_inode e_rec e_nl e_rest]; try done.
  - range_lia.
  - range_lia.
  - lia.
  - rewrite length_app, length_drop. lia.
  - apply bytes_ok_app. split; [done|]. by apply bytes_ok_drop.
  - intros _. split; [lia|done].
Qed.

Lemma filled_live e : live (filled e) = Some (name, ino, new_type e).
Proof.
  unfold live. rewrite filled_name, type_div. cbn [filled e_inode e_nl]. destruct (Z.eqb_spec ino 0); [lia|].
  f_equal. f_equal. div_lia.
Qed.

Lemma link_fill_ok es1 e rest : entry_ok e -> need <= e_rec e ->
  link_fill fs name ino flags (encode es1 ++ enc e ++ rest) (size es1) = Done (encode es1 ++ enc (filled e) ++ rest).
Proof.
  intros He Hn. pose proof (rec_len_bounds (Z.of_nat (length name)) ltac:(lia)) as (Hb & _ & _). unfold need in Hn.
  pose proof (ok_nl _ He) as Hnl. pose proof (ok_rest _ He). unfold link_fill. rewrite set_inode_at. cbn [obind].
  rewrite set_name_len_at by done. cbn [obind e_inode e_rec e_nl e_rest]. rewrite (Z.mod_small (Z.of_nat (length name))) by lia.
  rewrite set_name_at by (cbn [e_rest]; lia). cbn [obind e_inode e_rec e_nl e_rest]. unfold filled, new_type. destruct (filetype fs); [|done].
  rewrite set_file_type_at by (unfold is_u16 in *; cbn [e_nl]; div_lia). cbn [e_inode e_rec e_nl e_rest].
  rewrite (Z.add_comm (e_nl e / 256 * 256)), Z.mod_add, (Z.mod_small (Z.of_nat (length name))) by lia. done.
Qed.

(** What [link_proc] does with the entry [e]: it puts the name in its place or
    keeps all names; what had room before then still comes. *)
Inductive link_result (e : dentry) (es2 : list dentry) : Z -> dentry -> list dentry -> link_state -> Prop :=
| LinkDone e' es2' t : e_inode e = 0 -> entry_ok e' -> Forall entry_ok es2' -> size (e' :: es2') = size (e :: es2) ->
    live e' = Some (name, ino, t) -> names es2' = names es2 -> (filetype fs = true -> t = Z.land flags 0x7) ->
    link_result e es2 (Z.lor DIRENT_ABORT DIRENT_CHANGED) e' es2' (mk_ls true 0)
| LinkOn ret e' es2' : same_names e es2 e' es2' ->
    (ret = 0 /\ e' = e /\ es2' = es2 \/ ret = DIRENT_CHANGED) ->
    ((exists n, n ∈ e :: es2 /\ need <= room n) -> exists n, n ∈ es2' /\ need <= room n) ->
    link_result e es2 ret e' es2' (mk_ls false 0).

(** Nothing fits. *)
Lemma no_fit e es2 e' es2' ret : same_names e es2 e' es2' -> e_inode e' = e_inode e -> e_nl e' = e_nl e ->
  Forall entry_ok (e :: es2) ->
  e_rec e <= e_rec e' -> (ret = 0 /\ e' = e /\ es2' = es2 \/ ret = DIRENT_CHANGED) ->
  (forall n, n ∈ es2 -> n ∈ es2' \/ (e_inode n = 0 /\ e_rec n + e_rec e <= e_rec e')) ->
  room e' < need -> link_result e es2 ret e' es2' (mk_ls false 0).
Proof.
  intros Hs Hi Hn Hoks Hr Hret Hall Hroom. apply Forall_cons in Hoks as [He _]. constructor; [done|done|]. intros (n & Hin & Hfit). exists n.
  assert (Hre : room e <= room e') by (unfold room, e_name_len in *; rewrite Hi, Hn; destruct (e_inode e =? 0); lia).
  apply elem_of_cons in Hin as [->|Hin]; [lia|]. destruct (Hall n Hin) as [|[H0 Hsum]]; [done|]. exfalso.
  pose proof (name_len_range e). pose proof (rec_len_bounds (e_name_len e) ltac:(lia)) as (Hb & Hmod & _).
  assert (Hmin : EXT2_DIR_REC_LEN (e_name_len e) <= e_rec e).
  { pose proof (ok_name _ He). pose proof (ok_mod _ He). rewrite rec_len_eq in * by lia. div_lia. }
  unfold room in *. rewrite H0, Hi in *. cbn [Z.eqb] in Hfit. replace (e_name_len e') with (e_name_len e) in Hroom by (unfold e_name_len; rewrite Hn; done).
  destruct (e_inode e =? 0); lia.
Qed.

Lemma link_proc_ok es1 e es2 tl : body_ok fs (es1 ++ e :: es2) tl ->
  exists ret e' es2' ls, (forall k, link_proc fs name ino flags k (size es1) (blocksize fs) (encode (es1 ++ e :: es2 ++ tl)) (mk_ls false 0) =
      Done (ret, encode (es1 ++ e' :: es2' ++ tl), ls)) /\ link_result e es2 ret e' es2' ls.
Proof.
  intros Hb. destruct (body_sizes _ _ _ _ Hb) as (He & Hsz & Hfull & Hc).
  pose proof (bo_entries _ _ _ Hb) as Hes. apply Forall_app in Hes as [_ Hes].
  destruct (absorb_ok es1 e es2 tl Hb) as (ret & e' & es2' & Habs & Hsame & Hi & Hn & Hr & Hret & Hall).
  pose proof (sn_ok _ _ _ _ Hsame) as He'. pose proof (same_body _ _ _ _ _ _ Hb Hsame) as Hb'.
  destruct (body_sizes _ _ _ _ Hb') as (_ & Hsz' & _ & _). pose proof (size_nonneg es1). pose proof (size_nonneg es2'). pose proof (csum_size_cases fs).
  assert (Hrec : ext2fs_get_rec_len fs (encode (es1 ++ e :: es2 ++ tl)) (size es1) = Done (e_rec e)).
  { rewrite encode_mid. apply (get_rec_len_at fs Hbs). pose proof (ok_rec _ He). range_lia. }
  pose proof (rec_len_bounds (Z.of_nat (length name)) ltac:(lia)) as (Hnb & _ & Hn12). specialize (Hn12 ltac:(lia)). fold need in Hnb, Hn12.
  unfold link_proc. cbn [ls_done]. rewrite Hrec. cbn [obind]. rewrite Habs. cbn [obind negb Z.eqb].
  rewrite encode_mid, d_inode_at, dirent_name_len_at by apply He'. cbn [obind]. fold need.
  destruct (Z.eqb_spec (e_inode e') 0) as [Hu|Hu]; cbn [negb].
  - destruct (Z.ltb_spec (e_rec e') need) as [Hlt|Hge].
    + exists ret, e', es2', (mk_ls false 0). split; [intros _; rewrite encode_mid; done|]. apply no_fit; try done. unfold room. rewrite Hu. done.
    + rewrite link_fill_ok by done. cbn [obind]. exists 3, (filled e'), es2', (mk_ls true 0). split; [intros _; rewrite encode_mid; done|].
      destruct Hsame. apply (LinkDone e es2 (filled e') es2' (new_type e')); try done.
      * by rewrite <- Hi.
      * by apply filled_ok.
      * rewrite size_cons by (by apply filled_ok). rewrite size_cons in sn_size0 by done. exact sn_size0.
      * apply filled_live.
      * unfold new_type. by intros ->.
  - destruct (Z.ltb_spec (e_rec e') (EXT2_DIR_REC_LEN (e_name_len e') + need)) as [Hlt|Hge].
    + exists ret, e', es2', (mk_ls false 0). split; [intros _; rewrite encode_mid; done|]. apply no_fit; try done. unfold room.
      destruct (Z.eqb_spec (e_inode e') 0); [done|]. lia.
    + pose proof (cut_ok e' He' Hu ltac:(lia)) as Hcut. pose proof (gap_ok e' He' ltac:(lia)) as Hgap.
      rewrite link_split_ok by (try done; lia). cbn [obind negb Z.eqb].
      exists DIRENT_CHANGED, (cut e'), (gap e' :: es2'), (mk_ls false 0). split; [intros _; rewrite encode_mid; done|].
      destruct Hsame. constructor.
      * constructor; [done|by constructor| | |by rewrite names_dead].
        -- rewrite !size_cons in * by done. unfold cut, gap. cbn [e_rec]. lia.
        -- rewrite <- sn_live0. unfold live. rewrite cut_name by done. done.
      * by right.
      * intros _. exists (gap e'). split; [by left|]. unfold room, gap. cbn [e_inode Z.eqb e_rec]. lia.
Qed.

(** * The walk *)

(** The names of a block after the walk: with the new one among them, or as they
    were, when no entry has room for it. *)
Definition link_names (es es' : list dentry) (ab ch : bool) (ls : link_state) : Prop :=
  (ls = mk_ls true 0 /\ ab = true /\ ch = true /\
   exists t a b, (filetype fs = true -> t = Z.land flags 0x7) /\ names es = a ++ b /\ names es' = a ++ (name, ino, t) :: b) \/
  (ls = mk_ls false 0 /\ ab = false /\ names es' = names es /\ (ch = false -> es' = es) /\ Forall (fun n => room n < need) es).

Lemma body_tail es1 e es2 tl : body_ok fs (es1 ++ e :: es2) tl -> body_ok fs ((es1 ++ [e]) ++ es2) tl.
Proof. rewrite <- app_assoc. done. Qed.

Lemma link_walk fuel : forall es1 es2 tl nre entry changed, body_ok fs (es1 ++ es2) tl ->
  (Z.to_nat (blocksize fs - size es1) < fuel)%nat ->
  exists es' ab ch ls,
    dir_walk fs (link_proc fs name ino flags) DIRENT_FLAG_INCLUDE_EMPTY (blocksize fs) fuel (size es1) nre entry changed
      (encode (es1 ++ es2 ++ tl)) (mk_ls false 0) = Done (Walked ab (changed || ch) (encode (es1 ++ es' ++ tl)) ls) /\
    body_ok fs (es1 ++ es') tl /\ link_names es2 es' ab ch ls.
Proof.
  induction fuel as [|fuel IH]; intros es1 es2 tl nre entry changed Hb Hfuel; [lia|].
  destruct es2 as [|e es2].
  { rewrite app_nil_r in Hb. cbn [app]. rewrite (walk_end fs Hbs) by (try done; by right).
    exists [], false, false, (mk_ls false 0). rewrite orb_false_r, app_nil_r. split; [done|]. split; [done|]. right. repeat split; done. }
  destruct (body_sizes _ _ _ _ Hb) as (He & Hsz & Hfull & Hc).
  destruct (link_proc_ok es1 e es2 tl Hb) as (ret & e' & es2' & ls & Hproc & Hres).
  pose proof (bo_entries _ _ _ Hb) as Hes. apply Forall_app in Hes as [Hes1 Hes].
  destruct Hres as [e' es2' t Hdead He' Hes2' Hsize Hlive Hnames Ht|ret e' es2' Hsame Hret Hroom].
  - destruct (walk_visit fs Hbs (link_proc fs name ino flags) DIRENT_FLAG_INCLUDE_EMPTY ltac:(by right) es1 e (es2 ++ tl) He Hfull
      fuel nre entry changed (mk_ls false 0) (Z.lor DIRENT_ABORT DIRENT_CHANGED) e' (es2' ++ tl) (mk_ls true 0)) as (nre' & entry' & Hw);
      [done|by right|exact Hproc|done|done|].
    exists (e' :: es2'), true, true, (mk_ls true 0). split; [exact Hw|]. split.
    + destruct Hb as [_ Htl Hs]. constructor; [|done|rewrite <- Hs, !size_app, Hsize; done]. apply Forall_app. split; [done|]. by constructor.
    + left. split; [done|]. split; [done|]. split; [done|]. exists t, [], (names es2). split; [done|].
      rewrite names_dead by done. split; [done|]. rewrite (names_live e' es2' (name, ino, t)) by done. rewrite Hnames. done.
  - assert (Hflags : has_flag ret DIRENT_ABORT = false) by (destruct Hret as [(-> & _)| ->]; done).
    destruct (walk_visit fs Hbs (link_proc fs name ino flags) DIRENT_FLAG_INCLUDE_EMPTY ltac:(by right) es1 e (es2 ++ tl) He Hfull
      fuel nre entry changed (mk_ls false 0) ret e' (es2' ++ tl) (mk_ls false 0)) as (nre' & entry' & Hw);
      [done|by right|exact Hproc|apply Hsame|destruct Hret as [(-> & -> & _)| ->]; done|].
    rewrite Hflags in Hw. pose proof (same_body _ _ _ _ _ _ Hb Hsame) as Hb'.
    pose proof (ok_rec _ (sn_ok _ _ _ _ Hsame)) as Hr'. destruct (body_sizes _ _ _ _ Hb') as (_ & Hsz' & _).
    pose proof (size_nonneg es2'). pose proof (csum_size_cases fs).
    destruct (IH (es1 ++ [e']) es2' tl nre' entry' (changed || has_flag ret DIRENT_CHANGED) (body_tail _ _ _ _ Hb'))
      as (es' & ab & ch & ls & Hrest & Hb'' & Hn).
    { rewrite size_app, (size_cons e' []) by apply Hsame. change (size []) with 0. lia. }
    rewrite <- !app_assoc in Hrest. cbn [app] in Hrest. unfold link_names in Hn.
    exists (e' :: es'), ab, (has_flag ret DIRENT_CHANGED || ch), ls. split; [rewrite orb_assoc; etrans; [exact Hw|exact Hrest]|].
    split; [rewrite <- app_assoc in Hb''; exact Hb''|]. destruct Hsame as [He' Hes2' Hs Hl Hnm].
    destruct Hn as [(-> & -> & -> & t & a & b & Ht & Ha & Hb2)|(-> & -> & Hn & Hch & Hno)].
    + left. rewrite orb_true_r. split; [done|]. split; [done|]. split; [done|]. unfold names in *. cbn. rewrite Hl, <- Hnm, Ha, Hb2.
      destruct (live e) as [x|]; [exists t, (x :: a), b|exists t, a, b]; done.
    + right. split; [done|]. split; [done|]. split; [apply names_cons_eq; congruence|]. split.
      * intros [Hz ->]%orb_false_iff. destruct Hret as [(_ & -> & ->)| ->]; [|done]. rewrite Hch by done. done.
      * rewrite Forall_forall in *. intros n Hin. destruct (Z.lt_ge_cases (room n) need) as [|Hge]; [done|]. exfalso.
        destruct Hroom as (m & Hm & Hge'); [exists n; split; [done|lia]|]. pose proof (Hno m Hm). lia.
Qed.
End name.
End link.
