(* ===== verification/DirFind.v ===== *)
(** Looking up and unlinking names in the blocks of a directory: the walks with
    [lookup_proc] and [unlink_proc] on a block that holds given entries. *)

From S2P Require Import Prelude Crc Bitops BlockIo Bitmap64 Dir DirSpec DirLink.

Local Open Scope Z_scope.

(** Names without zeros are compared as they are. *)
Lemma strncmp_exact n : forall a b, length a = n -> length b = n -> 0 ∉ b -> strncmp_eq a b n = bool_decide (a = b).
Proof.
  induction n as [|n IH]; intros [|x a] [|y b] Ha Hb Hz; try done. cbn [strncmp_eq head tail default from_option id].
  rewrite not_elem_of_cons in Hz. destruct Hz as [Hy Hz]. destruct (Z.eqb_spec x y) as [->|Hne].
  - destruct (Z.eqb_spec y 0); [congruence|]. cbn in Ha, Hb. rewrite IH by (try lia; done).
    apply bool_decide_ext. split; [by intros ->|by intros [= ->]].
  - symmetry. apply bool_decide_eq_false. congruence.
Qed.

(** * What is found *)

Fixpoint find_name (name : list Z) (l : list (list Z * Z * Z)) : option Z :=
  match l with
  | [] => None
  | (n, i, _) :: l => if bool_decide (n = name) then Some i else find_name name l
  end.

Fixpoint remove_first {A} (f : A -> bool) (l : list A) : option (list A) :=
  match l with
  | [] => None
  | x :: l => if f x then Some l else (fun r => x :: r) <$> remove_first f l
  end.

(** The entries that [ext2fs_unlink] takes. *)
Definition unlinked (name : option (list Z)) (ino flags : Z) (x : list Z * Z * Z) : bool :=
  let '(n, i, _) := x in
  match name with Some nm => bool_decide (n = nm) | None => true end &&
  (if negb (has_flag flags EXT2FS_UNLINK_FORCE) && negb (ino =? 0) then i =? ino else true).

Section find.
Context (fs : filsys) (Hbs : 24 <= blocksize fs < 65536).

Lemma name_of_at es1 e rest : entry_ok e -> load_bytes (encode es1 ++ enc e ++ rest) (size es1 + 8) (e_name_len e) = Done (e_name e).
Proof.
  intros He. pose proof (name_len_range e). pose proof (ok_name _ He). pose proof (ok_rest _ He).
  rewrite name_at by lia. done.
Qed.

Lemma length_e_name e : entry_ok e -> Z.of_nat (length (e_name e)) = e_name_len e.
Proof.
  intros He. pose proof (name_len_range e). pose proof (ok_name _ He). pose proof (ok_rest _ He).
  unfold e_name. rewrite length_take. lia.
Qed.

(** The comparison with the name of an entry in use. *)
Lemma compare_at name e : entry_ok e -> e_inode e <> 0 ->
  (if negb (e_name_len e =? Z.of_nat (length name)) then false else strncmp_eq name (e_name e) (Z.to_nat (e_name_len e))) =
    bool_decide (e_name e = name).
Proof.
  intros He Hl. pose proof (length_e_name e He). destruct (ok_live _ He Hl) as [_ H0].
  destruct (Z.eqb_spec (e_name_len e) (Z.of_nat (length name))) as [Heq|Hne]; cbn [negb].
  - rewrite strncmp_exact by (try lia; done). apply bool_decide_ext. split; congruence.
  - symmetry. apply bool_decide_eq_false. intros <-. lia.
Qed.

(** * lookup *)

Section lookup.
Context (name : list Z).

Lemma lookup_proc_at es1 e rest p k b : entry_ok e -> e_inode e <> 0 ->
  lookup_proc name (Z.of_nat (length name)) k (size es1) b (encode es1 ++ enc e ++ rest) p =
    Done (if bool_decide (e_name e = name) then (DIRENT_ABORT, encode es1 ++ enc e ++ rest, (e_inode e, true))
          else (0, encode es1 ++ enc e ++ rest, p)).
Proof.
  intros He Hl. unfold lookup_proc. rewrite dirent_name_len_at by apply He. cbn [obind].
  rewrite <- (compare_at name e He Hl), Z.eqb_sym. destruct (e_name_len e =? Z.of_nat (length name)) eqn:E; cbn [negb]; [|done].
  rewrite name_of_at by done. cbn [obind]. destruct (strncmp_eq name (e_name e) (Z.to_nat (e_name_len e))); cbn [negb]; [|done].
  rewrite d_inode_at by apply He. done.
Qed.

Lemma lookup_walk fuel : forall es1 es2 tl nre entry changed i, body_ok fs (es1 ++ es2) tl ->
  (Z.to_nat (blocksize fs - size es1) < fuel)%nat ->
  dir_walk fs (lookup_proc name (Z.of_nat (length name))) 0 (blocksize fs) fuel (size es1) nre entry changed
      (encode (es1 ++ es2 ++ tl)) (i, false) =
    Done match find_name name (names es2) with
         | Some j => Walked true changed (encode (es1 ++ es2 ++ tl)) (j, true)
         | None => Walked false changed (encode (es1 ++ es2 ++ tl)) (i, false)
         end.
Proof.
  induction fuel as [|fuel IH]; intros es1 es2 tl nre entry changed i Hb Hfuel; [lia|].
  destruct es2 as [|e es2].
  { rewrite app_nil_r in Hb. cbn [app]. rewrite (walk_end fs Hbs) by (try done; by left). done. }
  destruct (body_sizes _ _ _ _ _ Hb) as (He & Hsz & Hfull & Hc). pose proof (ok_rec _ He).
  pose proof (size_nonneg es2). pose proof (csum_size_cases fs).
  assert (Hnext : forall nre entry changed, dir_walk fs (lookup_proc name (Z.of_nat (length name))) 0 (blocksize fs) fuel (size (es1 ++ [e])) nre entry changed
      (encode (es1 ++ e :: es2 ++ tl)) (i, false) =
    Done match find_name name (names es2) with
         | Some j => Walked true changed (encode (es1 ++ e :: es2 ++ tl)) (j, true)
         | None => Walked false changed (encode (es1 ++ e :: es2 ++ tl)) (i, false)
         end).
  { intros. pose proof (IH (es1 ++ [e]) es2 tl nre0 entry0 changed0 i (body_tail _ _ _ _ _ Hb)) as Hn. rewrite <- !app_assoc in Hn. apply Hn.
    rewrite size_app, (size_cons e []) by done. change (size []) with 0. lia. }
  cbn [app]. destruct (Z.eq_dec (e_inode e) 0) as [Hz|Hz].
  - rewrite names_dead by done. destruct (walk_skip fs Hbs (lookup_proc name (Z.of_nat (length name))) 0 ltac:(by left) es1 e (es2 ++ tl) He Hfull
      fuel nre entry changed (i, false)) as (nre' & ->); [done..|]. apply Hnext.
  - rewrite (names_live e es2 (e_name e, e_inode e, e_type e)) by (unfold live; destruct (Z.eqb_spec (e_inode e) 0); done).
    cbn [find_name].
    set (ret := if bool_decide (e_name e = name) then DIRENT_ABORT else 0).
    set (p' := if bool_decide (e_name e = name) then (e_inode e, true) else (i, false)).
    destruct (walk_visit fs Hbs (lookup_proc name (Z.of_nat (length name))) 0 ltac:(by left) es1 e (es2 ++ tl) He Hfull
      fuel nre entry changed (i, false) ret e (es2 ++ tl) p') as (nre' & entry' & ->); [done|by left| |done|done|].
    { intros k. rewrite encode_mid, lookup_proc_at by done. unfold ret, p'. destruct (bool_decide _); done. }
    unfold ret, p'. destruct (bool_decide (e_name e = name)).
    + change (has_flag DIRENT_ABORT DIRENT_ABORT) with true. change (has_flag DIRENT_ABORT DIRENT_CHANGED) with false. rewrite orb_false_r. done.
    + change (has_flag 0 DIRENT_ABORT) with false. change (has_flag 0 DIRENT_CHANGED) with false. rewrite orb_false_r. apply Hnext.
Qed.
End lookup.

(** * unlink *)

Section unlink.
Context (name : option (list Z)) (ino flags : Z).

Definition matches (e : dentry) : bool := match live e with Some x => unlinked name ino flags x | None => false end.

(** An entry that does not match is kept and becomes [prev]. *)
Lemma unlink_keep es1 e rest prev k b : entry_ok e -> matches e = false ->
  unlink_proc name ino flags k (size es1) b (encode es1 ++ enc e ++ rest) (prev, false) =
    Done (0, encode es1 ++ enc e ++ rest, (Some (size es1), false)).
Proof.
  intros He Hm. unfold unlink_proc. cbn [fst snd]. rewrite dirent_name_len_at by apply He. cbn [obind].
  set (same := match name with Some nm => if negb (e_name_len e =? Z.of_nat (length nm)) then false
                 else strncmp_eq nm (e_name e) (Z.to_nat (e_name_len e)) | None => true end).
  replace (match name with Some _ => _ | None => _ end) with (Done same).
  2:{ unfold same. destruct name as [nm|]; [|done]. destruct (e_name_len e =? Z.of_nat (length nm)); [|done]. cbn [negb].
      rewrite name_of_at by done. done. }
  cbn [obind]. destruct same eqn:Es; cbn [negb]; [|done]. rewrite d_inode_at by apply He. cbn [obind].
  unfold matches, live in Hm. destruct (Z.eqb_spec (e_inode e) 0) as [Hz|Hz].
  - rewrite Hz. destruct (has_flag flags EXT2FS_UNLINK_FORCE); cbn [negb andb]; [done|].
    destruct (Z.eqb_spec ino 0) as [|Hi]; cbn [negb]; [done|]. destruct (Z.eqb_spec 0 ino); [congruence|]. done.
  - cbn [unlinked] in Hm. replace (match name with Some nm => _ | None => _ end) with true in Hm.
    2:{ rewrite <- Es. unfold same. destruct name as [nm|]; [|done]. apply compare_at; done. }
    cbn [andb] in Hm. destruct (negb (has_flag flags EXT2FS_UNLINK_FORCE) && negb (ino =? 0)); [|done]. rewrite Hm. done.
Qed.

(** One that matches loses its inode, or goes into the entry in front of it. *)
Lemma unlink_take es1 e rest prev k b : entry_ok e -> matches e = true ->
  unlink_proc name ino flags k (size es1) b (encode es1 ++ enc e ++ rest) (prev, false) =
    let* buf := if negb (size es1 =? 0) then
                  match prev with
                  | None => Crash BadPointer
                  | Some prev =>
                      let* a := d_rec_len (encode es1 ++ enc e ++ rest) prev in
                      let* b := d_rec_len (encode es1 ++ enc e ++ rest) (size es1) in
                      set_rec_len (encode es1 ++ enc e ++ rest) prev (u16 (a + b))
                  end
                else set_inode (encode es1 ++ enc e ++ rest) (size es1) 0 in
    Done (Z.lor DIRENT_ABORT DIRENT_CHANGED, buf, (Some (size es1), true)).
Proof.
  intros He Hm. unfold unlink_proc. cbn [fst snd]. rewrite dirent_name_len_at by apply He. cbn [obind].
  unfold matches, live in Hm. destruct (Z.eqb_spec (e_inode e) 0) as [Hz|Hz]; [done|]. cbn [unlinked] in Hm.
  apply andb_true_iff in Hm as [Hn Hi].
  replace (match name with Some _ => _ | None => _ end) with (Done true).
  2:{ destruct name as [nm|]; [|done]. rewrite <- (compare_at nm e He Hz) in Hn. destruct (e_name_len e =? Z.of_nat (length nm)); [|done].
      cbn [negb] in *. rewrite name_of_at by done. cbn [obind]. rewrite Hn. done. }
  cbn [obind negb]. rewrite d_inode_at by apply He. cbn [obind].
  destruct (negb (has_flag flags EXT2FS_UNLINK_FORCE) && negb (ino =? 0)).
  - rewrite Hi. done.
  - destruct (Z.eqb_spec (e_inode e) 0); done.
Qed.

Definition first_dead (e : dentry) : dentry := mk_de 0 (e_rec e) (e_nl e) (e_rest e).

Lemma first_dead_ok e : entry_ok e -> entry_ok (first_dead e).
Proof. intros []. constructor; done. Qed.

(** Where the callback is in the block: at its start, or behind [prev]. *)
Definition prev_ok (es1 : list dentry) (prev : option Z) : Prop :=
  es1 = [] \/ exists es0 pe, es1 = es0 ++ [pe] /\ prev = Some (size es0).

Lemma unlink_taken es1 e rest prev k b : Forall entry_ok es1 -> entry_ok e -> matches e = true -> prev_ok es1 prev ->
  size es1 + e_rec e <= blocksize fs ->
  exists es', unlink_proc name ino flags k (size es1) b (encode es1 ++ enc e ++ rest) (prev, false) =
      Done (Z.lor DIRENT_ABORT DIRENT_CHANGED, encode es' ++ rest, (Some (size es1), true)) /\
    Forall entry_ok es' /\ size es' = size es1 + e_rec e /\ names es' = names es1 /\
    ext2fs_get_rec_len fs (encode es' ++ rest) (size es1) = Done (e_rec e).
Proof.
  intros Hes He Hm Hprev Hsz. rewrite unlink_take by done. pose proof (ok_rec _ He). destruct Hprev as [->|(es0 & pe & -> & ->)].
  - change (size [] =? 0) with true. cbn [negb]. rewrite set_inode_at. cbn [obind].
    pose proof (first_dead_ok e He) as Hd. exists [first_dead e].
    split; [cbn [encode fmap list_fmap mjoin list_join app]; rewrite app_nil_r; done|].
    split; [by apply Forall_singleton|]. split; [rewrite size_cons by done; cbn; lia|]. split; [by rewrite names_dead|].
    pose proof (get_rec_len_at fs Hbs [] (first_dead e) rest) as Hg. rewrite encode_cons. change (encode []) with (@nil Z). rewrite app_nil_r.
    apply Hg. cbn. range_lia.
  - apply Forall_app in Hes as [Hes0 Hpe]. rewrite Forall_singleton in Hpe. pose proof (ok_rec _ Hpe).
    assert (Hs : size (es0 ++ [pe]) = size es0 + e_rec pe) by (rewrite size_app, size_cons by done; change (size []) with 0; lia).
    pose proof (size_nonneg es0). destruct (Z.eqb_spec (size (es0 ++ [pe])) 0); [lia|]. cbn [negb].
    rewrite (d_rec_len_at (es0 ++ [pe]) e rest) by range_lia.
    assert (Hbuf : forall pe, encode (es0 ++ [pe]) ++ enc e ++ rest = encode es0 ++ enc pe ++ (enc e ++ rest)).
    { intros. rewrite encode_mid. change (encode []) with (@nil Z). rewrite app_nil_r, <- app_assoc. done. }
    rewrite Hbuf, d_rec_len_at by range_lia. cbn [obind]. rewrite u16_small by range_lia. rewrite set_rec_len_at. cbn [obind].
    assert (Hmok : entry_ok (merge pe e)) by (apply merge_ok; [done..|lia]).
    assert (Hmerge : encode (es0 ++ [merge pe e]) ++ rest =
      encode (es0 ++ [mk_de (e_inode pe) (e_rec pe + e_rec e) (e_nl pe) (e_rest pe)]) ++ enc e ++ rest).
    { rewrite Hbuf, encode_mid. change (encode []) with (@nil Z). rewrite app_nil_r, <- enc_merge, <- !app_assoc. done. }
    exists (es0 ++ [merge pe e]). rewrite Hmerge. split; [rewrite Hbuf; done|].
    split; [apply Forall_app; split; [done|by apply Forall_singleton]|]. split.
    { rewrite size_app, size_cons, Hs by done. change (size []) with 0. cbn. lia. }
    split; [rewrite !names_app; f_equal; apply names_cons_eq; [by apply merge_live|done]|].
    replace (size (es0 ++ [pe])) with (size (es0 ++ [mk_de (e_inode pe) (e_rec pe + e_rec e) (e_nl pe) (e_rest pe)])).
    + apply (get_rec_len_at fs Hbs). range_lia.
    + unfold size. rewrite !encode_mid, !length_app. unfold enc. rewrite !length_app, !length_header. done.
Qed.

(** The entries of a block after the walk: without the first one that matches. *)
Lemma unlink_walk fuel : forall es1 es2 tl nre entry changed prev, body_ok fs (es1 ++ es2) tl -> prev_ok es1 prev ->
  (Z.to_nat (blocksize fs - size es1) < fuel)%nat ->
  exists prev', match remove_first (unlinked name ino flags) (names es2) with
  | None => dir_walk fs (unlink_proc name ino flags) DIRENT_FLAG_INCLUDE_EMPTY (blocksize fs) fuel (size es1) nre entry changed
              (encode (es1 ++ es2 ++ tl)) (prev, false) = Done (Walked false changed (encode (es1 ++ es2 ++ tl)) (prev', false))
  | Some l => exists es',
      dir_walk fs (unlink_proc name ino flags) DIRENT_FLAG_INCLUDE_EMPTY (blocksize fs) fuel (size es1) nre entry changed
        (encode (es1 ++ es2 ++ tl)) (prev, false) = Done (Walked true true (encode (es' ++ tl)) (prev', true)) /\
      body_ok fs es' tl /\ names es' = names es1 ++ l
  end.
Proof.
  induction fuel as [|fuel IH]; intros es1 es2 tl nre entry changed prev Hb Hp Hfuel; [lia|].
  destruct es2 as [|e es2].
  { rewrite app_nil_r in Hb. exists prev. cbn [names omap list_omap remove_first app]. apply (walk_end fs Hbs); [by right|done|done]. }
  destruct (body_sizes _ _ _ _ _ Hb) as (He & Hsz & Hfull & Hc). pose proof (ok_rec _ He).
  pose proof (size_nonneg es2). pose proof (csum_size_cases fs).
  pose proof (bo_entries _ _ _ Hb) as Hes. apply Forall_app in Hes as [Hes1 [_ Hes2]%Forall_cons].
  cbn [app]. destruct (matches e) eqn:Hm.
  - destruct (unlink_taken es1 e (encode (es2 ++ tl)) prev 0 (blocksize fs) Hes1 He Hm Hp ltac:(lia)) as (es' & Hproc & Hes' & Hs' & Hn' & Hrec).
    destruct (walk_call fs Hbs (unlink_proc name ino flags) DIRENT_FLAG_INCLUDE_EMPTY ltac:(by right) es1 e (es2 ++ tl) He Hfull
      fuel nre entry changed (prev, false) (Z.lor DIRENT_ABORT DIRENT_CHANGED) (encode es' ++ encode (es2 ++ tl)) (Some (size es1), true) (e_rec e))
      as (nre' & entry' & Hw); [done|by right| |exact Hrec|].
    { intros k. rewrite encode_mid. exact Hproc. }
    exists (Some (size es1)). unfold matches in Hm. destruct (live e) as [x|] eqn:El; [|done]. rewrite (names_live e es2 x El). cbn [remove_first].
    rewrite Hm. exists (es' ++ es2).
    replace (encode ((es' ++ es2) ++ tl)) with (encode es' ++ encode (es2 ++ tl)) by (rewrite <- app_assoc, (encode_app es'); done). split; [rewrite Hw, orb_true_r; done|]. split; [|rewrite names_app, Hn'; done].
    destruct Hb as [_ Htl Hs]. constructor; [by apply Forall_app|done|]. rewrite <- Hs, !size_app, Hs', size_cons by done. lia.
  - destruct (walk_visit fs Hbs (unlink_proc name ino flags) DIRENT_FLAG_INCLUDE_EMPTY ltac:(by right) es1 e (es2 ++ tl) He Hfull
      fuel nre entry changed (prev, false) 0 e (es2 ++ tl) (Some (size es1), false)) as (nre' & entry' & Hw); [done|by right| |done|done|].
    { intros k. rewrite encode_mid. apply unlink_keep; done. }
    change (has_flag 0 DIRENT_ABORT) with false in Hw. change (has_flag 0 DIRENT_CHANGED) with false in Hw. rewrite orb_false_r in Hw.
    destruct (IH (es1 ++ [e]) es2 tl nre' entry' changed (Some (size es1)) (body_tail _ _ _ _ _ Hb)) as (prev' & Hrest).
    { right. eauto. }
    { rewrite size_app, (size_cons e []) by done. change (size []) with 0. lia. }
    exists prev'. rewrite <- !app_assoc in Hrest. cbn [app] in Hrest. unfold matches in Hm.
    destruct (live e) as [x|] eqn:El.
    + rewrite (names_live e es2 x El). cbn [remove_first]. rewrite Hm.
      destruct (remove_first (unlinked name ino flags) (names es2)) as [l|]; cbn [fmap option_fmap option_map]; [|rewrite Hw; done].
      destruct Hrest as (es' & Hw' & Hb' & Hn). exists es'. rewrite Hw. split; [done|]. split; [done|].
      rewrite Hn, names_app. unfold names at 2. cbn. rewrite El, <- app_assoc. done.
    + rewrite (names_dead e es2) by (unfold live in El; destruct (Z.eqb_spec (e_inode e) 0); done).
      destruct (remove_first (unlinked name ino flags) (names es2)) as [l|]; [|rewrite Hw; done].
      destruct Hrest as (es' & Hw' & Hb' & Hn). exists es'. rewrite Hw. split; [done|]. split; [done|].
      rewrite Hn, names_app. unfold names at 2. cbn. rewrite El, app_nil_r. done.
Qed.
End unlink.
End find.
