(* ===== verification/DirNew.v ===== *)
(** A new directory block holds the two names it is made with. *)

From S2P Require Import Prelude Crc Bitops BlockIo Bitmap64 Dir DirSpec DirLink.

Local Open Scope Z_scope.

(** * Blocks of zeros *)

Definition blank (n : nat) : dentry := mk_de 0 0 0 (replicate n 0).

Lemma enc_blank n : enc (blank n) = replicate (8 + n) 0.
Proof. rewrite replicate_add. done. Qed.

Section new.
Context (fs : filsys) (Hbs : 36 <= blocksize fs < 65536) (Hmod : blocksize fs mod 4 = 0).
Context (dir_ino parent_ino : Z) (Hdir : 0 < dir_ino < 2 ^ 32) (Hparent : 0 < parent_ino < 2 ^ 32).

Definition new_ft : Z := if filetype fs then EXT2_FT_DIR else 0.
Definition rest_len : Z := blocksize fs - csum_size fs - 12.
Definition dot : dentry := mk_de dir_ino 12 (new_ft * 256 + 1) [46; 0; 0; 0].
Definition dot_dot : dentry := mk_de parent_ino rest_len (new_ft * 256 + 2) ([46; 46] ++ replicate (Z.to_nat (rest_len - 10)) 0).
Definition new_tl : list dentry := if metadata_csum fs then [tail_of [0; 0; 0; 0]] else [].

Lemma bytes_zeros n : bytes_ok (replicate n 0).
Proof. apply Forall_replicate. done. Qed.

Lemma new_ft_cases : new_ft = 2 \/ new_ft = 0.
Proof. unfold new_ft. destruct (filetype fs); auto. Qed.

Lemma rest_len_bounds : 12 <= rest_len < 65536 /\ rest_len mod 4 = 0 /\ rest_len + 12 + csum_size fs = blocksize fs.
Proof. unfold rest_len. destruct (csum_size_cases fs) as [-> | ->]; div_lia. Qed.

Lemma dot_ok : entry_ok dot.
Proof.
  destruct new_ft_cases as [E|E]; unfold dot; rewrite E; (constructor; try done; try (cbn; range_lia)).
  - repeat constructor; done.
  - intros _. split; [done|]. change (0 ∉ [46]). rewrite elem_of_cons, elem_of_nil. by intros [].
  - repeat constructor; done.
  - intros _. split; [done|]. change (0 ∉ [46]). rewrite elem_of_cons, elem_of_nil. by intros [].
Qed.

Lemma dot_dot_ok : entry_ok dot_dot.
Proof.
  destruct rest_len_bounds as (Hr & Hm & _).
  assert (Hnl : e_name_len dot_dot = 2) by (destruct new_ft_cases as [E|E]; unfold dot_dot, e_name_len; rewrite E; done).
  assert (Hn : e_name dot_dot = [46; 46]) by (unfold e_name; rewrite Hnl; done).
  constructor; rewrite ?Hnl, ?Hn; cbn [dot_dot e_inode e_rec e_nl e_rest]; try done; try range_lia.
  - destruct new_ft_cases as [-> | ->]; done.
  - rewrite length_app, length_replicate. cbn. lia.
  - rewrite bytes_ok_app. split; [repeat constructor; done|apply bytes_zeros].
  - intros _. split; [done|]. rewrite !elem_of_cons, elem_of_nil. intros [|[]]; done.
Qed.

Lemma new_tl_ok : tl_ok fs new_tl.
Proof. unfold tl_ok, new_tl. destruct (metadata_csum fs); [|done]. exists [0; 0; 0; 0]. split; [done|]. split; [|done]. repeat constructor; done. Qed.

Lemma new_body_ok : body_ok fs [dot; dot_dot] new_tl.
Proof.
  destruct rest_len_bounds as (Hr & Hm & Hs). pose proof (tl_size fs _ new_tl_ok).
  constructor; [apply Forall_cons; split; [apply dot_ok|]; apply Forall_singleton, dot_dot_ok|apply new_tl_ok|].
  rewrite size_app, size_cons, size_cons by (apply dot_ok || apply dot_dot_ok). change (size []) with 0. cbn [dot dot_dot e_rec]. lia.
Qed.

(** The bytes of the first entry are those of the two. *)
Lemma split_zeros rest : enc (mk_de dir_ino 12 (new_ft * 256 + 1) (46 :: replicate (Z.to_nat (rest_len + 3)) 0)) ++ rest =
  encode [dot] ++ enc (blank (Z.to_nat (rest_len - 8))) ++ rest.
Proof.
  destruct rest_len_bounds as (Hr & _ & _). rewrite encode_cons. change (encode []) with (@nil Z). rewrite app_nil_r, enc_blank.
  unfold dot, enc, header. cbn [e_inode e_rec e_nl e_rest]. rewrite <- !app_assoc. do 3 f_equal. cbn [app]. f_equal.
  replace (Z.to_nat (rest_len + 3)) with (3 + (8 + Z.to_nat (rest_len - 8)))%nat by lia. rewrite replicate_add. done.
Qed.

(** The first entry of a buffer. *)
Lemma first_entry e rest : enc e ++ rest = encode [] ++ enc e ++ rest.
Proof. done. Qed.

Lemma dots_filled rest : let ft := if filetype fs then EXT2_FT_DIR else 0 in
  (let buf := encode [] ++ enc (mk_de 0 (rest_len + 12) 0 (replicate (Z.to_nat (rest_len + 4)) 0)) ++ rest in
   let* buf := set_inode buf (size []) dir_ino in
   let* buf := ext2fs_dirent_set_name_len buf (size []) 1 in
   let* buf := ext2fs_dirent_set_file_type buf (size []) ft in
   let* buf := store_bytes buf (size [] + 8) [46] in
   let* buf := set_rec_len buf (size []) (EXT2_DIR_REC_LEN 1) in
   let* dir := d_rec_len buf (size []) in
   let* (retval, buf) := ext2fs_set_rec_len fs rest_len buf dir in
   if negb (retval =? 0) then Done (retval, buf)
   else
     let* buf := set_inode buf dir parent_ino in
     let* buf := ext2fs_dirent_set_name_len buf dir 2 in
     let* buf := ext2fs_dirent_set_file_type buf dir ft in
     let* buf := store_bytes buf (dir + 8) [46; 46] in
     Done (0, buf)) = Done (0, encode [dot; dot_dot] ++ rest).
Proof.
  destruct rest_len_bounds as (Hr & Hm & Hs). pose proof new_ft_cases as Hft. pose proof (csum_size_cases fs). cbv zeta. fold new_ft.
  rewrite set_inode_at. cbn [obind e_rec e_nl e_rest]. rewrite set_name_len_at by done. cbn [obind e_inode e_rec e_nl e_rest].
  rewrite set_file_type_at by done. cbn [obind e_inode e_rec e_nl e_rest].
  rewrite set_name_at by (cbn [e_rest length]; rewrite length_replicate; lia). cbn [obind e_inode e_rec e_nl e_rest].
  rewrite set_rec_len_at. change (EXT2_DIR_REC_LEN 1) with 12. cbn [obind e_inode e_rec e_nl e_rest].
  rewrite d_rec_len_at by done. cbn [obind e_rec]. change (0 / 256 * 256 + 1 mod 256) with 1. change (1 mod 256) with 1.
  replace (Z.to_nat (rest_len + 4)) with (S (Z.to_nat (rest_len + 3))) by lia. cbn [replicate length drop app].
  change (encode [] ++ ?x) with x. rewrite split_zeros. change 12 with (size [dot]).
  rewrite (set_rec_len_ok fs ltac:(lia)) by lia. cbn [obind negb Z.eqb e_inode e_rec e_nl e_rest blank].
  rewrite set_inode_at. cbn [obind e_inode e_rec e_nl e_rest]. rewrite set_name_len_at by done. cbn [obind e_inode e_rec e_nl e_rest].
  rewrite set_file_type_at by done. cbn [obind e_inode e_rec e_nl e_rest].
  rewrite set_name_at by (cbn [e_rest length]; rewrite length_replicate; lia). cbn [obind e_inode e_rec e_nl e_rest].
  f_equal. f_equal. change [dot; dot_dot] with ([dot] ++ [dot_dot]). rewrite encode_app. change (encode [dot_dot]) with (enc dot_dot ++ []). rewrite app_nil_r, <- app_assoc. do 2 f_equal.
  unfold dot_dot. do 2 f_equal. replace (Z.to_nat (rest_len - 8)) with (2 + Z.to_nat (rest_len - 10))%nat by lia. done.
Qed.

(** [ext2fs_new_dir_block] for a directory. *)
Lemma new_dir_block_ok : ext2fs_new_dir_block fs false dir_ino parent_ino = Done (inr (encode ([dot; dot_dot] ++ new_tl))).
Proof.
  destruct rest_len_bounds as (Hr & Hm & Hs). unfold ext2fs_new_dir_block.
  replace (replicate (Z.to_nat (blocksize fs)) 0) with (encode [] ++ enc (blank (Z.to_nat (rest_len + 4))) ++ replicate (Z.to_nat (csum_size fs)) 0).
  2:{ change (encode [] ++ ?x) with x. rewrite enc_blank, <- replicate_add. f_equal. pose proof (csum_size_cases fs). lia. }
  change 0 with (size []) at 2. pose proof (csum_size_cases fs).
  rewrite (set_rec_len_ok fs ltac:(lia)) by (try lia; replace (blocksize fs - csum_size fs) with (rest_len + 3 * 4) by lia; rewrite Z.mod_add by lia; done).
  cbn [obind negb Z.eqb e_inode e_rec e_nl e_rest blank]. destruct (Z.eqb_spec dir_ino 0); [lia|]. cbn [negb].
  replace (blocksize fs - csum_size fs) with (rest_len + 12) by lia. change (EXT2_DIR_REC_LEN 1) with 12. rewrite Z.add_simpl_r.
  pose proof (dots_filled (replicate (Z.to_nat (csum_size fs)) 0)) as Hd. cbv zeta in Hd. change (size [] + 8) with 8 in Hd. change (size []) with 0 in *.
  change (EXT2_DIR_REC_LEN 1) with 12 in Hd. rewrite Hd. cbn [obind negb Z.eqb].
  unfold new_tl, csum_size in *. destruct (metadata_csum fs).
  - change (replicate (Z.to_nat 12) 0) with (enc (blank 4) ++ []). unfold ext2fs_initialize_dirent_tail.
    replace (blocksize fs - 12) with (size [dot; dot_dot]) by (rewrite !size_cons by (apply dot_ok || apply dot_dot_ok); change (size []) with 0; cbn [e_rec dot dot_dot]; lia).
    replace (store_bytes (encode [dot; dot_dot] ++ enc (blank 4) ++ []) (size [dot; dot_dot]) (replicate 12 0))
      with (Done (encode [dot; dot_dot] ++ enc (blank 4) ++ [])).
    2:{ symmetry. apply store_mid; [done|]. done. }
    cbn [obind]. rewrite (set_rec_len_ok fs ltac:(lia)) by (try lia; done). cbn [obind]. rewrite put_nl_at. cbn [obind].
    rewrite encode_app. done.
  - rewrite app_nil_r. done.
Qed.

Lemma new_names : names [dot; dot_dot] = [([46], dir_ino, new_ft); ([46; 46], parent_ino, new_ft)].
Proof.
  unfold names. cbn [omap list_omap]. unfold live. cbn [dot dot_dot e_inode].
  destruct (Z.eqb_spec dir_ino 0); [lia|]. destruct (Z.eqb_spec parent_ino 0); [lia|].
  destruct new_ft_cases as [E|E]; unfold e_name, e_name_len, e_type, dot, dot_dot; rewrite E; done.
Qed.
End new.
