(* ===== verification/DirBlock.v ===== *)
(** Directory blocks on the disk: their checksums, reading and writing them over
    a channel, and a walk over one block and over all blocks of a directory. *)

From S2P Require Import Prelude Crc Bitops BlockIo Bitmap64 Dir DirSpec DirLink DirFind.

Local Open Scope Z_scope.

(** * Checksums *)

Lemma crc32c_range crc bs : is_u32 crc -> bytes_ok bs -> is_u32 (crc32c crc bs).
Proof.
  intros Hc Hb. unfold crc32c, Crc32c.ext2fs_crc32c_le. rewrite Crc32c.crc32_body_ref by done. by apply Crc32c.byte_loop_ref.
Qed.

Lemma bytes_encode es : Forall entry_ok es -> bytes_ok (encode es).
Proof. induction 1 as [|e es He _ IH]; [constructor|]. rewrite encode_cons, bytes_ok_app. split; [apply enc_bytes, He|done]. Qed.

Section block.
Context (fs : filsys) (Hbs : 24 <= blocksize fs < 65536) (Hcs : metadata_csum fs = true -> 1024 <= blocksize fs).
Context (Hseed : is_u32 (csum_seed fs)).
Context (read_inode : Z -> Z + inode) (dir : Z) (di : inode) (Hdi : read_inode dir = inr di).

Lemma tail_walk_ok fuel : forall es1 es2 rest, Forall entry_ok es2 -> (Z.to_nat (size es2) < fuel)%nat ->
  tail_walk fuel (encode (es1 ++ es2) ++ rest) (size es1) (size (es1 ++ es2)) = Done (inr (size (es1 ++ es2))).
Proof.
  induction fuel as [|fuel IH]; intros es1 es2 rest Hes Hf; [lia|]. cbn [tail_walk]. destruct es2 as [|e es2].
  { rewrite app_nil_r, Z.ltb_irrefl. done. }
  apply Forall_cons in Hes as [He Hes]. pose proof (ok_rec _ He). pose proof (size_nonneg es2).
  rewrite size_cons in Hf by done. assert (Hs : size (es1 ++ e :: es2) = size es1 + e_rec e + size es2) by (rewrite size_app, size_cons by done; lia).
  destruct (Z.ltb_spec (size es1) (size (es1 ++ e :: es2))); [|lia].
  rewrite encode_mid, <- !app_assoc, d_rec_len_at by range_lia. cbn [obind]. rewrite land3, (ok_mod _ He).
  destruct (Z.ltb_spec (e_rec e) 8); [lia|]. cbn [orb negb Z.eqb].
  pose proof (IH (es1 ++ [e]) es2 rest Hes ltac:(lia)) as Hn. rewrite <- !app_assoc in Hn. cbn [app] in Hn.
  rewrite encode_mid, <- !app_assoc, (size_app es1 [e]), (size_cons e []) in Hn by done. change (size []) with 0 in Hn. rewrite Z.add_0_r in Hn. exact Hn.
Qed.

Lemma get_tail_ok es cs : metadata_csum fs = true -> body_ok fs es [tail_of cs] ->
  get_dirent_tail fs (encode (es ++ [tail_of cs])) = Done (inr (size es)).
Proof.
  intros Hm Hb. pose proof (Hcs Hm) as H1024. destruct Hb as [Hes Htl Hsz]. pose proof (tl_entries fs _ Htl) as Ht. rewrite Forall_singleton in Ht.
  rewrite size_app, size_cons in Hsz by done. change (size []) with 0 in Hsz. cbn [e_rec tail_of] in Hsz. pose proof (size_nonneg es).
  unfold get_dirent_tail. destruct (Z.ltb_spec (blocksize fs) 1024); [lia|].
  replace (blocksize fs - 12) with (size es) by lia. rewrite encode_mid. change (encode []) with (@nil Z).
  pose proof (tail_walk_ok (Z.to_nat (blocksize fs)) [] es (enc (tail_of cs) ++ []) Hes ltac:(lia)) as Hw.
  change (size []) with 0 in Hw. cbn [app] in Hw. rewrite Hw. cbn [obind]. destruct (Z.ltb_spec (blocksize fs) (size es)); [lia|].
  rewrite Z.eqb_refl. cbn [negb]. rewrite d_inode_at, d_rec_len_at, d_name_len_at by done. done.
Qed.

(** The checksum in front of the tail. *)
Definition block_csum (es : list dentry) : Z := crc32c (dirent_seed fs dir (i_generation di)) (encode es).

Lemma block_csum_range es : Forall entry_ok es -> is_u32 (block_csum es).
Proof.
  intros Hes. apply crc32c_range; [|by apply bytes_encode]. unfold dirent_seed.
  apply crc32c_range; [|apply le_encode_bytes]. apply crc32c_range; [done|apply le_encode_bytes].
Qed.

Lemma dirent_csum_at es tl : ext2fs_dirent_csum fs read_inode dir (encode (es ++ tl)) (size es) = Done (inr (block_csum es)).
Proof.
  unfold ext2fs_dirent_csum. rewrite Hdi. rewrite encode_app. pose proof (load_mid [] (encode es) (encode tl) (size es) 0 eq_refl eq_refl) as Hl.
  cbn [app] in Hl. rewrite Hl. done.
Qed.

(** The bytes of a block with the body [es]. *)
Definition on_disk (es : list dentry) (bs : list Z) : Prop :=
  exists tl, bs = encode (es ++ tl) /\ body_ok fs es tl /\
    (metadata_csum fs = true -> exists cs, tl = [tail_of cs] /\ le_decode cs = block_csum es).

Lemma tail_csum_at es cs : bytes_ok cs -> length cs = 4%nat -> get32 (encode (es ++ [tail_of cs])) (size es + 8) = Done (le_decode cs).
Proof.
  intros Hb Hl. unfold get32. rewrite encode_mid. change 4 with (Z.of_nat 4). rewrite <- Hl. rewrite name_at by (cbn; lia).
  cbn [e_rest tail_of obind]. rewrite Nat2Z.id, take_ge by lia. done.
Qed.

Lemma tl_csum es cs : metadata_csum fs = true -> body_ok fs es [tail_of cs] -> bytes_ok cs /\ length cs = 4%nat.
Proof.
  intros Hm [_ Htl _]. unfold tl_ok in Htl. rewrite Hm in Htl. destruct Htl as (cs' & Hl & Hb & [= ->]). done.
Qed.

Lemma verify_ok es bs : on_disk es bs -> ext2fs_dir_block_csum_verify fs read_inode dir bs = Done true.
Proof.
  intros (tl & -> & Hb & Hc). unfold ext2fs_dir_block_csum_verify.
  destruct (Bool.bool_dec (metadata_csum fs) true) as [Hm|Hm%not_true_is_false]; rewrite Hm; [|done]. cbn [negb].
  destruct (Hc Hm) as (cs & -> & Hcs'). destruct (tl_csum es cs Hm Hb) as [Hcb Hcl]. rewrite get_tail_ok by done. cbn [obind].
  unfold ext2fs_dirent_csum_verify. rewrite get_tail_ok by done. cbn [obind]. rewrite dirent_csum_at. cbn [obind].
  rewrite tail_csum_at by done. cbn [obind]. rewrite Hcs', Z.eqb_refl. done.
Qed.

(** A new body gets a new checksum. *)
Lemma csum_set_ok es tl : body_ok fs es tl ->
  exists bs, ext2fs_dir_block_csum_set fs read_inode dir (encode (es ++ tl)) = Done (0, bs) /\ on_disk es bs.
Proof.
  intros Hb. unfold ext2fs_dir_block_csum_set.
  destruct (Bool.bool_dec (metadata_csum fs) true) as [Hm|Hm%not_true_is_false]; rewrite Hm; cbn [negb].
  - pose proof (bo_tl _ _ _ Hb) as Htl. unfold tl_ok in Htl. rewrite Hm in Htl. destruct Htl as (cs & Hl & Hcb & ->).
    rewrite get_tail_ok by done. cbn [obind]. unfold ext2fs_dirent_csum_set. rewrite get_tail_ok by done. cbn [obind].
    rewrite dirent_csum_at. cbn [obind]. unfold put32. rewrite encode_mid, set_name_at by (cbn [e_rest tail_of]; rewrite length_le_encode; lia).
    cbn [obind e_inode e_rec e_nl e_rest tail_of]. rewrite drop_ge, app_nil_r by (rewrite length_le_encode; lia).
    set (cs' := le_encode 4 (block_csum es)). eexists. split; [done|]. exists [tail_of cs']. split; [by rewrite encode_mid|]. split.
    + destruct Hb as [Hes Htl Hs]. assert (Hc' : entry_ok (tail_of cs')) by (apply tail_ok; [apply length_le_encode|apply le_encode_bytes]).
      constructor; [done| |].
      * unfold tl_ok. rewrite Hm. exists cs'. split; [apply length_le_encode|]. split; [apply le_encode_bytes|done].
      * rewrite <- Hs, !size_app, !size_cons; [done|by apply tail_ok|done].
    + intros _. exists cs'. split; [done|]. unfold cs'. rewrite le_decode_encode, Z.mod_small; [done|]. apply (block_csum_range es), Hb.
  - eexists. split; [done|]. exists tl. split; [done|]. split; [done|]. by rewrite Hm.
Qed.

Lemma on_disk_length es bs : on_disk es bs -> Z.of_nat (length bs) = blocksize fs.
Proof. intros (tl & -> & Hb & _). apply (bo_size _ _ _ Hb). Qed.

(** * Reading and writing *)

Context {S : Type} `{BlockIoLaws S}.

Lemma read_block_ok s d b bs es buf : io_rep s d -> d !! b = Some bs -> on_disk es bs -> Z.of_nat (length buf) = blocksize fs ->
  exists s', ext2fs_read_dir_block4 fs read_inode s b buf dir = Done (0, bs, s') /\ io_rep s' d.
Proof.
  intros Hrep Hd Hes Hl. destruct (io_read s d b bs Hrep Hd) as (s' & Hr & Hrep'). exists s'. split; [|done].
  unfold ext2fs_read_dir_block4. rewrite Hr. cbn [obind]. pose proof (on_disk_length es bs Hes) as Hlen.
  replace (store_bytes buf 0 bs) with (Done bs).
  2:{ pose proof (store_mid [] buf [] 0 bs eq_refl ltac:(lia)) as Hs. cbn [app] in Hs. rewrite !app_nil_r in Hs. by rewrite Hs. }
  cbn [obind negb Z.eqb]. rewrite verify_ok with (es := es) by done. destruct (flag_ignore_csum fs); done.
Qed.

Lemma write_block_ok s d b bs es tl : io_rep s d -> d !! b = Some bs -> Z.of_nat (length bs) = blocksize fs -> body_ok fs es tl ->
  exists bs' s', ext2fs_write_dir_block4 fs read_inode s b (encode (es ++ tl)) dir = Done (0, bs', s') /\ on_disk es bs' /\
    io_rep s' (<[b := bs']> d).
Proof.
  intros Hrep Hd Hl Hb. destruct (csum_set_ok es tl Hb) as (bs' & Hset & Hod). pose proof (on_disk_length es bs' Hod).
  destruct (io_write s d b bs bs' Hrep Hd ltac:(lia)) as (s' & Hw & Hrep'). exists bs', s'. split; [|done].
  unfold ext2fs_write_dir_block4. rewrite Hset. cbn [obind negb Z.eqb]. rewrite Hw. done.
Qed.

(** * One block *)

(** What a walk with [func] makes of the entries of a block and of the callback's
    data [p]. *)
Definition walks {P} (func : dir_func P) (flags : Z) (Q : list dentry -> bool -> P -> Prop) (es : list dentry) (p : P) : Prop :=
  forall tl entry, body_ok fs es tl -> exists es' ab ch p',
    dir_walk fs func flags (blocksize fs) (Datatypes.S (Z.to_nat (blocksize fs))) 0 0 entry false (encode (es ++ tl)) p =
      Done (Walked ab ch (encode (es' ++ tl)) p') /\ body_ok fs es' tl /\ (ch = false -> es' = es) /\ Q es' ab p'.

(** [ext2fs_process_dir_block] writes the block when it was changed. *)
Lemma process_ok {P} (func : dir_func P) flags s d b cnt bs es (ctx : dir_context P) Q :
  plain_flags flags -> io_rep s d -> d !! b = Some bs -> on_disk es bs -> 0 <= cnt ->
  Z.of_nat (length (c_buf ctx)) = blocksize fs -> walks func flags Q es (c_priv ctx) ->
  exists es' ab p' ret buf' bs' s',
    ext2fs_process_dir_block fs read_inode func flags 0 dir s b cnt ctx = Done (ret, mk_ctx 0 buf' p', s') /\
    has_flag ret BLOCK_ABORT = ab /\ Z.of_nat (length buf') = blocksize fs /\ on_disk es' bs' /\ io_rep s' (<[b := bs']> d) /\ Q es' ab p'.
Proof.
  intros Hf Hrep Hd Hod Hcnt Hlen Hwalk. unfold ext2fs_process_dir_block.
  destruct (Z.ltb_spec cnt 0); [lia|]. rewrite plain_no_inline by done.
  destruct (read_block_ok s d b bs es (c_buf ctx) Hrep Hd Hod Hlen) as (s1 & -> & Hrep1). cbn [obind negb andb Z.eqb].
  pose proof (on_disk_length es bs Hod) as Hbl. pose proof Hod as (tl & Hbs' & Hb & Hc). subst bs.
  destruct (Hwalk tl (if cnt =? 0 then DIRENT_DOT_FILE else DIRENT_OTHER_FILE) Hb) as (es' & ab & ch & p' & -> & Hb' & Hch & HQ). cbn [obind].
  assert (Habs : has_flag (if ab then Z.lor 0 BLOCK_ABORT else 0) BLOCK_ABORT = ab) by (destruct ab; done).
  exists es', ab, p'. destruct ch; cbn [obind negb andb].
  - destruct (write_block_ok s1 d b (encode (es ++ tl)) es' tl Hrep1 Hd Hbl Hb') as (bs' & s2 & -> & Hod' & Hrep2). cbn [obind negb andb Z.eqb].
    do 4 eexists. split; [done|]. split; [done|]. split; [by apply (on_disk_length es')|]. split; [done|]. done.
  - rewrite (Hch eq_refl) in *. do 4 eexists. split; [done|]. split; [done|]. split; [apply Hb|]. split; [exact Hod|].
    rewrite insert_id by done. done.
Qed.

(** * All blocks *)

(** The entries of a block of the directory; blocks of its block map have none. *)
Definition holds (d : gmap Z (list Z)) (b : Z * Z) (es : list dentry) : Prop :=
  if fst b <? 0 then es = [] else exists bs, d !! snd b = Some bs /\ on_disk es bs.

Lemma holds_insert d b bs blocks ess : b ∉ snd <$> blocks -> Forall2 (holds d) blocks ess -> Forall2 (holds (<[b := bs]> d)) blocks ess.
Proof.
  intros Hb. induction 1 as [|c es blocks ess Hc _ IH]; [constructor|]. cbn in Hb. rewrite not_elem_of_cons in Hb. destruct Hb as [Hne Hb].
  constructor; [|by apply IH]. unfold holds in *. destruct (fst c <? 0); [done|]. rewrite lookup_insert_ne by done. done.
Qed.

(** The walks over the blocks one after the other, until one of them aborts. *)
Inductive iterates {P} (R : P -> list dentry -> list dentry -> bool -> P -> Prop) : P -> list (list dentry) -> list (list dentry) -> P -> Prop :=
| it_end p : iterates R p [] [] p
| it_skip p ess ess' p' : iterates R p ess ess' p' -> iterates R p ([] :: ess) ([] :: ess') p'
| it_abort p es es' p' ess : R p es es' true p' -> iterates R p (es :: ess) (es' :: ess) p'
| it_next p es es' p' ess ess' p'' : R p es es' false p' -> iterates R p' ess ess' p'' -> iterates R p (es :: ess) (es' :: ess') p''.

Lemma iterate_ok {P} (func : dir_func P) flags (R : P -> list dentry -> list dentry -> bool -> P -> Prop) (I : P -> Prop) :
  plain_flags flags ->
  (forall p es, I p -> walks func flags (fun es' ab p' => R p es es' ab p' /\ (ab = false -> I p')) es p) ->
  forall blocks ess s d (ctx : dir_context P), NoDup (snd <$> blocks) -> io_rep s d -> Forall2 (holds d) blocks ess ->
  c_errcode ctx = 0 -> Z.of_nat (length (c_buf ctx)) = blocksize fs -> I (c_priv ctx) ->
  exists ess' buf' p' s' d', iterate_blocks fs read_inode func flags dir s blocks ctx = Done (mk_ctx 0 buf' p', s') /\
    io_rep s' d' /\ Forall2 (holds d') blocks ess' /\ (forall b, b ∉ snd <$> blocks -> d' !! b = d !! b) /\ iterates R (c_priv ctx) ess ess' p'.
Proof.
  intros Hf Hstep blocks. induction blocks as [|[cnt nr] blocks IH]; intros ess s d ctx Hnd Hrep Hall He Hlen HI.
  { apply Forall2_nil_inv_l in Hall as ->. destruct ctx as [err buf p]. cbn in *. subst err.
    exists [], buf, p, s, d. repeat split; try done. constructor. }
  apply Forall2_cons_inv_l in Hall as (es & ess1 & Hb & Hall & ->). apply NoDup_cons in Hnd as [Hnew Hnd].
  cbn [iterate_blocks]. unfold holds in Hb. cbn [fst snd] in Hb. destruct (Z.ltb_spec cnt 0) as [Hneg|Hpos].
  - subst es. unfold ext2fs_process_dir_block at 1. destruct (Z.ltb_spec cnt 0); [|lia]. cbn [obind]. change (has_flag 0 BLOCK_ABORT) with false.
    destruct (IH ess1 s d ctx Hnd Hrep Hall He Hlen HI) as (ess' & buf' & p' & s' & d' & Hit & Hrep' & Hall' & Hd' & HR).
    exists ([] :: ess'), buf', p', s', d'. split; [exact Hit|]. split; [done|].
    split; [constructor; [|done]; unfold holds; cbn; destruct (Z.ltb_spec cnt 0); [done|lia]|].
    split; [intros b Hb; apply Hd'; cbn in Hb; rewrite not_elem_of_cons in Hb; by destruct Hb|]. by constructor.
  - destruct Hb as (bs & Hd & Hod).
    destruct (process_ok func flags s d nr cnt bs es ctx _ Hf Hrep Hd Hod Hpos Hlen (Hstep _ es HI))
      as (es' & ab & p' & ret & buf' & bs' & s' & -> & Hab & Hlen' & Hod' & Hrep' & HR & HI'). cbn [obind]. rewrite Hab.
    assert (Hall' : Forall2 (holds (<[nr := bs']> d)) blocks ess1) by (by apply holds_insert).
    assert (Hhead : forall d', d' !! nr = Some bs' -> holds d' (cnt, nr) es').
    { intros d' Hd'. unfold holds. cbn [fst snd]. destruct (Z.ltb_spec cnt 0); [lia|]. eauto. }
    destruct ab.
    + exists (es' :: ess1), buf', p', s', (<[nr := bs']> d). split; [done|]. split; [done|].
      split; [constructor; [apply Hhead, lookup_insert_eq|done]|].
      split; [intros b Hb; cbn in Hb; rewrite not_elem_of_cons in Hb; rewrite lookup_insert_ne; [done|]; intros ->; by destruct Hb|]. by constructor.
    + destruct (IH ess1 s' (<[nr := bs']> d) (mk_ctx 0 buf' p') Hnd Hrep' Hall' eq_refl Hlen' (HI' eq_refl))
        as (ess' & buf2 & p2 & s2 & d2 & Hit & Hrep2 & Hall2 & Hd2 & HR2).
      exists (es' :: ess'), buf2, p2, s2, d2. split; [exact Hit|]. split; [done|].
      split; [constructor; [apply Hhead; rewrite Hd2 by done; apply lookup_insert_eq|done]|].
      split; [|by eapply it_next]. intros b Hb. cbn in Hb. rewrite not_elem_of_cons in Hb. destruct Hb as [Hne Hb].
      rewrite Hd2 by done. apply lookup_insert_ne. done.
Qed.
End block.
