(* ===== verification/DirProperties.v ===== *)
(** A directory as a list of names and as a finite map: lookup, link and unlink
    over all blocks of a directory, on any channel that keeps its blocks, and on
    the channel of unix_io.c. *)

From S2P Require Import Prelude Crc Bitops BlockIo Bitmap64 UnixIo UnixIoSpec UnixIoProperties UnixBlockIo Dir DirSpec DirLink DirFind DirNew DirBlock.

Local Open Scope Z_scope.

Lemma find_name_app name a b : find_name name (a ++ b) = match find_name name a with Some i => Some i | None => find_name name b end.
Proof. induction a as [|[[n i] t] a IH]; [done|]. cbn. destruct (bool_decide (n = name)); done. Qed.

Lemma remove_first_app {A} (f : A -> bool) a b : remove_first f (a ++ b) =
  match remove_first f a with Some a' => Some (a' ++ b) | None => (fun b' => a ++ b') <$> remove_first f b end.
Proof.
  induction a as [|x a IH]; cbn; [destruct (remove_first f b); done|]. destruct (f x); [done|]. rewrite IH.
  destruct (remove_first f a); [done|]. destruct (remove_first f b); done.
Qed.

Lemma mjoin_cons {A} (x : list A) (l : list (list A)) : mjoin (x :: l) = x ++ mjoin l.
Proof. done. Qed.

Section dir.
Context (fs : filsys) (Hbs : 24 <= blocksize fs < 65536) (Hcs : metadata_csum fs = true -> 1024 <= blocksize fs).
Context (Hseed : is_u32 (csum_seed fs)).
Context (read_inode : Z -> Z + inode) (dir : Z) (di : inode) (Hdi : read_inode dir = inr di).
Context (Hisdir : LINUX_S_ISDIR (i_mode di) = true) (Hcount : dir <= s_inodes_count fs).
Context {S : Type} `{BlockIoLaws S}.
Context (dir_blocks : Z -> Z + list (Z * Z)).
Context (inline_iterate : forall P, dir_func P -> Z -> dir_context P -> S -> outcome (dir_context P * S)).

(** * Iterating over a directory *)

(** The directory holds the entries [ess] in its blocks. *)
Definition dir_of (s : S) (ess : list (list dentry)) : Prop :=
  exists d blocks, dir_blocks dir = inr blocks /\ NoDup (snd <$> blocks) /\ io_rep s d /\ Forall2 (holds fs dir di d) blocks ess.

Lemma dir_iterate_ok {P} (func : dir_func P) flags (R : P -> list dentry -> list dentry -> bool -> P -> Prop) (I : P -> Prop) s ess p :
  plain_flags flags ->
  (forall p es, I p -> walks fs func flags (fun es' ab p' => R p es es' ab p' /\ (ab = false -> I p')) es p) ->
  dir_of s ess -> I p ->
  exists ess' p' s', ext2fs_dir_iterate2 fs read_inode dir_blocks inline_iterate None false dir flags func p s = Done (0, p', s') /\
    dir_of s' ess' /\ iterates R p ess ess' p'.
Proof.
  intros Hf Hstep (d & blocks & Hblocks & Hnd & Hrep & Hall) HI. unfold ext2fs_dir_iterate2, ext2fs_check_directory.
  destruct (Z.ltb_spec (s_inodes_count fs) dir); [lia|]. rewrite Z.eqb_refl, Hdi, Hisdir, Hblocks. cbn [negb Z.eqb].
  destruct (iterate_ok fs Hbs Hcs Hseed read_inode dir di Hdi func flags R I Hf Hstep blocks ess s d
    (mk_ctx 0 (replicate (Z.to_nat (blocksize fs)) 0) p) Hnd Hrep Hall eq_refl) as (ess' & buf' & p' & s' & d' & -> & Hrep' & Hall' & _ & HR).
  { cbn. rewrite length_replicate. lia. }
  { exact HI. }
  cbn [obind c_errcode c_priv]. exists ess', p', s'. split; [done|]. split; [|exact HR]. exists d', blocks. done.
Qed.

(** * Lookup *)

Lemma lookup_walks name i es : walks fs (lookup_proc name (Z.of_nat (length name))) 0
  (fun es' ab p' => (es' = es /\ ab = match find_name name (names es) with Some _ => true | None => false end /\
     p' = match find_name name (names es) with Some j => (j, true) | None => (i, false) end) /\ (ab = false -> p' = (i, false))) es (i, false).
Proof.
  intros tl entry Hb. pose proof (lookup_walk fs Hbs name (Datatypes.S (Z.to_nat (blocksize fs))) [] es tl 0 entry false i Hb) as Hw.
  change (size []) with 0 in Hw. cbn [app] in Hw. rewrite Hw by lia.
  destruct (find_name name (names es)) as [j|]; [exists es, true, false, (j, true)|exists es, false, false, (i, false)];
    (split; [done|]; split; [done|]; split; [done|]; split; done).
Qed.

Lemma dir_lookup_ok name i s ess : dir_of s ess ->
  exists s', ext2fs_lookup fs read_inode dir_blocks inline_iterate None false dir name (Z.of_nat (length name)) i s =
      Done (match find_name name (names (mjoin ess)) with Some j => (0, j) | None => (EXT2_ET_FILE_NOT_FOUND, i) end, s') /\ dir_of s' ess.
Proof.
  intros Hd. unfold ext2fs_lookup.
  destruct (dir_iterate_ok (lookup_proc name (Z.of_nat (length name))) 0
    (fun p es es' ab p' => es' = es /\ ab = match find_name name (names es) with Some _ => true | None => false end /\
       p' = match find_name name (names es) with Some j => (j, true) | None => p end) (fun p => p = (i, false)) s ess (i, false))
    as (ess' & p' & s' & -> & Hd' & HR); [by left| |done|done|].
  { intros p es ->. apply lookup_walks. }
  assert (Hend : forall p, p = (i, false) -> iterates (fun p es es' ab p' => es' = es /\ ab = match find_name name (names es) with Some _ => true | None => false end /\
       p' = match find_name name (names es) with Some j => (j, true) | None => p end) p ess ess' p' ->
     ess' = ess /\ p' = match find_name name (names (mjoin ess)) with Some j => (j, true) | None => (i, false) end).
  { clear -Hbs. intros p Hp. induction 1 as [p|p ess ess' p' _ IH|p es es' p' ess (-> & Hab & ->)|p es es' p' ess ess' p'' (-> & Hab & ->) _ IH]; subst.
    - done.
    - destruct IH as [-> ->]; done.
    - split; [done|]. rewrite !mjoin_cons, names_app, find_name_app. destruct (find_name name (names es)); done.
    - rewrite !mjoin_cons, names_app, find_name_app. destruct (find_name name (names es)); [done|]. destruct IH as [-> ->]; done. }
  destruct (Hend _ eq_refl HR) as [-> ->]. exists s'. split; [|done]. cbn [obind negb Z.eqb].
  destruct (find_name name (names (mjoin ess))); done.
Qed.

(** * Link *)

Section link.
Context (name : list Z) (ino flags : Z).
Context (Hlen : 1 <= Z.of_nat (length name) <= 255) (Hbytes : bytes_ok name) (Hzero : 0 ∉ name) (Hino : 0 < ino < 2 ^ 32).

Lemma dir_link_ok s ess : dir_of s ess ->
  exists s' ess', dir_of s' ess' /\
    (link_linear fs read_inode dir_blocks inline_iterate None false dir name ino flags s = Done (0, s') /\
     (exists t a b, (filetype fs = true -> t = Z.land flags 0x7) /\ names (mjoin ess) = a ++ b /\
       names (mjoin ess') = a ++ (name, ino, t) :: b) \/
     link_linear fs read_inode dir_blocks inline_iterate None false dir name ino flags s = Done (EXT2_ET_DIR_NO_SPACE, s') /\
     names (mjoin ess') = names (mjoin ess) /\ Forall (fun e => room e < need name) (mjoin ess)).
Proof.
  intros Hd. unfold link_linear.
  destruct (dir_iterate_ok (link_proc fs name ino flags) DIRENT_FLAG_INCLUDE_EMPTY
    (fun p es es' ab p' => exists ch, link_names fs name ino flags es es' ab ch p') (fun p => p = mk_ls false 0) s ess (mk_ls false 0))
    as (ess' & p' & s' & -> & Hd' & HR); [by right| |done|done|].
  { intros p es -> tl entry Hb.
    destruct (link_walk fs Hbs name ino flags Hlen Hbytes Hzero Hino (Datatypes.S (Z.to_nat (blocksize fs))) [] es tl 0 entry false Hb)
      as (es' & ab & ch & ls & Hw & Hb' & Hn); [change (size []) with 0; lia|].
    exists es', ab, ch, ls. split; [exact Hw|]. split; [exact Hb'|].
    split; [destruct Hn as [(_ & _ & -> & _)|(_ & _ & _ & Hc & _)]; [done|exact Hc]|]. split; [by exists ch|].
    intros ->. destruct Hn as [(_ & ? & _)|(-> & _)]; done. }
  assert (Hend : forall p, p = mk_ls false 0 -> iterates (fun p es es' ab p' => exists ch, link_names fs name ino flags es es' ab ch p') p ess ess' p' ->
     p' = mk_ls true 0 /\ (exists t a b, (filetype fs = true -> t = Z.land flags 0x7) /\ names (mjoin ess) = a ++ b /\
       names (mjoin ess') = a ++ (name, ino, t) :: b) \/
     p' = mk_ls false 0 /\ names (mjoin ess') = names (mjoin ess) /\ Forall (fun e => room e < need name) (mjoin ess)).
  { clear -Hbs. intros p Hp. induction 1 as [p|p ess ess' p' _ IH|p es es' p' ess (ch & Hn)|p es es' p' ess ess' p'' (ch & Hn) _ IH].
    - right. split; [done|]. split; [done|]. constructor.
    - apply IH, Hp.
    - destruct Hn as [(-> & _ & _ & t & a & b & Ht & Ha & Hb)|(_ & ? & _)]; [|done]. left. split; [done|].
      exists t, a, (b ++ names (mjoin ess)). split; [done|]. rewrite !mjoin_cons, !names_app, Ha, Hb, <- !app_assoc. done.
    - destruct Hn as [(_ & ? & _)|(-> & _ & Hn & _ & Hroom)]; [done|]. rewrite !mjoin_cons, !names_app, Hn.
      destruct (IH eq_refl) as [(-> & t & a & b & Ht & Ha & Hb)|(-> & Hn' & Hroom')].
      + left. split; [done|]. exists t, (names es ++ a), b. split; [done|]. rewrite Ha, Hb, <- !app_assoc. done.
      + right. split; [done|]. split; [by rewrite Hn'|]. apply Forall_app. done. }
  exists s', ess'. split; [done|]. cbn [obind negb Z.eqb].
  destruct (Hend _ eq_refl HR) as [(-> & Hx)|(-> & Hx)]; [left|right]; (split; [done|exact Hx]).
Qed.
End link.

(** * Unlink *)

Lemma dir_unlink_ok name ino flags s ess : flag_rw fs = true -> name <> None \/ ino <> 0 -> dir_of s ess ->
  exists s' ess', dir_of s' ess' /\
    match remove_first (unlinked name ino flags) (names (mjoin ess)) with
    | Some l => ext2fs_unlink fs read_inode dir_blocks inline_iterate None false dir name ino flags s = Done (0, s') /\ names (mjoin ess') = l
    | None => ext2fs_unlink fs read_inode dir_blocks inline_iterate None false dir name ino flags s = Done (EXT2_ET_DIR_NO_SPACE, s') /\
              names (mjoin ess') = names (mjoin ess)
    end.
Proof.
  intros Hrw Harg Hd. unfold ext2fs_unlink. rewrite Hrw. cbn [negb].
  replace (match name with Some _ => false | None => ino =? 0 end) with false
    by (destruct name; [done|]; destruct Harg; [done|]; symmetry; by apply Z.eqb_neq).
  set (R := fun (p : option Z * bool) es es' ab (p' : option Z * bool) =>
    match remove_first (unlinked name ino flags) (names es) with
    | Some l => ab = true /\ snd p' = true /\ names es' = l
    | None => ab = false /\ snd p' = false /\ es' = es
    end).
  destruct (dir_iterate_ok (unlink_proc name ino flags) DIRENT_FLAG_INCLUDE_EMPTY R (fun p => snd p = false) s ess (None, false))
    as (ess' & p' & s' & -> & Hd' & HR); [by right| |done|done|].
  { intros [prev dn] es Hp tl entry Hb. cbn in Hp. subst dn.
    destruct (unlink_walk fs Hbs name ino flags (Datatypes.S (Z.to_nat (blocksize fs))) [] es tl 0 entry false prev Hb) as (prev' & Hw);
      [by left|change (size []) with 0; lia|].
    unfold R. destruct (remove_first (unlinked name ino flags) (names es)) as [l|].
    - destruct Hw as (es' & Hw & Hb' & Hn). exists es', true, true, (prev', true).
      split; [done|]. split; [done|]. split; [done|]. split; done.
    - exists es, false, false, (prev', false). split; [done|]. split; [done|]. split; [done|]. split; done. }
  assert (Hend : forall p, snd p = false -> iterates R p ess ess' p' ->
    match remove_first (unlinked name ino flags) (names (mjoin ess)) with
    | Some l => snd p' = true /\ names (mjoin ess') = l
    | None => snd p' = false /\ ess' = ess
    end).
  { clear -Hbs. intros p Hp. induction 1 as [p|p ess ess' p' _ IH|p es es' p' ess Hn|p es es' p' ess ess' p'' Hn _ IH].
    - done.
    - specialize (IH Hp). rewrite !mjoin_cons. cbn [app]. destruct (remove_first _ _); [|destruct IH as [? ->]]; done.
    - unfold R in Hn. rewrite !mjoin_cons, names_app, remove_first_app.
      destruct (remove_first _ (names es)) as [l|]; [|by destruct Hn]. destruct Hn as (_ & -> & <-). rewrite names_app. done.
    - unfold R in Hn. rewrite !mjoin_cons, names_app, remove_first_app.
      destruct (remove_first _ (names es)) as [l|]; [by destruct Hn|]. destruct Hn as (_ & Hs & ->). specialize (IH Hs).
      destruct (remove_first _ (names (mjoin ess))) as [l|]; cbn [fmap option_fmap option_map];
        [destruct IH as [-> <-]; rewrite names_app; done|destruct IH as [-> ->]; done]. }
  exists s', ess'. split; [done|]. specialize (Hend (None, false) eq_refl HR). cbn [obind negb Z.eqb].
  destruct (remove_first _ (names (mjoin ess))) as [l|]; [destruct Hend as [-> <-]|destruct Hend as [-> ->]]; done.
Qed.

(** * The directory as a finite map *)

(** Commands with names that a directory can hold. *)
Inductive dir_cmd := DLookup (name : list Z) | DLink (name : list Z) (ino flags : Z) | DUnlink (name : list Z).

Context (Hrw : flag_rw fs = true) (Hlinear : has_flag (i_flags di) EXT2_INDEX_FL = false).
Context (dx_link : Z -> list Z -> Z -> Z -> S -> outcome (Z * S)).

(** The result, and the inode that was found. *)
Definition dir_step (c : dir_cmd) (s : S) : outcome (Z * Z * S) :=
  match c with
  | DLookup name => ext2fs_lookup fs read_inode dir_blocks inline_iterate None false dir name (Z.of_nat (length name)) 0 s
  | DLink name ino flags =>
      let* (r, s) := ext2fs_link fs read_inode dir_blocks inline_iterate None dx_link false dir name ino flags s in Done (r, 0, s)
  | DUnlink name =>
      let* (r, s) := ext2fs_unlink fs read_inode dir_blocks inline_iterate None false dir (Some name) 0 0 s in Done (r, 0, s)
  end.

Fixpoint dir_run (l : list dir_cmd) (s : S) : outcome (list (Z * Z) * S) :=
  match l with
  | [] => Done ([], s)
  | c :: l => let* (r, i, s) := dir_step c s in let* (rs, s) := dir_run l s in Done ((r, i) :: rs, s)
  end.

(** The map from names to inodes and file types.  Whether there is room for a
    name is up to the directory. *)
Inductive map_step (m : gmap (list Z) (Z * Z)) : dir_cmd -> Z * Z -> gmap (list Z) (Z * Z) -> Prop :=
| m_found name i t : m !! name = Some (i, t) -> map_step m (DLookup name) (0, i) m
| m_missing name : m !! name = None -> map_step m (DLookup name) (EXT2_ET_FILE_NOT_FOUND, 0) m
| m_linked name ino flags t : (filetype fs = true -> t = Z.land flags 0x7) ->
    map_step m (DLink name ino flags) (0, 0) (<[name := (ino, t)]> m)
| m_full name ino flags : map_step m (DLink name ino flags) (EXT2_ET_DIR_NO_SPACE, 0) m
| m_unlinked name : is_Some (m !! name) -> map_step m (DUnlink name) (0, 0) (delete name m)
| m_nothing name : m !! name = None -> map_step m (DUnlink name) (EXT2_ET_DIR_NO_SPACE, 0) m.

Inductive map_run : gmap (list Z) (Z * Z) -> list dir_cmd -> list (Z * Z) -> gmap (list Z) (Z * Z) -> Prop :=
| mr_nil m : map_run m [] [] m
| mr_cons m c r m1 l rs m2 : map_step m c r m1 -> map_run m1 l rs m2 -> map_run m (c :: l) (r :: rs) m2.

(** A name is linked when it is not there yet, whatever happened before. *)
Definition cmd_ok (c : dir_cmd) (m : gmap (list Z) (Z * Z)) : Prop :=
  match c with
  | DLink name ino _ => 1 <= Z.of_nat (length name) <= 255 /\ bytes_ok name /\ 0 ∉ name /\ 0 < ino < 2 ^ 32 /\ m !! name = None
  | _ => True
  end.

Fixpoint cmds_ok (l : list dir_cmd) (m : gmap (list Z) (Z * Z)) : Prop :=
  match l with
  | [] => True
  | c :: l => cmd_ok c m /\ forall r m', map_step m c r m' -> cmds_ok l m'
  end.

Definition is_map (l : list (list Z * Z * Z)) (m : gmap (list Z) (Z * Z)) : Prop :=
  NoDup ((fun x => x.1.1) <$> l) /\ forall n i t, (n, i, t) ∈ l <-> m !! n = Some (i, t).

Definition dir_map (s : S) (m : gmap (list Z) (Z * Z)) : Prop := exists ess, dir_of s ess /\ is_map (names (mjoin ess)) m.

Lemma find_name_None name l : find_name name l = None <-> name ∉ (fun x => x.1.1) <$> l.
Proof.
  induction l as [|[[n i] t] l IH]; [cbn; split; [intros _; apply not_elem_of_nil|done]|].
  cbn. rewrite not_elem_of_cons. destruct (bool_decide (n = name)) eqn:E.
  - apply bool_decide_eq_true in E. split; [done|]. intros [Hx _]. congruence.
  - apply bool_decide_eq_false in E. rewrite IH. split; [intros Hx; split; congruence|by intros [_ ?]].
Qed.

Lemma find_name_Some name i l : find_name name l = Some i -> exists t, (name, i, t) ∈ l.
Proof.
  induction l as [|[[n j] t] l IH]; [done|]. cbn. destruct (bool_decide (n = name)) eqn:E.
  - apply bool_decide_eq_true in E. intros [= ->]. subst n. exists t. by left.
  - intros Hx. destruct (IH Hx) as [u Hu]. exists u. by right.
Qed.

Lemma map_name_in l m name : is_map l m -> name ∈ (fun x => x.1.1) <$> l <-> is_Some (m !! name).
Proof.
  intros [_ Hm]. rewrite list_elem_of_fmap. split.
  - intros ([[n i] t] & -> & Hin). apply Hm in Hin. eauto.
  - intros [[i t] Hx]. apply Hm in Hx. by exists (name, i, t).
Qed.

Lemma find_name_map l m name : is_map l m -> find_name name l = fst <$> m !! name.
Proof.
  intros Hm. destruct (find_name name l) as [i|] eqn:E.
  - apply find_name_Some in E as [t Ht]. apply (proj2 Hm) in Ht. rewrite Ht. done.
  - apply find_name_None in E. rewrite (map_name_in _ _ _ Hm) in E. apply eq_None_not_Some in E. rewrite E. done.
Qed.

Lemma is_map_insert a b m name i t : is_map (a ++ b) m -> m !! name = None -> is_map (a ++ (name, i, t) :: b) (<[name := (i, t)]> m).
Proof.
  intros Hm Hn. assert (Hnew : name ∉ (fun x => x.1.1) <$> (a ++ b)) by (rewrite (map_name_in _ _ _ Hm), Hn; by intros []).
  destruct Hm as [Hnd Hm]. split.
  - rewrite fmap_app, fmap_cons. cbn. rewrite fmap_app in Hnd, Hnew. rewrite <- Permutation_middle. by constructor.
  - intros n j u. rewrite elem_of_app, elem_of_cons. destruct (decide (n = name)) as [->|Hne].
    + rewrite lookup_insert_eq. split; [|intros [= <- <-]; auto]. intros Hin.
      assert (Hc : (name, j, u) = (name, i, t) \/ (name, j, u) ∈ a ++ b) by (rewrite elem_of_app; tauto).
      destruct Hc as [[= -> ->]|Hc]; [done|]. destruct Hnew. rewrite list_elem_of_fmap. by exists (name, j, u).
    + rewrite lookup_insert_ne by done. rewrite <- Hm, elem_of_app. split; [intros [|[[= ? _ _]|]]; [auto|congruence|auto]|tauto].
Qed.

Lemma remove_first_spec {A} (f : A -> bool) l : match remove_first f l with
  | Some l' => exists a x b, l = a ++ x :: b /\ l' = a ++ b /\ f x = true
  | None => forall x, x ∈ l -> f x = false
  end.
Proof.
  induction l as [|x l IH]; cbn; [intros x Hx; by apply not_elem_of_nil in Hx|]. destruct (f x) eqn:E; [by exists [], x, l|].
  destruct (remove_first f l) as [l'|]; cbn.
  - destruct IH as (a & y & b & -> & -> & Hy). by exists (x :: a), y, b.
  - intros y [->|Hy]%elem_of_cons; [done|by apply IH].
Qed.

Lemma is_map_delete a b m n i t : is_map (a ++ (n, i, t) :: b) m -> is_map (a ++ b) (delete n m).
Proof.
  intros [Hnd Hm]. rewrite fmap_app, fmap_cons in Hnd. cbn in Hnd. rewrite <- Permutation_middle in Hnd. apply NoDup_cons in Hnd as [Hnew Hnd].
  rewrite <- fmap_app in Hnew, Hnd. split; [done|]. intros k j u. destruct (decide (k = n)) as [->|Hne].
  - rewrite lookup_delete_eq. split; [|done]. intros Hin. destruct Hnew. rewrite list_elem_of_fmap. by exists (n, j, u).
  - rewrite lookup_delete_ne, <- Hm, !elem_of_app, elem_of_cons by done. split; [tauto|]. intros [|[[= ? _ _]|]]; [auto|congruence|auto].
Qed.

Lemma dir_step_ok c s m : dir_map s m -> cmd_ok c m ->
  exists r i s' m', dir_step c s = Done (r, i, s') /\ map_step m c (r, i) m' /\ dir_map s' m'.
Proof.
  intros (ess & Hd & Hm) Hc. destruct c as [name|name ino flags|name]; cbn [dir_step].
  - destruct (dir_lookup_ok name 0 s ess Hd) as (s' & -> & Hd'). rewrite (find_name_map _ m name Hm).
    destruct (m !! name) as [[i t]|] eqn:E; cbn; do 4 eexists; (split; [done|split; [econstructor; exact E|by exists ess]]).
  - destruct Hc as (Hlen & Hbytes & Hzero & Hino & Hnew). unfold ext2fs_link. rewrite Hrw, Hdi, Hlinear. cbn [negb].
    destruct (dir_link_ok name ino flags Hlen Hbytes Hzero Hino s ess Hd) as (s' & ess' & Hd' & [(-> & t & a & b & Ht & Ha & Hb)|(-> & Hn & _)]); cbn [obind].
    + exists 0, 0, s', (<[name := (ino, t)]> m). split; [done|]. split; [by constructor|]. exists ess'. split; [done|]. rewrite Hb.
      apply is_map_insert; [by rewrite <- Ha|done].
    + exists EXT2_ET_DIR_NO_SPACE, 0, s', m. split; [done|]. split; [by constructor|]. exists ess'. by rewrite Hn.
  - destruct (dir_unlink_ok (Some name) 0 0 s ess Hrw ltac:(by left) Hd) as (s' & ess' & Hd' & Hu).
    pose proof (remove_first_spec (unlinked (Some name) 0 0) (names (mjoin ess))) as Hr.
    destruct (remove_first _ _) as [l|]; destruct Hu as [-> Hn]; cbn [obind].
    + destruct Hr as (a & [[n i] t] & b & Ha & -> & Hx). cbn in Hx. rewrite andb_true_r in Hx. apply bool_decide_eq_true in Hx. subst n.
      rewrite Ha in Hm. exists 0, 0, s', (delete name m). split; [done|]. split.
      * constructor. exists (i, t). apply Hm. rewrite elem_of_app, elem_of_cons. auto.
      * exists ess'. split; [done|]. rewrite Hn. by eapply is_map_delete.
    + exists EXT2_ET_DIR_NO_SPACE, 0, s', m. split; [done|]. split; [|exists ess'; by rewrite Hn]. constructor.
      apply eq_None_not_Some. intros [[i t] Hx]. apply (proj2 Hm) in Hx. apply Hr in Hx. cbn in Hx. rewrite bool_decide_eq_true_2 in Hx; done.
Qed.

Lemma dir_run_ok l s m : dir_map s m -> cmds_ok l m ->
  exists rs s' m', dir_run l s = Done (rs, s') /\ map_run m l rs m' /\ dir_map s' m'.
Proof.
  revert s m. induction l as [|c l IH]; intros s m Hd Hok; [exists [], s, m; split; [done|]; split; [constructor|done]|].
  destruct Hok as [Hc Hl]. cbn [dir_run]. destruct (dir_step_ok c s m Hd Hc) as (r & i & s1 & m1 & -> & Hs & Hd1). cbn [obind].
  destruct (IH s1 m1 Hd1 (Hl _ _ Hs)) as (rs & s2 & m2 & -> & Hr & Hd2). cbn [obind]. do 3 eexists. split; [done|]. split; [by econstructor|done].
Qed.
End dir.

(** * Claims *)

(** A file system and a directory of it that is not indexed. *)
Record dir_setting (fs : filsys) (read_inode : Z -> Z + inode) (dir : Z) (di : inode) : Prop := {
  ds_bs : 24 <= blocksize fs < 65536;
  ds_csum : metadata_csum fs = true -> 1024 <= blocksize fs;
  ds_seed : is_u32 (csum_seed fs);
  ds_inode : read_inode dir = inr di;
  ds_isdir : LINUX_S_ISDIR (i_mode di) = true;
  ds_count : dir <= s_inodes_count fs;
  ds_rw : flag_rw fs = true;
  ds_linear : has_flag (i_flags di) EXT2_INDEX_FL = false }.

(** C7: a directory is a finite map from names to inodes.  On any channel that keeps
    its blocks (the one of unix_io.c is one), any sequence of lookups, links of
    names that are not there and unlinks answers like a map from names to inodes
    and file types, and leaves a directory that holds that map, with or without
    checksums: its blocks tile, names keep their inodes, and every block that is
    read back passes its checksum.  Only a link may also fail for want of room, and
    then it changes no name. *)
Theorem dir_refines_map {S} `{BlockIoLaws S} fs read_inode dir di dir_blocks inline_iterate dx_link l (s : S) m :
  dir_setting fs read_inode dir di -> dir_map fs dir di dir_blocks s m -> cmds_ok fs l m ->
  exists rs s' m', dir_run fs read_inode dir dir_blocks inline_iterate dx_link l s = Done (rs, s') /\
    map_run fs m l rs m' /\ dir_map fs dir di dir_blocks s' m'.
Proof. intros [] Hd Hl. by apply dir_run_ok. Qed.

(** C30: linking a name into a directory finds room where there is some: when an entry
    of one of its blocks is unused and long enough for the name, or longer than its
    own name needs by enough, the link succeeds; and in every case the names that
    were there stay, in their order. *)
Theorem link_finds_room {S} `{BlockIoLaws S} fs read_inode dir di dir_blocks inline_iterate dx_link name ino flags (s : S) ess :
  dir_setting fs read_inode dir di -> dir_of fs dir di dir_blocks s ess ->
  1 <= Z.of_nat (length name) <= 255 -> bytes_ok name -> 0 ∉ name -> 0 < ino < 2 ^ 32 ->
  exists r s' ess', ext2fs_link fs read_inode dir_blocks inline_iterate None dx_link false dir name ino flags s = Done (r, s') /\
    dir_of fs dir di dir_blocks s' ess' /\
    ((exists e, e ∈ mjoin ess /\ need name <= room e) -> r = 0) /\
    (r = 0 -> exists t a b, names (mjoin ess) = a ++ b /\ names (mjoin ess') = a ++ (name, ino, t) :: b) /\
    (r <> 0 -> r = EXT2_ET_DIR_NO_SPACE /\ names (mjoin ess') = names (mjoin ess)).
Proof.
  intros [] Hd Hlen Hb Hz Hi. unfold ext2fs_link. rewrite ds_rw0, ds_inode0, ds_linear0. cbn [negb].
  destruct (dir_link_ok fs ds_bs0 ds_csum0 ds_seed0 read_inode dir di ds_inode0 ds_isdir0 ds_count0 dir_blocks inline_iterate name ino flags Hlen Hb Hz Hi s ess Hd)
    as (s' & ess' & Hd' & [(-> & t & a & b & _ & Ha & Hb')|(-> & Hn & Hroom)]).
  - exists 0, s', ess'. split; [done|]. split; [done|]. split; [done|]. split; [eauto|]. done.
  - exists EXT2_ET_DIR_NO_SPACE, s', ess'. split; [done|]. split; [done|]. split.
    + intros (e & He & Hr). rewrite Forall_forall in Hroom. specialize (Hroom e He). lia.
    + split; [done|]. done.
Qed.

(** * A directory on a channel *)

(** A file system with checksums and blocks of 1024 bytes; inode 2 is a new
    directory in block 1. *)
Definition demo_fs : filsys := mk_fs 1024 100 true true 0x12345678 true false.
Definition demo_inode : inode := mk_inode 0x41ED 0 7.
Definition demo_inodes (_ : Z) : Z + inode := inr demo_inode.
Definition demo_blocks (_ : Z) : Z + list (Z * Z) := inr [(0, 1)].
Definition no_inline P (_ : dir_func P) (_ : Z) (ctx : dir_context P) (s : channel) : outcome (dir_context P * channel) := Done (ctx, s).
Definition no_dx (_ : Z) (_ : list Z) (_ _ : Z) (s : channel) : outcome (Z * channel) := Done (EINVAL, s).

Definition demo_block : list Z :=
  match ext2fs_new_dir_block demo_fs false 2 2 with
  | Done (inr b) => match ext2fs_dir_block_csum_set demo_fs demo_inodes 2 b with Done (_, b) => b | Crash _ => [] end
  | _ => []
  end.

Definition demo_disk : channel :=
  mk_chan EXT2_ET_MAGIC_IO_CHANNEL 1024 1 false 0 EXT2_ET_MAGIC_UNIX_IO_CHANNEL false false 0 0
    (replicate 8 (no_cache (Some (9, zeros 1024)))) None 0 0 (mk_dev (zeros 1024 ++ demo_block) 0 []).

Lemma demo_setting : dir_setting demo_fs demo_inodes 2 demo_inode.
Proof. constructor; cbn; try done; lia. Qed.

Definition demo_entries : list dentry := [dot demo_fs 2; dot_dot demo_fs 2].

Lemma demo_on_disk : on_disk demo_fs 2 demo_inode demo_entries demo_block.
Proof.
  destruct (csum_set_ok demo_fs ltac:(cbn; lia) ltac:(done) ltac:(done) demo_inodes 2 demo_inode eq_refl demo_entries (new_tl demo_fs)) as (bs & E & Hod).
  { apply new_body_ok; cbn; (lia || done). }
  unfold demo_block. unfold demo_entries in E. rewrite new_dir_block_ok by (cbn; (lia || done)). rewrite E. exact Hod.
Qed.

#[local] Opaque demo_block.

Lemma demo_rep : unix_rep demo_disk {[1 := demo_block]}.
Proof.
  pose proof (on_disk_length _ _ _ _ _ demo_on_disk) as Hl. change (blocksize demo_fs) with 1024 in Hl.
  exists demo_mem, (mk_array (zeros 1024 ++ demo_block) 1024 0). split; [|split; [done|]].
  - clear Hl. split; [|split; [reflexivity|split; [reflexivity|intros ?; reflexivity]]]. cbn [fst bytes]. apply (idle_coherent demo_disk).
    + constructor; try done; try (cbn; lia). cbn [cache demo_disk]. intros i e Hi. apply lookup_replicate in Hi as [-> _]. by exists 9, (zeros 1024).
    + cbn [cache demo_disk]. intros i e Hi. apply lookup_replicate in Hi as [-> _]. done.
  - intros b bs [<- <-]%lookup_singleton_Some. cbn [bytes unit_size]. unfold array_loc. cbn [unit_size shift].
    rewrite length_app. unfold zeros. rewrite length_replicate. split; [lia|]. split; [lia|]. split; [lia|].
    unfold read_at. rewrite drop_app_length' by (rewrite length_replicate; lia). rewrite take_ge by lia. done.
Qed.

#[local] Instance demo_io_ops : BlockIo channel := unix_block_io None None.
#[local] Instance demo_io_laws : BlockIoLaws channel := unix_laws None None.

Lemma demo_dir_of : dir_of demo_fs 2 demo_inode demo_blocks demo_disk [demo_entries].
Proof.
  exists {[1 := demo_block]}, [(0, 1)]. split; [done|]. split; [repeat constructor; by intros ?%not_elem_of_nil|]. split; [exact demo_rep|].
  constructor; [|constructor]. exists demo_block. split; [apply lookup_singleton_eq|apply demo_on_disk].
Qed.

Definition demo_map : gmap (list Z) (Z * Z) := {[ [46] := (2, 2); [46; 46] := (2, 2) ]}.

Lemma demo_dir_map : dir_map demo_fs 2 demo_inode demo_blocks demo_disk demo_map.
Proof.
  exists [demo_entries]. split; [exact demo_dir_of|]. rewrite mjoin_cons. change (mjoin []) with (@nil dentry). rewrite app_nil_r.
  unfold demo_entries. rewrite new_names by (cbn; lia). change (new_ft demo_fs) with 2. split.
  - cbn. apply NoDup_cons. split; [by intros [=]%list_elem_of_singleton|apply NoDup_singleton].
  - intros n i t. unfold demo_map. rewrite !elem_of_cons, elem_of_nil. rewrite lookup_insert_Some, lookup_singleton_Some. split.
    + intros [[= -> -> ->]|[[= -> -> ->]|[]]]; auto.
    + intros [[<- [= <- <-]]|[_ [<- [= <- <-]]]]; auto.
Qed.

(** "a" and "b" are linked, "a" is unlinked again. *)
Definition demo_cmds : list dir_cmd :=
  [DLookup [46; 46]; DLink [97] 12 1; DLink [98] 13 2; DLookup [97]; DUnlink [97]; DLookup [97]].

Lemma demo_cmds_ok : cmds_ok demo_fs demo_cmds demo_map.
Proof.
  assert (Hname : forall x ino (m : gmap (list Z) (Z * Z)), 0 < x < 256 -> 0 < ino < 2 ^ 32 -> m !! [x] = None ->
    1 <= Z.of_nat (length [x]) <= 255 /\ bytes_ok [x] /\ 0 ∉ [x] /\ 0 < ino < 2 ^ 32 /\ m !! [x] = None).
  { intros x ino m Hx Hi Hm. split; [cbn; lia|]. split; [repeat constructor; range_lia|]. split; [|done].
    rewrite elem_of_cons, elem_of_nil. intros [|[]]. lia. }
  cbn [cmds_ok demo_cmds cmd_ok]. split; [done|]. intros r m1 H1. assert (m1 = demo_map) as -> by (inversion H1; done). clear H1.
  split; [apply Hname; [lia|lia|vm_compute; done]|]. intros r2 m2 H2.
  assert (Hb : m2 !! [98] = None) by (inversion H2; subst; [rewrite lookup_insert_ne by done|]; vm_compute; done). clear H2.
  split; [apply Hname; [lia|lia|done]|]. intros r3 m3 H3. repeat (split; [done|]; intros). done.
Qed.

Lemma dir_refines_map_witness : exists rs s' m',
  dir_run demo_fs demo_inodes 2 demo_blocks no_inline no_dx demo_cmds demo_disk = Done (rs, s') /\
  map_run demo_fs demo_map demo_cmds rs m' /\ dir_map demo_fs 2 demo_inode demo_blocks s' m'.
Proof.
  apply (dir_refines_map demo_fs demo_inodes 2 demo_inode demo_blocks no_inline no_dx demo_cmds demo_disk demo_map);
    [exact demo_setting|exact demo_dir_map|exact demo_cmds_ok].
Defined.

Lemma link_finds_room_witness : exists r s' ess',
  ext2fs_link demo_fs demo_inodes demo_blocks no_inline None no_dx false 2 [97] 12 1 demo_disk = Done (r, s') /\
  dir_of demo_fs 2 demo_inode demo_blocks s' ess' /\
  ((exists e, e ∈ mjoin [demo_entries] /\ need [97] <= room e) -> r = 0) /\
  (r = 0 -> exists t a b, names (mjoin [demo_entries]) = a ++ b /\ names (mjoin ess') = a ++ ([97], 12, t) :: b) /\
  (r <> 0 -> r = EXT2_ET_DIR_NO_SPACE /\ names (mjoin ess') = names (mjoin [demo_entries])).
Proof.
  apply (link_finds_room demo_fs demo_inodes 2 demo_inode demo_blocks no_inline no_dx [97] 12 1 demo_disk [demo_entries]);
    [exact demo_setting|exact demo_dir_of|cbn; lia|repeat constructor; done| |lia].
  rewrite elem_of_cons, elem_of_nil. intros [|[]]. done.
Defined.

(** What the commands return there. *)
Example demo_results : match dir_run demo_fs demo_inodes 2 demo_blocks no_inline no_dx demo_cmds demo_disk with
  | Done (rs, _) => rs
  | Crash _ => []
  end = [(0, 2); (0, 0); (0, 0); (0, 12); (0, 0); (EXT2_ET_FILE_NOT_FOUND, 0)].
Proof. vm_compute. reflexivity. Qed.

(** The length of a name is cut to eight bits where the room for it is computed, but
    all of it is copied: a name of 300 bytes goes into an entry of 64 bytes, and
    behind the end of the block. *)
Example long_name_overruns :
  link_proc demo_fs (replicate 300 97) 12 1 DIRENT_OTHER_FILE 0 64 (enc (mk_de 0 64 0 (replicate 56 0))) (mk_ls false 0) = Crash BadPointer.
Proof. vm_compute. reflexivity. Qed.
