(* ===== verification/Group.v ===== *)
(** Block groups: blknum.c, the group descriptors in memory as bytes with their
    checksums (csum.c), and the counts of free blocks and inodes that alloc_stats.c
    keeps in the descriptors and in the super block. *)

From S2P Require Import Prelude Crc Bitops Bitmap32 Bitmap64 GenBitmap.

Local Open Scope Z_scope.

Definition EXT2_MIN_DESC_SIZE : Z := 32.
Definition EXT2_BG_INODE_UNINIT : Z := 1.
Definition EXT2_BG_BLOCK_UNINIT : Z := 2.
Definition EXT2_FLAG_CHANGED : Z := 0x02.
Definition EXT2_FLAG_DIRTY : Z := 0x04.
Definition EXT2_FLAG_IB_DIRTY : Z := 0x10.
Definition EXT2_FLAG_BB_DIRTY : Z := 0x20.
Definition EXT2_ET_NO_INODE_BITMAP : Z := 2133571367.

(** Offsets in [struct ext4_group_desc]. *)
Definition bg_block_bitmap : Z := 0.
Definition bg_inode_bitmap : Z := 4.
Definition bg_inode_table : Z := 8.
Definition bg_free_blocks_count : Z := 12.
Definition bg_free_inodes_count : Z := 14.
Definition bg_used_dirs_count : Z := 16.
Definition bg_flags : Z := 18.
Definition bg_block_bitmap_csum_lo : Z := 24.
Definition bg_inode_bitmap_csum_lo : Z := 26.
Definition bg_itable_unused : Z := 28.
Definition bg_checksum : Z := 30.
Definition bg_block_bitmap_hi : Z := 32.
Definition bg_inode_bitmap_hi : Z := 36.
Definition bg_inode_table_hi : Z := 40.
Definition bg_free_blocks_count_hi : Z := 44.
Definition bg_free_inodes_count_hi : Z := 46.
Definition bg_used_dirs_count_hi : Z := 48.
Definition bg_itable_unused_hi : Z := 50.
Definition bg_block_bitmap_csum_hi : Z := 56.
Definition bg_inode_bitmap_csum_hi : Z := 58.

(** The fields of the super block and of [struct struct_ext2_filsys] that these
    functions read and never write.  [s_inodes_per_group] and [s_blocks_per_group]
    are not zero, which [ext2fs_open] checks. *)
Record super := mk_super {
  geo : filsys;
  feature_64bit : bool;
  gdt_csum : bool;
  metadata_csum : bool;
  csum_seed : Z;
  s_uuid : list Z;
  s_desc_size : Z;
  s_rev_level : Z;
  s_first_ino : Z }.

(** A call of one of the functions [fs->block_alloc_stats] and
    [fs->block_alloc_stats_range]. *)
Inductive call :=
| BlockStats (blk inuse : Z)
| RangeStats (blk num inuse : Z).

(** What they change: the descriptors, the counts of the super block, [fs->flags],
    the bitmaps, the memory the bitmaps take, and the calls of the functions above. *)
Record vol (P : Type) := mk_vol {
  group_desc : list Z;
  s_free_blocks_count : Z;
  s_free_blocks_hi : Z;
  s_free_inodes_count : Z;
  flags : Z;
  inode_map : generic_bitmap P;
  block_map : generic_bitmap P;
  mem : allocator;
  calls : list call }.
Arguments mk_vol {P}.
Arguments group_desc {P}.
Arguments s_free_blocks_count {P}.
Arguments s_free_blocks_hi {P}.
Arguments s_free_inodes_count {P}.
Arguments flags {P}.
Arguments inode_map {P}.
Arguments block_map {P}.
Arguments mem {P}.
Arguments calls {P}.

Section setters.
Context {P : Type} (v : vol P).
Definition set_desc (d : list Z) : vol P :=
  mk_vol d (s_free_blocks_count v) (s_free_blocks_hi v) (s_free_inodes_count v) (flags v) (inode_map v) (block_map v) (mem v) (calls v).
Definition set_free_blocks (lo hi : Z) : vol P :=
  mk_vol (group_desc v) lo hi (s_free_inodes_count v) (flags v) (inode_map v) (block_map v) (mem v) (calls v).
Definition set_free_inodes (n : Z) : vol P :=
  mk_vol (group_desc v) (s_free_blocks_count v) (s_free_blocks_hi v) n (flags v) (inode_map v) (block_map v) (mem v) (calls v).
Definition add_flags (f : Z) : vol P :=
  mk_vol (group_desc v) (s_free_blocks_count v) (s_free_blocks_hi v) (s_free_inodes_count v) (Z.lor (flags v) f) (inode_map v) (block_map v) (mem v) (calls v).
Definition set_inode_map (g : generic_bitmap P) (al : allocator) : vol P :=
  mk_vol (group_desc v) (s_free_blocks_count v) (s_free_blocks_hi v) (s_free_inodes_count v) (flags v) g (block_map v) al (calls v).
Definition set_block_map (g : generic_bitmap P) (al : allocator) : vol P :=
  mk_vol (group_desc v) (s_free_blocks_count v) (s_free_blocks_hi v) (s_free_inodes_count v) (flags v) (inode_map v) g al (calls v).
Definition set_mem (al : allocator) : vol P :=
  mk_vol (group_desc v) (s_free_blocks_count v) (s_free_blocks_hi v) (s_free_inodes_count v) (flags v) (inode_map v) (block_map v) al (calls v).
Definition add_call (c : call) : vol P :=
  mk_vol (group_desc v) (s_free_blocks_count v) (s_free_blocks_hi v) (s_free_inodes_count v) (flags v) (inode_map v) (block_map v) (mem v) (calls v ++ [c]).

Definition ext2fs_mark_super_dirty : vol P := add_flags (Z.lor EXT2_FLAG_DIRTY EXT2_FLAG_CHANGED).
Definition ext2fs_mark_ib_dirty : vol P := add_flags (Z.lor EXT2_FLAG_IB_DIRTY EXT2_FLAG_CHANGED).
Definition ext2fs_mark_bb_dirty : vol P := add_flags (Z.lor EXT2_FLAG_BB_DIRTY EXT2_FLAG_CHANGED).
End setters.

(** * Group numbers *)

Section group.
Context (sb : super).

Definition ipg : Z := s_inodes_per_group (geo sb).
Definition bpg : Z := s_blocks_per_group (geo sb).
Definition blocks_count : Z := s_blocks_count (geo sb).
Definition inodes_count : Z := s_inodes_count (geo sb).
Definition first_data_block : Z := s_first_data_block (geo sb).
Definition groups : Z := group_desc_count (geo sb).
Definition cluster_ratio : Z := Z.shiftl 1 (cluster_ratio_bits (geo sb)).

Definition ext2fs_group_of_blk2 (blk : Z) : Z := u32 (u64 (blk - first_data_block) / bpg).
Definition ext2fs_group_of_ino (ino : Z) : Z := u32 (ino - 1) / ipg.
Definition ext2fs_group_first_block2 (group : Z) : Z := u64 (first_data_block + u64 (bpg * group)).
Definition ext2fs_group_last_block2 (group : Z) : Z :=
  if group =? u32 (groups - 1) then u64 (blocks_count - 1) else u64 (ext2fs_group_first_block2 group + u32 (bpg - 1)).
Definition ext2fs_group_blocks_count (group : Z) : Z :=
  if group =? u32 (groups - 1) then
    let num_blocks := s32 (u64 (blocks_count - first_data_block) mod bpg) in
    if num_blocks =? 0 then s32 bpg else num_blocks
  else s32 bpg.

(** * Group descriptors *)

Definition EXT2_DESC_SIZE : Z := if feature_64bit sb then s_desc_size sb else EXT2_MIN_DESC_SIZE.

Definition ext2fs_has_group_desc_csum : bool := metadata_csum sb || gdt_csum sb.

Section desc.
Context {P : Type} `{BitmapOps P}.
Local Notation vol := (vol P).

(** The offset of a descriptor in [fs->group_desc]; a null pointer otherwise, which
    every caller follows. *)
Definition ext2fs_group_desc (group : Z) : outcome Z :=
  if groups <? group then Crash BadPointer else Done (u32 (group * Z.land EXT2_DESC_SIZE (Z.lnot 7))).

(** Fields of 16 and of 32 bits. *)
Definition field16 (v : vol) (group off : Z) : outcome Z := let* o := ext2fs_group_desc group in get16 (group_desc v) (o + off).
Definition field32 (v : vol) (group off : Z) : outcome Z := let* o := ext2fs_group_desc group in get32 (group_desc v) (o + off).
Definition field16_set (v : vol) (group off x : Z) : outcome vol :=
  let* o := ext2fs_group_desc group in let* d := put16 (group_desc v) (o + off) x in Done (set_desc v d).
Definition field32_set (v : vol) (group off x : Z) : outcome vol :=
  let* o := ext2fs_group_desc group in let* d := put32 (group_desc v) (o + off) x in Done (set_desc v d).

(** A number in two fields of 16 bits, the second one with 64-bit descriptors. *)
Definition bg_count (v : vol) (group lo hi : Z) : outcome Z :=
  let* l := field16 v group lo in
  if feature_64bit sb then let* h := field16 v group hi in Done (Z.lor l (u32 (Z.shiftl h 16))) else Done l.
Definition bg_count_set (v : vol) (group lo hi n : Z) : outcome vol :=
  let* v := field16_set v group lo n in
  if feature_64bit sb then field16_set v group hi (Z.shiftr (u32 n) 16) else Done v.

(** A block number in two fields of 32 bits. *)
Definition bg_loc (v : vol) (group lo hi : Z) : outcome Z :=
  let* l := field32 v group lo in
  if feature_64bit sb then let* h := field32 v group hi in Done (Z.lor l (Z.shiftl h 32)) else Done l.
Definition bg_loc_set (v : vol) (group lo hi blk : Z) : outcome vol :=
  let* v := field32_set v group lo blk in
  if feature_64bit sb then field32_set v group hi (Z.shiftr (u64 blk) 32) else Done v.

Definition ext2fs_block_bitmap_loc (v : vol) (group : Z) := bg_loc v group bg_block_bitmap bg_block_bitmap_hi.
Definition ext2fs_block_bitmap_loc_set (v : vol) (group blk : Z) := bg_loc_set v group bg_block_bitmap bg_block_bitmap_hi blk.
Definition ext2fs_inode_bitmap_loc (v : vol) (group : Z) := bg_loc v group bg_inode_bitmap bg_inode_bitmap_hi.
Definition ext2fs_inode_bitmap_loc_set (v : vol) (group blk : Z) := bg_loc_set v group bg_inode_bitmap bg_inode_bitmap_hi blk.
Definition ext2fs_inode_table_loc (v : vol) (group : Z) := bg_loc v group bg_inode_table bg_inode_table_hi.
Definition ext2fs_inode_table_loc_set (v : vol) (group blk : Z) := bg_loc_set v group bg_inode_table bg_inode_table_hi blk.
Definition ext2fs_bg_free_blocks_count (v : vol) (group : Z) := bg_count v group bg_free_blocks_count bg_free_blocks_count_hi.
Definition ext2fs_bg_free_blocks_count_set (v : vol) (group n : Z) := bg_count_set v group bg_free_blocks_count bg_free_blocks_count_hi n.
Definition ext2fs_bg_free_inodes_count (v : vol) (group : Z) := bg_count v group bg_free_inodes_count bg_free_inodes_count_hi.
Definition ext2fs_bg_free_inodes_count_set (v : vol) (group n : Z) := bg_count_set v group bg_free_inodes_count bg_free_inodes_count_hi n.
Definition ext2fs_bg_used_dirs_count (v : vol) (group : Z) := bg_count v group bg_used_dirs_count bg_used_dirs_count_hi.
Definition ext2fs_bg_used_dirs_count_set (v : vol) (group n : Z) := bg_count_set v group bg_used_dirs_count bg_used_dirs_count_hi n.
Definition ext2fs_bg_itable_unused (v : vol) (group : Z) := bg_count v group bg_itable_unused bg_itable_unused_hi.
Definition ext2fs_bg_itable_unused_set (v : vol) (group n : Z) := bg_count_set v group bg_itable_unused bg_itable_unused_hi n.

(** The checksums of the bitmaps. *)
Definition ext2fs_block_bitmap_checksum (v : vol) (group : Z) : outcome Z :=
  let* csum := field16 v group bg_block_bitmap_csum_lo in
  if bg_block_bitmap_csum_hi + 2 <=? EXT2_DESC_SIZE
  then let* h := field16 v group bg_block_bitmap_csum_hi in Done (Z.lor csum (u32 (Z.shiftl h 16))) else Done csum.
Definition ext2fs_inode_bitmap_checksum (v : vol) (group : Z) : outcome Z :=
  let* csum := field16 v group bg_inode_bitmap_csum_lo in
  if bg_inode_bitmap_csum_hi + 2 <=? EXT2_DESC_SIZE
  then let* h := field16 v group bg_inode_bitmap_csum_hi in Done (Z.lor csum (u32 (Z.shiftl h 16))) else Done csum.

Definition ext2fs_bg_flags (v : vol) (group : Z) : outcome Z := field16 v group bg_flags.
Definition ext2fs_bg_flags_zap (v : vol) (group : Z) : outcome vol := field16_set v group bg_flags 0.
Definition ext2fs_bg_flags_test (v : vol) (group flag : Z) : outcome Z :=
  let* f := field16 v group bg_flags in Done (Z.land f flag).
Definition ext2fs_bg_flags_set (v : vol) (group f : Z) : outcome vol :=
  let* old := field16 v group bg_flags in field16_set v group bg_flags (Z.lor old f).
Definition ext2fs_bg_flags_clear (v : vol) (group f : Z) : outcome vol :=
  let* old := field16 v group bg_flags in field16_set v group bg_flags (Z.land old (Z.lnot f)).
Definition ext2fs_bg_checksum (v : vol) (group : Z) : outcome Z := field16 v group bg_checksum.
Definition ext2fs_bg_checksum_set (v : vol) (group checksum : Z) : outcome vol := field16_set v group bg_checksum checksum.

(** * The checksum of a descriptor *)

(** The bytes [desc] of a descriptor; with [metadata_csum] the field of the checksum
    counts as zero, otherwise it is skipped. *)
Definition ext2fs_group_desc_csum (v : vol) (group : Z) : outcome Z :=
  let* o := ext2fs_group_desc group in
  let size := EXT2_DESC_SIZE in
  let* desc := load_bytes (group_desc v) o size in
  if metadata_csum sb then
    let crc32 := Crc32c.ext2fs_crc32c_le 0 (csum_seed sb) (le_encode 4 group) in
    let crc32 := Crc32c.ext2fs_crc32c_le 0 crc32 (splice desc (Z.to_nat bg_checksum) [0; 0]) in
    Done (Z.land crc32 0xFFFF)
  else
    let crc := Crc16.ext2fs_crc16 0xFFFFFFFF (s_uuid sb) in
    let crc := Crc16.ext2fs_crc16 crc (le_encode 4 group) in
    let crc := Crc16.ext2fs_crc16 crc (take (Z.to_nat bg_checksum) desc) in
    Done (if bg_checksum + 2 <? size then Crc16.ext2fs_crc16 crc (drop (Z.to_nat (bg_checksum + 2)) desc) else crc).

Definition ext2fs_group_desc_csum_verify (v : vol) (group : Z) : outcome Z :=
  if ext2fs_has_group_desc_csum then
    let* a := ext2fs_bg_checksum v group in
    let* b := ext2fs_group_desc_csum v group in
    Done (if a =? b then 1 else 0)
  else Done 1.

Definition ext2fs_group_desc_csum_set (v : vol) (group : Z) : outcome vol :=
  if negb ext2fs_has_group_desc_csum then Done v
  else let* c := ext2fs_group_desc_csum v group in ext2fs_bg_checksum_set v group c.

(** * The counts of the super block *)

Definition ext2fs_free_blocks_count (v : vol) : Z :=
  Z.lor (s_free_blocks_count v) (if feature_64bit sb then Z.shiftl (s_free_blocks_hi v) 32 else 0).
Definition ext2fs_free_blocks_count_set (v : vol) (blk : Z) : vol :=
  set_free_blocks v (u32 blk) (if feature_64bit sb then Z.shiftr (u64 blk) 32 else s_free_blocks_hi v).
Definition ext2fs_free_blocks_count_add (v : vol) (blk : Z) : vol :=
  ext2fs_free_blocks_count_set v (u64 (ext2fs_free_blocks_count v + blk)).

(** * alloc_stats.c *)

Definition mark_inode (v : vol) (ino : Z) : outcome vol :=
  let* (_, (g, al)) := ext2fs_mark_generic_bmap (inode_map v, mem v) ino in Done (set_inode_map v g al).
Definition unmark_inode (v : vol) (ino : Z) : outcome vol :=
  let* (_, (g, al)) := ext2fs_unmark_generic_bmap (inode_map v, mem v) ino in Done (set_inode_map v g al).
Definition mark_block (v : vol) (blk : Z) : outcome vol :=
  let* (_, (g, al)) := ext2fs_mark_generic_bmap (block_map v, mem v) blk in Done (set_block_map v g al).
Definition unmark_block (v : vol) (blk : Z) : outcome vol :=
  let* (_, (g, al)) := ext2fs_unmark_generic_bmap (block_map v, mem v) blk in Done (set_block_map v g al).
Definition mark_blocks (v : vol) (blk num : Z) : outcome vol :=
  let* (g, al) := ext2fs_mark_block_bitmap_range2 (block_map v, mem v) blk num in Done (set_block_map v g al).
Definition unmark_blocks (v : vol) (blk num : Z) : outcome vol :=
  let* (g, al) := ext2fs_unmark_block_bitmap_range2 (block_map v, mem v) blk num in Done (set_block_map v g al).

(** The part of [ext2fs_inode_alloc_stats2] that lowers [bg_itable_unused]. *)
Definition lower_itable_unused (v : vol) (group ino : Z) : outcome vol :=
  let* unused := ext2fs_bg_itable_unused v group in
  let first_unused_inode := u32 (ipg - unused + group * ipg + 1) in
  if first_unused_inode <=? ino
  then ext2fs_bg_itable_unused_set v group (u32 (group * ipg + ipg - ino)) else Done v.

Definition ext2fs_inode_alloc_stats2 (v : vol) (ino inuse : Z) (isdir : bool) : outcome vol :=
  let group := ext2fs_group_of_ino ino in
  if inodes_count <? ino then Done v
  else
    let* v := if 0 <? inuse then mark_inode v ino else unmark_inode v ino in
    let* n := ext2fs_bg_free_inodes_count v group in
    let* v := ext2fs_bg_free_inodes_count_set v group (u32 (n - inuse)) in
    let* v := if isdir then let* n := ext2fs_bg_used_dirs_count v group in ext2fs_bg_used_dirs_count_set v group (u32 (n + inuse))
              else Done v in
    let* v := ext2fs_bg_flags_clear v group EXT2_BG_INODE_UNINIT in
    let* v := if ext2fs_has_group_desc_csum then
                let* v := lower_itable_unused v group ino in ext2fs_group_desc_csum_set v group
              else Done v in
    let v := set_free_inodes v (u32 (s_free_inodes_count v - inuse)) in
    Done (ext2fs_mark_ib_dirty (ext2fs_mark_super_dirty v)).

(** [hook]: whether [fs->block_alloc_stats] is set. *)
Definition ext2fs_block_alloc_stats2 (hook : bool) (v : vol) (blk inuse : Z) : outcome vol :=
  let group := ext2fs_group_of_blk2 blk in
  if blocks_count <=? blk then Done v
  else
    let* v := if 0 <? inuse then mark_block v blk else unmark_block v blk in
    let* n := ext2fs_bg_free_blocks_count v group in
    let* v := ext2fs_bg_free_blocks_count_set v group (u32 (n - inuse)) in
    let* v := ext2fs_bg_flags_clear v group EXT2_BG_BLOCK_UNINIT in
    let* v := ext2fs_group_desc_csum_set v group in
    let v := ext2fs_free_blocks_count_add v (u64 (- inuse * cluster_ratio)) in
    let v := ext2fs_mark_bb_dirty (ext2fs_mark_super_dirty v) in
    Done (if hook then add_call v (BlockStats blk inuse) else v).

(** The loop of [ext2fs_block_alloc_stats_range]: [inuse] is 1 or -1. *)
Fixpoint stats_range (fuel : nat) (v : vol) (blk num inuse : Z) : outcome (Z * Z * vol) :=
  match fuel with
  | O => Crash OutOfFuel
  | S fuel =>
      if num =? 0 then Done (blk, num, v)
      else
        let group := ext2fs_group_of_blk2 blk in
        let last_blk := ext2fs_group_last_block2 group in
        let n := if last_blk <? u64 (blk + num) then u64 (last_blk - blk + 1) else num in
        let* c := ext2fs_bg_free_blocks_count v group in
        let* v := ext2fs_bg_free_blocks_count_set v group (u32 (c - u64 (inuse * n) / cluster_ratio)) in
        let* v := ext2fs_bg_flags_clear v group EXT2_BG_BLOCK_UNINIT in
        let* v := ext2fs_group_desc_csum_set v group in
        let v := ext2fs_free_blocks_count_add v (u64 (- inuse * n)) in
        stats_range fuel v (u64 (blk + n)) (u32 (num - n)) inuse
  end.

Definition ext2fs_block_alloc_stats_range (hook : bool) (v : vol) (blk num inuse : Z) : outcome vol :=
  if blocks_count <? u64 (blk + num) then Done v
  else if inuse =? 0 then Done v
  else
    let* v := if 0 <? inuse then mark_blocks v blk num else unmark_blocks v blk num in
    let inuse := if 0 <? inuse then 1 else -1 in
    let* (blk, num, v) := stats_range (S (Z.to_nat num)) v blk num inuse in
    let v := ext2fs_mark_bb_dirty (ext2fs_mark_super_dirty v) in
    Done (if hook then add_call v (RangeStats blk num inuse) else v).

(** * [ext2fs_set_gdt_csum] *)

(** [find_last_inode_ingrp]; [n] counts the inodes that are left. *)
Fixpoint find_last_inode_ingrp (n : nat) (v : vol) (grp_no : Z) : outcome (Z * vol) :=
  match n with
  | O => Done (ipg, v)
  | S n =>
      let start_ino := u32 (grp_no * ipg + 1) in
      let i := start_ino + Z.of_nat n in
      let* (r, g) := ext2fs_test_generic_bmap (inode_map v) i in
      let v := set_inode_map v g (mem v) in
      if negb (r =? 0) then Done (i - start_ino + 1, v) else find_last_inode_ingrp n v grp_no
  end.

(** One group: whether its descriptor changed. *)
Definition set_group_csum (v : vol) (i : Z) : outcome (bool * vol) :=
  let* old_csum := ext2fs_bg_checksum v i in
  let* old_unused := ext2fs_bg_itable_unused v i in
  let* old_flags := ext2fs_bg_flags v i in
  let* old_free_inodes_count := ext2fs_bg_free_inodes_count v i in
  let* old_free_blocks_count := ext2fs_bg_free_blocks_count v i in
  let* v := if (old_free_blocks_count =? bpg) && negb (i =? u32 (groups - 1))
            then ext2fs_bg_flags_set v i EXT2_BG_BLOCK_UNINIT else Done v in
  let* v := if old_free_inodes_count =? ipg then
              let* v := ext2fs_bg_flags_set v i EXT2_BG_INODE_UNINIT in ext2fs_bg_itable_unused_set v i ipg
            else
              let* (last, v) := find_last_inode_ingrp (Z.to_nat ipg) v i in
              let* v := ext2fs_bg_flags_clear v i EXT2_BG_INODE_UNINIT in ext2fs_bg_itable_unused_set v i (u32 (ipg - last)) in
  let* v := ext2fs_group_desc_csum_set v i in
  let* f := ext2fs_bg_flags v i in
  let* u := ext2fs_bg_itable_unused v i in
  let* c := ext2fs_bg_checksum v i in
  Done (negb (old_flags =? f) || negb (old_unused =? u) || negb (old_csum =? c), v).

Fixpoint set_gdt_from (n : nat) (i : Z) (v : vol) (dirty : bool) : outcome (bool * vol) :=
  match n with
  | O => Done (dirty, v)
  | S n => let* (d, v) := set_group_csum v i in set_gdt_from n (i + 1) v (dirty || d)
  end.

Definition ext2fs_set_gdt_csum (v : vol) : outcome (Z * vol) :=
  match inode_map v with
  | GenNull => Done (EXT2_ET_NO_INODE_BITMAP, v)
  | _ =>
      if negb ext2fs_has_group_desc_csum then Done (0, v)
      else
        let* (dirty, v) := set_gdt_from (Z.to_nat groups) 0 v false in
        Done (0, if (dirty : bool) then ext2fs_mark_super_dirty v else v)
  end.
End desc.
End group.
