(* ===== verification/GroupSpec.v ===== *)
(** Group descriptors as an array of structures: a write to a field of one group
    changes that group only, the checksum of a descriptor does not depend on the
    field that holds it, and a number stored in two halves is read back. *)

From S2P Require Import Prelude Crc Bitops BlockIo Bitmap32 Bitmap64 GenBitmap Group.

Local Open Scope Z_scope.

(** * One descriptor *)

(** A field of a descriptor. *)
Definition f16 (d : list Z) (off : Z) : Z := le_decode (part d (Z.to_nat off) 2).
Definition f16_set (d : list Z) (off x : Z) : list Z := splice d (Z.to_nat off) (le_encode 2 x).

Section descriptors.
Context (sb : super).
Local Notation dsz := (EXT2_DESC_SIZE sb).

Record desc_geo : Prop := {
  dg_mod : dsz mod 8 = 0;
  dg_size : 32 <= dsz;
  dg_64 : feature_64bit sb = true -> 64 <= dsz;
  dg_groups : 1 <= groups sb;
  dg_all : groups sb * dsz < 2 ^ 32 }.
Context (G : desc_geo).

(** A descriptor has its size and holds bytes. *)
Definition d_ok (d : list Z) : Prop := Z.of_nat (length d) = dsz /\ bytes_ok d.

Definition in_desc (off : Z) : Prop := 0 <= off /\ off + 2 <= dsz.

Lemma f16_range d off : d_ok d -> in_desc off -> is_u16 (f16 d off).
Proof using.
  intros [Hl Hb] [H0 H1]. unfold f16. pose proof (le_decode_range (part d (Z.to_nat off) 2) (bytes_ok_part _ _ _ Hb)) as Hr.
  rewrite length_part in Hr by lia. exact Hr.
Qed.

Lemma f16_set_ok d off x : d_ok d -> in_desc off -> d_ok (f16_set d off x).
Proof using.
  intros [Hl Hb] [H0 H1]. split.
  - unfold f16_set. rewrite length_splice by (rewrite length_le_encode; lia). done.
  - apply bytes_ok_splice; [done|apply le_encode_bytes].
Qed.

Lemma f16_same d off x : d_ok d -> in_desc off -> f16 (f16_set d off x) off = u16 x.
Proof using.
  intros [Hl Hb] [H0 H1]. unfold f16, f16_set. pose proof (part_splice_same d (Z.to_nat off) (le_encode 2 x)) as Hp.
  rewrite length_le_encode in Hp. rewrite Hp by lia. rewrite le_decode_encode. done.
Qed.

Lemma f16_other d off off' x : d_ok d -> in_desc off -> 0 <= off' -> off' + 2 <= off \/ off + 2 <= off' -> f16 (f16_set d off x) off' = f16 d off'.
Proof using.
  intros [Hl Hb] [H0 H1] H0' Hd. unfold f16, f16_set. rewrite part_splice_out; [done|rewrite length_le_encode; lia..].
Qed.

(** A count in two halves. *)
Definition c32 (d : list Z) (lo hi : Z) : Z := if feature_64bit sb then Z.lor (f16 d lo) (u32 (Z.shiftl (f16 d hi) 16)) else f16 d lo.
Definition c32_set (d : list Z) (lo hi n : Z) : list Z :=
  let d := f16_set d lo n in if feature_64bit sb then f16_set d hi (Z.shiftr (u32 n) 16) else d.

(** The largest count that fits. *)
Definition count_limit : Z := if feature_64bit sb then 2 ^ 32 else 2 ^ 16.

(** Two places of a count. *)
Definition places (lo hi : Z) : Prop := in_desc lo /\ lo + 2 <= hi /\ (feature_64bit sb = true -> in_desc hi).

Lemma c32_set_ok d lo hi n : d_ok d -> places lo hi -> d_ok (c32_set d lo hi n).
Proof using.
  intros Hd (Hl & _ & Hh). unfold c32_set. destruct (feature_64bit sb); [|by apply f16_set_ok].
  apply f16_set_ok; [by apply f16_set_ok|auto].
Qed.

Lemma c32_same d lo hi n : d_ok d -> places lo hi -> c32 (c32_set d lo hi n) lo hi = n mod count_limit.
Proof using.
  intros Hd (Hl & Hlh & Hh). unfold c32, c32_set, count_limit. destruct (feature_64bit sb); [|by apply f16_same].
  specialize (Hh eq_refl). rewrite f16_other; [|by apply f16_set_ok|done|apply Hl|left; lia]. rewrite !f16_same by (auto using f16_set_ok).
  pose proof (u32_range n) as Hr. rewrite (u16_small (Z.shiftr (u32 n) 16)), Z.shiftr_div_pow2, Z.shiftl_mul_pow2 by
    (lia || (rewrite ?Z.shiftr_div_pow2 by lia; unfold is_u16, is_u32 in *; div_lia)).
  rewrite u32_small by (unfold is_u32 in *; div_lia).
  rewrite Z.lor_comm. rewrite lor_high_low by (lia || (unfold u16; apply Z.mod_pos_bound; lia)).
  unfold u16, u32. change (2 ^ 32) with (2 ^ 16 * 2 ^ 16). rewrite Z.rem_mul_r by lia.
  rewrite (Z.mul_comm (2 ^ 16) ((n / 2 ^ 16) mod 2 ^ 16)), Z.div_add, (Z.div_small (n mod 2 ^ 16)) by (try lia; apply Z.mod_pos_bound; lia). lia.
Qed.

Lemma c32_other d lo hi n lo' hi' : d_ok d -> places lo hi -> 0 <= lo' -> lo' + 2 <= lo \/ lo + 2 <= lo' -> lo' + 2 <= hi \/ hi + 2 <= lo' ->
  0 <= hi' -> hi' + 2 <= lo \/ lo + 2 <= hi' -> hi' + 2 <= hi \/ hi + 2 <= hi' -> c32 (c32_set d lo hi n) lo' hi' = c32 d lo' hi'.
Proof using.
  intros Hd (Hl & _ & Hh) **. unfold c32, c32_set. destruct (feature_64bit sb); [specialize (Hh eq_refl)|by apply f16_other].
  rewrite !f16_other by (auto using f16_set_ok). done.
Qed.

Lemma c32_f16 d lo hi n off : d_ok d -> places lo hi -> 0 <= off -> off + 2 <= lo \/ lo + 2 <= off -> off + 2 <= hi \/ hi + 2 <= off ->
  f16 (c32_set d lo hi n) off = f16 d off.
Proof using.
  intros Hd (Hl & _ & Hh) **. unfold c32_set. destruct (feature_64bit sb); [specialize (Hh eq_refl)|by apply f16_other].
  rewrite !f16_other by (auto using f16_set_ok). done.
Qed.

Lemma f16_c32 d off x lo hi : d_ok d -> in_desc off -> 0 <= lo -> lo + 2 <= off \/ off + 2 <= lo -> 0 <= hi -> hi + 2 <= off \/ off + 2 <= hi ->
  c32 (f16_set d off x) lo hi = c32 d lo hi.
Proof using. intros. unfold c32. rewrite !f16_other by done. done. Qed.

(** * All descriptors *)

Lemma desc_size_whole : Z.land dsz (Z.lnot 7) = dsz.
Proof using G.
  pose proof (dg_mod G). rewrite <- Z.ldiff_land. change 7 with (Z.ones 3). rewrite Z.ldiff_ones_r by lia.
  rewrite Z.shiftr_div_pow2, Z.shiftl_mul_pow2 by lia. change (2 ^ 3) with 8. pose proof (Z.div_mod dsz 8). lia.
Qed.

Definition a_group (g : Z) : Prop := 0 <= g < groups sb.

Lemma group_place g h : a_group g -> a_group h -> h <> g -> (h + 1) * dsz <= g * dsz \/ (g + 1) * dsz <= h * dsz.
Proof using G. pose proof (dg_size G). unfold a_group. intros. destruct (Z.lt_ge_cases h g); [left|right]; nia. Qed.

Lemma group_desc_at g : a_group g -> ext2fs_group_desc sb g = Done (g * dsz) /\ 0 <= g * dsz /\ (g + 1) * dsz <= groups sb * dsz.
Proof using G.
  intros Hg. pose proof (dg_all G). pose proof (dg_size G). unfold a_group in Hg. unfold ext2fs_group_desc. rewrite desc_size_whole.
  destruct (Z.ltb_spec (groups sb) g); [lia|]. assert (0 <= g * dsz /\ (g + 1) * dsz <= groups sb * dsz) by nia.
  rewrite u32_small by (unfold is_u32; nia). done.
Qed.

Section vol.
Context {P : Type}.
Implicit Types v : vol P.

Definition desc v (g : Z) : list Z := part (group_desc v) (Z.to_nat (g * dsz)) (Z.to_nat dsz).

Definition desc_ok v : Prop := Z.of_nat (length (group_desc v)) = groups sb * dsz /\ bytes_ok (group_desc v).

(** Only the descriptor of [g] changes, to [d]. *)
Record change v (g : Z) (d : list Z) v' : Prop := {
  ch_ok : desc_ok v';
  ch_same : desc v' g = d;
  ch_other : forall h, a_group h -> h <> g -> desc v' h = desc v h;
  ch_rest : v' = set_desc v (group_desc v') }.

Lemma change_trans v g d v1 d1 v2 : change v g d v1 -> change v1 g d1 v2 -> change v g d1 v2.
Proof using.
  intros [A1 B1 C1 D1] [A2 B2 C2 D2]. constructor; [done|done| |].
  - intros h Hh Hn. rewrite C2, C1 by done. done.
  - rewrite D2, D1. done.
Qed.

Lemma desc_d_ok v g : desc_ok v -> a_group g -> d_ok (desc v g).
Proof using G.
  intros [Hl Hb] Hg. destruct (group_desc_at g Hg) as (_ & H1 & H2). pose proof (dg_size G).
  split; [unfold desc; rewrite length_part by lia; lia|]. by apply bytes_ok_part.
Qed.

Lemma field16_eq v g off : desc_ok v -> a_group g -> in_desc off -> field16 sb v g off = Done (f16 (desc v g) off).
Proof using G.
  intros [Hl Hb] Hg [Ho1 Ho2]. destruct (group_desc_at g Hg) as (E & H1 & H2). pose proof (dg_size G).
  unfold field16, get16. rewrite E. cbn [obind]. rewrite load_part by lia. cbn [obind]. unfold f16, desc. rewrite part_part by lia.
  do 3 f_equal. lia.
Qed.

Lemma field16_set_eq v g off x : desc_ok v -> a_group g -> in_desc off ->
  exists v', field16_set sb v g off x = Done v' /\ change v g (f16_set (desc v g) off x) v'.
Proof using G.
  intros [Hl Hb] Hg [Ho1 Ho2]. destruct (group_desc_at g Hg) as (E & H1 & H2). pose proof (dg_size G).
  unfold field16_set, put16. rewrite E. cbn [obind]. rewrite store_splice by (rewrite ?length_le_encode; lia). cbn [obind].
  eexists. split; [done|]. constructor; cbn [group_desc set_desc]; [split| | |done].
  - cbn [group_desc set_desc]. rewrite length_splice by (rewrite length_le_encode; lia). done.
  - apply bytes_ok_splice; [done|apply le_encode_bytes].
  - unfold desc, f16_set. cbn [group_desc set_desc]. rewrite part_splice_in by (rewrite ?length_le_encode; lia). f_equal. lia.
  - intros h Hh Hn. destruct (group_desc_at h Hh) as (_ & H3 & H4). pose proof (group_place g h Hg Hh Hn).
    unfold desc. cbn [group_desc set_desc]. apply part_splice_out; rewrite length_le_encode; lia.
Qed.

Lemma bg_count_eq v g lo hi : desc_ok v -> a_group g -> places lo hi -> bg_count sb v g lo hi = Done (c32 (desc v g) lo hi).
Proof using G.
  intros Hv Hg (Hl & _ & Hh). unfold bg_count, c32. rewrite field16_eq by done. cbn [obind].
  destruct (feature_64bit sb); [|done]. rewrite field16_eq by auto. done.
Qed.

Lemma bg_count_set_eq v g lo hi n : desc_ok v -> a_group g -> places lo hi ->
  exists v', bg_count_set sb v g lo hi n = Done v' /\ change v g (c32_set (desc v g) lo hi n) v'.
Proof using G.
  intros Hv Hg (Hl & _ & Hh). unfold bg_count_set, c32_set. destruct (field16_set_eq v g lo n Hv Hg Hl) as (v1 & -> & C1). cbn [obind].
  destruct (feature_64bit sb); [|eauto]. destruct (field16_set_eq v1 g hi (Z.shiftr (u32 n) 16) (ch_ok _ _ _ _ C1) Hg (Hh eq_refl)) as (v2 & E2 & C2).
  exists v2. split; [done|]. rewrite (ch_same _ _ _ _ C1) in C2. by apply (change_trans _ _ _ v1 _ _ C1).
Qed.

Lemma flags_in_desc : in_desc bg_flags.
Proof using G. pose proof (dg_size G). unfold in_desc, bg_flags. lia. Qed.

Lemma csum_in_desc : in_desc bg_checksum.
Proof using G. pose proof (dg_size G). unfold in_desc, bg_checksum. lia. Qed.

Lemma flags_clear_eq v g f : desc_ok v -> a_group g ->
  exists v', ext2fs_bg_flags_clear sb v g f = Done v' /\
    change v g (f16_set (desc v g) bg_flags (Z.land (f16 (desc v g) bg_flags) (Z.lnot f))) v'.
Proof using G.
  intros Hv Hg. unfold ext2fs_bg_flags_clear. rewrite field16_eq by (done || apply flags_in_desc). cbn [obind].
  apply field16_set_eq; [done|done|apply flags_in_desc].
Qed.

(** ** Checksums *)

Definition csum_of (g : Z) (d : list Z) : Z :=
  if metadata_csum sb then
    Z.land (Crc32c.ext2fs_crc32c_le 0 (Crc32c.ext2fs_crc32c_le 0 (csum_seed sb) (le_encode 4 g)) (splice d (Z.to_nat bg_checksum) [0; 0])) 0xFFFF
  else
    let crc := Crc16.ext2fs_crc16 (Crc16.ext2fs_crc16 (Crc16.ext2fs_crc16 0xFFFFFFFF (s_uuid sb)) (le_encode 4 g)) (take (Z.to_nat bg_checksum) d) in
    if bg_checksum + 2 <? dsz then Crc16.ext2fs_crc16 crc (drop (Z.to_nat (bg_checksum + 2)) d) else crc.

Lemma csum_eq v g : desc_ok v -> a_group g -> ext2fs_group_desc_csum sb v g = Done (csum_of g (desc v g)).
Proof using G.
  intros [Hl Hb] Hg. destruct (group_desc_at g Hg) as (E & H1 & H2). pose proof (dg_size G). unfold ext2fs_group_desc_csum, csum_of. rewrite E. cbn [obind].
  rewrite load_part by lia. cbn [obind]. destruct (metadata_csum sb); done.
Qed.

Lemma csum_of_own g d x : d_ok d -> csum_of g (f16_set d bg_checksum x) = csum_of g d.
Proof using G.
  intros [Hl Hb]. pose proof (dg_size G). unfold csum_of, f16_set. destruct (metadata_csum sb).
  - do 2 f_equal. apply list_eq. intros j. unfold bg_checksum.
    assert (length (splice d (Z.to_nat 30) (le_encode 2 x)) = length d) as El by (apply length_splice; rewrite length_le_encode; lia).
    rewrite !lookup_splice by (rewrite ?El, ?length_le_encode; cbn; lia). rewrite length_le_encode. cbn [length].
    destruct (decide (Z.to_nat 30 <= j < Z.to_nat 30 + 2)%nat); done.
  - assert (take (Z.to_nat bg_checksum) (splice d (Z.to_nat bg_checksum) (le_encode 2 x)) = take (Z.to_nat bg_checksum) d) as ->.
    { unfold splice. rewrite take_app_le, take_take by (rewrite length_take; unfold bg_checksum; lia). f_equal; lia. }
    assert (drop (Z.to_nat (bg_checksum + 2)) (splice d (Z.to_nat bg_checksum) (le_encode 2 x)) = drop (Z.to_nat (bg_checksum + 2)) d) as ->; [|done].
    unfold bg_checksum. unfold splice. rewrite app_assoc, drop_app_ge by (rewrite length_app, length_take, length_le_encode; lia).
    rewrite length_app, length_take, length_le_encode, drop_drop. f_equal; lia.
Qed.

Lemma crc16_range c l : is_u16 c \/ l <> [] -> is_u16 (Crc16.ext2fs_crc16 c l).
Proof using.
  destruct l as [|x l] using rev_ind; [by intros [|]|]. intros _. unfold Crc16.ext2fs_crc16. rewrite fold_left_app. cbn [fold_left].
  change 0x0000ffff with (Z.ones 16). rewrite Z.land_ones by lia. apply Z.mod_pos_bound. lia.
Qed.

Lemma csum_of_range g d : is_u16 (csum_of g d).
Proof using.
  unfold csum_of. destruct (metadata_csum sb).
  - change 0xFFFF with (Z.ones 16). rewrite Z.land_ones by lia. apply Z.mod_pos_bound. lia.
  - destruct (_ <? _); repeat first [apply crc16_range; right; done|apply crc16_range; left].
Qed.

(** The field holds the checksum, if there are checksums. *)
Definition sealed (g : Z) (d : list Z) : Prop := ext2fs_has_group_desc_csum sb = true -> f16 d bg_checksum = csum_of g d.

Lemma verify_eq v g : desc_ok v -> a_group g -> sealed g (desc v g) -> ext2fs_group_desc_csum_verify sb v g = Done 1.
Proof using G.
  intros Hv Hg Hs. unfold ext2fs_group_desc_csum_verify, sealed in *. destruct (ext2fs_has_group_desc_csum sb); [|done].
  unfold ext2fs_bg_checksum. rewrite field16_eq by (done || apply csum_in_desc). cbn [obind]. rewrite csum_eq by done. cbn [obind].
  rewrite Hs by done. rewrite Z.eqb_refl. done.
Qed.

(** The descriptor with its checksum. *)
Definition seal (g : Z) (d : list Z) : list Z := if ext2fs_has_group_desc_csum sb then f16_set d bg_checksum (csum_of g d) else d.

Lemma csum_set_eq v g : desc_ok v -> a_group g ->
  exists v', ext2fs_group_desc_csum_set sb v g = Done v' /\ change v g (seal g (desc v g)) v'.
Proof using G.
  intros Hv Hg. unfold ext2fs_group_desc_csum_set, seal. destruct (ext2fs_has_group_desc_csum sb); cbn [negb].
  - rewrite csum_eq by done. cbn [obind]. apply field16_set_eq; [done|done|apply csum_in_desc].
  - exists v. split; [done|]. constructor; try done. by destruct v.
Qed.

Lemma seal_ok g d : d_ok d -> d_ok (seal g d).
Proof using G. intros Hd. unfold seal. destruct (ext2fs_has_group_desc_csum sb); [|done]. apply f16_set_ok; [done|apply csum_in_desc]. Qed.

Lemma seal_sealed g d : d_ok d -> sealed g (seal g d).
Proof using G.
  intros Hd Hc. unfold seal. rewrite Hc. rewrite f16_same by (done || apply csum_in_desc). rewrite csum_of_own by done.
  apply u16_small, csum_of_range.
Qed.

Lemma seal_f16 g d off : d_ok d -> 0 <= off -> off + 2 <= bg_checksum \/ bg_checksum + 2 <= off -> f16 (seal g d) off = f16 d off.
Proof using G. intros Hd H0 Ho. unfold seal. destruct (ext2fs_has_group_desc_csum sb); [|done]. apply f16_other; [done|apply csum_in_desc|done..]. Qed.

Lemma seal_c32 g d lo hi : d_ok d -> 0 <= lo -> lo + 2 <= bg_checksum \/ bg_checksum + 2 <= lo -> 0 <= hi -> hi + 2 <= bg_checksum \/ bg_checksum + 2 <= hi ->
  c32 (seal g d) lo hi = c32 d lo hi.
Proof using G. intros. unfold c32. rewrite !seal_f16 by done. done. Qed.
End vol.
End descriptors.
