(* ===== verification/Alloc.v ===== *)
(** lib/ext2fs/alloc.c: finding and taking free inodes and blocks. *)

From S2P Require Import Prelude Bitops Bitmap32 Bitmap64 GenBitmap Group.

Local Open Scope Z_scope.

Definition EXT2_ET_NO_BLOCK_BITMAP : Z := 2133571368.
Definition EXT2_ET_INVALID_ARGUMENT : Z := 2133571399.
Definition EXT2_ET_BLOCK_ALLOC_FAIL : Z := 2133571400.
Definition EXT2_ET_INODE_ALLOC_FAIL : Z := 2133571401.
Definition EXT2_GOOD_OLD_REV : Z := 0.
Definition EXT2_GOOD_OLD_FIRST_INO : Z := 11.
Definition EXT2_NEWRANGE_FIXED_GOAL : Z := 1.
Definition EXT2_NEWRANGE_MIN_LENGTH : Z := 2.
Definition EXT2_NEWRANGE_ALL_FLAGS : Z := 3.
Definition EXT2_ALLOCRANGE_FIXED_GOAL : Z := 1.
Definition EXT2_ALLOCRANGE_ZERO_BLOCKS : Z := 2.
Definition EXT2_ALLOCRANGE_ALL_FLAGS : Z := 3.

Definition flag_set (flags f : Z) : bool := negb (Z.land flags f =? 0).

Section alloc.
Context (sb : super) {P : Type} `{BitmapOps P}.
Local Notation vol := (vol P).
Local Notation gmap := (generic_bitmap P).

(** The functions of other components that are called: what [fs->get_alloc_block2] or
    [fs->get_alloc_block] and [fs->new_range] do, if they are set; the result of writing
    zeros to blocks; and reading the block bitmap. *)
Context (get_alloc_block : option (vol -> Z -> outcome (Z * Z * vol))).
Context (new_range_hook : option (vol -> Z -> Z -> Z -> outcome (Z * Z * Z * vol))).
Context (zero_blocks : Z -> Z -> Z).
Context (read_block_bitmap : vol -> outcome (Z * vol)).
Context (stats_hook range_hook : bool).

Definition EXT2_FIRST_INODE : Z :=
  if s_rev_level sb =? EXT2_GOOD_OLD_REV then EXT2_GOOD_OLD_FIRST_INO else s_first_ino sb.

Definition bad_fs_magic : bool := negb (fs_magic (geo sb) =? EXT2_ET_MAGIC_EXT2FS_FILSYS).

Definition ext2fs_clear_block_uninit (v : vol) (group : Z) : outcome vol :=
  if (groups sb <=? group) || negb (ext2fs_has_group_desc_csum sb) then Done v
  else
    let* f := ext2fs_bg_flags_test sb v group EXT2_BG_BLOCK_UNINIT in
    if f =? 0 then Done v
    else
      let* v := ext2fs_bg_flags_clear sb v group EXT2_BG_BLOCK_UNINIT in
      let* v := ext2fs_group_desc_csum_set sb v group in
      Done (ext2fs_mark_bb_dirty (ext2fs_mark_super_dirty v)).

(** * Inodes *)

(** A bitmap that the caller passed, or the one of the file system. *)
Definition get_map (map : option gmap) (own : gmap) : gmap := match map with Some g => g | None => own end.

Fixpoint unmark_inodes (n : nat) (g : gmap) (al : allocator) (ino : Z) : outcome (gmap * allocator) :=
  match n with
  | O => Done (g, al)
  | S n => let* (_, (g, al)) := ext2fs_unmark_generic_bmap (g, al) ino in unmark_inodes n g al (u32 (ino + 1))
  end.

Definition check_inode_uninit (g : gmap) (v : vol) (group : Z) : outcome (gmap * vol) :=
  if (groups sb <=? group) || negb (ext2fs_has_group_desc_csum sb) then Done (g, v)
  else
    let* f := ext2fs_bg_flags_test sb v group EXT2_BG_INODE_UNINIT in
    if f =? 0 then Done (g, v)
    else
      let ino := u32 (group * ipg sb + 1) in
      let* (g, al) := unmark_inodes (Z.to_nat (ipg sb)) g (mem v) ino in
      let v := set_mem v al in
      let* v := ext2fs_bg_flags_clear sb v group EXT2_BG_INODE_UNINIT in
      let* v := ext2fs_bg_flags_clear sb v group EXT2_BG_BLOCK_UNINIT in
      let* v := ext2fs_group_desc_csum_set sb v group in
      Done (g, ext2fs_mark_super_dirty (ext2fs_mark_ib_dirty v)).

(** The loop: an error, or the inode it ended with. *)
Fixpoint new_inode_loop (fuel : nat) (g : gmap) (v : vol) (start_inode i : Z) : outcome ((Z + Z) * gmap * vol) :=
  match fuel with
  | O => Crash OutOfFuel
  | S fuel =>
      let ino_in_group := (i - 1) mod ipg sb in
      let group := (i - 1) / ipg sb in
      let* (g, v) := check_inode_uninit g v group in
      let upto := u32 (i + (ipg sb - ino_in_group)) in
      let upto := if (i <? start_inode) && (start_inode <=? upto) then start_inode - 1 else upto in
      let upto := if inodes_count sb <? upto then inodes_count sb else upto in
      let* (retval, first_zero) := ext2fs_find_first_zero_generic_bmap g i upto in
      match first_zero with
      | Some z => Done (inr z, g, v)
      | None =>
          if negb (retval =? ENOENT) then Done (inl EXT2_ET_INODE_ALLOC_FAIL, g, v)
          else
            let i := u32 (upto + 1) in
            let i := if inodes_count sb <? i then EXT2_FIRST_INODE else i in
            if i =? start_inode then Done (inr i, g, v) else new_inode_loop fuel g v start_inode i
      end
  end.

(** The result, [*ret], the caller's bitmap and the file system. *)
Definition ext2fs_new_inode (v : vol) (dir : Z) (map : option gmap) : outcome (Z * option Z * option gmap * vol) :=
  if bad_fs_magic then Done (EXT2_ET_MAGIC_EXT2FS_FILSYS, None, map, v)
  else
    match get_map map (inode_map v) with
    | GenNull => Done (EXT2_ET_NO_INODE_BITMAP, None, map, v)
    | g =>
        let start_inode := if 0 <? dir then u32 ((dir - 1) / ipg sb * ipg sb + 1) else 0 in
        let start_inode := if start_inode <? EXT2_FIRST_INODE then EXT2_FIRST_INODE else start_inode in
        if inodes_count sb <? start_inode then Done (EXT2_ET_INODE_ALLOC_FAIL, None, map, v)
        else
          let* (r, g, v) := new_inode_loop (Z.to_nat (groups sb) + 3) g v start_inode start_inode in
          let* (ret, g) := match r with
                           | inl e => Done (inl e, g)
                           | inr i =>
                               let* (t, g) := ext2fs_test_generic_bmap g i in
                               Done (if negb (t =? 0) then inl EXT2_ET_INODE_ALLOC_FAIL else inr i, g)
                           end in
          let '(map, v) := match map with Some _ => (Some g, v) | None => (None, set_inode_map v g (mem v)) end in
          match ret with inl e => Done (e, None, map, v) | inr i => Done (0, Some i, map, v) end
    end.

(** * Blocks *)

(** The end of [ext2fs_new_block3]. *)
Definition new_block_end (retval : Z) (b : option Z) (v : vol) : outcome (Z * option Z * vol) :=
  if retval =? ENOENT then Done (EXT2_ET_BLOCK_ALLOC_FAIL, None, v)
  else if negb (retval =? 0) then Done (retval, None, v)
  else
    let* v := ext2fs_clear_block_uninit v (ext2fs_group_of_blk2 sb (default 0 b)) in
    Done (0, Some (default 0 b), v).

Definition ext2fs_new_block3 (v : vol) (goal : Z) (map : option gmap) : outcome (Z * option Z * vol) :=
  if bad_fs_magic then Done (EXT2_ET_MAGIC_EXT2FS_FILSYS, None, v)
  else
    match map, get_alloc_block with
    | None, Some gab => let* (retval, b, v) := gab v goal in new_block_end retval (Some b) v
    | _, _ =>
        match get_map map (block_map v) with
        | GenNull => Done (EXT2_ET_NO_BLOCK_BITMAP, None, v)
        | g =>
            let goal := if (goal =? 0) || (blocks_count sb <=? goal) then first_data_block sb else goal in
            let goal := Z.land goal (Z.lnot (cluster_ratio sb - 1)) in
            let* (retval, b) := ext2fs_find_first_zero_generic_bmap g goal (u64 (blocks_count sb - 1)) in
            let* (retval, b) := if (retval =? ENOENT) && negb (goal =? first_data_block sb)
                                then ext2fs_find_first_zero_generic_bmap g (first_data_block sb) (u64 (goal - 1))
                                else Done (retval, b) in
            new_block_end retval b v
        end
    end.

Definition ext2fs_alloc_block3 (v : vol) (goal : Z) : outcome (Z * option Z * vol) :=
  let* (retval, block, v) :=
    match get_alloc_block with
    | Some gab => let* (retval, b, v) := gab v goal in Done (retval, Some b, v)
    | None =>
        let* (retval, v) := match block_map v with GenNull => read_block_bitmap v | _ => Done (0, v) end in
        if negb (retval =? 0) then Done (retval, None, v) else ext2fs_new_block3 v goal None
    end in
  match block with
  | Some b =>
      if negb (retval =? 0) then Done (retval, None, v)
      else
        let retval := zero_blocks b 1 in
        if negb (retval =? 0) then Done (retval, None, v)
        else let* v := ext2fs_block_alloc_stats2 sb stats_hook v b 1 in Done (0, Some b, v)
  | None => Done (retval, None, v)
  end.

(** The loop of [ext2fs_get_free_blocks2]. *)
Fixpoint free_blocks_loop (fuel : nat) (g : gmap) (start finish num c_ratio b : Z) : outcome (Z * option Z * gmap) :=
  match fuel with
  | O => Crash OutOfFuel
  | S fuel =>
      let beyond := blocks_count sb <=? u64 (b + num - 1) in
      if beyond && (start <? finish) then Done (EXT2_ET_BLOCK_ALLOC_FAIL, None, g)
      else
        let b := if beyond then first_data_block sb else b in
        let* (r, g) := ext2fs_test_block_bitmap_range2 g b num in
        if negb (r =? 0) then Done (0, Some b, g)
        else
          let b := u64 (b + c_ratio) in
          if b =? finish then Done (EXT2_ET_BLOCK_ALLOC_FAIL, None, g) else free_blocks_loop fuel g start finish num c_ratio b
  end.

(** [fuel] bounds the number of turns of the loop, which may be infinite. *)
Definition ext2fs_get_free_blocks2 (fuel : nat) (v : vol) (start finish num : Z) (map : option gmap)
  : outcome (Z * option Z * option gmap * vol) :=
  if bad_fs_magic then Done (EXT2_ET_MAGIC_EXT2FS_FILSYS, None, map, v)
  else
    match get_map map (block_map v) with
    | GenNull => Done (EXT2_ET_NO_BLOCK_BITMAP, None, map, v)
    | g =>
        let b := if start =? 0 then first_data_block sb else start in
        let finish := if finish =? 0 then start else finish in
        let num := if num =? 0 then 1 else num in
        let* gran := ext2fs_get_bitmap_granularity g in
        let c_ratio := Z.shiftl 1 gran in
        let b := Z.land b (Z.lnot (c_ratio - 1)) in
        let finish := Z.land finish (Z.lnot (c_ratio - 1)) in
        let* (r, ret, g) := free_blocks_loop fuel g start finish num c_ratio b in
        let '(map, v) := match map with Some _ => (Some g, v) | None => (None, set_block_map v g (mem v)) end in
        Done (r, ret, map, v)
    end.

(** * Ranges of blocks *)

(** The loop that clears the flags of the groups, from [b] to [end_]. *)
Fixpoint clear_uninit_range (fuel : nat) (v : vol) (b en : Z) : outcome vol :=
  match fuel with
  | O => Crash OutOfFuel
  | S fuel =>
      if b <? en then
        let* v := ext2fs_clear_block_uninit v (ext2fs_group_of_blk2 sb b) in clear_uninit_range fuel v (u64 (b + bpg sb)) en
      else Done v
  end.

Definition range_found (v : vol) (start en : Z) : outcome (Z * option (Z * Z) * vol) :=
  let* v := clear_uninit_range (Z.to_nat (groups sb) + 2) v start en in Done (0, Some (start, en - start), v).

Fixpoint new_range_loop (fuel : nat) (g : gmap) (v : vol) (flags goal len : Z) (looped : bool) (start : Z)
  : outcome (Z * option (Z * Z) * vol) :=
  match fuel with
  | O => Crash OutOfFuel
  | S fuel =>
      if negb (negb looped || (start <=? goal)) then Done (EXT2_ET_BLOCK_ALLOC_FAIL, None, v)
      else
        let* (retval, z) := ext2fs_find_first_zero_generic_bmap g start (u64 (blocks_count sb - 1)) in
        if retval =? ENOENT then
          if flag_set flags EXT2_NEWRANGE_FIXED_GOAL || (start =? first_data_block sb)
          then Done (EXT2_ET_BLOCK_ALLOC_FAIL, None, v)
          else new_range_loop fuel g v flags goal len looped (first_data_block sb)
        else if negb (retval =? 0) then Done (retval, None, v)
        else
          let start := default start z in
          if flag_set flags EXT2_NEWRANGE_FIXED_GOAL && negb (start =? goal) then Done (EXT2_ET_BLOCK_ALLOC_FAIL, None, v)
          else
            let b := Z.min (u64 (start + len - 1)) (u64 (blocks_count sb - 1)) in
            let* (retval, z) := ext2fs_find_first_set_generic_bmap g start b in
            if negb (retval =? ENOENT) && negb (retval =? 0) then Done (retval, None, v)
            else
              let en := if retval =? ENOENT then u64 (b + 1) else default 0 z in
              if negb (flag_set flags EXT2_NEWRANGE_MIN_LENGTH) || (len <=? u64 (en - start)) then range_found v start en
              else if flag_set flags EXT2_NEWRANGE_FIXED_GOAL then Done (EXT2_ET_BLOCK_ALLOC_FAIL, None, v)
              else if blocks_count sb <=? en then
                if looped then Done (EXT2_ET_BLOCK_ALLOC_FAIL, None, v)
                else new_range_loop fuel g v flags goal len true (first_data_block sb)
              else new_range_loop fuel g v flags goal len looped en
  end.

(** The result, [*pblk] and [*plen], and the file system; [fuel] as above. *)
Definition ext2fs_new_range (fuel : nat) (v : vol) (flags goal len : Z) (map : option gmap)
  : outcome (Z * option (Z * Z) * vol) :=
  if bad_fs_magic then Done (EXT2_ET_MAGIC_EXT2FS_FILSYS, None, v)
  else if (len =? 0) || flag_set flags (Z.lnot EXT2_NEWRANGE_ALL_FLAGS) then Done (EXT2_ET_INVALID_ARGUMENT, None, v)
  else
    match map, new_range_hook with
    | None, Some nrf =>
        let* (retval, pblk, plen, v) := nrf v flags goal len in
        if negb (retval =? 0) then Done (retval, None, v) else range_found v pblk (pblk + plen)
    | _, _ =>
        match get_map map (block_map v) with
        | GenNull => Done (EXT2_ET_NO_BLOCK_BITMAP, None, v)
        | g =>
            let goal := if (goal =? 0) || (blocks_count sb <=? goal) then first_data_block sb else goal in
            new_range_loop fuel g v flags goal len false goal
        end
    end.

Definition ext2fs_alloc_range (fuel : nat) (v : vol) (flags goal len : Z) : outcome (Z * option Z * vol) :=
  if bad_fs_magic then Done (EXT2_ET_MAGIC_EXT2FS_FILSYS, None, v)
  else if (len =? 0) || flag_set flags (Z.lnot EXT2_ALLOCRANGE_ALL_FLAGS) then Done (EXT2_ET_INVALID_ARGUMENT, None, v)
  else
    let newr_flags := if flag_set flags EXT2_ALLOCRANGE_FIXED_GOAL
                      then Z.lor EXT2_NEWRANGE_MIN_LENGTH EXT2_NEWRANGE_FIXED_GOAL else EXT2_NEWRANGE_MIN_LENGTH in
    let* (retval, r, v) := ext2fs_new_range fuel v newr_flags goal len None in
    match r with
    | None => Done (retval, None, v)
    | Some (pblk, plen) =>
        if plen <? len then Done (EXT2_ET_BLOCK_ALLOC_FAIL, Some pblk, v)
        else
          let retval := if flag_set flags EXT2_ALLOCRANGE_ZERO_BLOCKS then zero_blocks pblk len else 0 in
          if negb (retval =? 0) then Done (retval, Some pblk, v)
          else let* v := ext2fs_block_alloc_stats_range sb range_hook v pblk len 1 in Done (0, Some pblk, v)
    end.
End alloc.
