(* ===== verification/AllocSpec.v ===== *)
(** The counts of free inodes and blocks in the descriptors and in the super block
    are those of the bitmaps, and the checksums are right: alloc_stats.c keeps this
    when inodes and blocks are taken and given back. *)

From S2P Require Import Prelude Crc Bitops BlockIo Bitmap32 Bitmap64 GenBitmap BitmapRefine BitmapProperties Group GroupSpec Alloc.

Local Open Scope Z_scope.

(** * Counting *)

Lemma count_bits_flip f f' s n i : s <= i < s + Z.of_nat n -> (forall j, j <> i -> f' j = f j) -> f i = false -> f' i = true ->
  count_bits f' s n = count_bits f s n + 1.
Proof.
  revert s. induction n as [|n IH]; intros s Hi Ho Hf Hf'; [lia|]. cbn [count_bits]. destruct (decide (s = i)) as [->|Hn].
  - rewrite Hf, Hf'. rewrite (count_bits_ext f' f (i + 1) (i + 1)) by (intros j Hj; apply Ho; lia). lia.
  - rewrite (IH (s + 1)) by (done || lia). rewrite Ho by done. lia.
Qed.

Lemma count_in_flip f f' c en i : c <= i <= en -> (forall j, j <> i -> f' j = f j) -> f i = false -> f' i = true -> count_in f' c en = count_in f c en + 1.
Proof. intros. unfold count_in. apply (count_bits_flip f f' _ _ i); [lia|done..]. Qed.

Lemma count_in_ext f f' c en : (forall j, c <= j <= en -> f' j = f j) -> count_in f' c en = count_in f c en.
Proof. intros He. unfold count_in. apply count_bits_ext. intros i Hi. apply He. lia. Qed.

(** The numbers that are free. *)
Definition free (f : Z -> bool) (c en : Z) : Z := count_in (fun j => negb (f j)) c en.

Definition upd (f : Z -> bool) (i : Z) (x : bool) : Z -> bool := fun j => if j =? i then x else f j.

(** One more or one less, if the number is among them. *)
Lemma free_upd f i x c en : f i = negb x -> free (upd f i x) c en = free f c en - (if (c <=? i) && (i <=? en) then if x then 1 else -1 else 0).
Proof.
  intros Hf. unfold free, upd. destruct (Z.leb_spec c i); [destruct (Z.leb_spec i en)|]; cbn [andb].
  - assert (Ho : forall j, j <> i -> (if j =? i then x else f j) = f j) by (intros j Hj; destruct (Z.eqb_spec j i); [lia|done]).
    destruct x; cbn in Hf.
    + pose proof (count_in_flip (fun j => negb (if j =? i then true else f j)) (fun j => negb (f j)) c en i ltac:(lia)) as Hc.
      rewrite Hc; [lia|intros j Hj; by rewrite Ho|by rewrite Z.eqb_refl|by rewrite Hf].
    + rewrite (count_in_flip (fun j => negb (f j)) (fun j => negb (if j =? i then false else f j)) c en i);
        [lia|lia|intros j Hj; by rewrite Ho|by rewrite Hf|by rewrite Z.eqb_refl].
  - rewrite (count_in_ext (fun j => negb (f j))); [lia|]. intros j Hj. destruct (Z.eqb_spec j i); [lia|done].
  - rewrite (count_in_ext (fun j => negb (f j))); [lia|]. intros j Hj. destruct (Z.eqb_spec j i); [lia|done].
Qed.

Lemma free_range f c en : c <= en + 1 -> 0 <= free f c en <= en - c + 1.
Proof. apply count_in_range. Qed.

(** A range of numbers that are all taken, or all given back. *)
Definition updr (f : Z -> bool) (c n : Z) (x : bool) : Z -> bool := fun j => if in_range j c n then x else f j.

Lemma updr_spec f c n x j : updr f c n x j = if decide (c <= j < c + n) then x else f j.
Proof. unfold updr, in_range. destruct (Z.leb_spec c j), (Z.ltb_spec j (c + n)), (decide (c <= j < c + n)); done || lia. Qed.

Lemma free_ext f f' c en : (forall j, c <= j <= en -> f' j = f j) -> free f' c en = free f c en.
Proof. intros He. apply count_in_ext. intros j Hj. by rewrite He. Qed.

Lemma free_updr f c n x lo hi : 0 <= n -> (forall j, c <= j < c + n -> f j = negb x) ->
  free (updr f c n x) lo hi = free f lo hi - (if x then 1 else -1) * Z.max 0 (Z.min hi (c + n - 1) - Z.max lo c + 1).
Proof.
  intros Hn. rewrite <- (Z2Nat.id n) by done. generalize (Z.to_nat n) as k. clear n Hn. induction k as [|k IH]; intros Hf.
  - rewrite (free_ext f); [lia|]. intros j Hj. rewrite updr_spec. destruct (decide _); [lia|done].
  - specialize (IH ltac:(intros j Hj; apply Hf; lia)).
    rewrite (free_ext (upd (updr f c (Z.of_nat k) x) (c + Z.of_nat k) x)).
    2: { intros j Hj. unfold upd. rewrite !updr_spec. destruct (Z.eqb_spec j (c + Z.of_nat k)), (decide (c <= j < c + Z.of_nat k)),
      (decide (c <= j < c + Z.of_nat (S k))); done || lia. }
    rewrite free_upd by (rewrite updr_spec; destruct (decide _); [lia|apply Hf; lia]). rewrite IH.
    destruct (Z.leb_spec lo (c + Z.of_nat k)), (Z.leb_spec (c + Z.of_nat k) hi); cbn [andb]; destruct x; lia.
Qed.

(** * The file system *)

Section volume.
Context (sb : super).
Local Notation cb := (cluster_ratio_bits (geo sb)).
Local Notation ratio := (2 ^ cluster_ratio_bits (geo sb)).
Local Notation cpg := (s_clusters_per_group (geo sb)).

(** Clusters from [c_first] to [c_last]; those of a group. *)
Definition c_first : Z := first_data_block sb / ratio.
Definition c_last : Z := (blocks_count sb - 1) / ratio.
Definition g_first (g : Z) : Z := c_first + g * cpg.
Definition g_last (g : Z) : Z := Z.min c_last (c_first + g * cpg + cpg - 1).

Record vol_geo : Prop := {
  vg_desc : desc_geo sb;
  vg_magic : fs_magic (geo sb) = EXT2_ET_MAGIC_EXT2FS_FILSYS;
  vg_ipg : 1 <= ipg sb < count_limit sb;
  vg_inodes : inodes_count sb = ipg sb * groups sb /\ inodes_count sb < 2 ^ 32 - 2;
  vg_first : 1 <= EXT2_FIRST_INODE sb <= inodes_count sb;
  vg_cb : 0 <= cb < 31;
  vg_cpg : 1 <= cpg < count_limit sb;
  vg_bpg : bpg sb = cpg * ratio /\ bpg sb < 2 ^ 32;
  vg_data : 0 <= first_data_block sb < blocks_count sb /\ first_data_block sb mod ratio = 0;
  vg_blocks : (groups sb - 1) * bpg sb < blocks_count sb - first_data_block sb <= groups sb * bpg sb;
  vg_limit : (c_last - c_first + 1) * ratio < (if feature_64bit sb then 2 ^ 63 else 2 ^ 32);
  vg_63 : blocks_count sb < 2 ^ 63 }.
Context (V : vol_geo).

Lemma ratio_pos : 0 < ratio.
Proof using V. pose proof (vg_cb V). lia. Qed.

Lemma ratio_eq : cluster_ratio sb = ratio.
Proof using V. pose proof (vg_cb V). unfold cluster_ratio. rewrite Z.shiftl_mul_pow2 by lia. lia. Qed.

Lemma c_bounds : 0 <= c_first <= c_last.
Proof using V.
  pose proof (vg_data V). pose proof ratio_pos. unfold c_first, c_last. split; [apply Z.div_pos; lia|]. apply Z.div_le_mono; lia.
Qed.

Lemma data_block : first_data_block sb = c_first * ratio.
Proof using V. pose proof (vg_data V) as [_ Hm]. pose proof ratio_pos. unfold c_first. pose proof (Z.div_mod (first_data_block sb) ratio). lia. Qed.

(** The group of a block is the group of its cluster. *)
Lemma block_group blk : first_data_block sb <= blk < blocks_count sb ->
  let g := ext2fs_group_of_blk2 sb blk in
  a_group sb g /\ g_first g <= blk / ratio <= g_last g /\ c_first <= blk / ratio <= c_last /\
  (forall h, a_group sb h -> h <> g -> blk / ratio < g_first h \/ g_last h < blk / ratio).
Proof using V.
  intros Hb. cbn zeta. pose proof (vg_63 V). pose proof (vg_blocks V). pose proof (vg_data V) as [Hd _]. pose proof (vg_bpg V) as [Eb Hb32].
  pose proof (vg_cpg V). pose proof ratio_pos as Hr. pose proof (dg_all sb (vg_desc V)). pose proof (dg_size sb (vg_desc V)). pose proof (dg_groups sb (vg_desc V)).
  unfold ext2fs_group_of_blk2. rewrite u64_small by (unfold is_u64; lia).
  assert (Hg : 0 <= (blk - first_data_block sb) / bpg sb < groups sb).
  { split; [apply Z.div_pos; nia|]. apply Z.div_lt_upper_bound; nia. }
  rewrite u32_small by (unfold is_u32; nia). set (g := (blk - first_data_block sb) / bpg sb) in *.
  assert (Hc : blk / ratio = c_first + (blk - first_data_block sb) / ratio).
  { rewrite data_block. replace blk with (blk - c_first * ratio + c_first * ratio) at 1 by lia. rewrite Z.div_add by lia. lia. }
  assert (Eg : g = (blk - first_data_block sb) / ratio / cpg).
  { unfold g. rewrite Eb, (Z.mul_comm cpg). symmetry. apply Z.div_div; lia. }
  set (c := (blk - first_data_block sb) / ratio) in *. pose proof (Z.div_mod c cpg ltac:(lia)) as Hdm. pose proof (Z.mod_pos_bound c cpg ltac:(lia)).
  rewrite <- Eg in Hdm. assert (0 <= c) by (apply Z.div_pos; lia).
  assert (Hl : c_first <= blk / ratio <= c_last) by (split; [lia|unfold c_last; apply Z.div_le_mono; lia]).
  unfold a_group, g_first, g_last. split; [lia|]. split; [nia|]. split; [done|].
  intros h Hh Hn. destruct (Z.lt_ge_cases h g); [right; nia|left; nia].
Qed.

Lemma ino_group ino : 1 <= ino <= inodes_count sb ->
  let g := ext2fs_group_of_ino sb ino in
  a_group sb g /\ g * ipg sb + 1 <= ino <= g * ipg sb + ipg sb /\
  (forall h, a_group sb h -> h <> g -> ino < h * ipg sb + 1 \/ h * ipg sb + ipg sb < ino).
Proof using V.
  intros Hi. cbn zeta. pose proof (vg_ipg V). pose proof (vg_inodes V) as [Ei Hi32]. unfold ext2fs_group_of_ino. rewrite u32_small by (unfold is_u32; lia).
  pose proof (Z.div_mod (ino - 1) (ipg sb) ltac:(lia)). pose proof (Z.mod_pos_bound (ino - 1) (ipg sb) ltac:(lia)).
  set (g := (ino - 1) / ipg sb) in *. assert (0 <= g < groups sb) by nia.
  split; [done|]. split; [nia|]. intros h Hh Hn. unfold a_group in Hh. destruct (Z.lt_ge_cases h g); [right|left]; nia.
Qed.

(** * Places in a descriptor *)

Local Notation places := (places sb).

Lemma place_ok lo hi : 0 <= lo -> lo + 2 <= 32 -> lo + 2 <= hi -> hi + 2 <= 64 -> places lo hi.
Proof using V.
  intros. pose proof (dg_size sb (vg_desc V)). pose proof (dg_64 sb (vg_desc V)). unfold GroupSpec.places, in_desc.
  split; [lia|]. split; [lia|]. intros E. specialize (H4 E). lia.
Qed.

(** What the other fields of a descriptor are. *)
Definition fb (d : list Z) : Z := c32 sb d bg_free_blocks_count bg_free_blocks_count_hi.
Definition fi (d : list Z) : Z := c32 sb d bg_free_inodes_count bg_free_inodes_count_hi.
Definition fl (d : list Z) : Z := f16 d bg_flags.

Record keeps (d d' : list Z) : Prop := { k_ok : d_ok sb d'; k_fb : fb d' = fb d; k_fi : fi d' = fi d; k_fl : fl d' = fl d }.

Lemma same_keeps d : d_ok sb d -> keeps d d.
Proof using. done. Qed.

Lemma keeps_seal g d : d_ok sb d -> keeps d (seal sb g d).
Proof using V.
  intros Hd. pose proof (vg_desc V). constructor; [by apply seal_ok|..]; unfold fb, fi, fl;
    [apply seal_c32|apply seal_c32|apply seal_f16]; try done; vm_compute; (done || (left; done) || (right; done)).
Qed.

(** A count that is none of those. *)
Lemma keeps_count d lo hi n : d_ok sb d -> places lo hi ->
  (bg_used_dirs_count = lo /\ bg_used_dirs_count_hi = hi) \/ (bg_itable_unused = lo /\ bg_itable_unused_hi = hi) -> keeps d (c32_set sb d lo hi n).
Proof using V.
  intros Hd Hp Hw. constructor; [by apply c32_set_ok|..]; unfold fb, fi, fl;
    [apply c32_other|apply c32_other|apply c32_f16]; try done; destruct Hw as [[<- <-]|[<- <-]]; vm_compute; (done || (left; done) || (right; done)).
Qed.

(** * The invariant *)

Section laws.
Context {P : Type} `{BitmapLaws P}.
Implicit Types v : vol P.

Definition iset (g : generic_bitmap P) (al : allocator) (I : Z -> bool) : Prop := exists top, rel (g, al) (mk_spec 1 (inodes_count sb) top 0 I).
Definition bset (g : generic_bitmap P) (al : allocator) (B : Z -> bool) : Prop := exists top, rel (g, al) (mk_spec c_first c_last top cb B).

(** What the descriptors and the super block say, where [I] and [B] are the inodes
    and clusters that are used. *)
Record counts_ok v (I B : Z -> bool) : Prop := {
  co_desc : desc_ok sb v;
  co_sealed : forall g, a_group sb g -> sealed sb g (desc sb v g);
  co_ifree : forall g, a_group sb g -> fi (desc sb v g) = free I (g * ipg sb + 1) (g * ipg sb + ipg sb);
  co_bfree : forall g, a_group sb g -> fb (desc sb v g) = free B (g_first g) (g_last g);
  co_isum : s_free_inodes_count v = free I 1 (inodes_count sb);
  co_bsum : ext2fs_free_blocks_count sb v = ratio * free B c_first c_last;
  co_uninit : forall g j, a_group sb g -> ext2fs_has_group_desc_csum sb = true -> Z.land (fl (desc sb v g)) EXT2_BG_INODE_UNINIT <> 0 ->
    g * ipg sb + 1 <= j <= g * ipg sb + ipg sb -> I j = false }.

(** The bitmaps say the same. *)
Record stats_ok v (I B : Z -> bool) : Prop := {
  so_counts :> counts_ok v I B;
  so_imap : iset (inode_map v) (mem v) I;
  so_bmap : bset (block_map v) (mem v) B }.

(** Nothing of this is in the bitmaps, the flags or the calls. *)
Lemma counts_ok_same v v' I B : counts_ok v I B -> group_desc v' = group_desc v -> s_free_inodes_count v' = s_free_inodes_count v ->
  s_free_blocks_count v' = s_free_blocks_count v -> s_free_blocks_hi v' = s_free_blocks_hi v -> counts_ok v' I B.
Proof using.
  intros [C1 C2 C3 C4 C5 C6 C7] E1 E2 E3 E4. assert (Hd : forall h, desc sb v' h = desc sb v h) by (intros h; unfold desc; by rewrite E1).
  constructor; try (intros *; rewrite Hd; auto; fail).
  - unfold desc_ok. by rewrite E1.
  - congruence.
  - unfold ext2fs_free_blocks_count in *. by rewrite E3, E4.
  - intros g j Hg. rewrite Hd. by apply C7.
Qed.

Lemma rel_ext s sp f : rel s sp -> (forall c, used sp c = f c) -> rel s (with_used sp f).
Proof using. intros (b & Hg & []) He. exists b. split; [done|]. constructor; try done. intros c Hc. cbn. rewrite <- He. auto. Qed.

Lemma rel_mark g al sp blk : rel (g, al) sp ->
  exists r g' al', ext2fs_mark_generic_bmap (g, al) blk = Done (r, (g', al')) /\ rel (g', al') (snd (spec_step (CMark blk) sp)) /\ later al al'.
Proof using. intros (b & Hg & R). cbn in Hg, R. subst g. destruct (mark_generic b al sp blk R) as (r & [g' al'] & E & _ & Hr & Hl). eauto 10. Qed.

Lemma rel_unmark g al sp blk : rel (g, al) sp ->
  exists r g' al', ext2fs_unmark_generic_bmap (g, al) blk = Done (r, (g', al')) /\ rel (g', al') (snd (spec_step (CUnmark blk) sp)) /\ later al al'.
Proof using. intros (b & Hg & R). cbn in Hg, R. subst g. destruct (unmark_generic b al sp blk R) as (r & [g' al'] & E & Hr & Hl). eauto 10. Qed.

(** A bit that is set or cleared. *)
Lemma rel_put (x : bool) g al lo hi top cb f blk : rel (g, al) (mk_spec lo hi top cb f) -> lo <= Z.shiftr blk cb <= hi ->
  exists r g' al', (if x then ext2fs_mark_generic_bmap (g, al) blk else ext2fs_unmark_generic_bmap (g, al) blk) = Done (r, (g', al')) /\
    rel (g', al') (mk_spec lo hi top cb (upd f (Z.shiftr blk cb) x)) /\ later al al'.
Proof using.
  intros R Hc. set (sp := mk_spec lo hi top cb f) in *.
  assert (Hh : has_cluster sp (cluster sp blk) = true) by (by apply has_cluster_spec).
  destruct x.
  - destruct (rel_mark g al sp blk R) as (r & g' & al' & E & R' & Hl). exists r, g', al'. split; [done|]. split; [|done].
    cbn [spec_step snd] in R'. rewrite Hh in R'. apply (rel_ext _ _ (upd f (Z.shiftr blk cb) true)) in R'; [exact R'|]. intros c. unfold upd. cbn. unfold cluster. cbn.
    destruct (_ =? _); done.
  - destruct (rel_unmark g al sp blk R) as (r & g' & al' & E & R' & Hl). exists r, g', al'. split; [done|]. split; [|done].
    cbn [spec_step snd] in R'. rewrite Hh in R'. apply (rel_ext _ _ (upd f (Z.shiftr blk cb) false)) in R'; [exact R'|]. intros c. unfold upd. cbn. unfold cluster. cbn.
    destruct (_ =? _); done.
Qed.

Lemma iset_put (x : bool) v ino I : iset (inode_map v) (mem v) I -> 1 <= ino <= inodes_count sb ->
  exists g al, (if x then mark_inode v ino else unmark_inode v ino) = Done (set_inode_map v g al) /\ iset g al (upd I ino x) /\ later (mem v) al.
Proof using.
  intros [top R] Hi. destruct (rel_put x _ _ _ _ _ _ _ ino R) as (r & g' & al' & E & R' & Hl); [by rewrite Z.shiftr_0_r|].
  rewrite Z.shiftr_0_r in R'. exists g', al'. split; [|split; [by exists top|done]].
  unfold mark_inode, unmark_inode. destruct x; rewrite E; done.
Qed.

Lemma bset_put (x : bool) v blk B : bset (block_map v) (mem v) B -> c_first <= blk / ratio <= c_last ->
  exists g al, (if x then mark_block v blk else unmark_block v blk) = Done (set_block_map v g al) /\ bset g al (upd B (blk / ratio) x) /\ later (mem v) al.
Proof using V.
  pose proof (vg_cb V). intros [top R] Hi. destruct (rel_put x _ _ _ _ _ _ _ blk R) as (r & g' & al' & E & R' & Hl); [by rewrite Z.shiftr_div_pow2 by lia|].
  rewrite Z.shiftr_div_pow2 in R' by lia. exists g', al'. split; [|split; [by exists top|done]].
  unfold mark_block, unmark_block. destruct x; rewrite E; done.
Qed.

(** ** Inodes *)

Lemma fi_places : places bg_free_inodes_count bg_free_inodes_count_hi.
Proof using V. apply place_ok; vm_compute; done. Qed.
Lemma fb_places : places bg_free_blocks_count bg_free_blocks_count_hi.
Proof using V. apply place_ok; vm_compute; done. Qed.
Lemma ud_places : places bg_used_dirs_count bg_used_dirs_count_hi.
Proof using V. apply place_ok; vm_compute; done. Qed.
Lemma iu_places : places bg_itable_unused bg_itable_unused_hi.
Proof using V. apply place_ok; vm_compute; done. Qed.

(** What [change] composes with: a step of the code, and what it keeps. *)
Definition step_keeps v g (d : list Z) (m : outcome (vol P)) : Prop := exists v' d', m = Done v' /\ change sb v g d' v' /\ keeps d d'.

Lemma change_refl v g : desc_ok sb v -> change sb v g (desc sb v g) v.
Proof using. intros Hv. constructor; try done. by destruct v. Qed.

Lemma used_dirs_step v g n : desc_ok sb v -> a_group sb g -> step_keeps v g (desc sb v g) (ext2fs_bg_used_dirs_count_set sb v g n).
Proof using V.
  intros Hv Hg. pose proof (vg_desc V). destruct (bg_count_set_eq sb (vg_desc V) v g _ _ n Hv Hg ud_places) as (v' & E & C).
  exists v', (c32_set sb (desc sb v g) bg_used_dirs_count bg_used_dirs_count_hi n). split; [done|]. split; [done|].
  apply keeps_count; [by apply desc_d_ok|apply ud_places|auto].
Qed.

Lemma itable_step v g ino : desc_ok sb v -> a_group sb g -> step_keeps v g (desc sb v g) (lower_itable_unused sb v g ino).
Proof using V.
  intros Hv Hg. pose proof (vg_desc V). unfold lower_itable_unused, ext2fs_bg_itable_unused. rewrite (bg_count_eq sb (vg_desc V) v g _ _ Hv Hg iu_places). cbn [obind].
  destruct (_ <=? ino).
  - match goal with |- context [ext2fs_bg_itable_unused_set sb v g ?n] => destruct (bg_count_set_eq sb (vg_desc V) v g _ _ n Hv Hg iu_places) as (v' & E & C);
      exists v', (c32_set sb (desc sb v g) bg_itable_unused bg_itable_unused_hi n) end. split; [done|]. split; [done|].
    apply keeps_count; [by apply desc_d_ok|apply iu_places|auto].
  - exists v, (desc sb v g). split; [done|]. split; [by apply change_refl|]. by apply same_keeps, desc_d_ok.
Qed.

(** Taking ([x] is true) or giving back. *)
Definition delta (x : bool) : Z := if x then 1 else -1.

Lemma flags_place : in_desc sb bg_flags.
Proof using V. apply (flags_in_desc sb (vg_desc V)). Qed.

(** The descriptor when the flags [f] are cleared. *)
Lemma flags_step v g f : desc_ok sb v -> a_group sb g -> exists v' d', ext2fs_bg_flags_clear sb v g f = Done v' /\ change sb v g d' v' /\
  d_ok sb d' /\ fb d' = fb (desc sb v g) /\ fi d' = fi (desc sb v g) /\ fl d' = u16 (Z.land (fl (desc sb v g)) (Z.lnot f)).
Proof using V.
  intros Hv Hg. pose proof (vg_desc V) as G. destruct (flags_clear_eq sb G v g f Hv Hg) as (v' & E & C). do 2 eexists. split; [done|]. split; [done|].
  pose proof (desc_d_ok sb G v g Hv Hg) as Hd. split; [apply f16_set_ok; [done|apply flags_place]|].
  unfold fb, fi, fl. split; [|split; [|apply (f16_same sb); [done|apply flags_place]]];
    (apply f16_c32; [done|apply flags_place|..]; vm_compute; (done || (left; done) || (right; done))).
Qed.

(** A count that is set. *)
Lemma count_step (inodes : bool) v g n : desc_ok sb v -> a_group sb g -> 0 <= n < count_limit sb ->
  exists v' d', (if inodes then ext2fs_bg_free_inodes_count_set sb v g n else ext2fs_bg_free_blocks_count_set sb v g n) = Done v' /\ change sb v g d' v' /\
    d_ok sb d' /\ fb d' = (if inodes then fb (desc sb v g) else n) /\ fi d' = (if inodes then n else fi (desc sb v g)) /\ fl d' = fl (desc sb v g).
Proof using V.
  intros Hv Hg Hn. pose proof (vg_desc V) as G. pose proof (desc_d_ok sb G v g Hv Hg) as Hd. unfold fb, fi, fl. destruct inodes.
  - destruct (bg_count_set_eq sb G v g _ _ n Hv Hg fi_places) as (v' & E & C). do 2 eexists. split; [done|]. split; [done|].
    split; [apply c32_set_ok; [done|apply fi_places]|]. split; [apply c32_other|split; [rewrite c32_same; [by apply Z.mod_small|done|apply fi_places]|apply c32_f16]];
      first [done|apply fi_places|vm_compute; (done || (left; done) || (right; done))].
  - destruct (bg_count_set_eq sb G v g _ _ n Hv Hg fb_places) as (v' & E & C). do 2 eexists. split; [done|]. split; [done|].
    split; [apply c32_set_ok; [done|apply fb_places]|]. split; [rewrite c32_same; [by apply Z.mod_small|done|apply fb_places]|split; [apply c32_other|apply c32_f16]];
      first [done|apply fb_places|vm_compute; (done || (left; done) || (right; done))].
Qed.

(** The checksum at the end. *)
Lemma seal_step v g : desc_ok sb v -> a_group sb g ->
  exists v' d', ext2fs_group_desc_csum_set sb v g = Done v' /\ change sb v g d' v' /\ keeps (desc sb v g) d' /\ sealed sb g d'.
Proof using V.
  intros Hv Hg. pose proof (vg_desc V) as G. pose proof (desc_d_ok sb G v g Hv Hg) as Hd. destruct (csum_set_eq sb G v g Hv Hg) as (v' & E & C).
  exists v', (seal sb g (desc sb v g)). split; [done|]. split; [done|]. split; [by apply keeps_seal|by apply seal_sealed].
Qed.

Lemma no_csum_sealed g d : ext2fs_has_group_desc_csum sb = false -> sealed sb g d.
Proof using. intros E Hc. congruence. Qed.

(** The number of free ones after a step. *)
Lemma free_step f i x c en : f i = negb x -> c <= i <= en -> 0 <= free f c en - delta x <= en - c + 1 /\ free (upd f i x) c en = free f c en - delta x.
Proof using.
  intros Hf Hi. pose proof (free_upd f i x c en Hf) as E. destruct (Z.leb_spec c i), (Z.leb_spec i en); try lia. cbn [andb] in E.
  pose proof (free_range (upd f i x) c en ltac:(lia)). unfold delta. lia.
Qed.

Lemma free_same f i x c en : f i = negb x -> i < c \/ en < i -> free (upd f i x) c en = free f c en.
Proof using. intros Hf Hi. rewrite (free_upd f i x c en Hf). destruct (Z.leb_spec c i), (Z.leb_spec i en); cbn [andb]; lia. Qed.

Lemma clear_flag f : 0 <= f -> Z.land (u16 (Z.land f (Z.lnot EXT2_BG_INODE_UNINIT))) EXT2_BG_INODE_UNINIT = 0.
Proof using.
  intros Hf. unfold u16, EXT2_BG_INODE_UNINIT. rewrite <- Z.land_ones by lia. rewrite <- Z.land_assoc. change (Z.land (Z.ones 16) 1) with 1.
  rewrite <- Z.land_assoc. change (Z.land (Z.lnot 1) 1) with 0. apply Z.land_0_r.
Qed.

(** The descriptor of one group has changed, and a count of the super block. *)
Lemma counts_change v I B I' B' g v' v'' d : counts_ok v I B -> a_group sb g -> change sb v g d v' -> group_desc v'' = group_desc v' -> sealed sb g d ->
  fi d = free I' (g * ipg sb + 1) (g * ipg sb + ipg sb) -> fb d = free B' (g_first g) (g_last g) ->
  (forall h, a_group sb h -> h <> g -> free I' (h * ipg sb + 1) (h * ipg sb + ipg sb) = free I (h * ipg sb + 1) (h * ipg sb + ipg sb)) ->
  (forall h, a_group sb h -> h <> g -> free B' (g_first h) (g_last h) = free B (g_first h) (g_last h)) ->
  s_free_inodes_count v'' = free I' 1 (inodes_count sb) -> ext2fs_free_blocks_count sb v'' = ratio * free B' c_first c_last ->
  (Z.land (fl d) EXT2_BG_INODE_UNINIT <> 0 -> Z.land (fl (desc sb v g)) EXT2_BG_INODE_UNINIT <> 0 /\ forall j, I' j = I j) ->
  (forall h j, a_group sb h -> h <> g -> h * ipg sb + 1 <= j <= h * ipg sb + ipg sb -> I' j = I j) ->
  counts_ok v'' I' B'.
Proof using.
  intros C Hg Ch E Hs Hfi Hfb Hoi Hob Hsi Hsb Hfl Hoj.
  assert (Hd : forall h, desc sb v'' h = desc sb v' h) by (intros h; unfold desc; by rewrite E).
  assert (Hoth : forall h, a_group sb h -> h <> g -> desc sb v' h = desc sb v h) by (intros h Hh Hn; by rewrite (ch_other _ _ _ _ _ Ch h Hh Hn)).
  constructor; try done.
  - unfold desc_ok. rewrite E. apply Ch.
  - intros h Hh. rewrite Hd. destruct (decide (h = g)) as [->|Hn]; [by rewrite (ch_same _ _ _ _ _ Ch)|]. rewrite Hoth by done. by apply C.
  - intros h Hh. rewrite Hd. destruct (decide (h = g)) as [->|Hn]; [by rewrite (ch_same _ _ _ _ _ Ch)|]. rewrite Hoth, Hoi by done. by apply C.
  - intros h Hh. rewrite Hd. destruct (decide (h = g)) as [->|Hn]; [by rewrite (ch_same _ _ _ _ _ Ch)|]. rewrite Hoth, Hob by done. by apply C.
  - intros h j Hh Hc. rewrite Hd. destruct (decide (h = g)) as [->|Hn].
    + rewrite (ch_same _ _ _ _ _ Ch). intros [Hf HI]%Hfl Hj. rewrite HI. by apply (co_uninit _ _ _ C g).
    + rewrite Hoth by done. intros Hf Hj. rewrite (Hoj h j) by done. by apply (co_uninit _ _ _ C h).
Qed.

(** The end of a change to an inode. *)
Lemma inode_end v I B ino x g gm al v' d : stats_ok v I B -> 1 <= ino <= inodes_count sb -> I ino = negb x -> g = ext2fs_group_of_ino sb ino ->
  iset gm al (upd I ino x) -> later (mem v) al -> change sb (set_inode_map v gm al) g d v' -> sealed sb g d ->
  fi d = free I (g * ipg sb + 1) (g * ipg sb + ipg sb) - delta x -> fb d = fb (desc sb v g) -> Z.land (fl d) EXT2_BG_INODE_UNINIT = 0 ->
  stats_ok (ext2fs_mark_ib_dirty (ext2fs_mark_super_dirty (set_free_inodes v' (u32 (s_free_inodes_count v' - delta x))))) (upd I ino x) B.
Proof using V.
  intros S Hi Hx Eg HI Hl C Hs Hfi Hfb Hfl. pose proof (vg_inodes V) as [_ H32]. destruct (ino_group ino Hi) as (Hg & Hin & Hout). rewrite <- Eg in *.
  destruct (free_step I ino x (g * ipg sb + 1) (g * ipg sb + ipg sb) Hx ltac:(lia)) as [Hr1 Hf1].
  destruct (free_step I ino x 1 (inodes_count sb) Hx ltac:(lia)) as [Hr2 Hf2]. pose proof (ch_rest _ _ _ _ _ C) as Hrest. split.
  - apply (counts_change (set_inode_map v gm al) I B (upd I ino x) B g v' _ d); try done.
    + by apply (counts_ok_same v); [apply S|..].
    + congruence.
    + rewrite Hfb. by apply S.
    + intros h Hh Hn. by apply free_same, Hout.
    + cbn. rewrite Hrest. cbn. rewrite (co_isum _ _ _ S), Hf2. apply u32_small. unfold is_u32. lia.
    + unfold ext2fs_free_blocks_count. cbn. rewrite Hrest. cbn. apply S.
    + intros h j Hh Hn Hj. unfold upd. destruct (Z.eqb_spec j ino) as [->|]; [destruct (Hout h Hh Hn); lia|done].
  - cbn. rewrite Hrest. exact HI.
  - cbn. rewrite Hrest. cbn. destruct (so_bmap _ _ _ S) as [top R]. exists top. by apply (rel_later _ (mem v)).
Qed.

Lemma small_count n : 0 <= n <= ipg sb \/ 0 <= n <= cpg -> u32 n = n /\ 0 <= n < count_limit sb.
Proof using V.
  pose proof (vg_ipg V) as [_ H1]. pose proof (vg_cpg V) as [_ H2]. intros Hn. split; [|lia]. apply u32_small. unfold is_u32, count_limit in *.
  destruct (feature_64bit sb); lia.
Qed.

Lemma inode_stats_ok v I B ino x isdir : stats_ok v I B -> 1 <= ino <= inodes_count sb -> I ino = negb x ->
  exists v', ext2fs_inode_alloc_stats2 sb v ino (delta x) isdir = Done v' /\ stats_ok v' (upd I ino x) B.
Proof using V.
  intros S Hi Hx. pose proof (vg_desc V) as G.
  destruct (ino_group ino Hi) as (Hg & Hin & Hout). set (g := ext2fs_group_of_ino sb ino) in *.
  destruct (free_step I ino x (g * ipg sb + 1) (g * ipg sb + ipg sb) Hx ltac:(lia)) as [Hr1 Hf1].
  unfold ext2fs_inode_alloc_stats2. fold g. destruct (Z.ltb_spec (inodes_count sb) ino); [lia|].
  replace (0 <? delta x) with x by (destruct x; done).
  destruct (iset_put x v ino I (so_imap _ _ _ S) Hi) as (gm & al & -> & HI & Hl). cbn [obind]. set (v1 := set_inode_map v gm al).
  assert (Hv1 : desc_ok sb v1) by apply (co_desc _ _ _ S).
  unfold ext2fs_bg_free_inodes_count at 1. rewrite (bg_count_eq sb G v1 g _ _ Hv1 Hg fi_places). cbn [obind].
  change (c32 sb (desc sb v1 g) bg_free_inodes_count bg_free_inodes_count_hi) with (fi (desc sb v g)). rewrite (co_ifree _ _ _ S g Hg).
  destruct (small_count (free I (g * ipg sb + 1) (g * ipg sb + ipg sb) - delta x) ltac:(lia)) as [-> Hlim].
  destruct (count_step true v1 g (free I (g * ipg sb + 1) (g * ipg sb + ipg sb) - delta x) Hv1 Hg Hlim) as (v2 & d2 & -> & C2 & O2 & B2 & I2 & L2). cbn [obind].
  assert (Hud : exists v3 d3, (if isdir then let* n := ext2fs_bg_used_dirs_count sb v2 g in ext2fs_bg_used_dirs_count_set sb v2 g (u32 (n + delta x)) else Done v2) = Done v3 /\
    change sb v1 g d3 v3 /\ keeps d2 d3).
  { destruct isdir; [|exists v2, d2; split; [done|split; [done|by apply same_keeps]]].
    unfold ext2fs_bg_used_dirs_count. rewrite (bg_count_eq sb G v2 g _ _ (ch_ok _ _ _ _ _ C2) Hg ud_places). cbn [obind].
    match goal with |- context [ext2fs_bg_used_dirs_count_set sb v2 g ?n] => destruct (used_dirs_step v2 g n (ch_ok _ _ _ _ _ C2) Hg) as (v3 & d3 & -> & C3 & K3) end.
    rewrite (ch_same _ _ _ _ _ C2) in K3. exists v3, d3. split; [done|]. split; [by apply (change_trans _ _ _ _ _ _ _ C2)|done]. }
  destruct Hud as (v3 & d3 & -> & C3 & K3). cbn [obind].
  destruct (flags_step v3 g EXT2_BG_INODE_UNINIT (ch_ok _ _ _ _ _ C3) Hg) as (v4 & d4 & -> & C4 & O4 & B4 & I4 & L4). cbn [obind].
  rewrite (ch_same _ _ _ _ _ C3) in B4, I4, L4. pose proof (change_trans _ _ _ _ _ _ _ C3 C4) as C14.
  assert (Hend : exists v5 d5, (if ext2fs_has_group_desc_csum sb then let* v := lower_itable_unused sb v4 g ino in ext2fs_group_desc_csum_set sb v g else Done v4) = Done v5 /\
    change sb v1 g d5 v5 /\ keeps d4 d5 /\ sealed sb g d5).
  { destruct (ext2fs_has_group_desc_csum sb) eqn:Hc; [|exists v4, d4; split; [done|split; [done|split; [by apply same_keeps|by apply no_csum_sealed]]]].
    destruct (itable_step v4 g ino (ch_ok _ _ _ _ _ C14) Hg) as (v5 & d5 & -> & C5 & K5). cbn [obind]. rewrite (ch_same _ _ _ _ _ C14) in K5.
    destruct (seal_step v5 g (ch_ok _ _ _ _ _ C5) Hg) as (v6 & d6 & -> & C6 & K6 & S6). rewrite (ch_same _ _ _ _ _ C5) in K6.
    exists v6, d6. split; [done|]. split; [by apply (change_trans _ _ _ _ _ _ _ C14), (change_trans _ _ _ _ _ _ _ C5)|]. split; [|done].
    destruct K5, K6. constructor; [done|congruence..]. }
  destruct Hend as (v5 & d5 & -> & C5 & K5 & S5). cbn [obind]. eexists. split; [done|].
  apply (inode_end v I B ino x g gm al v5 d5); try done; [destruct K5, K3; congruence|destruct K5, K3; rewrite k_fb0, B4, k_fb1, B2; done|].
  rewrite (k_fl _ _ K5), L4. apply clear_flag.
  pose proof (f16_range sb d3 bg_flags (k_ok _ _ K3) flags_place) as Hr. unfold fl. unfold is_u16 in Hr. lia.
Qed.

(** ** Blocks *)

Definition fbc_limit : Z := if feature_64bit sb then 2 ^ 63 else 2 ^ 32.

Lemma fbc_set v n : 0 <= n < fbc_limit -> ext2fs_free_blocks_count sb (ext2fs_free_blocks_count_set sb v n) = n.
Proof using.
  unfold fbc_limit. intros Hn. unfold ext2fs_free_blocks_count, ext2fs_free_blocks_count_set. cbn. destruct (feature_64bit sb).
  - rewrite (u64_small n) by (unfold is_u64; lia). rewrite Z.shiftr_div_pow2, Z.shiftl_mul_pow2 by lia. rewrite Z.lor_comm, lor_high_low by (lia || (unfold u32; apply Z.mod_pos_bound; lia)).
    unfold u32. pose proof (Z.div_mod n (2 ^ 32)). lia.
  - rewrite Z.lor_0_r. apply u32_small. unfold is_u32. lia.
Qed.

(** Adding a number that may be negative. *)
Lemma fbc_add v n k : ext2fs_free_blocks_count sb v = n -> 0 <= n + k < fbc_limit -> ext2fs_free_blocks_count sb (ext2fs_free_blocks_count_add sb v (u64 k)) = n + k.
Proof using.
  intros Hn Hk. unfold ext2fs_free_blocks_count_add. rewrite Hn. replace (u64 (n + u64 k)) with (n + k); [by apply fbc_set|].
  unfold u64. rewrite Z.add_mod_idemp_r by lia. symmetry. apply Z.mod_small. unfold fbc_limit in Hk. destruct (feature_64bit sb); lia.
Qed.

(** Clearing [EXT2_BG_BLOCK_UNINIT] leaves the other flag. *)
Lemma keep_flag f : Z.land (u16 (Z.land f (Z.lnot EXT2_BG_BLOCK_UNINIT))) EXT2_BG_INODE_UNINIT = Z.land f EXT2_BG_INODE_UNINIT.
Proof using.
  unfold u16, EXT2_BG_INODE_UNINIT, EXT2_BG_BLOCK_UNINIT. rewrite <- Z.land_ones by lia. rewrite <- Z.land_assoc. change (Z.land (Z.ones 16) 1) with 1.
  rewrite <- Z.land_assoc. change (Z.land (Z.lnot 2) 1) with 1. done.
Qed.

(** The flag and the checksum, which all changes to the blocks of a group end with. *)
Lemma block_flags_step v0 v g d : desc_ok sb v -> a_group sb g -> change sb v0 g d v -> d_ok sb d ->
  exists v1 v2 d', ext2fs_bg_flags_clear sb v g EXT2_BG_BLOCK_UNINIT = Done v1 /\ ext2fs_group_desc_csum_set sb v1 g = Done v2 /\ change sb v0 g d' v2 /\
    d_ok sb d' /\ fb d' = fb d /\ fi d' = fi d /\ Z.land (fl d') EXT2_BG_INODE_UNINIT = Z.land (fl d) EXT2_BG_INODE_UNINIT /\ sealed sb g d'.
Proof using V.
  intros Hv Hg C Hd. destruct (flags_step v g EXT2_BG_BLOCK_UNINIT Hv Hg) as (v1 & d1 & E1 & C1 & O1 & B1 & I1 & L1). rewrite (ch_same _ _ _ _ _ C) in B1, I1, L1.
  destruct (seal_step v1 g (ch_ok _ _ _ _ _ C1) Hg) as (v2 & d2 & E2 & C2 & K2 & S2). rewrite (ch_same _ _ _ _ _ C1) in K2.
  exists v1, v2, d2. split; [done|]. split; [done|]. split; [by apply (change_trans _ _ _ _ _ _ _ C), (change_trans _ _ _ _ _ _ _ C1)|].
  destruct K2. split; [done|]. split; [congruence|]. split; [congruence|]. split; [|done]. rewrite k_fl0, L1. apply keep_flag.
Qed.

Lemma g_size g : a_group sb g -> g_last g - g_first g + 1 <= cpg.
Proof using. unfold g_last, g_first. lia. Qed.

Lemma block_stats_ok hook v I B blk x : stats_ok v I B -> first_data_block sb <= blk < blocks_count sb -> B (blk / ratio) = negb x ->
  exists v', ext2fs_block_alloc_stats2 sb hook v blk (delta x) = Done v' /\ stats_ok v' I (upd B (blk / ratio) x).
Proof using V.
  intros S Hb Hx. pose proof (vg_desc V) as G. destruct (block_group blk Hb) as (Hg & Hin & Hc & Hout). set (g := ext2fs_group_of_blk2 sb blk) in *.
  destruct (free_step B (blk / ratio) x (g_first g) (g_last g) Hx Hin) as [Hr1 Hf1]. pose proof (g_size g Hg) as Hsz.
  destruct (free_step B (blk / ratio) x c_first c_last Hx Hc) as [Hr2 Hf2].
  unfold ext2fs_block_alloc_stats2. fold g. destruct (Z.leb_spec (blocks_count sb) blk); [lia|]. replace (0 <? delta x) with x by (destruct x; done).
  destruct (bset_put x v blk B (so_bmap _ _ _ S) Hc) as (gm & al & -> & HB & Hl). cbn [obind]. set (v1 := set_block_map v gm al).
  assert (Hv1 : desc_ok sb v1) by apply (co_desc _ _ _ S).
  unfold ext2fs_bg_free_blocks_count at 1. rewrite (bg_count_eq sb G v1 g _ _ Hv1 Hg fb_places). cbn [obind].
  change (c32 sb (desc sb v1 g) bg_free_blocks_count bg_free_blocks_count_hi) with (fb (desc sb v g)). rewrite (co_bfree _ _ _ S g Hg).
  destruct (small_count (free B (g_first g) (g_last g) - delta x) ltac:(lia)) as [-> Hlim].
  destruct (count_step false v1 g (free B (g_first g) (g_last g) - delta x) Hv1 Hg Hlim) as (v2 & d2 & -> & C2 & O2 & B2 & I2 & L2). cbn [obind].
  destruct (block_flags_step v1 v2 g d2 (ch_ok _ _ _ _ _ C2) Hg C2 O2) as (v3 & v4 & d4 & -> & E4 & C4 & O4 & B4 & I4 & L4 & S4). cbn [obind]. rewrite E4. cbn [obind].
  eexists. split; [done|]. pose proof (ch_rest _ _ _ _ _ C4) as Hrest. rewrite ratio_eq.
  assert (Hsum : ext2fs_free_blocks_count sb (ext2fs_free_blocks_count_add sb v4 (u64 (- delta x * ratio))) = ratio * (free B c_first c_last - delta x)).
  { pose proof ratio_pos. pose proof (vg_limit V). rewrite (fbc_add v4 (ratio * free B c_first c_last)); [lia| |].
    - unfold ext2fs_free_blocks_count. rewrite Hrest. apply S.
    - unfold fbc_limit. nia. }
  assert (E5 : forall w : vol P, w = ext2fs_free_blocks_count_add sb v4 (u64 (- delta x * ratio)) ->
    stats_ok (if hook then add_call (ext2fs_mark_bb_dirty (ext2fs_mark_super_dirty w)) (BlockStats blk (delta x)) else ext2fs_mark_bb_dirty (ext2fs_mark_super_dirty w))
      I (upd B (blk / ratio) x)); [|by apply E5].
  intros w ->. split; [|by destruct hook; cbn; rewrite Hrest; cbn; destruct (so_imap _ _ _ S) as [top R]; exists top; apply (rel_later _ (mem v))
    |by destruct hook; cbn; rewrite Hrest].
  apply (counts_change v1 I B I (upd B (blk / ratio) x) g v4 _ d4); try done.
  - by apply (counts_ok_same v); [apply S|..].
  - by destruct hook.
  - rewrite I4, I2. by apply S.
  - congruence.
  - intros h Hh Hn. by apply free_same, Hout.
  - destruct hook; cbn; rewrite Hrest; apply S.
  - rewrite Hf2. by destruct hook.
  - rewrite L4, L2. done.
Qed.

(** ** Ranges of blocks *)

Lemma counts_ext v I B B' : counts_ok v I B -> (forall j, B' j = B j) -> counts_ok v I B'.
Proof using.
  intros [C1 C2 C3 C4 C5 C6 C7] He. constructor; try done.
  - intros g Hg. rewrite C4 by done. symmetry. by apply free_ext.
  - rewrite C6. f_equal. symmetry. by apply free_ext.
Qed.

(** The number of clusters, as the code computes it: the division of a negative
    number as an unsigned one of 64 bits does no harm. *)
Lemma clusters_of c m x : 1 <= m -> m * ratio < 2 ^ 32 -> 0 <= c - delta x * m < 2 ^ 32 -> u32 (c - u64 (delta x * (m * ratio)) / ratio) = c - delta x * m.
Proof using V.
  intros Hm Hn Hc. pose proof (vg_cb V). pose proof ratio_pos. destruct x; unfold delta in *.
  - rewrite Z.mul_1_l, u64_small by (unfold is_u64; nia). rewrite Z.div_mul by lia. rewrite u32_small by (unfold is_u32; lia). lia.
  - replace (u64 (-1 * (m * ratio))) with ((2 ^ (64 - cb) - m) * ratio).
    + rewrite Z.div_mul by lia. replace (c - (2 ^ (64 - cb) - m)) with (c + m + (- 2 ^ (32 - cb)) * 2 ^ 32).
      * unfold u32. rewrite Z.mod_add by lia. rewrite Z.mod_small by lia. lia.
      * replace (2 ^ (64 - cb)) with (2 ^ (32 - cb) * 2 ^ 32) by (rewrite <- Z.pow_add_r by lia; f_equal; lia). lia.
    + unfold u64. replace (-1 * (m * ratio)) with (2 ^ 64 - m * ratio + (-1) * 2 ^ 64) by lia. rewrite Z.mod_add by lia.
      rewrite Z.mod_small by nia. rewrite Z.mul_sub_distr_r. rewrite <- Z.pow_add_r by lia. do 2 f_equal. lia.
Qed.

(** One turn: [m] clusters in one group. *)
Lemma range_turn v I B c m g x : counts_ok v I B -> a_group sb g -> 1 <= m -> g_first g <= c -> c + m - 1 <= g_last g -> c_first <= c -> m * ratio < 2 ^ 32 ->
  (forall j, c <= j < c + m -> B j = negb x) ->
  exists v1 v2 v3, (let* n := ext2fs_bg_free_blocks_count sb v g in ext2fs_bg_free_blocks_count_set sb v g (u32 (n - u64 (delta x * (m * ratio)) / ratio))) = Done v1 /\
    ext2fs_bg_flags_clear sb v1 g EXT2_BG_BLOCK_UNINIT = Done v2 /\ ext2fs_group_desc_csum_set sb v2 g = Done v3 /\
    v3 = set_desc v (group_desc v3) /\ counts_ok (ext2fs_free_blocks_count_add sb v3 (u64 (- delta x * (m * ratio)))) I (updr B c m x).
Proof using V.
  intros C Hg Hm Hc1 Hc2 Hc3 Hn Hf. pose proof (vg_desc V) as G. pose proof (co_desc _ _ _ C) as Hv. pose proof (vg_cpg V) as Hcpg. pose proof (g_size g Hg) as Hsz.
  pose proof (c_bounds). assert (Hl : g_last g <= c_last) by (unfold g_last; lia).
  pose proof (free_updr B c m x (g_first g) (g_last g) ltac:(lia) Hf) as F1. pose proof (free_updr B c m x c_first c_last ltac:(lia) Hf) as F2.
  pose proof (free_range (updr B c m x) (g_first g) (g_last g) ltac:(lia)). pose proof (free_range (updr B c m x) c_first c_last ltac:(lia)).
  replace (Z.max 0 (Z.min (g_last g) (c + m - 1) - Z.max (g_first g) c + 1)) with m in F1 by lia.
  replace (Z.max 0 (Z.min c_last (c + m - 1) - Z.max c_first c + 1)) with m in F2 by lia. fold (delta x) in F1, F2.
  unfold ext2fs_bg_free_blocks_count. rewrite (bg_count_eq sb G v g _ _ Hv Hg fb_places). cbn [obind]. fold (fb (desc sb v g)). rewrite (co_bfree _ _ _ C g Hg).
  destruct (small_count (free B (g_first g) (g_last g) - delta x * m) ltac:(lia)) as [Hu Hlim].
  rewrite clusters_of; [|done|done|rewrite <- Hu; apply u32_range].
  destruct (count_step false v g _ Hv Hg Hlim) as (v1 & d1 & E1 & C1 & O1 & B1 & I1 & L1).
  destruct (block_flags_step v v1 g d1 (ch_ok _ _ _ _ _ C1) Hg C1 O1) as (v2 & v3 & d3 & E2 & E3 & C3 & O3 & B3 & I3 & L3 & S3).
  exists v1, v2, v3. split; [done|]. split; [done|]. split; [done|]. pose proof (ch_rest _ _ _ _ _ C3) as Hrest. split; [done|].
  apply (counts_change v I B I (updr B c m x) g v3 _ d3); try done.
  - rewrite I3, I1. by apply C.
  - congruence.
  - intros h Hh Hh'. rewrite free_updr by (done || lia).
    assert (g_last h < c \/ c + m - 1 < g_first h).
    { unfold g_first, g_last in *. unfold a_group in *. destruct (Z.lt_ge_cases h g); [left|right]; nia. }
    replace (Z.max 0 (Z.min (g_last h) (c + m - 1) - Z.max (g_first h) c + 1)) with 0 by lia. lia.
  - cbn. rewrite Hrest. apply C.
  - pose proof ratio_pos. pose proof (vg_limit V). rewrite (fbc_add v3 (ratio * free B c_first c_last)); [rewrite F2; lia| |].
    + unfold ext2fs_free_blocks_count. rewrite Hrest. apply C.
    + unfold fbc_limit. nia.
  - rewrite L3, L1. done.
Qed.

(** How many blocks of the range are in the group of its first one. *)
Lemma range_part c k : c_first <= c -> 1 <= k -> (c + k) * ratio <= blocks_count sb -> k * ratio < 2 ^ 32 ->
  let g := ext2fs_group_of_blk2 sb (c * ratio) in
  exists m, 1 <= m <= k /\ a_group sb g /\ g_first g <= c /\ c + m - 1 <= g_last g /\
    (if ext2fs_group_last_block2 sb g <? u64 (c * ratio + k * ratio) then u64 (ext2fs_group_last_block2 sb g - c * ratio + 1) else k * ratio) = m * ratio.
Proof using V.
  intros Hc Hk Hb Hn g. pose proof ratio_pos as Hr. pose proof (vg_63 V). pose proof (vg_blocks V). pose proof (vg_data V) as [Hd _]. pose proof (vg_bpg V) as [Eb Hb32].
  pose proof (vg_cpg V). pose proof data_block as Ed. pose proof (dg_groups sb (vg_desc V)).
  assert (Hg32 : groups sb < 2 ^ 32) by (pose proof (dg_all sb (vg_desc V)); pose proof (dg_size sb (vg_desc V)); nia).
  assert (Hblk : first_data_block sb <= c * ratio < blocks_count sb) by nia.
  destruct (block_group (c * ratio) Hblk) as (Hg & Hin & Hcl & _). fold g in Hg, Hin. rewrite Z.div_mul in Hin, Hcl by lia.
  assert (Hlast : forall h, a_group sb h -> h <> groups sb - 1 -> ext2fs_group_last_block2 sb h = (c_first + (h + 1) * cpg) * ratio - 1).
  { intros h Hh Hn'. unfold a_group in Hh. unfold ext2fs_group_last_block2, ext2fs_group_first_block2. rewrite (u32_small (groups sb - 1)) by (unfold is_u32; lia).
    destruct (Z.eqb_spec h (groups sb - 1)); [lia|]. assert ((h + 1) * bpg sb <= (groups sb - 1) * bpg sb) by nia.
    assert (0 <= h * bpg sb) by (apply Z.mul_nonneg_nonneg; nia).
    rewrite (u32_small (bpg sb - 1)) by (unfold is_u32; nia). rewrite (u64_small (bpg sb * h)) by (unfold is_u64; lia).
    rewrite (u64_small (first_data_block sb + bpg sb * h)), u64_small by (unfold is_u64; lia). rewrite Ed, Eb. lia. }
  rewrite (u64_small (c * ratio + k * ratio)) by (unfold is_u64; nia).
  assert (Hkl : c + k - 1 <= c_last) by (unfold c_last; apply Z.div_le_lower_bound; nia).
  destruct (decide (g = groups sb - 1)) as [Eg|Hng].
  - exists k. assert (Hl2 : ext2fs_group_last_block2 sb g = blocks_count sb - 1).
    { unfold ext2fs_group_last_block2. rewrite (u32_small (groups sb - 1)) by (unfold is_u32; lia). rewrite Eg, Z.eqb_refl. apply u64_small. unfold is_u64. lia. }
    split; [lia|]. split; [done|]. split; [lia|]. split.
    + unfold g_last. assert (c + k <= c_first + groups sb * cpg); [|unfold g_last in *; nia]. nia.
    + rewrite Hl2. destruct (Z.ltb_spec (blocks_count sb - 1) (c * ratio + k * ratio)); [|done]. rewrite u64_small by (unfold is_u64; nia). nia.
  - rewrite (Hlast g Hg Hng). unfold a_group in Hg. set (e := c_first + (g + 1) * cpg).
    assert (He : c < e) by (unfold g_last in Hin; unfold e; nia).
    exists (Z.min k (e - c)). split; [lia|]. split; [done|]. split; [lia|]. split.
    + unfold g_last in *. unfold e. lia.
    + destruct (Z.ltb_spec (e * ratio - 1) (c * ratio + k * ratio)).
      * assert (e - c <= k) by (apply (Z.mul_le_mono_pos_r _ _ ratio); lia). rewrite Z.min_r by lia.
        assert (0 <= (e - c) * ratio <= k * ratio) by (split; [apply Z.mul_nonneg_nonneg; lia|apply Z.mul_le_mono_nonneg_r; lia]).
        rewrite u64_small by (unfold is_u64; lia). lia.
      * assert (k <= e - c) by (apply (Z.mul_le_mono_pos_r _ _ ratio); lia). rewrite Z.min_l by lia. done.
Qed.

Lemma range_loop I x fuel : forall v B c k, counts_ok v I B -> c_first <= c -> 0 <= k -> (c + k) * ratio <= blocks_count sb -> k * ratio < 2 ^ 32 ->
  (forall j, c <= j < c + k -> B j = negb x) -> (Z.to_nat (k * ratio) < fuel)%nat ->
  exists v', stats_range sb fuel v (c * ratio) (k * ratio) (delta x) = Done ((c + k) * ratio, 0, v') /\ counts_ok v' I (updr B c k x) /\
    inode_map v' = inode_map v /\ block_map v' = block_map v /\ mem v' = mem v.
Proof using V.
  pose proof ratio_pos as Hr. pose proof (vg_63 V). pose proof c_bounds.
  induction fuel as [|fuel IH]; intros v B c k C Hc Hk Hb Hn Hf Hfu; [lia|]. cbn [stats_range].
  destruct (Z.eqb_spec (k * ratio) 0) as [Hz|Hz].
  { assert (k = 0) as -> by nia. rewrite Z.add_0_r. exists v. split; [by rewrite Z.mul_0_l|]. split; [|done]. apply (counts_ext v I B); [done|].
    intros j. rewrite updr_spec. destruct (decide _); [lia|done]. }
  destruct (range_part c k Hc ltac:(nia) Hb Hn) as (m & Hm & Hg & Hg1 & Hg2 & En). set (g := ext2fs_group_of_blk2 sb (c * ratio)) in *. rewrite En, ratio_eq.
  destruct (range_turn v I B c m g x C Hg ltac:(lia) Hg1 Hg2 Hc ltac:(nia)) as (v1 & v2 & v3 & E1 & E2 & E3 & Hrest & C3); [intros j Hj; apply Hf; lia|].
  apply obind_Done in E1 as (n & En' & E1). rewrite En'. cbn [obind]. rewrite E1. cbn [obind]. rewrite E2. cbn [obind]. rewrite E3. cbn [obind].
  rewrite (u64_small (c * ratio + m * ratio)), (u32_small (k * ratio - m * ratio)) by (unfold is_u64, is_u32; nia).
  replace (c * ratio + m * ratio) with ((c + m) * ratio) by lia. replace (k * ratio - m * ratio) with ((k - m) * ratio) by lia.
  destruct (IH (ext2fs_free_blocks_count_add sb v3 (u64 (- delta x * (m * ratio)))) (updr B c m x) (c + m) (k - m) C3) as (v' & E & C' & M1 & M2 & M3); try lia; try nia.
  { intros j Hj. rewrite updr_spec. destruct (decide _); [lia|]. apply Hf. lia. }
  exists v'. split; [rewrite E; do 3 f_equal; lia|]. split.
  - apply (counts_ext v' I _ _ C'). intros j. rewrite !updr_spec. destruct (decide (c <= j < c + k)), (decide (c + m <= j < c + m + (k - m))), (decide (c <= j < c + m)); done || lia.
  - rewrite M1, M2, M3. cbn. rewrite Hrest. done.
Qed.

Lemma range_stats_ok hook v I B c k x : stats_ok v I B -> c_first <= c -> 1 <= k -> (c + k) * ratio <= blocks_count sb -> k * ratio < 2 ^ 32 ->
  (forall j, c <= j < c + k -> B j = negb x) ->
  exists v', ext2fs_block_alloc_stats_range sb hook v (c * ratio) (k * ratio) (delta x) = Done v' /\ stats_ok v' I (updr B c k x).
Proof using V.
  intros S Hc Hk Hb Hn Hf. pose proof ratio_pos as Hr. pose proof (vg_63 V). pose proof c_bounds. pose proof (vg_cb V).
  assert (Hkl : c + k - 1 <= c_last) by (unfold c_last; apply Z.div_le_lower_bound; nia).
  unfold ext2fs_block_alloc_stats_range. rewrite u64_small by (unfold is_u64; nia). destruct (Z.ltb_spec (blocks_count sb) (c * ratio + k * ratio)); [nia|].
  destruct (Z.eqb_spec (delta x) 0); [by destruct x|]. replace (0 <? delta x) with x by (destruct x; done). fold (delta x).
  assert (Hmap : exists gm al, (if x then mark_blocks v (c * ratio) (k * ratio) else unmark_blocks v (c * ratio) (k * ratio)) = Done (set_block_map v gm al) /\
    bset gm al (updr B c k x) /\ later (mem v) al).
  { destruct (so_bmap _ _ _ S) as [top R]. set (sp := mk_spec c_first c_last top cb B) in *.
    assert (Ht : touched sp (c * ratio) (k * ratio) = Some (c, k)).
    { unfold touched, cluster. cbn. rewrite !Z.shiftr_div_pow2 by lia. rewrite Z.div_mul by lia.
      replace ((c * ratio + k * ratio - 1) / ratio) with (c + k - 1) by (apply Z.div_unique_pos with (ratio - 1); lia).
      destruct (Z.leb_spec c_first c), (Z.leb_spec (c + k - 1) c_last); try lia. cbn. do 2 f_equal. lia. }
    assert (Hall : 0 <= c * ratio /\ 1 <= k * ratio < 2 ^ 32 /\ c * ratio + k * ratio + 2 ^ 32 < 2 ^ 64) by nia.
    destruct x.
    - destruct (impl_step_ok (CMarkRange (c * ratio) (k * ratio)) _ sp R Hall) as ([gm al] & E & R' & Hl). cbn [impl_step] in E.
      apply obind_Done in E as (s1 & E & E'). injection E' as ->. cbn [spec_step snd] in R'. rewrite Ht in R'.
      exists gm, al. split; [unfold mark_blocks; rewrite E; done|]. split; [|done]. exists top. apply (rel_ext _ _ (updr B c k true)) in R'; [exact R'|].
      intros j. cbn. unfold updr. by destruct (in_range j c k).
    - destruct (impl_step_ok (CUnmarkRange (c * ratio) (k * ratio)) _ sp R Hall) as ([gm al] & E & R' & Hl). cbn [impl_step] in E.
      apply obind_Done in E as (s1 & E & E'). injection E' as ->. cbn [spec_step snd] in R'. rewrite Ht in R'.
      exists gm, al. split; [unfold unmark_blocks; rewrite E; done|]. split; [|done]. exists top. apply (rel_ext _ _ (updr B c k false)) in R'; [exact R'|].
      intros j. cbn. unfold updr. by destruct (in_range j c k). }
  destruct Hmap as (gm & al & -> & HB & Hl). cbn [obind].
  destruct (range_loop I x (Datatypes.S (Z.to_nat (k * ratio))) (set_block_map v gm al) B c k) as (v' & -> & C' & M1 & M2 & M3); try lia; try done.
  { by apply (counts_ok_same v); [apply S|..]. }
  cbn [obind]. eexists. split; [done|]. split.
  - apply (counts_ok_same v'); [done|by destruct hook..].
  - replace (inode_map _) with (inode_map v') by (by destruct hook). replace (mem _) with (mem v') by (by destruct hook). rewrite M1, M3. cbn.
    destruct (so_imap _ _ _ S) as [top R]. exists top. by apply (rel_later _ (mem v)).
  - replace (block_map _) with (block_map v') by (by destruct hook). replace (mem _) with (mem v') by (by destruct hook). rewrite M2, M3. done.
Qed.
End laws.
End volume.
