(* ===== verification/AllocInode.v ===== *)
(** [ext2fs_new_inode] finds a free inode whenever there is one, whatever group it
    starts in and whichever bitmaps are not initialized. *)

From S2P Require Import Prelude Crc Bitops BlockIo Bitmap32 Bitmap64 GenBitmap BitmapRefine BitmapProperties Group GroupSpec Alloc AllocSpec.

Local Open Scope Z_scope.

Section inodes.
Context (sb : super) (V : vol_geo sb).
Context {P : Type} `{BitmapLaws P}.
Implicit Types v : vol P.

(** A search for a zero bit between two numbers of the bitmap. *)
Lemma find_zero g al lo hi top cb f s e : rel (P := P) (g, al) (mk_spec lo hi top cb f) -> is_u64 s -> is_u64 e -> s <= e ->
  lo <= Z.shiftr s cb -> Z.shiftr e cb <= hi -> (exists c, lo <= c <= hi /\ f c = true) ->
  (exists z, ext2fs_find_first_zero_generic_bmap g s e = Done (0, Some z) /\ s <= z <= e /\ f (Z.shiftr z cb) = false /\
     forall j, s <= j < z -> f (Z.shiftr j cb) = true) \/
  (ext2fs_find_first_zero_generic_bmap g s e = Done (ENOENT, None) /\ forall j, s <= j <= e -> f (Z.shiftr j cb) = true).
Proof using.
  intros R Hs He Hse Hlo Hhi (c & Hc & Hu). set (sp := mk_spec lo hi top cb f) in *.
  assert (Hcb : 0 <= cb) by (destruct R as (b & _ & R); pose proof (rep_cb_range _ _ _ R); cbn in *; lia).
  destruct (impl_step_ok (CFindZero s e) (g, al) sp R) as (s' & E & _ & _).
  { split; [done|]. split; [done|]. exists c. split; [by apply has_cluster_spec|done]. }
  cbn [impl_step spec_step fst] in E. apply obind_Done in E as (r & E & Er). injection Er as -> <-. rewrite E.
  unfold cluster. cbn [BitmapRefine.lo BitmapRefine.hi BitmapRefine.cb sp].
  destruct (Z.leb_spec lo (Z.shiftr s cb)), (Z.leb_spec (Z.shiftr e cb) hi), (Z.leb_spec s e); try lia. cbn [andb]. unfold search.
  assert (Hin : forall j, s <= j <= e -> in_use sp j = f (Z.shiftr j cb)).
  { intros j Hj. unfold in_use, cluster. cbn. replace (has_cluster sp (Z.shiftr j cb)) with true; [done|]. symmetry. apply has_cluster_spec. cbn.
    assert (Z.shiftr s cb <= Z.shiftr j cb <= Z.shiftr e cb); [|lia]. rewrite !Z.shiftr_div_pow2 by lia. split; apply Z.div_le_mono; lia. }
  destruct (first_from _ _ s) as [z|] eqn:Ef.
  - left. apply first_from_Some in Ef as (Hz & Hf & Hk). exists z. split; [done|]. split; [lia|]. rewrite Hin in Hf by lia. split; [by apply negb_true_iff|].
    intros j Hj. pose proof (Hk j ltac:(lia)) as Hj'. rewrite Hin in Hj' by lia. by apply negb_false_iff.
  - right. split; [done|]. intros j Hj. pose proof (proj1 (first_from_None _ _ _) Ef j ltac:(lia)) as Hj'. cbn in Hj'. rewrite Hin in Hj' by lia. by apply negb_false_iff.
Qed.

(** * Bitmaps that are not initialized *)

Lemma unmark_inodes_ok n : forall g al ino I, iset sb g al I -> 1 <= ino -> ino + Z.of_nat n - 1 <= inodes_count sb ->
  (forall j, ino <= j < ino + Z.of_nat n -> I j = false) ->
  exists g' al', unmark_inodes n g al ino = Done (g', al') /\ iset sb g' al' I /\ later al al'.
Proof using V.
  pose proof (vg_inodes _ V) as [_ H32]. induction n as [|n IH]; intros g al ino I HI H1 Hn Hf; cbn [unmark_inodes]; [eauto using later_refl|].
  destruct HI as [top R]. destruct (rel_put false _ _ _ _ _ _ _ ino R) as (r & g1 & al1 & -> & R1 & Hl1); [rewrite Z.shiftr_0_r; lia|]. cbn [obind].
  rewrite Z.shiftr_0_r in R1. rewrite u32_small by (unfold is_u32; lia).
  assert (HI1 : iset sb g1 al1 I).
  { exists top. apply (rel_ext _ _ I) in R1; [exact R1|]. intros c. cbn. unfold upd. destruct (Z.eqb_spec c ino) as [->|]; [symmetry; apply Hf; lia|done]. }
  destruct (IH g1 al1 (ino + 1) I HI1) as (g2 & al2 & E & HI2 & Hl2); [lia..|intros j Hj; apply Hf; lia|].
  exists g2, al2. split; [done|]. split; [done|]. by apply (mem_later_trans al al1).
Qed.

(** The invariant holds of the file system with the bitmap [g]. *)
Definition with_map (g : generic_bitmap P) v (I B : Z -> bool) : Prop := stats_ok sb (set_inode_map v g (mem v)) I B.

Lemma check_uninit_ok g v I B group : with_map g v I B -> a_group sb group ->
  exists g' v', check_inode_uninit sb g v group = Done (g', v') /\ with_map g' v' I B.
Proof using V.
  intros S Hg. pose proof (vg_desc _ V) as G. assert (Hv : desc_ok sb v) by apply S. unfold check_inode_uninit.
  destruct (Z.leb_spec (groups sb) group); [unfold a_group in Hg; lia|]. cbn [orb].
  destruct (ext2fs_has_group_desc_csum sb) eqn:Hcs; cbn [negb]; [|eauto]. unfold ext2fs_bg_flags_test.
  rewrite (field16_eq sb G v group bg_flags Hv Hg (flags_place sb V)). cbn [obind]. fold (fl (desc sb v group)). change EXT2_BG_INODE_UNINIT with 1.
  destruct (Z.eqb_spec (Z.land (fl (desc sb v group)) 1) 0) as [|Hf]; [eauto|].
  pose proof (vg_ipg _ V) as [Hi1 _]. pose proof (vg_inodes _ V) as [Ei H32]. unfold a_group in Hg.
  rewrite u32_small by (unfold is_u32; nia).
  destruct (unmark_inodes_ok (Z.to_nat (ipg sb)) g (mem v) (group * ipg sb + 1) I (so_imap _ _ _ _ S)) as (g1 & al1 & -> & HI & Hl); [nia..| |].
  { intros j Hj. apply (co_uninit _ _ _ _ S group j); [done|done|exact Hf|lia]. }
  cbn [obind]. set (v1 := set_mem v al1). assert (Hv1 : desc_ok sb v1) by exact Hv.
  destruct (flags_step sb V v1 group 1 Hv1 Hg) as (v2 & d2 & -> & C2 & O2 & B2 & I2 & L2). cbn [obind].
  destruct (block_flags_step sb V v1 v2 group d2 (ch_ok _ _ _ _ _ C2) Hg C2 O2) as (v3 & v4 & d4 & -> & E4 & C4 & O4 & B4 & I4 & L4 & S4). cbn [obind]. rewrite E4. cbn [obind].
  pose proof (ch_rest _ _ _ _ _ C4) as Hrest. do 2 eexists. split; [done|]. split.
  - apply (counts_change sb (set_inode_map v g (mem v)) I B I B group (set_inode_map v4 g (mem v)) _ d4); try done.
    + apply S.
    + destruct C4 as [K1 K2 K3 K4]. constructor; [exact K1|exact K2|exact K3|]. rewrite K4. done.
    + rewrite I4, I2. by apply (co_ifree _ _ _ _ S).
    + rewrite B4, B2. by apply (co_bfree _ _ _ _ S).
    + cbn. rewrite Hrest. apply S.
    + unfold ext2fs_free_blocks_count. cbn. rewrite Hrest. apply S.
  - cbn. rewrite Hrest. exact HI.
  - cbn. rewrite Hrest. cbn. destruct (so_bmap _ _ _ _ S) as [top R]. exists top. by apply (rel_later _ (mem v)).
Qed.

(** * The search *)

Local Notation first := (EXT2_FIRST_INODE sb).
Local Notation count := (inodes_count sb).

Definition taken (I : Z -> bool) (a b : Z) : Prop := forall j, a <= j <= b -> I j = true.

(** The group of an inode, and how many turns of the loop are left: to the end of the
    inodes, and then to the start again. *)
Definition grp (i : Z) : Z := (i - 1) / ipg sb.
Definition turns (start i : Z) : Z := if start <=? i then groups sb - grp i + grp start + 2 else grp start + 1 - grp i.

Lemma grp_spec i : grp i * ipg sb + 1 <= i <= grp i * ipg sb + ipg sb /\ (i - 1) mod ipg sb = i - 1 - grp i * ipg sb.
Proof using V.
  pose proof (vg_ipg _ V). unfold grp. pose proof (Z.div_mod (i - 1) (ipg sb) ltac:(lia)). pose proof (Z.mod_pos_bound (i - 1) (ipg sb) ltac:(lia)). lia.
Qed.

Lemma grp_mono i j : i <= j -> grp i <= grp j.
Proof using V. intros. pose proof (vg_ipg _ V). unfold grp. apply Z.div_le_mono; lia. Qed.

(** An inode behind the first one of the next group. *)
Lemma grp_next i j : grp i * ipg sb + ipg sb + 1 < j -> grp i < grp j.
Proof using V. intros. pose proof (vg_ipg _ V). destruct (grp_spec j) as [Hj _]. nia. Qed.

Lemma grp_bounds i : 1 <= i <= count -> 0 <= grp i < groups sb.
Proof using V. intros Hi. pose proof (vg_ipg _ V). pose proof (vg_inodes _ V) as [Ei _]. rewrite Ei in Hi. destruct (grp_spec i) as [Hj _]. nia. Qed.

(** Where the loop is: in its first part, or in front of where it started. *)
Definition at_inode (I : Z -> bool) (start i : Z) : Prop :=
  start <= i <= count /\ taken I start (i - 1) \/ first <= i < start /\ taken I start count /\ taken I first (i - 1).

(** The last inode a turn looks at. *)
Definition upto (start i : Z) : Z :=
  let u := grp i * ipg sb + ipg sb + 1 in let u := if (i <? start) && (start <=? u) then start - 1 else u in if count <? u then count else u.

Definition next_inode (start i : Z) : Z := if count <? upto start i + 1 then first else upto start i + 1.

Lemma turn_ok I start i : first <= start <= count -> at_inode I start i -> taken I i (upto start i) ->
  i <= upto start i <= count /\
  (next_inode start i = start -> taken I first count) /\
  (next_inode start i <> start -> at_inode I start (next_inode start i) /\ turns start (next_inode start i) < turns start i).
Proof using V.
  intros Hs Ha Ht. pose proof (vg_first _ V) as Hf. pose proof (vg_ipg _ V) as [Hp _]. destruct (grp_spec i) as [Hi _].
  assert (Hi1 : 1 <= i <= count) by (destruct Ha; lia). pose proof (grp_bounds i Hi1). pose proof (grp_bounds start ltac:(lia)).
  assert (Hu : i <= upto start i <= count).
  { unfold upto. cbn zeta. destruct (Z.ltb_spec i start), (Z.leb_spec start (grp i * ipg sb + ipg sb + 1)); cbn [andb];
      match goal with |- context [count <? ?u] => destruct (Z.ltb_spec count u) end; lia. }
  split; [done|]. unfold next_inode. destruct Ha as [[Hr Ha]|(Hr & Ha & Hb)].
  - assert (Hall : taken I start (upto start i)) by (intros j Hj; destruct (Z.lt_ge_cases j i); [apply Ha|apply Ht]; lia).
    destruct (Z.ltb_spec count (upto start i + 1)) as [Hw|Hw].
    + split; [intros E j Hj; apply Hall; lia|]. intros Hne. split; [right; split; [lia|]; split; intros j Hj; [apply Hall; lia|lia]|].
      unfold turns. destruct (Z.leb_spec start first); [lia|]. destruct (Z.leb_spec start i); [|lia]. pose proof (grp_bounds first ltac:(lia)). lia.
    + split; [lia|]. intros _. split; [left; split; [lia|]; intros j Hj; apply Hall; lia|].
      unfold turns. destruct (Z.leb_spec start (upto start i + 1)); [|lia]. destruct (Z.leb_spec start i); [|lia].
      assert (grp i < grp (upto start i + 1)); [|lia]. apply grp_next. unfold upto in *. cbn zeta in *. destruct (Z.ltb_spec i start); [lia|]. cbn [andb] in *.
      destruct (Z.ltb_spec count (grp i * ipg sb + ipg sb + 1)); lia.
  - assert (Hlt : upto start i < start).
    { unfold upto. cbn zeta. destruct (Z.ltb_spec i start); [|lia]. destruct (Z.leb_spec start (grp i * ipg sb + ipg sb + 1)); cbn [andb];
        match goal with |- context [count <? ?u] => destruct (Z.ltb_spec count u) end; lia. }
    assert (Hall : taken I first (upto start i)) by (intros j Hj; destruct (Z.lt_ge_cases j i); [apply Hb|apply Ht]; lia).
    destruct (Z.ltb_spec count (upto start i + 1)); [lia|]. split.
    + intros E j Hj. destruct (Z.lt_ge_cases j start); [apply Hall|apply Ha]; lia.
    + intros Hne. split; [right; split; [lia|]; split; [done|]; intros j Hj; apply Hall; lia|].
      unfold turns. destruct (Z.leb_spec start (upto start i + 1)); [lia|]. destruct (Z.leb_spec start i); [lia|].
      assert (grp i < grp (upto start i + 1)); [|lia]. apply grp_next. unfold upto in *. cbn zeta in *. destruct (Z.ltb_spec i start); [|lia].
      destruct (Z.leb_spec start (grp i * ipg sb + ipg sb + 1)); cbn [andb] in *; [destruct (Z.ltb_spec count (start - 1)); lia|].
      destruct (Z.ltb_spec count (grp i * ipg sb + ipg sb + 1)); lia.
Qed.

Lemma new_inode_loop_ok I B start fuel : first <= start <= count -> (exists j, 1 <= j <= count /\ I j = true) ->
  forall g v i, with_map g v I B -> at_inode I start i -> turns start i < Z.of_nat fuel ->
  exists z g' v', new_inode_loop sb fuel g v start i = Done (inr z, g', v') /\ with_map g' v' I B /\
    (first <= z <= count /\ I z = false \/ z = start /\ taken I first count).
Proof using V.
  intros Hs Hused. pose proof (vg_first _ V) as Hf1. pose proof (vg_inodes _ V) as [_ H32]. pose proof (vg_ipg _ V) as [Hp _].
  induction fuel as [|fuel IH]; intros g v i Hw Ha Hfu.
  { exfalso. assert (Hi1 : 1 <= i <= count) by (destruct Ha; lia). pose proof (grp_bounds i Hi1). pose proof (grp_bounds start ltac:(lia)).
    unfold turns in Hfu. destruct (Z.leb_spec start i); [lia|]. pose proof (grp_mono i start). lia. }
  assert (Hi1 : 1 <= i <= count) by (destruct Ha; lia). pose proof (grp_bounds i Hi1) as Hgi. cbn [new_inode_loop].
  destruct (check_uninit_ok g v I B ((i - 1) / ipg sb) Hw Hgi) as (g1 & v1 & -> & Hw1). cbn [obind].
  destruct (grp_spec i) as [Hgr ->].
  assert (Hend : u32 (i + (ipg sb - (i - 1 - grp i * ipg sb))) = grp i * ipg sb + ipg sb + 1).
  { rewrite u32_small; [lia|]. unfold is_u32. pose proof (vg_inodes _ V) as [Ei _]. nia. }
  rewrite Hend. match goal with |- context [ext2fs_find_first_zero_generic_bmap g1 i ?e] => change e with (upto start i) end.
  destruct (so_imap _ _ _ _ Hw1) as [top R]. cbn in R.
  assert (Hu : i <= upto start i <= count).
  { unfold upto. cbn zeta. destruct (Z.ltb_spec i start), (Z.leb_spec start (grp i * ipg sb + ipg sb + 1)); cbn [andb];
      match goal with |- context [count <? ?u] => destruct (Z.ltb_spec count u) end; lia. }
  destruct (find_zero g1 _ _ _ _ _ _ i (upto start i) R) as [(z & -> & Hz & Hzf & _)|[-> Hall]]; try (unfold is_u64; lia); try (rewrite Z.shiftr_0_r; lia); [done|..];
    cbn [obind].
  - rewrite Z.shiftr_0_r in Hzf. exists z, g1, v1. split; [done|]. split; [done|]. left. split; [|done]. destruct Ha; lia.
  - change (negb (ENOENT =? ENOENT)) with false. cbv iota. rewrite u32_small by (unfold is_u32; lia).
    match goal with |- context [?e =? start] => change e with (next_inode start i) end.
    destruct (turn_ok I start i Hs Ha) as (_ & Hdone & Hgo); [intros j Hj; specialize (Hall j Hj); by rewrite Z.shiftr_0_r in Hall|].
    destruct (Z.eqb_spec (next_inode start i) start) as [E|Hne].
    + exists (next_inode start i), g1, v1. split; [done|]. split; [done|]. right. auto.
    + destruct (Hgo Hne) as [Ha' Ht']. apply (IH g1 v1); [done|done|lia].
Qed.

(** What a search for a free inode gives. *)
Definition inode_found (I : Z -> bool) (r : Z) (ret : option Z) : Prop :=
  (exists i, r = 0 /\ ret = Some i /\ first <= i <= count /\ I i = false) \/ (r = EXT2_ET_INODE_ALLOC_FAIL /\ ret = None /\ taken I first count).

Lemma new_inode_ok v I B dir : stats_ok sb v I B -> 0 <= dir <= count -> (exists j, 1 <= j <= count /\ I j = true) ->
  exists r ret v', ext2fs_new_inode sb v dir None = Done (r, ret, None, v') /\ stats_ok sb v' I B /\ inode_found I r ret.
Proof using V.
  intros S Hd Hused. pose proof (vg_first _ V) as Hf. pose proof (vg_ipg _ V) as [Hp _]. pose proof (vg_inodes _ V) as [Ei H32].
  unfold ext2fs_new_inode, bad_fs_magic. rewrite (vg_magic _ V), Z.eqb_refl. cbn [negb get_map].
  destruct (so_imap _ _ _ _ S) as (top & b & Eb & R). cbn in Eb. rewrite Eb.
  assert (Hst : exists st, (if 0 <? dir then u32 ((dir - 1) / ipg sb * ipg sb + 1) else 0) = st /\ 0 <= st <= count).
  { destruct (Z.ltb_spec 0 dir); [|eexists; split; [done|lia]]. eexists. split; [done|]. destruct (grp_spec dir) as [Hgd _]. pose proof (grp_bounds dir ltac:(lia)).
    fold (grp dir). rewrite u32_small; unfold is_u32; nia. }
  destruct Hst as (st & -> & Hst). set (start := if st <? first then first else st).
  assert (Hs : first <= start <= count) by (unfold start; destruct (Z.ltb_spec st first); lia).
  destruct (Z.ltb_spec count start); [lia|].
  assert (Hw : with_map (Gen64 b) v I B) by (unfold with_map; rewrite <- Eb; destruct v; exact S).
  destruct (new_inode_loop_ok I B start (Z.to_nat (groups sb) + 3) Hs Hused (Gen64 b) v start Hw) as (z & g' & v' & -> & Hw' & Hz).
  { left. split; [lia|]. intros j Hj. lia. }
  { unfold turns. destruct (Z.leb_spec start start); [|lia]. pose proof (grp_bounds start ltac:(lia)). lia. }
  cbn [obind]. destruct (so_imap _ _ _ _ Hw') as (top' & b' & Eb' & R'). cbn in Eb'. subst g'.
  destruct (test_generic b' _ _ z R') as (t & b2 & Et & Ht & R2). cbn [fst snd] in Et. rewrite Et. cbn [obind]. rewrite Ht.
  assert (Hin : first <= z <= count) by (destruct Hz as [[? _]|[-> _]]; lia).
  replace (in_use _ z) with (I z).
  2: { unfold in_use, cluster. cbn. rewrite Z.shiftr_0_r. unfold has_cluster. cbn. destruct (Z.leb_spec 1 z), (Z.leb_spec z count); try lia. done. }
  assert (Hfin : stats_ok sb (set_inode_map v' (Gen64 b2) (mem v')) I B).
  { split; [by apply (counts_ok_same sb (set_inode_map v' (Gen64 b') (mem v'))); [apply Hw'|..]|exists top', b2; done|apply Hw']. }
  destruct (I z) eqn:Ez.
  - do 3 eexists. split; [done|]. split; [done|]. right. split; [done|]. split; [done|]. destruct Hz as [[_ ?]|[_ ?]]; [congruence|done].
  - do 3 eexists. split; [done|]. split; [done|]. left. by exists z.
Qed.
End inodes.
