(* ===== verification/AllocBlock.v ===== *)
(** [ext2fs_new_block3] finds a free block whenever there is one, and
    [ext2fs_new_range] finds a run of free blocks of a given length whenever there is
    one; the blocks of a range are taken. *)

From S2P Require Import Prelude Crc Bitops BlockIo Bitmap32 Bitmap64 GenBitmap BitmapRefine BitmapProperties Group GroupSpec Alloc AllocSpec AllocInode.

Local Open Scope Z_scope.

Section blocks.
Context (sb : super) (V : vol_geo sb).
Context {P : Type} `{BitmapLaws P}.
Implicit Types v : vol P.
Local Notation cb := (cluster_ratio_bits (geo sb)).
Local Notation ratio := (2 ^ cluster_ratio_bits (geo sb)).
Local Notation first := (first_data_block sb).
Local Notation count := (blocks_count sb).

(** * Searches in the block bitmap *)

Definition in_use_blk (B : Z -> bool) (blk : Z) : bool := B (blk / ratio).

Lemma blk_cluster blk : first <= blk < count -> c_first sb <= blk / ratio <= c_last sb.
Proof using V. intros Hb. apply (block_group sb V blk Hb). Qed.

Lemma find_free g al B s e : bset sb (P := P) g al B -> first <= s <= e -> e < count -> (exists c, c_first sb <= c <= c_last sb /\ B c = true) ->
  (exists z, ext2fs_find_first_zero_generic_bmap g s e = Done (0, Some z) /\ s <= z <= e /\ in_use_blk B z = false /\
     forall j, s <= j < z -> in_use_blk B j = true) \/
  (ext2fs_find_first_zero_generic_bmap g s e = Done (ENOENT, None) /\ forall j, s <= j <= e -> in_use_blk B j = true).
Proof using V.
  intros [top R] Hs He Hused. pose proof (vg_cb _ V). pose proof (vg_63 _ V). pose proof (vg_data _ V) as [Hd _].
  assert (Hsh : forall j, B (Z.shiftr j cb) = in_use_blk B j) by (intros j; by rewrite Z.shiftr_div_pow2 by lia).
  destruct (find_zero g al _ _ _ _ _ s e R) as [(z & E & Hz & Hf & Hk)|[E Hk]]; try (unfold is_u64; lia); try done;
    try (rewrite Z.shiftr_div_pow2 by lia; apply blk_cluster; lia).
  - left. exists z. rewrite <- Hsh. split; [done|]. split; [done|]. split; [done|]. intros j Hj. rewrite <- Hsh. by apply Hk.
  - right. split; [done|]. intros j Hj. rewrite <- Hsh. by apply Hk.
Qed.

Lemma find_used g al B s e : bset sb (P := P) g al B -> first <= s <= e -> e < count ->
  (exists z, ext2fs_find_first_set_generic_bmap g s e = Done (0, Some z) /\ s <= z <= e /\ in_use_blk B z = true /\
     forall j, s <= j < z -> in_use_blk B j = false) \/
  (ext2fs_find_first_set_generic_bmap g s e = Done (ENOENT, None) /\ forall j, s <= j <= e -> in_use_blk B j = false).
Proof using V.
  intros [top R] Hs He. pose proof (vg_cb _ V). pose proof (vg_63 _ V). pose proof (vg_data _ V) as [Hd _].
  set (sp := mk_spec (c_first sb) (c_last sb) top cb B) in *. pose proof (blk_cluster s ltac:(lia)). pose proof (blk_cluster e ltac:(lia)).
  destruct (impl_step_ok (CFindSet s e) (g, al) sp R) as (s' & E & _ & _); [split; unfold is_u64; lia|].
  cbn [impl_step spec_step fst] in E. apply obind_Done in E as (r & E & Er). injection Er as -> <-. rewrite E.
  unfold cluster. cbn [BitmapRefine.lo BitmapRefine.hi BitmapRefine.cb sp]. rewrite !Z.shiftr_div_pow2 by lia.
  destruct (Z.leb_spec (c_first sb) (s / ratio)), (Z.leb_spec (e / ratio) (c_last sb)), (Z.leb_spec s e); try lia. cbn [andb]. unfold search.
  assert (Hin : forall j, s <= j <= e -> in_use sp j = in_use_blk B j).
  { intros j Hj. unfold in_use, cluster. cbn. rewrite Z.shiftr_div_pow2 by lia. replace (has_cluster sp (j / ratio)) with true; [done|].
    symmetry. apply has_cluster_spec. apply blk_cluster. lia. }
  destruct (first_from _ _ s) as [z|] eqn:Ef.
  - left. apply first_from_Some in Ef as (Hz & Hf & Hk). exists z. split; [done|]. split; [lia|]. rewrite Hin in Hf by lia. split; [done|].
    intros j Hj. rewrite <- Hin by lia. apply Hk. lia.
  - right. split; [done|]. intros j Hj. rewrite <- Hin by lia. apply (proj1 (first_from_None _ _ _) Ef j). lia.
Qed.

(** * One block *)

Lemma clear_uninit_ok v I B group : stats_ok sb v I B -> 0 <= group ->
  exists v', ext2fs_clear_block_uninit sb v group = Done v' /\ stats_ok sb v' I B.
Proof using V.
  intros S H0'. pose proof (vg_desc _ V) as G. unfold ext2fs_clear_block_uninit. destruct (Z.leb_spec (groups sb) group); cbn [orb]; [eauto|].
  assert (Hg : a_group sb group) by (unfold a_group; lia). pose proof (co_desc _ _ _ _ S) as Hv.
  destruct (ext2fs_has_group_desc_csum sb); cbn [negb]; [|eauto]. unfold ext2fs_bg_flags_test.
  rewrite (field16_eq sb G v group bg_flags Hv Hg (flags_place sb V)). cbn [obind]. destruct (_ =? 0); [eauto|].
  destruct (block_flags_step sb V v v group (desc sb v group) Hv Hg (change_refl sb v group Hv) (desc_d_ok sb G v group Hv Hg))
    as (v1 & v2 & d & -> & E2 & C & O & B2 & I2 & L2 & S2). cbn [obind]. rewrite E2. cbn [obind]. eexists. split; [done|].
  pose proof (ch_rest _ _ _ _ _ C) as Hrest. split; [|cbn; rewrite Hrest; apply S..].
  apply (counts_change sb v I B I B group v2 _ d); try done; [apply S|rewrite I2; by apply S|rewrite B2; by apply S|cbn; rewrite Hrest; apply S| |rewrite L2; done].
  unfold ext2fs_free_blocks_count. cbn. rewrite Hrest. apply S.
Qed.

Lemma group_of_blk_nonneg blk : 0 <= ext2fs_group_of_blk2 sb blk.
Proof using. unfold ext2fs_group_of_blk2. apply u32_range. Qed.

Definition block_found (B : Z -> bool) (r : Z) (ret : option Z) : Prop :=
  (exists b, r = 0 /\ ret = Some b /\ first <= b < count /\ in_use_blk B b = false) \/
  (r = EXT2_ET_BLOCK_ALLOC_FAIL /\ ret = None /\ forall b, first <= b < count -> in_use_blk B b = true).

Lemma align_goal x : 0 <= x -> Z.land x (Z.lnot (cluster_ratio sb - 1)) = x / ratio * ratio.
Proof using V.
  intros Hx. pose proof (vg_cb _ V). rewrite (ratio_eq sb V). replace (ratio - 1) with (Z.ones cb) by (rewrite Z.ones_equiv; lia).
  rewrite <- Z.ldiff_land, Z.ldiff_ones_r by lia. rewrite Z.shiftr_div_pow2, Z.shiftl_mul_pow2 by lia. done.
Qed.

(** A goal that is not in front of the data. *)
Definition goal_ok (goal : Z) : Prop := goal = 0 \/ first <= goal < 2 ^ 64.

(** The goal the functions use. *)
Definition use_goal (goal : Z) : Z := if (goal =? 0) || (count <=? goal) then first else goal.

Lemma use_goal_ok goal : goal_ok goal -> first <= use_goal goal < count.
Proof using V. pose proof (vg_data _ V) as [Hd _]. unfold goal_ok, use_goal. destruct (Z.eqb_spec goal 0), (Z.leb_spec count goal); cbn [orb]; lia. Qed.

Lemma new_block_ok v I B goal : stats_ok sb v I B -> goal_ok goal -> (exists c, c_first sb <= c <= c_last sb /\ B c = true) ->
  exists r ret v', ext2fs_new_block3 sb None v goal None = Done (r, ret, v') /\ stats_ok sb v' I B /\ block_found B r ret.
Proof using V.
  intros S Hg Hused. pose proof (vg_data _ V) as [Hd _]. pose proof (vg_63 _ V). pose proof (ratio_pos sb V) as Hr. pose proof (data_block sb V) as Ed.
  unfold ext2fs_new_block3, bad_fs_magic. rewrite (vg_magic _ V), Z.eqb_refl. cbn [negb get_map].
  pose proof (so_bmap _ _ _ _ S) as HB. pose proof HB as (top & b & Eb & R). cbn in Eb. rewrite Eb in *. fold (use_goal goal).
  pose proof (use_goal_ok goal Hg) as Hu. rewrite align_goal by lia. set (gl := use_goal goal / ratio * ratio).
  assert (Hgl : first <= gl <= use_goal goal).
  { pose proof (Z.div_mod (use_goal goal) ratio ltac:(lia)). pose proof (Z.mod_pos_bound (use_goal goal) ratio ltac:(lia)).
    assert (c_first sb <= use_goal goal / ratio) by (apply blk_cluster; lia). unfold gl. nia. }
  rewrite (u64_small (count - 1)) by (unfold is_u64; lia).
  assert (Hfin : forall z, first <= z < count -> in_use_blk B z = false ->
    exists r ret v', new_block_end sb 0 (Some z) v = Done (r, ret, v') /\ stats_ok sb v' I B /\ block_found B r ret).
  { intros z Hz Hf. unfold new_block_end. cbn [Z.eqb negb default from_option id]. change (0 =? ENOENT) with false. cbv iota.
    destruct (clear_uninit_ok v I B _ S (group_of_blk_nonneg z)) as (v' & -> & S'). cbn [obind]. do 3 eexists. split; [done|]. split; [done|]. left. by exists z. }
  destruct (find_free _ _ B gl (count - 1) HB ltac:(lia) ltac:(lia) Hused) as [(z & -> & Hz & Hf & _)|[-> Hall]]; cbn [obind].
  - change (0 =? ENOENT) with false. cbn [andb obind]. apply Hfin; [lia|done].
  - change (ENOENT =? ENOENT) with true. cbn [andb]. destruct (Z.eqb_spec gl first) as [E|Hne]; cbn [negb obind].
    + do 3 eexists. split; [done|]. split; [done|]. right. split; [done|]. split; [done|]. intros j Hj. apply Hall. lia.
    + rewrite (u64_small (gl - 1)) by (unfold is_u64; lia).
      destruct (find_free _ _ B first (gl - 1) HB ltac:(lia) ltac:(lia) Hused) as [(z & -> & Hz & Hf & _)|[-> Hall2]]; cbn [obind].
      * apply Hfin; [lia|done].
      * do 3 eexists. split; [done|]. split; [done|]. right. split; [done|]. split; [done|]. intros j Hj.
        destruct (Z.lt_ge_cases j gl); [apply Hall2|apply Hall]; lia.
Qed.

(** [ext2fs_alloc_block3] takes the block it found. *)
Lemma alloc_block_ok zero read hook v I B goal : stats_ok sb v I B -> goal_ok goal -> (exists c, c_first sb <= c <= c_last sb /\ B c = true) ->
  (forall b, zero b 1 = 0) ->
  exists r ret v', ext2fs_alloc_block3 sb None zero read hook v goal = Done (r, ret, v') /\ block_found B r ret /\
    stats_ok sb v' I (match ret with Some b => upd B (b / ratio) true | None => B end).
Proof using V.
  intros S Hg Hused Hz. pose proof (so_bmap _ _ _ _ S) as (top & bm & Eb & R). cbn in Eb. unfold ext2fs_alloc_block3. rewrite Eb. cbn [obind negb Z.eqb].
  destruct (new_block_ok v I B goal S Hg Hused) as (r & ret & v1 & -> & S1 & Hf). cbn [obind]. destruct Hf as [(b & -> & -> & Hb & Hu)|(-> & -> & Hu)].
  - cbn [negb Z.eqb]. rewrite Hz. cbn [negb Z.eqb]. destruct (block_stats_ok sb V hook v1 I B b true S1 Hb Hu) as (v2 & E & S2). change (delta true) with 1 in E. rewrite E. cbn [obind].
    do 3 eexists. split; [done|]. split; [left; by exists b|done].
  - do 3 eexists. split; [done|]. split; [by right|done].
Qed.

(** * Runs of blocks *)

(** The [n] blocks from [s] on are free. *)
Definition free_run (B : Z -> bool) (s n : Z) : Prop := first <= s /\ s + n <= count /\ forall j, s <= j < s + n -> in_use_blk B j = false.

Definition aligned (x : Z) : Prop := x mod ratio = 0.

(** Where blocks begin or end to be used, a cluster begins. *)
Lemma edge_aligned B a b : in_use_blk B (a - 1) <> in_use_blk B a -> b = a -> aligned b.
Proof using V.
  intros Hd ->. pose proof (ratio_pos sb V) as Hr. unfold aligned, in_use_blk in *. destruct (Z.eq_dec (a mod ratio) 0) as [|Hn]; [done|]. exfalso. apply Hd. f_equal.
  pose proof (Z.div_mod a ratio ltac:(lia)). pose proof (Z.mod_pos_bound a ratio ltac:(lia)). symmetry. apply Z.div_unique_pos with (a mod ratio - 1); lia.
Qed.

Lemma clear_range_ok I B en fuel : forall v b, stats_ok sb v I B -> 0 <= b -> b < en + bpg sb -> en <= count -> en - b <= (Z.of_nat fuel - 1) * bpg sb ->
  exists v', clear_uninit_range sb fuel v b en = Done v' /\ stats_ok sb v' I B.
Proof using V.
  pose proof (vg_63 _ V). pose proof (vg_bpg _ V) as [Eb Hb32]. pose proof (vg_cpg _ V). pose proof (ratio_pos sb V).
  assert (Hb : 0 < bpg sb) by nia. induction fuel as [|fuel IH]; intros v b S H0' Hbe He Hf; [lia|]. cbn [clear_uninit_range].
  destruct (Z.ltb_spec b en); [|eauto]. destruct (clear_uninit_ok v I B _ S (group_of_blk_nonneg b)) as (v1 & -> & S1). cbn [obind].
  rewrite u64_small by (unfold is_u64; lia). apply IH; [done|lia..].
Qed.

Lemma range_found_ok v I B s en : stats_ok sb v I B -> first <= s -> s <= en -> en <= count ->
  exists v', range_found sb v s en = Done (0, Some (s, en - s), v') /\ stats_ok sb v' I B.
Proof using V.
  intros S Hs Hse He. pose proof (vg_blocks _ V) as [_ Hb]. pose proof (vg_data _ V) as [Hd _]. pose proof (vg_bpg _ V) as [Eb _]. pose proof (vg_cpg _ V). pose proof (ratio_pos sb V).
  pose proof (dg_groups sb (vg_desc _ V)). assert (0 < bpg sb) by nia. unfold range_found.
  destruct (clear_range_ok I B en (Z.to_nat (groups sb) + 2) v s S) as (v' & -> & S'); [lia..|]. cbn [obind]. eauto.
Qed.

(** What the search for a run gives. *)
Definition run_found v I B (len : Z) (r : outcome (Z * option (Z * Z) * vol P)) : Prop :=
  exists b v', r = Done (0, Some (b, len), v') /\ stats_ok sb v' I B /\ free_run B b len /\ aligned b.

(** The results of the searches are compared. *)
Ltac codes :=
  cbn [obind]; change (0 =? ENOENT) with false; change (ENOENT =? ENOENT) with true; change (0 =? 0) with true; change (ENOENT =? 0) with false;
  cbn [negb andb orb default from_option id].

Section search.
Context (v : vol P) (I B : Z -> bool) (S : stats_ok sb v I B) (Hused : exists c, c_first sb <= c <= c_last sb /\ B c = true).
Context (goal len : Z) (Hgoal : first <= goal < count) (Hlen : 1 <= len < 2 ^ 32) (Hal : aligned len).
Local Notation loop := (fun fuel => new_range_loop sb fuel (block_map v) v EXT2_NEWRANGE_MIN_LENGTH goal len).

(** What a turn of the loop does, from [start]. *)
Inductive turn (start : Z) : Prop :=
| TurnNone : (forall j, start <= j < count -> in_use_blk B j = true) ->
    (forall fuel looped, negb looped || (start <=? goal) = true -> loop (Datatypes.S fuel) looped start =
       if start =? first then Done (EXT2_ET_BLOCK_ALLOC_FAIL, None, v) else loop fuel looped first) -> turn start
| TurnFound : (forall fuel looped, negb looped || (start <=? goal) = true -> run_found v I B len (loop (Datatypes.S fuel) looped start)) -> turn start
| TurnNext e : start < e <= count -> aligned e -> (forall s, free_run B s len -> start <= s -> e <= s) -> e < count ->
    (forall fuel looped, negb looped || (start <=? goal) = true -> loop (Datatypes.S fuel) looped start = loop fuel looped e) -> turn start
| TurnEnd : (forall s, free_run B s len -> start <= s -> False) ->
    (forall fuel looped, negb looped || (start <=? goal) = true -> loop (Datatypes.S fuel) looped start =
       if looped then Done (EXT2_ET_BLOCK_ALLOC_FAIL, None, v) else loop fuel true first) -> turn start.

Lemma a_turn start : first <= start < count -> aligned start -> turn start.
Proof using V S Hused Hgoal Hlen Hal.
  intros Hs Ha. pose proof (vg_63 _ V). pose proof (vg_data _ V) as [Hd _]. pose proof (ratio_pos sb V) as Hr. pose proof (so_bmap _ _ _ _ S) as HB.
  assert (Efix : flag_set EXT2_NEWRANGE_MIN_LENGTH EXT2_NEWRANGE_FIXED_GOAL = false) by done.
  assert (Emin : flag_set EXT2_NEWRANGE_MIN_LENGTH EXT2_NEWRANGE_MIN_LENGTH = true) by done.
  destruct (find_free _ _ B start (count - 1) HB ltac:(lia) ltac:(lia) Hused) as [(z & Ez & Hz & Hzf & Hzk)|[Ez Hall]].
  2: { apply TurnNone; [intros j Hj; apply Hall; lia|]. intros fuel looped Hc. cbn [new_range_loop]. rewrite Hc, u64_small by (unfold is_u64; lia). rewrite Ez. cbn [obind negb].
       change (ENOENT =? ENOENT) with true. rewrite Efix. done. }
  assert (Hza : aligned z).
  { destruct (Z.eq_dec z start) as [->|Hn]; [done|]. apply (edge_aligned B z); [|done]. rewrite Hzf, Hzk by lia. done. }
  set (b := Z.min (z + len - 1) (count - 1)).
  assert (Eu : Z.min (u64 (z + len - 1)) (count - 1) = b) by (rewrite u64_small by (unfold is_u64; lia); done).
  assert (Hb : z <= b < count) by (unfold b; lia).
  destruct (find_used _ _ B z b HB ltac:(lia) ltac:(lia)) as [(e & Ee & He & Heu & Hek)|[Ee Hall]].
  - assert (z < e) by (destruct (Z.eq_dec e z) as [->|]; [congruence|lia]).
    apply (TurnNext start e); [lia| | |lia|].
    + apply (edge_aligned B e); [|done]. rewrite Heu, Hek by lia. done.
    + intros s (Hs1 & Hs2 & Hs3) Hle. assert (z <= s) by (destruct (Z.lt_ge_cases s z) as [Hlt|]; [pose proof (Hzk s ltac:(lia)); rewrite (Hs3 s) in * by lia; congruence|done]).
      destruct (Z.lt_ge_cases s e) as [Hlt|]; [|done]. rewrite (Hs3 e) in Heu by (unfold b in *; lia). congruence.
    + intros fuel looped Hc. cbn [new_range_loop]. rewrite Hc, (u64_small (count - 1)) by (unfold is_u64; lia). rewrite Ez. codes.
       rewrite Efix, Emin, Eu, Ee. codes.
      rewrite u64_small by (unfold is_u64; lia). destruct (Z.leb_spec len (e - z)); [unfold b in He; lia|]. destruct (Z.leb_spec count e); [lia|]. done.
  - destruct (Z.lt_ge_cases (count - 1) (z + len - 1)) as [Hcut|Hfull].
    + apply TurnEnd.
      * intros s (Hs1 & Hs2 & Hs3) Hle. assert (z <= s) by (destruct (Z.lt_ge_cases s z) as [Hlt|]; [pose proof (Hzk s ltac:(lia)); rewrite (Hs3 s) in * by lia; congruence|done]). lia.
      * intros fuel looped Hc. cbn [new_range_loop]. rewrite Hc, (u64_small (count - 1)) by (unfold is_u64; lia). rewrite Ez. codes.
         rewrite Efix, Emin, Eu, Ee. codes.
        rewrite (u64_small (b + 1)), u64_small by (unfold is_u64; lia). destruct (Z.leb_spec len (b + 1 - z)); [unfold b in *; lia|]. destruct (Z.leb_spec count (b + 1)); [|unfold b in *; lia]. done.
    + apply TurnFound. intros fuel looped Hc. cbn [new_range_loop]. rewrite Hc, (u64_small (count - 1)) by (unfold is_u64; lia). rewrite Ez. codes.
       rewrite Efix, Emin, Eu, Ee. codes.
      rewrite (u64_small (b + 1)), u64_small by (unfold is_u64; lia). destruct (Z.leb_spec len (b + 1 - z)); [|unfold b in *; lia].
      destruct (range_found_ok v I B z (b + 1) S) as (v' & E & S'); [lia..|]. exists z, v'. rewrite E. replace (b + 1 - z) with len by (unfold b; lia).
      split; [done|]. split; [done|]. split; [|done]. split; [lia|]. split; [lia|]. intros j Hj. apply Hall. unfold b. lia.
Qed.

Lemma first_aligned : aligned first.
Proof using V. apply (vg_data _ V). Qed.

(** A run that is ahead is found, or one before it. *)
Lemma found_ahead s fuel : free_run B s len -> forall start looped, first <= start <= s -> aligned start -> looped = false \/ s <= goal -> count - start < Z.of_nat fuel ->
  run_found v I B len (loop fuel looped start).
Proof using V S Hused Hgoal Hlen Hal.
  intros Hrun. pose proof Hrun as (Hr1 & Hr2 & Hr3). induction fuel as [|fuel IH]; intros start looped Hs Ha Hl Hf; [lia|].
  assert (Hc : negb looped || (start <=? goal) = true) by (destruct Hl as [->|]; [done|]; destruct (Z.leb_spec start goal); [apply orb_true_r|lia]).
  destruct (a_turn start ltac:(lia) Ha) as [Hall _|Hfound|e He Hea Hmin Hlt Hgo|Hno _].
  - exfalso. pose proof (Hall s ltac:(lia)) as Hx. rewrite (Hr3 s) in Hx by lia. done.
  - by apply Hfound.
  - rewrite (Hgo fuel looped Hc). pose proof (Hmin s Hrun ltac:(lia)). apply IH; [lia|done|done|lia].
  - exfalso. by apply (Hno s Hrun); lia.
Qed.

(** A run that is behind is found from the beginning of the blocks. *)
Lemma found_behind s fuel : free_run B s len -> s <= goal -> forall start, s < start < count -> aligned start -> (count - start) + (count - first) + 1 < Z.of_nat fuel ->
  run_found v I B len (loop fuel false start).
Proof using V S Hused Hgoal Hlen Hal.
  intros Hrun Hsg. pose proof Hrun as (Hr1 & Hr2 & Hr3). induction fuel as [|fuel IH]; intros start Hs Ha Hf; [lia|].
  destruct (a_turn start ltac:(lia) Ha) as [Hall Hgo|Hfound|e He Hea Hmin Hlt Hgo|Hno Hgo].
  - rewrite (Hgo fuel false eq_refl). destruct (Z.eqb_spec start first); [lia|]. apply (found_ahead s); [done|lia|apply first_aligned|by left|lia].
  - by apply Hfound.
  - rewrite (Hgo fuel false eq_refl). apply IH; [lia|done|lia].
  - rewrite (Hgo fuel false eq_refl). apply (found_ahead s); [done|lia|apply first_aligned|by right|lia].
Qed.

(** No run, and the last block is free: the search fails. *)
Lemma none_found fuel : (forall s, ~ free_run B s len) -> in_use_blk B (count - 1) = false -> forall start (looped : bool), first <= start < count -> aligned start ->
  (count - start) + (if looped then 0 else count - first + 1) + 1 < Z.of_nat fuel -> loop fuel looped start = Done (EXT2_ET_BLOCK_ALLOC_FAIL, None, v).
Proof using V S Hused Hgoal Hlen Hal.
  intros Hno Hlast. induction fuel as [|fuel IH]; intros start looped Hs Ha Hf; [destruct looped; lia|].
  destruct (negb looped || (start <=? goal)) eqn:Hc; [|cbn [new_range_loop]; rewrite Hc; done].
  destruct (a_turn start Hs Ha) as [Hall _|Hfound|e He Hea _ Hlt Hgo|_ Hgo].
  - exfalso. pose proof (Hall (count - 1) ltac:(lia)) as Hx. congruence.
  - destruct (Hfound fuel looped Hc) as (b & v' & _ & _ & Hrun & _). by apply Hno in Hrun.
  - rewrite (Hgo fuel looped Hc). apply IH; [lia|done|lia].
  - rewrite (Hgo fuel looped Hc). destruct looped; [done|]. apply IH; [lia|apply first_aligned|lia].
Qed.
End search.

(** * Taking a run *)

Definition range_fuel : nat := Z.to_nat (2 * (count - first) + 4).

Lemma goal_aligned goal : goal_ok goal -> aligned goal -> aligned (use_goal goal).
Proof using V. intros Hg Ha. unfold use_goal. destruct (_ || _); [apply first_aligned|done]. Qed.

(** [ext2fs_alloc_range] takes a run, and returns its first block, if there is one; if
    there is none and the last block is free, it fails. *)
Lemma alloc_range_ok hook zero fuel v I B goal len :
  stats_ok sb v I B -> (exists c, c_first sb <= c <= c_last sb /\ B c = true) -> goal_ok goal -> aligned goal -> 1 <= len < 2 ^ 32 -> aligned len ->
  (range_fuel <= fuel)%nat ->
  ((exists s, free_run B s len) -> exists b v', ext2fs_alloc_range sb None zero hook fuel v 0 goal len = Done (0, Some b, v') /\
     free_run B b len /\ aligned b /\ stats_ok sb v' I (updr B (b / ratio) (len / ratio) true)) /\
  ((forall s, ~ free_run B s len) -> in_use_blk B (count - 1) = false ->
     exists v', ext2fs_alloc_range sb None zero hook fuel v 0 goal len = Done (EXT2_ET_BLOCK_ALLOC_FAIL, None, v') /\ stats_ok sb v' I B).
Proof using V.
  intros S Hused Hg Hga Hlen Hla Hfuel. pose proof (use_goal_ok goal Hg) as Hgl. pose proof (vg_data _ V) as [Hd _]. pose proof (ratio_pos sb V) as Hr.
  assert (Er : ext2fs_alloc_range sb None zero hook fuel v 0 goal len =
    let* (retval, r, v) := new_range_loop sb fuel (block_map v) v EXT2_NEWRANGE_MIN_LENGTH (use_goal goal) len false (use_goal goal) in
    match r with
    | None => Done (retval, None, v)
    | Some (pblk, plen) => if plen <? len then Done (EXT2_ET_BLOCK_ALLOC_FAIL, Some pblk, v)
                           else let* v := ext2fs_block_alloc_stats_range sb hook v pblk len 1 in Done (0, Some pblk, v)
    end).
  { unfold ext2fs_alloc_range, ext2fs_new_range, bad_fs_magic. rewrite (vg_magic _ V), Z.eqb_refl. cbn [negb]. destruct (Z.eqb_spec len 0); [lia|].
    change (flag_set 0 (Z.lnot EXT2_ALLOCRANGE_ALL_FLAGS)) with false. change (flag_set 0 EXT2_ALLOCRANGE_FIXED_GOAL) with false.
    change (flag_set EXT2_NEWRANGE_MIN_LENGTH (Z.lnot EXT2_NEWRANGE_ALL_FLAGS)) with false. change (flag_set 0 EXT2_ALLOCRANGE_ZERO_BLOCKS) with false. cbn [orb get_map].
    destruct (so_bmap _ _ _ _ S) as (top & bm & Eb & R). cbn in Eb. rewrite Eb. done. }
  rewrite Er. clear Er. unfold range_fuel in Hfuel. split.
  - intros [s Hrun]. assert (Hf : run_found v I B len (new_range_loop sb fuel (block_map v) v EXT2_NEWRANGE_MIN_LENGTH (use_goal goal) len false (use_goal goal))).
    { pose proof Hrun as (Hr1 & Hr2 & _). destruct (Z.lt_ge_cases s (use_goal goal)).
      - apply (found_behind v I B S Hused (use_goal goal) len Hgl Hlen Hla s fuel Hrun); [lia|lia|by apply goal_aligned|lia].
      - apply (found_ahead v I B S Hused (use_goal goal) len Hgl Hlen Hla s fuel Hrun); [lia|by apply goal_aligned|by left|lia]. }
    destruct Hf as (b & v1 & -> & S1 & Hb & Hba). cbn [obind]. rewrite Z.ltb_irrefl. pose proof Hb as (Hb1 & Hb2 & Hb3). unfold aligned in *.
    pose proof (Z.div_mod b ratio ltac:(lia)) as Eb. pose proof (Z.div_mod len ratio ltac:(lia)) as El. rewrite Hba, Z.add_0_r in Eb. rewrite Hla, Z.add_0_r in El.
    destruct (range_stats_ok sb V hook v1 I B (b / ratio) (len / ratio) true S1) as (v2 & E2 & S2).
    + pose proof (blk_cluster b ltac:(lia)). lia.
    + nia.
    + lia.
    + lia.
    + intros j Hj. pose proof (Hb3 (j * ratio)) as Hx. unfold in_use_blk in Hx. rewrite Z.div_mul in Hx by lia. apply Hx. nia.
    + rewrite !(Z.mul_comm _ ratio), <- Eb, <- El in E2. change (delta true) with 1 in E2. rewrite E2. cbn [obind]. exists b, v2. done.
  - intros Hno Hlast. rewrite (none_found v I B S Hused (use_goal goal) len Hgl Hlen Hla fuel Hno Hlast (use_goal goal) false Hgl (goal_aligned goal Hg Hga)) by lia.
    cbn [obind]. eauto.
Qed.
End blocks.
