(* ===== verification/AllocProperties.v ===== *)
(** Inodes and blocks are taken and given back like elements of two sets: every
    sequence of calls keeps the bitmaps, the counts in the descriptors, the counts in
    the super block and the checksums in agreement, and an inode or block is found
    whenever there is a free one. *)

From S2P Require Import Prelude Crc Bitops BlockIo Bitmap32 Bitmap64 GenBitmap BitmapRefine BitArray RbTree RbBitmap RbBitmapLaws BitmapProperties Group GroupSpec Alloc AllocSpec AllocInode AllocBlock.

Local Open Scope Z_scope.

(** [AInode], [ABlock] and [ARange] take or give back what the caller chose, the
    others look for something free.  A range is given in clusters. *)
Inductive aop :=
| AInode (ino : Z) (take isdir : bool)
| ABlock (blk : Z) (take : bool)
| ARange (c k : Z) (take : bool)
| ANewInode (dir : Z) (isdir : bool)
| ANewBlock (goal : Z)
| ANewRange (goal len : Z).

Definition areply : Type := Z * option Z.

(** The inodes and the clusters that are used. *)
Definition sets : Type := (Z -> bool) * (Z -> bool).

Section spec.
Context (sb : super).
Local Notation ratio := (2 ^ cluster_ratio_bits (geo sb)).

(** The specification: which replies are possible, and what is used afterwards. *)
Inductive alloc_spec : aop -> sets -> areply -> sets -> Prop :=
| SpecInode ino x d I B : alloc_spec (AInode ino x d) (I, B) (0, None) (upd I ino x, B)
| SpecBlock blk x I B : alloc_spec (ABlock blk x) (I, B) (0, None) (I, upd B (blk / ratio) x)
| SpecRange c k x I B : alloc_spec (ARange c k x) (I, B) (0, None) (I, updr B c k x)
| SpecNewInode dir d i I B : EXT2_FIRST_INODE sb <= i <= inodes_count sb -> I i = false ->
    alloc_spec (ANewInode dir d) (I, B) (0, Some i) (upd I i true, B)
| SpecNoInode dir d I B : taken I (EXT2_FIRST_INODE sb) (inodes_count sb) ->
    alloc_spec (ANewInode dir d) (I, B) (EXT2_ET_INODE_ALLOC_FAIL, None) (I, B)
| SpecNewBlock goal b I B : first_data_block sb <= b < blocks_count sb -> in_use_blk sb B b = false ->
    alloc_spec (ANewBlock goal) (I, B) (0, Some b) (I, upd B (b / ratio) true)
| SpecNoBlock goal I B : (forall b, first_data_block sb <= b < blocks_count sb -> in_use_blk sb B b = true) ->
    alloc_spec (ANewBlock goal) (I, B) (EXT2_ET_BLOCK_ALLOC_FAIL, None) (I, B)
| SpecNewRange goal len b I B : free_run sb B b len -> aligned sb b ->
    alloc_spec (ANewRange goal len) (I, B) (0, Some b) (I, updr B (b / ratio) (len / ratio) true)
| SpecNoRange goal len I B : (forall s, ~ free_run sb B s len) ->
    alloc_spec (ANewRange goal len) (I, B) (EXT2_ET_BLOCK_ALLOC_FAIL, None) (I, B).

Inductive alloc_specs : list aop -> sets -> list areply -> sets -> Prop :=
| SpecsNil s : alloc_specs [] s [] s
| SpecsCons o os s r s1 rs s2 : alloc_spec o s r s1 -> alloc_specs os s1 rs s2 -> alloc_specs (o :: os) s (r :: rs) s2.

(** What a caller has to respect: only what is free is taken and what is used given
    back; something is used before anything is looked for; and a run is only looked
    for if there is one or the last block is free. *)
Definition alloc_allowed (o : aop) (s : sets) : Prop :=
  let (I, B) := s in
  match o with
  | AInode ino x _ => 1 <= ino <= inodes_count sb /\ I ino = negb x
  | ABlock blk x => first_data_block sb <= blk < blocks_count sb /\ B (blk / ratio) = negb x
  | ARange c k x => c_first sb <= c /\ 1 <= k /\ (c + k) * ratio <= blocks_count sb /\ k * ratio < 2 ^ 32 /\ forall j, c <= j < c + k -> B j = negb x
  | ANewInode dir _ => 0 <= dir <= inodes_count sb /\ exists j, 1 <= j <= inodes_count sb /\ I j = true
  | ANewBlock goal => goal_ok sb goal /\ exists c, c_first sb <= c <= c_last sb /\ B c = true
  | ANewRange goal len =>
      goal_ok sb goal /\ aligned sb goal /\ 1 <= len < 2 ^ 32 /\ aligned sb len /\ (exists c, c_first sb <= c <= c_last sb /\ B c = true) /\
      ((exists s, free_run sb B s len) \/ (forall s, ~ free_run sb B s len) /\ in_use_blk sb B (blocks_count sb - 1) = false)
  end.

(** Whatever the replies are. *)
Fixpoint alloc_safe (os : list aop) (s : sets) : Prop :=
  match os with
  | [] => True
  | o :: os => alloc_allowed o s /\ forall r s', alloc_spec o s r s' -> alloc_safe os s'
  end.

(** * The code *)

Section code.
Context {P : Type} `{BitmapOps P} (hook range_hook : bool) (read : vol P -> outcome (Z * vol P)).

(** Writing zeros succeeds. *)
Definition zeroed (b n : Z) : Z := 0.

Definition alloc_step (o : aop) (v : vol P) : outcome (areply * vol P) :=
  match o with
  | AInode ino x d => let* v := ext2fs_inode_alloc_stats2 sb v ino (delta x) d in Done ((0, None), v)
  | ABlock blk x => let* v := ext2fs_block_alloc_stats2 sb hook v blk (delta x) in Done ((0, None), v)
  | ARange c k x => let* v := ext2fs_block_alloc_stats_range sb range_hook v (c * ratio) (k * ratio) (delta x) in Done ((0, None), v)
  | ANewInode dir d =>
      let* (r, ret, _, v) := ext2fs_new_inode sb v dir None in
      match ret with
      | Some i => let* v := ext2fs_inode_alloc_stats2 sb v i 1 d in Done ((r, ret), v)
      | None => Done ((r, ret), v)
      end
  | ANewBlock goal => ext2fs_alloc_block3 sb None zeroed read hook v goal
  | ANewRange goal len => ext2fs_alloc_range sb None zeroed range_hook (range_fuel sb) v 0 goal len
  end.

Fixpoint alloc_run (os : list aop) (v : vol P) : outcome (list areply * vol P) :=
  match os with
  | [] => Done ([], v)
  | o :: os => let* (r, v) := alloc_step o v in let* (rs, v) := alloc_run os v in Done (r :: rs, v)
  end.
End code.

(** * Agreement *)

Section laws.
Context (V : vol_geo sb) {P : Type} `{BitmapLaws P}.
Implicit Types v : vol P.

(** What the functions of the library report about the file system. *)
Record agrees v (s : sets) : Prop := {
  ag_inodes : forall g, a_group sb g -> ext2fs_bg_free_inodes_count sb v g = Done (free (fst s) (g * ipg sb + 1) (g * ipg sb + ipg sb));
  ag_blocks : forall g, a_group sb g -> ext2fs_bg_free_blocks_count sb v g = Done (free (snd s) (g_first sb g) (g_last sb g));
  ag_csum : forall g, a_group sb g -> ext2fs_group_desc_csum_verify sb v g = Done 1;
  ag_all_inodes : s_free_inodes_count v = free (fst s) 1 (inodes_count sb);
  ag_all_blocks : ext2fs_free_blocks_count sb v = ratio * free (snd s) (c_first sb) (c_last sb);
  ag_ibit : forall ino, 1 <= ino <= inodes_count sb -> exists r g, ext2fs_test_generic_bmap (inode_map v) ino = Done (r, g) /\ negb (r =? 0) = fst s ino;
  ag_bbit : forall blk, first_data_block sb <= blk < blocks_count sb ->
    exists r g, ext2fs_test_generic_bmap (block_map v) blk = Done (r, g) /\ negb (r =? 0) = snd s (blk / ratio) }.

Lemma bit_test lo hi top cb f g al i : rel (P := P) (g, al) (mk_spec lo hi top cb f) -> lo <= Z.shiftr i cb <= hi ->
  exists r g', ext2fs_test_generic_bmap g i = Done (r, g') /\ negb (r =? 0) = f (Z.shiftr i cb).
Proof using.
  intros (b & Eg & R) Hi. cbn in Eg, R. subst g. destruct (test_generic b al _ i R) as (r & b' & E & Hr & _). exists r, (Gen64 b'). split; [done|]. rewrite Hr.
  unfold in_use, cluster. cbn. unfold has_cluster. cbn. destruct (Z.leb_spec lo (Z.shiftr i cb)), (Z.leb_spec (Z.shiftr i cb) hi); try lia. done.
Qed.

Lemma stats_agree v s : stats_ok sb v (fst s) (snd s) -> agrees v s.
Proof using V.
  intros S. pose proof (vg_desc _ V) as G. pose proof (co_desc _ _ _ _ S) as Hv. pose proof (vg_cb _ V). constructor.
  - intros g Hg. rewrite <- (co_ifree _ _ _ _ S g Hg). apply (bg_count_eq sb G v g _ _ Hv Hg), (fi_places sb V).
  - intros g Hg. rewrite <- (co_bfree _ _ _ _ S g Hg). apply (bg_count_eq sb G v g _ _ Hv Hg), (fb_places sb V).
  - intros g Hg. apply (verify_eq sb G v g Hv Hg). by apply S.
  - apply S.
  - apply S.
  - intros ino Hi. destruct (so_imap _ _ _ _ S) as [top R]. destruct (bit_test _ _ _ _ _ _ _ ino R) as (r & g & E & Hr); [by rewrite Z.shiftr_0_r|].
    rewrite Z.shiftr_0_r in Hr. eauto.
  - intros blk Hb. destruct (so_bmap _ _ _ _ S) as [top R]. pose proof (blk_cluster sb V blk Hb).
    destruct (bit_test _ _ _ _ _ _ _ blk R) as (r & g & E & Hr); rewrite Z.shiftr_div_pow2 in * by lia; eauto.
Qed.

Lemma alloc_step_ok hook range_hook read o v s : stats_ok sb v (fst s) (snd s) -> alloc_allowed o s ->
  exists r v' s', alloc_step hook range_hook read o v = Done (r, v') /\ alloc_spec o s r s' /\ stats_ok sb v' (fst s') (snd s').
Proof using V.
  destruct s as [I B]. cbn [fst snd]. intros S Ha. destruct o as [ino x d|blk x|c k x|dir d|goal|goal len]; cbn [alloc_step alloc_allowed] in *.
  - destruct Ha as [Hi Hx]. destruct (inode_stats_ok sb V v I B ino x d S Hi Hx) as (v' & -> & S'). cbn [obind]. do 2 eexists. exists (upd I ino x, B).
    split; [done|]. split; [constructor|done].
  - destruct Ha as [Hb Hx]. destruct (block_stats_ok sb V hook v I B blk x S Hb Hx) as (v' & -> & S'). cbn [obind]. do 2 eexists. exists (I, upd B (blk / ratio) x).
    split; [done|]. split; [constructor|done].
  - destruct Ha as (H1 & H2 & H3 & H4 & H5). destruct (range_stats_ok sb V range_hook v I B c k x S H1 H2 H3 H4 H5) as (v' & -> & S'). cbn [obind].
    do 2 eexists. exists (I, updr B c k x). split; [done|]. split; [constructor|done].
  - destruct Ha as [Hd Hu]. destruct (new_inode_ok sb V v I B dir S Hd Hu) as (r & ret & v1 & -> & S1 & Hf). cbn [obind].
    destruct Hf as [(i & -> & -> & Hi & Hfree)|(-> & -> & Hall)].
    + pose proof (vg_first _ V). destruct (inode_stats_ok sb V v1 I B i true d S1 ltac:(lia) Hfree) as (v2 & E & S2). change (delta true) with 1 in E. rewrite E. cbn [obind].
      do 2 eexists. exists (upd I i true, B). split; [done|]. split; [by constructor|done].
    + do 2 eexists. exists (I, B). split; [done|]. split; [by constructor|done].
  - destruct Ha as [Hg Hu]. destruct (alloc_block_ok sb V zeroed read hook v I B goal S Hg Hu ltac:(done)) as (r & ret & v' & -> & Hf & S').
    destruct Hf as [(b & -> & -> & Hb & Hfree)|(-> & -> & Hall)].
    + do 2 eexists. exists (I, upd B (b / ratio) true). split; [done|]. split; [by constructor|done].
    + do 2 eexists. exists (I, B). split; [done|]. split; [by constructor|done].
  - destruct Ha as (Hg & Hga & Hl & Hla & Hu & Hr).
    destruct (alloc_range_ok sb V range_hook zeroed (range_fuel sb) v I B goal len S Hu Hg Hga Hl Hla ltac:(done)) as [Hyes Hno]. destruct Hr as [Hrun|[Hrun Hlast]].
    + destruct (Hyes Hrun) as (b & v' & -> & Hb & Hba & S'). do 2 eexists. exists (I, updr B (b / ratio) (len / ratio) true). split; [done|]. split; [by constructor|done].
    + destruct (Hno Hrun Hlast) as (v' & -> & S'). do 2 eexists. exists (I, B). split; [done|]. split; [by constructor|done].
Qed.

Lemma alloc_run_ok hook range_hook read os : forall v s, stats_ok sb v (fst s) (snd s) -> alloc_safe os s ->
  exists rs v' s', alloc_run hook range_hook read os v = Done (rs, v') /\ alloc_specs os s rs s' /\ stats_ok sb v' (fst s') (snd s').
Proof using V.
  induction os as [|o os IH]; intros v s S Hs; cbn [alloc_run]; [exists [], v, s; split; [done|split; [constructor|done]]|]. destruct Hs as [Ha Hs].
  destruct (alloc_step_ok hook range_hook read o v s S Ha) as (r & v1 & s1 & -> & Hr & S1). cbn [obind].
  destruct (IH v1 s1 S1 (Hs r s1 Hr)) as (rs & v2 & s2 & -> & Hrs & S2). cbn [obind]. exists (r :: rs), v2, s2. split; [done|]. split; [by apply (SpecsCons _ _ _ _ s1)|done].
Qed.
End laws.
End spec.

(** C8: on a file system whose bitmaps, descriptors and super block agree, a
    sequence of calls that take, give back and look for inodes, blocks and runs of
    blocks, as far as [alloc_safe] allows it, returns and behaves like operations on
    two sets: what is found is free and in the file system; a search for an inode or
    a block fails exactly when none is free, a search for a run only when there is
    none of that length; nothing outside of the descriptors is touched; and
    afterwards the free counts of every group and of the super block, the bitmaps and
    the checksums of the descriptors agree with the sets.  [alloc_safe] asks that
    what is taken is free and what is given back is used, that runs and their goals
    are whole clusters and runs shorter than 2^32 blocks, that some inode or cluster
    is used when one is looked for, and that a run is not looked for when there is
    none and the last block is used: ext2fs_new_range does not end then
    ([new_range_never_ends]). *)
Theorem alloc_refines_sets {P} `{BitmapLaws P} sb hook range_hook read os (v : vol P) s :
  vol_geo sb -> stats_ok sb v (fst s) (snd s) -> alloc_safe sb os s ->
  exists rs v' s', alloc_run sb hook range_hook read os v = Done (rs, v') /\ alloc_specs sb os s rs s' /\ agrees sb v' s'.
Proof.
  intros V S Hs. destruct (alloc_run_ok sb V hook range_hook read os v s S Hs) as (rs & v' & s' & E & Hr & S').
  exists rs, v', s'. split; [done|]. split; [done|]. by apply (stats_agree sb V v' s').
Qed.

(** ** A small file system *)

(** Two groups of 16 blocks and 8 inodes. *)
Definition small_sb : super :=
  mk_super (mk_fs EXT2_ET_MAGIC_EXT2FS_FILSYS EXT2_FLAG_64BITS 0 1 33 16 16 16 8 2) false true false 0 (replicate 16 7) 32 1 11.

Definition read_none {P} (v : vol P) : outcome (Z * vol P) := Done (0, v).

(** Everything is free: the counts and checksums are set, and the bitmaps are new. *)
Definition full_group {P} (sb : super) (v : vol P) (g : Z) : outcome (vol P) :=
  let* v := ext2fs_bg_free_blocks_count_set sb v g (s_clusters_per_group (geo sb)) in
  let* v := ext2fs_bg_free_inodes_count_set sb v g (ipg sb) in
  ext2fs_group_desc_csum_set sb v g.

Definition empty_vol {P} `{BitmapOps P} (sb : super) (al : allocator) : outcome (vol P) :=
  let* (_, (im, al)) := ext2fs_alloc_generic_bmap (geo sb) al EXT2_ET_MAGIC_INODE_BITMAP64 1 (inodes_count sb) (inodes_count sb) None in
  let* (_, (bm, al)) := ext2fs_alloc_generic_bmap (geo sb) al EXT2_ET_MAGIC_BLOCK_BITMAP64 (c_first sb) (c_last sb) (c_last sb) None in
  let v := mk_vol (replicate 64 0) 32 0 16 0 im bm al [] in
  let* v := full_group sb v 0 in full_group sb v 1.

Definition get_vol {P} (o : outcome (vol P)) : vol P := match o with Done v => v | Crash _ => mk_vol [] 0 0 0 0 GenNull GenNull (mk_alloc 0 (fun _ => false)) [] end.

Definition small_vol : vol ba_private := get_vol (empty_vol small_sb (mk_alloc 1000 (fun _ => false))).

Lemma small_geo : vol_geo small_sb.
Proof. constructor; try (vm_compute; repeat split; congruence). constructor; vm_compute; congruence. Qed.

Lemma small_group g : a_group small_sb g -> g = 0 \/ g = 1.
Proof. unfold a_group. change (groups small_sb) with 2. lia. Qed.

Lemma small_ok : stats_ok small_sb small_vol (fun _ => false) (fun _ => false).
Proof.
  destruct (alloc_rel (P := ba_private) (geo small_sb) (mk_alloc 1000 (fun _ => false)) EXT2_ET_MAGIC_INODE_BITMAP64 1 16 16 None)
    as ([im al1] & E1 & R1 & O1 & _); [done|done|vm_compute; split; congruence|lia..|].
  destruct (alloc_rel (P := ba_private) (geo small_sb) al1 EXT2_ET_MAGIC_BLOCK_BITMAP64 1 32 32 None) as ([bm al2] & E2 & R2 & _ & Hl);
    [done|done|vm_compute; split; congruence|lia..|].
  assert (Em : inode_map small_vol = im /\ block_map small_vol = bm /\ mem small_vol = al2).
  { vm_compute in E1. injection E1 as <- <-. vm_compute in E2. injection E2 as <- <-. vm_compute. done. }
  destruct Em as (Ei & Eb & Ea). split; [|rewrite Ei, Ea; exists 16; by apply (rel_later _ al1)|rewrite Eb, Ea; exists 32; exact R2].
  constructor; try (intros g [-> | ->]%small_group; vm_compute; reflexivity); try (vm_compute; reflexivity).
  split; [vm_compute; reflexivity|]. vm_compute. repeat constructor; congruence.
Qed.

Definition small_ops : list aop := [AInode 2 true true; ABlock 1 true; ANewRange 0 20; ANewInode 2 false; ANewBlock 9].

Lemma alloc_refines_sets_witness :
  exists rs v' s', alloc_run small_sb false false read_none small_ops small_vol = Done (rs, v') /\
    alloc_specs small_sb small_ops ((fun _ => false), (fun _ => false)) rs s' /\ agrees small_sb v' s'.
Proof.
  apply (alloc_refines_sets small_sb false false read_none small_ops small_vol ((fun _ => false), (fun _ => false)) small_geo small_ok).
  cbn [alloc_safe small_ops]. split; [split; [vm_compute; split; congruence|vm_compute; reflexivity]|]. intros r s' Hs. inversion Hs; subst; clear Hs.
  split; [split; [vm_compute; split; congruence|vm_compute; reflexivity]|]. intros r s' Hs. inversion Hs; subst; clear Hs.
  split.
  - split; [left; reflexivity|]. split; [vm_compute; reflexivity|]. split; [lia|]. split; [vm_compute; reflexivity|].
    split; [exists 1; split; [vm_compute; split; congruence|vm_compute; reflexivity]|]. left. exists 2.
    split; [vm_compute; congruence|]. split; [vm_compute; congruence|]. intros j Hj. unfold in_use_blk, upd. change (2 ^ cluster_ratio_bits (geo small_sb)) with 1.
    rewrite Z.div_1_r. change (1 / 1) with 1. destruct (Z.eqb_spec j 1); [lia|done].
  - intros r s' Hs. inversion Hs as [| | | | | | |? ? b ? ? Hrun Hal|? ? ? ? Hno]; subst; clear Hs.
    + split; [split; [vm_compute; split; congruence|]; exists 2; split; [vm_compute; split; congruence|vm_compute; reflexivity]|].
      intros r s' Hs. assert (Hb : snd s' 1 = true).
      { inversion Hs; subst; cbn; unfold updr, upd; change (1 / 2 ^ cluster_ratio_bits (geo small_sb)) with 1; rewrite Z.eqb_refl; by destruct (in_range _ _ _). }
      destruct s' as [I' B']. split; [split; [right; vm_compute; split; congruence|]; exists 1; split; [vm_compute; split; congruence|exact Hb]|done].
    + exfalso. apply (Hno 2). split; [vm_compute; congruence|]. split; [vm_compute; congruence|]. intros j Hj. unfold in_use_blk, upd. change (2 ^ cluster_ratio_bits (geo small_sb)) with 1.
      rewrite Z.div_1_r. change (1 / 2 ^ 0) with 1. destruct (Z.eqb_spec j 1); [lia|done].
Defined.

(** What the code replies, and the counts it leaves. *)
Example small_replies : exists v', alloc_run small_sb false false read_none small_ops small_vol =
    Done ([(0, None); (0, None); (0, Some 2); (0, Some 11); (0, Some 22)], v') /\
  ext2fs_bg_free_blocks_count small_sb v' 0 = Done 0 /\ ext2fs_bg_free_blocks_count small_sb v' 1 = Done 10 /\
  ext2fs_bg_free_inodes_count small_sb v' 1 = Done 7 /\ s_free_inodes_count v' = 14 /\ ext2fs_free_blocks_count small_sb v' = 10.
Proof. eexists. split; [vm_compute; reflexivity|]. vm_compute. done. Qed.

(** ** What the code does not do *)

(** The blocks but 3 and 5 are used. *)
Definition sparse_vol : vol ba_private :=
  get_vol (let* (_, v) := alloc_run small_sb false false read_none [ARange 1 2 true; ARange 4 1 true; ARange 6 27 true] small_vol in Done v).

(** One turn of the loop of [ext2fs_new_range] that finds a run from [z] to [en] which is
    too short, and one that finds nothing free. *)
Lemma range_next {P} `{BitmapOps P} sb fuel g (v : vol P) goal len start z en :
  ext2fs_find_first_zero_generic_bmap g start (u64 (blocks_count sb - 1)) = Done (0, Some z) ->
  ext2fs_find_first_set_generic_bmap g z (Z.min (u64 (z + len - 1)) (u64 (blocks_count sb - 1))) = Done (0, Some en) ->
  (len <=? u64 (en - z)) = false -> (blocks_count sb <=? en) = false ->
  new_range_loop sb (S fuel) g v EXT2_NEWRANGE_MIN_LENGTH goal len false start = new_range_loop sb fuel g v EXT2_NEWRANGE_MIN_LENGTH goal len false en.
Proof.
  intros Ez Es El Eb. cbn [new_range_loop negb orb]. rewrite Ez. cbn [obind]. change (0 =? ENOENT) with false. change (0 =? 0) with true. cbn [negb default].
  change (flag_set EXT2_NEWRANGE_MIN_LENGTH EXT2_NEWRANGE_FIXED_GOAL) with false. change (flag_set EXT2_NEWRANGE_MIN_LENGTH EXT2_NEWRANGE_MIN_LENGTH) with true.
  cbn [andb negb orb from_option id]. rewrite Es. cbn [obind]. change (0 =? ENOENT) with false. change (0 =? 0) with true. cbn [andb negb from_option id]. by rewrite El, Eb.
Qed.

Lemma range_again {P} `{BitmapOps P} sb fuel g (v : vol P) goal len start z :
  ext2fs_find_first_zero_generic_bmap g start (u64 (blocks_count sb - 1)) = Done (ENOENT, z) -> (start =? first_data_block sb) = false ->
  new_range_loop sb (S fuel) g v EXT2_NEWRANGE_MIN_LENGTH goal len false start =
  new_range_loop sb fuel g v EXT2_NEWRANGE_MIN_LENGTH goal len false (first_data_block sb).
Proof.
  intros Ez Es. cbn [new_range_loop negb orb]. rewrite Ez. cbn [obind]. rewrite Z.eqb_refl, Es.
  by change (flag_set EXT2_NEWRANGE_MIN_LENGTH EXT2_NEWRANGE_FIXED_GOAL) with false.
Qed.

(** [ext2fs_new_range] does not return when the last block is used, some blocks are
    free and no run is long enough: it starts again from the first block each time,
    without noting that it has done so. *)
Example new_range_never_ends fuel : ext2fs_new_range small_sb None fuel sparse_vol EXT2_NEWRANGE_MIN_LENGTH 10 2 None = Crash OutOfFuel.
Proof.
  set (loop f := new_range_loop small_sb f (block_map sparse_vol) sparse_vol EXT2_NEWRANGE_MIN_LENGTH 10 2 false).
  assert (Hloop : forall f, loop f 10 = Crash OutOfFuel /\ loop f 1 = Crash OutOfFuel /\ loop f 4 = Crash OutOfFuel /\ loop f 6 = Crash OutOfFuel).
  { subst loop. cbn beta. induction f as [|f (_ & H1 & H4 & H6)]; [done|].
    rewrite (range_again _ _ _ _ _ _ 10 None), (range_next _ _ _ _ _ _ 1 3 4), (range_next _ _ _ _ _ _ 4 5 6), (range_again _ _ _ _ _ _ 6 None);
      [done|vm_compute; reflexivity..]. }
  exact (proj1 (Hloop fuel)).
Qed.

(** One turn of the loop of [ext2fs_get_free_blocks2] that finds no room. *)
Lemma free_next {P} `{BitmapOps P} sb fuel (g g' : generic_bitmap P) num b b' :
  b' = (if blocks_count sb <=? u64 (b + num - 1) then first_data_block sb else b) -> ext2fs_test_block_bitmap_range2 g b' num = Done (0, g') ->
  (u64 (b' + 1) =? 0) = false -> free_blocks_loop sb (S fuel) g 0 0 num 1 b = free_blocks_loop sb fuel g' 0 0 num 1 (u64 (b' + 1)).
Proof. intros Eb Et En. cbn [free_blocks_loop]. rewrite Z.ltb_irrefl, andb_false_r, <- Eb, Et. cbn [obind]. change (0 =? 0) with true. cbn [negb]. by rewrite En. Qed.

(** [ext2fs_get_free_blocks2] with [start] and [finish] 0 does not return when there is
    no run and block 0 is not a data block: it waits for block 0. *)
Example get_free_blocks_never_ends fuel : ext2fs_get_free_blocks2 small_sb fuel sparse_vol 0 0 2 None = Crash OutOfFuel.
Proof.
  assert (Hloop : forall f b, 1 <= b <= 32 -> free_blocks_loop small_sb f (block_map sparse_vol) 0 0 2 1 b = Crash OutOfFuel).
  { induction f as [|f IH]; intros b Hb; [done|].
    assert (Hin : In b (map Z.of_nat (seq 1 32))) by (apply in_map_iff; exists (Z.to_nat b); rewrite in_seq; lia).
    assert (Hall : Forall (fun b => let b' := if blocks_count small_sb <=? u64 (b + 2 - 1) then first_data_block small_sb else b in
      ext2fs_test_block_bitmap_range2 (block_map sparse_vol) b' 2 = Done (0, block_map sparse_vol) /\
      u64 (b' + 1) = b' + 1 /\ (b' + 1 =? 0) = false /\ (b' + 1 <=? 32) = true /\ (1 <=? b' + 1) = true) (map Z.of_nat (seq 1 32)))
      by (cbn [map seq]; repeat (constructor; [vm_compute; repeat split|]); constructor).
    rewrite List.Forall_forall in Hall. specialize (Hall b Hin). cbv zeta in Hall. destruct Hall as (Ht & Eu & En & H1 & H2).
    rewrite (free_next _ _ _ _ _ _ _ eq_refl Ht) by (by rewrite Eu). rewrite Eu. apply IH. lia. }
  unfold ext2fs_get_free_blocks2. change (bad_fs_magic small_sb) with false. cbn [get_map].
  destruct (block_map sparse_vol) as [| |b] eqn:Eg; [vm_compute in Eg; done..|].
  assert (Egr : ext2fs_get_bitmap_granularity (Gen64 b) = Done 0) by (rewrite <- Eg; vm_compute; reflexivity).
  rewrite Egr. cbn [obind]. change (free_blocks_loop small_sb fuel (Gen64 b) _ _ _ _ _) with (free_blocks_loop small_sb fuel (Gen64 b) 0 0 2 1 1).
  rewrite Hloop by lia. done.
Qed.

(** The function that is told about a range is told about none: an empty range behind
    the one that was taken. *)
Example range_call_is_empty : exists v', ext2fs_block_alloc_stats_range small_sb true small_vol 5 20 1 = Done v' /\ calls v' = [RangeStats 25 0 1].
Proof. eexists. split; vm_compute; reflexivity. Qed.

(** Clusters of four blocks: a range of two blocks marks a cluster, but leaves the
    count of free clusters as it was and lowers the count of free blocks by two. *)
Definition cluster_sb : super :=
  mk_super (mk_fs EXT2_ET_MAGIC_EXT2FS_FILSYS EXT2_FLAG_64BITS 2 0 128 16 16 64 8 2) false true false 0 (replicate 16 7) 32 1 11.

Definition cluster_vol : vol ba_private := get_vol (empty_vol cluster_sb (mk_alloc 1000 (fun _ => false))).

Example part_of_cluster : exists v' g, ext2fs_block_alloc_stats_range cluster_sb false cluster_vol 8 2 1 = Done v' /\
  ext2fs_test_generic_bmap (block_map v') 11 = Done (4, g) /\ ext2fs_bg_free_blocks_count cluster_sb v' 0 = Done 16 /\
  ext2fs_free_blocks_count cluster_sb v' = ext2fs_free_blocks_count cluster_sb cluster_vol - 2.
Proof. do 2 eexists. split; [vm_compute; reflexivity|]. split; [vm_compute; reflexivity|]. split; vm_compute; reflexivity. Qed.

(** There is one descriptor too few for [ext2fs_group_desc], which refuses only groups
    behind the number of groups. *)
Example group_behind_the_last : ext2fs_group_desc small_sb 2 = Done 64 /\ ext2fs_bg_flags small_sb small_vol 2 = Crash BadPointer.
Proof. split; vm_compute; reflexivity. Qed.
