(* ===== verification/Icount.v ===== *)
(** lib/ext2fs/icount.c: the link counts of inodes.  A bitmap says which inodes have
    a count of one, a sorted array holds the other counts, and an optional second
    bitmap says which inodes are in the array; or one array has all counts.  The
    bitmaps are those of GenBitmap.v, with either back end.  The version that keeps
    the counts in a file (CONFIG_TDB) is not part of the build. *)

From Stdlib Require Import Floats.SpecFloat.
From S2P Require Import Prelude Bitops Bitmap32 Bitmap64 GenBitmap BitmapProperties.

Local Open Scope Z_scope.

Definition EXT2_ET_MAGIC_ICOUNT : Z := 2133571341.
Definition EXT2_ET_INVALID_ARGUMENT : Z := 2133571399.
Definition EXT2_ICOUNT_OPT_INCREMENT : Z := 1.
Definition EXT2_ICOUNT_OPT_FULLMAP : Z := 2.

(** [struct ext2_icount_el] *)
Record icount_el := mk_el { el_ino : Z; el_count : Z }.

(** [struct ext2_icount].  The bitmaps are [GenNull] and the arrays [None] when the
    pointer is null; [last_lookup] is an index. *)
Record icount (P : Type) := mk_ic {
  ic_magic : Z;
  single : generic_bitmap P;
  multiple : generic_bitmap P;
  ic_count : Z;
  ic_size : Z;
  num_inodes : Z;
  cursor : Z;
  ic_list : option (list icount_el);
  last_lookup : option Z;
  fullmap : option (list Z) }.
Arguments mk_ic {P}.
Arguments ic_magic {P}.
Arguments single {P}.
Arguments multiple {P}.
Arguments ic_count {P}.
Arguments ic_size {P}.
Arguments num_inodes {P}.
Arguments cursor {P}.
Arguments ic_list {P}.
Arguments last_lookup {P}.
Arguments fullmap {P}.

Definition icount_16_xlate (x : Z) : Z := if 65500 <? x then 65500 else x.

(** * Arithmetic of type [float] *)

Definition f32_of_Z (z : Z) : spec_float := binary_normalize 24 128 z 0 false.

(** Conversion to [__u32]; what does not fit has no meaning in C and does not occur. *)
Definition u32_of_f32 (f : spec_float) : Z :=
  match f with
  | S754_finite false m e => u32 (if 0 <=? e then Z.pos m * 2 ^ e else Z.pos m / 2 ^ (- e))
  | _ => 0
  end.

(** [(ext2_ino_t) (count * ((float) num_inodes / ino))] *)
Definition scaled_size (count num_inodes ino : Z) : Z :=
  u32_of_f32 (SFmul 24 128 (f32_of_Z count) (SFdiv 24 128 (f32_of_Z num_inodes) (f32_of_Z ino))).

(** * Arrays *)

Definition aget {A} (l : list A) (i : Z) : outcome A :=
  if i <? 0 then Crash BadPointer else match l !! Z.to_nat i with Some x => Done x | None => Crash BadPointer end.

Definition aset {A} (l : list A) (i : Z) (x : A) : outcome (list A) :=
  if (0 <=? i) && (i <? Z.of_nat (length l)) then Done (<[Z.to_nat i := x]> l) else Crash BadPointer.

(** [memmove(&l[i+1], &l[i], num)] *)
Definition move_up {A} (l : list A) (i num : Z) : outcome (list A) :=
  if (0 <=? i) && (i + 1 + num <=? Z.of_nat (length l))
  then Done (splice l (Z.to_nat (i + 1)) (take (Z.to_nat num) (drop (Z.to_nat i) l)))
  else Crash BadPointer.

Section icount.
Context {P : Type} `{BitmapOps P}.

(** The structure and the memory. *)
Local Notation ist := (icount P * allocator)%type.

Definition set_single (ic : icount P) (g : generic_bitmap P) : icount P :=
  mk_ic (ic_magic ic) g (multiple ic) (ic_count ic) (ic_size ic) (num_inodes ic) (cursor ic) (ic_list ic) (last_lookup ic) (fullmap ic).
Definition set_multiple (ic : icount P) (g : generic_bitmap P) : icount P :=
  mk_ic (ic_magic ic) (single ic) g (ic_count ic) (ic_size ic) (num_inodes ic) (cursor ic) (ic_list ic) (last_lookup ic) (fullmap ic).
Definition set_cursor (ic : icount P) (c : Z) : icount P :=
  mk_ic (ic_magic ic) (single ic) (multiple ic) (ic_count ic) (ic_size ic) (num_inodes ic) c (ic_list ic) (last_lookup ic) (fullmap ic).
Definition set_list (ic : icount P) (l : option (list icount_el)) : icount P :=
  mk_ic (ic_magic ic) (single ic) (multiple ic) (ic_count ic) (ic_size ic) (num_inodes ic) (cursor ic) l (last_lookup ic) (fullmap ic).
Definition set_size (ic : icount P) (n : Z) : icount P :=
  mk_ic (ic_magic ic) (single ic) (multiple ic) (ic_count ic) n (num_inodes ic) (cursor ic) (ic_list ic) (last_lookup ic) (fullmap ic).
Definition set_count (ic : icount P) (n : Z) : icount P :=
  mk_ic (ic_magic ic) (single ic) (multiple ic) n (ic_size ic) (num_inodes ic) (cursor ic) (ic_list ic) (last_lookup ic) (fullmap ic).
Definition set_last (ic : icount P) (i : option Z) : icount P :=
  mk_ic (ic_magic ic) (single ic) (multiple ic) (ic_count ic) (ic_size ic) (num_inodes ic) (cursor ic) (ic_list ic) i (fullmap ic).
Definition set_fullmap (ic : icount P) (l : option (list Z)) : icount P :=
  mk_ic (ic_magic ic) (single ic) (multiple ic) (ic_count ic) (ic_size ic) (num_inodes ic) (cursor ic) (ic_list ic) (last_lookup ic) l.

(** * Creation *)

(** The error, or the structure; what was allocated before an error is freed. *)
Definition alloc_icount (fs : filsys) (al : allocator) (flags : Z) : outcome ((Z + icount P) * allocator) :=
  let (p, al) := malloc al in
  match p with
  | None => Done (inl EXT2_ET_NO_MEMORY, al)
  | Some _ =>
      let ic := mk_ic EXT2_ET_MAGIC_ICOUNT GenNull GenNull 0 0 (s_inodes_count fs) 0 None None None in
      let increment := negb (Z.land flags EXT2_ICOUNT_OPT_INCREMENT =? 0) in
      let full := negb (Z.land flags EXT2_ICOUNT_OPT_FULLMAP =? 0) && increment in
      let sz := u32 (2 * num_inodes ic) in
      let (q, al) := if full then malloc al else (None, al) in
      match q with
      | Some _ => Done (inr (set_fullmap ic (Some (replicate (Z.to_nat (sz / 2)) 0))), al)
      | None =>
          let* (retval, (g, al)) := ext2fs_allocate_inode_bitmap fs al (Some "icount"%string) in
          if negb (retval =? 0) then Done (inl retval, al)
          else
            let ic := set_single ic g in
            if increment then
              let* (retval, (g, al)) := ext2fs_allocate_inode_bitmap fs al (Some "icount_inc"%string) in
              if negb (retval =? 0) then Done (inl retval, al) else Done (inr (set_multiple ic g), al)
            else Done (inr ic, al)
      end
  end.

(** [icount->list[i].ino = hint->list[i].ino] *)
Fixpoint copy_hint (n : nat) (i : Z) (hint l : list icount_el) : outcome (list icount_el) :=
  match n with
  | O => Done l
  | S n =>
      let* h := aget hint i in
      let* e := aget l i in
      let* l := aset l i (mk_el (el_ino h) (el_count e)) in
      copy_hint n (i + 1) hint l
  end.

(** [used] gives the number of directories of a block group. *)
Definition ext2fs_create_icount2 (fs : filsys) (used : Z -> Z) (al : allocator) (flags size : Z) (hint : option (icount P))
  : outcome ((Z + icount P) * allocator) :=
  let bad := match hint with Some h => negb (ic_magic h =? EXT2_ET_MAGIC_ICOUNT) | None => false end in
  if bad then Done (inl EXT2_ET_MAGIC_ICOUNT, al)
  else
    let size := match hint with Some h => if size <? ic_size h then ic_size h else size | None => size end in
    let* (r, al) := alloc_icount fs al flags in
    match r with
    | inl e => Done (inl e, al)
    | inr ic =>
        match fullmap ic with
        | Some _ => Done (inr ic, al)
        | None =>
            let r := if negb (size =? 0) then inr size
                     else match ext2fs_get_num_dirs fs used with
                          | (_, Some n) => inr (u32 (n + s_inodes_count fs / 50))
                          | (e, None) => inl e
                          end in
            match r with
            | inl e => Done (inl e, al)
            | inr size =>
                let (p, al) := malloc al in
                match p with
                | None => Done (inl EXT2_ET_NO_MEMORY, al)
                | Some _ =>
                    let l := replicate (Z.to_nat size) (mk_el 0 0) in
                    let* (n, l) := match hint with
                                   | Some h =>
                                       let hl := default [] (ic_list h) in
                                       let* l := copy_hint (Z.to_nat (ic_count h)) 0 hl l in Done (ic_count h, l)
                                   | None => Done (0, l)
                                   end in
                    Done (inr (set_count (set_cursor (set_list (set_size ic size) (Some l)) 0) n), al)
                end
            end
        end
    end.

(** * The sorted array *)

(** The array [l] is full: a larger one, unless there is no memory. *)
Definition grow_list (s : ist) (l : list icount_el) : outcome (bool * ist) :=
  let (ic, al) := s in
  let* new_size := if negb (ic_count ic =? 0) then
                     let* e := aget l (ic_count ic - 1) in Done (scaled_size (ic_count ic) (num_inodes ic) (el_ino e))
                   else Done 0 in
  let new_size := if new_size <? u32 (ic_size ic + 100) then u32 (ic_size ic + 100) else new_size in
  let (p, al) := malloc al in
  match p with
  | None => Done (false, (ic, al))
  | Some _ =>
      let l := take (Z.to_nat new_size) l ++ replicate (Z.to_nat (new_size - ic_size ic)) (mk_el 0 0) in
      Done (true, (set_size (set_list ic (Some l)) new_size, al))
  end.

(** The index of the new element, or [None]. *)
Definition insert_icount_el (s : ist) (ino pos : Z) : outcome (option Z * ist) :=
  let (ic, al) := s in
  match ic_list ic with
  | None => Crash BadPointer
  | Some l =>
      let* same := match last_lookup ic with Some i => let* e := aget l i in Done (el_ino e =? ino) | None => Done false end in
      if (same : bool) then Done (last_lookup ic, s)
      else
        let* (grown, (ic, al)) := if ic_size ic <=? ic_count ic then grow_list s l else Done (true, s) in
        if negb grown then Done (None, (ic, al))
        else
          let num := ic_count ic - pos in
          if num <? 0 then Done (None, (ic, al))
          else
            let l := default [] (ic_list ic) in
            let* l := if negb (num =? 0) then move_up l pos num else Done l in
            let* l := aset l pos (mk_el ino 0) in
            Done (Some pos, (set_last (set_list (set_count ic (ic_count ic + 1)) (Some l)) (Some pos), al))
  end.

(** The loop of [get_icount_el]: the index, or where the inode belongs. *)
Fixpoint el_search (fuel : nat) (l : list icount_el) (ino low high : Z) : outcome (Z + Z) :=
  match fuel with
  | O => Crash OutOfFuel
  | S fuel =>
      if low <=? high then
        let mid := Z.shiftr (low + high) 1 in
        let* e := aget l mid in
        if ino =? el_ino e then Done (inl mid)
        else if ino <? el_ino e then el_search fuel l ino low (mid - 1)
        else el_search fuel l ino (mid + 1) high
      else Done (inr low)
  end.

Definition get_icount_el (s : ist) (ino : Z) (create : bool) : outcome (option Z * ist) :=
  let (ic, al) := s in
  match ic_list ic with
  | None => Done (None, s)
  | Some l =>
      let* behind := if create then
                       if ic_count ic =? 0 then Done true
                       else let* e := aget l (ic_count ic - 1) in Done (el_ino e <? ino)
                     else Done false in
      if (behind : bool) then insert_icount_el s ino (ic_count ic)
      else if ic_count ic =? 0 then Done (None, s)
      else
        let ic := if ic_count ic <=? cursor ic then set_cursor ic 0 else ic in
        let* e := aget l (cursor ic) in
        if ino =? el_ino e then Done (Some (cursor ic), (set_cursor ic (cursor ic + 1), al))
        else
          let* r := el_search (S (Z.to_nat (ic_count ic))) l ino 0 (ic_count ic - 1) in
          match r with
          | inl mid => Done (Some mid, (set_cursor ic (mid + 1), al))
          | inr low => if create then insert_icount_el (ic, al) ino low else Done (None, (ic, al))
          end
  end.

Definition set_inode_count (s : ist) (ino count : Z) : outcome (Z * ist) :=
  let (ic, al) := s in
  match fullmap ic with
  | Some m => let* m := aset m ino (icount_16_xlate count) in Done (0, (set_fullmap ic (Some m), al))
  | None =>
      let* (el, (ic, al)) := get_icount_el s ino true in
      match el with
      | None => Done (EXT2_ET_NO_MEMORY, (ic, al))
      | Some i =>
          let l := default [] (ic_list ic) in
          let* e := aget l i in
          let* l := aset l i (mk_el (el_ino e) count) in
          Done (0, (set_list ic (Some l), al))
      end
  end.

(** The result and [*count]. *)
Definition get_inode_count (s : ist) (ino : Z) : outcome (Z * Z * ist) :=
  let (ic, al) := s in
  match fullmap ic with
  | Some m => let* c := aget m ino in Done (0, c, s)
  | None =>
      let* (el, (ic, al)) := get_icount_el s ino false in
      match el with
      | None => Done (ENOENT, 0, (ic, al))
      | Some i => let* e := aget (default [] (ic_list ic)) i in Done (0, el_count e, (ic, al))
      end
  end.

(** * The operations *)

Definition test_single (s : ist) (ino : Z) : outcome (bool * ist) :=
  let (ic, al) := s in
  let* (r, g) := ext2fs_test_generic_bmap (single ic) ino in Done (negb (r =? 0), (set_single ic g, al)).
Definition test_multiple (s : ist) (ino : Z) : outcome (bool * ist) :=
  let (ic, al) := s in
  let* (r, g) := ext2fs_test_generic_bmap (multiple ic) ino in Done (negb (r =? 0), (set_multiple ic g, al)).
Definition mark_single (s : ist) (ino : Z) : outcome ist :=
  let (ic, al) := s in let* (_, (g, al)) := ext2fs_mark_generic_bmap (single ic, al) ino in Done (set_single ic g, al).
Definition mark_multiple (s : ist) (ino : Z) : outcome ist :=
  let (ic, al) := s in let* (_, (g, al)) := ext2fs_mark_generic_bmap (multiple ic, al) ino in Done (set_multiple ic g, al).
Definition unmark_single (s : ist) (ino : Z) : outcome ist :=
  let (ic, al) := s in let* (_, (g, al)) := ext2fs_unmark_generic_bmap (single ic, al) ino in Done (set_single ic g, al).
Definition unmark_multiple (s : ist) (ino : Z) : outcome ist :=
  let (ic, al) := s in let* (_, (g, al)) := ext2fs_unmark_generic_bmap (multiple ic, al) ino in Done (set_multiple ic g, al).

Definition has_multiple (s : ist) : bool := match multiple (fst s) with GenNull => false | _ => true end.
Definition has_fullmap (s : ist) : bool := match fullmap (fst s) with Some _ => true | None => false end.

(** The checks of the arguments, in the order of each function. *)
Definition bad_ino (s : ist) (ino : Z) : bool := (ino =? 0) || (num_inodes (fst s) <? ino).
Definition bad_magic (s : ist) : bool := negb (ic_magic (fst s) =? EXT2_ET_MAGIC_ICOUNT).

(** The result and [*ret], if it is set. *)
Definition ext2fs_icount_fetch (s : ist) (ino : Z) : outcome (Z * option Z * ist) :=
  if bad_magic s then Done (EXT2_ET_MAGIC_ICOUNT, None, s)
  else if bad_ino s ino then Done (EXT2_ET_INVALID_ARGUMENT, None, s)
  else
    let* (early, s) :=
      if negb (has_fullmap s) then
        let* (one, s) := test_single s ino in
        if (one : bool) then Done (Some 1, s)
        else if has_multiple s then
          let* (m, s) := test_multiple s ino in Done (if (m : bool) then None else Some 0, s)
        else Done (None, s)
      else Done (None, s) in
    match early with
    | Some v => Done (0, Some v, s)
    | None => let* (_, val, s) := get_inode_count s ino in Done (0, Some (icount_16_xlate val), s)
    end.

(** [if (icount->multiple) ext2fs_mark_inode_bitmap2(...)] *)
Definition mark_multiple_opt (s : ist) (ino : Z) : outcome ist := if has_multiple s then mark_multiple s ino else Done s.
Definition unmark_multiple_opt (s : ist) (ino : Z) : outcome ist := if has_multiple s then unmark_multiple s ino else Done s.

(** The count plus one is stored: the result and the new count. *)
Definition count_up (s : ist) (ino : Z) : outcome (Z * Z * ist) :=
  let* (_, curr_value, s) := get_inode_count s ino in
  let curr_value := u32 (curr_value + 1) in
  let* (r, s) := set_inode_count s ino curr_value in
  Done (r, curr_value, s).

(** The end of [ext2fs_icount_increment]. *)
Definition increment_end (s : ist) (ino curr_value : Z) : outcome (Z * option Z * ist) :=
  let* s := mark_multiple_opt s ino in Done (0, Some (icount_16_xlate curr_value), s).

Definition ext2fs_icount_increment (s : ist) (ino : Z) : outcome (Z * option Z * ist) :=
  if bad_magic s then Done (EXT2_ET_MAGIC_ICOUNT, None, s)
  else if bad_ino s ino then Done (EXT2_ET_INVALID_ARGUMENT, None, s)
  else
    match fullmap (fst s) with
    | Some m =>
        let* c := aget m ino in
        let curr_value := icount_16_xlate (c + 1) in
        let* m := aset m ino curr_value in
        increment_end (set_fullmap (fst s) (Some m), snd s) ino curr_value
    | None =>
        let* (one, s) := test_single s ino in
        if (one : bool) then
          let* (r, s) := set_inode_count s ino 2 in
          if negb (r =? 0) then Done (EXT2_ET_NO_MEMORY, None, s)
          else let* s := unmark_single s ino in increment_end s ino 2
        else
          let* (in_list, s) := if has_multiple s then test_multiple s ino else Done (true, s) in
          if (in_list : bool) then
            let* (r, curr_value, s) := count_up s ino in
            if negb (r =? 0) then Done (EXT2_ET_NO_MEMORY, None, s) else increment_end s ino curr_value
          else let* s := mark_single s ino in Done (0, Some 1, s)
    end.

Definition ext2fs_icount_decrement (s : ist) (ino : Z) : outcome (Z * option Z * ist) :=
  if bad_ino s ino then Done (EXT2_ET_INVALID_ARGUMENT, None, s)
  else if bad_magic s then Done (EXT2_ET_MAGIC_ICOUNT, None, s)
  else
    match fullmap (fst s) with
    | Some m =>
        let* c := aget m ino in
        if c =? 0 then Done (EXT2_ET_INVALID_ARGUMENT, None, s)
        else let* m := aset m ino (c - 1) in Done (0, Some (icount_16_xlate (c - 1)), (set_fullmap (fst s) (Some m), snd s))
    | None =>
        let* (one, s) := test_single s ino in
        if (one : bool) then
          let* s := unmark_single s ino in
          let* s := if has_multiple s then unmark_multiple s ino else let* (_, s) := set_inode_count s ino 0 in Done s in
          Done (0, Some 0, s)
        else
          let* (in_list, s) := if has_multiple s then test_multiple s ino else Done (true, s) in
          if negb in_list then Done (EXT2_ET_INVALID_ARGUMENT, None, s)
          else
            let* (_, curr_value, s) := get_inode_count s ino in
            if curr_value =? 0 then Done (EXT2_ET_INVALID_ARGUMENT, None, s)
            else
              let curr_value := curr_value - 1 in
              let* (r, s) := set_inode_count s ino curr_value in
              if negb (r =? 0) then Done (EXT2_ET_NO_MEMORY, None, s)
              else
                let* s := if curr_value =? 1 then mark_single s ino else Done s in
                let* s := if curr_value =? 0 then unmark_multiple_opt s ino else Done s in
                Done (0, Some (icount_16_xlate curr_value), s)
    end.

Definition ext2fs_icount_store (s : ist) (ino count : Z) : outcome (Z * ist) :=
  if bad_ino s ino then Done (EXT2_ET_INVALID_ARGUMENT, s)
  else if bad_magic s then Done (EXT2_ET_MAGIC_ICOUNT, s)
  else if has_fullmap s then set_inode_count s ino count
  else if count =? 1 then
    let* s := mark_single s ino in
    let* s := unmark_multiple_opt s ino in Done (0, s)
  else if count =? 0 then
    let* s := unmark_single s ino in
    let* s := if has_multiple s then unmark_multiple s ino else let* (_, s) := set_inode_count s ino 0 in Done s in
    Done (0, s)
  else
    let* (r, s) := set_inode_count s ino count in
    if negb (r =? 0) then Done (EXT2_ET_NO_MEMORY, s)
    else
      let* s := unmark_single s ino in
      let* s := mark_multiple_opt s ino in Done (0, s).

Definition ext2fs_get_icount_size (ic : icount P) : Z := if negb (ic_magic ic =? EXT2_ET_MAGIC_ICOUNT) then 0 else ic_size ic.

(** [ext2fs_icount_validate]: whether the array is in order. *)
Fixpoint validate_from (n : nat) (i : Z) (l : list icount_el) (ret : Z) : outcome Z :=
  match n with
  | O => Done ret
  | S n =>
      let* a := aget l (i - 1) in
      let* b := aget l i in
      validate_from n (i + 1) l (if el_ino b <=? el_ino a then EXT2_ET_INVALID_ARGUMENT else ret)
  end.

Definition ext2fs_icount_validate (ic : icount P) : outcome Z :=
  if negb (ic_magic ic =? EXT2_ET_MAGIC_ICOUNT) then Done EXT2_ET_MAGIC_ICOUNT
  else if ic_size ic <? ic_count ic then Done EXT2_ET_INVALID_ARGUMENT
  else validate_from (Z.to_nat (ic_count ic - 1)) 1 (default [] (ic_list ic)) 0.
End icount.
