(* ===== verification/IcountSpec.v ===== *)
(** The sorted array of icount.c: searching, inserting and changing counts, and
    the bitmaps as sets of inodes. *)

From S2P Require Import Prelude Bitops Bitmap32 Bitmap64 GenBitmap BitmapRefine BitmapProperties Icount.

Local Open Scope Z_scope.

(** * Counts in a list of elements *)

Fixpoint cnt (L : list icount_el) (ino : Z) : Z :=
  match L with [] => 0 | e :: L => if el_ino e =? ino then el_count e else cnt L ino end.

Definition inos (L : list icount_el) : list Z := el_ino <$> L.

Definition in_order (L : list icount_el) : Prop := forall i j a b, L !! i = Some a -> L !! j = Some b -> (i < j)%nat -> el_ino a < el_ino b.

Lemma cnt_absent L ino : ino ∉ inos L -> cnt L ino = 0.
Proof.
  induction L as [|e L IH]; [done|]. cbn. rewrite not_elem_of_cons. intros [Hn Hi].
  destruct (Z.eqb_spec (el_ino e) ino); [congruence|by apply IH].
Qed.

Lemma cnt_insert A B ino j : ino ∉ inos (A ++ B) -> cnt (A ++ mk_el ino 0 :: B) j = cnt (A ++ B) j.
Proof.
  induction A as [|e A IH]; cbn.
  - intros Hn. destruct (Z.eqb_spec ino j) as [<-|]; [by rewrite cnt_absent|done].
  - rewrite not_elem_of_cons. intros [_ Hn]. rewrite IH by done. done.
Qed.

Lemma in_order_distinct L i j a b : in_order L -> L !! i = Some a -> L !! j = Some b -> el_ino a = el_ino b -> i = j.
Proof.
  intros Ho Ha Hb He. destruct (Nat.lt_trichotomy i j) as [Hlt|[|Hgt]]; [|done|].
  - pose proof (Ho i j a b Ha Hb Hlt). lia.
  - pose proof (Ho j i b a Hb Ha Hgt). lia.
Qed.

Lemma in_order_cons e L : in_order (e :: L) -> in_order L /\ forall a, a ∈ L -> el_ino e < el_ino a.
Proof.
  intros Ho. split.
  - intros i j a b Ha Hb Hij. apply (Ho (S i) (S j)); [done..|lia].
  - intros a [i Hi]%list_elem_of_lookup. apply (Ho 0%nat (S i)); [done..|lia].
Qed.

Lemma cnt_lookup L i e : in_order L -> L !! i = Some e -> cnt L (el_ino e) = el_count e.
Proof.
  revert i. induction L as [|x L IH]; intros i Ho Hi; [done|]. apply in_order_cons in Ho as [Ho Hlt].
  cbn. destruct i as [|i]; cbn in Hi.
  - injection Hi as ->. rewrite Z.eqb_refl. done.
  - pose proof (Hlt e ltac:(by eapply list_elem_of_lookup_2)). destruct (Z.eqb_spec (el_ino x) (el_ino e)); [lia|]. by apply (IH i).
Qed.

Lemma cnt_update L i e c j : in_order L -> L !! i = Some e ->
  cnt (<[i := mk_el (el_ino e) c]> L) j = if j =? el_ino e then c else cnt L j.
Proof.
  revert i. induction L as [|x L IH]; intros i Ho Hi; [done|]. apply in_order_cons in Ho as [Ho Hlt].
  destruct i as [|i].
  - injection Hi as ->. cbn. rewrite (Z.eqb_sym j). destruct (Z.eqb_spec (el_ino e) j); done.
  - change (L !! i = Some e) in Hi. change (<[S i := ?y]> (x :: L)) with (x :: <[i := y]> L). cbn [cnt]. rewrite (IH i Ho Hi). pose proof (Hlt e ltac:(by eapply list_elem_of_lookup_2)).
    destruct (Z.eqb_spec (el_ino x) j) as [<-|]; [|done]. destruct (Z.eqb_spec (el_ino x) (el_ino e)); [lia|done].
Qed.

Lemma in_order_update L i e c : in_order L -> L !! i = Some e -> in_order (<[i := mk_el (el_ino e) c]> L).
Proof.
  intros Ho Hi p q a b Ha Hb Hpq. apply list_lookup_insert_Some in Ha, Hb.
  destruct Ha as [(<- & <- & _)|[Hp Ha]]; destruct Hb as [(<- & <- & _)|[Hq Hb]]; cbn [el_ino].
  - lia.
  - by apply (Ho i q).
  - by apply (Ho p i).
  - by apply (Ho p q).
Qed.

Lemma lookup_behind {X} (A B : list X) k : (A ++ B) !! (length A + k)%nat = B !! k.
Proof. rewrite lookup_app_r by lia. f_equal. lia. Qed.

(** An element between those that are smaller and those that are greater. *)
Lemma in_order_insert A B ino c : in_order (A ++ B) -> (forall a, a ∈ A -> el_ino a < ino) -> (forall b, b ∈ B -> ino < el_ino b) ->
  in_order (A ++ mk_el ino c :: B).
Proof.
  intros Ho Ha Hb i j x y Hx Hy Hij. rewrite lookup_app in Hx, Hy.
  destruct (A !! i) as [a|] eqn:Ei.
  - injection Hx as <-. pose proof (Ha a ltac:(by eapply list_elem_of_lookup_2)). destruct (A !! j) as [b|] eqn:Ej.
    + injection Hy as <-. apply (Ho i j); [by rewrite lookup_app, Ei|by rewrite lookup_app, Ej|done].
    + apply lookup_cons_Some in Hy as [[_ <-]|[Hj Hy]]; [done|].
      pose proof (Hb y ltac:(by eapply list_elem_of_lookup_2)). lia.
  - apply lookup_ge_None in Ei. rewrite lookup_ge_None_2 in Hy by lia. apply lookup_cons_Some in Hx as [[Hi0 <-]|[Hi0 Hx]].
    + apply lookup_cons_Some in Hy as [[Hj0 _]|[Hj0 Hy]]; [lia|]. apply Hb. by eapply list_elem_of_lookup_2.
    + apply lookup_cons_Some in Hy as [[Hj0 _]|[Hj0 Hy]]; [lia|].
      apply (Ho (length A + (i - length A - 1))%nat (length A + (j - length A - 1))%nat); [by rewrite lookup_behind..|lia].
Qed.

Lemma sides_absent A B ino : (forall a, a ∈ A -> el_ino a < ino) -> (forall b, b ∈ B -> ino < el_ino b) -> ino ∉ inos (A ++ B).
Proof.
  intros Ha Hb. unfold inos. rewrite list_elem_of_fmap. intros (e & -> & [He|He]%elem_of_app); [pose proof (Ha e He)|pose proof (Hb e He)]; lia.
Qed.

(** * Arrays *)

Lemma aget_at {A} (l : list A) i x : l !! i = Some x -> aget l (Z.of_nat i) = Done x.
Proof. intros Hx. unfold aget. destruct (Z.ltb_spec (Z.of_nat i) 0); [lia|]. rewrite Nat2Z.id, Hx. done. Qed.

Lemma aget_front {A} (l r : list A) i x : l !! i = Some x -> aget (l ++ r) (Z.of_nat i) = Done x.
Proof. intros Hx. apply aget_at. by apply lookup_app_l_Some. Qed.

Lemma aset_at {A} (l : list A) i x : (i < length l)%nat -> aset l (Z.of_nat i) x = Done (<[i := x]> l).
Proof.
  intros Hi. unfold aset. destruct (Z.leb_spec 0 (Z.of_nat i)); [|lia]. destruct (Z.ltb_spec (Z.of_nat i) (Z.of_nat (length l))); [|lia].
  rewrite Nat2Z.id. done.
Qed.

(** Making room between two parts of an array, and filling it. *)
Lemma shift_in {X} (A B : list X) r rest x :
  (let* l := if negb (Z.of_nat (length B) =? 0) then move_up (A ++ B ++ r :: rest) (Z.of_nat (length A)) (Z.of_nat (length B))
             else Done (A ++ B ++ r :: rest) in
   aset l (Z.of_nat (length A)) x) = Done (A ++ x :: B ++ rest).
Proof.
  assert (Hset : forall b C, aset (A ++ b :: C) (Z.of_nat (length A)) x = Done (A ++ x :: C)).
  { intros b C. rewrite aset_at by (rewrite length_app; cbn; lia). f_equal. rewrite insert_app_r_alt, Nat.sub_diag by lia. done. }
  destruct B as [|b B]; [cbn [length Z.of_nat Z.eqb negb obind app]; apply Hset|].
  destruct (Z.eqb_spec (Z.of_nat (length (b :: B))) 0) as [Hz|_]; [cbn in Hz; lia|]. cbn [negb]. unfold move_up.
  destruct (Z.leb_spec 0 (Z.of_nat (length A))); [|lia]. cbn [andb].
  destruct (Z.leb_spec (Z.of_nat (length A) + 1 + Z.of_nat (length (b :: B))) (Z.of_nat (length (A ++ (b :: B) ++ r :: rest))));
    [|rewrite !length_app in *; cbn in *; lia].
  cbn [obind]. rewrite !Nat2Z.id, drop_app_length, take_app_length. unfold splice.
  replace (Z.to_nat (Z.of_nat (length A) + 1)) with (length (A ++ [b])) by (rewrite length_app; cbn; lia).
  replace (A ++ (b :: B) ++ r :: rest) with ((A ++ [b]) ++ B ++ r :: rest) by (rewrite <- app_assoc; done).
  rewrite take_app_length, <- drop_drop, drop_app_length.
  replace (drop (length (b :: B)) (B ++ r :: rest)) with rest by (cbn [length]; rewrite <- Nat.add_1_r, <- drop_drop, drop_app_length; done).
  rewrite <- app_assoc. cbn [app]. apply Hset.
Qed.

(** * The structure *)

Section spec.
Context {P : Type} `{BitmapOps P}.

(** The array holds [L] in front of unused elements. *)
Record arr_ok (ic : icount P) (L : list icount_el) : Prop := {
  ao_list : exists rest, ic_list ic = Some (L ++ rest) /\ ic_size ic = Z.of_nat (length (L ++ rest));
  ao_num : ic_count ic = Z.of_nat (length L);
  ao_order : in_order L;
  ao_ino : forall e, e ∈ L -> 1 <= el_ino e <= num_inodes ic;
  ao_cursor : 0 <= cursor ic;
  ao_last : forall i, last_lookup ic = Some i -> 0 <= i < ic_count ic;
  ao_bound : num_inodes ic < 2 ^ 32 - 100 }.

(** What the array functions do not touch. *)
Definition frame (ic ic' : icount P) : Prop :=
  ic_magic ic' = ic_magic ic /\ single ic' = single ic /\ multiple ic' = multiple ic /\ num_inodes ic' = num_inodes ic /\ fullmap ic' = fullmap ic.

Lemma frame_refl ic : frame ic ic.
Proof. repeat split. Qed.

Lemma frame_trans a b c : frame a b -> frame b c -> frame a c.
Proof. unfold frame. intuition congruence. Qed.

(** There are no more elements than inodes. *)
Lemma order_index L i e : in_order L -> (forall e, e ∈ L -> 1 <= el_ino e) -> L !! i = Some e -> Z.of_nat i < el_ino e.
Proof.
  intros Ho H1. revert e. induction i as [|i IH]; intros e He.
  - pose proof (H1 e ltac:(by eapply list_elem_of_lookup_2)). lia.
  - destruct (L !! i) as [a|] eqn:Ea; [|apply lookup_ge_None in Ea; apply lookup_lt_Some in He; lia].
    pose proof (IH a eq_refl). pose proof (Ho i (S i) a e Ea He ltac:(lia)). lia.
Qed.

Lemma order_length ic L : arr_ok ic L -> Z.of_nat (length L) <= Z.max 0 (num_inodes ic).
Proof.
  intros A. destruct (decide (length L = 0%nat)) as [|Hn]; [lia|].
  destruct (lookup_lt_is_Some_2 L (length L - 1)) as [e He]; [lia|].
  pose proof (order_index L _ e (ao_order _ _ A) ltac:(intros x Hx; apply (ao_ino _ _ A x Hx)) He).
  pose proof (ao_ino _ _ A e ltac:(by eapply list_elem_of_lookup_2)). lia.
Qed.

(** The search. *)
Lemma el_search_ok L rest ino fuel : forall low high, in_order L -> 0 <= low -> low <= high + 1 -> high < Z.of_nat (length L) ->
  (Z.to_nat (high + 1 - low) < fuel)%nat ->
  (forall i e, L !! i = Some e -> Z.of_nat i < low -> el_ino e < ino) ->
  (forall i e, L !! i = Some e -> high < Z.of_nat i -> ino < el_ino e) ->
  exists r, el_search fuel (L ++ rest) ino low high = Done r /\
    match r with
    | inl mid => exists i e, mid = Z.of_nat i /\ L !! i = Some e /\ el_ino e = ino
    | inr pos => exists A B, L = A ++ B /\ pos = Z.of_nat (length A) /\ (forall a, a ∈ A -> el_ino a < ino) /\ (forall b, b ∈ B -> ino < el_ino b)
    end.
Proof.
  induction fuel as [|fuel IH]; intros low high Ho Hl Hlh Hh Hf Hlow Hhigh; [lia|]. cbn [el_search]. destruct (Z.leb_spec low high) as [Hle|Hgt].
  - set (mid := Z.shiftr (low + high) 1). assert (Hmid : low <= mid <= high) by (unfold mid; rewrite Z.shiftr_div_pow2 by lia; change (2 ^ 1) with 2; div_lia).
    destruct (lookup_lt_is_Some_2 L (Z.to_nat mid)) as [e He]; [lia|].
    assert (Hg : aget (L ++ rest) mid = Done e) by (rewrite <- (Z2Nat.id mid) by lia; by apply aget_front).
    rewrite Hg. cbn [obind]. destruct (Z.eqb_spec ino (el_ino e)) as [->|Hne].
    { eexists. split; [done|]. exists (Z.to_nat mid), e. split; [lia|done]. }
    destruct (Z.ltb_spec ino (el_ino e)) as [Hlt|Hge].
    + apply IH; try done; try lia. intros i x Hx Hi. destruct (decide (i = Z.to_nat mid)) as [->|]; [congruence|].
      pose proof (Ho (Z.to_nat mid) i e x He Hx ltac:(lia)). lia.
    + apply IH; try done; try lia. intros i x Hx Hi. destruct (decide (i = Z.to_nat mid)) as [->|]; [rewrite He in Hx; injection Hx as <-; lia|].
      pose proof (Ho i (Z.to_nat mid) x e Hx He ltac:(lia)). lia.
  - eexists. split; [done|]. exists (take (Z.to_nat low) L), (drop (Z.to_nat low) L). split; [by rewrite take_drop|].
    split; [rewrite length_take; lia|]. split.
    + intros a [i Hi]%list_elem_of_lookup. apply lookup_take_Some in Hi as [Hi Hlt]. apply (Hlow i a Hi). lia.
    + intros b [i Hi]%list_elem_of_lookup. rewrite lookup_drop in Hi. apply (Hhigh _ b Hi). lia.
Qed.

(** * Inserting an element *)

(** A larger array. *)
Lemma grow_ok ic al L : arr_ok ic L -> no_oom al -> ic_size ic <= ic_count ic ->
  exists ic' al' r rest, grow_list (ic, al) L = Done (true, (ic', al')) /\
    arr_ok ic' L /\ ic_list ic' = Some (L ++ r :: rest) /\ frame ic ic' /\ later al al'.
Proof.
  intros A Hal Hfull. pose proof (order_length ic L A) as Hlen. pose proof (ao_num _ _ A) as Hnum. destruct (ao_list _ _ A) as (rest & Hl & Hsz).
  rewrite length_app in Hsz. assert (rest = []) as -> by (apply length_zero_iff_nil; lia). cbn [length] in Hsz.
  pose proof (ao_bound _ _ A). unfold grow_list. rewrite (u32_small (ic_size ic + 100)) by range_lia.
  assert (Hns : exists n, (if negb (ic_count ic =? 0) then let* e := aget L (ic_count ic - 1) in Done (scaled_size (ic_count ic) (num_inodes ic) (el_ino e)) else Done 0) = Done n).
  { destruct (Z.eqb_spec (ic_count ic) 0); cbn [negb]; [eauto|].
    destruct (lookup_lt_is_Some_2 L (length L - 1)) as [e He]; [lia|]. rewrite Hnum. replace (Z.of_nat (length L) - 1) with (Z.of_nat (length L - 1)) by lia.
    rewrite (aget_at L _ e He). cbn [obind]. eauto. }
  destruct Hns as [n ->]. cbn [obind]. rewrite mem_malloc_ok by done.
  set (new := if n <? ic_size ic + 100 then ic_size ic + 100 else n).
  assert (Hnew : ic_size ic + 100 <= new) by (unfold new; destruct (Z.ltb_spec n (ic_size ic + 100)); lia).
  rewrite take_ge by lia. destruct (Z.to_nat (new - ic_size ic)) as [|k] eqn:Ek; [lia|]. cbn [replicate].
  do 2 eexists. exists (mk_el 0 0), (replicate k (mk_el 0 0)). split; [done|].
  split; [|split; [done|split; [repeat split|apply later_bump]]].
  destruct A. constructor; try done. exists (mk_el 0 0 :: replicate k (mk_el 0 0)). split; [done|]. cbn [ic_size set_size].
  rewrite length_app. cbn [length]. rewrite length_replicate. lia.
Qed.

Lemma insert_el_ok ic al A B ino : arr_ok ic (A ++ B) -> no_oom al -> 1 <= ino <= num_inodes ic ->
  (forall a, a ∈ A -> el_ino a < ino) -> (forall b, b ∈ B -> ino < el_ino b) ->
  exists ic' al', insert_icount_el (ic, al) ino (Z.of_nat (length A)) = Done (Some (Z.of_nat (length A)), (ic', al')) /\
    arr_ok ic' (A ++ mk_el ino 0 :: B) /\ frame ic ic' /\ later al al'.
Proof.
  intros Hok Hal Hino Ha Hb. unfold insert_icount_el. destruct (ao_list _ _ Hok) as (rest & Hl & Hsz). rewrite Hl.
  assert (Hsame : (match last_lookup ic with Some i => let* e := aget ((A ++ B) ++ rest) i in Done (el_ino e =? ino) | None => Done false end) = Done false).
  { destruct (last_lookup ic) as [i|] eqn:El; [|done]. pose proof (ao_last _ _ Hok i El) as Hi. rewrite (ao_num _ _ Hok) in Hi.
    destruct (lookup_lt_is_Some_2 (A ++ B) (Z.to_nat i)) as [e He]; [lia|]. rewrite <- (Z2Nat.id i) by lia. rewrite (aget_front _ rest _ e He). cbn [obind].
    f_equal. apply Z.eqb_neq. intros <-. apply (sides_absent A B (el_ino e) Ha Hb). unfold inos. rewrite list_elem_of_fmap. exists e. split; [done|].
    by eapply list_elem_of_lookup_2. }
  rewrite Hsame. cbn [obind].
  assert (Hroom : exists ic1 al1 r rest1, (if ic_size ic <=? ic_count ic then grow_list (ic, al) ((A ++ B) ++ rest) else Done (true, (ic, al))) = Done (true, (ic1, al1)) /\
    arr_ok ic1 (A ++ B) /\ ic_list ic1 = Some ((A ++ B) ++ r :: rest1) /\ frame ic ic1 /\ later al al1).
  { pose proof (ao_num _ _ Hok) as Hnum. rewrite length_app in Hsz. destruct (Z.leb_spec (ic_size ic) (ic_count ic)) as [Hfull|Hfree].
    - assert (rest = []) as -> by (apply length_zero_iff_nil; lia). rewrite app_nil_r. by apply grow_ok.
    - destruct rest as [|r rest]; [cbn in Hsz; lia|]. exists ic, al, r, rest.
      split; [done|]. split; [done|]. split; [done|]. split; [apply frame_refl|apply later_refl]. }
  destruct Hroom as (ic1 & al1 & r & rest1 & Hgrow & Hok1 & Hl1 & Hfr & Hlat). rewrite Hgrow. cbn [obind negb].
  rewrite (ao_num _ _ Hok1), length_app. replace (Z.of_nat (length A + length B) - Z.of_nat (length A)) with (Z.of_nat (length B)) by lia.
  destruct (Z.ltb_spec (Z.of_nat (length B)) 0); [lia|]. rewrite Hl1. cbn [default from_option id]. rewrite <- app_assoc.
  pose proof (shift_in A B r rest1 (mk_el ino 0)) as Hs.
  destruct (if negb (Z.of_nat (length B) =? 0) then _ else _) as [l1|]; [|done]. cbn [obind] in *. rewrite Hs. cbn [obind].
  do 2 eexists. split; [done|]. pose proof Hfr as (F1 & F2 & F3 & F4 & F5). split; [|split; [repeat split; done|done]].
  destruct (ao_list _ _ Hok1) as (rr & E & Es). rewrite Hl1 in E. injection E as E. rewrite <- E in Es.
  destruct Hok1 as [_ Hn Ho Hi Hc Hla Hbd]. constructor; cbn [ic_list ic_size ic_count num_inodes cursor last_lookup set_last set_list set_count].
  - exists rest1. rewrite Es, <- !app_assoc. split; [done|]. rewrite !length_app. cbn [length]. rewrite ?length_app. cbn [length]. lia.
  - rewrite !length_app. cbn [length]. lia.
  - by apply in_order_insert.
  - intros e. rewrite elem_of_app, elem_of_cons. intros [He|[->|He]]; [apply Hi; rewrite elem_of_app; auto|cbn; lia|apply Hi; rewrite elem_of_app; auto].
  - done.
  - intros i [= <-]. lia.
  - done.
Qed.

(** * Looking up *)

Lemma arr_cursor ic L c : arr_ok ic L -> 0 <= c -> arr_ok (set_cursor ic c) L.
Proof. intros [] Hc. constructor; done. Qed.

Lemma frame_cursor ic c : frame ic (set_cursor ic c).
Proof. repeat split. Qed.

(** The last element is behind all others. *)
Lemma before_last L e ino : in_order L -> last L = Some e -> el_ino e < ino -> forall a, a ∈ L -> el_ino a < ino.
Proof.
  intros Ho Hl He a [i Hi]%list_elem_of_lookup. rewrite list.last_lookup in Hl.
  destruct (decide (i = pred (length L))) as [->|]; [rewrite Hi in Hl; injection Hl as ->; done|].
  apply lookup_lt_Some in Hi as Hlt. pose proof (Ho i (pred (length L)) a e Hi Hl ltac:(lia)). lia.
Qed.

(** The cursor, then the search: the element, or the place where it is missing. *)
Lemma get_el_eq ic al L ino (create : bool) : arr_ok ic L -> L <> [] -> (create = true -> forall e, last L = Some e -> ino <= el_ino e) ->
  exists ic', arr_ok ic' L /\ frame ic ic' /\
    ((exists k e, get_icount_el (ic, al) ino create = Done (Some (Z.of_nat k), (ic', al)) /\ L !! k = Some e /\ el_ino e = ino) \/
     (exists C B, get_icount_el (ic, al) ino create = (if create then insert_icount_el (ic', al) ino (Z.of_nat (length C)) else Done (None, (ic', al))) /\
        L = C ++ B /\ (forall a, a ∈ C -> el_ino a < ino) /\ (forall b, b ∈ B -> ino < el_ino b))).
Proof.
  intros A Hne0 Hlast. unfold get_icount_el. destruct (ao_list _ _ A) as (rest & -> & Hsz). rewrite (ao_num _ _ A).
  destruct (Z.eqb_spec (Z.of_nat (length L)) 0) as [Hz|Hnz]; [destruct L; [done|cbn in Hz; lia]|].
  assert (Hbehind : (if create then let* e := aget (L ++ rest) (Z.of_nat (length L) - 1) in Done (el_ino e <? ino) else Done false) = Done false).
  { destruct create; [|done]. destruct (lookup_lt_is_Some_2 L (pred (length L))) as [le Hle]; [lia|].
    replace (Z.of_nat (length L) - 1) with (Z.of_nat (pred (length L))) by lia. rewrite (aget_front _ rest _ le Hle). cbn [obind].
    rewrite <- list.last_lookup in Hle. pose proof (Hlast eq_refl le Hle). destruct (Z.ltb_spec (el_ino le) ino); [lia|done]. }
  rewrite Hbehind. cbn [obind]. clear Hbehind.
  set (ic1 := if Z.of_nat (length L) <=? cursor ic then set_cursor ic 0 else ic).
  assert (A1 : arr_ok ic1 L) by (unfold ic1; destruct (_ <=? _); [apply arr_cursor; [done|lia]|done]).
  assert (F1 : frame ic ic1) by (unfold ic1; destruct (_ <=? _); [apply frame_cursor|apply frame_refl]).
  assert (Hc : 0 <= cursor ic1 < Z.of_nat (length L)).
  { unfold ic1. pose proof (ao_cursor _ _ A). destruct (Z.leb_spec (Z.of_nat (length L)) (cursor ic)); cbn; lia. }
  destruct (lookup_lt_is_Some_2 L (Z.to_nat (cursor ic1))) as [e He]; [lia|].
  assert (Hg : aget (L ++ rest) (cursor ic1) = Done e) by (rewrite <- (Z2Nat.id (cursor ic1)) by lia; by apply aget_front).
  rewrite Hg. cbn [obind]. destruct (Z.eqb_spec ino (el_ino e)) as [->|Hne].
  { exists (set_cursor ic1 (cursor ic1 + 1)). split; [apply arr_cursor; [done|lia]|]. split; [apply (frame_trans _ ic1); [done|apply frame_cursor]|].
    left. exists (Z.to_nat (cursor ic1)), e. rewrite Z2Nat.id by lia. done. }
  rewrite (ao_num _ _ A1).
  destruct (el_search_ok L rest ino (S (Z.to_nat (Z.of_nat (length L)))) 0 (Z.of_nat (length L) - 1)) as (r & -> & Hr);
    [apply A|lia|lia|lia|lia|intros; lia|intros i x Hx; apply lookup_lt_Some in Hx; lia|]. cbn [obind]. destruct r as [mid|pos].
  - destruct Hr as (k & x & -> & Hx & Hi). exists (set_cursor ic1 (Z.of_nat k + 1)). split; [apply arr_cursor; [done|lia]|].
    split; [apply (frame_trans _ ic1); [done|apply frame_cursor]|]. left. exists k, x. done.
  - destruct Hr as (C & B & -> & -> & Ha & Hb). exists ic1. split; [done|]. split; [done|]. right. exists C, B. done.
Qed.

Lemma get_el_find ic al L ino : arr_ok ic L ->
  exists r ic', get_icount_el (ic, al) ino false = Done (r, (ic', al)) /\ arr_ok ic' L /\ frame ic ic' /\
    match r with
    | Some i => exists k e, i = Z.of_nat k /\ L !! k = Some e /\ el_ino e = ino
    | None => ino ∉ inos L
    end.
Proof.
  intros A. destruct L as [|x L].
  { unfold get_icount_el. destruct (ao_list _ _ A) as (rest & -> & Hsz). cbn [obind]. rewrite (ao_num _ _ A). cbn [length Z.of_nat Z.eqb].
    do 2 eexists. split; [done|]. split; [done|]. split; [apply frame_refl|]. apply not_elem_of_nil. }
  destruct (get_el_eq ic al (x :: L) ino false) as (ic' & A' & F & [(k & e & E & Hk & He)|(C & B & E & HL & Ha & Hb)]); [done..| |].
  - exists (Some (Z.of_nat k)), ic'. split; [done|]. split; [done|]. split; [done|]. by exists k, e.
  - exists None, ic'. split; [done|]. split; [done|]. split; [done|]. rewrite HL. by apply sides_absent.
Qed.

(** With [create], the inode is added if it is not there, with a count of zero. *)
Lemma get_el_create ic al L ino : arr_ok ic L -> no_oom al -> 1 <= ino <= num_inodes ic ->
  exists k ic' al' L' e, get_icount_el (ic, al) ino true = Done (Some (Z.of_nat k), (ic', al')) /\ arr_ok ic' L' /\ frame ic ic' /\ later al al' /\
    L' !! k = Some e /\ el_ino e = ino /\ forall j, cnt L' j = cnt L j.
Proof.
  intros A Hal Hino.
  assert (Hadd : forall ic1 C B, arr_ok ic1 L -> frame ic ic1 -> get_icount_el (ic, al) ino true = insert_icount_el (ic1, al) ino (Z.of_nat (length C)) ->
    L = C ++ B -> (forall a, a ∈ C -> el_ino a < ino) -> (forall b, b ∈ B -> ino < el_ino b) ->
    exists k ic' al' L' e, get_icount_el (ic, al) ino true = Done (Some (Z.of_nat k), (ic', al')) /\ arr_ok ic' L' /\ frame ic ic' /\ later al al' /\
      L' !! k = Some e /\ el_ino e = ino /\ forall j, cnt L' j = cnt L j).
  { intros ic1 C B A1 F1 E -> Ha Hb. pose proof F1 as (_ & _ & _ & Hn & _).
    destruct (insert_el_ok ic1 al C B ino A1 Hal ltac:(lia) Ha Hb) as (ic2 & al2 & E2 & A2 & F2 & Hlat). rewrite E, E2.
    exists (length C), ic2, al2, (C ++ mk_el ino 0 :: B), (mk_el ino 0). split; [done|]. split; [done|]. split; [by apply (frame_trans _ ic1)|].
    split; [done|]. split; [by rewrite lookup_app_r, Nat.sub_diag by lia|]. split; [done|]. intros j. apply cnt_insert. by apply sides_absent. }
  assert (Hend : (forall a, a ∈ L -> el_ino a < ino) -> get_icount_el (ic, al) ino true = insert_icount_el (ic, al) ino (Z.of_nat (length L)) -> _) by
    (intros Ha E; apply (Hadd ic L []); [done|apply frame_refl|done|by rewrite app_nil_r|done|intros b Hb; by apply elem_of_nil in Hb]).
  destruct (decide (L = [])) as [->|Hne].
  { apply Hend; [intros a Hb; by apply elem_of_nil in Hb|]. unfold get_icount_el. destruct (ao_list _ _ A) as (rest & -> & Hsz). rewrite (ao_num _ _ A). done. }
  destruct (last L) as [le|] eqn:El; [|by apply last_None in El]. destruct (Z.ltb_spec (el_ino le) ino) as [Hlt|Hge].
  - apply Hend; [apply (before_last L le); [apply A|done..]|]. unfold get_icount_el. destruct (ao_list _ _ A) as (rest & -> & Hsz). rewrite (ao_num _ _ A).
    destruct (Z.eqb_spec (Z.of_nat (length L)) 0) as [Hz|Hnz]; [destruct L; [done|cbn in Hz; lia]|]. rewrite list.last_lookup in El.
    replace (Z.of_nat (length L) - 1) with (Z.of_nat (pred (length L))) by lia. rewrite (aget_front _ rest _ le El). cbn [obind].
    destruct (Z.ltb_spec (el_ino le) ino); [done|lia].
  - destruct (get_el_eq ic al L ino true) as (ic' & A' & F & [(k & e & E & Hk & He)|(C & B & E & HL & Ha & Hb)]); [done|done|congruence| |].
    + exists k, ic', al, L, e. split; [done|]. split; [done|]. split; [done|]. split; [apply later_refl|done].
    + by apply (Hadd ic' C B).
Qed.

(** * The counts of the array *)

Lemma get_inode_count_ok ic al L ino : arr_ok ic L -> fullmap ic = None ->
  exists r ic', get_inode_count (ic, al) ino = Done (r, cnt L ino, (ic', al)) /\ arr_ok ic' L /\ frame ic ic'.
Proof.
  intros A Hf. unfold get_inode_count. rewrite Hf. destruct (get_el_find ic al L ino A) as (r & ic' & -> & A' & F & Hr). cbn [obind].
  destruct r as [i|].
  - destruct Hr as (k & e & -> & Hk & <-). destruct (ao_list _ _ A') as (rest & -> & _). cbn [default from_option id].
    rewrite (aget_front _ rest _ e Hk). cbn [obind]. rewrite (cnt_lookup L k) by (done || apply A). eauto.
  - rewrite (cnt_absent L ino Hr). eauto.
Qed.

Lemma set_inode_count_ok ic al L ino c : arr_ok ic L -> no_oom al -> 1 <= ino <= num_inodes ic -> fullmap ic = None ->
  exists ic' al' L', set_inode_count (ic, al) ino c = Done (0, (ic', al')) /\ arr_ok ic' L' /\ frame ic ic' /\ later al al' /\
    forall j, cnt L' j = if j =? ino then c else cnt L j.
Proof.
  intros A Hal Hino Hf. unfold set_inode_count. rewrite Hf.
  destruct (get_el_create ic al L ino A Hal Hino) as (k & ic1 & al1 & L1 & e & -> & A1 & F1 & Hlat & Hk & <- & Hc). cbn [obind].
  destruct (ao_list _ _ A1) as (rest & El & Es). rewrite El. cbn [default from_option id]. apply lookup_lt_Some in Hk as Hlt.
  rewrite (aget_front _ rest _ e Hk). cbn [obind]. rewrite aset_at by (rewrite length_app; lia). cbn [obind].
  rewrite insert_app_l by done. do 2 eexists. exists (<[k := mk_el (el_ino e) c]> L1). split; [done|].
  split; [|split; [apply (frame_trans _ ic1); [done|repeat split]|split; [done|]]].
  - destruct A1 as [_ Hn Ho Hi Hcu Hla Hb]. constructor; try done.
    + exists rest. split; [done|]. cbn [ic_size set_list]. rewrite Es, !length_app, length_insert. done.
    + cbn [ic_count set_list]. by rewrite length_insert.
    + by apply in_order_update.
    + intros x [i Hx]%list_elem_of_lookup. apply list_lookup_insert_Some in Hx as [(_ & <- & _)|[_ Hx]]; cbn; apply Hi; by eapply list_elem_of_lookup_2.
  - intros j. rewrite cnt_update by (done || apply A1). destruct (j =? el_ino e); [done|apply Hc].
Qed.
End spec.
