(* ===== verification/IcountProperties.v ===== *)
(** The counts of icount.c as a function from inodes to counts: whatever mixture of
    bitmaps and arrays holds them, every sequence of operations gives the answers
    of that function. *)

From S2P Require Import Prelude Bitops Bitmap32 Bitmap64 GenBitmap BitmapRefine BitArray RbTree RbBitmap RbBitmapLaws BitmapProperties Icount IcountSpec.

Local Open Scope Z_scope.

(** * The specification *)

Inductive iop :=
| IFetch (ino : Z)
| IIncrement (ino : Z)
| IDecrement (ino : Z)
| IStore (ino count : Z).

Definition op_ino (o : iop) : Z := match o with IFetch i | IIncrement i | IDecrement i | IStore i _ => i end.

(** The result of the call and the count it reports, if it reports one. *)
Definition reply : Type := Z * option Z.

(** What is kept of a count: the array of all counts has 16 bits for each. *)
Definition kept (full : bool) (x : Z) : Z := if full then icount_16_xlate x else u32 x.

Definition upd (c : Z -> Z) (ino x : Z) : Z -> Z := fun j => if j =? ino then x else c j.

Definition count_step (full : bool) (n : Z) (o : iop) (c : Z -> Z) : reply * (Z -> Z) :=
  if (op_ino o =? 0) || (n <? op_ino o) then ((EXT2_ET_INVALID_ARGUMENT, None), c)
  else
    match o with
    | IFetch ino => ((0, Some (icount_16_xlate (c ino))), c)
    | IIncrement ino => let x := kept full (c ino + 1) in ((0, Some (icount_16_xlate x)), upd c ino x)
    | IDecrement ino =>
        if c ino =? 0 then ((EXT2_ET_INVALID_ARGUMENT, None), c)
        else ((0, Some (icount_16_xlate (c ino - 1))), upd c ino (c ino - 1))
    | IStore ino x => ((0, None), upd c ino (kept full x))
    end.

Fixpoint count_run (full : bool) (n : Z) (os : list iop) (c : Z -> Z) : list reply :=
  match os with
  | [] => []
  | o :: os => let (r, c) := count_step full n o c in r :: count_run full n os c
  end.


(** * The code *)

Section run.
Context {P : Type} `{BitmapOps P}.

Definition icount_step (o : iop) (s : icount P * allocator) : outcome (reply * (icount P * allocator)) :=
  match o with
  | IFetch ino => ext2fs_icount_fetch s ino
  | IIncrement ino => ext2fs_icount_increment s ino
  | IDecrement ino => ext2fs_icount_decrement s ino
  | IStore ino x => let* (r, s) := ext2fs_icount_store s ino x in Done (r, None, s)
  end.

Fixpoint icount_run (os : list iop) (s : icount P * allocator) : outcome (list reply * (icount P * allocator)) :=
  match os with
  | [] => Done ([], s)
  | o :: os => let* (r, s) := icount_step o s in let* (l, s) := icount_run os s in Done (r :: l, s)
  end.
End run.

(** * The bitmaps as sets of inodes *)

Section sets.
Context {P : Type} `{BitmapLaws P}.

Definition bits (g : generic_bitmap P) (al : allocator) (n : Z) (f : Z -> bool) : Prop :=
  exists top, rel (g, al) (mk_spec 1 n top 0 f).

Lemma bits_ext g al n f f' : bits g al n f -> (forall j, f j = f' j) -> bits g al n f'.
Proof.
  intros (top & b & Hg & []) He. exists top, b. split; [done|]. constructor; try done. intros c Hc. cbn. rewrite <- He. auto.
Qed.






(** * The invariant with bitmaps *)






(** What stays the same. *)
Definition kin (s s' : icount P * allocator) : Prop := num_inodes (fst s') = num_inodes (fst s) /\ has_multiple s' = has_multiple s.





Lemma kin_trans a b c : kin a b -> kin b c -> kin a c.
Proof. unfold kin. intuition congruence. Qed.



(** ** Each access to the bitmaps and the array *)












(** ** The operations *)

















(** * The invariant with all counts in one array *)





(** * Sequences *)







(** * Creation *)












End sets.


(** ** The test programs of icount.c *)

Definition test_fs : filsys := mk_fs EXT2_ET_MAGIC_EXT2FS_FILSYS EXT2_FLAG_64BITS 0 0 400 64 0 0 64 1.





(** An array that has to grow: the counts of thirty inodes, in reverse order, in a
    structure made for three. *)
Definition extended : list iop := (fun i => IStore (31 - Z.of_nat i) (Z.of_nat (i `mod` 5) + 1)) <$> seq 1 30.

Example extended_ok : exists ic al' s, ext2fs_create_icount2 (P := ba_private) test_fs (fun _ => 0) demo_al 0 3 None = Done (inr ic, al') /\
  icount_run extended (ic, al') = Done (replicate 30 (0, None), s) /\ ic_size (fst s) = 103 /\ ic_count (fst s) = 24.
Proof. do 3 eexists. split; [vm_compute; reflexivity|]. split; [vm_compute; reflexivity|]. vm_compute. done. Qed.

(** The array of all counts has one element for each inode, but is indexed by the
    number of the inode, which counts from one: the last inode has no element. *)
Example last_inode_overruns : exists ic al', ext2fs_create_icount2 (P := ba_private) test_fs (fun _ => 0) demo_al 3 0 None = Done (inr ic, al') /\
  ext2fs_icount_increment (ic, al') 63 <> Crash BadPointer /\ ext2fs_icount_increment (ic, al') 64 = Crash BadPointer.
Proof. do 2 eexists. split; [vm_compute; reflexivity|]. split; [vm_compute; done|vm_compute; reflexivity]. Qed.

(** With all counts in one array a count above 65500 is forgotten: the two kinds of
    structure report different counts. *)
Example saturation_differs :
  count_run true 64 [IStore 3 65500; IIncrement 3; IDecrement 3] (fun _ => 0) = [(0, None); (0, Some 65500); (0, Some 65499)] /\
  count_run false 64 [IStore 3 65500; IIncrement 3; IDecrement 3] (fun _ => 0) = [(0, None); (0, Some 65500); (0, Some 65500)].
Proof. split; reflexivity. Qed.
