(* ===== verification/Bmap.v ===== *)
(** The blocks of a file that is mapped by indirect blocks: the mapping from logical
    to physical blocks (bmap.c of lib/ext2fs), the count of blocks in an inode
    (i_block.c).  Files mapped by extents are behind an argument. *)

From S2P Require Import Prelude Bitops BlockIo.

Local Open Scope Z_scope.

Definition EINVAL : Z := 22.
Definition EOVERFLOW : Z := 75.
Definition EXT2_ET_FILE_TOO_BIG : Z := 2133571410.
Definition EXT2_ET_SET_BMAP_NO_IND : Z := 2133571423.
Definition EXT2_ET_INLINE_DATA_NO_BLOCK : Z := 2133571494.

Definition BMAP_ALLOC : Z := 1.
Definition BMAP_SET : Z := 2.
Definition BMAP_ZERO : Z := 8.
Definition BMAP_RET_UNINIT : Z := 1.
Definition EXT2_NDIR_BLOCKS : Z := 12.
Definition EXT2_IND_BLOCK : Z := 12.
Definition EXT2_DIND_BLOCK : Z := 13.
Definition EXT2_TIND_BLOCK : Z := 14.
Definition EXT4_HUGE_FILE_FL : Z := 0x00040000.
Definition EXT4_EXTENTS_FL : Z := 0x00080000.
Definition EXT4_INLINE_DATA_FL : Z := 0x10000000.

Definition has (flags f : Z) : bool := negb (Z.land flags f =? 0).

(** What these functions look at of the file system: [EXT2_BLOCK_SIZE_BITS] (the
    logarithm of [fs->blocksize]), [fs->cluster_ratio_bits], a feature, flags, and
    whether [fs->io] and [fs->image_io] are the same. *)
Record filsys := mk_fs {
  blocksize_bits : Z;
  cluster_bits : Z;
  huge_file : bool;
  flag_rw : bool;
  flag_share_dup : bool;
  flag_image_file : bool;
  io_is_image_io : bool }.

Definition blocksize (fs : filsys) : Z := 2 ^ blocksize_bits fs.

(** The fields of [struct ext2_inode] that they look at. *)
Record inode := mk_inode {
  i_mode : Z;
  i_size : Z;
  i_size_high : Z;
  i_blocks : Z;
  i_blocks_hi : Z;
  i_flags : Z;
  i_block : list Z }.

Definition set_i_size (i : inode) (lo hi : Z) : inode := mk_inode (i_mode i) lo hi (i_blocks i) (i_blocks_hi i) (i_flags i) (i_block i).
Definition set_i_blocks (i : inode) (lo hi : Z) : inode := mk_inode (i_mode i) (i_size i) (i_size_high i) lo hi (i_flags i) (i_block i).
Definition set_i_block (i : inode) (bs : list Z) : inode := mk_inode (i_mode i) (i_size i) (i_size_high i) (i_blocks i) (i_blocks_hi i) (i_flags i) bs.

(** What the functions need of the rest of the library: [ext2fs_alloc_block3] with a
    buffer, [ext2fs_block_alloc_stats] with -1, [ext2fs_zero_blocks2] of one block,
    [ext2fs_read_inode], [ext2fs_write_inode], [ext2fs_find_inode_goal], and setting
    the feature for large files or directories in the super block.  Memory for buffers
    is always available. *)
Class FileStore (S : Type) `{BlockIo S} := {
  alloc_blk : S -> Z -> outcome (Z * option Z * S);
  free_blk : S -> Z -> outcome S;
  zero_blk : S -> Z -> outcome (Z * S);
  read_inode : S -> Z -> outcome (Z * option inode * S);
  write_inode : S -> Z -> inode -> outcome (Z * S);
  inode_goal : S -> Z -> inode -> Z -> outcome (Z * S);
  large_feature : S -> bool -> outcome S }.

Section fs.
Context (fs : filsys).

Definition addr_per_block : Z := Z.shiftr (blocksize fs) 2.
Definition cluster_ratio : Z := Z.shiftl 1 (cluster_bits fs).

(** * i_block.c *)

Definition iblk_count (i : inode) : Z := i_blocks i + (if huge_file fs then Z.shiftl (i_blocks_hi i) 32 else 0).
Definition iblk_units (i : inode) (num_blocks : Z) : Z :=
  let n := if negb (huge_file fs) || negb (has (i_flags i) EXT4_HUGE_FILE_FL) then u64 (num_blocks * (blocksize fs / 512)) else num_blocks in
  u64 (n * cluster_ratio).

Definition ext2fs_iblk_add_blocks (i : inode) (num_blocks : Z) : Z * inode :=
  let b := u64 (iblk_count i + iblk_units i num_blocks) in
  if huge_file fs then (0, set_i_blocks i (Z.land b 0xFFFFFFFF) (u16 (Z.shiftr b 32)))
  else if 0xFFFFFFFF <? b then (EOVERFLOW, i)
  else (0, set_i_blocks i (Z.land b 0xFFFFFFFF) (i_blocks_hi i)).

Definition ext2fs_iblk_sub_blocks (i : inode) (num_blocks : Z) : Z * inode :=
  let b := iblk_count i in
  let n := iblk_units i num_blocks in
  if b <? n then (EOVERFLOW, i)
  else
    let b := b - n in
    (0, set_i_blocks i (Z.land b 0xFFFFFFFF) (if huge_file fs then u16 (Z.shiftr b 32) else i_blocks_hi i)).

Definition ext2fs_iblk_set (i : inode) (b : Z) : Z * inode :=
  let b := iblk_units i b in
  let i := set_i_blocks i (Z.land b 0xFFFFFFFF) (if huge_file fs then u16 (Z.shiftr b 32) else i_blocks_hi i) in
  (if negb (huge_file fs) && negb (Z.shiftr b 32 =? 0) then EOVERFLOW else 0, i).

(** * bmap.c *)

Section ops.
Context {S : Type} `{FileStore S}.

(** The result, [*blocks_alloc], [*ret_blk] and the state. *)
Definition block_ind_bmap (s : S) (flags ind blocks_alloc nr ret_blk : Z) : outcome (Z * Z * Z * S) :=
  if ind =? 0 then
    if has flags BMAP_SET then Done (EXT2_ET_SET_BMAP_NO_IND, blocks_alloc, ret_blk, s) else Done (0, blocks_alloc, 0, s)
  else
    let* (retval, buf, s) := read_blk s ind in
    if negb (retval =? 0) then Done (retval, blocks_alloc, ret_blk, s)
    else if has flags BMAP_SET then
      let* buf := put32 buf (4 * nr) ret_blk in
      let* (retval, s) := write_blk s ind buf in Done (retval, blocks_alloc, ret_blk, s)
    else
      let* b := get32 buf (4 * nr) in
      if (b =? 0) && has flags BMAP_ALLOC then
        let* goal := if nr =? 0 then Done ind else get32 buf (4 * (nr - 1)) in
        let* (retval, b, s) := alloc_blk s goal in
        match b with
        | None => Done (retval, blocks_alloc, ret_blk, s)
        | Some b =>
            let b := u32 b in
            let* buf := put32 buf (4 * nr) b in
            let* (retval, s) := write_blk s ind buf in
            if negb (retval =? 0) then Done (retval, blocks_alloc, ret_blk, s) else Done (0, blocks_alloc + 1, b, s)
        end
      else Done (0, blocks_alloc, b, s).

Definition block_dind_bmap (s : S) (flags dind blocks_alloc nr ret_blk : Z) : outcome (Z * Z * Z * S) :=
  let* (retval, blocks_alloc, b, s) := block_ind_bmap s (Z.land flags (Z.lnot BMAP_SET)) dind blocks_alloc (nr / addr_per_block) 0 in
  if negb (retval =? 0) then Done (retval, blocks_alloc, ret_blk, s)
  else block_ind_bmap s flags b blocks_alloc (nr mod addr_per_block) ret_blk.

Definition block_tind_bmap (s : S) (flags tind blocks_alloc nr ret_blk : Z) : outcome (Z * Z * Z * S) :=
  let* (retval, blocks_alloc, b, s) := block_dind_bmap s (Z.land flags (Z.lnot BMAP_SET)) tind blocks_alloc (nr / addr_per_block) 0 in
  if negb (retval =? 0) then Done (retval, blocks_alloc, ret_blk, s)
  else block_ind_bmap s flags b blocks_alloc (nr mod addr_per_block) ret_blk.

Definition ext2fs_file_block_offset_too_big (i : inode) (offset : Z) : bool :=
  if 2 ^ 32 - 1 <=? offset then true
  else if has (i_flags i) EXT4_EXTENTS_FL then false
  else
    let a := addr_per_block in
    a + a * a + a * a * a + 12 <=? offset.

(** [inode_bmap] *)
Definition inode_bmap (i : inode) (nr : Z) : outcome Z :=
  match i_block i !! Z.to_nat nr with Some b => Done b | None => Crash BadPointer end.
Definition inode_bmap_set (i : inode) (nr b : Z) : inode := set_i_block i (<[Z.to_nat nr := b]> (i_block i)).

(** The part of [ext2fs_bmap2] for the blocks in the inode: the result, [blocks_alloc],
    [inode_dirty], [*phys_blk], the inode and the state. *)
Definition bmap_direct (s : S) (ino : Z) (i : inode) (flags block phys : Z) : outcome (Z * Z * bool * Z * inode * S) :=
  if has flags BMAP_SET then Done (0, 0, true, phys, inode_bmap_set i block (u32 phys), s)
  else
    let* phys := inode_bmap i block in
    let* (b, s) := if block =? 0 then let* (g, s) := inode_goal s ino i block in Done (u32 g, s)
                   else let* b := inode_bmap i (block - 1) in Done (b, s) in
    if (phys =? 0) && has flags BMAP_ALLOC then
      let* (retval, b, s) := alloc_blk s b in
      match b with
      | None => Done (retval, 0, false, phys, i, s)
      | Some b => Done (0, 1, false, u32 b, inode_bmap_set i block (u32 b), s)
      end
    else Done (0, 0, false, phys, i, s).

(** The parts of [ext2fs_bmap2] for indirect blocks: the block in slot [slot] of the
    inode is made if there is none and blocks may be allocated, and [go] walks down. *)
Definition bmap_indirect (go : S -> Z -> Z -> Z -> Z -> Z -> outcome (Z * Z * Z * S)) (slot : Z)
  (s : S) (i : inode) (flags block phys : Z) : outcome (Z * Z * bool * Z * inode * S) :=
  let* b := inode_bmap i slot in
  let walk s i b blocks_alloc :=
    let* (retval, blocks_alloc, blk32, s) := go s flags b blocks_alloc block (u32 phys) in
    Done (retval, blocks_alloc, false, if retval =? 0 then blk32 else phys, i, s) in
  if b =? 0 then
    if negb (has flags BMAP_ALLOC)
    then Done (if has flags BMAP_SET then EXT2_ET_SET_BMAP_NO_IND else 0, 0, false, phys, i, s)
    else
      let* goal := inode_bmap i (slot - 1) in
      let* (retval, b, s) := alloc_blk s goal in
      match b with
      | None => Done (retval, 0, false, phys, i, s)
      | Some b => walk s (inode_bmap_set i slot (u32 b)) (u32 b) 1
      end
  else walk s i b 0.

Definition bmap_blocks (s : S) (ino : Z) (i : inode) (flags block phys : Z) : outcome (Z * Z * bool * Z * inode * S) :=
  if block <? EXT2_NDIR_BLOCKS then bmap_direct s ino i flags block phys
  else
    let block := block - EXT2_NDIR_BLOCKS in
    if block <? addr_per_block then bmap_indirect block_ind_bmap EXT2_IND_BLOCK s i flags block phys
    else
      let block := block - addr_per_block in
      if block <? u32 (addr_per_block * addr_per_block) then bmap_indirect block_dind_bmap EXT2_DIND_BLOCK s i flags block phys
      else bmap_indirect block_tind_bmap EXT2_TIND_BLOCK s i flags (block - u32 (addr_per_block * addr_per_block)) phys.

(** [extent_bmap] with the handle opened before and freed after it: the result,
    [*blocks_alloc], [*phys_blk], [*ret_flags], the inode and the state. *)
Context (extent_bmap : S -> Z -> inode -> Z -> Z -> Z -> outcome (Z * Z * Z * Z * inode * S)).

(** The end of [ext2fs_bmap2], from the label [done]. *)
Definition bmap_end (s : S) (ino : Z) (i : inode) (flags retval blocks_alloc : Z) (dirty : bool) (phys : Z) : outcome (Z * inode * S) :=
  let* (retval, s) := if negb (phys =? 0) && (retval =? 0) && has flags BMAP_ZERO then zero_blk s phys else Done (retval, s) in
  if (retval =? 0) && (negb (blocks_alloc =? 0) || dirty) then
    let i := snd (ext2fs_iblk_add_blocks i blocks_alloc) in
    let* (retval, s) := write_inode s ino i in Done (retval, i, s)
  else Done (retval, i, s).

(** With an inode of the caller; [phys] is [*phys_blk] before the call.  The result,
    [*phys_blk], [*ret_flags], the inode and the state. *)
Definition bmap_of (s : S) (ino : Z) (i : inode) (flags block phys : Z) : outcome (Z * Z * Z * inode * S) :=
  let phys := if has flags BMAP_SET then phys else 0 in
  if ext2fs_file_block_offset_too_big i block then Done (EXT2_ET_FILE_TOO_BIG, phys, 0, i, s)
  else if has (i_flags i) EXT4_INLINE_DATA_FL then Done (EXT2_ET_INLINE_DATA_NO_BLOCK, phys, 0, i, s)
  else if has (i_flags i) EXT4_EXTENTS_FL then
    let* (retval, blocks_alloc, phys, ret_flags, i, s) := extent_bmap s ino i flags block phys in
    let* (retval, i, s) := bmap_end s ino i flags retval blocks_alloc false phys in Done (retval, phys, ret_flags, i, s)
  else
    let* (retval, blocks_alloc, dirty, phys, i, s) := bmap_blocks s ino i flags block phys in
    let* (retval, i, s) := bmap_end s ino i flags retval blocks_alloc dirty phys in Done (retval, phys, 0, i, s).

(** [ext2fs_bmap2]; without an inode it is read. *)
Definition ext2fs_bmap2 (s : S) (ino : Z) (i : option inode) (flags block phys : Z) : outcome (Z * Z * Z * option inode * S) :=
  match i with
  | Some i => let* (retval, phys, ret_flags, i, s) := bmap_of s ino i flags block phys in Done (retval, phys, ret_flags, Some i, s)
  | None =>
      let* (retval, i, s) := read_inode s ino in
      match i with
      | Some i => let* (retval, phys, ret_flags, _, s) := bmap_of s ino i flags block phys in Done (retval, phys, ret_flags, None, s)
      | None => Done (retval, if has flags BMAP_SET then phys else 0, 0, None, s)
      end
  end.
End ops.
End fs.
