(* ===== verification/BmapSpec.v ===== *)
(** The blocks of a file as a tree of pointers: what a pointer in an indirect block is,
    the pointer at a position of the tree, and what setting one pointer changes. *)

From S2P Require Import Prelude Bitops BlockIo Bmap.

Local Open Scope Z_scope.

(** * The file system a file is in *)

(** The blocks of the device, the blocks that are used and the inodes. *)
Record store := mk_store { dev : gmap Z (list Z); used : Z -> bool; inodes : gmap Z inode }.

Definition with_block (st : store) (b : Z) (bs : list Z) : store := mk_store (<[b := bs]> (dev st)) (used st) (inodes st).
Definition with_used (st : store) (b : Z) (x : bool) : store := mk_store (dev st) (fun j => if j =? b then x else used st j) (inodes st).
Definition with_inode (st : store) (ino : Z) (i : inode) : store := mk_store (dev st) (used st) (<[ino := i]> (inodes st)).

(** A block that is taken is zeroed. *)
Definition taken (st : store) (b : Z) (bs : list Z) : store := with_used (with_block st b (replicate (length bs) 0)) b true.

(** What the functions need of the library: it has no errors but a lack of blocks,
    which only occurs when all blocks that can be taken are used.  Not every block may
    be given back. *)
Class FileStoreLaws (S : Type) `{FileStore S} := {
  fs_rep : S -> store -> Prop;
  usable : Z -> Prop;
  removable : Z -> Prop;
  fs_read s st b bs : fs_rep s st -> dev st !! b = Some bs -> exists s', read_blk s b = Done (0, bs, s') /\ fs_rep s' st;
  fs_write s st b bs data : fs_rep s st -> dev st !! b = Some bs -> length data = length bs -> bytes_ok data ->
    exists s', write_blk s b data = Done (0, s') /\ fs_rep s' (with_block st b data);
  fs_alloc s st goal : fs_rep s st -> is_u32 goal ->
    exists r ob s', alloc_blk s goal = Done (r, ob, s') /\
      match ob with
      | Some b => 0 < b < 2 ^ 32 /\ used st b = false /\ exists bs, dev st !! b = Some bs /\ fs_rep s' (taken st b bs)
      | None => r <> 0 /\ fs_rep s' st /\ forall b, usable b -> used st b = true
      end;
  fs_free s st b : fs_rep s st -> removable b -> used st b = true -> exists s', free_blk s b = Done s' /\ fs_rep s' (with_used st b false);
  fs_get_inode s st ino i : fs_rep s st -> inodes st !! ino = Some i -> exists s', read_inode s ino = Done (0, Some i, s') /\ fs_rep s' st;
  fs_put_inode s st ino i i' : fs_rep s st -> inodes st !! ino = Some i ->
    exists s', write_inode s ino i' = Done (0, s') /\ fs_rep s' (with_inode st ino i');
  fs_goal s st ino i l : fs_rep s st -> has (i_flags i) EXT4_EXTENTS_FL = false -> length (i_block i) = 15%nat ->
    exists g s', inode_goal s ino i l = Done (g, s') /\ fs_rep s' st;
  fs_large s st x : fs_rep s st -> exists s', large_feature s x = Done s' /\ fs_rep s' st }.

Section tree.
Context (fs : filsys) (Hbits : 10 <= blocksize_bits fs <= 16).
Local Notation A := (addr_per_block fs).
Local Notation BS := (blocksize fs).

Lemma addr_eq : A = 2 ^ (blocksize_bits fs - 2).
Proof using Hbits.
  unfold addr_per_block, blocksize. rewrite Z.shiftr_div_pow2 by lia. replace (blocksize_bits fs) with (blocksize_bits fs - 2 + 2) at 1 by lia.
  rewrite Z.pow_add_r by lia. apply Z.div_mul. lia.
Qed.

Lemma addr_bounds : 256 <= A <= 2 ^ 14.
Proof using Hbits. rewrite addr_eq. split; [apply (Z.pow_le_mono_r 2 8)|apply (Z.pow_le_mono_r 2 _ 14)]; lia. Qed.

Lemma size_eq : BS = 4 * A.
Proof using Hbits.
  rewrite addr_eq. unfold blocksize. replace (blocksize_bits fs) with (2 + (blocksize_bits fs - 2)) at 1 by lia. rewrite Z.pow_add_r by lia. done.
Qed.

(** * Pointers in a block *)

Definition blk_ok (bs : list Z) : Prop := Z.of_nat (length bs) = BS /\ bytes_ok bs.

Definition bptr (bs : list Z) (nr : Z) : Z := le_decode (part bs (Z.to_nat (4 * nr)) 4).
Definition bset (bs : list Z) (nr x : Z) : list Z := splice bs (Z.to_nat (4 * nr)) (le_encode 4 x).

Lemma bptr_u32 bs nr : blk_ok bs -> 0 <= nr < A -> is_u32 (bptr bs nr).
Proof using Hbits.
  intros [Hl Hb] Hn. rewrite size_eq in Hl. unfold bptr. pose proof (le_decode_range _ (bytes_ok_part bs (Z.to_nat (4 * nr)) 4 Hb)) as Hr.
  rewrite length_part in Hr by lia. exact Hr.
Qed.

Lemma get_ptr bs nr : blk_ok bs -> 0 <= nr < A -> get32 bs (4 * nr) = Done (bptr bs nr).
Proof using Hbits. intros [Hl Hb] Hn. rewrite size_eq in Hl. unfold get32. rewrite load_part by lia. done. Qed.

Lemma put_ptr bs nr x : blk_ok bs -> 0 <= nr < A -> put32 bs (4 * nr) x = Done (bset bs nr x).
Proof using Hbits. intros [Hl Hb] Hn. rewrite size_eq in Hl. unfold put32. rewrite store_splice; [done|lia|rewrite length_le_encode; lia]. Qed.

Lemma bset_ok bs nr x : blk_ok bs -> 0 <= nr < A -> blk_ok (bset bs nr x) /\ length (bset bs nr x) = length bs.
Proof using Hbits.
  intros [Hl Hb] Hn. assert (E : length (bset bs nr x) = length bs).
  { unfold bset. rewrite length_splice; [done|]. rewrite length_le_encode. rewrite size_eq in Hl. lia. }
  split; [|done]. split; [by rewrite E|]. apply bytes_ok_splice; [done|apply le_encode_bytes].
Qed.

Lemma bptr_bset bs nr nr' x : blk_ok bs -> 0 <= nr < A -> 0 <= nr' < A -> is_u32 x -> bptr (bset bs nr x) nr' = if nr' =? nr then x else bptr bs nr'.
Proof using Hbits.
  intros [Hl Hb] Hn Hn' Hx. rewrite size_eq in Hl. unfold bptr, bset. pose proof (length_le_encode 4 x) as El. destruct (Z.eqb_spec nr' nr) as [->|Hne].
  - pose proof (part_splice_same bs (Z.to_nat (4 * nr)) (le_encode 4 x)) as E. rewrite El in E. rewrite E by lia. rewrite le_decode_encode. apply Z.mod_small, Hx.
  - by rewrite part_splice_out by (rewrite ?El; lia).
Qed.

Lemma zero_blk_ok n : Z.of_nat n = BS -> blk_ok (replicate n 0).
Proof using. intros Hn. split; [by rewrite length_replicate|]. apply Forall_replicate. unfold is_u8. lia. Qed.

Lemma bptr_zero n nr : bptr (replicate n 0) nr = 0.
Proof using.
  unfold bptr, part. rewrite drop_replicate, take_replicate. generalize (4 `min` (n - Z.to_nat (4 * nr)))%nat. intros m. induction m as [|m IH]; [done|].
  cbn [replicate le_decode]. rewrite IH. done.
Qed.

(** * Positions *)

(** The slot in the inode, the depth below it and the index at that depth. *)
Definition pos : Type := Z * nat * Z.

#[export] Instance pos_eq_dec : EqDecision pos.
Proof. unfold pos. apply _. Defined.

(** How many levels of indirect blocks are below a slot. *)
Definition lev (slot : Z) : nat := Z.to_nat (slot - 11).

Definition valid (q : pos) : Prop :=
  let '(slot, k, i) := q in 0 <= slot < 15 /\ (k <= lev slot)%nat /\ 0 <= i < A ^ Z.of_nat k.

(** A pointer to data and not to an indirect block. *)
Definition leaf (q : pos) : Prop := let '(slot, k, i) := q in k = lev slot.

Definition ptr (d : gmap Z (list Z)) (b nr : Z) : Z := match d !! b with Some bs => bptr bs nr | None => 0 end.

Fixpoint node (d : gmap Z (list Z)) (root : Z) (k : nat) (i : Z) : Z :=
  match k with
  | O => root
  | S k => let p := node d root k (i / A) in if p =? 0 then 0 else ptr d p (i mod A)
  end.

Definition nd (st : store) (ib : list Z) (q : pos) : Z :=
  let '(slot, k, i) := q in node (dev st) (default 0 (ib !! Z.to_nat slot)) k i.

Definition dev_ok (st : store) : Prop := forall b bs, dev st !! b = Some bs -> blk_ok bs.

(** The tree: the pointers are to different blocks of the device that are used. *)
Record mapped (st : store) (ib : list Z) : Prop := {
  mp_dev : dev_ok st;
  mp_len : length ib = 15%nat;
  mp_root : Forall is_u32 ib;
  mp_node : forall q, valid q -> nd st ib q <> 0 -> used st (nd st ib q) = true /\ is_Some (dev st !! nd st ib q);
  mp_inj : forall q r, valid q -> valid r -> nd st ib q <> 0 -> nd st ib q = nd st ib r -> q = r }.

Lemma pow_succ k : A ^ Z.of_nat (S k) = A ^ Z.of_nat k * A.
Proof using. rewrite Nat2Z.inj_succ, Z.pow_succ_r by lia. lia. Qed.

Lemma valid_up slot k i : valid (slot, S k, i) -> valid (slot, k, i / A).
Proof using Hbits.
  intros (Hs & Hk & Hi). pose proof addr_bounds. split; [done|]. split; [lia|]. rewrite pow_succ in Hi.
  split; [apply Z.div_pos; lia|]. apply Z.div_lt_upper_bound; lia.
Qed.

Lemma valid_down slot k i nr : valid (slot, k, i) -> (k < lev slot)%nat -> 0 <= nr < A -> valid (slot, S k, i * A + nr).
Proof using Hbits. intros (Hs & _ & Hi) Hk Hn. pose proof addr_bounds. split; [done|]. split; [lia|]. rewrite pow_succ. nia. Qed.

Lemma down_div i nr : 0 <= nr < A -> (i * A + nr) / A = i.
Proof using Hbits. intros. pose proof addr_bounds. rewrite Z.div_add_l by lia. rewrite Z.div_small by lia. lia. Qed.

Lemma down_mod i nr : 0 <= nr < A -> (i * A + nr) mod A = nr.
Proof using Hbits. intros. pose proof addr_bounds. rewrite Z.add_comm, Z.mod_add by lia. apply Z.mod_small. lia. Qed.

Lemma nd_down st ib slot k i nr : 0 <= nr < A -> nd st ib (slot, k, i) <> 0 ->
  nd st ib (slot, S k, i * A + nr) = ptr (dev st) (nd st ib (slot, k, i)) nr.
Proof using Hbits.
  intros Hn Hp. unfold nd in *. cbn [node]. rewrite down_div, down_mod by done. by destruct (Z.eqb_spec (node (dev st) (default 0 (ib !! Z.to_nat slot)) k i) 0).
Qed.

Lemma nd_down_zero st ib slot k i nr : 0 <= nr < A -> nd st ib (slot, k, i) = 0 -> nd st ib (slot, S k, i * A + nr) = 0.
Proof using Hbits. intros Hn Hp. unfold nd in *. cbn [node]. rewrite down_div by done. by rewrite Hp. Qed.

Lemma nd_u32 st ib q : mapped st ib -> valid q -> is_u32 (nd st ib q).
Proof using Hbits.
  intros M. destruct q as [[slot k] i]. destruct k as [|k]; intros V; unfold nd; cbn [node].
  - destruct (ib !! Z.to_nat slot) as [x|] eqn:E; cbn; [|unfold is_u32; lia]. exact (Forall_lookup_1 _ _ _ _ (mp_root _ _ M) E).
  - destruct (Z.eqb_spec (node (dev st) (default 0 (ib !! Z.to_nat slot)) k (i / A)) 0); [unfold is_u32; lia|]. unfold ptr.
    destruct (dev st !! _) as [bs|] eqn:E; [|unfold is_u32; lia]. apply bptr_u32; [by apply (mp_dev _ _ M _ _ E)|]. pose proof addr_bounds. apply Z.mod_pos_bound. lia.
Qed.

(** * Setting one pointer *)

(** A pointer in an indirect block is set: either it is a pointer to data, or there was
    none and it is now one to a block of zeros.  Nothing else changes. *)
Lemma nd_set st ib st' slot k i nr x bs : mapped st ib -> valid (slot, k, i) -> (k < lev slot)%nat -> 0 <= nr < A -> is_u32 x ->
  nd st ib (slot, k, i) <> 0 -> dev st !! nd st ib (slot, k, i) = Some bs -> dev st' !! nd st ib (slot, k, i) = Some (bset bs nr x) ->
  (forall q, valid q -> nd st ib q <> 0 -> nd st ib q <> nd st ib (slot, k, i) -> dev st' !! nd st ib q = dev st !! nd st ib q) ->
  (S k = lev slot \/ nd st ib (slot, S k, i * A + nr) = 0 /\ exists n, dev st' !! x = Some (replicate n 0)) ->
  forall r, valid r -> nd st' ib r = if decide (r = (slot, S k, i * A + nr)) then x else nd st ib r.
Proof using Hbits.
  intros M Vp Hk Hn Hx Hp Ed Ed' Hrest Hlow [[slot' k'] i']. revert i'. induction k' as [|k' IH]; intros i' V.
  { rewrite decide_False by congruence. done. }
  pose proof (valid_up _ _ _ V) as V'. specialize (IH _ V'). pose proof addr_bounds. pose proof (Z.mod_pos_bound i' A ltac:(lia)) as Hmod.
  pose proof (Z_div_mod_eq_full i' A) as Ei. rewrite (Z.mul_comm A) in Ei.
  assert (Hstep : forall s, nd s ib (slot', S k', i') = if nd s ib (slot', k', i' / A) =? 0 then 0 else ptr (dev s) (nd s ib (slot', k', i' / A)) (i' mod A)) by done.
  rewrite (Hstep st'), IH. destruct (decide ((slot', k', i' / A) =@{pos} (slot, S k, i * A + nr))) as [E|Hne].
  - injection E as -> -> E. destruct Hlow as [Hl|[Hz [n En]]]; [destruct V as (_ & ? & _); lia|]. rewrite decide_False by (intros E'%(f_equal (fun q => snd (fst q))); cbn in E'; lia).
    rewrite Hstep, E, Hz. destruct (x =? 0); [done|]. unfold ptr. by rewrite En, bptr_zero.
  - destruct (Z.eqb_spec (nd st ib (slot', k', i' / A)) 0) as [Hz|Hnz].
    + rewrite decide_False; [by rewrite Hstep, Hz|]. intros [= -> -> E]. apply Hp. rewrite <- Hz. by rewrite E, down_div.
    + destruct (decide (nd st ib (slot', k', i' / A) = nd st ib (slot, k, i))) as [Es|Hns].
      * pose proof (mp_inj _ _ M _ _ V' Vp Hnz Es) as [= -> -> Ei']. rewrite (Hstep st). destruct (Z.eqb_spec (nd st ib (slot, k, i' / A)) 0); [done|].
        rewrite Ei'. unfold ptr. rewrite Ed', Ed, bptr_bset by (try done; by apply (mp_dev _ _ M _ _ Ed)).
        destruct (Z.eqb_spec (i' mod A) nr) as [En|Hnn]; [rewrite decide_True; [done|]; do 2 f_equal; lia|].
        rewrite decide_False; [done|]. intros [= E]. apply Hnn. by rewrite E, down_mod.
      * rewrite (Hstep st). destruct (Z.eqb_spec (nd st ib (slot', k', i' / A)) 0); [done|]. unfold ptr. rewrite Hrest by done.
        rewrite decide_False; [done|]. intros [= -> -> E]. apply Hns. by rewrite E, down_div.
Qed.

(** A pointer in the inode is set. *)
Lemma nd_root st ib st' slot x : mapped st ib -> 0 <= slot < 15 ->
  (forall q, valid q -> nd st ib q <> 0 -> dev st' !! nd st ib q = dev st !! nd st ib q) ->
  (lev slot = 0%nat \/ nd st ib (slot, 0%nat, 0) = 0 /\ exists n, dev st' !! x = Some (replicate n 0)) ->
  forall r, valid r -> nd st' (<[Z.to_nat slot := x]> ib) r = if decide (r = (slot, 0%nat, 0)) then x else nd st ib r.
Proof using Hbits.
  intros M Hs Hrest Hlow [[slot' k'] i']. revert i'. induction k' as [|k' IH]; intros i' V.
  { destruct V as (Hs' & _ & Hi). change (A ^ Z.of_nat 0) with 1 in Hi. assert (i' = 0) as -> by lia. unfold nd. cbn [node].
    destruct (decide (slot' = slot)) as [->|Hne].
    - rewrite decide_True by done. rewrite list_lookup_insert_eq by (rewrite (mp_len _ _ M); lia). done.
    - rewrite decide_False by congruence. rewrite list_lookup_insert_ne by lia. done. }
  pose proof (valid_up _ _ _ V) as V'. specialize (IH _ V'). rewrite decide_False by congruence.
  assert (Hstep : forall s jb, nd s jb (slot', S k', i') = if nd s jb (slot', k', i' / A) =? 0 then 0 else ptr (dev s) (nd s jb (slot', k', i' / A)) (i' mod A)) by done.
  rewrite (Hstep st'), IH, (Hstep st). destruct (decide ((slot', k', i' / A) =@{pos} (slot, 0%nat, 0))) as [E|Hne].
  - injection E as -> -> E. destruct Hlow as [Hl|[Hz [n En]]]; [destruct V as (_ & ? & _); lia|]. rewrite E, Hz. destruct (x =? 0); [done|]. unfold ptr. by rewrite En, bptr_zero.
  - destruct (Z.eqb_spec (nd st ib (slot', k', i' / A)) 0) as [Hz|Hnz]; [done|]. unfold ptr.
    by rewrite Hrest.
Qed.
End tree.
