(* ===== verification/BmapGrow.v ===== *)
(** The tree of a file grows: one pointer to a new block, and the walks of bmap.c that
    make the blocks on the way to a logical block. *)

From S2P Require Import Prelude Bitops BlockIo Bmap BmapSpec.

Local Open Scope Z_scope.

Section grow.
Context (fs : filsys) (Hbits : 10 <= blocksize_bits fs <= 16).
Local Notation A := (addr_per_block fs).
Local Notation BS := (blocksize fs).
Local Notation valid := (valid fs).
Local Notation nd := (nd fs).
Local Notation mapped := (mapped fs).

Definition zeros : list Z := replicate (Z.to_nat BS) 0.

Lemma file_zeros_ok : blk_ok fs zeros.
Proof using Hbits. pose proof (addr_bounds fs Hbits). pose proof (size_eq fs Hbits). apply zero_blk_ok. lia. Qed.

(** * One new block *)

Record one (st : store) (ib : list Z) (st' : store) (ib' : list Z) (q : pos) (x : Z) : Prop := {
  on_valid : valid q;
  on_nd : forall r, valid r -> nd st' ib' r = if decide (r = q) then x else nd st ib r;
  on_zero : nd st ib q = 0;
  on_fresh : used st x = false /\ x <> 0;
  on_used : forall b, used st' b = (b =? x) || used st b;
  on_ok : dev_ok fs st';
  on_block : dev st' !! x = Some zeros;
  on_dom : forall b, is_Some (dev st !! b) -> is_Some (dev st' !! b);
  on_same : forall b, b <> 0 -> used st b = true -> (forall r, valid r -> nd st ib r = b -> leaf r) -> dev st' !! b = dev st !! b;
  on_inodes : inodes st' = inodes st }.

Lemma one_mapped st ib st' ib' q x : mapped st ib -> one st ib st' ib' q x -> length ib' = 15%nat -> Forall is_u32 ib' -> mapped st' ib'.
Proof using.
  intros M O Hl Hu. destruct (on_fresh _ _ _ _ _ _ O) as [Hf Hx]. constructor; [apply O|done|done|..].
  - intros r V. rewrite (on_nd _ _ _ _ _ _ O r V), (on_used _ _ _ _ _ _ O). destruct (decide (r = q)) as [->|Hne].
    + intros _. rewrite Z.eqb_refl, (on_block _ _ _ _ _ _ O). done.
    + intros Hn. destruct (mp_node _ _ _ M r V Hn) as [U D]. rewrite U, orb_true_r. split; [done|]. by apply (on_dom _ _ _ _ _ _ O).
  - intros r t Vr Vt. rewrite (on_nd _ _ _ _ _ _ O r Vr), (on_nd _ _ _ _ _ _ O t Vt).
    destruct (decide (r = q)) as [->|Hr], (decide (t = q)) as [->|Ht]; try done.
    + intros _ E. exfalso. destruct (mp_node _ _ _ M t Vt ltac:(congruence)) as [U _]. congruence.
    + intros Hn E. exfalso. destruct (mp_node _ _ _ M r Vr Hn) as [U _]. congruence.
    + by apply (mp_inj _ _ _ M).
Qed.

(** * Growing at some positions *)

Record grown (T : pos -> Prop) (st : store) (ib : list Z) (st' : store) (ib' : list Z) : Prop := {
  gr_only : forall r, valid r -> nd st' ib' r <> nd st ib r -> T r /\ nd st ib r = 0;
  gr_new : forall r, valid r -> nd st ib r = 0 -> nd st' ib' r <> 0 -> used st (nd st' ib' r) = false;
  gr_zero : forall r, valid r -> leaf r -> nd st ib r = 0 -> nd st' ib' r <> 0 -> dev st' !! nd st' ib' r = Some zeros;
  gr_used : forall b, used st b = true -> used st' b = true;
  gr_back : forall b, used st' b = true -> used st b = true \/ b <> 0 /\ exists r, valid r /\ nd st' ib' r = b;
  gr_dev : forall b, b <> 0 -> used st b = true -> (forall r, valid r -> nd st ib r = b -> leaf r) -> dev st' !! b = dev st !! b }.

Lemma grown_refl T st ib : grown T st ib st ib.
Proof using. constructor; try done; auto. Qed.

Lemma one_grown (T : pos -> Prop) st ib st' ib' q x : mapped st ib -> one st ib st' ib' q x -> T q -> grown T st ib st' ib'.
Proof using.
  intros M O Hq. destruct (on_fresh _ _ _ _ _ _ O) as [Hf Hx]. constructor.
  - intros r V. rewrite (on_nd _ _ _ _ _ _ O r V). destruct (decide (r = q)) as [->|]; [|done]. intros _. split; [done|apply O].
  - intros r V. rewrite (on_nd _ _ _ _ _ _ O r V). destruct (decide (r = q)) as [->|]; [done|]. intros E1 E2. done.
  - intros r V _. rewrite (on_nd _ _ _ _ _ _ O r V). destruct (decide (r = q)) as [->|]; [intros _ _; apply O|]. intros E1 E2. done.
  - intros b Hb. by rewrite (on_used _ _ _ _ _ _ O), Hb, orb_true_r.
  - intros b. rewrite (on_used _ _ _ _ _ _ O). intros [->%Z.eqb_eq|Hb]%orb_true_iff; [right|by left]. split; [done|]. exists q. pose proof (on_valid _ _ _ _ _ _ O).
    split; [done|]. rewrite (on_nd _ _ _ _ _ _ O q) by done. by rewrite decide_True.
  - apply O.
Qed.

Lemma gr_keep T st ib st' ib' r : grown T st ib st' ib' -> valid r -> nd st ib r <> 0 -> nd st' ib' r = nd st ib r.
Proof using. intros G V Hn. destruct (decide (nd st' ib' r = nd st ib r)) as [|Hd]; [done|]. by destruct (gr_only _ _ _ _ _ G r V Hd). Qed.

Lemma grown_trans T st1 ib1 st2 ib2 st3 ib3 : mapped st1 ib1 -> mapped st2 ib2 -> grown T st1 ib1 st2 ib2 -> grown T st2 ib2 st3 ib3 -> grown T st1 ib1 st3 ib3.
Proof using.
  intros M1 M2 G1 G2.
  assert (Hleaf : forall b, used st1 b = true -> (forall r, valid r -> nd st1 ib1 r = b -> leaf r) -> forall r, valid r -> nd st2 ib2 r = b -> b <> 0 -> leaf r).
  { intros b Hb Hl r V E Hn. destruct (decide (nd st1 ib1 r = b)) as [|Hd]; [by apply Hl|].
    destruct (gr_only _ _ _ _ _ G1 r V ltac:(congruence)) as [_ Hz]. pose proof (gr_new _ _ _ _ _ G1 r V Hz ltac:(congruence)). congruence. }
  constructor.
  - intros r V Hd. destruct (decide (nd st2 ib2 r = nd st1 ib1 r)) as [E|Hd1]; [rewrite <- E in *; by apply (gr_only _ _ _ _ _ G2)|by apply (gr_only _ _ _ _ _ G1)].
  - intros r V Hz Hn. destruct (decide (nd st2 ib2 r = 0)) as [E|Hd].
    + pose proof (gr_new _ _ _ _ _ G2 r V E Hn) as Hu. destruct (used st1 (nd st3 ib3 r)) eqn:Hu1; [|done]. rewrite (gr_used _ _ _ _ _ G1 _ Hu1) in Hu. done.
    + rewrite (gr_keep _ _ _ _ _ _ G2 V Hd). by apply (gr_new _ _ _ _ _ G1).
  - intros r V Hl Hz Hn. destruct (decide (nd st2 ib2 r = 0)) as [E|Hd]; [by apply (gr_zero _ _ _ _ _ G2)|].
    rewrite (gr_keep _ _ _ _ _ _ G2 V Hd). rewrite <- (gr_zero _ _ _ _ _ G1 r V Hl Hz Hd). apply (gr_dev _ _ _ _ _ G2); [done|by apply (mp_node _ _ _ M2)|].
    intros t Vt E. by rewrite (mp_inj _ _ _ M2 t r Vt V ltac:(congruence) E).
  - intros b Hb. by apply (gr_used _ _ _ _ _ G2), (gr_used _ _ _ _ _ G1).
  - intros b Hb. destruct (gr_back _ _ _ _ _ G2 b Hb) as [Hb2|]; [|by right]. destruct (gr_back _ _ _ _ _ G1 b Hb2) as [|(Hn & r & V & E)]; [by left|right].
    split; [done|]. exists r. split; [done|]. rewrite (gr_keep _ _ _ _ _ _ G2 V); congruence.
  - intros b Hn Hb Hl. rewrite (gr_dev _ _ _ _ _ G2 b Hn); [by apply (gr_dev _ _ _ _ _ G1)|by apply (gr_used _ _ _ _ _ G1)|].
    intros r V E. by apply (Hleaf b Hb Hl).
Qed.
(** A new block below an indirect block, and one in the inode. *)
Lemma one_child st ib slot k i nr b zb bs : mapped st ib -> valid (slot, k, i) -> (k < lev slot)%nat -> 0 <= nr < A -> is_u32 b ->
  used st b = false -> b <> 0 -> dev st !! b = Some zb -> nd st ib (slot, k, i) <> 0 -> dev st !! nd st ib (slot, k, i) = Some bs ->
  nd st ib (slot, S k, i * A + nr) = 0 ->
  one st ib (with_block (taken st b zb) (nd st ib (slot, k, i)) (bset bs nr b)) ib (slot, S k, i * A + nr) b.
Proof using Hbits.
  intros M V Hk Hn Hb Hf Hb0 Ez Hp Ep Hc. destruct (mp_node _ _ _ M _ V Hp) as [Up _]. set (p := nd st ib (slot, k, i)) in *.
  assert (Hne : p <> b) by congruence. pose proof (mp_dev _ _ _ M _ _ Ez) as [Lz _]. pose proof (mp_dev _ _ _ M _ _ Ep) as Okp.
  assert (Ezz : replicate (length zb) 0 = zeros) by (unfold zeros; f_equal; lia).
  assert (Eb : dev (with_block (taken st b zb) p (bset bs nr b)) !! b = Some zeros) by (cbn; rewrite lookup_insert_ne by exact Hne; rewrite lookup_insert_eq; by rewrite Ezz).
  assert (Ed : forall c, c <> b -> c <> p -> dev (with_block (taken st b zb) p (bset bs nr b)) !! c = dev st !! c) by (intros c H1 H2; cbn; rewrite lookup_insert_ne by (intros E; by apply H2); by rewrite lookup_insert_ne by (intros E; by apply H1)).
  assert (Edp : dev (with_block (taken st b zb) p (bset bs nr b)) !! p = Some (bset bs nr b)) by (cbn; by rewrite lookup_insert_eq).
  constructor; try done.
  - by apply valid_down.
  - apply (nd_set fs Hbits st ib _ slot k i nr b bs); try done.
    + intros q Vq Hq Hqp. apply Ed; [|done]. destruct (mp_node _ _ _ M _ Vq Hq). congruence.
    + right. split; [done|]. exists (Z.to_nat BS). exact Eb.
  - intros c cs. destruct (decide (c = b)) as [->|Hcb]; [rewrite Eb; intros [= <-]; apply file_zeros_ok|].
    destruct (decide (c = p)) as [->|Hcp]; [rewrite Edp; intros [= <-]; by apply bset_ok|]. rewrite Ed by done. apply M.
  - intros c [cs Ec]. destruct (decide (c = b)) as [->|Hcb]; [rewrite Eb; eauto|]. destruct (decide (c = p)) as [->|Hcp]; [rewrite Edp; eauto|]. rewrite Ed by done. eauto.
  - intros c Hc0 Hu Hl. apply Ed; [congruence|]. intros ->. specialize (Hl _ V eq_refl). cbn in Hl. lia.
Qed.

Lemma one_root st ib slot b zb : mapped st ib -> 0 <= slot < 15 -> used st b = false -> b <> 0 -> dev st !! b = Some zb -> nd st ib (slot, 0%nat, 0) = 0 ->
  one st ib (taken st b zb) (<[Z.to_nat slot := b]> ib) (slot, 0%nat, 0) b.
Proof using Hbits.
  intros M Hs Hf Hb0 Ez Hc. pose proof (mp_dev _ _ _ M _ _ Ez) as [Lz _].
  assert (Ezz : replicate (length zb) 0 = zeros) by (unfold zeros; f_equal; lia).
  assert (Eb : dev (taken st b zb) !! b = Some zeros) by (cbn; rewrite lookup_insert_eq; by rewrite Ezz).
  assert (Ed : forall c, c <> b -> dev (taken st b zb) !! c = dev st !! c) by (intros; cbn; by rewrite lookup_insert_ne by congruence).
  constructor; try done.
  - split; [done|]. split; [lia|]. change (A ^ Z.of_nat 0) with 1. lia.
  - apply nd_root; try done.
    + intros q Vq Hq. apply Ed. destruct (mp_node _ _ _ M _ Vq Hq). congruence.
    + right. split; [done|]. exists (Z.to_nat BS). exact Eb.
  - intros c cs. destruct (decide (c = b)) as [->|Hcb]; [rewrite Eb; intros [= <-]; apply file_zeros_ok|]. rewrite Ed by done. apply M.
  - intros c [cs Ec]. destruct (decide (c = b)) as [->|Hcb]; [rewrite Eb; eauto|]. rewrite Ed by done. eauto.
  - intros c Hc0 Hu Hl. apply Ed. congruence.
Qed.

(** * The walks *)

Section walk.
Context {S : Type} `{FileStoreLaws S}.
Implicit Types s : S.

Definition full (st : store) : Prop := forall b, usable b -> used st b = true.

(** How many blocks a walk counts. *)
Definition counted (flags n n' : Z) : Prop := n <= n' /\ (has flags BMAP_ALLOC = false -> n' = n).

(** What a walk to the position [q] gives: the pointer there, which is not 0 if blocks
    may be allocated; or an error if there are no more blocks. *)
Record walked (T : pos -> Prop) (flags : Z) (q : pos) (st : store) (ib : list Z) (r b : Z) (s' : S) (st' : store) (ib' : list Z) : Prop := {
  wk_rep : fs_rep s' st';
  wk_mapped : mapped st' ib';
  wk_grown : grown T st ib st' ib';
  wk_inodes : inodes st' = inodes st;
  wk_same : has flags BMAP_ALLOC = false -> st' = st /\ ib' = ib;
  wk_end : r = 0 /\ b = nd st' ib' q /\ (has flags BMAP_ALLOC = true -> b <> 0) \/ r <> 0 /\ has flags BMAP_ALLOC = true /\ full st' }.

Lemma ind_bmap_ok (T : pos -> Prop) s st ib slot k i flags n nr rb : fs_rep s st -> mapped st ib -> valid (slot, k, i) -> (k < lev slot)%nat -> 0 <= nr < A ->
  has flags BMAP_SET = false -> (has flags BMAP_ALLOC = true -> nd st ib (slot, k, i) <> 0) -> T (slot, Datatypes.S k, i * A + nr) ->
  exists r n' b s' st', block_ind_bmap s flags (nd st ib (slot, k, i)) n nr rb = Done (r, n', b, s') /\ counted flags n n' /\
    walked T flags (slot, Datatypes.S k, i * A + nr) st ib r b s' st' ib.
Proof using Hbits.
  intros R M V Hk Hn Hset Hall Ht. unfold block_ind_bmap. rewrite Hset. pose proof (nd_u32 fs Hbits _ _ _ M V) as Hpu. destruct (Z.eqb_spec (nd st ib (slot, k, i)) 0) as [Hz|Hp].
  { exists 0, n, 0, s, st. split; [done|]. split; [split; [lia|congruence]|]. constructor; try done; [apply grown_refl|left]. rewrite (nd_down_zero fs Hbits) by done. split; [done|]. split; [done|]. intros Ha. by apply Hall in Ha. }
  destruct (mp_node _ _ _ M _ V Hp) as [Up [bs Eb]]. destruct (fs_read _ _ _ _ R Eb) as (s1 & -> & R1). cbn [obind]. change (0 =? 0) with true. cbn [negb].
  pose proof (mp_dev _ _ _ M _ _ Eb) as Okb. rewrite (get_ptr fs Hbits) by done. cbn [obind].
  assert (Ec : nd st ib (slot, Datatypes.S k, i * A + nr) = bptr bs nr) by (rewrite (nd_down fs Hbits) by done; unfold ptr; by rewrite Eb).
  destruct (Z.eqb_spec (bptr bs nr) 0) as [Hc|Hc]; cbn [andb].
  2: { exists 0, n, (bptr bs nr), s1, st. split; [done|]. split; [split; [lia|congruence]|]. constructor; try done; [apply grown_refl|left]. done. }
  destruct (has flags BMAP_ALLOC) eqn:Ha.
  2: { exists 0, n, (bptr bs nr), s1, st. split; [done|]. split; [split; [lia|congruence]|]. constructor; try done; [apply grown_refl|left]. split; [done|]. split; [done|congruence]. }
  assert (Hg : exists goal, (if nr =? 0 then Done (nd st ib (slot, k, i)) else get32 bs (4 * (nr - 1))) = Done goal /\ is_u32 goal).
  { destruct (Z.eqb_spec nr 0); [eauto|]. rewrite (get_ptr fs Hbits) by (done || lia). eexists. split; [done|]. apply (bptr_u32 fs Hbits); (done || lia). }
  destruct Hg as (goal & -> & Hgu). cbn [obind]. destruct (fs_alloc _ _ _ R1 Hgu) as (r & [b|] & s2 & -> & Hal); cbn [obind].
  - destruct Hal as (Hb & Hf & zb & Ez & R2). rewrite u32_small by (unfold is_u32; lia). rewrite (put_ptr fs Hbits) by done. cbn [obind].
    destruct (bset_ok fs Hbits bs nr b Okb Hn) as [Okb' Elb]. destruct (fs_write s2 _ (nd st ib (slot, k, i)) bs (bset bs nr b) R2) as (s3 & -> & R3); [|done|apply Okb'|].
    { cbn [dev taken with_used with_block]. rewrite lookup_insert_ne by congruence. done. }
    cbn [obind]. change (0 =? 0) with true. cbn [negb].
    assert (O := one_child st ib slot k i nr b zb bs M V Hk Hn ltac:(unfold is_u32; lia) Hf ltac:(lia) Ez Hp Eb ltac:(congruence)).
    exists 0, (n + 1), b, s3, (with_block (taken st b zb) (nd st ib (slot, k, i)) (bset bs nr b)). split; [done|]. split; [split; [lia|congruence]|]. constructor; [done| | |done|congruence|left].
    + by apply (one_mapped _ _ _ _ _ _ M O); apply M.
    + by apply (one_grown T _ _ _ _ _ _ M O).
    + split; [done|]. rewrite (on_nd _ _ _ _ _ _ O) by apply O. rewrite decide_True by done. split; [done|lia].
  - destruct Hal as (Hr & R2 & Hfull). exists r, n, rb, s2, st. split; [done|]. split; [split; [lia|congruence]|]. constructor; try done; [apply grown_refl|right]. done.
Qed.
End walk.
End grow.

