(* ===== verification/BmapWalk.v ===== *)
(** [ext2fs_bmap2] as a map from logical to physical blocks: the walks down from the
    inode, the position of a logical block, and what each call gives and changes. *)

From S2P Require Import Prelude Bitops BlockIo Bmap BmapSpec BmapGrow.

Local Open Scope Z_scope.

Lemma has_clear f : has (Z.land f (Z.lnot BMAP_SET)) BMAP_ALLOC = has f BMAP_ALLOC /\ has (Z.land f (Z.lnot BMAP_SET)) BMAP_SET = false.
Proof. unfold has. rewrite <- !Z.land_assoc. change (Z.land (Z.lnot BMAP_SET) BMAP_ALLOC) with BMAP_ALLOC. change (Z.land (Z.lnot BMAP_SET) BMAP_SET) with 0. by rewrite Z.land_0_r. Qed.

Section walk.
Context (fs : filsys) (Hbits : 10 <= blocksize_bits fs <= 16).
Local Notation A := (addr_per_block fs).
Local Notation BS := (blocksize fs).
Local Notation valid := (valid fs).
Local Notation nd := (nd fs).
Local Notation mapped := (mapped fs).
Local Notation grown := (grown fs).
Context {S : Type} `{FileStoreLaws S}.
Implicit Types s : S.

(** * Walking down *)

Fixpoint down (j : nat) (s : S) (flags root n nr rb : Z) : outcome (Z * Z * Z * S) :=
  match j with
  | O => Done (0, n, root, s)
  | Datatypes.S j =>
      let* (retval, n, b, s) := down j s (Z.land flags (Z.lnot BMAP_SET)) root n (nr / A) 0 in
      if negb (retval =? 0) then Done (retval, n, rb, s) else block_ind_bmap s flags b n (nr mod A) rb
  end.

Lemma down_1 s flags root n nr rb : 0 <= nr < A -> down 1 s flags root n nr rb = block_ind_bmap s flags root n nr rb.
Proof using. intros Hn. cbn [down obind]. change (0 =? 0) with true. cbn [negb]. by rewrite Z.mod_small. Qed.

Lemma down_2 s flags root n nr rb : 0 <= nr < A * A -> down 2 s flags root n nr rb = block_dind_bmap fs s flags root n nr rb.
Proof using Hbits.
  intros Hn. pose proof (addr_bounds fs Hbits). change (down 2 s flags root n nr rb) with
    (let* (retval, n, b, s) := down 1 s (Z.land flags (Z.lnot BMAP_SET)) root n (nr / A) 0 in
     if negb (retval =? 0) then Done (retval, n, rb, s) else block_ind_bmap s flags b n (nr mod A) rb).
  rewrite down_1; [done|]. split; [apply Z.div_pos; lia|apply Z.div_lt_upper_bound; lia].
Qed.

Lemma down_3 s flags root n nr rb : 0 <= nr < A * A * A -> down 3 s flags root n nr rb = block_tind_bmap fs s flags root n nr rb.
Proof using Hbits.
  intros Hn. pose proof (addr_bounds fs Hbits). change (down 3 s flags root n nr rb) with
    (let* (retval, n, b, s) := down 2 s (Z.land flags (Z.lnot BMAP_SET)) root n (nr / A) 0 in
     if negb (retval =? 0) then Done (retval, n, rb, s) else block_ind_bmap s flags b n (nr mod A) rb).
  rewrite down_2; [done|]. split; [apply Z.div_pos; lia|apply Z.div_lt_upper_bound; lia].
Qed.

(** The positions on the way to the index [idx] below [slot]. *)
Definition at_depth (slot idx : Z) (k : nat) : Z := idx / A ^ (Z.of_nat (lev slot) - Z.of_nat k).
Definition path (slot idx : Z) (q : pos) : Prop := let '(t, k, i) := q in t = slot /\ (k <= lev slot)%nat /\ i = at_depth slot idx k.

Lemma at_depth_step slot idx k : (k < lev slot)%nat -> at_depth slot idx k = at_depth slot idx (Datatypes.S k) / A.
Proof using Hbits.
  intros Hk. pose proof (addr_bounds fs Hbits). unfold at_depth. rewrite Z.div_div by (try apply Z.pow_nonzero; try apply Z.pow_pos_nonneg; lia).
  f_equal. rewrite Z.mul_comm, <- Z.pow_succ_r by lia. f_equal. lia.
Qed.

Lemma at_depth_split slot idx k : (k < lev slot)%nat -> at_depth slot idx k * A + at_depth slot idx (Datatypes.S k) mod A = at_depth slot idx (Datatypes.S k).
Proof using Hbits. intros Hk. pose proof (addr_bounds fs Hbits). rewrite at_depth_step by done. pose proof (Z_div_mod_eq_full (at_depth slot idx (Datatypes.S k)) A). lia. Qed.

Lemma at_depth_valid slot idx k : 0 <= slot < 15 -> 0 <= idx < A ^ Z.of_nat (lev slot) -> (k <= lev slot)%nat -> valid (slot, k, at_depth slot idx k).
Proof using Hbits.
  intros Hs Hi Hk. pose proof (addr_bounds fs Hbits). split; [done|]. split; [done|]. unfold at_depth.
  assert (0 < A ^ (Z.of_nat (lev slot) - Z.of_nat k)) by (apply Z.pow_pos_nonneg; lia). split; [apply Z.div_pos; lia|].
  apply Z.div_lt_upper_bound; [done|]. rewrite <- Z.pow_add_r by lia. replace (Z.of_nat (lev slot) - Z.of_nat k + Z.of_nat k) with (Z.of_nat (lev slot)) by lia. lia.
Qed.

Lemma at_depth_end slot idx : at_depth slot idx (lev slot) = idx.
Proof using. unfold at_depth. rewrite Z.sub_diag, Z.pow_0_r. apply Z.div_1_r. Qed.

Lemma at_depth_0 slot idx : 0 <= idx < A ^ Z.of_nat (lev slot) -> at_depth slot idx 0 = 0.
Proof using. intros Hi. unfold at_depth. rewrite Z.sub_0_r. by apply Z.div_small. Qed.

Lemma walked_trans T flags q1 q st ib b1 s1 st1 ib1 r b s2 st2 ib2 : mapped st ib ->
  walked fs T flags q1 st ib 0 b1 s1 st1 ib1 -> walked fs T flags q st1 ib1 r b s2 st2 ib2 -> walked fs T flags q st ib r b s2 st2 ib2.
Proof using.
  intros M W1 W2. constructor; try apply W2.
  - apply (grown_trans _ _ _ _ st1 ib1); [done|apply W1|apply W1|apply W2].
  - rewrite (wk_inodes _ _ _ _ _ _ _ _ _ _ _ W2). apply W1.
  - intros Ha. destruct (wk_same _ _ _ _ _ _ _ _ _ _ _ W1 Ha) as [-> ->]. by apply (wk_same _ _ _ _ _ _ _ _ _ _ _ W2).
Qed.

(** The flags only matter for allocation. *)
Lemma walked_flags T f g q st ib r b s' st' ib' : has f BMAP_ALLOC = has g BMAP_ALLOC -> walked fs T f q st ib r b s' st' ib' -> walked fs T g q st ib r b s' st' ib'.
Proof using. intros E [W1 W2 W3 W4 W5 W6]. rewrite E in *. constructor; try done; by rewrite <- ?E. Qed.

Lemma walked_error T flags q q' st ib r b b' s' st' ib' : r <> 0 -> walked fs T flags q st ib r b s' st' ib' -> walked fs T flags q' st ib r b' s' st' ib'.
Proof using. intros Hr W. constructor; try apply W. destruct (wk_end _ _ _ _ _ _ _ _ _ _ _ W) as [(-> & _)|?]; [done|by right]. Qed.

Lemma down_ok slot idx : 0 <= slot < 15 -> 0 <= idx < A ^ Z.of_nat (lev slot) -> forall j s st ib flags n rb, (j <= lev slot)%nat ->
  fs_rep s st -> mapped st ib -> has flags BMAP_SET = false -> (has flags BMAP_ALLOC = true -> nd st ib (slot, 0%nat, 0) <> 0) ->
  exists r n' b s' st', down j s flags (nd st ib (slot, 0%nat, 0)) n (at_depth slot idx j) rb = Done (r, n', b, s') /\ counted flags n n' /\
    walked fs (path slot idx) flags (slot, j, at_depth slot idx j) st ib r b s' st' ib.
Proof using Hbits.
  intros Hs Hi. induction j as [|j IH]; intros s st ib flags n rb Hj R M Hset Hall.
  { exists 0, n, (nd st ib (slot, 0%nat, 0)), s, st. split; [done|]. split; [done|]. constructor; try done; [apply grown_refl|left]. by rewrite at_depth_0. }
  cbn [down]. rewrite <- at_depth_step by done. destruct (has_clear flags) as [Ea Es].
  destruct (IH s st ib (Z.land flags (Z.lnot BMAP_SET)) n 0 ltac:(lia) R M Es) as (r & n1 & b & s1 & st1 & -> & Hn1 & W1); [by rewrite Ea|]. cbn [obind].
  apply (walked_flags _ _ flags) in W1; [|done]. destruct (Z.eqb_spec r 0) as [->|Hr]; cbn [negb].
  - destruct Hn1 as [Hn1 Hn1']. rewrite Ea in Hn1'. destruct (wk_end _ _ _ _ _ _ _ _ _ _ _ W1) as [(_ & Eb & Hb)|(? & _)]; [|done]. subst b. pose proof (addr_bounds fs Hbits).
    destruct (ind_bmap_ok fs Hbits (path slot idx) s1 st1 ib slot j (at_depth slot idx j) flags n1 (at_depth slot idx (Datatypes.S j) mod A) rb) as (r & n2 & b & s2 & st2 & -> & Hn2 & W2);
      [apply W1|apply W1|apply at_depth_valid; (done || lia)|lia|apply Z.mod_pos_bound; lia|done|done| |].
    { rewrite at_depth_split by lia. done. }
    rewrite at_depth_split in W2 by lia. do 5 eexists. split; [done|]. split; [destruct Hn2 as [? Hn2']; split; [lia|intros Ha; rewrite Hn2', Hn1' by done; done]|]. by apply (walked_trans _ _ _ _ _ _ _ _ _ _ _ _ _ _ _ M W1).
  - do 5 eexists. split; [done|]. split; [destruct Hn1 as [? Hn1']; rewrite Ea in Hn1'; done|]. by apply (walked_error _ _ _ _ _ _ _ _ _ _ _ _ Hr W1).
Qed.
(** * The position of a logical block *)

Definition slot_of (l : Z) : Z := if l <? 12 then l else if l - 12 <? A then 12 else if l - 12 - A <? A * A then 13 else 14.
Definition idx_of (l : Z) : Z := if l <? 12 then 0 else if l - 12 <? A then l - 12 else if l - 12 - A <? A * A then l - 12 - A else l - 12 - A - A * A.
Definition lpos (l : Z) : pos := (slot_of l, lev (slot_of l), idx_of l).

Definition in_file (l : Z) : Prop := 0 <= l < Z.min (2 ^ 32 - 1) (12 + A + A * A + A * A * A).

Lemma lpos_ok l : in_file l -> 0 <= slot_of l < 15 /\ 0 <= idx_of l < A ^ Z.of_nat (lev (slot_of l)).
Proof using Hbits.
  intros Hl. unfold in_file, slot_of, idx_of in *. destruct (Z.ltb_spec l 12).
  { split; [lia|]. replace (lev l) with 0%nat by (unfold lev; lia). cbn. lia. }
  destruct (Z.ltb_spec (l - 12) A); [split; [lia|]; change (A ^ Z.of_nat (lev 12)) with (A ^ 1); rewrite Z.pow_1_r; lia|].
  destruct (Z.ltb_spec (l - 12 - A) (A * A)); [split; [lia|]; change (A ^ Z.of_nat (lev 13)) with (A ^ 2); rewrite Z.pow_2_r; lia|].
  split; [lia|]. change (A ^ Z.of_nat (lev 14)) with (A ^ 3). replace (A ^ 3) with (A * A * A) by ring. lia.
Qed.

Lemma lpos_valid l : in_file l -> valid (lpos l).
Proof using Hbits. intros Hl. destruct (lpos_ok l Hl) as [Hs Hi]. split; [done|]. split; [lia|done]. Qed.

Lemma lpos_inj l m : in_file l -> in_file m -> lpos l = lpos m -> l = m.
Proof using Hbits.
  intros [Hl _] [Hm _]. unfold lpos, slot_of, idx_of. intros [= E1 _ E2].
  destruct (Z.ltb_spec l 12), (Z.ltb_spec m 12); try lia;
    repeat match goal with H : context [if ?a <? ?b then _ else _] |- _ => destruct (Z.ltb_spec a b) end; lia.
Qed.

Definition fmap (st : store) (ib : list Z) (l : Z) : Z := nd st ib (lpos l).

Lemma path_leaf l m : in_file l -> in_file m -> path (slot_of l) (idx_of l) (lpos m) -> m = l.
Proof using Hbits.
  intros Hl Hm (E1 & _ & E2). apply lpos_inj; [done|done|]. unfold lpos. rewrite E1 in *. rewrite at_depth_end in E2. by rewrite E2.
Qed.

Lemma nd_root_zero st ib slot k : nd st ib (slot, 0%nat, 0) = 0 -> forall i, nd st ib (slot, k, i) = 0.
Proof using. intros E. induction k as [|k IH]; intros i; [exact E|]. change (nd st ib (slot, Datatypes.S k, i)) with
  (let p := nd st ib (slot, k, i / A) in if p =? 0 then 0 else ptr (dev st) p (i mod A)). cbv zeta. by rewrite IH. Qed.

(** * Finding and making blocks *)

Lemma inode_bmap_ok st ib i slot : mapped st ib -> i_block i = ib -> 0 <= slot < 15 -> inode_bmap i slot = Done (nd st ib (slot, 0%nat, 0)).
Proof using.
  intros M <- Hs. unfold inode_bmap. destruct (i_block i !! Z.to_nat slot) as [x|] eqn:E.
  - cbn. by rewrite E.
  - apply lookup_ge_None in E. rewrite (mp_len _ _ _ M) in E. lia.
Qed.

Lemma root_valid slot : 0 <= slot < 15 -> valid (slot, 0%nat, 0).
Proof using. intros Hs. split; [done|]. split; [lia|]. change (A ^ Z.of_nat 0) with 1. lia. Qed.

Lemma path_root slot idx : 0 <= idx < A ^ Z.of_nat (lev slot) -> path slot idx (slot, 0%nat, 0).
Proof using. intros Hi. split; [done|]. split; [lia|]. by rewrite at_depth_0. Qed.

(** A block for a slot of the inode that has none. *)
Lemma root_alloc slot idx s st ib b zb : mapped st ib -> 0 <= slot < 15 -> 0 <= idx < A ^ Z.of_nat (lev slot) -> nd st ib (slot, 0%nat, 0) = 0 ->
  0 < b < 2 ^ 32 -> used st b = false -> dev st !! b = Some zb -> fs_rep s (taken st b zb) ->
  let ib' := <[Z.to_nat slot := b]> ib in
  nd (taken st b zb) ib' (slot, 0%nat, 0) = b /\ mapped (taken st b zb) ib' /\ grown (path slot idx) st ib (taken st b zb) ib'.
Proof using Hbits.
  intros M Hs Hi Hz Hb Hf Ez R ib'. assert (O := one_root fs Hbits st ib slot b zb M Hs Hf ltac:(lia) Ez Hz). pose proof (root_valid slot Hs) as V.
  split; [rewrite (on_nd _ _ _ _ _ _ _ O) by done; by rewrite decide_True|]. split.
  - apply (one_mapped _ _ _ _ _ _ _ M O); [unfold ib'; rewrite length_insert; apply M|]. apply Forall_insert; [apply M|]. unfold is_u32. lia.
  - apply (one_grown _ _ _ _ _ _ _ _ M O). by apply path_root.
Qed.

Lemma indirect_ok go slot idx s st i flags : 12 <= slot < 15 -> 0 <= idx < A ^ Z.of_nat (lev slot) ->
  (forall s flags root n rb, go s flags root n idx rb = down (lev slot) s flags root n idx rb) ->
  fs_rep s st -> mapped st (i_block i) -> has flags BMAP_SET = false ->
  exists r n b ib' s' st', bmap_indirect go slot s i flags idx 0 = Done (r, n, false, b, set_i_block i ib', s') /\ counted flags 0 n /\ (n = 0 -> ib' = i_block i) /\
    (r <> 0 -> b = 0) /\ walked fs (path slot idx) flags (slot, lev slot, idx) st (i_block i) r b s' st' ib'.
Proof using Hbits.
  intros Hs Hi Hgo R M Hset. unfold bmap_indirect. rewrite (inode_bmap_ok st (i_block i)) by (done || lia). cbn [obind].
  assert (Hself : set_i_block i (i_block i) = i) by (by destruct i).
  destruct (Z.eqb_spec (nd st (i_block i) (slot, 0%nat, 0)) 0) as [Hz|Hz].
  - destruct (has flags BMAP_ALLOC) eqn:Ha; cbn [negb].
    + rewrite (inode_bmap_ok st (i_block i)) by (done || lia). cbn [obind]. pose proof (nd_u32 fs Hbits _ _ _ M (root_valid (slot - 1) ltac:(lia))) as Hgu.
      destruct (fs_alloc _ _ _ R Hgu) as (r & [b|] & s1 & -> & Hal); cbn [obind].
      * destruct Hal as (Hb & Hf & zb & Ez & R1). rewrite u32_small by (unfold is_u32; lia).
        destruct (root_alloc slot idx s1 st (i_block i) b zb M ltac:(lia) Hi Hz Hb Hf Ez R1) as (E0 & M1 & G1). set (ib1 := <[Z.to_nat slot := b]> (i_block i)) in *.
        unfold inode_bmap_set. fold ib1. rewrite Hgo.
        destruct (down_ok slot idx ltac:(lia) Hi (lev slot) s1 _ ib1 flags 1 (u32 0) ltac:(lia) R1 M1 Hset) as (r2 & n2 & b2 & s2 & st2 & E2 & Hn2 & W); [intros _; lia|].
        rewrite E0, at_depth_end in E2. rewrite at_depth_end in W. rewrite E2. cbn [obind]. do 6 eexists. split; [done|]. destruct Hn2 as [Hn2 _]. split; [split; [lia|congruence]|]. split; [lia|].
        split; [by destruct (Z.eqb_spec r2 0)|]. constructor; try apply W; [by apply (grown_trans _ _ _ _ _ _ _ _ M M1 G1); apply W|congruence|].
        destruct (wk_end _ _ _ _ _ _ _ _ _ _ _ W) as [(-> & Eb & Hb2)|Herr]; [by left|by right].
      * destruct Hal as (Hr & R1 & Hfull). exists r, 0, 0, (i_block i), s1, st. rewrite Hself. do 4 (split; [done|]). constructor; try done; [apply grown_refl|by right].
    + rewrite Hset. exists 0, 0, 0, (i_block i), s, st. rewrite Hself. do 4 (split; [done|]). constructor; try done; [apply grown_refl|left].
      split; [done|]. split; [by rewrite nd_root_zero|congruence].
  - rewrite Hgo. destruct (down_ok slot idx ltac:(lia) Hi (lev slot) s st (i_block i) flags 0 (u32 0) ltac:(lia) R M Hset) as (r2 & n2 & b2 & s2 & st2 & E2 & Hn2 & W); [done|].
    rewrite at_depth_end in E2, W. rewrite E2. cbn [obind]. exists r2, n2, (if r2 =? 0 then b2 else 0), (i_block i), s2, st2. rewrite Hself. split; [done|]. split; [done|].
    split; [done|]. split; [by destruct (Z.eqb_spec r2 0)|]. constructor; try apply W.
    destruct (wk_end _ _ _ _ _ _ _ _ _ _ _ W) as [(-> & Eb & Hb2)|Herr]; [by left|by right].
Qed.
Lemma direct_ok l ino s st i flags : 0 <= l < 12 -> has (i_flags i) EXT4_EXTENTS_FL = false -> fs_rep s st -> mapped st (i_block i) -> has flags BMAP_SET = false ->
  exists r n b ib' s' st', bmap_direct s ino i flags l 0 = Done (r, n, false, b, set_i_block i ib', s') /\ counted flags 0 n /\ (n = 0 -> ib' = i_block i) /\
    (r <> 0 -> b = 0) /\ walked fs (path l 0) flags (l, 0%nat, 0) st (i_block i) r b s' st' ib'.
Proof using Hbits.
  intros Hl Hext R M Hset. unfold bmap_direct. rewrite Hset, (inode_bmap_ok st (i_block i)) by (done || lia). cbn [obind].
  assert (Hself : set_i_block i (i_block i) = i) by (by destruct i).
  assert (Hlev : 0 <= 0 < A ^ Z.of_nat (lev l)) by (replace (lev l) with 0%nat by (unfold lev; lia); cbn; lia).
  assert (Hg : exists goal s1, (if l =? 0 then let* (g, s) := inode_goal s ino i l in Done (u32 g, s) else let* b := inode_bmap i (l - 1) in Done (b, s)) = Done (goal, s1) /\
    is_u32 goal /\ fs_rep s1 st).
  { destruct (Z.eqb_spec l 0) as [->|]; [destruct (fs_goal _ _ ino i 0 R Hext (mp_len _ _ _ M)) as (g & s1 & -> & R1); do 2 eexists; split; [done|]; split; [apply u32_range|done]|].
    rewrite (inode_bmap_ok st (i_block i)) by (done || lia). do 2 eexists. split; [done|]. split; [|done]. apply (nd_u32 fs Hbits); [done|]. apply root_valid. lia. }
  destruct Hg as (goal & s1 & -> & Hgu & R1). cbn [obind].
  destruct (Z.eqb_spec (nd st (i_block i) (l, 0%nat, 0)) 0) as [Hz|Hz]; cbn [andb].
  - destruct (has flags BMAP_ALLOC) eqn:Ha.
    + destruct (fs_alloc _ _ _ R1 Hgu) as (r & [b|] & s2 & -> & Hal); cbn [obind].
      * destruct Hal as (Hb & Hf & zb & Ez & R2). rewrite u32_small by (unfold is_u32; lia).
        destruct (root_alloc l 0 s2 st (i_block i) b zb M ltac:(lia) Hlev Hz Hb Hf Ez R2) as (E0 & M1 & G1).
        do 6 eexists. split; [done|]. split; [split; [lia|congruence]|]. split; [lia|]. split; [done|]. constructor; try done; [congruence|left].
        split; [done|]. split; [by rewrite E0|lia].
      * destruct Hal as (Hr & R2 & Hfull). rewrite Hz. exists r, 0, 0, (i_block i), s2, st. rewrite Hself. do 4 (split; [done|]). constructor; try done; [apply grown_refl|by right].
    + rewrite Hz. exists 0, 0, 0, (i_block i), s1, st. rewrite Hself. do 4 (split; [done|]). constructor; try done; [apply grown_refl|left]. split; [done|]. split; [done|congruence].
  - exists 0, 0, (nd st (i_block i) (l, 0%nat, 0)), (i_block i), s1, st. rewrite Hself. do 4 (split; [done|]). constructor; try done; [apply grown_refl|left]. done.
Qed.

Lemma sq_u32 : u32 (A * A) = A * A.
Proof using Hbits. pose proof (addr_bounds fs Hbits). apply u32_small. unfold is_u32. nia. Qed.

Lemma blocks_ok l ino s st i flags : in_file l -> has (i_flags i) EXT4_EXTENTS_FL = false -> fs_rep s st -> mapped st (i_block i) -> has flags BMAP_SET = false ->
  exists r n b ib' s' st', bmap_blocks fs s ino i flags l 0 = Done (r, n, false, b, set_i_block i ib', s') /\ counted flags 0 n /\ (n = 0 -> ib' = i_block i) /\
    (r <> 0 -> b = 0) /\ walked fs (path (slot_of l) (idx_of l)) flags (lpos l) st (i_block i) r b s' st' ib'.
Proof using Hbits.
  intros Hl Hext R M Hset. destruct (lpos_ok l Hl) as [Hs Hi]. destruct Hl as [Hl0 Hl]. pose proof (addr_bounds fs Hbits) as HA.
  revert Hs Hi. unfold bmap_blocks, lpos, slot_of, idx_of, EXT2_NDIR_BLOCKS. rewrite sq_u32. destruct (Z.ltb_spec l 12); intros Hs Hi.
  { replace (lev l) with 0%nat by (unfold lev; lia). apply direct_ok; (done || lia). }
  revert Hs Hi. destruct (Z.ltb_spec (l - 12) A); intros Hs Hi; [apply indirect_ok; try (done || lia); intros; change (lev 12) with 1%nat; by rewrite down_1 by lia|].
  revert Hs Hi. destruct (Z.ltb_spec (l - 12 - A) (A * A)); intros Hs Hi; [apply indirect_ok; try (done || lia); intros; change (lev 13) with 2%nat; by rewrite down_2 by lia|].
  apply indirect_ok; try (done || lia). intros. change (lev 14) with 3%nat. by rewrite down_3 by lia.
Qed.

(** * [ext2fs_bmap2] *)

Definition same_attr (i i' : inode) : Prop := i_mode i' = i_mode i /\ i_size i' = i_size i /\ i_size_high i' = i_size_high i /\ i_flags i' = i_flags i.

(** A file that is mapped by blocks. *)
Definition by_blocks (i : inode) : Prop := has (i_flags i) EXT4_EXTENTS_FL = false /\ has (i_flags i) EXT4_INLINE_DATA_FL = false.

Lemma too_big i l : by_blocks i -> 0 <= l -> ext2fs_file_block_offset_too_big fs i l = negb (bool_decide (in_file l)).
Proof using.
  intros [Hx _] Hl. unfold ext2fs_file_block_offset_too_big, in_file. rewrite Hx.
  destruct (Z.leb_spec (2 ^ 32 - 1) l); [rewrite bool_decide_false by lia; done|].
  destruct (Z.leb_spec (A + A * A + A * A * A + 12) l); [rewrite bool_decide_false by lia|rewrite bool_decide_true by lia]; done.
Qed.

Lemma iblk_add_attr i n : same_attr i (snd (ext2fs_iblk_add_blocks fs i n)) /\ i_block (snd (ext2fs_iblk_add_blocks fs i n)) = i_block i.
Proof using. unfold ext2fs_iblk_add_blocks. destruct (huge_file fs); [done|]. by destruct (0xFFFFFFFF <? _). Qed.

(** What a call gives and changes; [r] is the result and [b] the physical block. *)
Record bmapped (flags l : Z) (st : store) (ino : Z) (i : inode) (r b : Z) (s' : S) (st' : store) (i' : inode) : Prop := {
  bm_rep : fs_rep s' st';
  bm_mapped : mapped st' (i_block i');
  bm_grown : grown (path (slot_of l) (idx_of l)) st (i_block i) st' (i_block i');
  bm_attr : same_attr i i';
  bm_others : forall j, j <> ino -> inodes st' !! j = inodes st !! j;
  bm_there : is_Some (inodes st' !! ino);
  bm_sync : inodes st !! ino = Some i -> r = 0 -> inodes st' !! ino = Some i';
  bm_fail : r <> 0 -> inodes st' = inodes st;
  bm_same : has flags BMAP_ALLOC = false -> st' = st /\ i' = i;
  bm_end : r = 0 /\ b = fmap st' (i_block i') l /\ (has flags BMAP_ALLOC = true -> b <> 0) \/ r <> 0 /\ b = 0 /\ has flags BMAP_ALLOC = true /\ full st' }.

Context (extent_bmap : S -> Z -> inode -> Z -> Z -> Z -> outcome (Z * Z * Z * Z * inode * S)).

Lemma bmap_ok l ino s st i flags ph : in_file l -> by_blocks i -> fs_rep s st -> mapped st (i_block i) -> is_Some (inodes st !! ino) ->
  has flags BMAP_SET = false -> has flags BMAP_ZERO = false ->
  exists r b i' s' st', bmap_of fs extent_bmap s ino i flags l ph = Done (r, b, 0, i', s') /\ bmapped flags l st ino i r b s' st' i'.
Proof using Hbits.
  intros Hl Hb R M [i0 Ei] Hset Hzero. unfold bmap_of. rewrite Hset, too_big, bool_decide_true by (done || apply Hl). cbn [negb]. destruct Hb as [Hext ->]. rewrite Hext.
  destruct (blocks_ok l ino s st i flags Hl Hext R M Hset) as (r & n & b & ib' & s1 & st1 & -> & Hn & Hn0 & Hb0 & W). cbn [obind].
  unfold bmap_end. rewrite Hzero, !andb_false_r. cbn [obind].
  assert (Hend : forall st', (forall q, nd st' ib' q = nd st1 ib' q) -> used st' = used st1 ->
    r = 0 /\ b = fmap st' ib' l /\ (has flags BMAP_ALLOC = true -> b <> 0) \/ r <> 0 /\ b = 0 /\ has flags BMAP_ALLOC = true /\ full st').
  { intros st' En Eu. destruct (wk_end _ _ _ _ _ _ _ _ _ _ _ W) as [(-> & Eb & Ha)|(Hr & Ha & Hf)]; [left|right].
    - split; [done|]. split; [|done]. unfold fmap. by rewrite En.
    - split; [done|]. split; [by apply Hb0|]. split; [done|]. unfold full. by rewrite Eu. }
  assert (Hquiet : (r = 0 -> n = 0) -> bmapped flags l st ino i r b s1 st1 (set_i_block i ib')).
  { intros Hq. constructor; try apply W; try done.
    - intros j _. by rewrite (wk_inodes _ _ _ _ _ _ _ _ _ _ _ W).
    - rewrite (wk_inodes _ _ _ _ _ _ _ _ _ _ _ W), Ei. eauto.
    - intros Es Hr. rewrite (wk_inodes _ _ _ _ _ _ _ _ _ _ _ W), Es, (Hn0 (Hq Hr)). by destruct i.
    - intros _. apply W.
    - intros Ha. destruct (wk_same _ _ _ _ _ _ _ _ _ _ _ W Ha) as [-> ->]. by destruct i.
    - by apply Hend. }
  destruct (Z.eqb_spec r 0) as [->|Hr]; cbn [andb]; [|do 5 eexists; split; [done|]; by apply Hquiet].
  destruct (Z.eqb_spec n 0) as [->|Hnz]; cbn [negb orb]; [do 5 eexists; split; [done|]; by apply Hquiet|].
  destruct (iblk_add_attr (set_i_block i ib') n) as [Hattr Eib]. set (i' := snd (ext2fs_iblk_add_blocks fs (set_i_block i ib') n)) in *.
  destruct (fs_put_inode s1 st1 ino i0 i') as (s2 & -> & R2); [apply W|by rewrite (wk_inodes _ _ _ _ _ _ _ _ _ _ _ W)|]. cbn [obind].
  exists 0, b, i', s2, (with_inode st1 ino i'). split; [done|]. constructor; rewrite ?Eib; cbn [i_block set_i_block]; try done.
  - destruct (wk_mapped _ _ _ _ _ _ _ _ _ _ _ W). by constructor.
  - destruct (wk_grown _ _ _ _ _ _ _ _ _ _ _ W). by constructor.
  - intros j Hj. cbn. rewrite lookup_insert_ne by done. by rewrite (wk_inodes _ _ _ _ _ _ _ _ _ _ _ W).
  - cbn. rewrite lookup_insert_eq. eauto.
  - intros _ _. cbn. by rewrite lookup_insert_eq.
  - intros Ha. exfalso. apply Hnz. by apply Hn.
  - by apply Hend.
Qed.
End walk.
