(* ===== verification/Punch.v ===== *)
(** Freeing a range of the logical blocks of a file: punch.c and ind_block.c of
    lib/ext2fs, for files that are mapped by indirect blocks. *)

From S2P Require Import Prelude Bitops BlockIo Bmap.

Local Open Scope Z_scope.

(** A block as an array of [blk_t], and back. *)
Definition words (n : nat) (bs : list Z) : list Z := map (fun k => le_decode (part bs (4 * k) 4)) (seq 0 n).
Definition unwords (ps : list Z) : list Z := concat (map (le_encode 4) ps).

Definition check_zero_block (bs : list Z) : bool := forallb (Z.eqb 0) bs.

Definition BLK_T_MAX : Z := 2 ^ 32 - 1.

Section punch.
Context (fs : filsys) {S : Type} `{FileStore S}.

(** * ind_block.c *)

Definition ext2fs_read_ind_block (s : S) (blk : Z) : outcome (Z * list Z * S) :=
  if flag_image_file fs && negb (io_is_image_io fs) then Done (0, replicate (Z.to_nat (blocksize fs)) 0, s) else read_blk s blk.

Definition ext2fs_write_ind_block (s : S) (blk : Z) (buf : list Z) : outcome (Z * S) :=
  if flag_image_file fs then Done (0, s) else write_blk s blk buf.

(** * punch.c *)

Definition punch_fun : Type := S -> inode -> list Z -> Z -> Z -> outcome (Z * list Z * inode * S).

(** The part of [ind_punch] for a pointer [b] to an indirect block: whether it is free
    afterwards.  [sub] is [ind_punch] for the level below. *)
Definition punch_below (sub : punch_fun) (s : S) (i : inode) (b offset start count : Z) : outcome (Z * bool * inode * S) :=
  let* (retval, buf, s) := ext2fs_read_ind_block s b in
  if negb (retval =? 0) then Done (retval, false, i, s)
  else
    let start2 := u32 (if offset <? start then start - offset else 0) in
    let* (retval, ps, i, s) := sub s i (words (Z.to_nat (addr_per_block fs)) buf) start2 (u64 (count - offset)) in
    if negb (retval =? 0) then Done (retval, false, i, s)
    else
      let* (retval, s) := ext2fs_write_ind_block s b (unwords ps) in
      if negb (retval =? 0) then Done (retval, false, i, s) else Done (0, check_zero_block (unwords ps), i, s).

(** The loop of [ind_punch] over the pointers: the result, the pointers, [freed], the
    inode and the state. *)
Fixpoint punch_loop (sub : option punch_fun) (incr start count : Z) (p : list Z) (offset freed : Z) (i : inode) (s : S)
  : outcome (Z * list Z * Z * inode * S) :=
  match p with
  | [] => Done (0, [], freed, i, s)
  | b :: p' =>
      if u64 (start + count) <=? offset then Done (0, p, freed, i, s)
      else if (b =? 0) || (offset + incr <=? start) then
        let* (r, q, freed, i, s) := punch_loop sub incr start count p' (offset + incr) freed i s in Done (r, b :: q, freed, i, s)
      else
        let* (retval, gone, i, s) :=
          match sub with Some sub => punch_below sub s i b offset start count | None => Done (0, true, i, s) end in
        if negb (retval =? 0) then Done (retval, p, freed, i, s)
        else if (gone : bool) then
          let* s := free_blk s b in
          let* (r, q, freed, i, s) := punch_loop sub incr start count p' (offset + incr) (freed + 1) i s in Done (r, 0 :: q, freed, i, s)
        else
          let* (r, q, freed, i, s) := punch_loop sub incr start count p' (offset + incr) freed i s in Done (r, b :: q, freed, i, s)
  end.

(** The pointers are those in [p], as many as [max]. *)
Fixpoint ind_punch (level : nat) (s : S) (i : inode) (p : list Z) (start count : Z) : outcome (Z * list Z * inode * S) :=
  let incr := Z.shiftl 1 ((blocksize_bits fs - 2) * Z.of_nat level) in
  let sub := match level with O => None | Datatypes.S level => Some (ind_punch level) end in
  let* (retval, p, freed, i, s) := punch_loop sub incr start count p 0 0 i s in
  if negb (retval =? 0) then Done (retval, p, i, s)
  else let '(retval, i) := ext2fs_iblk_sub_blocks fs i freed in Done (retval, p, i, s).

(** The loop of [ext2fs_punch_ind]; [n] is how many levels are left, [bp] an index into
    [i_block]. *)
Fixpoint punch_levels (n level : nat) (s : S) (i : inode) (start count max : Z) (num bp : nat) : outcome (Z * inode * S) :=
  match n with
  | O => Done (0, i, s)
  | Datatypes.S n =>
      let max' := (if (level =? 0)%nat then 1 else max) * addr_per_block fs in
      if start <? max then
        let* (retval, q, i, s) := ind_punch level s i (take num (drop bp (i_block i))) start count in
        let i := set_i_block i (splice (i_block i) bp q) in
        if negb (retval =? 0) then Done (retval, i, s)
        else if max <? count then punch_levels n (Datatypes.S level) s i 0 (u32 (count - (max - start))) max' 1 (bp + num)
        else Done (0, i, s)
      else punch_levels n (Datatypes.S level) s i (start - max) count max' 1 (bp + num)
  end.

Definition ext2fs_punch_ind (s : S) (i : inode) (start en : Z) : outcome (Z * inode * S) :=
  if BLK_T_MAX <? start then Done (0, i, s)
  else
    let count := if (BLK_T_MAX <=? en) || (BLK_T_MAX <=? u64 (en - start + 1)) then u32 (BLK_T_MAX - start) else u32 (en - start + 1) in
    punch_levels 4 0 s i start count EXT2_NDIR_BLOCKS 12 0.

(** What is done for extents and for data in the inode. *)
Context (punch_extent : S -> Z -> inode -> Z -> Z -> outcome (Z * inode * S)).
Context (inline_data_ea_remove : S -> Z -> outcome (Z * S)).

Definition ext2fs_punch_inline_data (s : S) (ino : Z) (i : inode) (start : Z) : outcome (Z * inode * S) :=
  if 0 <? start then Done (0, i, s)
  else
    let i := set_i_size (set_i_block i (replicate 15 0)) 0 (i_size_high i) in
    let* (retval, s) := write_inode s ino i in
    if negb (retval =? 0) then Done (retval, i, s)
    else let* (retval, s) := inline_data_ea_remove s ino in Done (retval, i, s).

(** With an inode of the caller. *)
Definition ext2fs_punch (s : S) (ino : Z) (i : inode) (start en : Z) : outcome (Z * inode * S) :=
  if en <? start then Done (EINVAL, i, s)
  else if has (i_flags i) EXT4_INLINE_DATA_FL then ext2fs_punch_inline_data s ino i start
  else
    let* (retval, i, s) := if has (i_flags i) EXT4_EXTENTS_FL then punch_extent s ino i start en else ext2fs_punch_ind s i start en in
    if negb (retval =? 0) then Done (retval, i, s)
    else let* (retval, s) := write_inode s ino i in Done (retval, i, s).
End punch.
