(* ===== verification/PunchSpec.v ===== *)
(** A file that is cut off at a logical block: which pointers of its tree are kept, how
    many blocks are given back, and the states in which a part of the tree is cut. *)

From S2P Require Import Prelude Bitops BlockIo Bmap BmapSpec BmapGrow BmapWalk Punch.

Local Open Scope Z_scope.

Definition sum (f : nat -> Z) (l : list nat) : Z := foldr (fun j n => f j + n) 0 l.

Lemma sum_app f a b : sum f (a ++ b) = sum f a + sum f b.
Proof. induction a as [|x a IH]; cbn; [done|]. unfold sum in *. lia. Qed.

Lemma sum_zero f l : (forall j, j ∈ l -> f j = 0) -> sum f l = 0.
Proof. induction l as [|x l IH]; intros Hf; [done|]. cbn. rewrite (Hf x) by (by left). fold (sum f l). rewrite IH; [done|]. intros j Hj. apply Hf. by right. Qed.

Lemma sum_nonneg f l : (forall j, 0 <= f j) -> 0 <= sum f l.
Proof. intros Hf. induction l as [|x l IH]; cbn; [done|]. specialize (Hf x). unfold sum in IH. lia. Qed.

Lemma sum_ext f g l : (forall j, j ∈ l -> f j = g j) -> sum f l = sum g l.
Proof. induction l as [|x l IH]; intros Hf; [done|]. cbn. rewrite (Hf x) by (by left). fold (sum f l) (sum g l). rewrite IH; [done|]. intros j Hj. apply Hf. by right. Qed.

(** ** Blocks as pointers *)

Lemma length_unwords ps : length (unwords ps) = (4 * length ps)%nat.
Proof. induction ps as [|x ps IH]; [done|]. cbn [unwords map concat]. fold (unwords ps). rewrite length_app, length_le_encode, IH. cbn. lia. Qed.

Lemma unwords_bytes ps : bytes_ok (unwords ps).
Proof. induction ps as [|x ps IH]; [constructor|]. cbn [unwords map concat]. apply bytes_ok_app. split; [apply le_encode_bytes|done]. Qed.

Lemma part_unwords ps j x : ps !! j = Some x -> part (unwords ps) (4 * j) 4 = le_encode 4 x.
Proof.
  revert j. induction ps as [|y ps IH]; intros j Hj; [done|]. cbn [unwords map concat]. fold (unwords ps). unfold part. destruct j as [|j].
  - injection Hj as ->. rewrite Nat.mul_0_r, drop_0. apply take_app_length'. by rewrite length_le_encode.
  - replace (4 * S j)%nat with (length (le_encode 4 y) + 4 * j)%nat by (rewrite length_le_encode; lia). rewrite drop_app_add. by apply IH.
Qed.

Lemma unwords_words n : forall bs, length bs = (4 * n)%nat -> bytes_ok bs -> unwords (words n bs) = bs.
Proof.
  induction n as [|n IH]; intros bs Hl Hb; [by destruct bs|]. unfold words. cbn [seq map]. cbn [unwords map concat].
  assert (E : map (fun k => le_decode (part bs (4 * k) 4)) (seq 1 n) = words n (drop 4 bs)).
  { rewrite <- seq_shift, map_map. apply map_ext. intros k. unfold part. rewrite drop_drop. do 3 f_equal. lia. }
  rewrite E. fold (unwords (words n (drop 4 bs))). rewrite IH; [|rewrite length_drop; lia|by apply bytes_ok_drop].
  assert (Hp : length (part bs (4 * 0) 4) = 4%nat) by (apply length_part; lia). rewrite <- Hp at 1. rewrite le_encode_decode by (by apply bytes_ok_part).
  unfold part. change (4 * 0)%nat with 0%nat. rewrite drop_0. apply take_drop.
Qed.

Lemma zero_word x : is_u32 x -> forallb (Z.eqb 0) (le_encode 4 x) = (x =? 0).
Proof.
  intros Hx. destruct (Z.eqb_spec x 0) as [->|Hn]; [done|]. apply not_true_is_false. intros Hf. apply Hn.
  rewrite <- (Z.mod_small x (2 ^ (8 * Z.of_nat 4))) by exact Hx. rewrite <- le_decode_encode. rewrite forallb_forall in Hf.
  assert (Hz : forall l, (forall y, In y l -> (0 =? y) = true) -> le_decode l = 0).
  { induction l as [|y l IH]; intros Hy; [done|]. cbn [le_decode]. rewrite IH by (intros z Hz; apply Hy; by right). pose proof (Hy y (or_introl eq_refl)). lia. }
  by apply Hz.
Qed.

Lemma zero_unwords ps : Forall is_u32 ps -> check_zero_block (unwords ps) = forallb (Z.eqb 0) ps.
Proof.
  unfold check_zero_block. induction 1 as [|x ps Hx _ IH]; [done|]. cbn [unwords map concat]. fold (unwords ps). rewrite forallb_app, IH, zero_word by done. cbn [forallb].
  by rewrite Z.eqb_sym.
Qed.

Section cut.
Context (fs : filsys) (Hbits : 10 <= blocksize_bits fs <= 16).
Local Notation A := (addr_per_block fs).
Local Notation BS := (blocksize fs).
Local Notation valid := (valid fs).
Local Notation nd := (nd fs).
Local Notation mapped := (mapped fs).

(** The tree before, and the first logical block that is cut off. *)
Context (st0 : store) (ib0 : list Z) (start : Z).
Local Notation at0 := (nd st0 ib0).

(** The first logical block behind a slot of the inode. *)
Definition base (slot : Z) : Z := if slot <? 12 then slot else if slot =? 12 then 12 else if slot =? 13 then 12 + A else 12 + A + A * A.

(** How many of the blocks behind a pointer of height [h] are kept, if it is not less. *)
Definition cutoff (h : nat) (slot i : Z) : Z := Z.max 0 (start - base slot - i * A ^ Z.of_nat h).

Definition child (q : pos) (j : nat) : pos := let '(slot, k, i) := q in (slot, S k, i * A + Z.of_nat j).
Definition children : list nat := seq 0 (Z.to_nat A).

(** Whether a pointer of height [h] is kept: all of its blocks are, or one of the
    pointers below it. *)
Fixpoint keep (h : nat) (q : pos) : bool :=
  let '(slot, k, i) := q in
  negb (at0 q =? 0) && ((A ^ Z.of_nat h <=? cutoff h slot i) || match h with O => false | S h => existsb (fun j => keep h (child q j)) children end).

(** How many blocks are given back. *)
Fixpoint ncut (h : nat) (q : pos) : Z :=
  if at0 q =? 0 then 0 else (if keep h q then 0 else 1) + match h with O => 0 | S h => sum (fun j => ncut h (child q j)) children end.

Definition height (q : pos) : nat := let '(slot, k, i) := q in (lev slot - k)%nat.
Definition kept (q : pos) : bool := keep (height q) q.

Lemma ncut_nonneg h : forall q, 0 <= ncut h q.
Proof using.
  induction h as [|h IH]; intros q; cbn [ncut]; destruct (at0 q =? 0); try done; [destruct (keep _ q); lia|].
  assert (0 <= sum (fun j => ncut h (child q j)) children) by (apply sum_nonneg; intros j; apply IH). destruct (keep _ q); lia.
Qed.

Lemma pow_h h : A ^ Z.of_nat (S h) = A * A ^ Z.of_nat h.
Proof using. rewrite Nat2Z.inj_succ, Z.pow_succ_r by lia. done. Qed.

Lemma pow_pos h : 0 < A ^ Z.of_nat h.
Proof using Hbits. pose proof (addr_bounds fs Hbits). apply Z.pow_pos_nonneg; lia. Qed.

Lemma cutoff_child h slot i j : cutoff h slot (i * A + Z.of_nat j) = Z.max 0 (cutoff (S h) slot i - Z.of_nat j * A ^ Z.of_nat h).
Proof using Hbits. pose proof (pow_pos h). unfold cutoff. rewrite pow_h. nia. Qed.

Lemma elem_children j : j ∈ children <-> 0 <= Z.of_nat j < A.
Proof using Hbits. pose proof (addr_bounds fs Hbits). unfold children. rewrite elem_of_seq. lia. Qed.

(** ** A pointer whose blocks are all kept *)

Definition below (h : nat) (q : pos) : Prop := let '(slot, k, i) := q in A ^ Z.of_nat h <= cutoff h slot i.

Lemma below_child h q j : below (S h) q -> j ∈ children -> below h (child q j).
Proof using Hbits.
  destruct q as [[slot k] i]. unfold below, child. rewrite cutoff_child, pow_h, elem_children. pose proof (pow_pos h). nia.
Qed.

Lemma keep_below h q : below h q -> keep h q = negb (at0 q =? 0).
Proof using.
  destruct q as [[slot k] i]. intros Hb. unfold below in Hb. destruct h; cbn [keep]; rewrite (proj2 (Z.leb_le _ _) Hb); cbn [orb]; by rewrite andb_true_r.
Qed.

Lemma ncut_below h : forall q, below h q -> ncut h q = 0.
Proof using Hbits.
  induction h as [|h IH]; intros q Hb; cbn [ncut]; rewrite (keep_below _ _ Hb); destruct (at0 q =? 0); try done. cbn [negb].
  rewrite sum_zero; [done|]. intros j Hj. apply IH. by apply below_child.
Qed.

(** A pointer that is not of this kind is kept if one below it is. *)
Lemma keep_leaf q : ~ below 0 q -> keep 0 q = false.
Proof using. destruct q as [[slot k] i]. unfold below. cbn [keep]. intros Hb. rewrite (proj2 (Z.leb_gt _ _)) by lia. cbn [orb]. apply andb_false_r. Qed.

Lemma keep_inner h q : ~ below (S h) q -> at0 q <> 0 -> keep (S h) q = existsb (fun j => keep h (child q j)) children.
Proof using.
  destruct q as [[slot k] i]. unfold below. intros Hb Hq. cbn [keep]. rewrite (proj2 (Z.leb_gt _ _)) by lia. cbn [orb].
  by rewrite (proj2 (Z.eqb_neq _ _) Hq).
Qed.

Lemma keep_zero h q : at0 q = 0 -> keep h q = false.
Proof using. destruct q as [[slot k] i]. intros E. destruct h; cbn [keep]; by rewrite E. Qed.

(** ** Positions below a position *)

Definition under (q r : pos) : Prop := let '(slot, k, i) := q in let '(slot', k', i') := r in
  slot' = slot /\ (k <= k')%nat /\ i' / A ^ (Z.of_nat k' - Z.of_nat k) = i.

Lemma under_refl q : under q q.
Proof using. destruct q as [[slot k] i]. unfold under. rewrite Z.sub_diag, Z.pow_0_r, Z.div_1_r. done. Qed.

Lemma under_step q r : under q r -> r = q \/ exists j, j ∈ children /\ under (child q j) r.
Proof using Hbits.
  destruct q as [[slot k] i], r as [[slot' k'] i']. intros (-> & Hk & Hi). destruct (decide (k' = k)) as [->|Hne].
  - left. rewrite Z.sub_diag, Z.pow_0_r, Z.div_1_r in Hi. congruence.
  - right. pose proof (addr_bounds fs Hbits). set (x := i' / A ^ (Z.of_nat k' - Z.of_nat (S k))).
    assert (Ex : x / A = i).
    { rewrite <- Hi. unfold x. rewrite Z.div_div by (try apply Z.pow_nonzero; lia). f_equal. rewrite <- (Z.pow_1_r A) at 2. rewrite <- Z.pow_add_r by lia. f_equal. lia. }
    exists (Z.to_nat (x mod A)). pose proof (Z.mod_pos_bound x A ltac:(lia)). split; [apply elem_children; lia|]. cbn [child under]. split; [done|]. split; [lia|]. fold x.
    pose proof (Z_div_mod_eq_full x A). rewrite Z2Nat.id by lia. lia.
Qed.

Lemma under_child q j r : j ∈ children -> under (child q j) r -> under q r.
Proof using Hbits.
  destruct q as [[slot k] i], r as [[slot' k'] i']. rewrite elem_children. intros Hj (-> & Hk & Hi). split; [done|]. split; [lia|]. pose proof (addr_bounds fs Hbits).
  assert (Hd : i' / A ^ (Z.of_nat k' - Z.of_nat k) = i' / A ^ (Z.of_nat k' - Z.of_nat (S k)) / A).
  { rewrite Z.div_div by (try apply Z.pow_nonzero; lia). f_equal. rewrite <- (Z.pow_1_r A) at 3. rewrite <- Z.pow_add_r by lia. f_equal. lia. }
  rewrite Hd, Hi. apply down_div; (done || lia).
Qed.

Lemma under_child_ne q j : j ∈ children -> ~ under (child q j) q.
Proof using. destruct q as [[slot k] i]. intros _ (_ & Hk & _). lia. Qed.

Lemma under_two q j j' r : j ∈ children -> j' ∈ children -> under (child q j) r -> under (child q j') r -> j = j'.
Proof using. destruct q as [[slot k] i], r as [[slot' k'] i']. intros _ _ (_ & _ & E) (_ & _ & E'). rewrite E in E'. lia. Qed.

(** * States in which a part is cut *)

(** The contents of an indirect block afterwards. *)
Definition cutptr (q : pos) : Z := if kept q then at0 q else 0.
Definition cutblk (q : pos) : list Z := unwords (map (fun j => cutptr (child q j)) children).

(** The positions in [Q] have been dealt with. *)
Record cutted (Q : pos -> Prop) (st : store) : Prop := {
  cu_inodes : inodes st = inodes st0;
  cu_ok : dev_ok fs st;
  cu_dev : forall b, (forall q, valid q -> (0 < height q)%nat -> Q q -> at0 q = b -> b = 0) -> dev st !! b = dev st0 !! b;
  cu_blk : forall q, valid q -> (0 < height q)%nat -> Q q -> at0 q <> 0 -> dev st !! at0 q = Some (cutblk q);
  cu_used : forall b, (forall q, valid q -> Q q -> at0 q = b -> b = 0) -> used st b = used st0 b;
  cu_cut : forall q, valid q -> Q q -> at0 q <> 0 -> used st (at0 q) = kept q }.

Context (M : mapped st0 ib0).

Lemma height_child q j h : height q = S h -> height (child q j) = h.
Proof using. destruct q as [[slot k] i]. cbn. lia. Qed.

Lemma child_valid q j : valid q -> (0 < height q)%nat -> j ∈ children -> valid (child q j).
Proof using Hbits. destruct q as [[slot k] i]. intros V Hh Hj. apply (valid_down fs Hbits); [done|cbn in Hh; lia|by apply elem_children]. Qed.

Lemma child_ptr q j bs : valid q -> at0 q <> 0 -> dev st0 !! at0 q = Some bs -> j ∈ children -> at0 (child q j) = bptr bs (Z.of_nat j).
Proof using Hbits.
  destruct q as [[slot k] i]. intros V Hq Hd Hj. cbn [child]. rewrite (nd_down fs Hbits) by (done || by apply elem_children). unfold ptr. by rewrite Hd.
Qed.

Lemma words_ptr q bs : valid q -> at0 q <> 0 -> dev st0 !! at0 q = Some bs -> words (Z.to_nat A) bs = map (fun j => at0 (child q j)) children.
Proof using Hbits.
  intros V Hq Hd. unfold words. apply map_ext_in. intros j Hj%list_elem_of_In. rewrite (child_ptr q j bs) by done. unfold bptr. do 2 f_equal. lia.
Qed.

Lemma ptr_u32 q : valid q -> is_u32 (at0 q).
Proof using Hbits M. by apply (nd_u32 fs Hbits). Qed.

Lemma cutptr_u32 q : valid q -> is_u32 (cutptr q).
Proof using Hbits M. intros V. unfold cutptr. destruct (kept q); [by apply ptr_u32|unfold is_u32; lia]. Qed.

Lemma cutblk_ok q : blk_ok fs (cutblk q).
Proof using Hbits.
  pose proof (addr_bounds fs Hbits). unfold cutblk. split; [|apply unwords_bytes]. rewrite length_unwords, length_map. unfold children. rewrite length_seq, (size_eq fs Hbits). lia.
Qed.

(** A block below which nothing changes. *)
Lemma cutblk_same q bs : valid q -> at0 q <> 0 -> dev st0 !! at0 q = Some bs -> (forall j, j ∈ children -> cutptr (child q j) = at0 (child q j)) -> cutblk q = bs.
Proof using Hbits M.
  intros V Hq Hd Hc. unfold cutblk. assert (E : map (fun j => cutptr (child q j)) children = words (Z.to_nat A) bs).
  { rewrite (words_ptr q) by done. apply map_ext_in. intros j Hj%list_elem_of_In. auto. }
  destruct (mp_dev _ _ _ M _ _ Hd) as [Hl Hb]. rewrite E. apply unwords_words; [|done]. pose proof (addr_bounds fs Hbits). rewrite (size_eq fs Hbits) in Hl. lia.
Qed.

Lemma bptr_cutblk q j : valid q -> (0 < height q)%nat -> j ∈ children -> bptr (cutblk q) (Z.of_nat j) = cutptr (child q j).
Proof using Hbits M.
  intros V Hh Hj. unfold bptr. replace (Z.to_nat (4 * Z.of_nat j)) with (4 * j)%nat by lia. pose proof Hj as Hj'. rewrite elem_children in Hj'.
  unfold cutblk. rewrite (part_unwords _ _ (cutptr (child q j))).
  - rewrite le_decode_encode. apply Z.mod_small. apply cutptr_u32. by apply child_valid.
  - rewrite list_lookup_fmap. unfold children. rewrite lookup_seq_lt by lia. done.
Qed.

Lemma zero_cutblk q h : valid q -> height q = S h -> ~ below (S h) q -> at0 q <> 0 -> check_zero_block (cutblk q) = negb (kept q).
Proof using Hbits M.
  intros V Hh Hb Hq. unfold cutblk. rewrite zero_unwords.
  2: { apply List.Forall_forall. intros x [j [<- Hj%list_elem_of_In]]%in_map_iff. apply cutptr_u32. apply child_valid; [done|lia|done]. }
  unfold kept. rewrite Hh, keep_inner by done. generalize children. assert (Hc : forall j, height (child q j) = h) by (intros j; by apply height_child).
  induction l as [|j l IH]; [done|]. cbn [map forallb existsb]. rewrite IH, negb_orb. f_equal. unfold cutptr, kept. rewrite Hc. destruct (keep h (child q j)) eqn:E; [|done].
  cbn [negb]. apply Z.eqb_neq. intros E0. by rewrite keep_zero in E.
Qed.

Lemma under_zero h : forall q r, height q = h -> valid r -> under q r -> at0 q = 0 -> at0 r = 0.
Proof using Hbits.
  induction h as [|h IH]; intros q r Hh V U Hq; destruct (under_step q r U) as [->|(j & Hj & Uj)]; try done.
  - exfalso. destruct q as [[slot k] i], r as [[slot' k'] i']. destruct Uj as (-> & Hk & _), V as (_ & Hk' & _). cbn in Hh. lia.
  - apply (IH (child q j)); [by apply height_child|done|done|]. destruct q as [[slot k] i]. cbn [child]. apply (nd_down_zero fs Hbits); [by apply elem_children|done].
Qed.

Lemma under_below h : forall q r, height q = h -> valid r -> under q r -> below h q -> below (height r) r.
Proof using Hbits.
  induction h as [|h IH]; intros q r Hh V U Hq; destruct (under_step q r U) as [->|(j & Hj & Uj)]; try (by rewrite Hh).
  - exfalso. destruct q as [[slot k] i], r as [[slot' k'] i']. destruct Uj as (-> & Hk & _), V as (_ & Hk' & _). cbn in Hh. lia.
  - apply (IH (child q j)); [by apply height_child|done|done|by apply below_child].
Qed.

Lemma cutted_ext Q Q' st : (forall q, valid q -> Q q <-> Q' q) -> cutted Q st -> cutted Q' st.
Proof using.
  intros E [C1 C0 C2 C3 C4 C5]. constructor; [done|done|..].
  - intros b Hb. apply C2. intros q V Hh Hq. apply Hb; [done|done|by apply E].
  - intros q V Hh Hq. apply C3; [done|done|by apply E].
  - intros b Hb. apply C4. intros q V Hq. apply Hb; [done|by apply E].
  - intros q V Hq. apply C5; [done|by apply E].
Qed.

(** A position that has not been dealt with is as it was. *)
Lemma cutted_dev Q st q : cutted Q st -> valid q -> ~ Q q -> at0 q <> 0 -> dev st !! at0 q = dev st0 !! at0 q /\ used st (at0 q) = true.
Proof using M.
  intros C V Hn Hq. assert (Hi : forall r, valid r -> Q r -> at0 r = at0 q -> at0 q = 0).
  { intros r Vr Qr E. exfalso. apply Hn. by rewrite (mp_inj _ _ _ M q r V Vr Hq (eq_sym E)). }
  split; [apply C; eauto|]. rewrite (cu_used _ _ C) by done. by apply (mp_node _ _ _ M).
Qed.

(** Nothing changes below pointers that are 0 or whose blocks are all kept. *)
Lemma cutted_skip Q st q : cutted Q st -> (forall r, Q r -> ~ under q r) -> at0 q = 0 \/ below (height q) q -> cutted (fun r => Q r \/ under q r) st.
Proof using Hbits M.
  intros C Hdis Hq.
  assert (Hsame : forall r, valid r -> under q r -> at0 r <> 0 -> below (height r) r).
  { intros r V U Hr. destruct Hq as [Hq|Hq]; [by rewrite (under_zero _ q r eq_refl V U Hq) in Hr|]. by apply (under_below _ q r eq_refl). }
  assert (Hkeep : forall r, valid r -> under q r -> at0 r <> 0 -> kept r = true).
  { intros r V U Hr. unfold kept. rewrite keep_below by auto. by destruct (Z.eqb_spec (at0 r) 0). }
  constructor; [apply C|apply C|..].
  - intros b Hb. apply C. intros r V Hh Hr. apply Hb; auto.
  - intros r V Hh [Hr|U] Hn; [by apply C|]. destruct (cutted_dev Q st r C V) as [E _]; [by intros ?%Hdis|done|]. rewrite E.
    destruct (mp_node _ _ _ M r V Hn) as [_ [bs Hbs]]. rewrite Hbs. f_equal. symmetry. apply cutblk_same; try done. intros j Hj. unfold cutptr.
    destruct (height r) as [|h] eqn:Eh; [lia|]. unfold kept. rewrite (height_child r j h Eh), keep_below; [by destruct (Z.eqb_spec (at0 (child r j)) 0)|].
    apply below_child; [|done]. rewrite <- Eh. auto.
  - intros b Hb. apply C. intros r V Hr. apply Hb; auto.
  - intros r V [Hr|U] Hn; [by apply C|]. destruct (cutted_dev Q st r C V) as [_ E]; [by intros ?%Hdis|done|]. by rewrite E, Hkeep.
Qed.

(** One position: its block is written, and given back if it is not kept. *)
Definition put_node (st : store) (q : pos) : store := match height q with O => st | S _ => with_block st (at0 q) (cutblk q) end.
Definition drop_node (st : store) (q : pos) : store := if kept q then st else with_used st (at0 q) false.

Lemma cutted_node Q st q : cutted Q st -> valid q -> at0 q <> 0 -> ~ Q q -> cutted (fun r => Q r \/ r = q) (drop_node (put_node st q) q).
Proof using Hbits M.
  intros C V Hq Hn. assert (Hi : forall r, valid r -> at0 r <> 0 -> r <> q -> at0 r <> at0 q) by (intros r Vr Hr Hne E; by apply Hne, (mp_inj _ _ _ M)).
  assert (Edev : dev (drop_node (put_node st q) q) = match height q with O => dev st | S _ => <[at0 q := cutblk q]> (dev st) end)
    by (unfold drop_node, put_node; destruct (kept q), (height q); done).
  assert (Eused : forall b, used (drop_node (put_node st q) q) b = if (b =? at0 q) && negb (kept q) then false else used st b).
  { intros b. unfold drop_node, put_node. destruct (kept q), (height q); cbn [used with_used with_block negb]; rewrite ?andb_false_r, ?andb_true_r; done. }
  constructor.
  - unfold drop_node, put_node. destruct (kept q), (height q); apply C.
  - intros b bs. rewrite Edev. destruct (height q); [apply C|]. intros [[_ <-]|[_ Hb]]%lookup_insert_Some; [apply cutblk_ok|by apply (cu_ok _ _ C b)].
  - intros b Hb. rewrite Edev. destruct (height q) as [|h] eqn:Eh.
    + apply C. intros r Vr Hh Qr. apply Hb; auto.
    + rewrite lookup_insert_ne; [apply C; intros r Vr Hh Qr; apply Hb; auto|]. intros E. apply Hq. rewrite E. apply (Hb q); [done|lia|by right|done].
  - intros r Vr Hh Qr Hr. rewrite Edev. destruct (decide (r = q)) as [->|Hne].
    + destruct (height q); [lia|]. apply lookup_insert_eq.
    + destruct Qr as [Qr|]; [|done]. destruct (height q); [|rewrite lookup_insert_ne by (intros E; by apply (Hi r))]; by apply C.
  - intros b Hb. rewrite Eused. destruct (Z.eqb_spec b (at0 q)) as [E|_]; [exfalso; apply Hq; rewrite <- E; by apply (Hb q); [|right|]|]. cbn [andb].
    apply C. intros r Vr Qr. apply Hb; auto.
  - intros r Vr Qr Hr. rewrite Eused. destruct (decide (r = q)) as [->|Hne].
    + rewrite Z.eqb_refl. cbn [andb]. destruct (kept q) eqn:Ek; cbn [negb]; [|done]. by apply (cutted_dev Q).
    + destruct Qr as [Qr|]; [|done]. rewrite (proj2 (Z.eqb_neq _ _) (Hi r Vr Hr Hne)). cbn [andb]. by apply C.
Qed.
End cut.
