(* ===== verification/PunchCut.v ===== *)
(** The recursion of punch.c cuts a tree: [ind_punch] on all levels, with the count of
    blocks in the inode. *)

From S2P Require Import Prelude Bitops BlockIo Bmap BmapSpec BmapGrow BmapWalk Punch PunchSpec.

Local Open Scope Z_scope.

Section punch.
Context (fs : filsys) (Hbits : 10 <= blocksize_bits fs <= 16) (Hclusters : cluster_bits fs = 0).
Local Notation A := (addr_per_block fs).
Local Notation BS := (blocksize fs).

(** * The count of blocks *)

(** What one block counts. *)
Definition unit_of (i : inode) : Z := if negb (huge_file fs) || negb (has (i_flags i) EXT4_HUGE_FILE_FL) then BS / 512 else 1.

Definition count_ok (i : inode) : Prop := is_u32 (i_blocks i) /\ 0 <= i_blocks_hi i < 2 ^ 16.

Lemma unit_pos i : 0 < unit_of i.
Proof using Hbits. unfold unit_of. destruct (_ || _); [|lia]. pose proof (addr_bounds fs Hbits). rewrite (size_eq fs Hbits). apply Z.div_str_pos. lia. Qed.

Lemma iblk_range i : count_ok i -> 0 <= iblk_count fs i < 2 ^ 48.
Proof using. intros [[? ?] ?]. unfold iblk_count. destruct (huge_file fs); [rewrite Z.shiftl_mul_pow2 by lia|]; lia. Qed.

Lemma iblk_sub_ok i n : count_ok i -> 0 <= n -> n * unit_of i <= iblk_count fs i ->
  exists lo hi, ext2fs_iblk_sub_blocks fs i n = (0, set_i_blocks i lo hi) /\ count_ok (set_i_blocks i lo hi) /\
    iblk_count fs (set_i_blocks i lo hi) = iblk_count fs i - n * unit_of i.
Proof using Hbits Hclusters.
  intros Hc Hn Hle. pose proof (iblk_range i Hc) as Hr. pose proof (unit_pos i) as Hu. assert (Eu : iblk_units fs i n = n * unit_of i).
  { unfold iblk_units, Bmap.cluster_ratio. rewrite Hclusters. change (Z.shiftl 1 0) with 1. unfold unit_of in *. destruct (_ || _); rewrite Z.mul_1_r; rewrite ?(u64_small (n * _)), ?u64_small by (unfold is_u64; nia); lia. }
  unfold ext2fs_iblk_sub_blocks. rewrite Eu. destruct (Z.ltb_spec (iblk_count fs i) (n * unit_of i)); [lia|]. set (b := iblk_count fs i - n * unit_of i). assert (0 <= b < 2 ^ 48) by nia.
  change 0xFFFFFFFF with (Z.ones 32). rewrite Z.land_ones, Z.shiftr_div_pow2 by lia. pose proof (Z.mod_pos_bound b (2 ^ 32) ltac:(lia)). pose proof (Z.div_mod b (2 ^ 32) ltac:(lia)).
  assert (0 <= b / 2 ^ 32 < 2 ^ 16) by (split; [apply Z.div_pos; lia|apply Z.div_lt_upper_bound; lia]). assert (Eh : u16 (b / 2 ^ 32) = b / 2 ^ 32) by (apply Z.mod_small; lia). rewrite Eh.
  do 2 eexists. split; [done|]. unfold count_ok, iblk_count. cbn [i_blocks i_blocks_hi set_i_blocks]. destruct Hc as [Hlo Hhi]. destruct (huge_file fs) eqn:Ehf.
  - rewrite !Z.shiftl_mul_pow2 by lia. split; [split; [done|lia]|]. lia.
  - split; [split; [done|lia]|]. assert (b < 2 ^ 32) by (unfold b, iblk_count, is_u32 in *; rewrite Ehf; nia). rewrite Z.mod_small by lia. lia.
Qed.

(** Only the count differs. *)
Definition recounted (i i' : inode) : Prop := exists lo hi, i' = set_i_blocks i lo hi.

Lemma recounted_refl i : recounted i i.
Proof using. exists (i_blocks i), (i_blocks_hi i). by destruct i. Qed.

Lemma recounted_trans i1 i2 i3 : recounted i1 i2 -> recounted i2 i3 -> recounted i1 i3.
Proof using. intros (? & ? & ->) (lo & hi & ->). by exists lo, hi. Qed.

Lemma unit_recounted i i' : recounted i i' -> unit_of i' = unit_of i.
Proof using. by intros (? & ? & ->). Qed.

(** * The recursion *)

Context {S : Type} `{FileStoreLaws S} (Himage : flag_image_file fs = false).
Context (st0 : store) (ib0 : list Z) (start : Z) (M : mapped fs st0 ib0) (Hstart : 0 <= start < 2 ^ 32).
Context (Hrem : forall q, valid fs q -> nd fs st0 ib0 q <> 0 -> removable (nd fs st0 ib0 q)).
Implicit Types (s : S) (st : store) (i : inode).
Local Notation valid := (valid fs).
Local Notation at0 := (nd fs st0 ib0).
Local Notation child := (child fs).
Local Notation children := (children fs).
Local Notation under := (under fs).
Local Notation kept := (kept fs st0 ib0 start).
Local Notation ncut := (ncut fs st0 ib0 start).
Local Notation cutptr := (cutptr fs st0 ib0 start).
Local Notation cutblk := (cutblk fs st0 ib0 start).
Local Notation cutted := (cutted fs st0 ib0 start).
Local Notation cutoff := (cutoff fs start).

(** Positions of pointers in a row: all of height [h], the first at [offset], [r] the
    first block that is cut off. *)
Record row (h : nat) (qs : list pos) (offset r c : Z) : Prop := {
  rw_valid : forall (n : nat) q, qs !! n = Some q -> valid q /\ height q = h;
  rw_cut : forall (n : nat) slot (k : nat) x, qs !! n = Some (slot, k, x) -> cutoff h slot x = Z.max 0 (r - (offset + Z.of_nat n * A ^ Z.of_nat h));
  rw_apart : forall (n m : nat) q q' t, qs !! n = Some q -> qs !! m = Some q' -> under q t -> under q' t -> n = m;
  rw_nums : 0 <= offset /\ 0 <= r < 2 ^ 32 /\ 0 <= c < 2 ^ 32;
  rw_room : offset + Z.of_nat (length qs) * A ^ Z.of_nat h <= c }.

Definition all_under (Q : pos -> Prop) (qs : list pos) : pos -> Prop := fun t => Q t \/ exists (n : nat) q, qs !! n = Some q /\ under q t.
Definition clear_of (Q : pos -> Prop) (qs : list pos) : Prop := forall (n : nat) q t, qs !! n = Some q -> Q t -> ~ under q t.

(** What a function that cuts pointers of height [h] does. *)
Definition cuts (h : nat) (sub : punch_fun) : Prop := forall qs r c Q s st i, row h qs 0 r c -> clear_of Q qs -> fs_rep s st -> cutted Q st ->
  count_ok i -> foldr (fun q n => ncut h q + n) 0 qs * unit_of i <= iblk_count fs i ->
  exists i' s' st', sub s i (map at0 qs) r c = Done (0, map cutptr qs, i', s') /\ fs_rep s' st' /\ cutted (all_under Q qs) st' /\ recounted i i' /\ count_ok i' /\
    iblk_count fs i' = iblk_count fs i - foldr (fun q n => ncut h q + n) 0 qs * unit_of i.

Lemma row_tail h q qs offset r c : row h (q :: qs) offset r c -> row h qs (offset + A ^ Z.of_nat h) r c.
Proof using Hbits.
  intros [W1 W2 W3 W4 W5]. pose proof (pow_pos fs Hbits h). constructor.
  - intros n t Hn. by apply (W1 (Datatypes.S n)).
  - intros n slot k x Hn. rewrite (W2 (Datatypes.S n) slot k x Hn). f_equal. lia.
  - intros n m t t' u Hn Hm U U'. pose proof (W3 (Datatypes.S n) (Datatypes.S m) t t' u Hn Hm U U'). lia.
  - lia.
  - cbn [length] in W5. lia.
Qed.

Lemma row_children h q : valid q -> height q = Datatypes.S h -> forall offset r c, cutoff (Datatypes.S h) (fst (fst q)) (snd q) = Z.max 0 (r - offset) ->
  0 <= offset -> 0 <= r < 2 ^ 32 -> 0 <= c < 2 ^ 32 -> offset + A ^ Z.of_nat (Datatypes.S h) <= c ->
  row h (map (child q) children) 0 (Z.max 0 (r - offset)) (c - offset).
Proof using Hbits.
  intros V Hh offset r c Hc Ho Hr Hcc Hroom. pose proof (addr_bounds fs Hbits) as HA. pose proof (pow_pos fs Hbits h) as Hp.
  assert (Hlook : forall n t, map (child q) children !! n = Some t -> t = child q n /\ n ∈ children).
  { intros n t E. apply list_lookup_fmap_Some in E as (j & -> & Hj). unfold PunchSpec.children in Hj. apply lookup_seq in Hj as [-> Hj]. split; [done|]. apply elem_children; [done|]. lia. }
  rewrite pow_h in Hroom. constructor.
  - intros n t [-> Hn]%Hlook. split; [apply child_valid; (done || lia)|by apply height_child].
  - intros n slot k x [E Hn]%Hlook. destruct q as [[slot0 k0] i0]. cbn [PunchSpec.child] in E. injection E as -> -> ->. cbn [fst snd] in Hc. rewrite cutoff_child, Hc by done. done.
  - intros n m t t' u [-> Hn]%Hlook [-> Hm]%Hlook U U'. by apply (under_two fs q n m u).
  - nia.
  - rewrite length_map. unfold PunchSpec.children. rewrite length_seq. nia.
Qed.

Lemma children_sum h q : foldr (fun t n => ncut h t + n) 0 (map (child q) children) = sum (fun j => ncut h (child q j)) children.
Proof using. unfold sum. generalize children. induction l as [|j l IH]; [done|]. cbn [map foldr]. by rewrite IH. Qed.

Lemma ncut_inner h q : at0 q <> 0 -> ncut (Datatypes.S h) q = (if keep fs st0 ib0 start (Datatypes.S h) q then 0 else 1) + sum (fun j => ncut h (child q j)) children.
Proof using. intros Hq. cbn [PunchSpec.ncut]. by rewrite (proj2 (Z.eqb_neq _ _) Hq). Qed.

(** An indirect block: what is below it is cut, and it is written. *)
Lemma below_ok h sub q offset r c Q s st i : cuts h sub -> valid q -> height q = Datatypes.S h -> at0 q <> 0 -> ~ below fs start (Datatypes.S h) q ->
  cutoff (Datatypes.S h) (fst (fst q)) (snd q) = Z.max 0 (r - offset) -> 0 <= offset -> 0 <= r < 2 ^ 32 -> 0 <= c < 2 ^ 32 -> offset + A ^ Z.of_nat (Datatypes.S h) <= c ->
  fs_rep s st -> cutted Q st -> (forall t, Q t -> ~ under q t) -> count_ok i -> sum (fun j => ncut h (child q j)) children * unit_of i <= iblk_count fs i ->
  exists i' s' st', punch_below fs sub s i (at0 q) offset r c = Done (0, negb (kept q), i', s') /\ fs_rep s' (put_node fs st0 ib0 start st' q) /\
    cutted (fun t => Q t \/ exists j, j ∈ children /\ under (child q j) t) st' /\ recounted i i' /\ count_ok i' /\
    iblk_count fs i' = iblk_count fs i - sum (fun j => ncut h (child q j)) children * unit_of i.
Proof using Hbits Himage M.
  intros Hsub V Hh Hq Hb Hcut Ho Hr Hc Hroom R C Hdis Hci Hle. unfold punch_below, ext2fs_read_ind_block, ext2fs_write_ind_block. rewrite Himage. cbn [andb].
  assert (Hnq : ~ Q q) by (intros HQ; by apply (Hdis q HQ), under_refl).
  destruct (mp_node _ _ _ M q V Hq) as [_ [bs Hbs]]. destruct (cutted_dev fs st0 ib0 start M Q st q C V Hnq Hq) as [Ed _]. rewrite Hbs in Ed.
  destruct (fs_read s st (at0 q) bs R Ed) as (s1 & -> & R1). cbn [obind]. change (0 =? 0) with true. cbn [negb]. rewrite (words_ptr fs Hbits st0 ib0 q bs V Hq Hbs).
  assert (Estart : u32 (if offset <? r then r - offset else 0) = Z.max 0 (r - offset)) by (destruct (Z.ltb_spec offset r); rewrite u32_small by (unfold is_u32; lia); lia).
  pose proof (pow_pos fs Hbits (Datatypes.S h)). rewrite Estart, (u64_small (c - offset)) by (unfold is_u64; lia). rewrite <- map_map.
  pose proof (row_children h q V Hh offset r c Hcut Ho Hr Hc Hroom) as W.
  assert (Hlook : forall n t, map (child q) children !! n = Some t <-> t = child q n /\ n ∈ children).
  { intros n t. rewrite list_lookup_fmap_Some. unfold PunchSpec.children. split; [intros (j & -> & [-> Hj]%lookup_seq)|intros [-> Hn%elem_of_seq]].
    - split; [done|]. apply elem_of_seq. lia.
    - exists n. split; [done|]. apply lookup_seq. lia. }
  destruct (Hsub (map (child q) children) (Z.max 0 (r - offset)) (c - offset) Q s1 st i W) as (i' & s2 & st2 & -> & R2 & C2 & Ri & Ci & Ei); try done.
  { intros n t u [-> Hn]%Hlook HQ U. apply (Hdis u HQ). by apply (under_child fs Hbits q n). }
  { by rewrite children_sum. }
  cbn [obind]. change (0 =? 0) with true. cbn [negb]. rewrite map_map. fold (cutblk q).
  apply (cutted_ext fs st0 ib0 start _ (fun t => Q t \/ exists j, j ∈ children /\ under (child q j) t)) in C2.
  2: { intros t _. unfold all_under. split; (intros [HQ|Hx]; [by left|right]); [destruct Hx as (n & u & [-> Hn]%Hlook & U); eauto|].
    destruct Hx as (j & Hj & U). exists j, (child q j). split; [by apply Hlook|done]. }
  destruct (cutted_dev fs st0 ib0 start M _ st2 q C2 V) as [Ed2 _]; [intros [HQ|(j & Hj & U)]; [done|by apply (under_child_ne fs q j)]|done|]. rewrite Hbs in Ed2.
  destruct (cutblk_ok fs Hbits st0 ib0 start q) as [Hlen Hbytes]. destruct (mp_dev _ _ _ M _ _ Hbs) as [Hlen0 _].
  destruct (fs_write s2 st2 (at0 q) bs (cutblk q) R2 Ed2 ltac:(lia) Hbytes) as (s3 & -> & R3). cbn [obind]. change (0 =? 0) with true. cbn [negb].
  rewrite (zero_cutblk fs Hbits st0 ib0 start M q h) by done. exists i', s3, st2. split; [done|]. split; [unfold put_node; by rewrite Hh|]. split; [done|]. split; [done|]. split; [done|].
  by rewrite Ei, children_sum.
Qed.

(** One pointer that is neither 0 nor kept with all its blocks. *)
Definition subs (h : nat) : option punch_fun := match h with O => None | Datatypes.S h => Some (ind_punch fs h) end.

Lemma entry_ok h q offset r c Q s st i : (forall h', h = Datatypes.S h' -> cuts h' (ind_punch fs h')) -> valid q -> height q = h -> at0 q <> 0 -> ~ below fs start h q ->
  cutoff h (fst (fst q)) (snd q) = Z.max 0 (r - offset) -> 0 <= offset -> 0 <= r < 2 ^ 32 -> 0 <= c < 2 ^ 32 -> offset + A ^ Z.of_nat h <= c ->
  fs_rep s st -> cutted Q st -> (forall t, Q t -> ~ under q t) -> count_ok i -> ncut h q * unit_of i <= iblk_count fs i ->
  exists i' s' st', match subs h with Some sub => punch_below fs sub s i (at0 q) offset r c | None => Done (0, true, i, s) end = Done (0, negb (kept q), i', s') /\
    fs_rep s' st' /\ used st' (at0 q) = true /\ cutted (fun t => Q t \/ under q t) (drop_node fs st0 ib0 start st' q) /\ recounted i i' /\ count_ok i' /\
    iblk_count fs i' = iblk_count fs i - (ncut h q - if kept q then 0 else 1) * unit_of i.
Proof using Hbits Himage M.
  intros Hsub V Hh Hq Hb Hcut Ho Hr Hc Hroom R C Hdis Hci Hle.
  assert (Hnq : ~ Q q) by (intros HQ; by apply (Hdis q HQ), under_refl). destruct h as [|h]; cbn [subs].
  - assert (Ek : kept q = false) by (unfold PunchSpec.kept; rewrite Hh; by apply keep_leaf).
    assert (En : ncut 0 q = 1) by (cbn [PunchSpec.ncut]; rewrite (proj2 (Z.eqb_neq _ _) Hq); rewrite keep_leaf by done; done).
    rewrite Ek, En. exists i, s, st. split; [done|]. split; [done|]. split; [by apply (cutted_dev fs st0 ib0 start M Q)|].
    split; [|split; [apply recounted_refl|split; [done|lia]]].
    pose proof (cutted_node fs Hbits st0 ib0 start M Q st q C V Hq Hnq) as C'. unfold put_node in C'. rewrite Hh in C'. apply (cutted_ext fs st0 ib0 start _ _ _ ) with (2 := C').
    intros t Vt. split; (intros [HQ|Ht]; [by left|right]); [subst t; apply under_refl|]. destruct (under_step fs Hbits q t Ht) as [->|(j & Hj & U)]; [done|].
    exfalso. destruct q as [[slot k] x], t as [[slot' k'] x']. destruct U as (-> & Hk & _), Vt as (_ & Hk' & _). cbn in Hh. lia.
  - pose proof (unit_pos i) as Hu. rewrite (ncut_inner h q Hq) in *. assert (Ek : keep fs st0 ib0 start (Datatypes.S h) q = kept q) by (unfold PunchSpec.kept; by rewrite Hh). rewrite Ek in *.
    destruct (below_ok h (ind_punch fs h) q offset r c Q s st i (Hsub h eq_refl) V Hh Hq Hb Hcut Ho Hr Hc Hroom R C Hdis Hci) as (i' & s' & st' & E & R' & C' & Ri & Ci & Ei).
    { destruct (kept q); nia. }
    assert (Hnq' : ~ (Q q \/ exists j, j ∈ children /\ under (child q j) q)) by (intros [HQ|(j & Hj & U)]; [done|by apply (under_child_ne fs q j)]).
    exists i', s', (put_node fs st0 ib0 start st' q). split; [done|]. split; [done|]. split.
    { unfold put_node. rewrite Hh. cbn [used with_block]. by apply (cutted_dev fs st0 ib0 start M _ st' q C' V Hnq' Hq). }
    split; [|split; [done|split; [done|rewrite Ei; lia]]].
    apply (cutted_ext fs st0 ib0 start _ _ _) with (2 := cutted_node fs Hbits st0 ib0 start M _ st' q C' V Hq Hnq').
    intros t Vt. split.
    + intros [[HQ|(j & Hj & U)]| ->]; [by left|right; by apply (under_child fs Hbits q j)|right; apply under_refl].
    + intros [HQ|U]; [by left; left|]. destruct (under_step fs Hbits q t U) as [->|Hj]; [by right|by left; right].
Qed.

Lemma loop_ok h : (forall h', h = Datatypes.S h' -> cuts h' (ind_punch fs h')) -> forall qs offset r c Q s st i freed, row h qs offset r c -> clear_of Q qs -> fs_rep s st -> cutted Q st ->
  count_ok i -> 0 <= freed -> (freed + foldr (fun q n => ncut h q + n) 0 qs) * unit_of i <= iblk_count fs i ->
  exists freed' i' s' st', punch_loop fs (subs h) (A ^ Z.of_nat h) r c (map at0 qs) offset freed i s = Done (0, map cutptr qs, freed', i', s') /\
    fs_rep s' st' /\ cutted (all_under Q qs) st' /\ recounted i i' /\ count_ok i' /\ 0 <= freed' /\
    iblk_count fs i' - freed' * unit_of i = iblk_count fs i - (freed + foldr (fun q n => ncut h q + n) 0 qs) * unit_of i.
Proof using Hbits Himage M Hrem.
  intros Hsub. induction qs as [|q qs IH]; intros offset r c Q s st i freed W Hcl R C Hci Hf Hle.
  { exists freed, i, s, st. split; [done|]. split; [done|]. split; [|split; [apply recounted_refl|split; [done|split; [done|cbn; lia]]]].
    apply (cutted_ext fs st0 ib0 start Q); [|done]. intros t _. unfold all_under. split; [by left|]. intros [|(n & u & Hn & _)]; done. }
  pose proof (row_tail h q qs offset r c W) as Wt. pose proof (pow_pos fs Hbits h) as Hp. pose proof (unit_pos i) as Hu. destruct (rw_valid _ _ _ _ _ W 0%nat q eq_refl) as [V Hh].
  destruct (rw_nums _ _ _ _ _ W) as (Ho & Hr & Hc). pose proof (rw_room _ _ _ _ _ W) as Hroom. cbn [length] in Hroom.
  assert (Hcut : cutoff h (fst (fst q)) (snd q) = Z.max 0 (r - offset)) by (destruct q as [[slot k] x]; cbn [fst snd]; rewrite (rw_cut _ _ _ _ _ W 0%nat slot k x eq_refl); f_equal; lia).
  assert (Hdis : forall t, Q t -> ~ under q t) by (intros t HQ; by apply (Hcl 0%nat q t eq_refl)).
  pose proof (ncut_nonneg fs st0 ib0 start h q) as Hn0.
  assert (Hns : 0 <= foldr (fun q n => ncut h q + n) 0 qs) by (clear; induction qs as [|t qs IH]; cbn; [done|]; pose proof (ncut_nonneg fs st0 ib0 start h t); lia).
  assert (Hcl' : clear_of (fun t => Q t \/ under q t) qs).
  { intros n t u Hn [HQ|U] U'; [by apply (Hcl (Datatypes.S n) t u Hn HQ)|]. pose proof (rw_apart _ _ _ _ _ W 0%nat (Datatypes.S n) q t u eq_refl Hn U U'). done. }
  assert (Hall : forall st', cutted (all_under (fun t => Q t \/ under q t) qs) st' -> cutted (all_under Q (q :: qs)) st').
  { intros st'. apply cutted_ext. intros t _. unfold all_under. split.
    - intros [[HQ|U]|(n & u & Hn & U)]; [by left|right; by exists 0%nat, q|right; by exists (Datatypes.S n), u].
    - intros [HQ|([|n] & u & Hn & U)]; [by left; left|injection Hn as <-; by left; right|right; by exists n, u]. }
  cbn [map punch_loop foldr]. cbn [foldr] in Hle. rewrite (u64_small (r + c)) by (unfold is_u64; lia). destruct (Z.leb_spec (r + c) offset); [nia|].
  assert (Hbel : below fs start h q <-> offset + A ^ Z.of_nat h <= r) by (destruct q as [[slot k] x]; unfold below; cbn [fst snd] in Hcut; rewrite Hcut; lia).
  destruct ((at0 q =? 0) || (offset + A ^ Z.of_nat h <=? r)) eqn:Eskip.
  - assert (Hskip : at0 q = 0 \/ below fs start (height q) q) by (rewrite Hh, Hbel; lia).
    assert (Ecut : cutptr q = at0 q /\ ncut h q = 0).
    { rewrite Hh in Hskip. unfold PunchSpec.cutptr, PunchSpec.kept. rewrite Hh. destruct Hskip as [Ez|Hb].
      - rewrite keep_zero by done. split; [done|]. destruct h; cbn [PunchSpec.ncut]; by rewrite Ez.
      - rewrite keep_below by done. split; [|by apply ncut_below]. by destruct (Z.eqb_spec (at0 q) 0). }
    destruct Ecut as [Ec En]. rewrite Ec, En in *.
    destruct (IH (offset + A ^ Z.of_nat h) r c _ s st i freed Wt Hcl' R (cutted_skip fs Hbits st0 ib0 start M Q st q C Hdis Hskip) Hci Hf) as (f' & i' & s' & st' & -> & R' & C' & Ri & Ci & Hf' & Ei).
    { by rewrite Z.add_0_l in Hle. }
    cbn [obind]. exists f', i', s', st'. split; [done|]. split; [done|]. split; [by apply Hall|]. do 3 (split; [done|]). by rewrite Z.add_0_l.
  - apply orb_false_iff in Eskip as [Hz%Z.eqb_neq Hnb%Z.leb_gt].
    destruct (entry_ok h q offset r c Q s st i Hsub V Hh Hz) as (i1 & s1 & st1 & -> & R1 & Hu1 & C1 & Ri1 & Ci1 & Ei1); try done; [rewrite Hbel; lia|lia|nia|]. cbn [obind].
    change (0 =? 0) with true. cbn [negb]. pose proof (unit_recounted _ _ Ri1) as Eu.
    destruct (kept q) eqn:Ek; cbn [negb]; unfold drop_node in C1; rewrite Ek in C1; unfold PunchSpec.cutptr at 1; rewrite Ek.
    + destruct (IH (offset + A ^ Z.of_nat h) r c _ s1 st1 i1 freed Wt Hcl' R1 C1 Ci1 Hf) as (f' & i' & s' & st' & -> & R' & C' & Ri & Ci & Hf' & Ei); [rewrite Eu, Ei1; lia|].
      cbn [obind]. exists f', i', s', st'. split; [done|]. split; [done|]. split; [by apply Hall|]. split; [by apply (recounted_trans _ i1)|]. do 2 (split; [done|]). rewrite Eu, Ei1 in Ei. lia.
    + destruct (fs_free s1 st1 (at0 q) R1 (Hrem q V Hz) Hu1) as (s2 & -> & R2). cbn [obind].
      destruct (IH (offset + A ^ Z.of_nat h) r c _ s2 _ i1 (freed + 1) Wt Hcl' R2 C1 Ci1 ltac:(lia)) as (f' & i' & s' & st' & -> & R' & C' & Ri & Ci & Hf' & Ei); [rewrite Eu, Ei1; lia|].
      cbn [obind]. exists f', i', s', st'. split; [done|]. split; [done|]. split; [by apply Hall|]. split; [by apply (recounted_trans _ i1)|]. do 2 (split; [done|]). rewrite Eu, Ei1 in Ei. lia.
Qed.

Lemma ind_punch_cuts h : cuts h (ind_punch fs h).
Proof using Hbits Hclusters Himage M Hrem.
  induction h as [h IH] using lt_wf_ind. intros qs r c Q s st i W Hcl R C Hci Hle.
  assert (Hsub : forall h', h = Datatypes.S h' -> cuts h' (ind_punch fs h')) by (intros h' ->; apply IH; lia).
  assert (Eloop : ind_punch fs h s i (map at0 qs) r c = let* (retval, p, freed, i, s) := punch_loop fs (subs h) (A ^ Z.of_nat h) r c (map at0 qs) 0 0 i s in
    if negb (retval =? 0) then Done (retval, p, i, s) else let '(retval, i) := ext2fs_iblk_sub_blocks fs i freed in Done (retval, p, i, s)).
  { assert (Ei : Z.shiftl 1 ((blocksize_bits fs - 2) * Z.of_nat h) = A ^ Z.of_nat h).
    { rewrite (addr_eq fs Hbits), Z.shiftl_1_l. rewrite Z.pow_mul_r by lia. done. }
    destruct h; cbn [ind_punch subs]; by rewrite Ei. }
  rewrite Eloop. destruct (loop_ok h Hsub qs 0 r c Q s st i 0 W Hcl R C Hci ltac:(lia) ltac:(lia)) as (f' & i' & s' & st' & -> & R' & C' & Ri & Ci & Hf' & Ei). cbn [obind].
  change (0 =? 0) with true. cbn [negb]. pose proof (unit_recounted _ _ Ri) as Eu.
  destruct (iblk_sub_ok i' f' Ci Hf') as (lo & hi & -> & Ci2 & Ei2); [rewrite Eu; lia|]. eexists _, s', st'. split; [done|]. split; [done|]. split; [done|].
  split; [apply (recounted_trans _ i'); [done|by exists lo, hi]|]. split; [done|]. rewrite Ei2, Eu. lia.
Qed.
End punch.
