(* ===== verification/PunchProperties.v ===== *)
(** Truncation: [ext2fs_punch] from a logical block to the end of a file that is mapped
    by indirect blocks keeps the blocks before, gives back all others and those indirect
    blocks that are not needed any more, and counts them. *)

From S2P Require Import Prelude Bitops BlockIo Bmap BmapSpec BmapGrow BmapWalk Punch PunchSpec PunchCut.

Local Open Scope Z_scope.

Section truncate.
Context (fs : filsys) (Hbits : 10 <= blocksize_bits fs <= 12) (Hclusters : cluster_bits fs = 0) (Himage : flag_image_file fs = false).
Local Notation A := (addr_per_block fs).

Lemma bits16 : 10 <= blocksize_bits fs <= 16.
Proof using Hbits. lia. Qed.

Lemma small_addr : 256 <= A <= 1024.
Proof using Hbits. rewrite (addr_eq fs bits16). split; [apply (Z.pow_le_mono_r 2 8)|apply (Z.pow_le_mono_r 2 _ 10)]; lia. Qed.

Context {S : Type} `{FileStoreLaws S}.
Context (st0 : store) (i0 : inode) (start : Z) (M : mapped fs st0 (i_block i0)) (Hstart : 0 <= start < 2 ^ 32).
Context (Hrem : forall q, valid fs q -> nd fs st0 (i_block i0) q <> 0 -> removable (nd fs st0 (i_block i0) q)).
Implicit Types (s : S) (st : store) (i : inode).
Local Notation ib0 := (i_block i0).
Local Notation at0 := (nd fs st0 ib0).
Local Notation under := (under fs).
Local Notation ncut := (ncut fs st0 ib0 start).
Local Notation cutptr := (cutptr fs st0 ib0 start).
Local Notation cutted := (cutted fs st0 ib0 start).
Local Notation base := (base fs).
Local Notation unit := (unit_of fs i0).

(** The pointers in the inode from slot [a] on. *)
Definition roots (a n : nat) : list pos := map (fun j => (Z.of_nat j, 0%nat, 0)) (seq a n).

(** Those before slot [bp] are cut. *)
Definition mixed (bp : nat) : list Z := map cutptr (roots 0 bp) ++ map at0 (roots bp (15 - bp)).

Definition cuts_in (qs : list pos) : Z := foldr (fun q n => ncut (height q) q + n) 0 qs.

Definition before (bp : nat) (t : pos) : Prop := fst (fst t) < Z.of_nat bp.

Lemma roots_lookup a n m q : roots a n !! m = Some q <-> q = (Z.of_nat (a + m), 0%nat, 0) /\ (m < n)%nat.
Proof using. unfold roots. rewrite list_lookup_fmap_Some. split; [intros (j & -> & [-> Hj]%lookup_seq); done|]. intros [-> Hm]. exists (a + m)%nat. split; [done|]. by apply lookup_seq. Qed.

Lemma roots_app a n m : roots a (n + m) = roots a n ++ roots (a + n) m.
Proof using. unfold roots. by rewrite seq_app, map_app. Qed.

Lemma length_roots a n : length (roots a n) = n.
Proof using. unfold roots. by rewrite length_map, length_seq. Qed.

Lemma cuts_in_app a b : cuts_in (a ++ b) = cuts_in a + cuts_in b.
Proof using. unfold cuts_in. induction a as [|q a IH]; cbn [app foldr]; [done|]. rewrite IH. lia. Qed.

Lemma cuts_in_nonneg qs : 0 <= cuts_in qs.
Proof using. unfold cuts_in. induction qs as [|q qs IH]; cbn [foldr]; [done|]. pose proof (ncut_nonneg fs st0 ib0 start (height q) q). lia. Qed.

Lemma mixed_0 : mixed 0 = ib0.
Proof using M.
  unfold mixed. cbn [roots seq map app]. apply list_eq. intros n. rewrite list_lookup_fmap. destruct (roots 0 (15 - 0) !! n) as [q|] eqn:E.
  - apply roots_lookup in E as [-> Hn]. destruct (lookup_lt_is_Some_2 ib0 n) as [x Ex]; [rewrite (mp_len _ _ _ M); lia|].
    change (Some (default 0 (ib0 !! Z.to_nat (Z.of_nat (0 + n)))) = ib0 !! n). rewrite Nat2Z.id. cbn [Nat.add]. by rewrite Ex.
  - symmetry. apply lookup_ge_None_2. rewrite (mp_len _ _ _ M). apply lookup_ge_None_1 in E. rewrite length_roots in E. lia.
Qed.

(** The state before the slots from [bp] on. *)
Record reached (bp : nat) s st i : Prop := {
  re_rep : fs_rep s st;
  re_cut : cutted (before bp) st;
  re_inode : exists lo hi, i = set_i_block (set_i_blocks i0 lo hi) (mixed bp);
  re_ok : count_ok i;
  re_count : iblk_count fs i = iblk_count fs i0 - cuts_in (roots 0 bp) * unit }.

Context (Hcount : cuts_in (roots 0 15) * unit <= iblk_count fs i0).

(** The slots from [bp] on that are of height [level]. *)
Record group (bp num level : nat) (max : Z) : Prop := {
  gp_size : (0 < num)%nat /\ (bp + num <= 15)%nat /\ max = Z.of_nat num * A ^ Z.of_nat level;
  gp_lev : forall n, (n < num)%nat -> lev (Z.of_nat (bp + n)) = level;
  gp_base : forall n, (n < num)%nat -> base (Z.of_nat (bp + n)) = base (Z.of_nat bp) + Z.of_nat n * A ^ Z.of_nat level;
  gp_nums : 0 <= base (Z.of_nat bp) /\ base (Z.of_nat bp) + max + max < 2 ^ 32 - 1 }.

Lemma root_valid_at bp num level max n : group bp num level max -> (n < num)%nat -> valid fs (Z.of_nat (bp + n), 0%nat, 0) /\ height (Z.of_nat (bp + n), 0%nat, 0) = level.
Proof using.
  intros G Hn. destruct (gp_size _ _ _ _ G) as (_ & Hs & _). split; [|cbn; rewrite (gp_lev _ _ _ _ G n Hn); lia]. split; [lia|]. split; [lia|]. cbn. lia.
Qed.

Lemma group_row bp num level max c : group bp num level max -> max <= c -> c < 2 ^ 32 -> row fs start level (roots bp num) 0 (Z.max 0 (start - base (Z.of_nat bp))) c.
Proof using Hbits Hstart.
  intros G Hc Hc32. pose proof (pow_pos fs bits16 level) as Hp. destruct (gp_size _ _ _ _ G) as (Hn0 & Hs & Em). destruct (gp_nums _ _ _ _ G). constructor.
  - intros n q [-> Hn]%roots_lookup. by apply (root_valid_at bp num level max).
  - intros n slot k x [[= -> -> ->] Hn]%roots_lookup. unfold cutoff. rewrite (gp_base _ _ _ _ G n Hn). lia.
  - intros n m q q' t [-> Hn]%roots_lookup [-> Hm]%roots_lookup. destruct t as [[slot k] x]. intros (E & _) (E' & _). lia.
  - nia.
  - rewrite length_roots. lia.
Qed.

Lemma before_all bp num t : valid fs t -> before (bp + num) t <-> all_under fs (before bp) (roots bp num) t.
Proof using Hbits.
  intros V. destruct t as [[slot k] x]. unfold before, all_under. cbn [fst]. split.
  - intros Hs. destruct (decide (slot < Z.of_nat bp)); [by left|right]. exists (Z.to_nat slot - bp)%nat, (slot, 0%nat, 0). split; [apply roots_lookup; split; [do 2 f_equal; lia|lia]|].
    split; [done|]. split; [lia|]. rewrite Z.sub_0_r. destruct V as (_ & _ & Hx). by apply Z.div_small.
  - intros [Hs|(n & q & [-> Hn]%roots_lookup & (-> & _))]; lia.
Qed.

Lemma level_cuts level bp num max : group bp num level max -> cuts_in (roots bp num) = foldr (fun q n => ncut level q + n) 0 (roots bp num).
Proof using.
  intros G. unfold cuts_in. assert (Hall : forall q, q ∈ roots bp num -> height q = level).
  { intros q [n [-> Hn]%roots_lookup]%list_elem_of_lookup. by apply (root_valid_at bp num level max). }
  revert Hall. generalize (roots bp num). induction l as [|q l IH]; intros Hall; [done|]. cbn [foldr]. rewrite (Hall q) by (by left). f_equal. apply IH. intros t Ht. apply Hall. by right.
Qed.

Lemma mixed_split bp num : (bp + num <= 15)%nat -> mixed bp = map cutptr (roots 0 bp) ++ map at0 (roots bp num) ++ map at0 (roots (bp + num) (15 - (bp + num))).
Proof using. intros Hs. unfold mixed. replace (15 - bp)%nat with (num + (15 - (bp + num)))%nat by lia. by rewrite roots_app, map_app. Qed.

Lemma mixed_splice bp num : (bp + num <= 15)%nat -> splice (mixed bp) bp (map cutptr (roots bp num)) = mixed (bp + num) /\ take num (drop bp (mixed bp)) = map at0 (roots bp num).
Proof using.
  intros Hs. rewrite (mixed_split bp num Hs). assert (Hl : length (map cutptr (roots 0 bp)) = bp) by (by rewrite length_map, length_roots). split.
  - unfold splice, mixed. rewrite take_app_length' by done. rewrite roots_app, map_app, <- !app_assoc. do 2 f_equal.
    rewrite length_map, length_roots. rewrite <- Hl at 1. rewrite drop_app_add. rewrite drop_app_length'; [done|]. by rewrite length_map, length_roots.
  - rewrite drop_app_length' by done. apply take_app_length'. by rewrite length_map, length_roots.
Qed.

(** Slots whose blocks are all kept are passed over. *)
Lemma skip_group bp num level max s st i : group bp num level max -> reached bp s st i -> base (Z.of_nat bp) + max <= start -> reached (bp + num) s st i.
Proof using Hbits M.
  intros G R Hle. destruct (gp_size _ _ _ _ G) as (_ & Hs & Em). pose proof (pow_pos fs bits16 level) as Hp.
  assert (Hbelow : forall n, (n < num)%nat -> below fs start level (Z.of_nat (bp + n), 0%nat, 0)) by (intros n Hn; unfold below, cutoff; rewrite (gp_base _ _ _ _ G n Hn); nia).
  assert (Hroot : forall n, (n < num)%nat -> cutptr (Z.of_nat (bp + n), 0%nat, 0) = at0 (Z.of_nat (bp + n), 0%nat, 0)).
  { intros n Hn. unfold PunchSpec.cutptr, kept. rewrite (proj2 (root_valid_at _ _ _ _ n G Hn)), keep_below by auto. by destruct (Z.eqb_spec (at0 (Z.of_nat (bp + n), 0%nat, 0)) 0). }
  assert (Emix : mixed (bp + num) = mixed bp).
  { rewrite (mixed_split bp num Hs). unfold mixed. rewrite roots_app, map_app, <- app_assoc. f_equal. f_equal. apply map_ext_in.
    intros q [n [-> Hn]%roots_lookup]%list_elem_of_In%list_elem_of_lookup. auto. }
  assert (Ecut : cuts_in (roots bp num) = 0).
  { rewrite (level_cuts level bp num max G). assert (Hall : forall q, q ∈ roots bp num -> ncut level q = 0).
    { intros q [n [-> Hn]%roots_lookup]%list_elem_of_lookup. apply ncut_below; [apply bits16|auto]. }
    revert Hall. generalize (roots bp num). induction l as [|q l IH]; intros Hall; [done|]. cbn [foldr]. rewrite (Hall q) by (by left). rewrite IH; [done|]. intros t Ht. apply Hall. by right. }
  destruct R as [R1 R2 R3 R4 R5]. constructor; [done| |by rewrite Emix|done|].
  - assert (Hind : forall n, (n <= num)%nat -> cutted (before (bp + n)) st).
    { induction n as [|n IH]; intros Hn; [by rewrite Nat.add_0_r|].
      apply (cutted_ext fs st0 ib0 start (fun t => before (bp + n) t \/ under (Z.of_nat (bp + n), 0%nat, 0) t)).
      - intros [[slot k] x] V. unfold before. cbn [fst PunchSpec.under]. split; [intros [?|(-> & _)]; lia|]. intros Hlt. destruct (decide (slot < Z.of_nat (bp + n))); [by left|right].
        split; [lia|]. split; [lia|]. rewrite Z.sub_0_r. destruct V as (_ & _ & Hx). by apply Z.div_small.
      - apply cutted_skip; [apply bits16|done|apply IH; lia| |].
        + intros [[slot k] x]. unfold before. cbn. intros Hlt (-> & _). lia.
        + right. rewrite (proj2 (root_valid_at _ _ _ _ n G ltac:(lia))). apply Hbelow. lia. }
    by apply Hind.
  - rewrite roots_app, cuts_in_app. cbn [Nat.add]. by rewrite Ecut, Z.add_0_r.
Qed.

(** One turn of the loop of [ext2fs_punch_ind]. *)
Lemma levels_step n bp num level max s st i : group bp num level max -> reached bp s st i ->
  exists i' s' st', reached (bp + num) s' st' i' /\
    punch_levels fs (Datatypes.S n) level s i (Z.max 0 (start - base (Z.of_nat bp))) (2 ^ 32 - 1 - Z.max start (base (Z.of_nat bp))) max num bp =
    punch_levels fs n (Datatypes.S level) s' i' (Z.max 0 (start - (base (Z.of_nat bp) + max))) (2 ^ 32 - 1 - Z.max start (base (Z.of_nat bp) + max))
      ((if (level =? 0)%nat then 1 else max) * A) 1 (bp + num).
Proof using Hbits Hclusters Himage M Hstart Hrem Hcount.
  intros G R. destruct (gp_size _ _ _ _ G) as (Hn0 & Hs & Em). destruct (gp_nums _ _ _ _ G) as [Hb0 Hb]. pose proof (pow_pos fs bits16 level) as Hp. assert (0 < max) by nia.
  cbn [punch_levels]. destruct (Z.ltb_spec (Z.max 0 (start - base (Z.of_nat bp))) max) as [Hlt|Hge].
  - set (c := 2 ^ 32 - 1 - Z.max start (base (Z.of_nat bp))). destruct (re_inode _ _ _ _ R) as (lo & hi & Ei). assert (Eib : i_block i = mixed bp) by (by rewrite Ei).
    destruct (mixed_splice bp num Hs) as [Esplice Etake]. rewrite Eib, Etake.
    assert (Eu : unit_of fs i = unit) by (by rewrite Ei). pose proof (unit_pos fs bits16 i0) as Hu.
    assert (Htotal : cuts_in (roots 0 15) = cuts_in (roots 0 bp) + cuts_in (roots bp num) + cuts_in (roots (bp + num) (15 - (bp + num)))).
    { replace 15%nat with (bp + (num + (15 - (bp + num))))%nat at 1 by lia. rewrite !roots_app, !cuts_in_app. cbn [Nat.add]. lia. }
    pose proof (cuts_in_nonneg (roots (bp + num) (15 - (bp + num)))) as Hrest.
    destruct (ind_punch_cuts fs bits16 Hclusters Himage st0 ib0 start M Hrem level (roots bp num) (Z.max 0 (start - base (Z.of_nat bp))) c (before bp) s st i)
      as (i' & s' & st' & -> & R' & C' & Ri & Ci & Ecount); [apply (group_row bp num level max); [done|lia..]| |apply R|apply R|apply R| |].
    { intros m q [[slot k] x] [-> Hm]%roots_lookup Hbef (E & _). unfold before in Hbef. cbn in Hbef. lia. }
    { rewrite <- (level_cuts level bp num max G), Eu, (re_count _ _ _ _ R). nia. }
    cbn [obind]. change (0 =? 0) with true. cbn [negb]. destruct (Z.ltb_spec max c); [|lia].
    assert (Eib' : i_block i' = mixed bp) by (destruct Ri as (? & ? & ->); done). rewrite Eib', Esplice. rewrite u32_small by (unfold is_u32; lia).
    exists (set_i_block i' (mixed (bp + num))), s', st'. split; [|f_equal; lia]. constructor; [done| | |done|].
    + apply (cutted_ext fs st0 ib0 start _ _ _) with (2 := C'). intros t V. symmetry. by apply before_all.
    + destruct Ri as (lo' & hi' & ->). rewrite Ei. by exists lo', hi'.
    + change (iblk_count fs (set_i_block i' (mixed (bp + num)))) with (iblk_count fs i'). rewrite Ecount, Eu, (re_count _ _ _ _ R), <- (level_cuts level bp num max G), roots_app, cuts_in_app.
      cbn [Nat.add]. lia.
  - exists i, s, st. split; [apply (skip_group bp num level max); [done|done|lia]|]. f_equal; lia.
Qed.

Lemma groups : group 0 12 0 12 /\ group 12 1 1 A /\ group 13 1 2 (A * A) /\ group 14 1 3 (A * A * A).
Proof using Hbits.
  pose proof small_addr as HA. assert (A * A <= 1024 * 1024) by nia. assert (A * A * A <= 1024 * 1024 * 1024) by nia.
  assert (E1 : A ^ Z.of_nat 1 = A) by apply Z.pow_1_r. assert (E2 : A ^ Z.of_nat 2 = A * A) by apply Z.pow_2_r. assert (E3 : A ^ Z.of_nat 3 = A * A * A) by (change (Z.of_nat 3) with 3; ring).
  assert (B0 : base (Z.of_nat 0) = 0) by done. assert (B1 : base (Z.of_nat 12) = 12) by done. assert (B2 : base (Z.of_nat 13) = 12 + A) by done. assert (B3 : base (Z.of_nat 14) = 12 + A + A * A) by done.
  split; [|split; [|split]]; constructor; rewrite ?E1, ?E2, ?E3, ?B0, ?B1, ?B2, ?B3.
  - lia.
  - intros n Hn. unfold lev. lia.
  - intros n Hn. unfold PunchSpec.base. destruct (Z.ltb_spec (Z.of_nat (0 + n)) 12); cbn [Z.of_nat Z.pow]; lia.
  - lia.
  - lia.
  - intros n Hn. by replace n with 0%nat by lia.
  - intros n Hn. replace n with 0%nat by lia. rewrite Nat.add_0_r, B1. lia.
  - lia.
  - lia.
  - intros n Hn. by replace n with 0%nat by lia.
  - intros n Hn. replace n with 0%nat by lia. rewrite Nat.add_0_r, B2. lia.
  - lia.
  - lia.
  - intros n Hn. by replace n with 0%nat by lia.
  - intros n Hn. replace n with 0%nat by lia. rewrite Nat.add_0_r, B3. lia.
  - lia.
Qed.

Lemma punch_ind_ok s en : fs_rep s st0 -> count_ok i0 -> BLK_T_MAX <= en -> exists i' s' st', ext2fs_punch_ind fs s i0 start en = Done (0, i', s') /\ reached 15 s' st' i'.
Proof using Hbits Hclusters Himage M Hstart Hrem Hcount.
  intros R Hc Hen. destruct groups as (G0 & G1 & G2 & G3).
  assert (R0 : reached 0 s st0 i0).
  { constructor; [done| | |done|cbn; lia].
    - assert (Hno : forall q, valid fs q -> ~ before 0 q) by (intros [[slot k] x] [Hs _]; unfold before; cbn; lia). constructor; try done; [apply M|by intros q V _ ?%Hno|by intros q V ?%Hno].
    - exists (i_blocks i0), (i_blocks_hi i0). rewrite mixed_0. by destruct i0. }
  unfold ext2fs_punch_ind. destruct (Z.ltb_spec BLK_T_MAX start); [unfold BLK_T_MAX in *; lia|]. destruct (Z.leb_spec BLK_T_MAX en); [|lia]. cbn [orb].
  rewrite u32_small by (unfold is_u32, BLK_T_MAX in *; lia). change EXT2_NDIR_BLOCKS with 12.
  destruct (levels_step 3 0 12 0 12 s st0 i0 G0 R0) as (i1 & s1 & st1 & R1 & E1).
  destruct (levels_step 2 12 1 1 A s1 st1 i1 G1 R1) as (i2 & s2 & st2 & R2 & E2).
  destruct (levels_step 1 13 1 2 (A * A) s2 st2 i2 G2 R2) as (i3 & s3 & st3 & R3 & E3).
  destruct (levels_step 0 14 1 3 (A * A * A) s3 st3 i3 G3 R3) as (i4 & s4 & st4 & R4 & E4).
  exists i4, s4, st4. split; [|done]. change (base (Z.of_nat 0)) with 0 in E1. rewrite Z.sub_0_r, (Z.max_r 0 start), (Z.max_l start 0) in E1 by lia. etransitivity; [exact E1|].
  change ((if (0 =? 0)%nat then 1 else 12) * A) with (1 * A). rewrite Z.mul_1_l. etransitivity; [exact E2|]. etransitivity; [exact E3|]. etransitivity; [exact E4|]. done.
Qed.

(** ** The tree afterwards *)

Lemma all_before t : valid fs t -> before 15 t.
Proof using. destruct t as [[slot k] x]. intros [Hs _]. unfold before. cbn. lia. Qed.

Lemma keep_parent slot k x : valid fs (slot, Datatypes.S k, x) -> kept fs st0 ib0 start (slot, Datatypes.S k, x) = true ->
  kept fs st0 ib0 start (slot, k, x / A) = true /\ at0 (slot, k, x / A) <> 0.
Proof using Hbits.
  intros V Hk. pose proof (addr_bounds fs bits16) as HA. pose proof (Z.mod_pos_bound x A ltac:(lia)) as Hm. pose proof (Z_div_mod_eq_full x A) as Ex.
  assert (Ec : (slot, Datatypes.S k, x) = child fs (slot, k, x / A) (Z.to_nat (x mod A))) by (cbn [child]; repeat f_equal; lia).
  assert (Hc : Z.to_nat (x mod A) ∈ children fs) by (apply elem_children; [apply bits16|]; lia).
  assert (Hp : at0 (slot, k, x / A) <> 0).
  { intros E. assert (Ez : at0 (slot, Datatypes.S k, x) = 0) by (rewrite Ec; cbn [child]; apply (nd_down_zero fs bits16); [lia|done]).
    unfold kept in Hk. by rewrite keep_zero in Hk. }
  split; [|done]. destruct V as (_ & Hlev & _). assert (Hh : height (slot, k, x / A) = Datatypes.S (height (slot, Datatypes.S k, x))) by (cbn; lia).
  unfold kept in *. rewrite Hh. destruct (decide (A ^ Z.of_nat (Datatypes.S (height (slot, Datatypes.S k, x))) <= cutoff fs start (Datatypes.S (height (slot, Datatypes.S k, x))) slot (x / A))) as [Hb|Hb].
  - rewrite keep_below by exact Hb. by destruct (Z.eqb_spec (at0 (slot, k, x / A)) 0).
  - rewrite keep_inner by done. apply existsb_exists. exists (Z.to_nat (x mod A)). split; [by apply list_elem_of_In|]. by rewrite <- Ec.
Qed.

Lemma cut_tree st ib : cutted (before 15) st -> ib = mixed 15 -> forall q, valid fs q -> nd fs st ib q = cutptr q.
Proof using Hbits M.
  intros C Eib [[slot k] x]. revert x. induction k as [|k IH]; intros x V.
  - destruct V as (Hs & _ & Hx). change (A ^ Z.of_nat 0) with 1 in Hx. assert (x = 0) as -> by lia. unfold nd. cbn [node].
    assert (E : ib !! Z.to_nat slot = Some (cutptr (slot, 0%nat, 0))).
    { rewrite Eib. change (mixed 15) with (map cutptr (roots 0 15) ++ []). rewrite app_nil_r. apply list_lookup_fmap_Some.
      exists (slot, 0%nat, 0). split; [done|]. apply roots_lookup. split; [do 2 f_equal; lia|lia]. }
    by rewrite E.
  - pose proof (valid_up fs bits16 _ _ _ V) as V'. specialize (IH _ V'). pose proof (addr_bounds fs bits16) as HA. pose proof (Z.mod_pos_bound x A ltac:(lia)) as Hm.
    pose proof (Z_div_mod_eq_full x A) as Ex. change (nd fs st ib (slot, Datatypes.S k, x)) with (let p := nd fs st ib (slot, k, x / A) in if p =? 0 then 0 else ptr (dev st) p (x mod A)).
    cbn zeta. rewrite IH. unfold PunchSpec.cutptr at 1 2. destruct (kept fs st0 ib0 start (slot, k, x / A)) eqn:Ek.
    + destruct V as (Hs & Hlev & Hx). assert (Hh : (0 < height (slot, k, (x / A)%Z))%nat) by (cbn; lia).
      assert (Hp : at0 (slot, k, x / A) <> 0) by (intros E; unfold kept in Ek; by rewrite keep_zero in Ek). destruct (Z.eqb_spec (at0 (slot, k, x / A)) 0); [done|].
      unfold ptr. rewrite (cu_blk _ _ _ _ _ _ C (slot, k, x / A)) by (done || by apply all_before).
      assert (Hj : Z.to_nat (x mod A) ∈ children fs) by (apply elem_children; [apply bits16|]; lia).
      pose proof (bptr_cutblk fs bits16 st0 ib0 start M (slot, k, x / A) _ V' Hh Hj) as Eb. rewrite Z2Nat.id in Eb by lia. rewrite Eb. f_equal. cbn [child]. repeat f_equal. lia.
    + change (0 =? 0) with true. cbv iota. unfold PunchSpec.cutptr. destruct (kept fs st0 ib0 start (slot, Datatypes.S k, x)) eqn:E; [|done].
      apply keep_parent in E as [E _]; [congruence|done].
Qed.

Lemma cutptr_some q : cutptr q <> 0 -> cutptr q = at0 q /\ kept fs st0 ib0 start q = true.
Proof using. unfold PunchSpec.cutptr. destruct (kept _ _ _ _ q); done. Qed.

Lemma cut_mapped st ib : cutted (before 15) st -> ib = mixed 15 -> mapped fs st ib.
Proof using Hbits M.
  intros C Eib. pose proof (cut_tree st ib C Eib) as T. constructor.
  - apply C.
  - rewrite Eib. change (mixed 15) with (map cutptr (roots 0 15) ++ []). rewrite app_nil_r, length_map. apply length_roots.
  - rewrite Eib. change (mixed 15) with (map cutptr (roots 0 15) ++ []). rewrite app_nil_r. apply List.Forall_forall. intros x [q [<- Hq]]%in_map_iff.
    apply list_elem_of_In, list_elem_of_lookup in Hq as [n [-> Hn]%roots_lookup]. apply (cutptr_u32 fs bits16); [done|]. split; [lia|]. split; [lia|]. cbn. lia.
  - intros q V. rewrite (T q V). intros Hn. destruct (cutptr_some q Hn) as [E Ek]. rewrite E in *. split; [by rewrite (cu_cut _ _ _ _ _ _ C q V (all_before q V) Hn)|].
    destruct (height q) eqn:Eh.
    + rewrite (cu_dev _ _ _ _ _ _ C); [by apply (mp_node _ _ _ M)|]. intros r Vr Hh _ Er. exfalso. rewrite (mp_inj _ _ _ M q r V Vr Hn (eq_sym Er)) in Eh. lia.
    + rewrite (cu_blk _ _ _ _ _ _ C q V ltac:(lia) (all_before q V) Hn). eauto.
  - intros q r Vq Vr. rewrite (T q Vq), (T r Vr). intros Hn E. destruct (cutptr_some q Hn) as [Eq _]. rewrite E in Hn. destruct (cutptr_some r Hn) as [Er _].
    apply (mp_inj _ _ _ M); congruence.
Qed.

(** ** The logical blocks *)

Lemma lpos_base l : in_file fs l -> base (slot_of fs l) + idx_of fs l = l /\ height (lpos fs l) = 0%nat.
Proof using Hbits.
  intros [Hl _]. pose proof (addr_bounds fs bits16). split; [|unfold lpos; cbn; lia]. unfold PunchSpec.base, slot_of, idx_of.
  destruct (Z.ltb_spec l 12); [destruct (Z.ltb_spec l 12); lia|]. destruct (Z.ltb_spec (l - 12) A); [cbn; lia|]. destruct (Z.ltb_spec (l - 12 - A) (A * A)); cbn; lia.
Qed.

Lemma cut_logical l : in_file fs l -> cutptr (lpos fs l) = if l <? start then fmap fs st0 ib0 l else 0.
Proof using Hbits.
  intros Hl. destruct (lpos_base l Hl) as [El Eh]. unfold PunchSpec.cutptr, kept, fmap. rewrite Eh. unfold lpos at 1. cbn [keep]. rewrite orb_false_r. fold (lpos fs l).
  unfold cutoff. change (A ^ Z.of_nat 0) with 1. destruct (Z.leb_spec 1 (Z.max 0 (start - base (slot_of fs l) - idx_of fs l * 1))), (Z.ltb_spec l start); try lia.
  - rewrite andb_true_r. by destruct (Z.eqb_spec (at0 (lpos fs l)) 0).
  - by rewrite andb_false_r.
Qed.
End truncate.

(** * A file that is cut off *)

(** How many blocks are given back when the file is cut off at a block. *)
Definition blocks_cut (fs : filsys) (st : store) (i : inode) (start : Z) : Z := cuts_in fs st i start (roots 0 15).

(** The blocks of the file before [start] are the same and hold the same, the others are
    gone; a block is used afterwards if it was, and is still in the tree or never was;
    blocks that are not in the tree hold the same; the given back blocks are counted. *)
Record truncated (fs : filsys) (st : store) (i : inode) (start : Z) (st' : store) (i' : inode) : Prop := {
  tr_mapped : mapped fs st' (i_block i');
  tr_blocks : forall l, in_file fs l -> fmap fs st' (i_block i') l = if l <? start then fmap fs st (i_block i) l else 0;
  tr_bytes : forall l, in_file fs l -> fmap fs st (i_block i) l <> 0 -> dev st' !! fmap fs st (i_block i) l = dev st !! fmap fs st (i_block i) l;
  tr_used : forall b, b <> 0 -> (exists q, valid fs q /\ nd fs st (i_block i) q = b) -> used st' b = true <-> exists q, valid fs q /\ nd fs st' (i_block i') q = b;
  tr_same : forall b, (forall q, valid fs q -> nd fs st (i_block i) q <> b) -> used st' b = used st b /\ dev st' !! b = dev st !! b;
  tr_count : iblk_count fs i' = iblk_count fs i - blocks_cut fs st i start * unit_of fs i;
  tr_inode : exists lo hi, i' = set_i_block (set_i_blocks i lo hi) (i_block i') }.

Section punch.
Context (fs : filsys) (Hbits : 10 <= blocksize_bits fs <= 12) (Hclusters : cluster_bits fs = 0) (Himage : flag_image_file fs = false).
Context {S : Type} `{FileStoreLaws S} (punch_extent : S -> Z -> inode -> Z -> Z -> outcome (Z * inode * S)) (ea_remove : S -> Z -> outcome (Z * S)).

Lemma reached_truncated st i start s' st' i' ino : mapped fs st (i_block i) -> reached fs st i start 15 s' st' i' -> truncated fs st i start (with_inode st' ino i') i'.
Proof using Hbits.
  intros M R. destruct (re_inode _ _ _ _ _ _ _ _ R) as (lo & hi & Ei). assert (Eib : i_block i' = mixed fs st i start 15) by (by rewrite Ei).
  pose proof (re_cut _ _ _ _ _ _ _ _ R) as C. pose proof (cut_tree fs Hbits st i start M st' (i_block i') C Eib) as T.
  assert (Hall : forall q, valid fs q -> before 15 q) by (intros q; apply all_before). constructor; cbn [dev used with_inode].
  - destruct (cut_mapped fs Hbits st i start M st' (i_block i') C Eib). by constructor.
  - intros l Hl. unfold fmap at 1. change (nd fs (with_inode st' ino i') (i_block i') (lpos fs l)) with (nd fs st' (i_block i') (lpos fs l)).
    rewrite T by (apply lpos_valid; [lia|done]). by apply cut_logical.
  - intros l Hl Hn. assert (V : valid fs (lpos fs l)) by (apply lpos_valid; [lia|done]). apply (cu_dev _ _ _ _ _ _ C). intros q Vq Hh _ E. exfalso.
    pose proof (mp_inj _ _ _ M (lpos fs l) q V Vq Hn (eq_sym E)) as <-. rewrite (proj2 (lpos_base fs Hbits l Hl)) in Hh. lia.
  - intros b Hb (q & V & Eq). subst b. rewrite (cu_cut _ _ _ _ _ _ C q V (Hall q V) Hb). split.
    + intros Hk. exists q. split; [done|]. change (nd fs (with_inode st' ino i') (i_block i') q) with (nd fs st' (i_block i') q). rewrite T by done. unfold cutptr. by rewrite Hk.
    + intros (r & Vr & Er). change (nd fs (with_inode st' ino i') (i_block i') r) with (nd fs st' (i_block i') r) in Er. rewrite T in Er by done.
      destruct (cutptr_some fs st i start r) as [Ec Hk]; [congruence|]. rewrite Ec in Er. by rewrite (mp_inj _ _ _ M q r V Vr Hb (eq_sym Er)).
  - intros b Hn. split; [apply (cu_used _ _ _ _ _ _ C)|apply (cu_dev _ _ _ _ _ _ C)]; intros q V; intros; by destruct (Hn q V).
  - apply R.
  - exists lo, hi. rewrite Ei. done.
Qed.

Lemma punch_truncates s st ino i start : 0 <= start < 2 ^ 32 -> by_blocks i -> fs_rep s st -> mapped fs st (i_block i) -> is_Some (inodes st !! ino) -> count_ok i ->
  (forall q, valid fs q -> nd fs st (i_block i) q <> 0 -> removable (nd fs st (i_block i) q)) -> blocks_cut fs st i start * unit_of fs i <= iblk_count fs i ->
  exists i' s' st', ext2fs_punch fs punch_extent ea_remove s ino i start (2 ^ 64 - 1) = Done (0, i', s') /\ fs_rep s' st' /\ truncated fs st i start st' i' /\
    inodes st' = <[ino := i']> (inodes st).
Proof using Hbits Hclusters Himage.
  intros Hs [Hx Hin] R M [j Hj] Hc Hrem Hcount. unfold ext2fs_punch. destruct (Z.ltb_spec (2 ^ 64 - 1) start); [lia|]. rewrite Hx, Hin.
  destruct (punch_ind_ok fs Hbits Hclusters Himage st i start M Hs Hrem Hcount s (2 ^ 64 - 1) R Hc) as (i' & s' & st' & -> & Rc); [done|]. cbn [obind]. change (0 =? 0) with true. cbn [negb].
  pose proof (cu_inodes _ _ _ _ _ _ (re_cut _ _ _ _ _ _ _ _ Rc)) as Ein. destruct (fs_put_inode s' st' ino j i' (re_rep _ _ _ _ _ _ _ _ Rc)) as (s2 & -> & R2); [by rewrite Ein|]. cbn [obind].
  exists i', s2, (with_inode st' ino i'). split; [done|]. split; [done|]. split; [by apply (reached_truncated st i start s')|]. cbn [inodes with_inode]. by rewrite Ein.
Qed.
End punch.
