(* ===== verification/FileIo.v ===== *)
(** Reading and writing files by bytes: fileio.c of lib/ext2fs with the buffer of one
    block that an open file has, the size of an inode (blknum.c), and the table of
    blocks with the same contents (hashmap.c) that files may share. *)

From S2P Require Import Prelude Bitops BlockIo Bmap Punch.

Local Open Scope Z_scope.

Definition EXT2_ET_MAGIC_EXT2_FILE : Z := 2133571343.
Definition EXT2_ET_RO_FILSYS : Z := 2133571349.
Definition EXT2_ET_INVALID_ARGUMENT : Z := 2133571399.
Definition EXT2_ET_FILE_RO : Z := 2133571405.
Definition EXT2_ET_INLINE_DATA_NO_SPACE : Z := 2133571495.

Definition EXT2_FILE_WRITE : Z := 0x0001.
Definition EXT2_FILE_CREATE : Z := 0x0002.
Definition EXT2_FILE_MASK : Z := 0x00FF.
Definition EXT2_FILE_BUF_DIRTY : Z := 0x4000.
Definition EXT2_FILE_BUF_VALID : Z := 0x2000.
Definition EXT2_SEEK_SET : Z := 0.
Definition EXT2_SEEK_CUR : Z := 1.
Definition EXT2_SEEK_END : Z := 2.
Definition LINUX_S_IFMT : Z := 0xF000.
Definition LINUX_S_IFREG : Z := 0x8000.
Definition LINUX_S_IFDIR : Z := 0x4000.

Definition EXT2_I_SIZE (i : inode) : Z := Z.lor (i_size i) (Z.shiftl (i_size_high i) 32).
Definition LINUX_S_ISREG (m : Z) : bool := Z.land m LINUX_S_IFMT =? LINUX_S_IFREG.
Definition LINUX_S_ISDIR (m : Z) : bool := Z.land m LINUX_S_IFMT =? LINUX_S_IFDIR.
Definition ext2fs_needs_large_file_feature (file_size : Z) : bool := 0x80000000 <=? file_size.

(** * hashmap.c *)

(** The chains of entries, each a key and the block that is stored with it. *)
Record hashmap := mk_hashmap { hm_size : Z; hm_entries : list (list (list Z * Z)) }.

Definition ext2fs_djb2_hash (key : list Z) : Z :=
  fold_left (fun hash c => u32 (u32 (u32 (Z.shiftl hash 5) + hash) + (if c <? 128 then c else c - 256))) key 5381.

Definition ext2fs_hashmap_create (size : Z) : hashmap := mk_hashmap (u32 size) (replicate (Z.to_nat size) []).

Definition hm_bucket (h : hashmap) (key : list Z) : nat := Z.to_nat (ext2fs_djb2_hash key mod hm_size h).

Definition ext2fs_hashmap_add (h : hashmap) (data : Z) (key : list Z) : hashmap :=
  mk_hashmap (hm_size h) (alter (fun l => (key, data) :: l) (hm_bucket h key) (hm_entries h)).

Definition ext2fs_hashmap_lookup (h : hashmap) (key : list Z) : option Z :=
  match list_find (fun e => fst e = key) (default [] (hm_entries h !! hm_bucket h key)) with
  | Some (_, e) => Some (snd e)
  | None => None
  end.

(** * fileio.c *)

(** [struct ext2_file]; [f_buf] is the memory at [file->buf], of three blocks, of which
    the last two are only used by [ext2fs_bmap2]. *)
Record file := mk_file {
  f_magic : Z;
  f_ino : Z;
  f_inode : inode;
  f_flags : Z;
  f_pos : Z;
  f_blockno : Z;
  f_physblock : Z;
  f_buf : list Z }.

Definition set_f_inode (f : file) (i : inode) : file := mk_file (f_magic f) (f_ino f) i (f_flags f) (f_pos f) (f_blockno f) (f_physblock f) (f_buf f).
Definition set_f_flags (f : file) (x : Z) : file := mk_file (f_magic f) (f_ino f) (f_inode f) x (f_pos f) (f_blockno f) (f_physblock f) (f_buf f).
Definition set_f_pos (f : file) (x : Z) : file := mk_file (f_magic f) (f_ino f) (f_inode f) (f_flags f) x (f_blockno f) (f_physblock f) (f_buf f).
Definition set_f_blockno (f : file) (x : Z) : file := mk_file (f_magic f) (f_ino f) (f_inode f) (f_flags f) (f_pos f) x (f_physblock f) (f_buf f).
Definition set_f_physblock (f : file) (x : Z) : file := mk_file (f_magic f) (f_ino f) (f_inode f) (f_flags f) (f_pos f) (f_blockno f) x (f_buf f).
Definition set_f_buf (f : file) (b : list Z) : file := mk_file (f_magic f) (f_ino f) (f_inode f) (f_flags f) (f_pos f) (f_blockno f) (f_physblock f) b.

Definition bad_magic (f : file) : bool := negb (f_magic f =? EXT2_ET_MAGIC_EXT2_FILE).

Section fileio.
Context (fs : filsys) {S : Type} `{FileStore S}.
Local Notation bs := (blocksize fs).

(** Parts of the library that are not modelled: files mapped by extents, data that is
    kept in the inode ([ext2fs_inline_data_get] gives the data), and the checksum of a
    block. *)
Context (extent_bmap : S -> Z -> inode -> Z -> Z -> Z -> outcome (Z * Z * Z * Z * inode * S)).
Context (punch_extent : S -> Z -> inode -> Z -> Z -> outcome (Z * inode * S)).
Context (inline_data_ea_remove : S -> Z -> outcome (Z * S)).
Context (inline_data_get : S -> Z -> inode -> outcome (Z * list Z * S)).
Context (inline_data_set : S -> Z -> inode -> list Z -> outcome (Z * inode * S)).
Context (inline_data_expand : S -> Z -> outcome (Z * S)).
Context (sha512 : list Z -> list Z).

(** [ext2fs_bmap2] with [&file->inode]: the result, [*phys_blk], [*ret_flags]. *)
Definition file_bmap (s : S) (f : file) (flags block phys : Z) : outcome (Z * Z * Z * file * S) :=
  let* (retval, phys, ret_flags, i, s) := ext2fs_bmap2 fs extent_bmap s (f_ino f) (Some (f_inode f)) flags block phys in
  Done (retval, phys, ret_flags, set_f_inode f (default (f_inode f) i), s).

(** The first [bs] bytes of the buffer. *)
Definition buf_block (f : file) : outcome (list Z) := load_bytes (f_buf f) 0 bs.

(** [mem] is what the memory for the buffer holds. *)
Definition ext2fs_file_open2 (mem : list Z) (s : S) (ino : Z) (i : option inode) (flags : Z) : outcome (Z * option file * S) :=
  if (has flags (Z.lor EXT2_FILE_WRITE EXT2_FILE_CREATE)) && negb (flag_rw fs) then Done (EXT2_ET_RO_FILSYS, None, s)
  else
    let* (retval, i, s) := match i with Some i => Done (0, Some i, s) | None => read_inode s ino end in
    match i with
    | None => Done (retval, None, s)
    | Some i => Done (0, Some (mk_file EXT2_ET_MAGIC_EXT2_FILE ino i (Z.land flags EXT2_FILE_MASK) 0 0 0 mem), s)
    end.

Definition ext2fs_file_flush (s : S) (f : file) : outcome (Z * file * S) :=
  if bad_magic f then Done (EXT2_ET_MAGIC_EXT2_FILE, f, s)
  else if negb (has (f_flags f) EXT2_FILE_BUF_VALID) || negb (has (f_flags f) EXT2_FILE_BUF_DIRTY) then Done (0, f, s)
  else
    let* (retval, f, s) :=
      if negb (f_physblock f =? 0) && has (i_flags (f_inode f)) EXT4_EXTENTS_FL then
        let* (retval, _, ret_flags, f, s) := file_bmap s f 0 (f_blockno f) 0 in
        if negb (retval =? 0) then Done (retval, f, s)
        else if has ret_flags BMAP_RET_UNINIT then
          let* (retval, phys, _, f, s) := file_bmap s f BMAP_SET (f_blockno f) (f_physblock f) in
          Done (retval, set_f_physblock f phys, s)
        else Done (0, f, s)
      else Done (0, f, s) in
    if negb (retval =? 0) then Done (retval, f, s)
    else
      let* (retval, f, s) :=
        if f_physblock f =? 0 then
          let* (retval, phys, _, f, s) := file_bmap s f (if f_ino f =? 0 then 0 else BMAP_ALLOC) (f_blockno f) (f_physblock f) in
          Done (retval, set_f_physblock f phys, s)
        else Done (0, f, s) in
      if negb (retval =? 0) then Done (retval, f, s)
      else
        let* block := buf_block f in
        let* (retval, s) := write_blk s (f_physblock f) block in
        if negb (retval =? 0) then Done (retval, f, s)
        else Done (0, set_f_flags f (Z.land (f_flags f) (Z.lnot EXT2_FILE_BUF_DIRTY)), s).

Definition sync_buffer_position (s : S) (f : file) : outcome (Z * file * S) :=
  let b := f_pos f / bs in
  if b =? f_blockno f then Done (0, set_f_blockno f b, s)
  else
    let* (retval, f, s) := ext2fs_file_flush s f in
    if negb (retval =? 0) then Done (retval, f, s)
    else Done (0, set_f_blockno (set_f_flags f (Z.land (f_flags f) (Z.lnot EXT2_FILE_BUF_VALID))) b, s).

Definition load_buffer (s : S) (f : file) (dontfill : bool) : outcome (Z * file * S) :=
  if has (f_flags f) EXT2_FILE_BUF_VALID then Done (0, f, s)
  else
    let* (retval, phys, ret_flags, f, s) := file_bmap s f 0 (f_blockno f) (f_physblock f) in
    let f := set_f_physblock f phys in
    if negb (retval =? 0) then Done (retval, f, s)
    else
      let* (retval, f, s) :=
        if dontfill then Done (0, f, s)
        else if negb (f_physblock f =? 0) && negb (has ret_flags BMAP_RET_UNINIT) then
          let* (retval, block, s) := read_blk s (f_physblock f) in
          if negb (retval =? 0) then Done (retval, f, s)
          else let* b := store_bytes (f_buf f) 0 block in Done (0, set_f_buf f b, s)
        else let* b := store_bytes (f_buf f) 0 (replicate (Z.to_nat bs) 0) in Done (0, set_f_buf f b, s) in
      if negb (retval =? 0) then Done (retval, f, s)
      else Done (0, set_f_flags f (Z.lor (f_flags f) EXT2_FILE_BUF_VALID), s).

Definition ext2fs_file_close (s : S) (f : file) : outcome (Z * S) :=
  if bad_magic f then Done (EXT2_ET_MAGIC_EXT2_FILE, s)
  else let* (retval, _, s) := ext2fs_file_flush s f in Done (retval, s).

(** ** Reading: the result, the bytes that were copied to the caller's buffer, whose
    number is [*got], the file and the state *)

Definition ext2fs_file_read_inline_data (s : S) (f : file) (wanted : Z) : outcome (Z * list Z * file * S) :=
  let* (retval, data, s) := inline_data_get s (f_ino f) (f_inode f) in
  if negb (retval =? 0) then Done (retval, [], f, s)
  else
    let* b := store_bytes (f_buf f) 0 data in
    let f := set_f_buf f b in
    let size := Z.of_nat (length data) in
    if size <=? f_pos f then Done (0, [], f, s)
    else
      let count := Z.min (u32 (size - f_pos f)) wanted in
      let* out := load_bytes (f_buf f) (f_pos f) count in
      Done (0, out, set_f_pos f (f_pos f + count), s).

(** The loop; every turn copies a byte. *)
Fixpoint read_loop (fuel : nat) (s : S) (f : file) (wanted : Z) (out : list Z) : outcome (Z * list Z * file * S) :=
  match fuel with
  | O => Crash OutOfFuel
  | Datatypes.S fuel =>
      if (f_pos f <? EXT2_I_SIZE (f_inode f)) && (0 <? wanted) then
        let* (retval, f, s) := sync_buffer_position s f in
        if negb (retval =? 0) then Done (retval, out, f, s)
        else
          let* (retval, f, s) := load_buffer s f false in
          if negb (retval =? 0) then Done (retval, out, f, s)
          else
            let start := f_pos f mod bs in
            let c := Z.min (bs - start) wanted in
            let left := u64 (EXT2_I_SIZE (f_inode f) - f_pos f) in
            let c := if left <? c then u32 left else c in
            let* bytes := load_bytes (f_buf f) start c in
            read_loop fuel s (set_f_pos f (u64 (f_pos f + c))) (wanted - c) (out ++ bytes)
      else Done (0, out, f, s)
  end.

Definition ext2fs_file_read (s : S) (f : file) (wanted : Z) : outcome (Z * list Z * file * S) :=
  if bad_magic f then Done (EXT2_ET_MAGIC_EXT2_FILE, [], f, s)
  else if has (i_flags (f_inode f)) EXT4_INLINE_DATA_FL then ext2fs_file_read_inline_data s f wanted
  else read_loop (Datatypes.S (Z.to_nat wanted)) s f wanted [].

(** ** The size *)

Definition ext2fs_inode_size_set (s : S) (i : inode) (size : Z) : outcome (Z * inode * S) :=
  if size <? 0 then Done (EINVAL, i, s)
  else
    let done (s : S) := Done (0, set_i_size i (Z.land size 0xffffffff) (u32 (Z.shiftr size 32)), s) in
    if ext2fs_needs_large_file_feature size then
      if LINUX_S_ISREG (i_mode i) then let* s := large_feature s true in done s
      else if LINUX_S_ISDIR (i_mode i) then let* s := large_feature s false in done s
      else Done (EXT2_ET_FILE_TOO_BIG, i, s)
    else done s.

(** The part of [ext2fs_file_zero_past_offset] that follows [sync_buffer_position]. *)
Definition zero_block_end (s : S) (f : file) (off blk_nr : Z) : outcome (Z * S) :=
  let* (retval, blk, ret_flags, _, s) := ext2fs_bmap2 fs extent_bmap s (f_ino f) None 0 blk_nr 0 in
  if negb (retval =? 0) then Done (retval, s)
  else if (blk =? 0) || has ret_flags BMAP_RET_UNINIT then Done (0, s)
  else
    let* (retval, b, s) := read_blk s blk in
    if negb (retval =? 0) then Done (retval, s)
    else let* b := store_bytes b off (replicate (Z.to_nat (bs - off)) 0) in write_blk s blk b.

Definition ext2fs_file_zero_past_offset (s : S) (f : file) (offset : Z) : outcome (Z * file * S) :=
  let off := Z.rem offset bs in
  if off =? 0 then Done (0, f, s)
  else
    let* (retval, f, s) := sync_buffer_position s f in
    if negb (retval =? 0) then Done (retval, f, s)
    else let* (retval, s) := zero_block_end s f off (u64 (Z.quot offset bs)) in Done (retval, f, s).

(** [size] is signed. *)
Definition ext2fs_file_set_size2 (s : S) (f : file) (size : Z) : outcome (Z * file * S) :=
  if bad_magic f then Done (EXT2_ET_MAGIC_EXT2_FILE, f, s)
  else if negb (size =? 0) && ext2fs_file_block_offset_too_big fs (f_inode f) (u64 (Z.quot (size - 1) bs)) then Done (EXT2_ET_FILE_TOO_BIG, f, s)
  else
    let truncate_block := u64 (Z.shiftr (size + bs - 1) (blocksize_bits fs)) in
    let old_size := s64 (EXT2_I_SIZE (f_inode f)) in
    let old_truncate := u64 (Z.shiftr (old_size + bs - 1) (blocksize_bits fs)) in
    let* (retval, i, s) := ext2fs_inode_size_set s (f_inode f) size in
    let f := set_f_inode f i in
    if negb (retval =? 0) then Done (retval, f, s)
    else
      let* (retval, s) := if f_ino f =? 0 then Done (0, s) else write_inode s (f_ino f) (f_inode f) in
      if negb (retval =? 0) then Done (retval, f, s)
      else
        let* (retval, f, s) := ext2fs_file_zero_past_offset s f size in
        if negb (retval =? 0) then Done (retval, f, s)
        else if old_truncate <=? truncate_block then Done (0, f, s)
        else
          let* (retval, i, s) := ext2fs_punch fs punch_extent inline_data_ea_remove s (f_ino f) (f_inode f) truncate_block (2 ^ 64 - 1) in
          Done (retval, set_f_inode f i, s).

Definition ext2fs_file_get_lsize (f : file) : Z * option Z :=
  if bad_magic f then (EXT2_ET_MAGIC_EXT2_FILE, None) else (0, Some (EXT2_I_SIZE (f_inode f))).

Definition ext2fs_file_get_size (f : file) : Z :=
  match ext2fs_file_get_lsize f with
  | (0, Some size) => if Z.shiftr size 32 =? 0 then s32 size else 0
  | _ => 0
  end.

Definition ext2fs_file_llseek (f : file) (offset whence : Z) : Z * file :=
  if bad_magic f then (EXT2_ET_MAGIC_EXT2_FILE, f)
  else if whence =? EXT2_SEEK_SET then (0, set_f_pos f offset)
  else if whence =? EXT2_SEEK_CUR then (0, set_f_pos f (u64 (f_pos f + offset)))
  else if whence =? EXT2_SEEK_END then (0, set_f_pos f (u64 (EXT2_I_SIZE (f_inode f) + offset)))
  else (EXT2_ET_INVALID_ARGUMENT, f).

(** ** Writing: the result, [*written] if it is set, the file and the state *)

(** The end of a write that may have made the file longer. *)
Definition grow_size (s : S) (f : file) (retval count : Z) : outcome (Z * file * S) :=
  if negb (count =? 0) && (EXT2_I_SIZE (f_inode f) <? f_pos f) then
    let* (rc, f, s) := ext2fs_file_set_size2 s f (s64 (f_pos f)) in Done (if retval =? 0 then rc else retval, f, s)
  else Done (retval, f, s).

Definition inline_expand (s : S) (f : file) : outcome (Z * option Z * file * S) :=
  let* (retval, s) := inline_data_expand s (f_ino f) in
  if negb (retval =? 0) then Done (retval, None, f, s)
  else
    let* (retval, i, s) := read_inode s (f_ino f) in
    match i with
    | None => Done (retval, None, f, s)
    | Some i => Done (EXT2_ET_INLINE_DATA_NO_SPACE, None, set_f_inode f i, s)
    end.

Definition ext2fs_file_write_inline_data (s : S) (f : file) (data : list Z) : outcome (Z * option Z * file * S) :=
  let* (retval, old, s) := inline_data_get s (f_ino f) (f_inode f) in
  if negb (retval =? 0) then Done (retval, None, f, s)
  else
    let* b := store_bytes (f_buf f) 0 old in
    let f := set_f_buf f b in
    if f_pos f <? Z.of_nat (length old) then
      let count := u32 (Z.of_nat (length data) - f_pos f) in
      let* bytes := load_bytes data 0 count in
      let* b := store_bytes (f_buf f) (f_pos f) bytes in
      let f := set_f_buf f b in
      let* new := load_bytes (f_buf f) 0 count in
      let* (retval, i, s) := inline_data_set s (f_ino f) (f_inode f) new in
      let f := set_f_inode f i in
      if retval =? EXT2_ET_INLINE_DATA_NO_SPACE then inline_expand s f
      else if negb (retval =? 0) then Done (retval, None, f, s)
      else
        let f := set_f_pos f (u64 (f_pos f + count)) in
        let* (_, f, s) := grow_size s f 0 count in Done (0, Some count, f, s)
    else inline_expand s f.

(** The part of the loop that finds a block for what is written: a block of another
    file with the same contents if blocks are shared, or a new one. *)
Definition write_block (s : S) (f : file) (m : hashmap) : outcome (Z * file * hashmap * S) :=
  let alloc := if f_ino f =? 0 then 0 else BMAP_ALLOC in
  let* block := buf_block f in
  let sha := sha512 block in
  let old_block := if flag_share_dup fs then ext2fs_hashmap_lookup m sha else None in
  let f := match old_block with Some b => set_f_physblock f b | None => f end in
  let bmap_flags := match old_block with Some _ => Z.lor alloc BMAP_SET | None => alloc end in
  let* (retval, phys, _, f, s) := file_bmap s f bmap_flags (f_blockno f) (f_physblock f) in
  let f := set_f_physblock f phys in
  if negb (retval =? 0) then Done (retval, f, m, s)
  else
    let m := match old_block with None => if flag_share_dup fs then ext2fs_hashmap_add m (f_physblock f) sha else m | Some _ => m end in
    if has bmap_flags BMAP_SET then
      let f := set_f_inode f (snd (ext2fs_iblk_add_blocks fs (f_inode f) 1)) in
      let* (_, s) := write_inode s (f_ino f) (f_inode f) in Done (0, f, m, s)
    else Done (0, f, m, s).

(** The loop; [data] is what is left to write, [count] what has been written. *)
Fixpoint write_loop (fuel : nat) (s : S) (f : file) (m : hashmap) (data : list Z) (count : Z) : outcome (Z * Z * file * hashmap * S) :=
  match fuel with
  | O => Crash OutOfFuel
  | Datatypes.S fuel =>
      match data with
      | [] => Done (0, count, f, m, s)
      | _ =>
          let* (retval, f, s) := sync_buffer_position s f in
          if negb (retval =? 0) then Done (retval, count, f, m, s)
          else
            let start := f_pos f mod bs in
            let c := Z.min (bs - start) (Z.of_nat (length data)) in
            let* (retval, f, s) := load_buffer s f (c =? bs) in
            if negb (retval =? 0) then Done (retval, count, f, m, s)
            else
              let f := set_f_flags f (Z.lor (f_flags f) EXT2_FILE_BUF_DIRTY) in
              let* b := store_bytes (f_buf f) start (take (Z.to_nat c) data) in
              let f := set_f_buf f b in
              let* (retval, f, m, s) := if f_physblock f =? 0 then write_block s f m else Done (0, f, m, s) in
              if negb (retval =? 0) then Done (retval, count, f, m, s)
              else write_loop fuel s (set_f_pos f (u64 (f_pos f + c))) m (drop (Z.to_nat c) data) (count + c)
      end
  end.

Definition ext2fs_file_write (s : S) (f : file) (m : hashmap) (data : list Z) : outcome (Z * option Z * file * hashmap * S) :=
  if bad_magic f then Done (EXT2_ET_MAGIC_EXT2_FILE, None, f, m, s)
  else if negb (has (f_flags f) EXT2_FILE_WRITE) then Done (EXT2_ET_FILE_RO, None, f, m, s)
  else
    let go s f :=
      let* (retval, count, f, m, s) := write_loop (Datatypes.S (length data)) s f m data 0 in
      let* (retval, f, s) := grow_size s f retval count in Done (retval, Some count, f, m, s) in
    if has (i_flags (f_inode f)) EXT4_INLINE_DATA_FL then
      let* (retval, written, f, s) := ext2fs_file_write_inline_data s f data in
      if retval =? EXT2_ET_INLINE_DATA_NO_SPACE then go s f else Done (retval, written, f, m, s)
    else go s f.
End fileio.
