(* ===== verification/FileIoSpec.v ===== *)
(** An open file stands for bytes: what its buffer and the blocks on the device hold,
    and that flushing, moving and filling the buffer do not change the bytes. *)

From S2P Require Import Prelude Bitops BlockIo Bmap BmapSpec BmapGrow BmapWalk Punch FileIo.

Local Open Scope Z_scope.

(** * Flags *)

Definition is_valid (f : file) : bool := has (f_flags f) EXT2_FILE_BUF_VALID.
Definition is_dirty (f : file) : bool := has (f_flags f) EXT2_FILE_BUF_DIRTY.
Definition can_write (f : file) : bool := has (f_flags f) EXT2_FILE_WRITE.

Lemma has_bit f n : 0 <= n -> has f (2 ^ n) = Z.testbit f n.
Proof.
  intros Hn. unfold has. destruct (Z.testbit f n) eqn:E.
  - destruct (Z.eqb_spec (Z.land f (2 ^ n)) 0) as [H|]; [|done]. apply (f_equal (fun x => Z.testbit x n)) in H.
    rewrite Z.land_spec, E, Z.pow2_bits_true, Z.bits_0 in H by lia. done.
  - destruct (Z.eqb_spec (Z.land f (2 ^ n)) 0) as [|H]; [done|]. exfalso. apply H. apply Z.bits_inj'. intros m Hm. rewrite Z.land_spec, Z.bits_0.
    destruct (decide (m = n)) as [->|Hne]; [by rewrite E|]. by rewrite Z.pow2_bits_false, andb_false_r by lia.
Qed.

Lemma valid_bit x : has x EXT2_FILE_BUF_VALID = Z.testbit x 13.
Proof. by rewrite <- has_bit. Qed.
Lemma dirty_bit x : has x EXT2_FILE_BUF_DIRTY = Z.testbit x 14.
Proof. by rewrite <- has_bit. Qed.
Lemma write_bit x : has x EXT2_FILE_WRITE = Z.testbit x 0.
Proof. by rewrite <- has_bit. Qed.

Lemma valid_bits : Z.testbit EXT2_FILE_BUF_VALID 13 = true /\ Z.testbit EXT2_FILE_BUF_VALID 14 = false /\ Z.testbit EXT2_FILE_BUF_VALID 0 = false.
Proof. done. Qed.
Lemma dirty_bits : Z.testbit EXT2_FILE_BUF_DIRTY 13 = false /\ Z.testbit EXT2_FILE_BUF_DIRTY 14 = true /\ Z.testbit EXT2_FILE_BUF_DIRTY 0 = false.
Proof. done. Qed.

(** Flags after some of them were set or cleared. *)
Ltac flag_bits :=
  destruct valid_bits as (?Hv13 & ?Hv14 & ?Hv0); destruct dirty_bits as (?Hd13 & ?Hd14 & ?Hd0);
  unfold is_valid, is_dirty, can_write in *; cbn [f_flags set_f_flags set_f_inode set_f_pos set_f_blockno set_f_physblock set_f_buf] in *;
  rewrite ?valid_bit, ?dirty_bit, ?write_bit in *; rewrite ?Z.lor_spec, ?Z.land_spec, ?Z.lnot_spec by lia;
  rewrite ?Hv13, ?Hv14, ?Hv0, ?Hd13, ?Hd14, ?Hd0; cbn [negb]; rewrite ?andb_true_r, ?andb_false_r, ?orb_true_r, ?orb_false_r; try (intros; congruence).

Section spec.
Context (fs : filsys) (Hbits : 10 <= blocksize_bits fs <= 16).
Local Notation BS := (blocksize fs).
Local Notation valid := (BmapSpec.valid fs).
Local Notation nd := (nd fs).
Local Notation mapped := (mapped fs).
Local Notation fmap := (fmap fs).
Local Notation in_file := (in_file fs).

Lemma bs_bounds : 1024 <= BS <= 2 ^ 16.
Proof using Hbits. pose proof (addr_bounds fs Hbits). rewrite (size_eq fs Hbits). lia. Qed.

(** * Bytes by blocks *)

Definition fblock (F : Z -> Z) (l : Z) : list Z := map (fun k => F (l * BS + Z.of_nat k)) (seq 0 (Z.to_nat BS)).

Lemma length_fblock F l : length (fblock F l) = Z.to_nat BS.
Proof using. unfold fblock. by rewrite length_map, length_seq. Qed.

Lemma lookup_fblock F l k : (k < Z.to_nat BS)%nat -> fblock F l !! k = Some (F (l * BS + Z.of_nat k)).
Proof using. intros Hk. unfold fblock. rewrite list_lookup_fmap, lookup_seq_lt by done. done. Qed.

Lemma fblock_eq F l bs : length bs = Z.to_nat BS -> (forall k, (k < Z.to_nat BS)%nat -> bs !! k = Some (F (l * BS + Z.of_nat k))) -> bs = fblock F l.
Proof using.
  intros Hl He. apply list_eq. intros k. destruct (decide (k < Z.to_nat BS)%nat) as [Hk|Hk]; [by rewrite lookup_fblock, He|].
  rewrite !lookup_ge_None_2; [done|rewrite length_fblock; lia|lia].
Qed.

Lemma fblock_ext F G l : (forall k, 0 <= k < BS -> F (l * BS + k) = G (l * BS + k)) -> fblock F l = fblock G l.
Proof using. intros He. apply fblock_eq; [apply length_fblock|]. intros k Hk. rewrite lookup_fblock by done. f_equal. apply He. lia. Qed.

(** * The file system around a file *)

(** Changes that leave the blocks of other files alone. *)
Record frame (ino : Z) (st : store) (ib : list Z) (st' : store) (ib' : list Z) : Prop := {
  fr_used : forall b, used st b = true -> used st' b = true;
  fr_nodes : forall q, valid q -> nd st' ib' q <> 0 -> nd st' ib' q = nd st ib q \/ used st (nd st' ib' q) = false;
  fr_dev : forall b, b <> 0 -> used st b = true -> (forall q, valid q -> nd st ib q <> b) -> dev st' !! b = dev st !! b;
  fr_inodes : forall j, j <> ino -> inodes st' !! j = inodes st !! j }.

Lemma file_frame_refl ino st ib : frame ino st ib st ib.
Proof using. constructor; auto. Qed.

Lemma file_frame_trans ino st1 ib1 st2 ib2 st3 ib3 : frame ino st1 ib1 st2 ib2 -> frame ino st2 ib2 st3 ib3 -> frame ino st1 ib1 st3 ib3.
Proof using.
  intros F1 F2. constructor.
  - intros b Hb. by apply F2, F1.
  - intros q V Hn. destruct (fr_nodes _ _ _ _ _ F2 q V Hn) as [E|Hf].
    + rewrite E in *. by apply F1.
    + right. destruct (used st1 (nd st3 ib3 q)) eqn:Hu; [|done]. by rewrite (fr_used _ _ _ _ _ F1 _ Hu) in Hf.
  - intros b Hb Hu Hn. rewrite (fr_dev _ _ _ _ _ F2 b Hb); [by apply F1|by apply F1|]. intros q V E.
    destruct (fr_nodes _ _ _ _ _ F1 q V ltac:(congruence)) as [E1|Hf]; [apply (Hn q V); congruence|]. congruence.
  - intros j Hj. rewrite (fr_inodes _ _ _ _ _ F2 j Hj). by apply F1.
Qed.

Lemma grown_frame T ino st ib st' ib' : grown fs T st ib st' ib' -> (forall j, j <> ino -> inodes st' !! j = inodes st !! j) -> frame ino st ib st' ib'.
Proof using.
  intros G Hi. constructor; [apply G| | |done].
  - intros q V Hn. destruct (decide (nd st' ib' q = nd st ib q)) as [|Hd]; [by left|right].
    destruct (gr_only _ _ _ _ _ _ G q V Hd) as [_ Hz]. by apply (gr_new _ _ _ _ _ _ G).
  - intros b Hb Hu Hn. apply (gr_dev _ _ _ _ _ _ G); [done|done|]. intros r V E. by destruct (Hn r V).
Qed.

(** A block of data is written. *)
Lemma nd_data st ib st' : (forall q, valid q -> ~ leaf q -> nd st ib q <> 0 -> dev st' !! nd st ib q = dev st !! nd st ib q) -> forall q, valid q -> nd st' ib q = nd st ib q.
Proof using Hbits.
  intros Hd [[slot k] i]. revert i. induction k as [|k IH]; intros i V; [done|]. pose proof (valid_up fs Hbits _ _ _ V) as V'.
  assert (Hstep : forall s, nd s ib (slot, Datatypes.S k, i) = let p := nd s ib (slot, k, i / addr_per_block fs) in if p =? 0 then 0 else ptr (dev s) p (i mod addr_per_block fs)) by done.
  rewrite !Hstep, IH by done. cbv zeta. destruct (Z.eqb_spec (nd st ib (slot, k, i / addr_per_block fs)) 0); [done|]. unfold ptr.
  rewrite Hd; [done|done| |done]. destruct V as (_ & ? & _). cbn. lia.
Qed.

Lemma data_write st ib q bs : mapped st ib -> valid q -> leaf q -> nd st ib q <> 0 -> blk_ok fs bs ->
  (forall r, valid r -> nd (with_block st (nd st ib q) bs) ib r = nd st ib r) /\ mapped (with_block st (nd st ib q) bs) ib /\
  forall ino, frame ino st ib (with_block st (nd st ib q) bs) ib.
Proof using Hbits.
  intros M V L Hq Hb. assert (En : forall r, valid r -> nd (with_block st (nd st ib q) bs) ib r = nd st ib r).
  { apply nd_data. intros r Vr Hl Hr. cbn [dev with_block]. rewrite lookup_insert_ne; [done|]. intros E. pose proof (mp_inj _ _ _ M q r V Vr Hq E). by subst r. }
  split; [done|]. split.
  - constructor; try apply M.
    + intros b cs. cbn [dev with_block]. destruct (decide (nd st ib q = b)) as [<-|Hne]; [rewrite lookup_insert_eq; by intros [= <-]|rewrite lookup_insert_ne by done; apply M].
    + intros r Vr. rewrite En by done. intros Hr. destruct (mp_node _ _ _ M r Vr Hr) as [U D]. split; [done|]. cbn [dev with_block].
      destruct (decide (nd st ib q = nd st ib r)) as [->|Hne]; [rewrite lookup_insert_eq; eauto|by rewrite lookup_insert_ne].
    + intros r t Vr Vt. rewrite !En by done. by apply M.
  - intros ino. constructor; [done| | |done].
    + intros r Vr _. left. by apply En.
    + intros b Hb0 Hu Hn. cbn [dev with_block]. apply lookup_insert_ne. by apply Hn.
Qed.

(** What is on the device for a logical block. *)
Definition disk (st : store) (ib : list Z) (l : Z) : list Z := if fmap st ib l =? 0 then zeros fs else default [] (dev st !! fmap st ib l).

Lemma disk_same st ib st' ib' l : fmap st' ib' l = fmap st ib l -> (fmap st ib l <> 0 -> dev st' !! fmap st ib l = dev st !! fmap st ib l) -> disk st' ib' l = disk st ib l.
Proof using. intros E Hd. unfold disk. rewrite E. destruct (Z.eqb_spec (fmap st ib l) 0); [done|]. by rewrite Hd. Qed.

Lemma disk_ok st ib l : mapped st ib -> in_file l -> blk_ok fs (disk st ib l) /\ length (disk st ib l) = Z.to_nat BS.
Proof using Hbits.
  intros M Hl. assert (blk_ok fs (disk st ib l)) as Hok; [|split; [done|]; destruct Hok; lia]. unfold disk.
  destruct (Z.eqb_spec (fmap st ib l) 0) as [|Hn]; [by apply file_zeros_ok|].
  destruct (mp_node _ _ _ M (lpos fs l) (lpos_valid fs Hbits l Hl) Hn) as [_ [bs E]]. unfold BmapWalk.fmap. rewrite E. by apply (mp_dev _ _ _ M _ _ E).
Qed.

Lemma fmap_inj st ib l m : mapped st ib -> in_file l -> in_file m -> fmap st ib l <> 0 -> fmap st ib l = fmap st ib m -> l = m.
Proof using Hbits.
  intros M Hl Hm Hn E. apply (lpos_inj fs Hbits); [done|done|]. apply (mp_inj _ _ _ M); try done; by apply (lpos_valid fs Hbits).
Qed.

Lemma lpos_leaf l : leaf (lpos fs l).
Proof using. done. Qed.

(** After the tree has grown for [l], other logical blocks are as they were. *)
Lemma grown_disk l m st ib st' ib' : mapped st ib -> grown fs (path fs (slot_of fs l) (idx_of fs l)) st ib st' ib' -> in_file l -> in_file m -> m <> l ->
  fmap st' ib' m = fmap st ib m /\ disk st' ib' m = disk st ib m.
Proof using Hbits.
  intros M G Hl Hm Hne. assert (E : fmap st' ib' m = fmap st ib m).
  { destruct (decide (fmap st' ib' m = fmap st ib m)) as [|Hd]; [done|]. destruct (gr_only _ _ _ _ _ _ G (lpos fs m) (lpos_valid fs Hbits m Hm) Hd) as [Hp _].
    by apply (path_leaf fs Hbits) in Hp. }
  split; [done|]. apply disk_same; [done|]. intros Hn. pose proof (lpos_valid fs Hbits m Hm) as V.
  apply (gr_dev _ _ _ _ _ _ G); [done|by apply (mp_node _ _ _ M)|]. intros r Vr Er. assert (Hr : nd st ib r <> 0) by (rewrite Er; exact Hn). pose proof (mp_inj _ _ _ M r (lpos fs m) Vr V Hr Er). by subst r.
Qed.

(** The pointers of a tree hold the bytes of [F]. *)
Definition holds (st : store) (ib : list Z) (F : Z -> Z) : Prop := mapped st ib /\ forall l, in_file l -> disk st ib l = fblock F l.

Lemma holds_ext st ib F G : holds st ib F -> (forall p, F p = G p) -> holds st ib G.
Proof using. intros [M Hd] E. split; [done|]. intros l Hl. rewrite Hd by done. apply fblock_ext. intros; apply E. Qed.

(** A tree that has grown for a block that was not there holds what it held ... *)
Lemma grown_holds l st ib st' ib' F : holds st ib F -> grown fs (path fs (slot_of fs l) (idx_of fs l)) st ib st' ib' -> mapped st' ib' -> in_file l -> fmap st ib l = 0 -> holds st' ib' F.
Proof using Hbits.
  intros [M Hd] G M' Hl Hz. split; [done|]. intros m Hm. rewrite <- Hd by done. destruct (decide (m = l)) as [->|Hne]; [|by apply (grown_disk l m)].
  unfold disk at 2. rewrite Hz. change (0 =? 0) with true. cbn iota. unfold disk. destruct (Z.eqb_spec (fmap st' ib' l) 0) as [|Hn]; [done|].
  unfold BmapWalk.fmap. rewrite (gr_zero _ _ _ _ _ _ G (lpos fs l)); try done. by apply (lpos_valid fs Hbits).
Qed.

(** ... and so do the pointers of the inode from before. *)
Lemma grown_nd T st ib st' ib' q : grown fs T st ib st' ib' -> valid q ->
  nd st' ib q = 0 /\ nd st ib q = 0 \/ nd st' ib q = nd st' ib' q.
Proof using Hbits.
  intros G. destruct q as [[slot k] i]. intros V. assert (V0 : valid (slot, 0%nat, 0)) by (destruct V as (? & ? & ?); split; [done|]; split; [lia|]; cbn; lia).
  assert (Hzero : forall d k i, node fs d 0 k i = 0) by (clear; induction k as [|k IH]; intros i; [done|]; cbn [node]; by rewrite IH).
  destruct (decide (default 0 (ib' !! Z.to_nat slot) = default 0 (ib !! Z.to_nat slot))) as [E|Hne]; [right; unfold BmapSpec.nd; by rewrite E|].
  left. destruct (gr_only _ _ _ _ _ _ G _ V0 Hne) as [_ Hz]. cbn in Hz. unfold BmapSpec.nd. by rewrite Hz, !Hzero.
Qed.

Lemma grown_back T st ib st' ib' F : holds st ib F -> grown fs T st ib st' ib' -> holds st' ib' F -> holds st' ib F.
Proof using Hbits.
  intros [M Hd] G [M' Hd']. assert (Hn : forall q, valid q -> nd st' ib q <> 0 -> nd st' ib q = nd st' ib' q) by (intros q V; destruct (grown_nd T st ib st' ib' q G V) as [[-> _]| ->]; done).
  split.
  - constructor; try apply M; try apply M'.
    + intros q V Hq. pose proof (Hn q V Hq) as E. rewrite E. apply M'; [done|congruence].
    + intros q r Vq Vr Hq E. pose proof (Hn q Vq Hq). pose proof (Hn r Vr ltac:(congruence)). apply (mp_inj _ _ _ M'); congruence.
  - intros l Hl. pose proof (lpos_valid fs Hbits l Hl) as V. destruct (grown_nd T st ib st' ib' _ G V) as [[E E0]|E].
    + rewrite <- Hd by done. unfold disk, BmapWalk.fmap. by rewrite E, E0.
    + rewrite <- Hd' by done. unfold disk, BmapWalk.fmap. by rewrite E.
Qed.

(** * An open file *)

Section opened.
Context {S : Type} `{FileStoreLaws S}.
Implicit Types (s : S) (f : file) (F : Z -> Z).

(** The bytes are those of [F]; [full] says whether the buffer is filled. *)
Record opened (full : bool) f s (st : store) F : Prop := {
  op_rep : fs_rep s st;
  op_mapped : mapped st (i_block (f_inode f));
  op_sync : inodes st !! f_ino f = Some (f_inode f);
  op_blocks : by_blocks (f_inode f);
  op_magic : f_magic f = EXT2_ET_MAGIC_EXT2_FILE;
  op_ino : f_ino f <> 0;
  op_buf : Z.of_nat (length (f_buf f)) = 3 * BS /\ bytes_ok (f_buf f);
  op_dv : is_dirty f = true -> is_valid f = true;
  op_here : is_valid f = true -> in_file (f_blockno f) /\ f_physblock f = fmap st (i_block (f_inode f)) (f_blockno f);
  op_bytes : is_valid f = true -> full = true -> take (Z.to_nat BS) (f_buf f) = fblock F (f_blockno f);
  op_clean : is_valid f = true -> is_dirty f = false -> disk st (i_block (f_inode f)) (f_blockno f) = fblock F (f_blockno f);
  op_dirty : is_dirty f = true -> f_physblock f <> 0;
  op_rest : forall l, in_file l -> is_valid f = false \/ l <> f_blockno f -> disk st (i_block (f_inode f)) l = fblock F l }.

(** What calls on an open file leave as it is. *)
Definition same_file f f' : Prop := f_ino f' = f_ino f /\ f_pos f' = f_pos f /\ can_write f' = can_write f /\ f_inode f' = f_inode f.

Context (extent_bmap : S -> Z -> inode -> Z -> Z -> Z -> outcome (Z * Z * Z * Z * inode * S)).

Lemma buf_ok full f s st F : opened full f s st F -> buf_block fs f = Done (take (Z.to_nat BS) (f_buf f)) /\ blk_ok fs (take (Z.to_nat BS) (f_buf f)).
Proof using Hbits.
  intros O. destruct (op_buf _ _ _ _ _ O) as [Hl Hb]. pose proof bs_bounds. unfold buf_block. rewrite load_part by lia. split; [done|].
  split; [rewrite length_take; lia|by apply bytes_ok_take].
Qed.

Lemma file_flush_ok f s st F : opened true f s st F -> exists f' s' st', ext2fs_file_flush fs extent_bmap s f = Done (0, f', s') /\ opened true f' s' st' F /\
  frame (f_ino f) st (i_block (f_inode f)) st' (i_block (f_inode f)) /\ same_file f f' /\ f_blockno f' = f_blockno f /\ is_valid f' = is_valid f /\ is_dirty f' = false.
Proof using Hbits.
  intros O. unfold ext2fs_file_flush, bad_magic. rewrite (op_magic _ _ _ _ _ O), Z.eqb_refl. cbn [negb]. fold (is_valid f) (is_dirty f).
  assert (Hquiet : is_dirty f = false -> exists f' s' st', Done (0, f, s) = Done (0, f', s') /\ opened true f' s' st' F /\
    frame (f_ino f) st (i_block (f_inode f)) st' (i_block (f_inode f)) /\ same_file f f' /\ f_blockno f' = f_blockno f /\ is_valid f' = is_valid f /\ is_dirty f' = false).
  { intros Hd. exists f, s, st. split; [done|]. split; [done|]. split; [apply file_frame_refl|]. done. }
  destruct (is_dirty f) eqn:Hd; [|rewrite orb_true_r; by apply Hquiet]. clear Hquiet. rewrite (op_dv _ _ _ _ _ O Hd). cbn [negb orb].
  pose proof (op_dv _ _ _ _ _ O Hd) as Hv. pose proof (op_dirty _ _ _ _ _ O Hd) as Hp. destruct (op_here _ _ _ _ _ O Hv) as [Hin Ep].
  destruct (op_blocks _ _ _ _ _ O) as [-> _]. rewrite andb_false_r. cbn [obind]. change (0 =? 0) with true. cbn [negb]. rewrite (proj2 (Z.eqb_neq _ _) Hp). cbn [obind negb].
  destruct (buf_ok _ _ _ _ _ O) as [-> Hbok]. cbn [obind]. set (ib := i_block (f_inode f)) in *. set (b := take (Z.to_nat BS) (f_buf f)) in *.
  pose proof (op_mapped _ _ _ _ _ O) as M. fold ib in M. pose proof (lpos_valid fs Hbits _ Hin) as V.
  assert (Hn : nd st ib (lpos fs (f_blockno f)) <> 0) by (unfold BmapWalk.fmap in Ep; congruence).
  destruct (mp_node _ _ _ M _ V Hn) as [Hu [bs0 E0]]. destruct (mp_dev _ _ _ M _ _ E0) as [L0 _]. rewrite Ep. unfold BmapWalk.fmap.
  destruct (fs_write s st _ bs0 b (op_rep _ _ _ _ _ O) E0) as (s' & -> & R'); [destruct Hbok; lia|apply Hbok|]. cbn [obind]. change (0 =? 0) with true. cbn [negb].
  destruct (data_write st ib _ b M V (lpos_leaf _) Hn Hbok) as (En & M' & Fr). set (st' := with_block st _ b) in *.
  assert (Hdisk : forall l, in_file l -> disk st' ib l = if decide (l = f_blockno f) then b else disk st ib l).
  { intros l Hl. assert (El : fmap st' ib l = fmap st ib l) by (apply En; by apply (lpos_valid fs Hbits)). destruct (decide (l = f_blockno f)) as [->|Hne].
    - unfold disk. rewrite El. unfold BmapWalk.fmap. rewrite (proj2 (Z.eqb_neq _ _) Hn). cbn [dev with_block st']. by rewrite lookup_insert_eq.
    - apply disk_same; [done|]. intros Hz. cbn [dev with_block st']. apply lookup_insert_ne. intros E. apply Hne. symmetry. by apply (fmap_inj st ib). }
  eexists _, s', st'. split; [reflexivity|]. split.
  - constructor; cbn [f_inode f_ino f_magic f_buf f_blockno f_physblock set_f_flags]; try apply O; try done.
    + flag_bits.
    + intros _. split; [done|]. rewrite Ep. symmetry. by apply En.
    + intros _ _. by apply O.
    + intros _ _. fold ib. rewrite Hdisk, decide_True by done. by apply O.
    + intros l Hl Hw. fold ib. rewrite Hdisk by done. destruct (decide (l = f_blockno f)) as [->|Hne]; [by apply O|]. apply O; auto.
  - split; [apply Fr|]. split; [split; [done|]; split; [done|]; split; [flag_bits|done]|]. split; [done|]. split; flag_bits.
Qed.

Lemma opened_pos full f s st F x : opened full f s st F -> opened full (set_f_pos f x) s st F.
Proof using. intros []. by constructor. Qed.

Lemma opened_ext full f s st F G : opened full f s st F -> (forall p, F p = G p) -> opened full f s st G.
Proof using.
  intros O E. assert (Eb : forall l, fblock F l = fblock G l) by (intros l; apply fblock_ext; intros; apply E). destruct O as [? ? ? ? ? ? ? ? ? Hb Hc ? Hr]. constructor; try done.
  - intros. rewrite <- Eb. by apply Hb.
  - intros. rewrite <- Eb. by apply Hc.
  - intros. rewrite <- Eb. by apply Hr.
Qed.

(** Nothing of a file is only in its buffer. *)
Lemma opened_holds full f s st F : opened full f s st F -> is_dirty f = false -> holds st (i_block (f_inode f)) F.
Proof using.
  intros O Hd. split; [apply O|]. intros l Hl. destruct (decide (is_valid f = true /\ l = f_blockno f)) as [[Hv ->]|Hno]; [by apply O|].
  apply (op_rest _ _ _ _ _ O); [done|]. destruct (is_valid f); [right; intros ->; by apply Hno|by left].
Qed.

Lemma sync_ok f s st F : opened true f s st F -> exists f' s' st', sync_buffer_position fs extent_bmap s f = Done (0, f', s') /\ opened true f' s' st' F /\
  frame (f_ino f) st (i_block (f_inode f)) st' (i_block (f_inode f)) /\ same_file f f' /\ f_blockno f' = f_pos f / BS.
Proof using Hbits.
  intros O. unfold sync_buffer_position. destruct (Z.eqb_spec (f_pos f / BS) (f_blockno f)) as [E|Hne].
  - exists (set_f_blockno f (f_pos f / BS)), s, st. split; [done|]. split; [rewrite E; by destruct O; constructor|]. split; [apply file_frame_refl|]. done.
  - destruct (file_flush_ok f s st F O) as (f1 & s1 & st1 & -> & O1 & Fr & (Ei & Epo & Ew & En) & Eb & Ev & Ed). cbn [obind]. change (0 =? 0) with true. cbn [negb].
    eexists _, s1, st1. split; [reflexivity|]. split.
    + constructor; cbn [f_inode f_ino f_magic f_buf f_blockno f_physblock set_f_flags set_f_blockno]; try apply O1.
      * unfold is_dirty in Ed. cbn. flag_bits.
      * flag_bits.
      * flag_bits.
      * flag_bits.
      * flag_bits.
      * intros l Hl _. by apply (opened_holds _ _ _ _ _ O1).
    + split; [done|]. split; [|done]. split; [done|]. split; [done|]. split; [|done]. rewrite <- Ew. flag_bits.
Qed.

Lemma file_load_ok f s st F dontfill : opened true f s st F -> in_file (f_blockno f) ->
  exists f' s', load_buffer fs extent_bmap s f dontfill = Done (0, f', s') /\ opened (negb dontfill || is_valid f) f' s' st F /\ same_file f f' /\
    f_blockno f' = f_blockno f /\ is_valid f' = true.
Proof using Hbits.
  intros O Hin. unfold load_buffer. fold (is_valid f). destruct (is_valid f) eqn:Hv.
  { exists f, s. split; [done|]. rewrite orb_true_r. done. }
  rewrite orb_false_r. assert (Hd : is_dirty f = false) by (destruct (is_dirty f) eqn:Hd; [|done]; rewrite (op_dv _ _ _ _ _ O Hd) in Hv; done).
  unfold file_bmap, ext2fs_bmap2. pose proof (op_mapped _ _ _ _ _ O) as M.
  destruct (bmap_ok fs Hbits extent_bmap (f_blockno f) (f_ino f) s st (f_inode f) 0 (f_physblock f) Hin (op_blocks _ _ _ _ _ O) (op_rep _ _ _ _ _ O) M) as (r & b & i' & s1 & st1 & -> & B);
    [rewrite (op_sync _ _ _ _ _ O); eauto|done|done|]. cbn [obind default from_option id].
  destruct (bm_same _ _ _ _ _ _ _ _ _ _ _ B eq_refl) as [-> ->]. destruct (bm_end _ _ _ _ _ _ _ _ _ _ _ B) as [(-> & Eb & _)|(_ & _ & ? & _)]; [|done].
  change (0 =? 0) with true. cbn [negb f_physblock set_f_physblock]. change (has 0 BMAP_RET_UNINIT) with false. cbn [negb]. rewrite andb_true_r.
  pose proof (bm_rep _ _ _ _ _ _ _ _ _ _ _ B) as R1. pose proof (op_rest _ _ _ _ _ O _ Hin (or_introl Hv)) as Ed. destruct (op_buf _ _ _ _ _ O) as [Hl Hby]. pose proof bs_bounds.
  assert (Hgo : forall buf' s', fs_rep s' st -> Z.of_nat (length buf') = 3 * BS -> bytes_ok buf' -> (dontfill = false -> take (Z.to_nat BS) buf' = fblock F (f_blockno f)) ->
    let f' := set_f_flags (set_f_buf (set_f_physblock (set_f_inode f (f_inode f)) b) buf') (Z.lor (f_flags f) EXT2_FILE_BUF_VALID) in
    opened (negb dontfill) f' s' st F /\ same_file f f' /\ f_blockno f' = f_blockno f /\ is_valid f' = true).
  { intros buf' s' R' Hl' Hb' Hfill f'. split.
    - constructor; unfold f'; cbn [f_inode f_ino f_magic f_buf f_blockno f_physblock set_f_flags set_f_buf set_f_physblock set_f_inode]; try apply O; try done.
      + flag_bits.
      + intros _ Hn. apply Hfill. by destruct dontfill.
      + flag_bits.
      + intros l Hll _. apply O; auto.
    - split; [split; [done|]; split; [done|]; split; [unfold f'; flag_bits|done]|]. split; [done|]. unfold f'. flag_bits. }
  assert (Hfillz : forall block, length block = Z.to_nat BS -> bytes_ok block -> block = fblock F (f_blockno f) ->
    store_bytes (f_buf f) 0 block = Done (splice (f_buf f) 0 block) /\ Z.of_nat (length (splice (f_buf f) 0 block)) = 3 * BS /\ bytes_ok (splice (f_buf f) 0 block) /\
    take (Z.to_nat BS) (splice (f_buf f) 0 block) = fblock F (f_blockno f)).
  { intros block Hlen Hbb E. rewrite store_splice by lia. split; [done|]. rewrite length_splice by lia. split; [done|]. split; [by apply bytes_ok_splice|].
    rewrite <- E. pose proof (take_splice_end (f_buf f) 0 block ltac:(lia)) as Et. cbn [Nat.add] in Et. by rewrite Hlen in Et. }
  destruct dontfill; [|destruct (Z.eqb_spec b 0) as [Hz|Hnz]]; cbn [obind negb andb].
  - change (0 =? 0) with true. cbn [negb]. eexists _, s1. split; [reflexivity|]. by apply (Hgo (f_buf f) s1).
  - unfold disk in Ed. rewrite <- Eb, Hz in Ed. change (0 =? 0) with true in Ed. cbn iota in Ed.
    destruct (Hfillz (replicate (Z.to_nat BS) 0)) as (Es & Hl2 & Hb2 & Ht2); [by rewrite length_replicate|apply (file_zeros_ok fs Hbits)|done|].
    cbn [f_buf set_f_physblock set_f_inode]. rewrite Es. cbn [obind]. change (0 =? 0) with true. cbn [negb]. eexists _, s1. split; [reflexivity|]. by apply Hgo.
  - pose proof (disk_ok st _ _ M Hin) as [Hdo Hdl]. unfold disk in Ed, Hdo, Hdl. rewrite <- Eb, (proj2 (Z.eqb_neq _ _) Hnz) in Ed, Hdo, Hdl.
    destruct (dev st !! b) as [block|] eqn:Edev; [|cbn in Hdl; lia]. cbn in Ed, Hdo, Hdl. destruct (fs_read _ _ _ _ R1 Edev) as (s2 & -> & R2). cbn [obind]. change (0 =? 0) with true. cbn [negb].
    destruct (Hfillz block) as (Es & Hl2 & Hb2 & Ht2); [done|apply Hdo|done|].
    cbn [f_buf set_f_physblock set_f_inode]. rewrite Es. cbn [obind]. change (0 =? 0) with true. cbn [negb]. eexists _, s2. split; [reflexivity|]. by apply Hgo.
Qed.
End opened.
End spec.
