(* ===== verification/FileIoWrite.v ===== *)
(** Writing and reading a file: each turn of the loops, the loops, and growing the
    size. *)

From S2P Require Import Prelude Bitops BlockIo Bmap BmapSpec BmapGrow BmapWalk Punch FileIo FileIoSpec.

Local Open Scope Z_scope.

(** Some bytes at a position are replaced. *)
Definition put_bytes (F : Z -> Z) (pos : Z) (data : list Z) (p : Z) : Z :=
  if (pos <=? p) && (p <? pos + Z.of_nat (length data)) then default 0 (data !! Z.to_nat (p - pos)) else F p.

Lemma put_bytes_in F pos data p : pos <= p < pos + Z.of_nat (length data) -> Some (put_bytes F pos data p) = data !! Z.to_nat (p - pos).
Proof.
  intros Hp. unfold put_bytes. destruct (Z.leb_spec pos p), (Z.ltb_spec p (pos + Z.of_nat (length data))); try lia. cbn [andb].
  destruct (lookup_lt_is_Some_2 data (Z.to_nat (p - pos))) as [x E]; [lia|]. by rewrite E.
Qed.

Lemma put_bytes_out F pos data p : ~ (pos <= p < pos + Z.of_nat (length data)) -> put_bytes F pos data p = F p.
Proof. intros Hp. unfold put_bytes. by destruct (Z.leb_spec pos p), (Z.ltb_spec p (pos + Z.of_nat (length data))); try lia. Qed.

Lemma put_bytes_app F pos a b p : put_bytes (put_bytes F pos a) (pos + Z.of_nat (length a)) b p = put_bytes F pos (a ++ b) p.
Proof.
  destruct (decide (pos + Z.of_nat (length a) <= p < pos + Z.of_nat (length a) + Z.of_nat (length b))) as [Hb|Hb].
  - apply (inj Some). rewrite !put_bytes_in by (rewrite ?length_app; lia). rewrite lookup_app_r by lia. f_equal. lia.
  - rewrite put_bytes_out by done. destruct (decide (pos <= p < pos + Z.of_nat (length a))) as [Ha|Ha].
    + apply (inj Some). rewrite !put_bytes_in by (rewrite ?length_app; lia). by rewrite lookup_app_l by lia.
    + rewrite !put_bytes_out by (rewrite ?length_app; lia). done.
Qed.

Lemma put_bytes_nil F pos p : put_bytes F pos [] p = F p.
Proof. apply put_bytes_out. cbn. lia. Qed.

Section write.
Context (fs : filsys) (Hbits : 10 <= blocksize_bits fs <= 16).
Local Notation BS := (blocksize fs).
Local Notation in_file := (in_file fs).
Local Notation fblock := (fblock fs).
Context {S : Type} `{FileStoreLaws S}.
Implicit Types (s : S) (f : file) (F : Z -> Z).
Local Notation opened := (opened fs).
Local Notation frame := (frame fs).

Context (extent_bmap : S -> Z -> inode -> Z -> Z -> Z -> outcome (Z * Z * Z * Z * inode * S)).

(** A part of one block is replaced. *)
Lemma chunk_other F pos data l : 0 <= pos -> pos mod BS + Z.of_nat (length data) <= BS -> l <> pos / BS -> fblock (put_bytes F pos data) l = fblock F l.
Proof using Hbits.
  intros Hp Hl Hne. pose proof (bs_bounds fs Hbits). pose proof (Z_div_mod_eq_full pos BS). pose proof (Z.mod_pos_bound pos BS ltac:(lia)).
  apply fblock_ext. intros k Hk. apply put_bytes_out. intros Hin. apply Hne. assert (l * BS + k < (pos / BS + 1) * BS) by lia. assert (pos / BS * BS <= l * BS + k) by lia. nia.
Qed.

Lemma chunk_store F pos data buf full : 0 <= pos -> data <> [] -> pos mod BS + Z.of_nat (length data) <= BS -> Z.of_nat (length buf) = 3 * BS -> bytes_ok buf -> bytes_ok data ->
  (full = true -> take (Z.to_nat BS) buf = fblock F (pos / BS)) -> (full = false -> Z.of_nat (length data) = BS) ->
  exists b, store_bytes buf (pos mod BS) data = Done b /\ Z.of_nat (length b) = 3 * BS /\ bytes_ok b /\ take (Z.to_nat BS) b = fblock (put_bytes F pos data) (pos / BS).
Proof using Hbits.
  intros Hp Hne Hl Hlb Hbb Hbd Hfull Hpart. pose proof (bs_bounds fs Hbits). pose proof (Z_div_mod_eq_full pos BS). pose proof (Z.mod_pos_bound pos BS ltac:(lia)).
  rewrite store_splice by lia. eexists. split; [done|]. rewrite length_splice by lia. split; [done|]. split; [by apply bytes_ok_splice|].
  apply fblock_eq; [rewrite length_take, length_splice by lia; lia|]. intros k Hk. rewrite lookup_take_lt by done. rewrite lookup_splice by lia.
  destruct (decide (Z.to_nat (pos mod BS) <= k < Z.to_nat (pos mod BS) + length data)%nat) as [Hin|Hout].
  - rewrite put_bytes_in by lia. f_equal. lia.
  - rewrite put_bytes_out by lia. destruct full; [|specialize (Hpart eq_refl); lia]. rewrite <- (lookup_fblock fs F (pos / BS) k Hk), <- Hfull by done. by rewrite lookup_take_lt.
Qed.

(** What a write keeps of an open file. *)
Definition kept f f' : Prop := f_ino f' = f_ino f /\ can_write f' = can_write f /\ same_attr (f_inode f) (f_inode f').

Lemma kept_refl f : kept f f.
Proof using. done. Qed.

Lemma kept_trans f g h : kept f g -> kept g h -> kept f h.
Proof using. unfold kept, same_attr. intros (? & ? & ? & ? & ? & ?) (? & ? & ? & ? & ? & ?). repeat split; congruence. Qed.

Lemma same_kept f g : same_file f g -> kept f g.
Proof using. unfold same_file, kept, same_attr. intros (? & _ & ? & ->). done. Qed.

(** What is left of an open file when there is no block for its buffer: the blocks of
    its inode, and those of the inode on the device, hold what was written before. *)
Record half f s (st : store) F : Prop := {
  hf_rep : fs_rep s st;
  hf_holds : holds fs st (i_block (f_inode f)) F;
  hf_saved : exists i, inodes st !! f_ino f = Some i /\ same_attr (f_inode f) i /\ holds fs st (i_block i) F;
  hf_blocks : by_blocks (f_inode f);
  hf_magic : f_magic f = EXT2_ET_MAGIC_EXT2_FILE;
  hf_ino : f_ino f <> 0 }.

Lemma half_ext f s st F G : half f s st F -> (forall p, F p = G p) -> half f s st G.
Proof using.
  intros [R Hh (i & Ei & Ha & Hs) B M I] E. constructor; try done; [by apply (holds_ext _ _ _ F)|]. exists i. split; [done|]. split; [done|]. by apply (holds_ext _ _ _ F).
Qed.

Context (sha512 : list Z -> list Z) (Hshare : flag_share_dup fs = false).

(** [ext2fs_bmap2] has found no block. *)
Lemma no_block f s st F full : opened full f s st F -> is_valid f = true -> f_physblock f = 0 ->
  forall r x i' s1 st1 b flags, bmapped fs BMAP_ALLOC (f_blockno f) st (f_ino f) (f_inode f) r x s1 st1 i' -> r <> 0 ->
  half (set_f_physblock (set_f_inode (set_f_buf (set_f_flags f flags) b) i') x) s1 st1 F.
Proof using Hbits.
  intros O Hv Hph r x i' s1 st1 b flags B Hr. destruct (op_here _ _ _ _ _ _ O Hv) as [Hin Eph].
  assert (Hd : is_dirty f = false) by (destruct (is_dirty f) eqn:Hd; [by destruct (op_dirty _ _ _ _ _ _ O Hd)|done]).
  pose proof (opened_holds fs _ _ _ _ _ O Hd) as Hh. pose proof (bm_grown _ _ _ _ _ _ _ _ _ _ _ B) as Gr.
  assert (Hh' : holds fs st1 (i_block i') F) by (apply (grown_holds fs Hbits (f_blockno f) st (i_block (f_inode f))); [done|done|apply B|done|congruence]).
  pose proof (bm_attr _ _ _ _ _ _ _ _ _ _ _ B) as Ha. destruct (op_blocks _ _ _ _ _ _ O) as [Hb1 Hb2]. constructor; try apply B; try apply O; try done.
  - exists (f_inode f). cbn [f_ino f_inode set_f_physblock set_f_inode]. split; [rewrite (bm_fail _ _ _ _ _ _ _ _ _ _ _ B Hr); apply O|].
    split; [unfold same_attr in *; destruct Ha as (? & ? & ? & ?); repeat split; congruence|by apply (grown_back fs Hbits _ _ _ _ _ _ Hh Gr)].
  - destruct Ha as (_ & _ & _ & Efl). unfold by_blocks. cbn. by rewrite Efl.
Qed.

Lemma file_write_block_ok f s st F m data : opened (negb (Z.of_nat (length data) =? BS)) f s st F \/ opened true f s st F -> is_valid f = true -> f_physblock f = 0 ->
  f_blockno f = f_pos f / BS -> 0 <= f_pos f -> data <> [] -> f_pos f mod BS + Z.of_nat (length data) <= BS -> bytes_ok data ->
  exists b, store_bytes (f_buf f) (f_pos f mod BS) data = Done b /\
  let f1 := set_f_buf (set_f_flags f (Z.lor (f_flags f) EXT2_FILE_BUF_DIRTY)) b in
  exists r f' s' st', write_block fs extent_bmap sha512 s f1 m = Done (r, f', m, s') /\ f_pos f' = f_pos f /\ kept f f' /\
    frame (f_ino f) st (i_block (f_inode f)) st' (i_block (f_inode f')) /\
    (r = 0 /\ opened true f' s' st' (put_bytes F (f_pos f) data) \/ r <> 0 /\ full st' /\ half f' s' st' F).
Proof using Hbits Hshare.
  intros Ho Hv Hph Hbn Hp Hne Hl Hbd.
  assert (exists full, opened full f s st F /\ (full = false -> Z.of_nat (length data) = BS)) as (full & O & Hpart).
  { destruct Ho as [O|O]; [|exists true; done]. eexists. split; [exact O|]. by destruct (Z.eqb_spec (Z.of_nat (length data)) BS). }
  clear Ho. destruct (op_buf _ _ _ _ _ _ O) as [Hlb Hbb]. destruct (op_here _ _ _ _ _ _ O Hv) as [Hin Eph].
  destruct (chunk_store F (f_pos f) data (f_buf f) full Hp Hne Hl Hlb Hbb Hbd) as (b & Es & Hlb' & Hbb' & Et); [rewrite <- Hbn; by apply O|done|].
  exists b. split; [done|]. intros f1. unfold write_block. rewrite Hshare. pose proof (bs_bounds fs Hbits).
  subst f1. unfold buf_block. cbn [f_buf f_ino set_f_buf set_f_flags]. rewrite load_part by lia. cbn [obind]. rewrite (proj2 (Z.eqb_neq _ _) (op_ino _ _ _ _ _ _ O)).
  unfold file_bmap, ext2fs_bmap2. cbn [f_ino f_inode f_blockno f_physblock set_f_buf set_f_flags]. pose proof (op_mapped _ _ _ _ _ _ O) as M.
  destruct (bmap_ok fs Hbits extent_bmap (f_blockno f) (f_ino f) s st (f_inode f) BMAP_ALLOC (f_physblock f) Hin (op_blocks _ _ _ _ _ _ O) (op_rep _ _ _ _ _ _ O) M)
    as (r & x & i' & s1 & st1 & -> & B); [rewrite (op_sync _ _ _ _ _ _ O); eauto|done|done|]. cbn [obind default from_option id].
  assert (Hfr : frame (f_ino f) st (i_block (f_inode f)) st1 (i_block i')) by (apply (grown_frame fs _ _ _ _ _ _ (bm_grown _ _ _ _ _ _ _ _ _ _ _ B)); apply B).
  destruct (bm_end _ _ _ _ _ _ _ _ _ _ _ B) as [(-> & Ex & Hx)|(Hr & _ & _ & Hf)]; cbn [negb].
  2: { rewrite (proj2 (Z.eqb_neq _ _) Hr). cbn [negb]. exists r. do 3 eexists. split; [reflexivity|]. split; [done|]. split; [split; [done|]; split; [cbn; flag_bits|apply B]|].
       split; [exact Hfr|right]. split; [done|]. split; [done|]. by apply (no_block f s st F full O Hv Hph _ _ _ _ _ _ _ B). }
  change (0 =? 0) with true. cbn [negb]. change (has BMAP_ALLOC BMAP_SET) with false. cbn iota. specialize (Hx eq_refl).
  exists 0. do 3 eexists. split; [reflexivity|]. split; [done|]. split; [split; [done|]; split; [cbn; flag_bits|apply B]|]. split; [exact Hfr|]. left. split; [done|].
  pose proof (bm_attr _ _ _ _ _ _ _ _ _ _ _ B) as Ha. destruct (op_blocks _ _ _ _ _ _ O) as [Hb1 Hb2].
  constructor; cbn [f_inode f_ino f_magic f_buf f_blockno f_physblock set_f_flags set_f_buf set_f_physblock set_f_inode].
  - apply B.
  - apply B.
  - apply (bm_sync _ _ _ _ _ _ _ _ _ _ _ B); [apply O|done].
  - split; destruct Ha as (_ & _ & _ & ->); done.
  - apply O.
  - apply O.
  - done.
  - flag_bits.
  - intros _. done.
  - intros _ _. rewrite Hbn. done.
  - flag_bits.
  - done.
  - intros l Hll [Hw|Hw]; [exfalso; revert Hw; flag_bits|]. destruct (grown_disk fs Hbits (f_blockno f) l st _ st1 _ M (bm_grown _ _ _ _ _ _ _ _ _ _ _ B) Hin Hll Hw) as [_ ->].
    rewrite (op_rest _ _ _ _ _ _ O l Hll (or_intror Hw)). symmetry. apply chunk_other; [done|done|congruence].
Qed.

Lemma overwrite_ok f s st F data : opened (negb (Z.of_nat (length data) =? BS)) f s st F \/ opened true f s st F -> is_valid f = true -> f_physblock f <> 0 ->
  f_blockno f = f_pos f / BS -> 0 <= f_pos f -> data <> [] -> f_pos f mod BS + Z.of_nat (length data) <= BS -> bytes_ok data ->
  exists b, store_bytes (f_buf f) (f_pos f mod BS) data = Done b /\
    opened true (set_f_buf (set_f_flags f (Z.lor (f_flags f) EXT2_FILE_BUF_DIRTY)) b) s st (put_bytes F (f_pos f) data).
Proof using Hbits.
  intros Ho Hv Hph Hbn Hp Hne Hl Hbd.
  assert (exists full, opened full f s st F /\ (full = false -> Z.of_nat (length data) = BS)) as (full & O & Hpart).
  { destruct Ho as [O|O]; [|exists true; done]. eexists. split; [exact O|]. by destruct (Z.eqb_spec (Z.of_nat (length data)) BS). }
  clear Ho. destruct (op_buf _ _ _ _ _ _ O) as [Hlb Hbb].
  destruct (chunk_store F (f_pos f) data (f_buf f) full Hp Hne Hl Hlb Hbb Hbd) as (b & Es & Hlb' & Hbb' & Et); [rewrite <- Hbn; by apply O|done|].
  exists b. split; [done|]. constructor; cbn [f_inode f_ino f_magic f_buf f_blockno f_physblock set_f_flags set_f_buf]; [apply O..|done| | | | |done|].
  - flag_bits.
  - intros _. by apply O.
  - intros _ _. by rewrite Hbn.
  - flag_bits.
  - intros l Hll [Hw|Hw]; [exfalso; revert Hw; flag_bits|]. rewrite (op_rest _ _ _ _ _ _ O l Hll (or_intror Hw)). symmetry. apply chunk_other; [done|done|congruence].
Qed.

(** The positions that blocks can be found for. *)
Definition fits (n : Z) : Prop := n <= 0 \/ in_file ((n - 1) / BS).

Lemma in_file_le l m : in_file m -> 0 <= l <= m -> in_file l.
Proof using. unfold BmapWalk.in_file. lia. Qed.

Lemma fits_bound n : fits n -> n <= 2 ^ 48.
Proof using Hbits.
  pose proof (bs_bounds fs Hbits). intros [Hn|[Hn1 Hn2]]; [lia|]. pose proof (Z_div_mod_eq_full (n - 1) BS). pose proof (Z.mod_pos_bound (n - 1) BS ltac:(lia)). nia.
Qed.

Lemma fits_in n p : fits n -> 0 <= p < n -> in_file (p / BS).
Proof using Hbits.
  pose proof (bs_bounds fs Hbits). intros [Hn|Hn] Hp; [lia|]. apply (in_file_le _ ((n - 1) / BS)); [done|]. split; [apply Z.div_pos; lia|]. apply Z.div_le_mono; lia.
Qed.

(** The loop has stopped after [n] bytes; if there are any, at the end of a block. *)
Definition stopped (pos : Z) F (data : list Z) (n : Z) f s st : Prop :=
  0 <= n < Z.of_nat (length data) /\ f_pos f = pos + n /\ (n = 0 \/ f_pos f mod BS = 0) /\ half f s st (put_bytes F pos (take (Z.to_nat n) data)).

Lemma stopped_next pos F data c n f s st : c = Z.min (BS - pos mod BS) (Z.of_nat (length data)) -> 0 < c ->
  stopped (pos + c) (put_bytes F pos (take (Z.to_nat c) data)) (drop (Z.to_nat c) data) (n - c) f s st -> stopped pos F data n f s st.
Proof using Hbits.
  intros Ec Hc (Hn & Ep & Hal & Hh). pose proof (bs_bounds fs Hbits). rewrite length_drop in Hn. split; [lia|]. split; [lia|]. split.
  - right. destruct Hal as [Hz|]; [|done]. rewrite Ep. replace (pos + c + (n - c)) with (pos + (BS - pos mod BS)) by lia.
    pose proof (Z_div_mod_eq_full pos BS) as Ed. replace (pos + (BS - pos mod BS)) with ((pos / BS + 1) * BS) by lia. apply Z.mod_mul. lia.
  - apply (half_ext _ _ _ _ _ Hh). intros p. replace (pos + c) with (pos + Z.of_nat (length (take (Z.to_nat c) data))) by (rewrite length_take; lia).
    rewrite put_bytes_app. f_equal. replace (Z.to_nat n) with (Z.to_nat c + Z.to_nat (n - c))%nat by lia. by rewrite <- take_take_drop.
Qed.

Lemma file_write_loop_ok fuel : forall f s st F m data count, (length data < fuel)%nat -> opened true f s st F -> 0 <= f_pos f -> fits (f_pos f + Z.of_nat (length data)) -> bytes_ok data ->
  exists r n f' s' st', write_loop fs extent_bmap sha512 fuel s f m data count = Done (r, n, f', m, s') /\ kept f f' /\
    frame (f_ino f) st (i_block (f_inode f)) st' (i_block (f_inode f')) /\
    (r = 0 /\ n = count + Z.of_nat (length data) /\ f_pos f' = f_pos f + Z.of_nat (length data) /\ opened true f' s' st' (put_bytes F (f_pos f) data) \/ r <> 0 /\ full st' /\ stopped (f_pos f) F data (n - count) f' s' st').
Proof using Hbits Hshare.
  induction fuel as [|fuel IH]; intros f s st F m data count Hf O Hp Hfit Hbd; [lia|]. cbn [write_loop].
  destruct data as [|x data'].
  { exists 0, count, f, s, st. split; [done|]. split; [done|]. split; [apply file_frame_refl|]. left. cbn. split; [done|]. split; [lia|]. split; [lia|]. apply (opened_ext fs _ _ _ _ _ _ O). intros p. by rewrite put_bytes_nil. }
  remember (x :: data') as data eqn:Edata. assert (Hne : data <> []) by congruence. assert (Hlen : (0 < length data)%nat) by (subst data; cbn; lia). clear x data' Edata.
  pose proof (bs_bounds fs Hbits). pose proof (Z.mod_pos_bound (f_pos f) BS ltac:(lia)) as Hmod. pose proof (fits_bound _ Hfit) as Hbnd.
  destruct (sync_ok fs Hbits extent_bmap f s st F O) as (f1 & s1 & st1 & -> & O1 & Fr1 & (Ei & Ep & Ew & En) & Eb). cbn [obind]. change (0 =? 0) with true. cbn [negb]. rewrite Ep.
  assert (Hin : in_file (f_pos f / BS)) by (apply (fits_in _ _ Hfit); lia). rewrite <- Eb in Hin.
  set (c := Z.min (BS - f_pos f mod BS) (Z.of_nat (length data))). assert (Hc : 0 < c <= BS - f_pos f mod BS /\ c <= Z.of_nat (length data)) by (unfold c; lia).
  assert (Ec : c = Z.min (BS - f_pos f mod BS) (Z.of_nat (length data))) by done.
  destruct (file_load_ok fs Hbits extent_bmap f1 s1 st1 F (c =? BS) O1 Hin) as (f2 & s2 & -> & O2 & (Ei2 & Ep2 & Ew2 & En2) & Eb2 & Hv2). cbn [obind]. change (0 =? 0) with true. cbn [negb].
  set (chunk := take (Z.to_nat c) data). assert (Hlc : Z.of_nat (length chunk) = c) by (unfold chunk; rewrite length_take; lia).
  assert (Hcne : chunk <> []) by (intros E; rewrite E in Hlc; cbn in Hlc; lia). assert (Hcb : bytes_ok chunk) by (by apply bytes_ok_take).
  assert (Ho : opened (negb (Z.of_nat (length chunk) =? BS)) f2 s2 st1 F \/ opened true f2 s2 st1 F).
  { rewrite Hlc. destruct (is_valid f1); [right; by rewrite orb_true_r in O2|left; by rewrite orb_false_r in O2]. }
  cbn [f_buf set_f_flags]. replace (f_pos f) with (f_pos f2) in * by congruence.
  assert (Hkeep : kept f f2) by (split; [congruence|]; split; [congruence|]; rewrite En2, En; done).
  assert (Hnext : forall f3 s3 st3, kept f f3 -> f_pos f3 = f_pos f2 -> frame (f_ino f) st (i_block (f_inode f)) st3 (i_block (f_inode f3)) -> opened true f3 s3 st3 (put_bytes F (f_pos f2) chunk) ->
    exists r n f' s' st', write_loop fs extent_bmap sha512 fuel s3 (set_f_pos f3 (u64 (f_pos f3 + c))) m (drop (Z.to_nat c) data) (count + c) = Done (r, n, f', m, s') /\ kept f f' /\
      frame (f_ino f) st (i_block (f_inode f)) st' (i_block (f_inode f')) /\
      (r = 0 /\ n = count + Z.of_nat (length data) /\ f_pos f' = f_pos f2 + Z.of_nat (length data) /\ opened true f' s' st' (put_bytes F (f_pos f2) data) \/ r <> 0 /\ full st' /\ stopped (f_pos f2) F data (n - count) f' s' st')).
  { intros f3 s3 st3 K3 E3 Fr3 O3. rewrite E3. replace (u64 (f_pos f2 + c)) with (f_pos f2 + c) by (unfold u64; rewrite Z.mod_small; lia).
    destruct (IH (set_f_pos f3 (f_pos f2 + c)) s3 st3 (put_bytes F (f_pos f2) chunk) m (drop (Z.to_nat c) data) (count + c)) as (r & n & f' & s' & st' & -> & K' & Fr' & Hend);
      [rewrite length_drop; lia|by apply opened_pos|cbn; lia|cbn; rewrite length_drop; replace (f_pos f2 + c + Z.of_nat (length data - Z.to_nat c)) with (f_pos f2 + Z.of_nat (length data)) by lia; done|by apply bytes_ok_drop|].
    cbn [f_pos f_ino f_inode set_f_pos] in *. exists r, n, f', s', st'. split; [done|]. split; [by apply (kept_trans _ _ _ K3)|].
    split; [apply (file_frame_trans fs _ _ _ _ _ _ _ Fr3); destruct K3 as [<- _]; done|]. rewrite length_drop in Hend. destruct Hend as [(-> & -> & -> & O')|(Hr & Hfl & Hst)]; [left|right].
    2: { split; [done|]. split; [done|]. apply (stopped_next (f_pos f2) F data c (n - count) f' s' st'); [done|lia|]. replace (n - count - c) with (n - (count + c)) by lia. exact Hst. }
    split; [done|]. split; [lia|]. split; [lia|]. apply (opened_ext fs _ _ _ _ _ _ O'). intros p. replace (f_pos f2 + c) with (f_pos f2 + Z.of_nat (length chunk)) by lia.
    rewrite put_bytes_app. unfold chunk. by rewrite take_drop. }
  assert (Fr1' : frame (f_ino f) st (i_block (f_inode f)) st1 (i_block (f_inode f2))) by (by rewrite En2, En).
  destruct (Z.eqb_spec (f_physblock f2) 0) as [Hph|Hph].
  - destruct (file_write_block_ok f2 s2 st1 F m chunk Ho Hv2 Hph ltac:(congruence) Hp Hcne ltac:(lia) Hcb) as (b & -> & r & f3 & s3 & st3 & Ewb & E3 & K3 & Fr3 & Hend). cbn [obind].
    cbn [f_physblock set_f_buf set_f_flags]. rewrite Hph. change (0 =? 0) with true. cbn iota. rewrite Ewb. cbn [obind]. pose proof (kept_trans _ _ _ Hkeep K3) as K.
    assert (Fr : frame (f_ino f) st (i_block (f_inode f)) st3 (i_block (f_inode f3))) by (apply (file_frame_trans fs _ _ _ _ _ _ _ Fr1'); destruct Hkeep as [<- _]; done).
    destruct Hend as [[-> O3]|(Hr & Hfull & Hh)]; [change (0 =? 0) with true; cbn [negb]; by apply (Hnext f3 s3 st3)|].
    rewrite (proj2 (Z.eqb_neq _ _) Hr). cbn [negb]. exists r, count, f3, s3, st3. split; [done|]. split; [done|]. split; [done|]. right. split; [done|]. split; [done|].
    rewrite Z.sub_diag. split; [lia|]. split; [lia|]. split; [by left|]. apply (half_ext _ _ _ _ _ Hh). intros p. by rewrite put_bytes_nil.
  - destruct (overwrite_ok f2 s2 st1 F chunk Ho Hv2 Hph ltac:(congruence) Hp Hcne ltac:(lia) Hcb) as (b & -> & O3). cbn [obind]. cbn [f_physblock set_f_buf set_f_flags].
    rewrite (proj2 (Z.eqb_neq _ _) Hph). cbn [obind]. change (0 =? 0) with true. cbn [negb]. apply (Hnext _ s2 st1); [|done|done|done].
    destruct Hkeep as (? & ? & ?). split; [done|]. split; [|done]. rewrite <- H4. cbn. flag_bits.
Qed.
End write.
