(* ===== verification/FileIoSize.v ===== *)
(** The size of a file, and reading it. *)

From S2P Require Import Prelude Bitops BlockIo Bmap BmapSpec BmapGrow BmapWalk Punch FileIo FileIoSpec FileIoWrite.

Local Open Scope Z_scope.

Lemma i_size_set i n : 0 <= n < 2 ^ 64 -> EXT2_I_SIZE (set_i_size i (Z.land n 0xffffffff) (u32 (Z.shiftr n 32))) = n.
Proof.
  intros Hn. unfold EXT2_I_SIZE. cbn [i_size i_size_high set_i_size]. rewrite u32_small by (unfold is_u32; rewrite Z.shiftr_div_pow2 by lia; split; [apply Z.div_pos; lia|apply Z.div_lt_upper_bound; lia]).
  change 0xffffffff with (Z.ones 32). apply Z.bits_inj'. intros k Hk. rewrite Z.lor_spec, Z.land_spec, Z.testbit_ones_nonneg by lia.
  destruct (Z.ltb_spec k 32).
  - rewrite Z.shiftl_spec_low by lia. rewrite andb_true_r. apply orb_false_r.
  - rewrite Z.shiftl_spec, Z.shiftr_spec by lia. rewrite andb_false_r. cbn [orb]. f_equal. lia.
Qed.

Section size.
Context (fs : filsys) (Hbits : 10 <= blocksize_bits fs <= 16).
Local Notation BS := (blocksize fs).
Local Notation in_file := (in_file fs).
Local Notation fblock := (fblock fs).
Context {S : Type} `{FileStoreLaws S}.
Implicit Types (s : S) (f : file) (F : Z -> Z).
Local Notation opened := (opened fs).
Local Notation frame := (frame fs).
Local Notation fits := (fits fs).

Context (extent_bmap : S -> Z -> inode -> Z -> Z -> Z -> outcome (Z * Z * Z * Z * inode * S)).

(** Zeros behind the end are already there. *)
Lemma zero_tail F l off : 0 < off < BS -> (forall k, off <= k < BS -> F (l * BS + k) = 0) -> splice (fblock F l) (Z.to_nat off) (replicate (Z.to_nat (BS - off)) 0) = fblock F l.
Proof using.
  intros Ho Hz. apply fblock_eq; [rewrite length_splice by (rewrite length_fblock, length_replicate; lia); apply length_fblock|]. intros k Hk.
  rewrite lookup_splice by (rewrite length_fblock, length_replicate; lia). rewrite length_replicate. case_decide as Hd.
  - rewrite lookup_replicate_2 by lia. f_equal. symmetry. apply Hz. lia.
  - by rewrite lookup_fblock.
Qed.

Lemma zero_end_ok f s st i n : fs_rep s st -> mapped fs st (i_block i) -> inodes st !! f_ino f = Some i -> by_blocks i -> 0 <= n -> fits n -> n mod BS <> 0 ->
  in_file (n / BS) /\ exists s' st', zero_block_end fs extent_bmap s f (n mod BS) (u64 (n / BS)) = Done (0, s') /\ fs_rep s' st' /\
    (st' = st \/ exists bs0, let ib := i_block i in let b := fmap fs st ib (n / BS) in let nb := splice bs0 (Z.to_nat (n mod BS)) (replicate (Z.to_nat (BS - n mod BS)) 0) in
       b <> 0 /\ dev st !! b = Some bs0 /\ blk_ok fs nb /\ st' = with_block st b nb).
Proof using Hbits.
  intros R M Hi Hb Hn Hfit Hoff. pose proof (bs_bounds fs Hbits). pose proof (Z.mod_pos_bound n BS ltac:(lia)) as Hmod. pose proof (Z_div_mod_eq_full n BS) as En.
  assert (Hin : in_file (n / BS)).
  { replace (n / BS) with ((n - 1) / BS); [destruct Hfit; [exfalso; apply Hoff; assert (n = 0) as -> by lia; by apply Z.mod_0_l; lia|done]|].
    symmetry. apply (Z.div_unique_pos _ _ _ (n mod BS - 1)); lia. }
  split; [done|]. assert (Hq : 0 <= n / BS < 2 ^ 64) by (destruct Hin; lia). unfold zero_block_end, u64. rewrite (Z.mod_small (n / BS)) by done.
  unfold ext2fs_bmap2. destruct (fs_get_inode _ _ _ _ R Hi) as (s2 & -> & R2). cbn [obind].
  destruct (bmap_ok fs Hbits extent_bmap (n / BS) (f_ino f) s2 st i 0 0 Hin Hb R2 M) as (r & b & i' & s3 & st3 & -> & B); [eauto|done|done|]. cbn [obind].
  destruct (bm_same _ _ _ _ _ _ _ _ _ _ _ B eq_refl) as [-> ->].
  destruct (bm_end _ _ _ _ _ _ _ _ _ _ _ B) as [(-> & Ebl & _)|(_ & _ & ? & _)]; [|done]. pose proof (bm_rep _ _ _ _ _ _ _ _ _ _ _ B) as R3.
  change (0 =? 0) with true. cbn [negb]. change (has 0 BMAP_RET_UNINIT) with false. rewrite orb_false_r.
  destruct (Z.eqb_spec b 0) as [_|Hb0]; [exists s3, st; split; [done|]; split; [done|by left]|]. pose proof (lpos_valid fs Hbits _ Hin) as V.
  rewrite Ebl in Hb0. destruct (mp_node _ _ _ M _ V Hb0) as [Hu [bs0 E0]]. destruct (mp_dev _ _ _ M _ _ E0) as [L0 B0]. fold (fmap fs st (i_block i) (n / BS)) in E0. rewrite Ebl.
  destruct (fs_read _ _ _ _ R3 E0) as (s4 & -> & R4). cbn [obind]. change (0 =? 0) with true. cbn [negb].
  rewrite store_splice by (rewrite ?length_replicate; lia). cbn [obind]. set (nb := splice bs0 (Z.to_nat (n mod BS)) (replicate (Z.to_nat (BS - n mod BS)) 0)).
  assert (El : length nb = length bs0) by (unfold nb; apply length_splice; rewrite length_replicate; lia).
  assert (Hnb : blk_ok fs nb) by (split; [lia|]; apply bytes_ok_splice; [done|]; apply Forall_replicate; unfold is_u8; lia).
  destruct (fs_write _ _ _ _ nb R4 E0) as (s5 & -> & R5); [done|apply Hnb|]. exists s5, (with_block st (fmap fs st (i_block i) (n / BS)) nb). split; [done|]. split; [done|]. right. exists bs0. done.
Qed.

Lemma zero_past_ok f s st F n : opened true f s st F -> 0 <= n -> fits n -> (forall p, n <= p -> F p = 0) ->
  exists f' s' st', ext2fs_file_zero_past_offset fs extent_bmap s f n = Done (0, f', s') /\ opened true f' s' st' F /\
    frame (f_ino f) st (i_block (f_inode f)) st' (i_block (f_inode f)) /\ same_file f f'.
Proof using Hbits.
  intros O Hn Hfit Hz. unfold ext2fs_file_zero_past_offset. pose proof (bs_bounds fs Hbits). rewrite Z.rem_mod_nonneg, Z.quot_div_nonneg by lia.
  pose proof (Z.mod_pos_bound n BS ltac:(lia)) as Hmod. pose proof (Z_div_mod_eq_full n BS) as En.
  destruct (Z.eqb_spec (n mod BS) 0) as [_|Hoff]; [exists f, s, st; split; [done|]; split; [done|]; split; [apply file_frame_refl|done]|].
  destruct (sync_ok fs Hbits extent_bmap f s st F O) as (f1 & s1 & st1 & -> & O1 & Fr1 & (Ei & Ep & Ew & Eno) & Eb). cbn [obind]. change (0 =? 0) with true. cbn [negb].
  pose proof (op_mapped _ _ _ _ _ _ O1) as M.
  destruct (zero_end_ok f1 s1 st1 (f_inode f1) n (op_rep _ _ _ _ _ _ O1) M (op_sync _ _ _ _ _ _ O1) (op_blocks _ _ _ _ _ _ O1) Hn Hfit Hoff) as (Hin & s5 & st5 & -> & R5 & Hst). cbn [obind].
  assert (Hsame : same_file f f1) by done. exists f1, s5, st5. split; [done|]. destruct Hst as [->|(bs0 & Hb & E0 & Hnb & Est)].
  { split; [destruct O1; by constructor|done]. }
  pose proof (lpos_valid fs Hbits _ Hin) as V. set (ib := i_block (f_inode f1)) in *. cbv zeta in *. set (nb := splice bs0 _ _) in *.
  destruct (data_write fs Hbits st1 ib _ nb M V (lpos_leaf fs _) Hb Hnb) as (Enn & M5 & Fr5). fold (fmap fs st1 ib (n / BS)) in Enn, M5, Fr5. rewrite <- Est in Enn, M5, Fr5.
  assert (Hdev : forall c, c <> fmap fs st1 ib (n / BS) -> dev st5 !! c = dev st1 !! c) by (intros c Hc; subst st5; cbn [dev with_block]; by rewrite lookup_insert_ne by congruence).
  assert (Hdevb : dev st5 !! fmap fs st1 ib (n / BS) = Some nb) by (subst st5; cbn [dev with_block]; by rewrite lookup_insert_eq).
  assert (Hdisk : forall l, in_file l -> is_valid f1 = false \/ l <> f_blockno f1 \/ is_dirty f1 = false -> disk fs st5 ib l = disk fs st1 ib l).
  { intros l Hl Hw. assert (Ef : fmap fs st5 ib l = fmap fs st1 ib l) by (apply Enn; by apply (lpos_valid fs Hbits)). apply disk_same; [done|]. destruct (decide (l = n / BS)) as [->|Hne].
    - assert (Ed : disk fs st1 ib (n / BS) = fblock F (n / BS)).
      { destruct (decide (is_valid f1 = true /\ n / BS = f_blockno f1)) as [[Hv Eq]|Hno]; [rewrite Eq; apply O1; [done|destruct Hw as [?|[?|?]]; congruence]|].
        apply (op_rest _ _ _ _ _ _ O1); [done|]. destruct (is_valid f1); [right; intros ?; by apply Hno|by left]. }
      assert (Ebs : bs0 = fblock F (n / BS)) by (rewrite <- Ed; unfold disk; rewrite (proj2 (Z.eqb_neq _ _) Hb), E0; done).
      assert (Enb : nb = bs0) by (unfold nb; rewrite Ebs; apply zero_tail; [lia|]; intros k Hk; apply Hz; lia).
      intros _. by rewrite Hdevb, E0, Enb.
    - intros Hzl. apply Hdev. intros E. apply Hne. by apply (fmap_inj fs Hbits st1 ib). }
  split.
  - constructor; try apply O1; try done.
    + subst st5. apply O1.
    + intros Hv. destruct (op_here _ _ _ _ _ _ O1 Hv) as [Hi1 ->]. split; [done|]. symmetry. apply Enn. by apply (lpos_valid fs Hbits).
    + intros Hv Hd. fold ib. rewrite Hdisk; [by apply O1|by apply O1|by right; right].
    + intros l Hl Hw. fold ib. rewrite Hdisk; [by apply O1|done|tauto].
  - split; [|done]. apply (file_frame_trans fs _ _ _ _ _ _ _ Fr1). unfold ib in *. rewrite Eno in *. apply Fr5.
Qed.

(** The blocks a size needs. *)
Lemma blocks_of n : 0 <= n < 2 ^ 63 -> Z.shiftr (n + BS - 1) (blocksize_bits fs) = (n + BS - 1) / BS.
Proof using Hbits. intros Hn. rewrite Z.shiftr_div_pow2 by lia. done. Qed.

Context (punch_extent : S -> Z -> inode -> Z -> Z -> outcome (Z * inode * S)) (ea_remove : S -> Z -> outcome (Z * S)).

Definition big_ok (i : inode) (n : Z) : Prop := n < 2 ^ 31 \/ LINUX_S_ISREG (i_mode i) = true.

Lemma size_set_ok s st i n : fs_rep s st -> 0 <= n -> big_ok i n ->
  exists s', ext2fs_inode_size_set s i n = Done (0, set_i_size i (Z.land n 0xffffffff) (u32 (Z.shiftr n 32)), s') /\ fs_rep s' st.
Proof using.
  intros R Hn Hbig. unfold ext2fs_inode_size_set, ext2fs_needs_large_file_feature. destruct (Z.ltb_spec n 0); [lia|]. destruct (Z.leb_spec 0x80000000 n).
  - destruct Hbig as [|Hreg]; [lia|]. rewrite Hreg. destruct (fs_large s st true R) as (s' & -> & R'). cbn [obind]. eauto.
  - eauto.
Qed.

(** The checks at the start and at the end of [ext2fs_file_set_size2] when the size is
    not lowered. *)
Lemma size_begin f n : f_magic f = EXT2_ET_MAGIC_EXT2_FILE -> by_blocks (f_inode f) -> 0 <= EXT2_I_SIZE (f_inode f) <= n -> fits n -> forall s,
  ext2fs_file_set_size2 fs extent_bmap punch_extent ea_remove s f n =
  let* (retval, i, s) := ext2fs_inode_size_set s (f_inode f) n in
  let f := set_f_inode f i in
  if negb (retval =? 0) then Done (retval, f, s)
  else
    let* (retval, s) := if f_ino f =? 0 then Done (0, s) else write_inode s (f_ino f) (f_inode f) in
    if negb (retval =? 0) then Done (retval, f, s)
    else
      let* (retval, f, s) := ext2fs_file_zero_past_offset fs extent_bmap s f n in
      if negb (retval =? 0) then Done (retval, f, s) else Done (0, f, s).
Proof using Hbits.
  intros Hm Hb Hsz Hfit s. unfold ext2fs_file_set_size2, bad_magic. rewrite Hm, Z.eqb_refl. cbn [negb]. pose proof (bs_bounds fs Hbits).
  pose proof (fits_bound fs Hbits n Hfit) as Hbnd.
  assert (Htb : negb (n =? 0) && ext2fs_file_block_offset_too_big fs (f_inode f) (u64 (Z.quot (n - 1) BS)) = false).
  { destruct (Z.eqb_spec n 0) as [|Hn0]; [done|]. rewrite Z.quot_div_nonneg by lia. destruct Hfit as [|Hin]; [lia|]. assert (0 <= (n - 1) / BS < 2 ^ 64) by (destruct Hin; lia).
    unfold u64. rewrite (Z.mod_small ((n - 1) / BS)) by done. rewrite (too_big fs) by (done || lia). by rewrite bool_decide_true. }
  rewrite Htb. assert (Hs64 : s64 (EXT2_I_SIZE (f_inode f)) = EXT2_I_SIZE (f_inode f)) by (unfold s64; rewrite Z.mod_small by lia; destruct (Z.leb_spec (2 ^ 63) (EXT2_I_SIZE (f_inode f))); lia).
  rewrite Hs64, !blocks_of by lia. assert (Hle : (EXT2_I_SIZE (f_inode f) + BS - 1) / BS <= (n + BS - 1) / BS) by (apply Z.div_le_mono; lia).
  assert (H0a : 0 <= (EXT2_I_SIZE (f_inode f) + BS - 1) / BS) by (apply Z.div_pos; lia). assert (H0b : (n + BS - 1) / BS < 2 ^ 64) by (apply Z.div_lt_upper_bound; lia).
  unfold u64. rewrite !(Z.mod_small (_ / _)) by lia. destruct (Z.leb_spec ((EXT2_I_SIZE (f_inode f) + BS - 1) / BS) ((n + BS - 1) / BS)); [|lia]. done.
Qed.

Lemma set_size_ok f s st F n : opened true f s st F -> 0 <= EXT2_I_SIZE (f_inode f) <= n -> fits n -> (forall p, n <= p -> F p = 0) -> big_ok (f_inode f) n ->
  exists f' s' st', ext2fs_file_set_size2 fs extent_bmap punch_extent ea_remove s f n = Done (0, f', s') /\ opened true f' s' st' F /\
    frame (f_ino f) st (i_block (f_inode f)) st' (i_block (f_inode f')) /\ f_ino f' = f_ino f /\ f_pos f' = f_pos f /\ can_write f' = can_write f /\
    f_inode f' = set_i_size (f_inode f) (Z.land n 0xffffffff) (u32 (Z.shiftr n 32)).
Proof using Hbits.
  intros O Hsz Hfit Hz Hbig. rewrite (size_begin f n (op_magic _ _ _ _ _ _ O) (op_blocks _ _ _ _ _ _ O) Hsz Hfit s).
  destruct (size_set_ok s st (f_inode f) n (op_rep _ _ _ _ _ _ O) ltac:(lia) Hbig) as (s1 & -> & R1). cbn [obind]. change (0 =? 0) with true. cbn [negb f_ino f_inode set_f_inode].
  rewrite (proj2 (Z.eqb_neq _ _) (op_ino _ _ _ _ _ _ O)). set (i1 := set_i_size (f_inode f) _ _).
  destruct (fs_put_inode s1 st (f_ino f) _ i1 R1 (op_sync _ _ _ _ _ _ O)) as (s2 & -> & R2). cbn [obind]. change (0 =? 0) with true. cbn [negb].
  assert (O1 : opened true (set_f_inode f i1) s2 (with_inode st (f_ino f) i1) F).
  { destruct O as [OR OM OS OB OMa OI OBu ODv OH OBy OC OD ORe]. constructor; try done.
    - destruct OM. by constructor.
    - cbn. by rewrite lookup_insert_eq. }
  destruct (zero_past_ok _ _ _ _ n O1 ltac:(lia) Hfit Hz) as (f3 & s3 & st3 & -> & O3 & Fr3 & (E1 & E2 & E3 & E4)). cbn [obind]. change (0 =? 0) with true. cbn [negb].
  exists f3, s3, st3. split; [done|]. split; [done|]. split; [|done]. rewrite E4. apply (file_frame_trans fs _ _ _ (with_inode st (f_ino f) i1) (i_block i1)); [|exact Fr3].
  constructor; auto. intros j Hj. cbn. by rewrite lookup_insert_ne.
Qed.

(** * After a write that found no block *)

(** The bytes that were written end with a block. *)
Lemma set_size_half f s st F n : half fs f s st F -> 0 <= EXT2_I_SIZE (f_inode f) <= n -> fits n -> n mod BS = 0 -> big_ok (f_inode f) n ->
  let i := set_i_size (f_inode f) (Z.land n 0xffffffff) (u32 (Z.shiftr n 32)) in
  exists s', ext2fs_file_set_size2 fs extent_bmap punch_extent ea_remove s f n = Done (0, set_f_inode f i, s') /\ fs_rep s' (with_inode st (f_ino f) i) /\
    holds fs (with_inode st (f_ino f) i) (i_block i) F /\ frame (f_ino f) st (i_block (f_inode f)) (with_inode st (f_ino f) i) (i_block i).
Proof using Hbits.
  intros Hh Hsz Hfit Hal Hbig i. rewrite (size_begin f n (hf_magic _ _ _ _ _ Hh) (hf_blocks _ _ _ _ _ Hh) Hsz Hfit s). pose proof (bs_bounds fs Hbits).
  destruct (size_set_ok s st (f_inode f) n (hf_rep _ _ _ _ _ Hh) ltac:(lia) Hbig) as (s1 & -> & R1). cbn [obind]. change (0 =? 0) with true. cbn [negb f_ino f_inode set_f_inode].
  rewrite (proj2 (Z.eqb_neq _ _) (hf_ino _ _ _ _ _ Hh)). fold i. destruct (hf_saved _ _ _ _ _ Hh) as (i0 & Ei0 & _).
  destruct (fs_put_inode s1 st (f_ino f) _ i R1 Ei0) as (s2 & -> & R2). cbn [obind]. change (0 =? 0) with true. cbn [negb].
  unfold ext2fs_file_zero_past_offset. rewrite Z.rem_mod_nonneg, Hal by lia. change (0 =? 0) with true. cbn [obind negb]. change (0 =? 0) with true. cbn [negb].
  exists s2. split; [done|]. split; [done|]. destruct (hf_holds _ _ _ _ _ Hh) as [[] Hd]. split; [split; [by constructor|exact Hd]|].
  constructor; auto. intros j Hj. cbn. by rewrite lookup_insert_ne.
Qed.

(** * Reading *)

(** The bytes from a position. *)
Definition bytes_at F (pos n : Z) : list Z := map (fun k => F (pos + Z.of_nat k)) (seq 0 (Z.to_nat n)).

Lemma length_bytes_at F pos n : length (bytes_at F pos n) = Z.to_nat n.
Proof using. unfold bytes_at. by rewrite length_map, length_seq. Qed.

Lemma bytes_at_app F pos n m : 0 <= n -> 0 <= m -> bytes_at F pos n ++ bytes_at F (pos + n) m = bytes_at F pos (n + m).
Proof using.
  intros Hn Hm. unfold bytes_at. rewrite Z2Nat.inj_add by lia. rewrite seq_app, map_app. f_equal. apply list_eq. intros k. rewrite !list_lookup_fmap.
  destruct (decide (k < Z.to_nat m)%nat) as [Hk|Hk]; [rewrite !lookup_seq_lt by done; cbn; f_equal; f_equal; lia|]. rewrite !lookup_ge_None_2; [done|rewrite length_seq; lia..].
Qed.

Lemma read_chunk F pos c buf : 0 <= pos -> 0 <= c -> pos mod BS + c <= BS -> Z.of_nat (length buf) = 3 * BS -> take (Z.to_nat BS) buf = fblock F (pos / BS) ->
  load_bytes buf (pos mod BS) c = Done (bytes_at F pos c).
Proof using Hbits.
  intros Hp Hc Hl Hb Ht. pose proof (bs_bounds fs Hbits). pose proof (Z_div_mod_eq_full pos BS). pose proof (Z.mod_pos_bound pos BS ltac:(lia)). rewrite load_part by lia. f_equal.
  apply list_eq. intros k. rewrite lookup_part. destruct (decide (k < Z.to_nat c)%nat) as [Hk|Hk].
  - unfold bytes_at. rewrite list_lookup_fmap, lookup_seq_lt by done. cbn. rewrite <- (lookup_take_lt buf (Z.to_nat BS)) by lia. rewrite Ht, lookup_fblock by lia. f_equal. f_equal. lia.
  - symmetry. apply lookup_ge_None_2. rewrite length_bytes_at. lia.
Qed.

Lemma file_read_loop_ok fuel : forall f s st F wanted out, (Z.to_nat wanted < fuel)%nat -> 0 <= wanted < 2 ^ 32 -> opened true f s st F -> 0 <= f_pos f -> 0 <= EXT2_I_SIZE (f_inode f) -> fits (EXT2_I_SIZE (f_inode f)) ->
  let n := Z.max 0 (Z.min wanted (EXT2_I_SIZE (f_inode f) - f_pos f)) in
  exists f' s' st', read_loop fs extent_bmap fuel s f wanted out = Done (0, out ++ bytes_at F (f_pos f) n, f', s') /\ opened true f' s' st' F /\
    frame (f_ino f) st (i_block (f_inode f)) st' (i_block (f_inode f)) /\ same_file (set_f_pos f (f_pos f + n)) f'.
Proof using Hbits.
  induction fuel as [|fuel IH]; intros f s st F wanted out Hf Hw O Hp Hs Hfit n; [lia|]. cbn [read_loop]. pose proof (bs_bounds fs Hbits). pose proof (fits_bound fs Hbits _ Hfit) as Hbnd.
  destruct (Z.ltb_spec (f_pos f) (EXT2_I_SIZE (f_inode f))) as [Hlt|Hge]; cbn [andb].
  2: { exists f, s, st. replace n with 0 by (unfold n; lia). rewrite Z.add_0_r. change (bytes_at F (f_pos f) 0) with (@nil Z). rewrite app_nil_r.
       split; [done|]. split; [done|]. split; [apply file_frame_refl|done]. }
  destruct (Z.ltb_spec 0 wanted) as [Hwp|Hw0].
  2: { exists f, s, st. replace n with 0 by (unfold n; lia). rewrite Z.add_0_r. change (bytes_at F (f_pos f) 0) with (@nil Z). rewrite app_nil_r.
       split; [done|]. split; [done|]. split; [apply file_frame_refl|done]. }
  destruct (sync_ok fs Hbits extent_bmap f s st F O) as (f1 & s1 & st1 & -> & O1 & Fr1 & (Ei & Ep & Ew & En) & Eb). cbn [obind]. change (0 =? 0) with true. cbn [negb].
  assert (Hin : in_file (f_blockno f1)) by (rewrite Eb; apply (fits_in fs Hbits _ _ Hfit); lia).
  destruct (file_load_ok fs Hbits extent_bmap f1 s1 st1 F false O1 Hin) as (f2 & s2 & -> & O2 & (Ei2 & Ep2 & Ew2 & En2) & Eb2 & Hv2). cbn [obind negb orb] in *. change (0 =? 0) with true. cbn [negb].
  rewrite Ep2, Ep, En2, En. pose proof (Z.mod_pos_bound (f_pos f) BS ltac:(lia)) as Hmod. set (size := EXT2_I_SIZE (f_inode f)) in *.
  assert (Hleft : u64 (size - f_pos f) = size - f_pos f) by (unfold u64; rewrite Z.mod_small; lia). rewrite Hleft.
  set (c := if size - f_pos f <? Z.min (BS - f_pos f mod BS) wanted then u32 (size - f_pos f) else Z.min (BS - f_pos f mod BS) wanted).
  assert (Ec : c = Z.min (Z.min (BS - f_pos f mod BS) wanted) (size - f_pos f)).
  { unfold c. destruct (Z.ltb_spec (size - f_pos f) (Z.min (BS - f_pos f mod BS) wanted)); [rewrite u32_small by (unfold is_u32; lia)|]; lia. }
  assert (Hc : 0 < c <= BS - f_pos f mod BS) by lia. destruct (op_buf _ _ _ _ _ _ O2) as [Hlb _].
  rewrite (read_chunk F (f_pos f) c) by (try lia; rewrite <- Eb, <- Eb2; by apply O2). cbn [obind].
  replace (u64 (f_pos f + c)) with (f_pos f + c) by (unfold u64; rewrite Z.mod_small; lia).
  assert (Esz : EXT2_I_SIZE (f_inode (set_f_pos f2 (f_pos f + c))) = size) by (cbn; by rewrite En2, En).
  destruct (IH (set_f_pos f2 (f_pos f + c)) s2 st1 F (wanted - c) (out ++ bytes_at F (f_pos f) c)) as (f' & s' & st' & -> & O' & Fr' & Hsame);
    [lia|lia|by apply opened_pos|cbn; lia|rewrite Esz; lia|by rewrite Esz|]. rewrite Esz in *. cbn [f_pos f_ino f_inode set_f_pos] in *.
  set (n' := Z.max 0 (Z.min (wanted - c) (size - (f_pos f + c)))) in *. assert (Enn : n = c + n') by (unfold n, n'; lia).
  exists f', s', st'. split; [rewrite <- app_assoc, bytes_at_app by lia; by rewrite Enn|]. split; [done|]. split.
  - apply (file_frame_trans fs _ _ _ _ _ _ _ Fr1). rewrite En2, En, Ei2, Ei in Fr'. done.
  - destruct Hsame as (G1 & G2 & G3 & G4). cbn [f_pos f_ino f_inode set_f_pos] in *. split; [cbn; congruence|]. split; [cbn; lia|]. split; [|cbn; congruence].
    rewrite G3. transitivity (can_write f2); [done|]. transitivity (can_write f1); [done|]. done.
Qed.
End size.
