(* ===== verification/FileIoProperties.v ===== *)
(** Files are sequences of bytes: reading, writing, seeking, growing, flushing and
    closing an open file behave like operations on a list of bytes and a position. *)

From S2P Require Import Prelude Bitops BlockIo Bmap BmapSpec BmapGrow BmapWalk Punch FileIo FileIoSpec FileIoWrite FileIoSize.

Local Open Scope Z_scope.

(** * The specification *)

Inductive fop :=
| FRead (n : Z)
| FWrite (data : list Z)
| FSeek (offset whence : Z)
| FSetSize (n : Z)
| FFlush
| FReopen (mem : list Z).

Inductive freply := RBytes (l : list Z) | RCount (n : Z) | RDone.

(** The contents and the position. *)
Definition afile : Type := list Z * Z.

Definition pad (data : list Z) (n : Z) : list Z := data ++ replicate (Z.to_nat n - length data) 0.

Definition seek_to (a : afile) (offset whence : Z) : Z :=
  if whence =? EXT2_SEEK_SET then offset
  else if whence =? EXT2_SEEK_CUR then u64 (snd a + offset) else u64 (Z.of_nat (length (fst a)) + offset).

Definition file_spec (o : fop) (a : afile) : freply * afile :=
  let '(data, pos) := a in
  match o with
  | FRead n => let out := take (Z.to_nat n) (drop (Z.to_nat pos) data) in (RBytes out, (data, pos + Z.of_nat (length out)))
  | FWrite [] => (RCount 0, a)
  | FWrite bs =>
      let n := Z.of_nat (length bs) in (RCount n, (splice (pad data (pos + n)) (Z.to_nat pos) bs, pos + n))
  | FSeek offset whence => (RDone, (data, seek_to a offset whence))
  | FSetSize n => (RDone, (pad data n, pos))
  | FFlush => (RDone, a)
  | FReopen _ => (RDone, (data, 0))
  end.

Fixpoint file_specs (os : list fop) (a : afile) : list freply * afile :=
  match os with
  | [] => ([], a)
  | o :: os => let '(r, a) := file_spec o a in let '(rs, a) := file_specs os a in (r :: rs, a)
  end.

Section files.
Context (fs : filsys) (Hbits : 10 <= blocksize_bits fs <= 16).
Local Notation BS := (blocksize fs).
Local Notation fits := (fits fs).
Local Notation opened := (opened fs).

(** What a caller has to respect: the numbers have their widths, a size or a position
    that is written to is one that blocks can be found for, only regular files have
    2 GB or more, and sizes are not lowered. *)
Definition file_allowed (mode : Z) (o : fop) (a : afile) : Prop :=
  let '(data, pos) := a in
  match o with
  | FRead n => 0 <= n < 2 ^ 32
  | FWrite bs => bytes_ok bs /\ fits (pos + Z.of_nat (length bs)) /\ (pos + Z.of_nat (length bs) < 2 ^ 31 \/ LINUX_S_ISREG mode = true)
  | FSeek offset whence => 0 <= offset < 2 ^ 64 /\ 0 <= whence <= 2
  | FSetSize n => Z.of_nat (length data) <= n /\ fits n /\ (n < 2 ^ 31 \/ LINUX_S_ISREG mode = true)
  | FFlush => True
  | FReopen mem => Z.of_nat (length mem) = 3 * BS /\ bytes_ok mem
  end.

Fixpoint file_safe (mode : Z) (os : list fop) (a : afile) : Prop :=
  match os with
  | [] => True
  | o :: os => file_allowed mode o a /\ file_safe mode os (snd (file_spec o a))
  end.

(** * The code *)

Section code.
Context {S : Type} `{FileStore S}.
Context (extent_bmap : S -> Z -> inode -> Z -> Z -> Z -> outcome (Z * Z * Z * Z * inode * S)).
Context (punch_extent : S -> Z -> inode -> Z -> Z -> outcome (Z * inode * S)) (ea_remove : S -> Z -> outcome (Z * S)).
Context (inline_get : S -> Z -> inode -> outcome (Z * list Z * S)) (inline_set : S -> Z -> inode -> list Z -> outcome (Z * inode * S)).
Context (inline_expand : S -> Z -> outcome (Z * S)) (sha512 : list Z -> list Z).

(** The result, the reply, the file and the state. *)
Definition file_step (m : hashmap) (o : fop) (f : file) (s : S) : outcome (Z * freply * file * S) :=
  match o with
  | FRead n => let* (r, out, f, s) := ext2fs_file_read fs extent_bmap inline_get s f n in Done (r, RBytes out, f, s)
  | FWrite bs =>
      let* (r, n, f, _, s) := ext2fs_file_write fs extent_bmap punch_extent ea_remove inline_get inline_set inline_expand sha512 s f m bs in
      Done (r, RCount (default 0 n), f, s)
  | FSeek offset whence => let '(r, f) := ext2fs_file_llseek f offset whence in Done (r, RDone, f, s)
  | FSetSize n => let* (r, f, s) := ext2fs_file_set_size2 fs extent_bmap punch_extent ea_remove s f n in Done (r, RDone, f, s)
  | FFlush => let* (r, f, s) := ext2fs_file_flush fs extent_bmap s f in Done (r, RDone, f, s)
  | FReopen mem =>
      let* (r, s) := ext2fs_file_close fs extent_bmap s f in
      if negb (r =? 0) then Done (r, RDone, f, s)
      else let* (r, f', s) := ext2fs_file_open2 fs mem s (f_ino f) None EXT2_FILE_WRITE in Done (r, RDone, default f f', s)
  end.

(** Up to the first error, which is the second part of the result. *)
Fixpoint file_run (m : hashmap) (os : list fop) (f : file) (s : S) : outcome (list freply * Z * file * S) :=
  match os with
  | [] => Done ([], 0, f, s)
  | o :: os =>
      let* (r, reply, f, s) := file_step m o f s in
      if negb (r =? 0) then Done ([], r, f, s) else let* (rs, r, f, s) := file_run m os f s in Done (reply :: rs, r, f, s)
  end.
End code.

(** * Agreement *)

Definition byte_of (data : list Z) (p : Z) : Z := if p <? 0 then 0 else default 0 (data !! Z.to_nat p).

Section laws.
Context {S : Type} `{FileStoreLaws S}.
Implicit Types (s : S) (f : file).

(** An open file of mode [mode] stands for [a]. *)
Record is_file (mode : Z) f s (st : store) (a : afile) : Prop := {
  if_open : opened true f s st (byte_of (fst a));
  if_size : EXT2_I_SIZE (f_inode f) = Z.of_nat (length (fst a));
  if_fits : fits (Z.of_nat (length (fst a)));
  if_pos : f_pos f = snd a /\ 0 <= snd a;
  if_write : can_write f = true;
  if_mode : i_mode (f_inode f) = mode }.

Lemma byte_of_pad data n p : byte_of (pad data n) p = byte_of data p.
Proof using.
  unfold byte_of, pad. destruct (Z.ltb_spec p 0); [done|]. destruct (decide (Z.to_nat p < length data)%nat) as [Hp|Hp]; [by rewrite lookup_app_l|].
  rewrite lookup_app_r by lia. rewrite (lookup_ge_None_2 data) by lia. destruct (replicate _ 0 !! _) as [x|] eqn:E; [|done]. apply lookup_replicate in E as [-> _]. done.
Qed.

Lemma length_pad data n : length (pad data n) = Nat.max (length data) (Z.to_nat n).
Proof using. unfold pad. rewrite length_app, length_replicate. lia. Qed.

Lemma byte_of_put data pos bs p : 0 <= pos -> put_bytes (byte_of data) pos bs p = byte_of (splice (pad data (pos + Z.of_nat (length bs))) (Z.to_nat pos) bs) p.
Proof using.
  intros Hp. destruct (decide (pos <= p < pos + Z.of_nat (length bs))) as [Hin|Hout].
  - apply (inj Some). rewrite put_bytes_in by done. unfold byte_of. destruct (Z.ltb_spec p 0); [lia|]. rewrite lookup_splice by (rewrite length_pad; lia).
    rewrite decide_True by lia. replace (Z.to_nat p - Z.to_nat pos)%nat with (Z.to_nat (p - pos)) by lia.
    destruct (lookup_lt_is_Some_2 bs (Z.to_nat (p - pos))) as [x E]; [lia|]. by rewrite E.
  - rewrite put_bytes_out by done. rewrite <- (byte_of_pad data (pos + Z.of_nat (length bs))). unfold byte_of. destruct (Z.ltb_spec p 0); [done|].
    rewrite lookup_splice by (rewrite length_pad; lia). by rewrite decide_False by lia.
Qed.

Lemma byte_of_end data p : Z.of_nat (length data) <= p -> byte_of data p = 0.
Proof using. intros Hp. unfold byte_of. destruct (p <? 0); [done|]. by rewrite lookup_ge_None_2 by lia. Qed.

Lemma read_bytes data pos n : 0 <= pos -> 0 <= n ->
  bytes_at (byte_of data) pos (Z.max 0 (Z.min n (Z.of_nat (length data) - pos))) = take (Z.to_nat n) (drop (Z.to_nat pos) data).
Proof using.
  intros Hp Hn. apply list_eq. intros k. unfold bytes_at. rewrite list_lookup_fmap. destruct (decide (k < Z.to_nat (Z.max 0 (Z.min n (Z.of_nat (length data) - pos))))%nat) as [Hk|Hk].
  - rewrite lookup_seq_lt by done. cbn. rewrite lookup_take_lt by lia. rewrite lookup_drop. unfold byte_of. destruct (Z.ltb_spec (pos + Z.of_nat k) 0); [lia|].
    replace (Z.to_nat (pos + Z.of_nat k)) with (Z.to_nat pos + k)%nat by lia. destruct (lookup_lt_is_Some_2 data (Z.to_nat pos + k)) as [x E]; [lia|]. by rewrite E.
  - rewrite lookup_ge_None_2 by (rewrite length_seq; lia). symmetry. apply lookup_ge_None_2. rewrite length_take, length_drop. lia.
Qed.

Context (extent_bmap : S -> Z -> inode -> Z -> Z -> Z -> outcome (Z * Z * Z * Z * inode * S)).
Context (punch_extent : S -> Z -> inode -> Z -> Z -> outcome (Z * inode * S)) (ea_remove : S -> Z -> outcome (Z * S)).
Context (inline_get : S -> Z -> inode -> outcome (Z * list Z * S)) (inline_set : S -> Z -> inode -> list Z -> outcome (Z * inode * S)).
Context (inline_expand : S -> Z -> outcome (Z * S)) (sha512 : list Z -> list Z).
Context (Hshare : flag_share_dup fs = false) (Hrw : flag_rw fs = true).
Local Notation step := (file_step extent_bmap punch_extent ea_remove inline_get inline_set inline_expand sha512).
Local Notation run := (file_run extent_bmap punch_extent ea_remove inline_get inline_set inline_expand sha512).
Local Notation frame := (frame fs).

(** A step: the reply and the file are those of the specification, or there is an error
    and no block is left. *)
Definition step_ok (mode : Z) (o : fop) f s st (a : afile) (x : outcome (Z * freply * file * S)) : Prop :=
  exists r reply f' s' st', x = Done (r, reply, f', s') /\ f_ino f' = f_ino f /\ frame (f_ino f) st (i_block (f_inode f)) st' (i_block (f_inode f')) /\
    (r = 0 /\ reply = fst (file_spec o a) /\ is_file mode f' s' st' (snd (file_spec o a)) \/ r <> 0 /\ full st' /\ fs_rep s' st').

Lemma file_read_step mode n m f s st a : is_file mode f s st a -> 0 <= n < 2 ^ 32 -> step_ok mode (FRead n) f s st a (step m (FRead n) f s).
Proof using Hbits.
  destruct a as [data pos]. intros [O Hs Hf [Hp Hp0] Hw Hm] Hn. cbn [fst snd] in *. cbn [file_step]. unfold ext2fs_file_read, bad_magic.
  rewrite (op_magic _ _ _ _ _ _ O), Z.eqb_refl. destruct (op_blocks _ _ _ _ _ _ O) as [_ ->]. cbn [negb].
  destruct (file_read_loop_ok fs Hbits extent_bmap (Datatypes.S (Z.to_nat n)) f s st _ n [] ltac:(lia) Hn O ltac:(lia) ltac:(lia) ltac:(by rewrite Hs)) as (f' & s' & st' & -> & O' & Fr & (E1 & E2 & E3 & E4)).
  cbn [obind]. cbn [f_ino f_pos f_inode set_f_pos] in *. rewrite Hs, Hp, read_bytes in * by lia. cbn [app]. exists 0. do 4 eexists. split; [done|]. split; [done|]. split; [by rewrite E4|]. left.
  split; [done|]. split; [done|]. cbn [file_spec fst snd]. constructor; cbn [fst snd]; try done; try congruence.
  - rewrite E2, length_take, length_drop. split; lia.
  - rewrite E3. done.
Qed.

Lemma empty_write_step mode m f s st a : is_file mode f s st a -> step_ok mode (FWrite []) f s st a (step m (FWrite []) f s).
Proof using.
  intros Hi. pose proof (if_open _ _ _ _ _ Hi) as O. cbn [file_step]. unfold ext2fs_file_write, bad_magic. rewrite (op_magic _ _ _ _ _ _ O), Z.eqb_refl. cbn [negb].
  pose proof (if_write _ _ _ _ _ Hi) as Hw. unfold can_write in Hw. rewrite Hw. destruct (op_blocks _ _ _ _ _ _ O) as [_ ->]. cbn [negb].
  cbn [write_loop length obind]. unfold grow_size. change (0 =? 0) with true. cbn [negb andb obind default]. exists 0, (RCount 0), f, s, st.
  split; [done|]. split; [done|]. split; [apply file_frame_refl|]. left. destruct a as [data pos]. done.
Qed.

(** What is on the device of a file. *)
Record saved (mode ino : Z) (st : store) (data : list Z) : Prop := {
  sv_ino : ino <> 0;
  sv_inode : exists i, inodes st !! ino = Some i /\ i_mode i = mode /\ by_blocks i /\ EXT2_I_SIZE i = Z.of_nat (length data) /\ holds fs st (i_block i) (byte_of data) }.

Lemma open_saved mode ino s st data mem : saved mode ino st data -> fs_rep s st -> fits (Z.of_nat (length data)) -> Z.of_nat (length mem) = 3 * BS -> bytes_ok mem ->
  exists f' s', ext2fs_file_open2 fs mem s ino None EXT2_FILE_WRITE = Done (0, Some f', s') /\ is_file mode f' s' st (data, 0) /\
    f_ino f' = ino /\ inodes st !! ino = Some (f_inode f').
Proof using Hrw.
  intros [Hi (i & Ei & Em & Hb & Es & M & Hd)] R Hfit Hl Hm. unfold ext2fs_file_open2. rewrite Hrw. cbn [negb]. rewrite andb_false_r.
  destruct (fs_get_inode s st ino i R Ei) as (s' & -> & R'). cbn [obind]. eexists _, s'. split; [reflexivity|]. split; [|done].
  constructor; cbn [fst snd f_inode f_pos]; try done. constructor; try done. intros l Hl' _. by apply Hd.
Qed.

(** The contents after some bytes were written. *)
Definition written (data : list Z) (pos : Z) (bs : list Z) : list Z := fst (snd (file_spec (FWrite bs) (data, pos))).

Lemma written_splice data pos bs : bs <> [] -> file_spec (FWrite bs) (data, pos) = (RCount (Z.of_nat (length bs)), (written data pos bs, pos + Z.of_nat (length bs))).
Proof using. by destruct bs. Qed.

Lemma length_written data pos bs : 0 <= pos -> Z.of_nat (length (written data pos bs)) = if decide (bs = []) then Z.of_nat (length data) else Z.max (Z.of_nat (length data)) (pos + Z.of_nat (length bs)).
Proof using. intros Hp. destruct bs as [|x bs]; [done|]. rewrite decide_False by done. cbn [written file_spec fst snd]. rewrite length_splice; rewrite length_pad; lia. Qed.

Lemma written_fits data pos bs n : 0 <= pos -> fits (Z.of_nat (length data)) -> fits (pos + Z.of_nat (length bs)) -> 0 <= n < Z.of_nat (length bs) ->
  fits (Z.of_nat (length (written data pos (take (Z.to_nat n) bs)))).
Proof using Hbits.
  intros Hp Hd Hb Hn. rewrite length_written by done. destruct (decide _); [done|]. rewrite length_take.
  destruct (Z.max_spec (Z.of_nat (length data)) (pos + Z.of_nat (Z.to_nat n `min` length bs))) as [[_ ->]|[_ ->]]; [|done].
  destruct (decide (pos + Z.of_nat (Z.to_nat n `min` length bs) <= 0)) as [|Hpos]; [by left|right]. apply (fits_in fs Hbits _ _ Hb). lia.
Qed.

Lemma byte_of_written data pos bs p : 0 <= pos -> put_bytes (byte_of data) pos bs p = byte_of (written data pos bs) p.
Proof using. intros Hp. destruct bs as [|x bs]; [apply put_bytes_nil|]. by apply byte_of_put. Qed.

Local Notation grow := (grow_size fs extent_bmap punch_extent ea_remove).

(** The size after all bytes were written ... *)
Lemma grow_written mode f s st data pos bs : opened true f s st (put_bytes (byte_of data) pos bs) -> EXT2_I_SIZE (f_inode f) = Z.of_nat (length data) -> fits (Z.of_nat (length data)) ->
  0 <= pos -> f_pos f = pos + Z.of_nat (length bs) -> can_write f = true -> i_mode (f_inode f) = mode -> bs <> [] -> file_allowed mode (FWrite bs) (data, pos) ->
  exists f' s' st', grow s f 0 (Z.of_nat (length bs)) = Done (0, f', s') /\ f_ino f' = f_ino f /\ frame (f_ino f) st (i_block (f_inode f)) st' (i_block (f_inode f')) /\
    is_file mode f' s' st' (written data pos bs, pos + Z.of_nat (length bs)).
Proof using Hbits.
  intros O Es Hf Hp Ep Hw Hm Hne (Hby & Hfit & Hbig). pose proof (fits_bound fs Hbits _ Hfit) as Hbnd. pose proof (length_written data pos bs Hp) as Hl. rewrite decide_False in Hl by done.
  assert (Hlen : (0 < length bs)%nat) by (destruct bs; [done|cbn; lia]).
  assert (O' : opened true f s st (byte_of (written data pos bs))) by (apply (opened_ext fs _ _ _ _ _ _ O); intros p; by apply byte_of_written).
  unfold grow_size. rewrite Es, Ep, (proj2 (Z.eqb_neq (Z.of_nat (length bs)) 0)) by lia. cbn [negb andb]. destruct (Z.ltb_spec (Z.of_nat (length data)) (pos + Z.of_nat (length bs))) as [Hlt|Hge].
  - rewrite s64_small by lia. destruct (set_size_ok fs Hbits extent_bmap punch_extent ea_remove f s st _ (pos + Z.of_nat (length bs)) O') as (f2 & s2 & st2 & -> & O2 & Fr2 & E1 & E2 & E3 & E4);
      [lia|done|intros p Hpp; apply byte_of_end; lia|unfold big_ok; by rewrite Hm|]. cbn [obind]. change (0 =? 0) with true. cbn iota.
    exists f2, s2, st2. split; [done|]. split; [done|]. split; [done|]. constructor; cbn [fst snd]; try done.
    + rewrite E4, i_size_set by lia. lia.
    + replace (Z.of_nat (length (written data pos bs))) with (pos + Z.of_nat (length bs)) by lia. done.
    + split; [congruence|lia].
    + by rewrite E3.
    + by rewrite E4.
  - exists f, s, st. split; [done|]. split; [done|]. split; [apply file_frame_refl|]. constructor; cbn [fst snd]; try done; [lia| |split; [done|lia]].
    replace (Z.of_nat (length (written data pos bs))) with (Z.of_nat (length data)) by lia. done.
Qed.

Lemma half_saved mode f s st data F : half fs f s st F -> EXT2_I_SIZE (f_inode f) = Z.of_nat (length data) -> i_mode (f_inode f) = mode -> (forall p, F p = byte_of data p) -> saved mode (f_ino f) st data.
Proof using.
  intros Hh Es Em Hd. constructor; [apply Hh|]. destruct (hf_saved _ _ _ _ _ Hh) as (i & Ei & (A1 & A2 & A3 & A4) & Hi). exists i. destruct (hf_blocks _ _ _ _ _ Hh) as [B1 B2].
  split; [done|]. split; [congruence|]. split; [unfold by_blocks; by rewrite A4|]. split; [unfold EXT2_I_SIZE in *; by rewrite A2, A3|]. by apply (holds_ext _ _ _ F).
Qed.

(** ... and after some of them. *)
Lemma grow_stopped mode f s st data pos bs n r : stopped fs pos (byte_of data) bs n f s st -> r <> 0 -> EXT2_I_SIZE (f_inode f) = Z.of_nat (length data) -> i_mode (f_inode f) = mode ->
  0 <= pos -> file_allowed mode (FWrite bs) (data, pos) ->
  exists f' s' st', grow s f r n = Done (r, f', s') /\ f_ino f' = f_ino f /\ frame (f_ino f) st (i_block (f_inode f)) st' (i_block (f_inode f')) /\ fs_rep s' st' /\ used st' = used st /\
    saved mode (f_ino f) st' (written data pos (take (Z.to_nat n) bs)).
Proof using Hbits.
  intros (Hn & Ep & Hal & Hh) Hr Es Em Hp (Hby & Hfit & Hbig). pose proof (fits_bound fs Hbits _ Hfit) as Hbnd. set (new := written data pos (take (Z.to_nat n) bs)).
  pose proof (length_written data pos (take (Z.to_nat n) bs) Hp) as Hl. fold new in Hl. rewrite length_take in Hl.
  assert (Hd : forall p, put_bytes (byte_of data) pos (take (Z.to_nat n) bs) p = byte_of new p) by (intros p; by apply byte_of_written).
  assert (Htn : take (Z.to_nat n) bs = [] <-> n = 0).
  { split; intros E; [apply (f_equal length) in E; rewrite length_take in E; cbn in E; lia|by rewrite E]. }
  assert (Hquiet : length new = length data -> exists f' s' st', Done (r, f, s) = Done (r, f', s') /\ f_ino f' = f_ino f /\ frame (f_ino f) st (i_block (f_inode f)) st' (i_block (f_inode f')) /\
    fs_rep s' st' /\ used st' = used st /\ saved mode (f_ino f) st' new).
  { intros El. exists f, s, st. split; [done|]. split; [done|]. split; [apply file_frame_refl|]. split; [apply Hh|]. split; [done|]. apply (half_saved mode f s st new _ Hh); [congruence|done|done]. }
  unfold grow_size. rewrite Es. destruct (Z.eqb_spec n 0) as [Hz|Hnz]; cbn [negb andb]; [apply Hquiet; rewrite decide_True in Hl by (by apply Htn); lia|].
  rewrite decide_False in Hl by (by rewrite Htn). destruct (Z.ltb_spec (Z.of_nat (length data)) (f_pos f)) as [Hlt|Hge]; [|apply Hquiet; lia].
  destruct Hal as [|Hal]; [done|]. rewrite s64_small by lia.
  assert (Hfit' : fits (f_pos f)) by (right; apply (fits_in fs Hbits _ (f_pos f - 1) Hfit); lia).
  destruct (set_size_half fs Hbits extent_bmap punch_extent ea_remove f s st _ (f_pos f) Hh ltac:(lia) Hfit' Hal) as (s2 & -> & R2 & Hh2 & Fr2); [unfold big_ok; rewrite Em; destruct Hbig; [left; lia|by right]|].
  set (i := set_i_size _ _ _) in *. cbn [obind]. rewrite (proj2 (Z.eqb_neq _ _) Hr). exists (set_f_inode f i), s2, (with_inode st (f_ino f) i). split; [done|]. split; [done|]. split; [done|].
  split; [done|]. split; [done|]. constructor; [apply Hh|]. exists i. split; [cbn; by rewrite lookup_insert_eq|]. split; [done|]. split; [apply Hh|]. split; [unfold i; rewrite i_size_set by lia; lia|].
  by apply (holds_ext fs _ _ _ _ Hh2).
Qed.

(** Writing: all bytes are written, or no block is left and those that are counted are on
    the device. *)
Lemma file_write_ok mode bs m f s st data pos : is_file mode f s st (data, pos) -> bs <> [] -> file_allowed mode (FWrite bs) (data, pos) ->
  exists r n f' s' st', ext2fs_file_write fs extent_bmap punch_extent ea_remove inline_get inline_set inline_expand sha512 s f m bs = Done (r, Some n, f', m, s') /\
    f_ino f' = f_ino f /\ frame (f_ino f) st (i_block (f_inode f)) st' (i_block (f_inode f')) /\
    (r = 0 /\ n = Z.of_nat (length bs) /\ is_file mode f' s' st' (written data pos bs, pos + n) \/
     r <> 0 /\ full st' /\ fs_rep s' st' /\ 0 <= n < Z.of_nat (length bs) /\ saved mode (f_ino f) st' (written data pos (take (Z.to_nat n) bs))).
Proof using Hbits Hshare.
  intros [O Hs Hf [Hp Hp0] Hw Hm] Hne Ha. cbn [fst snd] in *. unfold ext2fs_file_write, bad_magic. rewrite (op_magic _ _ _ _ _ _ O), Z.eqb_refl. cbn [negb].
  pose proof Hw as Hw'. unfold can_write in Hw'. rewrite Hw'. destruct (op_blocks _ _ _ _ _ _ O) as [_ ->]. cbn [negb]. destruct Ha as (Hby & Hfit & Hbig).
  destruct (file_write_loop_ok fs Hbits extent_bmap sha512 Hshare (Datatypes.S (length bs)) f s st _ m bs 0 ltac:(lia) O ltac:(lia) ltac:(by rewrite Hp) Hby)
    as (r & n & f1 & s1 & st1 & -> & (K1 & K2 & K3 & K4 & K5 & K6) & Fr1 & Hend). cbn [obind]. rewrite Hp, Z.sub_0_r, Z.add_0_l in *.
  assert (Es : EXT2_I_SIZE (f_inode f1) = Z.of_nat (length data)) by (rewrite <- Hs; unfold EXT2_I_SIZE; by rewrite K4, K5). assert (Em : i_mode (f_inode f1) = mode) by congruence.
  destruct Hend as [(-> & -> & Ep & O1)|(Hr & Hfull & Hst)].
  - destruct (grow_written mode f1 s1 st1 data pos bs O1 Es Hf Hp0 Ep ltac:(congruence) Em Hne (conj Hby (conj Hfit Hbig))) as (f2 & s2 & st2 & -> & E2 & Fr2 & Hi). cbn [obind].
    exists 0. do 4 eexists. split; [done|]. split; [congruence|]. split; [apply (file_frame_trans fs _ _ _ _ _ _ _ Fr1); by rewrite <- K1|]. by left.
  - pose proof (proj1 Hst) as Hn.
    destruct (grow_stopped mode f1 s1 st1 data pos bs n r Hst Hr Es Em Hp0 (conj Hby (conj Hfit Hbig))) as (f2 & s2 & st2 & -> & E2 & Fr2 & R2 & Eu & Hsv). cbn [obind].
    exists r. do 4 eexists. split; [done|]. split; [congruence|]. split; [apply (file_frame_trans fs _ _ _ _ _ _ _ Fr1); by rewrite <- K1|]. right.
    split; [done|]. split; [unfold full; by rewrite Eu|]. split; [done|]. split; [done|]. by rewrite <- K1.
Qed.

Lemma file_write_step mode bs m f s st a : is_file mode f s st a -> bs <> [] -> file_allowed mode (FWrite bs) a -> step_ok mode (FWrite bs) f s st a (step m (FWrite bs) f s).
Proof using Hbits Hshare.
  destruct a as [data pos]. intros Hi Hne Ha. destruct (file_write_ok mode bs m f s st data pos Hi Hne Ha) as (r & n & f' & s' & st' & E & E1 & Fr & Hend).
  cbn [file_step]. rewrite E. cbn [obind default from_option id]. exists r. do 4 eexists. split; [done|]. split; [done|]. split; [done|]. rewrite written_splice by done. cbn [fst snd].
  destruct Hend as [(-> & -> & Hi')|(Hr & Hf & R & _)]; [by left|by right].
Qed.

Lemma seek_step mode offset whence m f s st a : is_file mode f s st a -> 0 <= offset < 2 ^ 64 -> 0 <= whence <= 2 ->
  step_ok mode (FSeek offset whence) f s st a (step m (FSeek offset whence) f s).
Proof using.
  destruct a as [data pos]. intros [O Hs Hf [Hp Hp0] Hw Hm] Ho Hwh. cbn [fst snd] in *. cbn [file_step]. unfold ext2fs_file_llseek, bad_magic. rewrite (op_magic _ _ _ _ _ _ O), Z.eqb_refl. cbn [negb].
  assert (Hgo : forall x, 0 <= x -> x = seek_to (data, pos) offset whence -> step_ok mode (FSeek offset whence) f s st (data, pos) (Done (0, RDone, set_f_pos f x, s))).
  { intros x Hx ->. exists 0, RDone, (set_f_pos f (seek_to (data, pos) offset whence)), s, st. split; [done|]. split; [done|]. split; [apply file_frame_refl|]. left. split; [done|]. split; [done|].
    constructor; cbn [fst snd file_spec]; try done. by apply opened_pos. }
  assert (Hu : forall x, 0 <= u64 x) by (intros x; unfold u64; apply Z.mod_pos_bound; lia). unfold seek_to in Hgo. cbn [fst snd] in Hgo.
  destruct (Z.eqb_spec whence EXT2_SEEK_SET); [apply Hgo; lia|]. destruct (Z.eqb_spec whence EXT2_SEEK_CUR); [rewrite Hp; apply Hgo; [apply Hu|done]|].
  destruct (Z.eqb_spec whence EXT2_SEEK_END); [|unfold EXT2_SEEK_SET, EXT2_SEEK_CUR, EXT2_SEEK_END in *; lia]. rewrite Hs. apply Hgo; [apply Hu|done].
Qed.

Lemma setsize_step mode n m f s st a : is_file mode f s st a -> file_allowed mode (FSetSize n) a -> step_ok mode (FSetSize n) f s st a (step m (FSetSize n) f s).
Proof using Hbits.
  destruct a as [data pos]. intros [O Hs Hf [Hp Hp0] Hw Hm] (Hle & Hfit & Hbig). cbn [fst snd] in *. cbn [file_step]. pose proof (fits_bound fs Hbits _ Hfit) as Hbnd.
  destruct (set_size_ok fs Hbits extent_bmap punch_extent ea_remove f s st (byte_of data) n O) as (f2 & s2 & st2 & -> & O2 & Fr2 & E1 & E2 & E3 & E4);
    [lia|done|intros p Hpp; apply byte_of_end; lia|unfold big_ok; rewrite Hm; done|]. cbn [obind].
  exists 0. do 4 eexists. split; [done|]. split; [done|]. split; [done|]. left. split; [done|]. split; [done|]. assert (Hl : Z.of_nat (length (pad data n)) = n) by (rewrite length_pad; lia).
  cbn [file_spec snd]. constructor; cbn [fst snd]; rewrite ?Hl; try done.
  - apply (opened_ext fs _ _ _ _ _ _ O2). intros p. by rewrite byte_of_pad.
  - rewrite E4. apply i_size_set. lia.
  - split; [congruence|done].
  - by rewrite E3.
  - by rewrite E4.
Qed.

Lemma file_flush_step mode m f s st a : is_file mode f s st a -> step_ok mode FFlush f s st a (step m FFlush f s).
Proof using Hbits.
  destruct a as [data pos]. intros [O Hs Hf [Hp Hp0] Hw Hm]. cbn [fst snd] in *. cbn [file_step].
  destruct (file_flush_ok fs Hbits extent_bmap f s st _ O) as (f' & s' & st' & -> & O' & Fr & (E1 & E2 & E3 & E4) & _). cbn [obind].
  exists 0. do 4 eexists. split; [done|]. split; [done|]. split; [by rewrite E4|]. left. split; [done|]. split; [done|]. constructor; cbn [fst snd file_spec]; try done; try congruence.
  split; [congruence|done].
Qed.

Lemma reopen_step mode mem m f s st a : is_file mode f s st a -> Z.of_nat (length mem) = 3 * BS -> bytes_ok mem -> step_ok mode (FReopen mem) f s st a (step m (FReopen mem) f s).
Proof using Hbits Hrw.
  destruct a as [data pos]. intros [O Hs Hf [Hp Hp0] Hw Hm] Hml Hmb. cbn [fst snd] in *. cbn [file_step]. unfold ext2fs_file_close, bad_magic. rewrite (op_magic _ _ _ _ _ _ O), Z.eqb_refl. cbn [negb].
  destruct (file_flush_ok fs Hbits extent_bmap f s st _ O) as (f1 & s1 & st1 & -> & O1 & Fr & (E1 & E2 & E3 & E4) & E5 & E6 & E7). cbn [obind]. change (0 =? 0) with true. cbn [negb].
  assert (Hsv : saved mode (f_ino f) st1 data).
  { rewrite <- E1. constructor; [apply O1|]. exists (f_inode f1). split; [apply O1|]. split; [congruence|]. split; [apply O1|]. split; [congruence|]. by apply (opened_holds fs _ _ _ _ _ O1). }
  destruct (open_saved mode (f_ino f) s1 st1 data mem Hsv (op_rep _ _ _ _ _ _ O1) Hf Hml Hmb) as (f2 & s2 & -> & Hi & Ei & En). cbn [obind default from_option id].
  rewrite <- E1, (op_sync _ _ _ _ _ _ O1) in En. injection En as En. exists 0. do 4 eexists. split; [done|]. split; [done|]. split; [rewrite <- En, E4; exact Fr|]. by left.
Qed.

Lemma file_step_ok mode o m f s st a : is_file mode f s st a -> file_allowed mode o a -> step_ok mode o f s st a (step m o f s).
Proof using Hbits Hshare Hrw.
  intros Hi Ha. destruct o as [n|bs|off w|n| |mem].
  - destruct a. by apply file_read_step.
  - destruct bs as [|x bs]; [by apply empty_write_step|by apply file_write_step].
  - destruct a as [data pos]. destruct Ha. by apply seek_step.
  - by apply setsize_step.
  - by apply file_flush_step.
  - destruct a as [data pos]. destruct Ha. by apply reopen_step.
Qed.

Lemma file_run_ok mode m os : forall f s st a, is_file mode f s st a -> file_safe mode os a ->
  exists rs r f' s' st', run m os f s = Done (rs, r, f', s') /\ frame (f_ino f) st (i_block (f_inode f)) st' (i_block (f_inode f')) /\
    (r = 0 /\ rs = fst (file_specs os a) /\ is_file mode f' s' st' (snd (file_specs os a)) \/ r <> 0 /\ rs `prefix_of` fst (file_specs os a) /\ full st' /\ fs_rep s' st').
Proof using Hbits Hshare Hrw.
  induction os as [|o os IH]; intros f s st a Hi Hs; cbn [file_run].
  { exists [], 0, f, s, st. split; [done|]. split; [apply file_frame_refl|]. by left. }
  destruct Hs as [Ha Hs]. destruct (file_step_ok mode o m f s st a Hi Ha) as (r & reply & f1 & s1 & st1 & -> & E1 & Fr1 & Hend). cbn [obind file_specs].
  destruct (file_spec o a) as [reply' a'] eqn:Eo. cbn [fst snd] in *. destruct (file_specs os a') as [rs' a2] eqn:Eos. cbn [fst snd].
  destruct Hend as [(-> & -> & Hi1)|[Hr Hf]].
  - change (0 =? 0) with true. cbn [negb]. destruct (IH f1 s1 st1 a' Hi1 Hs) as (rs & r & f2 & s2 & st2 & -> & Fr2 & Hend). cbn [obind]. rewrite Eos in Hend. cbn [fst snd] in Hend.
    exists (reply' :: rs), r, f2, s2, st2. split; [done|]. split; [apply (file_frame_trans fs _ _ _ _ _ _ _ Fr1); by rewrite <- E1|].
    destruct Hend as [(-> & -> & Hi2)|(Hr & Hpre & Hf & Hrep)]; [by left|right]. split; [done|]. split; [by apply prefix_cons|done].
  - rewrite (proj2 (Z.eqb_neq _ _) Hr). cbn [negb]. exists [], r, f1, s1, st1. split; [done|]. split; [done|]. right. split; [done|]. split; [apply prefix_nil|done].
Qed.
End laws.
End files.
