(* ===== verification/FileSystem.v ===== *)
(** A file system that files are read and written in: blocks are taken with the bitmaps
    and descriptors of alloc.c and alloc_stats.c and read and written on a channel.
    This is what the functions for files need of the rest of the library. *)

From S2P Require Import Prelude Crc Bitops BlockIo Bitmap32 Bitmap64 GenBitmap BitmapRefine BitmapProperties Group GroupSpec Alloc AllocSpec AllocBlock Bmap BmapSpec FileIo.

Local Open Scope Z_scope.

Definition LINUX_S_IFLNK : Z := 0xa000.
Definition LINUX_S_ISLNK (m : Z) : bool := Z.land m LINUX_S_IFMT =? LINUX_S_IFLNK.

(** The tables of inodes: [ext2fs_read_inode] and [ext2fs_write_inode]. *)
Class InodeTable (T : Type) := {
  table_read : T -> Z -> outcome (Z * option inode * T);
  table_write : T -> Z -> inode -> outcome (Z * T) }.

Class InodeTableLaws (T : Type) `{InodeTable T} := {
  table_rep : T -> gmap Z inode -> Prop;
  table_read_ok t m ino i : table_rep t m -> m !! ino = Some i -> exists t', table_read t ino = Done (0, Some i, t') /\ table_rep t' m;
  table_write_ok t m ino i i' : table_rep t m -> m !! ino = Some i -> exists t', table_write t ino i' = Done (0, t') /\ table_rep t' (<[ino := i']> m) }.

(** The bitmaps, descriptors and counts, [fs->io], the inodes, and the fields of the
    super block that change when the first large file or directory is made. *)
Record fsys (P C T : Type) := mk_fsys { alloc_state : vol P; io : C; table : T; large_file : bool; largedir : bool; rev_level : Z }.
Arguments mk_fsys {P C T}.
Arguments alloc_state {P C T}.
Arguments io {P C T}.
Arguments table {P C T}.
Arguments large_file {P C T}.
Arguments largedir {P C T}.
Arguments rev_level {P C T}.

(** [ext2fs_is_fast_symlink] *)
Definition ext2fs_is_fast_symlink (i : inode) : bool := LINUX_S_ISLNK (i_mode i) && negb (EXT2_I_SIZE i =? 0) && (EXT2_I_SIZE i <? 60).

Section ops.
Context (fs : Bmap.filsys) (sb : super) (s_log_groups_per_flex : Z).
Context {P C T : Type} `{BitmapOps P} `{BlockIo C} `{InodeTable T}.
Local Notation fsys := (fsys P C T).
Implicit Types s : fsys.

Definition set_alloc s (v : vol P) : fsys := mk_fsys v (io s) (table s) (large_file s) (largedir s) (rev_level s).
Definition set_io s (c : C) : fsys := mk_fsys (alloc_state s) c (table s) (large_file s) (largedir s) (rev_level s).
Definition set_table s (t : T) : fsys := mk_fsys (alloc_state s) (io s) t (large_file s) (largedir s) (rev_level s).

Context (get_alloc_block : option (vol P -> Z -> outcome (Z * Z * vol P))) (read_block_bitmap : vol P -> outcome (Z * vol P)) (stats_hook : bool).

(** [ext2fs_alloc_block3] with a buffer, which is filled with zeros and written. *)
Definition alloc_block_buf s (goal : Z) : outcome (Z * option Z * fsys) :=
  let* (retval, b, v) :=
    match get_alloc_block with
    | Some gab => let* (retval, b, v) := gab (alloc_state s) goal in Done (retval, Some b, v)
    | None =>
        let* (retval, v) := match block_map (alloc_state s) with GenNull => read_block_bitmap (alloc_state s) | _ => Done (0, alloc_state s) end in
        if negb (retval =? 0) then Done (retval, None, v) else ext2fs_new_block3 sb get_alloc_block v goal None
    end in
  let s := set_alloc s v in
  match b with
  | Some b =>
      if negb (retval =? 0) then Done (retval, None, s)
      else
        let* (retval, c) := write_blk (io s) b (replicate (Z.to_nat (blocksize fs)) 0) in
        let s := set_io s c in
        if negb (retval =? 0) then Done (retval, None, s)
        else let* v := ext2fs_block_alloc_stats2 sb stats_hook (alloc_state s) b 1 in Done (0, Some b, set_alloc s v)
  | None => Done (retval, None, s)
  end.

(** [io_channel_zeroout] of one block, and where the extents of an inode put a logical
    block, if they can be read. *)
Context (zeroout : C -> Z -> outcome (Z * C)) (extent_goal : fsys -> Z -> inode -> Z -> outcome (option Z * fsys)).

(** [ext2fs_zero_blocks2] with [num] 1; memory is available. *)
Definition zero_block s (blk : Z) : outcome (Z * fsys) :=
  let* (retval, c) := zeroout (io s) blk in
  if retval =? 0 then Done (0, set_io s c)
  else let* (retval, c) := write_blk c blk (replicate (Z.to_nat (blocksize fs)) 0) in Done (retval, set_io s c).

(** The label [no_blocks] of [ext2fs_find_inode_goal]. *)
Definition flex_goal (ino : Z) : Z :=
  let group := ext2fs_group_of_ino sb ino in
  let group := if s_log_groups_per_flex =? 0 then group else Z.land group (Z.lnot (Z.shiftl 1 s_log_groups_per_flex - 1)) in
  ext2fs_group_first_block2 sb group.

Definition ext2fs_find_inode_goal s (ino : Z) (i : inode) (lblk : Z) : outcome (Z * fsys) :=
  if ext2fs_is_fast_symlink i || has (i_flags i) EXT4_INLINE_DATA_FL then Done (flex_goal ino, s)
  else if has (i_flags i) EXT4_EXTENTS_FL then
    let* (g, s) := extent_goal s ino i lblk in Done (default (flex_goal ino) g, s)
  else
    match i_block i !! 0%nat with
    | Some b => Done (if b =? 0 then flex_goal ino else b, s)
    | None => Crash BadPointer
    end.

(** The part of [ext2fs_inode_size_set] for large files ([x] is true) or directories,
    with [ext2fs_update_dynamic_rev]. *)
Definition set_large s (x : bool) : fsys :=
  if (if x then large_file s else largedir s) then s
  else mk_fsys (ext2fs_mark_super_dirty (alloc_state s)) (io s) (table s) (if x then true else large_file s) (if x then largedir s else true)
    (if rev_level s =? EXT2_GOOD_OLD_REV then 1 else rev_level s).

#[export] Instance fsys_io : BlockIo fsys := {|
  read_blk s b := let* (r, bs, c) := read_blk (io s) b in Done (r, bs, set_io s c);
  write_blk s b data := let* (r, c) := write_blk (io s) b data in Done (r, set_io s c) |}.

#[export] Instance fsys_store : FileStore fsys := {|
  alloc_blk := alloc_block_buf;
  free_blk s b := let* v := ext2fs_block_alloc_stats2 sb stats_hook (alloc_state s) b (-1) in Done (set_alloc s v);
  zero_blk := zero_block;
  read_inode s ino := let* (r, i, t) := table_read (table s) ino in Done (r, i, set_table s t);
  write_inode s ino i := let* (r, t) := table_write (table s) ino i in Done (r, set_table s t);
  inode_goal := ext2fs_find_inode_goal;
  large_feature s x := Done (set_large s x) |}.
End ops.

(** * What it promises *)

Section laws.
Context (fs : Bmap.filsys) (sb : super) (V : vol_geo sb) (log_flex : Z).
Context (Hratio : cluster_ratio_bits (geo sb) = 0) (Hfirst : first_data_block sb <= 1) (Hcount : blocks_count sb <= 2 ^ 32).
Context {P C T : Type} `{BitmapLaws P} `{BlockIoLaws C} `{InodeTableLaws T}.
Context (read_block_bitmap : vol P -> outcome (Z * vol P)) (hook : bool) (zeroout : C -> Z -> outcome (Z * C)).
Context (extent_goal : fsys P C T -> Z -> inode -> Z -> outcome (option Z * fsys P C T)).
Local Notation fsys := (fsys P C T).
Local Notation BS := (Z.to_nat (blocksize fs)).

Definition a_block (b : Z) : Prop := first_data_block sb <= b < blocks_count sb.

#[local] Instance this_io : BlockIo fsys := fsys_io.
#[local] Instance this_store : FileStore fsys := fsys_store fs sb log_flex None read_block_bitmap hook zeroout extent_goal.

(** All blocks are on the channel; they stay there when one is written with as many
    bytes as it has. *)
Definition dev_full (d : gmap Z (list Z)) : Prop := forall b, a_block b -> exists bs, d !! b = Some bs /\ length bs = BS.

Lemma dev_full_put d b bs data : dev_full d -> d !! b = Some bs -> length data = length bs -> dev_full (<[b := data]> d).
Proof using.
  intros Hd Hb Hl b' Hb'. destruct (decide (b' = b)) as [->|Hn].
  - rewrite lookup_insert_eq. exists data. split; [done|]. destruct (Hd b Hb') as (bs' & E & <-). congruence.
  - rewrite lookup_insert_ne by done. auto.
Qed.

(** The bitmaps, descriptors and counts agree on which blocks are used; block 0 and
    the first block of the file system are. *)
Record fsys_rep (s : fsys) (st : store) : Prop := {
  fy_stats : exists I B, stats_ok sb (alloc_state s) I B /\ forall b, a_block b -> used st b = B b;
  fy_zero : used st 0 = true;
  fy_some : used st (first_data_block sb) = true;
  fy_io : io_rep (io s) (dev st);
  fy_dev : dev_full (dev st);
  fy_table : table_rep (table s) (inodes st) }.

Lemma fsys_read_ok s st b bs : fsys_rep s st -> dev st !! b = Some bs -> exists s', read_blk s b = Done (0, bs, s') /\ fsys_rep s' st.
Proof using.
  intros [R1 R2 R3 R4 R5 R6] Hb. cbn [read_blk this_io fsys_io]. destruct (io_read _ _ _ _ R4 Hb) as (c & -> & R4'). cbn [obind]. eexists. split; [done|]. by constructor.
Qed.

Lemma fsys_write_ok s st b bs data : fsys_rep s st -> dev st !! b = Some bs -> length data = length bs -> bytes_ok data ->
  exists s', write_blk s b data = Done (0, s') /\ fsys_rep s' (with_block st b data).
Proof using.
  intros R Hb Hl _. cbn [write_blk this_io fsys_io]. destruct (io_write _ _ _ _ data (fy_io _ _ R) Hb Hl) as (c & -> & R4'). cbn [obind]. eexists. split; [done|].
  destruct R as [R1 R2 R3 R4 R5 R6]. constructor; try done. by apply (dev_full_put _ _ bs).
Qed.

(** The cluster of a block is the block. *)
Lemma one_block b : b / 2 ^ cluster_ratio_bits (geo sb) = b.
Proof using Hratio. rewrite Hratio. apply Z.div_1_r. Qed.

Lemma fsys_goal_ok goal : is_u32 goal -> goal_ok sb goal.
Proof using Hfirst. intros [Hg0 Hg1]. unfold goal_ok. destruct (decide (goal = 0)); [by left|right; lia]. Qed.

Lemma fsys_alloc_ok s st goal : fsys_rep s st -> is_u32 goal ->
  exists r ob s', alloc_blk s goal = Done (r, ob, s') /\
    match ob with
    | Some b => 0 < b < 2 ^ 32 /\ used st b = false /\ exists bs, dev st !! b = Some bs /\ fsys_rep s' (taken st b bs)
    | None => r <> 0 /\ fsys_rep s' st /\ forall b, a_block b -> used st b = true
    end.
Proof using V Hratio Hfirst Hcount.
  intros R Hg. pose proof (vg_data _ V) as [Hd _]. destruct (fy_stats _ _ R) as (I & B & S & HB). set (u := first_data_block sb) in *. assert (Hu : a_block u) by (unfold a_block, u; lia). pose proof (fy_some _ _ R : used st u = true) as Eu.
  assert (Hused : exists c, c_first sb <= c <= c_last sb /\ B c = true).
  { exists u. split; [rewrite <- (one_block u); by apply (blk_cluster sb V)|]. by rewrite <- HB. }
  cbn [alloc_blk this_store fsys_store]. unfold alloc_block_buf.
  pose proof (so_bmap _ _ _ _ S) as (top & bm & Eb & _). cbn in Eb. rewrite Eb. cbn [obind negb Z.eqb].
  destruct (new_block_ok sb V (alloc_state s) I B goal S (fsys_goal_ok goal Hg) Hused) as (r & ob & v1 & -> & S1 & Hf). cbn [obind].
  destruct Hf as [(b & -> & -> & Hb & Hfree)|(-> & -> & Hall)].
  - unfold in_use_blk in Hfree. rewrite one_block in Hfree. destruct (fy_dev _ _ R b Hb) as (bs & Edev & Hlen). cbn [negb Z.eqb].
    destruct (io_write _ _ _ _ (replicate BS 0) (fy_io _ _ R) Edev) as (c & Ew & Rio); [by rewrite length_replicate|]. cbn [io set_alloc]. rewrite Ew. cbn [obind negb Z.eqb].
    destruct (block_stats_ok sb V hook v1 I B b true S1 Hb) as (v2 & E2 & S2); [by rewrite one_block|]. change (delta true) with 1 in E2.
    cbn [alloc_state set_io set_alloc]. rewrite E2. cbn [obind]. do 3 eexists. split; [done|]. assert (Hn0 : b <> 0).
    { intros ->. pose proof (fy_zero _ _ R). rewrite HB in * by done. congruence. }
    split; [lia|]. split; [by rewrite HB|]. exists bs. split; [done|]. rewrite one_block in S2. unfold taken. rewrite Hlen.
    constructor; cbn [dev used inodes alloc_state io table set_alloc set_io taken with_used with_block].
    + exists I, (upd B b true). split; [done|]. intros b' Hb'. unfold upd. destruct (b' =? b); [done|auto].
    + rewrite (fy_zero _ _ R). by destruct (0 =? b).
    + fold u. rewrite Eu. by destruct (u =? b).
    + done.
    + by apply (dev_full_put _ _ bs); [apply R| |rewrite length_replicate].
    + apply R.
  - do 3 eexists. split; [done|]. split; [done|]. split.
    + destruct R as [R1 R2 R3 R4 R5 R6]. constructor; try done. by exists I, B.
    + intros b Hb. rewrite HB by done. pose proof (Hall b Hb) as Hx. unfold in_use_blk in Hx. by rewrite one_block in Hx.
Qed.

(** Any block but the first one can be given back. *)
Definition not_first (b : Z) : Prop := a_block b /\ b <> first_data_block sb /\ b <> 0.

Lemma fsys_free_ok s st b : fsys_rep s st -> not_first b -> used st b = true -> exists s', free_blk s b = Done s' /\ fsys_rep s' (with_used st b false).
Proof using V Hratio.
  intros [(I & B & S & HB) R2 R3 R4 R5 R6] (Hb & Hn & Hn0) Hu. cbn [free_blk this_store fsys_store].
  destruct (block_stats_ok sb V hook (alloc_state s) I B b false S Hb) as (v & E & S'); [rewrite one_block, <- HB; done|]. change (delta false) with (-1) in E. rewrite E. cbn [obind].
  eexists. split; [done|]. rewrite one_block in S'. constructor; cbn [dev used inodes alloc_state io table set_alloc with_used]; try done.
  - exists I, (upd B b false). split; [done|]. intros b' Hb'. unfold upd. destruct (b' =? b); [done|auto].
  - destruct (Z.eqb_spec 0 b); [lia|done].
  - by destruct (Z.eqb_spec (first_data_block sb) b).
Qed.

Lemma fsys_get_inode_ok s st ino i : fsys_rep s st -> inodes st !! ino = Some i -> exists s', read_inode s ino = Done (0, Some i, s') /\ fsys_rep s' st.
Proof using.
  intros [R1 R2 R3 R4 R5 R6] Hi. cbn [read_inode this_store fsys_store]. destruct (table_read_ok _ _ _ _ R6 Hi) as (t & -> & R6'). cbn [obind]. eexists. split; [done|]. by constructor.
Qed.

Lemma fsys_put_inode_ok s st ino i i' : fsys_rep s st -> inodes st !! ino = Some i ->
  exists s', write_inode s ino i' = Done (0, s') /\ fsys_rep s' (with_inode st ino i').
Proof using.
  intros [R1 R2 R3 R4 R5 R6] Hi. cbn [write_inode this_store fsys_store]. destruct (table_write_ok _ _ _ _ i' R6 Hi) as (t & -> & R6'). cbn [obind]. eexists. split; [done|]. by constructor.
Qed.

Lemma fsys_inode_goal_ok s st ino i l : fsys_rep s st -> has (i_flags i) EXT4_EXTENTS_FL = false -> length (i_block i) = 15%nat ->
  exists g s', inode_goal s ino i l = Done (g, s') /\ fsys_rep s' st.
Proof using.
  intros R Hext Hlen. cbn [inode_goal this_store fsys_store]. unfold ext2fs_find_inode_goal. rewrite Hext. destruct (_ || _); [eauto|].
  destruct (i_block i) as [|b ib]; [done|]. cbn. eauto.
Qed.

Lemma fsys_large_ok s st x : fsys_rep s st -> exists s', large_feature s x = Done s' /\ fsys_rep s' st.
Proof using.
  intros R. eexists. split; [done|]. unfold set_large. destruct (if x then _ else _); [done|]. destruct R as [(I & B & S & HB) R2 R3 R4 R5 R6]. constructor; try done.
  exists I, B. split; [|done]. destruct S as [S1 S2 S3]. split; [|done..]. by apply (counts_ok_same sb (alloc_state s)).
Qed.

#[export] Instance fsys_laws : FileStoreLaws fsys := {|
  fs_rep := fsys_rep; usable := a_block; removable := not_first; fs_free := fsys_free_ok; fs_read := fsys_read_ok; fs_write := fsys_write_ok; fs_alloc := fsys_alloc_ok;
  fs_get_inode := fsys_get_inode_ok; fs_put_inode := fsys_put_inode_ok; fs_goal := fsys_inode_goal_ok; fs_large := fsys_large_ok |}.
End laws.
