(* ===== verification/FileSystemProperties.v ===== *)
(** Files on a file system: the refinement of files to bytes, and what it says of a
    file system whose blocks are on the channel of unix_io.c and whose used blocks are
    in bitmaps. *)

From S2P Require Import Prelude Crc Bitops BlockIo Bitmap32 Bitmap64 GenBitmap BitmapRefine BitArray BitmapProperties UnixIo UnixIoSpec UnixIoProperties UnixBlockIo Group GroupSpec Alloc AllocSpec AllocBlock AllocProperties.
From S2P Require Import Bmap BmapSpec BmapGrow BmapWalk Punch PunchSpec PunchCut PunchProperties FileIo FileIoSpec FileIoWrite FileIoSize FileIoProperties FileSystem.

Local Open Scope Z_scope.

(** C6: an open file of a file system is a sequence of bytes with a position.  Whatever
    reads, writes, seeks, extensions, flushes and reopenings are made that [file_safe]
    allows, the replies are those of a list of bytes (what was never written reads as
    zeros), and so are the contents that are found when the file is closed and opened
    again.  The only error is that no block is left, after replies that are right.
    Blocks and inodes of other files are not touched.  [file_safe] asks that sizes are
    not lowered (old bytes come back otherwise, [stale_bytes]), that what is written
    lies where a file of the block size can have blocks, and that files of 2 GB and
    more are regular files; blocks have 1 to 64 KB and are not shared. *)
Theorem file_refines_bytes {S} `{FileStoreLaws S} fs extent_bmap punch_extent ea_remove inline_get inline_set inline_expand sha512 mode m os f (s : S) st a :
  10 <= blocksize_bits fs <= 16 -> flag_share_dup fs = false -> flag_rw fs = true -> is_file fs mode f s st a -> file_safe fs mode os a ->
  exists rs r f' s' st', file_run fs extent_bmap punch_extent ea_remove inline_get inline_set inline_expand sha512 m os f s = Done (rs, r, f', s') /\
    frame fs (f_ino f) st (i_block (f_inode f)) st' (i_block (f_inode f')) /\
    (r = 0 /\ rs = fst (file_specs os a) /\ is_file fs mode f' s' st' (snd (file_specs os a)) \/ r <> 0 /\ rs `prefix_of` fst (file_specs os a) /\ full st' /\ fs_rep s' st').
Proof. intros Hbits Hshare Hrw Hi Hs. by apply file_run_ok. Qed.

(** C10: a write that runs out of blocks.  [ext2fs_file_write] returns; it succeeds
    exactly if all bytes are counted as written.  Otherwise no block is left, and the
    count is right: whoever opens the inode again finds the contents with exactly the
    bytes that were counted, and none of those that were not, even if an indirect block
    was taken for a block that could not be; blocks and inodes of other files are not
    touched. *)
Theorem failed_write_counts {S} `{FileStoreLaws S} fs extent_bmap punch_extent ea_remove inline_get inline_set inline_expand sha512 mode m bs mem f (s : S) st data pos :
  10 <= blocksize_bits fs <= 16 -> flag_share_dup fs = false -> flag_rw fs = true -> is_file fs mode f s st (data, pos) -> bs <> [] -> file_allowed fs mode (FWrite bs) (data, pos) ->
  Z.of_nat (length mem) = 3 * blocksize fs -> bytes_ok mem ->
  exists r n f' s' st', ext2fs_file_write fs extent_bmap punch_extent ea_remove inline_get inline_set inline_expand sha512 s f m bs = Done (r, Some n, f', m, s') /\
    frame fs (f_ino f) st (i_block (f_inode f)) st' (i_block (f_inode f')) /\ 0 <= n /\ (r = 0 <-> n = Z.of_nat (length bs)) /\
    (r <> 0 -> full st' /\ exists f2 s2, ext2fs_file_open2 fs mem s' (f_ino f) None EXT2_FILE_WRITE = Done (0, Some f2, s2) /\
       is_file fs mode f2 s2 st' (fst (snd (file_spec (FWrite (take (Z.to_nat n) bs)) (data, pos))), 0)).
Proof.
  intros Hbits Hshare Hrw Hi Hne Ha Hl Hm.
  destruct (file_write_ok fs Hbits extent_bmap punch_extent ea_remove inline_get inline_set inline_expand sha512 Hshare mode bs m f s st data pos Hi Hne Ha)
    as (r & n & f' & s' & st' & E & _ & Fr & Hend). exists r, n, f', s', st'. split; [done|]. split; [done|].
  destruct Hend as [(-> & -> & _)|(Hr & Hf & R & Hn & Hsv)]; [split; [lia|]; done|]. split; [lia|]. split; [split; intros; [done|lia]|]. intros _. split; [done|].
  destruct Hi as [_ _ Hfd [_ Hp] _ _]. destruct Ha as (_ & Hfb & _). pose proof (written_fits fs Hbits data pos bs n Hp Hfd Hfb Hn) as Hfit.
  destruct (open_saved fs Hrw mode (f_ino f) s' st' _ mem Hsv R Hfit Hl Hm) as (f2 & s2 & Eo & Hi2 & _). by exists f2, s2.
Qed.

(** * Files on a volume *)

Section volume.
Context {P C T : Type} `{BitmapLaws P} `{BlockIoLaws C} `{InodeTableLaws T}.
Context (fs : Bmap.filsys) (sb : super) (log_flex : Z).
Context (read_block_bitmap : vol P -> outcome (Z * vol P)) (hook : bool) (zeroout : C -> Z -> outcome (Z * C)).
Context (extent_goal : fsys P C T -> Z -> inode -> Z -> outcome (option Z * fsys P C T)).

(** A volume that files can be on: one block in a cluster, and numbers of blocks that
    fit in the pointers of indirect blocks. *)
Record file_geo : Prop := {
  fg_geo : vol_geo sb;
  fg_ratio : cluster_ratio_bits (geo sb) = 0;
  fg_first : first_data_block sb <= 1;
  fg_count : blocks_count sb <= 2 ^ 32;
  fg_bits : 10 <= blocksize_bits fs <= 16;
  fg_share : flag_share_dup fs = false;
  fg_rw : flag_rw fs = true }.

#[local] Instance vol_io : BlockIo (fsys P C T) := fsys_io.
#[local] Instance vol_store : FileStore (fsys P C T) := fsys_store fs sb log_flex None read_block_bitmap hook zeroout extent_goal.

Context (G : file_geo).

#[local] Instance vol_laws : FileStoreLaws (fsys P C T) :=
  fsys_laws fs sb (fg_geo G) log_flex (fg_ratio G) (fg_first G) (fg_count G) read_block_bitmap hook zeroout extent_goal.

(** What the volume reports agrees with the blocks that are used. *)
Lemma rep_agrees s st : fsys_rep fs sb s st -> exists I B, agrees sb (alloc_state s) (I, B) /\ forall b, a_block sb b -> B b = used st b.
Proof using G.
  intros R. destruct (fy_stats _ _ _ _ R) as (I & B & S & HB). exists I, B. split; [by apply (stats_agree sb (fg_geo G) _ (I, B))|]. intros b Hb. by rewrite HB.
Qed.

(** C9: files on a volume of at most 2^32 blocks of 1 to 64 KB, one block in a cluster,
    that begins at block 0 or 1.  Blocks are taken with the bitmaps of any back end, the
    descriptors and the super block, and read and written on any channel that keeps its
    blocks.  Reads, writes, seeks, extensions, flushes and reopenings of an open file, in
    any sequence that [file_safe] allows, reply like a list of bytes and a position;
    when the sequence ends, also for want of a block, the free counts of every group
    and of the super block, the bitmaps and the checksums of the descriptors agree;
    every block that was used before is used, and if all went well so is every block
    that holds bytes of the file.  [file_safe] forbids lowering the size of the file
    (old bytes come back when it grows again, [stale_bytes]), writing where a file of
    the block size has no blocks, and files of 2 GB and more that are not regular
    files. *)
Theorem file_on_volume extent_bmap punch_extent ea_remove inline_get inline_set inline_expand sha512 mode m os f s st a :
  is_file fs mode f s st a -> file_safe fs mode os a ->
  exists rs r f' s' st' I B, file_run fs extent_bmap punch_extent ea_remove inline_get inline_set inline_expand sha512 m os f s = Done (rs, r, f', s') /\
    agrees sb (alloc_state s') (I, B) /\ (forall b, a_block sb b -> used st b = true -> B b = true) /\
    (r = 0 /\ rs = fst (file_specs os a) /\ is_file fs mode f' s' st' (snd (file_specs os a)) /\
       (forall l, in_file fs l -> a_block sb (fmap fs st' (i_block (f_inode f')) l) -> B (fmap fs st' (i_block (f_inode f')) l) = true) \/
     r <> 0 /\ rs `prefix_of` fst (file_specs os a) /\ forall b, a_block sb b -> B b = true).
Proof using G.
  intros Hi Hs. destruct (file_run_ok fs (fg_bits G) extent_bmap punch_extent ea_remove inline_get inline_set inline_expand sha512 (fg_share G) (fg_rw G) mode m os f s st a Hi Hs)
    as (rs & r & f' & s' & st' & E & Fr & Hend).
  assert (R : fsys_rep fs sb s' st') by (destruct Hend as [(_ & _ & Hi')|(_ & _ & _ & R)]; [apply (if_open _ _ _ _ _ _ Hi')|done]).
  destruct (rep_agrees _ _ R) as (I & B & Ha & HB). exists rs, r, f', s', st', I, B. split; [done|]. split; [done|].
  split; [intros b Hb Hu; rewrite HB by done; by apply (fr_used _ _ _ _ _ _ Fr)|]. destruct Hend as [(-> & -> & Hi')|(Hr & Hpre & Hf & _)].
  - left. do 3 (split; [done|]). intros l Hl Hb. rewrite HB by done.
    destruct (decide (fmap fs st' (i_block (f_inode f')) l = 0)) as [->|Hn]; [apply (fy_zero _ _ _ _ R)|].
    apply (mp_node _ _ _ (op_mapped _ _ _ _ _ _ (if_open _ _ _ _ _ _ Hi'))); [by apply (lpos_valid fs (fg_bits G))|done].
  - right. split; [done|]. split; [done|]. intros b Hb. rewrite HB by done. by apply Hf.
Qed.

(** C15: truncation on a volume.  [ext2fs_punch] from a logical block to the end of a
    file that is mapped by indirect blocks succeeds; the blocks before are where they
    were and hold what they held; all blocks behind, and the indirect blocks that are
    not needed any more, are given back and no others: a block of the file is used
    afterwards exactly if it is still in its tree.  The count of blocks in the inode
    goes down by the blocks given back, other files are not touched, and the free counts,
    bitmaps and checksums of the volume agree with the blocks that are used. *)
Theorem truncate_on_volume punch_extent ea_remove (s : fsys P C T) st ino i start :
  blocksize_bits fs <= 12 -> cluster_bits fs = 0 -> flag_image_file fs = false -> 0 <= start < 2 ^ 32 -> by_blocks i -> fsys_rep fs sb s st -> mapped fs st (i_block i) ->
  is_Some (inodes st !! ino) -> count_ok i -> (forall q, valid fs q -> nd fs st (i_block i) q <> 0 -> not_first sb (nd fs st (i_block i) q)) ->
  blocks_cut fs st i start * unit_of fs i <= iblk_count fs i ->
  exists i' s' st' I B, ext2fs_punch fs punch_extent ea_remove s ino i start (2 ^ 64 - 1) = Done (0, i', s') /\ truncated fs st i start st' i' /\
    inodes st' = <[ino := i']> (inodes st) /\ agrees sb (alloc_state s') (I, B) /\ forall b, a_block sb b -> B b = used st' b.
Proof using G.
  intros Hb Hc Hi Hs Hby R M Hino Hci Hrem Hcount. pose proof (fg_bits G) as Hbits.
  assert (R0 : fs_rep s st) by exact R.
  destruct (punch_truncates fs ltac:(lia) Hc Hi punch_extent ea_remove s st ino i start Hs Hby R0 M Hino Hci Hrem Hcount) as (i' & s' & st' & E & R' & Tr & Ei).
  destruct (rep_agrees _ _ R') as (I & B & Ha & HB). by exists i', s', st', I, B.
Qed.
End volume.

(** * A small file system *)

(** 32 blocks of 1024 bytes. *)
Definition small_fs : Bmap.filsys := Bmap.mk_fs 10 0 false true false false false.

Definition blank : list Z := replicate 1024 0.

Definition blank_disk : channel :=
  mk_chan EXT2_ET_MAGIC_IO_CHANNEL 1024 1 false 0 EXT2_ET_MAGIC_UNIX_IO_CHANNEL false false 0 0
    (replicate 8 (no_cache (Some (9, blank)))) None 0 0 (mk_dev (mjoin (replicate 33 blank)) 0 []).

Definition blank_dev : gmap Z (list Z) := gset_to_gmap blank (list_to_set (Z.of_nat <$> seq 1 32)).

Lemma blank_lookup b bs : blank_dev !! b = Some bs <-> 1 <= b < 33 /\ bs = blank.
Proof.
  unfold blank_dev. rewrite lookup_gset_to_gmap_Some, elem_of_list_to_set, list_elem_of_fmap. split.
  - intros [(k & -> & Hk%elem_of_seq) <-]. split; [lia|done].
  - intros [Hb ->]. split; [|done]. exists (Z.to_nat b). split; [lia|]. apply elem_of_seq. lia.
Qed.

Lemma blank_part n b : (b < n)%nat -> take 1024 (drop (1024 * b) (mjoin (replicate n blank))) = blank.
Proof.
  revert b. induction n as [|n IH]; intros b Hb; [lia|]. change (mjoin (replicate (Datatypes.S n) blank)) with (blank ++ mjoin (replicate n blank)). destruct b as [|b].
  - change (1024 * 0)%nat with 0%nat. rewrite drop_0, take_app_length'; [done|]. unfold blank. by rewrite length_replicate.
  - replace (1024 * Datatypes.S b)%nat with (length blank + 1024 * b)%nat by (unfold blank; rewrite length_replicate; lia). rewrite drop_app_add. apply IH. lia.
Qed.

Lemma length_blanks n : length (mjoin (replicate n blank)) = (1024 * n)%nat.
Proof. induction n as [|n IH]; [done|]. change (mjoin (replicate (Datatypes.S n) blank)) with (blank ++ mjoin (replicate n blank)). rewrite length_app, IH. unfold blank. rewrite length_replicate. lia. Qed.

Lemma blank_bytes : bytes_ok blank.
Proof. apply Forall_replicate. unfold is_u8. lia. Qed.

#[local] Opaque blank.

Lemma blank_rep : unix_rep blank_disk blank_dev.
Proof.
  exists (mk_alloc 1000 (fun _ => false)), (mk_array (mjoin (replicate 33 blank)) 1024 0). split; [|split; [done|]].
  - split; [|split; [reflexivity|split; [reflexivity|intros ?; reflexivity]]]. cbn [fst bytes]. apply (idle_coherent blank_disk).
    + constructor; try done; try (cbn; lia). cbn [cache blank_disk]. intros i e Hi. apply lookup_replicate in Hi as [-> _]. by exists 9, blank.
    + cbn [cache blank_disk]. intros i e Hi. apply lookup_replicate in Hi as [-> _]. done.
  - intros b bs [Hb ->]%blank_lookup. cbn [bytes unit_size]. unfold array_loc. cbn [unit_size shift]. rewrite length_blanks.
    split; [lia|]. split; [lia|]. split; [lia|]. unfold read_at. replace (Z.to_nat (b * 1024 + 0)) with (1024 * Z.to_nat b)%nat by lia. apply blank_part. lia.
Qed.

(** The inodes are kept in a map. *)
#[local] Instance map_table : InodeTable (gmap Z inode) := {|
  table_read t ino := Done (match t !! ino with Some i => (0, Some i, t) | None => (2133571369, None, t) end);
  table_write t ino i := Done (0, <[ino := i]> t) |}.

#[local] Program Instance map_table_laws : InodeTableLaws (gmap Z inode) := {| table_rep t m := t = m |}.
Next Obligation. intros t m ino i -> E. exists m. cbn. by rewrite E. Qed.
Next Obligation. intros t m ino i i' -> E. by exists (<[ino := i']> m). Qed.

#[local] Instance small_io_ops : BlockIo channel := unix_block_io None None.
#[local] Instance small_io_laws : BlockIoLaws channel := unix_laws None None.

Definition small_system : Type := fsys ba_private channel (gmap Z inode).

(** Block 1 is used. *)
Definition small_alloc : vol ba_private := get_vol (ext2fs_block_alloc_stats2 small_sb false small_vol 1 1).

(** An empty regular file. *)
Definition empty_inode : inode := mk_inode 0x8180 0 0 0 0 0 (replicate 15 0).
Definition small_inodes : gmap Z inode := {[12 := empty_inode]}.

Definition small_state : small_system := mk_fsys small_alloc blank_disk small_inodes false false 1.
Definition small_store : store := mk_store blank_dev (fun b => (b =? 0) || (b =? 1)) small_inodes.

Definition no_zeroout (c : channel) (b : Z) : outcome (Z * channel) := Done (EXT2_ET_UNIMPLEMENTED, c).
Definition no_goal (s : small_system) (ino : Z) (i : inode) (l : Z) : outcome (option Z * small_system) := Done (None, s).

#[local] Instance small_system_io : BlockIo small_system := fsys_io.
#[local] Instance small_system_store : FileStore small_system := vol_store small_fs small_sb 0 read_none false no_zeroout no_goal.

Lemma small_file_geo : file_geo small_fs small_sb.
Proof. by constructor; try exact small_geo. Qed.

#[local] Instance small_system_laws : FileStoreLaws small_system := vol_laws small_fs small_sb 0 read_none false no_zeroout no_goal small_file_geo.

Lemma small_state_rep : fsys_rep small_fs small_sb small_state small_store.
Proof.
  constructor.
  - destruct (block_stats_ok small_sb small_geo false small_vol _ _ 1 true small_ok) as (v & E & S); [vm_compute; split; congruence|done|].
    exists (fun _ => false). eexists. split; [change (alloc_state small_state) with small_alloc; unfold small_alloc; change 1 with (delta true) at 2; rewrite E; exact S|].
    intros b Hb. cbn [used small_store]. unfold upd. change (1 / 2 ^ cluster_ratio_bits (geo small_sb)) with 1. assert (1 <= b < 33) by exact Hb.
    destruct (Z.eqb_spec b 0); [lia|]. by destruct (b =? 1).
  - done.
  - done.
  - exact blank_rep.
  - intros b Hb. exists blank. split; [by apply blank_lookup|]. done.
  - done.
Qed.

Lemma empty_nd q : nd small_fs small_store (i_block empty_inode) q = 0.
Proof.
  destruct q as [[slot k] i]. unfold nd. assert (E : default 0 (i_block empty_inode !! Z.to_nat slot) = 0).
  { cbn [i_block empty_inode]. destruct (replicate 15 0 !! _) as [x|] eqn:E; [|done]. by apply lookup_replicate in E as [-> _]. }
  rewrite E. revert i. induction k as [|k IH]; intros i; [done|]. cbn [node]. by rewrite IH.
Qed.

Definition small_file : file := mk_file EXT2_ET_MAGIC_EXT2_FILE 12 empty_inode EXT2_FILE_WRITE 0 0 0 (replicate 3072 0).

Lemma small_is_file : is_file small_fs 0x8180 small_file small_state small_store ([], 0).
Proof.
  constructor; try done; [|by left].
  constructor; try done.
  - exact small_state_rep.
  - constructor; try done.
    + intros b bs [_ ->]%blank_lookup. split; [done|]. exact blank_bytes.
    + cbn [i_block f_inode small_file empty_inode]. apply Forall_replicate. unfold is_u32. lia.
    + intros q _ Hq. by rewrite empty_nd in Hq.
    + intros q r _ _ Hq. by rewrite empty_nd in Hq.
  - split; [done|]. apply Forall_replicate. unfold is_u8. lia.
  - intros l Hl _. unfold disk, fmap. rewrite empty_nd. cbn [Z.eqb]. apply list_eq. intros k. unfold zeros, fblock. rewrite list_lookup_fmap.
    destruct (decide (k < 1024)%nat).
    + rewrite lookup_replicate_2, lookup_seq_lt by done. unfold byte_of. cbn. by destruct (_ <? 0).
    + rewrite (lookup_ge_None_2 (replicate _ _)), (lookup_ge_None_2 (seq _ _)) by (rewrite ?length_replicate, ?length_seq; change (Z.to_nat (blocksize small_fs)) with 1024%nat; lia). done.
Qed.

(** No file here has extents or data in its inode. *)
Definition no_extents (s : small_system) (ino : Z) (i : inode) (flags block phys : Z) : outcome (Z * Z * Z * Z * inode * small_system) := Done (EINVAL, 0, 0, 0, i, s).
Definition no_punch (s : small_system) (ino : Z) (i : inode) (a b : Z) : outcome (Z * inode * small_system) := Done (EINVAL, i, s).
Definition no_ea (s : small_system) (ino : Z) : outcome (Z * small_system) := Done (EINVAL, s).
Definition no_get (s : small_system) (ino : Z) (i : inode) : outcome (Z * list Z * small_system) := Done (EINVAL, [], s).
Definition no_set (s : small_system) (ino : Z) (i : inode) (data : list Z) : outcome (Z * inode * small_system) := Done (EINVAL, i, s).
Definition no_hash (data : list Z) : list Z := [].

Definition small_run : list fop -> file -> small_system -> outcome (list freply * Z * file * small_system) :=
  file_run small_fs no_extents no_punch no_ea no_get no_set no_ea no_hash (ext2fs_hashmap_create 16).

(** Three bytes are written, then two in a block behind an indirect block; the file is
    closed, opened and read. *)
Definition write_read : list fop :=
  [FWrite [1; 2; 3]; FSeek 20000 0; FWrite [4; 5]; FSeek 1 0; FWrite [9]; FReopen (replicate 3072 7); FRead 4; FSeek 19999 0; FRead 10].

Lemma write_read_safe : file_safe small_fs 0x8180 write_read ([], 0).
Proof.
  assert (Hfit : forall n, 0 < n <= 20002 -> fits small_fs n).
  { intros n Hn. right. change (blocksize small_fs) with 1024. apply (in_file_le small_fs _ 20); [vm_compute; split; congruence|].
    split; [apply Z.div_pos; lia|]. apply Z.div_le_upper_bound; lia. }
  assert (Hb : forall l, forallb (fun x => (0 <=? x) && (x <? 256)) l = true -> bytes_ok l).
  { intros l Hl. apply List.Forall_forall. intros x Hx. rewrite forallb_forall in Hl. specialize (Hl x Hx). unfold is_u8. lia. }
  assert (Hw : forall data l pos bs, 0 <= pos -> pos + Z.of_nat (length (data : list Z)) = l -> 0 < l <= 20002 ->
    forallb (fun x => (0 <=? x) && (x <? 256)) data = true -> file_allowed small_fs 0x8180 (FWrite data) (bs, pos)).
  { intros data l pos bs Hp El Hl Hd. cbn [file_allowed]. rewrite El. split; [by apply Hb|]. split; [by apply Hfit|]. left. lia. }
  unfold write_read. cbn [file_safe file_spec snd]. change (0 + Z.of_nat (length [1; 2; 3])) with 3. change (20000 + Z.of_nat (length [4; 5])) with 20002.
  change (1 + Z.of_nat (length [9])) with 2. unfold seek_to. change (0 =? EXT2_SEEK_SET) with true. cbv iota.
  repeat match goal with |- context [splice (pad ?x ?n) ?p ?b] => generalize (splice (pad x n) p b); intros ? end.
  split; [by apply (Hw _ 3)|]. split; [done|]. split; [by apply (Hw _ 20002)|]. split; [done|]. split; [by apply (Hw _ 2)|].
  split; [split; [done|apply Forall_replicate; unfold is_u8; lia]|]. split; [done|]. split; [done|]. by split.
Qed.

Lemma file_refines_bytes_witness : exists rs r f' s' st', small_run write_read small_file small_state = Done (rs, r, f', s') /\
  frame small_fs 12 small_store (i_block empty_inode) st' (i_block (f_inode f')) /\
  (r = 0 /\ rs = fst (file_specs write_read ([], 0)) /\ is_file small_fs 0x8180 f' s' st' (snd (file_specs write_read ([], 0))) \/
   r <> 0 /\ rs `prefix_of` fst (file_specs write_read ([], 0)) /\ full st' /\ fs_rep s' st').
Proof.
  apply (file_refines_bytes small_fs no_extents no_punch no_ea no_get no_set no_ea no_hash 0x8180 _ write_read small_file small_state small_store);
    [cbn; lia|done|done|exact small_is_file|exact write_read_safe].
Defined.

Lemma file_on_volume_witness : exists rs r f' s' st' I B, small_run write_read small_file small_state = Done (rs, r, f', s') /\
  agrees small_sb (alloc_state s') (I, B) /\ (forall b, a_block small_sb b -> used small_store b = true -> B b = true) /\
  (r = 0 /\ rs = fst (file_specs write_read ([], 0)) /\ is_file small_fs 0x8180 f' s' st' (snd (file_specs write_read ([], 0))) /\
     (forall l, in_file small_fs l -> a_block small_sb (fmap small_fs st' (i_block (f_inode f')) l) -> B (fmap small_fs st' (i_block (f_inode f')) l) = true) \/
   r <> 0 /\ rs `prefix_of` fst (file_specs write_read ([], 0)) /\ forall b, a_block small_sb b -> B b = true).
Proof.
  apply (file_on_volume small_fs small_sb 0 read_none false no_zeroout no_goal small_file_geo no_extents no_punch no_ea no_get no_set no_ea no_hash 0x8180 _
    write_read small_file small_state small_store); [exact small_is_file|exact write_read_safe].
Defined.

(** 40 blocks of bytes, and 31 blocks are free. *)
Definition too_much : list Z := replicate (Z.to_nat 40960) 7.

Lemma too_much_allowed : file_allowed small_fs 0x8180 (FWrite too_much) ([], 0).
Proof.
  cbn [file_allowed]. unfold too_much. rewrite length_replicate, Z2Nat.id by lia. split; [apply Forall_replicate; unfold is_u8; lia|]. split; [|left; lia].
  right. apply (in_file_le small_fs _ 40); [vm_compute; split; congruence|]. by vm_compute.
Qed.

Definition small_write (s : small_system) (data : list Z) : outcome (Z * option Z * file * hashmap * small_system) :=
  ext2fs_file_write small_fs no_extents no_punch no_ea no_get no_set no_ea no_hash s small_file (ext2fs_hashmap_create 16) data.

Lemma failed_write_counts_witness : exists r n f' s' st', small_write small_state too_much = Done (r, Some n, f', ext2fs_hashmap_create 16, s') /\
  frame small_fs 12 small_store (i_block empty_inode) st' (i_block (f_inode f')) /\ 0 <= n /\ (r = 0 <-> n = Z.of_nat (length too_much)) /\
  (r <> 0 -> full st' /\ exists f2 s2, ext2fs_file_open2 small_fs (replicate 3072 0) s' 12 None EXT2_FILE_WRITE = Done (0, Some f2, s2) /\
     is_file small_fs 0x8180 f2 s2 st' (fst (snd (file_spec (FWrite (take (Z.to_nat n) too_much)) ([], 0))), 0)).
Proof.
  apply (failed_write_counts small_fs no_extents no_punch no_ea no_get no_set no_ea no_hash 0x8180 (ext2fs_hashmap_create 16) too_much (replicate 3072 0) small_file small_state small_store [] 0);
    [cbn; lia|done|done|exact small_is_file|done|exact too_much_allowed|done|apply Forall_replicate; unfold is_u8; lia].
Defined.

(** 30 blocks are written, and one is taken for pointers. *)
Example too_much_written : match small_write small_state too_much with
  | Done (r, n, f, _, s) => r = EXT2_ET_BLOCK_ALLOC_FAIL /\ n = Some 30720 /\ EXT2_I_SIZE (f_inode f) = 30720 /\ i_blocks (f_inode f) = 62 /\ table s !! 12 = Some (f_inode f) /\
      ext2fs_free_blocks_count small_sb (alloc_state s) = 0
  | Crash _ => False
  end.
Proof. vm_compute. done. Qed.

(** What is replied, the count of blocks in the inode and the blocks that are free. *)
Example write_read_replies : match small_run write_read small_file small_state with
  | Done (rs, r, f, s) => rs = [RCount 3; RDone; RCount 2; RDone; RCount 1; RDone; RBytes [1; 9; 3; 0]; RDone; RBytes [0; 4; 5]] /\ r = 0 /\
      i_blocks (f_inode f) = 6 /\ ext2fs_free_blocks_count small_sb (alloc_state s) = 28
  | Crash _ => False
  end.
Proof. vm_compute. done. Qed.

(** ** A file with an indirect block *)

(** Block 2 is the first block of the file, block 4 its block 12, behind block 3. *)
Definition tree_inode : inode := mk_inode 0x8180 12289 0 6 0 0 [2; 0; 0; 0; 0; 0; 0; 0; 0; 0; 0; 0; 3; 0; 0].
Definition tree_block : list Z := le_encode 4 4 ++ replicate 1020 0.

Definition take_at (s : small_system) (goal : Z) : small_system := match alloc_blk s goal with Done (_, _, s) => s | Crash _ => s end.
Definition taken_blocks : small_system := take_at (take_at (take_at small_state 2) 3) 4.
Definition tree_state : small_system := match write_blk taken_blocks 3 tree_block with Done (_, s) => s | Crash _ => taken_blocks end.
Definition taken_store : store := taken (taken (taken small_store 2 blank) 3 blank) 4 blank.
Definition tree_store : store := with_block taken_store 3 tree_block.

(** What is taken when a block of zeros is. *)
Lemma take_rep (s : small_system) st b : fs_rep s st -> is_u32 b -> match alloc_blk s b with Done (_, Some b', _) => b' =? b | _ => false end = true ->
  dev st !! b = Some blank -> fs_rep (take_at s b) (taken st b blank).
Proof.
  intros R Hb Hc Hd. unfold take_at. destruct (fs_alloc s st b R Hb) as (r & ob & s' & E & Ho). rewrite E in *. destruct ob as [b'|]; [|done]. apply Z.eqb_eq in Hc. subst b'.
  destruct Ho as (_ & _ & bs & Hbs & R'). rewrite Hd in Hbs. by injection Hbs as <-.
Qed.

Lemma tree_state_rep : fs_rep tree_state tree_store.
Proof.
  assert (Hbl : forall b, 1 <= b < 33 -> blank_dev !! b = Some blank) by (intros b Hb; by apply blank_lookup).
  assert (R : fs_rep taken_blocks taken_store).
  { unfold taken_blocks, taken_store. apply take_rep; [apply take_rep; [apply take_rep; [exact small_state_rep|..]|..]|..]; try (unfold is_u32; lia); try (vm_compute; reflexivity);
      cbn [dev taken with_used with_block small_store]; rewrite ?lookup_insert_ne by done; by apply Hbl. }
  assert (Hd : dev taken_store !! 3 = Some (replicate 1024 0)) by (vm_compute; reflexivity).
  destruct (fs_write taken_blocks taken_store 3 _ tree_block R Hd) as (s' & E & R'); [done| |].
  { apply Forall_app. split; [apply le_encode_bytes|]. apply Forall_replicate. unfold is_u8. lia. }
  unfold tree_state. rewrite E. exact R'.
Qed.

Lemma tree_ptr n : 0 <= n < 256 -> bptr tree_block n = if n =? 0 then 4 else 0.
Proof.
  intros Hn. destruct (Z.eqb_spec n 0) as [->|Hn0]; [done|]. unfold bptr, part, tree_block. rewrite drop_app_ge by (rewrite length_le_encode; lia).
  rewrite drop_replicate, take_replicate. generalize (4 `min` (1020 - (Z.to_nat (4 * n) - length (le_encode 4 4))))%nat. intros m. induction m as [|m IH]; [done|].
  cbn [replicate le_decode]. by rewrite IH.
Qed.

(** The pointers of the tree. *)
Lemma tree_nd q : valid small_fs q -> nd small_fs tree_store (i_block tree_inode) q =
  if decide (q = (0, 0%nat, 0)) then 2 else if decide (q = (12, 0%nat, 0)) then 3 else if decide (q = (12, 1%nat, 0)) then 4 else 0.
Proof.
  destruct q as [[slot k] x]. intros (Hs & Hk & Hx). destruct k as [|k].
  - change (addr_per_block small_fs ^ Z.of_nat 0) with 1 in Hx. assert (x = 0) as -> by lia. rewrite (decide_False (P := _ = (12, 1%nat, 0))) by congruence.
    assert (Hall : Forall (fun n => nd small_fs tree_store (i_block tree_inode) (Z.of_nat n, 0%nat, 0) =
      if decide ((Z.of_nat n, 0%nat, 0) = (0, 0%nat, 0)) then 2 else if decide ((Z.of_nat n, 0%nat, 0) = (12, 0%nat, 0)) then 3 else 0) (seq 0 15)) by (repeat constructor).
    rewrite List.Forall_forall in Hall. specialize (Hall (Z.to_nat slot) ltac:(apply in_seq; lia)). by rewrite Z2Nat.id in Hall by lia.
  - rewrite (decide_False (P := _ = (0, 0%nat, 0))), (decide_False (P := _ = (12, 0%nat, 0))) by congruence. unfold lev in Hk.
    assert (Hz : forall k x, node small_fs (dev tree_store) 0 k x = 0) by (induction k0 as [|k0 IH]; intros y; [done|]; cbn [node]; by rewrite IH).
    assert (Hcase : slot = 12 /\ k = 0%nat \/ slot = 13 \/ slot = 14) by lia. destruct Hcase as [[-> ->]|[-> | ->]].
    + assert (Hx' : 0 <= x < 256) by exact Hx. assert (Ed : dev tree_store !! 3 = Some tree_block) by apply lookup_insert_eq.
      change (nd small_fs tree_store (i_block tree_inode) (12, 1%nat, x)) with (ptr (dev tree_store) 3 (x mod 256)). rewrite Z.mod_small by done. unfold ptr. rewrite Ed, tree_ptr by done.
      destruct (Z.eqb_spec x 0) as [->|Hn]; [by rewrite decide_True|]. by rewrite decide_False by congruence.
    + rewrite decide_False by congruence. apply Hz.
    + rewrite decide_False by congruence. apply Hz.
Qed.

Lemma tree_mapped : mapped small_fs tree_store (i_block tree_inode).
Proof.
  constructor.
  - intros b bs Hb. cbn [dev tree_store with_block] in Hb. apply lookup_insert_Some in Hb as [[_ <-]|[_ Hb]]; [split; [done|]; apply Forall_app; split; [apply le_encode_bytes|apply Forall_replicate; unfold is_u8; lia]|].
    assert (Hz : forall n, n = 1024%nat -> blk_ok small_fs (replicate n 0)) by (intros n ->; split; [done|apply Forall_replicate; unfold is_u8; lia]).
    cbn [dev taken_store taken with_used with_block] in Hb. repeat apply lookup_insert_Some in Hb as [[_ <-]|[_ Hb]]; try (by apply Hz). apply blank_lookup in Hb as [_ ->]. split; [done|exact blank_bytes].
  - done.
  - repeat constructor; unfold is_u32; lia.
  - intros q V Hn. rewrite (tree_nd q V) in *. repeat (destruct (decide _); [vm_compute; eauto|]). done.
  - intros q r Vq Vr. rewrite (tree_nd q Vq), (tree_nd r Vr). repeat destruct (decide _); intros; congruence || lia.
Qed.

Lemma truncate_on_volume_witness : exists i' s' st' I B, ext2fs_punch small_fs no_punch no_ea tree_state 12 tree_inode 5 (2 ^ 64 - 1) = Done (0, i', s') /\
  truncated small_fs tree_store tree_inode 5 st' i' /\ inodes st' = <[12 := i']> (inodes tree_store) /\ agrees small_sb (alloc_state s') (I, B) /\
  forall b, a_block small_sb b -> B b = used st' b.
Proof.
  apply (truncate_on_volume small_fs small_sb 0 read_none false no_zeroout no_goal small_file_geo no_punch no_ea tree_state tree_store 12 tree_inode 5);
    [cbn; lia|done|done|lia|done|exact tree_state_rep|exact tree_mapped|vm_compute; eauto|vm_compute; repeat split; congruence| |vm_compute; congruence].
  intros q V Hn. rewrite (tree_nd q V) in *. repeat (destruct (decide _); [vm_compute; repeat split; congruence|]). done.
Defined.

(** What is left: block 0 of the file, and one block that is counted. *)
Example truncated_file : match ext2fs_punch small_fs no_punch no_ea tree_state 12 tree_inode 5 (2 ^ 64 - 1) with
  | Done (r, i, s) => r = 0 /\ i_block i = 2 :: replicate 14 0 /\ i_blocks i = 2 /\ ext2fs_free_blocks_count small_sb (alloc_state s) = 30
  | Crash _ => False
  end.
Proof. vm_compute. done. Qed.

(** * What the code does not do *)

(** The bytes behind a size that was lowered come back when the size is raised: the
    block on the device is cleared from the new size on, but not the buffer of the
    file, which is written later. *)
Example stale_bytes : match small_run [FWrite [1; 2; 3; 4]; FSetSize 1; FSetSize 4; FReopen (replicate 3072 0); FRead 4] small_file small_state with
  | Done (rs, r, _, _) => rs = [RCount 4; RDone; RDone; RDone; RBytes [1; 2; 3; 4]] /\ r = 0
  | Crash _ => False
  end.
Proof. vm_compute. done. Qed.

(** 13 blocks are written and 13 are free: when there is no block left behind the
    indirect block, the inode is written with the indirect block but its blocks are
    not counted, 24 sectors for 13 blocks. *)
Example failed_write_miscounts : match small_write (Nat.iter 18 (fun s => take_at s 2) small_state) (replicate (Z.to_nat 13312) 7) with
  | Done (r, n, f, _, s) => r = EXT2_ET_BLOCK_ALLOC_FAIL /\ n = Some 12288 /\ table s !! 12 = Some (f_inode f) /\ i_block (f_inode f) = [20; 21; 22; 23; 24; 25; 26; 27; 28; 29; 30; 31; 32; 0; 0] /\
      i_blocks (f_inode f) = 24 /\ ext2fs_free_blocks_count small_sb (alloc_state s) = 0
  | Crash _ => False
  end.
Proof. vm_compute. done. Qed.

(** Where some blocks of a file are, and the count in its inode, after blocks [start] to
    [en] were punched. *)
Definition punched (os : list fop) (start en : Z) (ls : list Z) : outcome (Z * Z * list Z) :=
  let* (_, _, f, s) := small_run os small_file small_state in
  let* (r, i, s) := ext2fs_punch small_fs no_punch no_ea s 12 (f_inode f) start en in
  Done (r, i_blocks i, map (fun l => match ext2fs_bmap2 small_fs no_extents s 12 (Some i) 0 l 0 with Done (_, p, _, _, _) => p | Crash _ => -1 end) ls).

(** Blocks 11 to 13 are punched, but 12 and 13, the first behind the indirect block,
    are kept: the count of blocks left is compared with the 12 blocks of the inode and
    not with the one behind the start. *)
Example punch_stops_early :
  punched [FSeek 11264 0; FWrite [1]; FWrite (replicate 2048 2); FReopen (replicate 3072 0)] 11 13 [11; 12; 13] = Done (0, 6, [0; 4; 5]).
Proof. vm_compute. reflexivity. Qed.

(** Blocks 468 to 528 are punched, and block 624 is lost: at the second indirect block
    the count is lowered by all blocks of the first, and wraps around. *)
Example punch_frees_too_much :
  punched [FSeek 479232 0; FWrite [1]; FSeek 638976 0; FWrite [2]; FReopen (replicate 3072 0)] 468 528 [468; 624] = Done (0, 0, [0; 0]).
Proof. vm_compute. done. Qed.

(** Blocks with the same contents are shared; the checksum is the block itself. *)
Definition share_fs : Bmap.filsys := Bmap.mk_fs 10 0 false true true false false.

Definition share_write (x : hashmap * file * small_system) (pos : Z) (data : list Z) : outcome (hashmap * file * small_system) :=
  let '(m, f, s) := x in
  let* (_, _, f, m, s) := ext2fs_file_write share_fs no_extents no_punch no_ea no_get no_set no_ea (fun l => l) s (snd (ext2fs_file_llseek f pos EXT2_SEEK_SET)) m data in
  Done (m, f, s).

Definition share_read (x : hashmap * file * small_system) (pos : Z) : outcome (list Z) :=
  let '(m, f, s) := x in
  let* (_, f, s) := ext2fs_file_flush share_fs no_extents s f in
  let* (_, out, _, _) := ext2fs_file_read share_fs no_extents no_get s (snd (ext2fs_file_llseek f pos EXT2_SEEK_SET)) 4 in Done out.

(** A block is shared with what the buffer holds when its first bytes are written; what
    is written to it afterwards is written to the other block too. *)
Example shared_block_overwritten : match
    let* x := share_write (ext2fs_hashmap_create 16, small_file, small_state) 0 [1; 2; 3] in
    let* x := share_write x 1024 [1; 2; 3] in share_write x 1027 [9] with
  | Done x => share_read x 0 = Done [1; 2; 3; 9] /\ share_read x 1024 = Done [1; 2; 3; 9]
  | Crash _ => False
  end.
Proof. vm_compute. done. Qed.

(** Data in the inode: three bytes are written at position 5 of ten.  The number of
    bytes to copy is the number that is given less the position, and wraps around. *)
Example inline_write_overruns :
  let i := mk_inode 0x8180 10 0 0 0 EXT4_INLINE_DATA_FL (replicate 15 0) in
  let f := mk_file EXT2_ET_MAGIC_EXT2_FILE 12 i EXT2_FILE_WRITE 5 0 0 (replicate 3072 0) in
  ext2fs_file_write small_fs no_extents no_punch no_ea (fun s _ _ => Done (0, replicate 10 7, s)) no_set no_ea no_hash small_state f (ext2fs_hashmap_create 16) [1; 2; 3] =
  Crash BadPointer.
Proof. vm_compute. done. Qed.
