(* ===== verification/CText.v ===== *)
(** Text as the C library reads and prints it: characters, comparison without case,
    numbers in text.  A string is the list of its bytes without the one at its end. *)

From S2P Require Import Prelude.

Local Open Scope Z_scope.

(** The bytes of a text in the source. *)
Definition text (s : string) : list Z := map (fun c => Z.of_nat (Ascii.nat_of_ascii c)) (String.list_ascii_of_string s).

(** * Characters, in the C locale *)

Definition isspace (c : Z) : bool := (9 <=? c) && (c <=? 13) || (c =? 32).
Definition isxdigit (c : Z) : bool := (48 <=? c) && (c <=? 57) || (65 <=? c) && (c <=? 70) || (97 <=? c) && (c <=? 102).
Definition tolower (c : Z) : Z := if (65 <=? c) && (c <=? 90) then c + 32 else c.

Definition strcasecmp (a b : list Z) : bool := bool_decide (map tolower a = map tolower b).
Definition strncasecmp (a b : list Z) (n : nat) : bool := strcasecmp (take n a) (take n b).

(** * Numbers *)

(** The value of a digit or a letter. *)
Definition digit_of (c : Z) : option Z :=
  if (48 <=? c) && (c <=? 57) then Some (c - 48)
  else if (97 <=? tolower c) && (tolower c <=? 122) then Some (tolower c - 87) else None.

Fixpoint read_digits (base acc : Z) (s : list Z) : Z * list Z :=
  match s with
  | c :: s' =>
      match digit_of c with
      | Some d => if d <? base then read_digits base (acc * base + d) s' else (acc, s)
      | None => (acc, s)
      end
  | [] => (acc, [])
  end.

Definition is_digit (base c : Z) : bool := match digit_of c with Some d => d <? base | None => false end.

Fixpoint skip_spaces (s : list Z) : list Z :=
  match s with c :: s' => if isspace c then skip_spaces s' else s | [] => [] end.

(** [0x] in front of a digit. *)
Definition hex_prefix (s : list Z) : bool :=
  match s with z :: x :: d :: _ => (z =? 48) && (tolower x =? 120) && is_digit 16 d | _ => false end.

Definition read_sign (s : list Z) : bool * list Z :=
  match s with c :: s' => if c =? 45 then (true, s') else if c =? 43 then (false, s') else (false, s) | [] => (false, []) end.

Definition read_base (base : Z) (s : list Z) : Z * list Z :=
  if ((base =? 0) || (base =? 16)) && hex_prefix s then (16, drop 2 s)
  else if base =? 0 then (match s with c :: _ => if c =? 48 then 8 else 10 | [] => 10 end, s) else (base, s).

(** Whether there is a minus sign, the number and what follows it; [None] if there are no
    digits. *)
Definition read_number (base : Z) (s : list Z) : option (bool * Z * list Z) :=
  let '(neg, s) := read_sign (skip_spaces s) in
  let '(base, s) := read_base base s in
  if match s with c :: _ => is_digit base c | [] => false end then
    let '(v, rest) := read_digits base 0 s in Some (neg, v, rest)
  else None.

(** Numbers of 64 bits, which stop at the bounds. *)
Definition strtoul (base : Z) (s : list Z) : Z * list Z :=
  match read_number base s with
  | None => (0, s)
  | Some (neg, v, rest) => (if 2 ^ 64 <=? v then 2 ^ 64 - 1 else if neg then u64 (- v) else v, rest)
  end.

Definition strtol (base : Z) (s : list Z) : Z * list Z :=
  match read_number base s with
  | None => (0, s)
  | Some (neg, v, rest) => (if neg then Z.max (- 2 ^ 63) (- v) else Z.min (2 ^ 63 - 1) v, rest)
  end.

(** * Printing *)

Definition hex_digit (upper : bool) (d : Z) : Z := if d <? 10 then 48 + d else if upper then 55 + d else 87 + d.

(** [%0nx] for a number of at most [n] digits. *)
Fixpoint print_hex (upper : bool) (n : nat) (v : Z) : list Z :=
  match n with O => [] | S n => print_hex upper n (v / 16) ++ [hex_digit upper (v mod 16)] end.

(** [%d]; a number of 32 bits has at most ten digits. *)
Fixpoint dec_digits (fuel : nat) (v : Z) (acc : list Z) : list Z :=
  match fuel with
  | O => acc
  | S fuel => let acc := (48 + v mod 10) :: acc in if v <? 10 then acc else dec_digits fuel (v / 10) acc
  end.

Definition print_dec (v : Z) : list Z := if v <? 0 then 45 :: dec_digits 10 (- v) [] else dec_digits 10 v [].

(** * Lemmas *)

(** Comparisons of a character with constants. *)
Ltac char_cases :=
  repeat match goal with
    | |- context [?a <=? ?b] => destruct (Z.leb_spec a b); cbn [andb orb]; try lia
    | |- context [?a <? ?b] => destruct (Z.ltb_spec a b); cbn [andb orb]; try lia
    end; try done.

Lemma isxdigit_digit c : isxdigit c = is_digit 16 c.
Proof. unfold isxdigit, is_digit, digit_of, tolower. destruct (Z.leb_spec 65 c), (Z.leb_spec c 90); cbn [andb]; char_cases. Qed.

(** Digits in front of something else. *)
Definition value (base : Z) (ds : list Z) : Z := fold_left (fun acc c => acc * base + default 0 (digit_of c)) ds 0.

Lemma fold_value base ds acc : 0 <= base -> fold_left (fun acc c => acc * base + default 0 (digit_of c)) ds acc = acc * base ^ Z.of_nat (length ds) + value base ds.
Proof.
  intros Hb. unfold value. revert acc. induction ds as [|c ds IH]; intros acc; [cbn; lia|]. cbn [fold_left length]. rewrite IH, (IH (0 * base + _)).
  rewrite Nat2Z.inj_succ, Z.pow_succ_r by lia. ring.
Qed.

Lemma value_snoc base ds c : value base (ds ++ [c]) = value base ds * base + default 0 (digit_of c).
Proof. unfold value. by rewrite fold_left_app. Qed.

Lemma read_digits_value base ds rest acc : Forall (fun c => is_digit base c = true) ds -> match rest with c :: _ => is_digit base c = false | [] => True end ->
  read_digits base acc (ds ++ rest) = (fold_left (fun acc c => acc * base + default 0 (digit_of c)) ds acc, rest).
Proof.
  intros Hd Hr. revert acc. induction Hd as [|c ds Hc Hd IH]; intros acc.
  - destruct rest as [|c rest]; [done|]. unfold is_digit in Hr. cbn. destruct (digit_of c); [by rewrite Hr|done].
  - unfold is_digit in Hc. cbn [app read_digits fold_left]. destruct (digit_of c) as [d|] eqn:Ed; [|done]. rewrite Hc. by rewrite IH.
Qed.

(** A number of digits that begins at once. *)
Lemma hex_number ds rest : ds <> [] -> (length ds <= 16)%nat -> Forall (fun c => is_digit 16 c = true) ds -> match rest with c :: _ => is_digit 16 c = false | [] => True end ->
  match rest with c :: _ => tolower c <> 120 | [] => True end -> strtoul 16 (ds ++ rest) = (value 16 ds, rest) /\ 0 <= value 16 ds < 16 ^ Z.of_nat (length ds).
Proof.
  intros Hne Hl Hd Hr Hx.
  assert (Hb : forall ds, Forall (fun c => is_digit 16 c = true) ds -> 0 <= value 16 ds < 16 ^ Z.of_nat (length ds)).
  { clear. intros ds. induction ds as [|c ds IH] using rev_ind; intros Hd; [cbn; lia|]. apply Forall_app in Hd as [Hd Hc]. apply Forall_cons in Hc as [Hc _]. specialize (IH Hd).
    rewrite value_snoc, length_app, Nat2Z.inj_add, Z.pow_add_r by lia. unfold is_digit in Hc. destruct (digit_of c) as [d|] eqn:E; [|done]. apply Z.ltb_lt in Hc. cbn.
    assert (0 <= d) by (unfold digit_of in E; repeat (destruct (_ && _) eqn:? in E; [injection E as <-; lia|]); done). lia. }
  split; [|by apply Hb]. unfold strtoul, read_number. destruct ds as [|c ds]; [done|].
  assert (Hc : is_digit 16 c = true) by (by apply Forall_cons in Hd as [? _]).
  assert (Hr48 : 48 <= c <= 57 \/ 65 <= c <= 70 \/ 97 <= c <= 102) by (rewrite <- isxdigit_digit in Hc; unfold isxdigit in Hc; lia).
  assert (Hs : skip_spaces ((c :: ds) ++ rest) = (c :: ds) ++ rest) by (cbn; unfold isspace; char_cases; destruct (Z.eqb_spec c 32); [lia|done]).
  assert (Hg : read_sign ((c :: ds) ++ rest) = (false, (c :: ds) ++ rest)) by (cbn; destruct (Z.eqb_spec c 45), (Z.eqb_spec c 43); try lia; done).
  assert (Hp : hex_prefix ((c :: ds) ++ rest) = false).
  { destruct ds as [|x ds]; [destruct rest as [|x rest]; [done|]; cbn [app hex_prefix]; destruct rest as [|d rest]; [done|]; by rewrite (proj2 (Z.eqb_neq _ _) Hx), andb_false_r|].
    assert (Hxd : is_digit 16 x = true) by (by apply Forall_cons in Hd as [_ [? _]%Forall_cons]). cbn [app hex_prefix]. destruct (ds ++ rest) as [|d l]; [done|].
    rewrite <- isxdigit_digit in Hxd. unfold isxdigit in Hxd. unfold tolower. destruct (Z.leb_spec 65 x), (Z.leb_spec x 90); cbn [andb]; destruct (Z.eqb_spec (x + 32) 120), (Z.eqb_spec x 120); try lia; by rewrite andb_false_r. }
  rewrite Hs, Hg. unfold read_base. rewrite Hp, andb_false_r. change (16 =? 0) with false. cbn iota. cbn [app]. rewrite Hc. change (c :: ds ++ rest) with ((c :: ds) ++ rest).
  rewrite read_digits_value by done. fold (value 16 (c :: ds)). specialize (Hb _ Hd). assert (16 ^ Z.of_nat (length (c :: ds)) <= 16 ^ 16) by (apply Z.pow_le_mono_r; lia).
  change (16 ^ 16) with (2 ^ 64) in *. destruct (Z.leb_spec (2 ^ 64) (value 16 (c :: ds))); [lia|done].
Qed.

(** * Digits that are printed *)

Lemma length_print_hex upper n v : length (print_hex upper n v) = n.
Proof. revert v. induction n as [|n IH]; intros v; [done|]. cbn. rewrite length_app, IH. cbn. lia. Qed.

Lemma hex_digit_of upper d : 0 <= d < 16 -> digit_of (hex_digit upper d) = Some d.
Proof.
  intros Hd. assert (Hall : forallb (fun k => bool_decide (digit_of (hex_digit upper (Z.of_nat k)) = Some (Z.of_nat k))) (seq 0 16) = true) by (by destruct upper).
  rewrite forallb_forall in Hall. specialize (Hall (Z.to_nat d) ltac:(apply in_seq; lia)). apply bool_decide_eq_true in Hall. by rewrite Z2Nat.id in Hall by lia.
Qed.

Lemma print_hex_digits upper n v : Forall (fun c => is_digit 16 c = true) (print_hex upper n v).
Proof.
  revert v. induction n as [|n IH]; intros v; [constructor|]. cbn. apply Forall_app. split; [apply IH|]. constructor; [|constructor].
  unfold is_digit. pose proof (Z.mod_pos_bound v 16 ltac:(lia)). rewrite hex_digit_of by done. apply Z.ltb_lt. lia.
Qed.

Lemma value_print_hex upper n v : 0 <= v < 16 ^ Z.of_nat n -> value 16 (print_hex upper n v) = v.
Proof.
  revert v. induction n as [|n IH]; intros v Hv; [change (16 ^ Z.of_nat 0) with 1 in Hv; cbn; lia|]. rewrite Nat2Z.inj_succ, Z.pow_succ_r in Hv by lia. cbn [print_hex].
  pose proof (Z.mod_pos_bound v 16 ltac:(lia)). rewrite value_snoc, IH, hex_digit_of by first [done|split; [apply Z.div_pos|apply Z.div_lt_upper_bound]; lia].
  cbn. pose proof (Z_div_mod_eq_full v 16). lia.
Qed.

Lemma print_digit c : is_digit 16 c = true -> hex_digit false (default 0 (digit_of c)) = tolower c /\ 0 <= default 0 (digit_of c) < 16.
Proof. rewrite <- isxdigit_digit. unfold isxdigit. intros Hc. unfold digit_of, hex_digit, tolower. destruct (Z.leb_spec 65 c), (Z.leb_spec c 90); cbn [andb]; char_cases; cbn [default from_option id] in *; char_cases; cbn [default from_option id] in *; split; lia. Qed.

Lemma print_value ds : Forall (fun c => is_digit 16 c = true) ds -> print_hex false (length ds) (value 16 ds) = map tolower ds.
Proof.
  induction ds as [|c ds IH] using rev_ind; intros Hd; [done|]. apply Forall_app in Hd as [Hd Hc]. apply Forall_cons in Hc as [Hc _]. destruct (print_digit c Hc) as [Hp Hb].
  rewrite length_app, Nat.add_comm, value_snoc. cbn [length Nat.add print_hex]. rewrite Z.div_add_l, (Z.div_small (default 0 (digit_of c))), Z.add_0_r, IH by (done || lia).
  rewrite Z.add_comm, Z.mod_add, Z.mod_small, Hp by lia. by rewrite map_app.
Qed.

Lemma print_hex_app upper n m v : 0 <= v -> print_hex upper (n + m) v = print_hex upper n (v / 16 ^ Z.of_nat m) ++ print_hex upper m (v mod 16 ^ Z.of_nat m).
Proof.
  intros Hv. revert v Hv. induction m as [|m IH]; intros v Hv; [change (16 ^ Z.of_nat 0) with 1; by rewrite Nat.add_0_r, Z.div_1_r, app_nil_r|].
  rewrite Nat.add_succ_r, Nat2Z.inj_succ, Z.pow_succ_r by lia. cbn [print_hex]. rewrite IH by (apply Z.div_pos; lia). assert (0 < 16 ^ Z.of_nat m) by lia.
  rewrite <- app_assoc, Z.div_div by lia. f_equal. pose proof (Z.mod_pos_bound v 16 ltac:(lia)). rewrite Z.rem_mul_r, (Z.mul_comm 16) by lia.
  rewrite Z.div_add, (Z.div_small (v mod 16)), Z.add_0_l, Z.mod_add, Z.mod_mod by lia. done.
Qed.
