(* ===== verification/Uuid.v ===== *)
(** Universally unique identifiers: lib/uuid of e2fsprogs without the generation of new
    ones.  An identifier is 16 bytes. *)

From S2P Require Import Prelude CText.

Local Open Scope Z_scope.

(** * The fields *)

Record uuid := mk_uuid { time_low : Z; time_mid : Z; time_hi_and_version : Z; clock_seq : Z; node : list Z }.

(** A byte of an array. *)
Definition byte_at (l : list Z) (i : nat) : Z := default 0 (l !! i).

(** [tmp = (tmp << 8) | *ptr++] from a position. *)
Fixpoint gather (n i : nat) (ptr : list Z) (tmp : Z) : Z :=
  match n with O => tmp | S n => gather n (S i) ptr (Z.lor (u32 (Z.shiftl tmp 8)) (byte_at ptr i)) end.

Definition uuid_unpack (ptr : list Z) : uuid :=
  mk_uuid (gather 3 1 ptr (byte_at ptr 0)) (u16 (gather 1 5 ptr (byte_at ptr 4))) (u16 (gather 1 7 ptr (byte_at ptr 6))) (u16 (gather 1 9 ptr (byte_at ptr 8))) (take 6 (drop 10 ptr)).

(** The [n] bytes of a number, the last one first. *)
Fixpoint scatter (n : nat) (tmp : Z) (out : list Z) : list Z :=
  match n with O => out | S n => scatter n (Z.shiftr tmp 8) (u8 tmp :: out) end.

Definition uuid_pack (uu : uuid) : list Z :=
  scatter 4 (time_low uu) [] ++ scatter 2 (time_mid uu) [] ++ scatter 2 (time_hi_and_version uu) [] ++ scatter 2 (clock_seq uu) [] ++ take 6 (node uu).

(** * Text *)

(** The test of one character. *)
Definition parse_char (s : list Z) (i : nat) : bool :=
  if existsb (Nat.eqb i) [8; 13; 18; 23]%nat then byte_at s i =? 45
  else if (i =? 36)%nat && (byte_at s i =? 0) then true else isxdigit (byte_at s i).

(** [strtoul] from a position. *)
Definition hex_at (s : list Z) (i : nat) : Z := fst (strtoul 16 (drop i s)).

Definition parse_node (s : list Z) (i : nat) : Z := u8 (fst (strtoul 16 [byte_at s (24 + 2 * i); byte_at s (25 + 2 * i)])).

Definition uuid_parse (s : list Z) : option (list Z) :=
  if negb (length s =? 36)%nat then None
  else if negb (forallb (parse_char s) (seq 0 37)) then None
  else Some (uuid_pack (mk_uuid (u32 (hex_at s 0)) (u16 (hex_at s 9)) (u16 (hex_at s 14)) (u16 (hex_at s 19)) (map (parse_node s) (seq 0 6)))).

Definition uuid_unparse_x (uu : list Z) (upper : bool) : list Z :=
  let u := uuid_unpack uu in
  print_hex upper 8 (time_low u) ++ [45] ++ print_hex upper 4 (time_mid u) ++ [45] ++ print_hex upper 4 (time_hi_and_version u) ++ [45] ++
  print_hex upper 2 (Z.shiftr (clock_seq u) 8) ++ print_hex upper 2 (Z.land (clock_seq u) 0xFF) ++ [45] ++ mjoin (map (fun i => print_hex upper 2 (byte_at (node u) i)) (seq 0 6)).

Definition uuid_unparse_lower (uu : list Z) : list Z := uuid_unparse_x uu false.
Definition uuid_unparse_upper (uu : list Z) : list Z := uuid_unparse_x uu true.
Definition uuid_unparse (uu : list Z) : list Z := uuid_unparse_x uu false.

(** * Comparison and others *)

(** The sign of what [memcmp] returns. *)
Fixpoint memcmp (a b : list Z) : Z :=
  match a, b with
  | x :: a, y :: b => if x =? y then memcmp a b else if x <? y then -1 else 1
  | _, _ => 0
  end.

Definition UUCMP (u1 u2 k : Z) : Z := if negb (u1 =? u2) then (if u1 <? u2 then -1 else 1) else k.

Definition uuid_compare (uu1 uu2 : list Z) : Z :=
  let u1 := uuid_unpack uu1 in
  let u2 := uuid_unpack uu2 in
  UUCMP (time_low u1) (time_low u2) (UUCMP (time_mid u1) (time_mid u2) (UUCMP (time_hi_and_version u1) (time_hi_and_version u2)
    (UUCMP (clock_seq u1) (clock_seq u2) (memcmp (node u1) (node u2))))).

Fixpoint is_null_loop (n : nat) (cp : list Z) : Z :=
  match n with O => 1 | S n => if negb (byte_at cp 0 =? 0) then 0 else is_null_loop n (drop 1 cp) end.

Definition uuid_is_null (uu : list Z) : Z := is_null_loop 16 uu.
Definition uuid_clear : list Z := replicate 16 0.

Definition TIME_OFFSET_HIGH : Z := 0x01B21DD2.
Definition TIME_OFFSET_LOW : Z := 0x13814000.

(** The seconds and microseconds. *)
Definition uuid_time (uu : list Z) : Z * Z :=
  let u := uuid_unpack uu in
  let high := Z.lor (time_mid u) (Z.shiftl (Z.land (time_hi_and_version u) 0xFFF) 16) in
  let clock_reg := Z.lor (time_low u) (Z.shiftl high 32) in
  let clock_reg := u64 (clock_reg - (Z.shiftl TIME_OFFSET_HIGH 32 + TIME_OFFSET_LOW)) in
  (clock_reg / 10000000, (clock_reg mod 10000000) / 10).

Definition uuid_type (uu : list Z) : Z := Z.land (Z.shiftr (time_hi_and_version (uuid_unpack uu)) 12) 0xF.

Definition UUID_VARIANT_NCS : Z := 0.
Definition UUID_VARIANT_DCE : Z := 1.
Definition UUID_VARIANT_MICROSOFT : Z := 2.
Definition UUID_VARIANT_OTHER : Z := 3.

Definition uuid_variant (uu : list Z) : Z :=
  let var := clock_seq (uuid_unpack uu) in
  if Z.land var 0x8000 =? 0 then UUID_VARIANT_NCS
  else if Z.land var 0x4000 =? 0 then UUID_VARIANT_DCE
  else if Z.land var 0x2000 =? 0 then UUID_VARIANT_MICROSOFT else UUID_VARIANT_OTHER.

(** * The fields of an identifier *)

Definition is_uuid (uu : list Z) : Prop := length uu = 16%nat /\ bytes_ok uu.

Record fields_ok (u : uuid) : Prop := {
  fo_low : is_u32 (time_low u);
  fo_mid : is_u16 (time_mid u);
  fo_hi : is_u16 (time_hi_and_version u);
  fo_seq : is_u16 (clock_seq u);
  fo_node : length (node u) = 6%nat /\ bytes_ok (node u) }.

Lemma lor_byte a b : 0 <= a < 2 ^ 24 -> is_u8 b -> Z.lor (u32 (Z.shiftl a 8)) b = a * 256 + b.
Proof.
  unfold is_u8, u32. intros Ha Hb. rewrite Z.shiftl_mul_pow2 by lia. rewrite Z.mod_small by lia. by rewrite lor_high_low by lia.
Qed.

Lemma uuid_unpack_bytes uu : is_uuid uu -> uuid_unpack uu =
  mk_uuid (((byte_at uu 0 * 256 + byte_at uu 1) * 256 + byte_at uu 2) * 256 + byte_at uu 3) (byte_at uu 4 * 256 + byte_at uu 5) (byte_at uu 6 * 256 + byte_at uu 7)
    (byte_at uu 8 * 256 + byte_at uu 9) (drop 10 uu).
Proof.
  intros [Hl Hb]. assert (Hu : forall i, is_u8 (byte_at uu i)).
  { intros i. unfold byte_at. destruct (uu !! i) as [x|] eqn:E; [|unfold is_u8; cbn; lia]. by apply (Forall_lookup_1 _ _ _ _ Hb E). }
  assert (H16 : forall i j, u16 (byte_at uu i * 256 + byte_at uu j) = byte_at uu i * 256 + byte_at uu j).
  { intros i j. pose proof (Hu i). pose proof (Hu j). unfold is_u8 in *. unfold u16. apply Z.mod_small. lia. }
  pose proof (Hu 0%nat). pose proof (Hu 1%nat). pose proof (Hu 2%nat). pose proof (Hu 4%nat). pose proof (Hu 6%nat). pose proof (Hu 8%nat). unfold is_u8 in *.
  unfold uuid_unpack. cbn [gather]. rewrite !(lor_byte (byte_at uu _)) by first [apply Hu|lia]. rewrite 2!(lor_byte (_ * 256 + _)) by first [apply Hu|lia]. rewrite !H16, take_ge by (rewrite length_drop; lia). done.
Qed.

Lemma scatter_word v : is_u16 v -> scatter 2 v [] = [v / 256; v mod 256].
Proof. unfold is_u16. intros Hv. cbn [scatter]. rewrite Z.shiftr_div_pow2 by lia. unfold u8. change (2 ^ 8) with 256. rewrite (Z.mod_small (v / 256)); [done|]. split; [apply Z.div_pos|apply Z.div_lt_upper_bound]; lia. Qed.

Lemma scatter_long v : is_u32 v -> scatter 4 v [] = [v / 256 / 256 / 256; v / 256 / 256 mod 256; v / 256 mod 256; v mod 256].
Proof.
  unfold is_u32. intros Hv. cbn [scatter]. rewrite !Z.shiftr_div_pow2 by lia. unfold u8. change (2 ^ 8) with 256. rewrite (Z.mod_small (v / 256 / 256 / 256)); [done|].
  rewrite !Z.div_div by lia. split; [apply Z.div_pos|apply Z.div_lt_upper_bound]; lia.
Qed.

Lemma unpack_fields uu : is_uuid uu -> fields_ok (uuid_unpack uu).
Proof.
  intros Hu. rewrite uuid_unpack_bytes by done. destruct Hu as [Hl Hb]. do 16 (destruct uu as [|? uu]; [done|]). destruct uu; [|done]. unfold bytes_ok in Hb. rewrite !Forall_cons in Hb. destruct_and! Hb.
  unfold is_u8 in *. constructor; cbn; unfold is_u32, is_u16; try lia. split; [done|]. unfold bytes_ok. rewrite !Forall_cons. repeat split; try done; unfold is_u8 in *; lia.
Qed.

Lemma uuid_pack_unpack uu : is_uuid uu -> uuid_pack (uuid_unpack uu) = uu.
Proof.
  intros Hu. destruct (unpack_fields uu Hu) as [F1 F2 F3 F4 _]. unfold uuid_pack. rewrite scatter_long, !scatter_word by done. rewrite uuid_unpack_bytes by done. destruct Hu as [Hl Hb].
  do 16 (destruct uu as [|? uu]; [done|]). destruct uu; [|done]. unfold bytes_ok in Hb. rewrite !Forall_cons in Hb. destruct_and! Hb. unfold is_u8 in *. change (2 ^ 8) with 256 in *.
  cbn [time_low time_mid time_hi_and_version clock_seq node byte_at lookup list_lookup default from_option id drop take app].
  assert (Hq : forall a b, 0 <= b < 256 -> (a * 256 + b) / 256 = a) by (intros a b Hb'; rewrite Z.div_add_l, Z.div_small by lia; lia).
  assert (Hr : forall a b, 0 <= b < 256 -> (a * 256 + b) mod 256 = b) by (intros a b Hb'; rewrite Z.add_comm, Z.mod_add, Z.mod_small by lia; lia).
  rewrite !Hq, !Hr by done. done.
Qed.

Lemma pack_uuid u : fields_ok u -> is_uuid (uuid_pack u).
Proof.
  intros [F1 F2 F3 F4 [Hl Hb]]. unfold uuid_pack. rewrite scatter_long, !scatter_word by done. rewrite take_ge by lia. split; [cbn; lia|].
  unfold is_u32, is_u16 in *. unfold bytes_ok. rewrite !Forall_app, !Forall_cons. unfold is_u8. repeat split; try done; try (by constructor); try apply Z.mod_pos_bound; try lia; rewrite ?Z.div_div by lia;
    (apply Z.div_pos; lia) || (apply Z.div_lt_upper_bound; lia) || idtac.
Qed.

Lemma uuid_unpack_pack u : fields_ok u -> uuid_unpack (uuid_pack u) = u.
Proof.
  intros Hf. rewrite uuid_unpack_bytes by (by apply pack_uuid). destruct Hf as [F1 F2 F3 F4 [Hl Hb]]. unfold uuid_pack. rewrite scatter_long, !scatter_word by done. rewrite take_ge by lia.
  assert (Hd : forall v, v / 256 * 256 + v mod 256 = v) by (intros v; pose proof (Z_div_mod_eq_full v 256); lia).
  cbn [app byte_at lookup list_lookup default from_option id drop]. rewrite !Hd. by destruct u.
Qed.

(** * Identifiers in text *)

Definition digits16 (l : list Z) : Prop := Forall (fun c => is_digit 16 c = true) l.

(** Five numbers with hyphens between them. *)
Definition joined (a b c d e : list Z) : list Z := a ++ 45 :: b ++ 45 :: c ++ 45 :: d ++ 45 :: e.

Record shape (a b c d e : list Z) : Prop := {
  sh_len : (length a, length b, length c, length d, length e) = (8, 4, 4, 4, 12)%nat;
  sh_digits : digits16 a /\ digits16 b /\ digits16 c /\ digits16 d /\ digits16 e }.

(** The bytes of pairs of digits. *)
Definition pairs (e : list Z) : list Z := map (fun i => value 16 [byte_at e (2 * i); byte_at e (2 * i + 1)]) (seq 0 6).

Lemma hex_field s i n rest : drop i s = n ++ 45 :: rest -> n <> [] -> (length n <= 16)%nat -> digits16 n -> hex_at s i = value 16 n /\ 0 <= value 16 n < 16 ^ Z.of_nat (length n).
Proof. intros E Hne Hl Hd. unfold hex_at. rewrite E. destruct (hex_number n (45 :: rest)) as [-> Hb]; done. Qed.

Lemma parse_shape a b c d e : shape a b c d e ->
  uuid_parse (joined a b c d e) = Some (uuid_pack (mk_uuid (value 16 a) (value 16 b) (value 16 c) (value 16 d) (pairs e))) /\
  fields_ok (mk_uuid (value 16 a) (value 16 b) (value 16 c) (value 16 d) (pairs e)).
Proof.
  intros [Hl (Ha & Hb & Hc & Hd & He)]. injection Hl as La Lb Lc Ld Le.
  destruct (hex_field (joined a b c d e) 0 a (b ++ 45 :: c ++ 45 :: d ++ 45 :: e)) as [E1 B1]; [done|by intros ->|lia|done|].
  destruct (hex_field (joined a b c d e) 9 b (c ++ 45 :: d ++ 45 :: e)) as [E2 B2]; [|by intros ->|lia|done|].
  { unfold joined. by rewrite drop_app_ge, La by lia. }
  destruct (hex_field (joined a b c d e) 14 c (d ++ 45 :: e)) as [E3 B3]; [|by intros ->|lia|done|].
  { unfold joined. rewrite drop_app_ge, La by lia. change (14 - 8)%nat with 6%nat. cbn [drop]. by rewrite drop_app_ge, Lb by lia. }
  destruct (hex_field (joined a b c d e) 19 d e) as [E4 B4]; [|by intros ->|lia|done|].
  { unfold joined. rewrite drop_app_ge, La by lia. change (19 - 8)%nat with 11%nat. cbn [drop]. rewrite drop_app_ge, Lb by lia. change (10 - 4)%nat with 6%nat. cbn [drop]. by rewrite drop_app_ge, Lc by lia. }
  assert (Hpair : forall x y, is_digit 16 x = true -> is_digit 16 y = true -> u8 (fst (strtoul 16 [x; y])) = value 16 [x; y] /\ is_u8 (value 16 [x; y])).
  { intros x y Hx Hy. destruct (hex_number [x; y] []) as [E B]; [done|cbn; lia|by repeat constructor|done|done|]. cbn [app] in E. rewrite E. cbn [fst]. change (16 ^ Z.of_nat (length [x; y])) with 256 in B. unfold u8, is_u8. rewrite Z.mod_small; lia. }
  assert (Hn : map (parse_node (joined a b c d e)) (seq 0 6) = pairs e /\ length (pairs e) = 6%nat /\ bytes_ok (pairs e) /\ forallb (parse_char (joined a b c d e)) (seq 0 37) = true).
  { clear E1 E2 E3 E4 B1 B2 B3 B4. do 8 (destruct a as [|? a]; [done|]). do 4 (destruct b as [|? b]; [done|]). do 4 (destruct c as [|? c]; [done|]). do 4 (destruct d as [|? d]; [done|]).
    do 12 (destruct e as [|? e]; [done|]). destruct a, b, c, d, e; try done. clear La Lb Lc Ld Le. unfold digits16 in *. rewrite !Forall_cons in *. destruct_and?.
    split; [|split; [done|split]].
    - unfold pairs, parse_node. cbn [map seq]. cbn -[u8 strtoul value]. repeat f_equal; by apply Hpair.
    - unfold pairs, bytes_ok. cbn [map seq]. cbn -[value is_u8]. repeat constructor; by apply Hpair.
    - rewrite <- !isxdigit_digit in *. cbn -[isxdigit]. repeat match goal with Hx : isxdigit _ = true |- _ => rewrite Hx; clear Hx end. done. }
  destruct Hn as (Hn & Ln & Bn & Hok). rewrite La, Lb, Lc, Ld in *. change (16 ^ Z.of_nat 8) with (2 ^ 32) in *. change (16 ^ Z.of_nat 4) with (2 ^ 16) in *. split; [|by constructor].
  unfold uuid_parse. rewrite Hok, E1, E2, E3, E4, Hn. assert (Hlen : length (joined a b c d e) = 36%nat) by (unfold joined; rewrite !length_app; cbn; rewrite !length_app; cbn; rewrite !length_app; cbn; rewrite !length_app; cbn; lia).
  rewrite Hlen. cbn [Nat.eqb negb]. unfold u32, u16. rewrite !Z.mod_small by done. done.
Qed.

(** What is accepted has that shape. *)
Lemma parse_accepts s uu : uuid_parse s = Some uu -> exists a b c d e, s = joined a b c d e /\ shape a b c d e.
Proof.
  unfold uuid_parse. destruct (Nat.eqb_spec (length s) 36) as [Hl|]; [|done]. cbn [negb]. destruct (forallb (parse_char s) (seq 0 37)) eqn:Hc; [|done]. intros _.
  do 36 (destruct s as [|? s]; [done|]). destruct s; [|done]. cbn -[isxdigit Z.eqb] in Hc. repeat (apply andb_true_iff in Hc as [?Hx Hc]). clear Hc.
  repeat match goal with H : (_ =? 45) = true |- _ => apply Z.eqb_eq in H; subst end. rewrite !isxdigit_digit in *.
  match goal with |- exists a b c d e, [?x0; ?x1; ?x2; ?x3; ?x4; ?x5; ?x6; ?x7; 45; ?y0; ?y1; ?y2; ?y3; 45; ?z0; ?z1; ?z2; ?z3; 45; ?t0; ?t1; ?t2; ?t3; 45;
      ?n0; ?n1; ?n2; ?n3; ?n4; ?n5; ?n6; ?n7; ?n8; ?n9; ?n10; ?n11] = _ /\ _ =>
    exists [x0; x1; x2; x3; x4; x5; x6; x7], [y0; y1; y2; y3], [z0; z1; z2; z3], [t0; t1; t2; t3], [n0; n1; n2; n3; n4; n5; n6; n7; n8; n9; n10; n11] end.
  split; [done|]. constructor; [done|]. repeat split; repeat constructor; done.
Qed.

Definition printed (upper : bool) (u : uuid) : list Z :=
  joined (print_hex upper 8 (time_low u)) (print_hex upper 4 (time_mid u)) (print_hex upper 4 (time_hi_and_version u)) (print_hex upper 4 (clock_seq u))
    (mjoin (map (fun i => print_hex upper 2 (byte_at (node u) i)) (seq 0 6))).

Lemma unparse_printed upper uu : is_uuid uu -> uuid_unparse_x uu upper = printed upper (uuid_unpack uu).
Proof.
  intros Hu. destruct (fo_seq _ (unpack_fields uu Hu)) as [Hs _]. unfold uuid_unparse_x, printed, joined. change (print_hex upper 4 (clock_seq (uuid_unpack uu))) with (print_hex upper (2 + 2) (clock_seq (uuid_unpack uu))). rewrite (print_hex_app upper 2 2 (clock_seq (uuid_unpack uu))) by done.
  rewrite Z.shiftr_div_pow2 by lia. change 0xFF with (Z.ones 8). rewrite Z.land_ones by lia. change (16 ^ Z.of_nat 2) with (2 ^ 8). cbn [app]. by rewrite <- !app_assoc.
Qed.

Lemma byte_at_ok l i : bytes_ok l -> is_u8 (byte_at l i).
Proof. intros Hb. unfold byte_at. destruct (l !! i) as [x|] eqn:E; [|unfold is_u8; cbn; lia]. by apply (Forall_lookup_1 _ _ _ _ Hb E). Qed.

Lemma printed_shape upper u : shape (print_hex upper 8 (time_low u)) (print_hex upper 4 (time_mid u)) (print_hex upper 4 (time_hi_and_version u)) (print_hex upper 4 (clock_seq u))
  (mjoin (map (fun i => print_hex upper 2 (byte_at (node u) i)) (seq 0 6))).
Proof.
  constructor; [by rewrite !length_print_hex|]. repeat split; try apply print_hex_digits. unfold digits16. cbn -[print_hex]. rewrite !Forall_app. repeat split; try apply print_hex_digits. constructor.
Qed.

Lemma parse_printed upper u : fields_ok u -> uuid_parse (printed upper u) = Some (uuid_pack u).
Proof.
  intros [F1 F2 F3 F4 [Hl Hb]]. unfold printed. destruct (parse_shape _ _ _ _ _ (printed_shape upper u)) as [-> _]. rewrite !value_print_hex by done. f_equal. f_equal.
  destruct u as [t1 t2 t3 t4 n]. cbn [node time_low time_mid time_hi_and_version clock_seq] in *. f_equal. do 6 (destruct n as [|? n]; [done|]). destruct n; [|done].
  assert (Hv : forall x, is_u8 x -> value 16 (print_hex upper 2 x) = x) by (intros x Hx; by apply value_print_hex). unfold bytes_ok in Hb. rewrite !Forall_cons in Hb. destruct_and? Hb.
  unfold pairs. cbn [seq map]. cbn -[value print_hex hex_digit Z.div Z.modulo] in *. repeat f_equal; by apply (Hv _).
Qed.

Lemma shape_printed a b c d e : shape a b c d e -> map tolower (joined a b c d e) = printed false (mk_uuid (value 16 a) (value 16 b) (value 16 c) (value 16 d) (pairs e)).
Proof.
  intros [Hl (Ha & Hb & Hc & Hd & He)]. injection Hl as La Lb Lc Ld Le. unfold printed, joined. rewrite !map_app. cbn [map]. rewrite !map_app. cbn [map]. rewrite !map_app. cbn [map]. rewrite !map_app. cbn [map].
  cbn [time_low time_mid time_hi_and_version clock_seq node]. rewrite <- La at 1. rewrite <- Lb at 1. rewrite <- Lc at 1. rewrite <- Ld at 1. rewrite !print_value by done. repeat f_equal.
  do 12 (destruct e as [|? e]; [done|]). destruct e; [|done]. unfold digits16 in He. rewrite !Forall_cons in He. destruct_and? He.
  assert (Hp : forall x y, is_digit 16 x = true -> is_digit 16 y = true -> print_hex false 2 (value 16 [x; y]) = [tolower x; tolower y]) by (intros x y Hx Hy; apply (print_value [x; y]); by repeat constructor).
  unfold pairs. cbn [seq map]. cbn -[value print_hex tolower]. rewrite !Hp by done. done.
Qed.

Lemma tolower_char s i : parse_char (map tolower s) i = parse_char s i.
Proof.
  assert (E : byte_at (map tolower s) i = tolower (byte_at s i)) by (unfold byte_at; change (map tolower s) with (tolower <$> s); rewrite list_lookup_fmap; by destruct (s !! i)).
  unfold parse_char. rewrite E. generalize (byte_at s i). clear. intros c. assert (Hq : forall k, k < 65 -> (tolower c =? k) = (c =? k)).
  { intros k Hk. unfold tolower. destruct (Z.leb_spec 65 c), (Z.leb_spec c 90); cbn [andb]; destruct (Z.eqb_spec (c + 32) k), (Z.eqb_spec c k); try lia; done. }
  rewrite !Hq by lia. assert (Hx : isxdigit (tolower c) = isxdigit c); [|by rewrite Hx].
  unfold isxdigit, tolower. destruct (Z.leb_spec 65 c), (Z.leb_spec c 90); cbn [andb]; char_cases.
Qed.

Lemma parse_lower s uu : uuid_parse s = Some uu -> is_uuid uu /\ uuid_unparse_lower uu = map tolower s.
Proof.
  intros E. destruct (parse_accepts s uu E) as (a & b & c & d & e & -> & Hs). destruct (parse_shape _ _ _ _ _ Hs) as [E' F]. rewrite E in E'. injection E' as ->.
  pose proof (pack_uuid _ F) as Hu. split; [done|]. unfold uuid_unparse_lower. rewrite unparse_printed, uuid_unpack_pack by done. symmetry. by apply shape_printed.
Qed.

Lemma parse_unparse uu upper : is_uuid uu -> uuid_parse (uuid_unparse_x uu upper) = Some uu.
Proof. intros Hu. rewrite unparse_printed, parse_printed, uuid_pack_unpack by (done || by apply unpack_fields). done. Qed.

(** C28: the text of an identifier.  What is printed of 16 bytes, in small or in capital
    letters, is parsed to the same bytes; and [uuid_parse] accepts a text for these bytes
    exactly if it is, up to the case of its letters, the text that is printed. *)
Theorem uuid_text_roundtrip uu upper s : is_uuid uu ->
  uuid_parse (uuid_unparse_x uu upper) = Some uu /\ (uuid_parse s = Some uu <-> map tolower s = uuid_unparse_lower uu).
Proof.
  intros Hu. split; [by apply parse_unparse|]. split; intros E; [by destruct (parse_lower s uu E)|].
  pose proof (parse_unparse uu false Hu) as Hp. unfold uuid_unparse_lower in E. rewrite <- E in Hp.
  assert (Hs : exists uu', uuid_parse s = Some uu').
  { unfold uuid_parse in *. rewrite length_map in Hp. destruct (negb (length s =? 36)%nat); [done|].
    assert (Hf : forallb (parse_char (map tolower s)) (seq 0 37) = forallb (parse_char s) (seq 0 37)).
    { generalize (seq 0 37). intros l. induction l as [|i l IH]; [done|]. cbn [forallb]. by rewrite tolower_char, IH. }
    rewrite Hf in Hp. destruct (negb (forallb (parse_char s) (seq 0 37))); [done|]. eauto. }
  destruct Hs as [uu' Es]. destruct (parse_lower s uu' Es) as [Hu' El]. pose proof (parse_unparse uu' false Hu') as Hp'. unfold uuid_unparse_lower in El. rewrite El, Hp in Hp'. congruence.
Qed.

Lemma uuid_text_roundtrip_witness : uuid_parse (uuid_unparse_x (seq 1 16 ≫= fun i => [Z.of_nat i]) true) = Some (seq 1 16 ≫= fun i => [Z.of_nat i]) /\
  (uuid_parse (text "01020304-0506-0708-090A-0B0C0D0E0F10") = Some (seq 1 16 ≫= fun i => [Z.of_nat i]) <->
   map tolower (text "01020304-0506-0708-090A-0B0C0D0E0F10") = uuid_unparse_lower (seq 1 16 ≫= fun i => [Z.of_nat i])).
Proof. apply (uuid_text_roundtrip (seq 1 16 ≫= fun i => [Z.of_nat i]) true (text "01020304-0506-0708-090A-0B0C0D0E0F10")). split; [done|]. cbn. repeat constructor; unfold is_u8; lia. Defined.

(** * Order *)

Lemma UUCMP_bytes a b c d k : 0 <= b < 256 -> 0 <= d < 256 -> UUCMP (a * 256 + b) (c * 256 + d) k = UUCMP a c (UUCMP b d k).
Proof.
  intros Hb Hd. unfold UUCMP. destruct (Z.eqb_spec a c) as [->|Hne]; cbn [negb].
  - destruct (Z.eqb_spec b d) as [->|Hn]; [by rewrite Z.eqb_refl|]. rewrite (proj2 (Z.eqb_neq _ _)) by lia. cbn [negb]. destruct (Z.ltb_spec (c * 256 + b) (c * 256 + d)), (Z.ltb_spec b d); try lia; done.
  - rewrite (proj2 (Z.eqb_neq (a * 256 + b) _)) by lia. cbn [negb]. destruct (Z.ltb_spec (a * 256 + b) (c * 256 + d)), (Z.ltb_spec a c); try lia; done.
Qed.

Lemma memcmp_cons x y a b : memcmp (x :: a) (y :: b) = UUCMP x y (memcmp a b).
Proof. cbn [memcmp]. unfold UUCMP. by destruct (x =? y). Qed.

(** Comparing the fields is comparing the bytes. *)
Theorem uuid_compare_bytes uu1 uu2 : is_uuid uu1 -> is_uuid uu2 -> uuid_compare uu1 uu2 = memcmp uu1 uu2.
Proof.
  intros H1 H2. unfold uuid_compare. rewrite !uuid_unpack_bytes by done. destruct H1 as [L1 B1], H2 as [L2 B2]. do 10 (destruct uu1 as [|? uu1]; [done|]). do 10 (destruct uu2 as [|? uu2]; [done|]).
  unfold bytes_ok in *. rewrite !Forall_cons in *. unfold is_u8 in *. change (2 ^ 8) with 256 in *. destruct_and?. cbn [time_low time_mid time_hi_and_version clock_seq node]. cbn [byte_at lookup list_lookup default from_option id drop].
  rewrite !UUCMP_bytes by done. by rewrite !memcmp_cons.
Qed.

(** An identifier in text. *)
Example uuid_example : option_map uuid_unparse (uuid_parse (text "84949CC5-4701-4a84-895b-354c584a981b")) = Some (text "84949cc5-4701-4a84-895b-354c584a981b").
Proof. vm_compute. reflexivity. Qed.

Example uuid_bad : uuid_parse (text "84949CC5-4701-4a84-895b-354c584a981g") = None /\ uuid_parse (text "84949CC5 4701-4a84-895b-354c584a981b") = None.
Proof. vm_compute. done. Qed.
