(* ===== verification/E2p.v ===== *)
(** Names for what is in a super block or an inode: lib/e2p of e2fsprogs, as far as it
    turns numbers into text and text into numbers, and the editing of sets of features
    and of mount options by lists of names.  Names are read back as they were written, and
    a list of names edits a set of features only as far as it is allowed to. *)

From S2P Require Import Prelude Bitops CText Uuid.

Local Open Scope Z_scope.

(** * feature.c *)

Record feature := mk_feature { f_compat : Z; f_mask : Z; f_string : list Z }.

Definition E2P_FEATURE_COMPAT : Z := 0.
Definition E2P_FEATURE_INCOMPAT : Z := 1.
Definition E2P_FEATURE_RO_INCOMPAT : Z := 2.
Definition E2P_FEATURE_NEGATE_FLAG : Z := 0x80.

Definition compat_list : list (Z * string) :=
  [(0x0001, "dir_prealloc"); (0x0004, "has_journal"); (0x0002, "imagic_inodes"); (0x0008, "ext_attr"); (0x0020, "dir_index"); (0x0010, "resize_inode"); (0x0040, "lazy_bg");
   (0x0100, "snapshot_bitmap"); (0x0200, "sparse_super2"); (0x0400, "fast_commit"); (0x0800, "stable_inodes")]%string.

Definition ro_incompat_list : list (Z * string) :=
  [(0x0001, "sparse_super"); (0x0002, "large_file"); (0x0008, "huge_file"); (0x0010, "uninit_bg"); (0x0010, "uninit_groups"); (0x0020, "dir_nlink"); (0x0040, "extra_isize");
   (0x0100, "quota"); (0x0200, "bigalloc"); (0x0400, "metadata_csum"); (0x0800, "replica"); (0x1000, "read-only"); (0x2000, "project"); (0x4000, "shared_blocks"); (0x8000, "verity")]%string.

Definition incompat_list : list (Z * string) :=
  [(0x0001, "compression"); (0x0002, "filetype"); (0x0004, "needs_recovery"); (0x0008, "journal_dev"); (0x0040, "extent"); (0x0040, "extents"); (0x0010, "meta_bg"); (0x0080, "64bit");
   (0x0100, "mmp"); (0x0200, "flex_bg"); (0x0400, "ea_inode"); (0x1000, "dirdata"); (0x2000, "metadata_csum_seed"); (0x4000, "large_dir"); (0x8000, "inline_data"); (0x10000, "encrypt");
   (0x20000, "casefold"); (0x20000, "fname_encoding")]%string.

Definition of_type (c : Z) (l : list (Z * string)) : list feature := map (fun '(m, s) => mk_feature c m (text s)) l.

Definition feature_list : list feature :=
  of_type E2P_FEATURE_COMPAT compat_list ++ of_type E2P_FEATURE_RO_INCOMPAT ro_incompat_list ++ of_type E2P_FEATURE_INCOMPAT incompat_list.

Definition jrnl_feature_list : list feature :=
  of_type E2P_FEATURE_COMPAT [(0x00000001, "journal_checksum")]%string ++
  of_type E2P_FEATURE_INCOMPAT [(0x00000001, "journal_incompat_revoke"); (0x00000002, "journal_64bit"); (0x00000004, "journal_async_commit"); (0x00000008, "journal_checksum_v2"); (0x00000010, "journal_checksum_v3")]%string.

(** [for (fnum = 0; mask >>= 1; fnum++)]; a mask has 32 bits. *)
Fixpoint shift_count (fuel : nat) (mask : Z) : Z :=
  match fuel with
  | O => 0
  | S fuel => let mask := Z.shiftr mask 1 in if mask =? 0 then 0 else 1 + shift_count fuel mask
  end.

(** The name of a feature that is not in a list. *)
Definition feature_number (compat mask : Z) : list Z :=
  let fchar := if compat =? E2P_FEATURE_COMPAT then 67 else if compat =? E2P_FEATURE_INCOMPAT then 73 else if compat =? E2P_FEATURE_RO_INCOMPAT then 82 else 63 in
  text "FEATURE_" ++ fchar :: print_dec (shift_count 32 mask).

Definition find_by_mask (l : list feature) (compat mask : Z) : option feature := snd <$> list_find (fun f => f_compat f = compat /\ f_mask f = mask) l.
Definition find_by_name (l : list feature) (s : list Z) : option feature := snd <$> list_find (fun f => strcasecmp s (f_string f) = true) l.

(** The text in the buffer of [buf_len] bytes. *)
Definition e2p_feature_to_string (compat mask buf_len : Z) : list Z :=
  match find_by_mask feature_list compat mask with
  | Some f => take (Z.to_nat (buf_len - 1)) (f_string f)
  | None => feature_number compat mask
  end.

Definition e2p_feature2string (compat mask : Z) : list Z := e2p_feature_to_string compat mask 20.

Definition e2p_jrnl_feature2string (compat mask : Z) : list Z :=
  match find_by_mask jrnl_feature_list compat mask with
  | Some f => f_string f
  | None => feature_number compat mask
  end.

(** The type and the mask of [FEATURE_], a letter and a number. *)
Definition numbered_feature (s : list Z) : option (Z * Z) :=
  if negb (strncasecmp s (text "FEATURE_") 8) then None
  else
    let c := tolower (byte_at s 8) in
    match (if c =? 99 then Some E2P_FEATURE_COMPAT else if c =? 105 then Some E2P_FEATURE_INCOMPAT else if c =? 114 then Some E2P_FEATURE_RO_INCOMPAT else None) with
    | None => None
    | Some compat =>
        if byte_at s 9 =? 0 then None
        else
          let '(num, eptr) := strtol 10 (drop 9 s) in
          let num := s32 num in
          if (31 <? num) || (num <? 0) then None
          else if negb (byte_at eptr 0 =? 0) then None else Some (compat, u32 (Z.shiftl 1 num))
    end.

(** [None] if the text is not the name of a feature. *)
Definition e2p_string2feature (s : list Z) : option (Z * Z) :=
  match find_by_name feature_list s with
  | Some f => Some (f_compat f, f_mask f)
  | None => numbered_feature s
  end.

Definition e2p_jrnl_string2feature (s : list Z) : option (Z * Z) :=
  match find_by_name jrnl_feature_list s with
  | Some f => Some (f_compat f, f_mask f)
  | None => numbered_feature s
  end.

Definition skip_over_blanks : list Z -> list Z := skip_spaces.

(** The word and what follows it. *)
Fixpoint skip_over_word (cp : list Z) : list Z * list Z :=
  match cp with
  | c :: cp' => if negb (isspace c) && negb (c =? 44) then let '(w, next) := skip_over_word cp' in (c :: w, next) else ([], cp)
  | [] => ([], [])
  end.

(** The sign in front of a name. *)
Definition word_sign (w : list Z) : bool * list Z :=
  match w with
  | c :: w' => if (c =? 45) || (c =? 94) then (true, w') else if c =? 43 then (false, w') else (false, w)
  | [] => (false, [])
  end.

(** Whether an array allows a feature; without an array all are allowed. *)
Definition allows (ok : option (list Z)) (compat mask : Z) : bool :=
  match ok with Some a => negb (Z.land (byte_at a (Z.to_nat compat)) mask =? 0) | None => true end.

Definition set_in (a : list Z) (compat v : Z) : list Z := <[Z.to_nat compat := v]> a.

(** What is returned, the array, [*type_err] and [*mask_err]. *)
Fixpoint edit_loop (fuel : nat) (cp : list Z) (a : list Z) (ok clear_ok : option (list Z)) : outcome (Z * list Z * Z * Z) :=
  match fuel with
  | O => Crash OutOfFuel
  | S fuel =>
      match cp with
      | [] => Done (0, a, 0, 0)
      | _ =>
          let '(w, next) := skip_over_word (skip_over_blanks cp) in
          let continue a := match next with [] => Done (0, a, 0, 0) | _ :: cp => edit_loop fuel cp a ok clear_ok end in
          if strcasecmp w (text "none") || strcasecmp w (text "clear") then continue [0; 0; 0]
          else
            let '(neg, w) := word_sign w in
            match e2p_string2feature w with
            | None => Done (1, a, 0, 0)
            | Some (compat, mask) =>
                let old := byte_at a (Z.to_nat compat) in
                if neg then
                  if negb (allows clear_ok compat mask) then Done (1, a, Z.lor compat E2P_FEATURE_NEGATE_FLAG, mask)
                  else continue (set_in a compat (Z.land old (u32 (Z.lnot mask))))
                else if negb (allows ok compat mask) then Done (1, a, compat, mask)
                else continue (set_in a compat (Z.lor old mask))
            end
      end
  end.

(** [mem] says whether there is memory for a copy of the text. *)
Definition e2p_edit_feature2 (mem : bool) (str : list Z) (compat_array : list Z) (ok_array clear_ok_array : option (list Z)) : outcome (Z * list Z * Z * Z) :=
  let clear_ok := match clear_ok_array with Some _ => clear_ok_array | None => ok_array end in
  if negb mem then Done (1, compat_array, 0, 0) else edit_loop (S (length str)) str compat_array ok_array clear_ok.

Definition e2p_edit_feature (mem : bool) (str : list Z) (compat_array : list Z) (ok_array : option (list Z)) : outcome (Z * list Z) :=
  let* (rc, a, _, _) := e2p_edit_feature2 mem str compat_array ok_array None in Done (rc, a).

(** * mntopts.c *)

Definition EXT3_DEFM_JMODE : Z := 0x0060.

Definition mntopt_list : list (Z * list Z) :=
  map (fun '(m, s) => (m, text s)) [(0x0001, "debug"); (0x0002, "bsdgroups"); (0x0004, "user_xattr"); (0x0008, "acl"); (0x0010, "uid16"); (0x0020, "journal_data"); (0x0040, "journal_data_ordered");
   (0x0060, "journal_data_writeback"); (0x0100, "nobarrier"); (0x0200, "block_validity"); (0x0400, "discard"); (0x0800, "nodelalloc")]%string.

Definition e2p_mntopt2string (mask : Z) : list Z :=
  match list_find (fun o => fst o = mask) mntopt_list with
  | Some (_, (_, s)) => s
  | None => text "MNTOPT_" ++ print_dec (shift_count 32 mask)
  end.

(** The string that begins at some memory. *)
Fixpoint cstr (mem : list Z) : list Z := match mem with c :: mem => if c =? 0 then [] else c :: cstr mem | [] => [] end.

(** [mem] is the memory from the name on, since a byte behind its end may be read. *)
Definition e2p_string2mntopt (mem : list Z) : outcome (option Z) :=
  match list_find (fun o => strcasecmp (cstr mem) (snd o) = true) mntopt_list with
  | Some (_, (mask, _)) => Done (Some mask)
  | None =>
      if negb (strncasecmp (cstr mem) (text "MNTOPT_") 7) then Done None
      else
        let* c := load mem 8 in
        if c =? 0 then Done None
        else
          let '(num, eptr) := strtol 10 (cstr (drop 8 mem)) in
          let num := s32 num in
          if (31 <? num) || (num <? 0) then Done None
          else if negb (byte_at eptr 0 =? 0) then Done None else Done (Some (u32 (Z.shiftl 1 num)))
  end.

Fixpoint mntopts_loop (fuel : nat) (cp : list Z) (mntopts ok : Z) : outcome (Z * Z) :=
  match fuel with
  | O => Crash OutOfFuel
  | S fuel =>
      match cp with
      | [] => Done (0, mntopts)
      | _ =>
          let '(w, next) := skip_over_word (skip_over_blanks cp) in
          let '(neg, w) := word_sign w in
          let* o := e2p_string2mntopt (w ++ 0 :: match next with [] => [] | _ :: r => r ++ [0] end) in
          match o with
          | None => Done (1, mntopts)
          | Some mask =>
              if negb (ok =? 0) && (Z.land ok mask =? 0) then Done (1, mntopts)
              else
                let mntopts := if negb (Z.land mask EXT3_DEFM_JMODE =? 0) then Z.land mntopts (u32 (Z.lnot EXT3_DEFM_JMODE)) else mntopts in
                let mntopts := if neg then Z.land mntopts (u32 (Z.lnot mask)) else Z.lor mntopts mask in
                match next with [] => Done (0, mntopts) | _ :: cp => mntopts_loop fuel cp mntopts ok end
          end
      end
  end.

Definition e2p_edit_mntopts (mem : bool) (str : list Z) (mntopts ok : Z) : outcome (Z * Z) :=
  if negb mem then Done (1, mntopts) else mntopts_loop (S (length str)) str mntopts ok.

(** * hashstr.c, crypto_mode.c, ostype.c, errcode.c *)

(** A list of names for the numbers from 0 on. *)
Definition number_of (names : list string) (s : list Z) : option Z := Z.of_nat ∘ fst <$> list_find (fun n => strcasecmp s (text n) = true) names.
Definition name_of (names : list string) (num : Z) : option (list Z) := if num <? 0 then None else text <$> names !! Z.to_nat num.

(** A number of at most 255 behind a prefix, or -1. *)
Definition prefixed_number (prefix : list Z) (s : list Z) : Z :=
  let n := length prefix in
  if negb (strncasecmp s prefix n) then -1
  else if byte_at s n =? 0 then -1
  else
    let '(num, eptr) := strtol 10 (drop n s) in
    let num := s32 num in
    if (255 <? num) || (num <? 0) then -1 else if negb (byte_at eptr 0 =? 0) then -1 else num.

Definition hash_list : list string := ["legacy"; "half_md4"; "tea"]%string.
Definition e2p_hash2string (num : Z) : list Z := default (text "HASHALG_" ++ print_dec num) (name_of hash_list num).
Definition e2p_string2hash (s : list Z) : Z := default (prefixed_number (text "HASHALG_") s) (number_of hash_list s).

Definition mode_list : list string := ["Invalid"; "AES-256-XTS"; "AES-256-GCM"; "AES-256-CBC"]%string.
Definition e2p_encmode2string (num : Z) : list Z := default (text "ENC_MODE_" ++ print_dec num) (name_of mode_list num).
Definition e2p_string2encmode (s : list Z) : Z := default (prefixed_number (text "ENC_MODE_") s) (number_of mode_list s).

Definition os_tab : list string := ["Linux"; "Hurd"; "Masix"; "FreeBSD"; "Lites"]%string.
Definition e2p_os2string (mem : bool) (os_type : Z) : option (list Z) :=
  if negb mem then None else Some (default (text "(unknown os)") (name_of os_tab os_type)).
Definition e2p_string2os (s : list Z) : Z := default (-1) (number_of os_tab s).

Definition err_string : list string :=
  [""; "UNKNOWN"; "EIO"; "ENOMEM"; "EFSBADCRC"; "EFSCORRUPTED"; "ENOSPC"; "ENOKEY"; "EROFS"; "EFBIG"; "EEXIST"; "ERANGE"; "EOVERFLOW"; "EBUSY"; "ENOTDIR"; "ENOTEMPTY"; "ESHUTDOWN"; "EFAULT"]%string.

(** A negative number is more than the size of the array, which is unsigned. *)
Definition e2p_errcode2str (err : Z) : list Z := default (text "UNKNOWN_ERRCODE_" ++ print_dec err) (name_of err_string err).

(** * encoding.c *)

Definition EXT4_ENC_UTF8_12_1 : Z := 1.
Definition EXT4_ENC_STRICT_MODE_FL : Z := 1.
Definition ENC_EINVAL : Z := 22.

Definition ext4_encoding_map : list (string * Z * Z) := [("utf8-12.1"%string, EXT4_ENC_UTF8_12_1, 0); ("utf8"%string, EXT4_ENC_UTF8_12_1, 0)].

Definition e2p_str2encoding (s : list Z) : Z :=
  match list_find (fun e => text (fst (fst e)) = s) ext4_encoding_map with Some (_, (_, magic, _)) => magic | None => - ENC_EINVAL end.

Definition e2p_encoding2str (encoding : Z) : list Z :=
  match list_find (fun e => snd (fst e) = encoding) ext4_encoding_map with Some (_, (name, _, _)) => text name | None => text "UNKNOWN_ENCODING_" ++ print_dec encoding end.

Definition e2p_get_encoding_flags (encoding : Z) : Z :=
  match list_find (fun e => snd (fst e) = encoding) ext4_encoding_map with Some (_, (_, _, flags)) => flags | None => 0 end.

(** The tokens of [strtok] with a hyphen. *)
Fixpoint tokens (cur s : list Z) : list (list Z) :=
  match s with
  | [] => match cur with [] => [] | _ => [cur] end
  | c :: s => if c =? 45 then match cur with [] => tokens [] s | _ => cur :: tokens [] s end else tokens (cur ++ [c]) s
  end.

Fixpoint encoding_loop (fs : list (list Z)) (flags : Z) : Z * Z :=
  match fs with
  | [] => (0, flags)
  | f :: fs =>
      let neg := bool_decide (take 2 f = text "no") in
      let f := if neg then drop 2 f else f in
      if bool_decide (f = text "strict") then
        encoding_loop fs (if neg then Z.land flags (u16 (Z.lnot EXT4_ENC_STRICT_MODE_FL)) else Z.lor flags EXT4_ENC_STRICT_MODE_FL)
      else (- ENC_EINVAL, flags)
  end.

Definition e2p_str2encoding_flags (encoding : Z) (param : list Z) (flags : Z) : Z * Z :=
  if negb (encoding =? EXT4_ENC_UTF8_12_1) then (- ENC_EINVAL, flags) else encoding_loop (tokens [] param) flags.

(** * parse_num.c, percent.c *)

Definition parse_num_blocks2 (arg : list Z) (log_block_size : Z) : Z :=
  let '(num, p) := strtoul 0 arg in
  if negb (byte_at p 0 =? 0) && negb (byte_at p 1 =? 0) then 0
  else
    let shl n k := u64 (Z.shiftl n k) in
    let kilo n := if log_block_size <? 0 then shl n 10 else Z.shiftr n log_block_size in
    let c := byte_at p 0 in
    if tolower c =? 116 then kilo (shl (shl (shl num 10) 10) 10)
    else if tolower c =? 103 then kilo (shl (shl num 10) 10)
    else if tolower c =? 109 then kilo (shl num 10)
    else if tolower c =? 107 then kilo num
    else if c =? 115 then if log_block_size <? 0 then shl num 9 else Z.shiftr num (1 + log_block_size)
    else if c =? 0 then num else 0.

Definition parse_num_blocks (arg : list Z) (log_block_size : Z) : Z := parse_num_blocks2 arg log_block_size.

(** [percent] is signed; the products are unsigned. *)
Definition e2p_percent (percent base : Z) : Z :=
  let mask := u32 (Z.lnot (Z.shiftl 1 24 - 1)) in
  if percent =? 0 then 0
  else if Z.rem 100 percent =? 0 then base / u32 (Z.quot 100 percent)
  else if negb (Z.land mask base =? 0) then u32 (base / 100 * u32 percent)
  else u32 (base * u32 percent) / 100.

(** * pf.c and uuid.c *)

Definition flags_array : list (Z * string * string) :=
  [(0x00000001, "s", "Secure_Deletion"); (0x00000002, "u", "Undelete"); (0x00000008, "S", "Synchronous_Updates"); (0x00010000, "D", "Synchronous_Directory_Updates"); (0x00000010, "i", "Immutable");
   (0x00000020, "a", "Append_Only"); (0x00000040, "d", "No_Dump"); (0x00000080, "A", "No_Atime"); (0x00000004, "c", "Compression_Requested"); (0x00000800, "E", "Encrypted");
   (0x00004000, "j", "Journaled_Data"); (0x00001000, "I", "Indexed_directory"); (0x00008000, "t", "No_Tailmerging"); (0x00020000, "T", "Top_of_Directory_Hierarchies"); (0x00080000, "e", "Extents");
   (0x00800000, "C", "No_COW"); (0x02000000, "x", "DAX"); (0x40000000, "F", "Casefold"); (0x10000000, "N", "Inline_Data"); (0x20000000, "P", "Project_Hierarchy"); (0x00100000, "V", "Verity");
   (0x00000400, "m", "Dont_Compress")]%string.

Fixpoint print_flags_loop (l : list (Z * string * string)) (flags : Z) (long_opt first : bool) : list Z :=
  match l with
  | [] => if long_opt && first then text "---" else []
  | (flag, short_name, long_name) :: l =>
      if negb (Z.land flags flag =? 0) then
        if long_opt then (if first then [] else text ", ") ++ text long_name ++ print_flags_loop l flags long_opt false
        else text short_name ++ print_flags_loop l flags long_opt first
      else (if long_opt then [] else text "-") ++ print_flags_loop l flags long_opt first
  end.

Definition PFOPT_LONG : Z := 1.

(** What is written to the file. *)
Definition print_flags (flags options : Z) : list Z := print_flags_loop flags_array flags (negb (Z.land options PFOPT_LONG =? 0)) true.

Definition e2p_is_null_uuid (uu : list Z) : Z := is_null_loop 16 uu.
Definition e2p_unpack_uuid (uu : list Z) : uuid := uuid_unpack uu.

Definition e2p_uuid_to_str (uu : list Z) : list Z :=
  let u := e2p_unpack_uuid uu in
  print_hex false 8 (time_low u) ++ [45] ++ print_hex false 4 (time_mid u) ++ [45] ++ print_hex false 4 (time_hi_and_version u) ++ [45] ++
  print_hex false 2 (Z.shiftr (clock_seq u) 8) ++ print_hex false 2 (Z.land (clock_seq u) 0xFF) ++ [45] ++ mjoin (map (fun i => print_hex false 2 (byte_at (node u) i)) (seq 0 6)).

Definition e2p_uuid2str (uu : list Z) : list Z := if negb (e2p_is_null_uuid uu =? 0) then text "<none>" else e2p_uuid_to_str uu.

(** * Names and numbers *)

(** All numbers below a bound. *)
Lemma below_all (n : nat) (P : Z -> bool) : forallb (fun k => P (Z.of_nat k)) (seq 0 n) = true -> forall k, 0 <= k < Z.of_nat n -> P k = true.
Proof. intros Ha k Hk. rewrite forallb_forall in Ha. specialize (Ha (Z.to_nat k) ltac:(apply in_seq; lia)). by rewrite Z2Nat.id in Ha by lia. Qed.

(** The name of every feature, and of every bit that has none, is read back. *)
Theorem feature_names_roundtrip c k : 0 <= c <= 2 -> 0 <= k < 32 ->
  e2p_string2feature (e2p_feature2string c (2 ^ k)) = Some (c, 2 ^ k) /\ e2p_jrnl_string2feature (e2p_jrnl_feature2string c (2 ^ k)) = Some (c, 2 ^ k).
Proof.
  intros Hc Hk. pose (P c k := bool_decide (e2p_string2feature (e2p_feature2string c (2 ^ k)) = Some (c, 2 ^ k)) && bool_decide (e2p_jrnl_string2feature (e2p_jrnl_feature2string c (2 ^ k)) = Some (c, 2 ^ k))).
  assert (Hall : P c k = true).
  { refine (below_all 32 (P c) _ k Hk). refine (below_all 3 (fun c => forallb (fun k => P c (Z.of_nat k)) (seq 0 32)) _ c ltac:(lia)). vm_compute. reflexivity. }
  unfold P in Hall. apply andb_true_iff in Hall as [H1%bool_decide_eq_true H2%bool_decide_eq_true]. done.
Qed.

Theorem mode_names_roundtrip n : 0 <= n < 256 -> e2p_string2hash (e2p_hash2string n) = n /\ e2p_string2encmode (e2p_encmode2string n) = n /\ (n <= 4 -> e2p_string2os <$> e2p_os2string true n = Some n).
Proof.
  intros Hn. pose (P n := (e2p_string2hash (e2p_hash2string n) =? n) && (e2p_string2encmode (e2p_encmode2string n) =? n) && ((4 <? n) || bool_decide (e2p_string2os <$> e2p_os2string true n = Some n))).
  assert (Hall : P n = true) by (refine (below_all 256 P _ n Hn); vm_compute; reflexivity). unfold P in Hall.
  apply andb_true_iff in Hall as [[H1%Z.eqb_eq H2%Z.eqb_eq]%andb_true_iff H3%orb_true_iff]. split; [done|]. split; [done|]. intros Hle. destruct H3 as [H3%Z.ltb_lt|H3%bool_decide_eq_true]; [lia|done].
Qed.

(** A feature is one bit of one of the three words. *)
Definition one_bit (x : Z * Z) : Prop := 0 <= fst x <= 2 /\ exists k, 0 <= k < 32 /\ snd x = 2 ^ k.

Lemma numbered_bit s x : numbered_feature s = Some x -> one_bit x.
Proof.
  unfold numbered_feature. destruct (negb _); [done|]. destruct (if tolower (byte_at s 8) =? 99 then _ else _) as [c|] eqn:Ec; [|done]. destruct (_ =? 0); [done|]. destruct (strtol _ _) as [num eptr].
  destruct (Z.ltb_spec 31 (s32 num)); [done|]. destruct (Z.ltb_spec (s32 num) 0); [done|]. cbn [orb]. destruct (negb _); [done|]. intros [= <-]. split; cbn [fst snd].
  - unfold E2P_FEATURE_COMPAT, E2P_FEATURE_INCOMPAT, E2P_FEATURE_RO_INCOMPAT in Ec. repeat (destruct (_ =? _) in Ec; [injection Ec as <-; lia|]). done.
  - exists (s32 num). split; [lia|]. rewrite Z.shiftl_1_l. apply u32_small. unfold is_u32. split; [lia|]. apply Z.pow_lt_mono_r; lia.
Qed.

Lemma feature_bit s x : e2p_string2feature s = Some x -> one_bit x.
Proof.
  unfold e2p_string2feature. destruct (find_by_name feature_list s) as [f|] eqn:E; [|by apply numbered_bit]. intros [= <-]. unfold find_by_name in E.
  destruct (list_find _ feature_list) as [[i f']|] eqn:El; [|done]. injection E as <-. apply list_find_Some in El as (El & _ & _).
  assert (Hall : forallb (fun f => (0 <=? f_compat f) && (f_compat f <=? 2) && existsb (fun k => f_mask f =? 2 ^ Z.of_nat k) (seq 0 32)) feature_list = true) by (vm_compute; reflexivity).
  rewrite forallb_forall in Hall. specialize (Hall f' ltac:(apply list_elem_of_In; by apply list_elem_of_lookup_2 in El)).
  apply andb_true_iff in Hall as [Hc Hm]. split; [cbn; lia|]. apply existsb_exists in Hm as (k & Hk%in_seq & Em%Z.eqb_eq). exists (Z.of_nat k). split; [lia|done].
Qed.

(** * Editing a set of features *)

Definition bit_of (a : list Z) (c k : Z) : bool := Z.testbit (byte_at a (Z.to_nat c)) k.
Definition allowed (ok : option (list Z)) (c k : Z) : bool := match ok with Some a => bit_of a c k | None => true end.
Definition three_words (a : list Z) : Prop := length a = 3%nat /\ Forall is_u32 a.

Lemma allows_bit ok c k : 0 <= k -> allows ok c (2 ^ k) = allowed ok c k.
Proof.
  intros Hk. unfold allows, allowed, bit_of. destruct ok as [a|]; [|done]. destruct (Z.testbit (byte_at a (Z.to_nat c)) k) eqn:E.
  - destruct (Z.eqb_spec (Z.land (byte_at a (Z.to_nat c)) (2 ^ k)) 0) as [H|]; [|done]. apply (f_equal (fun x => Z.testbit x k)) in H. rewrite Z.land_spec, E, Z.pow2_bits_true, Z.bits_0 in H by lia. done.
  - rewrite (proj2 (Z.eqb_eq _ _)); [done|]. apply Z.bits_inj'. intros m Hm. rewrite Z.land_spec, Z.bits_0. destruct (decide (m = k)) as [->|Hne]; [by rewrite E|].
    by rewrite Z.pow2_bits_false, andb_false_r by lia.
Qed.

(** Bits appear only if [ok] has them, and disappear only if [clear_ok] has them. *)
Definition edited (ok clear_ok : option (list Z)) (keeps : Prop) (a a' : list Z) : Prop :=
  (forall c k, 0 <= c <= 2 -> 0 <= k -> bit_of a c k = false -> bit_of a' c k = true -> allowed ok c k = true) /\
  (keeps -> forall c k, 0 <= c <= 2 -> 0 <= k -> bit_of a c k = true -> bit_of a' c k = false -> allowed clear_ok c k = true).

Lemma edited_refl ok cl K a : edited ok cl K a a.
Proof. split; [|intros _]; intros; congruence. Qed.

Lemma edited_trans ok cl K a b c : edited ok cl K a b -> edited ok cl K b c -> edited ok cl K a c.
Proof.
  intros [S1 C1] [S2 C2]. split.
  - intros x k Hx Hk Ha Hc. destruct (bit_of b x k) eqn:Hb; [by apply S1|by apply S2].
  - intros HK x k Hx Hk Ha Hc. destruct (bit_of b x k) eqn:Hb; [by apply C2|by apply C1].
Qed.

Lemma edited_imp ok cl (K K' : Prop) a b : (K' -> K) -> edited ok cl K a b -> edited ok cl K' a b.
Proof. intros Hi [S1 C1]. split; [done|]. intros HK. by apply C1, Hi. Qed.

Lemma set_in_bit a c v d k : length a = 3%nat -> 0 <= c <= 2 -> 0 <= d <= 2 -> bit_of (set_in a c v) d k = if decide (d = c) then Z.testbit v k else bit_of a d k.
Proof.
  intros Hl Hc Hd. unfold bit_of, set_in, byte_at. destruct (decide (d = c)) as [->|Hne]; [by rewrite list_lookup_insert_eq by lia|]. by rewrite list_lookup_insert_ne by lia.
Qed.

Lemma set_in_words a c v : three_words a -> is_u32 v -> three_words (set_in a c v).
Proof. intros [Hl Hu] Hv. unfold set_in. split; [by rewrite length_insert|]. by apply Forall_insert. Qed.

Lemma word_of a c : three_words a -> is_u32 (byte_at a c).
Proof. intros [_ Hu]. unfold byte_at. destruct (a !! c) as [x|] eqn:E; [|unfold is_u32; cbn; lia]. by apply (Forall_lookup_1 _ _ _ _ Hu E). Qed.

Lemma set_bit_edited ok cl K a c k : three_words a -> 0 <= c <= 2 -> 0 <= k < 32 -> allowed ok c k = true ->
  let a' := set_in a c (Z.lor (byte_at a (Z.to_nat c)) (2 ^ k)) in three_words a' /\ edited ok cl K a a'.
Proof.
  intros Ha Hc Hk Hok a'. assert (Hb : forall d m, 0 <= d <= 2 -> 0 <= m -> bit_of a' d m = bit_of a d m || bool_decide (d = c /\ m = k)).
  { intros d m Hd Hm. unfold a'. rewrite set_in_bit by (done || apply Ha). destruct (decide (d = c)) as [->|Hne]; [|by rewrite bool_decide_false, orb_false_r by tauto].
    rewrite Z.lor_spec. unfold bit_of. f_equal. destruct (decide (m = k)) as [->|Hm']; [by rewrite Z.pow2_bits_true, bool_decide_true by (done || lia)|].
    rewrite Z.pow2_bits_false, bool_decide_false by (tauto || lia). done. }
  split.
  - apply set_in_words; [done|]. pose proof (word_of a (Z.to_nat c) Ha) as Hw. unfold is_u32 in *. split; [apply Z.lor_nonneg; lia|].
    apply Z.log2_lt_cancel. rewrite Z.log2_lor by lia. rewrite Z.log2_pow2 by lia. change (Z.log2 (2 ^ 32)) with 32. apply Z.max_lub_lt; [|lia].
    destruct (decide (byte_at a (Z.to_nat c) = 0)) as [->|]; [done|]. apply Z.log2_lt_pow2; lia.
  - split; [|intros _]; intros d m Hd Hm H1 H2; rewrite Hb, H1 in H2 by done; cbn [orb] in H2; [|done]. apply bool_decide_eq_true in H2 as [-> ->]. done.
Qed.

Lemma clear_bit_edited ok cl K a c k : three_words a -> 0 <= c <= 2 -> 0 <= k < 32 -> allowed cl c k = true ->
  let a' := set_in a c (Z.land (byte_at a (Z.to_nat c)) (u32 (Z.lnot (2 ^ k)))) in three_words a' /\ edited ok cl K a a'.
Proof.
  intros Ha Hc Hk Hok a'. pose proof (word_of a (Z.to_nat c) Ha) as Hw.
  assert (Hb : forall d m, 0 <= d <= 2 -> 0 <= m -> bit_of a' d m = bit_of a d m && negb (bool_decide (d = c /\ m = k))).
  { intros d m Hd Hm. unfold a'. rewrite set_in_bit by (done || apply Ha). destruct (decide (d = c)) as [->|Hne]; [|by rewrite bool_decide_false, andb_true_r by tauto].
    rewrite Z.land_spec. unfold bit_of. destruct (decide (m < 32)) as [Hm32|Hm32].
    - unfold u32. rewrite Z.mod_pow2_bits_low, Z.lnot_spec by lia. do 2 f_equal. destruct (decide (m = k)) as [->|Hm']; [by rewrite Z.pow2_bits_true, bool_decide_true by (done || lia)|].
      rewrite Z.pow2_bits_false, bool_decide_false by (tauto || lia). done.
    - unfold is_u32 in Hw. rewrite (testbit_high 32 (byte_at a (Z.to_nat c)) m) by lia. done. }
  split.
  - apply set_in_words; [done|]. unfold is_u32, u32 in *. pose proof (Z.mod_pos_bound (Z.lnot (2 ^ k)) (2 ^ 32) ltac:(lia)). split; [apply Z.land_nonneg; lia|].
    destruct (decide (byte_at a (Z.to_nat c) = 0)) as [->|]; [by rewrite Z.land_0_l|]. apply Z.log2_lt_cancel. apply (Z.le_lt_trans _ (Z.log2 (byte_at a (Z.to_nat c)))).
    + rewrite Z.log2_land by lia. lia.
    + change (Z.log2 (2 ^ 32)) with 32. apply Z.log2_lt_pow2; lia.
  - split; [|intros _]; intros d m Hd Hm H1 H2; rewrite Hb, H1 in H2 by done; cbn [andb] in H2; [done|]. apply negb_false_iff, bool_decide_eq_true in H2 as [-> ->]. done.
Qed.

(** A text without the words that clear all features. *)
Definition no_clear (s : list Z) : Prop := forall x y, map tolower s <> x ++ text "none" ++ y /\ map tolower s <> x ++ text "clear" ++ y.

Lemma no_clear_part x s y : no_clear (x ++ s ++ y) -> no_clear s.
Proof.
  intros Hn u v. destruct (Hn (map tolower x ++ u) (v ++ map tolower y)) as [H1 H2]. rewrite !map_app in H1, H2. split; intros E; [apply H1|apply H2]; by rewrite E, <- !app_assoc.
Qed.

Lemma skip_spaces_part s : exists x, s = x ++ skip_spaces s.
Proof.
  induction s as [|c s [x IH]]; [by exists []|]. cbn [skip_spaces]. destruct (isspace c); [|by exists []]. exists (c :: x). cbn. by rewrite <- IH.
Qed.

Lemma word_part s w next : skip_over_word s = (w, next) -> s = w ++ next.
Proof.
  revert w next. induction s as [|c s IH]; intros w next; cbn [skip_over_word]; [by intros [= <- <-]|]. destruct (negb (isspace c) && negb (c =? 44)); [|by intros [= <- <-]].
  destruct (skip_over_word s) as [w' next'] eqn:E. intros [= <- <-]. cbn. f_equal. by apply IH.
Qed.

(** What is reported with an error. *)
Definition refused (ok clear_ok : option (list Z)) (te me : Z) : Prop :=
  te = 0 /\ me = 0 \/ exists c k, 0 <= c <= 2 /\ 0 <= k < 32 /\ me = 2 ^ k /\ (te = c /\ allowed ok c k = false \/ te = Z.lor c E2P_FEATURE_NEGATE_FLAG /\ allowed clear_ok c k = false).

Definition edit_ok (ok clear_ok : option (list Z)) (K : Prop) (a : list Z) (x : outcome (Z * list Z * Z * Z)) : Prop :=
  exists rc a' te me, x = Done (rc, a', te, me) /\ three_words a' /\ edited ok clear_ok K a a' /\ (rc = 0 /\ te = 0 /\ me = 0 \/ rc = 1 /\ refused ok clear_ok te me).

Lemma edit_ok_trans ok cl (K K' : Prop) a b x : (K -> K') -> edited ok cl K a b -> edit_ok ok cl K' b x -> edit_ok ok cl K a x.
Proof.
  intros Hi E (rc & a' & te & me & -> & Hw & E' & Hend). exists rc, a', te, me. split; [done|]. split; [done|]. split; [|done]. apply (edited_trans _ _ _ _ b); [done|]. by apply (edited_imp _ _ K').
Qed.

Lemma edit_stop ok cl K a rc te me : three_words a -> rc = 0 /\ te = 0 /\ me = 0 \/ rc = 1 /\ refused ok cl te me -> edit_ok ok cl K a (Done (rc, a, te, me)).
Proof. intros Hw Hend. exists rc, a, te, me. split; [done|]. split; [done|]. split; [apply edited_refl|done]. Qed.

Lemma edit_loop_ok fuel : forall cp a ok cl, (length cp < fuel)%nat -> three_words a -> edit_ok ok cl (no_clear cp) a (edit_loop fuel cp a ok cl).
Proof.
  induction fuel as [|fuel IH]; intros cp a ok cl Hf Hw; [lia|]. cbn [edit_loop]. destruct cp as [|c0 cp0]; [apply edit_stop; auto|]. remember (c0 :: cp0) as cp eqn:Ecp. clear c0 cp0 Ecp.
  destruct (skip_spaces_part cp) as [x Ex]. unfold skip_over_blanks. destruct (skip_over_word (skip_spaces cp)) as [w next] eqn:Ew. apply word_part in Ew. rewrite Ew in Ex.
  assert (Hgo : forall b, three_words b -> edited ok cl (no_clear cp) a b -> edit_ok ok cl (no_clear cp) a (match next with [] => Done (0, b, 0, 0) | _ :: cp => edit_loop fuel cp b ok cl end)).
  { intros b Hb E. destruct next as [|s next]; [apply (edit_ok_trans _ _ _ (no_clear cp) _ b); [done|done|]; apply edit_stop; auto|].
    apply (edit_ok_trans _ _ _ (no_clear next) _ b); [|done|apply IH; [|done]].
    - rewrite Ex. intros Hn. apply (no_clear_part (x ++ w ++ [s]) next []). by rewrite app_nil_r, <- !app_assoc.
    - rewrite Ex, !length_app in Hf. cbn in Hf. lia. }
  destruct (strcasecmp w (text "none") || strcasecmp w (text "clear")) eqn:En.
  { apply Hgo; [split; [done|]; repeat constructor; unfold is_u32; lia|]. split.
    - intros c k Hc _ _ Hb. exfalso. assert (Hz : c = 0 \/ c = 1 \/ c = 2) by lia. destruct Hz as [-> | [-> | ->]]; unfold bit_of in Hb; cbn in Hb; by rewrite Z.bits_0 in Hb.
    - intros Hn. exfalso. rewrite Ex in Hn. apply no_clear_part in Hn. destruct (Hn [] []) as [H1 H2]. rewrite !app_nil_r in *. cbn [app] in *.
      apply orb_true_iff in En as [En|En]; unfold strcasecmp in En; apply bool_decide_eq_true in En; [by apply H1|by apply H2]. }
  destruct (word_sign w) as [neg w'] eqn:Es. destruct (e2p_string2feature w') as [[c m]|] eqn:Ef; [|apply edit_stop; [done|]; right; split; [done|by left]].
  destruct (feature_bit _ _ Ef) as [Hc (k & Hk & Em)]. cbn [fst snd] in *. subst m. rewrite !allows_bit by lia. destruct neg.
  - destruct (allowed cl c k) eqn:Ha; cbn [negb]; [|apply edit_stop; [done|]; right; split; [done|]; right; exists c, k; auto 10].
    destruct (clear_bit_edited ok cl (no_clear cp) a c k Hw Hc Hk Ha) as [Hw' E']. by apply Hgo.
  - destruct (allowed ok c k) eqn:Ha; cbn [negb]; [|apply edit_stop; [done|]; right; split; [done|]; right; exists c, k; auto 10].
    destruct (set_bit_edited ok cl (no_clear cp) a c k Hw Hc Hk Ha) as [Hw' E']. by apply Hgo.
Qed.

(** C23: a list of names edits a set of features only as far as it may.  Whatever the text
    is, and whether or not there is memory, [e2p_edit_feature2] returns and the three
    words stay words; a feature that appears is one that [ok_array] has; unless the text
    has the words that clear all features, one that disappears is one that
    [clear_ok_array] has (or [ok_array], if there is none).  If a feature is reported
    with an error, it is one that may not be set, or not be cleared. *)
Theorem edit_feature_safe mem str a ok clear_ok : three_words a ->
  let cl := match clear_ok with Some _ => clear_ok | None => ok end in
  exists rc a' te me, e2p_edit_feature2 mem str a ok clear_ok = Done (rc, a', te, me) /\ three_words a' /\
    (forall c k, 0 <= c <= 2 -> 0 <= k -> bit_of a c k = false -> bit_of a' c k = true -> allowed ok c k = true) /\
    (no_clear str -> forall c k, 0 <= c <= 2 -> 0 <= k -> bit_of a c k = true -> bit_of a' c k = false -> allowed cl c k = true) /\
    (rc = 0 /\ te = 0 /\ me = 0 \/ rc = 1 /\ refused ok cl te me).
Proof.
  intros Hw cl. unfold e2p_edit_feature2. fold cl. assert (Hok : edit_ok ok cl (no_clear str) a (if negb mem then Done (1, a, 0, 0) else edit_loop (Datatypes.S (length str)) str a ok cl)).
  { destruct mem; cbn [negb]; [apply edit_loop_ok; [lia|done]|apply edit_stop; [done|]; right; split; [done|by left]]. }
  destruct Hok as (rc & a' & te & me & E & Hw' & [Hs Hc] & Hend). by exists rc, a', te, me.
Qed.

Lemma edit_feature_safe_witness : three_words [0; 2; 0] /\
  exists rc a' te me, e2p_edit_feature2 true (text "extents ^filetype quota") [0; 2; 0] (Some [0; 0x40; 0]) None = Done (rc, a', te, me) /\ three_words a' /\
    (forall c k, 0 <= c <= 2 -> 0 <= k -> bit_of [0; 2; 0] c k = false -> bit_of a' c k = true -> allowed (Some [0; 0x40; 0]) c k = true) /\
    (no_clear (text "extents ^filetype quota") -> forall c k, 0 <= c <= 2 -> 0 <= k -> bit_of [0; 2; 0] c k = true -> bit_of a' c k = false -> allowed (Some [0; 0x40; 0]) c k = true) /\
    (rc = 0 /\ te = 0 /\ me = 0 \/ rc = 1 /\ refused (Some [0; 0x40; 0]) (Some [0; 0x40; 0]) te me).
Proof.
  assert (Hw : three_words [0; 2; 0]) by (split; [done|]; repeat constructor; unfold is_u32; lia). split; [exact Hw|].
  exact (edit_feature_safe true (text "extents ^filetype quota") [0; 2; 0] (Some [0; 0x40; 0]) None Hw).
Defined.

(** Editing some features. *)
Example edit_example : e2p_edit_feature2 true (text "has_journal,^resize_inode, +FEATURE_I7") [0x38; 0x2; 0x3] None None = Done (0, [0x2c; 0x82; 0x3], 0, 0).
Proof. vm_compute. reflexivity. Qed.

Example edit_refused : e2p_edit_feature2 true (text "extents ^filetype quota") [0; 2; 0] (Some [0; 0x40; 0]) None = Done (1, [0; 0x42; 0], 0x81, 2).
Proof. vm_compute. reflexivity. Qed.

(** * Percentages *)

(** The part of a number is at most what it should be, less than the percentage below
    it, and exact for small numbers and for percentages that divide 100. *)
Theorem percent_bounds percent base : 0 <= percent <= 100 -> is_u32 base ->
  let exact := percent * base / 100 in
  exact - percent <= e2p_percent percent base <= exact /\ (base < 2 ^ 24 \/ percent <> 0 /\ 100 mod percent = 0 -> e2p_percent percent base = exact).
Proof.
  intros Hp Hb exact. unfold is_u32 in Hb. unfold e2p_percent. destruct (Z.eqb_spec percent 0) as [->|Hne]; [unfold exact; rewrite Z.mul_0_l, Z.div_0_l by lia; lia|].
  rewrite Z.rem_mod_nonneg, Z.quot_div_nonneg by lia. assert (Hu : u32 percent = percent) by (apply u32_small; unfold is_u32; lia).
  destruct (Z.eqb_spec (100 mod percent) 0) as [Hd|Hd].
  - assert (Hq : percent * (100 / percent) = 100) by (pose proof (Z_div_mod_eq_full 100 percent); lia). assert (Hq0 : 0 < 100 / percent) by (apply Z.div_str_pos; lia).
    assert (Hq1 : 100 / percent <= 100) by (apply Z.div_le_upper_bound; lia). rewrite (u32_small (100 / percent)) by (unfold is_u32; lia).
    assert (E : base / (100 / percent) = exact) by (unfold exact; rewrite <- Hq at 2; by rewrite Z.div_mul_cancel_l by lia). rewrite E. lia.
  - rewrite Hu. change (u32 (Z.lnot (Z.shiftl 1 24 - 1))) with 0xFF000000.
    assert (Hlo : base < 2 ^ 24 -> Z.land 0xFF000000 base = 0).
    { intros Hs. apply Z.bits_inj'. intros n Hn. rewrite Z.land_spec, Z.bits_0. destruct (decide (n < 24)) as [Hl|Hl]; [|by rewrite (testbit_high 24 base n), andb_false_r by lia].
      change 0xFF000000 with (255 * 2 ^ 24). by rewrite Z.mul_pow2_bits_low by lia. }
    destruct (Z.eqb_spec (Z.land 0xFF000000 base) 0) as [Hz|Hz]; cbn [negb].
    + assert (Hs : base < 2 ^ 24).
      { assert (Hhi : base / 2 ^ 24 = 0); [|pose proof (Z_div_mod_eq_full base (2 ^ 24)); pose proof (Z.mod_pos_bound base (2 ^ 24) ltac:(lia)); lia].
        apply Z.bits_inj'. intros n Hn. rewrite Z.div_pow2_bits, Z.bits_0 by lia. destruct (decide (n < 8)) as [Hl|Hl]; [|apply (testbit_high 32); lia].
        apply (f_equal (fun x => Z.testbit x (n + 24))) in Hz. rewrite Z.land_spec, Z.bits_0 in Hz. change 0xFF000000 with (Z.shiftl (Z.ones 8) 24) in Hz.
        rewrite Z.shiftl_spec, Z.add_simpl_r, Z.ones_spec_low in Hz by lia. done. }
      rewrite u32_small by (unfold is_u32; nia). unfold exact. rewrite (Z.mul_comm base). lia.
    + assert (Hbig : 2 ^ 24 <= base) by (destruct (Z.lt_ge_cases base (2 ^ 24)) as [Hs|Hs]; [by apply Hlo in Hs|done]).
      pose proof (Z_div_mod_eq_full base 100) as Eb. pose proof (Z.mod_pos_bound base 100 ltac:(lia)). set (q := base / 100) in *. set (r := base mod 100) in *.
      rewrite u32_small by (unfold is_u32; nia). assert (Ee : exact = q * percent + percent * r / 100) by (unfold exact; rewrite Eb; replace (percent * (100 * q + r)) with (q * percent * 100 + percent * r) by ring; by rewrite Z.div_add_l by lia).
      assert (0 <= percent * r / 100 <= percent) by (split; [apply Z.div_pos; nia|apply Z.div_le_upper_bound; nia]). split; [lia|]. intros [Hs|[_ Hs]]; [lia|done].
Qed.

(** * What the code does not do *)

(** The number of a mount option is looked for one character behind its prefix: what is
    printed for an option without a name is not read back, or as another one. *)
Example mntopt_not_read : e2p_string2mntopt (e2p_mntopt2string 0x80 ++ [0]) = Done None /\ e2p_string2mntopt (e2p_mntopt2string 0x1000 ++ [0]) = Done (Some 4).
Proof. vm_compute. done. Qed.

(** For the prefix alone a byte behind the end of the text is read. *)
Example mntopt_overrun : e2p_string2mntopt (text "MNTOPT_" ++ [0]) = Crash BadPointer /\ e2p_edit_mntopts true (text "MNTOPT_,12") 0 0 = Done (1, 0x1000).
Proof. vm_compute. done. Qed.

(** A number that does not fit in 32 bits is taken for a small one. *)
Example feature_wraps : e2p_string2feature (text "FEATURE_C4294967298") = Some (0, 4).
Proof. vm_compute. done. Qed.

(** One blank at the end of a list of names is accepted, two are not. *)
Example blanks_at_end : e2p_edit_feature true (text "quota ") [0; 0; 0] None = Done (0, [0; 0; 0x100]) /\ e2p_edit_feature true (text "quota  ") [0; 0; 0] None = Done (1, [0; 0; 0x100]).
Proof. vm_compute. done. Qed.

(** [none] clears features that may not be cleared. *)
Example none_clears : e2p_edit_feature2 true (text "none") [4; 2; 0] (Some [0; 0; 0]) (Some [0; 0; 0]) = Done (0, [0; 0; 0], 0, 0).
Proof. vm_compute. done. Qed.
